(* ===== verification/_CoqProject ===== *)
-Q . S2P
Prelude.v
Tables.v
GoStrings.v
GoPath.v
AlertModel.v
AlertStore.v
AlertRouting.v
AlertEngine.v
AlertInvariant.v
AlertCorrect.v
GoTime.v
EscalationStore.v
EscalationPolicy.v
EscalationRunner.v
EscalationLaws.v
EscalationInvariant.v
EscalationSafe.v
EscalationCycle.v
EscalationCorrect.v
Heartbeat.v
HeartbeatService.v
HeartbeatInvariant.v
HeartbeatSteps.v
HeartbeatCorrect.v
AlertTracker.v
TrackerMirror.v
SwarmAlerts.v
SwarmTrackers.v
SwarmCorrect.v
Uid.v
Endpoint.v
EndpointLabels.v
EndpointStore.v
EndpointService.v
EndpointCheck.v
EndpointRunners.v
EndpointCorrect.v
Container.v
ContainerStore.v
ContainerService.v
ContainerAgent.v
ContainerSafe.v
ContainerTimeline.v
ContainerCorrect.v
DownDetector.v
Uptime.v
UptimeDaily.v
UptimeRollup.v
UptimeCorrect.v
Retention.v
RetentionCorrect.v
GoFloat.v
Certificate.v
CertStore.v
CertService.v
CertScan.v
CertCorrect.v
Status.v
StatusService.v
StatusAdmin.v
StatusMaintenance.v
StatusHistory.v
StatusIncidents.v
StatusPublic.v
StatusCorrect.v
UpdateTags.v
UpdateModel.v
UpdateCommands.v
UpdateStore.v
UpdateScan.v
UpdateCorrect.v
K8sAlerts.v
K8sCorrect.v
AgentSpool.v
AckTracker.v
SpoolProtocol.v
SpoolInvariant.v
SpoolDelivery.v
SpoolDrain.v
SpoolCorrect.v
