(* ===== verification/Prelude.v ===== *)
(** * maintenant: a verification development

    maintenant ([src/cmd], [src/internal]) is a Go server that watches containers,
    heartbeats, HTTP and TCP endpoints, certificates, Docker Swarm services and
    Kubernetes objects, on its own host and through agents, and alerts its
    operators.  This library models the parts that decide something, file by file
    and function by function, and proves what those parts promise one another.

    ** The program and where its parts are

    The monitoring services (heartbeats, endpoints, containers, certificates, image
    updates, the Swarm trackers and the Kubernetes checker) observe the world, keep
    their rows in a SQL database and send [Event]s to the alert engine.  The engine
    deduplicates them, stores alerts, notifies through channels selected by triggers, and calls the
    escalation runner through an interface.  An agent on a remote host runs the
    same observations and pushes them over a stream, through a spool that survives
    broken connections; the server acknowledges what it handled.

    - [Prelude], [Tables], [GoStrings], [GoTime]: the state monad of the handlers
      with its weakest preconditions, the SQL statements over a table, the parts of
      Go's [strings], [strconv], [net] and [time] the code uses, machine integers.
    - Alert engine: [AlertModel] ([alert/model.go]), [AlertStore]
      ([store/alerts.go], [channels.go], [triggers.go], [silence.go]),
      [AlertRouting] (silences, triggers, dispatch) and [AlertEngine]
      ([alert/engine.go]); invariants in [AlertInvariant], theorems in
      [AlertCorrect].
    - Escalation: [EscalationStore] ([store/escalation.go]), [EscalationPolicy]
      ([commercial/escalation/service.go], [overlap.go]), [EscalationRunner]
      ([runner.go]); [EscalationLaws] shows that the runner is an escalator the
      engine may have, [EscalationInvariant], [EscalationSafe], [EscalationCycle]
      and [EscalationCorrect] hold its theorems.
    - Heartbeats: [Heartbeat] ([heartbeat/model.go], [store/heartbeats.go]),
      [HeartbeatService] ([heartbeat/service.go], [agent_event.go]),
      [HeartbeatInvariant], [HeartbeatSteps], [HeartbeatCorrect].
    - Trackers: the class [Tracker] of [AlertTracker] is what every machine that
      raises alerts promises to the engine; [TrackerMirror] proves once that the
      engine mirrors any tracker.  Instances: the Swarm trackers ([SwarmAlerts],
      [SwarmTrackers], [SwarmCorrect], from [swarm/alerts.go], [crashloop.go],
      [update.go], [node.go]), the Kubernetes checker ([K8sAlerts], [K8sCorrect],
      from [kubernetes/alerts.go]) and the endpoint thresholds ([EndpointCheck]).
    - Endpoints: [Endpoint] ([endpoint/model.go], [status.go]), [EndpointLabels]
      ([labels.go]), [EndpointStore] ([store/endpoints.go]), [EndpointService]
      ([service.go], [checker.go], [agent_event.go]), theorems in [EndpointCheck],
      [EndpointRunners], [EndpointCorrect].
    - Identifiers: [Uid] ([uid/uid.go]), over a hash that is a parameter.
    - Containers: [Container] ([container/model.go], [labels.go],
      [image_labels.go]), [ContainerStore] ([store/containers.go]),
      [ContainerService] ([container/service.go], [restart_recovery.go],
      [alert/alerts.go]), [ContainerAgent] ([agent_event.go],
      [agent_details.go]); theorems in [ContainerSafe], [ContainerTimeline],
      [ContainerCorrect].  [DownDetector] is [alert/down.go].
    - Uptime and retention: [Uptime] ([container/uptime.go]), [UptimeDaily]
      ([store/uptime_daily.go]) with theorems in [UptimeRollup], [UptimeCorrect];
      [Retention] ([store/retention.go], [batchdelete.go]), [RetentionCorrect].
    - Certificates: [Certificate] ([certificate/model.go], [labels.go],
      [checker.go]), its days in [GoFloat], [CertStore]
      ([store/certificates.go]), [CertService] ([certificate/service.go],
      [agent_event.go]); theorems in [CertScan], [CertCorrect].
    - Status page: [Status] ([status/model.go] and the stores
      [status_components.go], [incidents.go], [maintenance.go]), [StatusService]
      ([status/service.go], [announce.go], [commercial/statuspage]),
      [StatusAdmin] ([api/v1/status_admin.go]); [StatusMaintenance],
      [StatusHistory], [StatusIncidents], [StatusPublic], [StatusCorrect] hold its
      theorems.
    - Image updates: [UpdateTags] ([update/semver.go], [tagfilter.go],
      [tagparse.go]), [UpdateModel] ([update/model.go], [labels.go], the references
      of [scanner.go]), [UpdateCommands] (the commands of [update/service.go], read
      by a shell), [UpdateStore] ([store/updates.go]), [UpdateScan]
      ([update/scanner.go], [container_adapter.go], [service.go]),
      [UpdateCorrect].  [GoPath] has the runes and paths of Go they use.
    - The agent's spool: [AgentSpool] ([agent/spool.go], [spool_store.go]),
      [AckTracker] ([commercial/multihost/ack.go], [enrollment.go]), and the two of
      them as one machine of interleaved steps, [SpoolProtocol], with
      [SpoolInvariant], [SpoolDelivery], [SpoolDrain], [SpoolCorrect].

    ** How the code is translated

    A handler is a computation of the monad [M S] of [Prelude] over the record [S]
    of what its component keeps: the tables it writes, its in-memory maps, and the
    lists of what it handed to callbacks (events for the browsers, alerts for the
    engine).  A statement of the database is [db_exec], [db_query] or [db_insert]:
    it fails or not as the environment of the world says, and the code's early
    returns and continuations after an error are kept.  Clock readings and fresh
    identifiers come from the same environment, so a theorem over every
    environment is a theorem over every clock, every supply of identifiers and
    every pattern of failures; [fault_free] is the environment where nothing
    fails.  A row is kept as it is read back (times truncated to the second).
    Purely functional machines (the Swarm trackers, the Kubernetes checker, the
    spool) are functions from their state and an observation to their state and
    what they send.  [int] and [int64] are [Z] with their wrap-around written out
    ([wrap64]) where the code can reach it.  A loop over a Go map has no fixed
    order: it follows the enumeration of a [gmap], or the order is an argument.

    Code outside the repository is a parameter with named laws or none: the SHA-1
    of UUIDs ([Uuid]), URL, duration and JSON parsing ([Parsers]), protobuf, the
    JSON text of details ([json]), the licence ([EndpointLicense],
    [LicenseChecker]), the delivery of a notification ([Sender]), TLS and
    certificates ([Tls]), the limits of the edition ([CertLicense],
    [PageLicense]), semantic versions and [sort.Slice] ([Semver], a function that
    sorts), regular expressions ([Regexp]), the registries and the details of the
    local runtime ([UpdateDeps]), the enrichment of updates ([Enricher]), the
    discovery of containers ([ContainerDeps]).  The order in which a map is
    visited, the moment a context is cancelled, and the order in which scheduled
    scans end are arguments too.
    What only talks to the network (probes, sends) has its result as an argument.

    ** What the theorems show

    - Invariants under every pattern of failures: the engine's map is backed by
      active rows ([AlertCorrect.engine_invariant]), heartbeats stay well formed
      ([HeartbeatCorrect.heartbeat_invariant]), runs and deliveries of escalations
      too ([EscalationCorrect.runner_invariant]).
    - Refinement of an abstract specification: the engine is a map from keys to
      severities ([AlertCorrect.engine_refines]); the engine mirrors a tracker
      ([TrackerMirror.engine_mirrors]); a cycle of the runner is [step_run]
      ([EscalationCorrect.cycle_refines]); synchronising a container's labels
      leaves exactly what they declare ([EndpointCorrect.sync_exact]).
    - Safety: no escalation level and no missed heartbeat before its time, no
      notification twice, no acknowledgement lost, no event of an agent forgotten
      before the server had it, no probe of another agent's endpoint.
    - Liveness and termination: an unattended alert exhausts its policy, a
      reconnection empties the spool, the drain and the purge terminate.
    - Equivalence with a definition over the whole history: crash-loop and restart
      windows ([SwarmCorrect.crash_window_exact], [K8sCorrect.restart_window_exact]),
      the thresholds of endpoints ([EndpointCheck.alert_hysteresis]).
    - Bounds: the budgets of the spool, the settings read from labels.
    - Round trips: restarts of the engine and of the trackers, licence downgrade
      and upgrade.
    - Containers: their tables keep their type and their hosts apart
      ([ContainerSafe]), their timeline leads to their state
      ([ContainerTimeline.timeline_faithful]), restart and down alerts follow their
      definition ([ContainerCorrect], [DownDetector]).
    - Uptime: what is served is that of the raw rows before and after a rollup
      ([UptimeCorrect.aggregation_transparent]), a heartbeat's is its share of time
      ([UptimeCorrect.heartbeat_uptime_exact]), and retention only deletes what is
      old and accounted for ([RetentionCorrect]).
    - Certificates: labels, synchronisation and alerts are exact, and the server
      dials targets of its own only ([CertScan], [CertCorrect]).
    - Status page: maintenance gives back the overrides it took, the public page is
      told of visible components only, incidents follow alerts ([StatusCorrect]).
    - Image updates: the tag proposed is the best eligible one
      ([UpdateTags.best_update_exact]), a shell reads the commands as the steps they
      stand for ([UpdateCommands.commands_exact]), a scan replaces the pending
      updates of what it covered ([UpdateCorrect.scan_replaces]) and their alerts
      follow ([UpdateCorrect.update_alerts_follow]).
    Each component's file of theorems ends in a Module of concrete runs: the
    witnesses of the theorems with hypotheses, and [Example]s in which the code does
    not do what it means to.

    ** Fuel and bounds

    Loops of the code are structural recursions over the list they range over
    ([for_each], [for_acc]).  Fuel appears in the readings of a text ([trim_left],
    [trim_start], [trim_end], [runes], [matchChunk], [match_pattern]: its length,
    since each round consumes a byte), in [digits_below] (the 20 digits of a 64-bit
    number), in the drain of the spool (one round per stored row, shown to be enough
    by [SpoolDrain.drain_sends_all]) and in the purges (one batch per row,
    [EscalationPolicy.purge_exact], [RetentionCorrect.batched_purge_exact]).

    ** Not modelled

    HTTP handlers (decoding around the services; those of [StatusAdmin] and the pins
    of [UpdateScan] are modelled), the MCP server and flags; Docker, Kubernetes and
    gRPC clients, SMTP, Telegram and webhooks, the HTTP and TCP probes (network
    I/O); SQLite and PostgreSQL drivers and migrations; logging; paginated listings.
    Goroutines are modelled by interleavings of critical sections where the order
    matters (the spool, checks on demand); elsewhere a handler runs as a whole.
    Also left out: the pages of SQLite a purge reclaims, the broker of browser
    events, the subscribers of the status page and its rendering, the look-up of
    vulnerabilities and changelogs, scores computed in floating point (risk,
    posture), resource samples, the end-of-life tables and rate limiters.  The
    alerts of image updates reach the status page through the operations of
    [StatusService]; the callback of [UpdateScan] hands them to the engine only. *)

From stdpp Require Export base gmap strings list numbers pretty sorting.
From Stdlib Require Export ZArith Lia.

#[export] Set Default Goal Selector "!".

(** ** Results of fallible code

    Go's [(T, error)] pairs are values of [result T].  An error is either a
    failing call to the store (its text never decides anything) or one of the
    sentinel errors of the program, named by its text. *)

Inductive error :=
  | EStore
  | ESentinel (text : string).

Inductive result (A : Type) :=
  | Ok (a : A)
  | Err (e : error).
Arguments Ok {A} a.
Arguments Err {A} e.

#[export] Instance error_eq_dec : EqDecision error.
Proof. solve_decision. Defined.

Definition is_ok {A} (r : result A) : bool :=
  match r with Ok _ => true | Err _ => false end.

(** ** Updating a field of a record

    [r <| f := v |>] and [r <| f ::= g |>]; a record type opts in with an
    instance of [Eta] that rebuilds it from its fields. *)

Class Eta (R : Type) := eta_of : R → R.
Class Setter {R T : Type} (proj : R → T) := set_field : (T → T) → R → R.
Arguments set_field {R T} proj {_} f r /.

Ltac solve_setter :=
  match goal with
  | |- @Setter ?R ?T ?proj =>
    let inst := constr:(_ : Eta R) in
    let eta := eval hnf in inst in
    match eval pattern proj in eta with
    | ?upd _ => exact (λ f, upd (λ r, f (proj r)))
    end
  end.
#[export] Hint Extern 1 (Setter _) => solve_setter : typeclass_instances.

Declare Scope record_scope.
Notation "x <| proj := v |>" := (set_field proj (λ _, v) x)
  (at level 12, left associativity, proj at level 11, v at level 200) : record_scope.
Notation "x <| proj ::= f |>" := (set_field proj f x)
  (at level 12, left associativity, proj at level 11, f at level 200) : record_scope.
#[global] Open Scope record_scope.

(** ** The environment

    What a handler cannot decide by itself is read from an environment: the
    [n]-th consultation fails or not, reads this clock value, or is handed this
    fresh identifier.  Theorems quantify over every environment, so over every
    pattern of failures, every clock and every supply of identifiers. *)

Record env := Env {
  env_fault : nat → bool;
  env_now : nat → Z;
  env_uid : nat → string;
}.

Record world (S : Type) := World {
  w_env : env;
  w_tick : nat;
  w_st : S;
}.
Arguments World {S} _ _ _.
Arguments w_env {S} _.
Arguments w_tick {S} _.
Arguments w_st {S} _.

(** ** The state monad of the handlers *)

Definition M (S A : Type) : Type := world S → A * world S.

Definition ret {S A} (a : A) : M S A := λ w, (a, w).

Definition bind {S A B} (m : M S A) (k : A → M S B) : M S B :=
  λ w, let r := m w in k r.1 r.2.

Definition gets {S A} (f : S → A) : M S A := λ w, (f (w_st w), w).

Definition modify {S} (f : S → S) : M S unit :=
  λ w, (tt, World (w_env w) (w_tick w) (f (w_st w))).

Definition consult {S A} (read : env → nat → A) : M S A :=
  λ w, (read (w_env w) (w_tick w), World (w_env w) (Datatypes.S (w_tick w)) (w_st w)).

(** One failing or succeeding external call. *)
Definition fault {S} : M S bool := consult env_fault.

(** [time.Now()]. *)
Definition now {S} : M S Z := consult env_now.

(** [uid.New()]: a fresh identifier. *)
Definition new_uid {S} : M S string := consult env_uid.

Declare Scope go_scope.
Delimit Scope go_scope with go.

Notation "'let!' x := m 'in' k" := (bind m (λ x, k))
  (at level 10, x name, m at level 100, k at level 200,
   format "'[v' 'let!'  x  :=  m  'in' '/' k ']'") : go_scope.
Notation "'do!' m 'in' k" := (bind m (λ _, k))
  (at level 10, m at level 100, k at level 200,
   format "'[v' 'do!'  m  'in' '/' k ']'") : go_scope.
Notation "'let?' x := m 'in' k" :=
  (bind m (λ r, match r with Ok x => k | Err e => ret (Err e) end))
  (at level 10, x name, m at level 100, k at level 200,
   format "'[v' 'let?'  x  :=  m  'in' '/' k ']'") : go_scope.
Notation "'do?' m 'in' k" :=
  (bind m (λ r, match r with Ok _ => k | Err e => ret (Err e) end))
  (at level 10, m at level 100, k at level 200,
   format "'[v' 'do?'  m  'in' '/' k ']'") : go_scope.
Notation "'when!' b 'then' m 'in' k" := (bind (if b then m else ret tt) (λ _, k))
  (at level 10, b at level 100, m at level 100, k at level 200,
   format "'[v' 'when!'  b  'then'  m  'in' '/' k ']'") : go_scope.
#[global] Open Scope go_scope.

(** A [for range] loop over a list that is read before the loop starts. *)
Fixpoint for_each {S A} (l : list A) (body : A → M S unit) : M S unit :=
  match l with
  | [] => ret tt
  | a :: l => do! body a in for_each l body
  end.

(** The same, with local variables carried from one round to the next. *)
Fixpoint for_acc {S A B} (l : list A) (acc : B) (body : B → A → M S B) : M S B :=
  match l with
  | [] => ret acc
  | a :: l => let! acc := body acc a in for_acc l acc body
  end.

(** A statement of the store: it fails and changes nothing, or it succeeds. *)
Definition db_exec {S} (f : S → S) : M S (result unit) :=
  let! failed := fault in
  if failed then ret (Err EStore)
  else do! modify f in ret (Ok tt).

Definition db_query {S A} (q : S → A) : M S (result A) :=
  let! failed := fault in
  if failed then ret (Err EStore)
  else let! a := gets q in ret (Ok a).

(** ** Weakest preconditions *)

Definition wp {S A} (m : M S A) (Q : A → world S → Prop) (w : world S) : Prop :=
  Q (m w).1 (m w).2.

Section wp.
Context {S : Type}.
Implicit Types w : world S.

Lemma wp_ret {A} (a : A) Q w : Q a w → wp (ret a) Q w.
Proof. done. Qed.

Lemma wp_bind {A B} (m : M S A) (k : A → M S B) Q w :
  wp m (λ a, wp (k a) Q) w → wp (bind m k) Q w.
Proof. done. Qed.

Lemma wp_gets {A} (f : S → A) Q w : Q (f (w_st w)) w → wp (gets f) Q w.
Proof. done. Qed.

Lemma wp_modify (f : S → S) Q w :
  Q tt (World (w_env w) (w_tick w) (f (w_st w))) → wp (modify f) Q w.
Proof. done. Qed.

Lemma wp_mono {A} (m : M S A) (P Q : A → world S → Prop) w :
  wp m P w → (∀ a w', P a w' → Q a w') → wp m Q w.
Proof. unfold wp. auto. Qed.

(** What is known of a run whose result has been computed. *)
Lemma wp_result {A} (m : M S A) Q w a : wp m Q w → (m w).1 = a → Q a (m w).2.
Proof. by intros H <-. Qed.

Lemma wp_ext {A} (m m' : M S A) Q w : m w = m' w → wp m' Q w → wp m Q w.
Proof. unfold wp. by intros ->. Qed.

Lemma wp_and {A} (m : M S A) (P Q : A → world S → Prop) w :
  wp m P w → wp m Q w → wp m (λ a w', P a w' ∧ Q a w') w.
Proof. done. Qed.

Lemma wp_for_each {A} (l : list A) (body : A → M S unit) (I : world S → Prop) w :
  (∀ a w, a ∈ l → I w → wp (body a) (λ _, I) w) →
  I w → wp (for_each l body) (λ _, I) w.
Proof.
  revert w. induction l as [|a l IH]; intros w Hstep HI; [done|].
  cbn. apply wp_bind. eapply wp_mono; [apply Hstep; [left|exact HI]|].
  intros [] w' HI'. apply IH; [|done]. intros b w2 Hb. apply Hstep. by right.
Qed.

(** A loop invariant over the rounds already done. *)
Lemma wp_for_acc {A B} (l : list A) (acc : B) (body : B → A → M S B)
    (I : list A → B → world S → Prop) w :
  (∀ done a rest acc w, l = done ++ a :: rest → I done acc w →
    wp (body acc a) (λ acc', I (done ++ [a]) acc') w) →
  I [] acc w → wp (for_acc l acc body) (λ acc', I l acc') w.
Proof.
  intros Hstep H0.
  enough (∀ rest done acc w, l = done ++ rest → I done acc w →
    wp (for_acc rest acc body) (λ acc', I l acc') w) as H by (by apply (H l [])).
  clear acc w H0. induction rest as [|a rest IH]; intros done acc w Hl HI; cbn.
  - rewrite Hl, app_nil_r. by apply wp_ret.
  - apply wp_bind. eapply wp_mono; [by eapply Hstep|]. cbn. intros acc' w' HI'.
    apply (IH (done ++ [a])); [by rewrite <- app_assoc|done].
Qed.
End wp.

(** A loop whose rounds are loops runs over the concatenation. *)
Lemma for_acc_app {S A B} (l1 l2 : list A) (acc : B) (body : B → A → M S B) w :
  for_acc (l1 ++ l2) acc body w = (let! acc := for_acc l1 acc body in for_acc l2 acc body) w.
Proof. revert acc w. induction l1 as [|a l1 IH]; intros acc w; [done|]. cbn. apply IH. Qed.

(** ** Relations between the state before and after

    [steps R m]: whatever the environment answers, running [m] relates the
    states before and after by [R].  With [R] a preorder this is closed under
    the constructs of the handlers, which the [steps] hints exploit. *)

Definition steps {S A} (R : S → S → Prop) (m : M S A) : Prop :=
  ∀ w, R (w_st w) (w_st (m w).2) ∧ w_env (m w).2 = w_env w.

(** An invariant is the relation "if it held before, it holds after". *)
Definition keeps {S} (I : S → Prop) : S → S → Prop := λ s s', I s → I s'.

#[export] Instance keeps_preorder {S} (I : S → Prop) : PreOrder (keeps I).
Proof. split; unfold keeps; [intros ??; done|intros ???; tauto]. Qed.

Section steps.
Context {S : Type} (R : S → S → Prop) `{!PreOrder R}.

Lemma steps_ret {A} (a : A) : steps R (ret a).
Proof. intros w. split; [reflexivity|done]. Qed.

Lemma steps_bind {A B} (m : M S A) (k : A → M S B) :
  steps R m → (∀ a, steps R (k a)) → steps R (bind m k).
Proof.
  intros Hm Hk w. unfold bind. destruct (Hm w) as [H1 H2].
  destruct (Hk (m w).1 (m w).2) as [H3 H4]. split; [by etransitivity|by rewrite H4].
Qed.

Lemma steps_gets {A} (f : S → A) : steps R (gets f).
Proof. intros w. split; [reflexivity|done]. Qed.

Lemma steps_consult {A} (read : env → nat → A) : steps R (consult read).
Proof. intros w. split; [reflexivity|done]. Qed.

Lemma steps_modify (f : S → S) : (∀ s, R s (f s)) → steps R (modify f).
Proof. intros Hf w. split; [apply Hf|done]. Qed.

Lemma steps_fault : steps R fault.
Proof. apply steps_consult. Qed.

Lemma steps_now : steps R now.
Proof. apply steps_consult. Qed.

Lemma steps_new_uid : steps R new_uid.
Proof. apply steps_consult. Qed.

Lemma steps_for_each {A} (l : list A) (body : A → M S unit) :
  (∀ a, steps R (body a)) → steps R (for_each l body).
Proof.
  intros Hb. induction l as [|a l IH]; cbn; [apply steps_ret|].
  apply steps_bind; [apply Hb|intros; apply IH].
Qed.

Lemma steps_for_acc {A B} (l : list A) (acc : B) (body : B → A → M S B) :
  (∀ acc a, steps R (body acc a)) → steps R (for_acc l acc body).
Proof.
  intros Hb. revert acc. induction l as [|a l IH]; intros acc; cbn; [apply steps_ret|].
  apply steps_bind; [apply Hb|intros; apply IH].
Qed.

Lemma steps_db_exec (f : S → S) : (∀ s, R s (f s)) → steps R (db_exec f).
Proof.
  intros Hf. apply steps_bind; [apply steps_fault|]. intros []; [apply steps_ret|].
  apply steps_bind; [by apply steps_modify|intros; apply steps_ret].
Qed.

Lemma steps_db_query {A} (q : S → A) : steps R (db_query q).
Proof.
  apply steps_bind; [apply steps_fault|]. intros []; [apply steps_ret|].
  apply steps_bind; [apply steps_gets|intros; apply steps_ret].
Qed.

(** What a [steps] fact gives inside a weakest precondition. *)
Lemma steps_wp {A} (m : M S A) w :
  steps R m → wp m (λ _ w', R (w_st w) (w_st w') ∧ w_env w' = w_env w) w.
Proof. intros Hm. apply Hm. Qed.
End steps.

Create HintDb steps discriminated.
#[export] Hint Resolve steps_ret steps_gets steps_fault steps_now steps_new_uid
  steps_db_query : steps.

(** ** Environments without failures *)

Definition fault_free {S} (w : world S) : Prop := ∀ n, env_fault (w_env w) n = false.

(** [same w w']: the consultations between [w] and [w'] left the state alone. *)
Definition same {S} (w w' : world S) : Prop :=
  w_st w' = w_st w ∧ w_env w' = w_env w ∧ (w_tick w ≤ w_tick w')%nat.

(** [put w s w']: one statement turned the state of [w] into [s]. *)
Definition put {S} (w : world S) (s : S) (w' : world S) : Prop :=
  w_st w' = s ∧ w_env w' = w_env w ∧ (w_tick w ≤ w_tick w')%nat.

Section fault_free.
Context {S : Type}.
Implicit Types w : world S.

Lemma same_refl w : same w w.
Proof. done. Qed.

Lemma same_trans w1 w2 w3 : same w1 w2 → same w2 w3 → same w1 w3.
Proof. intros (H1&H2&?) (H3&H4&?). split_and!; [congruence..|lia]. Qed.

Lemma wp_consult {A} (read : env → nat → A) Q w :
  (∀ w', same w w' → w_tick w' = Datatypes.S (w_tick w) →
    Q (read (w_env w) (w_tick w)) w') → wp (consult read) Q w.
Proof. intros HQ. apply HQ; [split_and!; cbn; [done..|lia]|done]. Qed.

Lemma wp_now Q w :
  (∀ w', same w w' → Q (env_now (w_env w) (w_tick w)) w') → wp now Q w.
Proof. intros HQ. apply wp_consult. intros w' Hw _. by apply HQ. Qed.

Lemma wp_new_uid Q w :
  (∀ w', same w w' → w_tick w' = Datatypes.S (w_tick w) →
    Q (env_uid (w_env w) (w_tick w)) w') → wp new_uid Q w.
Proof. apply wp_consult. Qed.

(** The rules of the fallible statements: a failure contradicts
    [fault_free], so one proof covers the environments with failures and
    those without. *)
Lemma wp_fault Q w :
  (∀ b w', same w w' → (fault_free w → b = false) → Q b w') → wp fault Q w.
Proof. intros HQ. apply wp_consult. intros w' Hw _. apply HQ; [done|]. by intros ->. Qed.

Lemma wp_db_exec (f : S → S) Q w :
  (∀ w', same w w' → ¬ fault_free w → Q (Err EStore) w') →
  (∀ w', put w (f (w_st w)) w' → Q (Ok tt) w') →
  wp (db_exec f) Q w.
Proof.
  intros He Ho. apply wp_bind, wp_fault. intros b w' Hs Hff. destruct b.
  - apply wp_ret, He; [done|]. by intros ?%Hff.
  - apply wp_bind, wp_modify, wp_ret, Ho. destruct Hs as (Hs & Henv & Ht).
    unfold put. cbn. by rewrite Hs, Henv.
Qed.

Lemma wp_db_query {A} (q : S → A) Q w :
  (∀ w', same w w' → ¬ fault_free w → Q (Err EStore) w') →
  (∀ w', same w w' → Q (Ok (q (w_st w))) w') →
  wp (db_query q) Q w.
Proof.
  intros He Ho. apply wp_bind, wp_fault. intros b w' Hw Hff. destruct b.
  - apply wp_ret, He; [done|]. by intros ?%Hff.
  - apply wp_bind, wp_gets, wp_ret. rewrite (proj1 Hw). by apply Ho.
Qed.

Lemma wp_modify_put (f : S → S) (Q : unit → world S → Prop) w :
  (∀ w', put w (f (w_st w)) w' → Q tt w') → wp (modify f) Q w.
Proof. intros HQ. by apply wp_modify, HQ. Qed.

Lemma fault_free_env w w' : w_env w' = w_env w → fault_free w → fault_free w'.
Proof. unfold fault_free. by intros ->. Qed.
End fault_free.

(** ** Invariants of worlds

    [upholds I P m]: from a world that satisfies [I], [m] ends in one that does,
    with a result that satisfies [P].  Unlike [steps], the invariant may speak of
    the environment, and what a call returned is known to what follows. *)

Definition upholds {S A} (I : world S → Prop) (P : A → Prop) (m : M S A) : Prop :=
  ∀ w, I w → wp m (λ a w', P a ∧ I w') w.

(** Consulting the environment does not spoil the invariant. *)
Class Stable {S} (I : world S → Prop) := stable w w' : same w w' → I w → I w'.

(** What holds of a result when it is not an error. *)
Definition res_ok {A} (P : A → Prop) (r : result A) : Prop :=
  match r with Ok a => P a | Err _ => True end.

Definition anything {A} (_ : A) : Prop := True.

Section upholds.
Context {S : Type} (I : world S → Prop).

Lemma upholds_ret {A} (P : A → Prop) a : P a → upholds I P (ret a).
Proof. by intros Ha w Hw. Qed.

Lemma upholds_mono {A} (P Q : A → Prop) (m : M S A) :
  upholds I P m → (∀ a, P a → Q a) → upholds I Q m.
Proof. intros Hm HPQ w Hw. destruct (Hm w Hw). split; [by apply HPQ|done]. Qed.

Lemma upholds_any {A} (P : A → Prop) (m : M S A) : upholds I P m → upholds I anything m.
Proof. intros Hm. by eapply upholds_mono. Qed.

Lemma upholds_bind {A B} (P : A → Prop) (Q : B → Prop) (m : M S A) (k : A → M S B) :
  upholds I P m → (∀ a, P a → upholds I Q (k a)) → upholds I Q (bind m k).
Proof. intros Hm Hk w Hw. destruct (Hm w Hw) as [HP HI]. by apply (Hk _ HP). Qed.

Lemma upholds_gets {A} (P : A → Prop) (f : S → A) : (∀ w, I w → P (f (w_st w))) → upholds I P (gets f).
Proof. intros Hf w Hw. split; [by apply Hf|done]. Qed.

Lemma upholds_modify (f : S → S) :
  (∀ w, I w → I (World (w_env w) (w_tick w) (f (w_st w)))) → upholds I anything (modify f).
Proof. intros Hf w Hw. split; [done|by apply Hf]. Qed.

Lemma upholds_for_each {A} (l : list A) (body : A → M S unit) :
  (∀ a, a ∈ l → upholds I anything (body a)) → upholds I anything (for_each l body).
Proof.
  induction l as [|a l IH]; intros Hl; [by apply upholds_ret|].
  eapply upholds_bind; [apply Hl; left|]. intros _ _. apply IH. intros b Hb. apply Hl. by right.
Qed.

Lemma upholds_let {A B} (P : A → Prop) (Q : B → Prop) (m : M S (result A)) (k : A → M S (result B)) :
  upholds I (res_ok P) m → (∀ a, P a → upholds I (res_ok Q) (k a)) →
  upholds I (res_ok Q) (let? a := m in k a).
Proof.
  intros Hm Hk. eapply upholds_bind; [exact Hm|]. intros [a|e] Ha; [by apply Hk|by apply upholds_ret].
Qed.

Context `{!Stable I}.

Lemma upholds_consult {A} (read : env → nat → A) : upholds I anything (consult read).
Proof. intros w Hw. split; [done|]. eapply stable; [|exact Hw]. split_and!; cbn; [done..|lia]. Qed.

Lemma upholds_now : upholds I anything now.
Proof. apply upholds_consult. Qed.

Lemma upholds_fault : upholds I anything fault.
Proof. apply upholds_consult. Qed.

Lemma upholds_db_query {A} (P : A → Prop) (q : S → A) :
  (∀ w, I w → P (q (w_st w))) → upholds I (res_ok P) (db_query q).
Proof.
  intros Hq. eapply upholds_bind; [apply upholds_fault|]. intros [] _; [by apply upholds_ret|].
  eapply upholds_bind; [by apply (upholds_gets P)|]. intros a Ha. by apply upholds_ret.
Qed.

Lemma upholds_db_exec (f : S → S) :
  (∀ w, I w → I (World (w_env w) (w_tick w) (f (w_st w)))) → upholds I anything (db_exec f).
Proof.
  intros Hf. eapply upholds_bind; [apply upholds_fault|]. intros [] _; [by apply upholds_ret|].
  eapply upholds_bind; [by apply upholds_modify|]. intros. by apply upholds_ret.
Qed.
End upholds.

Create HintDb upholds discriminated.
#[export] Hint Resolve upholds_now upholds_fault upholds_consult : upholds.
#[export] Hint Extern 1 (upholds _ anything (ret _)) => (apply upholds_ret; exact I) : upholds.
#[export] Hint Extern 2 (upholds _ (res_ok anything) (ret _)) =>
  (apply upholds_ret; first [exact I | done]) : upholds.

(** An environment without failures, with a fixed clock and numbered
    identifiers: the one the witnesses run in. *)
Definition calm (t : Z) : env :=
  Env (λ _, false) (λ _, t) (λ n, ("id" +:+ pretty (N.of_nat n))%string).

Definition calm_world {S} (t : Z) (s : S) : world S := World (calm t) 0 s.

Lemma calm_fault_free {S} t (s : S) : fault_free (calm_world t s).
Proof. done. Qed.

(** ** Machine integers and time

    [int] and [int64] are 64 bits wide.  A [time.Time] is the number of
    nanoseconds since the Unix epoch and a [time.Duration] a number of
    nanoseconds; [Sub] saturates, and a column of the store keeps seconds. *)

#[local] Open Scope Z_scope.

Definition min_int64 : Z := -9223372036854775808.
Definition max_int64 : Z := 9223372036854775807.

Definition wrap64 (z : Z) : Z :=
  (z + 9223372036854775808) `mod` 18446744073709551616 - 9223372036854775808.

Definition second : Z := 1000000000.
Definition minute : Z := 60 * second.
Definition hour : Z := 60 * minute.

(** January 1, year 1: the zero [time.Time]. *)
Definition zero_time : Z := -62135596800 * second.
Definition is_zero (t : Z) : bool := bool_decide (t = zero_time).

(** [t.Unix()] and [time.Unix(s, 0)]. *)
Definition unix (t : Z) : Z := t / second.
Definition of_unix (s : Z) : Z := s * second.

(** A time written to the store and read back. *)
Definition db_time (t : Z) : Z := of_unix (unix t).

(** [t.Sub(u)]. *)
Definition time_sub (t u : Z) : Z := Z.max min_int64 (Z.min max_int64 (t - u)).

Lemma wrap64_id z : min_int64 ≤ z ≤ max_int64 → wrap64 z = z.
Proof.
  unfold wrap64, min_int64, max_int64. intros H. rewrite Z.mod_small; lia.
Qed.

Lemma wrap64_range z : min_int64 ≤ wrap64 z ≤ max_int64.
Proof.
  unfold wrap64, min_int64, max_int64.
  pose proof (Z.mod_pos_bound (z + 9223372036854775808) 18446744073709551616). lia.
Qed.

Lemma second_pos : 0 < second.
Proof. done. Qed.

Lemma unix_of_unix s : unix (of_unix s) = s.
Proof. unfold unix, of_unix. by apply Z.div_mul. Qed.

Lemma unix_db_time t : unix (db_time t) = unix t.
Proof. apply unix_of_unix. Qed.

Lemma db_time_idemp t : db_time (db_time t) = db_time t.
Proof. unfold db_time. by rewrite unix_of_unix. Qed.

Lemma db_time_le t : db_time t ≤ t.
Proof. unfold db_time, of_unix, unix, second. pose proof (Z.mul_div_le t 1000000000). lia. Qed.

Lemma db_time_gt t : t - second < db_time t.
Proof.
  unfold db_time, of_unix, unix, second.
  pose proof (Z.mod_pos_bound t 1000000000). pose proof (Z.div_mod t 1000000000). lia.
Qed.

Lemma unix_mono t u : t ≤ u → unix t ≤ unix u.
Proof. intros. apply Z.div_le_mono; [done|lia]. Qed.

Lemma unix_add_seconds t s : unix (t + s * second) = unix t + s.
Proof. unfold unix. by rewrite Z.div_add. Qed.

Lemma unix_le_iff s t : s ≤ unix t ↔ of_unix s ≤ t.
Proof.
  unfold unix, of_unix, second. split; intros H.
  - pose proof (Z.mul_div_le t 1000000000). lia.
  - apply Z.div_le_lower_bound; lia.
Qed.

Lemma time_sub_exact t u : min_int64 ≤ t - u ≤ max_int64 → time_sub t u = t - u.
Proof. unfold time_sub. lia. Qed.

Create Rewrite HintDb gotime.
#[export] Hint Rewrite unix_of_unix unix_db_time db_time_idemp unix_add_seconds : gotime.

(** ** Lists and options *)

Lemma list_filter_all {A} (P : A → Prop) `{∀ x, Decision (P x)} (l : list A) :
  (∀ x, x ∈ l → P x) → filter P l = l.
Proof.
  induction l as [|x l IH]; intros HP; [done|].
  rewrite filter_cons_True by (apply HP; left). f_equal. apply IH. set_solver.
Qed.

Lemma list_filter_none {A} (P : A → Prop) `{∀ x, Decision (P x)} (l : list A) :
  (∀ x, x ∈ l → ¬ P x) → filter P l = [].
Proof.
  induction l as [|x l IH]; intros HP; [done|].
  rewrite filter_cons_False by (apply HP; left). apply IH. set_solver.
Qed.

(** [sort.SliceStable]: elements that compare equal keep their order. *)
Section stable_sort.
Context {A} (R : relation A) `{!RelDecision R}.

Fixpoint insert_before (x : A) (l : list A) : list A :=
  match l with
  | [] => [x]
  | y :: l => if decide (R x y) then x :: y :: l else y :: insert_before x l
  end.

Definition stable_sort (l : list A) : list A := foldr insert_before [] l.

Lemma insert_before_Permutation x l : insert_before x l ≡ₚ x :: l.
Proof. induction l as [|y l IH]; cbn; [done|]. case_decide; [done|]. rewrite IH. constructor. Qed.

Lemma stable_sort_Permutation l : stable_sort l ≡ₚ l.
Proof. induction l as [|x l IH]; cbn; [done|]. by rewrite insert_before_Permutation, IH. Qed.

Lemma stable_sort_sorted `{!Transitive R, !Total R} l : StronglySorted R (stable_sort l).
Proof.
  induction l as [|x l IH]; [constructor|]. cbn. fold (stable_sort l). revert IH. generalize (stable_sort l). intros k Hk.
  induction Hk as [|y k Hk IH Hy]; cbn; [by repeat constructor|]. rewrite Forall_forall in Hy. case_decide as Hxy.
  - constructor; [constructor; [done|by apply Forall_forall]|]. constructor; [done|]. apply Forall_forall.
    intros z Hz. etransitivity; [exact Hxy|by apply Hy].
  - constructor; [done|]. apply Forall_forall. intros z. rewrite insert_before_Permutation. intros [->|Hz]%elem_of_cons.
    + by destruct (total R x y).
    + by apply Hy.
Qed.
End stable_sort.

Lemma for_each_app {S A} (l1 l2 : list A) (body : A → M S unit) w :
  for_each (l1 ++ l2) body w = (do! for_each l1 body in for_each l2 body) w.
Proof. revert w. induction l1 as [|a l1 IH]; intros w; [done|]. cbn. apply IH. Qed.

Definition opt_eqb {A} `{EqDecision A} (x y : option A) : bool := bool_decide (x = y).

(** Consume a [bool_decide] guard of a definition. *)
Ltac split_guard :=
  match goal with
  | |- context [bool_decide ?P] => destruct (bool_decide_reflect P)
  | H : context [bool_decide ?P] |- _ => destruct (bool_decide_reflect P)
  end.
