(* ===== verification/Tables.v ===== *)
(** * Tables of the store

    A table is the list of its rows in insertion order, with a text primary
    key.  The operations are the statements the stores under
    [src/internal/store] issue: a guarded [INSERT], [UPDATE ... WHERE],
    [DELETE ... WHERE], [SELECT ... WHERE] and the [ORDER BY] of a select.  The
    primary key makes an insert of a present id fail, so "no two rows share an
    id" is preserved whatever identifiers are drawn. *)

From S2P Require Import Prelude.

#[local] Open Scope Z_scope.

Class HasId (R : Type) := row_id : R → string.

(** The order of an [ORDER BY]. *)
Definition by_key {R} (key : R → Z) : relation R := λ r1 r2, key r1 ≤ key r2.
Definition by_id {R} `{!HasId R} : relation R := λ r1 r2, String.le (row_id r1) (row_id r2).

#[export] Instance by_key_dec {R} (key : R → Z) : RelDecision (by_key key).
Proof. intros ??. unfold by_key. apply _. Defined.
#[export] Instance by_key_total {R} (key : R → Z) : Total (by_key key).
Proof. intros ??. unfold by_key. lia. Qed.
#[export] Instance by_key_trans {R} (key : R → Z) : Transitive (by_key key).
Proof. intros ???. unfold by_key. lia. Qed.
#[export] Instance by_id_dec {R} `{!HasId R} : RelDecision (by_id (R := R)).
Proof. intros ??. unfold by_id. apply _. Defined.

Section tables.
Context {R : Type} `{!HasId R}.
Implicit Types (t : list R) (r : R) (id : string).

Definition table_ids (t : list R) : list string := row_id <$> t.

Definition select_where (p : R → bool) (t : list R) : list R :=
  filter (λ r, p r = true) t.

Definition select_id (id : string) (t : list R) : option R :=
  head (select_where (λ r, bool_decide (row_id r = id)) t).

Definition update_where (p : R → bool) (f : R → R) (t : list R) : list R :=
  (λ r, if p r then f r else r) <$> t.

Definition update_id (id : string) (f : R → R) (t : list R) : list R :=
  update_where (λ r, bool_decide (row_id r = id)) f t.

Definition delete_where (p : R → bool) (t : list R) : list R :=
  filter (λ r, p r = false) t.

(** [INSERT]: [None] is the violation of the primary key. *)
Definition insert_row (r : R) (t : list R) : option (list R) :=
  if bool_decide (row_id r ∈ table_ids t) then None else Some (t ++ [r]).

(** [ORDER BY key ASC]. *)
Definition order_by (key : R → Z) (t : list R) : list R :=
  merge_sort (by_key key) t.

(** [ORDER BY id ASC]. *)
Definition order_by_id (t : list R) : list R :=
  merge_sort by_id t.

Lemma select_where_elem p t r : r ∈ select_where p t ↔ r ∈ t ∧ p r = true.
Proof. unfold select_where. rewrite list_elem_of_filter. tauto. Qed.

Lemma delete_where_elem p t r : r ∈ delete_where p t ↔ r ∈ t ∧ p r = false.
Proof. unfold delete_where. rewrite list_elem_of_filter. tauto. Qed.

Lemma order_by_elem key t r : r ∈ order_by key t ↔ r ∈ t.
Proof. unfold order_by. by rewrite merge_sort_Permutation. Qed.

Lemma order_by_id_elem t r : r ∈ order_by_id t ↔ r ∈ t.
Proof. unfold order_by_id. by rewrite merge_sort_Permutation. Qed.

Lemma order_by_ids key t : table_ids (order_by key t) ≡ₚ table_ids t.
Proof. unfold order_by, table_ids. by rewrite merge_sort_Permutation. Qed.

Lemma order_by_id_ids t : table_ids (order_by_id t) ≡ₚ table_ids t.
Proof. unfold order_by_id, table_ids. by rewrite merge_sort_Permutation. Qed.

Lemma select_id_Some id t r : select_id id t = Some r → r ∈ t ∧ row_id r = id.
Proof.
  unfold select_id. intros Hh%head_Some_elem_of.
  apply select_where_elem in Hh as [? Heq%bool_decide_eq_true]. done.
Qed.

Lemma select_id_None id t : select_id id t = None ↔ id ∉ table_ids t.
Proof.
  unfold select_id, table_ids. rewrite list_elem_of_fmap. split.
  - intros Hn (r & -> & Hr).
    assert (r ∈ select_where (λ r', bool_decide (row_id r' = row_id r)) t) as Hs.
    { apply select_where_elem. by rewrite bool_decide_true. }
    destruct (select_where _ t); [set_solver|done].
  - intros Hn. destruct (select_where _ t) as [|r l] eqn:E; [done|].
    exfalso. apply Hn. exists r.
    assert (r ∈ r :: l) as Hr by left. rewrite <- E in Hr.
    apply select_where_elem in Hr as [? ?%bool_decide_eq_true]. done.
Qed.

Lemma select_where_sublist_ids p t :
  NoDup (table_ids t) → NoDup (table_ids (select_where p t)).
Proof.
  unfold table_ids, select_where. induction t as [|r t IH]; [done|].
  rewrite fmap_cons, NoDup_cons. intros [Hr Ht]. rewrite filter_cons. case_decide; [|auto].
  rewrite fmap_cons. apply NoDup_cons. split; [|auto].
  intros (r' & Heq & [_ Hr']%list_elem_of_filter)%list_elem_of_fmap.
  apply Hr, list_elem_of_fmap. eauto.
Qed.

Lemma delete_where_ids p t :
  NoDup (table_ids t) → NoDup (table_ids (delete_where p t)).
Proof.
  intros Ht. replace (delete_where p t) with (select_where (λ r, negb (p r)) t).
  { by apply select_where_sublist_ids. }
  unfold delete_where, select_where. apply list_filter_iff. intros r. by destruct (p r).
Qed.

Lemma select_id_elem t r :
  NoDup (table_ids t) → r ∈ t → select_id (row_id r) t = Some r.
Proof.
  unfold table_ids, select_id, select_where.
  induction t as [|r' t IH]; [by intros _ ?%elem_of_nil|].
  rewrite fmap_cons, NoDup_cons. intros [Hr' Ht] Hr. rewrite filter_cons.
  case_decide as Hd.
  - apply bool_decide_eq_true in Hd. cbn. f_equal.
    apply elem_of_cons in Hr as [->|Hr]; [done|].
    destruct Hr'. rewrite Hd. by apply list_elem_of_fmap_2.
  - apply IH; [done|]. apply elem_of_cons in Hr as [->|Hr]; [|done].
    by rewrite bool_decide_true in Hd.
Qed.

(** A condition that one row meets. *)
Lemma select_unique p t x :
  NoDup (table_ids t) → x ∈ t → (∀ r, r ∈ t → p r = true ↔ r = x) → select_where p t = [x].
Proof.
  unfold table_ids, select_where. induction t as [|r t IH]; [by intros _ ?%elem_of_nil|].
  rewrite fmap_cons, NoDup_cons. intros [Hr Ht] Hx Hp. rewrite filter_cons.
  destruct (p r) eqn:Hpr.
  - assert (r = x) as -> by (apply Hp; [left|done]). rewrite decide_True by done. f_equal.
    apply list_filter_none. intros r' Hin Heq. apply Hr.
    apply Hp in Heq as ->; [|by right]. by apply list_elem_of_fmap_2.
  - rewrite decide_False by done. apply IH; [done| |].
    + apply elem_of_cons in Hx as [->|Hx]; [|done].
      assert (p r = true) by (apply Hp; [left|done]). congruence.
    + intros r' Hr'. apply Hp. by right.
Qed.

(** *** Updates *)

Lemma update_where_elem p f t r' :
  r' ∈ update_where p f t ↔ ∃ r, r ∈ t ∧ r' = if p r then f r else r.
Proof. unfold update_where. rewrite list_elem_of_fmap. naive_solver. Qed.

Lemma update_where_ids p f t :
  (∀ r, row_id (f r) = row_id r) → table_ids (update_where p f t) = table_ids t.
Proof.
  intros Hf. unfold table_ids, update_where. rewrite <- list_fmap_compose.
  apply list_fmap_ext. intros ? r _. cbn. destruct (p r); auto.
Qed.

Lemma update_id_ids id f t :
  (∀ r, row_id (f r) = row_id r) → table_ids (update_id id f t) = table_ids t.
Proof. apply update_where_ids. Qed.

Lemma select_id_update_eq id f t :
  (∀ r, row_id (f r) = row_id r) →
  select_id id (update_id id f t) = f <$> select_id id t.
Proof.
  intros Hf. unfold select_id, update_id, update_where, select_where.
  induction t as [|r t IH]; [done|]. rewrite fmap_cons, !filter_cons.
  destruct (bool_decide_reflect (row_id r = id)) as [Heq|Hne].
  - rewrite (decide_True (P := true = true)) by done.
    rewrite decide_True; [done|]. by rewrite bool_decide_true by (by rewrite Hf).
  - rewrite (decide_False (P := false = true)) by done.
    rewrite decide_False; [done|]. by rewrite bool_decide_false.
Qed.

Lemma select_id_update_where id p f t :
  (∀ r, row_id (f r) = row_id r) →
  select_id id (update_where p f t) = (λ r, if p r then f r else r) <$> select_id id t.
Proof.
  intros Hf. unfold select_id, update_where, select_where.
  induction t as [|r t IH]; [done|]. rewrite fmap_cons, !filter_cons.
  assert (row_id (if p r then f r else r) = row_id r) as -> by (destruct (p r); auto).
  destruct (decide _); done.
Qed.

Lemma select_id_update_ne id id' f t :
  (∀ r, row_id (f r) = row_id r) → id ≠ id' →
  select_id id (update_id id' f t) = select_id id t.
Proof.
  intros Hf Hne. unfold update_id. rewrite select_id_update_where by done.
  destruct (select_id id t) as [r|] eqn:E; [|done]. cbn.
  apply select_id_Some in E as [_ Hr]. rewrite bool_decide_false; [done|congruence].
Qed.

Lemma update_where_id_fun p t : update_where p (λ r, r) t = t.
Proof.
  unfold update_where. rewrite <- (list_fmap_id t) at 2.
  apply list_fmap_ext. intros ? r _. by destruct (p r).
Qed.

(** *** Inserts *)

Lemma insert_row_Some r t t' :
  insert_row r t = Some t' ↔ (row_id r ∉ table_ids t) ∧ t' = t ++ [r].
Proof. unfold insert_row. split_guard; naive_solver. Qed.

Lemma insert_row_ids r t t' :
  insert_row r t = Some t' → NoDup (table_ids t) → NoDup (table_ids t').
Proof.
  intros [Hr ->]%insert_row_Some Ht. unfold table_ids in *. rewrite fmap_app.
  apply NoDup_app. split; [done|]. split; [set_solver|apply NoDup_singleton].
Qed.

Lemma select_where_snoc p t r :
  select_where p (t ++ [r]) = select_where p t ++ (if p r then [r] else []).
Proof.
  unfold select_where. rewrite filter_app. f_equal. rewrite filter_cons.
  destruct (p r); [by rewrite decide_True|by rewrite decide_False].
Qed.

Lemma select_id_snoc_ne id t r :
  row_id r ≠ id → select_id id (t ++ [r]) = select_id id t.
Proof.
  intros Hne. unfold select_id. rewrite select_where_snoc.
  rewrite bool_decide_false by done. by rewrite app_nil_r.
Qed.

Lemma select_id_snoc_eq t r :
  row_id r ∉ table_ids t → select_id (row_id r) (t ++ [r]) = Some r.
Proof.
  intros Hr%select_id_None. unfold select_id in *. rewrite select_where_snoc.
  rewrite bool_decide_true by done. by destruct (select_where _ t).
Qed.
End tables.

Lemma update_id_compose {R} `{!HasId R} id (f g : R → R) (t : list R) :
  (∀ r, row_id (g r) = row_id r) → update_id id f (update_id id g t) = update_id id (f ∘ g) t.
Proof.
  intros Hg. unfold update_id, update_where. rewrite <- list_fmap_compose. apply list_fmap_ext.
  intros _ r _. cbn. destruct (bool_decide_reflect (row_id r = id)) as [E|E].
  - by rewrite bool_decide_true by (by rewrite Hg).
  - by rewrite bool_decide_false.
Qed.

Lemma update_id_ext {R} `{!HasId R} id (f g : R → R) (t : list R) r :
  NoDup (table_ids t) → select_id id t = Some r → f r = g r → update_id id f t = update_id id g t.
Proof.
  intros Hnd Hr Hfg. unfold update_id, update_where. apply list_fmap_ext. intros i x Hx.
  case_bool_decide as Hid; [|done]. apply list_elem_of_lookup_2 in Hx.
  pose proof (select_id_elem t x Hnd Hx) as Hx'. rewrite Hid, Hr in Hx'. by injection Hx' as <-.
Qed.

Lemma update_id_self {R} `{!HasId R} id (t : list R) : update_id id (λ r, r) t = t.
Proof. apply update_where_id_fun. Qed.

#[global] Arguments table_ids : simpl never.
#[global] Arguments select_where : simpl never.
#[global] Arguments select_id : simpl never.
#[global] Arguments update_where : simpl never.
#[global] Arguments update_id : simpl never.
#[global] Arguments delete_where : simpl never.
#[global] Arguments order_by : simpl never.
#[global] Arguments order_by_id : simpl never.

(** The [table] hints prove that an update keeps the ids. *)
Create HintDb table discriminated.
#[export] Hint Resolve update_where_ids update_id_ids : table.
#[export] Hint Extern 1 (∀ r, row_id _ = row_id r) => (intros []; reflexivity) : table.

(** ** Inserting through a projection of the state *)

Section db_insert.
Context {S R : Type} `{!HasId R}.

(** [INSERT INTO t]: refused by the engine or by the primary key. *)
Definition db_insert (get : S → list R) (put_ : list R → S → S) (r : R)
  : M S (result unit) :=
  let! failed := fault in
  if failed then ret (Err EStore)
  else
    let! t := gets get in
    match insert_row r t with
    | None => ret (Err EStore)
    | Some t' => do! modify (put_ t') in ret (Ok tt)
    end.

Lemma wp_db_insert get put_ r (Q : result unit → world S → Prop) w :
  (∀ w', same w w' → (fault_free w → row_id r ∈ table_ids (get (w_st w))) →
    Q (Err EStore) w') →
  (∀ w', row_id r ∉ table_ids (get (w_st w)) →
    put w (put_ (get (w_st w) ++ [r]) (w_st w)) w' → Q (Ok tt) w') →
  wp (db_insert get put_ r) Q w.
Proof.
  intros He Ho. apply wp_bind, wp_fault. intros b w' Hs Hff. destruct b.
  { apply wp_ret, He; [done|]. by intros ?%Hff. }
  apply wp_bind, wp_gets. rewrite (proj1 Hs). unfold insert_row. split_guard.
  - by apply wp_ret, He.
  - apply wp_bind, wp_modify, wp_ret, Ho; [done|].
    destruct Hs as (Hs & Henv & Ht). unfold put. cbn. by rewrite Hs, Henv.
Qed.

Lemma steps_db_insert (Rel : S → S → Prop) `{!PreOrder Rel} get put_ r :
  (∀ s, row_id r ∉ table_ids (get s) → Rel s (put_ (get s ++ [r]) s)) →
  steps Rel (db_insert get put_ r).
Proof.
  intros HR w.
  apply (wp_db_insert get put_ r (λ _ w', Rel (w_st w) (w_st w') ∧ w_env w' = w_env w)).
  - intros w' (-> & -> & _) _. split; [reflexivity|done].
  - intros w' Hr (-> & -> & _). split; [by apply HR|done].
Qed.
End db_insert.

(** Decompose a handler into its statements; the statements that change the
    state are left to the [steps] hints and then to the user. *)
Ltac steps_tac :=
  repeat first
    [ progress intros
    | solve [auto with steps typeclass_instances]
    | apply steps_db_insert; [apply _|]
    | apply steps_db_exec; [apply _|]
    | apply steps_bind; [apply _| |]
    | apply steps_for_each; [apply _|]
    | apply steps_for_acc; [apply _|]
    | apply steps_modify
    | match goal with
      | |- steps _ (match ?x with _ => _ end) => destruct x eqn:?
      end
    | progress cbn beta iota ].

