(* ===== verification/GoStrings.v ===== *)
(** * Go strings

    A Go string is a sequence of bytes, here a [string] of 8-bit characters.
    The functions of the [strings] package that the modelled code calls, on
    byte lists underneath so that the list lemmas apply. *)

From S2P Require Import Prelude.
From Stdlib Require Ascii String.
From Stdlib Require Import Ascii.

#[local] Open Scope list_scope.

Abbreviation bytes := (list ascii).
Abbreviation to_bytes := Stdlib.Strings.String.list_ascii_of_string.
Abbreviation of_bytes := Stdlib.Strings.String.string_of_list_ascii.

Lemma of_to_bytes s : of_bytes (to_bytes s) = s.
Proof. apply Stdlib.Strings.String.string_of_list_ascii_of_string. Qed.

Lemma to_of_bytes l : to_bytes (of_bytes l) = l.
Proof. apply Stdlib.Strings.String.list_ascii_of_string_of_list_ascii. Qed.

#[export] Instance to_bytes_inj : Inj (=) (=) to_bytes.
Proof. intros s1 s2 H. rewrite <- (of_to_bytes s1), <- (of_to_bytes s2). by rewrite H. Qed.

Lemma to_bytes_app s t : to_bytes (s +:+ t) = to_bytes s ++ to_bytes t.
Proof. induction s as [|a s IH]; [done|]. exact (f_equal (cons a) IH). Qed.

#[export] Instance of_bytes_inj : Inj (=) (=) of_bytes.
Proof. intros l1 l2 H. rewrite <- (to_of_bytes l1), <- (to_of_bytes l2). by rewrite H. Qed.

(** [s[i:j]]. *)
Definition slice {A} (l : list A) (i j : nat) : list A := take (j - i) (drop i l).
Arguments slice : simpl never.

(** ** Prefixes, suffixes and substrings *)

Fixpoint bytes_prefix (p l : bytes) : bool :=
  match p, l with
  | [], _ => true
  | _, [] => false
  | a :: p, b :: l => Ascii.eqb a b && bytes_prefix p l
  end.

Definition HasPrefix (s p : string) : bool := bytes_prefix (to_bytes p) (to_bytes s).

Definition HasSuffix (s p : string) : bool :=
  bytes_prefix (reverse (to_bytes p)) (reverse (to_bytes s)).

Definition TrimPrefix (s p : string) : string :=
  if HasPrefix s p then of_bytes (drop (length (to_bytes p)) (to_bytes s)) else s.

Definition TrimSuffix (s p : string) : string :=
  if HasSuffix s p
  then of_bytes (take (length (to_bytes s) - length (to_bytes p)) (to_bytes s)) else s.

(** The position of the first occurrence of [p] in [l]. *)
Fixpoint bytes_index (p l : bytes) : option nat :=
  if bytes_prefix p l then Some O
  else match l with [] => None | _ :: l => S <$> bytes_index p l end.

Definition Contains (s p : string) : bool :=
  match bytes_index (to_bytes p) (to_bytes s) with Some _ => true | None => false end.

Lemma bytes_prefix_spec p l : bytes_prefix p l = true ↔ ∃ k, l = p ++ k.
Proof.
  revert l. induction p as [|a p IH]; intros [|b l]; cbn.
  - naive_solver.
  - naive_solver.
  - split; [done|]. by intros [k ?].
  - rewrite andb_true_iff, IH. split.
    + intros [->%Ascii.eqb_eq [k ->]]. by exists k.
    + intros [k [= -> ->]]. by rewrite Ascii.eqb_refl; eauto.
Qed.

Lemma HasSuffix_spec s p :
  HasSuffix s p = true ↔ ∃ k, to_bytes s = k ++ to_bytes p.
Proof.
  unfold HasSuffix. rewrite bytes_prefix_spec. split; intros [k Hk].
  - exists (reverse k). apply (f_equal reverse) in Hk.
    by rewrite reverse_involutive, reverse_app, reverse_involutive in Hk.
  - exists (reverse k). by rewrite Hk, reverse_app.
Qed.

Lemma bytes_index_spec p l : is_Some (bytes_index p l) ↔ ∃ l1 l2, l = l1 ++ p ++ l2.
Proof.
  induction l as [|a l IH]; cbn.
  - destruct (bytes_prefix p []) eqn:E.
    + apply bytes_prefix_spec in E as [k E]. split; [|by eexists].
      intros _. exists [], k. done.
    + split; [by intros [??]|]. intros (l1 & l2 & Hl).
      destruct l1; [|done]. cbn in Hl.
      assert (bytes_prefix p [] = true) by (apply bytes_prefix_spec; eauto). congruence.
  - destruct (bytes_prefix p (a :: l)) eqn:E.
    + apply bytes_prefix_spec in E as [k E]. split; [|by eexists].
      intros _. exists [], k. done.
    + rewrite fmap_is_Some, IH. split.
      * intros (l1 & l2 & ->). by exists (a :: l1), l2.
      * intros ([|b l1] & l2 & Hl); cbn in Hl.
        { assert (bytes_prefix p (a :: l) = true) by (apply bytes_prefix_spec; eauto).
          congruence. }
        simplify_eq. by eexists _, _.
Qed.

(** ** White space *)

(** The runes of [unicode.IsSpace], in UTF-8. *)
Definition space_runes : list bytes :=
  map (map ascii_of_nat)
    ([[9]; [10]; [11]; [12]; [13]; [32]; [194; 133]; [194; 160]; [225; 154; 128];
      [226; 128; 128]; [226; 128; 129]; [226; 128; 130]; [226; 128; 131];
      [226; 128; 132]; [226; 128; 133]; [226; 128; 134]; [226; 128; 135];
      [226; 128; 136]; [226; 128; 137]; [226; 128; 138]; [226; 128; 168];
      [226; 128; 169]; [226; 128; 175]; [226; 129; 159]; [227; 128; 128]])%nat.

Definition leading_space (runes : list bytes) (l : bytes) : option bytes :=
  head (filter (λ r, bytes_prefix r l = true) runes).

(** Drop leading spaces; [fuel] is the length of the text, each round drops one
    byte at least. *)
Fixpoint trim_left (runes : list bytes) (fuel : nat) (l : bytes) : bytes :=
  match fuel with
  | O => l
  | S fuel =>
    match leading_space runes l with
    | Some r => trim_left runes fuel (drop (length r) l)
    | None => l
    end
  end.

Definition TrimSpace (s : string) : string :=
  let l := trim_left space_runes (length (to_bytes s)) (to_bytes s) in
  of_bytes (reverse (trim_left (reverse <$> space_runes) (length l) (reverse l))).

(** ** Splitting and joining *)

(** [strings.Split] on a one-byte separator: never empty. *)
Fixpoint split_on (sep : ascii) (l : bytes) : list bytes :=
  match l with
  | [] => [[]]
  | a :: l =>
    if Ascii.eqb a sep then [] :: split_on sep l
    else match split_on sep l with
         | [] => [[a]]
         | w :: ws => (a :: w) :: ws
         end
  end.

Definition Split (s : string) (sep : ascii) : list string :=
  of_bytes <$> split_on sep (to_bytes s).

Fixpoint Join (parts : list string) (sep : string) : string :=
  match parts with
  | [] => ""
  | [p] => p
  | p :: ps => (p +:+ sep +:+ Join ps sep)%string
  end.

(** [strings.Cut]: around the first separator. *)
Definition Cut (s sep : string) : option (string * string) :=
  match bytes_index (to_bytes sep) (to_bytes s) with
  | None => None
  | Some i => Some (of_bytes (take i (to_bytes s)), of_bytes (drop (i + length (to_bytes sep)) (to_bytes s)))
  end.

Lemma split_on_not_nil sep l : split_on sep l ≠ [].
Proof.
  induction l as [|a l IH]; cbn; [done|]. destruct (Ascii.eqb a sep); [done|].
  by destruct (split_on sep l).
Qed.

Lemma split_on_snoc_sep sep l : split_on sep (l ++ [sep]) = split_on sep l ++ [[]].
Proof.
  induction l as [|a l IH]; cbn; [by rewrite Ascii.eqb_refl|].
  destruct (Ascii.eqb a sep); [by rewrite IH|].
  rewrite IH. destruct (split_on sep l) eqn:E; [by apply split_on_not_nil in E|done].
Qed.

Lemma split_on_app_no_sep sep l w ws x :
  split_on sep l = ws ++ [w] → sep ∉ x → split_on sep (l ++ x) = ws ++ [w ++ x].
Proof.
  intros Hl Hx. revert w ws Hl. induction l as [|a l IH]; intros w ws Hl; cbn in *.
  - destruct ws as [|? [|]]; simplify_eq/=. clear -Hx.
    induction x as [|b x IH]; cbn; [done|].
    destruct (Ascii.eqb_spec b sep) as [->|]; [set_solver|]. rewrite IH by set_solver. done.
  - destruct (Ascii.eqb a sep).
    + destruct ws as [|w0 ws]; injection Hl as <- Hl.
      { by apply split_on_not_nil in Hl. }
      cbn. f_equal. by apply IH.
    + destruct (split_on sep l) as [|w1 ws1] eqn:E; [by apply split_on_not_nil in E|].
      destruct ws as [|w0 ws]; simplify_eq/=.
      * rewrite (IH w1 []) by done. done.
      * rewrite (IH w (w1 :: ws)) by done. done.
Qed.

(** ** Case and numbers *)

(** [strings.ToLower] on ASCII text: the other bytes are kept. *)
Definition ascii_lower (a : ascii) : ascii :=
  let n := nat_of_ascii a in
  if (65 <=? n)%nat && (n <=? 90)%nat then ascii_of_nat (n + 32) else a.

Definition ToLower (s : string) : string := of_bytes (ascii_lower <$> to_bytes s).

(** [strings.ToUpper], with the same restriction. *)
Definition ascii_upper (a : ascii) : ascii :=
  let n := nat_of_ascii a in
  if (97 <=? n)%nat && (n <=? 122)%nat then ascii_of_nat (n - 32) else a.

Definition ToUpper (s : string) : string := of_bytes (ascii_upper <$> to_bytes s).

(** The value of a decimal digit. *)
Definition digit (a : ascii) : option Z :=
  let n := nat_of_ascii a in
  if (48 <=? n)%nat && (n <=? 57)%nat then Some (Z.of_nat n - 48)%Z else None.

(** The number a run of digits writes, if nothing else is in it. *)
Fixpoint digits_value (acc : Z) (l : bytes) : option Z :=
  match l with
  | [] => Some acc
  | a :: l => match digit a with
              | Some d => digits_value (acc * 10 + d)%Z l
              | None => None
              end
  end.

(** [strconv.Atoi], on 64 bits: an optional sign, then digits. *)
Definition Atoi_bytes (l : bytes) : option Z :=
  let parse neg ds :=
    match ds, digits_value 0 ds with
    | [], _ | _, None => None
    | _, Some n =>
      let z := if neg : bool then (- n)%Z else n in
      if bool_decide (min_int64 ≤ z ∧ z ≤ max_int64)%Z then Some z else None
    end in
  match l with
  | "-"%char :: l => parse true l
  | "+"%char :: l => parse false l
  | l => parse false l
  end.

Definition Atoi (s : string) : option Z := Atoi_bytes (to_bytes s).

(** The digits a number starts with. *)
Fixpoint leading_digits (l : bytes) : bytes :=
  match l with
  | a :: l => match digit a with Some _ => a :: leading_digits l | None => [] end
  | [] => []
  end.

(** [fmt.Sscanf(s, "%d", &n)]: spaces of the same line, a sign, digits; what
    follows is not read. *)
Definition Sscanf_d (s : string) : option Z :=
  let l := trim_left (filter (λ r, r ≠ [ascii_of_nat 10]) space_runes) (length (to_bytes s)) (to_bytes s) in
  match l with
  | "-"%char :: l => Atoi_bytes ("-"%char :: leading_digits l)
  | "+"%char :: l => Atoi_bytes ("+"%char :: leading_digits l)
  | l => Atoi_bytes (leading_digits l)
  end.

(** [strings.IndexByte] and [strings.LastIndexByte]. *)
Fixpoint index_byte (b : ascii) (l : bytes) : option nat :=
  match l with
  | [] => None
  | a :: l => if Ascii.eqb a b then Some O else S <$> index_byte b l
  end.

Definition last_index_byte (b : ascii) (l : bytes) : option nat :=
  (λ i, length l - 1 - i)%nat <$> index_byte b (reverse l).

Definition has_byte (b : ascii) (l : bytes) : bool :=
  match index_byte b l with Some _ => true | None => false end.

(** [net.SplitHostPort]; [None] is any of its errors. *)
Definition SplitHostPort (hostport : string) : option (string * string) :=
  let l := to_bytes hostport in
  match last_index_byte ":" l with
  | None => None
  | Some i =>
    let finish host j k :=
      if has_byte "[" (drop j l) || has_byte "]" (drop k l) then None
      else Some (of_bytes host, of_bytes (drop (S i) l)) in
    if bool_decide (head l = Some "["%char) then
      match index_byte "]" l with
      | None => None
      | Some e => if bool_decide (S e = i) then finish (slice l 1 e) 1%nat (S e) else None
      end
    else
      let host := take i l in
      if has_byte ":" host then None else finish host 0%nat 0%nat
  end.

(** [%d]. *)
Definition fmt_d (z : Z) : string :=
  match z with
  | Z0 => "0"
  | Zpos p => pretty (Npos p)
  | Zneg p => ("-" +:+ pretty (Npos p))%string
  end.

(** [String] of a [time.Duration] that is a whole number of seconds. *)
Definition fmt_seconds (d : Z) : string :=
  let n := Z.abs (Z.quot d second) in
  let text :=
    if bool_decide (3600 ≤ n)%Z
    then (fmt_d (n / 3600) +:+ "h" +:+ fmt_d (n / 60 `mod` 60) +:+ "m" +:+ fmt_d (n `mod` 60) +:+ "s")%string
    else if bool_decide (60 ≤ n)%Z then (fmt_d (n / 60) +:+ "m" +:+ fmt_d (n `mod` 60) +:+ "s")%string
    else (fmt_d n +:+ "s")%string in
  if bool_decide (Z.quot d second < 0)%Z then ("-" +:+ text)%string else text.

Lemma bytes_index_prefix p l i :
  bytes_index p l = Some i → take i l ++ p ++ drop (i + length p) l = l.
Proof.
  assert (Hpre : ∀ l, bytes_prefix p l = true → p ++ drop (length p) l = l).
  { clear. induction p as [|a p IH]; intros l H; [done|]. destruct l as [|b l]; [done|].
    cbn in H. apply andb_true_iff in H as [->%Ascii.eqb_eq H]. cbn. f_equal. by apply IH. }
  revert i. induction l as [|b l IH]; intros i; cbn [bytes_index].
  - destruct (bytes_prefix p []) eqn:E; [|done]. intros [= <-]. exact (Hpre [] E).
  - destruct (bytes_prefix p (b :: l)) eqn:E; [intros [= <-]; exact (Hpre _ E)|].
    destruct (bytes_index p l) as [j|]; [|done]. intros [= <-]. cbn. f_equal. by apply IH.
Qed.

(** What [Cut] separates, the separator puts together again. *)
Lemma Cut_join s sep a b : Cut s sep = Some (a, b) → (a +:+ sep +:+ b)%string = s.
Proof.
  unfold Cut. destruct (bytes_index _ _) as [i|] eqn:E; [|done]. intros [= <- <-].
  apply (inj to_bytes). apply bytes_index_prefix in E.
  assert (Happ : ∀ x y, to_bytes (x +:+ y)%string = to_bytes x ++ to_bytes y).
  { intros x y. induction x as [|c x IH]; [done|]. exact (f_equal (cons c) IH). }
  by rewrite !Happ, !to_of_bytes.
Qed.

Lemma ascii_lower_idemp a : ascii_lower (ascii_lower a) = ascii_lower a.
Proof. destruct a as [[] [] [] [] [] [] [] []]; reflexivity. Qed.

Lemma ToLower_idemp s : ToLower (ToLower s) = ToLower s.
Proof.
  unfold ToLower. rewrite to_of_bytes, <- list_fmap_compose. f_equal.
  apply list_fmap_ext. intros ???. apply ascii_lower_idemp.
Qed.

Lemma length_ToLower s : length (to_bytes (ToLower s)) = length (to_bytes s).
Proof. unfold ToLower. by rewrite to_of_bytes, length_fmap. Qed.
