(* ===== verification/GoPath.v ===== *)
(** * Runes and paths

    What the program uses of Go's [unicode/utf8], [unicode] and [path/filepath] on a
    Unix system: the runes of a text and its control characters; [IsAbs], [Clean]
    and [Match] on paths, read as bytes. *)

From Stdlib Require Import Ascii.
From S2P Require Import Prelude.
From S2P Require Import GoStrings.

#[local] Open Scope string_scope.
#[local] Open Scope list_scope.
#[local] Open Scope Z_scope.

(** The number of bytes of the first rune: 1 for a byte that starts none. *)
Definition between (lo hi b : Z) : bool := bool_decide (lo ≤ b) && bool_decide (b ≤ hi).
Definition continuation (b : Z) : bool := between 128 191 b.

Definition rune_length (l : list Z) : nat :=
  match l with
  | [] => 0%nat
  | b0 :: l =>
    if bool_decide (b0 < 128) then 1%nat
    else match l with
    | b1 :: l' =>
      if between 194 223 b0 && continuation b1 then 2%nat
      else match l' with
      | b2 :: l'' =>
        if between 224 239 b0 && between (if bool_decide (b0 = 224) then 160 else 128) (if bool_decide (b0 = 237) then 159 else 191) b1
           && continuation b2 then 3%nat
        else match l'' with
        | b3 :: _ =>
          if between 240 244 b0 && between (if bool_decide (b0 = 240) then 144 else 128) (if bool_decide (b0 = 244) then 143 else 191) b1
             && continuation b2 && continuation b3 then 4%nat
          else 1%nat
        | [] => 1%nat
        end
      | [] => 1%nat
      end
    | [] => 1%nat
    end
  end.

(** The runes of a text, as their bytes. *)
Fixpoint runes (fuel : nat) (l : list Z) : list (list Z) :=
  match fuel, l with
  | S fuel, _ :: _ => let n := rune_length l in take n l :: runes fuel (drop n l)
  | _, _ => []
  end.

Definition text_runes (s : string) : list (list Z) :=
  let l := (λ a, Z.of_nat (nat_of_ascii a)) <$> to_bytes s in runes (length l) l.

(** The control characters: U+0000 to U+001F and U+007F to U+009F. *)
Definition IsControl (rune : list Z) : bool :=
  match rune with
  | [b] => bool_decide (b < 32) || bool_decide (b = 127)
  | [b0; b1] => bool_decide (b0 = 194) && bool_decide (b1 < 160)
  | _ => false
  end.

(** [strings.ContainsFunc(s, unicode.IsControl)]. *)
Definition has_control (s : string) : bool := existsb IsControl (text_runes s).

(** ** Paths *)

Definition IsAbs (path : string) : bool := HasPrefix path "/".

(** ** Clean *)

(** One element of the path; the elements kept so far come last first. *)
Definition clean_part (rooted : bool) (out : list string) (part : string) : list string :=
  if bool_decide (part = "") || bool_decide (part = ".") then out
  else if bool_decide (part = "..") then
    match out with
    | top :: rest => if bool_decide (top = "..") then ".." :: out else rest
    | [] => if rooted then [] else [".."]
    end
  else part :: out.

Definition Clean (path : string) : string :=
  let rooted := IsAbs path in
  let out := Join (reverse (foldl (clean_part rooted) [] (Split path "/"))) "/" in
  if rooted then "/" +:+ out else if bool_decide (out = "") then "." else out.

(** ** Match *)

Definition byte_of (a : ascii) : Z := Z.of_nat (nat_of_ascii a).

(** [utf8.DecodeRune]: the rune and its length. *)
Definition DecodeRune (l : bytes) : Z * nat :=
  let l := byte_of <$> l in
  let low b := b `mod` 64 in
  match rune_length l, l with
  | 1%nat, b0 :: _ => (if bool_decide (b0 < 128) then b0 else 65533, 1%nat)
  | 2%nat, b0 :: b1 :: _ => (b0 `mod` 32 * 64 + low b1, 2%nat)
  | 3%nat, b0 :: b1 :: b2 :: _ => ((b0 `mod` 16 * 64 + low b1) * 64 + low b2, 3%nat)
  | 4%nat, b0 :: b1 :: b2 :: b3 :: _ => (((b0 `mod` 8 * 64 + low b1) * 64 + low b2) * 64 + low b3, 4%nat)
  | _, _ => (65533, 0%nat)
  end.

(** The pattern up to the next star outside of brackets. *)
Fixpoint chunk_end (inrange : bool) (pattern : bytes) : bytes * bytes :=
  match pattern with
  | [] => ([], [])
  | "\"%char :: c :: pattern' =>
    let '(chunk, rest) := chunk_end inrange pattern' in ("\"%char :: c :: chunk, rest)
  | "*"%char :: pattern' =>
    if inrange then let '(chunk, rest) := chunk_end inrange pattern' in ("*"%char :: chunk, rest) else ([], pattern)
  | c :: pattern' =>
    let inrange := if bool_decide (c = "["%char) then true else if bool_decide (c = "]"%char) then false else inrange in
    let '(chunk, rest) := chunk_end inrange pattern' in (c :: chunk, rest)
  end.

Fixpoint leading_stars (pattern : bytes) : bool * bytes :=
  match pattern with
  | "*"%char :: pattern => (true, (leading_stars pattern).2)
  | _ => (false, pattern)
  end.

Definition scanChunk (pattern : bytes) : bool * bytes * bytes :=
  let '(star, pattern) := leading_stars pattern in
  let '(chunk, rest) := chunk_end false pattern in (star, chunk, rest).

(** A rune of a class, escaped or not; [None] when the pattern is bad. *)
Definition getEsc (chunk : bytes) : option (Z * bytes) :=
  match chunk with
  | [] | "-"%char :: _ | "]"%char :: _ => None
  | c :: chunk' =>
    match (if bool_decide (c = "\"%char) then chunk' else chunk) with
    | [] => None
    | chunk =>
      let '(r, n) := DecodeRune chunk in
      let rest := drop n chunk in
      if bool_decide (r = 65533) && bool_decide (n = 1%nat) then None
      else match rest with [] => None | _ => Some (r, rest) end
    end
  end.

(** The ranges of a class, up to its bracket: whether [r] is in one. *)
Fixpoint class_ranges (fuel : nat) (r : Z) (found some_range : bool) (chunk : bytes) : option (bool * bytes) :=
  match fuel with
  | O => None
  | S fuel =>
    let range chunk :=
      match getEsc chunk with
      | None => None
      | Some (lo, chunk) =>
        let bound := match chunk with "-"%char :: chunk => getEsc chunk | _ => Some (lo, chunk) end in
        match bound with
        | None => None
        | Some (hi, chunk) => class_ranges fuel r (found || between lo hi r) true chunk
        end
      end in
    match chunk with
    | "]"%char :: rest => if some_range then Some (found, rest) else range chunk
    | _ => range chunk
    end
  end.

(** [s] is what is left of the name, [None] once it has failed to match. *)
Fixpoint matchChunk (fuel : nat) (chunk : bytes) (s : option bytes) : option (option bytes) :=
  match fuel with
  | O => None
  | S fuel =>
    let s := match s with Some [] => match chunk with [] => s | _ => None end | _ => s end in
    let literal c chunk :=
      matchChunk fuel chunk (match s with Some (x :: s) => if bool_decide (c = x) then Some s else None | _ => None end) in
    match chunk with
    | [] => Some s
    | "["%char :: chunk =>
      let '(r, n) := match s with Some s => DecodeRune s | None => (0, 0%nat) end in
      let '(negated, chunk) := match chunk with "^"%char :: chunk => (true, chunk) | _ => (false, chunk) end in
      match class_ranges (S (length chunk)) r false false chunk with
      | None => None
      | Some (found, chunk) => matchChunk fuel chunk (if Bool.eqb found negated then None else drop n <$> s)
      end
    | "?"%char :: chunk =>
      matchChunk fuel chunk
        (match s with
         | Some (x :: _ as s) => if bool_decide (x = "/"%char) then None else Some (drop (DecodeRune s).2 s)
         | _ => None
         end)
    | "\"%char :: chunk => match chunk with [] => None | c :: chunk => literal c chunk end
    | c :: chunk => literal c chunk
    end
  end.

Definition match_chunk (chunk name : bytes) : option (option bytes) := matchChunk (S (length chunk)) chunk (Some name).

(** The chunk after a star, at the first position it matches; the last chunk
    has to reach the end of the name. *)
Fixpoint after_star (chunk : bytes) (is_last : bool) (name : bytes) : option (option bytes) :=
  match name with
  | [] => Some None
  | c :: name =>
    if bool_decide (c = "/"%char) then Some None
    else match match_chunk chunk name with
    | None => None
    | Some (Some t) => if is_last && negb (bool_decide (t = [])) then after_star chunk is_last name else Some (Some t)
    | Some None => after_star chunk is_last name
    end
  end.

(** Each round takes one byte of the pattern at least. *)
Fixpoint match_pattern (fuel : nat) (pattern name : bytes) : bool :=
  match fuel, pattern with
  | O, _ => false
  | _, [] => bool_decide (name = [])
  | S fuel, _ =>
    let '(star, chunk, rest) := scanChunk pattern in
    if star && bool_decide (chunk = []) then negb (has_byte "/" name)
    else
      match match_chunk chunk name with
      | Some (Some t) =>
        if bool_decide (t = []) || negb (bool_decide (rest = [])) then match_pattern fuel rest t
        else if star then
          match after_star chunk (bool_decide (rest = [])) name with
          | Some (Some t) => match_pattern fuel rest t
          | _ => false
          end
        else false
      | Some None =>
        if star then
          match after_star chunk (bool_decide (rest = [])) name with
          | Some (Some t) => match_pattern fuel rest t
          | _ => false
          end
        else false
      | None => false
      end
  end.

Definition Match (pattern name : string) : bool :=
  let p := to_bytes pattern in match_pattern (S (length p)) p (to_bytes name).

Example clean_paths :
  Clean <$> ["/srv/app"; "/srv//app/"; "/srv/./a/../app"; "/.."; ""; "a/../../b"] = ["/srv/app"; "/srv/app"; "/srv/app"; "/"; "."; "../b"].
Proof. vm_compute. reflexivity. Qed.

Example match_patterns :
  (λ p, Match p.1 p.2) <$>
    [("ghcr.io/*/app", "ghcr.io/org/app"); ("ghcr.io/*", "ghcr.io/org/app"); ("*-rc?", "1.2-rc1"); ("[0-9]*", "7.2");
     ("[^0-9]*", "7.2"); ("a\*", "a*"); ("a[", "a["); ("*", ""); ("*b", "ab/b"); ("ngin[x", "nginx")]
  = [true; false; true; true; false; true; false; true; false; false].
Proof. vm_compute. reflexivity. Qed.
