(* ===== verification/AlertModel.v ===== *)
(** * Data of the alerting subsystem

    [src/internal/alert/model.go] and [src/internal/alert/escalation/model.go]:
    the records the alert engine, the notifier and the escalation runner
    exchange, and the state they share: the tables of the store, the engine's
    in-memory map, and what was handed to the browsers, to the notifier's queue
    and to the goroutines that deliver escalation notifications. *)

From S2P Require Import Prelude.
From S2P Require Import Tables.
From S2P Require Import GoStrings.

#[local] Open Scope string_scope.
#[local] Open Scope list_scope.
#[local] Open Scope Z_scope.

(** ** Constants *)

Definition StatusActive := "active".
Definition StatusResolved := "resolved".
Definition StatusSilenced := "silenced".

Definition SeverityCritical := "critical".
Definition SeverityWarning := "warning".
Definition SeverityInfo := "info".

Definition DeliveryPending := "pending".

Definition LocalAgent := "00000000-0000-0000-0000-000000000000".

(** Event types of [internal/event] that the engine broadcasts. *)
Definition AlertFired := "alert.fired".
Definition AlertSilenced := "alert.silenced".
Definition AlertResolved := "alert.resolved".
Definition AlertAcknowledged := "alert.acknowledged".

Definition RunStatusActive := "active".
Definition RunStatusPausedByMaintenance := "paused_by_maintenance".
Definition RunStatusStoppedByAck := "stopped_by_ack".
Definition RunStatusStoppedByResolution := "stopped_by_resolution".
Definition RunStatusStoppedByPolicyDelete := "stopped_by_policy_deletion".
Definition RunStatusStoppedByPolicyDisabled := "stopped_by_policy_disabled".
Definition RunStatusStoppedByDowngrade := "stopped_by_edition_downgrade".
Definition RunStatusExhausted := "exhausted".

Definition DeliveryStatusPending := "pending".
Definition DeliveryStatusSent := "sent".
Definition DeliveryStatusFailed := "failed".
Definition DeliveryStatusAbandoned := "abandoned".

(** [uid.Agent]. *)
Definition uid_Agent (agentID : string) : string :=
  if bool_decide (TrimSpace agentID = "") then LocalAgent else agentID.

(** ** Alerts *)

(** The details of an event: a nil map, a map with this JSON text, or a map
    [json.Marshal] refuses. *)
Inductive details := DetailsNil | DetailsJSON (text : string) | DetailsUnencodable.

(** A value of a [map[string]any]. *)
Inductive value :=
  | VString (s : string)
  | VInt (z : Z)
  | VTime (t : Z)
  | VStringPtr (a : option string)
  | VIntPtr (c : option Z)
  | VBool (b : bool)
  | VStrings (l : list string)
  | VNil.

Record Event := MkEvent {
  ev_Source : string;
  ev_AlertType : string;
  ev_Severity : string;
  ev_IsRecover : bool;
  ev_Message : string;
  ev_EntityType : string;
  ev_EntityID : string;
  ev_EntityName : string;
  ev_AgentID : string;
  ev_Details : details;
  ev_Timestamp : Z;
}.

Record Alert := MkAlert {
  al_ID : string;
  al_Source : string;
  al_AlertType : string;
  al_Severity : string;
  al_Status : string;
  al_Message : string;
  al_EntityType : string;
  al_EntityID : string;
  al_EntityName : string;
  al_AgentID : string;
  al_Details : string;
  al_ResolvedByID : option string;
  al_FiredAt : Z;
  al_ResolvedAt : option Z;
  al_AcknowledgedAt : option Z;
  al_AcknowledgedBy : string;
  al_EscalatedAt : option Z;
  al_CreatedAt : Z;
}.

#[export] Instance Alert_eta : Eta Alert := λ a,
  MkAlert (al_ID a) (al_Source a) (al_AlertType a) (al_Severity a) (al_Status a)
    (al_Message a) (al_EntityType a) (al_EntityID a) (al_EntityName a) (al_AgentID a)
    (al_Details a) (al_ResolvedByID a) (al_FiredAt a) (al_ResolvedAt a)
    (al_AcknowledgedAt a) (al_AcknowledgedBy a) (al_EscalatedAt a) (al_CreatedAt a).
#[export] Instance Alert_id : HasId Alert := al_ID.

Record NotificationChannel := MkChannel {
  ch_ID : string;
  ch_Name : string;
  ch_Type : string;
  ch_URL : string;
  ch_Enabled : bool;
}.
#[export] Instance Channel_id : HasId NotificationChannel := ch_ID.

Record AlertTrigger := MkTrigger {
  tr_ID : string;
  tr_Name : string;
  tr_FilterSeverities : string;
  tr_FilterSources : string;
  tr_FilterScopes : string;
  tr_Enabled : bool;
  tr_NotifyOnResolve : bool;
  tr_ChannelIDs : list string;
  tr_CreatedAt : Z;
}.
#[export] Instance Trigger_id : HasId AlertTrigger := tr_ID.

Record NotificationDelivery := MkNotificationDelivery {
  nd_ID : string;
  nd_AlertID : string;
  nd_ChannelID : string;
  nd_Status : string;
}.
#[export] Instance NotificationDelivery_id : HasId NotificationDelivery := nd_ID.

(** A job of the notifier: the delivery row, the channel and the alert as it
    was when the job was queued. *)
Record NotificationJob := MkJob {
  job_Delivery : NotificationDelivery;
  job_Channel : NotificationChannel;
  job_Alert : Alert;
}.

Record SilenceRule := MkSilenceRule {
  sr_ID : string;
  sr_EntityType : string;
  sr_EntityID : option string;
  sr_Source : string;
  sr_StartsAt : Z;
  sr_DurationSeconds : Z;
  sr_CancelledAt : option Z;
}.
#[export] Instance SilenceRule_id : HasId SilenceRule := sr_ID.

Record Acknowledgment := MkAck { ack_By : string; ack_At : Z }.

(** The dedup key of the engine. *)
Record activeAlertKey := MkKey {
  k_Source : string;
  k_AlertType : string;
  k_EntityType : string;
  k_EntityID : string;
}.

#[export] Instance activeAlertKey_eq_dec : EqDecision activeAlertKey.
Proof. solve_decision. Defined.
#[export] Instance activeAlertKey_countable : Countable activeAlertKey.
Proof.
  apply (inj_countable'
    (λ k, (k_Source k, k_AlertType k, k_EntityType k, k_EntityID k))
    (λ '(s, t, e, i), MkKey s t e i)). by intros [].
Defined.

(** ** Escalation *)

Record Scope := MkScope { sc_Kind : string; sc_RefID : string }.
Record Filters := MkFilters { fi_Severities : list string; fi_Scopes : list Scope }.
Record Level := MkLevel {
  lv_Order : Z;
  lv_DelaySeconds : Z;
  lv_ChannelIDs : list string;
}.

Record Policy := MkPolicy {
  po_ID : string;
  po_Name : string;
  po_Active : bool;
  po_ActiveBeforeDowngrade : bool;
  po_Filters : Filters;
  po_Levels : list Level;
  po_CreatedAt : Z;
  po_UpdatedAt : Z;
}.
#[export] Instance Policy_eta : Eta Policy := λ p,
  MkPolicy (po_ID p) (po_Name p) (po_Active p) (po_ActiveBeforeDowngrade p)
    (po_Filters p) (po_Levels p) (po_CreatedAt p) (po_UpdatedAt p).
#[export] Instance Policy_id : HasId Policy := po_ID.

(** A run.  The snapshot of its policy is a JSON text in the program, read back
    by [json.Unmarshal]; here it is the policy that text decodes to, or [None]
    for a text that does not decode. *)
Record Run := MkRun {
  ru_ID : string;
  ru_PolicyID : option string;
  ru_PolicySnapshot : option Policy;
  ru_AlertID : string;
  ru_Status : string;
  ru_LastExecutedLevelIndex : Z;
  ru_StartedAt : Z;
  ru_EndedAt : option Z;
  ru_NextActionAt : option Z;
}.
#[export] Instance Run_eta : Eta Run := λ r,
  MkRun (ru_ID r) (ru_PolicyID r) (ru_PolicySnapshot r) (ru_AlertID r) (ru_Status r)
    (ru_LastExecutedLevelIndex r) (ru_StartedAt r) (ru_EndedAt r) (ru_NextActionAt r).
#[export] Instance Run_id : HasId Run := ru_ID.

Record Delivery := MkDelivery {
  de_ID : string;
  de_RunID : string;
  de_LevelIndex : Z;
  de_ChannelID : option string;
  de_Status : string;
  de_Error : string;
  de_AttemptStartedAt : Z;
  de_SentAt : option Z;
}.
#[export] Instance Delivery_eta : Eta Delivery := λ d,
  MkDelivery (de_ID d) (de_RunID d) (de_LevelIndex d) (de_ChannelID d) (de_Status d)
    (de_Error d) (de_AttemptStartedAt d) (de_SentAt d).
#[export] Instance Delivery_id : HasId Delivery := de_ID.

(** A send the runner started in a goroutine and that has not finished. *)
Record PendingSend := MkSend {
  ps_Delivery : Delivery;
  ps_Alert : Alert;
  ps_Channel : NotificationChannel;
}.

(** ** The state of the subsystem *)

Record alerting := MkAlerting {
  db_alerts : list Alert;
  db_channels : list NotificationChannel;
  db_triggers : list AlertTrigger;
  db_silences : list SilenceRule;
  db_deliveries : list NotificationDelivery;
  db_policies : list Policy;
  db_runs : list Run;
  db_esc_deliveries : list Delivery;
  activeAlerts : gmap activeAlertKey Alert;
  sse : list (string * Alert);
  jobs : list NotificationJob;
  sends : list PendingSend;
}.
#[export] Instance alerting_eta : Eta alerting := λ s,
  MkAlerting (db_alerts s) (db_channels s) (db_triggers s) (db_silences s)
    (db_deliveries s) (db_policies s) (db_runs s) (db_esc_deliveries s)
    (activeAlerts s) (sse s) (jobs s) (sends s).

Definition empty_alerting : alerting :=
  MkAlerting [] [] [] [] [] [] [] [] ∅ [] [] [].

(** [severityRank]: higher is more severe, an unknown severity is below all. *)
Definition severityRank (s : string) : Z :=
  if bool_decide (s = SeverityInfo) then 0
  else if bool_decide (s = SeverityWarning) then 1
  else if bool_decide (s = SeverityCritical) then 2
  else -1.

(** The JSON column of an event's details. *)
Definition details_json (d : details) : string :=
  match d with DetailsJSON t => t | _ => "{}" end.
