(* ===== verification/AlertStore.v ===== *)
(** * Store of the alert engine

    [src/internal/store/alerts.go], [channels.go], [triggers.go] and
    [silence.go]: the statements the alert engine issues.  A row is kept as it
    is read back, so a time column holds a time truncated to the second. *)

From S2P Require Import Prelude.
From S2P Require Import Tables.
From S2P Require Import GoStrings.
From S2P Require Import AlertModel.

#[local] Open Scope string_scope.
#[local] Open Scope list_scope.
#[local] Open Scope Z_scope.

(** ** alerts *)

(** The columns [InsertAlert] writes: the acknowledgement and escalation columns
    are left NULL. *)
Definition alert_row (a : Alert) : Alert :=
  a <| al_FiredAt ::= db_time |>
    <| al_ResolvedAt := db_time <$> al_ResolvedAt a |>
    <| al_CreatedAt ::= db_time |>
    <| al_AcknowledgedAt := None |>
    <| al_AcknowledgedBy := "" |>
    <| al_EscalatedAt := None |>.

(** Returns the alert as the call leaves it (the code updates it in place). *)
Definition InsertAlert (a : Alert) : M alerting (result Alert) :=
  let! id := new_uid in
  let! created := (if is_zero (al_CreatedAt a) then now else ret (al_CreatedAt a)) in
  let a := a <| al_ID := id |> <| al_AgentID ::= uid_Agent |>
             <| al_CreatedAt := created |> in
  do? db_insert db_alerts (λ t s, s <| db_alerts := t |>) (alert_row a) in
  ret (Ok a).

Definition GetAlert (id : string) : M alerting (result (option Alert)) :=
  db_query (λ s, select_id id (db_alerts s)).

Definition UpdateAlertStatus (id status : string) (resolvedAt : option Z)
    (resolvedByID : option string) : M alerting (result unit) :=
  db_exec (λ s, s <| db_alerts ::= update_id id (λ a,
    a <| al_Status := status |> <| al_ResolvedAt := db_time <$> resolvedAt |>
      <| al_ResolvedByID := resolvedByID |>) |>).

Definition UpdateAlertOnEscalation (id severity message entityName dets : string)
    : M alerting (result unit) :=
  db_exec (λ s, s <| db_alerts ::= update_id id (λ a,
    a <| al_Severity := severity |> <| al_Message := message |>
      <| al_EntityName := entityName |> <| al_Details := dets |>) |>).

Definition ListActiveAlerts : M alerting (result (list Alert)) :=
  db_query (λ s, order_by (λ a, - unix (al_FiredAt a))
    (select_where (λ a, bool_decide (al_Status a = StatusActive)) (db_alerts s))).

(** [WHERE id = ? AND status = 'active' AND acknowledged_at IS NULL]. *)
Definition acknowledgeable (id : string) (a : Alert) : bool :=
  bool_decide (al_ID a = id) && bool_decide (al_Status a = StatusActive)
  && bool_decide (al_AcknowledgedAt a = None).

(** Whether exactly one row was changed. *)
Definition AcknowledgeAlert (id by_ : string) (at_ : Z) : M alerting (result bool) :=
  let! rows := gets (λ s, select_where (acknowledgeable id) (db_alerts s)) in
  do? db_exec (λ s, s <| db_alerts ::= update_where (acknowledgeable id) (λ a,
    a <| al_AcknowledgedAt := Some (db_time at_) |> <| al_AcknowledgedBy := by_ |>) |>) in
  ret (Ok (bool_decide (length rows = 1%nat))).

Definition SetEscalatedAt (id : string) (at_ : Z) : M alerting (result unit) :=
  db_exec (λ s, s <| db_alerts ::= update_id id (λ a,
    a <| al_EscalatedAt := Some (db_time at_) |>) |>).

(** [WHERE status <> 'active' AND COALESCE(resolved_at, created_at) < ?]. *)
Definition expired_alert (before : Z) (a : Alert) : bool :=
  negb (bool_decide (al_Status a = StatusActive)) &&
  bool_decide (unix (default (al_CreatedAt a) (al_ResolvedAt a)) < unix before).

Definition DeleteInactiveAlertsOlderThan (before : Z) : M alerting (result unit) :=
  db_exec (λ s, s <| db_alerts ::= delete_where (expired_alert before) |>).

(** ** notification_channels and notification_deliveries *)

Definition GetChannel (id : string) : M alerting (result (option NotificationChannel)) :=
  db_query (λ s, select_id id (db_channels s)).

Definition InsertNotificationDelivery (d : NotificationDelivery)
    : M alerting (result NotificationDelivery) :=
  let! id := new_uid in
  let d := MkNotificationDelivery id (nd_AlertID d) (nd_ChannelID d) (nd_Status d) in
  do? db_insert db_deliveries (λ t s, s <| db_deliveries := t |>) d in
  ret (Ok d).

(** ** alert_triggers *)

(** [ListChannelsForTrigger]: the links of one trigger, by channel id. *)
Definition ListChannelsForTrigger (t : AlertTrigger) : M alerting (result (list string)) :=
  db_query (λ _, merge_sort String.le (tr_ChannelIDs t)).

Fixpoint load_trigger_channels (ts : list AlertTrigger)
    : M alerting (result (list AlertTrigger)) :=
  match ts with
  | [] => ret (Ok [])
  | t :: ts =>
    let? ids := ListChannelsForTrigger t in
    let? rest := load_trigger_channels ts in
    ret (Ok (MkTrigger (tr_ID t) (tr_Name t) (tr_FilterSeverities t) (tr_FilterSources t)
      (tr_FilterScopes t) (tr_Enabled t) (tr_NotifyOnResolve t) ids (tr_CreatedAt t) :: rest))
  end.

Definition ListEnabledTriggers : M alerting (result (list AlertTrigger)) :=
  let? ts := db_query (λ s, order_by (λ t, unix (tr_CreatedAt t))
    (select_where tr_Enabled (db_triggers s))) in
  load_trigger_channels ts.

(** ** silence_rules *)

(** [WHERE cancelled_at IS NULL AND (starts_at + duration_seconds) > ?]. *)
Definition silence_in_force (now_unix : Z) (r : SilenceRule) : bool :=
  bool_decide (sr_CancelledAt r = None) &&
  bool_decide (now_unix < unix (sr_StartsAt r) + sr_DurationSeconds r).

Definition GetActiveSilenceRules : M alerting (result (list SilenceRule)) :=
  let! t := now in
  db_query (λ s, select_where (silence_in_force (unix t)) (db_silences s)).

(** ** Lemmas *)

Lemma alert_row_id a : row_id (alert_row a) = al_ID a.
Proof. done. Qed.

Lemma acknowledgeable_spec id a :
  acknowledgeable id a = true ↔
  al_ID a = id ∧ al_Status a = StatusActive ∧ al_AcknowledgedAt a = None.
Proof. unfold acknowledgeable. rewrite !andb_true_iff, !bool_decide_eq_true. tauto. Qed.

(** ** Fresh identifiers

    Every id the tables keyed by drawn identifiers hold. *)
Definition used_ids (s : alerting) : list string :=
  table_ids (db_alerts s) ++ table_ids (db_deliveries s) ++ table_ids (db_runs s)
  ++ table_ids (db_esc_deliveries s).

(** A world in which nothing fails: no call errs, and the identifiers still to
    be drawn are distinct and unused (what a UUID generator provides). *)
Definition healthy (w : world alerting) : Prop :=
  fault_free w ∧ (∀ m n, env_uid (w_env w) m = env_uid (w_env w) n → m = n) ∧
  ∀ n, (w_tick w ≤ n)%nat → env_uid (w_env w) n ∉ used_ids (w_st w).

Lemma healthy_fault_free w : healthy w → fault_free w.
Proof. by intros []. Qed.

Lemma healthy_put w s w' :
  put w s w' → healthy w → (∀ id, id ∈ used_ids s → id ∈ used_ids (w_st w)) → healthy w'.
Proof.
  intros (Hs & He & Ht) (Hff & Hinj & Hfresh) Hids. unfold healthy, fault_free.
  rewrite He, Hs. split_and!; [done..|]. intros n Hn Hin%Hids. apply (Hfresh n); [lia|done].
Qed.

Lemma healthy_same w w' : same w w' → healthy w → healthy w'.
Proof. intros (Hs & He & Ht) Hw. by apply (healthy_put w (w_st w)). Qed.

(** A row whose id was just drawn: the id is unused, and the world stays healthy
    once it is used. *)
Lemma healthy_draw w w1 w2 :
  healthy w → same w w1 → w_tick w1 = S (w_tick w) →
  put w1 (w_st w2) w2 →
  (∀ id, id ∈ used_ids (w_st w2) → id = env_uid (w_env w) (w_tick w) ∨ id ∈ used_ids (w_st w)) →
  healthy w2.
Proof.
  intros (Hff & Hinj & Hfresh) (Hs & He & _) Ht (_ & He2 & Ht2) Hids.
  unfold healthy, fault_free. rewrite He2, He. split_and!; [done..|].
  intros n Hn [Heq|Hin]%Hids; [apply Hinj in Heq; lia|]. apply (Hfresh n); [lia|done].
Qed.

Lemma calm_healthy t s :
  (∀ n, env_uid (calm t) n ∉ used_ids s) → healthy (calm_world t s).
Proof.
  intros Hids. split_and!; [done| |auto]. cbn. intros m n [= H].
  change (pretty (N.of_nat m) = pretty (N.of_nat n)) in H.
  apply (inj (pretty (A := N))) in H. by apply Nat2N.inj.
Qed.
