(* ===== verification/AlertRouting.v ===== *)
(** * Silences, triggers and dispatch

    The parts of [src/internal/alert/engine.go] that decide who hears of an
    alert: [matchesSilenceRule], [matchesTrigger] with its comma-separated
    filters, and [dispatchNotifications], which hands the notifier one job per
    channel. *)

From S2P Require Import Prelude.
From S2P Require Import Tables.
From S2P Require Import GoStrings.
From S2P Require Import AlertModel.
From S2P Require Import AlertStore.
From Stdlib Require Import Ascii.

#[local] Open Scope string_scope.
#[local] Open Scope list_scope.
#[local] Open Scope Z_scope.

(** ** Silence rules *)

Definition matchesSilenceRule (rule : SilenceRule) (evt : Event) : bool :=
  if bool_decide (sr_EntityType rule = "") && bool_decide (sr_Source rule = "")
     && bool_decide (sr_EntityID rule = None) then true
  else if negb (bool_decide (sr_Source rule = ""))
       && negb (bool_decide (sr_Source rule = ev_Source evt)) then false
  else if negb (bool_decide (sr_EntityType rule = ""))
       && negb (bool_decide (sr_EntityType rule = ev_EntityType evt)) then false
  else match sr_EntityID rule with
       | Some id => bool_decide (id = ev_EntityID evt)
       | None => true
       end.

(** ** Comma-separated filters *)

Definition space : ascii := " "%char.
Definition comma : ascii := ","%char.

(** The two loops of [trimSpace]; [fuel] bounds their rounds by the length. *)
Fixpoint trim_start (l : bytes) (end_ fuel start : nat) : nat :=
  match fuel with
  | O => start
  | S fuel =>
    if bool_decide (start < end_)%nat && bool_decide (l !! start = Some space)
    then trim_start l end_ fuel (S start) else start
  end.

Fixpoint trim_end (l : bytes) (start fuel end_ : nat) : nat :=
  match fuel with
  | O => end_
  | S fuel =>
    if bool_decide (start < end_)%nat && bool_decide (l !! (end_ - 1)%nat = Some space)
    then trim_end l start fuel (end_ - 1) else end_
  end.

Definition trimSpace (l : bytes) : bytes :=
  let start := trim_start l (length l) (length l) 0 in
  let end_ := trim_end l start (length l) (length l) in
  slice l start end_.

(** One round of the loop of [splitCSV]: the start of the current item and the
    items found. *)
Definition splitCSV_step (l : bytes) (acc : nat * list bytes) (i : nat) : nat * list bytes :=
  let '(start, result) := acc in
  if bool_decide (l !! i = Some comma) then
    let item := trimSpace (slice l start i) in
    (S i, if bool_decide (item = []) then result else result ++ [item])
  else (start, result).

Definition splitCSV_bytes (l : bytes) : list bytes :=
  match l with
  | [] => []
  | _ =>
    let '(start, result) := foldl (splitCSV_step l) (0%nat, []) (seq 0 (length l)) in
    let item := trimSpace (drop start l) in
    if bool_decide (item = []) then result else result ++ [item]
  end.

Definition splitCSV (s : string) : list string := of_bytes <$> splitCSV_bytes (to_bytes s).

Definition containsCSV (csv value : string) : bool :=
  existsb (λ item, bool_decide (item = value)) (splitCSV csv).

Definition matchesTrigger (t : AlertTrigger) (a : Alert) : bool :=
  if bool_decide (al_Status a = StatusResolved) && negb (tr_NotifyOnResolve t) then false
  else if negb (bool_decide (tr_FilterSeverities t = ""))
       && negb (containsCSV (tr_FilterSeverities t) (al_Severity a)) then false
  else if negb (bool_decide (tr_FilterSources t = ""))
       && negb (containsCSV (tr_FilterSources t) (al_Source a)) then false
  else if negb (bool_decide (tr_FilterScopes t = "")) then
    let scope := al_EntityType a +:+ ":" +:+ al_EntityID a in
    containsCSV (tr_FilterScopes t) scope
  else true.

(** ** Dispatch *)

(** [Notifier.Enqueue]: a full queue drops the job. *)
Definition Enqueue (job : NotificationJob) : M alerting unit :=
  let! full := fault in
  if full then ret tt else modify (λ s, s <| jobs ::= λ js, js ++ [job] |>).

Definition enqueueDelivery (ch : NotificationChannel) (a : Alert) : M alerting unit :=
  let! r := InsertNotificationDelivery
    (MkNotificationDelivery "" (al_ID a) (ch_ID ch) DeliveryPending) in
  match r with
  | Err _ => ret tt
  | Ok delivery => Enqueue (MkJob delivery ch a)
  end.

(** One round of the inner loop: the channels dispatched so far. *)
Definition dispatch_channel (payload : Alert) (dispatched : gset string) (chID : string)
    : M alerting (gset string) :=
  if bool_decide (chID ∈ dispatched) then ret dispatched
  else
    let! r := GetChannel chID in
    match r with
    | Err _ | Ok None => ret dispatched
    | Ok (Some ch) =>
      if ch_Enabled ch then
        do! enqueueDelivery ch payload in ret ({[chID]} ∪ dispatched)
      else ret dispatched
    end.

Definition dispatchNotifications (notifier : bool) (routeBy payload : Alert)
    : M alerting unit :=
  if negb notifier then ret tt
  else
    let! r := ListEnabledTriggers in
    let triggers := match r with Ok ts => ts | Err _ => [] end in
    do! for_acc triggers (∅ : gset string) (λ dispatched t,
      if negb (matchesTrigger t routeBy) then ret dispatched
      else for_acc (tr_ChannelIDs t) dispatched (dispatch_channel payload)) in
    ret tt.

(** ** Lemmas: trimming and splitting *)

(** [x] is [l] without its leading and trailing spaces. *)
Definition trimmed (l x : bytes) : Prop :=
  (∃ n m, l = replicate n space ++ x ++ replicate m space)
  ∧ head x ≠ Some space ∧ last x ≠ Some space.

Lemma trim_start_spec l fuel start :
  (length l - start ≤ fuel)%nat → (start ≤ length l)%nat →
  let s := trim_start l (length l) fuel start in
  (start ≤ s ≤ length l)%nat ∧ head (drop s l) ≠ Some space ∧
  drop start l = replicate (s - start) space ++ drop s l.
Proof.
  revert start. induction fuel as [|fuel IH]; intros start Hf Hs; cbn.
  - assert (start = length l) as -> by lia. rewrite drop_all, Nat.sub_diag. split_and!; [lia..|done|done].
  - destruct (bool_decide_reflect (start < length l)%nat); cbn; cycle 1.
    { assert (start = length l) as -> by lia.
      rewrite drop_all, Nat.sub_diag. split_and!; [lia..|done|done]. }
    destruct (bool_decide_reflect (l !! start = Some space)) as [Hsp|Hsp]; cycle 1.
    { rewrite Nat.sub_diag, head_lookup, lookup_drop, Nat.add_0_r. split_and!; [lia..|done|done]. }
    destruct (IH (S start)) as (H1 & H2 & H3); [lia..|]. split_and!; [lia..|done|].
    rewrite (drop_S l space start) by done. rewrite H3.
    replace (trim_start l (length l) fuel (S start) - start)%nat
      with (S (trim_start l (length l) fuel (S start) - S start)) by lia.
    done.
Qed.

Lemma slice_snoc (l : bytes) start end_ a :
  (start < end_)%nat → l !! (end_ - 1)%nat = Some a →
  slice l start end_ = slice l start (end_ - 1) ++ [a].
Proof.
  intros Hlt Ha. unfold slice.
  replace (end_ - start)%nat with (S (end_ - 1 - start)) by lia.
  apply take_S_r. rewrite lookup_drop. by replace (start + (end_ - 1 - start))%nat with (end_ - 1)%nat by lia.
Qed.

Lemma trim_end_spec l start fuel end_ :
  (end_ - start ≤ fuel)%nat → (start ≤ end_)%nat → (end_ ≤ length l)%nat →
  let e := trim_end l start fuel end_ in
  (start ≤ e ≤ end_)%nat ∧ last (slice l start e) ≠ Some space ∧
  slice l start end_ = slice l start e ++ replicate (end_ - e) space.
Proof.
  revert end_. induction fuel as [|fuel IH]; intros end_ Hf Hs He; cbn.
  - assert (end_ = start) as -> by lia. unfold slice. rewrite Nat.sub_diag.
    split_and!; [lia..|done|done].
  - destruct (bool_decide_reflect (start < end_)%nat); cbn; cycle 1.
    { assert (end_ = start) as -> by lia. unfold slice. rewrite Nat.sub_diag.
      split_and!; [lia..|done|done]. }
    destruct (lookup_lt_is_Some_2 l (end_ - 1)) as [a Ha]; [lia|].
    rewrite Ha. destruct (bool_decide_reflect (Some a = Some space)) as [[= ->]|Hsp]; cycle 1.
    { rewrite Nat.sub_diag, app_nil_r. rewrite (slice_snoc l start end_ a), last_snoc by done.
      split_and!; [lia..|done|done]. }
    destruct (IH (end_ - 1)%nat) as (H1 & H2 & H3); [lia..|]. split_and!; [lia..|done|].
    rewrite (slice_snoc _ _ _ space), H3, <- app_assoc by done. f_equal.
    replace (end_ - trim_end l start fuel (end_ - 1))%nat
      with (S (end_ - 1 - trim_end l start fuel (end_ - 1))) by lia.
    by rewrite replicate_S_end.
Qed.

Lemma trimSpace_trimmed l : trimmed l (trimSpace l).
Proof.
  unfold trimSpace.
  destruct (trim_start_spec l (length l) 0) as (H1 & H2 & H3); [lia..|]. revert H1 H2 H3.
  generalize (trim_start l (length l) (length l) 0). intros s H1 H2 H3.
  destruct (trim_end_spec l s (length l) (length l)) as (H4 & H5 & H6); [lia..|]. revert H4 H5 H6.
  generalize (trim_end l s (length l) (length l)). intros e H4 H5 H6.
  assert (slice l s (length l) = drop s l) as Hd.
  { unfold slice. apply take_ge. rewrite length_drop. lia. }
  split_and!; [|..|done].
  - exists s, (length l - e)%nat. rewrite drop_0 in H3. rewrite <- H6, Hd.
    by rewrite Nat.sub_0_r in H3.
  - intros Hsp. apply H2. rewrite <- Hd, H6.
    destruct (slice l s e); [done|]. by injection Hsp as ->.
Qed.

Definition nonempty (l : bytes) : bool := negb (bool_decide (l = [])).

(** What one round of [splitCSV] maintains: the text read so far splits into the
    items found and the current one. *)
Lemma splitCSV_loop l k :
  (k ≤ length l)%nat →
  ∃ ws, let '(start, result) := foldl (splitCSV_step l) (0%nat, []) (seq 0 k) in
    (start ≤ k)%nat ∧ split_on comma (take k l) = ws ++ [slice l start k] ∧
    result = filter (λ i, nonempty i = true) (trimSpace <$> ws).
Proof.
  induction k as [|k IH]; intros Hk; [by exists []|].
  destruct IH as [ws IH]; [lia|]. rewrite seq_S, foldl_app. cbn [foldl].
  destruct (foldl _ _ (seq 0 k)) as [start result]. destruct IH as (Hs & Hsp & ->).
  destruct (lookup_lt_is_Some_2 l k) as [a Ha]; [lia|]. cbn [Nat.add splitCSV_step].
  rewrite Ha, (take_S_r _ _ a) by done.
  destruct (bool_decide_reflect (Some a = Some comma)) as [[= ->]|Hne].
  - exists (ws ++ [slice l start k]). split_and!; [lia| |].
    + rewrite split_on_snoc_sep, Hsp. unfold slice at 3. by rewrite Nat.sub_diag.
    + rewrite fmap_app, filter_app. cbn [fmap list_fmap]. rewrite filter_cons.
      unfold nonempty. case_bool_decide; cbn; by rewrite ?app_nil_r.
  - exists ws. split_and!; [lia| |done].
    rewrite (split_on_app_no_sep _ _ _ _ [a] Hsp) by set_solver.
    rewrite (slice_snoc l start (S k) a); [|lia|by rewrite Nat.sub_1_r].
    by rewrite Nat.sub_1_r.
Qed.

(** The index loop of [splitCSV] computes: split at the commas, trim, drop the
    empty items. *)
Lemma splitCSV_bytes_eq l :
  splitCSV_bytes l = filter (λ i, nonempty i = true) (trimSpace <$> split_on comma l).
Proof.
  destruct l as [|a l']; [done|]. set (l := a :: l').
  destruct (splitCSV_loop l (length l)) as [ws Hws]; [lia|].
  unfold splitCSV_bytes. fold l. cbn [splitCSV_bytes]. unfold l at 1. fold l.
  destruct (foldl _ _ (seq 0 (length l))) as [start result]. destruct Hws as (Hs & Hsp & ->).
  rewrite take_ge in Hsp by lia. rewrite Hsp, fmap_app, filter_app.
  cbn [fmap list_fmap]. rewrite filter_cons. unfold slice, nonempty.
  rewrite (take_ge (drop start l)) by (rewrite length_drop; lia).
  case_bool_decide; cbn; by rewrite ?app_nil_r.
Qed.

Lemma containsCSV_spec csv value :
  containsCSV csv value = true ↔
  value ≠ "" ∧ ∃ item, item ∈ split_on comma (to_bytes csv) ∧ trimSpace item = to_bytes value.
Proof.
  unfold containsCSV, splitCSV. rewrite existsb_exists, splitCSV_bytes_eq. split.
  - intros (x & Hx%list_elem_of_In & ->%bool_decide_eq_true).
    apply list_elem_of_fmap in Hx as (i & -> & [Hne Hi]%list_elem_of_filter).
    apply list_elem_of_fmap in Hi as (item & -> & Hitem). split.
    + intros He. unfold nonempty in Hne. apply (f_equal to_bytes) in He.
      rewrite to_of_bytes in He. by rewrite He in Hne.
    + exists item. by rewrite to_of_bytes.
  - intros (Hne & item & Hitem & Heq). exists value. split; [|by apply bool_decide_eq_true].
    apply list_elem_of_In, list_elem_of_fmap. exists (to_bytes value). rewrite of_to_bytes.
    split; [done|]. apply list_elem_of_filter. split.
    + unfold nonempty. rewrite bool_decide_false; [done|].
      intros He. apply Hne. by rewrite <- (of_to_bytes value), He.
    + rewrite <- Heq. by apply list_elem_of_fmap_2.
Qed.

(** ** Lemmas: the dispatch loop *)

(** The channel ids [dispatchNotifications] goes through, in order. *)
Definition routed_ids (triggers : list AlertTrigger) (routeBy : Alert) : list string :=
  concat (tr_ChannelIDs <$> filter (λ t, matchesTrigger t routeBy = true) triggers).

Lemma dispatch_loop_flat routeBy payload triggers dispatched w :
  for_acc triggers dispatched (λ dispatched t,
    if negb (matchesTrigger t routeBy) then ret dispatched
    else for_acc (tr_ChannelIDs t) dispatched (dispatch_channel payload)) w
  = for_acc (routed_ids triggers routeBy) dispatched (dispatch_channel payload) w.
Proof.
  unfold routed_ids. revert dispatched w.
  induction triggers as [|t ts IH]; intros dispatched w; [done|].
  rewrite filter_cons. cbn [for_acc]. destruct (matchesTrigger t routeBy); cbn [negb].
  - rewrite decide_True by done. cbn. rewrite for_acc_app. apply IH.
  - rewrite decide_False by done. apply IH.
Qed.

(** A trigger as [ListEnabledTriggers] returns it. *)
Definition loaded (t t' : AlertTrigger) : Prop :=
  t' = MkTrigger (tr_ID t) (tr_Name t) (tr_FilterSeverities t) (tr_FilterSources t)
    (tr_FilterScopes t) (tr_Enabled t) (tr_NotifyOnResolve t)
    (merge_sort String.le (tr_ChannelIDs t)) (tr_CreatedAt t).

Lemma wp_load_trigger_channels ts (Q : result (list AlertTrigger) → world alerting → Prop) w :
  (∀ w', same w w' → ¬ fault_free w → Q (Err EStore) w') →
  (∀ ts' w', same w w' → Forall2 loaded ts ts' → Q (Ok ts') w') →
  wp (load_trigger_channels ts) Q w.
Proof.
  revert Q w. induction ts as [|t ts IH]; intros Q w He Ho; cbn.
  { apply wp_ret, Ho; [apply same_refl|constructor]. }
  apply wp_bind, wp_db_query; [by intros; apply wp_ret, He|].
  intros w1 H1. apply wp_bind, IH.
  - intros w2 H2 Hff. apply wp_ret, He; [by eapply same_trans|].
    intros Hw. apply Hff. eapply fault_free_env; [apply H1|done].
  - intros. apply wp_ret, Ho; [by eapply same_trans|by constructor].
Qed.

Lemma wp_ListEnabledTriggers (Q : result (list AlertTrigger) → world alerting → Prop) w :
  (∀ w', same w w' → ¬ fault_free w → Q (Err EStore) w') →
  (∀ ts w', same w w' →
    Forall2 loaded (order_by (λ t, unix (tr_CreatedAt t))
      (select_where tr_Enabled (db_triggers (w_st w)))) ts → Q (Ok ts) w') →
  wp ListEnabledTriggers Q w.
Proof.
  intros He Ho. apply wp_bind, wp_db_query; [by intros; apply wp_ret, He|].
  intros w1 H1. apply wp_load_trigger_channels.
  - intros w2 H2 Hff. apply He; [by eapply same_trans|].
    intros Hw. apply Hff. eapply fault_free_env; [apply H1|done].
  - intros ts w2 H2. apply Ho. by eapply same_trans.
Qed.

(** [chID] belongs to an enabled trigger that matches [routeBy], and names an
    enabled channel. *)
Definition wants (s : alerting) (routeBy : Alert) (chID : string) : Prop :=
  (∃ t, t ∈ db_triggers s ∧ tr_Enabled t = true ∧ matchesTrigger t routeBy = true
        ∧ chID ∈ tr_ChannelIDs t)
  ∧ ∃ ch, select_id chID (db_channels s) = Some ch ∧ ch_Enabled ch = true.

Lemma routed_ids_loaded s ts' routeBy chID :
  Forall2 loaded
    (order_by (λ t, unix (tr_CreatedAt t)) (select_where tr_Enabled (db_triggers s))) ts' →
  chID ∈ routed_ids ts' routeBy ↔
  ∃ t, t ∈ db_triggers s ∧ tr_Enabled t = true ∧ matchesTrigger t routeBy = true
       ∧ chID ∈ tr_ChannelIDs t.
Proof.
  intros Hts. unfold routed_ids. rewrite list_elem_of_In, in_concat.
  setoid_rewrite <- list_elem_of_In. split.
  - intros (ids & (t' & -> & [Hm Ht']%list_elem_of_filter)%list_elem_of_fmap & Hid).
    apply list_elem_of_lookup in Ht' as [i Hi].
    destruct (Forall2_lookup_r _ _ _ _ _ Hts Hi) as (t & Ht & ->).
    apply list_elem_of_lookup_2, order_by_elem, select_where_elem in Ht as [Ht Hen].
    exists t. split_and!; [done..|]. cbn in Hid. by rewrite merge_sort_Permutation in Hid.
  - intros (t & Ht & Hen & Hm & Hid).
    assert (t ∈ order_by (λ t, unix (tr_CreatedAt t)) (select_where tr_Enabled (db_triggers s)))
      as Hin by (by apply order_by_elem, select_where_elem).
    apply list_elem_of_lookup in Hin as [i Hi].
    destruct (Forall2_lookup_l _ _ _ _ _ Hts Hi) as (t' & Ht' & Hl).
    apply list_elem_of_lookup_2 in Ht'. exists (tr_ChannelIDs t'). split.
    + apply list_elem_of_fmap_2, list_elem_of_filter. split; [by rewrite Hl|done].
    + rewrite Hl. cbn. by rewrite merge_sort_Permutation.
Qed.

(** What a dispatch maintains from [w0] on: the tables it reads are untouched,
    and the new jobs are one per dispatched channel, each with its delivery row
    and carrying the payload. *)
Definition job_ok (s : alerting) (payload : Alert) (j : NotificationJob) : Prop :=
  job_Alert j = payload
  ∧ select_id (ch_ID (job_Channel j)) (db_channels s) = Some (job_Channel j)
  ∧ ch_Enabled (job_Channel j) = true
  ∧ nd_AlertID (job_Delivery j) = al_ID payload
  ∧ nd_ChannelID (job_Delivery j) = ch_ID (job_Channel j)
  ∧ nd_Status (job_Delivery j) = DeliveryPending
  ∧ job_Delivery j ∈ db_deliveries s.

Definition job_channel_ids (js : list NotificationJob) : list string :=
  ch_ID ∘ job_Channel <$> js.

(** A dispatch changes the queue and the delivery rows, nothing else. *)
Definition same_but_jobs (s s' : alerting) : Prop :=
  s' <| jobs := [] |> <| db_deliveries := [] |> = s <| jobs := [] |> <| db_deliveries := [] |>.

#[export] Instance same_but_jobs_preorder : PreOrder same_but_jobs.
Proof. split; unfold same_but_jobs; [done|congruence]. Qed.

Record dispatched_from (payload : Alert) (s0 s : alerting) (ids : gset string) := {
  df_frame : same_but_jobs s0 s;
  df_rows : ∀ d, d ∈ db_deliveries s0 → d ∈ db_deliveries s;
  df_jobs : ∃ new, jobs s = jobs s0 ++ new ∧ NoDup (job_channel_ids new)
    ∧ Forall (job_ok s payload) new ∧ (∀ c, c ∈ job_channel_ids new → c ∈ ids);
}.

Lemma dispatched_from_refl payload s : dispatched_from payload s s ∅.
Proof.
  split; [reflexivity|done|]. exists []. rewrite app_nil_r.
  split_and!; [done|constructor|done|]. intros c. by rewrite elem_of_nil.
Qed.

Lemma job_ok_mono s s' payload j :
  db_channels s' = db_channels s → (∀ d, d ∈ db_deliveries s → d ∈ db_deliveries s') →
  job_ok s payload j → job_ok s' payload j.
Proof. unfold job_ok. intros -> Hd. naive_solver. Qed.

(** The state after one more delivery row, and after one more job. *)
Lemma dispatched_from_row payload s0 s ids d id :
  dispatched_from payload s0 s ids →
  dispatched_from payload s0 (s <| db_deliveries := db_deliveries s ++ [d] |>) ({[id]} ∪ ids).
Proof.
  intros [Hf Hr (new & Hj & Hnd & Hok & Hin)]. split.
  - exact Hf.
  - intros d' Hd'. cbn. apply elem_of_app. auto.
  - exists new. split_and!; [done..| |set_solver].
    eapply Forall_impl; [exact Hok|]. intros j. apply job_ok_mono; [done|].
    intros d'. cbn. set_solver.
Qed.

Lemma dispatched_from_job payload s0 s ids d ch :
  dispatched_from payload s0 s ids → ch_ID ch ∉ ids → d ∈ db_deliveries s →
  select_id (ch_ID ch) (db_channels s) = Some ch → ch_Enabled ch = true →
  nd_AlertID d = al_ID payload → nd_ChannelID d = ch_ID ch → nd_Status d = DeliveryPending →
  dispatched_from payload s0 (s <| jobs := jobs s ++ [MkJob d ch payload] |>)
    ({[ch_ID ch]} ∪ ids).
Proof.
  intros [Hf Hr (new & Hj & Hnd & Hok & Hin)] Hid Hd Hch Hen Ha Hc Hs. split.
  - exact Hf.
  - done.
  - exists (new ++ [MkJob d ch payload]). unfold job_channel_ids in *.
    rewrite fmap_app. split_and!.
    + cbn. by rewrite Hj, <- app_assoc.
    + apply NoDup_app. split_and!; [done|set_solver|apply NoDup_singleton].
    + apply Forall_app. split; [exact Hok|]. by apply Forall_singleton.
    + set_solver.
Qed.

Lemma same_but_jobs_channels s s' : same_but_jobs s s' → db_channels s' = db_channels s.
Proof. by intros H%(f_equal db_channels). Qed.

(** The loop invariant of a dispatch begun in [w0], after the channel ids
    [done]. *)
Record dispatch_inv (payload : Alert) (w0 : world alerting) (done : list string)
    (ids : gset string) (w : world alerting) := {
  di_env : w_env w = w_env w0;
  di_from : dispatched_from payload (w_st w0) (w_st w) ids;
  di_ids : ∀ c, c ∈ ids → c ∈ done ∧
    ∃ ch, select_id c (db_channels (w_st w0)) = Some ch ∧ ch_Enabled ch = true;
  di_healthy : healthy w0 → healthy w
    ∧ (∀ c ch, c ∈ done → select_id c (db_channels (w_st w0)) = Some ch →
         ch_Enabled ch = true → c ∈ ids)
    ∧ ∀ c, c ∈ ids → c ∈ job_channel_ids (drop (length (jobs (w_st w0))) (jobs (w_st w)));
}.

Lemma dispatch_inv_same payload w0 done ids w w' :
  same w w' → dispatch_inv payload w0 done ids w → dispatch_inv payload w0 done ids w'.
Proof.
  intros Hs [He Hf Hi Hh]. pose proof Hs as (Hst & Henv & _). split.
  - by rewrite Henv.
  - by rewrite Hst.
  - done.
  - intros H0. destruct (Hh H0) as (H1 & H2 & H3). rewrite Hst.
    split_and!; [by eapply healthy_same|done..].
Qed.

Lemma dispatched_from_weaken payload s0 s ids ids' :
  ids ⊆ ids' → dispatched_from payload s0 s ids → dispatched_from payload s0 s ids'.
Proof.
  intros Hsub [Hf Hr (new & Hj & Hnd & Hok & Hin)]. split; [done..|].
  exists new. split_and!; [done..|]. set_solver.
Qed.

(** Queueing one delivery: whatever fails, the loop invariant's first part holds
    with the channel marked; when nothing fails its job is in the queue. *)
Lemma wp_enqueueDelivery payload s0 ids ch w :
  dispatched_from payload s0 (w_st w) ids → ch_ID ch ∉ ids →
  select_id (ch_ID ch) (db_channels (w_st w)) = Some ch → ch_Enabled ch = true →
  wp (enqueueDelivery ch payload) (λ _ w', w_env w' = w_env w
    ∧ dispatched_from payload s0 (w_st w') ({[ch_ID ch]} ∪ ids)
    ∧ (healthy w → healthy w' ∧ ∃ j, ch_ID (job_Channel j) = ch_ID ch
         ∧ jobs (w_st w') = jobs (w_st w) ++ [j])) w.
Proof.
  intros Hd Hid Hch Hen. apply wp_bind, wp_bind, wp_new_uid. intros w1 H1 Ht1.
  pose proof H1 as (Hs1 & He1 & _).
  apply wp_bind, wp_db_insert.
  - intros w2 (Hs2 & He2 & _) Hff. apply wp_ret, wp_ret. rewrite Hs2, He2, He1, Hs1.
    split_and!; [done|eapply dispatched_from_weaken; [|done]; set_solver|].
    intros Hw. exfalso.
    assert (fault_free w1) as Hff1 by (eapply fault_free_env, Hw; done).
    apply (proj2 (proj2 Hw) (w_tick w) (le_n _)). specialize (Hff Hff1). rewrite Hs1 in Hff.
    unfold used_ids. rewrite !elem_of_app. auto.
  - intros w2 Hnew H2. rewrite Hs1 in H2, Hnew. pose proof H2 as (Hs2 & He2 & _).
    apply wp_ret, wp_bind, wp_fault. intros full w3 H3 Hff. pose proof H3 as (Hs3 & He3 & _).
    assert (healthy w → healthy w2) as Hh.
    { intros Hw. eapply (healthy_draw w w1 w2); [done..|by rewrite Hs2|].
      rewrite Hs2. intros id. unfold used_ids, table_ids. cbn. rewrite fmap_app. set_solver. }
    destruct full.
    + apply wp_ret. rewrite Hs3, He3, He2, He1, Hs2. split_and!; [done|by apply dispatched_from_row|].
      intros [Hw _]%Hh. by apply Hff in Hw.
    + apply wp_modify_put. intros w4 H4. pose proof H4 as (Hs4 & He4 & _).
      rewrite Hs4, Hs3, Hs2, He4, He3, He2, He1. split_and!; [done| |].
      * apply (dispatched_from_job payload s0
          (w_st w <| db_deliveries := db_deliveries (w_st w) ++ [_] |>) ids); [|done| |done..].
        -- destruct Hd as [Hf Hr (new & Hj & Hnd & Hok & Hin)]. split; [exact Hf|set_solver|].
           exists new. split_and!; [done..| |done]. eapply Forall_impl; [exact Hok|].
           intros j. apply job_ok_mono; [done|set_solver].
        -- cbn. set_solver.
      * intros Hw. split; [|eexists; split; [|reflexivity]; reflexivity].
        eapply (healthy_put w3); [exact H4|by eapply healthy_same, Hh|done].
Qed.

(** One round of the loop that leaves the channel out. *)
Lemma dispatch_inv_skip payload w0 done ids chID w :
  dispatch_inv payload w0 done ids w →
  (healthy w0 → ∀ ch, select_id chID (db_channels (w_st w0)) = Some ch →
    ch_Enabled ch = true → chID ∈ ids) →
  dispatch_inv payload w0 (done ++ [chID]) ids w.
Proof.
  intros [He Hf Hi Hh] Hskip. split; [done..| |].
  - intros c Hc. destruct (Hi c Hc) as [??]. split; [set_solver|done].
  - intros H0. destruct (Hh H0) as (H1 & H2 & H3). split_and!; [done| |done].
    intros c ch [Hc| ->%list_elem_of_singleton]%elem_of_app; eauto.
Qed.

Lemma wp_dispatch_channel payload w0 done ids chID w :
  dispatch_inv payload w0 done ids w →
  wp (dispatch_channel payload ids chID)
    (dispatch_inv payload w0 (done ++ [chID])) w.
Proof.
  intros Hinv. unfold dispatch_channel. case_bool_decide as Hid.
  { apply wp_ret, dispatch_inv_skip; [done|]. auto. }
  assert (db_channels (w_st w) = db_channels (w_st w0)) as Hchs
    by apply (same_but_jobs_channels _ _ (df_frame _ _ _ _ (di_from _ _ _ _ _ Hinv))).
  apply wp_bind, wp_db_query.
  { intros w1 H1 Hff. apply wp_ret, dispatch_inv_skip; [by eapply dispatch_inv_same|].
    intros H0. destruct Hff. apply healthy_fault_free, (di_healthy _ _ _ _ _ Hinv H0). }
  intros w1 H1. apply (dispatch_inv_same _ _ _ _ _ _ H1) in Hinv.
  rewrite <- (proj1 H1) in Hchs |- *.
  destruct (select_id chID (db_channels (w_st w1))) as [ch|] eqn:Hch; cycle 1.
  { apply wp_ret, dispatch_inv_skip; [done|]. intros _ ch. by rewrite <- Hchs, Hch. }
  destruct (ch_Enabled ch) eqn:Hen; cycle 1.
  { apply wp_ret, dispatch_inv_skip; [done|]. intros _ ch'. rewrite <- Hchs, Hch. intros [= <-]. by rewrite Hen. }
  destruct (select_id_Some _ _ _ Hch) as [_ Heq]. change (ch_ID ch = chID) in Heq. subst chID.
  destruct Hinv as [He Hf Hi Hh].
  eapply wp_bind, wp_mono; [by apply wp_enqueueDelivery|].
  intros [] w2 (He2 & Hf2 & Hh2). apply wp_ret. split; [by rewrite He2|done| |].
  - intros c [->%elem_of_singleton|Hc]%elem_of_union.
    + split; [set_solver|]. exists ch. by rewrite <- Hchs.
    + destruct (Hi c Hc) as [??]. split; [set_solver|done].
  - intros H0. destruct (Hh H0) as (Hw1 & Hall & Hjobs).
    destruct (Hh2 Hw1) as (Hw2 & j & Hj & Hjs). split_and!; [done| |].
    + intros c ch' [Hc| ->%list_elem_of_singleton]%elem_of_app ??; [|set_solver].
      apply elem_of_union_r. by eapply Hall.
    + intros c Hc. rewrite Hjs, drop_app_le; cycle 1.
      { destruct (df_jobs _ _ _ _ Hf) as (new & -> & _). rewrite length_app. lia. }
      unfold job_channel_ids in *. rewrite fmap_app, elem_of_app. cbn. rewrite Hj.
      set_solver.
Qed.

Lemma wp_dispatchNotifications notifier routeBy payload w :
  wp (dispatchNotifications notifier routeBy payload) (λ _ w', w_env w' = w_env w ∧
    ∃ ids, dispatched_from payload (w_st w) (w_st w') ids
    ∧ (∀ c, c ∈ ids → wants (w_st w) routeBy c)
    ∧ (healthy w → healthy w' ∧ (notifier = true →
         ∀ c, wants (w_st w) routeBy c → c ∈ job_channel_ids (drop (length (jobs (w_st w))) (jobs (w_st w')))))) w.
Proof.
  unfold dispatchNotifications. destruct notifier; cbn [negb]; cycle 1.
  { apply wp_ret. split; [done|]. exists ∅. split_and!; [apply dispatched_from_refl|set_solver|done]. }
  assert (∀ w1, same w w1 → dispatch_inv payload w [] ∅ w1) as H0.
  { intros w1 H1. apply (dispatch_inv_same _ _ _ _ w); [done|].
    split; [done|apply dispatched_from_refl|set_solver|]. intros Hw. split_and!; set_solver. }
  apply wp_bind, wp_ListEnabledTriggers.
  - intros w1 H1 Hff. apply wp_bind, wp_ret, wp_ret. destruct (H0 w1 H1) as [He Hf _ Hh].
    split; [done|]. exists ∅. split_and!; [done|set_solver|]. by intros ?%healthy_fault_free.
  - intros ts w1 H1 Hts. apply wp_bind. eapply wp_ext; [apply dispatch_loop_flat|].
    eapply wp_mono; [apply (wp_for_acc _ _ _ (dispatch_inv payload w)); [|by apply H0]|].
    { intros done c rest acc w2 _. apply wp_dispatch_channel. }
    intros ids w2 [He Hf Hi Hh]. apply wp_ret. split; [done|]. exists ids. split_and!; [done| |].
    + intros c Hc. destruct (Hi c Hc) as [Hr Hch]. split; [|done]. by eapply routed_ids_loaded.
    + intros Hw. destruct (Hh Hw) as (Hw2 & Hall & Hjobs). split; [done|]. intros _ c [Ht Hch].
      apply Hjobs. destruct Hch as (ch & Hch & Hen). eapply Hall; [|done..].
      by eapply routed_ids_loaded.
Qed.

(** ** Theorems *)

(** A dispatch never notifies a channel twice and never one it should not:
    whatever calls fail, the jobs it queues are for pairwise distinct channels,
    each of which is enabled and linked to an enabled trigger that matches the
    routing alert; each job carries the payload and a stored pending delivery of
    that alert to that channel; nothing but the queue and the delivery rows
    changes. *)
Theorem dispatch_at_most_once notifier routeBy payload w :
  wp (dispatchNotifications notifier routeBy payload) (λ _ w',
    same_but_jobs (w_st w) (w_st w') ∧
    ∃ new, jobs (w_st w') = jobs (w_st w) ++ new ∧ NoDup (job_channel_ids new) ∧
      Forall (λ j, job_ok (w_st w') payload j
                   ∧ wants (w_st w) routeBy (ch_ID (job_Channel j))) new) w.
Proof.
  eapply wp_mono; [apply wp_dispatchNotifications|].
  intros [] w' (_ & ids & [Hf _ (new & Hj & Hnd & Hok & Hin)] & Hids & _).
  split; [done|]. exists new. split_and!; [done..|].
  rewrite Forall_forall in Hok |- *. intros j Hjn. split; [auto|].
  apply Hids, Hin. by apply (list_elem_of_fmap_2 (ch_ID ∘ job_Channel)).
Qed.

(** When no call fails, a dispatch queues exactly one job for every channel
    that is enabled and linked to an enabled matching trigger, and none for the
    others. *)
Theorem dispatch_exact routeBy payload w :
  healthy w →
  wp (dispatchNotifications true routeBy payload) (λ _ w', healthy w' ∧
    ∃ new, jobs (w_st w') = jobs (w_st w) ++ new ∧ NoDup (job_channel_ids new) ∧
      ∀ c, c ∈ job_channel_ids new ↔ wants (w_st w) routeBy c) w.
Proof.
  intros Hw. eapply wp_mono; [apply wp_dispatchNotifications|].
  intros [] w' (_ & ids & [Hf _ (new & Hj & Hnd & Hok & Hin)] & Hids & Hh).
  destruct (Hh Hw) as [Hw' Hall]. split; [done|]. exists new. split_and!; [done..|].
  intros c. split; [by auto|]. intros Hc. rewrite <- (drop_app_length (jobs (w_st w)) new), <- Hj.
  by apply Hall.
Qed.

(** The value passes the filter: an empty filter accepts everything, another one
    must have, between two commas, the value surrounded by nothing but spaces. *)
Definition csv_allows (filter_ value : string) : Prop :=
  filter_ = "" ∨
  (value ≠ "" ∧ ∃ item, item ∈ split_on comma (to_bytes filter_) ∧ trimmed item (to_bytes value)).

Lemma replicate_cons_inj (n m : nat) (x y : bytes) :
  head x ≠ Some space → head y ≠ Some space → x ≠ [] → y ≠ [] →
  replicate n space ++ x = replicate m space ++ y → x = y.
Proof.
  intros Hx Hy Hnx Hny. revert m. induction n as [|n IH]; intros [|m]; cbn; [done|..].
  - intros ->. by destruct Hx.
  - intros <-. by destruct Hy.
  - intros [= H]. by apply (IH m).
Qed.

(** Trimming is determined by its result. *)
Lemma trimmed_unique l x : trimmed l x → x ≠ [] → trimSpace l = x.
Proof.
  intros ((n & m & ->) & Hhx & Hlx) Hx.
  destruct (trimSpace_trimmed (replicate n space ++ x ++ replicate m space))
    as ((n' & m' & Heq) & Hhy & Hly).
  revert Heq Hhy Hly. generalize (trimSpace (replicate n space ++ x ++ replicate m space)).
  intros y Heq Hhy Hly.
  assert (y ≠ []) as Hy.
  { intros ->. cbn in Heq. rewrite <- replicate_add in Heq.
    destruct x as [|a x]; [done|]. apply Hhx. cbn. f_equal.
    assert (a ∈ replicate (n' + m') space) as Ha%elem_of_replicate by (rewrite <- Heq; set_solver).
    by destruct Ha. }
  apply replicate_cons_inj in Heq; [..|by destruct x|by destruct y|by destruct x|by destruct y].
  apply (f_equal reverse) in Heq. rewrite !reverse_app, !reverse_replicate in Heq.
  assert (∀ z : bytes, last z ≠ Some space → head (reverse z) ≠ Some space) as Hrev.
  { intros z. by rewrite head_reverse. }
  assert (∀ z : bytes, z ≠ [] → reverse z ≠ []) as Hrn.
  { intros z Hz Hr. apply Hz. apply (f_equal reverse) in Hr. by rewrite reverse_involutive in Hr. }
  apply replicate_cons_inj in Heq; [|auto..]. by apply (inj reverse).
Qed.

Lemma csv_allows_spec filter_ value :
  csv_allows filter_ value ↔
  negb (bool_decide (filter_ = "")) && negb (containsCSV filter_ value) = false.
Proof.
  unfold csv_allows. case_bool_decide as Hf; cbn; [tauto|].
  rewrite negb_false_iff, containsCSV_spec. split.
  - intros [?|(Hv & item & Hi & Ht)]; [done|]. split; [done|]. exists item. split; [done|].
    apply trimmed_unique; [done|]. intros He. apply Hv. by apply (inj to_bytes).
  - intros (Hv & item & Hi & <-). right. split; [done|]. eauto using trimSpace_trimmed.
Qed.

(** [matchesTrigger] accepts an alert iff the trigger wants resolutions or
    the alert is not one, and each of the three filters allows its value: the
    severity, the source, and ["entity_type:entity_id"]. *)
Theorem matchesTrigger_spec t a :
  matchesTrigger t a = true ↔
  (al_Status a = StatusResolved → tr_NotifyOnResolve t = true)
  ∧ csv_allows (tr_FilterSeverities t) (al_Severity a)
  ∧ csv_allows (tr_FilterSources t) (al_Source a)
  ∧ csv_allows (tr_FilterScopes t) (al_EntityType a +:+ ":" +:+ al_EntityID a).
Proof.
  rewrite !csv_allows_spec. unfold matchesTrigger.
  destruct (bool_decide_reflect (al_Status a = StatusResolved)) as [Hr|Hr];
    destruct (tr_NotifyOnResolve t); cbn [negb andb];
    repeat match goal with
    | |- context [negb (bool_decide ?P) && negb ?c] => destruct (negb (bool_decide P)), c
    | |- context [if negb (bool_decide ?P) then _ else _] => destruct (negb (bool_decide P))
    end; cbn; naive_solver.
Qed.

(** [matchesSilenceRule] silences an event iff each filter the rule sets
    (source, entity type, entity id) is the event's; a rule with no filter
    silences everything. *)
Theorem matchesSilenceRule_spec rule evt :
  matchesSilenceRule rule evt = true ↔
  (sr_Source rule = "" ∨ sr_Source rule = ev_Source evt)
  ∧ (sr_EntityType rule = "" ∨ sr_EntityType rule = ev_EntityType evt)
  ∧ (∀ id, sr_EntityID rule = Some id → id = ev_EntityID evt).
Proof.
  unfold matchesSilenceRule. destruct (sr_EntityID rule) as [id|] eqn:Hid;
    repeat case_bool_decide; cbn; naive_solver.
Qed.

(** ** Witnesses *)

Module RoutingExample.
Definition mail : NotificationChannel := MkChannel "c1" "mail" "email" "" true.
Definition chat : NotificationChannel := MkChannel "c2" "chat" "webhook" "" false.
Definition trigger : AlertTrigger :=
  MkTrigger "t1" "all" "critical, warning" "" "" true false ["c2"; "c1"] 0.
Definition alert : Alert :=
  MkAlert "a1" "container" "restart_loop" "warning" StatusActive "loop" "container" "x"
    "web" LocalAgent "{}" None 0 None None "" None 0.
Definition state : alerting :=
  empty_alerting <| db_channels := [mail; chat] |> <| db_triggers := [trigger] |>.
Definition w0 : world alerting := calm_world 0 state.

Example mail_only :
  job_channel_ids (jobs (w_st (dispatchNotifications true alert alert w0).2)) = ["c1"].
Proof. vm_compute. reflexivity. Qed.
End RoutingExample.

Lemma dispatch_exact_witness :
  healthy RoutingExample.w0 ∧
  wp (dispatchNotifications true RoutingExample.alert RoutingExample.alert) (λ _ w', healthy w' ∧
    ∃ new, jobs (w_st w') = jobs (w_st RoutingExample.w0) ++ new ∧ NoDup (job_channel_ids new) ∧
      ∀ c, c ∈ job_channel_ids new ↔ wants (w_st RoutingExample.w0) RoutingExample.alert c)
    RoutingExample.w0.
Proof.
  assert (healthy RoutingExample.w0) as H.
  { apply calm_healthy. intros n. apply not_elem_of_nil. }
  split; [exact H|]. exact (dispatch_exact _ _ _ H).
Defined.
