(* ===== verification/AlertEngine.v ===== *)
(** * The alert engine

    [src/internal/alert/engine.go]: the events of the monitoring services become
    alert rows, the in-memory map [activeAlerts] deduplicates them and links
    recoveries, and broadcasts, escalation hooks and notifications follow.  Each
    handler is one computation of the state monad; the escalator and the
    maintenance suppressor are the interfaces the engine calls through. *)

From S2P Require Import Prelude.
From S2P Require Import Tables.
From S2P Require Import GoStrings.
From S2P Require Import AlertModel.
From S2P Require Import AlertStore.
From S2P Require Import AlertRouting.

#[local] Open Scope string_scope.
#[local] Open Scope list_scope.
#[local] Open Scope Z_scope.

(** ** The extension points *)

Class Escalator := {
  EvaluateCycle : M alerting (result unit);
  OnAlertCreated : Alert → M alerting (result unit);
  OnAlertAcknowledged : string → Acknowledgment → M alerting (result unit);
  OnAlertResolved : string → Z → M alerting (result unit);
}.

Class MaintenanceSuppressor := {
  IsSuppressed : string → string → string → M alerting (result bool);
}.

(** [noopEscalator] and [noopSuppressor], the defaults. *)
Definition noopEscalator : Escalator := {|
  EvaluateCycle := ret (Ok tt);
  OnAlertCreated _ := ret (Ok tt);
  OnAlertAcknowledged _ _ := ret (Ok tt);
  OnAlertResolved _ _ := ret (Ok tt);
|}.

Definition noopSuppressor : MaintenanceSuppressor := {|
  IsSuppressed _ _ _ := ret (Ok false);
|}.

Definition alert_key (a : Alert) : activeAlertKey :=
  MkKey (al_Source a) (al_AlertType a) (al_EntityType a) (al_EntityID a).

Definition event_key (evt : Event) : activeAlertKey :=
  MkKey (ev_Source evt) (ev_AlertType evt) (ev_EntityType evt) (ev_EntityID evt).

Definition ErrAlertNotFound := ESentinel "alert not found".
Definition ErrNotAcknowledgeable :=
  ESentinel "alert is not active or already acknowledged".

(** The alert of a firing event, before it is stored. *)
Definition event_alert (evt : Event) : Alert :=
  MkAlert "" (ev_Source evt) (ev_AlertType evt) (ev_Severity evt) StatusActive
    (ev_Message evt) (ev_EntityType evt) (ev_EntityID evt) (ev_EntityName evt)
    (uid_Agent (ev_AgentID evt)) (details_json (ev_Details evt)) None
    (ev_Timestamp evt) None None "" None zero_time.

(** ** The handlers *)

Section Engine.
Context {Esc : Escalator} {Sup : MaintenanceSuppressor}.
(** Whether a notifier and a broadcaster are wired. *)
Context (notifier broadcaster : bool).

Definition broadcast (eventType : string) (a : Alert) : M alerting unit :=
  if broadcaster then modify (λ s, s <| sse ::= λ l, l ++ [(eventType, a)] |>) else ret tt.

Definition broadcastAlert (a : Alert) (silenced : bool) : M alerting unit :=
  broadcast (if silenced then AlertSilenced else AlertFired) a.

Definition broadcastResolved (a : Alert) : M alerting unit := broadcast AlertResolved a.

Definition checkSilenceRules (evt : Event) : M alerting bool :=
  let! r := GetActiveSilenceRules in
  match r with
  | Err _ => ret false
  | Ok rules =>
    if existsb (λ rule, matchesSilenceRule rule evt) rules then ret true
    else
      let! r := IsSuppressed (ev_Source evt) (ev_EntityType evt) (ev_EntityID evt) in
      match r with
      | Err _ => ret false
      | Ok suppressed => ret suppressed
      end
  end.

(** [existing] is the object the map holds under [key]: its fields change in
    place, before the store is asked. *)
Definition escalateAlert (key : activeAlertKey) (existing : Alert) (evt : Event)
    : M alerting unit :=
  let oldSeverity := al_Severity existing in
  let detailsJSON := details_json (ev_Details evt) in
  let existing := existing <| al_Severity := ev_Severity evt |>
    <| al_Message := ev_Message evt |> <| al_EntityName := ev_EntityName evt |>
    <| al_Details := detailsJSON |> in
  do! modify (λ s, s <| activeAlerts ::= <[key := existing]> |>) in
  let! r := UpdateAlertOnEscalation (al_ID existing) (ev_Severity evt) (ev_Message evt)
    (ev_EntityName evt) detailsJSON in
  match r with
  | Err _ => ret tt
  | Ok _ =>
    let! stored := GetAlert (al_ID existing) in
    let existing := match stored with
      | Ok (Some row) => existing <| al_AcknowledgedAt := al_AcknowledgedAt row |>
                           <| al_AcknowledgedBy := al_AcknowledgedBy row |>
      | _ => existing
      end in
    do! modify (λ s, s <| activeAlerts ::= <[key := existing]> |>) in
    do! modify (λ s, s <| activeAlerts ::= <[alert_key existing := existing]> |>) in
    do! broadcastAlert existing false in
    when! bool_decide (al_AcknowledgedAt existing = None) then
      (do! OnAlertCreated existing in ret tt) in
    if notifier then
      let payload := existing <| al_Message :=
        "Severity raised from " +:+ oldSeverity +:+ " to " +:+ al_Severity existing
        +:+ ": " +:+ al_Message existing |> in
      dispatchNotifications notifier existing payload
    else ret tt
  end.

Definition processRecovery (evt : Event) : M alerting unit :=
  let key := event_key evt in
  let! found := gets (λ s, activeAlerts s !! key) in
  match found with
  | None => ret tt
  | Some activeAlert =>
    do! modify (λ s, s <| activeAlerts ::= delete key |>) in
    let recoveryAlert := event_alert evt <| al_Status := StatusResolved |>
      <| al_AgentID := al_AgentID activeAlert |> in
    let! r := InsertAlert recoveryAlert in
    match r with
    | Err _ => ret tt
    | Ok recoveryAlert =>
      let recoveryID := al_ID recoveryAlert in
      let now := ev_Timestamp evt in
      do! UpdateAlertStatus (al_ID activeAlert) StatusResolved (Some now) (Some recoveryID) in
      do! OnAlertResolved (al_ID activeAlert) now in
      let activeAlert := activeAlert <| al_Status := StatusResolved |>
        <| al_ResolvedAt := Some now |> <| al_ResolvedByID := Some recoveryID |> in
      do! broadcastResolved activeAlert in
      if notifier then
        let payload := activeAlert <| al_Message := ev_Message evt |>
          <| al_Severity := ev_Severity evt |> in
        dispatchNotifications notifier activeAlert payload
      else ret tt
    end
  end.

Definition processEvent (evt : Event) : M alerting unit :=
  if ev_IsRecover evt then processRecovery evt
  else
    let key := event_key evt in
    let! existing := gets (λ s, activeAlerts s !! key) in
    match existing with
    | Some existing =>
      if bool_decide (severityRank (al_Severity existing) < severityRank (ev_Severity evt))
      then escalateAlert key existing evt
      else ret tt
    | None =>
      let a := event_alert evt in
      let! silenced := checkSilenceRules evt in
      let a := if silenced then a <| al_Status := StatusSilenced |> else a in
      let! r := InsertAlert a in
      match r with
      | Err _ => ret tt
      | Ok a =>
        when! negb silenced then modify (λ s, s <| activeAlerts ::= <[key := a]> |>) in
        do! broadcastAlert a silenced in
        when! negb silenced then (do! OnAlertCreated a in ret tt) in
        if negb silenced && notifier then dispatchNotifications notifier a a else ret tt
      end
    end.

Definition Acknowledge (id by_ : string) : M alerting (result Alert) :=
  let? found := GetAlert id in
  match found with
  | None => ret (Err ErrAlertNotFound)
  | Some a =>
    if negb (bool_decide (al_Status a = StatusActive))
       || negb (bool_decide (al_AcknowledgedAt a = None))
    then ret (Err ErrNotAcknowledgeable)
    else
      let! t := now in
      let at_ := db_time t in
      let? acknowledged := AcknowledgeAlert id by_ at_ in
      if negb acknowledged then ret (Err ErrNotAcknowledgeable)
      else
        let a := a <| al_AcknowledgedAt := Some at_ |> <| al_AcknowledgedBy := by_ |> in
        do! broadcast AlertAcknowledged a in
        do! OnAlertAcknowledged id (MkAck by_ at_) in
        ret (Ok a)
  end.

Definition of_entity (entityType entityID : string) (k : activeAlertKey) : bool :=
  bool_decide (k_EntityType k = entityType) && bool_decide (k_EntityID k = entityID).

(** The loop over the map deletes as it collects; its order is the map's. *)
Definition ResolveByEntity (entityType entityID : string) : M alerting unit :=
  let! t := now in
  let! toResolve := gets (λ s, (map_to_list
    (filter (λ p, of_entity entityType entityID p.1 = true) (activeAlerts s))).*2) in
  do! modify (λ s, s <| activeAlerts ::=
    filter (λ p, of_entity entityType entityID p.1 = false) |>) in
  for_each toResolve (λ a,
    let! r := UpdateAlertStatus (al_ID a) StatusResolved (Some t) None in
    match r with
    | Err _ => ret tt
    | Ok _ =>
      do! OnAlertResolved (al_ID a) t in
      broadcastResolved (a <| al_Status := StatusResolved |> <| al_ResolvedAt := Some t |>)
    end).

Definition reloadActiveAlerts : M alerting (result unit) :=
  let? active := ListActiveAlerts in
  do! for_each active (λ a,
    modify (λ s, s <| activeAlerts ::= <[alert_key a := a]> |>)) in
  ret (Ok tt).

(** [NewEngine] followed by [Start]: an empty map, then the rows of the store. *)
Definition Start : M alerting unit :=
  do! modify (λ s, s <| activeAlerts := ∅ |>) in
  do! reloadActiveAlerts in
  ret tt.

Definition AlertCount (s : alerting) : nat := size (activeAlerts s).
End Engine.

(** ** What the engine relies on *)

(** What an escalation hook may change: the runs, their deliveries and the
    pending sends. *)
Definition hook_view (s : alerting) : alerting :=
  s <| db_runs := [] |> <| db_esc_deliveries := [] |> <| sends := [] |>.

Definition esc_only (s s' : alerting) : Prop := hook_view s' = hook_view s.

(** A cycle also stamps the alerts it escalates. *)
Definition cycle_view (s : alerting) : alerting :=
  hook_view s <| db_alerts := (λ a, a <| al_EscalatedAt := None |>) <$> db_alerts s |>.

Definition cycle_only (s s' : alerting) : Prop := cycle_view s' = cycle_view s.

#[export] Instance esc_only_preorder : PreOrder esc_only.
Proof. split; unfold esc_only; [done|congruence]. Qed.
#[export] Instance cycle_only_preorder : PreOrder cycle_only.
Proof. split; unfold cycle_only; [done|congruence]. Qed.

(** A computation confined to [R] that leaves a healthy world healthy. *)
Definition confined {A} (R : alerting → alerting → Prop) (m : M alerting A) : Prop :=
  ∀ w, R (w_st w) (w_st (m w).2) ∧ w_env (m w).2 = w_env w ∧ (healthy w → healthy (m w).2).

Class EscalatorLaws (Esc : Escalator) := {
  OnAlertCreated_confined a : confined esc_only (OnAlertCreated a);
  OnAlertAcknowledged_confined id ack : confined esc_only (OnAlertAcknowledged id ack);
  OnAlertResolved_confined id t : confined esc_only (OnAlertResolved id t);
  EvaluateCycle_confined : confined cycle_only EvaluateCycle;
}.

Class SuppressorLaws (Sup : MaintenanceSuppressor) := {
  IsSuppressed_reads source entityType entityID w :
    same w (IsSuppressed source entityType entityID w).2;
}.

#[export] Instance noopEscalator_laws : EscalatorLaws noopEscalator.
Proof. split; intros; intros w; cbn; split_and!; done. Qed.

#[export] Instance noopSuppressor_laws : SuppressorLaws noopSuppressor.
Proof. split. intros. apply same_refl. Qed.

Lemma confined_mono {A} (R R' : alerting → alerting → Prop) (m : M alerting A) :
  (∀ s s', R s s' → R' s s') → confined R m → confined R' m.
Proof. intros HR Hm w. destruct (Hm w) as (?&?&?). auto. Qed.

Lemma confined_ret {A} R `{!PreOrder R} (a : A) : confined R (ret a).
Proof. intros w. cbn. split_and!; [reflexivity|done..]. Qed.

Lemma confined_bind {A B} R `{!PreOrder R} (m : M alerting A) (k : A → M alerting B) :
  confined R m → (∀ a, confined R (k a)) → confined R (bind m k).
Proof.
  intros Hm Hk w. unfold bind. destruct (Hm w) as (H1&H2&H3).
  destruct (Hk (m w).1 (m w).2) as (H4&H5&H6).
  split_and!; [by etransitivity|by rewrite H5|auto].
Qed.

Lemma wp_confined {A} R (m : M alerting A) (Q : A → world alerting → Prop) w :
  confined R m →
  (∀ a w', R (w_st w) (w_st w') → w_env w' = w_env w → (healthy w → healthy w') → Q a w') →
  wp m Q w.
Proof. intros Hm HQ. destruct (Hm w) as (?&?&?). by apply HQ. Qed.

(** What the engine's invariant looks at. *)
Definition engine_view (s : alerting) : list Alert * gmap activeAlertKey Alert :=
  (db_alerts s, activeAlerts s).

Definition quiet (s s' : alerting) : Prop := engine_view s' = engine_view s.

#[export] Instance quiet_preorder : PreOrder quiet.
Proof. split; unfold quiet; [done|congruence]. Qed.

Lemma esc_only_quiet s s' : esc_only s s' → quiet s s'.
Proof.
  intros H. unfold quiet, engine_view.
  pose proof (f_equal db_alerts H). pose proof (f_equal activeAlerts H). cbn in *. congruence.
Qed.

Lemma same_but_jobs_quiet s s' : same_but_jobs s s' → quiet s s'.
Proof.
  intros H. unfold quiet, engine_view.
  pose proof (f_equal db_alerts H). pose proof (f_equal activeAlerts H). cbn in *. congruence.
Qed.

Lemma dispatch_confined notifier routeBy payload :
  confined same_but_jobs (dispatchNotifications notifier routeBy payload).
Proof.
  intros w. destruct (wp_dispatchNotifications notifier routeBy payload w)
    as (He & ids & [Hf _ _] & _ & Hh).
  split_and!; [done..|]. by intros []%Hh.
Qed.

Lemma dispatch_quiet notifier routeBy payload :
  confined quiet (dispatchNotifications notifier routeBy payload).
Proof. eapply confined_mono, dispatch_confined. apply same_but_jobs_quiet. Qed.

Lemma broadcast_confined broadcaster eventType a R `{!PreOrder R} :
  (∀ s l, R s (s <| sse := l |>)) → confined R (broadcast broadcaster eventType a).
Proof.
  intros HR w. unfold broadcast. destruct broadcaster; [|by apply (confined_ret R tt)].
  cbn. split_and!; [apply HR|done|]. intros Hw.
  apply (healthy_put w (w_st w <| sse ::= λ l, l ++ [(eventType, a)] |>)); [|done..].
  unfold put. cbn. split_and!; [done..|lia].
Qed.

Lemma broadcast_quiet broadcaster eventType a :
  confined quiet (broadcast broadcaster eventType a).
Proof. by apply broadcast_confined; [apply _|]. Qed.

Section hooks_quiet.
Context {Esc : Escalator} `{!EscalatorLaws Esc}.

Lemma created_quiet a : confined quiet (OnAlertCreated a).
Proof. eapply confined_mono, OnAlertCreated_confined. apply esc_only_quiet. Qed.
Lemma acknowledged_quiet id ack : confined quiet (OnAlertAcknowledged id ack).
Proof. eapply confined_mono, OnAlertAcknowledged_confined. apply esc_only_quiet. Qed.
Lemma resolved_quiet id t : confined quiet (OnAlertResolved id t).
Proof. eapply confined_mono, OnAlertResolved_confined. apply esc_only_quiet. Qed.
End hooks_quiet.

Create HintDb confined discriminated.
#[export] Hint Resolve dispatch_quiet broadcast_quiet created_quiet acknowledged_quiet
  resolved_quiet : confined.
