(* ===== verification/AlertInvariant.v ===== *)
(** * The alert engine: invariants

    Two invariants of the pair (stored rows, in-memory map).  [engine_inv] holds
    whatever calls fail: every entry of the map is an active alert, filed under
    its own key and backed by an active row.  [synced] holds as long as none
    does: moreover the entry and the row agree, and every active row is in the
    map.  This file has their preservation by each elementary change; the
    handlers are put together in [AlertCorrect]. *)

From S2P Require Import Prelude.
From S2P Require Import Tables.
From S2P Require Import GoStrings.
From S2P Require Import AlertModel.
From S2P Require Import AlertStore.
From S2P Require Import AlertRouting.
From S2P Require Import AlertEngine.

#[local] Open Scope string_scope.
#[local] Open Scope list_scope.
#[local] Open Scope Z_scope.

Abbreviation live_map := (gmap activeAlertKey Alert).

(** What the store and the map agree on: acknowledgement and times apart. *)
Definition core (a : Alert) :=
  (al_ID a, alert_key a, (al_Severity a, al_Status a),
   (al_Message a, al_EntityName a, al_AgentID a, al_Details a)).

Definition backed (rows : list Alert) (k : activeAlertKey) (a : Alert) : Prop :=
  ∃ row, select_id (al_ID a) rows = Some row ∧ al_Status row = StatusActive ∧ alert_key row = k.

Record engine_inv (v : list Alert * live_map) : Prop := {
  ei_ids : NoDup (table_ids v.1);
  ei_live : ∀ k a, v.2 !! k = Some a →
    alert_key a = k ∧ al_Status a = StatusActive ∧ backed v.1 k a;
}.

Record synced (v : list Alert * live_map) : Prop := {
  sy_ids : NoDup (table_ids v.1);
  sy_live : ∀ k a, v.2 !! k = Some a →
    alert_key a = k ∧ al_Status a = StatusActive ∧
    ∃ row, select_id (al_ID a) v.1 = Some row ∧ core row = core a;
  sy_rows : ∀ row, row ∈ v.1 → al_Status row = StatusActive →
    ∃ a, v.2 !! alert_key row = Some a ∧ al_ID a = al_ID row;
}.

Lemma core_status a b : core a = core b → al_Status a = al_Status b.
Proof. by intros [=]. Qed.
Lemma core_key a b : core a = core b → alert_key a = alert_key b.
Proof. unfold core. intros H. by apply (f_equal (λ p, p.1.1.2)) in H. Qed.
Lemma core_id a b : core a = core b → al_ID a = al_ID b.
Proof. by intros [=]. Qed.

Lemma synced_inv v : synced v → engine_inv v.
Proof.
  intros [Hids Hl _]. split; [done|]. intros k a Ha.
  destruct (Hl k a Ha) as (Hk & Hs & row & Hr & Hc). split_and!; [done..|].
  exists row. rewrite <- Hs, <- Hk. eauto using core_status, core_key.
Qed.

(** An active row is the row of at most one key. *)
Lemma engine_inv_key v k1 k2 a1 a2 :
  engine_inv v → v.2 !! k1 = Some a1 → v.2 !! k2 = Some a2 → al_ID a1 = al_ID a2 → k1 = k2.
Proof.
  intros [_ Hl] (_ & _ & r1 & H1 & _ & <-)%Hl (_ & _ & r2 & H2 & _ & <-)%Hl Hid. congruence.
Qed.

(** ** Changes of the map alone *)

Lemma engine_inv_forget v m :
  m ⊆ v.2 → engine_inv v → engine_inv (v.1, m).
Proof.
  intros Hm [Hids Hl]. split; [done|]. cbn. intros k a Ha. apply Hl. by eapply lookup_weaken.
Qed.

Lemma engine_inv_replace v k a a' :
  v.2 !! k = Some a → al_ID a' = al_ID a → alert_key a' = alert_key a →
  al_Status a' = al_Status a → engine_inv v → engine_inv (v.1, <[k := a']> v.2).
Proof.
  intros Ha Hid Hk Hs [Hids Hl]. split; [done|]. cbn. intros k2 a2.
  intros [[<- <-]|[? ?]]%lookup_insert_Some; [|by apply Hl].
  destruct (Hl k a Ha) as (? & ? & row & ?). rewrite Hk, Hs. split_and!; [done..|].
  exists row. by rewrite Hid.
Qed.

Lemma synced_replace v k a a' :
  v.2 !! k = Some a → core a' = core a → synced v → synced (v.1, <[k := a']> v.2).
Proof.
  intros Ha Hc [Hids Hl Hr]. split; [done|..]; cbn.
  - intros k2 a2 [[<- <-]|[? ?]]%lookup_insert_Some; [|by apply Hl].
    destruct (Hl k a Ha) as (? & ? & row & ? & ?).
    rewrite (core_key _ _ Hc), (core_status _ _ Hc), (core_id _ _ Hc), Hc. eauto.
  - intros row Hrow Hact. destruct (Hr row Hrow Hact) as (b & Hb & Hid).
    destruct (decide (alert_key row = k)) as [Heq|Hne].
    + exists a'. rewrite <- Heq, lookup_insert_eq. split; [done|].
      rewrite (core_id _ _ Hc), <- Hid. congruence.
    + exists b. by rewrite lookup_insert_ne.
Qed.

(** ** Changes of the rows *)

(** A change of the rows that keeps every active row, its key and its id. *)
Definition keeps_active (rows rows' : list Alert) : Prop :=
  ∀ id row, select_id id rows = Some row → al_Status row = StatusActive →
  ∃ row', select_id id rows' = Some row' ∧ al_Status row' = StatusActive
    ∧ alert_key row' = alert_key row.

Lemma engine_inv_rows rows rows' m :
  NoDup (table_ids rows') → keeps_active rows rows' →
  engine_inv (rows, m) → engine_inv (rows', m).
Proof.
  intros Hids Hk [_ Hl]. split; [done|]. cbn. intros k a Ha.
  destruct (Hl k a Ha) as (? & ? & row & Hrow & Hact & Hkey). split_and!; [done..|].
  destruct (Hk _ _ Hrow Hact) as (row' & ? & ? & ?). exists row'. split_and!; congruence.
Qed.

(** A row the store keeps is still there after an insert. *)
Lemma select_id_snoc_old id rows r row :
  al_ID r ∉ table_ids rows → select_id id rows = Some row →
  select_id id (rows ++ [r]) = Some row.
Proof.
  intros Hr Hrow. rewrite select_id_snoc_ne; [done|].
  apply select_id_Some in Hrow as [Hin <-]. intros Heq. apply Hr.
  change (row_id r ∈ table_ids rows). rewrite Heq. unfold table_ids. by apply list_elem_of_fmap_2.
Qed.

Lemma table_ids_snoc (rows : list Alert) r :
  al_ID r ∉ table_ids rows → NoDup (table_ids rows) → NoDup (table_ids (rows ++ [r])).
Proof. intros Hr. eapply insert_row_ids. by apply insert_row_Some. Qed.

Lemma engine_inv_insert rows m r :
  al_ID r ∉ table_ids rows → engine_inv (rows, m) → engine_inv (rows ++ [r], m).
Proof.
  intros Hr Hinv. apply (engine_inv_rows rows); [| |done].
  - apply table_ids_snoc; [done|apply (ei_ids _ Hinv)].
  - intros id row Hrow Hact. exists row. by split_and!; [apply select_id_snoc_old|..].
Qed.

Lemma engine_inv_track rows m k r a :
  select_id (al_ID a) rows = Some r → al_Status r = StatusActive → alert_key r = k →
  alert_key a = k → al_Status a = StatusActive →
  engine_inv (rows, m) → engine_inv (rows, <[k := a]> m).
Proof.
  intros Hr Hact Hkr Hka Hs [Hids Hl]. split; [done|]. cbn.
  intros k2 a2 [[<- <-]|[? ?]]%lookup_insert_Some; [|by apply Hl].
  split_and!; [done..|]. by exists r.
Qed.

Lemma synced_insert_inactive rows m r :
  al_ID r ∉ table_ids rows → al_Status r ≠ StatusActive →
  synced (rows, m) → synced (rows ++ [r], m).
Proof.
  intros Hr Hs [Hids Hl Hrows]. split; cbn in *.
  - by apply table_ids_snoc.
  - intros k a Ha. destruct (Hl k a Ha) as (? & ? & row & Hrow & ?). split_and!; [done..|].
    exists row. split; [by apply select_id_snoc_old|done].
  - intros row [Hrow| ->%list_elem_of_singleton]%elem_of_app Hact; [by apply Hrows|done].
Qed.

Lemma synced_insert_active rows m r a :
  al_ID r ∉ table_ids rows → m !! alert_key r = None → core r = core a →
  al_Status a = StatusActive →
  synced (rows, m) → synced (rows ++ [r], <[alert_key r := a]> m).
Proof.
  intros Hr Hm Hc Hs [Hids Hl Hrows]. split; cbn in *.
  - by apply table_ids_snoc.
  - intros k2 a2 [[<- <-]|[Hne Ha]]%lookup_insert_Some.
    + split_and!; [by rewrite (core_key _ _ Hc)|done|]. exists r.
      rewrite <- (core_id _ _ Hc). split; [by apply select_id_snoc_eq|done].
    + destruct (Hl k2 a2 Ha) as (? & ? & row & Hrow & ?). split_and!; [done..|].
      exists row. split; [by apply select_id_snoc_old|done].
  - intros row [Hrow| ->%list_elem_of_singleton]%elem_of_app Hact.
    + destruct (Hrows row Hrow Hact) as (b & Hb & ?). exists b. split; [|done].
      rewrite lookup_insert_ne; [done|]. intros Heq. by rewrite Heq, Hb in Hm.
    + exists a. rewrite lookup_insert_eq. split; [done|]. by rewrite (core_id _ _ Hc).
Qed.

(** A change of one row that leaves its id, its key and its status alone. *)
Lemma keeps_active_update id f rows :
  (∀ r, row_id (f r) = row_id r) → (∀ r, alert_key (f r) = alert_key r) →
  (∀ r, al_Status (f r) = al_Status r) → keeps_active rows (update_id id f rows).
Proof.
  intros Hid Hk Hs id' row Hrow Hact. destruct (decide (id' = id)) as [->|Hne].
  - exists (f row). rewrite select_id_update_eq, Hrow, Hs, Hk by done. done.
  - exists row. by rewrite select_id_update_ne.
Qed.

(** Rows that differ from the old ones only outside [core]. *)
Lemma synced_core_rows rows p f m :
  (∀ r, core (f r) = core r) → synced (rows, m) → synced (update_where p f rows, m).
Proof.
  intros Hc [Hids Hl Hrows].
  assert (∀ r, row_id (f r) = row_id r) as Hfid by (intros r; apply core_id, Hc).
  assert (∀ r, core (if p r then f r else r) = core r) as Hpc by (intros r; by destruct (p r)).
  split; cbn in *.
  - by rewrite update_where_ids.
  - intros k a Ha. destruct (Hl k a Ha) as (? & ? & row & Hrow & ?). split_and!; [done..|].
    exists (if p row then f row else row). rewrite select_id_update_where, Hrow, Hpc by done. done.
  - intros row (r & Hr & ->)%update_where_elem Hact.
    rewrite (core_status _ _ (Hpc r)) in Hact. destruct (Hrows r Hr Hact) as (a & Ha & ?).
    exists a. by rewrite (core_key _ _ (Hpc r)), (core_id _ _ (Hpc r)).
Qed.

(** The row and the entry of one key change together. *)
Lemma synced_update rows m k a a' f :
  m !! k = Some a → al_ID a' = al_ID a → alert_key a' = alert_key a →
  al_Status a' = al_Status a → (∀ r, row_id (f r) = row_id r) →
  (∀ r, alert_key (f r) = alert_key r) → (∀ r, al_Status (f r) = al_Status r) →
  (∀ r, core r = core a → core (f r) = core a') →
  synced (rows, m) → synced (update_id (al_ID a) f rows, <[k := a']> m).
Proof.
  intros Ha Hid Hk Hs Hfid Hfk Hfs Hfc Hsy. pose proof Hsy as [Hids Hl Hrows]. split; cbn in *.
  - by rewrite update_id_ids.
  - intros k2 a2 [[<- <-]|[Hne Ha2]]%lookup_insert_Some.
    + destruct (Hl k a Ha) as (? & ? & row & Hrow & Hc). rewrite Hk, Hs, Hid. split_and!; [done..|].
      exists (f row). rewrite select_id_update_eq, Hrow by done. split; [done|]. by apply Hfc.
    + destruct (Hl k2 a2 Ha2) as (? & ? & row & Hrow & Hc). split_and!; [done..|].
      exists row. rewrite select_id_update_ne; [done..|]. intros Heq.
      by apply Hne, (engine_inv_key _ k k2 a a2 (synced_inv _ Hsy)).
  - intros row (r & Hr & ->)%update_where_elem Hact.
    assert (al_Status r = StatusActive) as Hact'
      by (destruct (bool_decide (row_id r = al_ID a)); [by rewrite Hfs in Hact|done]).
    destruct (Hrows r Hr Hact') as (b & Hb & Hbid).
    assert (alert_key (if bool_decide (row_id r = al_ID a) then f r else r) = alert_key r) as ->
      by (destruct (bool_decide _); auto).
    assert (al_ID (if bool_decide (row_id r = al_ID a) then f r else r) = al_ID r) as ->
      by (destruct (bool_decide _); [apply Hfid|done]).
    destruct (decide (alert_key r = k)) as [Heq|Hne].
    + exists a'. rewrite Heq, lookup_insert_eq. split; [done|]. rewrite Hid. congruence.
    + exists b. by rewrite lookup_insert_ne.
Qed.

(** ** Resolving, forgetting and reloading *)

Lemma engine_inv_resolve rows m id f :
  (∀ r, row_id (f r) = row_id r) → (∀ k b, m !! k = Some b → al_ID b ≠ id) →
  engine_inv (rows, m) → engine_inv (update_id id f rows, m).
Proof.
  intros Hf Hm [Hids Hl]. split; cbn in *; [by rewrite update_id_ids|].
  intros k a Ha. destruct (Hl k a Ha) as (? & ? & row & Hrow & ? & ?). split_and!; [done..|].
  exists row. rewrite select_id_update_ne; [done..|]. by eapply Hm.
Qed.

Lemma engine_inv_delete_ids rows m k a :
  engine_inv (rows, m) → m !! k = Some a →
  ∀ k' b, delete k m !! k' = Some b → al_ID b ≠ al_ID a.
Proof.
  intros Hinv Ha k' b [Hne Hb]%lookup_delete_Some Heq.
  apply Hne. by eapply (engine_inv_key (rows, m) k k' a b).
Qed.

Lemma synced_resolve rows m k a f :
  m !! k = Some a → (∀ r, row_id (f r) = row_id r) → (∀ r, alert_key (f r) = alert_key r) →
  (∀ r, al_Status (f r) ≠ StatusActive) →
  synced (rows, m) → synced (update_id (al_ID a) f rows, delete k m).
Proof.
  intros Ha Hfid Hfk Hfs Hsy. pose proof Hsy as [Hids Hl Hrows]. split; cbn in *.
  - by rewrite update_id_ids.
  - intros k2 a2 Ha2. pose proof Ha2 as [Hne Hm2]%lookup_delete_Some.
    destruct (Hl k2 a2 Hm2) as (? & ? & row & Hrow & ?). split_and!; [done..|].
    exists row. rewrite select_id_update_ne; [done..|].
    eapply engine_inv_delete_ids; [by apply synced_inv|done..].
  - intros row (r & Hr & ->)%update_where_elem.
    destruct (bool_decide_reflect (row_id r = al_ID a)) as [Heq|Hne]; [by intros ?%Hfs|].
    intros Hact. destruct (Hrows r Hr Hact) as (b & Hb & Hbid). exists b. split; [|done].
    rewrite lookup_delete_ne; [done|]. intros Hkk. apply Hne. change (al_ID r = al_ID a). congruence.
Qed.

(** The keys of the alerts a loop has still to resolve. *)
Definition pending (l : list Alert) : live_map :=
  list_to_map ((λ a, (alert_key a, a)) <$> l).

Lemma pending_lookup l k : k ∉ alert_key <$> l → pending l !! k = None.
Proof.
  intros Hk. apply not_elem_of_list_to_map_1. rewrite <- list_fmap_compose.
  intros (a & -> & Ha)%list_elem_of_fmap. apply Hk. by apply list_elem_of_fmap_2.
Qed.

Lemma pending_cons_delete m a l :
  m !! alert_key a = None → alert_key a ∉ alert_key <$> l →
  delete (alert_key a) (m ∪ pending (a :: l)) = m ∪ pending l.
Proof.
  intros Hm Hl. rewrite delete_union, (delete_id m) by done. f_equal.
  unfold pending. cbn. rewrite delete_insert_id; [done|]. by apply (pending_lookup l).
Qed.

Lemma pending_cons_lookup m a l :
  m !! alert_key a = None → (m ∪ pending (a :: l)) !! alert_key a = Some a.
Proof.
  intros Hm. rewrite lookup_union_r by done. unfold pending. cbn. by rewrite lookup_insert_eq.
Qed.

(** Reloading: the entries are the active rows. *)
Definition reload_map (m : live_map) (l : list Alert) : live_map :=
  foldl (λ m a, <[alert_key a := a]> m) m l.

Lemma reload_map_elem m l k a :
  reload_map m l !! k = Some a → (a ∈ l ∧ alert_key a = k) ∨ m !! k = Some a.
Proof.
  revert m. induction l as [|b l IH]; cbn; intros m; [by right|].
  intros [[Hin <-]|Hm]%IH; [left; split; [by right|done]|].
  apply lookup_insert_Some in Hm as [[<- <-]|[_ Hm]]; [|by right].
  left. split; [left|done].
Qed.

Lemma reload_map_lookup m l a :
  a ∈ l → (∀ b, b ∈ l → alert_key b = alert_key a → b = a) →
  reload_map m l !! alert_key a = Some a.
Proof.
  induction l as [|b l IH] using rev_ind; intros Ha Huniq; [by apply elem_of_nil in Ha|].
  unfold reload_map. rewrite foldl_app. cbn.
  destruct (decide (alert_key b = alert_key a)) as [Heq|Hne].
  - rewrite Heq, lookup_insert_eq. f_equal. apply Huniq; [set_solver|done].
  - rewrite lookup_insert_ne by done. apply IH; [|intros x Hx; apply Huniq; apply elem_of_app; by left].
    apply elem_of_app in Ha as [Ha| ->%list_elem_of_singleton]; done.
Qed.

Lemma engine_inv_reload rows l :
  NoDup (table_ids rows) → (∀ a, a ∈ l → a ∈ rows ∧ al_Status a = StatusActive) →
  engine_inv (rows, reload_map ∅ l).
Proof.
  intros Hids Hl. split; [done|]. cbn.
  intros k a [[Ha <-]|Ha]%reload_map_elem; [|by rewrite lookup_empty in Ha].
  destruct (Hl a Ha) as [Hin Hact]. split_and!; [done..|]. exists a. split_and!; [|done..].
  by apply select_id_elem.
Qed.

(** In a synced state there is one active row per key. *)
Lemma synced_row_unique v a b :
  synced v → a ∈ v.1 → b ∈ v.1 → al_Status a = StatusActive → al_Status b = StatusActive →
  alert_key a = alert_key b → a = b.
Proof.
  intros [Hids _ Hrows] Ha Hb Hsa Hsb Hk.
  destruct (Hrows a Ha Hsa) as (x & Hx & Hxid). destruct (Hrows b Hb Hsb) as (y & Hy & Hyid).
  assert (al_ID a = al_ID b) as Hid by congruence.
  pose proof (select_id_elem _ _ Hids Ha) as H1. pose proof (select_id_elem _ _ Hids Hb) as H2.
  change (row_id a) with (al_ID a) in H1. change (row_id b) with (al_ID b) in H2. congruence.
Qed.

Lemma synced_reload rows m l :
  synced (rows, m) → (∀ a, a ∈ l ↔ a ∈ rows ∧ al_Status a = StatusActive) →
  synced (rows, reload_map ∅ l) ∧ core <$> reload_map ∅ l = core <$> m.
Proof.
  intros Hsy Hl. pose proof Hsy as [Hids Hlive Hrows]. cbn in *.
  assert (∀ a, a ∈ rows → al_Status a = StatusActive → reload_map ∅ l !! alert_key a = Some a)
    as Hlook.
  { intros a Ha Hact. apply reload_map_lookup; [by apply Hl|].
    intros b [Hb Hbact]%Hl Hk. by apply (synced_row_unique (rows, m)). }
  assert (∀ k a, reload_map ∅ l !! k = Some a → a ∈ rows ∧ al_Status a = StatusActive ∧ alert_key a = k)
    as Helem.
  { intros k a [[[? ?]%Hl ?]|Ha]%reload_map_elem; [done|by rewrite lookup_empty in Ha]. }
  split.
  - split; cbn; [done| |intros row Hrow Hact; exists row; by rewrite Hlook].
    intros k a (Ha & Hact & Hk)%Helem. split_and!; [done..|]. exists a.
    by split; [apply select_id_elem|].
  - apply map_eq. intros k. rewrite !lookup_fmap. destruct (m !! k) as [a|] eqn:Ha.
    + destruct (Hlive k a Ha) as (Hk & Hact & row & [Hrow Hid]%select_id_Some & Hc).
      rewrite <- Hk, <- (core_key _ _ Hc), Hlook; [cbn; by rewrite Hc|done|].
      by rewrite (core_status _ _ Hc).
    + destruct (reload_map ∅ l !! k) as [a|] eqn:Hr; [|done]. exfalso.
      apply Helem in Hr as (Hin & Hact & <-). destruct (Hrows a Hin Hact) as (b & Hb & _). congruence.
Qed.

(** Retention deletes no active row. *)
Lemma select_id_delete_keep id p (rows : list Alert) row :
  NoDup (table_ids rows) → select_id id rows = Some row → p row = false →
  select_id id (delete_where p rows) = Some row.
Proof.
  intros Hids [Hrow <-]%select_id_Some Hp.
  apply select_id_elem; [by apply delete_where_ids|by apply delete_where_elem].
Qed.

Lemma expired_inactive before a : al_Status a = StatusActive → expired_alert before a = false.
Proof. intros Ha. unfold expired_alert. by rewrite bool_decide_true. Qed.

Lemma engine_inv_retention rows m before :
  engine_inv (rows, m) → engine_inv (delete_where (expired_alert before) rows, m).
Proof.
  intros Hinv. pose proof (ei_ids _ Hinv) as Hids. cbn in Hids.
  apply (engine_inv_rows rows); [by apply delete_where_ids| |done].
  intros id row Hrow Hact. exists row. split_and!; [|done..].
  apply select_id_delete_keep; [done..|]. by apply expired_inactive.
Qed.

Lemma synced_retention rows m before :
  synced (rows, m) → synced (delete_where (expired_alert before) rows, m).
Proof.
  intros [Hids Hl Hrows]. split; cbn in *.
  - by apply delete_where_ids.
  - intros k a Ha. destruct (Hl k a Ha) as (? & Hs & row & Hrow & Hc). split_and!; [done..|].
    exists row. split; [|done]. apply select_id_delete_keep; [done..|].
    apply expired_inactive. by rewrite (core_status _ _ Hc).
  - intros row [Hrow _]%delete_where_elem Hact. by apply Hrows.
Qed.
