(* ===== verification/AlertCorrect.v ===== *)
(** * The alert engine: correctness of the handlers

    Every handler preserves the two invariants of [AlertInvariant]; the engine
    refines a map from dedup keys to severities; a restart rebuilds that map;
    deduplication, silencing and acknowledgement do what they promise. *)

From S2P Require Import Prelude.
From S2P Require Import Tables.
From S2P Require Import GoStrings.
From S2P Require Import AlertModel.
From S2P Require Import AlertStore.
From S2P Require Import AlertRouting.
From S2P Require Import AlertEngine.
From S2P Require Import AlertInvariant.

#[local] Open Scope string_scope.
#[local] Open Scope list_scope.
#[local] Open Scope Z_scope.

(** ** Rules of the store's statements *)

(** [sound w0 w]: from [w0] to [w] the invariants were kept. *)
Record sound (w0 w : world alerting) : Prop := {
  so_env : w_env w = w_env w0;
  so_inv : engine_inv (engine_view (w_st w));
  so_sync : healthy w0 → synced (engine_view (w_st w0)) →
    healthy w ∧ synced (engine_view (w_st w));
}.

Lemma sound_refl w : engine_inv (engine_view (w_st w)) → sound w w.
Proof. by split. Qed.

Lemma sound_trans w0 w1 w2 : sound w0 w1 → sound w1 w2 → sound w0 w2.
Proof.
  intros [He1 _ Hs1] [He2 Hi2 Hs2]. split; [congruence|done|].
  intros Hh Hsy. destruct (Hs1 Hh Hsy). auto.
Qed.

Lemma sound_quiet w0 w w' :
  sound w0 w → quiet (w_st w) (w_st w') → w_env w' = w_env w → (healthy w → healthy w') →
  sound w0 w'.
Proof.
  intros [He Hi Hs] Hq Henv Hh. unfold quiet in Hq.
  split; [congruence|by rewrite Hq|]. rewrite Hq. intros ??. destruct Hs; auto.
Qed.

Lemma sound_same w0 w w' : sound w0 w → same w w' → sound w0 w'.
Proof.
  intros Hs Hw. pose proof Hw as (Hst & He & _).
  apply (sound_quiet w0 w); [done|by rewrite Hst|done|by apply healthy_same].
Qed.

(** One statement that changes the rows or the map and draws no identifier. *)
Lemma sound_put w0 w s w' :
  sound w0 w → put w s w' → used_ids s = used_ids (w_st w) →
  engine_inv (engine_view s) →
  (healthy w → synced (engine_view (w_st w)) → synced (engine_view s)) →
  sound w0 w'.
Proof.
  intros [He Hi Hs] Hput Hids Hi' Hs'. pose proof Hput as (Hst & Henv & _).
  split; [congruence|by rewrite Hst|]. rewrite Hst. intros H0 H1.
  destruct (Hs H0 H1) as [Hh Hsy]. split; [|auto].
  eapply healthy_put; [exact Hput|done|]. by rewrite Hids.
Qed.

(** Storing an alert. *)
Lemma wp_InsertAlert a (Q : result Alert → world alerting → Prop) w :
  (∀ w', same w w' → ¬ healthy w → Q (Err EStore) w') →
  (∀ a' w', al_ID a' ∉ table_ids (db_alerts (w_st w)) →
     w_st w' = w_st w <| db_alerts := db_alerts (w_st w) ++ [alert_row a'] |> →
     w_env w' = w_env w → (healthy w → healthy w') →
     (∃ id t, a' = a <| al_ID := id |> <| al_AgentID ::= uid_Agent |> <| al_CreatedAt := t |>) →
     Q (Ok a') w') →
  wp (InsertAlert a) Q w.
Proof.
  intros He Ho. apply wp_bind, wp_new_uid. intros w1 H1 Ht1.
  apply wp_bind. pose proof H1 as (Hs1 & He1 & _).
  apply (wp_mono _ (λ _ w2, same w1 w2)).
  { destruct (is_zero _); [by apply wp_now|apply wp_ret, same_refl]. }
  intros t w2 H2. pose proof H2 as (Hs2 & He2 & _).
  apply wp_bind, wp_db_insert.
  - intros w3 H3 Hff. apply wp_ret, He; [by eapply same_trans, same_trans|].
    intros Hw. apply (proj2 (proj2 Hw) (w_tick w) (le_n _)).
    unfold used_ids. apply elem_of_app. left. rewrite Hs2, Hs1 in Hff.
    apply Hff. eapply fault_free_env, Hw. congruence.
  - intros w3 Hnew H3. rewrite Hs2, Hs1 in H3, Hnew. pose proof H3 as (Hs3 & He3 & Ht3).
    apply wp_ret, Ho; [done|done|congruence| |eauto].
    intros Hw. eapply (healthy_draw w w1 w3); [done..| |].
    + split_and!; [done|congruence|]. destruct H2 as (_ & _ & ?). lia.
    + rewrite Hs3. intros id. unfold used_ids, table_ids. cbn. rewrite fmap_app. set_solver.
Qed.

Lemma core_alert_row a : core (alert_row a) = core a.
Proof. done. Qed.

(** The end of a handler: broadcasts, hooks and notifications. *)
Lemma wp_quiet_tail {A} (m : M alerting A) (P : list Alert * live_map → Prop) w0 w :
  confined quiet m → sound w0 w → P (engine_view (w_st w)) →
  wp m (λ _ w', sound w0 w' ∧ P (engine_view (w_st w'))) w.
Proof.
  intros Hm Hs HP. eapply wp_confined; [exact Hm|]. intros _ w' Hq He Hh.
  split; [by eapply sound_quiet|]. unfold quiet in Hq. by rewrite Hq.
Qed.

Ltac confined_tac :=
  repeat first
    [ progress intros
    | solve [eauto with confined]
    | apply confined_ret; [apply _]
    | apply confined_bind; [apply _| |]
    | match goal with
      | |- confined _ (if ?b then _ else _) => destruct b
      | |- confined _ (match ?x with _ => _ end) => destruct x
      end ].

Lemma sound_intro w0 w w' :
  sound w0 w → w_env w' = w_env w → engine_inv (engine_view (w_st w')) →
  (healthy w → synced (engine_view (w_st w)) →
     healthy w' ∧ synced (engine_view (w_st w'))) →
  sound w0 w'.
Proof. intros [He Hi Hs] Henv Hi' Hs'. split; [congruence|done|]. intros ??. destruct Hs; auto. Qed.

(** An entry of the map is replaced by one with the same core. *)
Lemma wp_replace_entry a w0 w k b :
  sound w0 w → activeAlerts (w_st w) !! k = Some b → core a = core b →
  wp (modify (λ s, s <| activeAlerts ::= <[k := a]> |>)) (λ _ w', sound w0 w' ∧
    w_st w' = w_st w <| activeAlerts := <[k := a]> (activeAlerts (w_st w)) |>) w.
Proof.
  intros Hw Hb Hc. apply wp_modify_put. intros w' Hput. split; [|by destruct Hput as (-> & _)].
  eapply sound_put; [exact Hw|exact Hput|done|cbn|intros _; cbn].
  - apply (engine_inv_replace (engine_view (w_st w)) k b); [done|..|apply Hw].
    + by rewrite (core_id _ _ Hc).
    + by rewrite (core_key _ _ Hc).
    + by rewrite (core_status _ _ Hc).
  - by apply (synced_replace (engine_view (w_st w)) k b).
Qed.

(** The row and the entry of an escalated alert after the two updates. *)
Lemma sound_update w w' k a a' f :
  engine_inv (engine_view (w_st w)) → activeAlerts (w_st w) !! k = Some a →
  al_ID a' = al_ID a → alert_key a' = alert_key a → al_Status a' = al_Status a →
  (∀ r, row_id (f r) = row_id r) → (∀ r, alert_key (f r) = alert_key r) →
  (∀ r, al_Status (f r) = al_Status r) → (∀ r, core r = core a → core (f r) = core a') →
  put w (w_st w <| activeAlerts := <[k := a']> (activeAlerts (w_st w)) |>
    <| db_alerts := update_id (al_ID a) f (db_alerts (w_st w)) |>) w' →
  sound w w'.
Proof.
  intros Hinv Ha Hid Hk Hs Hfid Hfk Hfs Hfc Hput. pose proof Hput as (Hst & He & _).
  apply (sound_intro w w); [by apply sound_refl|done|..]; rewrite Hst.
  - apply (engine_inv_rows (db_alerts (w_st w))).
    + cbn. rewrite update_id_ids by done. apply Hinv.
    + by apply keeps_active_update.
    + by apply (engine_inv_replace (engine_view (w_st w)) k a a').
  - intros Hh Hsy. split; [|by apply synced_update].
    eapply healthy_put; [exact Hput|done|]. intros id. unfold used_ids.
    change (db_alerts (set_field _ _ _)) with (update_id (al_ID a) f (db_alerts (w_st w))).
    by rewrite update_id_ids.
Qed.

(** ** The abstract engine *)

(** The severity of the live alert of each key. *)
Definition live (s : alerting) : gmap activeAlertKey string := al_Severity <$> activeAlerts s.

Definition live_view (v : list Alert * live_map) : gmap activeAlertKey string :=
  al_Severity <$> v.2.

(** What an event does to that map: a recovery ends the key's alert, a firing
    event starts one, or raises it if it is more severe. *)
Definition spec_event (evt : Event) (silenced stored : bool) (m : gmap activeAlertKey string)
    : gmap activeAlertKey string :=
  let key := event_key evt in
  if ev_IsRecover evt then delete key m
  else match m !! key with
       | Some sev =>
         if bool_decide (severityRank sev < severityRank (ev_Severity evt))
         then <[key := ev_Severity evt]> m else m
       | None => if silenced || negb stored then m else <[key := ev_Severity evt]> m
       end.

(** ** The handlers keep the invariants *)

Section handlers.
Context {Esc : Escalator} {Sup : MaintenanceSuppressor}.
Context `{!EscalatorLaws Esc, !SuppressorLaws Sup}.
Context (notifier broadcaster : bool).

Lemma wp_checkSilenceRules evt (Q : bool → world alerting → Prop) w :
  (∀ w', same w w' → Q (checkSilenceRules evt w).1 w') → wp (checkSilenceRules evt) Q w.
Proof.
  intros HQ. apply HQ. clear HQ.
  apply (wp_bind GetActiveSilenceRules _ (λ _ w', same w w') w).
  apply wp_bind, wp_now. intros w1 H1.
  assert (∀ w2 (b : bool), same w1 w2 → wp (ret b) (λ _ w', same w w') w2) as Hret.
  { intros w2 b H2. apply wp_ret. by eapply same_trans. }
  apply wp_db_query; [by auto|]. intros w2 H2. cbn [fmap].
  destruct (existsb _ _); [by apply Hret|].
  apply wp_bind. pose proof (IsSuppressed_reads (ev_Source evt) (ev_EntityType evt) (ev_EntityID evt) w2) as H3.
  unfold wp at 1. destruct (IsSuppressed _ _ _ w2) as [r w3]. cbn in H3 |- *.
  assert (same w1 w3) by by eapply same_trans.
  destruct r; by apply Hret.
Qed.

Lemma wp_escalateAlert key existing evt w :
  activeAlerts (w_st w) !! key = Some existing →
  engine_inv (engine_view (w_st w)) →
  wp (escalateAlert notifier broadcaster key existing evt) (λ _ w', sound w w' ∧
    live_view (engine_view (w_st w')) = <[key := ev_Severity evt]> (live (w_st w))) w.
Proof.
  intros Hex Hinv. unfold escalateAlert.
  set (upd := existing <| al_Severity := ev_Severity evt |>
    <| al_Message := ev_Message evt |> <| al_EntityName := ev_EntityName evt |>
    <| al_Details := details_json (ev_Details evt) |>).
  assert (alert_key existing = key) as Hkey by apply (ei_live _ Hinv key existing Hex).
  apply wp_bind, wp_modify_put. intros w1 H1. pose proof H1 as (Hs1 & He1 & _).
  assert (live (w_st w1) = <[key := ev_Severity evt]> (live (w_st w))) as Hlive1.
  { rewrite Hs1. unfold live. cbn. by rewrite fmap_insert. }
  apply wp_bind, wp_db_exec.
  { intros w2 H2 Hff. pose proof H2 as (Hs2 & He2 & _). apply wp_ret. rewrite Hs2. split; [|done].
    apply (sound_intro w w); [by apply sound_refl|congruence| |].
    { rewrite Hs2, Hs1. by apply (engine_inv_replace (engine_view (w_st w)) key existing upd). }
    intros Hh. destruct Hff. eapply fault_free_env, Hh. done. }
  intros w2 H2. pose proof H2 as (Hs2 & He2 & _). rewrite Hs1 in Hs2.
  assert (sound w w2) as Hw2.
  { eapply (sound_update w w2 key existing upd); [done..| | | | |].
    5: { split_and!; [exact Hs2|congruence|]. destruct H1 as (_&_&?), H2 as (_&_&?). lia. }
    all: try done. intros r [= Hid Hso Hty Het Heid Hsev Hst Hmsg Hname Hag Hdet].
    unfold core, alert_key, upd. cbn. congruence. }
  assert (activeAlerts (w_st w2) = <[key := upd]> (activeAlerts (w_st w))) as Hm2 by (by rewrite Hs2).
  apply (wp_bind (GetAlert _)), (wp_mono _ (λ _ w3, same w2 w3)); [by apply wp_db_query|].
  intros stored w3 H3.
  pose proof (sound_same _ _ _ Hw2 H3) as Hw3. rewrite <- (proj1 H3) in Hm2.
  set (upd' := match stored with Ok (Some _) => _ | _ => _ end).
  assert (core upd' = core upd) as Hc by (unfold upd'; by destruct stored as [[]|]).
  assert (alert_key upd' = key) as Hkey' by (rewrite (core_key _ _ Hc), <- Hkey; done).
  eapply wp_bind, wp_mono; [apply (wp_replace_entry upd' w w3 key upd); [done| |done]|].
  { rewrite Hm2. by rewrite lookup_insert_eq. }
  intros _ w4 (Hw4 & Hs4). rewrite Hkey'.
  eapply wp_bind, wp_mono; [apply (wp_replace_entry upd' w w4 key upd'); [done| |done]|].
  { rewrite Hs4. cbn. by rewrite lookup_insert_eq. }
  intros _ w5 (Hw5 & Hs5).
  apply (wp_quiet_tail _ (λ v, live_view v = <[key := ev_Severity evt]> (live (w_st w))));
    [|exact Hw5|].
  - confined_tac.
  - rewrite Hs5, Hs4. unfold live_view, live. cbn. rewrite Hm2, !fmap_insert.
    rewrite !insert_insert_eq. f_equal. by injection Hc as [=].
Qed.

(** The first steps of a new alert: the row is stored and, unless silenced, the
    key tracked. *)
Lemma wp_track key a (silenced : bool) w w1 w' :
  engine_inv (engine_view (w_st w)) → activeAlerts (w_st w) !! key = None →
  same w w1 → alert_key a = key → al_Status a = (if silenced then StatusSilenced else StatusActive) →
  al_ID a ∉ table_ids (db_alerts (w_st w1)) →
  w_st w' = w_st w1 <| db_alerts := db_alerts (w_st w1) ++ [alert_row a] |> →
  w_env w' = w_env w1 → (healthy w1 → healthy w') →
  wp (if negb silenced then modify (λ s, s <| activeAlerts ::= <[key := a]> |>) else ret tt)
    (λ _ w'', sound w w'' ∧ activeAlerts (w_st w'') =
      if silenced then activeAlerts (w_st w) else <[key := a]> (activeAlerts (w_st w))) w'.
Proof.
  intros Hinv Hnone Hsame Hkey Hst Hid Hs' He' Hh'. pose proof Hsame as (Hs1 & He1 & Ht1).
  rewrite Hs1 in Hs', Hid.
  assert (al_ID (alert_row a) ∉ table_ids (db_alerts (w_st w))) as Hid' by done.
  pose proof (engine_inv_insert _ _ _ Hid' Hinv) as Hinv'.
  destruct silenced; cbn [negb].
  - apply wp_ret. split; [|by rewrite Hs'].
    apply (sound_intro w w); [by apply sound_refl|congruence|by rewrite Hs'|].
    rewrite Hs'. intros Hw Hsy. split; [by eapply Hh', healthy_same|].
    apply synced_insert_inactive; [done| |done]. by change (al_Status a ≠ StatusActive); rewrite Hst.
  - apply wp_modify_put. intros w2 H2. pose proof H2 as (Hs2 & He2 & _). rewrite Hs' in Hs2.
    split; [|by rewrite Hs2].
    apply (sound_intro w w); [by apply sound_refl|congruence|..]; rewrite Hs2.
    + apply (engine_inv_track _ _ _ (alert_row a)); [exact (select_id_snoc_eq _ (alert_row a) Hid')|done..].
    + intros Hw Hsy. split.
      * eapply healthy_put; [exact H2|by eapply Hh', healthy_same|by rewrite Hs'].
      * rewrite <- Hkey. change (alert_key a) with (alert_key (alert_row a)).
        apply synced_insert_active; [done| |done..].
        change (alert_key (alert_row a)) with (alert_key a). by rewrite Hkey.
Qed.

Lemma wp_processRecovery evt w :
  engine_inv (engine_view (w_st w)) →
  wp (processRecovery notifier broadcaster evt) (λ _ w', sound w w' ∧
    live_view (engine_view (w_st w')) = delete (event_key evt) (live (w_st w))) w.
Proof.
  intros Hinv. unfold processRecovery. set (key := event_key evt).
  apply wp_bind, wp_gets. destruct (activeAlerts (w_st w) !! key) as [a|] eqn:Ha; cycle 1.
  { apply wp_ret. split; [by apply sound_refl|]. unfold live. rewrite <- fmap_delete.
    by rewrite delete_id. }
  assert (al_Severity <$> delete key (activeAlerts (w_st w)) = delete key (live (w_st w))) as Hl
    by apply fmap_delete.
  apply wp_bind, wp_modify_put. intros w1 H1. pose proof H1 as (Hs1 & He1 & _).
  assert (engine_inv (db_alerts (w_st w), delete key (activeAlerts (w_st w)))) as Hinv1.
  { apply (engine_inv_forget (engine_view (w_st w))); [apply delete_subseteq|done]. }
  assert (healthy w → healthy w1) as Hh1 by (intros Hw; by eapply healthy_put).
  apply wp_bind, wp_InsertAlert.
  { intros w2 (Hs2 & He2 & _) Hff. apply wp_ret. rewrite Hs2, Hs1. split; [|done].
    apply (sound_intro w w); [by apply sound_refl|congruence|by rewrite Hs2, Hs1|].
    by intros ?%Hh1. }
  intros r w2 Hid Hs2 He2 Hh2 (id & t & Hr). rewrite Hs1 in Hid, Hs2.
  assert (al_Status r = StatusResolved) as Hrs by (by rewrite Hr).
  assert (engine_view (w_st w2) = (db_alerts (w_st w) ++ [alert_row r],
    delete key (activeAlerts (w_st w)))) as Hv2 by (by rewrite Hs2).
  pose proof (engine_inv_insert _ _ (alert_row r) Hid Hinv1) as Hinv2.
  apply wp_bind, (wp_mono _ (λ _ w3, sound w w3 ∧
    live_view (engine_view (w_st w3)) = delete key (live (w_st w)))).
  { apply wp_db_exec.
    - intros w3 H3 Hff. pose proof H3 as (Hs3 & He3 & _).
      rewrite Hs3, Hv2. split; [|done].
      apply (sound_intro w w); [by apply sound_refl|congruence|by rewrite Hs3, Hv2|].
      by intros ?%Hh1%Hh2%healthy_fault_free.
    - intros w3 H3. pose proof H3 as (Hs3 & He3 & _).
      set (f := λ b : Alert, _) in H3, Hs3.
      assert (engine_view (w_st w3) = (update_id (al_ID a) f (db_alerts (w_st w) ++ [alert_row r]),
        delete key (activeAlerts (w_st w)))) as Hv3 by (by rewrite Hs3, Hs2).
      rewrite Hv3. split; [|done].
      apply (sound_intro w w); [by apply sound_refl|congruence|..]; rewrite Hv3.
      + apply engine_inv_resolve; [done| |done]. by eapply engine_inv_delete_ids.
      + intros Hw Hsy. split.
        * eapply healthy_put; [exact H3|by auto|]. intros i. unfold used_ids.
          change (db_alerts (set_field _ _ _)) with (update_id (al_ID a) f (db_alerts (w_st w2))).
          by rewrite update_id_ids.
        * apply synced_resolve; [done..|]. apply synced_insert_inactive; [done| |done].
          change (al_Status r ≠ StatusActive). by rewrite Hrs. }
  intros _ w3 [Hw3 Hl3].
  apply (wp_quiet_tail _ (λ v, live_view v = delete key (live (w_st w)))); [|done..].
  confined_tac.
Qed.

(** What an event does to the map, and that the invariants survive it. *)
Lemma wp_processEvent evt w :
  engine_inv (engine_view (w_st w)) →
  wp (processEvent notifier broadcaster evt) (λ _ w', sound w w' ∧
    ∃ silenced stored, live (w_st w') = spec_event evt silenced stored (live (w_st w))
      ∧ (healthy w → silenced = (checkSilenceRules evt w).1 ∧ stored = true)) w.
Proof.
  intros Hinv. unfold processEvent, spec_event. destruct (ev_IsRecover evt).
  { eapply wp_mono; [by apply wp_processRecovery|]. intros _ w' [Hw Hl].
    split; [done|]. by exists (checkSilenceRules evt w).1, true. }
  set (key := event_key evt). apply wp_bind, wp_gets.
  unfold live at 2. rewrite lookup_fmap.
  destruct (activeAlerts (w_st w) !! key) as [existing|] eqn:Hex; cbn [fmap option_fmap option_map].
  { destruct (bool_decide (_ < _)).
    - eapply wp_mono; [by apply wp_escalateAlert|]. intros _ w' [Hw Hl].
      split; [done|]. by exists (checkSilenceRules evt w).1, true.
    - apply wp_ret. split; [by apply sound_refl|]. by exists (checkSilenceRules evt w).1, true. }
  apply wp_bind, wp_checkSilenceRules. intros w1 H1.
  set (silenced := (checkSilenceRules evt w).1). apply wp_bind, wp_InsertAlert.
  { intros w2 H2 Hff. apply wp_ret. split.
    - eapply sound_same; [by apply sound_refl|]. by eapply same_trans.
    - exists silenced, false. rewrite orb_true_r, (proj1 H2), (proj1 H1). split; [done|].
      intros Hw. destruct Hff. by eapply healthy_same. }
  intros a w2 Hid Hs2 He2 Hh2 (id & t & Ha).
  assert (alert_key a = key) as Hkey by (rewrite Ha; by destruct silenced).
  assert (al_Status a = if silenced then StatusSilenced else StatusActive) as Hst
    by (rewrite Ha; by destruct silenced).
  assert (al_Severity a = ev_Severity evt) as Hsev by (rewrite Ha; by destruct silenced).
  eapply wp_bind, wp_mono; [by eapply wp_track|].
  intros _ w3 [Hw3 Hm3].
  assert (live_view (engine_view (w_st w3)) =
    if silenced then live (w_st w) else <[key := ev_Severity evt]> (live (w_st w))) as Hl3.
  { unfold live_view. cbn. rewrite Hm3. destruct silenced; [done|]. by rewrite fmap_insert, Hsev. }
  eapply wp_mono.
  { apply (wp_quiet_tail _ (λ v, live_view v = if silenced then live (w_st w)
      else <[key := ev_Severity evt]> (live (w_st w)))); [|done..]. confined_tac. }
  intros _ w4 [Hw4 Hl4]. split; [done|]. exists silenced, true.
  rewrite orb_false_r. by split.
Qed.

Lemma wp_Acknowledge id by_ w :
  engine_inv (engine_view (w_st w)) →
  wp (Acknowledge broadcaster id by_) (λ _ w', sound w w') w.
Proof.
  intros Hinv. unfold Acknowledge. pose proof (sound_refl w Hinv) as H0.
  apply wp_bind, wp_db_query; [intros; by eapply wp_ret, sound_same|]. intros w1 H1.
  apply (sound_same _ _ _ H0) in H1. clear H0.
  destruct (select_id id (db_alerts (w_st w))) as [a|]; [|by apply wp_ret].
  destruct (_ || _); [by apply wp_ret|].
  apply wp_bind, wp_now. intros w2 H2. apply (sound_same _ _ _ H1) in H2.
  apply wp_bind, wp_bind, wp_gets.
  apply wp_bind, wp_db_exec; [intros; by eapply wp_ret, wp_ret, sound_same|].
  intros w3 H3. apply wp_ret. set (f := λ b : Alert, _) in H3.
  assert (sound w w3) as Hw3.
  { eapply sound_put; [exact H2|exact H3|..].
    - unfold used_ids. change (db_alerts (set_field _ _ _)) with
        (update_where (acknowledgeable id) f (db_alerts (w_st w2))).
      by rewrite update_where_ids.
    - change (engine_view (set_field _ _ _)) with
        (update_where (acknowledgeable id) f (db_alerts (w_st w2)), activeAlerts (w_st w2)).
      apply (engine_inv_rows (db_alerts (w_st w2))); [|clear|apply H2].
      + rewrite update_where_ids by done. apply H2.
      + intros i row Hrow Hact. exists (if acknowledgeable id row then f row else row).
        rewrite select_id_update_where, Hrow by done. cbn [fmap option_fmap option_map].
        destruct (acknowledgeable id row); (split_and!; [reflexivity|exact Hact|reflexivity]).
    - intros _ Hsy. by apply synced_core_rows. }
  destruct (negb _); [by apply wp_ret|].
  eapply wp_mono; [apply (wp_quiet_tail _ (λ _, True) w); [|done..]; confined_tac|].
  by intros _ w4 [? _].
Qed.

Lemma wp_ResolveByEntity_loop t l w0 w :
  engine_inv (engine_view (w_st w0)) →
  w_env w = w_env w0 → engine_inv (engine_view (w_st w)) →
  (∀ a k b, a ∈ l → activeAlerts (w_st w) !! k = Some b → al_ID b ≠ al_ID a) →
  NoDup (alert_key <$> l) → (∀ a, a ∈ l → activeAlerts (w_st w) !! alert_key a = None) →
  (healthy w0 → synced (engine_view (w_st w0)) →
     healthy w ∧ synced (db_alerts (w_st w), activeAlerts (w_st w) ∪ pending l)) →
  wp (for_each l (λ a,
    let! r := UpdateAlertStatus (al_ID a) StatusResolved (Some t) None in
    match r with
    | Err _ => ret tt
    | Ok _ =>
      do! OnAlertResolved (al_ID a) t in
      broadcastResolved broadcaster (a <| al_Status := StatusResolved |> <| al_ResolvedAt := Some t |>)
    end)) (λ _ w', sound w0 w' ∧ activeAlerts (w_st w') = activeAlerts (w_st w)) w.
Proof.
  intros Hinv0. revert w. induction l as [|a l IH]; intros w He Hinv Hids Hnd Hnone Hsy; cbn [for_each].
  { apply wp_ret. split; [|done]. split; [done..|]. intros Hh Hs. destruct (Hsy Hh Hs) as [? Hs'].
    split; [done|]. unfold pending in Hs'. cbn in Hs'. by rewrite (right_id_L ∅ (∪)) in Hs'. }
  rewrite fmap_cons, NoDup_cons in Hnd. destruct Hnd as [Hak Hnd].
  apply wp_bind, wp_bind, wp_db_exec.
  { intros w1 (Hs1 & He1 & _) Hff. apply wp_ret. rewrite <- Hs1.
    apply IH; rewrite ?Hs1; [congruence|done|set_solver|done|set_solver|].
    intros Hh Hs. destruct (Hsy Hh Hs) as [Hw _]. by apply healthy_fault_free in Hw. }
  intros w1 H1. set (f := λ b : Alert, _) in H1. pose proof H1 as (Hs1 & He1 & _).
  assert (db_alerts (w_st w1) = update_id (al_ID a) f (db_alerts (w_st w))) as Hr1 by by rewrite Hs1.
  assert (activeAlerts (w_st w1) = activeAlerts (w_st w)) as Hm1 by by rewrite Hs1.
  apply (wp_confined quiet); [confined_tac|]. intros _ w2 Hq He2 Hh2. injection Hq as Hr2 Hm2.
  rewrite <- Hm1, <- Hm2. apply IH; unfold engine_view; rewrite ?Hm2, ?Hm1, ?Hr2, ?Hr1.
  - congruence.
  - apply engine_inv_resolve; [done| |done]. intros k b. apply Hids. left.
  - set_solver.
  - done.
  - set_solver.
  - intros Hh Hs. destruct (Hsy Hh Hs) as [Hw Hsw]. split.
    + apply Hh2. eapply healthy_put; [exact H1|done|]. intros i. unfold used_ids.
      change (db_alerts (set_field _ _ _)) with (update_id (al_ID a) f (db_alerts (w_st w))).
      by rewrite update_id_ids.
    + rewrite <- (pending_cons_delete _ a) by (done || apply Hnone; left).
      apply synced_resolve; [|done..]. apply pending_cons_lookup, Hnone. left.
Qed.

Lemma pending_map_to_list (m : live_map) :
  (∀ k a, m !! k = Some a → alert_key a = k) →
  alert_key <$> (map_to_list m).*2 = (map_to_list m).*1 ∧ pending (map_to_list m).*2 = m.
Proof.
  intros Hm.
  assert (∀ p, p ∈ map_to_list m → alert_key p.2 = p.1) as Hp.
  { intros [k a] Hin%elem_of_map_to_list. by apply Hm. }
  assert ((λ a, (alert_key a, a)) <$> (map_to_list m).*2 = map_to_list m) as Hl.
  { rewrite <- list_fmap_compose. rewrite <- (list_fmap_id (map_to_list m)) at 2.
    apply list_fmap_ext. intros i [k a] Hi%list_elem_of_lookup_2%Hp. cbn in *. by rewrite Hi. }
  split.
  - rewrite <- Hl at 2. rewrite <- !list_fmap_compose. by apply list_fmap_ext.
  - unfold pending. rewrite Hl. apply list_to_map_to_list.
Qed.

Lemma wp_ResolveByEntity entityType entityID w :
  engine_inv (engine_view (w_st w)) →
  wp (ResolveByEntity broadcaster entityType entityID) (λ _ w', sound w w' ∧
    activeAlerts (w_st w') =
      filter (λ p, of_entity entityType entityID p.1 = false) (activeAlerts (w_st w))) w.
Proof.
  intros Hinv. apply wp_bind, wp_now. intros w1 H1. pose proof H1 as (Hs1 & He1 & _).
  apply wp_bind, wp_gets, wp_bind, wp_modify_put. intros w2 H2. rewrite Hs1 in *.
  set (m := activeAlerts (w_st w)) in *. pose proof H2 as (Hs2 & He2 & _).
  set (hit := filter _ m). set (keep := filter (λ p, of_entity entityType entityID p.1 = false) m) in *.
  assert (∀ k a, hit !! k = Some a → alert_key a = k ∧ m !! k = Some a ∧ keep !! k = None) as Hhit.
  { intros k a [Ha Hp]%map_lookup_filter_Some. cbn in Hp. split_and!; [by eapply Hinv|done|].
    apply map_lookup_filter_None. right. intros b _. cbn. by rewrite Hp. }
  destruct (pending_map_to_list hit) as [Hkeys Hpend]; [by intros k a []%Hhit|].
  assert (∀ a, a ∈ (map_to_list hit).*2 → hit !! alert_key a = Some a) as Hin.
  { intros a ((k & b) & -> & Hb%elem_of_map_to_list)%list_elem_of_fmap. cbn.
    destruct (Hhit k b Hb) as (-> & _). done. }
  assert (engine_view (w_st w2) = (db_alerts (w_st w), keep)) as Hv2 by by rewrite Hs2.
  injection Hv2 as Hr2 Hm2. rewrite <- Hm2.
  apply wp_ResolveByEntity_loop; unfold engine_view; rewrite ?Hr2, ?Hm2, ?Hkeys, ?Hpend;
    [done|congruence| | |apply NoDup_fst_map_to_list| |].
  - apply (engine_inv_forget (engine_view (w_st w))); [apply map_filter_subseteq|done].
  - intros a k b Ha [Hb Hp]%map_lookup_filter_Some Hid. cbn in Hp.
    destruct (Hhit _ _ (Hin a Ha)) as (_ & Hma & Hkeep).
    assert (k = alert_key a) as -> by by eapply (engine_inv_key (engine_view (w_st w)) k (alert_key a) b a).
    apply map_lookup_filter_None in Hkeep. destruct Hkeep as [Hkeep|Hkeep]; [congruence|].
    by apply (Hkeep b).
  - intros a Ha. apply (Hhit _ _ (Hin a Ha)).
  - intros Hh Hsy. split; [eapply healthy_put; [exact H2|by eapply healthy_same|by rewrite Hs1]|].
    replace (keep ∪ hit) with m; [exact Hsy|]. apply map_eq. intros k.
    destruct (m !! k) as [a|] eqn:Ha.
    + destruct (of_entity entityType entityID k) eqn:Hk.
      * rewrite lookup_union_r; [symmetry; by apply map_lookup_filter_Some|].
        apply map_lookup_filter_None. right. intros b _. cbn. by rewrite Hk.
      * symmetry. apply lookup_union_Some_l. by apply map_lookup_filter_Some.
    + symmetry. apply lookup_union_None. split; apply map_lookup_filter_None; by left.
Qed.

Lemma wp_reload_loop l w :
  wp (for_each l (λ a, modify (λ s, s <| activeAlerts ::= <[alert_key a := a]> |>)))
    (λ _ w', w_st w' = w_st w <| activeAlerts := reload_map (activeAlerts (w_st w)) l |>
      ∧ w_env w' = w_env w ∧ w_tick w' = w_tick w) w.
Proof.
  revert w. induction l as [|a l IH]; intros w; cbn [for_each].
  { apply wp_ret. by destruct (w_st w). }
  apply wp_bind, wp_modify. eapply wp_mono; [apply IH|]. cbn. intros _ w' (-> & -> & ->). done.
Qed.

Lemma wp_Start w :
  engine_inv (engine_view (w_st w)) →
  wp Start (λ _ w', sound w w' ∧
    (healthy w → synced (engine_view (w_st w)) →
       core <$> activeAlerts (w_st w') = core <$> activeAlerts (w_st w))) w.
Proof.
  intros Hinv. pose proof (ei_ids _ Hinv) as Hids. cbn in Hids.
  apply wp_bind, wp_modify_put. intros w1 H1. pose proof H1 as (Hs1 & He1 & _).
  apply wp_bind, wp_bind, wp_db_query.
  { intros w2 (Hs2 & He2 & _) Hff. apply wp_ret, wp_ret. split.
    - apply (sound_intro w w); [by apply sound_refl|congruence|rewrite Hs2, Hs1|].
      + apply (engine_inv_forget (engine_view (w_st w))); [apply map_empty_subseteq|done].
      + intros Hw. destruct Hff. eapply fault_free_env, Hw. done.
    - intros Hw. destruct Hff. eapply fault_free_env, Hw. done. }
  intros w2 H2. set (rows := order_by _ _). pose proof H2 as (Hs2 & He2 & _).
  assert (∀ a, a ∈ rows ↔ a ∈ db_alerts (w_st w) ∧ al_Status a = StatusActive) as Hrows.
  { intros a. unfold rows. rewrite order_by_elem, select_where_elem, Hs1.
    by rewrite bool_decide_eq_true. }
  eapply wp_bind, wp_mono; [apply wp_reload_loop|]. intros _ w3 (Hs3 & He3 & Ht3).
  assert (engine_view (w_st w3) = (db_alerts (w_st w), reload_map ∅ rows)) as Hv3.
  { by rewrite Hs3, Hs2, Hs1. }
  apply wp_ret, wp_ret. split.
  - apply (sound_intro w w); [by apply sound_refl|congruence|rewrite Hv3..].
    + apply engine_inv_reload; [done|]. intros a. apply Hrows.
    + intros Hw Hsy. split.
      * apply (healthy_put w (w_st w3)); [|done|by rewrite Hs3, Hs2, Hs1].
        split_and!; [done|congruence|]. destruct H1 as (_&_&?), H2 as (_&_&?). lia.
      * by apply (synced_reload _ _ _ Hsy).
  - intros Hw Hsy. injection Hv3 as _ ->. by apply (synced_reload _ _ _ Hsy).
Qed.

Lemma wp_retention before w :
  engine_inv (engine_view (w_st w)) →
  wp (DeleteInactiveAlertsOlderThan before) (λ _ w', sound w w') w.
Proof.
  intros Hinv. apply wp_db_exec.
  - intros w' Hw _. eapply sound_same; [by apply sound_refl|done].
  - intros w' Hput. pose proof Hput as (Hst & He & _).
    apply (sound_intro w w); [by apply sound_refl|done|rewrite Hst..].
    + by apply (engine_inv_retention (db_alerts (w_st w))).
    + intros Hw Hsy. split; [|by apply (synced_retention (db_alerts (w_st w)))].
      eapply healthy_put; [exact Hput|done|]. unfold used_ids.
      change (db_alerts (set_field _ _ _)) with
        (delete_where (expired_alert before) (db_alerts (w_st w))).
      intros i [Hi|Hi]%elem_of_app; apply elem_of_app; [left|by right].
      apply list_elem_of_fmap in Hi as (r & -> & [Hr _]%delete_where_elem).
      by apply list_elem_of_fmap_2.
Qed.

(** A cycle and the other changes of the rows outside [core]. *)
Lemma core_rows_select (rows rows' : list Alert) id row :
  core <$> rows' = core <$> rows → select_id id rows = Some row →
  ∃ row', select_id id rows' = Some row' ∧ core row' = core row.
Proof.
  unfold select_id, select_where. revert rows'.
  induction rows as [|r rows IH]; intros [|r' rows'] Hc; try done.
  pose proof (f_equal (λ l, default (core r) (head l)) Hc) as Hr.
  pose proof (f_equal tail Hc) as Hc'. cbn in Hr, Hc'. clear Hc.
  rewrite !filter_cons. assert (row_id r' = row_id r) as -> by (by apply core_id).
  destruct (bool_decide (row_id r = id)).
  - rewrite !decide_True by done. cbn. intros [= <-]. eauto.
  - rewrite !decide_False by done. by apply IH.
Qed.

Lemma core_rows_ids (rows rows' : list Alert) :
  core <$> rows' = core <$> rows → table_ids rows' = table_ids rows.
Proof.
  intros Hc. unfold table_ids.
  assert (∀ l : list Alert, row_id <$> l = (λ c, c.1.1.1) <$> (core <$> l)) as H.
  { intros l. rewrite <- list_fmap_compose. by apply list_fmap_ext. }
  by rewrite (H rows), (H rows'), Hc.
Qed.

Lemma engine_inv_core rows rows' m :
  core <$> rows' = core <$> rows → engine_inv (rows, m) → engine_inv (rows', m).
Proof.
  intros Hc Hinv. apply (engine_inv_rows rows); [| |done].
  - rewrite (core_rows_ids rows) by done. apply Hinv.
  - intros id row Hrow Hact. destruct (core_rows_select rows rows' id row) as (row' & ? & Hcr); [done..|].
    exists row'. split_and!; [done| |by apply core_key]. by rewrite (core_status _ _ Hcr).
Qed.

Lemma synced_core rows rows' m :
  core <$> rows' = core <$> rows → synced (rows, m) → synced (rows', m).
Proof.
  intros Hc [Hids Hl Hr]. split; cbn in *.
  - by rewrite (core_rows_ids rows).
  - intros k a Ha. destruct (Hl k a Ha) as (? & ? & row & Hrow & <-). split_and!; [done..|].
    by apply (core_rows_select rows).
  - intros row' Hrow' Hact. apply (list_elem_of_fmap_2 core) in Hrow'. rewrite Hc in Hrow'.
    apply list_elem_of_fmap in Hrow' as (row & Hcr & Hrow).
    rewrite (core_status _ _ Hcr) in Hact. destruct (Hr row Hrow Hact) as (a & ? & ?).
    exists a. by rewrite (core_key _ _ Hcr), (core_id _ _ Hcr).
Qed.

Lemma cycle_only_view s s' :
  cycle_only s s' → core <$> db_alerts s' = core <$> db_alerts s ∧ activeAlerts s' = activeAlerts s.
Proof.
  intros H. split; [|exact (f_equal activeAlerts H)]. apply (f_equal db_alerts) in H. cbn in H.
  assert (∀ l : list Alert, core <$> l = core <$> ((λ a, a <| al_EscalatedAt := None |>) <$> l)) as Hl.
  { intros l. rewrite <- list_fmap_compose. by apply list_fmap_ext. }
  rewrite (Hl (db_alerts s)), (Hl (db_alerts s')). f_equal. exact H.
Qed.

Lemma wp_EvaluateCycle w :
  engine_inv (engine_view (w_st w)) →
  wp EvaluateCycle (λ _ w', sound w w' ∧ activeAlerts (w_st w') = activeAlerts (w_st w)) w.
Proof.
  intros Hinv. eapply wp_confined; [apply EvaluateCycle_confined|].
  intros _ w' [Hr Hm]%cycle_only_view He Hh. split; [|done].
  apply (sound_intro w w); [by apply sound_refl|done|..]; unfold engine_view; rewrite Hm.
  - by apply (engine_inv_core (db_alerts (w_st w))).
  - intros Hw Hsy. split; [auto|]. by apply (synced_core (db_alerts (w_st w))).
Qed.

(** *** The map is left alone by acknowledgements and by retention *)

Lemma Acknowledge_live id by_ w :
  activeAlerts (w_st (Acknowledge broadcaster id by_ w).2) = activeAlerts (w_st w).
Proof.
  assert (steps (λ s s', activeAlerts s' = activeAlerts s) (Acknowledge broadcaster id by_))
    as H; [|apply (H w)].
  assert (PreOrder (λ s s', activeAlerts s' = activeAlerts s)) by (split; congruence).
  assert (∀ A (m : M alerting A), confined quiet m → steps (λ s s', activeAlerts s' = activeAlerts s) m)
    as Hq.
  { intros A m Hm w'. destruct (Hm w') as (Hv & He & _). split; [|done].
    by injection Hv. }
  unfold Acknowledge, GetAlert, AcknowledgeAlert. steps_tac; first [reflexivity | apply Hq; confined_tac].
Qed.

Lemma retention_live before w :
  activeAlerts (w_st (DeleteInactiveAlertsOlderThan before w).2) = activeAlerts (w_st w).
Proof. unfold DeleteInactiveAlertsOlderThan, db_exec, bind, fault, consult. by destruct (env_fault _ _). Qed.


(** ** Runs of the engine *)

(** What can happen to the engine: an event of its channel, an acknowledgement,
    the removal of an entity, a tick of the evaluator, a restart, a pass of the
    retention, and a change of channels, triggers or silences elsewhere. *)
Inductive op :=
  | OpEvent (evt : Event)
  | OpAcknowledge (id by_ : string)
  | OpResolveByEntity (entityType entityID : string)
  | OpEvaluateCycle
  | OpStart
  | OpRetention (before : Z)
  | OpConfigure (channels : list NotificationChannel) (triggers : list AlertTrigger)
      (silences : list SilenceRule).

Definition run_op (o : op) (w : world alerting) : world alerting :=
  match o with
  | OpEvent evt => (processEvent notifier broadcaster evt w).2
  | OpAcknowledge id by_ => (Acknowledge broadcaster id by_ w).2
  | OpResolveByEntity ty id => (ResolveByEntity broadcaster ty id w).2
  | OpEvaluateCycle => (EvaluateCycle w).2
  | OpStart => (Start w).2
  | OpRetention before => (DeleteInactiveAlertsOlderThan before w).2
  | OpConfigure chs ts ss =>
    (modify (λ s, s <| db_channels := chs |> <| db_triggers := ts |> <| db_silences := ss |>) w).2
  end.

Definition run_ops (ops : list op) (w : world alerting) : world alerting :=
  foldl (λ w o, run_op o w) w ops.

(** The abstract machine: what each operation does to the live alerts.  Whether
    an event is silenced is for the silence rules to say. *)
Definition spec_op (o : op) (m m' : gmap activeAlertKey string) : Prop :=
  match o with
  | OpEvent evt => ∃ silenced, m' = spec_event evt silenced true m
  | OpResolveByEntity ty id => m' = filter (λ p, of_entity ty id p.1 = false) m
  | _ => m' = m
  end.

Inductive spec_run : list op → gmap activeAlertKey string → gmap activeAlertKey string → Prop :=
  | spec_run_nil m : spec_run [] m m
  | spec_run_cons o ops m1 m2 m3 :
      spec_op o m1 m2 → spec_run ops m2 m3 → spec_run (o :: ops) m1 m3.

Lemma live_core s s' :
  core <$> activeAlerts s' = core <$> activeAlerts s → live s' = live s.
Proof.
  intros H. unfold live.
  assert (∀ m : live_map, al_Severity <$> m = (λ c, c.1.2.1) <$> (core <$> m)) as Hm.
  { intros m. rewrite <- map_fmap_compose. by apply map_fmap_ext. }
  by rewrite (Hm (activeAlerts s)), (Hm (activeAlerts s')), H.
Qed.

(** One operation: the invariants survive, and a healthy engine makes the
    abstract step. *)
Lemma run_op_sound o w :
  engine_inv (engine_view (w_st w)) →
  sound w (run_op o w) ∧ (healthy w → synced (engine_view (w_st w)) →
    spec_op o (live (w_st w)) (live (w_st (run_op o w)))).
Proof.
  intros Hinv. destruct o as [evt|id by_|ty id| | |before|chs ts ss]; cbn [run_op spec_op].
  - destruct (wp_processEvent evt w Hinv) as (Hs & sil & st & Hl & Hh).
    split; [done|]. intros Hw _. destruct (Hh Hw) as [_ ->]. eauto.
  - split; [by apply wp_Acknowledge|]. intros _ _. unfold live. by rewrite Acknowledge_live.
  - destruct (wp_ResolveByEntity ty id w Hinv) as [Hs Hm]. split; [done|]. intros _ _.
    unfold live. rewrite Hm. rewrite map_filter_fmap. reflexivity.
  - destruct (wp_EvaluateCycle w Hinv) as [Hs Hm]. split; [done|]. intros _ _.
    unfold live. by rewrite Hm.
  - destruct (wp_Start w Hinv) as [Hs Hm]. split; [done|]. intros Hw Hsy. by apply live_core, Hm.
  - split; [by apply wp_retention|]. intros _ _. unfold live. by rewrite retention_live.
  - split; [|done]. apply (sound_quiet w w); [by apply sound_refl|done|done|].
    intros Hw. eapply (healthy_put w); [split_and!; [reflexivity|done|cbn; lia]|done|done].
Qed.

Lemma run_ops_inv ops w :
  engine_inv (engine_view (w_st w)) → sound w (run_ops ops w).
Proof.
  revert w. induction ops as [|o ops IH]; intros w Hinv; [by apply sound_refl|].
  destruct (run_op_sound o w Hinv) as [Hs _].
  eapply sound_trans; [exact Hs|]. by apply IH, Hs.
Qed.
End handlers.

(** ** Acknowledgements are kept *)

Definition acknowledged (s : alerting) (id : string) (t : Z) (by_ : string) : Prop :=
  ∃ row, select_id id (db_alerts s) = Some row
    ∧ al_AcknowledgedAt row = Some t ∧ al_AcknowledgedBy row = by_.

Definition keeps_acks (s s' : alerting) : Prop :=
  ∀ id t by_, acknowledged s id t by_ → acknowledged s' id t by_.

#[export] Instance keeps_acks_preorder : PreOrder keeps_acks.
Proof. split; [intros s id t b; done|intros s1 s2 s3 H1 H2 id t b Hs; by apply H2, H1]. Qed.

Lemma keeps_acks_rows s s' : db_alerts s' = db_alerts s → keeps_acks s s'.
Proof. unfold keeps_acks, acknowledged. by intros ->. Qed.

Lemma keeps_acks_update s p f :
  (∀ r, row_id (f r) = row_id r) →
  (∀ r, p r = true → al_AcknowledgedAt r ≠ None →
     al_AcknowledgedAt (f r) = al_AcknowledgedAt r ∧ al_AcknowledgedBy (f r) = al_AcknowledgedBy r) →
  keeps_acks s (s <| db_alerts ::= update_where p f |>).
Proof.
  intros Hid Hf id t by_ (row & Hrow & Ht & Hb). unfold acknowledged.
  change (db_alerts (set_field _ _ _)) with (update_where p f (db_alerts s)).
  rewrite select_id_update_where, Hrow by done. eexists; split; [reflexivity|].
  destruct (p row) eqn:Hp; [|done]. destruct (Hf row Hp) as [-> ->]; [by rewrite Ht|done].
Qed.

Lemma keeps_acks_update_id s id f :
  (∀ r, row_id (f r) = row_id r) →
  (∀ r, al_AcknowledgedAt (f r) = al_AcknowledgedAt r) →
  (∀ r, al_AcknowledgedBy (f r) = al_AcknowledgedBy r) →
  keeps_acks s (s <| db_alerts ::= update_id id f |>).
Proof. intros. apply (keeps_acks_update s (λ r, bool_decide (row_id r = id)) f); auto. Qed.

Lemma confined_steps {A} (R R' : alerting → alerting → Prop) (m : M alerting A) :
  confined R m → (∀ s s', R s s' → R' s s') → steps R' m.
Proof. intros Hm HR w. destruct (Hm w) as (? & ? & _). auto. Qed.

Lemma InsertAlert_acks a : steps keeps_acks (InsertAlert a).
Proof.
  unfold InsertAlert. steps_tac. intros id t by_ (row & Hrow & Hack). exists row. split; [|done].
  by apply select_id_snoc_old.
Qed.

Lemma quiet_acks s s' : quiet s s' → keeps_acks s s'.
Proof. intros Hq. apply keeps_acks_rows. by injection Hq. Qed.

Lemma cycle_acks s s' : cycle_only s s' → keeps_acks s s'.
Proof.
  intros Hc id t by_ (row & Hrow & Ht & Hb). apply (f_equal db_alerts) in Hc. cbn in Hc.
  set (f := λ a : Alert, _) in Hc.
  assert (∀ l, select_id id (update_where (λ _, true) f l) = f <$> select_id id l) as Hf.
  { intros l. rewrite select_id_update_where by done. done. }
  change (update_where (λ _, true) f (db_alerts s') = update_where (λ _, true) f (db_alerts s)) in Hc.
  pose proof (Hf (db_alerts s')) as H1. rewrite Hc, Hf, Hrow in H1.
  destruct (select_id id (db_alerts s')) as [row'|] eqn:Hrow'; [|done]. exists row'.
  assert (f row = f row') as Hfr by exact (f_equal (default (f row)) H1).
  split; [done|]. split; [rewrite <- Ht|rewrite <- Hb].
  - exact (f_equal al_AcknowledgedAt (eq_sym Hfr)).
  - exact (f_equal al_AcknowledgedBy (eq_sym Hfr)).
Qed.

(** ** Theorems: the engine *)

Section theorems.
Context {Esc : Escalator} {Sup : MaintenanceSuppressor}.
Context `{!EscalatorLaws Esc, !SuppressorLaws Sup}.
Context (notifier broadcaster : bool).

(** C2: the engine's invariant.  Whatever calls fail along the way, after any
  sequence of events, acknowledgements, entity removals, escalation cycles,
  restarts, retention passes and reconfigurations, every entry of
  [activeAlerts] is an active alert, filed under its own key and backed by a
  stored row that is active and has the same key; and no two alert rows share
  an id. *)
Theorem engine_invariant ops w :
engine_inv (engine_view (w_st w)) →
engine_inv (engine_view (w_st (run_ops notifier broadcaster ops w))).
Proof. intros Hinv. by apply (run_ops_inv notifier broadcaster ops w). Qed.

(** C33: without failures the map and the store stay in step: each entry agrees
  with its row on severity, status, message, entity and details, and every
  active row is tracked, so a key never has two active rows. *)
Theorem engine_synced ops w :
healthy w → synced (engine_view (w_st w)) →
synced (engine_view (w_st (run_ops notifier broadcaster ops w))) ∧
∀ a b, a ∈ db_alerts (w_st (run_ops notifier broadcaster ops w)) →
       b ∈ db_alerts (w_st (run_ops notifier broadcaster ops w)) →
       al_Status a = StatusActive → al_Status b = StatusActive →
       alert_key a = alert_key b → a = b.
Proof.
intros Hw Hsy.
destruct (so_sync _ _ (run_ops_inv notifier broadcaster ops w (synced_inv _ Hsy)) Hw Hsy) as [_ Hs].
split; [done|]. intros a b Ha Hb. by apply (synced_row_unique _ a b Hs).
Qed.

(** C1: the engine refines the abstract machine on severities: without failures,
  along every sequence of operations, the live severity of each key is what
  [spec_event] says: an event opens an alert unless silenced, raises it only
  to a higher severity, a recovery closes it, the removal of an entity closes
  the entity's alerts, and nothing else changes it. *)
Theorem engine_refines ops w :
healthy w → synced (engine_view (w_st w)) →
spec_run ops (live (w_st w)) (live (w_st (run_ops notifier broadcaster ops w))).
Proof.
revert w. induction ops as [|o ops IH]; intros w Hw Hsy; [constructor|].
destruct (run_op_sound notifier broadcaster o w (synced_inv _ Hsy)) as [Hs Hspec].
destruct (so_sync _ _ Hs Hw Hsy) as [Hw' Hsy'].
econstructor; [by apply Hspec|]. by apply IH.
Qed.

(** C35: under any failures, one event does to the live severities exactly what
  [spec_event] says for some outcome of the silence check and of the insert;
  when nothing fails these are the outcome of [checkSilenceRules] and a
  success.  In particular a failing store never makes the engine forget an
  escalation or keep a recovered alert. *)
Theorem event_spec evt w :
engine_inv (engine_view (w_st w)) →
wp (processEvent notifier broadcaster evt) (λ _ w', ∃ silenced stored,
  live (w_st w') = spec_event evt silenced stored (live (w_st w)) ∧
  (healthy w → silenced = (checkSilenceRules evt w).1 ∧ stored = true)) w.
Proof. intros Hinv. eapply wp_mono; [by apply wp_processEvent|]. by intros _ w' [_ ?]. Qed.

(** C36: a restart loses nothing: an engine started on the store of one that ran
  without failures has the same alerts in its map, up to times and
  acknowledgements. *)
Theorem restart_roundtrip ops w :
healthy w → synced (engine_view (w_st w)) →
core <$> activeAlerts (w_st (Start (run_ops notifier broadcaster ops w)).2)
= core <$> activeAlerts (w_st (run_ops notifier broadcaster ops w)).
Proof.
intros Hw Hsy. pose proof (run_ops_inv notifier broadcaster ops w (synced_inv _ Hsy)) as Hs.
destruct (so_sync _ _ Hs Hw Hsy) as [Hw' Hsy'].
destruct (wp_Start _ (so_inv _ _ Hs)) as [_ Hm]. by apply Hm.
Qed.


(** Deduplication.  Once a firing event has left its key live, whatever
  failed meanwhile, the same event again changes nothing at all: no row, no
  broadcast, no notification, no consultation of the store. *)
Theorem event_idempotent evt w w' :
engine_inv (engine_view (w_st w)) → ev_IsRecover evt = false →
w' = (processEvent notifier broadcaster evt w).2 →
is_Some (live (w_st w') !! event_key evt) →
processEvent notifier broadcaster evt w' = (tt, w').
Proof.
intros Hinv Hrec -> Hlive. set (w' := (processEvent _ _ evt w).2) in *.
destruct (wp_processEvent notifier broadcaster evt w Hinv) as (_ & sil & st & Hl & _).
fold w' in Hl. unfold spec_event in Hl. rewrite Hrec in Hl.
unfold processEvent. rewrite Hrec. unfold bind at 1. cbn.
assert (∃ a, activeAlerts (w_st w') !! event_key evt = Some a ∧
  ¬ severityRank (al_Severity a) < severityRank (ev_Severity evt)) as (a & -> & Hrank).
{ destruct Hlive as [sev Hlive]. pose proof Hlive as Hlive'. unfold live in Hlive.
  rewrite lookup_fmap in Hlive.
  destruct (activeAlerts (w_st w') !! event_key evt) as [a|] eqn:Ha; [|done]. exists a.
  split; [done|]. injection Hlive as <-. rewrite Hl in Hlive'.
  destruct (live (w_st w) !! event_key evt) as [old|] eqn:Hold.
  - destruct (bool_decide_reflect (severityRank old < severityRank (ev_Severity evt))) as [Hlt|Hge].
    + rewrite lookup_insert_eq in Hlive'. injection Hlive' as <-. lia.
    + rewrite Hold in Hlive'. by injection Hlive' as <-.
  - destruct (sil || negb st); [by rewrite Hold in Hlive'|].
    rewrite lookup_insert_eq in Hlive'. injection Hlive' as <-. lia. }
by rewrite bool_decide_false.
Qed.

(** Silencing.  A firing event that a silence rule or a maintenance window
  covers, and whose key is not live, notifies nobody, whatever calls fail: no
  job is queued, no escalation starts, nothing is tracked; at most a row with
  status [silenced] is stored and [alert.silenced] broadcast. *)
Theorem silenced_notifies_nobody evt w :
ev_IsRecover evt = false → activeAlerts (w_st w) !! event_key evt = None →
(checkSilenceRules evt w).1 = true →
wp (processEvent notifier broadcaster evt) (λ _ w',
  w_st w' = w_st w ∨ ∃ a, al_Status a = StatusSilenced ∧
    w_st w' = w_st w <| db_alerts := db_alerts (w_st w) ++ [alert_row a] |>
      <| sse := if broadcaster then sse (w_st w) ++ [(AlertSilenced, a)] else sse (w_st w) |>) w.
Proof.
intros Hrec Hnone Hsil. unfold processEvent. rewrite Hrec.
apply wp_bind, wp_gets. rewrite Hnone. apply wp_bind, wp_checkSilenceRules.
rewrite Hsil. intros w1 H1. apply wp_bind, wp_InsertAlert.
{ intros w2 H2 _. apply wp_ret. left. by rewrite (proj1 H2), (proj1 H1). }
intros a w2 Hid Hs2 _ _ (id & t & Ha). rewrite (proj1 H1) in Hs2. cbn [negb andb].
apply wp_bind, wp_ret, wp_bind. unfold broadcastAlert, broadcast.
destruct broadcaster.
- apply wp_modify, wp_bind, wp_ret, wp_ret. right. exists a. split; [by rewrite Ha|].
  cbn. by rewrite Hs2.
- apply wp_ret, wp_bind, wp_ret, wp_ret. right. exists a. split; [by rewrite Ha|].
  rewrite Hs2. by destruct (w_st w).
Qed.

(** A new alert.  Without failures, a firing event for a key that is not
  live and not silenced stores one active row with the event's fields, tracks
  it, broadcasts [alert.fired] once, and queues exactly one notification for
  each enabled channel of an enabled trigger that matches the alert. *)
Theorem new_alert evt w :
healthy w → ev_IsRecover evt = false → activeAlerts (w_st w) !! event_key evt = None →
(checkSilenceRules evt w).1 = false → notifier = true →
wp (processEvent notifier broadcaster evt) (λ _ w', ∃ a new,
  (∃ id t, a = event_alert evt <| al_ID := id |> <| al_AgentID ::= uid_Agent |> <| al_CreatedAt := t |>)
  ∧ db_alerts (w_st w') = db_alerts (w_st w) ++ [alert_row a]
  ∧ activeAlerts (w_st w') = <[event_key evt := a]> (activeAlerts (w_st w))
  ∧ sse (w_st w') = (if broadcaster then sse (w_st w) ++ [(AlertFired, a)] else sse (w_st w))
  ∧ jobs (w_st w') = jobs (w_st w) ++ new ∧ NoDup (job_channel_ids new)
  ∧ (∀ c, c ∈ job_channel_ids new ↔ wants (w_st w) a c) ∧ Forall (λ j, job_Alert j = a) new) w.
Proof.
intros Hw Hrec Hnone Hsil Hnt. unfold processEvent. rewrite Hrec.
apply wp_bind, wp_gets. rewrite Hnone. apply wp_bind, wp_checkSilenceRules.
rewrite Hsil. intros w1 H1. pose proof (healthy_same _ _ H1 Hw) as Hw1.
apply wp_bind, wp_InsertAlert; [done|].
intros a w2 Hid Hs2 _ Hh2 Ha. rewrite (proj1 H1) in Hs2. specialize (Hh2 Hw1). cbn [negb andb].
apply wp_bind, wp_modify_put. intros w3 H3. pose proof (proj1 H3) as Hs3.
assert (healthy w3) as Hw3 by (by eapply healthy_put; [exact H3|..]).
apply wp_bind, (wp_mono _ (λ _ w4, healthy w4 ∧ w_st w4 = w_st w3 <| sse :=
  if broadcaster then sse (w_st w3) ++ [(AlertFired, a)] else sse (w_st w3) |>)).
{ unfold broadcastAlert, broadcast. destruct broadcaster.
  - apply wp_modify_put. intros w4 H4. split; [by eapply healthy_put; [exact H4|..]|apply H4].
  - apply wp_ret. split; [done|]. by destruct (w_st w3). }
intros _ w4 (Hw4 & Hs4). apply wp_bind, wp_bind, (wp_confined esc_only).
{ apply OnAlertCreated_confined. }
intros _ w5 Hq _ Hh5. specialize (Hh5 Hw4). apply wp_ret. rewrite Hnt.
eapply wp_mono; [apply (wp_and _ _ _ _ (dispatch_exact a a w5 Hh5) (dispatch_at_most_once true a a w5))|].
intros _ w6 [(_ & new & Hj & Hnd & Hc) (Hf & new' & Hj' & _ & Hok)].
assert (new' = new) as -> by (rewrite Hj in Hj'; by apply app_inv_head in Hj').
assert (∀ {B} (f : alerting → B), (∀ s, f (hook_view s) = f s) → f (w_st w5) = f (w_st w4)) as Hesc.
{ intros B f Hf'. rewrite <- (Hf' (w_st w5)), <- (Hf' (w_st w4)). by rewrite Hq. }
apply (f_equal (λ s, (db_alerts s, activeAlerts s, sse s))) in Hf. injection Hf as Hr6 Hm6 He6.
exists a, new. rewrite Hr6, Hm6, He6, Hj, !Hesc by done. rewrite Hs4, Hs3, Hs2.
split_and!; [done..| |].
- intros c. rewrite Hc. unfold wants. rewrite !Hesc by done. by rewrite Hs4, Hs3, Hs2.
- eapply Forall_impl; [exact Hok|]. by intros j [[? _] _].
Qed.

(** A recovery.  Without failures, the recovery of a live alert stores a
  resolved row for the event, marks the alert's own row resolved at the event's
  time by that row, and forgets the key. *)
Theorem recovery_resolves evt a w :
healthy w → synced (engine_view (w_st w)) → ev_IsRecover evt = true →
activeAlerts (w_st w) !! event_key evt = Some a →
wp (processEvent notifier broadcaster evt) (λ _ w', ∃ r row,
  al_Status r = StatusResolved ∧ select_id (al_ID r) (db_alerts (w_st w)) = None
  ∧ select_id (al_ID r) (db_alerts (w_st w')) = Some r
  ∧ select_id (al_ID a) (db_alerts (w_st w)) = Some row
  ∧ select_id (al_ID a) (db_alerts (w_st w')) = Some (row <| al_Status := StatusResolved |>
      <| al_ResolvedAt := Some (db_time (ev_Timestamp evt)) |> <| al_ResolvedByID := Some (al_ID r) |>)
  ∧ activeAlerts (w_st w') = delete (event_key evt) (activeAlerts (w_st w))) w.
Proof.
intros Hw Hsy Hrec Ha. destruct (sy_live _ Hsy _ _ Ha) as (_ & _ & row & Hrow & _).
cbn in Hrow. unfold processEvent. rewrite Hrec. unfold processRecovery.
apply wp_bind, wp_gets. rewrite Ha.
apply wp_bind, wp_modify_put. intros w1 H1. pose proof (proj1 H1) as Hs1.
assert (healthy w1) as Hw1 by (by eapply healthy_put; [exact H1|..]).
apply wp_bind, wp_InsertAlert; [done|].
intros r w2 Hid Hs2 _ Hh2 (id & t & Hr). rewrite Hs1 in Hid, Hs2. specialize (Hh2 Hw1).
apply wp_bind, wp_db_exec; [by intros ?? []; apply healthy_fault_free|]. intros w3 (Hs3 & _).
set (f := λ b : Alert, _) in Hs3.
assert (engine_view (w_st w3) = (update_id (al_ID a) f (db_alerts (w_st w) ++ [alert_row r]),
  delete (event_key evt) (activeAlerts (w_st w)))) as Hv3 by (by rewrite Hs3, Hs2).
eapply wp_mono; [apply (wp_quiet_tail _ (λ v, v = engine_view (w_st w3)) w3)|].
- confined_tac.
- apply sound_refl. rewrite Hv3. apply engine_inv_resolve; [done| |].
  + eapply engine_inv_delete_ids; [exact (synced_inv _ Hsy)|done].
  + apply engine_inv_insert; [done|].
    apply (engine_inv_forget (engine_view (w_st w))); [apply delete_subseteq|by apply synced_inv].
- done.
- intros _ w4 [_ Hv4]. rewrite Hv3 in Hv4. injection Hv4 as Hr4 Hm4.
  assert (al_ID r ≠ al_ID a) as Hne.
  { intros Heq. cbn in Hid. rewrite Heq in Hid. apply select_id_None in Hid. congruence. }
  exists (alert_row r), row. rewrite Hr4, Hm4. split_and!; [by rewrite Hr| | |done| |done].
  + by apply select_id_None.
  + rewrite select_id_update_ne by done. exact (select_id_snoc_eq _ (alert_row r) Hid).
  + rewrite select_id_update_eq by done. by rewrite (select_id_snoc_old (al_ID a) (db_alerts (w_st w)) (alert_row r) row Hid Hrow).
Qed.

(** [Acknowledge], on every branch and whatever calls fail.  It succeeds only
  on an active row nobody had acknowledged, and then that row, and what the
  caller gets, carry the acknowledgement; [ErrAlertNotFound] means there is no
  such row, [ErrNotAcknowledgeable] that it is not active or already
  acknowledged; on every error the rows are untouched. *)
Theorem acknowledge_spec id by_ w :
NoDup (table_ids (db_alerts (w_st w))) →
wp (Acknowledge broadcaster id by_) (λ r w',
  let stored := select_id id (db_alerts (w_st w)) in
  match r with
  | Ok a => ∃ row, stored = Some row ∧ al_Status row = StatusActive
      ∧ al_AcknowledgedAt row = None ∧ al_AcknowledgedBy a = by_
      ∧ is_Some (al_AcknowledgedAt a)
      ∧ select_id id (db_alerts (w_st w')) = Some a
      ∧ a = row <| al_AcknowledgedAt := al_AcknowledgedAt a |> <| al_AcknowledgedBy := by_ |>
  | Err e => db_alerts (w_st w') = db_alerts (w_st w)
      ∧ (e = ErrAlertNotFound → stored = None)
      ∧ (e = ErrNotAcknowledgeable → ∃ row, stored = Some row ∧
           (al_Status row ≠ StatusActive ∨ al_AcknowledgedAt row ≠ None))
  end) w.
Proof.
intros Hids. unfold Acknowledge. apply wp_bind, wp_db_query.
{ intros w1 (Hs1 & _) _. apply wp_ret. by rewrite Hs1. }
intros w1 (Hs1 & _). destruct (select_id id (db_alerts (w_st w))) as [row|] eqn:Hrow; cycle 1.
{ apply wp_ret. by rewrite Hs1. }
destruct (bool_decide_reflect (al_Status row = StatusActive)) as [Hact|Hact]; cbn [negb orb]; cycle 1.
{ apply wp_ret. rewrite Hs1. split_and!; [done..|]. eauto. }
destruct (bool_decide_reflect (al_AcknowledgedAt row = None)) as [Hack|Hack]; cbn [negb orb]; cycle 1.
{ apply wp_ret. rewrite Hs1. split_and!; [done..|]. eauto. }
apply wp_bind, wp_now. intros w2 (Hs2 & _). set (t := env_now _ _).
apply wp_bind, wp_bind, wp_gets. rewrite Hs2, Hs1.
pose proof (select_id_Some _ _ _ Hrow) as [Hin Hid].
assert (select_where (acknowledgeable id) (db_alerts (w_st w)) = [row]) as ->.
{ apply select_unique; [done..|]. intros r Hr. rewrite acknowledgeable_spec. split; [|by intros ->].
  intros (Hrid & _). pose proof (select_id_elem _ _ Hids Hr) as Hs.
  change (row_id r) with (al_ID r) in Hs. congruence. }
apply wp_bind, wp_db_exec.
{ intros w3 (Hs3 & _) _. apply wp_ret, wp_ret. by rewrite Hs3, Hs2, Hs1. }
intros w3 (Hs3 & _). apply wp_ret. cbn [length negb]. rewrite bool_decide_true by done. cbn [negb].
set (f := λ b : Alert, _) in Hs3.
assert (db_alerts (w_st w3) = update_where (acknowledgeable id) f (db_alerts (w_st w))) as Hr3
  by (by rewrite Hs3, Hs2, Hs1).
apply (wp_mono _ (λ r w4, db_alerts (w_st w4) = db_alerts (w_st w3) ∧ r = Ok (f row))).
{ apply wp_bind, (wp_confined quiet); [confined_tac|]. intros _ w4 Hq4 _ _.
  apply wp_bind, (wp_confined quiet); [confined_tac|]. intros _ w5 Hq5 _ _.
  injection Hq4 as Hq4 _. injection Hq5 as Hq5 _. apply wp_ret. rewrite Hq5, Hq4. split; [done|].
  unfold f. cbn. by rewrite db_time_idemp. }
intros _ w4 [Hr4 ->]. exists row. rewrite Hr4, Hr3. split_and!; [done..|by eexists| |done].
rewrite select_id_update_where, Hrow by done. cbn [fmap option_fmap option_map].
assert (acknowledgeable id row = true) as -> by (by apply acknowledgeable_spec). done.
Qed.

(** The handlers, statement by statement. *)
Lemma handlers_acks {A} (m : M alerting A) :
confined quiet m → steps keeps_acks m.
Proof. intros Hm. eapply confined_steps; [exact Hm|apply quiet_acks]. Qed.

Lemma checkSilenceRules_acks evt : steps keeps_acks (checkSilenceRules evt).
Proof.
intros w. apply (wp_checkSilenceRules evt (λ _ w', keeps_acks (w_st w) (w_st w') ∧ w_env w' = w_env w)).
intros w' (Hs & He & _). by rewrite Hs.
Qed.

#[local] Hint Resolve InsertAlert_acks checkSilenceRules_acks : steps.
#[local] Hint Extern 1 (steps keeps_acks _) =>
(apply handlers_acks; solve [eauto with confined]) : steps.

Ltac acks_tac :=
steps_tac;
first [ by apply keeps_acks_rows
      | apply keeps_acks_update_id; intros []; reflexivity ].

Lemma processEvent_acks evt : steps keeps_acks (processEvent notifier broadcaster evt).
Proof.
unfold processEvent, processRecovery, escalateAlert, UpdateAlertOnEscalation,
  UpdateAlertStatus, GetAlert. acks_tac.
Qed.

Lemma Acknowledge_acks id by_ : steps keeps_acks (Acknowledge broadcaster id by_).
Proof.
unfold Acknowledge, AcknowledgeAlert, GetAlert. steps_tac.
apply keeps_acks_update; [done|]. intros r Hr Hack.
by apply acknowledgeable_spec in Hr as (_ & _ & ?).
Qed.

Lemma run_op_acks o w :
(∀ before, o ≠ OpRetention before) →
keeps_acks (w_st w) (w_st (run_op notifier broadcaster o w)).
Proof.
intros Ho. destruct o as [evt|id by_|ty id| | |before|chs ts ss]; cbn [run_op].
- apply processEvent_acks.
- apply Acknowledge_acks.
- enough (steps keeps_acks (ResolveByEntity broadcaster ty id)) as H by apply (H w).
  unfold ResolveByEntity, UpdateAlertStatus. acks_tac.
- enough (steps keeps_acks EvaluateCycle) as H by apply (H w).
  eapply confined_steps; [apply EvaluateCycle_confined|apply cycle_acks].
- enough (steps keeps_acks Start) as H by apply (H w).
  unfold Start, reloadActiveAlerts, ListActiveAlerts. acks_tac.
- by destruct (Ho before).
- by apply keeps_acks_rows.
Qed.

(** An acknowledgement is permanent: whatever calls fail, through any
  operations but the deletion of old inactive rows, an acknowledged row keeps
  who acknowledged it and when. *)
Theorem acknowledgement_permanent ops w id t by_ :
(∀ before, OpRetention before ∉ ops) → acknowledged (w_st w) id t by_ →
acknowledged (w_st (run_ops notifier broadcaster ops w)) id t by_.
Proof.
revert w. induction ops as [|o ops IH]; intros w Hops Hack; [done|].
apply IH; [set_solver|]. apply run_op_acks; [|done]. intros before ->. apply (Hops before). left.
Qed.
End theorems.

(** ** Witnesses *)

Module EngineExample.
Definition w0 : world alerting := calm_world (1700000000 * second) RoutingExample.state.

Definition loop (severity : string) (recover : bool) : Event :=
  MkEvent "container" "restart_loop" severity recover "restarting" "container" "x" "web" ""
    DetailsNil (1700000000 * second).

(** One rule that silences every event. *)
Definition quiet_w0 : world alerting := calm_world (1700000000 * second)
  (RoutingExample.state <| db_silences :=
     [MkSilenceRule "s1" "" None "" (1700000000 * second) 60 None] |>).

Definition run : list (@op) := [OpEvent (loop "warning" false); OpEvent (loop "critical" false)].
Definition w1 : world alerting := (processEvent true true (Esc := noopEscalator)
  (Sup := noopSuppressor) (loop "warning" false) w0).2.

Lemma w0_healthy : healthy w0.
Proof. apply calm_healthy. intros n. apply not_elem_of_nil. Qed.

Lemma w0_synced : synced (engine_view (w_st w0)).
Proof.
  split; cbn; [constructor| |by intros row ?%elem_of_nil].
  intros k a. by rewrite lookup_empty.
Qed.

(** The fired alert is raised, then the container recovers. *)
Example raised :
  live (w_st (run_ops true true (Esc := noopEscalator) (Sup := noopSuppressor) run w0))
  !! event_key (loop "warning" false) = Some "critical".
Proof. vm_compute. reflexivity. Qed.

(** When the insert of the recovery row fails, the alert is forgotten while its
    row stays active: the next recovery finds nothing to resolve. *)
Definition failing : world alerting :=
  World (Env (λ _, true) (env_now (w_env w1)) (env_uid (w_env w1))) (w_tick w1) (w_st w1).
Definition after_failure : world alerting :=
  (processEvent true true (Esc := noopEscalator) (Sup := noopSuppressor) (loop "info" true) failing).2.

Example recovery_lost :
  activeAlerts (w_st after_failure) !! event_key (loop "info" true) = None
  ∧ al_Status <$> db_alerts (w_st after_failure) = [StatusActive].
Proof. vm_compute. split; reflexivity. Qed.
End EngineExample.

Import EngineExample.

Lemma engine_invariant_witness :
  engine_inv (engine_view (w_st w0)) ∧
  engine_inv (engine_view (w_st (run_ops true true (Esc := noopEscalator) (Sup := noopSuppressor) run w0))).
Proof.
  split; [exact (synced_inv _ w0_synced)|].
  exact (engine_invariant (Esc := noopEscalator) (Sup := noopSuppressor) true true run w0
    (synced_inv _ w0_synced)).
Defined.

Lemma engine_synced_witness :
  healthy w0 ∧
  synced (engine_view (w_st (run_ops true true (Esc := noopEscalator) (Sup := noopSuppressor) run w0))).
Proof.
  split; [exact w0_healthy|].
  exact (proj1 (engine_synced (Esc := noopEscalator) (Sup := noopSuppressor) true true run w0
    w0_healthy w0_synced)).
Defined.

Lemma engine_refines_witness :
  healthy w0 ∧ spec_run run ∅
    (live (w_st (run_ops true true (Esc := noopEscalator) (Sup := noopSuppressor) run w0))).
Proof.
  split; [exact w0_healthy|].
  exact (engine_refines (Esc := noopEscalator) (Sup := noopSuppressor) true true run w0
    w0_healthy w0_synced).
Defined.

Lemma event_spec_witness :
  ∃ silenced stored, live (w_st w1) = spec_event (loop "warning" false) silenced stored ∅.
Proof.
  destruct (event_spec (Esc := noopEscalator) (Sup := noopSuppressor) true true
    (loop "warning" false) w0 (synced_inv _ w0_synced)) as (silenced & stored & H & _).
  exists silenced, stored. exact H.
Defined.

Lemma restart_roundtrip_witness :
  healthy w0 ∧
  core <$> activeAlerts (w_st (Start (run_ops true true (Esc := noopEscalator)
    (Sup := noopSuppressor) run w0)).2)
  = core <$> activeAlerts (w_st (run_ops true true (Esc := noopEscalator)
    (Sup := noopSuppressor) run w0)).
Proof.
  split; [exact w0_healthy|].
  exact (restart_roundtrip (Esc := noopEscalator) (Sup := noopSuppressor) true true run w0
    w0_healthy w0_synced).
Defined.

Lemma event_idempotent_witness :
  is_Some (live (w_st w1) !! event_key (loop "warning" false)) ∧
  processEvent true true (Esc := noopEscalator) (Sup := noopSuppressor) (loop "warning" false) w1
  = (tt, w1).
Proof.
  assert (is_Some (live (w_st w1) !! event_key (loop "warning" false))) as H.
  { exists "warning". vm_compute. reflexivity. }
  split; [exact H|].
  exact (event_idempotent (Esc := noopEscalator) (Sup := noopSuppressor) true true
    (loop "warning" false) w0 w1 (synced_inv _ w0_synced) eq_refl eq_refl H).
Defined.

Lemma silenced_notifies_nobody_witness :
  (checkSilenceRules (Sup := noopSuppressor) (loop "warning" false) quiet_w0).1 = true ∧
  jobs (w_st (processEvent true true (Esc := noopEscalator) (Sup := noopSuppressor)
    (loop "warning" false) quiet_w0).2) = [].
Proof.
  assert ((checkSilenceRules (Sup := noopSuppressor) (loop "warning" false) quiet_w0).1 = true) as H
    by (vm_compute; reflexivity).
  split; [exact H|].
  destruct (silenced_notifies_nobody (Esc := noopEscalator) (Sup := noopSuppressor) true true
    (loop "warning" false) quiet_w0 eq_refl eq_refl H) as [->|(a & _ & ->)]; reflexivity.
Defined.

Lemma new_alert_witness :
  healthy w0 ∧ ∃ a, al_Severity a = "warning" ∧ db_alerts (w_st w1) = [alert_row a]
    ∧ ∀ j, j ∈ jobs (w_st w1) → job_Alert j = a.
Proof.
  split; [exact w0_healthy|].
  destruct (new_alert (Esc := noopEscalator) (Sup := noopSuppressor) true true
    (loop "warning" false) w0 w0_healthy eq_refl eq_refl ltac:(vm_compute; reflexivity) eq_refl)
    as (a & new & (id & t & Ha) & Hr & _ & _ & Hj & _ & _ & Hall).
  exists a. split; [rewrite Ha; reflexivity|]. split; [exact Hr|].
  change (jobs (w_st w1) = [] ++ new) in Hj. rewrite Hj. by apply Forall_forall.
Defined.

Lemma w1_sound : healthy w1 ∧ synced (engine_view (w_st w1)).
Proof.
  pose proof (run_ops_inv (Esc := noopEscalator) (Sup := noopSuppressor) true true
    [OpEvent (loop "warning" false)] w0 (synced_inv _ w0_synced)) as Hs.
  exact (so_sync _ _ Hs w0_healthy w0_synced).
Qed.

Lemma recovery_resolves_witness :
  healthy w1 ∧ ∃ row, al_Status row = StatusResolved ∧
    select_id "id2" (db_alerts (w_st (processEvent true true (Esc := noopEscalator)
      (Sup := noopSuppressor) (loop "info" true) w1).2)) = Some row.
Proof.
  split; [exact (proj1 w1_sound)|].
  destruct (activeAlerts (w_st w1) !! event_key (loop "info" true)) as [a|] eqn:Ha;
    [|vm_compute in Ha; discriminate Ha].
  assert (al_ID a = "id2") as Hid by (vm_compute in Ha; injection Ha as <-; reflexivity).
  destruct (recovery_resolves (Esc := noopEscalator) (Sup := noopSuppressor) true true
    (loop "info" true) a w1 (proj1 w1_sound) (proj2 w1_sound) eq_refl Ha)
    as (r & row & _ & _ & _ & _ & H & _).
  rewrite Hid in H. eexists. split; [|exact H]. reflexivity.
Defined.

Definition acked_world : world alerting :=
  (Acknowledge true (Esc := noopEscalator) "id2" "alice" w1).2.

Lemma acknowledge_spec_witness :
  ∃ row, select_id "id2" (db_alerts (w_st acked_world)) = Some row ∧ al_AcknowledgedBy row = "alice".
Proof.
  assert (NoDup (table_ids (db_alerts (w_st w1)))) as H by exact (ei_ids _ (synced_inv _ (proj2 w1_sound))).
  pose proof (acknowledge_spec (Esc := noopEscalator) true "id2" "alice" w1 H) as Hack.
  unfold wp in Hack.
  destruct (Acknowledge true (Esc := noopEscalator) "id2" "alice" w1).1 as [a|e] eqn:E;
    [|vm_compute in E; discriminate E].
  destruct Hack as (row & _ & _ & _ & Hby & _ & Hrow & _). exists a. split; [exact Hrow|exact Hby].
Defined.

Lemma acknowledgement_permanent_witness :
  acknowledged (w_st acked_world) "id2" (1700000000 * second) "alice" ∧
  acknowledged (w_st (run_ops true true (Esc := noopEscalator) (Sup := noopSuppressor)
    [OpEvent (loop "critical" false); OpEvent (loop "info" true)] acked_world))
    "id2" (1700000000 * second) "alice".
Proof.
  assert (acknowledged (w_st acked_world) "id2" (1700000000 * second) "alice") as H.
  { unfold acknowledged. eexists. split; [vm_compute; reflexivity|]. split; reflexivity. }
  split; [exact H|].
  refine (acknowledgement_permanent (Esc := noopEscalator) (Sup := noopSuppressor) true true _
    acked_world _ _ _ _ H).
  intros before Hin. apply elem_of_cons in Hin as [Hin|Hin]; [discriminate Hin|].
  apply elem_of_cons in Hin as [Hin|Hin]; [discriminate Hin|]. by apply elem_of_nil in Hin.
Defined.
