(* ===== verification/GoTime.v ===== *)
(** * Durations and the formatting of times

    [time.Duration(n) * time.Second] on 64 bits, and
    [t.UTC().Format(time.RFC3339)]: the civil date of a number of seconds since
    the Unix epoch, in the proleptic Gregorian calendar. *)

From S2P Require Import Prelude.
From S2P Require Import GoStrings.
From Stdlib Require Import Ascii.

#[local] Open Scope string_scope.
#[local] Open Scope Z_scope.

(** [time.Duration(n) * time.Second]. *)
Definition seconds (n : Z) : Z := wrap64 (n * second).

(** A delay of at most ten years does not overflow. *)
Lemma seconds_small n : 0 ≤ n ≤ 315360000 → seconds n = n * second.
Proof. intros. unfold seconds. apply wrap64_id. unfold min_int64, max_int64, second. lia. Qed.

Lemma unix_db_add t n : unix (db_time (t + n * second)) = unix t + n.
Proof. by autorewrite with gotime. Qed.

(** The date of a day counted from 1970-01-01: year, month, day. *)
Definition civil_from_days (days : Z) : Z * Z * Z :=
  let z := days + 719468 in
  let era := z / 146097 in
  let doe := z `mod` 146097 in
  let yoe := (doe - doe / 1460 + doe / 36524 - doe / 146096) / 365 in
  let doy := doe - (365 * yoe + yoe / 4 - yoe / 100) in
  let mp := (5 * doy + 2) / 153 in
  let d := doy - (153 * mp + 2) / 5 + 1 in
  let m := if bool_decide (mp < 10) then mp + 3 else mp - 9 in
  let y := yoe + era * 400 + (if bool_decide (m ≤ 2) then 1 else 0) in
  (y, m, d).

(** A number padded with zeros. *)
Definition pad (width : nat) (n : Z) : string :=
  let s := fmt_d n in
  (of_bytes (replicate (width - length (to_bytes s)) "0"%char) +:+ s)%string.

Definition format_rfc3339 (t : Z) : string :=
  let secs := unix t in
  let '(y, m, d) := civil_from_days (secs / 86400) in
  let r := secs `mod` 86400 in
  pad 4 y +:+ "-" +:+ pad 2 m +:+ "-" +:+ pad 2 d +:+ "T"
  +:+ pad 2 (r / 3600) +:+ ":" +:+ pad 2 ((r / 60) `mod` 60) +:+ ":" +:+ pad 2 (r `mod` 60) +:+ "Z".

Example format_epoch : format_rfc3339 0 = "1970-01-01T00:00:00Z".
Proof. reflexivity. Qed.

Example format_2023 : format_rfc3339 (1700000000 * second) = "2023-11-14T22:13:20Z".
Proof. vm_compute. reflexivity. Qed.

Example format_leap_day : format_rfc3339 (951782400 * second) = "2000-02-29T00:00:00Z".
Proof. vm_compute. reflexivity. Qed.
