(* ===== verification/EscalationStore.v ===== *)
(** * Store of the escalation engine

    [src/internal/store/escalation.go]: policies, runs and deliveries.  The
    unique index on (run, level, channel) makes a second reservation of a slot
    fail with [ErrDeliveryDuplicate]; deleting a policy detaches its runs
    ([ON DELETE SET NULL]) and purging a run deletes its deliveries ([ON DELETE
    CASCADE]). *)

From S2P Require Import Prelude.
From S2P Require Import Tables.
From S2P Require Import GoStrings.
From S2P Require Import AlertModel.
From S2P Require Import AlertStore.

#[local] Open Scope string_scope.
#[local] Open Scope list_scope.
#[local] Open Scope Z_scope.

Definition ErrDeliveryDuplicate := ESentinel "delivery_duplicate".

(** [status IN ('active','paused_by_maintenance')]. *)
Definition running (r : Run) : bool :=
  bool_decide (ru_Status r = RunStatusActive) ||
  bool_decide (ru_Status r = RunStatusPausedByMaintenance).

(** ** escalation_policies *)

Definition policy_row (p : Policy) : Policy :=
  p <| po_CreatedAt ::= db_time |> <| po_UpdatedAt := db_time (po_CreatedAt p) |>.

Definition InsertPolicy (p : Policy) : M alerting (result Policy) :=
  let! id := new_uid in
  let! created := (if is_zero (po_CreatedAt p) then now else ret (po_CreatedAt p)) in
  let p := p <| po_ID := id |> <| po_CreatedAt := created |> in
  do? db_insert db_policies (λ t s, s <| db_policies := t |>) (policy_row p) in
  ret (Ok p).

Definition UpdatePolicy_store (p : Policy) : M alerting (result unit) :=
  let! t := now in
  db_exec (λ s, s <| db_policies ::= update_id (po_ID p) (λ r,
    r <| po_Name := po_Name p |> <| po_Active := po_Active p |>
      <| po_ActiveBeforeDowngrade := po_ActiveBeforeDowngrade p |>
      <| po_Filters := po_Filters p |> <| po_Levels := po_Levels p |>
      <| po_UpdatedAt := db_time t |>) |>).

Definition SelectPolicy (id : string) : M alerting (result (option Policy)) :=
  db_query (λ s, select_id id (db_policies s)).

Definition SelectPolicies (activeOnly : bool) : M alerting (result (list Policy)) :=
  db_query (λ s, order_by_id
    (select_where (λ p, negb activeOnly || po_Active p) (db_policies s))).

Definition stop_run (status : string) (endedAt : Z) (r : Run) : Run :=
  r <| ru_Status := status |> <| ru_EndedAt := Some (db_time endedAt) |>
    <| ru_NextActionAt := None |>.

(** [WHERE policy_id = ? AND status IN (...)]. *)
Definition running_for_policy (policyID : string) (r : Run) : bool :=
  bool_decide (ru_PolicyID r = Some policyID) && running r.

Definition StopPolicyRuns (policyID stopStatus : string) (endedAt : Z)
    : M alerting (result unit) :=
  db_exec (λ s, s <| db_runs ::=
    update_where (running_for_policy policyID) (stop_run stopStatus endedAt) |>).

Definition DeletePolicy_store (id : string) : M alerting (result unit) :=
  let! t := now in
  do? StopPolicyRuns id RunStatusStoppedByPolicyDelete t in
  db_exec (λ s, s <| db_policies ::= delete_where (λ p, bool_decide (po_ID p = id)) |>
    <| db_runs ::= update_where (λ r, bool_decide (ru_PolicyID r = Some id))
         (λ r, r <| ru_PolicyID := None |>) |>).

Definition CountActivePolicies : M alerting (result Z) :=
  db_query (λ s, Z.of_nat (length (select_where po_Active (db_policies s)))).

Definition BulkDeactivateAllPolicies : M alerting (result unit) :=
  db_exec (λ s, s <| db_policies ::= update_where po_Active (λ p,
    p <| po_ActiveBeforeDowngrade := po_Active p |> <| po_Active := false |>) |>).

Definition BulkRestorePoliciesFromDowngrade : M alerting (result unit) :=
  db_exec (λ s, s <| db_policies ::= update_where po_ActiveBeforeDowngrade (λ p,
    p <| po_Active := true |> <| po_ActiveBeforeDowngrade := false |>) |>).

(** ** escalation_runs *)

Definition SelectRun (id : string) : M alerting (result (option Run)) :=
  db_query (λ s, select_id id (db_runs s)).

Definition SelectRunsByAlert (alertID : string) : M alerting (result (list Run)) :=
  db_query (λ s, order_by (λ r, - unix (ru_StartedAt r))
    (select_where (λ r, bool_decide (ru_AlertID r = alertID)) (db_runs s))).

Definition BulkStopActiveRuns (stopStatus : string) (endedAt : Z) : M alerting (result unit) :=
  db_exec (λ s, s <| db_runs ::= update_where running (stop_run stopStatus endedAt) |>).

(** The columns [InsertRun] writes: [ended_at] is left NULL. *)
Definition run_row (r : Run) : Run :=
  r <| ru_StartedAt ::= db_time |> <| ru_NextActionAt := db_time <$> ru_NextActionAt r |>
    <| ru_EndedAt := None |>.

Definition InsertRun (r : Run) : M alerting (result Run) :=
  let! id := new_uid in
  let r := r <| ru_ID := id |> in
  do? db_insert db_runs (λ t s, s <| db_runs := t |>) (run_row r) in
  ret (Ok r).

Definition UpdateRunProgress (runID : string) (lastExecutedLevelIndex : Z)
    (nextActionAt : option Z) (status : string) : M alerting (result unit) :=
  db_exec (λ s, s <| db_runs ::= update_id runID (λ r,
    r <| ru_LastExecutedLevelIndex := lastExecutedLevelIndex |>
      <| ru_NextActionAt := db_time <$> nextActionAt |> <| ru_Status := status |>) |>).

Definition TerminateRun (runID status : string) (endedAt : Z) : M alerting (result unit) :=
  db_exec (λ s, s <| db_runs ::= update_id runID (stop_run status endedAt) |>).

Definition active_run_of (alertID : string) (r : Run) : bool :=
  bool_decide (ru_AlertID r = alertID) && running r.

Definition SelectActiveRunsByAlert (alertID : string) : M alerting (result (list Run)) :=
  db_query (λ s, order_by_id (select_where (active_run_of alertID) (db_runs s))).

(** [next_action_at IS NOT NULL AND next_action_at <= ?], on a running run. *)
Definition due (now_unix : Z) (r : Run) : bool :=
  running r &&
  match ru_NextActionAt r with
  | Some t => bool_decide (unix t ≤ now_unix)%Z
  | None => false
  end.

Definition SelectDueRuns (t : Z) : M alerting (result (list Run)) :=
  db_query (λ s, order_by (λ r, default 0 (unix <$> ru_NextActionAt r))
    (select_where (due (unix t)) (db_runs s))).

(** [WHERE id = ? AND status IN ('active','paused_by_maintenance')]. *)
Definition PauseRunForMaintenance (runID : string) (recheckAt : Z) : M alerting (result unit) :=
  db_exec (λ s, s <| db_runs ::=
    update_where (λ r, bool_decide (ru_ID r = runID) && running r) (λ r,
      r <| ru_Status := RunStatusPausedByMaintenance |>
        <| ru_NextActionAt := Some (db_time recheckAt) |>) |>).

Definition ResumeRunFromMaintenance (runID : string) (nextActionAt : Z)
    : M alerting (result unit) :=
  db_exec (λ s, s <| db_runs ::=
    update_where (λ r, bool_decide (ru_ID r = runID)
        && bool_decide (ru_Status r = RunStatusPausedByMaintenance)) (λ r,
      r <| ru_Status := RunStatusActive |>
        <| ru_NextActionAt := Some (db_time nextActionAt) |>) |>).

(** [ended_at IS NOT NULL AND ended_at < ?]. *)
Definition ended_before (cutoff : Z) (r : Run) : bool :=
  match ru_EndedAt r with
  | Some t => bool_decide (unix t < cutoff)
  | None => false
  end.

(** One [DELETE ... LIMIT 1000] and its cascade: the number of rows deleted. *)
Definition purge_batch (cutoff : Z) : M alerting (result nat) :=
  let! ids := gets (λ s, take 1000 (table_ids (select_where (ended_before cutoff) (db_runs s)))) in
  do? db_exec (λ s, s
    <| db_runs ::= delete_where (λ r, bool_decide (ru_ID r ∈ ids)) |>
    <| db_esc_deliveries ::= delete_where (λ d, bool_decide (de_RunID d ∈ ids)) |>) in
  ret (Ok (length ids)).

(** The loop runs until a batch deletes nothing; a batch deletes a row or is the
    last, so the number of runs bounds the rounds. *)
Fixpoint purge_loop (fuel : nat) (cutoff : Z) : M alerting (result unit) :=
  let? n := purge_batch cutoff in
  match n, fuel with
  | O, _ => ret (Ok tt)
  | _, O => ret (Err EStore)
  | _, S fuel => purge_loop fuel cutoff
  end.

Definition PurgeRunsAndDeliveriesOlderThan (before : Z) : M alerting (result unit) :=
  let! rounds := gets (λ s, length (db_runs s)) in
  purge_loop rounds (unix before).

(** ** escalation_deliveries *)

Definition SelectRunDeliveries (runID : string) : M alerting (result (list Delivery)) :=
  db_query (λ s, order_by_id
    (select_where (λ d, bool_decide (de_RunID d = runID)) (db_esc_deliveries s))).

(** The unique index: a NULL channel conflicts with nothing. *)
Definition same_slot (d d' : Delivery) : bool :=
  bool_decide (de_RunID d = de_RunID d') && bool_decide (de_LevelIndex d = de_LevelIndex d')
  && bool_decide (de_ChannelID d = de_ChannelID d') && bool_decide (de_ChannelID d ≠ None).

Definition delivery_row (d : Delivery) : Delivery :=
  d <| de_AttemptStartedAt ::= db_time |> <| de_SentAt := db_time <$> de_SentAt d |>.

Definition InsertDelivery (d : Delivery) : M alerting (result Delivery) :=
  let! id := new_uid in
  let d := d <| de_ID := id |> in
  let! taken := gets (λ s, existsb (same_slot d) (db_esc_deliveries s)) in
  if taken then
    let! failed := fault in
    ret (Err (if failed then EStore else ErrDeliveryDuplicate))
  else
    do? db_insert db_esc_deliveries (λ t s, s <| db_esc_deliveries := t |>) (delivery_row d) in
    ret (Ok d).

Definition UpdateDelivery (d : Delivery) : M alerting (result unit) :=
  db_exec (λ s, s <| db_esc_deliveries ::= update_id (de_ID d) (λ r,
    r <| de_Status := de_Status d |> <| de_Error := de_Error d |>
      <| de_SentAt := db_time <$> de_SentAt d |>) |>).

Definition orphan (before_unix : Z) (d : Delivery) : bool :=
  bool_decide (de_Status d = DeliveryStatusPending)
  && bool_decide (unix (de_AttemptStartedAt d) < before_unix).

Definition SelectOrphanPendingDeliveries (before : Z) : M alerting (result (list Delivery)) :=
  db_query (λ s, order_by (λ d, unix (de_AttemptStartedAt d))
    (select_where (orphan (unix before)) (db_esc_deliveries s))).

(** ** Lemmas *)

Lemma running_spec r :
  running r = true ↔ ru_Status r = RunStatusActive ∨ ru_Status r = RunStatusPausedByMaintenance.
Proof. unfold running. by rewrite orb_true_iff, !bool_decide_eq_true. Qed.

Lemma due_spec n r :
  due n r = true ↔ running r = true ∧ ∃ t, ru_NextActionAt r = Some t ∧ (unix t ≤ n)%Z.
Proof.
  unfold due. rewrite andb_true_iff. destruct (ru_NextActionAt r) as [t|]; [|naive_solver].
  rewrite bool_decide_eq_true. naive_solver.
Qed.

Lemma stop_run_not_running status t r :
  status ≠ RunStatusActive → status ≠ RunStatusPausedByMaintenance →
  running (stop_run status t r) = false.
Proof. intros. unfold running. cbn. by rewrite !bool_decide_false. Qed.

Lemma same_slot_spec d d' :
  same_slot d d' = true ↔ de_RunID d = de_RunID d' ∧ de_LevelIndex d = de_LevelIndex d'
    ∧ de_ChannelID d = de_ChannelID d' ∧ de_ChannelID d ≠ None.
Proof. unfold same_slot. rewrite !andb_true_iff, !bool_decide_eq_true. tauto. Qed.
