(* ===== verification/EscalationPolicy.v ===== *)
(** * Escalation policies

    [src/internal/commercial/escalation/service.go] and [overlap.go]: the
    validation and the life of a policy (create, update, switch, delete, the
    bulk deactivation of a downgrade and its undoing), the matching of an alert
    by a policy ([matchPolicyFilters] of [runner.go]), and the overlap warnings
    between two policies. *)

From S2P Require Import Prelude.
From S2P Require Import Tables.
From S2P Require Import GoStrings.
From S2P Require Import AlertModel.
From S2P Require Import AlertStore.
From S2P Require Import EscalationStore.

#[local] Open Scope string_scope.
#[local] Open Scope list_scope.
#[local] Open Scope Z_scope.

Definition ErrValidationFailed := ESentinel "validation_failed".
Definition ErrPolicyNotFound := ESentinel "policy_not_found".
Definition ErrRunNotFound := ESentinel "run_not_found".

Definition MaxLevels : nat := 5.

Record LevelReq := MkLevelReq { lr_DelaySeconds : Z; lr_ChannelIDs : list string }.

Record PolicyRequest := MkPolicyRequest {
  pr_Name : string;
  pr_Active : bool;
  pr_Filters : Filters;
  pr_Levels : list LevelReq;
}.

Record Limits := MkLimits { li_MaxActive : Z; li_MaxLevels : Z; li_CurrentActive : Z }.

(** ** Validation *)

(** The loop over the levels; [prev] is the delay of the level before. *)
Fixpoint validate_levels (prev : option Z) (levels : list LevelReq) : bool :=
  match levels with
  | [] => true
  | lvl :: levels =>
    if bool_decide (lr_DelaySeconds lvl < 60)%Z || bool_decide (86400 < lr_DelaySeconds lvl)%Z
    then false
    else if bool_decide (lr_ChannelIDs lvl = []) then false
    else if match prev with
            | Some d => bool_decide (lr_DelaySeconds lvl - d < 60)%Z
            | None => false
            end then false
    else validate_levels (Some (lr_DelaySeconds lvl)) levels
  end.

Definition validateRequest (req : PolicyRequest) : result unit :=
  if bool_decide (pr_Name req = "") then Err ErrValidationFailed
  else if bool_decide (120 < length (to_bytes (pr_Name req)))%nat then Err ErrValidationFailed
  else if bool_decide (length (pr_Levels req) < 1)%nat then Err ErrValidationFailed
  else if bool_decide (MaxLevels < length (pr_Levels req))%nat then Err ErrValidationFailed
  else if validate_levels None (pr_Levels req) then Ok tt
  else Err ErrValidationFailed.

(** The levels of a request, with the order the service assigns. *)
Definition request_levels (levels : list LevelReq) : list Level :=
  imap (λ i lvl, MkLevel (Z.of_nat i) (lr_DelaySeconds lvl) (lr_ChannelIDs lvl)) levels.

(** ** The service *)

Definition CreatePolicy (req : PolicyRequest) : M alerting (result Policy) :=
  match validateRequest req with
  | Err e => ret (Err e)
  | Ok _ =>
    let! t := now in
    InsertPolicy (MkPolicy "" (pr_Name req) (pr_Active req) false (pr_Filters req)
      (request_levels (pr_Levels req)) t t)
  end.

Definition GetPolicy (id : string) : M alerting (result Policy) :=
  let? p := SelectPolicy id in
  match p with
  | None => ret (Err ErrPolicyNotFound)
  | Some p => ret (Ok p)
  end.

Definition ListPolicies (activeOnly : bool) : M alerting (result (list Policy)) :=
  SelectPolicies activeOnly.

Definition DeletePolicy (id : string) : M alerting (result unit) :=
  let? p := SelectPolicy id in
  match p with
  | None => ret (Err ErrPolicyNotFound)
  | Some _ => DeletePolicy_store id
  end.

Definition stopDisabledPolicyRuns (id : string) : M alerting (result unit) :=
  let! t := now in
  StopPolicyRuns id RunStatusStoppedByPolicyDisabled t.

Definition UpdatePolicy (id : string) (req : PolicyRequest) : M alerting (result Policy) :=
  let? found := SelectPolicy id in
  match found with
  | None => ret (Err ErrPolicyNotFound)
  | Some existing =>
    match validateRequest req with
    | Err e => ret (Err e)
    | Ok _ =>
      let wasActive := po_Active existing in
      let! t := now in
      let existing := existing <| po_Name := pr_Name req |> <| po_Active := pr_Active req |>
        <| po_Filters := pr_Filters req |> <| po_Levels := request_levels (pr_Levels req) |>
        <| po_UpdatedAt := t |> in
      do? UpdatePolicy_store existing in
      if wasActive && negb (po_Active existing) then
        do? stopDisabledPolicyRuns id in
        ret (Ok existing)
      else ret (Ok existing)
    end
  end.

Definition SetPolicyActive (id : string) (active : bool) : M alerting (result Policy) :=
  let? found := SelectPolicy id in
  match found with
  | None => ret (Err ErrPolicyNotFound)
  | Some existing =>
    let wasActive := po_Active existing in
    let! t := now in
    let existing := existing <| po_Active := active |> <| po_UpdatedAt := t |> in
    do? UpdatePolicy_store existing in
    if wasActive && negb active then
      do? stopDisabledPolicyRuns id in
      ret (Ok existing)
    else ret (Ok existing)
  end.

Definition OnEditionDowngraded : M alerting (result unit) :=
  do? BulkDeactivateAllPolicies in
  let! t := now in
  BulkStopActiveRuns RunStatusStoppedByDowngrade t.

Definition OnEditionUpgraded : M alerting (result unit) :=
  BulkRestorePoliciesFromDowngrade.

Definition GetPlanLimits : M alerting (result Limits) :=
  let? current := CountActivePolicies in
  ret (Ok (MkLimits (-1) (Z.of_nat MaxLevels) current)).

Definition ListRunsForAlert (alertID : string) : M alerting (result (list Run)) :=
  SelectRunsByAlert alertID.

(** ** Matching *)

#[export] Instance Scope_eq_dec : EqDecision Scope.
Proof. solve_decision. Defined.

Definition has_scope (scopes : list Scope) (kind refID : string) : bool :=
  existsb (λ sc, bool_decide (sc_Kind sc = kind) && bool_decide (sc_RefID sc = refID)) scopes.

Definition matchPolicyFilters (a : Alert) (p : Policy) : bool :=
  if negb (bool_decide (fi_Severities (po_Filters p) = []))
     && negb (bool_decide (al_Severity a ∈ fi_Severities (po_Filters p))) then false
  else if negb (bool_decide (fi_Scopes (po_Filters p) = []))
       && negb (has_scope (fi_Scopes (po_Filters p)) (al_EntityType a) (al_EntityID a)) then false
  else true.

(** ** Overlap *)

Definition setsIntersect (a b : list string) : bool :=
  if bool_decide (a = []) || bool_decide (b = []) then true
  else existsb (λ av, bool_decide (av ∈ b)) a.

Definition scopeSetsIntersect (a b : list Scope) : bool :=
  if bool_decide (a = []) || bool_decide (b = []) then true
  else existsb (λ av, has_scope b (sc_Kind av) (sc_RefID av)) a.

Definition filtersIntersect (a b : Filters) : bool :=
  setsIntersect (fi_Severities a) (fi_Severities b)
  && scopeSetsIntersect (fi_Scopes a) (fi_Scopes b).

Definition channel_ids (p : Policy) : list string := concat (lv_ChannelIDs <$> po_Levels p).

(** The inner loops over the levels of [b], with [seen] and [shared]. *)
Definition shared_step (aChans : gset string) (acc : gset string * list string) (id : string)
    : gset string * list string :=
  let '(seen, shared) := acc in
  if bool_decide (id ∈ aChans) then
    if bool_decide (id ∈ seen) then (seen, shared) else ({[id]} ∪ seen, shared ++ [id])
  else (seen, shared).

Definition sharedChannels (a b : Policy) : list string :=
  let aChans := foldl (λ s id, {[id]} ∪ s) (∅ : gset string) (channel_ids a) in
  (foldl (shared_step aChans) (∅, []) (channel_ids b)).2.

Definition filterIntersectionDescription (a b : Filters) : string :=
  let parts :=
    (if negb (bool_decide (fi_Severities a = [])) && negb (bool_decide (fi_Severities b = []))
     then ["severities"]
     else if bool_decide (fi_Severities a = []) || bool_decide (fi_Severities b = [])
     then ["all severities"] else [])
    ++ (if negb (bool_decide (fi_Scopes a = [])) || negb (bool_decide (fi_Scopes b = []))
        then ["scopes"] else []) in
  if bool_decide (parts = []) then "all" else Join parts " + ".

Record OverlapWarning := MkOverlap {
  ow_PolicyID : string;
  ow_PolicyName : string;
  ow_SharedChannels : list string;
  ow_FilterIntersection : string;
}.

(** One round of the loop over the existing policies. *)
Definition overlap_with (candidate p : Policy) : list OverlapWarning :=
  if negb (bool_decide (po_ID candidate = "")) && bool_decide (po_ID p = po_ID candidate) then []
  else if negb (filtersIntersect (po_Filters candidate) (po_Filters p)) then []
  else
    let shared := sharedChannels candidate p in
    if bool_decide (shared = []) then []
    else [MkOverlap (po_ID p) (po_Name p) shared
            (filterIntersectionDescription (po_Filters candidate) (po_Filters p))].

Definition DetectOverlap (candidate : Policy) (existing : list Policy) : list OverlapWarning :=
  flat_map (overlap_with candidate) existing.

(** ** Lemmas *)

(** What [validate_levels] accepts: each level is in range, names a channel, and
    comes at least a minute after the one before. *)
Fixpoint levels_ok (prev : option Z) (levels : list (Z * list string)) : Prop :=
  match levels with
  | [] => True
  | (d, chs) :: levels =>
    60 ≤ d ≤ 86400 ∧ chs ≠ [] ∧ (∀ d0, prev = Some d0 → d0 + 60 ≤ d) ∧ levels_ok (Some d) levels
  end.

Lemma validate_levels_spec prev levels :
  validate_levels prev levels = true ↔
  levels_ok prev ((λ l, (lr_DelaySeconds l, lr_ChannelIDs l)) <$> levels).
Proof.
  revert prev. induction levels as [|l levels IH]; intros prev; [done|].
  cbn [validate_levels levels_ok fmap list_fmap]. rewrite <- IH. clear IH.
  destruct (bool_decide_reflect (lr_DelaySeconds l < 60)%Z); cbn [orb]; [split; [done|lia]|].
  destruct (bool_decide_reflect (86400 < lr_DelaySeconds l)%Z); [split; [done|lia]|].
  destruct (bool_decide_reflect (lr_ChannelIDs l = [])); [split; [done|tauto]|].
  destruct prev as [d|].
  - destruct (bool_decide_reflect (lr_DelaySeconds l - d < 60)%Z) as [Hd|Hd].
    + split; [done|]. intros (_ & _ & H & _). specialize (H d eq_refl). lia.
    + split; [|tauto]. intros H. split_and!; [lia..|done| |done]. intros d0 [= <-]. lia.
  - split; [|tauto]. intros H. by split_and!; [lia..|done| |done].
Qed.

Lemma request_levels_view levels :
  (λ l, (lv_DelaySeconds l, lv_ChannelIDs l)) <$> request_levels levels
  = (λ l, (lr_DelaySeconds l, lr_ChannelIDs l)) <$> levels.
Proof.
  unfold request_levels. rewrite fmap_imap.
  exact (imap_const (λ l, (lr_DelaySeconds l, lr_ChannelIDs l)) levels).
Qed.

(** A policy the runner can honour. *)
Definition policy_ok (p : Policy) : Prop :=
  po_Levels p ≠ [] ∧ (length (po_Levels p) ≤ MaxLevels)%nat ∧
  levels_ok None ((λ l, (lv_DelaySeconds l, lv_ChannelIDs l)) <$> po_Levels p).

Lemma validateRequest_levels req :
  validateRequest req = Ok tt →
  request_levels (pr_Levels req) ≠ [] ∧ (length (request_levels (pr_Levels req)) ≤ MaxLevels)%nat ∧
  levels_ok None ((λ l, (lv_DelaySeconds l, lv_ChannelIDs l)) <$> request_levels (pr_Levels req)).
Proof.
  unfold validateRequest. repeat case_bool_decide; try done.
  destruct (validate_levels None (pr_Levels req)) eqn:E; [|done]. intros _.
  rewrite request_levels_view. apply validate_levels_spec in E. unfold request_levels.
  rewrite length_imap. split_and!; [|lia|done].
  intros Hn. apply (f_equal length) in Hn. rewrite length_imap in Hn. cbn in Hn. lia.
Qed.

(** The delays of an accepted policy are in range and increasing. *)
Lemma levels_ok_lookup prev levels i d chs :
  levels_ok prev levels → levels !! i = Some (d, chs) → 60 ≤ d ≤ 86400 ∧ chs ≠ [].
Proof.
  revert prev i. induction levels as [|[d0 chs0] levels IH]; intros prev [|i]; cbn; try done.
  - intros (Hd & Hc & _) [= <- <-]. done.
  - intros (_ & _ & _ & Hl). by eapply IH.
Qed.

Lemma levels_ok_gap prev levels i d1 c1 d2 c2 :
  levels_ok prev levels → levels !! i = Some (d1, c1) → levels !! S i = Some (d2, c2) →
  d1 + 60 ≤ d2.
Proof.
  revert prev i. induction levels as [|[d0 chs0] levels IH]; intros prev [|i]; try done.
  - destruct levels as [|[d chs] levels]; [done|].
    cbn. intros (_ & _ & _ & _ & _ & Hg & _) [= -> _] [= <- _]. by apply Hg.
  - intros (_ & _ & _ & Hl). cbn [lookup list_lookup]. by eapply IH.
Qed.

Lemma has_scope_spec scopes kind refID :
  has_scope scopes kind refID = true ↔ MkScope kind refID ∈ scopes.
Proof.
  unfold has_scope. rewrite existsb_exists. split.
  - intros ([k r] & Hin & Heq). apply andb_true_iff in Heq as [?%bool_decide_eq_true ?%bool_decide_eq_true].
    cbn in *. subst. by apply list_elem_of_In.
  - intros Hin%list_elem_of_In. eexists. split; [exact Hin|]. cbn. by rewrite !bool_decide_true.
Qed.

(** [x] passes a filter: an empty filter is the universe. *)
Definition passes {A} (x : A) (l : list A) : Prop := l = [] ∨ x ∈ l.

Lemma matchPolicyFilters_spec a p :
  matchPolicyFilters a p = true ↔
  passes (al_Severity a) (fi_Severities (po_Filters p))
  ∧ passes (MkScope (al_EntityType a) (al_EntityID a)) (fi_Scopes (po_Filters p)).
Proof.
  unfold matchPolicyFilters, passes.
  destruct (bool_decide_reflect (fi_Severities (po_Filters p) = [])) as [->|H1]; cbn [negb andb];
    [|destruct (bool_decide_reflect (al_Severity a ∈ fi_Severities (po_Filters p))) as [Hs|Hs]; cbn [negb]];
    (destruct (bool_decide_reflect (fi_Scopes (po_Filters p) = [])) as [->|H2]; cbn [negb andb];
     [|pose proof (has_scope_spec (fi_Scopes (po_Filters p)) (al_EntityType a) (al_EntityID a)) as Hsc;
       destruct (has_scope _ _ _); cbn [negb]]); naive_solver.
Qed.

Lemma setsIntersect_spec a b :
  setsIntersect a b = true ↔ ∃ x, passes x a ∧ passes x b.
Proof.
  unfold setsIntersect, passes.
  destruct (bool_decide_reflect (a = [])) as [->|Ha]; cbn [orb].
  { split; [|done]. intros _. destruct b as [|x b]; [by exists ""; auto|]. exists x.
    split; [by left|right; left]. }
  destruct (bool_decide_reflect (b = [])) as [->|Hb]; cbn [orb].
  { split; [|done]. intros _. destruct a as [|x a]; [done|]. exists x.
    split; [right; left|by left]. }
  rewrite existsb_exists. split.
  - intros (x & Hx%list_elem_of_In & Hb'%bool_decide_eq_true). eauto.
  - intros (x & [?|Hx%list_elem_of_In] & [?|Hb']); try done. exists x. by rewrite bool_decide_true.
Qed.

Lemma scopeSetsIntersect_spec a b :
  scopeSetsIntersect a b = true ↔ ∃ x, passes x a ∧ passes x b.
Proof.
  unfold scopeSetsIntersect, passes.
  destruct (bool_decide_reflect (a = [])) as [->|Ha]; cbn [orb].
  { split; [|done]. intros _. destruct b as [|x b]; [by exists (MkScope "" ""); auto|]. exists x.
    split; [by left|right; left]. }
  destruct (bool_decide_reflect (b = [])) as [->|Hb]; cbn [orb].
  { split; [|done]. intros _. destruct a as [|x a]; [done|]. exists x.
    split; [right; left|by left]. }
  rewrite existsb_exists. split.
  - intros ([k r] & Hx%list_elem_of_In & Hb'%has_scope_spec). cbn in Hb'. eauto.
  - intros ([k r] & [?|Hx%list_elem_of_In] & [?|Hb']); try done. exists (MkScope k r).
    by rewrite has_scope_spec.
Qed.

Lemma foldl_union_elem (l : list string) (s : gset string) x :
  x ∈ foldl (λ s id, {[id]} ∪ s) s l ↔ x ∈ s ∨ x ∈ l.
Proof.
  revert s. induction l as [|y l IH]; intros s; cbn; [set_solver|]. rewrite IH. set_solver.
Qed.

Lemma shared_step_spec aChans l seen shared :
  NoDup shared → (∀ x, x ∈ seen ↔ x ∈ shared) →
  let shared' := (foldl (shared_step aChans) (seen, shared) l).2 in
  NoDup shared' ∧ ∀ x, x ∈ shared' ↔ x ∈ shared ∨ (x ∈ aChans ∧ x ∈ l).
Proof.
  revert seen shared. induction l as [|y l IH]; intros seen shared Hnd Hseen; cbn [foldl].
  { split; [done|]. set_solver. }
  cbn [shared_step]. case_bool_decide as Ha; [case_bool_decide as Hs|].
  - destruct (IH seen shared Hnd Hseen) as [H1 H2]. split; [done|]. set_solver.
  - destruct (IH ({[y]} ∪ seen) (shared ++ [y])) as [H1 H2]; [|set_solver|].
    { apply NoDup_app. split_and!; [done|set_solver|apply NoDup_singleton]. }
    split; [done|]. intros x. rewrite H2. set_solver.
  - destruct (IH seen shared Hnd Hseen) as [H1 H2]. split; [done|]. set_solver.
Qed.

Lemma sharedChannels_spec a b :
  NoDup (sharedChannels a b) ∧
  ∀ x, x ∈ sharedChannels a b ↔ x ∈ channel_ids a ∧ x ∈ channel_ids b.
Proof.
  unfold sharedChannels.
  destruct (shared_step_spec (foldl (λ s id, {[id]} ∪ s) ∅ (channel_ids a)) (channel_ids b) ∅ [])
    as [H1 H2]; [constructor|set_solver|].
  split; [done|]. intros x. rewrite H2, foldl_union_elem. set_solver.
Qed.

Lemma levels_ok_iff prev levels :
  levels_ok prev ((λ l, (lr_DelaySeconds l, lr_ChannelIDs l)) <$> levels) ↔
  (∀ i l, levels !! i = Some l → 60 ≤ lr_DelaySeconds l ≤ 86400 ∧ lr_ChannelIDs l ≠ [])
  ∧ (∀ d l, prev = Some d → head levels = Some l → d + 60 ≤ lr_DelaySeconds l)
  ∧ (∀ i l l', levels !! i = Some l → levels !! S i = Some l' →
       lr_DelaySeconds l + 60 ≤ lr_DelaySeconds l').
Proof.
  revert prev. induction levels as [|l levels IH]; intros prev; cbn [fmap list_fmap levels_ok].
  { split; [|done]. intros _. split_and!; done. }
  rewrite IH. clear IH. split.
  - intros (Hd & Hc & Hp & Hall & Hnext & Hgap). split_and!.
    + intros [|i] l' Hl'; [by injection Hl' as <-|by eapply Hall].
    + intros d l' Hd' [= <-]. by apply Hp.
    + intros [|i] l1 l2 H1 H2; [injection H1 as <-|by eapply Hgap].
      eapply Hnext; [done|]. by rewrite head_lookup.
  - intros (Hall & Hp & Hgap). destruct (Hall 0%nat l eq_refl) as [Hd Hc].
    split_and!; [lia..|done|intros d0 Hd0; by apply (Hp d0 l)| | |].
    + intros i l' Hl'. by apply (Hall (S i)).
    + intros d l' [= <-] Hl'. apply (Hgap 0%nat l l'); [done|]. by rewrite head_lookup in Hl'.
    + intros i l1 l2 H1 H2. by apply (Hgap (S i)).
Qed.

(** Two filters intersect iff some alert passes both. *)
Lemma filtersIntersect_spec p q :
  filtersIntersect (po_Filters p) (po_Filters q) = true ↔
  ∃ a, matchPolicyFilters a p = true ∧ matchPolicyFilters a q = true.
Proof.
  unfold filtersIntersect. rewrite andb_true_iff, setsIntersect_spec, scopeSetsIntersect_spec.
  setoid_rewrite matchPolicyFilters_spec. split.
  - intros [(sev & H1 & H2) ([k r] & H3 & H4)].
    exists (MkAlert "" "" "" sev "" "" k r "" "" "" None 0 None None "" None 0). by cbn.
  - intros (a & [H1 H2] & [H3 H4]). split; eauto.
Qed.

Lemma overlap_with_spec candidate p w :
  w ∈ overlap_with candidate p ↔
  (po_ID candidate = "" ∨ po_ID p ≠ po_ID candidate)
  ∧ filtersIntersect (po_Filters candidate) (po_Filters p) = true
  ∧ sharedChannels candidate p ≠ []
  ∧ w = MkOverlap (po_ID p) (po_Name p) (sharedChannels candidate p)
          (filterIntersectionDescription (po_Filters candidate) (po_Filters p)).
Proof.
  unfold overlap_with.
  destruct (bool_decide_reflect (po_ID candidate = "")) as [He|He];
    destruct (bool_decide_reflect (po_ID p = po_ID candidate)) as [Hi|Hi]; cbn [negb andb];
    destruct (filtersIntersect _ _); cbn [negb];
    try case_bool_decide; rewrite ?elem_of_nil, ?list_elem_of_singleton; naive_solver.
Qed.

(** ** Theorems *)

(** [validateRequest] accepts exactly the requests with a name of 1 to 120
    bytes and one to five levels, each of which names a channel and waits 60 to
    86400 seconds, at least 60 more than the level before it. *)
Theorem validateRequest_spec req :
  validateRequest req = Ok tt ↔
  pr_Name req ≠ "" ∧ (length (to_bytes (pr_Name req)) ≤ 120)%nat
  ∧ (1 ≤ length (pr_Levels req) ≤ MaxLevels)%nat
  ∧ (∀ i l, pr_Levels req !! i = Some l → 60 ≤ lr_DelaySeconds l ≤ 86400 ∧ lr_ChannelIDs l ≠ [])
  ∧ (∀ i l l', pr_Levels req !! i = Some l → pr_Levels req !! S i = Some l' →
       lr_DelaySeconds l + 60 ≤ lr_DelaySeconds l').
Proof.
  pose proof (validate_levels_spec None (pr_Levels req)) as Hv. rewrite levels_ok_iff in Hv.
  unfold validateRequest.
  repeat case_bool_decide; try (split; [done|]; intros (? & ? & ? & _); (done || lia)).
  destruct (validate_levels None (pr_Levels req)).
  - destruct Hv as [Hv _]. destruct (Hv eq_refl) as (? & _ & ?). split; [|done].
    intros _. split_and!; (done || lia).
  - split; [done|]. intros (_ & _ & _ & Hall & Hgap).
    destruct Hv as [_ Hv]. discriminate Hv. by split_and!.
Qed.

(** [DetectOverlap] warns about an existing policy, other than the candidate
    itself, exactly when some alert would match both and they share a channel;
    the warning lists the shared channels, each once. *)
Theorem DetectOverlap_spec candidate existing w :
  w ∈ DetectOverlap candidate existing ↔
  ∃ p, p ∈ existing
    ∧ (po_ID candidate = "" ∨ po_ID p ≠ po_ID candidate)
    ∧ (∃ a, matchPolicyFilters a candidate = true ∧ matchPolicyFilters a p = true)
    ∧ (∃ c, c ∈ channel_ids candidate ∧ c ∈ channel_ids p)
    ∧ w = MkOverlap (po_ID p) (po_Name p) (sharedChannels candidate p)
            (filterIntersectionDescription (po_Filters candidate) (po_Filters p))
    ∧ NoDup (sharedChannels candidate p)
    ∧ ∀ c, c ∈ sharedChannels candidate p ↔ c ∈ channel_ids candidate ∧ c ∈ channel_ids p.
Proof.
  unfold DetectOverlap. rewrite list_elem_of_In, in_flat_map.
  setoid_rewrite <- list_elem_of_In. setoid_rewrite <- filtersIntersect_spec.
  assert (∀ p, sharedChannels candidate p ≠ [] ↔
    ∃ c, c ∈ channel_ids candidate ∧ c ∈ channel_ids p) as Hne.
  { intros p. setoid_rewrite <- (proj2 (sharedChannels_spec candidate p)).
    destruct (sharedChannels candidate p) as [|c l]; [|split; [|done]; exists c; left].
    split; [done|]. by intros [c ?%elem_of_nil]. }
  split.
  - intros (p & Hp & (Hid & Hf & Hs%Hne & Hw)%overlap_with_spec). exists p.
    destruct (sharedChannels_spec candidate p). done.
  - intros (p & Hp & Hid & Hf & Hs%Hne & Hw & _). exists p. split; [done|].
    by apply overlap_with_spec.
Qed.

Lemma select_id_unique {R} `{!HasId R} (t : list R) r r' :
  NoDup (table_ids t) → r ∈ t → r' ∈ t → row_id r = row_id r' → r = r'.
Proof.
  intros Hids Hr Hr' Heq. pose proof (select_id_elem _ _ Hids Hr) as H1.
  pose proof (select_id_elem _ _ Hids Hr') as H2. congruence.
Qed.

(** ** The purge *)

Definition ended_ids (cutoff : Z) (runs : list Run) : list string :=
  table_ids (select_where (ended_before cutoff) runs).

Lemma ended_ids_elem cutoff runs id :
  id ∈ ended_ids cutoff runs ↔ ∃ r, r ∈ runs ∧ ended_before cutoff r = true ∧ ru_ID r = id.
Proof.
  unfold ended_ids, table_ids. rewrite list_elem_of_fmap. setoid_rewrite select_where_elem.
  split; [intros (r & -> & ? & ?)|intros (r & ? & ? & <-)]; eauto.
Qed.

(** What a purge leaves of the runs and of their deliveries. *)
Definition purged (cutoff : Z) (s : alerting) : list Run * list Delivery :=
  (delete_where (ended_before cutoff) (db_runs s),
   delete_where (λ d, bool_decide (de_RunID d ∈ ended_ids cutoff (db_runs s))) (db_esc_deliveries s)).

Definition purge_step (ids : list string) (s : alerting) : alerting :=
  s <| db_runs ::= delete_where (λ r, bool_decide (ru_ID r ∈ ids)) |>
    <| db_esc_deliveries ::= delete_where (λ d, bool_decide (de_RunID d ∈ ids)) |>.

Lemma delete_where_comp {R} (p q p' : R → bool) (t : list R) :
  (∀ r, r ∈ t → p r || q r = p' r) → delete_where p (delete_where q t) = delete_where p' t.
Proof.
  unfold delete_where. induction t as [|r t IH]; intros H; [done|].
  assert (p r || q r = p' r) as Hr by (apply H; left).
  assert (∀ x, x ∈ t → p x || q x = p' x) as Ht by (intros x Hx; apply H; by right).
  rewrite !filter_cons. rewrite <- Hr. destruct (q r) eqn:Hq.
  - rewrite orb_true_r, (decide_False (P := true = false)) by done. by apply IH.
  - rewrite orb_false_r, (decide_True (P := false = false)) by done. rewrite filter_cons.
    destruct (p r); [rewrite !decide_False by done; by apply IH|].
    rewrite !decide_True by done. f_equal. by apply IH.
Qed.

Lemma purge_step_purged cutoff ids s :
  NoDup (table_ids (db_runs s)) → (∀ id, id ∈ ids → id ∈ ended_ids cutoff (db_runs s)) →
  purged cutoff (purge_step ids s) = purged cutoff s.
Proof.
  intros Hnd Hids.
  assert (∀ r, r ∈ db_runs s → ru_ID r ∈ ids → ended_before cutoff r = true) as Hended.
  { intros r Hr (r' & Hr' & He & Heq)%Hids%ended_ids_elem.
    by rewrite (select_id_unique _ r r' Hnd Hr Hr'). }
  unfold purged. change (db_runs (purge_step ids s)) with
    (delete_where (λ r, bool_decide (ru_ID r ∈ ids)) (db_runs s)).
  change (db_esc_deliveries (purge_step ids s)) with
    (delete_where (λ d, bool_decide (de_RunID d ∈ ids)) (db_esc_deliveries s)).
  f_equal; apply delete_where_comp.
  - intros r Hr. destruct (bool_decide_reflect (ru_ID r ∈ ids)) as [Hin|]; [|apply orb_false_r].
    rewrite (Hended r Hr Hin). done.
  - intros d _. rewrite <- bool_decide_or. apply bool_decide_ext. rewrite !ended_ids_elem. split.
    + intros [(r & [Hr _]%delete_where_elem & ?)|(r & ?)%Hids%ended_ids_elem]; eauto.
    + intros (r & Hr & He & Heq). destruct (decide (de_RunID d ∈ ids)) as [|Hnin]; [by right|left].
      exists r. split; [|done]. apply delete_where_elem. split; [done|].
      rewrite Heq. by apply bool_decide_false.
Qed.

Lemma purge_step_length cutoff ids s :
  ids ≠ [] → (∀ id, id ∈ ids → id ∈ ended_ids cutoff (db_runs s)) →
  (length (db_runs (purge_step ids s)) < length (db_runs s))%nat.
Proof.
  intros Hne Hids. destruct ids as [|id ids]; [done|].
  destruct (proj1 (ended_ids_elem cutoff (db_runs s) id)) as (r & Hr & _ & Heq); [apply Hids; left|].
  change (db_runs (purge_step (id :: ids) s)) with
    (delete_where (λ r, bool_decide (ru_ID r ∈ id :: ids)) (db_runs s)).
  apply (length_filter_lt _ _ r); [done|]. rewrite bool_decide_true; [done|]. rewrite Heq. left.
Qed.

Lemma delete_where_none {R} (p : R → bool) (t : list R) :
  (∀ r, r ∈ t → p r = false) → delete_where p t = t.
Proof. apply list_filter_all. Qed.

Lemma purged_none cutoff s :
  take 1000 (ended_ids cutoff (db_runs s)) = [] →
  purged cutoff (purge_step [] s) = (db_runs (purge_step [] s), db_esc_deliveries (purge_step [] s)).
Proof.
  intros Hnil. assert (ended_ids cutoff (db_runs s) = []) as He
    by (by destruct (ended_ids cutoff (db_runs s))).
  assert (purge_step [] s = s) as ->.
  { unfold purge_step. destruct s. cbn. by rewrite !delete_where_none by done. }
  unfold purged. rewrite He, !delete_where_none; [done| |].
  - intros d _. apply bool_decide_false, not_elem_of_nil.
  - intros r Hr. apply not_true_is_false. intros Hen.
    assert (ru_ID r ∈ ended_ids cutoff (db_runs s)) as Hin by (apply ended_ids_elem; eauto).
    rewrite He in Hin. by apply elem_of_nil in Hin.
Qed.

Lemma wp_purge_loop fuel cutoff w :
  fault_free w → NoDup (table_ids (db_runs (w_st w))) → (length (db_runs (w_st w)) ≤ fuel)%nat →
  wp (purge_loop fuel cutoff) (λ r w', r = Ok tt ∧
    (db_runs (w_st w'), db_esc_deliveries (w_st w')) = purged cutoff (w_st w)) w.
Proof.
  revert w. induction fuel as [|fuel IH]; intros w Hff Hnd Hlen; cbn [purge_loop];
    apply wp_bind, wp_bind, wp_gets;
    set (ids := take 1000 (table_ids (select_where (ended_before cutoff) (db_runs (w_st w)))));
    (assert (∀ id, id ∈ ids → id ∈ ended_ids cutoff (db_runs (w_st w))) as Hids
      by (intros id (i & ? & _)%elem_of_take; by eapply list_elem_of_lookup_2));
    (apply wp_bind, wp_db_exec; [done|]); intros w1 H1; apply wp_ret;
    (assert (put w (purge_step ids (w_st w)) w1) as (Hs1 & He1 & _) by exact H1);
    rewrite <- (purge_step_purged cutoff ids) by done;
    destruct ids as [|id ids'] eqn:Hl; cbn [length].
  1,3: apply wp_ret; split; [done|]; rewrite Hs1; symmetry; by apply purged_none.
  - pose proof (purge_step_length cutoff (id :: ids') (w_st w) ltac:(done) Hids). lia.
  - rewrite <- Hs1. apply IH.
    + by eapply fault_free_env.
    + rewrite Hs1. by apply delete_where_ids.
    + rewrite Hs1. pose proof (purge_step_length cutoff (id :: ids') (w_st w) ltac:(done) Hids). lia.
Qed.

(** ** Theorems: editions and retention *)

(** The nightly purge terminates and deletes exactly the runs that ended
    before the cutoff, with their deliveries ([purged]): however many rows there
    are, the batches of a thousand go on until none is left. *)
Theorem purge_exact before w :
  fault_free w → NoDup (table_ids (db_runs (w_st w))) →
  wp (PurgeRunsAndDeliveriesOlderThan before) (λ r w', r = Ok tt ∧
    (db_runs (w_st w'), db_esc_deliveries (w_st w')) = purged (unix before) (w_st w)) w.
Proof. intros Hff Hnd. apply wp_bind, wp_gets. by apply wp_purge_loop. Qed.

(** The policy after a downgrade and an upgrade. *)
Definition restored (p : Policy) : Policy :=
  p <| po_Active := po_Active p || po_ActiveBeforeDowngrade p |>
    <| po_ActiveBeforeDowngrade := false |>.

(** Losing the edition switches every policy off and stops every running
    run; getting it back restores exactly the policies that were on, and leaves
    no trace of the episode: a table with no mark of an earlier downgrade comes
    back as it was. *)
Theorem downgrade_upgrade_roundtrip w :
  fault_free w →
  wp OnEditionDowngraded (λ r w1, r = Ok tt
    ∧ (∀ p, p ∈ db_policies (w_st w1) → po_Active p = false)
    ∧ (∀ r, r ∈ db_runs (w_st w1) → running r = false)
    ∧ wp OnEditionUpgraded (λ r w2, r = Ok tt
        ∧ db_policies (w_st w2) = restored <$> db_policies (w_st w)
        ∧ ((∀ p, p ∈ db_policies (w_st w) → po_ActiveBeforeDowngrade p = false) →
             db_policies (w_st w2) = db_policies (w_st w))) w1) w.
Proof.
  intros Hff. apply wp_bind, wp_db_exec; [done|]. intros w1 (Hs1 & He1 & _).
  apply wp_bind, wp_now. intros w2 (Hs2 & He2 & _). rewrite Hs1 in Hs2.
  assert (fault_free w2) as Hff2 by (eapply fault_free_env; [|done]; congruence).
  apply wp_db_exec; [done|]. intros w3 (Hs3 & He3 & _). rewrite Hs2 in Hs3.
  assert (fault_free w3) as Hff3 by (eapply fault_free_env; [|done]; congruence).
  split; [done|].
  set (f := λ p : Policy, p <| po_ActiveBeforeDowngrade := po_Active p |> <| po_Active := false |>).
  assert (db_policies (w_st w3) = update_where po_Active f (db_policies (w_st w))) as Hp
    by (by rewrite Hs3).
  split_and!.
  - rewrite Hp. intros p (p' & _ & ->)%update_where_elem. by destruct (po_Active p') eqn:E.
  - rewrite Hs3. intros r (r' & _ & ->)%update_where_elem.
    destruct (running r') eqn:E; [by apply stop_run_not_running|done].
  - apply wp_db_exec; [done|]. intros w4 (Hs4 & _). split; [done|].
    assert (db_policies (w_st w4) = restored <$> db_policies (w_st w)) as Hr.
    { rewrite Hs4. change (db_policies (set_field _ _ _)) with
        (update_where po_ActiveBeforeDowngrade (λ p, p <| po_Active := true |>
           <| po_ActiveBeforeDowngrade := false |>) (db_policies (w_st w3))).
      rewrite Hp. unfold update_where. rewrite <- list_fmap_compose. apply list_fmap_ext.
      intros _ [i n [] [] fi le cr up] _; reflexivity. }
    split; [done|]. intros Hmark. rewrite Hr. rewrite <- (list_fmap_id (db_policies (w_st w))) at 2.
    apply list_fmap_ext. intros i p Hi%list_elem_of_lookup_2%Hmark.
    destruct p; cbn in *; subst. unfold restored. cbn. by rewrite orb_false_r.
Qed.

(** ** Witnesses *)

Module PolicyExample.
Definition level : Level := MkLevel 0 300 ["c1"].
Definition policy (active : bool) : Policy :=
  MkPolicy "p1" "night" active false (MkFilters [] []) [level] 0 0.
Definition run (ended : option Z) : Run :=
  MkRun "r1" (Some "p1") (Some (policy true)) "a1"
    (match ended with Some _ => RunStatusExhausted | None => RunStatusActive end)
    (-1) 0 ended (Some (300 * second)).
Definition w0 : world alerting := calm_world 0
  (empty_alerting <| db_policies := [policy true] |> <| db_runs := [run (Some 0)] |>
    <| db_esc_deliveries := [MkDelivery "d1" "r1" 0 (Some "c1") DeliveryStatusSent "" 0 None] |>).
End PolicyExample.

Lemma purge_exact_witness :
  NoDup (table_ids (db_runs (w_st PolicyExample.w0))) ∧
  (db_runs (w_st (PurgeRunsAndDeliveriesOlderThan second PolicyExample.w0).2),
   db_esc_deliveries (w_st (PurgeRunsAndDeliveriesOlderThan second PolicyExample.w0).2)) = ([], []).
Proof.
  assert (NoDup (table_ids (db_runs (w_st PolicyExample.w0)))) as H by apply NoDup_singleton.
  split; [exact H|].
  destruct (purge_exact second PolicyExample.w0 (calm_fault_free _ _) H) as [_ Hp].
  rewrite Hp. reflexivity.
Defined.

Lemma downgrade_upgrade_roundtrip_witness :
  fault_free PolicyExample.w0 ∧
  ∀ p, p ∈ db_policies (w_st (OnEditionDowngraded PolicyExample.w0).2) → po_Active p = false.
Proof.
  split; [exact (calm_fault_free _ _)|].
  exact (proj1 (proj2 (downgrade_upgrade_roundtrip PolicyExample.w0 (calm_fault_free _ _)))).
Defined.
