(* ===== verification/EscalationRunner.v ===== *)
(** * The escalation runner

    [src/internal/commercial/escalation/runner.go]: the escalator behind the
    alert engine.  A run walks through the levels of the policy snapshot it was
    started with; each level reserves one delivery per channel and hands the send
    to a goroutine, which here waits in [sends] until [finish_send] runs it. *)

From S2P Require Import Prelude.
From S2P Require Import Tables.
From S2P Require Import GoStrings.
From S2P Require Import GoTime.
From S2P Require Import AlertModel.
From S2P Require Import AlertStore.
From S2P Require Import AlertRouting.
From S2P Require Import AlertEngine.
From S2P Require Import EscalationStore.
From S2P Require Import EscalationPolicy.

#[local] Open Scope string_scope.
#[local] Open Scope list_scope.
#[local] Open Scope Z_scope.

Definition specialLevelAck : Z := -1.
Definition specialLevelExhausted : Z := -3.

Definition defaultOrphanTimeout : Z := 2 * minute.
Definition maintenanceRecheck : Z := 60 * second.

(** [Sender.SendNow]: [None] is a send that went through, [Some text] the text of
    its error. *)
Class Sender := {
  SendNow : Alert → NotificationChannel → M alerting (option string);
}.

(** [extension.Allows(extension.CapAlertEscalation)]: the environment may answer
    no, and answers yes in a world where nothing fails. *)
Definition Allows_escalation : M alerting bool :=
  let! denied := fault in ret (negb denied).

(** [Levels[i]]: an index out of range panics. *)
Definition level_at (levels : list Level) (i : Z) : option Level :=
  if bool_decide (i < 0) then None else levels !! Z.to_nat i.

Definition index_panic := ESentinel "runtime error: index out of range".

(** ** Texts *)

Definition formatAckAlert (a : Alert) (ack : Acknowledgment) : Alert :=
  let at_ := format_rfc3339 (ack_At ack) in
  a <| al_Status := StatusResolved |>
    <| al_Message :=
         if bool_decide (ack_By ack = "") then "Acknowledged at " +:+ at_ +:+ ": " +:+ al_Message a
         else "Acknowledged by " +:+ ack_By ack +:+ " at " +:+ at_ +:+ ": " +:+ al_Message a |>.

Definition formatExhaustedAlert (a : Alert) (totalLevels : Z) : Alert :=
  let levels := if bool_decide (totalLevels = 1) then "level" else "levels" in
  a <| al_Message :=
    "Escalation exhausted after " +:+ fmt_d totalLevels +:+ " " +:+ levels
    +:+ " without acknowledgment, human action required: " +:+ al_Message a |>.

Definition truncateErr (s : string) : string :=
  let s := TrimSpace s in
  if bool_decide (500 < length (to_bytes s))%nat then of_bytes (take 500 (to_bytes s)) else s.

(** The loop of [notifiedChannels]: the channels seen and the ids, in order. *)
Definition notified_step (acc : gset string * list string) (d : Delivery)
    : gset string * list string :=
  let '(seen, ids) := acc in
  match de_ChannelID d with
  | Some ch =>
    if bool_decide (de_LevelIndex d < 0) then (seen, ids)
    else if negb (bool_decide (de_Status d = DeliveryStatusSent))
         && negb (bool_decide (de_Status d = DeliveryStatusPending)) then (seen, ids)
    else if bool_decide (ch ∈ seen) then (seen, ids)
    else ({[ch]} ∪ seen, ids ++ [ch])
  | None => (seen, ids)
  end.

Section Runner.
Context {Sup : MaintenanceSuppressor} {Snd : Sender}.
Context (orphanTimeout : Z).

(** ** Deliveries *)

Definition dispatchToChannel (runID : string) (levelIndex : Z) (chID : string) (a : Alert)
    (now_ : Z) : M alerting unit :=
  let! r := GetChannel chID in
  match r with
  | Err _ | Ok None => ret tt
  | Ok (Some ch) =>
    let! r := InsertDelivery (MkDelivery "" runID levelIndex (Some chID)
      DeliveryStatusPending "" now_ None) in
    match r with
    | Err _ => ret tt
    | Ok delivery =>
      if negb (ch_Enabled ch) then
        do! UpdateDelivery (delivery <| de_Status := DeliveryStatusFailed |>
                              <| de_Error := "channel disabled" |>) in
        ret tt
      else modify (λ s, s <| sends ::= λ l, l ++ [MkSend delivery a ch] |>)
    end
  end.

Definition executeLevel (run : Run) (levelIndex : Z) (channelIDs : list string) (a : Alert)
    : M alerting unit :=
  let! t := now in
  for_each channelIDs (λ chID, dispatchToChannel (ru_ID run) levelIndex chID a t).

Definition dispatchSpecial (runID : string) (levelIndex : Z) (channelIDs : list string)
    (a : Alert) : M alerting unit :=
  let! t := now in
  for_each channelIDs (λ chID, dispatchToChannel runID levelIndex chID a t).

Definition deliverAndUpdate (ps : PendingSend) : M alerting unit :=
  let! err := SendNow (ps_Alert ps) (ps_Channel ps) in
  match err with
  | Some text =>
    do! UpdateDelivery (ps_Delivery ps <| de_Status := DeliveryStatusFailed |>
                          <| de_Error := truncateErr text |>) in
    ret tt
  | None =>
    let! t := now in
    do! UpdateDelivery (ps_Delivery ps <| de_Status := DeliveryStatusSent |>
                          <| de_SentAt := Some t |>) in
    ret tt
  end.

(** A goroutine that started [deliverAndUpdate] gets to run. *)
Definition finish_send (i : nat) : M alerting unit :=
  let! waiting := gets sends in
  match waiting !! i with
  | None => ret tt
  | Some ps =>
    do! modify (λ s, s <| sends ::= delete i |>) in
    deliverAndUpdate ps
  end.

Definition abandonDelivery (d : Delivery) (reason : string) : M alerting unit :=
  do! UpdateDelivery (d <| de_Status := DeliveryStatusAbandoned |> <| de_Error := reason |>) in
  ret tt.

Definition recover_orphan (d : Delivery) : M alerting unit :=
  let! r := SelectRun (de_RunID d) in
  match r with
  | Err _ | Ok None => abandonDelivery d "run vanished"
  | Ok (Some run) =>
    if negb (running run) then abandonDelivery d "run terminated"
    else
      let! r := GetAlert (ru_AlertID run) in
      match r with
      | Err _ | Ok None => abandonDelivery d "alert no longer active"
      | Ok (Some a) =>
        if negb (bool_decide (al_Status a = StatusActive))
        then abandonDelivery d "alert no longer active"
        else
          match de_ChannelID d with
          | None => abandonDelivery d "channel removed"
          | Some chID =>
            let! r := GetChannel chID in
            match r with
            | Err _ | Ok None => abandonDelivery d "channel unavailable"
            | Ok (Some ch) => modify (λ s, s <| sends ::= λ l, l ++ [MkSend d a ch] |>)
            end
          end
      end
  end.

Definition recoverOrphans (now_ : Z) : M alerting (result unit) :=
  let? orphans := SelectOrphanPendingDeliveries (now_ - orphanTimeout) in
  do! for_each orphans recover_orphan in
  ret (Ok tt).

Definition notifiedChannels (runID : string) : M alerting (result (list string)) :=
  let? deliveries := SelectRunDeliveries runID in
  ret (Ok (foldl notified_step (∅, []) deliveries).2).

(** ** The hooks *)

Definition start_run (a : Alert) (now_ : Z) (covered : list string) (p : Policy)
    : M alerting unit :=
  if bool_decide (po_ID p ∈ covered) then ret tt
  else if negb (matchPolicyFilters a p) then ret tt
  else match po_Levels p with
       | [] => ret tt
       | first :: _ =>
         let nextAt := now_ + seconds (lv_DelaySeconds first) in
         do! InsertRun (MkRun "" (Some (po_ID p)) (Some p) (al_ID a) RunStatusActive (-1)
           now_ None (Some nextAt)) in
         ret tt
       end.

Definition runner_OnAlertCreated (a : Alert) : M alerting (result unit) :=
  if bool_decide (al_ID a = "") then ret (Ok tt)
  else
    let! allowed := Allows_escalation in
    if negb allowed then ret (Ok tt)
    else
      let? existing := SelectActiveRunsByAlert (al_ID a) in
      let covered := omap ru_PolicyID existing in
      let? policies := SelectPolicies true in
      let! t := now in
      do! for_each policies (start_run a t covered) in
      ret (Ok tt).

Definition runner_OnAlertAcknowledged (alertID : string) (ack : Acknowledgment)
    : M alerting (result unit) :=
  let? runs := SelectActiveRunsByAlert alertID in
  if bool_decide (runs = []) then ret (Ok tt)
  else
    let! r := GetAlert alertID in
    let a := match r with Ok a => a | Err _ => None end in
    let! t := now in
    do! for_each runs (λ run,
      let! r := TerminateRun (ru_ID run) RunStatusStoppedByAck t in
      match r with
      | Err _ => ret tt
      | Ok _ =>
        match a with
        | None => ret tt
        | Some a =>
          if bool_decide (ru_LastExecutedLevelIndex run < 0) then ret tt
          else
            let! r := notifiedChannels (ru_ID run) in
            match r with
            | Err _ => ret tt
            | Ok channelIDs =>
              dispatchSpecial (ru_ID run) specialLevelAck channelIDs (formatAckAlert a ack)
            end
        end
      end) in
    ret (Ok tt).

Definition runner_OnAlertResolved (alertID : string) (resolvedAt : Z)
    : M alerting (result unit) :=
  let? runs := SelectActiveRunsByAlert alertID in
  do! for_each runs (λ run,
    do! TerminateRun (ru_ID run) RunStatusStoppedByResolution resolvedAt in ret tt) in
  ret (Ok tt).

(** ** The cycle *)

(** The end of [processRun], once the alert and the maintenance windows let the
    run go on: its next level, or its end. *)
Definition processLevels (now_ : Z) (run : Run) (a : Alert) (policy : Policy)
    : M alerting (result unit) :=
  let levels := po_Levels policy in
  let last := ru_LastExecutedLevelIndex run in
  let nextLevel := last + 1 in
  if bool_decide (Z.of_nat (length levels) ≤ nextLevel) then
    when! bool_decide (0 ≤ last < Z.of_nat (length levels)) then
      match level_at levels last with
      | Some l => dispatchSpecial (ru_ID run) specialLevelExhausted (lv_ChannelIDs l)
                    (formatExhaustedAlert a (Z.of_nat (length levels)))
      | None => ret tt
      end in
    TerminateRun (ru_ID run) RunStatusExhausted now_
  else
    match level_at levels nextLevel with
    | None => ret (Err index_panic)
    | Some level =>
      do! executeLevel run nextLevel (lv_ChannelIDs level) a in
      do! SetEscalatedAt (al_ID a) now_ in
      let nextAt :=
        match level_at levels (nextLevel + 1) with
        | Some after =>
          default now_ (ru_NextActionAt run)
          + seconds (lv_DelaySeconds after - lv_DelaySeconds level)
        | None => now_
        end in
      UpdateRunProgress (ru_ID run) nextLevel (Some nextAt) RunStatusActive
    end.

Definition processRun (now_ : Z) (run : Run) : M alerting (result unit) :=
  let? found := GetAlert (ru_AlertID run) in
  match found with
  | None => TerminateRun (ru_ID run) RunStatusStoppedByResolution now_
  | Some a =>
    if negb (bool_decide (al_Status a = StatusActive))
    then TerminateRun (ru_ID run) RunStatusStoppedByResolution now_
    else if negb (bool_decide (al_AcknowledgedAt a = None))
    then TerminateRun (ru_ID run) RunStatusStoppedByAck now_
    else
      let! r := IsSuppressed (al_Source a) (al_EntityType a) (al_EntityID a) in
      let suppressed := match r with Ok b => b | Err _ => false end in
      if suppressed then PauseRunForMaintenance (ru_ID run) (now_ + maintenanceRecheck)
      else if bool_decide (ru_Status run = RunStatusPausedByMaintenance)
      then ResumeRunFromMaintenance (ru_ID run) now_
      else
        match ru_PolicySnapshot run with
        | None => TerminateRun (ru_ID run) RunStatusStoppedByPolicyDelete now_
        | Some policy => processLevels now_ run a policy
        end
  end.

Definition runner_EvaluateCycle : M alerting (result unit) :=
  let! allowed := Allows_escalation in
  if negb allowed then ret (Ok tt)
  else
    let! t := now in
    do! recoverOrphans t in
    let? runs := SelectDueRuns t in
    do! for_each runs (λ run, do! processRun t run in ret tt) in
    ret (Ok tt).

(** The runner as the engine's escalator. *)
Definition Runner : Escalator := {|
  EvaluateCycle := runner_EvaluateCycle;
  OnAlertCreated := runner_OnAlertCreated;
  OnAlertAcknowledged := runner_OnAlertAcknowledged;
  OnAlertResolved := runner_OnAlertResolved;
|}.
End Runner.
