(* ===== verification/EscalationLaws.v ===== *)
(** * The runner as the engine's escalator

    The runner discharges the interface the alert engine is proved against: its
    hooks touch the runs, their deliveries and the pending sends, its cycle also
    stamps the alerts it escalates, and none of them spoils a healthy world.  So
    every theorem about the engine holds with this runner behind it. *)

From S2P Require Import Prelude.
From S2P Require Import Tables.
From S2P Require Import GoStrings.
From S2P Require Import GoTime.
From S2P Require Import AlertModel.
From S2P Require Import AlertStore.
From S2P Require Import AlertRouting.
From S2P Require Import AlertEngine.
From S2P Require Import EscalationStore.
From S2P Require Import EscalationPolicy.
From S2P Require Import EscalationRunner.

#[local] Open Scope string_scope.
#[local] Open Scope list_scope.
#[local] Open Scope Z_scope.

(** Sending a notification changes nothing in the process. *)
Class SenderLaws (Snd : Sender) := {
  SendNow_reads a ch w : same w (SendNow a ch w).2;
}.

(** ** Confinement, construct by construct *)

Section confined.
Context (R : alerting → alerting → Prop) `{!PreOrder R}.

Lemma confined_consult {A} (read : env → nat → A) : confined R (consult read).
Proof.
  intros w. split_and!; [reflexivity|done|]. intros Hw.
  eapply healthy_same; [|exact Hw]. split_and!; cbn; [done..|lia].
Qed.

Lemma confined_gets {A} (f : alerting → A) : confined R (gets f).
Proof. intros w. split_and!; [reflexivity|done..]. Qed.

Lemma confined_modify (f : alerting → alerting) :
  (∀ s, R s (f s)) → (∀ s id, id ∈ used_ids (f s) → id ∈ used_ids s) → confined R (modify f).
Proof.
  intros HR Hids w. split_and!; [apply HR|done|]. intros Hw.
  apply (healthy_put w (f (w_st w))); [|done|apply Hids]. split_and!; cbn; [done..|lia].
Qed.

Lemma confined_db_exec (f : alerting → alerting) :
  (∀ s, R s (f s)) → (∀ s id, id ∈ used_ids (f s) → id ∈ used_ids s) → confined R (db_exec f).
Proof.
  intros HR Hids. apply confined_bind; [apply _|apply confined_consult|].
  intros []; [by apply confined_ret|]. apply confined_bind; [apply _|by apply confined_modify|].
  intros []. by apply confined_ret.
Qed.

Lemma confined_db_query {A} (q : alerting → A) : confined R (db_query q).
Proof.
  apply confined_bind; [apply _|apply confined_consult|]. intros []; [by apply confined_ret|].
  apply confined_bind; [apply _|apply confined_gets|]. intros. by apply confined_ret.
Qed.

Lemma confined_for_each {A} (l : list A) (body : A → M alerting unit) :
  (∀ a, confined R (body a)) → confined R (for_each l body).
Proof.
  intros Hb. induction l as [|a l IH]; cbn; [by apply confined_ret|].
  apply confined_bind; [apply _|apply Hb|intros; apply IH].
Qed.

Lemma confined_same {A} (m : M alerting A) : (∀ w, same w (m w).2) → confined R m.
Proof.
  intros Hm w. pose proof (Hm w) as Hw. pose proof Hw as (Hs & He & _).
  split_and!; [by rewrite Hs|done|by apply healthy_same].
Qed.

(** A drawn identifier, then a computation that may put it to use. *)
Definition draws {A} (id : string) (m : M alerting A) : Prop := ∀ w,
  R (w_st w) (w_st (m w).2) ∧ w_env (m w).2 = w_env w ∧ (w_tick w ≤ w_tick (m w).2)%nat ∧
  ∀ i, i ∈ used_ids (w_st (m w).2) → i = id ∨ i ∈ used_ids (w_st w).

Lemma confined_draws {A} (k : string → M alerting A) :
  (∀ id, draws id (k id)) → confined R (let! id := new_uid in k id).
Proof.
  intros Hk w. unfold bind. set (w1 := (new_uid w).2).
  change (new_uid w).1 with (env_uid (w_env w) (w_tick w)).
  assert (same w w1) as H1 by (split_and!; cbn; [done..|lia]).
  destruct (Hk (env_uid (w_env w) (w_tick w)) w1) as (HR & He & Ht & Hids).
  split_and!; [exact HR|exact He|]. intros Hw. by eapply (healthy_draw w w1).
Qed.

Lemma draws_reads {A} id (m : M alerting A) : (∀ w, same w (m w).2) → draws id m.
Proof.
  intros Hm w. destruct (Hm w) as (Hs & He & Ht). rewrite Hs. split_and!; [reflexivity|auto..].
Qed.

Lemma draws_bind_reads {A B} id (m : M alerting A) (k : A → M alerting B) :
  (∀ w, same w (m w).2) → (∀ a, draws id (k a)) → draws id (bind m k).
Proof.
  intros Hm Hk w. unfold bind. destruct (Hm w) as (Hs & He & Ht).
  destruct (Hk (m w).1 (m w).2) as (H1 & H2 & H3 & H4). rewrite Hs in *.
  split_and!; [done|congruence|lia|done].
Qed.

Lemma draws_insert {T B} `{!HasId T} id (get : alerting → list T) put_ row
    (k : result unit → M alerting B) :
  (∀ s t, R s (put_ t s)) →
  (∀ s i, i ∈ used_ids (put_ (get s ++ [row]) s) → i = id ∨ i ∈ used_ids s) →
  (∀ r w, same w (k r w).2) → draws id (bind (db_insert get put_ row) k).
Proof.
  intros HR Hids Hk w. unfold bind.
  assert (wp (db_insert get put_ row) (λ _ w', R (w_st w) (w_st w') ∧ w_env w' = w_env w
    ∧ (w_tick w ≤ w_tick w')%nat ∧ ∀ i, i ∈ used_ids (w_st w') → i = id ∨ i ∈ used_ids (w_st w)) w)
    as (H1 & H2 & H3 & H4).
  { apply wp_db_insert.
    - intros w' (Hs & He & Ht) _. rewrite Hs. split_and!; [reflexivity|auto..].
    - intros w' _ (Hs & He & Ht). rewrite Hs. split_and!; [apply HR|done..|apply Hids]. }
  destruct (Hk (db_insert get put_ row w).1 (db_insert get put_ row w).2) as (Hs & He & Ht).
  rewrite Hs. split_and!; [done|congruence|lia|done].
Qed.
End confined.

Lemma esc_only_cycle s s' : esc_only s s' → cycle_only s s'.
Proof.
  unfold esc_only, cycle_only, cycle_view. intros H. rewrite H.
  by assert (db_alerts s' = db_alerts s) as -> by exact (f_equal db_alerts H).
Qed.

Ltac ids_tac := unfold used_ids, table_ids; cbn; rewrite ?fmap_app; set_solver.

(** The ids the tables use are the same after an update of rows. *)
Lemma used_ids_runs s p f id :
  (∀ r, row_id (f r) = row_id r) →
  id ∈ used_ids (s <| db_runs ::= update_where p f |>) → id ∈ used_ids s.
Proof.
  intros Hf. unfold used_ids.
  change (db_runs (set_field _ _ _)) with (update_where p f (db_runs s)).
  by rewrite update_where_ids.
Qed.

Lemma used_ids_deliveries s p f id :
  (∀ r, row_id (f r) = row_id r) →
  id ∈ used_ids (s <| db_esc_deliveries ::= update_where p f |>) → id ∈ used_ids s.
Proof.
  intros Hf. unfold used_ids.
  change (db_esc_deliveries (set_field _ _ _)) with (update_where p f (db_esc_deliveries s)).
  by rewrite update_where_ids.
Qed.

Lemma used_ids_alerts s p f id :
  (∀ r, row_id (f r) = row_id r) →
  id ∈ used_ids (s <| db_alerts ::= update_where p f |>) → id ∈ used_ids s.
Proof.
  intros Hf. unfold used_ids.
  change (db_alerts (set_field _ _ _)) with (update_where p f (db_alerts s)).
  by rewrite update_where_ids.
Qed.

(** ** The statements of the store *)

Lemma InsertRun_confined r : confined esc_only (InsertRun r).
Proof.
  apply confined_draws. intros id. apply draws_insert; [apply _|done|ids_tac|].
  intros [] w; apply same_refl.
Qed.

Lemma InsertDelivery_confined d : confined esc_only (InsertDelivery d).
Proof.
  apply confined_draws. intros id. apply draws_bind_reads; [intros; apply same_refl|].
  intros []; [apply draws_reads; [apply _|]; intros w; split_and!; cbn; [done..|lia]|].
  apply draws_insert; [apply _|done|ids_tac|]. intros [] w; apply same_refl.
Qed.

Lemma TerminateRun_confined id status t : confined esc_only (TerminateRun id status t).
Proof. apply confined_db_exec; [apply _|done|]. intros s i. by apply used_ids_runs. Qed.

Lemma UpdateRunProgress_confined id l t status : confined esc_only (UpdateRunProgress id l t status).
Proof. apply confined_db_exec; [apply _|done|]. intros s i. by apply used_ids_runs. Qed.

Lemma PauseRun_confined id t : confined esc_only (PauseRunForMaintenance id t).
Proof. apply confined_db_exec; [apply _|done|]. intros s i. by apply used_ids_runs. Qed.

Lemma ResumeRun_confined id t : confined esc_only (ResumeRunFromMaintenance id t).
Proof. apply confined_db_exec; [apply _|done|]. intros s i. by apply used_ids_runs. Qed.

Lemma UpdateDelivery_confined d : confined esc_only (UpdateDelivery d).
Proof. apply confined_db_exec; [apply _|done|]. intros s i. by apply used_ids_deliveries. Qed.

Lemma SetEscalatedAt_confined id t : confined cycle_only (SetEscalatedAt id t).
Proof.
  apply confined_db_exec; [apply _| |].
  - intros s. unfold cycle_only, cycle_view, update_id. cbn. f_equal.
    unfold update_where. rewrite <- list_fmap_compose. apply list_fmap_ext. intros _ r _. cbn.
    by destruct (bool_decide _).
  - intros s i. by apply used_ids_alerts.
Qed.

#[export] Hint Resolve InsertRun_confined InsertDelivery_confined TerminateRun_confined
  UpdateRunProgress_confined PauseRun_confined ResumeRun_confined UpdateDelivery_confined : confined.

Ltac runner_tac :=
  repeat first
    [ progress intros
    | solve [eauto with confined]
    | apply confined_ret; [apply _]
    | apply confined_consult; [apply _]
    | apply confined_gets; [apply _]
    | apply confined_db_query; [apply _]
    | apply confined_for_each; [apply _|]
    | apply confined_bind; [apply _| |]
    | match goal with
      | |- confined _ (if ?b then _ else _) => destruct b
      | |- confined _ (match ?x with _ => _ end) => destruct x
      end ].

Section laws.
Context {Sup : MaintenanceSuppressor} {Snd : Sender} `{!SuppressorLaws Sup}.
Context (orphanTimeout : Z).

Lemma push_send_confined ps : confined esc_only (modify (λ s, s <| sends ::= λ l, l ++ [ps] |>)).
Proof. by apply confined_modify. Qed.

#[local] Hint Resolve push_send_confined : confined.

Lemma dispatchToChannel_confined runID l ch a t : confined esc_only (dispatchToChannel runID l ch a t).
Proof. unfold dispatchToChannel, GetChannel. runner_tac. Qed.

#[local] Hint Resolve dispatchToChannel_confined : confined.

Lemma dispatchSpecial_confined runID l chs a : confined esc_only (dispatchSpecial runID l chs a).
Proof. unfold dispatchSpecial, now. runner_tac. Qed.

Lemma executeLevel_confined run l chs a : confined esc_only (executeLevel run l chs a).
Proof. unfold executeLevel, now. runner_tac. Qed.

#[local] Hint Resolve dispatchSpecial_confined executeLevel_confined : confined.

Lemma IsSuppressed_confined R `{!PreOrder R} src ty id : confined R (IsSuppressed src ty id).
Proof. apply confined_same; [apply _|]. apply IsSuppressed_reads. Qed.

Lemma recover_orphan_confined d : confined esc_only (recover_orphan d).
Proof. unfold recover_orphan, abandonDelivery, SelectRun, GetAlert, GetChannel. runner_tac. Qed.

#[local] Hint Resolve recover_orphan_confined : confined.

Lemma to_cycle {A} (m : M alerting A) : confined esc_only m → confined cycle_only m.
Proof. apply confined_mono, esc_only_cycle. Qed.

Lemma processRun_confined t run : confined cycle_only (processRun t run).
Proof.
  unfold processRun, processLevels, GetAlert.
  repeat first
    [ progress intros
    | apply to_cycle; solve [eauto with confined]
    | apply SetEscalatedAt_confined
    | apply IsSuppressed_confined; [apply _]
    | apply confined_ret; [apply _]
    | apply confined_db_query; [apply _]
    | apply confined_bind; [apply _| |]
    | match goal with
      | |- confined _ (if ?b then _ else _) => destruct b
      | |- confined _ (match ?x with _ => _ end) => destruct x
      end ].
Qed.

Lemma recoverOrphans_confined t : confined cycle_only (recoverOrphans orphanTimeout t).
Proof. apply to_cycle. unfold recoverOrphans, SelectOrphanPendingDeliveries. runner_tac. Qed.

#[export] Instance Runner_laws : EscalatorLaws (Runner orphanTimeout).
Proof.
  split; cbn.
  - intros a. unfold runner_OnAlertCreated, Allows_escalation, fault, now,
      SelectActiveRunsByAlert, SelectPolicies, start_run. runner_tac.
  - intros id ack. unfold runner_OnAlertAcknowledged, SelectActiveRunsByAlert, GetAlert,
      notifiedChannels, SelectRunDeliveries, now. runner_tac.
  - intros id t. unfold runner_OnAlertResolved, SelectActiveRunsByAlert. runner_tac.
  - unfold runner_EvaluateCycle, Allows_escalation, fault, now, SelectDueRuns.
    apply confined_bind; [apply _|apply confined_bind; [apply _|apply confined_consult; apply _|]|].
    { intros. by apply confined_ret; [apply _]. }
    intros allowed. destruct (negb allowed); [by apply confined_ret; [apply _]|].
    apply confined_bind; [apply _|apply confined_consult; apply _|]. intros t.
    apply confined_bind; [apply _|apply recoverOrphans_confined|].
    intros _. apply confined_bind; [apply _|apply confined_db_query; apply _|].
    intros [runs|e]; [|by apply confined_ret; [apply _]].
    apply confined_bind; [apply _|apply confined_for_each; [apply _|]|].
    + intros run. apply confined_bind; [apply _|apply processRun_confined|].
      intros _. by apply confined_ret; [apply _].
    + intros _. by apply confined_ret; [apply _].
Qed.
End laws.
