(* ===== verification/EscalationInvariant.v ===== *)
(** * The escalation runner: invariants

    [esc_inv] is what every run, delivery and policy satisfies whatever calls
    fail; [evolves] is how runs change over time: they keep their alert, snapshot
    and start, their level cursor only grows, and a run that stopped stays as it
    is.  This file shows both are preserved by each statement of the store the
    runner uses; [EscalationCorrect] puts the handlers together. *)

From S2P Require Import Prelude.
From S2P Require Import Tables.
From S2P Require Import GoStrings.
From S2P Require Import GoTime.
From S2P Require Import AlertModel.
From S2P Require Import AlertStore.
From S2P Require Import AlertEngine.
From S2P Require Import EscalationStore.
From S2P Require Import EscalationPolicy.
From S2P Require Import EscalationRunner.

#[local] Open Scope string_scope.
#[local] Open Scope list_scope.
#[local] Open Scope Z_scope.

(** ** Levels and their delays *)

Definition delay_at (p : Policy) (i : Z) : option Z := lv_DelaySeconds <$> level_at (po_Levels p) i.

Lemma level_at_Some levels i l :
  level_at levels i = Some l ↔ 0 ≤ i ∧ levels !! Z.to_nat i = Some l.
Proof.
  unfold level_at. split_guard; split; [done|by intros [? _]; exfalso; lia| |by intros []].
  intros ?. split; [lia|done].
Qed.

Lemma level_at_None levels i :
  0 ≤ i → level_at levels i = None → Z.of_nat (length levels) ≤ i.
Proof.
  unfold level_at. intros Hi. rewrite bool_decide_false by lia. intros Hn%lookup_ge_None. lia.
Qed.

Lemma level_at_lt levels i l : level_at levels i = Some l → 0 ≤ i < Z.of_nat (length levels).
Proof. intros [? Hl%lookup_lt_Some]%level_at_Some. lia. Qed.

Lemma policy_ok_delay p i l :
  policy_ok p → level_at (po_Levels p) i = Some l → 60 ≤ lv_DelaySeconds l ≤ 86400.
Proof.
  intros (_ & _ & Hok) [_ Hl]%level_at_Some. eapply levels_ok_lookup; [exact Hok|].
  rewrite list_lookup_fmap, Hl. done.
Qed.

Lemma policy_ok_gap p i l l' :
  policy_ok p → level_at (po_Levels p) i = Some l → level_at (po_Levels p) (i + 1) = Some l' →
  lv_DelaySeconds l + 60 ≤ lv_DelaySeconds l'.
Proof.
  intros (_ & _ & Hok) [Hi Hl]%level_at_Some [_ Hl']%level_at_Some.
  replace (Z.to_nat (i + 1)) with (S (Z.to_nat i)) in Hl' by lia.
  eapply levels_ok_gap; [exact Hok|rewrite list_lookup_fmap, Hl|rewrite list_lookup_fmap, Hl']; done.
Qed.

(** ** The invariant *)

Record run_ok (r : Run) : Prop := {
  rk_ok : ∃ p, ru_PolicySnapshot r = Some p ∧ policy_ok p
    ∧ -1 ≤ ru_LastExecutedLevelIndex r < Z.of_nat (length (po_Levels p))
    ∧ (running r = true → ∃ t, ru_NextActionAt r = Some t
         ∧ ∀ d, delay_at p (ru_LastExecutedLevelIndex r + 1) = Some d →
             unix (ru_StartedAt r) + d ≤ unix t);
}.

(** The delivery of a level was not attempted before the level's delay. *)
Definition delivery_ok (runs : list Run) (d : Delivery) : Prop :=
  0 ≤ de_LevelIndex d → ∃ r p delay, select_id (de_RunID d) runs = Some r
    ∧ ru_PolicySnapshot r = Some p ∧ delay_at p (de_LevelIndex d) = Some delay
    ∧ unix (ru_StartedAt r) + delay ≤ unix (de_AttemptStartedAt d).

Record esc_inv (s : alerting) : Prop := {
  es_policy_ids : NoDup (table_ids (db_policies s));
  es_policies : ∀ p, p ∈ db_policies s → policy_ok p;
  es_run_ids : NoDup (table_ids (db_runs s));
  es_runs : ∀ r, r ∈ db_runs s → run_ok r;
  es_one : ∀ r r' p, r ∈ db_runs s → r' ∈ db_runs s → running r = true → running r' = true →
    ru_AlertID r = ru_AlertID r' → ru_PolicyID r = Some p → ru_PolicyID r' = Some p → r = r';
  es_delivery_ids : NoDup (table_ids (db_esc_deliveries s));
  es_slots : ∀ d d', d ∈ db_esc_deliveries s → d' ∈ db_esc_deliveries s →
    same_slot d d' = true → d = d';
  es_deliveries : ∀ d, d ∈ db_esc_deliveries s → delivery_ok (db_runs s) d;
}.

(** ** How a run changes *)

Record run_step (r r' : Run) : Prop := {
  rs_id : ru_ID r' = ru_ID r;
  rs_alert : ru_AlertID r' = ru_AlertID r;
  rs_snapshot : ru_PolicySnapshot r' = ru_PolicySnapshot r;
  rs_started : ru_StartedAt r' = ru_StartedAt r;
  rs_policy : ru_PolicyID r' = ru_PolicyID r ∨ ru_PolicyID r' = None;
  rs_last : ru_LastExecutedLevelIndex r ≤ ru_LastExecutedLevelIndex r';
  rs_stopped : running r = false → ru_Status r' = ru_Status r ∧ ru_EndedAt r' = ru_EndedAt r
    ∧ ru_LastExecutedLevelIndex r' = ru_LastExecutedLevelIndex r;
}.

#[export] Instance run_step_preorder : PreOrder run_step.
Proof.
  split; [intros r; by split; auto|].
  intros r1 r2 r3 [] []. split; try congruence; [naive_solver congruence|lia|].
  intros Hr. destruct rs_stopped0 as (Hs & He & Hl); [done|].
  assert (running r2 = false) as Hr2 by (unfold running in *; by rewrite Hs).
  destruct rs_stopped1 as (? & ? & ?); [done|]. split_and!; congruence.
Qed.

Lemma run_step_running r r' : run_step r r' → running r' = true → running r = true.
Proof.
  intros Hs Hr'. destruct (running r) eqn:Hr; [done|]. destruct (rs_stopped _ _ Hs Hr) as (He & _).
  unfold running in *. by rewrite He, Hr in Hr'.
Qed.

Definition evolves (s s' : alerting) : Prop :=
  ∀ id r, select_id id (db_runs s) = Some r →
  ∃ r', select_id id (db_runs s') = Some r' ∧ run_step r r'.

#[export] Instance evolves_preorder : PreOrder evolves.
Proof.
  split; [intros s id r Hr; exists r; by split; [|reflexivity]|].
  intros s1 s2 s3 H12 H23 id r Hr. destruct (H12 id r Hr) as (r2 & H2 & ?).
  destruct (H23 id r2 H2) as (r3 & ? & ?). exists r3. split; [done|by etransitivity].
Qed.

(** What the invariant looks at. *)
Definition esc_view (s : alerting) := (db_policies s, db_runs s, db_esc_deliveries s).

Lemma esc_inv_view s s' : esc_view s' = esc_view s → esc_inv s → esc_inv s' ∧ evolves s s'.
Proof.
  intros H Hi. injection H as Hp Hr Hd. split.
  - destruct Hi. by split; rewrite ?Hp, ?Hr, ?Hd.
  - intros id r. rewrite Hr. intros Hsel. exists r. by split; [|reflexivity].
Qed.

(** ** Changes of the runs *)

Lemma esc_inv_update_runs s p f :
  (∀ r, row_id (f r) = row_id r) →
  (∀ r, r ∈ db_runs s → p r = true → run_step r (f r) ∧ run_ok (f r)) →
  esc_inv s →
  esc_inv (s <| db_runs ::= update_where p f |>) ∧ evolves s (s <| db_runs ::= update_where p f |>).
Proof.
  intros Hfid Hf [].
  set (s' := s <| db_runs ::= update_where p f |>).
  assert (db_runs s' = update_where p f (db_runs s)) as Hr' by done.
  set (g := λ r, if p r then f r else r).
  assert (∀ r, r ∈ db_runs s → run_step r (g r) ∧ run_ok (g r)) as Hg.
  { intros r Hr. unfold g. destruct (p r) eqn:Hp; [auto|]. split; [reflexivity|auto]. }
  assert (∀ id r, select_id id (db_runs s) = Some r → select_id id (db_runs s') = Some (g r)) as Hsel.
  { intros id r Hr. rewrite Hr', select_id_update_where, Hr by done. done. }
  assert (evolves s s') as Hev.
  { intros id r Hr. exists (g r). split; [by apply Hsel|]. apply Hg.
    by apply select_id_Some in Hr as [? _]. }
  split; [|exact Hev]. split; rewrite ?Hr'; try done.
  - by rewrite update_where_ids.
  - intros r' (r & Hr & ->)%update_where_elem. by apply Hg.
  - intros r1' r2' pid (r1 & H1 & ->)%update_where_elem (r2 & H2 & ->)%update_where_elem.
    fold (g r1) (g r2). destruct (Hg r1 H1) as [S1 _], (Hg r2 H2) as [S2 _].
    intros R1 R2 Ha P1 P2. f_equal.
    apply (es_one0 r1 r2 pid); eauto using run_step_running.
    + by rewrite <- (rs_alert _ _ S1), <- (rs_alert _ _ S2).
    + destruct (rs_policy _ _ S1); congruence.
    + destruct (rs_policy _ _ S2); congruence.
  - intros d Hd Hl. destruct (es_deliveries0 d Hd Hl) as (r & q & dl & Hr & Hq & Hdl & Hle).
    rewrite <- Hr'. exists (g r), q, dl. destruct (select_id_Some _ _ _ Hr) as [Hin _].
    destruct (Hg r Hin) as [S _]. rewrite (rs_snapshot _ _ S), (rs_started _ _ S).
    split_and!; auto.
Qed.

Lemma esc_inv_insert_run s r :
  ru_ID r ∉ table_ids (db_runs s) → run_ok r →
  (∀ r' p, r' ∈ db_runs s → running r' = true → ru_AlertID r' = ru_AlertID r →
     ru_PolicyID r' = Some p → ru_PolicyID r ≠ Some p) →
  esc_inv s →
  esc_inv (s <| db_runs := db_runs s ++ [r] |>) ∧ evolves s (s <| db_runs := db_runs s ++ [r] |>).
Proof.
  intros Hid Hr Hone [].
  assert (∀ id r', select_id id (db_runs s) = Some r' → select_id id (db_runs s ++ [r]) = Some r') as Hsel.
  { intros id r' Hr'. rewrite select_id_snoc_ne; [done|].
    apply select_id_Some in Hr' as [Hin <-]. intros Heq. apply Hid. change (row_id r ∈ table_ids (db_runs s)).
    rewrite Heq. by apply list_elem_of_fmap_2. }
  split; [split; cbn; try done|].
  - apply (insert_row_ids r (db_runs s)); [by apply insert_row_Some|done].
  - intros r' [Hr'| ->%list_elem_of_singleton]%elem_of_app; auto.
  - intros r1 r2 p [H1| ->%list_elem_of_singleton]%elem_of_app
      [H2| ->%list_elem_of_singleton]%elem_of_app R1 R2 Ha P1 P2; [by eauto| | |done].
    + by destruct (Hone r1 p).
    + by destruct (Hone r2 p).
  - intros d Hd Hl. destruct (es_deliveries0 d Hd Hl) as (r0 & q & dl & ? & ?).
    exists r0, q, dl. split; [by apply Hsel|done].
  - intros id r' Hr'. exists r'. split; [by apply Hsel|reflexivity].
Qed.

(** ** Changes of the deliveries and of the policies *)

Lemma esc_inv_insert_delivery s d :
  de_ID d ∉ table_ids (db_esc_deliveries s) →
  existsb (same_slot d) (db_esc_deliveries s) = false → delivery_ok (db_runs s) d →
  esc_inv s → esc_inv (s <| db_esc_deliveries := db_esc_deliveries s ++ [d] |>).
Proof.
  intros Hid Hfree Hd [].
  assert (∀ d', d' ∈ db_esc_deliveries s → same_slot d d' = false) as Hslot.
  { intros d' Hin%list_elem_of_In. destruct (same_slot d d') eqn:E; [|done].
    assert (existsb (same_slot d) (db_esc_deliveries s) = true) by (apply existsb_exists; eauto).
    congruence. }
  split; cbn; try done.
  - apply (insert_row_ids d (db_esc_deliveries s)); [by apply insert_row_Some|done].
  - intros d1 d2 [H1| ->%list_elem_of_singleton]%elem_of_app
      [H2| ->%list_elem_of_singleton]%elem_of_app; [by auto| | |done].
    + intros (? & ? & ? & ?)%same_slot_spec. pose proof (Hslot d1 H1) as Hf.
      assert (same_slot d d1 = true) by (apply same_slot_spec; split_and!; congruence). congruence.
    + intros Hs. by rewrite (Hslot d2 H2) in Hs.
  - intros d' [Hd'| ->%list_elem_of_singleton]%elem_of_app; auto.
Qed.

Lemma esc_inv_update_deliveries s p f :
  (∀ d, row_id (f d) = row_id d) →
  (∀ d, de_RunID (f d) = de_RunID d ∧ de_LevelIndex (f d) = de_LevelIndex d
        ∧ de_ChannelID (f d) = de_ChannelID d ∧ de_AttemptStartedAt (f d) = de_AttemptStartedAt d) →
  esc_inv s → esc_inv (s <| db_esc_deliveries ::= update_where p f |>).
Proof.
  intros Hfid Hf [].
  set (g := λ d, if p d then f d else d).
  assert (∀ d, de_RunID (g d) = de_RunID d ∧ de_LevelIndex (g d) = de_LevelIndex d
    ∧ de_ChannelID (g d) = de_ChannelID d ∧ de_AttemptStartedAt (g d) = de_AttemptStartedAt d) as Hg.
  { intros d. unfold g. by destruct (p d). }
  set (s' := s <| db_esc_deliveries ::= update_where p f |>).
  assert (db_esc_deliveries s' = update_where p f (db_esc_deliveries s)) as Hd' by done.
  split; rewrite ?Hd'; try done.
  - by rewrite update_where_ids.
  - intros d1' d2' (d1 & H1 & ->)%update_where_elem (d2 & H2 & ->)%update_where_elem.
    fold (g d1) (g d2). intros (E1 & E2 & E3 & E4)%same_slot_spec. f_equal.
    apply es_slots0; [done..|]. apply same_slot_spec.
    destruct (Hg d1) as (A1 & A2 & A3 & _), (Hg d2) as (B1 & B2 & B3 & _).
    split_and!; congruence.
  - intros d0 (d & Hd & ->)%update_where_elem. fold (g d).
    destruct (Hg d) as (A1 & A2 & A3 & A4). unfold delivery_ok. rewrite A1, A2, A4. by apply es_deliveries0.
Qed.

Lemma esc_inv_policies s ps :
  NoDup (table_ids ps) → (∀ p, p ∈ ps → policy_ok p) → esc_inv s →
  esc_inv (s <| db_policies := ps |>).
Proof. intros Hids Hok []. by split. Qed.
