(* ===== verification/EscalationSafe.v ===== *)
(** * The escalation runner: loops and hooks

    [good w0 w] says that a computation kept the invariant and only let runs
    evolve; [safe] computations do so and leave the runs alone.  The hooks for an
    acknowledged and for a resolved alert are good, and when nothing fails they
    stop every run of the alert. *)

From S2P Require Import Prelude.
From S2P Require Import Tables.
From S2P Require Import GoStrings.
From S2P Require Import GoTime.
From S2P Require Import AlertModel.
From S2P Require Import AlertStore.
From S2P Require Import AlertRouting.
From S2P Require Import AlertEngine.
From S2P Require Import EscalationStore.
From S2P Require Import EscalationPolicy.
From S2P Require Import EscalationRunner.
From S2P Require Import EscalationLaws.
From S2P Require Import EscalationInvariant.

#[local] Open Scope string_scope.
#[local] Open Scope list_scope.
#[local] Open Scope Z_scope.

(** [good w0 w]: from [w0] to [w] the invariant was kept and the runs evolved. *)
Record good (w0 w : world alerting) : Prop := {
  go_env : w_env w = w_env w0;
  go_tick : (w_tick w0 ≤ w_tick w)%nat;
  go_inv : esc_inv (w_st w);
  go_evolves : evolves (w_st w0) (w_st w);
}.

Lemma good_refl w : esc_inv (w_st w) → good w w.
Proof. intros Hi. by split; [|lia| |reflexivity]. Qed.

Lemma good_trans w1 w2 w3 : good w1 w2 → good w2 w3 → good w1 w3.
Proof. intros [] []. split; [congruence|lia|done|by etransitivity]. Qed.

Lemma good_put w s w' :
  put w s w' → (esc_inv (w_st w) → esc_inv s ∧ evolves (w_st w) s) → esc_inv (w_st w) → good w w'.
Proof. intros (Hs & He & Ht) H Hi. destruct (H Hi). by split; rewrite ?Hs. Qed.

Lemma good_view w s w' :
  put w s w' → esc_view s = esc_view (w_st w) → esc_inv (w_st w) → good w w'.
Proof. intros Hp Hv. eapply good_put; [exact Hp|by apply esc_inv_view]. Qed.

Lemma good_same w w' : same w w' → esc_inv (w_st w) → good w w'.
Proof. intros Hw. by apply (good_view w (w_st w)). Qed.

(** A computation that keeps the invariant in every state that satisfies it and
    leaves the runs alone. *)
Definition safe {A} (m : M alerting A) : Prop := ∀ w, esc_inv (w_st w) →
  wp m (λ _ w', good w w' ∧ db_runs (w_st w') = db_runs (w_st w)) w.

Lemma safe_ret {A} (a : A) : safe (ret a).
Proof. intros w Hi. apply wp_ret. split; [by apply good_refl|done]. Qed.

Lemma safe_bind {A B} (m : M alerting A) (k : A → M alerting B) :
  safe m → (∀ a, safe (k a)) → safe (bind m k).
Proof.
  intros Hm Hk w Hi. eapply wp_bind, wp_mono; [by apply Hm|]. intros a w1 [H1 R1].
  eapply wp_mono; [apply Hk, H1|]. intros b w2 [H2 R2].
  split; [by eapply good_trans|congruence].
Qed.

Lemma safe_reads {A} (m : M alerting A) : (∀ w, same w (m w).2) → safe m.
Proof.
  intros Hm w Hi. pose proof (Hm w) as Hw. split; [by eapply good_same|by rewrite (proj1 Hw)].
Qed.

Lemma safe_query {A} (q : alerting → A) : safe (db_query q).
Proof.
  intros w Hi. apply wp_db_query; intros w' Hw; [intros _|];
    (split; [by apply good_same|by rewrite (proj1 Hw)]).
Qed.

Lemma safe_now : safe now.
Proof. apply safe_reads. intros w. split_and!; cbn; [done..|lia]. Qed.

Lemma safe_fault : safe fault.
Proof. apply safe_reads. intros w. split_and!; cbn; [done..|lia]. Qed.

Lemma safe_exec (f : alerting → alerting) :
  (∀ s, esc_inv s → esc_inv (f s)) → (∀ s, db_runs (f s) = db_runs s) → safe (db_exec f).
Proof.
  intros Hf Hr w Hi. apply wp_db_exec.
  - intros w' Hw _. split; [by apply good_same|by rewrite (proj1 Hw)].
  - intros w' Hw. split; [|by rewrite (proj1 Hw), Hr].
    eapply good_put; [exact Hw| |done]. intros _. split; [auto|].
    intros id r Hsel. exists r. rewrite Hr. by split; [|reflexivity].
Qed.

Lemma safe_for_each {A} (l : list A) (body : A → M alerting unit) :
  (∀ a, a ∈ l → safe (body a)) → safe (for_each l body).
Proof.
  intros Hb. induction l as [|a l IH]; cbn; [apply safe_ret|].
  apply safe_bind; [apply Hb; left|]. intros _. apply IH. intros b Hin. apply Hb. by right.
Qed.

Lemma safe_push ps : safe (modify (λ s, s <| sends ::= λ l, l ++ [ps] |>)).
Proof.
  intros w Hi. apply wp_modify_put. intros w' Hw. split; [by eapply good_view|by rewrite (proj1 Hw)].
Qed.

Lemma safe_UpdateDelivery d : safe (UpdateDelivery d).
Proof. apply safe_exec; [|done]. intros s. by apply esc_inv_update_deliveries. Qed.

Lemma safe_SetEscalatedAt id t : safe (SetEscalatedAt id t).
Proof. apply safe_exec; [|done]. intros s. by apply esc_inv_view. Qed.

Create HintDb safe discriminated.
#[export] Hint Resolve safe_ret safe_query safe_now safe_fault safe_push safe_UpdateDelivery
  safe_SetEscalatedAt : safe.

Ltac safe_tac :=
  repeat first
    [ progress intros
    | solve [auto with safe]
    | apply safe_bind
    | match goal with
      | |- safe (if ?b then _ else _) => destruct b
      | |- safe (match ?x with _ => _ end) => destruct x
      end ].

(** ** Deliveries *)

(** Reserving a slot keeps the invariant when the attempt is not early. *)
Lemma wp_InsertDelivery d w (Q : result Delivery → world alerting → Prop) :
  esc_inv (w_st w) → delivery_ok (db_runs (w_st w)) (delivery_row d) →
  (∀ r w', good w w' → db_runs (w_st w') = db_runs (w_st w) →
     db_channels (w_st w') = db_channels (w_st w) → Q r w') →
  wp (InsertDelivery d) Q w.
Proof.
  intros Hi Hd HQ. apply wp_bind, wp_new_uid. intros w1 H1 _. pose proof H1 as (Hs1 & _).
  apply wp_bind, wp_gets. rewrite Hs1. destruct (existsb _ _) eqn:Hfree.
  { apply wp_bind, wp_fault. intros b w2 H2 _. apply wp_ret.
    assert (same w w2) as H by by eapply same_trans.
    apply HQ; [by apply good_same|by rewrite (proj1 H)..]. }
  apply wp_bind, wp_db_insert.
  - intros w2 H2 _. apply wp_ret. assert (same w w2) as H by by eapply same_trans.
    apply HQ; [by apply good_same|by rewrite (proj1 H)..].
  - intros w2 Hid H2. apply wp_ret. rewrite Hs1 in *.
    assert (put w (w_st w <| db_esc_deliveries := db_esc_deliveries (w_st w) ++
      [delivery_row (d <| de_ID := env_uid (w_env w) (w_tick w) |>)] |>) w2) as Hp.
    { destruct H1 as (_ & He1 & Ht1), H2 as (Hs2 & He2 & Ht2).
      split_and!; [done|congruence|lia]. }
    apply HQ; [|by rewrite (proj1 Hp)..]. eapply good_put; [exact Hp| |done]. intros _. split.
    + by apply esc_inv_insert_delivery.
    + intros id r Hr. exists r. by split; [|reflexivity].
Qed.

Section runner.
Context {Sup : MaintenanceSuppressor} {Snd : Sender}.
Context `{!SuppressorLaws Sup, !SenderLaws Snd} (orphanTimeout : Z).

(** The delivery row a dispatch would store is not early. *)
Definition timely (runs : list Run) (runID : string) (levelIndex t : Z) : Prop :=
  ∀ chID, delivery_ok runs (delivery_row
    (MkDelivery "" runID levelIndex chID DeliveryStatusPending "" t None)).

Lemma timely_special runs runID levelIndex t : levelIndex < 0 → timely runs runID levelIndex t.
Proof. intros Hl chID H. cbn in H. lia. Qed.

Lemma wp_dispatchToChannel runID levelIndex chID a t w :
  esc_inv (w_st w) → timely (db_runs (w_st w)) runID levelIndex t →
  wp (dispatchToChannel runID levelIndex chID a t)
    (λ _ w', good w w' ∧ db_runs (w_st w') = db_runs (w_st w)) w.
Proof.
  intros Hi Ht. unfold dispatchToChannel.
  apply (wp_bind (GetChannel chID)), (wp_mono _ (λ _ w', same w w')); [by apply wp_db_query|].
  intros r w1 H1. pose proof (good_same _ _ H1 Hi) as Hg1. pose proof (proj1 H1) as Hs1.
  assert (∀ w2, good w1 w2 ∧ db_runs (w_st w2) = db_runs (w_st w1) →
    good w w2 ∧ db_runs (w_st w2) = db_runs (w_st w)) as Hlift.
  { intros w2 [Hg2 Hr2]. split; [by eapply good_trans|by rewrite Hr2, Hs1]. }
  destruct r as [[ch|]|e]; [|apply wp_ret, Hlift; split; [by apply good_refl, Hg1|done]..].
  apply wp_bind, wp_InsertDelivery; [apply Hg1|rewrite Hs1; apply Ht|].
  intros [d|e] w2 H2 Hr2 _; [|by apply wp_ret, Hlift].
  assert (safe (if negb (ch_Enabled ch) then
    do! UpdateDelivery (d <| de_Status := DeliveryStatusFailed |> <| de_Error := "channel disabled" |>) in
    ret tt else modify (λ s, s <| sends ::= λ l, l ++ [MkSend d a ch] |>))) as Hsafe by safe_tac.
  eapply wp_mono; [apply Hsafe, H2|]. intros _ w3 [H3 Hr3]. apply Hlift.
  split; [by eapply good_trans|congruence].
Qed.

Lemma wp_dispatch_all runID levelIndex chIDs a t w :
  esc_inv (w_st w) → timely (db_runs (w_st w)) runID levelIndex t →
  wp (for_each chIDs (λ chID, dispatchToChannel runID levelIndex chID a t))
    (λ _ w', good w w' ∧ db_runs (w_st w') = db_runs (w_st w)) w.
Proof.
  intros Hi Ht. apply wp_for_each; [|split; [by apply good_refl|done]].
  intros chID w1 _ [H1 Hr1]. eapply wp_mono; [apply wp_dispatchToChannel; [apply H1|by rewrite Hr1]|].
  intros _ w2 [H2 Hr2]. split; [by eapply good_trans|congruence].
Qed.

Lemma safe_dispatchSpecial runID levelIndex chIDs a :
  levelIndex < 0 → safe (dispatchSpecial runID levelIndex chIDs a).
Proof.
  intros Hl. apply safe_bind; [apply safe_now|]. intros t w Hi.
  by apply wp_dispatch_all; [|apply timely_special].
Qed.

Lemma safe_deliverAndUpdate ps : safe (deliverAndUpdate ps).
Proof.
  apply safe_bind; [apply safe_reads, SendNow_reads|]. intros [text|]; safe_tac.
Qed.

Lemma safe_finish_send i : safe (finish_send i).
Proof.
  apply safe_bind; [intros w Hi; apply wp_gets; split; [by apply good_refl|done]|]. intros waiting.
  destruct (waiting !! i) as [ps|]; [|apply safe_ret].
  apply safe_bind; [|intros; apply safe_deliverAndUpdate].
  intros w Hi. apply wp_modify_put. intros w' Hw. split; [by eapply good_view|by rewrite (proj1 Hw)].
Qed.

Lemma safe_recoverOrphans t : safe (recoverOrphans orphanTimeout t).
Proof.
  unfold recoverOrphans, SelectOrphanPendingDeliveries. apply safe_bind; [apply safe_query|].
  intros [orphans|e]; [|apply safe_ret]. apply safe_bind; [|intros; apply safe_ret].
  apply safe_for_each. intros d _.
  unfold recover_orphan, SelectRun, abandonDelivery, GetAlert, GetChannel. safe_tac.
Qed.

(** ** One run at a time *)

Definition others (id : string) (s s' : alerting) : Prop :=
  ∀ i, i ≠ id → select_id i (db_runs s') = select_id i (db_runs s).

Lemma others_runs id s s' : db_runs s' = db_runs s → others id s s'.
Proof. intros H i _. by rewrite H. Qed.

Lemma others_trans id s1 s2 s3 : others id s1 s2 → others id s2 s3 → others id s1 s3.
Proof. intros H1 H2 i Hi. by rewrite H2, H1. Qed.

(** A loop over runs that were selected before it: each is processed as it was
    selected, since the rounds before it changed other runs, and what a round
    leaves of its run is what the loop leaves of it. *)
Lemma wp_run_loop (l : list Run) (body : Run → M alerting unit) (K : world alerting → Prop)
    (P : Run → option Run → Prop) w :
  (∀ r w, r ∈ l → K w → esc_inv (w_st w) → select_id (ru_ID r) (db_runs (w_st w)) = Some r →
     wp (body r) (λ _ w', good w w' ∧ K w' ∧ others (ru_ID r) (w_st w) (w_st w')
       ∧ P r (select_id (ru_ID r) (db_runs (w_st w')))) w) →
  NoDup (table_ids l) → K w → esc_inv (w_st w) →
  (∀ r, r ∈ l → select_id (ru_ID r) (db_runs (w_st w)) = Some r) →
  wp (for_each l body) (λ _ w', good w w' ∧ K w'
    ∧ (∀ r, r ∈ l → P r (select_id (ru_ID r) (db_runs (w_st w'))))
    ∧ (∀ i, i ∉ table_ids l → select_id i (db_runs (w_st w')) = select_id i (db_runs (w_st w)))) w.
Proof.
  intros Hbody. revert w. induction l as [|r l IH]; intros w Hnd Hk Hi Hsel; cbn [for_each].
  { apply wp_ret. split_and!; [by apply good_refl|done|by intros ? ?%elem_of_nil|done]. }
  apply NoDup_cons in Hnd as [Hr Hnd]. change (ru_ID r ∉ table_ids l) in Hr.
  eapply wp_bind, wp_mono; [apply Hbody; [left|done|done|apply Hsel; left]|].
  intros _ w1 (H1 & Hk1 & Ho1 & HP1). eapply wp_mono; [apply IH; [|done|done|apply H1|]|].
  - intros r' w' Hr'. apply Hbody. by right.
  - intros r' Hr'. rewrite Ho1; [apply Hsel; by right|]. intros Heq. apply Hr.
    rewrite <- Heq. by apply (list_elem_of_fmap_2 row_id).
  - intros ? w2 (H2 & Hk2 & HP2 & Ho2). split_and!; [by eapply good_trans|done| |].
    + intros r' [->|Hr']%elem_of_cons; [|by apply HP2]. by rewrite Ho2.
    + intros i [Hne Hin]%not_elem_of_cons. rewrite Ho2 by done. by apply Ho1.
Qed.

(** A statement that changes one run. *)
Lemma wp_update_run p f r w :
  (∀ r, row_id (f r) = row_id r) →
  (∀ r', r' ∈ db_runs (w_st w) → p r' = true → r' = r) →
  run_step r (f r) → run_ok (f r) → esc_inv (w_st w) →
  select_id (ru_ID r) (db_runs (w_st w)) = Some r →
  wp (db_exec (λ s, s <| db_runs ::= update_where p f |>))
    (λ _ w', good w w' ∧ others (ru_ID r) (w_st w) (w_st w')
      ∧ (fault_free w → p r = true → select_id (ru_ID r) (db_runs (w_st w')) = Some (f r))) w.
Proof.
  intros Hfid Hp Hs Ho Hi Hsel. apply wp_db_exec.
  - intros w' Hw Hff. split_and!; [by apply good_same|apply others_runs|done]. by rewrite (proj1 Hw).
  - intros w' Hw.
    assert (∀ i, select_id i (db_runs (w_st w')) =
      (λ r, if p r then f r else r) <$> select_id i (db_runs (w_st w))) as Hrow.
    { intros i. rewrite (proj1 Hw).
      change (db_runs (set_field _ _ _)) with (update_where p f (db_runs (w_st w))).
      by apply select_id_update_where. }
    split_and!.
    + eapply good_put; [exact Hw| |done]. apply esc_inv_update_runs; [done|].
      intros r' Hin Hpr. by rewrite (Hp r' Hin Hpr).
    + intros i Hne. rewrite Hrow.
      destruct (select_id i (db_runs (w_st w))) as [r'|] eqn:Hsel'; [|done].
      apply select_id_Some in Hsel' as [Hin Hid]. cbn.
      destruct (p r') eqn:Hpr; [|done]. rewrite (Hp r' Hin Hpr) in Hid. by destruct Hne.
    + intros _ Hpr. rewrite Hrow, Hsel. cbn. by rewrite Hpr.
Qed.

Lemma same_id_run s r r' :
  esc_inv s → select_id (ru_ID r) (db_runs s) = Some r → r' ∈ db_runs s → ru_ID r' = ru_ID r → r' = r.
Proof.
  intros [] [Hr _]%select_id_Some Hr' Heq. by apply (select_id_unique (db_runs s)).
Qed.

Lemma stop_run_step status t r : running r = true → run_step r (stop_run status t r).
Proof. intros Hr. split; try done; [by left|]. rewrite Hr. discriminate. Qed.

Lemma stop_run_ok status t r :
  status ≠ RunStatusActive → status ≠ RunStatusPausedByMaintenance → run_ok r →
  run_ok (stop_run status t r).
Proof.
  intros H1 H2 [(p & Hp & Hpo & Hl & _)]. split. exists p.
  split_and!; [done|done|apply Hl|apply Hl|]. by rewrite stop_run_not_running.
Qed.

Lemma wp_TerminateRun r status t w :
  status ≠ RunStatusActive → status ≠ RunStatusPausedByMaintenance → running r = true →
  esc_inv (w_st w) → select_id (ru_ID r) (db_runs (w_st w)) = Some r →
  wp (TerminateRun (ru_ID r) status t)
    (λ _ w', good w w' ∧ others (ru_ID r) (w_st w) (w_st w')
      ∧ (fault_free w →
         select_id (ru_ID r) (db_runs (w_st w')) = Some (stop_run status t r))) w.
Proof.
  intros H1 H2 Hrun Hi Hsel. eapply wp_mono; [apply (wp_update_run _ (stop_run status t) r)|].
  - done.
  - intros r' Hr' Heq%bool_decide_eq_true. by eapply same_id_run.
  - by apply stop_run_step.
  - apply stop_run_ok; [done..|]. apply Hi. by apply select_id_Some in Hsel as [? _].
  - done.
  - done.
  - intros ? w' (Hg & Ho & Hrow). split_and!; [done..|]. intros Hff. apply Hrow; [done|].
    by apply bool_decide_true.
Qed.

(** What the hooks promise when the store answers: no run of the alert goes on. *)
Definition all_stopped (alertID : string) (s : alerting) : Prop :=
  ∀ r, r ∈ db_runs s → ru_AlertID r = alertID → running r = false.

Definition stopped_row (_ : Run) (o : option Run) : Prop :=
  ∃ r, o = Some r ∧ running r = false.

Lemma all_stopped_after alertID (s s' : alerting) runs :
  esc_inv s → esc_inv s' → evolves s s' →
  (∀ r, r ∈ runs ↔ r ∈ select_where (active_run_of alertID) (db_runs s)) →
  (∀ r, r ∈ runs → stopped_row r (select_id (ru_ID r) (db_runs s'))) →
  (∀ i, i ∉ table_ids runs → select_id i (db_runs s') = select_id i (db_runs s)) →
  all_stopped alertID s'.
Proof.
  intros Hi Hi' Hev Hruns Hstop Hrest r Hr Ha.
  destruct (running r) eqn:Hrun; [exfalso|done].
  assert (select_id (ru_ID r) (db_runs s') = Some r) as Hsel
    by by apply (select_id_elem (db_runs s')); [apply Hi'|].
  assert (∃ r0, r0 ∈ runs ∧ ru_ID r0 = ru_ID r) as (r0 & Hr0 & Hid).
  { destruct (decide (ru_ID r ∈ table_ids runs)) as [Hin|Hin].
    - apply list_elem_of_fmap in Hin as (r0 & Heq & Hr0). by exists r0.
    - specialize (Hrest _ Hin). rewrite Hsel in Hrest.
      apply eq_sym, select_id_Some in Hrest as [Hr0 _]. exists r. split; [|done].
      apply Hruns, select_where_elem. split; [done|]. unfold active_run_of.
      by rewrite bool_decide_true, Hrun. }
  destruct (Hstop _ Hr0) as (r1 & Hr1 & Hn). rewrite Hid, Hsel in Hr1. congruence.
Qed.

(** ** The hooks *)

(** What the loops of the hooks start from. *)
Lemma selected_running w runs p :
  esc_inv (w_st w) → runs = order_by_id (select_where p (db_runs (w_st w))) ∨
    (∃ key, runs = order_by key (select_where p (db_runs (w_st w)))) →
  NoDup (table_ids runs) ∧
  ∀ r, r ∈ runs → p r = true ∧ select_id (ru_ID r) (db_runs (w_st w)) = Some r.
Proof.
  intros [] Hruns.
  assert (table_ids runs ≡ₚ table_ids (select_where p (db_runs (w_st w)))) as Hperm.
  { destruct Hruns as [->|[key ->]]; [apply order_by_id_ids|apply order_by_ids]. }
  assert (∀ r, r ∈ runs ↔ r ∈ select_where p (db_runs (w_st w))) as Helem.
  { intros r. destruct Hruns as [->|[key ->]]; [apply order_by_id_elem|apply order_by_elem]. }
  split; [rewrite Hperm; by apply select_where_sublist_ids|].
  intros r [Hr Hp]%Helem%select_where_elem. split; [done|]. by apply (select_id_elem (db_runs (w_st w))).
Qed.

Lemma wp_runner_OnAlertResolved alertID t w :
  esc_inv (w_st w) → wp (runner_OnAlertResolved alertID t)
    (λ _ w', good w w' ∧ (fault_free w → all_stopped alertID (w_st w'))) w.
Proof.
  intros Hi. apply wp_bind, wp_db_query; [intros w1 H1 Hff; apply wp_ret; split; [by apply good_same|done]|].
  intros w1 H1. set (runs := order_by_id _).
  destruct (selected_running w runs (active_run_of alertID) Hi (or_introl eq_refl)) as [Hnd Hsel].
  pose proof (good_same _ _ H1 Hi) as Hg1. rewrite <- (proj1 H1) in Hsel.
  eapply wp_bind, wp_mono.
  { apply (wp_run_loop runs _ (λ w', w_env w' = w_env w) (λ r o, fault_free w → stopped_row r o) w1);
      [|done|apply H1|apply Hg1|by intros r []%Hsel].
    intros r w2 Hr He Hi2 Hrow. destruct (Hsel r Hr) as [[_ Hrun]%andb_true_iff _].
    eapply wp_bind, wp_mono; [by apply (wp_TerminateRun r)|].
    intros ? w3 (Hg3 & Ho3 & Hrow3). apply wp_ret. split_and!; [done| |done|].
    - by rewrite (go_env _ _ Hg3).
    - intros Hff. eexists. split; [apply Hrow3; by eapply fault_free_env|].
      by apply stop_run_not_running. }
  intros ? w2 (H2 & He2 & HP & Hrest). apply wp_ret.
  assert (good w w2) as Hg by by eapply good_trans. split; [done|]. intros Hff.
  apply (all_stopped_after alertID (w_st w) (w_st w2) runs); [done|apply Hg|apply Hg| | |].
  - intros r. apply order_by_id_elem.
  - intros r Hr. by apply HP.
  - intros i Hin. rewrite Hrest by done. by rewrite (proj1 H1).
Qed.

Lemma wp_runner_OnAlertAcknowledged alertID ack w :
  esc_inv (w_st w) → wp (runner_OnAlertAcknowledged alertID ack)
    (λ _ w', good w w' ∧ (fault_free w → all_stopped alertID (w_st w'))) w.
Proof.
  intros Hi. apply wp_bind, wp_db_query; [intros w1 H1 Hff; apply wp_ret; split; [by apply good_same|done]|].
  intros w1 H1. set (runs := order_by_id _).
  destruct (selected_running w runs (active_run_of alertID) Hi (or_introl eq_refl)) as [Hnd Hsel].
  pose proof (good_same _ _ H1 Hi) as Hg1. rewrite <- (proj1 H1) in Hsel.
  assert (∀ w', good w w' → (∀ r, r ∈ runs → fault_free w → stopped_row r (select_id (ru_ID r) (db_runs (w_st w')))) →
    (∀ i, i ∉ table_ids runs → select_id i (db_runs (w_st w')) = select_id i (db_runs (w_st w))) →
    fault_free w → all_stopped alertID (w_st w')) as Hall.
  { intros w' Hg HP Hrest Hff.
    apply (all_stopped_after alertID (w_st w) (w_st w') runs); [done|apply Hg..| | |done].
    - intros r. apply order_by_id_elem.
    - intros r Hr. by apply HP. }
  destruct (bool_decide_reflect (runs = [])) as [Hnil|_].
  { apply wp_ret. split; [done|]. apply Hall; [done| |].
    - rewrite Hnil. by intros r ?%elem_of_nil.
    - intros i _. by rewrite (proj1 H1). }
  apply (wp_bind (GetAlert _)), (wp_mono _ (λ _ w2, same w1 w2)); [by apply wp_db_query|].
  intros ra w2 H2. apply wp_bind, wp_now. intros w3 H3.
  assert (same w1 w3) as H13 by by eapply same_trans.
  pose proof (good_same _ _ H13 (go_inv _ _ Hg1)) as Hg3. rewrite <- (proj1 H13) in Hsel.
  eapply wp_bind, wp_mono.
  { apply (wp_run_loop runs _ (λ w', w_env w' = w_env w) (λ r o, fault_free w → stopped_row r o) w3);
      [|done| |apply Hg3|by intros r []%Hsel].
    2: { rewrite (go_env _ _ Hg3). apply Hg1. }
    intros r w4 Hr He Hi4 Hrow. destruct (Hsel r Hr) as [[_ Hrun]%andb_true_iff _].
    eapply wp_bind, wp_mono; [by apply (wp_TerminateRun r)|].
    intros rt w5 (Hg5 & Ho5 & Hrow5).
    match goal with |- wp ?m _ _ => assert (safe m) as Hsafe end.
    { destruct rt; [|apply safe_ret].
      destruct ra as [[a'|]|]; [|apply safe_ret..].
      destruct (bool_decide _); [apply safe_ret|].
      apply safe_bind; [apply safe_bind; [apply safe_query|]; intros []; apply safe_ret|].
      intros [ids|]; [by apply safe_dispatchSpecial|apply safe_ret]. }
    eapply wp_mono; [apply Hsafe, Hg5|]. intros ? w6 [Hg6 Hr6]. split_and!.
    - by eapply good_trans.
    - by rewrite (go_env _ _ Hg6), (go_env _ _ Hg5).
    - eapply others_trans; [exact Ho5|by apply others_runs].
    - intros Hff. rewrite Hr6. eexists. split; [apply Hrow5; by eapply fault_free_env|].
      by apply stop_run_not_running. }
  intros ? w4 (H4 & _ & HP & Hrest). apply wp_ret.
  assert (good w w4) as Hg by (eapply good_trans; [|exact H4]; by eapply good_trans).
  split; [done|]. apply Hall; [done..|]. intros i Hin. rewrite Hrest by done.
  by rewrite (proj1 H13), (proj1 H1).
Qed.
End runner.
