(* ===== verification/EscalationCycle.v ===== *)
(** * The escalation runner: one cycle

    [step_run] is what a cycle is to make of a due run, as a function of the run,
    its alert and the answer of the maintenance suppressor.  [processRun] changes
    no other run, keeps the invariant whatever fails, and when nothing fails
    leaves exactly [step_run]. *)

From S2P Require Import Prelude.
From S2P Require Import Tables.
From S2P Require Import GoStrings.
From S2P Require Import GoTime.
From S2P Require Import AlertModel.
From S2P Require Import AlertStore.
From S2P Require Import AlertRouting.
From S2P Require Import AlertEngine.
From S2P Require Import EscalationStore.
From S2P Require Import EscalationPolicy.
From S2P Require Import EscalationRunner.
From S2P Require Import EscalationLaws.
From S2P Require Import EscalationInvariant.
From S2P Require Import EscalationSafe.

#[local] Open Scope string_scope.
#[local] Open Scope list_scope.
#[local] Open Scope Z_scope.

(** ** What a cycle makes of a due run *)

Definition step_run (suppressed : string → string → string → bool) (found : option Alert)
    (t : Z) (r : Run) : Run :=
  match found with
  | None => stop_run RunStatusStoppedByResolution t r
  | Some a =>
    if negb (bool_decide (al_Status a = StatusActive)) then stop_run RunStatusStoppedByResolution t r
    else if negb (bool_decide (al_AcknowledgedAt a = None)) then stop_run RunStatusStoppedByAck t r
    else if suppressed (al_Source a) (al_EntityType a) (al_EntityID a) then
      r <| ru_Status := RunStatusPausedByMaintenance |>
        <| ru_NextActionAt := Some (db_time (t + maintenanceRecheck)) |>
    else if bool_decide (ru_Status r = RunStatusPausedByMaintenance) then
      r <| ru_Status := RunStatusActive |> <| ru_NextActionAt := Some (db_time t) |>
    else
      let levels := default [] (po_Levels <$> ru_PolicySnapshot r) in
      let next := ru_LastExecutedLevelIndex r + 1 in
      match level_at levels next with
      | None => stop_run RunStatusExhausted t r
      | Some l =>
        r <| ru_LastExecutedLevelIndex := next |>
          <| ru_NextActionAt := Some (db_time
               match level_at levels (next + 1) with
               | Some l' => default t (ru_NextActionAt r)
                            + seconds (lv_DelaySeconds l' - lv_DelaySeconds l)
               | None => t
               end) |>
          <| ru_Status := RunStatusActive |>
      end
  end.

(** A suppressor whose answer is a function, when nothing fails. *)
Definition answers_with {Sup : MaintenanceSuppressor} (e : env)
    (suppressed : string → string → string → bool) : Prop :=
  ∀ source entityType entityID w, w_env w = e →
  (IsSuppressed source entityType entityID w).1 = Ok (suppressed source entityType entityID).

Section runner.
Context {Sup : MaintenanceSuppressor} {Snd : Sender}.
Context `{!SuppressorLaws Sup, !SenderLaws Snd} (orphanTimeout : Z).

(** ** The clock *)

(** The clock never goes back, and every later reading is at least [t]. *)
Definition clock_from (t : Z) (w : world alerting) : Prop :=
  (∀ m n, (m ≤ n)%nat → env_now (w_env w) m ≤ env_now (w_env w) n)
  ∧ ∀ n, (w_tick w ≤ n)%nat → t ≤ env_now (w_env w) n.

Lemma clock_from_good t w w' : clock_from t w → good w w' → clock_from t w'.
Proof. intros [Hm Ha] [He Ht _ _]. unfold clock_from. rewrite He. split; [done|]. intros. apply Ha. lia. Qed.

(** ** A due run takes one step *)

(** A running run with a due action and its snapshot. *)
Lemma due_run_ok t r :
  run_ok r → due (unix t) r = true →
  running r = true ∧ ∃ p t0, ru_PolicySnapshot r = Some p ∧ policy_ok p
    ∧ -1 ≤ ru_LastExecutedLevelIndex r < Z.of_nat (length (po_Levels p))
    ∧ ru_NextActionAt r = Some t0 ∧ unix t0 ≤ unix t
    ∧ ∀ d, delay_at p (ru_LastExecutedLevelIndex r + 1) = Some d → unix (ru_StartedAt r) + d ≤ unix t0.
Proof.
  intros [(p & Hp & Hpo & Hl & Hn)] (Hr & t0 & Ht0 & Hle)%due_spec. split; [done|].
  destruct (Hn Hr) as (t0' & Ht0' & Hd). assert (t0' = t0) as -> by congruence.
  exists p, t0. split_and!; (done || lia).
Qed.

(** The three ways a running run stays running: paused, resumed, one level on. *)
Lemma reschedule_ok status at_ t r :
  run_ok r → due (unix t) r = true → unix t ≤ unix at_ →
  let r' := r <| ru_Status := status |> <| ru_NextActionAt := Some at_ |> in
  run_step r r' ∧ run_ok r'.
Proof.
  intros Ho Hd Hat. destruct (due_run_ok t r Ho Hd) as (Hr & p & t0 & Hp & Hpo & Hl & Hn & Hle & Hdl).
  split.
  - split; try done; [by left|]. rewrite Hr. discriminate.
  - split. exists p. split_and!; [done|done|apply Hl|apply Hl|]. intros _. exists at_. split; [done|].
    intros d Hd'. specialize (Hdl d Hd'). cbn. lia.
Qed.

Lemma progress_ok t r p l nextAt :
  run_ok r → due (unix t) r = true → ru_PolicySnapshot r = Some p →
  level_at (po_Levels p) (ru_LastExecutedLevelIndex r + 1) = Some l →
  (∀ l', level_at (po_Levels p) (ru_LastExecutedLevelIndex r + 1 + 1) = Some l' →
     nextAt = default t (ru_NextActionAt r) + seconds (lv_DelaySeconds l' - lv_DelaySeconds l)) →
  let r' := r <| ru_LastExecutedLevelIndex := ru_LastExecutedLevelIndex r + 1 |>
    <| ru_NextActionAt := db_time <$> Some nextAt |> <| ru_Status := RunStatusActive |> in
  run_step r r' ∧ run_ok r'.
Proof.
  intros Ho Hd Hp Hl Hnext.
  destruct (due_run_ok t r Ho Hd) as (Hr & p' & t0 & Hp' & Hpo & Hlast & Hn & Hle & Hdl).
  assert (p' = p) as -> by congruence. pose proof (level_at_lt _ _ _ Hl) as Hlt.
  split.
  - split; cbn; try done; [by left|lia|]. rewrite Hr. discriminate.
  - split. exists p. split_and!; cbn; [done|done|lia|lia|]. intros _. eexists. split; [done|].
    intros d' Hd'. unfold delay_at in Hd'.
    destruct (level_at (po_Levels p) (ru_LastExecutedLevelIndex r + 1 + 1)) as [l'|] eqn:Hl'; [|done].
    injection Hd' as <-. rewrite (Hnext l' eq_refl), Hn. cbn.
    pose proof (policy_ok_gap _ _ _ _ Hpo Hl Hl').
    pose proof (policy_ok_delay _ _ _ Hpo Hl). pose proof (policy_ok_delay _ _ _ Hpo Hl').
    rewrite seconds_small, unix_db_add by lia.
    assert (unix (ru_StartedAt r) + lv_DelaySeconds l ≤ unix t0); [|lia].
    apply Hdl. unfold delay_at. by rewrite Hl.
Qed.

(** The deliveries of the level a due run has reached are not early. *)
Lemma due_timely t t' r p l runs :
  run_ok r → due (unix t) r = true → ru_PolicySnapshot r = Some p → t ≤ t' →
  select_id (ru_ID r) runs = Some r →
  level_at (po_Levels p) (ru_LastExecutedLevelIndex r + 1) = Some l →
  timely runs (ru_ID r) (ru_LastExecutedLevelIndex r + 1) t'.
Proof.
  intros Ho Hd Hp Ht Hsel Hl chID _.
  destruct (due_run_ok t r Ho Hd) as (_ & p' & t0 & Hp' & _ & _ & _ & Hle & Hdl).
  assert (p' = p) as -> by congruence.
  assert (delay_at p (ru_LastExecutedLevelIndex r + 1) = Some (lv_DelaySeconds l)) as Hdelay
    by (unfold delay_at; by rewrite Hl).
  exists r, p, (lv_DelaySeconds l). split_and!; [done..|]. cbn.
  rewrite unix_db_time. specialize (Hdl _ Hdelay). pose proof (unix_mono t t' Ht). lia.
Qed.

(** [m] processes the run [r] as it was selected, changes no other, and makes it
    [x] when nothing fails and [C] holds. *)
Definition one_run (e : env) (t : Z) (r : Run) (C : Prop) (x : Run) {A} (m : M alerting A) : Prop := ∀ w,
  w_env w = e → esc_inv (w_st w) → clock_from t w → select_id (ru_ID r) (db_runs (w_st w)) = Some r →
  wp m (λ _ w', good w w' ∧ others (ru_ID r) (w_st w) (w_st w')
    ∧ (fault_free w → C → select_id (ru_ID r) (db_runs (w_st w')) = Some x)) w.

Lemma one_run_after e t r C x {A B} (m : M alerting A) (k : A → M alerting B) w :
  w_env w = e → esc_inv (w_st w) → clock_from t w → select_id (ru_ID r) (db_runs (w_st w)) = Some r →
  wp m (λ a w', good w w' ∧ db_runs (w_st w') = db_runs (w_st w) ∧ one_run e t r C x (k a)) w →
  wp (bind m k) (λ _ w', good w w' ∧ others (ru_ID r) (w_st w) (w_st w')
    ∧ (fault_free w → C → select_id (ru_ID r) (db_runs (w_st w')) = Some x)) w.
Proof.
  intros He Hi Hck Hsel Hm. eapply wp_bind, wp_mono; [exact Hm|]. intros a w1 (H1 & R1 & Hk).
  eapply wp_mono; [apply Hk; [by rewrite (go_env _ _ H1)|apply H1|by eapply clock_from_good|by rewrite R1]|].
  intros b w2 (H2 & Ho & Hx). split_and!; [by eapply good_trans| |].
  - intros i Hne. rewrite Ho by done. by rewrite R1.
  - intros Hff. apply Hx. eapply fault_free_env, Hff. apply H1.
Qed.

Lemma one_run_safe_bind e t r C x {A B} (m : M alerting A) (k : A → M alerting B) :
  safe m → (∀ a, one_run e t r C x (k a)) → one_run e t r C x (bind m k).
Proof.
  intros Hm Hk w He Hi Hck Hsel. apply (one_run_after e t); [done..|].
  eapply wp_mono; [by apply Hm|]. intros a w1 [H1 R1]. split_and!; [done..|apply Hk].
Qed.

Lemma one_run_safe e t r (C : Prop) x {A} (m : M alerting A) :
  (C → r = x) → safe m → one_run e t r C x m.
Proof.
  intros Hx Hm w _ Hi _ Hsel. eapply wp_mono; [by apply Hm|]. intros ? w' [? R].
  split_and!; [done|by apply others_runs|]. intros _ HC. rewrite R, Hsel. f_equal. by apply Hx.
Qed.

Lemma one_run_update e t r (C : Prop) p f x :
  (∀ r, row_id (f r) = row_id r) → (∀ r', p r' = true → ru_ID r' = ru_ID r) → p r = true →
  (run_ok r → run_step r (f r) ∧ run_ok (f r)) → (C → x = f r) →
  one_run e t r C x (db_exec (λ s, s <| db_runs ::= update_where p f |>)).
Proof.
  intros Hfid Hp Hpr Hf Hx w _ Hi _ Hsel. destruct Hf as [Hs Ho].
  { apply Hi. by apply select_id_Some in Hsel as [? _]. }
  eapply wp_mono; [apply (wp_update_run p f r); [done| |done..]|].
  - intros r' Hr' Hpr'. eapply same_id_run; eauto.
  - intros ? w' (Hg & Ho' & Hrow). split_and!; [done..|]. intros Hff HC. rewrite (Hx HC). by apply Hrow.
Qed.

Lemma one_run_terminate e t r (C : Prop) x status t' :
  status ≠ RunStatusActive → status ≠ RunStatusPausedByMaintenance → running r = true →
  (C → x = stop_run status t' r) →
  one_run e t r C x (TerminateRun (ru_ID r) status t').
Proof.
  intros H1 H2 H3 Hx w _ Hi _ Hsel. eapply wp_mono; [by apply wp_TerminateRun|].
  intros ? w' (Hg & Ho & Hrow). split_and!; [done..|]. intros Hff HC. rewrite (Hx HC). by apply Hrow.
Qed.

Lemma one_run_level t r p l a :
  run_ok r → due (unix t) r = true → ru_PolicySnapshot r = Some p →
  level_at (po_Levels p) (ru_LastExecutedLevelIndex r + 1) = Some l →
  ∀ w, esc_inv (w_st w) → clock_from t w → select_id (ru_ID r) (db_runs (w_st w)) = Some r →
  wp (executeLevel r (ru_LastExecutedLevelIndex r + 1) (lv_ChannelIDs l) a)
    (λ _ w', good w w' ∧ db_runs (w_st w') = db_runs (w_st w)) w.
Proof.
  intros Hok Hdue Hp Hl w Hi [_ Hafter] Hsel. apply wp_bind, wp_now. intros w1 H1.
  pose proof (good_same _ _ H1 Hi) as Hg1. rewrite <- (proj1 H1) in Hsel.
  eapply wp_mono; [apply wp_dispatch_all; [apply Hg1|]|].
  - eapply due_timely; [exact Hok|exact Hdue|exact Hp| |exact Hsel|exact Hl]. by apply Hafter.
  - intros ? w2 [H2 R2]. rewrite R2, (proj1 H1). split; [by eapply good_trans|done].
Qed.

(** The levels of a run: what [processRun] does once its alert still waits. *)
Lemma one_run_levels e t r p a (C : Prop) x :
  run_ok r → due (unix t) r = true → ru_PolicySnapshot r = Some p →
  ru_Status r ≠ RunStatusPausedByMaintenance →
  al_Status a = StatusActive → al_AcknowledgedAt a = None →
  (C → ∃ suppressed, suppressed (al_Source a) (al_EntityType a) (al_EntityID a) = false
       ∧ x = step_run suppressed (Some a) t r) →
  one_run e t r C x (processLevels t r a p).
Proof.
  intros Hok Hdue Hp Hst Ha1 Ha2 Hx.
  destruct (due_run_ok t r Hok Hdue) as (Hrun & p' & t0 & Hp' & Hpo & Hlast & Hn & Hle & Hdl).
  assert (p' = p) as -> by congruence.
  assert (C → x = match level_at (po_Levels p) (ru_LastExecutedLevelIndex r + 1) with
    | None => stop_run RunStatusExhausted t r
    | Some l => r <| ru_LastExecutedLevelIndex := ru_LastExecutedLevelIndex r + 1 |>
          <| ru_NextActionAt := Some (db_time
               match level_at (po_Levels p) (ru_LastExecutedLevelIndex r + 1 + 1) with
               | Some l' => default t (ru_NextActionAt r)
                            + seconds (lv_DelaySeconds l' - lv_DelaySeconds l)
               | None => t
               end) |>
          <| ru_Status := RunStatusActive |> end) as Hxl.
  { intros HC. destruct (Hx HC) as (sup & Hsup & ->). unfold step_run.
    rewrite bool_decide_true, (bool_decide_true (_ = None)), Hsup, (bool_decide_false (_ = _)), Hp by done.
    done. }
  unfold processLevels.
  destruct (bool_decide_reflect (Z.of_nat (length (po_Levels p)) ≤ ru_LastExecutedLevelIndex r + 1)) as [Hlen|Hlen].
  { apply one_run_safe_bind.
    - destruct (bool_decide _); [|apply safe_ret].
      destruct (level_at (po_Levels p) (ru_LastExecutedLevelIndex r)); [by apply safe_dispatchSpecial|apply safe_ret].
    - intros _. apply one_run_terminate; [done..|]. intros HC. rewrite (Hxl HC).
      destruct (level_at _ _) as [l|] eqn:Hl; [|done]. apply level_at_lt in Hl. lia. }
  destruct (level_at (po_Levels p) (ru_LastExecutedLevelIndex r + 1)) as [l|] eqn:Hl.
  2: { apply level_at_None in Hl; lia. }
  intros w He Hi Hck Hsel. apply (one_run_after e t); [done..|].
  eapply wp_mono; [by apply (one_run_level t r p)|]. intros ? w1 [H1 R1]. split_and!; [done..|].
  apply one_run_safe_bind; [apply safe_SetEscalatedAt|]. intros _.
  apply one_run_update; [done|by intros r' ?%bool_decide_eq_true|by apply bool_decide_true| |].
  - intros _. apply (progress_ok t r p l); [done..|]. intros l' ->. done.
  - intros HC. by rewrite (Hxl HC).
Qed.

Lemma wp_processRun t r suppressed w :
  run_ok r → due (unix t) r = true → esc_inv (w_st w) → clock_from t w →
  select_id (ru_ID r) (db_runs (w_st w)) = Some r →
  wp (processRun t r) (λ _ w', good w w' ∧ others (ru_ID r) (w_st w) (w_st w')
    ∧ (fault_free w → answers_with (w_env w) suppressed →
       select_id (ru_ID r) (db_runs (w_st w')) = Some (step_run suppressed
         (select_id (ru_AlertID r) (db_alerts (w_st w))) t r))) w.
Proof.
  intros Hok Hdue Hi Hck Hsel.
  destruct (due_run_ok t r Hok Hdue) as (Hrun & p & t0 & Hp & Hpo & Hlast & Hn & Hle & Hdl).
  set (C := fault_free w ∧ answers_with (w_env w) suppressed).
  set (found := select_id (ru_AlertID r) (db_alerts (w_st w))).
  set (x := step_run suppressed found t r).
  assert (wp (processRun t r) (λ _ w', good w w' ∧ others (ru_ID r) (w_st w) (w_st w')
    ∧ (fault_free w → C → select_id (ru_ID r) (db_runs (w_st w')) = Some x)) w) as Hwp.
  2: { eapply wp_mono; [exact Hwp|]. intros ? w' (Hg & Ho & Hx). split_and!; [done..|].
       intros Hff Ha. by apply Hx. }
  set (e := w_env w) in *. apply (one_run_after e t); [done..|]. apply wp_db_query.
  { intros w1 H1 Hff. split_and!; [by apply good_same|by rewrite (proj1 H1)|].
    apply one_run_safe; [by intros [? _]|apply safe_ret]. }
  intros w1 H1. split_and!; [by apply good_same|by rewrite (proj1 H1)|]. fold found.
  assert (∀ status, status ≠ RunStatusActive → status ≠ RunStatusPausedByMaintenance →
    x = stop_run status t r → one_run e t r C x (TerminateRun (ru_ID r) status t)) as Hterm
    by (intros; by apply one_run_terminate).
  destruct found as [a|] eqn:Hfound; [|by apply Hterm]. cbn [step_run] in x.
  destruct (bool_decide_reflect (al_Status a = StatusActive)) as [Ha1|]; [|by apply Hterm].
  destruct (bool_decide_reflect (al_AcknowledgedAt a = None)) as [Ha2|]; [|by apply Hterm].
  cbn [negb] in *. clear Hterm. intros w2 He2 Hi2 Hck2 Hsel2. apply (one_run_after e t); [done..|].
  pose proof (IsSuppressed_reads (al_Source a) (al_EntityType a) (al_EntityID a) w2) as H2.
  split_and!; [by apply good_same|by rewrite (proj1 H2)|].
  set (rs := (IsSuppressed _ _ _ w2).1).
  assert (C → rs = Ok (suppressed (al_Source a) (al_EntityType a) (al_EntityID a))) as Hrs
    by (intros [_ Ha]; by apply Ha).
  clearbody rs. destruct (match rs with Ok b => b | Err _ => false end) eqn:Hsup.
  { apply one_run_update; [done| | | |].
    - intros r' [Hid _]%andb_true_iff. by apply bool_decide_eq_true in Hid.
    - by rewrite bool_decide_true.
    - intros _. apply (reschedule_ok _ _ t); [done..|].
      rewrite unix_db_time. unfold maintenanceRecheck. rewrite unix_add_seconds. lia.
    - intros HC. unfold x. rewrite (Hrs HC) in Hsup. by rewrite Hsup. }
  destruct (bool_decide_reflect (ru_Status r = RunStatusPausedByMaintenance)) as [Hst|Hst].
  { apply one_run_update; [done| | | |].
    - intros r' [Hid _]%andb_true_iff. by apply bool_decide_eq_true in Hid.
    - by rewrite !bool_decide_true.
    - intros _. apply (reschedule_ok _ _ t); [done..|]. by rewrite unix_db_time.
    - intros HC. unfold x. rewrite (Hrs HC) in Hsup. by rewrite Hsup. }
  rewrite Hp. apply one_run_levels; [done..|]. intros HC. exists suppressed.
  rewrite (Hrs HC) in Hsup. split; [done|]. unfold x, step_run.
  rewrite bool_decide_true, (bool_decide_true (_ = None)), Hsup, (bool_decide_false (_ = _)) by done.
  done.
Qed.

(** The clock's reading starts a cycle. *)
Definition monotone_clock (w : world alerting) : Prop :=
  ∀ m n, (m ≤ n)%nat → env_now (w_env w) m ≤ env_now (w_env w) n.

(** Where a run's alert stands, for the cycle. *)
Definition alert_view (a : Alert) : Alert := a <| al_EscalatedAt := None |>.

Lemma step_run_view suppressed found t r :
  step_run suppressed (alert_view <$> found) t r = step_run suppressed found t r.
Proof. by destruct found. Qed.

Lemma select_alert_cycle s s' id :
  cycle_only s s' →
  alert_view <$> select_id id (db_alerts s') = alert_view <$> select_id id (db_alerts s).
Proof.
  intros H. pose proof (f_equal db_alerts H) as Ha. cbn in Ha.
  change (alert_view <$> db_alerts s' = alert_view <$> db_alerts s) in Ha.
  assert (∀ t : list Alert, alert_view <$> select_id id t = select_id id (alert_view <$> t)) as Hs.
  { intros t. change (alert_view <$> t) with ((λ a, alert_view a) <$> t).
    pose proof (select_id_update_where id (λ _, true) alert_view t (λ _, eq_refl)) as Hu.
    by unfold update_where in Hu. }
  by rewrite !Hs, Ha.
Qed.

(** One cycle, on every run: the due ones take their step at one reading of the
    clock, the others are left alone. *)
Lemma wp_runner_EvaluateCycle suppressed w :
  esc_inv (w_st w) → monotone_clock w →
  wp (runner_EvaluateCycle orphanTimeout) (λ _ w', good w w'
    ∧ (fault_free w → answers_with (w_env w) suppressed → ∃ n, (w_tick w ≤ n < w_tick w')%nat
       ∧ let t := env_now (w_env w) n in
       ∀ id, select_id id (db_runs (w_st w')) =
         (λ r, if due (unix t) r
               then step_run suppressed (select_id (ru_AlertID r) (db_alerts (w_st w))) t r
               else r) <$> select_id id (db_runs (w_st w)))) w.
Proof.
  intros Hi Hm. unfold runner_EvaluateCycle. apply wp_bind, wp_bind, wp_fault.
  intros denied w1 H1 Hd. apply wp_ret. pose proof (good_same _ _ H1 Hi) as Hg1.
  destruct denied; cbn [negb].
  { apply wp_ret. split; [done|]. intros Hff. by specialize (Hd Hff). }
  apply wp_bind, wp_consult. intros w2 H2 Ht2. set (t := env_now _ _).
  assert (same w w2) as H02 by by eapply same_trans.
  pose proof (good_same _ _ H02 Hi) as Hg2.
  assert (clock_from t w2) as Hck2.
  { unfold clock_from, t. rewrite (go_env _ _ Hg2). split; [exact Hm|]. intros n Hn.
    rewrite (go_env _ _ Hg1). apply Hm. lia. }
  eapply wp_bind, wp_mono; [apply wp_and; [apply safe_recoverOrphans, Hg2|]|].
  { apply (wp_confined cycle_only); [apply recoverOrphans_confined|].
    intros ? w3 Hc _ _. exact Hc. }
  intros ? w3 [[H3 R3] Hc3]. rewrite (proj1 H02) in Hc3, R3.
  pose proof (good_trans _ _ _ Hg2 H3) as Hg3. pose proof (clock_from_good _ _ _ Hck2 H3) as Hck3.
  apply wp_bind, wp_db_query.
  { intros w4 H4 Hff. apply wp_ret. split; [eapply good_trans; [exact Hg3|by apply good_same, Hg3]|].
    intros Hff'. destruct Hff. eapply fault_free_env, Hff'. apply Hg3. }
  intros w4 H4. set (runs := order_by _ _).
  pose proof (good_same _ _ H4 (go_inv _ _ Hg3)) as Hg4.
  destruct (selected_running w3 runs (due (unix t)) (go_inv _ _ Hg3)
    (or_intror (ex_intro _ _ eq_refl))) as [Hnd Hsel]. rewrite <- (proj1 H4) in Hsel.
  set (next r := step_run suppressed (select_id (ru_AlertID r) (db_alerts (w_st w))) t r).
  eapply wp_bind, wp_mono.
  { apply (wp_run_loop runs _
      (λ w', clock_from t w' ∧ w_env w' = w_env w ∧ cycle_only (w_st w) (w_st w'))
      (λ r o, fault_free w → answers_with (w_env w) suppressed → o = Some (next r)) w4);
      [|done| |apply Hg4|by intros r []%Hsel].
    - intros r w5 Hr (Hck5 & He5 & Hc5) Hi5 Hrow. destruct (Hsel r Hr) as [Hdue Hs].
      eapply wp_bind, wp_mono; [apply wp_and; [apply (wp_processRun t r suppressed); try done|]|].
      + apply Hi5. by apply select_id_Some in Hrow as [? _].
      + apply (wp_confined cycle_only); [apply processRun_confined|]. intros ? w6 Hc _ _. exact Hc.
      + intros ? w6 [(Hg6 & Ho6 & Hx6) Hc6]. apply wp_ret. split_and!; [done| | | |done|].
        * by eapply clock_from_good.
        * by rewrite (go_env _ _ Hg6).
        * by etransitivity.
        * intros Hff Hans. rewrite Hx6 by (rewrite ?He5; done || by eapply fault_free_env).
          f_equal. rewrite <- step_run_view, (select_alert_cycle _ _ _ Hc5). apply step_run_view.
    - split_and!; [by eapply clock_from_good| |by rewrite (proj1 H4)].
      rewrite (go_env _ _ Hg4). apply Hg3. }
  intros ? w5 (H5 & _ & HP & Hrest). apply wp_ret. pose proof (good_trans _ _ _ Hg4 H5) as Hg5.
  split; [by eapply good_trans|]. intros Hff Hans. exists (w_tick w1). split.
  { pose proof (go_tick _ _ Hg1). pose proof (go_tick _ _ H3). pose proof (go_tick _ _ Hg5). lia. }
  rewrite <- (go_env _ _ Hg1). fold t. intros id.
  assert (select_id id (db_runs (w_st w4)) = select_id id (db_runs (w_st w))) as Hid
    by by rewrite (proj1 H4), R3.
  destruct (decide (id ∈ table_ids runs)) as [Hin|Hin].
  - apply list_elem_of_fmap in Hin as (r & -> & Hr). destruct (Hsel r Hr) as [Hdue Hs].
    change (row_id r) with (ru_ID r) in *. rewrite (HP r Hr) by done. rewrite <- Hid, Hs. cbn. by rewrite Hdue.
  - rewrite Hrest by done. rewrite Hid. destruct (select_id id (db_runs (w_st w))) as [r|] eqn:Hr; [|done].
    cbn. destruct (due (unix t) r) eqn:Hdue; [|done]. destruct Hin. apply select_id_Some in Hr as [Hr Hri].
    rewrite <- Hri. apply (list_elem_of_fmap_2 row_id), order_by_elem, select_where_elem.
    by rewrite <- R3 in Hr.
Qed.
End runner.
