(* ===== verification/EscalationCorrect.v ===== *)
(** * The escalation runner: correctness

    Through every hook, cycle, finished send and change of the policies, whatever
    calls fail: [esc_inv] holds (no level before its delay, one delivery per slot,
    one running run per alert and policy), and runs only [evolve] (a stopped run
    stays stopped).  When nothing fails, acknowledging or resolving an alert stops
    all of its runs, and a run whose alert stays unattended ends exhausted. *)

From S2P Require Import Prelude.
From S2P Require Import Tables.
From S2P Require Import GoStrings.
From S2P Require Import GoTime.
From S2P Require Import AlertModel.
From S2P Require Import AlertStore.
From S2P Require Import AlertRouting.
From S2P Require Import AlertEngine.
From S2P Require Import EscalationStore.
From S2P Require Import EscalationPolicy.
From S2P Require Import EscalationRunner.
From S2P Require Import EscalationLaws.
From S2P Require Import EscalationInvariant.
From S2P Require Import EscalationSafe.
From S2P Require Import EscalationCycle.

#[local] Open Scope string_scope.
#[local] Open Scope list_scope.
#[local] Open Scope Z_scope.

Section runner.
Context {Sup : MaintenanceSuppressor} {Snd : Sender}.
Context `{!SuppressorLaws Sup, !SenderLaws Snd} (orphanTimeout : Z).

(** ** New alerts *)

Lemma wp_InsertRun r w (Q : result Run → world alerting → Prop) :
  esc_inv (w_st w) → run_ok (run_row r) →
  (∀ r' p, r' ∈ db_runs (w_st w) → running r' = true → ru_AlertID r' = ru_AlertID r →
     ru_PolicyID r' = Some p → ru_PolicyID r ≠ Some p) →
  (∀ x w', good w w' → db_policies (w_st w') = db_policies (w_st w) →
     (∀ r', r' ∈ db_runs (w_st w') → r' ∈ db_runs (w_st w) ∨
        (ru_AlertID r' = ru_AlertID r ∧ ru_PolicyID r' = ru_PolicyID r)) → Q x w') →
  wp (InsertRun r) Q w.
Proof.
  intros Hi Ho Hone HQ. apply wp_bind, wp_new_uid. intros w1 H1 _. pose proof H1 as (Hs1 & He1 & Ht1).
  apply wp_bind, wp_db_insert.
  - intros w2 H2 _. apply wp_ret. assert (same w w2) as H by by eapply same_trans.
    apply HQ; [by apply good_same|by rewrite (proj1 H)|rewrite (proj1 H); by left].
  - intros w2 Hid H2. apply wp_ret. rewrite Hs1 in Hid, H2. set (r1 := run_row (r <| ru_ID := _ |>)) in Hid, H2.
    assert (put w (w_st w <| db_runs := db_runs (w_st w) ++ [r1] |>) w2) as Hp.
    { destruct H2 as (Hs2 & He2 & Ht2). split_and!; [exact Hs2|congruence|lia]. }
    apply HQ; [|by rewrite (proj1 Hp)|].
    + eapply good_put; [exact Hp| |done]. intros _. apply esc_inv_insert_run; [done| |done..].
      destruct Ho as [Ho]. by split.
    + rewrite (proj1 Hp). intros r' [Hr'| ->%list_elem_of_singleton]%elem_of_app; [by left|by right].
Qed.

Lemma wp_start_runs a t covered ps w :
  esc_inv (w_st w) → NoDup (table_ids ps) → (∀ p, p ∈ ps → policy_ok p) →
  (∀ p r, p ∈ ps → po_ID p ∉ covered → r ∈ db_runs (w_st w) → running r = true →
     ru_AlertID r = al_ID a → ru_PolicyID r ≠ Some (po_ID p)) →
  wp (for_each ps (start_run a t covered)) (λ _ w', good w w') w.
Proof.
  revert w. induction ps as [|p ps IH]; intros w Hi Hnd Hok Hfree; cbn [for_each].
  { by apply wp_ret, good_refl. }
  apply NoDup_cons in Hnd as [Hp Hnd].
  assert (∀ p', p' ∈ ps → po_ID p' ≠ po_ID p) as Hne.
  { intros p' Hp' Heq. apply Hp. change (po_ID p ∈ table_ids ps). rewrite <- Heq.
    by apply (list_elem_of_fmap_2 row_id). }
  assert (∀ w', good w w' → (∀ r, r ∈ db_runs (w_st w') → r ∈ db_runs (w_st w) ∨
    (ru_AlertID r = al_ID a ∧ ru_PolicyID r = Some (po_ID p))) →
    wp (for_each ps (start_run a t covered)) (λ _ w'', good w w'') w') as Hrest.
  { intros w' Hg Hruns. eapply wp_mono; [apply IH; [apply Hg|done| |]|].
    - intros p' Hp'. apply Hok. by right.
    - intros p' r Hp' Hc [Hr|[_ Hpol]]%Hruns Hrun Ha; [apply Hfree; [by right|done..]|].
      rewrite Hpol. intros [= Heq]. by apply (Hne p').
    - intros ? w'' H. by eapply good_trans. }
  apply wp_bind. unfold start_run at 1.
  destruct (bool_decide_reflect (po_ID p ∈ covered)) as [|Hc].
  { apply wp_ret, Hrest; [by apply good_refl|]. by left. }
  destruct (negb _); [apply wp_ret, Hrest; [by apply good_refl|]; by left|].
  assert (policy_ok p) as Hpok by (apply Hok; left).
  destruct (po_Levels p) as [|l ls] eqn:Hl; [by destruct Hpok|].
  assert (level_at (po_Levels p) 0 = Some l) as Hl0 by (apply level_at_Some; split; [lia|by rewrite Hl]).
  apply wp_bind, wp_InsertRun; [done| | |].
  - split. exists p. split_and!; cbn; [done|done|lia|rewrite Hl; cbn; lia|]. intros _.
    eexists. split; [done|]. intros d Hd.
    change (delay_at p 0 = Some d) in Hd. unfold delay_at in Hd. rewrite Hl0 in Hd. injection Hd as <-.
    pose proof (policy_ok_delay _ _ _ Hpok Hl0). rewrite seconds_small, unix_db_add, unix_db_time by lia. lia.
  - intros r' q Hr' Hrun Ha Hq. cbn. intros [= <-]. revert Hq. apply Hfree; [left|done..].
  - intros x w1 Hg1 _ Hruns. apply wp_ret, Hrest; [done|]. exact Hruns.
Qed.

Lemma wp_runner_OnAlertCreated a w :
  esc_inv (w_st w) → wp (runner_OnAlertCreated a) (λ _ w', good w w') w.
Proof.
  intros Hi. unfold runner_OnAlertCreated. destruct (bool_decide _); [by apply wp_ret, good_refl|].
  assert (∀ w1, good w w1 → ∀ (x : result unit), wp (ret x) (λ _ w', good w w') w1) as Hret
    by (intros; by apply wp_ret).
  apply (wp_bind Allows_escalation), wp_bind, wp_fault. intros denied w1 H1 _. apply wp_ret.
  pose proof (good_same _ _ H1 Hi) as Hg1. destruct (negb (negb denied)); [by apply Hret|].
  assert (∀ w2, same w w2 → good w w2) as Hsame by (intros; by apply good_same).
  apply wp_bind, wp_db_query; [intros w2 H2 _; apply Hret, Hsame; by eapply same_trans|].
  intros w2 H2. assert (same w w2) as H02 by by eapply same_trans. rewrite (proj1 H1).
  apply wp_bind, wp_db_query; [intros w3 H3 _; apply Hret, Hsame; by eapply same_trans|].
  intros w3 H3. assert (same w w3) as H03 by by eapply same_trans. rewrite (proj1 H02).
  apply wp_bind, wp_now. intros w4 H4. assert (same w w4) as H04 by by eapply same_trans.
  set (existing := order_by_id (select_where (active_run_of _) _)).
  set (policies := order_by_id (select_where _ _)).
  eapply wp_bind, wp_mono; [apply wp_start_runs|].
  - apply (Hsame w4 H04).
  - unfold policies. rewrite order_by_id_ids. apply select_where_sublist_ids, Hi.
  - intros p [Hp _]%order_by_id_elem%select_where_elem. by apply Hi.
  - intros p r _ Hc Hr Hrun Ha Hpol. rewrite (proj1 H04) in Hr. apply Hc.
    apply list_elem_of_omap. exists r. split; [|done]. apply order_by_id_elem, select_where_elem.
    split; [done|]. unfold active_run_of. by rewrite bool_decide_true, Hrun.
  - intros ? w5 H5. apply Hret. by eapply good_trans; [apply Hsame|].
Qed.

(** ** The policies *)

Definition keeps_good {A} (m : M alerting A) : Prop := ∀ w, esc_inv (w_st w) →
  wp m (λ _ w', good w w') w.

Lemma keeps_good_safe {A} (m : M alerting A) : safe m → keeps_good m.
Proof. intros Hm w Hi. eapply wp_mono; [by apply Hm|]. by intros ? w' [? _]. Qed.

Lemma keeps_good_bind {A B} (m : M alerting A) (k : A → M alerting B) :
  keeps_good m → (∀ a, keeps_good (k a)) → keeps_good (bind m k).
Proof.
  intros Hm Hk w Hi. eapply wp_bind, wp_mono; [by apply Hm|]. intros a w1 H1.
  eapply wp_mono; [apply Hk, H1|]. intros b w2 H2. exact (good_trans _ _ _ H1 H2).
Qed.

Lemma keeps_good_exec (f : alerting → alerting) :
  (∀ s, esc_inv s → esc_inv (f s) ∧ evolves s (f s)) → keeps_good (db_exec f).
Proof.
  intros Hf w Hi. apply wp_db_exec; [intros w' Hw _; by apply good_same|].
  intros w' Hw. eapply good_put; [exact Hw|exact (Hf _)|exact Hi].
Qed.

Lemma evolves_runs s s' : db_runs s' = db_runs s → evolves s s'.
Proof. intros H id r Hr. exists r. rewrite H. by split; [|reflexivity]. Qed.

Lemma stop_runs_good p status t s :
  status ≠ RunStatusActive → status ≠ RunStatusPausedByMaintenance →
  (∀ r, p r = true → running r = true) → esc_inv s →
  esc_inv (s <| db_runs ::= update_where p (stop_run status t) |>)
  ∧ evolves s (s <| db_runs ::= update_where p (stop_run status t) |>).
Proof.
  intros H1 H2 Hp Hi. apply esc_inv_update_runs; [done| |done].
  intros r Hr Hpr. split; [by apply stop_run_step, Hp|]. apply stop_run_ok; [done..|by apply Hi].
Qed.

Lemma StopPolicyRuns_good id status t :
  status ≠ RunStatusActive → status ≠ RunStatusPausedByMaintenance →
  keeps_good (StopPolicyRuns id status t).
Proof.
  intros H1 H2. apply keeps_good_exec. intros s. apply stop_runs_good; [done..|].
  by intros r [_ ?]%andb_true_iff.
Qed.

Lemma update_policies_good p f :
  (∀ x, row_id (f x) = row_id x) → (∀ x, policy_ok x → p x = true → policy_ok (f x)) →
  keeps_good (db_exec (λ s, s <| db_policies ::= update_where p f |>)).
Proof.
  intros Hid Hf. apply keeps_good_exec. intros s Hi. split; [|by apply evolves_runs].
  apply (esc_inv_policies s (update_where p f (db_policies s))); [| |done].
  - rewrite update_where_ids by done. apply Hi.
  - intros x (y & Hy & ->)%update_where_elem. pose proof (es_policies _ Hi y Hy).
    destruct (p y) eqn:Hp; auto.
Qed.

Lemma UpdatePolicy_store_good p : policy_ok p → keeps_good (UpdatePolicy_store p).
Proof.
  intros Hp. apply keeps_good_bind; [apply keeps_good_safe, safe_now|]. intros t.
  apply update_policies_good; [done|]. intros x _ _. exact Hp.
Qed.

Lemma stopDisabled_good id : keeps_good (stopDisabledPolicyRuns id).
Proof.
  apply keeps_good_bind; [apply keeps_good_safe, safe_now|]. intros t. by apply StopPolicyRuns_good.
Qed.

Lemma InsertPolicy_good p : policy_ok p → keeps_good (InsertPolicy p).
Proof.
  intros Hp w Hi. apply wp_bind, wp_new_uid. intros w1 H1 _.
  apply wp_bind, (wp_mono _ (λ _ w2, same w1 w2)).
  { destruct (is_zero _); [by apply wp_now|apply wp_ret, same_refl]. }
  intros t w2 H2. assert (same w w2) as H by by eapply same_trans.
  pose proof (good_same _ _ H Hi) as Hg. apply wp_bind, wp_db_insert.
  - intros w3 H3 _. apply wp_ret. eapply good_trans; [exact Hg|]. by apply good_same, Hg.
  - intros w3 Hid H3. apply wp_ret. eapply good_trans; [exact Hg|].
    eapply good_put; [exact H3| |apply Hg]. intros Hi2. split; [|by apply evolves_runs].
    apply esc_inv_policies; [| |done].
    + eapply insert_row_ids; [by apply insert_row_Some|apply Hi2].
    + intros x [Hx| ->%list_elem_of_singleton]%elem_of_app; [by apply Hi2|]. exact Hp.
Qed.

Lemma keeps_good_ret {A} (a : A) : keeps_good (ret a).
Proof. apply keeps_good_safe, safe_ret. Qed.

Lemma keeps_good_query {A} (q : alerting → A) : keeps_good (db_query q).
Proof. apply keeps_good_safe, safe_query. Qed.

Lemma CreatePolicy_good req : keeps_good (CreatePolicy req).
Proof.
  unfold CreatePolicy. destruct (validateRequest req) as [[]|e] eqn:Hv; [|apply keeps_good_ret].
  apply keeps_good_bind; [apply keeps_good_safe, safe_now|]. intros t.
  apply InsertPolicy_good. exact (validateRequest_levels req Hv).
Qed.

(** The end of an update: the row, then the runs of a policy just switched off. *)
Lemma update_then_stop_good p id (stop : bool) :
  policy_ok p →
  keeps_good (do? UpdatePolicy_store p in
    if stop then do? stopDisabledPolicyRuns id in ret (Ok p) else ret (Ok p)).
Proof.
  intros Hp. apply keeps_good_bind; [by apply UpdatePolicy_store_good|].
  intros [?|e]; [|apply keeps_good_ret]. destruct stop; [|apply keeps_good_ret].
  apply keeps_good_bind; [apply stopDisabled_good|]. intros []; apply keeps_good_ret.
Qed.

(** The policy the service reads is a row, so a policy it can honour. *)
Lemma keeps_good_SelectPolicy {A} id (k : result (option Policy) → M alerting A) :
  (∀ p, policy_ok p → keeps_good (k (Ok (Some p)))) → keeps_good (k (Ok None)) →
  keeps_good (k (Err EStore)) → keeps_good (bind (SelectPolicy id) k).
Proof.
  intros Hs Hn He w Hi. apply wp_bind, wp_db_query; intros w1 H1; [intros _|].
  - eapply wp_mono; [apply He; by rewrite (proj1 H1)|]. intros ? w2 H2.
    eapply good_trans; [by apply good_same|done].
  - eapply wp_mono with (P := λ _ w2, good w1 w2).
    + destruct (select_id id (db_policies (w_st w))) as [p|] eqn:Hp;
        [apply Hs|apply Hn]; rewrite ?(proj1 H1); [|done..].
      apply Hi. by apply select_id_Some in Hp as [? _].
    + intros ? w2 H2. eapply good_trans; [by apply good_same|done].
Qed.

Lemma UpdatePolicy_good id req : keeps_good (UpdatePolicy id req).
Proof.
  apply keeps_good_SelectPolicy; [|apply keeps_good_ret..]. intros p Hp.
  destruct (validateRequest req) as [[]|e] eqn:Hv; [|apply keeps_good_ret].
  apply keeps_good_bind; [apply keeps_good_safe, safe_now|]. intros t.
  apply update_then_stop_good. exact (validateRequest_levels req Hv).
Qed.

Lemma SetPolicyActive_good id b : keeps_good (SetPolicyActive id b).
Proof.
  apply keeps_good_SelectPolicy; [|apply keeps_good_ret..]. intros p Hp.
  apply keeps_good_bind; [apply keeps_good_safe, safe_now|]. intros t.
  apply (update_then_stop_good (p <| po_Active := b |> <| po_UpdatedAt := t |>)). exact Hp.
Qed.

Lemma DeletePolicy_good id : keeps_good (DeletePolicy id).
Proof.
  apply keeps_good_SelectPolicy; [|apply keeps_good_ret..]. intros _ _.
  apply keeps_good_bind; [apply keeps_good_safe, safe_now|]. intros t.
  apply keeps_good_bind; [by apply StopPolicyRuns_good|]. intros [?|e]; [|apply keeps_good_ret].
  apply keeps_good_exec. intros s Hi.
  set (s1 := s <| db_policies ::= delete_where (λ p, bool_decide (po_ID p = id)) |>).
  assert (esc_inv s1) as Hi1.
  { apply (esc_inv_policies s (delete_where (λ p, bool_decide (po_ID p = id)) (db_policies s)));
      [|intros p [Hp _]%delete_where_elem; by apply Hi|done]. by apply delete_where_ids, Hi. }
  destruct (esc_inv_update_runs s1 (λ r, bool_decide (ru_PolicyID r = Some id))
    (λ r, r <| ru_PolicyID := None |>)) as [H1 H2]; [done| |done|].
  - intros r Hr _. split; [by split; auto|]. destruct (es_runs _ Hi1 r Hr) as [Ho]. by split.
  - split; [exact H1|]. etransitivity; [|exact H2]. by apply evolves_runs.
Qed.

Lemma OnEditionDowngraded_good : keeps_good OnEditionDowngraded.
Proof.
  apply keeps_good_bind; [by apply update_policies_good|]. intros [?|e]; [|apply keeps_good_ret].
  apply keeps_good_bind; [apply keeps_good_safe, safe_now|]. intros t.
  apply keeps_good_exec. intros s. by apply stop_runs_good.
Qed.

Lemma OnEditionUpgraded_good : keeps_good OnEditionUpgraded.
Proof. by apply update_policies_good. Qed.

(** ** Runs of the escalation engine *)

(** What can happen: the three hooks, a cycle, a send that completes, a call of
    the policy service, a change of edition, and any change of the alerts and of
    the channels. *)
Inductive esc_op :=
  | EscCreated (a : Alert)
  | EscAcknowledged (alertID : string) (ack : Acknowledgment)
  | EscResolved (alertID : string) (t : Z)
  | EscCycle
  | EscSend (i : nat)
  | EscCreatePolicy (req : PolicyRequest)
  | EscUpdatePolicy (id : string) (req : PolicyRequest)
  | EscSetPolicyActive (id : string) (active : bool)
  | EscDeletePolicy (id : string)
  | EscDowngraded
  | EscUpgraded
  | EscOutside (alerts : list Alert) (channels : list NotificationChannel).

Definition run_esc (o : esc_op) (w : world alerting) : world alerting :=
  match o with
  | EscCreated a => (runner_OnAlertCreated a w).2
  | EscAcknowledged id ack => (runner_OnAlertAcknowledged id ack w).2
  | EscResolved id t => (runner_OnAlertResolved id t w).2
  | EscCycle => (runner_EvaluateCycle orphanTimeout w).2
  | EscSend i => (finish_send i w).2
  | EscCreatePolicy req => (CreatePolicy req w).2
  | EscUpdatePolicy id req => (UpdatePolicy id req w).2
  | EscSetPolicyActive id active => (SetPolicyActive id active w).2
  | EscDeletePolicy id => (DeletePolicy id w).2
  | EscDowngraded => (OnEditionDowngraded w).2
  | EscUpgraded => (OnEditionUpgraded w).2
  | EscOutside alerts channels =>
    (modify (λ s, s <| db_alerts := alerts |> <| db_channels := channels |>) w).2
  end.

Definition run_escs (ops : list esc_op) (w : world alerting) : world alerting :=
  foldl (λ w o, run_esc o w) w ops.

Lemma run_esc_good o w :
  esc_inv (w_st w) → monotone_clock w → good w (run_esc o w).
Proof.
  intros Hi Hm. destruct o; cbn [run_esc].
  - by apply wp_runner_OnAlertCreated.
  - exact (proj1 (wp_runner_OnAlertAcknowledged alertID ack w Hi)).
  - exact (proj1 (wp_runner_OnAlertResolved alertID t w Hi)).
  - exact (proj1 (wp_runner_EvaluateCycle orphanTimeout (λ _ _ _, false) w Hi Hm)).
  - by apply (keeps_good_safe _ (safe_finish_send i)).
  - by apply CreatePolicy_good.
  - by apply UpdatePolicy_good.
  - by apply SetPolicyActive_good.
  - by apply DeletePolicy_good.
  - by apply OnEditionDowngraded_good.
  - by apply OnEditionUpgraded_good.
  - eapply (good_view w); [split_and!; [reflexivity|done|cbn; lia]|done|done].
Qed.

Lemma run_escs_good ops w :
  esc_inv (w_st w) → monotone_clock w → good w (run_escs ops w).
Proof.
  revert w. induction ops as [|o ops IH]; intros w Hi Hm; [by apply good_refl|].
  pose proof (run_esc_good o w Hi Hm) as Hg. eapply good_trans; [exact Hg|]. apply IH; [apply Hg|].
  unfold monotone_clock. by rewrite (go_env _ _ Hg).
Qed.

(** ** The theorems *)

Lemma runner_inv_of ops w :
  esc_inv (w_st w) → monotone_clock w → esc_inv (w_st (run_escs ops w)).
Proof. intros Hi Hm. by apply run_escs_good. Qed.

(** Whatever hooks, cycles, finished sends, changes of the policies and changes
    of the alerts and channels happen, in whatever order, and whatever calls to
    the store, the sender or the suppressor fail on the way, the escalation data
    stays well-formed: [esc_inv]. *)
Theorem runner_invariant ops w :
  esc_inv (w_st w) → monotone_clock w → esc_inv (w_st (run_escs ops w)).
Proof. apply runner_inv_of. Qed.

(** C3: a level is never executed early.  Every delivery a run has reserved for a
    level of its policy was attempted at least the level's delay after the run
    started (in the seconds of the store), and no two deliveries share their run,
    level and channel. *)
Theorem level_never_early ops w d :
  esc_inv (w_st w) → monotone_clock w → d ∈ db_esc_deliveries (w_st (run_escs ops w)) →
  (0 ≤ de_LevelIndex d → ∃ r p l, r ∈ db_runs (w_st (run_escs ops w))
     ∧ ru_ID r = de_RunID d ∧ ru_PolicySnapshot r = Some p
     ∧ level_at (po_Levels p) (de_LevelIndex d) = Some l
     ∧ unix (ru_StartedAt r) + lv_DelaySeconds l ≤ unix (de_AttemptStartedAt d))
  ∧ ∀ d', d' ∈ db_esc_deliveries (w_st (run_escs ops w)) → same_slot d d' = true → d' = d.
Proof.
  intros Hi Hm Hd. pose proof (runner_inv_of ops w Hi Hm) as Hinv. split.
  - intros Hl. destruct (es_deliveries _ Hinv d Hd Hl) as (r & p & delay & Hr & Hp & Hdel & Hle).
    apply select_id_Some in Hr as [Hr Hid]. unfold delay_at in Hdel.
    destruct (level_at (po_Levels p) (de_LevelIndex d)) as [l|] eqn:Hlv; [|done].
    injection Hdel as <-. by exists r, p, l.
  - intros d' Hd' Hs. by rewrite (es_slots _ Hinv d d').
Qed.

(** A run that stopped stays as it is: whatever happens afterwards it keeps its
    status, its end and the level it had reached, and no run ever changes its
    alert, its start or the policy snapshot it executes, nor goes back a level. *)
Theorem runs_evolve ops w id r :
  esc_inv (w_st w) → monotone_clock w → select_id id (db_runs (w_st w)) = Some r →
  ∃ r', select_id id (db_runs (w_st (run_escs ops w))) = Some r'
    ∧ ru_AlertID r' = ru_AlertID r ∧ ru_PolicySnapshot r' = ru_PolicySnapshot r
    ∧ ru_StartedAt r' = ru_StartedAt r
    ∧ ru_LastExecutedLevelIndex r ≤ ru_LastExecutedLevelIndex r'
    ∧ (running r = false → ru_Status r' = ru_Status r ∧ ru_EndedAt r' = ru_EndedAt r
         ∧ ru_LastExecutedLevelIndex r' = ru_LastExecutedLevelIndex r).
Proof.
  intros Hi Hm Hr. destruct (run_escs_good ops w Hi Hm) as [_ _ _ Hev].
  destruct (Hev id r Hr) as (r' & Hr' & []). exists r'. by split_and!.
Qed.

(** When nothing fails, acknowledging an alert and resolving it each stop every
    run of the alert. *)
Theorem hooks_stop_runs alertID ack t w :
  esc_inv (w_st w) → fault_free w →
  all_stopped alertID (w_st (runner_OnAlertAcknowledged alertID ack w).2)
  ∧ all_stopped alertID (w_st (runner_OnAlertResolved alertID t w).2).
Proof.
  intros Hi Hff. split.
  - by apply (proj2 (wp_runner_OnAlertAcknowledged alertID ack w Hi)).
  - by apply (proj2 (wp_runner_OnAlertResolved alertID t w Hi)).
Qed.

(** C7: one cycle refines its specification.  When nothing fails there is one
    reading of the clock such that every run due by then is exactly what
    [step_run] makes of it, given its alert and the maintenance windows, and every
    other run is untouched. *)
Theorem cycle_refines suppressed w :
  esc_inv (w_st w) → monotone_clock w → fault_free w → answers_with (w_env w) suppressed →
  let w' := (runner_EvaluateCycle orphanTimeout w).2 in
  ∃ n, (w_tick w ≤ n < w_tick w')%nat ∧ ∀ id, select_id id (db_runs (w_st w')) =
    (λ r, if due (unix (env_now (w_env w) n)) r
          then step_run suppressed (select_id (ru_AlertID r) (db_alerts (w_st w)))
                 (env_now (w_env w) n) r
          else r) <$> select_id id (db_runs (w_st w)).
Proof.
  intros Hi Hm Hff Ha.
  destruct (wp_runner_EvaluateCycle orphanTimeout suppressed w Hi Hm) as [_ H]. by apply H.
Qed.

(** ** An unattended alert exhausts its runs *)

(** How long after its next action the last level of a run is due. *)
Definition slack (p : Policy) (last : Z) : Z :=
  match level_at (po_Levels p) (last + 1) with
  | Some l => 86400 - lv_DelaySeconds l
  | None => 0
  end.

(** The run [id] is exhausted, or at most [m] cycles away from it. *)
Record exhausting (id : string) (p : Policy) (m : nat) (w : world alerting) : Prop := {
  ex_inv : esc_inv (w_st w);
  ex_clock : monotone_clock w;
  ex_calm : fault_free w;
  ex_free : answers_with (w_env w) (λ _ _ _, false);
  ex_run : ∃ r, select_id id (db_runs (w_st w)) = Some r ∧ ru_PolicySnapshot r = Some p
    ∧ ((ru_Status r = RunStatusExhausted
        ∧ ru_LastExecutedLevelIndex r = Z.of_nat (length (po_Levels p)) - 1)
       ∨ (ru_Status r = RunStatusActive
          ∧ Z.of_nat (length (po_Levels p)) - ru_LastExecutedLevelIndex r ≤ Z.of_nat m
          ∧ (∃ a, select_id (ru_AlertID r) (db_alerts (w_st w)) = Some a
               ∧ al_Status a = StatusActive ∧ al_AcknowledgedAt a = None)
          ∧ ∃ t0, ru_NextActionAt r = Some t0
              ∧ ∀ n, (w_tick w ≤ n)%nat →
                  unix t0 + slack p (ru_LastExecutedLevelIndex r) ≤ unix (env_now (w_env w) n)));
}.

Lemma slack_pos p last : policy_ok p → 0 ≤ slack p last ≤ 86400.
Proof.
  intros Hp. unfold slack. destruct (level_at _ _) as [l|] eqn:Hl; [|lia].
  pose proof (policy_ok_delay _ _ _ Hp Hl). lia.
Qed.

Lemma exhausting_cycle id p m w :
  exhausting id p (S m) w → exhausting id p m (runner_EvaluateCycle orphanTimeout w).2.
Proof.
  intros [Hi Hm Hff Hfree (r & Hr & Hp & Hcase)].
  destruct (wp_runner_EvaluateCycle orphanTimeout (λ _ _ _, false) w Hi Hm) as [Hg Hspec].
  destruct (Hspec Hff Hfree) as (n & Hn & Hrow). clear Hspec. set (t := env_now _ n) in Hrow.
  pose proof (EvaluateCycle_confined (Esc := Runner orphanTimeout) w) as (Hc & _).
  change (EvaluateCycle w) with (runner_EvaluateCycle orphanTimeout w) in Hc.
  set (w' := (runner_EvaluateCycle orphanTimeout w).2) in *.
  pose proof (go_env _ _ Hg) as He.
  split; [apply Hg|by unfold monotone_clock; rewrite He|by eapply fault_free_env|by rewrite He|].
  specialize (Hrow id). rewrite Hr in Hrow. cbn in Hrow.
  assert (run_ok r) as Hok by by (apply Hi; apply select_id_Some in Hr as [? _]).
  destruct Hcase as [[Hst Hlast]|(Hst & Hleft & (a & Ha & Ha1 & Ha2) & t0 & Ht0 & Hlate)].
  { exists r. rewrite Hrow. unfold due, running. rewrite Hst. cbn. by split_and!; [| |left]. }
  destruct Hok as [(p' & Hp' & Hpo & Hlast & _)]. assert (p' = p) as -> by congruence.
  pose proof (slack_pos p (ru_LastExecutedLevelIndex r) Hpo) as Hslack.
  assert (due (unix t) r = true) as Hdue.
  { apply due_spec. split; [unfold running; by rewrite Hst|]. exists t0. split; [done|].
    specialize (Hlate n ltac:(lia)). unfold t. lia. }
  rewrite Hdue, Ha in Hrow. unfold step_run in Hrow.
  rewrite bool_decide_true, (bool_decide_true (_ = None)) in Hrow by done.
  rewrite bool_decide_false, Hp in Hrow by by rewrite Hst.
  cbn [negb default fmap option_fmap option_map from_option] in Hrow.
  destruct (level_at (po_Levels p) (ru_LastExecutedLevelIndex r + 1)) as [l|] eqn:Hl; cbn in Hrow; rewrite Hl in Hrow.
  2: { eexists. split; [exact Hrow|]. split; [done|]. left. split; [done|].
       apply level_at_None in Hl; cbn; lia. }
  assert (∃ a', select_id (ru_AlertID r) (db_alerts (w_st w')) = Some a'
    ∧ al_Status a' = StatusActive ∧ al_AcknowledgedAt a' = None) as Halert.
  { pose proof (select_alert_cycle _ _ (ru_AlertID r) Hc) as Hv. rewrite Ha in Hv.
    destruct (select_id _ (db_alerts (w_st w'))) as [a'|]; [|done]. exists a'. split; [done|].
    injection Hv. intros. split; congruence. }
  eexists. split; [exact Hrow|]. split; [done|]. right. cbn.
  split_and!; [done|lia|done|]. eexists. split; [done|]. intros k Hk.
  assert (t ≤ env_now (w_env w) k) as Htk by (apply Hm; lia).
  rewrite He. unfold slack.
  destruct (level_at (po_Levels p) (ru_LastExecutedLevelIndex r + 1 + 1)) as [l'|] eqn:Hl'.
  - specialize (Hlate k ltac:(pose proof (go_tick _ _ Hg); lia)). unfold slack in Hlate. rewrite Hl in Hlate.
    pose proof (policy_ok_gap _ _ _ _ Hpo Hl Hl').
    pose proof (policy_ok_delay _ _ _ Hpo Hl). pose proof (policy_ok_delay _ _ _ Hpo Hl').
    rewrite Ht0. cbn. rewrite seconds_small, unix_db_add by lia. lia.
  - rewrite unix_db_time. pose proof (unix_mono _ _ Htk). lia.
Qed.

Lemma exhausting_iter id p m w :
  exhausting id p m w → exhausting id p 0 (Nat.iter m (λ w, (runner_EvaluateCycle orphanTimeout w).2) w).
Proof.
  revert w. induction m as [|m IH]; intros w H; [done|].
  change (Nat.iter (S m) ?f w) with (f (Nat.iter m f w)). rewrite <- Nat.iter_swap.
  apply IH. by apply exhausting_cycle.
Qed.

(** C34: an alert nobody attends to goes through all the levels.  When nothing fails,
    no maintenance window is open and the clock has passed the last delay a policy
    may have, the cycles left between a run's level and the last of its policy,
    and one more, leave it exhausted with every level executed: the runner makes
    progress and the loop of cycles ends. *)
Theorem run_exhausts w id r p t0 a k :
  esc_inv (w_st w) → monotone_clock w → fault_free w → answers_with (w_env w) (λ _ _ _, false) →
  select_id id (db_runs (w_st w)) = Some r → ru_Status r = RunStatusActive →
  ru_PolicySnapshot r = Some p → ru_NextActionAt r = Some t0 →
  select_id (ru_AlertID r) (db_alerts (w_st w)) = Some a →
  al_Status a = StatusActive → al_AcknowledgedAt a = None →
  unix t0 + 86400 ≤ unix (env_now (w_env w) (w_tick w)) →
  Z.of_nat k = Z.of_nat (length (po_Levels p)) - ru_LastExecutedLevelIndex r →
  ∃ r', select_id id
      (db_runs (w_st (Nat.iter k (λ w, (runner_EvaluateCycle orphanTimeout w).2) w))) = Some r'
    ∧ ru_Status r' = RunStatusExhausted
    ∧ ru_LastExecutedLevelIndex r' = Z.of_nat (length (po_Levels p)) - 1.
Proof.
  intros Hi Hm Hff Hfree Hr Hst Hp Ht0 Ha Ha1 Ha2 Hlate Hk.
  assert (run_ok r) as [(p' & Hp' & Hpo & _)] by by (apply Hi; apply select_id_Some in Hr as [? _]).
  assert (p' = p) as -> by congruence.
  assert (exhausting id p k w) as Hex.
  { split; try done. exists r. split_and!; [done..|]. right. split_and!; [done|lia|by exists a|].
    exists t0. split; [done|]. intros n Hn. pose proof (slack_pos p (ru_LastExecutedLevelIndex r) Hpo).
    pose proof (unix_mono _ _ (Hm _ _ Hn)). lia. }
  apply exhausting_iter in Hex as [Hi' _ _ _ (r' & Hr' & Hp2 & [[H1 H2]|(_ & Hleft & _)])]; [by exists r'|].
  assert (run_ok r') as [(p'' & Hp'' & _ & Hl & _)] by by (apply Hi'; apply select_id_Some in Hr' as [? _]).
  assert (p'' = p) as -> by congruence. lia.
Qed.
End runner.

(** ** Witnesses *)

Module RunnerExample.
#[export] Existing Instance noopSuppressor.
#[export] Instance silentSender : Sender := {| SendNow _ _ := ret None |}.
#[export] Instance silentSender_laws : SenderLaws silentSender.
Proof. split. intros. apply same_refl. Qed.

Definition alert : Alert := RoutingExample.alert.
Definition policy : Policy := PolicyExample.policy true.
Definition run (status : string) : Run :=
  MkRun "r1" (Some "p1") (Some policy) "a1" status (-1) 0 None (Some (300 * second)).
Definition delivery : Delivery :=
  MkDelivery "d0" "r1" 0 (Some "c0") DeliveryStatusSent "" (300 * second) None.
Definition start (status : string) : world alerting := calm_world (100000 * second)
  (empty_alerting <| db_alerts := [alert] |> <| db_policies := [policy] |>
    <| db_channels := [RoutingExample.mail] |> <| db_runs := [run status] |>
    <| db_esc_deliveries := [delivery] |>).
Definition ops : list esc_op :=
  [EscCycle; EscSend 0; EscCreated alert; EscAcknowledged "a1" (MkAck "u" 0); EscCycle].

Lemma policy_fine : policy_ok policy.
Proof. split_and!; [done|unfold MaxLevels; cbn; lia|]. cbn. by split_and!; [lia|lia|done|done|]. Qed.

Lemma start_inv status : esc_inv (w_st (start status)).
Proof.
  split; cbn.
  - apply NoDup_singleton.
  - intros p ->%list_elem_of_singleton. apply policy_fine.
  - apply NoDup_singleton.
  - intros r ->%list_elem_of_singleton. split. exists policy.
    split_and!; [done|apply policy_fine|done|done|]. intros _. exists (300 * second).
    split; [done|]. by intros d [= <-].
  - by intros r r' p ->%list_elem_of_singleton ->%list_elem_of_singleton.
  - apply NoDup_singleton.
  - by intros d d' ->%list_elem_of_singleton ->%list_elem_of_singleton.
  - intros d ->%list_elem_of_singleton _. by exists (run status), policy, 300.
Qed.

Lemma start_clock status : monotone_clock (start status).
Proof. intros m n _. cbn. lia. Qed.

(** The first cycle notifies the channel of the level; the acknowledgment then
    stops the run and tells that channel; the channel of the old delivery is gone. *)
Example escalates :
  (λ d, (de_LevelIndex d, de_ChannelID d)) <$>
    db_esc_deliveries (w_st (run_escs minute ops (start RunStatusActive)))
  = [(0, Some "c0"); (0, Some "c1"); (-1, Some "c1")]
  ∧ ru_Status <$> db_runs (w_st (run_escs minute ops (start RunStatusActive)))
    = [RunStatusStoppedByAck].
Proof. vm_compute. split; reflexivity. Qed.
End RunnerExample.
Import RunnerExample.

Lemma runner_invariant_witness :
  monotone_clock (start RunStatusActive) ∧
  esc_inv (w_st (run_escs minute ops (start RunStatusActive))).
Proof.
  split; [exact (start_clock _)|].
  exact (runner_invariant minute ops _ (start_inv RunStatusActive) (start_clock _)).
Defined.

Lemma level_never_early_witness :
  delivery ∈ db_esc_deliveries (w_st (run_escs minute ops (start RunStatusActive))) ∧
  ∃ r p l, r ∈ db_runs (w_st (run_escs minute ops (start RunStatusActive)))
    ∧ ru_ID r = "r1" ∧ ru_PolicySnapshot r = Some p ∧ level_at (po_Levels p) 0 = Some l
    ∧ unix (ru_StartedAt r) + lv_DelaySeconds l ≤ 300.
Proof.
  assert (delivery ∈ db_esc_deliveries (w_st (run_escs minute ops (start RunStatusActive)))) as Hd.
  { vm_compute. left. }
  split; [exact Hd|].
  exact (proj1 (level_never_early minute ops _ delivery (start_inv RunStatusActive)
    (start_clock _) Hd) ltac:(done)).
Defined.

Lemma runs_evolve_witness :
  running (run RunStatusExhausted) = false ∧
  ∃ r', select_id "r1" (db_runs (w_st (run_escs minute ops (start RunStatusExhausted)))) = Some r'
    ∧ ru_Status r' = RunStatusExhausted.
Proof.
  split; [done|].
  destruct (runs_evolve minute ops (start RunStatusExhausted) "r1" (run RunStatusExhausted)
    (start_inv _) (start_clock _) eq_refl) as (r' & Hr' & _ & _ & _ & _ & Hs).
  exists r'. split; [exact Hr'|]. exact (proj1 (Hs eq_refl)).
Defined.

Lemma hooks_stop_runs_witness :
  all_stopped "a1" (w_st (runner_OnAlertAcknowledged "a1" (MkAck "u" 0) (start RunStatusActive)).2)
  ∧ all_stopped "a1" (w_st (runner_OnAlertResolved "a1" 0 (start RunStatusActive)).2).
Proof.
  exact (hooks_stop_runs "a1" (MkAck "u" 0) 0 _ (start_inv RunStatusActive) (calm_fault_free _ _)).
Defined.

Lemma answers_false : answers_with (calm (100000 * second)) (λ _ _ _, false).
Proof. done. Qed.

Lemma cycle_refines_witness :
  ∃ t, select_id "r1" (db_runs (w_st (runner_EvaluateCycle minute (start RunStatusActive)).2)) =
    Some (step_run (λ _ _ _, false) (Some alert) t (run RunStatusActive)).
Proof.
  destruct (cycle_refines minute (λ _ _ _, false) _ (start_inv RunStatusActive) (start_clock _)
    (calm_fault_free _ _) answers_false) as (n & _ & H).
  exists (100000 * second). exact (H "r1").
Defined.

Lemma run_exhausts_witness :
  ∃ r', select_id "r1" (db_runs (w_st (Nat.iter 2
      (λ w, (runner_EvaluateCycle minute w).2) (start RunStatusActive)))) = Some r'
    ∧ ru_Status r' = RunStatusExhausted ∧ ru_LastExecutedLevelIndex r' = 0.
Proof.
  exact (run_exhausts minute _ "r1" (run RunStatusActive) policy (300 * second) alert 2
    (start_inv _) (start_clock _) (calm_fault_free _ _) answers_false
    eq_refl eq_refl eq_refl eq_refl eq_refl eq_refl eq_refl ltac:(vm_compute; congruence) eq_refl).
Defined.
