(* ===== verification/Heartbeat.v ===== *)
(** * Heartbeat monitors: data and store

    [src/internal/heartbeat/model.go] and [src/internal/store/heartbeats.go].  A
    heartbeat is pinged through its token; its row carries the status, the
    deadline and the counters, and three tables hang below it (pings, executions,
    pauses) with [ON DELETE CASCADE].  Rows are kept as they are read back: a time
    column holds a time truncated to the second. *)

From S2P Require Import Prelude.
From S2P Require Import Tables.
From S2P Require Import GoStrings.
From S2P Require Import GoTime.
From S2P Require Import AlertModel.

#[local] Open Scope string_scope.
#[local] Open Scope list_scope.
#[local] Open Scope Z_scope.

(** ** Constants *)

Definition StatusNew := "new".
Definition StatusUp := "up".
Definition StatusDown := "down".
Definition StatusStarted := "started".
Definition StatusPaused := "paused".

Definition AlertNormal := "normal".
Definition AlertAlerting := "alerting".

Definition PingSuccess := "success".
Definition PingStart := "start".
Definition PingExitCode := "exit_code".

Definition AlertTypeDeadlineMissed := "deadline_missed".
Definition AlertTypeExitCodeFailure := "exit_code_failure".

Definition OutcomeSuccess := "success".
Definition OutcomeFailure := "failure".
Definition OutcomeTimeout := "timeout".
Definition OutcomeInProgress := "in_progress".

Definition MinIntervalSeconds : Z := 60.
Definition MaxIntervalSeconds : Z := 604800.
Definition MaxPayloadBytes : Z := 10240.
Definition MaxNameLength : Z := 255.

(** ** Data *)

Record Heartbeat := MkHeartbeat {
  hb_ID : string;
  hb_PingToken : string;
  hb_Name : string;
  hb_Status : string;
  hb_AlertState : string;
  hb_IntervalSeconds : Z;
  hb_GraceSeconds : Z;
  hb_LastPingAt : option Z;
  hb_NextDeadlineAt : option Z;
  hb_CurrentRunStartedAt : option Z;
  hb_LastExitCode : option Z;
  hb_LastDurationMs : option Z;
  hb_ConsecutiveFailures : Z;
  hb_ConsecutiveSuccesses : Z;
  hb_CreatedAt : Z;
  hb_UpdatedAt : Z;
  hb_AgentID : string;
}.
#[export] Instance Heartbeat_eta : Eta Heartbeat := λ h,
  MkHeartbeat (hb_ID h) (hb_PingToken h) (hb_Name h) (hb_Status h) (hb_AlertState h)
    (hb_IntervalSeconds h) (hb_GraceSeconds h) (hb_LastPingAt h) (hb_NextDeadlineAt h)
    (hb_CurrentRunStartedAt h) (hb_LastExitCode h) (hb_LastDurationMs h)
    (hb_ConsecutiveFailures h) (hb_ConsecutiveSuccesses h) (hb_CreatedAt h) (hb_UpdatedAt h)
    (hb_AgentID h).
#[export] Instance Heartbeat_id : HasId Heartbeat := hb_ID.

Record HeartbeatPing := MkPing {
  pi_ID : string;
  pi_HeartbeatID : string;
  pi_PingType : string;
  pi_ExitCode : option Z;
  pi_SourceIP : string;
  pi_HTTPMethod : string;
  pi_Payload : option string;
  pi_Timestamp : Z;
}.
#[export] Instance HeartbeatPing_eta : Eta HeartbeatPing := λ p,
  MkPing (pi_ID p) (pi_HeartbeatID p) (pi_PingType p) (pi_ExitCode p) (pi_SourceIP p)
    (pi_HTTPMethod p) (pi_Payload p) (pi_Timestamp p).
#[export] Instance HeartbeatPing_id : HasId HeartbeatPing := pi_ID.

Record HeartbeatExecution := MkExecution {
  ex_ID : string;
  ex_HeartbeatID : string;
  ex_StartedAt : option Z;
  ex_CompletedAt : option Z;
  ex_DurationMs : option Z;
  ex_ExitCode : option Z;
  ex_Outcome : string;
  ex_Payload : option string;
}.
#[export] Instance HeartbeatExecution_eta : Eta HeartbeatExecution := λ e,
  MkExecution (ex_ID e) (ex_HeartbeatID e) (ex_StartedAt e) (ex_CompletedAt e)
    (ex_DurationMs e) (ex_ExitCode e) (ex_Outcome e) (ex_Payload e).
#[export] Instance HeartbeatExecution_id : HasId HeartbeatExecution := ex_ID.

(** A row of [heartbeat_pauses]. *)
Record HeartbeatPause := MkPause {
  pa_ID : string;
  pa_HeartbeatID : string;
  pa_PausedAt : Z;
  pa_ResumedAt : option Z;
}.
#[export] Instance HeartbeatPause_eta : Eta HeartbeatPause := λ p,
  MkPause (pa_ID p) (pa_HeartbeatID p) (pa_PausedAt p) (pa_ResumedAt p).
#[export] Instance HeartbeatPause_id : HasId HeartbeatPause := pa_ID.

Record CreateHeartbeatInput := MkCreateInput {
  ci_Name : string;
  ci_IntervalSeconds : Z;
  ci_GraceSeconds : Z;
}.

Record UpdateHeartbeatInput := MkUpdateInput {
  ui_Name : option string;
  ui_IntervalSeconds : option Z;
  ui_GraceSeconds : option Z;
}.

(** What the service touches: the tables, the events it emitted and the calls of
    the alert callback (the heartbeat as it then was, the kind, the details). *)
Record monitoring := MkMonitoring {
  db_heartbeats : list Heartbeat;
  db_pings : list HeartbeatPing;
  db_executions : list HeartbeatExecution;
  db_pauses : list HeartbeatPause;
  hb_events : list (string * list (string * value));
  hb_alerts : list (Heartbeat * string * list (string * value));
}.
#[export] Instance monitoring_eta : Eta monitoring := λ s,
  MkMonitoring (db_heartbeats s) (db_pings s) (db_executions s) (db_pauses s)
    (hb_events s) (hb_alerts s).

Definition empty_monitoring : monitoring := MkMonitoring [] [] [] [] [] [].

Definition ErrHeartbeatNotFound := ESentinel "heartbeat not found".
Definition ErrLimitReached := ESentinel "heartbeat limit reached".
Definition ErrInvalidInput := ESentinel "invalid input".
Definition ErrInvalidExitCode := ESentinel "invalid exit code".
Definition nil_panic := ESentinel "runtime error: nil pointer dereference".

(** ** Store: heartbeats *)

(** [INSERT ... ON CONFLICT(id) DO UPDATE]; the unique index on [ping_token]
    refuses a token another heartbeat has. *)
Definition CreateHeartbeat_store (h : Heartbeat) : M monitoring (result string) :=
  let! id := (if bool_decide (hb_ID h = "") then new_uid else ret (hb_ID h)) in
  let! token := (if bool_decide (hb_PingToken h = "") then new_uid else ret (hb_PingToken h)) in
  let! t := now in
  let! failed := fault in
  if failed then ret (Err EStore)
  else
    let! rows := gets db_heartbeats in
    if bool_decide (id ∈ table_ids rows) then
      do! modify (λ s, s <| db_heartbeats ::= update_id id (λ r,
        r <| hb_Name := hb_Name h |> <| hb_IntervalSeconds := hb_IntervalSeconds h |>
          <| hb_GraceSeconds := hb_GraceSeconds h |> <| hb_UpdatedAt := db_time t |>) |>) in
      ret (Ok id)
    else if existsb (λ r, bool_decide (hb_PingToken r = token)) rows then ret (Err EStore)
    else
      do! modify (λ s, s <| db_heartbeats ::= λ l, l ++ [MkHeartbeat id token (hb_Name h)
        StatusNew AlertNormal (hb_IntervalSeconds h) (hb_GraceSeconds h) None None None None None
        0 0 (db_time t) (db_time t) (uid_Agent (hb_AgentID h))] |>) in
      ret (Ok id).

Definition GetHeartbeatByID (id : string) : M monitoring (result (option Heartbeat)) :=
  db_query (λ s, select_id id (db_heartbeats s)).

Definition has_token (token : string) (h : Heartbeat) : bool :=
  bool_decide (hb_PingToken h = token).

Definition GetHeartbeatByPingToken (token : string) : M monitoring (result (option Heartbeat)) :=
  db_query (λ s, head (select_where (has_token token) (db_heartbeats s))).

(** [status IN ('up','started')]. *)
Definition monitored (h : Heartbeat) : bool :=
  bool_decide (hb_Status h = StatusUp) || bool_decide (hb_Status h = StatusStarted).

(** The columns an update of the settings writes: the deadline keeps its
    distance to the end of the window the settings describe. *)
Definition edit_row (t : Z) (input : UpdateHeartbeatInput) (h : Heartbeat) : Heartbeat :=
  let interval := default (hb_IntervalSeconds h) (ui_IntervalSeconds input) in
  let grace := default (hb_GraceSeconds h) (ui_GraceSeconds input) in
  let edited := negb (bool_decide (ui_IntervalSeconds input = None))
             || negb (bool_decide (ui_GraceSeconds input = None)) in
  h <| hb_UpdatedAt := db_time t |>
    <| hb_Name := default (hb_Name h) (ui_Name input) |>
    <| hb_IntervalSeconds := interval |>
    <| hb_GraceSeconds := grace |>
    <| hb_NextDeadlineAt :=
         if edited && monitored h
         then (λ d, of_unix (unix d - hb_IntervalSeconds h - hb_GraceSeconds h + interval + grace))
              <$> hb_NextDeadlineAt h
         else hb_NextDeadlineAt h |>.

Definition UpdateHeartbeat_store (id : string) (input : UpdateHeartbeatInput)
    : M monitoring (result unit) :=
  let! t := now in
  db_exec (λ s, s <| db_heartbeats ::= update_id id (edit_row t input) |>).

Definition of_heartbeat {R} (key : R → string) (id : string) (r : R) : bool :=
  bool_decide (key r = id).

Definition DeleteHeartbeat_store (id : string) : M monitoring (result unit) :=
  db_exec (λ s, s
    <| db_heartbeats ::= delete_where (λ h, bool_decide (hb_ID h = id)) |>
    <| db_pings ::= delete_where (of_heartbeat pi_HeartbeatID id) |>
    <| db_executions ::= delete_where (of_heartbeat ex_HeartbeatID id) |>
    <| db_pauses ::= delete_where (of_heartbeat pa_HeartbeatID id) |>).

Definition UpdateHeartbeatState (id status alertState : string)
    (lastPingAt nextDeadlineAt currentRunStartedAt lastExitCode lastDurationMs : option Z)
    (consecutiveFailures consecutiveSuccesses : Z) : M monitoring (result unit) :=
  let! t := now in
  db_exec (λ s, s <| db_heartbeats ::= update_id id (λ h,
    h <| hb_Status := status |> <| hb_AlertState := alertState |>
      <| hb_LastPingAt := db_time <$> lastPingAt |>
      <| hb_NextDeadlineAt := db_time <$> nextDeadlineAt |>
      <| hb_CurrentRunStartedAt := db_time <$> currentRunStartedAt |>
      <| hb_LastExitCode := lastExitCode |> <| hb_LastDurationMs := lastDurationMs |>
      <| hb_ConsecutiveFailures := consecutiveFailures |>
      <| hb_ConsecutiveSuccesses := consecutiveSuccesses |>
      <| hb_UpdatedAt := db_time t |>) |>).

Definition RotatePingToken_store (id token : string) : M monitoring (result unit) :=
  let! t := now in
  let! failed := fault in
  if failed then ret (Err EStore)
  else
    let! rows := gets db_heartbeats in
    if existsb (λ r, bool_decide (hb_PingToken r = token) && negb (bool_decide (hb_ID r = id))) rows
       && bool_decide (id ∈ table_ids rows)
    then ret (Err EStore)
    else if bool_decide (id ∈ table_ids rows) then
      do! modify (λ s, s <| db_heartbeats ::= update_id id (λ r,
        r <| hb_PingToken := token |> <| hb_UpdatedAt := db_time t |>) |>) in
      ret (Ok tt)
    else ret (Err ErrHeartbeatNotFound).

(** [status IN ('up','started') AND next_deadline_at < ?]. *)
Definition overdue (now_unix : Z) (h : Heartbeat) : bool :=
  monitored h &&
  match hb_NextDeadlineAt h with
  | Some d => bool_decide (unix d < now_unix)
  | None => false
  end.

Definition ListOverdueHeartbeats (t : Z) : M monitoring (result (list Heartbeat)) :=
  db_query (λ s, select_where (overdue (unix t)) (db_heartbeats s)).

Definition CountActiveHeartbeats : M monitoring (result Z) :=
  db_query (λ s, Z.of_nat (length (db_heartbeats s))).

(** ** Store: pauses *)

Definition open_pause (id : string) (p : HeartbeatPause) : bool :=
  bool_decide (pa_HeartbeatID p = id) && bool_decide (pa_ResumedAt p = None).

Definition end_pauses (id : string) (t : Z) : list HeartbeatPause → list HeartbeatPause :=
  update_where (open_pause id) (λ p, p <| pa_ResumedAt := Some (db_time t) |>).

Definition pause_row (t : Z) (h : Heartbeat) : Heartbeat :=
  h <| hb_Status := StatusPaused |> <| hb_AlertState := AlertNormal |>
    <| hb_NextDeadlineAt := None |> <| hb_UpdatedAt := db_time t |>.

(** A row that references a heartbeat: refused when the heartbeat is gone. *)
Definition insert_child {R} `{!HasId R} (parent : string) (get : monitoring → list R)
    (put_ : list R → monitoring → monitoring) (r : R) : M monitoring (result unit) :=
  let! ids := gets (λ s, table_ids (db_heartbeats s)) in
  if bool_decide (parent ∈ ids) then db_insert get put_ r
  else let! failed := fault in ret (Err EStore).

(** One transaction: the heartbeat leaves monitoring and the pause begins. *)
Definition PauseHeartbeat_store (id : string) (t : Z) : M monitoring (result unit) :=
  let! pauseID := new_uid in
  insert_child id db_pauses (λ rows s, s <| db_pauses := rows |>
      <| db_heartbeats ::= update_id id (pause_row t) |>)
    (MkPause pauseID id (db_time t) None).

Definition ResumeHeartbeat_store (id : string) (t nextDeadlineAt : Z) : M monitoring (result unit) :=
  db_exec (λ s, s
    <| db_heartbeats ::= update_id id (λ h, h <| hb_Status := StatusUp |>
         <| hb_NextDeadlineAt := Some (db_time nextDeadlineAt) |> <| hb_UpdatedAt := db_time t |>) |>
    <| db_pauses ::= end_pauses id t |>).

Definition EndPause (id : string) (t : Z) : M monitoring (result unit) :=
  db_exec (λ s, s <| db_pauses ::= end_pauses id t |>).

(** ** Store: pings and executions *)

Definition InsertPing (p : HeartbeatPing) : M monitoring (result string) :=
  let! id := new_uid in
  do? insert_child (pi_HeartbeatID p) db_pings (λ rows s, s <| db_pings := rows |>)
    (p <| pi_ID := id |> <| pi_Timestamp ::= db_time |>) in
  ret (Ok id).

Definition InsertExecution (e : HeartbeatExecution) : M monitoring (result string) :=
  let! id := new_uid in
  do? insert_child (ex_HeartbeatID e) db_executions (λ rows s, s <| db_executions := rows |>)
    (e <| ex_ID := id |> <| ex_StartedAt := db_time <$> ex_StartedAt e |>
       <| ex_CompletedAt := db_time <$> ex_CompletedAt e |>) in
  ret (Ok id).

Definition UpdateExecution (id : string) (completedAt durationMs exitCode : option Z)
    (outcome : string) (payload : option string) : M monitoring (result unit) :=
  db_exec (λ s, s <| db_executions ::= update_id id (λ e,
    e <| ex_CompletedAt := db_time <$> completedAt |> <| ex_DurationMs := durationMs |>
      <| ex_ExitCode := exitCode |> <| ex_Outcome := outcome |> <| ex_Payload := payload |>) |>).

Definition in_progress (heartbeatID : string) (e : HeartbeatExecution) : bool :=
  bool_decide (ex_HeartbeatID e = heartbeatID) && bool_decide (ex_Outcome e = OutcomeInProgress).

Definition GetCurrentExecution (heartbeatID : string)
    : M monitoring (result (option HeartbeatExecution)) :=
  db_query (λ s, last (order_by_id (select_where (in_progress heartbeatID) (db_executions s)))).
