(* ===== verification/HeartbeatService.v ===== *)
(** * Heartbeat monitors: the service

    [src/internal/heartbeat/service.go] and [agent_event.go]: creation, settings,
    the three kinds of ping, pausing, and the deadline checker.  The callbacks for
    events and alerts are optional in the program; here the events and the alert
    calls they would receive are recorded.  The licence is an interface. *)

From S2P Require Import Prelude.
From S2P Require Import Tables.
From S2P Require Import GoStrings.
From S2P Require Import GoTime.
From S2P Require Import AlertModel.
From S2P Require Import Heartbeat.

#[local] Open Scope string_scope.
#[local] Open Scope list_scope.
#[local] Open Scope Z_scope.

Definition HeartbeatCreated := "heartbeat.created".
Definition HeartbeatUpdated := "heartbeat.updated".
Definition HeartbeatPingReceived := "heartbeat.ping_received".
Definition HeartbeatStatusChanged := "heartbeat.status_changed".
Definition HeartbeatAlert := "heartbeat.alert".
Definition HeartbeatRecovery := "heartbeat.recovery".
Definition HeartbeatDeleted := "heartbeat.deleted".

Class LicenseChecker := {
  CanCreateHeartbeat : Z → bool;
  CanStorePayload : bool;
}.

(** ** Helpers *)

Definition go_len (s : string) : Z := Z.of_nat (length (to_bytes s)).

Definition emitEvent (eventType : string) (data : list (string * value)) : M monitoring unit :=
  modify (λ s, s <| hb_events ::= λ l, l ++ [(eventType, data)] |>).

Definition alertCallback (h : Heartbeat) (kind : string) (details : list (string * value))
    : M monitoring unit :=
  modify (λ s, s <| hb_alerts ::= λ l, l ++ [(h, kind, details)] |>).

Definition validateCreateInput (input : CreateHeartbeatInput) : result unit :=
  if bool_decide (go_len (ci_Name input) = 0) || bool_decide (MaxNameLength < go_len (ci_Name input))
  then Err (ESentinel "name")
  else if bool_decide (ci_IntervalSeconds input < MinIntervalSeconds)
       || bool_decide (MaxIntervalSeconds < ci_IntervalSeconds input)
  then Err (ESentinel "interval")
  else if bool_decide (ci_GraceSeconds input < 0)
       || bool_decide (ci_IntervalSeconds input < ci_GraceSeconds input)
  then Err (ESentinel "grace")
  else Ok tt.

(** The check of an update against the row it edits. *)
Definition validateUpdate (h : Heartbeat) (input : UpdateHeartbeatInput) : result unit :=
  if match ui_Name input with
     | Some name => bool_decide (go_len name = 0) || bool_decide (MaxNameLength < go_len name)
     | None => false
     end
  then Err ErrInvalidInput
  else if match ui_IntervalSeconds input with
          | Some i => bool_decide (i < MinIntervalSeconds) || bool_decide (MaxIntervalSeconds < i)
          | None => false
          end
  then Err ErrInvalidInput
  else if negb (bool_decide (ui_IntervalSeconds input = None))
       || negb (bool_decide (ui_GraceSeconds input = None))
  then
    let interval := default (hb_IntervalSeconds h) (ui_IntervalSeconds input) in
    let grace := default (hb_GraceSeconds h) (ui_GraceSeconds input) in
    if bool_decide (grace < 0) || bool_decide (interval < grace) then Err ErrInvalidInput
    else Ok tt
  else Ok tt.

(** The end of the window that opens at [t]. *)
Definition deadline_from (t : Z) (h : Heartbeat) : Z :=
  t + seconds (wrap64 (hb_IntervalSeconds h + hb_GraceSeconds h)).

(** [d.Milliseconds()]. *)
Definition milliseconds (d : Z) : Z := Z.quot d 1000000.

(** How long the run lasted that a ping ends, when it ends one. *)
Definition run_duration (t : Z) (h : Heartbeat) : option Z :=
  if bool_decide (hb_Status h = StatusStarted)
  then (λ started, milliseconds (time_sub t started)) <$> hb_CurrentRunStartedAt h
  else None.

Section Service.
Context {License : LicenseChecker}.

Definition filterPayload (payload : option string) : option string :=
  match payload with
  | None => None
  | Some p =>
    if negb CanStorePayload then None
    else if bool_decide (MaxPayloadBytes < go_len p)
    then Some (of_bytes (take (Z.to_nat MaxPayloadBytes) (to_bytes p)))
    else Some p
  end.

(** ** Creation and settings *)

Definition CreateHeartbeat (input : CreateHeartbeatInput) (token : string)
    : M monitoring (result Heartbeat) :=
  match validateCreateInput input with
  | Err _ => ret (Err ErrInvalidInput)
  | Ok _ =>
    let? count := CountActiveHeartbeats in
    if negb (CanCreateHeartbeat count) then ret (Err ErrLimitReached)
    else
      let! id := new_uid in
      let? id := CreateHeartbeat_store (MkHeartbeat id token (ci_Name input) StatusNew AlertNormal
        (ci_IntervalSeconds input) (ci_GraceSeconds input) None None None None None 0 0
        zero_time zero_time "") in
      let? created := GetHeartbeatByID id in
      match created with
      | None => ret (Err nil_panic)
      | Some created =>
        do! emitEvent HeartbeatCreated [("heartbeat_id", VString (hb_ID created));
          ("name", VString (hb_Name created)); ("status", VString (hb_Status created))] in
        ret (Ok created)
      end
  end.

Definition GetHeartbeat (id : string) : M monitoring (result Heartbeat) :=
  let? h := GetHeartbeatByID id in
  match h with
  | None => ret (Err ErrHeartbeatNotFound)
  | Some h => ret (Ok h)
  end.

Definition UpdateHeartbeat (id : string) (input : UpdateHeartbeatInput)
    : M monitoring (result Heartbeat) :=
  let? found := GetHeartbeatByID id in
  match found with
  | None => ret (Err ErrHeartbeatNotFound)
  | Some h =>
    match validateUpdate h input with
    | Err e => ret (Err e)
    | Ok _ =>
      do? UpdateHeartbeat_store id input in
      let? found := GetHeartbeatByID id in
      match found with
      | None => ret (Err ErrHeartbeatNotFound)
      | Some updated =>
        do! emitEvent HeartbeatUpdated ([("heartbeat_id", VString (hb_ID updated));
          ("name", VString (hb_Name updated));
          ("interval_seconds", VInt (hb_IntervalSeconds updated));
          ("grace_seconds", VInt (hb_GraceSeconds updated))]
          ++ match hb_NextDeadlineAt updated with
             | Some d => [("next_deadline_at", VTime d)]
             | None => []
             end) in
        ret (Ok updated)
      end
    end
  end.

Definition DeleteHeartbeat (id : string) : M monitoring (result unit) :=
  let? found := GetHeartbeatByID id in
  match found with
  | None => ret (Err ErrHeartbeatNotFound)
  | Some _ =>
    do? DeleteHeartbeat_store id in
    do! emitEvent HeartbeatDeleted [("heartbeat_id", VString id)] in
    ret (Ok tt)
  end.

Definition RotatePingToken (id : string) : M monitoring (result (option Heartbeat)) :=
  let! token := new_uid in
  do? RotatePingToken_store id token in
  GetHeartbeatByID id.

(** ** Pings *)

(** Closes the pause of a heartbeat that a ping has put back to monitoring. *)
Definition endPause (id previous : string) (t : Z) : M monitoring unit :=
  if bool_decide (previous = StatusPaused) then do! EndPause id t in ret tt else ret tt.

Definition status_changed (h : Heartbeat) (old new : string) (more : list (string * value))
    : M monitoring unit :=
  if bool_decide (new = old) then ret tt
  else emitEvent HeartbeatStatusChanged ([("heartbeat_id", VString (hb_ID h));
    ("old_status", VString old); ("new_status", VString new)] ++ more).

(** The columns of [h] that a state update writes. *)
Definition update_state (h : Heartbeat) (status alertState : string) : M monitoring (result unit) :=
  UpdateHeartbeatState (hb_ID h) status alertState (hb_LastPingAt h) (hb_NextDeadlineAt h)
    (hb_CurrentRunStartedAt h) (hb_LastExitCode h) (hb_LastDurationMs h)
    (hb_ConsecutiveFailures h) (hb_ConsecutiveSuccesses h).

(** The execution of a successful ping: the end of the current run, or a record
    of its own. *)
Definition complete_execution (t : Z) (storedPayload : option string) (h : Heartbeat)
    : M monitoring Heartbeat :=
  match (if bool_decide (hb_Status h = StatusStarted) then hb_CurrentRunStartedAt h else None) with
  | Some started =>
    let durationMs := milliseconds (time_sub t started) in
    let! r := GetCurrentExecution (hb_ID h) in
    do! (match r with
         | Ok (Some exec) =>
           UpdateExecution (ex_ID exec) (Some t) (Some durationMs) None OutcomeSuccess storedPayload
         | _ => ret (Ok tt)
         end) in
    ret (h <| hb_LastDurationMs := Some durationMs |> <| hb_CurrentRunStartedAt := None |>)
  | None =>
    do! InsertExecution (MkExecution "" (hb_ID h) None (Some t) None None OutcomeSuccess storedPayload) in
    ret h
  end.

Definition ProcessPing (token sourceIP httpMethod : string) (payload agentID : option string)
    : M monitoring (result Heartbeat) :=
  let? found := GetHeartbeatByPingToken token in
  match found with
  | None => ret (Err ErrHeartbeatNotFound)
  | Some h =>
    let! t := now in
    let previousStatus := hb_Status h in
    let storedPayload := filterPayload payload in
    do! InsertPing (MkPing "" (hb_ID h) PingSuccess None sourceIP httpMethod storedPayload t) in
    let h := h <| hb_LastPingAt := Some t |>
               <| hb_NextDeadlineAt := Some (deadline_from t h) |>
               <| hb_ConsecutiveSuccesses := wrap64 (hb_ConsecutiveSuccesses h + 1) |>
               <| hb_ConsecutiveFailures := 0 |> in
    let! h := complete_execution t storedPayload h in
    let recovering := bool_decide (previousStatus = StatusDown)
                   || bool_decide (hb_AlertState h = AlertAlerting) in
    let alertState := if recovering then AlertNormal else hb_AlertState h in
    do? update_state h StatusUp alertState in
    do! endPause (hb_ID h) previousStatus t in
    do! emitEvent HeartbeatPingReceived [("heartbeat_id", VString (hb_ID h));
      ("ping_type", VString PingSuccess); ("status", VString StatusUp); ("agent_id", VStringPtr agentID)] in
    do! status_changed h previousStatus StatusUp [("agent_id", VStringPtr agentID)] in
    when! recovering then
      (do! emitEvent HeartbeatRecovery [("heartbeat_id", VString (hb_ID h));
         ("name", VString (hb_Name h)); ("agent_id", VStringPtr agentID)] in
       alertCallback h "recovery" [("heartbeat_id", VString (hb_ID h)); ("name", VString (hb_Name h))]) in
    ret (Ok (h <| hb_Status := StatusUp |> <| hb_AlertState := alertState |>))
  end.

Definition ProcessStartPing (token sourceIP httpMethod : string) : M monitoring (result Heartbeat) :=
  let? found := GetHeartbeatByPingToken token in
  match found with
  | None => ret (Err ErrHeartbeatNotFound)
  | Some h =>
    let! t := now in
    do! InsertPing (MkPing "" (hb_ID h) PingStart None sourceIP httpMethod None t) in
    let! r := GetCurrentExecution (hb_ID h) in
    do! (match r with
         | Ok (Some exec) => UpdateExecution (ex_ID exec) (Some t) None None OutcomeTimeout None
         | _ => ret (Ok tt)
         end) in
    do! InsertExecution (MkExecution "" (hb_ID h) (Some t) None None None OutcomeInProgress None) in
    let deadline := deadline_from t h in
    do? update_state (h <| hb_NextDeadlineAt := Some deadline |> <| hb_CurrentRunStartedAt := Some t |>)
          StatusStarted (hb_AlertState h) in
    do! endPause (hb_ID h) (hb_Status h) t in
    do! emitEvent HeartbeatPingReceived [("heartbeat_id", VString (hb_ID h));
      ("ping_type", VString PingStart); ("status", VString StatusStarted)] in
    do! status_changed h (hb_Status h) StatusStarted [] in
    ret (Ok (h <| hb_Status := StatusStarted |> <| hb_CurrentRunStartedAt := Some t |>
               <| hb_NextDeadlineAt := Some deadline |>))
  end.

Definition ProcessExitCodePing (token : string) (exitCode : Z) (sourceIP httpMethod : string)
    (payload : option string) : M monitoring (result Heartbeat) :=
  if bool_decide (exitCode < 0) || bool_decide (255 < exitCode) then ret (Err ErrInvalidExitCode)
  else
    let? found := GetHeartbeatByPingToken token in
    match found with
    | None => ret (Err ErrHeartbeatNotFound)
    | Some h =>
      let! t := now in
      let previousStatus := hb_Status h in
      let storedPayload := filterPayload payload in
      do! InsertPing (MkPing "" (hb_ID h) PingExitCode (Some exitCode) sourceIP httpMethod storedPayload t) in
      let h := h <| hb_LastPingAt := Some t |>
                 <| hb_NextDeadlineAt := Some (deadline_from t h) |>
                 <| hb_LastExitCode := Some exitCode |> in
      let durationMs := run_duration t h in
      let h := match durationMs with
               | Some d => h <| hb_LastDurationMs := Some d |> <| hb_CurrentRunStartedAt := None |>
               | None => h
               end in
      let success := bool_decide (exitCode = 0) in
      let outcome := if success then OutcomeSuccess else OutcomeFailure in
      let h := if success
               then h <| hb_ConsecutiveSuccesses := wrap64 (hb_ConsecutiveSuccesses h + 1) |>
                      <| hb_ConsecutiveFailures := 0 |>
               else h <| hb_ConsecutiveFailures := wrap64 (hb_ConsecutiveFailures h + 1) |>
                      <| hb_ConsecutiveSuccesses := 0 |> in
      let alertState :=
        if success
        then if bool_decide (hb_AlertState h = AlertAlerting) then AlertNormal else hb_AlertState h
        else AlertAlerting in
      let! r := GetCurrentExecution (hb_ID h) in
      do! (match r with
           | Ok (Some exec) =>
             do! UpdateExecution (ex_ID exec) (Some t) durationMs (Some exitCode) outcome storedPayload in
             ret tt
           | _ =>
             do! InsertExecution (MkExecution "" (hb_ID h) None (Some t) durationMs (Some exitCode)
                   outcome storedPayload) in
             ret tt
           end) in
      do? update_state h StatusUp alertState in
      do! endPause (hb_ID h) previousStatus t in
      do! emitEvent HeartbeatPingReceived [("heartbeat_id", VString (hb_ID h));
        ("ping_type", VString PingExitCode); ("exit_code", VInt exitCode);
        ("status", VString StatusUp)] in
      do! status_changed h previousStatus StatusUp [] in
      do! (if negb success then
             let text := "exit code " +:+ fmt_d exitCode in
             do! emitEvent HeartbeatAlert [("heartbeat_id", VString (hb_ID h));
               ("name", VString (hb_Name h)); ("alert_type", VString AlertTypeExitCodeFailure);
               ("details", VString text)] in
             alertCallback h "alert" [("heartbeat_id", VString (hb_ID h));
               ("name", VString (hb_Name h)); ("exit_code", VInt exitCode);
               ("alert_type", VString AlertTypeExitCodeFailure); ("message", VString text)]
           else if bool_decide (previousStatus = StatusDown)
                || bool_decide (hb_AlertState h = AlertAlerting) then
             do! emitEvent HeartbeatRecovery [("heartbeat_id", VString (hb_ID h));
               ("name", VString (hb_Name h))] in
             alertCallback h "recovery" [("heartbeat_id", VString (hb_ID h)); ("name", VString (hb_Name h))]
           else ret tt) in
      ret (Ok (h <| hb_Status := StatusUp |> <| hb_AlertState := alertState |>))
    end.

(** A ping relayed by an agent. *)
Definition HandleAgentEvent (agentID token sourceIP : string) : M monitoring (result unit) :=
  if bool_decide (token = "") then ret (Ok tt)
  else
    do? ProcessPing token sourceIP "GET" None (Some agentID) in
    ret (Ok tt).

(** ** The deadline checker *)

Definition check_deadline (t : Z) (h : Heartbeat) : M monitoring unit :=
  let previousStatus := hb_Status h in
  let alertMsg := if bool_decide (previousStatus = StatusStarted)
                  then "Job started but never finished" else "Heartbeat missed deadline" in
  let h := h <| hb_Status := StatusDown |> <| hb_AlertState := AlertAlerting |>
             <| hb_ConsecutiveFailures := wrap64 (hb_ConsecutiveFailures h + 1) |>
             <| hb_ConsecutiveSuccesses := 0 |> in
  let! r := update_state h StatusDown AlertAlerting in
  match r with
  | Err _ => ret tt
  | Ok _ =>
    when! bool_decide (previousStatus = StatusStarted) then
      (let! r := GetCurrentExecution (hb_ID h) in
       match r with
       | Ok (Some exec) =>
         do! UpdateExecution (ex_ID exec) (Some t) None None OutcomeTimeout None in ret tt
       | _ => ret tt
       end) in
    do! emitEvent HeartbeatStatusChanged [("heartbeat_id", VString (hb_ID h));
      ("old_status", VString previousStatus); ("new_status", VString StatusDown)] in
    do! emitEvent HeartbeatAlert [("heartbeat_id", VString (hb_ID h)); ("name", VString (hb_Name h));
      ("alert_type", VString AlertTypeDeadlineMissed); ("details", VString alertMsg)] in
    alertCallback h "alert" [("heartbeat_id", VString (hb_ID h)); ("name", VString (hb_Name h));
      ("alert_type", VString AlertTypeDeadlineMissed); ("message", VString alertMsg)]
  end.

Definition checkDeadlines : M monitoring unit :=
  let! t := now in
  let! r := ListOverdueHeartbeats t in
  match r with
  | Err _ => ret tt
  | Ok overdue => for_each overdue (check_deadline t)
  end.

(** ** Pausing *)

Definition PauseHeartbeat (id : string) : M monitoring (result (option Heartbeat)) :=
  let? found := GetHeartbeatByID id in
  match found with
  | None => ret (Err ErrHeartbeatNotFound)
  | Some h =>
    if bool_decide (hb_Status h = StatusPaused) then ret (Err ErrInvalidInput)
    else
      let! t := now in
      do? PauseHeartbeat_store id t in
      do! emitEvent HeartbeatStatusChanged [("heartbeat_id", VString id);
        ("old_status", VString (hb_Status h)); ("new_status", VString StatusPaused)] in
      GetHeartbeatByID id
  end.

Definition ResumeHeartbeat (id : string) : M monitoring (result (option Heartbeat)) :=
  let? found := GetHeartbeatByID id in
  match found with
  | None => ret (Err ErrHeartbeatNotFound)
  | Some h =>
    if negb (bool_decide (hb_Status h = StatusPaused)) then ret (Err ErrInvalidInput)
    else
      let! t := now in
      do? ResumeHeartbeat_store id t (deadline_from t h) in
      do! emitEvent HeartbeatStatusChanged [("heartbeat_id", VString id);
        ("old_status", VString StatusPaused); ("new_status", VString StatusUp)] in
      GetHeartbeatByID id
  end.
End Service.

(** ** From callbacks to alert events *)

(** [details[key].(string)]. *)
Definition detail (key : string) (details : list (string * value)) : option value :=
  (λ p, p.2) <$> head (filter (λ p, p.1 = key) details).

(** [%v] of a value that is present. *)
Definition fmt_v (v : option value) : string :=
  match v with
  | Some (VString s) => s
  | Some (VInt z) => fmt_d z
  | _ => "<nil>"
  end.

(** The details reach the alert as their JSON text, a parameter here. *)
Definition heartbeatAlertEvents (json : list (string * value) → details) (h : Heartbeat)
    (alertType : string) (dets : list (string * value)) : list Event :=
  let build t isRecover severity message :=
    MkEvent "heartbeat" t severity isRecover message "heartbeat" (hb_ID h) (hb_Name h)
      (hb_AgentID h) (json dets) zero_time in
  if bool_decide (alertType = "recovery") then
    let msg := "Heartbeat '" +:+ hb_Name h +:+ "' recovered" in
    [build AlertTypeDeadlineMissed true SeverityInfo msg;
     build AlertTypeExitCodeFailure true SeverityInfo msg]
  else
    let hbAlertType := match detail "alert_type" dets with
                       | Some (VString t) => t
                       | _ => AlertTypeDeadlineMissed
                       end in
    let msg := if bool_decide (hbAlertType = AlertTypeExitCodeFailure)
               then "Heartbeat '" +:+ hb_Name h +:+ "' failed with exit code " +:+ fmt_v (detail "exit_code" dets)
               else "Heartbeat '" +:+ hb_Name h +:+ "' missed deadline" in
    [build hbAlertType false SeverityCritical msg].
