(* ===== verification/HeartbeatInvariant.v ===== *)
(** * Heartbeat monitors: invariants

    [hb_inv] is what holds of the monitors whatever calls to the store fail, as
    long as the clock does not go back and drawn identifiers do not repeat: the
    settings are in range, status, alert state and deadline agree, a deadline is
    never nearer than one window after the last ping, and the alert state of a
    row is the one the emitted events leave open.  A handler either keeps the
    monitors as they are or commits one row together with its events. *)

From S2P Require Import Prelude.
From S2P Require Import Tables.
From S2P Require Import GoStrings.
From S2P Require Import GoTime.
From S2P Require Import AlertModel.
From S2P Require Import Heartbeat.
From S2P Require Import HeartbeatService.

#[local] Open Scope string_scope.
#[local] Open Scope list_scope.
#[local] Open Scope Z_scope.

(** ** What the events say of an alert *)

Definition has_detail (key text : string) (data : list (string * value)) : bool :=
  existsb (λ p, bool_decide (p.1 = key) && match p.2 with VString s => bool_decide (s = text) | _ => false end)
    data.

(** Whether the alert of [id] is open after one more event: an alert opens it; a
    recovery, a pause and the deletion of the heartbeat close it. *)
Definition after_event (id : string) (opened : bool) (ev : string * list (string * value)) : bool :=
  if negb (has_detail "heartbeat_id" id ev.2) then opened
  else if bool_decide (ev.1 = HeartbeatAlert) then true
  else if bool_decide (ev.1 = HeartbeatRecovery) || bool_decide (ev.1 = HeartbeatDeleted) then false
  else if bool_decide (ev.1 = HeartbeatStatusChanged) && has_detail "new_status" StatusPaused ev.2
  then false
  else opened.

Definition after_events (id : string) (opened : bool) (evs : list (string * list (string * value))) : bool :=
  foldl (after_event id) opened evs.

Definition alert_open (id : string) (log : list (string * list (string * value))) : bool :=
  after_events id false log.

Lemma alert_open_app id l evs : alert_open id (l ++ evs) = after_events id (alert_open id l) evs.
Proof. apply foldl_app. Qed.

(** The call of the alert callback that goes with an event. *)
Definition call_of_event (ev : string * list (string * value)) : option (string * string) :=
  let id := match detail "heartbeat_id" ev.2 with Some (VString s) => s | _ => "" end in
  if bool_decide (ev.1 = HeartbeatAlert) then Some (id, "alert")
  else if bool_decide (ev.1 = HeartbeatRecovery) then Some (id, "recovery")
  else None.

Definition call_view (c : Heartbeat * string * list (string * value)) : string * string :=
  (hb_ID c.1.1, c.1.2).

(** ** One row *)

Definition in_alert (h : Heartbeat) : bool := bool_decide (hb_AlertState h = AlertAlerting).

Definition window (h : Heartbeat) : Z := hb_IntervalSeconds h + hb_GraceSeconds h.

Record row_ok (past : Z → Prop) (h : Heartbeat) : Prop := {
  ro_interval : MinIntervalSeconds ≤ hb_IntervalSeconds h ≤ MaxIntervalSeconds;
  ro_grace : 0 ≤ hb_GraceSeconds h ≤ hb_IntervalSeconds h;
  ro_state : hb_AlertState h = AlertNormal ∨ hb_AlertState h = AlertAlerting;
  ro_status :
    (hb_Status h = StatusNew ∧ hb_AlertState h = AlertNormal ∧ hb_NextDeadlineAt h = None)
    ∨ (hb_Status h = StatusUp ∧ ∃ d, hb_NextDeadlineAt h = Some d)
    ∨ (hb_Status h = StatusStarted ∧ ∃ d t, hb_NextDeadlineAt h = Some d
         ∧ hb_CurrentRunStartedAt h = Some t ∧ unix d = unix t + window h)
    ∨ (hb_Status h = StatusDown ∧ hb_AlertState h = AlertAlerting)
    ∨ (hb_Status h = StatusPaused ∧ hb_AlertState h = AlertNormal ∧ hb_NextDeadlineAt h = None);
  ro_stored : ∀ t, hb_LastPingAt h = Some t ∨ hb_NextDeadlineAt h = Some t
    ∨ hb_CurrentRunStartedAt h = Some t → db_time t = t;
  ro_counters : hb_ConsecutiveFailures h = 0 ∨ hb_ConsecutiveSuccesses h = 0;
  ro_ping : ∀ p, hb_LastPingAt h = Some p → past p
    ∧ (monitored h = true → ∀ d, hb_NextDeadlineAt h = Some d → unix p + window h ≤ unix d);
}.

Lemma row_ok_mono (past past' : Z → Prop) h :
  (∀ t, past t → past' t) → row_ok past h → row_ok past' h.
Proof. intros Hp []. split; try done. intros p Hl. destruct (ro_ping0 p Hl). auto. Qed.

(** The clock has reached [t]. *)
Definition past (w : world monitoring) (t : Z) : Prop :=
  ∀ n, (w_tick w ≤ n)%nat → unix t ≤ unix (env_now (w_env w) n).

(** ** All of them *)

Record hb_env (e : env) : Prop := {
  he_clock : ∀ m n, (m ≤ n)%nat → env_now e m ≤ env_now e n;
  he_uids : ∀ m n, env_uid e m = env_uid e n → m = n;
}.

Record hb_inv (w : world monitoring) : Prop := {
  hi_env : hb_env (w_env w);
  hi_ids : NoDup (table_ids (db_heartbeats (w_st w)));
  hi_fresh : ∀ n, (w_tick w ≤ n)%nat → env_uid (w_env w) n ∉ table_ids (db_heartbeats (w_st w));
  hi_tokens : ∀ h h', h ∈ db_heartbeats (w_st w) → h' ∈ db_heartbeats (w_st w) →
    hb_PingToken h = hb_PingToken h' → h = h';
  hi_rows : ∀ h, h ∈ db_heartbeats (w_st w) → row_ok (past w) h;
  hi_log : ∀ h, h ∈ db_heartbeats (w_st w) → alert_open (hb_ID h) (hb_events (w_st w)) = in_alert h;
  hi_gone : ∀ id, id ∉ table_ids (db_heartbeats (w_st w)) → alert_open id (hb_events (w_st w)) = false;
  hi_calls : call_view <$> hb_alerts (w_st w) = omap call_of_event (hb_events (w_st w));
}.

(** ** A computation that leaves the monitors as they are *)

Definition core (s : monitoring) := (db_heartbeats s, hb_events s, hb_alerts s).

Definition kept (w w' : world monitoring) : Prop :=
  core (w_st w') = core (w_st w) ∧ w_env w' = w_env w ∧ (w_tick w ≤ w_tick w')%nat.

#[export] Instance kept_preorder : PreOrder kept.
Proof.
  split; [by intros w; split_and!|]. intros w1 w2 w3 (?&?&?) (?&?&?).
  split_and!; [congruence|congruence|lia].
Qed.

Lemma kept_same w w' : same w w' → kept w w'.
Proof. intros (Hs & He & Ht). unfold kept. by rewrite Hs. Qed.

Lemma kept_put w s w' : put w s w' → core s = core (w_st w) → kept w w'.
Proof. intros (Hs & He & Ht) Hc. unfold kept. by rewrite Hs. Qed.

Lemma past_le w w' t :
  w_env w' = w_env w → (w_tick w ≤ w_tick w')%nat → past w t → past w' t.
Proof. intros He Ht Hp n Hn. rewrite He. apply Hp. lia. Qed.

Lemma hb_inv_kept w w' : hb_inv w → kept w w' → hb_inv w'.
Proof.
  intros [] ([= Hh He Ha] & Henv & Ht). split; rewrite ?Hh, ?He, ?Ha, ?Henv; try done.
  - intros n Hn. apply hi_fresh0. lia.
  - intros h Hin. eapply row_ok_mono; [|by apply hi_rows0]. intros t. by apply past_le.
Qed.

(** ** A committed row *)

(** The row [id] was changed by [f], and these events and calls were emitted. *)
Record commit (w : world monitoring) (id : string) (f : Heartbeat → Heartbeat)
    (evs : list (string * list (string * value)))
    (calls : list (Heartbeat * string * list (string * value))) (w' : world monitoring) : Prop := {
  co_env : w_env w' = w_env w;
  co_tick : (w_tick w ≤ w_tick w')%nat;
  co_rows : db_heartbeats (w_st w') = update_id id f (db_heartbeats (w_st w));
  co_events : hb_events (w_st w') = hb_events (w_st w) ++ evs;
  co_calls : hb_alerts (w_st w') = hb_alerts (w_st w) ++ calls;
}.

Lemma commit_kept w id f evs calls w1 w2 :
  commit w id f evs calls w1 → kept w1 w2 → commit w id f evs calls w2.
Proof. intros [] ([= Hh He Ha] & ? & ?). split; [congruence|lia|congruence..]. Qed.

Lemma kept_commit w w1 id f evs calls w2 :
  kept w w1 → commit w1 id f evs calls w2 → commit w id f evs calls w2.
Proof.
  intros ([= Hh He Ha] & ? & ?) []. split; [congruence|lia|..]; by rewrite <- ?Hh, <- ?He, <- ?Ha.
Qed.

Lemma wp_emitEvent ty data (Q : unit → world monitoring → Prop) w :
  (∀ w', w_env w' = w_env w → w_tick w' = w_tick w →
     w_st w' = w_st w <| hb_events ::= λ l, l ++ [(ty, data)] |> → Q tt w') →
  wp (emitEvent ty data) Q w.
Proof. intros HQ. by apply HQ. Qed.

Lemma wp_commit_event w0 id f evs calls ty data (Q : unit → world monitoring → Prop) w :
  commit w0 id f evs calls w →
  (∀ w', commit w0 id f (evs ++ [(ty, data)]) calls w' → Q tt w') →
  wp (emitEvent ty data) Q w.
Proof.
  intros [] HQ. apply HQ. cbn. split; cbn; try done. by rewrite co_events0, app_assoc.
Qed.

Lemma wp_commit_call w0 id f evs calls h kind data (Q : unit → world monitoring → Prop) w :
  commit w0 id f evs calls w →
  (∀ w', commit w0 id f evs (calls ++ [(h, kind, data)]) w' → Q tt w') →
  wp (alertCallback h kind data) Q w.
Proof.
  intros [] HQ. apply HQ. cbn. split; cbn; try done. by rewrite co_calls0, app_assoc.
Qed.

Lemma hb_inv_commit w id h f evs calls w' :
  hb_inv w → commit w id f evs calls w' → select_id id (db_heartbeats (w_st w)) = Some h →
  (∀ h, hb_ID (f h) = hb_ID h) →
  (hb_PingToken (f h) = hb_PingToken h
   ∨ ∀ h', h' ∈ db_heartbeats (w_st w) → h' ≠ h → hb_PingToken h' ≠ hb_PingToken (f h)) →
  row_ok (past w') (f h) →
  after_events id (in_alert h) evs = in_alert (f h) →
  (∀ i, i ≠ id → Forall (λ ev, has_detail "heartbeat_id" i ev.2 = false) evs) →
  call_view <$> calls = omap call_of_event evs →
  hb_inv w'.
Proof.
  intros [] [] Hsel Hid Htok Hrow Hopen Hothers Hcalls.
  apply select_id_Some in Hsel as [Hin Hh]. change (hb_ID h = id) in Hh.
  assert (∀ h', h' ∈ db_heartbeats (w_st w) → hb_ID h' = id → h' = h) as Huniq.
  { intros h' Hin' Hid'. pose proof (select_id_elem (db_heartbeats (w_st w)) h' hi_ids0 Hin') as H1.
    pose proof (select_id_elem (db_heartbeats (w_st w)) h hi_ids0 Hin) as H2.
    change (row_id h') with (hb_ID h') in H1. change (row_id h) with (hb_ID h) in H2. congruence. }
  assert (∀ i l b, i ≠ id → Forall (λ ev, has_detail "heartbeat_id" i ev.2 = false) l → after_events i b l = b)
    as Hother.
  { intros i l b Hne Hall. revert b. induction Hall as [|ev l Hev Hall IH]; intros b; [done|].
    cbn. unfold after_event at 2. rewrite Hev. apply IH. }
  assert (∀ x, x ∈ db_heartbeats (w_st w') → (x = f h)
    ∨ (x ∈ db_heartbeats (w_st w) ∧ x ≠ h ∧ hb_ID x ≠ id)) as Hcase.
  { intros x. rewrite co_rows0. intros (y & Hy & ->)%update_where_elem.
    destruct (bool_decide_reflect (row_id y = id)) as [Heq|Hne].
    - left. by rewrite (Huniq y Hy Heq).
    - right. split_and!; [done| |done]. intros ->. by apply Hne. }
  assert (table_ids (db_heartbeats (w_st w')) = table_ids (db_heartbeats (w_st w))) as Hids
    by by rewrite co_rows0, update_id_ids.
  split; rewrite ?Hids, ?co_env0, ?co_events0, ?co_calls0; try done.
  - intros n Hn. apply hi_fresh0. lia.
  - intros x y [->|(Hx & Hxn & _)]%Hcase [->|(Hy & Hyn & _)]%Hcase Heq; [done| | |by apply hi_tokens0].
    + destruct Htok as [Htok|Htok]; [|by destruct (Htok y Hy Hyn)].
      rewrite Htok in Heq. by destruct Hyn; symmetry; apply hi_tokens0.
    + destruct Htok as [Htok|Htok]; [|by destruct (Htok x Hx Hxn)].
      rewrite Htok in Heq. by destruct Hxn; apply hi_tokens0.
  - intros x [->|(Hx & _)]%Hcase; [done|].
    eapply row_ok_mono; [|by apply hi_rows0]. intros t. by apply past_le.
  - intros x [->|(Hx & _ & Hne)]%Hcase; rewrite alert_open_app.
    + rewrite Hid, hi_log0, Hh by done. by rewrite <- Hopen.
    + rewrite hi_log0 by done. apply Hother; [done|]. by apply Hothers.
  - intros i Hi. rewrite alert_open_app, hi_gone0 by done. apply Hother.
    + intros ->. apply Hi, list_elem_of_fmap. by exists h.
    + apply Hothers. intros ->. apply Hi, list_elem_of_fmap. by exists h.
  - rewrite fmap_app, omap_app. by f_equal.
Qed.
