(* ===== verification/HeartbeatSteps.v ===== *)
(** * Heartbeat monitors: what each handler commits

    Every handler of the service either leaves the monitors as they are, or
    commits exactly one row, a function of the selected row and of one reading of
    the clock, together with a coherent batch of events and alert calls. *)

From S2P Require Import Prelude.
From S2P Require Import Tables.
From S2P Require Import GoStrings.
From S2P Require Import GoTime.
From S2P Require Import AlertModel.
From S2P Require Import Heartbeat.
From S2P Require Import HeartbeatService.
From S2P Require Import HeartbeatInvariant.

#[local] Open Scope string_scope.
#[local] Open Scope list_scope.
#[local] Open Scope Z_scope.

(** ** Statements that leave the monitors alone *)

Definition still {A} (m : M monitoring A) : Prop := ∀ w, kept w (m w).2.

Lemma still_ret {A} (a : A) : still (ret a).
Proof. intros w. reflexivity. Qed.

Lemma still_bind {A B} (m : M monitoring A) (k : A → M monitoring B) :
  still m → (∀ a, still (k a)) → still (bind m k).
Proof. intros Hm Hk w. unfold bind. etransitivity; [apply Hm|apply Hk]. Qed.

Lemma still_consult {A} (read : env → nat → A) : still (consult read).
Proof. intros w. split_and!; cbn; [done..|lia]. Qed.

Lemma still_gets {A} (f : monitoring → A) : still (gets f).
Proof. intros w. reflexivity. Qed.

Lemma still_modify f : (∀ s, core (f s) = core s) → still (modify f).
Proof. intros Hf w. split_and!; cbn; [apply Hf|done|lia]. Qed.

Lemma still_db_exec f : (∀ s, core (f s) = core s) → still (db_exec f).
Proof.
  intros Hf. apply still_bind; [apply still_consult|]. intros []; [apply still_ret|].
  apply still_bind; [by apply still_modify|intros; apply still_ret].
Qed.

Lemma still_db_query {A} (q : monitoring → A) : still (db_query q).
Proof.
  apply still_bind; [apply still_consult|]. intros []; [apply still_ret|].
  apply still_bind; [apply still_gets|intros; apply still_ret].
Qed.

Lemma still_insert_child {R} `{!HasId R} parent (get : monitoring → list R) put_ r :
  (∀ s rows, core (put_ rows s) = core s) → still (insert_child parent get put_ r).
Proof.
  intros Hp. apply still_bind; [apply still_gets|]. intros ids. destruct (bool_decide _).
  - apply still_bind; [apply still_consult|]. intros []; [apply still_ret|].
    apply still_bind; [apply still_gets|]. intros rows. destruct (insert_row _ _); [|apply still_ret].
    apply still_bind; [by apply still_modify|intros; apply still_ret].
  - apply still_bind; [apply still_consult|intros; apply still_ret].
Qed.

Lemma still_InsertPing p : still (InsertPing p).
Proof.
  apply still_bind; [apply still_consult|]. intros id.
  apply still_bind; [by apply still_insert_child|]. intros []; apply still_ret.
Qed.

Lemma still_InsertExecution e : still (InsertExecution e).
Proof.
  apply still_bind; [apply still_consult|]. intros id.
  apply still_bind; [by apply still_insert_child|]. intros []; apply still_ret.
Qed.

Lemma still_UpdateExecution id a b c o p : still (UpdateExecution id a b c o p).
Proof. by apply still_db_exec. Qed.

Lemma still_GetCurrentExecution id : still (GetCurrentExecution id).
Proof. apply still_db_query. Qed.

Lemma still_endPause id previous t : still (endPause id previous t).
Proof.
  unfold endPause, EndPause. destruct (bool_decide _); [|apply still_ret].
  apply still_bind; [by apply still_db_exec|intros; apply still_ret].
Qed.

Create HintDb still discriminated.
#[export] Hint Resolve still_ret still_InsertPing still_InsertExecution still_UpdateExecution
  still_GetCurrentExecution still_endPause : still.

Ltac still_tac :=
  repeat first
    [ progress intros
    | solve [auto with still]
    | apply still_bind
    | match goal with
      | |- still (if ?b then _ else _) => destruct b
      | |- still (match ?x with _ => _ end) => destruct x
      end ].

Lemma wp_still {A} (m : M monitoring A) (Q : A → world monitoring → Prop) w :
  still m → (∀ a w', kept w w' → Q a w') → wp m Q w.
Proof. intros Hm HQ. apply HQ, Hm. Qed.

Lemma wp_bind_still {A B} (m : M monitoring A) (k : A → M monitoring B) Q w0 w :
  still m → kept w0 w → (∀ a w', kept w0 w' → wp (k a) Q w') → wp (bind m k) Q w.
Proof.
  intros Hm H0 Hk. apply wp_bind, wp_still; [done|]. intros a w' H. apply Hk. by etransitivity.
Qed.

Lemma wp_commit_still {A B} (m : M monitoring A) (k : A → M monitoring B) Q w0 id f evs calls w :
  still m → commit w0 id f evs calls w →
  (∀ a w', commit w0 id f evs calls w' → wp (k a) Q w') → wp (bind m k) Q w.
Proof.
  intros Hm H0 Hk. apply wp_bind, wp_still; [done|]. intros a w' H. apply Hk. by eapply commit_kept.
Qed.

(** ** The state update *)

(** The row [UpdateHeartbeatState] leaves when it writes the columns of [x]. *)
Definition state_row (t : Z) (x r : Heartbeat) : Heartbeat :=
  r <| hb_Status := hb_Status x |> <| hb_AlertState := hb_AlertState x |>
    <| hb_LastPingAt := db_time <$> hb_LastPingAt x |>
    <| hb_NextDeadlineAt := db_time <$> hb_NextDeadlineAt x |>
    <| hb_CurrentRunStartedAt := db_time <$> hb_CurrentRunStartedAt x |>
    <| hb_LastExitCode := hb_LastExitCode x |> <| hb_LastDurationMs := hb_LastDurationMs x |>
    <| hb_ConsecutiveFailures := hb_ConsecutiveFailures x |>
    <| hb_ConsecutiveSuccesses := hb_ConsecutiveSuccesses x |>
    <| hb_UpdatedAt := db_time t |>.

Lemma wp_update_state h status alertState (Q : result unit → world monitoring → Prop) w0 w :
  kept w0 w →
  (∀ w', kept w0 w' → ¬ fault_free w → Q (Err EStore) w') →
  (∀ t w', commit w0 (hb_ID h)
     (state_row t (h <| hb_Status := status |> <| hb_AlertState := alertState |>)) [] [] w' →
     Q (Ok tt) w') →
  wp (update_state h status alertState) Q w.
Proof.
  intros H0 He Ho. apply wp_bind, wp_now. intros w1 H1. apply wp_db_exec.
  - intros w2 H2 Hff. apply He.
    + etransitivity; [exact H0|]. apply kept_same. by eapply same_trans.
    + intros Hw. apply Hff. eapply fault_free_env, Hw. apply H1.
  - intros w2 (Hs2 & He2 & Ht2). apply (Ho (env_now (w_env w) (w_tick w))).
    destruct H0 as ([= Hh Hev Ha] & He0 & Ht0), H1 as (Hs1 & He1 & Ht1).
    split; [congruence|lia|..]; rewrite Hs2, ?app_nil_r; cbn; rewrite ?Hs1; [|congruence..].
    by rewrite Hh.
Qed.

(** ** Coherent events *)

(** The events and calls that take the alert of [id] from [a] to [a']. *)
Record coherent (id : string) (a a' : bool) (evs : list (string * list (string * value)))
    (calls : list (Heartbeat * string * list (string * value))) : Prop := {
  ch_open : after_events id a evs = a';
  ch_others : ∀ i, i ≠ id → Forall (λ ev, has_detail "heartbeat_id" i ev.2 = false) evs;
  ch_calls : call_view <$> calls = omap call_of_event evs;
}.

Lemma has_id_ne i id rest :
  i ≠ id → existsb (λ p : string * value, bool_decide (p.1 = "heartbeat_id")) rest = false →
  has_detail "heartbeat_id" i (("heartbeat_id", VString id) :: rest) = false.
Proof.
  intros Hne Hr. unfold has_detail. cbn [existsb fst snd].
  rewrite (bool_decide_false (id = i)) by congruence. rewrite andb_false_r. cbn [orb]. revert Hr.
  induction rest as [|p rest IH]; cbn; [done|]. intros [-> ?]%orb_false_iff. cbn. auto.
Qed.

Lemma has_id_eq id rest : has_detail "heartbeat_id" id (("heartbeat_id", VString id) :: rest) = true.
Proof. unfold has_detail. cbn [existsb fst snd]. by rewrite !bool_decide_true. Qed.

(** An event about [id] whose details start with the id. *)
Lemma coherent_app id a a1 a2 evs1 evs2 calls1 calls2 :
  coherent id a a1 evs1 calls1 → coherent id a1 a2 evs2 calls2 →
  coherent id a a2 (evs1 ++ evs2) (calls1 ++ calls2).
Proof.
  intros [] []. split.
  - unfold after_events in *. rewrite foldl_app. congruence.
  - intros i Hi. apply Forall_app. auto.
  - rewrite fmap_app, omap_app. congruence.
Qed.

Lemma coherent_nil id a : coherent id a a [] [].
Proof. by split. Qed.

Lemma coherent_one id a ty rest a' :
  existsb (λ p : string * value, bool_decide (p.1 = "heartbeat_id")) rest = false →
  after_event id a (ty, ("heartbeat_id", VString id) :: rest) = a' →
  call_of_event (ty, ("heartbeat_id", VString id) :: rest) = None →
  coherent id a a' [(ty, ("heartbeat_id", VString id) :: rest)] [].
Proof.
  intros Hr Ha Hc. split; [done| |].
  - intros i Hi. apply Forall_singleton. by apply has_id_ne.
  - unfold omap. cbn. by rewrite Hc.
Qed.

Lemma coherent_call h a ty rest a' kind dets :
  existsb (λ p : string * value, bool_decide (p.1 = "heartbeat_id")) rest = false →
  after_event (hb_ID h) a (ty, ("heartbeat_id", VString (hb_ID h)) :: rest) = a' →
  call_of_event (ty, ("heartbeat_id", VString (hb_ID h)) :: rest) = Some (hb_ID h, kind) →
  coherent (hb_ID h) a a' [(ty, ("heartbeat_id", VString (hb_ID h)) :: rest)] [(h, kind, dets)].
Proof.
  intros Hr Ha Hc. split; [done| |].
  - intros i Hi. apply Forall_singleton. by apply has_id_ne.
  - unfold omap. cbn. by rewrite Hc.
Qed.

(** ** The pings *)

(** A reading of the clock between two worlds. *)
Definition read_at (w w' : world monitoring) (t : Z) : Prop :=
  ∃ n, (w_tick w ≤ n < w_tick w')%nat ∧ t = env_now (w_env w) n.

(** The handler committed [row t h] for the heartbeat [h]. *)
Definition committed (w : world monitoring) (h : Heartbeat) (row : Z → Heartbeat → Heartbeat)
    (w' : world monitoring) : Prop :=
  ∃ t t' evs calls, read_at w w' t
    ∧ commit w (hb_ID h) (state_row t' (row t h)) evs calls w'
    ∧ coherent (hb_ID h) (in_alert h) (in_alert (row t h)) evs calls.

Definition by_token (token : string) (s : monitoring) : option Heartbeat :=
  head (select_where (has_token token) (db_heartbeats s)).

(** What a ping handler promises: it changes nothing, and then it had to fail or
    no heartbeat has the token; or it commits [row] and returns a heartbeat. *)
Definition ping_post (token : string) (row : Z → Heartbeat → Heartbeat) (w : world monitoring)
    (r : result Heartbeat) (w' : world monitoring) : Prop :=
  (kept w w' ∧ (fault_free w → by_token token (w_st w) = None ∧ r = Err ErrHeartbeatNotFound))
  ∨ (∃ h h', by_token token (w_st w) = Some h ∧ committed w h row w' ∧ r = Ok h').

(** The end of a run, when the ping ends one. *)
Definition end_run (t : Z) (h : Heartbeat) : Heartbeat :=
  match run_duration t h with
  | Some d => h <| hb_LastDurationMs := Some d |> <| hb_CurrentRunStartedAt := None |>
  | None => h
  end.

Definition recovering (h : Heartbeat) : bool :=
  bool_decide (hb_Status h = StatusDown) || bool_decide (hb_AlertState h = AlertAlerting).

Definition ping_row (t : Z) (h : Heartbeat) : Heartbeat :=
  end_run t (h <| hb_LastPingAt := Some t |> <| hb_NextDeadlineAt := Some (deadline_from t h) |>
      <| hb_ConsecutiveSuccesses := wrap64 (hb_ConsecutiveSuccesses h + 1) |>
      <| hb_ConsecutiveFailures := 0 |>)
    <| hb_Status := StatusUp |>
    <| hb_AlertState := if recovering h then AlertNormal else hb_AlertState h |>.

Definition start_row (t : Z) (h : Heartbeat) : Heartbeat :=
  h <| hb_Status := StatusStarted |> <| hb_NextDeadlineAt := Some (deadline_from t h) |>
    <| hb_CurrentRunStartedAt := Some t |>.

(** The counters after a run that ended with this exit code. *)
Definition count_exit (success : bool) (h : Heartbeat) : Heartbeat :=
  if success
  then h <| hb_ConsecutiveSuccesses := wrap64 (hb_ConsecutiveSuccesses h + 1) |>
         <| hb_ConsecutiveFailures := 0 |>
  else h <| hb_ConsecutiveFailures := wrap64 (hb_ConsecutiveFailures h + 1) |>
         <| hb_ConsecutiveSuccesses := 0 |>.

Definition exit_row (exitCode t : Z) (h : Heartbeat) : Heartbeat :=
  let success := bool_decide (exitCode = 0) in
  count_exit success (end_run t (h <| hb_LastPingAt := Some t |>
      <| hb_NextDeadlineAt := Some (deadline_from t h) |> <| hb_LastExitCode := Some exitCode |>))
    <| hb_Status := StatusUp |>
    <| hb_AlertState := if success then if in_alert h then AlertNormal else hb_AlertState h
                        else AlertAlerting |>.

Lemma end_run_id t h : hb_ID (end_run t h) = hb_ID h.
Proof. unfold end_run. by destruct (run_duration t h). Qed.

Lemma end_run_alert t h : hb_AlertState (end_run t h) = hb_AlertState h.
Proof. unfold end_run. by destruct (run_duration t h). Qed.

Lemma count_exit_id b h : hb_ID (count_exit b h) = hb_ID h.
Proof. by destruct b. Qed.

Lemma count_exit_alert b h : hb_AlertState (count_exit b h) = hb_AlertState h.
Proof. by destruct b. Qed.

Lemma wp_status_changed w0 h f evs calls a old new more (Q : unit → world monitoring → Prop) w :
  existsb (λ p : string * value, bool_decide (p.1 = "heartbeat_id"))
    ([("old_status", VString old); ("new_status", VString new)] ++ more) = false →
  has_detail "new_status" StatusPaused
    ([("heartbeat_id", VString (hb_ID h)); ("old_status", VString old); ("new_status", VString new)] ++ more)
    = false →
  commit w0 (hb_ID h) f evs calls w →
  (∀ evs' w', commit w0 (hb_ID h) f (evs ++ evs') calls w' → coherent (hb_ID h) a a evs' [] → Q tt w') →
  wp (status_changed h old new more) Q w.
Proof.
  intros Hd Hn Hc HQ. unfold status_changed. destruct (bool_decide _).
  - apply wp_ret, (HQ []); [by rewrite app_nil_r|apply coherent_nil].
  - eapply wp_commit_event; [exact Hc|]. intros w' Hc'. eapply HQ; [exact Hc'|].
    apply (coherent_one _ _ _ ([("old_status", VString old); ("new_status", VString new)] ++ more)); [done| |].
    + unfold after_event. cbn [fst snd]. rewrite has_id_eq. cbn [negb].
      rewrite (bool_decide_false (HeartbeatStatusChanged = _)), !(bool_decide_false (HeartbeatStatusChanged = _)) by done.
      rewrite bool_decide_true by done. cbn [orb andb app] in *. by rewrite Hn.
    + unfold call_of_event. cbn [fst snd]. by rewrite !bool_decide_false by done.
Qed.

Lemma wp_complete_execution t payload h w :
  wp (complete_execution t payload h) (λ h' w', kept w w' ∧ h' = end_run t h) w.
Proof.
  unfold complete_execution, end_run, run_duration.
  destruct (bool_decide _); [destruct (hb_CurrentRunStartedAt h) as [started|]|]; cbn [fmap option_fmap option_map].
  - apply (wp_bind_still _ _ _ w); [auto with still|done|]. intros r w1 H1.
    apply (wp_bind_still _ _ _ w); [still_tac|done|]. intros _ w2 H2. by apply wp_ret.
  - apply (wp_bind_still _ _ _ w); [auto with still|done|]. intros _ w1 H1. by apply wp_ret.
  - apply (wp_bind_still _ _ _ w); [auto with still|done|]. intros _ w1 H1. by apply wp_ret.
Qed.

Lemma wp_by_token token (Q : result (option Heartbeat) → world monitoring → Prop) w :
  (∀ w', kept w w' → ¬ fault_free w → Q (Err EStore) w') →
  (∀ w', kept w w' → Q (Ok (by_token token (w_st w))) w') →
  wp (GetHeartbeatByPingToken token) Q w.
Proof.
  intros He Ho. apply wp_db_query.
  - intros w' H Hff. apply He; [by apply kept_same|done].
  - intros w' H. apply Ho. by apply kept_same.
Qed.

(** The two events of a recovery and of an alert, with their calls. *)
Lemma coherent_recovery h0 h a rest dets :
  hb_ID h = hb_ID h0 →
  existsb (λ p : string * value, bool_decide (p.1 = "heartbeat_id")) rest = false →
  coherent (hb_ID h0) a false [(HeartbeatRecovery, ("heartbeat_id", VString (hb_ID h)) :: rest)]
    [(h, "recovery", dets)].
Proof.
  intros <- Hr. apply coherent_call; [done| |].
  - unfold after_event. cbn [fst snd]. rewrite has_id_eq. done.
  - done.
Qed.

Lemma coherent_alert h0 h a rest dets :
  hb_ID h = hb_ID h0 →
  existsb (λ p : string * value, bool_decide (p.1 = "heartbeat_id")) rest = false →
  coherent (hb_ID h0) a true [(HeartbeatAlert, ("heartbeat_id", VString (hb_ID h)) :: rest)]
    [(h, "alert", dets)].
Proof.
  intros <- Hr. apply coherent_call; [done| |].
  - unfold after_event. cbn [fst snd]. rewrite has_id_eq. done.
  - done.
Qed.

Lemma coherent_received h0 h a rest :
  hb_ID h = hb_ID h0 →
  existsb (λ p : string * value, bool_decide (p.1 = "heartbeat_id")) rest = false →
  coherent (hb_ID h0) a a [(HeartbeatPingReceived, ("heartbeat_id", VString (hb_ID h)) :: rest)] [].
Proof.
  intros <- Hr. apply coherent_one; [done| |done].
  unfold after_event. cbn [fst snd]. by rewrite has_id_eq.
Qed.

(** A committed batch that grew by coherent events. *)
Record batch (w0 : world monitoring) (h : Heartbeat) (f : Heartbeat → Heartbeat) (a : bool)
    (w : world monitoring) : Prop := {
  ba_some : ∃ evs calls, commit w0 (hb_ID h) f evs calls w ∧ coherent (hb_ID h) (in_alert h) a evs calls;
}.

Lemma batch_start w0 h x f w :
  hb_ID x = hb_ID h → commit w0 (hb_ID x) f [] [] w → batch w0 h f (in_alert h) w.
Proof. intros -> H. split. exists [], []. split; [done|apply coherent_nil]. Qed.

Lemma batch_still {A B} (m : M monitoring A) (k : A → M monitoring B) Q w0 h f a w :
  still m → batch w0 h f a w → (∀ x w', batch w0 h f a w' → wp (k x) Q w') → wp (bind m k) Q w.
Proof.
  intros Hm [(evs & calls & Hc & Hco)] Hk. eapply wp_commit_still; [done|exact Hc|].
  intros x w' Hc'. apply Hk. split. by exists evs, calls.
Qed.

Lemma batch_event {B} (k : unit → M monitoring B) Q w0 h f a a' ty data w :
  coherent (hb_ID h) a a' [(ty, data)] [] → batch w0 h f a w →
  (∀ w', batch w0 h f a' w' → wp (k tt) Q w') → wp (bind (emitEvent ty data) k) Q w.
Proof.
  intros Hev [(evs & calls & Hc & Hco)] Hk. apply wp_bind. eapply wp_commit_event; [exact Hc|].
  intros w' Hc'. apply Hk. split. exists (evs ++ [(ty, data)]), (calls ++ []).
  rewrite app_nil_r at 1. split; [done|]. by eapply coherent_app.
Qed.

Lemma batch_changed {B} (k : unit → M monitoring B) Q w0 h x f a old new more w :
  hb_ID x = hb_ID h →
  existsb (λ p : string * value, bool_decide (p.1 = "heartbeat_id"))
    ([("old_status", VString old); ("new_status", VString new)] ++ more) = false →
  has_detail "new_status" StatusPaused
    ([("heartbeat_id", VString (hb_ID x)); ("old_status", VString old); ("new_status", VString new)] ++ more)
    = false →
  batch w0 h f a w → (∀ w', batch w0 h f a w' → wp (k tt) Q w') →
  wp (bind (status_changed x old new more) k) Q w.
Proof.
  intros Hx Hd Hn [(evs & calls & Hc & Hco)] Hk. apply wp_bind. rewrite <- Hx in Hc.
  eapply (wp_status_changed w0 x); [done|done|exact Hc|].
  intros evs' w' Hc' Hco'. rewrite Hx in Hc', Hco'. apply Hk. split. exists (evs ++ evs'), (calls ++ []).
  rewrite app_nil_r at 1. split; [done|]. eapply coherent_app; [exact Hco|exact Hco'].
Qed.

Lemma batch_pair {B} (k : unit → M monitoring B) Q w0 h x f a a' ty data kind dets w :
  coherent (hb_ID h) a a' [(ty, data)] [(x, kind, dets)] → batch w0 h f a w →
  (∀ w', batch w0 h f a' w' → wp (k tt) Q w') →
  wp (bind (do! emitEvent ty data in alertCallback x kind dets) k) Q w.
Proof.
  intros Hev [(evs & calls & Hc & Hco)] Hk. apply wp_bind, wp_bind.
  eapply wp_commit_event; [exact Hc|]. intros w1 Hc1. eapply wp_commit_call; [exact Hc1|].
  intros w2 Hc2. apply Hk. split. exists (evs ++ [(ty, data)]), (calls ++ [(x, kind, dets)]).
  split; [done|]. by eapply coherent_app.
Qed.

(** Name the value a [let] binds. *)
Ltac name_let x Hx :=
  match goal with
  | |- wp (let y := ?v in @?k y) ?Q ?w =>
    remember v as x eqn:Hx in |- *;
    change (wp (k x) Q w); cbv beta
  end.

Section pings.
Context {License : LicenseChecker}.

Lemma ping_post_err token row w r w' :
  kept w w' → ¬ fault_free w → ping_post token row w r w'.
Proof. intros Hk Hff. left. split; [done|]. by intros ?%Hff. Qed.

Lemma ping_post_none token row w w' :
  kept w w' → by_token token (w_st w) = None → ping_post token row w (Err ErrHeartbeatNotFound) w'.
Proof. intros Hk Hn. by left. Qed.

Lemma ping_post_ok token (row : Z → Heartbeat → Heartbeat) h h' t t' w w1 w' :
  by_token token (w_st w) = Some h → kept w w1 → read_at w w1 t →
  batch w1 h (state_row t' (row t h)) (in_alert (row t h)) w' → ping_post token row w (Ok h') w'.
Proof.
  intros Hh Hk Hr [(evs & calls & Hc & Hco)]. right. exists h, h'. split_and!; [done| |done].
  pose proof (kept_commit _ _ _ _ _ _ _ Hk Hc) as Hc'.
  exists t, t', evs, calls. split_and!; [|done..].
  destruct Hr as (n & Hn & Ht). exists n. split; [|done]. pose proof (co_tick _ _ _ _ _ _ Hc). lia.
Qed.

Lemma wp_read_now {B} (k : Z → M monitoring B) Q w0 w :
  kept w0 w → (∀ t w', kept w0 w' → read_at w0 w' t → wp (k t) Q w') → wp (bind now k) Q w.
Proof.
  intros H0 Hk. apply wp_bind, wp_consult. intros w' H' Ht'. apply Hk.
  - etransitivity; [exact H0|by apply kept_same].
  - exists (w_tick w). destruct H0 as (_ & He & Ht). split; [lia|by rewrite He].
Qed.

Lemma read_at_le w w1 w2 t : read_at w w1 t → (w_tick w1 ≤ w_tick w2)%nat → read_at w w2 t.
Proof. intros (n & Hn & ->) Hle. exists n. split; [lia|done]. Qed.

Lemma wp_ProcessPing token sourceIP httpMethod payload agentID w :
  wp (ProcessPing token sourceIP httpMethod payload agentID) (ping_post token ping_row w) w.
Proof.
  apply wp_bind, wp_by_token; [intros; apply wp_ret; by apply ping_post_err|]. intros w1 H1.
  destruct (by_token token (w_st w)) as [h|] eqn:Hh; [|by apply wp_ret, ping_post_none].
  apply (wp_read_now _ _ w); [done|]. intros t w2 H2 Hr.
  apply (wp_bind_still _ _ _ w2); [auto with still|done|]. intros _ w3 H3.
  name_let x Hx. eapply wp_bind, wp_mono; [apply wp_complete_execution|]. intros y w4 [H4 Hy].
  assert (kept w w4) as H04
    by (etransitivity; [exact H2|]; etransitivity; [exact H3|exact H4]).
  assert (read_at w w4 t) as Hr4.
  { eapply read_at_le; [exact Hr|]. destruct H3 as (_ & _ & ?), H4 as (_ & _ & ?). lia. }
  assert (hb_ID y = hb_ID h) as Hid by (rewrite Hy, end_run_id, Hx; done).
  assert (hb_AlertState y = hb_AlertState h) as Has by (rewrite Hy, end_run_alert, Hx; done).
  assert (y <| hb_Status := StatusUp |>
        <| hb_AlertState := if recovering h then AlertNormal else hb_AlertState h |> = ping_row t h)
    as Hrow by (rewrite Hy, Hx; reflexivity).
  clear - Hh H04 Hr4 Hid Has Hrow. cbv zeta. rewrite !Has. fold (recovering h).
  apply wp_bind, (wp_update_state _ _ _ _ w4); [reflexivity| |].
  { intros w5 H5 Hff. apply wp_ret, ping_post_err; [by etransitivity|].
    intros Hw. apply Hff. eapply fault_free_env, Hw. apply H04. }
  intros t' w5 Hc5. rewrite Hrow in Hc5. apply (batch_start w4 h y) in Hc5; [|done].
  eapply batch_still; [apply still_endPause|exact Hc5|]. intros _ w6 H6.
  eapply batch_event; [by apply coherent_received|exact H6|]. intros w7 H7.
  eapply batch_changed; [done|done|done|exact H7|]. intros w8 H8.
  assert (∀ w', batch w4 h (state_row t' (ping_row t h)) (in_alert (ping_row t h)) w' →
    wp (ret (Ok (y <| hb_Status := StatusUp |>
       <| hb_AlertState := if recovering h then AlertNormal else hb_AlertState h |>)))
      (ping_post token ping_row w) w') as Hend.
  { intros w' Hb. apply wp_ret. by eapply ping_post_ok. }
  unfold in_alert at 1 in Hend. cbn [ping_row hb_AlertState set_field] in Hend.
  destruct (recovering h) eqn:Hrec.
  - eapply batch_pair; [by apply coherent_recovery|exact H8|]. intros w9 H9. by apply Hend.
  - apply wp_bind, wp_ret, Hend. exact H8.
Qed.
Lemma wp_ProcessStartPing token sourceIP httpMethod w :
  wp (ProcessStartPing token sourceIP httpMethod) (ping_post token start_row w) w.
Proof.
  apply wp_bind, wp_by_token; [intros; apply wp_ret; by apply ping_post_err|]. intros w1 H1.
  destruct (by_token token (w_st w)) as [h|] eqn:Hh; [|by apply wp_ret, ping_post_none].
  apply (wp_read_now _ _ w); [done|]. intros t w2 H2 Hr.
  apply (wp_bind_still _ _ _ w2); [auto with still|reflexivity|]. intros _ w3 H3.
  apply (wp_bind_still _ _ _ w2); [auto with still|done|]. intros r w4 H4.
  apply (wp_bind_still _ _ _ w2); [still_tac|done|]. intros _ w5 H5.
  apply (wp_bind_still _ _ _ w2); [auto with still|done|]. intros _ w6 H6. cbv zeta.
  assert (kept w w6) as H06 by (etransitivity; [exact H2|exact H6]).
  assert (read_at w w6 t) as Hr6 by (eapply read_at_le; [exact Hr|apply H6]).
  clear - Hh H06 Hr6.
  apply wp_bind, (wp_update_state _ _ _ _ w6); [reflexivity| |].
  { intros w7 H7 Hff. apply wp_ret, ping_post_err; [by etransitivity|].
    intros Hw. apply Hff. eapply fault_free_env, Hw. apply H06. }
  intros t' w7 Hc7. apply (batch_start w6 h) in Hc7; [|done].
  eapply batch_still; [apply still_endPause|exact Hc7|]. intros _ w8 H8.
  eapply batch_event; [by apply coherent_received|exact H8|]. intros w9 H9.
  eapply batch_changed; [done|done|done|exact H9|]. intros w10 H10.
  apply wp_ret. eapply ping_post_ok; [done..|]. destruct H10 as [(evs & calls & Hc & Hco)].
  split. exists evs, calls. split; [exact Hc|exact Hco].
Qed.

Lemma wp_ProcessExitCodePing token exitCode sourceIP httpMethod payload w :
  0 ≤ exitCode ≤ 255 →
  wp (ProcessExitCodePing token exitCode sourceIP httpMethod payload)
    (ping_post token (exit_row exitCode) w) w.
Proof.
  intros Hcode. cbv beta delta [ProcessExitCodePing]. rewrite !bool_decide_false by lia. change (false || false) with false. cbv iota.
  apply wp_bind, wp_by_token; [intros; apply wp_ret; by apply ping_post_err|]. intros w1 H1.
  destruct (by_token token (w_st w)) as [h|] eqn:Hh; [|by apply wp_ret, ping_post_none].
  apply (wp_read_now _ _ w); [done|]. intros t w2 H2 Hr.
  apply (wp_bind_still _ _ _ w2); [auto with still|reflexivity|]. intros _ w3 H3.
  name_let x Hx. name_let d Hd. name_let y Hy. name_let b Hb. name_let o Ho. name_let z Hz.
  name_let al Hal.
  assert (hb_ID z = hb_ID h ∧ hb_AlertState z = hb_AlertState h ∧
    z <| hb_Status := StatusUp |> <| hb_AlertState := al |> = exit_row exitCode t h) as (Hid & Has & Hrow).
  { assert (y = end_run t x) as Hy' by by rewrite Hy, Hd. clear Hy.
    assert (z = count_exit b y) as Hz' by by rewrite Hz. clear Hz.
    rewrite Hz', count_exit_id, count_exit_alert, Hy', end_run_id, end_run_alert, Hx.
    split_and!; [done..|]. rewrite Hal, Hz', count_exit_alert, Hy', end_run_alert, Hx, Hb. reflexivity. }
  apply (wp_bind_still _ _ _ w2); [auto with still|done|]. intros r w4 H4.
  apply (wp_bind_still _ _ _ w2); [still_tac|done|]. intros _ w5 H5.
  assert (kept w w5) as H05 by (etransitivity; [exact H2|exact H5]).
  assert (read_at w w5 t) as Hr5 by (eapply read_at_le; [exact Hr|apply H5]).
  rewrite Has. clear - Hh H05 Hr5 Hid Hrow Hb.
  apply wp_bind, (wp_update_state _ _ _ _ w5); [reflexivity| |].
  { intros w6 H6 Hff. apply wp_ret, ping_post_err; [by etransitivity|].
    intros Hw. apply Hff. eapply fault_free_env, Hw. apply H05. }
  intros t' w6 Hc6. rewrite Hrow in Hc6. apply (batch_start w5 h z) in Hc6; [|done].
  eapply batch_still; [apply still_endPause|exact Hc6|]. intros _ w7 H7.
  eapply batch_event; [by apply coherent_received|exact H7|]. intros w8 H8.
  eapply batch_changed; [done|done|done|exact H8|]. intros w9 H9.
  assert (∀ w', batch w5 h (state_row t' (exit_row exitCode t h)) (in_alert (exit_row exitCode t h)) w' →
    wp (ret (Ok (z <| hb_Status := StatusUp |> <| hb_AlertState := al |>)))
      (ping_post token (exit_row exitCode) w) w') as Hend.
  { intros w' Hw'. apply wp_ret. by eapply ping_post_ok. }
  assert (in_alert (exit_row exitCode t h) = negb b) as Ha.
  { unfold in_alert at 1. cbn [exit_row hb_AlertState set_field]. rewrite <- Hb.
    destruct b; [|done]. unfold in_alert. by destruct (bool_decide_reflect (hb_AlertState h = AlertAlerting)) as [|Hn];
      [|rewrite bool_decide_false]. }
  rewrite Ha in Hend. destruct b; cbn [negb] in *.
  - fold (recovering h). destruct (recovering h) eqn:Hrec.
    + eapply batch_pair; [by apply coherent_recovery|exact H9|]. intros w10 H10. by apply Hend.
    + apply wp_bind, wp_ret, Hend. unfold recovering in Hrec. apply orb_false_iff in Hrec as [_ Hrec].
      unfold in_alert in H9. by rewrite Hrec in H9.
  - eapply batch_pair; [by apply coherent_alert|exact H9|]. intros w10 H10. by apply Hend.
Qed.
End pings.
