(* ===== verification/HeartbeatCorrect.v ===== *)
(** * Heartbeat monitors: correctness

    Whatever calls fail, every operation keeps [hb_inv]; when nothing fails, a
    ping and a round of the deadline checker are functions of the rows, pauses and
    executions match the status, and the alerts the service raises are the ones
    its recoveries close. *)

From S2P Require Import Prelude.
From S2P Require Import Tables.
From S2P Require Import GoStrings.
From S2P Require Import GoTime.
From S2P Require Import AlertModel.
From S2P Require Import AlertEngine.
From S2P Require Import Heartbeat.
From S2P Require Import HeartbeatService.
From S2P Require Import HeartbeatInvariant.
From S2P Require Import HeartbeatSteps.

#[local] Open Scope string_scope.
#[local] Open Scope list_scope.
#[local] Open Scope Z_scope.

(** ** Rows stay well-formed *)

Lemma past_read w w' t : hb_env (w_env w) → w_env w' = w_env w → read_at w w' t → past w' t.
Proof.
  intros [Hc _] He (n & Hn & ->) m Hm. rewrite He. apply unix_mono, Hc. lia.
Qed.

Lemma deadline_from_unix p t h :
  row_ok p h → unix (db_time (deadline_from t h)) = unix t + window h.
Proof.
  intros []. unfold deadline_from, window, MinIntervalSeconds, MaxIntervalSeconds in *.
  rewrite wrap64_id by (unfold min_int64, max_int64; lia). rewrite seconds_small by lia. apply unix_db_add.
Qed.

Lemma window_pos p h : row_ok p h → 0 ≤ window h.
Proof. intros []. unfold window, MinIntervalSeconds in *. lia. Qed.

Lemma past_db_time w t : past w t → past w (db_time t).
Proof. intros Hp n Hn. rewrite unix_db_time. by apply Hp. Qed.

Lemma state_row_alerting t x r : in_alert (state_row t x r) = in_alert x.
Proof. done. Qed.

(** A row pinged at [t]. *)
Lemma up_row_ok p t t' x h :
  row_ok p h → p (db_time t) → hb_Status x = StatusUp →
  (hb_AlertState x = AlertNormal ∨ hb_AlertState x = AlertAlerting) →
  hb_LastPingAt x = Some t → hb_NextDeadlineAt x = Some (deadline_from t h) →
  (hb_ConsecutiveFailures x = 0 ∨ hb_ConsecutiveSuccesses x = 0) →
  row_ok p (state_row t' x h).
Proof.
  intros Hok Ht Hs Ha Hl Hn Hc. pose proof (deadline_from_unix p t h Hok) as Hd.
  destruct Hok. split; cbn; rewrite ?Hs, ?Hl, ?Hn; cbn; try done.
  - right; left. split; [done|]. by eexists.
  - intros u [[= <-]|[[= <-]|Hu]]; [apply db_time_idemp..|].
    destruct (hb_CurrentRunStartedAt x); [|done]. injection Hu as <-. apply db_time_idemp.
  - intros u [= <-]. split; [done|]. intros _ d [= <-]. rewrite Hd, unix_db_time. unfold window. cbn. lia.
Qed.

Lemma end_run_fields t h :
  hb_LastPingAt (end_run t h) = hb_LastPingAt h ∧ hb_NextDeadlineAt (end_run t h) = hb_NextDeadlineAt h
  ∧ hb_ConsecutiveFailures (end_run t h) = hb_ConsecutiveFailures h
  ∧ hb_ConsecutiveSuccesses (end_run t h) = hb_ConsecutiveSuccesses h.
Proof. unfold end_run. by destruct (run_duration t h). Qed.

Lemma ping_row_ok p t t' h :
  row_ok p h → p (db_time t) → row_ok p (state_row t' (ping_row t h) h).
Proof.
  intros Hok Ht.
  destruct (end_run_fields t (h <| hb_LastPingAt := Some t |> <| hb_NextDeadlineAt := Some (deadline_from t h) |>
    <| hb_ConsecutiveSuccesses := wrap64 (hb_ConsecutiveSuccesses h + 1) |> <| hb_ConsecutiveFailures := 0 |>))
    as (H1 & H2 & H3 & H4).
  apply (up_row_ok p t); [done..| |exact H1|exact H2|left; exact H3].
  change (hb_AlertState (ping_row t h)) with (if recovering h then AlertNormal else hb_AlertState h).
  destruct (recovering h); [by left|apply Hok].
Qed.

Lemma exit_row_ok code p t t' h :
  row_ok p h → p (db_time t) → row_ok p (state_row t' (exit_row code t h) h).
Proof.
  intros Hok Ht. set (x := h <| hb_LastPingAt := Some t |> <| hb_NextDeadlineAt := Some (deadline_from t h) |>
    <| hb_LastExitCode := Some code |>).
  destruct (end_run_fields t x) as (H1 & H2 & _ & _).
  apply (up_row_ok p t); [done..| | | |]; unfold exit_row; fold x; destruct (bool_decide (code = 0)).
  - change (hb_AlertState (set_field _ _ _)) with (if in_alert h then AlertNormal else hb_AlertState h).
    destruct (in_alert h); [by left|apply Hok].
  - by right.
  - exact H1.
  - exact H1.
  - exact H2.
  - exact H2.
  - by left.
  - by right.
Qed.

Lemma start_row_ok p t t' h :
  row_ok p h → p (db_time t) → (∀ u, p u → unix u ≤ unix t) → row_ok p (state_row t' (start_row t h) h).
Proof.
  intros Hok Ht Hle. pose proof (deadline_from_unix p t h Hok) as Hd.
  destruct Hok. split; cbn; try done.
  - right; right; left. split; [done|]. eexists _, _. split_and!; [done..|].
    rewrite Hd, unix_db_time. done.
  - intros u [Hu|[[= <-]|[= <-]]]; [|apply db_time_idemp..].
    destruct (hb_LastPingAt h); [|done]. injection Hu as <-. apply db_time_idemp.
  - intros u Hu. destruct (hb_LastPingAt h) as [v|] eqn:Hv; [|done]. injection Hu as <-.
    destruct (ro_ping v eq_refl) as [Hpv _]. rewrite ro_stored by auto.
    split; [done|]. intros _ d [= <-]. rewrite Hd. unfold window. cbn. specialize (Hle v Hpv). lia.
Qed.

(** ** The deadline checker on one row *)

Definition down_row (h : Heartbeat) : Heartbeat :=
  h <| hb_Status := StatusDown |> <| hb_AlertState := AlertAlerting |>
    <| hb_ConsecutiveFailures := wrap64 (hb_ConsecutiveFailures h + 1) |>
    <| hb_ConsecutiveSuccesses := 0 |>.

Lemma down_row_ok p t' h : row_ok p h → row_ok p (state_row t' (down_row h) h).
Proof.
  intros []. split; cbn; try done; [by right|by do 3 right; left| |by right|].
  - intros u Hu. destruct (hb_LastPingAt h), (hb_NextDeadlineAt h), (hb_CurrentRunStartedAt h);
      destruct Hu as [[= <-]|[[= <-]|[= <-]]]; apply db_time_idemp.
  - intros u Hu. destruct (hb_LastPingAt h) as [v|] eqn:Hv; [|done]. injection Hu as <-.
    rewrite ro_stored by auto. by destruct (ro_ping v eq_refl).
Qed.

(** ** From batches to the invariant *)

Lemma batch_inv w w1 h f a w' :
  hb_inv w → kept w w1 → h ∈ db_heartbeats (w_st w) → batch w1 h f a w' →
  (∀ x, hb_ID (f x) = hb_ID x) →
  (hb_PingToken (f h) = hb_PingToken h
   ∨ ∀ h', h' ∈ db_heartbeats (w_st w) → h' ≠ h → hb_PingToken h' ≠ hb_PingToken (f h)) →
  row_ok (past w') (f h) → a = in_alert (f h) → hb_inv w'.
Proof.
  intros Hi Hk Hin [(evs & calls & Hc & [H1 H2 H3])] Hid Htok Hrow ->.
  eapply (hb_inv_commit w (hb_ID h) h f evs calls); try done.
  - by eapply kept_commit.
  - apply (select_id_elem (db_heartbeats (w_st w))); [apply Hi|done].
Qed.

Lemma row_ok_later w w' h :
  hb_inv w → w_env w' = w_env w → (w_tick w ≤ w_tick w')%nat → h ∈ db_heartbeats (w_st w) →
  row_ok (past w') h.
Proof.
  intros Hi He Ht Hin. eapply row_ok_mono; [|by apply Hi]. intros t. by apply past_le.
Qed.

Lemma by_token_elem token s h : by_token token s = Some h → h ∈ db_heartbeats s ∧ hb_PingToken h = token.
Proof.
  intros Hh%head_Some_elem_of. apply select_where_elem in Hh as [? Ht%bool_decide_eq_true]. done.
Qed.

Lemma ping_post_inv token row w r w' :
  hb_inv w → ping_post token row w r w' →
  (∀ p t t' h, row_ok p h → p (db_time t) → (∀ u, p u → unix u ≤ unix t) →
     row_ok p (state_row t' (row t h) h)) →
  hb_inv w'.
Proof.
  intros Hi [[Hk _]|(h & h' & [Hin _]%by_token_elem & (t & t' & evs & calls & Hr & Hc & Hco) & _)] Hrow;
    [by eapply hb_inv_kept|].
  assert (past w' t) as Hpast.
  { eapply past_read; [apply Hi|apply Hc|done]. }
  eapply (batch_inv w w h); [done|reflexivity|done|split; by exists evs, calls|done|by left| |done].
  (* the row was read before [t] *)
  destruct Hr as (n & Hn & ->).
  set (w1 := World (w_env w) n (w_st w)).
  assert (row_ok (past w1) (state_row t' (row (env_now (w_env w) n) h) h)) as Hok.
  { apply Hrow.
    - apply (row_ok_later w); [done|done|cbn; lia|done].
    - apply past_db_time. intros m Hm. apply unix_mono. apply Hi. exact Hm.
    - intros u Hu. apply (Hu n). cbn. lia. }
  eapply row_ok_mono; [|exact Hok]. intros u. apply past_le; [apply Hc|cbn; lia].
Qed.

(** A statement that changes the row of [h], with or without other tables. *)
Lemma wp_batch_exec h f g (Q : result unit → world monitoring → Prop) w0 w :
  kept w0 w → (∀ s, db_heartbeats (g s) = update_id (hb_ID h) f (db_heartbeats s)) →
  (∀ s, hb_events (g s) = hb_events s ∧ hb_alerts (g s) = hb_alerts s) →
  (∀ w', kept w0 w' → ¬ fault_free w → Q (Err EStore) w') →
  (∀ w', batch w0 h f (in_alert h) w' → Q (Ok tt) w') →
  wp (db_exec g) Q w.
Proof.
  intros H0 Hg Hl He Ho. apply wp_db_exec.
  - intros w' H Hff. apply He; [|done]. etransitivity; [exact H0|by apply kept_same].
  - intros w' (Hs & Henv & Ht). apply Ho. destruct H0 as ([= Hh Hev Ha] & He0 & Ht0). split.
    exists [], []. split; [|apply coherent_nil]. destruct (Hl (w_st w)) as [Hl1 Hl2].
    split; [congruence|lia|..]; rewrite Hs, ?app_nil_r, ?Hg, ?Hl1, ?Hl2; congruence.
Qed.

Lemma wp_by_id id (Q : result (option Heartbeat) → world monitoring → Prop) w0 w :
  kept w0 w → (∀ w', kept w0 w' → ¬ fault_free w → Q (Err EStore) w') →
  (∀ w', kept w0 w' → Q (Ok (select_id id (db_heartbeats (w_st w0)))) w') →
  wp (GetHeartbeatByID id) Q w.
Proof.
  intros H0 He Ho. apply wp_db_query.
  - intros w' H Hff. apply He; [|done]. etransitivity; [exact H0|by apply kept_same].
  - intros w' H. pose proof H0 as ([= Hh _ _] & _). rewrite Hh. apply Ho.
    etransitivity; [exact H0|by apply kept_same].
Qed.

(** Queries at the end of a handler. *)
Lemma inv_still {A} (m : M monitoring A) w : hb_inv w → still m → wp m (λ _ w', hb_inv w') w.
Proof. intros Hi Hm. apply wp_still; [done|]. intros a w' Hk. by eapply hb_inv_kept. Qed.

Lemma still_GetHeartbeatByID id : still (GetHeartbeatByID id).
Proof. apply still_db_query. Qed.

#[local] Hint Resolve still_GetHeartbeatByID : still.

(** An event that opens and closes no alert. *)
Definition neutral (ev : string * list (string * value)) : Prop :=
  (∀ i b, after_event i b ev = b) ∧ call_of_event ev = None.

Lemma neutral_event ty data :
  ty ≠ HeartbeatAlert → ty ≠ HeartbeatRecovery → ty ≠ HeartbeatDeleted →
  (ty = HeartbeatStatusChanged → has_detail "new_status" StatusPaused data = false) →
  neutral (ty, data).
Proof.
  intros H1 H2 H3 H4. split.
  - intros i b. unfold after_event. cbn [fst snd]. destruct (negb _); [done|].
    rewrite (bool_decide_false (ty = HeartbeatAlert)), (bool_decide_false (ty = HeartbeatRecovery)),
      (bool_decide_false (ty = HeartbeatDeleted)) by done. cbn [orb].
    destruct (bool_decide_reflect (ty = HeartbeatStatusChanged)) as [Hty|]; [|done].
    by rewrite H4.
  - unfold call_of_event. cbn [fst snd]. by rewrite !bool_decide_false.
Qed.

Lemma emit_inv ty data w :
  hb_inv w → neutral (ty, data) → wp (emitEvent ty data) (λ _ w', hb_inv w') w.
Proof.
  intros [] [Hn Hc]. apply wp_emitEvent. intros w' He Ht Hs.
  assert (db_heartbeats (w_st w') = db_heartbeats (w_st w)) as Hrows by by rewrite Hs.
  assert (hb_alerts (w_st w') = hb_alerts (w_st w)) as Hal by by rewrite Hs.
  assert (hb_events (w_st w') = hb_events (w_st w) ++ [(ty, data)]) as Hev by by rewrite Hs.
  assert (∀ i, alert_open i (hb_events (w_st w')) = alert_open i (hb_events (w_st w))) as Hopen.
  { intros i. rewrite Hev, alert_open_app. unfold after_events. cbn [foldl]. apply Hn. }
  split; rewrite ?He, ?Ht, ?Hrows, ?Hal; try done.
  - intros h Hin. eapply row_ok_mono; [|by apply hi_rows]. intros t. apply past_le; [done|lia].
  - intros h Hin. rewrite Hopen. auto.
  - intros i Hin. rewrite Hopen. auto.
  - rewrite Hev, omap_app. unfold omap at 2. cbn. by rewrite Hc, app_nil_r.
Qed.

Section operations.
Context {License : LicenseChecker}.

(** ** Settings *)

Lemma validateUpdate_ok h input p :
  row_ok p h → validateUpdate h input = Ok tt →
  let i := default (hb_IntervalSeconds h) (ui_IntervalSeconds input) in
  let g := default (hb_GraceSeconds h) (ui_GraceSeconds input) in
  MinIntervalSeconds ≤ i ≤ MaxIntervalSeconds ∧ 0 ≤ g ≤ i.
Proof.
  intros [] Hv i g. unfold validateUpdate in Hv.
  destruct (match ui_Name input with Some _ => _ | None => _ end); [done|].
  destruct (match ui_IntervalSeconds input with Some _ => _ | None => _ end) eqn:Hi; [done|].
  destruct (negb _ || negb _) eqn:He.
  - destruct (bool_decide (_ < 0) || bool_decide (_ < _)) eqn:Hb; [done|].
    apply orb_false_iff in Hb as [Hb1%bool_decide_eq_false Hb2%bool_decide_eq_false].
    fold i g in Hb1, Hb2. split; [|lia]. subst i. destruct (ui_IntervalSeconds input); [|done].
    apply orb_false_iff in Hi as [?%bool_decide_eq_false ?%bool_decide_eq_false]. cbn. lia.
  - apply orb_false_iff in He as [H1%negb_false_iff H2%negb_false_iff].
    apply bool_decide_eq_true in H1, H2. subst i g. rewrite H1, H2. done.
Qed.

Lemma edit_row_ok p t input h :
  row_ok p h → validateUpdate h input = Ok tt → row_ok p (edit_row t input h).
Proof.
  intros Hok Hv. pose proof (validateUpdate_ok h input p Hok Hv) as [Hi Hg].
  set (e := negb (bool_decide (ui_IntervalSeconds input = None))
         || negb (bool_decide (ui_GraceSeconds input = None))).
  assert (e = false → default (hb_IntervalSeconds h) (ui_IntervalSeconds input) = hb_IntervalSeconds h
    ∧ default (hb_GraceSeconds h) (ui_GraceSeconds input) = hb_GraceSeconds h) as Hsame.
  { intros [H1%negb_false_iff H2%negb_false_iff]%orb_false_iff.
    apply bool_decide_eq_true in H1, H2. by rewrite H1, H2. }
  assert (∀ d, hb_NextDeadlineAt h = Some d → monitored h = true →
    ∃ d', hb_NextDeadlineAt (edit_row t input h) = Some d'
      ∧ unix d' - window (edit_row t input h) = unix d - window h) as Hshift.
  { intros d Hd Hm. unfold edit_row, window. cbn. fold e. rewrite Hm, Hd. destruct e eqn:He; cbn.
    - eexists. split; [done|]. rewrite unix_of_unix. lia.
    - destruct (Hsame eq_refl) as [-> ->]. by exists d. }
  assert (monitored h = false → hb_NextDeadlineAt (edit_row t input h) = hb_NextDeadlineAt h) as Hun.
  { intros Hm. unfold edit_row. cbn. by rewrite Hm, andb_false_r. }
  assert (monitored (edit_row t input h) = monitored h) as Hmon by done.
  assert (hb_Status (edit_row t input h) = hb_Status h) as Hst by done.
  destruct Hok as [Hoi Hog Hos Hstat Hsto Hc Hping]. split; try done.
  - change (hb_AlertState (edit_row t input h)) with (hb_AlertState h).
    change (hb_CurrentRunStartedAt (edit_row t input h)) with (hb_CurrentRunStartedAt h). rewrite Hst.
    assert (∀ st, hb_Status h = st → st ≠ StatusUp → st ≠ StatusStarted → monitored h = false) as Hm.
    { intros st <- H1 H2. unfold monitored. by rewrite !bool_decide_false. }
    destruct Hstat as [(Hs & Ha & Hd)|[(Hs & d & Hd)|[(Hs & d & u & Hd & Hu & Hdu)|[(Hs & Ha)|(Hs & Ha & Hd)]]]].
    + left. rewrite Hun by by apply (Hm _ Hs). done.
    + assert (monitored h = true) as Hup by (unfold monitored; by rewrite Hs).
      right; left. split; [done|]. destruct (Hshift d Hd Hup) as (d' & ? & _). by exists d'.
    + assert (monitored h = true) as Hup by (unfold monitored; by rewrite Hs).
      right; right; left. split; [done|]. destruct (Hshift d Hd Hup) as (d' & Hd' & Hw). exists d', u. split_and!; [done..|lia].
    + by do 3 right; left.
    + do 4 right. rewrite Hun by by apply (Hm _ Hs). done.
  - intros u [Hu|[Hu|Hu]]; [apply Hsto; by left| |apply Hsto; by do 2 right].
    unfold edit_row in Hu. cbn in Hu. destruct (_ && _); [|apply Hsto; by auto].
    destruct (hb_NextDeadlineAt h); [|done]. injection Hu as <-. unfold db_time. by rewrite unix_of_unix.
  - intros q Hq. destruct (Hping q Hq) as [Hpq Hle]. split; [done|]. rewrite Hmon. intros Hm d' Hd'.
    destruct (hb_NextDeadlineAt h) as [d|] eqn:Hd.
    + destruct (Hshift d eq_refl Hm) as (d'' & Hd'' & Hw). rewrite Hd' in Hd''. injection Hd'' as <-.
      specialize (Hle Hm d eq_refl). lia.
    + unfold edit_row in Hd'. cbn in Hd'. rewrite Hd in Hd'. by destruct (_ && _).
Qed.

Lemma UpdateHeartbeat_inv id input w :
  hb_inv w → wp (UpdateHeartbeat id input) (λ _ w', hb_inv w') w.
Proof.
  intros Hi. apply wp_bind, (wp_by_id _ _ w); [reflexivity|intros w1 H1 _; apply wp_ret; by eapply hb_inv_kept|].
  intros w1 H1. destruct (select_id _ _) as [h|] eqn:Hh; [|apply wp_ret; by eapply hb_inv_kept].
  destruct (validateUpdate h input) as [[]|e] eqn:Hv; [|apply wp_ret; by eapply hb_inv_kept].
  apply select_id_Some in Hh as [Hin Hid].
  apply wp_bind, wp_bind, wp_now. intros w2 H2. set (t := env_now _ _).
  assert (kept w w2) as H02 by (etransitivity; [exact H1|by apply kept_same]).
  eapply (wp_batch_exec h (edit_row t input) _ _ w); [exact H02|by intros; rewrite <- Hid|done| |].
  { intros w3 H3 _. apply wp_ret. by eapply hb_inv_kept. }
  intros w3 H3.
  assert (hb_inv w3) as Hi3.
  { eapply (batch_inv w w h); [done|reflexivity|done|exact H3|done|by left| |done].
    apply edit_row_ok; [|done]. destruct H3 as [(? & ? & [] & _)]. by eapply row_ok_later. }
  apply wp_bind, (wp_by_id _ _ w3); [reflexivity|intros w4 H4 _; apply wp_ret; by eapply hb_inv_kept|].
  intros w4 H4. destruct (select_id _ _) as [u|] eqn:Hu; [|apply wp_ret; by eapply hb_inv_kept].
  apply wp_bind. eapply wp_mono; [apply emit_inv; [by eapply hb_inv_kept|by apply neutral_event]|].
  intros ? w5 H5. by apply wp_ret.
Qed.

(** ** Creation, deletion, rotation *)

Lemma DeleteHeartbeat_inv id w : hb_inv w → wp (DeleteHeartbeat id) (λ _ w', hb_inv w') w.
Proof.
  intros Hi. apply wp_bind, (wp_by_id _ _ w); [reflexivity|intros w1 H1 _; apply wp_ret; by eapply hb_inv_kept|].
  intros w1 H1. destruct (select_id _ _) as [h|] eqn:Hh; [|apply wp_ret; by eapply hb_inv_kept].
  assert (hb_inv w1) as Hi1 by by eapply hb_inv_kept.
  apply wp_bind, wp_db_exec; [intros w2 H2 _; apply wp_ret; eapply hb_inv_kept; [done|by apply kept_same]|].
  intros w2 (Hs & He & Ht). apply wp_bind, wp_emitEvent. intros w3 He3 Ht3 Hs3. apply wp_ret.
  assert (db_heartbeats (w_st w3) = delete_where (λ h, bool_decide (hb_ID h = id)) (db_heartbeats (w_st w1)))
    as Hrows by by rewrite Hs3, Hs.
  assert (hb_events (w_st w3) = hb_events (w_st w1) ++ [(HeartbeatDeleted, [("heartbeat_id", VString id)])])
    as Hev by by rewrite Hs3, Hs.
  assert (hb_alerts (w_st w3) = hb_alerts (w_st w1)) as Hal by by rewrite Hs3, Hs.
  assert (∀ i, i ∉ table_ids (db_heartbeats (w_st w3)) → i ≠ id → i ∉ table_ids (db_heartbeats (w_st w1))) as Hgone.
  { intros i Hni Hne Hin. apply Hni. apply list_elem_of_fmap in Hin as (x & -> & Hx).
    apply list_elem_of_fmap. exists x. split; [done|]. rewrite Hrows. apply delete_where_elem.
    split; [done|]. by apply bool_decide_eq_false. }
  assert (∀ x, x ∈ db_heartbeats (w_st w3) → x ∈ db_heartbeats (w_st w1) ∧ hb_ID x ≠ id) as Hel.
  { intros x. rewrite Hrows. by intros [? ?%bool_decide_eq_false]%delete_where_elem. }
  assert (∀ i, alert_open i (hb_events (w_st w3)) = if bool_decide (i = id) then false
    else alert_open i (hb_events (w_st w1))) as Hopen.
  { intros i. rewrite Hev, alert_open_app. unfold after_events. cbn [foldl]. unfold after_event at 1. cbn [fst snd].
    destruct (bool_decide_reflect (i = id)) as [->|Hne].
    - by rewrite has_id_eq.
    - by rewrite has_id_ne by done. }
  destruct Hi1. split; rewrite ?He3, ?He, ?Hal; try done.
  - rewrite Hrows. by apply delete_where_ids.
  - intros n Hn Hin. apply (hi_fresh n); [lia|]. apply list_elem_of_fmap in Hin as (x & Hx & Hxin).
    rewrite Hx. apply (list_elem_of_fmap_2 row_id). by apply Hel.
  - intros x y [Hx _]%Hel [Hy _]%Hel. by apply hi_tokens.
  - intros x [Hx _]%Hel. eapply row_ok_mono; [|by apply hi_rows]. intros t. apply past_le; [congruence|lia].
  - intros x [Hx Hne]%Hel. rewrite Hopen, bool_decide_false by done. auto.
  - intros i Hni. rewrite Hopen. destruct (bool_decide_reflect (i = id)); [done|]. auto.
  - rewrite Hev, omap_app. cbn. by rewrite app_nil_r.
Qed.

Definition new_row (id token name : string) (interval grace t : Z) (agent : string) : Heartbeat :=
  MkHeartbeat id token name StatusNew AlertNormal interval grace None None None None None 0 0
    (db_time t) (db_time t) agent.

Lemma insert_inv w w' h :
  hb_inv w → w_env w' = w_env w → (w_tick w ≤ w_tick w')%nat →
  hb_ID h ∉ table_ids (db_heartbeats (w_st w)) →
  (∀ n, (w_tick w' ≤ n)%nat → env_uid (w_env w) n ≠ hb_ID h) →
  (∀ h', h' ∈ db_heartbeats (w_st w) → hb_PingToken h' ≠ hb_PingToken h) →
  row_ok (past w') h → in_alert h = false →
  db_heartbeats (w_st w') = db_heartbeats (w_st w) ++ [h] →
  hb_events (w_st w') = hb_events (w_st w) → hb_alerts (w_st w') = hb_alerts (w_st w) → hb_inv w'.
Proof.
  intros [] He Ht Hid Hfresh Htok Hok Ha Hrows Hev Hal.
  assert (∀ x, x ∈ db_heartbeats (w_st w') → x ∈ db_heartbeats (w_st w) ∨ x = h) as Hel.
  { intros x. rewrite Hrows. intros [?| ->%list_elem_of_singleton]%elem_of_app; auto. }
  assert (table_ids (db_heartbeats (w_st w')) = table_ids (db_heartbeats (w_st w)) ++ [hb_ID h]) as Hids.
  { rewrite Hrows. unfold table_ids. by rewrite fmap_app. }
  split; rewrite ?He, ?Hev, ?Hal; try done.
  - eapply insert_row_ids; [apply insert_row_Some; by rewrite Hrows|done].
  - intros n Hn. rewrite Hids. intros [Hin| Hin%list_elem_of_singleton]%elem_of_app.
    + by apply (hi_fresh n); [lia|].
    + by apply (Hfresh n).
  - intros x y [Hx| ->]%Hel [Hy| ->]%Hel Heq; [by apply hi_tokens| | |done].
    + by destruct (Htok x Hx).
    + by destruct (Htok y Hy).
  - intros x [Hx| ->]%Hel; [|done]. eapply row_ok_mono; [|by apply hi_rows]. intros t. by apply past_le.
  - intros x [Hx| ->]%Hel; [auto|]. rewrite Ha. by apply hi_gone.
  - intros i Hi. apply hi_gone. intros Hin. apply Hi. rewrite Hids. apply elem_of_app. by left.
Qed.

Lemma validateCreateInput_ok input :
  validateCreateInput input = Ok tt →
  MinIntervalSeconds ≤ ci_IntervalSeconds input ≤ MaxIntervalSeconds
  ∧ 0 ≤ ci_GraceSeconds input ≤ ci_IntervalSeconds input.
Proof.
  unfold validateCreateInput. destruct (bool_decide (go_len _ = 0) || _); [done|].
  destruct (bool_decide (ci_IntervalSeconds input < _) || _) eqn:H1; [done|].
  destruct (bool_decide (ci_GraceSeconds input < 0) || _) eqn:H2; [done|]. intros _.
  apply orb_false_iff in H1 as [?%bool_decide_eq_false ?%bool_decide_eq_false].
  apply orb_false_iff in H2 as [?%bool_decide_eq_false ?%bool_decide_eq_false]. lia.
Qed.

(** An identifier that is not in use and will not be drawn again. *)
Definition unused (w : world monitoring) (id : string) : Prop :=
  (id ∉ table_ids (db_heartbeats (w_st w))) ∧ ∀ n, (w_tick w ≤ n)%nat → env_uid (w_env w) n ≠ id.

Lemma wp_draw (Q : string → world monitoring → Prop) w :
  hb_inv w → (∀ id w', kept w w' → unused w' id → Q id w') → wp new_uid Q w.
Proof.
  intros Hi HQ. apply wp_consult. intros w' H Ht. apply HQ; [by apply kept_same|].
  destruct H as (Hs & He & _). split; rewrite ?Hs, ?He.
  - apply Hi. lia.
  - intros n Hn Heq. apply (he_uids _ (hi_env _ Hi)) in Heq. lia.
Qed.

Lemma unused_kept w w' id : kept w w' → unused w id → unused w' id.
Proof.
  intros ([= Hh _ _] & He & Ht) [H1 H2]. split; rewrite ?Hh, ?He; [done|]. intros n Hn. apply H2. lia.
Qed.

Lemma CreateHeartbeat_store_inv h w :
  hb_inv w → unused w (hb_ID h) →
  MinIntervalSeconds ≤ hb_IntervalSeconds h ≤ MaxIntervalSeconds →
  0 ≤ hb_GraceSeconds h ≤ hb_IntervalSeconds h →
  wp (CreateHeartbeat_store h) (λ _ w', hb_inv w') w.
Proof.
  intros Hi Hu Hint Hgr. unfold CreateHeartbeat_store.
  apply wp_bind, (wp_mono _ (λ id w', kept w w' ∧ unused w' id)).
  { destruct (bool_decide _); [|by apply wp_ret].
    apply wp_draw; [done|]. intros id w1 H1 Hu1. done. }
  intros id w1 [H1 Hu1]. assert (hb_inv w1) as Hi1 by by eapply hb_inv_kept.
  apply wp_bind, (wp_mono _ (λ _ w', kept w1 w')).
  { destruct (bool_decide _); [|by apply wp_ret]. apply wp_consult. intros w2 H2 _. by apply kept_same. }
  intros token w2 H2. apply wp_bind, wp_now. intros w3 H3. set (t := env_now _ _).
  apply wp_bind, wp_fault. intros b w4 H4 _.
  assert (kept w1 w4) as H14.
  { etransitivity; [exact H2|]. etransitivity; apply kept_same; [exact H3|exact H4]. }
  assert (hb_inv w4) as Hi4 by by eapply hb_inv_kept. destruct b; [by apply wp_ret|].
  apply wp_bind, wp_gets. pose proof (unused_kept _ _ _ H14 Hu1) as [Hid Hfresh].
  rewrite bool_decide_false by done. destruct (existsb _ _) eqn:Htok; [by apply wp_ret|].
  apply wp_bind, wp_modify_put. intros w5 (Hs5 & He5 & Ht5). apply wp_ret.
  apply (insert_inv w4 w5 (new_row id token (hb_Name h) (hb_IntervalSeconds h) (hb_GraceSeconds h) t
    (uid_Agent (hb_AgentID h)))); try done; try (by rewrite Hs5).
  - intros n Hn. apply Hfresh. lia.
  - intros x Hx Heq. assert (existsb (λ r, bool_decide (hb_PingToken r = token)) (db_heartbeats (w_st w4)) = true)
      as Htrue; [|congruence]. apply existsb_exists. exists x. split; [by apply list_elem_of_In|].
    by apply bool_decide_eq_true.
  - split; cbn; try done; [by left|by left|by intros u [?|[?|?]]|by left].
Qed.

Lemma CreateHeartbeat_inv input token w :
  hb_inv w → wp (CreateHeartbeat input token) (λ _ w', hb_inv w') w.
Proof.
  intros Hi. unfold CreateHeartbeat.
  destruct (validateCreateInput input) as [[]|] eqn:Hv; [|by apply wp_ret].
  apply validateCreateInput_ok in Hv as [Hint Hgr].
  apply wp_bind, wp_db_query; [intros w1 H1 _; apply wp_ret; eapply hb_inv_kept; [done|by apply kept_same]|].
  intros w1 H1. assert (hb_inv w1) as Hi1 by (eapply hb_inv_kept; [done|by apply kept_same]).
  destruct (negb _); [by apply wp_ret|].
  apply wp_bind, wp_draw; [done|]. intros id w2 H2 Hu.
  assert (hb_inv w2) as Hi2 by by eapply hb_inv_kept.
  eapply wp_bind, wp_mono; [by apply CreateHeartbeat_store_inv|].
  intros [id'|e] w3 H3; [|by apply wp_ret].
  eapply wp_bind, wp_mono; [by apply inv_still; [|apply still_GetHeartbeatByID]|].
  intros [[c|]|e] w4 H4; [|by apply wp_ret..].
  eapply wp_bind, wp_mono; [by apply emit_inv; [|apply neutral_event]|].
  intros ? w5 H5. by apply wp_ret.
Qed.

Lemma RotatePingToken_inv id w : hb_inv w → wp (RotatePingToken id) (λ _ w', hb_inv w') w.
Proof.
  intros Hi. apply wp_bind, wp_consult. intros w1 H1 _. set (token := env_uid _ _).
  apply wp_bind, wp_bind, wp_now. intros w2 H2. set (t := env_now _ _).
  apply wp_bind, wp_fault. intros b w3 H3 _.
  assert (hb_inv w3) as Hi3.
  { eapply hb_inv_kept; [exact Hi|]. etransitivity; [by apply kept_same|].
    etransitivity; apply kept_same; [exact H2|exact H3]. }
  destruct b; [by apply wp_ret, wp_ret|]. apply wp_bind, wp_gets.
  destruct (bool_decide_reflect (id ∈ table_ids (db_heartbeats (w_st w3)))) as [Hin|];
    [rewrite andb_true_r|rewrite andb_false_r; by apply wp_ret, wp_ret].
  destruct (existsb _ _) eqn:Htok; [by apply wp_ret, wp_ret|].
  apply wp_bind, wp_modify_put. intros w4 (Hs4 & He4 & Ht4). apply wp_ret.
  apply list_elem_of_fmap in Hin as (h & -> & Hin). change (row_id h) with (hb_ID h) in *.
  set (f := λ r : Heartbeat, r <| hb_PingToken := token |> <| hb_UpdatedAt := db_time t |>).
  assert (hb_inv w4) as Hi4; [|by apply inv_still, still_GetHeartbeatByID].
  eapply (batch_inv w3 w3 h f); [done|reflexivity|done| |done| | |done].
  - split. exists [], []. split; [|apply coherent_nil].
    split; [done|lia|..]; rewrite Hs4, ?app_nil_r; done.
  - right. intros x Hx Hne Heq. cbn in Heq.
    assert (existsb (λ r, bool_decide (hb_PingToken r = token) && negb (bool_decide (hb_ID r = hb_ID h)))
      (db_heartbeats (w_st w3)) = true) as Htrue; [|congruence].
    apply existsb_exists. exists x. split; [by apply list_elem_of_In|].
    rewrite bool_decide_true by done. rewrite bool_decide_false; [done|]. intros Hid. apply Hne.
    pose proof (select_id_elem (db_heartbeats (w_st w3)) x (hi_ids _ Hi3) Hx) as E1.
    pose proof (select_id_elem (db_heartbeats (w_st w3)) h (hi_ids _ Hi3) Hin) as E2.
    change (row_id x) with (hb_ID x) in E1. change (row_id h) with (hb_ID h) in E2. congruence.
  - destruct (row_ok_later w3 w4 h Hi3 He4 ltac:(lia) Hin). by split.
Qed.

(** ** Pausing *)

Lemma PauseHeartbeat_inv id w : hb_inv w → wp (PauseHeartbeat id) (λ _ w', hb_inv w') w.
Proof.
  intros Hi. apply wp_bind, (wp_by_id _ _ w); [reflexivity|intros w1 H1 _; apply wp_ret; by eapply hb_inv_kept|].
  intros w1 H1. destruct (select_id _ _) as [h|] eqn:Hh; [|apply wp_ret; by eapply hb_inv_kept].
  destruct (bool_decide (hb_Status h = StatusPaused)); [apply wp_ret; by eapply hb_inv_kept|].
  apply select_id_Some in Hh as [Hin Hid]. change (hb_ID h = id) in Hid.
  apply wp_bind, wp_now. intros w2 H2. set (t := env_now _ _).
  apply wp_bind, wp_bind, wp_consult. intros w3 H3 _. set (pid := env_uid _ _).
  assert (kept w w3) as H03.
  { etransitivity; [exact H1|]. etransitivity; apply kept_same; [exact H2|exact H3]. }
  pose proof H03 as ([= Hh3 Hev3 Ha3] & He3 & Ht3).
  apply wp_bind, wp_gets. rewrite bool_decide_true.
  2: { rewrite Hh3, <- Hid. by apply (list_elem_of_fmap_2 row_id). }
  apply wp_db_insert.
  { intros w4 H4 _. apply wp_ret. eapply hb_inv_kept; [exact Hi|]. etransitivity; [exact H03|by apply kept_same]. }
  intros w4 _ (Hs4 & He4 & Ht4).
  assert (batch w h (pause_row t) (in_alert h) w4) as Hb.
  { split. exists [], []. split; [|apply coherent_nil].
    split; [congruence|lia|..]; rewrite Hs4, ?app_nil_r; [|exact Hev3|exact Ha3].
    change (update_id id (pause_row t) (db_heartbeats (w_st w3)) = update_id (hb_ID h) (pause_row t) (db_heartbeats (w_st w))).
    by rewrite Hh3, Hid. }
  eapply (batch_event _ _ _ _ _ _ false); [|exact Hb|].
  { rewrite <- Hid. apply coherent_one; [done| |done]. unfold after_event. cbn [fst snd]. by rewrite has_id_eq. }
  intros w5 H5. apply inv_still; [|apply still_GetHeartbeatByID].
  eapply (batch_inv w w h); [done|reflexivity|done|exact H5|done|by left| |done].
  assert (row_ok (past w5) h) as [] by (destruct H5 as [(? & ? & [] & _)]; by eapply row_ok_later).
  split; try done; [by left|by do 4 right| |].
  - intros u [Hu|[Hu|Hu]]; [apply ro_stored; by left|done|apply ro_stored; by do 2 right].
  - intros u Hu. by destruct (ro_ping u Hu).
Qed.

Lemma ResumeHeartbeat_inv id w : hb_inv w → wp (ResumeHeartbeat id) (λ _ w', hb_inv w') w.
Proof.
  intros Hi. apply wp_bind, (wp_by_id _ _ w); [reflexivity|intros w1 H1 _; apply wp_ret; by eapply hb_inv_kept|].
  intros w1 H1. destruct (select_id _ _) as [h|] eqn:Hh; [|apply wp_ret; by eapply hb_inv_kept].
  destruct (negb _); [apply wp_ret; by eapply hb_inv_kept|].
  apply select_id_Some in Hh as [Hin Hid]. change (hb_ID h = id) in Hid.
  apply (wp_read_now _ _ w); [done|]. intros t w2 H2 Hr.
  set (f := λ x : Heartbeat, x <| hb_Status := StatusUp |>
    <| hb_NextDeadlineAt := Some (db_time (deadline_from t h)) |> <| hb_UpdatedAt := db_time t |>).
  apply wp_bind. eapply (wp_batch_exec h f _ _ w); [exact H2|by intros; rewrite <- Hid|done| |].
  { intros w3 H3 _. apply wp_ret. by eapply hb_inv_kept. }
  intros w3 H3.
  assert (hb_inv w3) as Hi3.
  { eapply (batch_inv w w h f); [done|reflexivity|done|exact H3|done|by left| |done].
    assert (w_env w3 = w_env w ∧ (w_tick w ≤ w_tick w3)%nat) as [He3 Ht3]
      by by destruct H3 as [(? & ? & [] & _)].
    assert (row_ok (past w3) h) as Hok by by eapply row_ok_later.
    pose proof (deadline_from_unix _ t h Hok) as Hd.
    destruct Hok. split; try done.
    - right; left. split; [done|]. by eexists.
    - intros u [Hu|[Hu|Hu]]; [apply ro_stored; by left| |apply ro_stored; by do 2 right].
      injection Hu as <-. apply db_time_idemp.
    - intros u Hu. destruct (ro_ping u Hu) as [Hpu _]. split; [done|]. intros _ d [= <-].
      rewrite Hd. change (window (f h)) with (window h).
      destruct Hr as (n & Hn & ->). pose proof (hi_rows _ Hi h Hin) as [_ _ _ _ _ _ Hping].
      destruct (Hping u Hu) as [Hpast _]. specialize (Hpast n ltac:(lia)). lia. }
  eapply wp_bind, wp_mono; [by apply emit_inv; [|apply neutral_event]|].
  intros ? w4 H4. by apply inv_still, still_GetHeartbeatByID.
Qed.
End operations.

(** ** The deadline checker *)

(** The row of [h] after a round that found it overdue: everything but the time of
    the write, which each statement reads for itself. *)
Definition row_view (h : Heartbeat) : Heartbeat := h <| hb_UpdatedAt := 0 |>.

Lemma state_row_view p t x h :
  row_ok p h → hb_LastPingAt x = hb_LastPingAt h → hb_NextDeadlineAt x = hb_NextDeadlineAt h →
  hb_CurrentRunStartedAt x = hb_CurrentRunStartedAt h →
  hb_ID x = hb_ID h → hb_PingToken x = hb_PingToken h → hb_Name x = hb_Name h →
  hb_IntervalSeconds x = hb_IntervalSeconds h → hb_GraceSeconds x = hb_GraceSeconds h →
  hb_CreatedAt x = hb_CreatedAt h → hb_AgentID x = hb_AgentID h →
  row_view (state_row t x h) = row_view x.
Proof.
  intros [_ _ _ _ Hst _ _] Hl Hn Hr. unfold row_view, state_row. cbn. rewrite Hl, Hn, Hr.
  assert (∀ o, (∀ u, o = Some u → db_time u = u) → db_time <$> o = o) as Hdb.
  { intros [u|] Hu; [|done]. cbn. by rewrite Hu. }
  rewrite !Hdb by (intros u Hu; apply Hst; auto). intros. f_equal; congruence.
Qed.

Lemma wp_check_deadline t h w :
  hb_inv w → select_id (hb_ID h) (db_heartbeats (w_st w)) = Some h →
  wp (check_deadline t h) (λ _ w', hb_inv w' ∧ w_env w' = w_env w
    ∧ (∀ i, i ≠ hb_ID h → select_id i (db_heartbeats (w_st w')) = select_id i (db_heartbeats (w_st w)))
    ∧ (fault_free w → row_view <$> select_id (hb_ID h) (db_heartbeats (w_st w'))
         = Some (row_view (down_row h)))) w.
Proof.
  intros Hi Hsel. pose proof Hsel as [Hin _]%select_id_Some.
  cbv beta delta [check_deadline]. name_let p Hp. name_let m Hm. name_let x Hx.
  assert (hb_ID x = hb_ID h) as Hid by by rewrite Hx.
  apply wp_bind, (wp_update_state _ _ _ _ w); [reflexivity| |].
  { intros w1 H1 Hff. apply wp_ret. split_and!; [by eapply hb_inv_kept|apply H1| |done].
    destruct H1 as ([= Hh _ _] & _). by rewrite Hh. }
  intros t' w1 Hc. apply (batch_start w h x) in Hc; [|done].
  assert (x <| hb_Status := StatusDown |> <| hb_AlertState := AlertAlerting |> = down_row h) as Hrow
    by by rewrite Hx.
  rewrite Hrow in Hc.
  eapply (batch_still _ _ _ _ _ _ _ w1); [|exact Hc|].
  { destruct (bool_decide _); [|apply still_ret]. apply still_bind; [auto with still|]. intros [[e|]|]; still_tac. }
  intros _ w2 H2.
  eapply (batch_event _ _ _ _ _ _ (in_alert h)); [|exact H2|].
  { rewrite <- Hid. apply coherent_one; [done| |done]. unfold after_event. cbn [fst snd]. by rewrite has_id_eq. }
  intros w3 H3.
  apply (wp_mono _ (λ _ w4, batch w h (state_row t' (down_row h)) true w4)).
  { eapply (wp_ext _ (do! (do! emitEvent HeartbeatAlert [("heartbeat_id", VString (hb_ID x)); ("name", VString (hb_Name x));
        ("alert_type", VString AlertTypeDeadlineMissed); ("details", VString m)] in
      alertCallback x "alert" [("heartbeat_id", VString (hb_ID x)); ("name", VString (hb_Name x));
        ("alert_type", VString AlertTypeDeadlineMissed); ("message", VString m)]) in ret tt)); [done|].
    eapply batch_pair; [by apply coherent_alert|exact H3|]. intros w4 H4. by apply wp_ret. }
  intros _ w4 H4. pose proof H4 as [(evs & calls & [He4 Ht4 Hr4 _ _] & _)].
  assert (row_ok (past w4) h) as Hok by by eapply row_ok_later.
  split_and!.
  - eapply (batch_inv w w h); [done|reflexivity|done|exact H4|done|by left| |done]. by apply down_row_ok.
  - done.
  - intros i Hne. rewrite Hr4. by apply select_id_update_ne.
  - intros _. rewrite Hr4, select_id_update_eq, Hsel by done. cbn [fmap option_fmap option_map]. f_equal.
    by eapply state_row_view.
Qed.

Lemma wp_check_loop t l w :
  hb_inv w → NoDup (table_ids l) → (∀ h, h ∈ l → select_id (hb_ID h) (db_heartbeats (w_st w)) = Some h) →
  wp (for_each l (check_deadline t)) (λ _ w', hb_inv w' ∧ w_env w' = w_env w
    ∧ (∀ i, i ∉ table_ids l → select_id i (db_heartbeats (w_st w')) = select_id i (db_heartbeats (w_st w)))
    ∧ (fault_free w → ∀ h, h ∈ l → row_view <$> select_id (hb_ID h) (db_heartbeats (w_st w'))
         = Some (row_view (down_row h)))) w.
Proof.
  revert w. induction l as [|h l IH]; intros w Hi Hnd Hsel; cbn [for_each].
  { apply wp_ret. split_and!; [done..|]. by intros _ h ?%elem_of_nil. }
  apply NoDup_cons in Hnd as [Hh Hnd]. change (hb_ID h ∉ table_ids l) in Hh.
  assert (∀ h', h' ∈ l → hb_ID h' ≠ hb_ID h) as Hne.
  { intros h' Hh' Heq. apply Hh. rewrite <- Heq. by apply (list_elem_of_fmap_2 row_id). }
  eapply wp_bind, wp_mono; [apply wp_check_deadline; [done|apply Hsel; left]|].
  intros ? w1 (Hi1 & He1 & Ho1 & Hd1). eapply wp_mono; [apply IH; [done..|]|].
  { intros h' Hh'. rewrite Ho1 by by apply Hne. apply Hsel. by right. }
  intros ? w2 (Hi2 & He2 & Ho2 & Hd2). split_and!; [done|congruence| |].
  - intros i [H1 H2]%not_elem_of_cons. rewrite Ho2 by done. by apply Ho1.
  - intros Hff h' [->|Hh']%elem_of_cons.
    + rewrite Ho2 by done. by apply Hd1.
    + apply Hd2; [|done]. by eapply fault_free_env.
Qed.

Lemma wp_checkDeadlines w :
  hb_inv w → wp checkDeadlines (λ _ w', hb_inv w' ∧ w_env w' = w_env w
    ∧ (fault_free w → let t := env_now (w_env w) (w_tick w) in
       ∀ id, row_view <$> select_id id (db_heartbeats (w_st w')) =
         (λ h, row_view (if overdue (unix t) h then down_row h else h))
           <$> select_id id (db_heartbeats (w_st w)))) w.
Proof.
  intros Hi. apply wp_bind, wp_now. intros w1 H1. set (t := env_now _ _).
  assert (hb_inv w1) as Hi1 by (eapply hb_inv_kept; [done|by apply kept_same]).
  apply wp_bind, wp_db_query.
  { intros w2 H2 Hff. apply wp_ret. split_and!.
    - eapply hb_inv_kept; [exact Hi1|by apply kept_same].
    - destruct H1 as (_ & ? & _), H2 as (_ & ? & _). congruence.
    - intros Hw. destruct Hff. eapply fault_free_env, Hw. apply H1. }
  intros w2 H2. set (l := select_where _ _).
  assert (hb_inv w2) as Hi2 by (eapply hb_inv_kept; [exact Hi1|by apply kept_same]).
  assert (w_env w2 = w_env w) as He by (destruct H1 as (_ & ? & _), H2 as (_ & ? & _); congruence).
  assert (db_heartbeats (w_st w2) = db_heartbeats (w_st w)) as Hrows
    by (by rewrite (proj1 H2), (proj1 H1)).
  unfold l. rewrite (proj1 H1). clear l. set (l := select_where _ _).
  assert (∀ h, h ∈ l → overdue (unix t) h = true ∧ select_id (hb_ID h) (db_heartbeats (w_st w)) = Some h) as Hl.
  { intros h [Hh Ho]%select_where_elem. split; [done|].
    apply (select_id_elem (db_heartbeats (w_st w))); [apply Hi|done]. }
  eapply wp_mono; [apply wp_check_loop; [done|apply select_where_sublist_ids, Hi|]|].
  { intros h Hh. rewrite Hrows. by apply Hl. }
  intros ? w3 (Hi3 & He3 & Ho3 & Hd3). split_and!; [done|congruence|]. intros Hff. cbn zeta. intros id.
  destruct (decide (id ∈ table_ids l)) as [Hin|Hin].
  - apply list_elem_of_fmap in Hin as (h & -> & Hh). destruct (Hl h Hh) as [Ho Hs].
    change (row_id h) with (hb_ID h). rewrite Hd3, Hs by (done || by eapply fault_free_env). cbn. by rewrite Ho.
  - rewrite Ho3, Hrows by done. destruct (select_id id (db_heartbeats (w_st w))) as [h|] eqn:Hs; [|done].
    cbn. destruct (overdue (unix t) h) eqn:Ho; [|done]. destruct Hin.
    apply select_id_Some in Hs as [Hs <-]. apply (list_elem_of_fmap_2 row_id). by apply select_where_elem.
Qed.

(** ** Runs of the service *)

Section ops.
Context {License : LicenseChecker}.

Inductive hb_op :=
  | HbCreate (input : CreateHeartbeatInput) (token : string)
  | HbUpdate (id : string) (input : UpdateHeartbeatInput)
  | HbDelete (id : string)
  | HbRotate (id : string)
  | HbPing (token sourceIP httpMethod : string) (payload agentID : option string)
  | HbStart (token sourceIP httpMethod : string)
  | HbExit (token : string) (code : Z) (sourceIP httpMethod : string) (payload : option string)
  | HbAgent (agentID token sourceIP : string)
  | HbCheck
  | HbPause (id : string)
  | HbResume (id : string).

Definition run_hb (o : hb_op) (w : world monitoring) : world monitoring :=
  match o with
  | HbCreate input token => (CreateHeartbeat input token w).2
  | HbUpdate id input => (UpdateHeartbeat id input w).2
  | HbDelete id => (DeleteHeartbeat id w).2
  | HbRotate id => (RotatePingToken id w).2
  | HbPing token ip meth payload agent => (ProcessPing token ip meth payload agent w).2
  | HbStart token ip meth => (ProcessStartPing token ip meth w).2
  | HbExit token code ip meth payload => (ProcessExitCodePing token code ip meth payload w).2
  | HbAgent agent token ip => (HandleAgentEvent agent token ip w).2
  | HbCheck => (checkDeadlines w).2
  | HbPause id => (PauseHeartbeat id w).2
  | HbResume id => (ResumeHeartbeat id w).2
  end.

Definition run_hbs (ops : list hb_op) (w : world monitoring) : world monitoring :=
  foldl (λ w o, run_hb o w) w ops.

Lemma ProcessPing_inv token ip meth payload agent w :
  hb_inv w → wp (ProcessPing token ip meth payload agent) (λ _ w', hb_inv w') w.
Proof.
  intros Hi. eapply wp_mono; [apply wp_ProcessPing|]. intros r w' Hp.
  eapply ping_post_inv; [done|exact Hp|]. intros. by apply ping_row_ok.
Qed.

Lemma run_hb_inv o w : hb_inv w → hb_inv (run_hb o w).
Proof.
  intros Hi. destruct o; cbn [run_hb].
  - by apply CreateHeartbeat_inv.
  - by apply UpdateHeartbeat_inv.
  - by apply DeleteHeartbeat_inv.
  - by apply RotatePingToken_inv.
  - by apply ProcessPing_inv.
  - eapply (ping_post_inv token start_row); [exact Hi|apply wp_ProcessStartPing|].
    intros. by apply start_row_ok.
  - destruct (decide (0 ≤ code ≤ 255)) as [Hc|Hc].
    + eapply (ping_post_inv token (exit_row code)); [exact Hi|by apply wp_ProcessExitCodePing|].
      intros. by apply exit_row_ok.
    + unfold ProcessExitCodePing. destruct (bool_decide_reflect (code < 0)); [done|].
      rewrite (bool_decide_true (255 < code)) by lia. done.
  - unfold HandleAgentEvent. destruct (bool_decide _); [done|].
    apply (wp_bind (ProcessPing token sourceIP "GET" None (Some agentID)) _ (λ _ w', hb_inv w')).
    eapply wp_mono; [by apply ProcessPing_inv|]. intros [h|e] w' H'; by apply wp_ret.
  - by apply wp_checkDeadlines.
  - by apply PauseHeartbeat_inv.
  - by apply ResumeHeartbeat_inv.
Qed.

Lemma run_hbs_inv ops w : hb_inv w → hb_inv (run_hbs ops w).
Proof.
  revert w. induction ops as [|o ops IH]; intros w Hi; [done|]. apply IH. by apply run_hb_inv.
Qed.

(** ** The theorems *)

(** Whatever operations and pings reach the service, in whatever order, and
    whatever calls to the store fail, the monitors satisfy [hb_inv]: settings in
    range, unique ids and tokens, status, alert state, deadline and run in
    agreement, as long as the clock does not go back and identifiers are fresh. *)
Theorem heartbeat_invariant ops w : hb_inv w → hb_inv (run_hbs ops w).
Proof. apply run_hbs_inv. Qed.


(** What the service told the alert engine is the truth of the store.  After any
    operations, whatever failed, the alert of a heartbeat is open in the emitted
    events (an alert with no recovery, pause or deletion after it) exactly when
    its row says alerting, and the calls of the alert callback are the alert and
    recovery events, in order. *)
Theorem alerts_match_rows ops w :
  hb_inv w →
  let s := w_st (run_hbs ops w) in
  (∀ id, alert_open id (hb_events s)
     = match select_id id (db_heartbeats s) with Some h => in_alert h | None => false end)
  ∧ call_view <$> hb_alerts s = omap call_of_event (hb_events s).
Proof.
  intros Hi s. pose proof (run_hbs_inv ops w Hi) as []. split; [|done]. intros id.
  destruct (select_id id (db_heartbeats s)) as [h|] eqn:Hs.
  - apply select_id_Some in Hs as [Hin <-]. by apply hi_log.
  - by apply hi_gone, select_id_None.
Qed.

(** A round of the deadline checker, when nothing fails, is one reading of the
    clock and then a function of the rows: the heartbeats overdue at that time are
    down and alerting with one more failure, the others are untouched. *)
Theorem check_refines w :
  hb_inv w → fault_free w →
  let t := env_now (w_env w) (w_tick w) in
  ∀ id, row_view <$> select_id id (db_heartbeats (w_st (checkDeadlines w).2)) =
    (λ h, row_view (if overdue (unix t) h then down_row h else h))
      <$> select_id id (db_heartbeats (w_st w)).
Proof. intros Hi Hff. destruct (wp_checkDeadlines w Hi) as (_ & _ & H). by apply H. Qed.

(** What a ping is to do to the rows. *)
Definition pinged (token : string) (row : Z → Heartbeat → Heartbeat) (w : world monitoring)
    (out : result Heartbeat * world monitoring) : Prop :=
  match by_token token (w_st w) with
  | None => out.1 = Err ErrHeartbeatNotFound ∧ core (w_st out.2) = core (w_st w)
  | Some h => is_ok out.1 = true ∧ ∃ t t', read_at w out.2 t ∧
      ∀ id, select_id id (db_heartbeats (w_st out.2)) =
        (λ x, if bool_decide (id = hb_ID h) then state_row t' (row t h) x else x)
          <$> select_id id (db_heartbeats (w_st w))
  end.

Lemma pinged_post token row w r w' :
  fault_free w → ping_post token row w r w' → pinged token row w (r, w').
Proof.
  intros Hff [[Hk Hn]|(h & h' & Hh & (t & t' & evs & calls & Hr & [] & _) & ->)]; unfold pinged.
  - destruct (Hn Hff) as [-> ->]. split; [done|apply Hk].
  - rewrite Hh. split; [done|]. exists t, t'. split; [done|]. intros id. cbn. rewrite co_rows.
    destruct (bool_decide_reflect (id = hb_ID h)) as [->|Hne].
    + by apply select_id_update_eq.
    + rewrite select_id_update_ne by done. symmetry. apply option_fmap_id.
Qed.

(** Each kind of ping, when nothing fails, is a function of the row its token
    names and of one reading of the clock: a success ping brings the heartbeat up
    with a new deadline and recovers it, a start ping opens a run, an exit code
    counts as a success or a failure; no other row changes, and an unknown token
    changes nothing. *)
Theorem ping_refines token sourceIP httpMethod payload agentID exitCode w :
  fault_free w → 0 ≤ exitCode ≤ 255 →
  pinged token ping_row w (ProcessPing token sourceIP httpMethod payload agentID w)
  ∧ pinged token start_row w (ProcessStartPing token sourceIP httpMethod w)
  ∧ pinged token (exit_row exitCode) w (ProcessExitCodePing token exitCode sourceIP httpMethod payload w).
Proof.
  intros Hff Hc. split_and!.
  - pose proof (wp_ProcessPing token sourceIP httpMethod payload agentID w) as H.
    apply pinged_post in H; [|done]. by destruct (ProcessPing _ _ _ _ _ _).
  - pose proof (wp_ProcessStartPing token sourceIP httpMethod w) as H.
    apply pinged_post in H; [|done]. by destruct (ProcessStartPing _ _ _ _).
  - pose proof (wp_ProcessExitCodePing token exitCode sourceIP httpMethod payload w Hc) as H.
    apply pinged_post in H; [|done]. by destruct (ProcessExitCodePing _ _ _ _ _ _).
Qed.
End ops.

(** Editing the settings of a monitored heartbeat moves its deadline with the
    window: the time the window opened stays the same. *)
Theorem edit_keeps_window t input h d :
  monitored h = true → hb_NextDeadlineAt h = Some d →
  ∃ d', hb_NextDeadlineAt (edit_row t input h) = Some d'
    ∧ unix d' - window (edit_row t input h) = unix d - window h.
Proof.
  intros Hm Hd. unfold edit_row, window. cbn. rewrite Hm, Hd.
  destruct (negb _ || negb _) eqn:He; cbn.
  - eexists. split; [done|]. rewrite unix_of_unix. lia.
  - apply orb_false_iff in He as [H1%negb_false_iff H2%negb_false_iff].
    apply bool_decide_eq_true in H1, H2. rewrite H1, H2. by exists d.
Qed.

(** The two recovery events of a heartbeat cover every alert it can raise: an
    alert call of the service, for a missed deadline or a failed exit, becomes one
    critical event, and some recovery event of the same heartbeat has its key. *)
Theorem recovery_covers json h h' kind details dets' :
  kind ≠ "recovery" → hb_ID h' = hb_ID h →
  detail "alert_type" details = Some (VString AlertTypeDeadlineMissed)
    ∨ detail "alert_type" details = Some (VString AlertTypeExitCodeFailure) →
  ∃ e, heartbeatAlertEvents json h kind details = [e]
    ∧ ev_Severity e = SeverityCritical ∧ ev_IsRecover e = false
    ∧ ∃ r, r ∈ heartbeatAlertEvents json h' "recovery" dets'
        ∧ ev_IsRecover r = true ∧ event_key r = event_key e.
Proof.
  intros Hk Hid Ht. unfold heartbeatAlertEvents. rewrite (bool_decide_false (kind = _)) by done.
  rewrite (bool_decide_true ("recovery" = _)) by done. unfold event_key.
  eexists. split; [done|]. cbn. split_and!; [done..|].
  destruct Ht as [-> | ->]; rewrite <- Hid.
  - eexists. split; [left|]. done.
  - eexists. split; [right; left|]. done.
Qed.

(** ** Witnesses *)

Module HeartbeatExample.
#[export] Instance everything_allowed : LicenseChecker :=
  {| CanCreateHeartbeat _ := true; CanStorePayload := true |}.

Definition empty : world monitoring := calm_world (1000 * second) empty_monitoring.

Lemma empty_inv : hb_inv empty.
Proof.
  split; cbn; try done.
  - split; cbn; [intros; lia|]. intros m n [= H].
    change (pretty (N.of_nat m) = pretty (N.of_nat n)) in H.
    apply (inj (pretty (A := N))) in H. by apply Nat2N.inj.
  - apply NoDup_nil_2.
  - intros n _. apply not_elem_of_nil.
  - by intros h h' ?%elem_of_nil.
  - by intros h ?%elem_of_nil.
  - by intros h ?%elem_of_nil.
Qed.

Definition row (status alert : string) (deadline : option Z) : Heartbeat :=
  MkHeartbeat "h1" "tok" "backup" status alert 300 60 (Some (0 * second)) deadline None None None 0 0 0 0
    LocalAgent.

Definition start (status alert : string) (deadline : option Z) : world monitoring :=
  calm_world (1000 * second) (empty_monitoring <| db_heartbeats := [row status alert deadline] |>).

Lemma world_inv : hb_inv (start StatusUp AlertNormal (Some (360 * second))).
Proof.
  split; cbn.
  - apply empty_inv.
  - apply NoDup_singleton.
  - intros n _. by intros ?%list_elem_of_singleton.
  - by intros h h' ->%list_elem_of_singleton ->%list_elem_of_singleton.
  - intros h ->%list_elem_of_singleton. split; cbn; try done; [by left| | |by left|].
    + right; left. split; [done|]. by eexists.
    + by intros u [[= <-]|[[= <-]|?]].
    + intros p [= <-]. split; [|by intros _ d [= <-]]. intros n _. by vm_compute.
  - by intros h ->%list_elem_of_singleton.
  - done.
  - done.
Qed.

Definition ops : list hb_op :=
  [HbCreate (MkCreateInput "backup" 300 60) "tok"; HbStart "tok" "" "GET";
   HbExit "tok" 1 "" "GET" None; HbPing "tok" "" "GET" (Some "ok") None].

(** A failed run alerts; the next success recovers. *)
Example alert_then_recovery :
  call_view <$> hb_alerts (w_st (run_hbs ops empty)) = [("id1", "alert"); ("id1", "recovery")]
  ∧ hb_AlertState <$> db_heartbeats (w_st (run_hbs ops empty)) = [AlertNormal].
Proof. vm_compute. split; reflexivity. Qed.
End HeartbeatExample.
#[local] Existing Instance HeartbeatExample.everything_allowed.

Lemma heartbeat_invariant_witness :
  hb_inv HeartbeatExample.empty ∧
  hb_inv (run_hbs HeartbeatExample.ops HeartbeatExample.empty).
Proof.
  split; [exact HeartbeatExample.empty_inv|].
  exact (heartbeat_invariant HeartbeatExample.ops _ HeartbeatExample.empty_inv).
Defined.


Lemma alerts_match_rows_witness :
  hb_inv HeartbeatExample.empty ∧
  call_view <$> hb_alerts (w_st (run_hbs HeartbeatExample.ops HeartbeatExample.empty))
  = omap call_of_event (hb_events (w_st (run_hbs HeartbeatExample.ops HeartbeatExample.empty))).
Proof.
  split; [exact HeartbeatExample.empty_inv|].
  exact (proj2 (alerts_match_rows HeartbeatExample.ops _ HeartbeatExample.empty_inv)).
Defined.

Lemma check_refines_witness :
  hb_inv (HeartbeatExample.start StatusUp AlertNormal (Some (360 * second))) ∧
  row_view <$> select_id "h1" (db_heartbeats (w_st
    (checkDeadlines (HeartbeatExample.start StatusUp AlertNormal (Some (360 * second)))).2))
  = Some (row_view (down_row (HeartbeatExample.row StatusUp AlertNormal (Some (360 * second))))).
Proof.
  split; [exact HeartbeatExample.world_inv|].
  exact (check_refines _ HeartbeatExample.world_inv (calm_fault_free _ _) "h1").
Defined.

Lemma ping_refines_witness :
  fault_free HeartbeatExample.empty ∧
  pinged "tok" ping_row HeartbeatExample.empty
    (ProcessPing "tok" "" "GET" None None HeartbeatExample.empty).
Proof.
  split; [exact (calm_fault_free _ _)|].
  exact (proj1 (ping_refines "tok" "" "GET" None None 0 HeartbeatExample.empty
    (calm_fault_free _ _) ltac:(lia))).
Defined.

Lemma edit_keeps_window_witness :
  ∃ d', hb_NextDeadlineAt (edit_row 0 (MkUpdateInput None (Some 600) None)
      (HeartbeatExample.row StatusUp AlertNormal (Some (360 * second)))) = Some d'
    ∧ unix d' - 660 = 0.
Proof.
  exact (edit_keeps_window 0 (MkUpdateInput None (Some 600) None)
    (HeartbeatExample.row StatusUp AlertNormal (Some (360 * second))) (360 * second) eq_refl eq_refl).
Defined.

Lemma recovery_covers_witness :
  ∃ e, heartbeatAlertEvents (λ _, DetailsNil) (HeartbeatExample.row StatusUp AlertNormal None) "alert"
      [("alert_type", VString AlertTypeDeadlineMissed)] = [e]
    ∧ ev_Severity e = SeverityCritical ∧ ev_IsRecover e = false
    ∧ ∃ r, r ∈ heartbeatAlertEvents (λ _, DetailsNil) (HeartbeatExample.row StatusUp AlertNormal None) "recovery" []
        ∧ ev_IsRecover r = true ∧ event_key r = event_key e.
Proof.
  apply (recovery_covers (λ _, DetailsNil) (HeartbeatExample.row StatusUp AlertNormal None)
    (HeartbeatExample.row StatusUp AlertNormal None) "alert"); [discriminate|reflexivity|left; reflexivity].
Defined.
