(* ===== verification/AlertTracker.v ===== *)
(** * What a machine that raises alerts promises to the alert engine

    The Swarm trackers and the Kubernetes checker raise alerts and take them
    back.  Their contract is stated once, as the class [Tracker]: what a machine
    sends about one alert is a raise, then its recovery, then a raise, and the
    alert is open at the end exactly when the machine says so.  The instances are
    in [SwarmTrackers] and [K8sCorrect]; [TrackerMirror] proves, against the
    class alone, that the engine mirrors a machine. *)

From S2P Require Import Prelude.
From S2P Require Import Tables.
From S2P Require Import GoStrings.
From S2P Require Import AlertModel.
From S2P Require Import AlertEngine.

#[local] Open Scope string_scope.
#[local] Open Scope list_scope.
#[local] Open Scope Z_scope.

(** ** What a tracker sends *)

(** The details of an alert are kept as the program's map; [json] is the text the
    alert engine stores for them. *)
Record output := MkOutput {
  o_events : list (string * list (string * value));
  o_alerts : list Event;
}.

Definition no_output : output := MkOutput [] [].
Definition out_app (a b : output) : output :=
  MkOutput (o_events a ++ o_events b) (o_alerts a ++ o_alerts b).
Definition out_event (ty : string) (data : list (string * value)) : output :=
  MkOutput [(ty, data)] [].
Definition out_alert (e : Event) : output := MkOutput [] [e].

Infix "⊕" := out_app (at level 40, left associativity).

(** ** The protocol of one alert *)

(** An alert of a machine is named by its type and its entity. *)
Definition channel : Type := string * string.

Definition channel_of (e : Event) : channel := (ev_AlertType e, ev_EntityID e).

Definition about (c : channel) (e : Event) : bool := bool_decide (channel_of e = c).

(** Reading the events about [c] in order: [Some b] when they keep the protocol
    and leave the alert open ([b]) or closed.  A recovery needs an open alert; a
    [strict] machine raises only a closed one. *)
Fixpoint follow (strict : bool) (c : channel) (open_ : bool) (l : list Event) : option bool :=
  match l with
  | [] => Some open_
  | e :: l =>
    if negb (about c e) then follow strict c open_ l
    else if ev_IsRecover e then (if open_ then follow strict c false l else None)
    else if strict && open_ then None else follow strict c true l
  end.

Lemma follow_app strict c b l1 l2 :
  follow strict c b (l1 ++ l2) = (follow strict c b l1 ≫= λ b', follow strict c b' l2).
Proof.
  revert b. induction l1 as [|e l1 IH]; intros b; [done|]. cbn.
  repeat case_match; naive_solver.
Qed.

Lemma follow_other strict c b l :
  (∀ e, e ∈ l → about c e = false) → follow strict c b l = Some b.
Proof.
  induction l as [|e l IH]; intros Hl; [done|]. cbn. rewrite Hl by left. cbn.
  apply IH. intros. apply Hl. by right.
Qed.

Lemma follow_lax strict c b l b' :
  follow strict c b l = Some b' → follow false c b l = Some b'.
Proof.
  revert b. induction l as [|e l IH]; intros b; [done|]. cbn.
  destruct (about c e), (ev_IsRecover e), strict, b; cbn; (done || apply IH).
Qed.

(** Whether the alert [c] is open after [l], for a machine that may take back an
    alert it has not raised: the last event about it decides. *)
Fixpoint settle (c : channel) (open_ : bool) (l : list Event) : bool :=
  match l with
  | [] => open_
  | e :: l => settle c (if about c e then negb (ev_IsRecover e) else open_) l
  end.

Lemma settle_app c b l1 l2 : settle c b (l1 ++ l2) = settle c (settle c b l1) l2.
Proof. revert b. induction l1 as [|e l1 IH]; intros b; [done|]. cbn. apply IH. Qed.

Lemma follow_settle strict c b l b' : follow strict c b l = Some b' → settle c b l = b'.
Proof.
  revert b. induction l as [|e l IH]; intros b; cbn; [by intros [= ->]|].
  destruct (about c e), (ev_IsRecover e), strict, b; cbn; (done || apply IH).
Qed.

Lemma out_assoc a b c : a ⊕ b ⊕ c = a ⊕ (b ⊕ c).
Proof. unfold out_app. cbn. by rewrite <- !app_assoc. Qed.

Lemma o_alerts_app a b : o_alerts (a ⊕ b) = o_alerts a ++ o_alerts b.
Proof. done. Qed.

(** Every alert names its source, and the type of an alert decides the kind of
    entity it is about. *)
Definition sent_by (source : string) (entity : string → string) (e : Event) : Prop :=
  ev_Source e = source ∧ ev_EntityType e = entity (ev_AlertType e).

(** The key under which the engine files the alerts of a channel. *)
Definition channel_key (source entityType : string) (c : channel) : activeAlertKey :=
  MkKey source c.1 entityType c.2.

Lemma about_key source entity c e :
  sent_by source entity e → about c e = bool_decide (event_key e = channel_key source (entity c.1) c).
Proof.
  intros [Hs Ht]. unfold about. apply bool_decide_ext. destruct c as [ty id].
  unfold channel_of, event_key, channel_key. cbn. rewrite Hs, Ht. naive_solver.
Qed.

(** A piece of a step, from [s] to the state and output [r], under the law. *)
Definition goes {St} (source : string) (entity : string → string) (strict : bool) (raised : channel → St → bool) (c : channel)
    (s : St) (r : St * output) : Prop :=
  Forall (sent_by source entity) (o_alerts r.2)
  ∧ follow strict c (raised c s) (o_alerts r.2) = Some (raised c r.1).

Section goes.
Context {St : Type} {source : string} (entity : string → string) (strict : bool) (raised : channel → St → bool) (c : channel).

Lemma goes_app s0 s o s' o' :
  goes source entity strict raised c s0 (s, o) → goes source entity strict raised c s (s', o') →
  goes source entity strict raised c s0 (s', o ⊕ o').
Proof.
  intros [Ha1 H1] [Ha2 H2]. split; cbn in *; [by apply Forall_app|]. by rewrite follow_app, H1.
Qed.

Lemma goes_fold {A} (f : St * output → A → St * output) (l : list A) s0 acc :
  (∀ acc a, a ∈ l → goes source entity strict raised c s0 acc → goes source entity strict raised c s0 (f acc a)) →
  goes source entity strict raised c s0 acc → goes source entity strict raised c s0 (foldl f acc l).
Proof.
  revert acc. induction l as [|a l IH]; intros acc Hf Hacc; [done|]. cbn.
  apply IH; [|apply Hf; [left|done]]. intros acc' b Hb. apply Hf. by right.
Qed.

(** A piece that sends one event of an alert, and one that sends none. *)
Lemma goes_signal s s' o e b :
  o_alerts o = [e] → sent_by source entity e → ev_IsRecover e = negb b →
  raised (channel_of e) s = negb b → raised (channel_of e) s' = b →
  (∀ c', c' ≠ channel_of e → raised c' s' = raised c' s) →
  goes source entity strict raised c s (s', o).
Proof.
  intros Ho He Hb Hs Hs' Hother. unfold goes. cbn [fst snd]. rewrite Ho. split; [by apply Forall_singleton|].
  cbn [follow]. unfold about.
  destruct (decide (channel_of e = c)) as [<-|Hc].
  - rewrite bool_decide_eq_true_2 by done. cbn [negb]. rewrite Hb, Hs, Hs'. by destruct b, strict.
  - rewrite bool_decide_eq_false_2 by done. cbn [negb]. by rewrite Hother.
Qed.

Lemma goes_silent s s' o :
  o_alerts o = [] → raised c s' = raised c s → goes source entity strict raised c s (s', o).
Proof. intros Ho Hs. unfold goes. cbn [fst snd]. rewrite Ho, Hs. by split. Qed.
End goes.

(** What a machine promises.  [trk_covers] restricts the law to the steps that
    concern the alert. *)
Class Tracker (St Op : Type) := {
  trk_strict : bool;
  trk_step : Op → St → St * output;
  trk_raised : channel → St → bool;
  trk_covers : channel → Op → St → Prop;
  trk_source : string;
  trk_entity : string → string;
  trk_law c op s : trk_covers c op s → goes trk_source trk_entity trk_strict trk_raised c s (trk_step op s);
}.

Section runs.
Context {St Op : Type} `{!Tracker St Op}.

Fixpoint trk_run (ops : list Op) (s : St) : St * output :=
  match ops with
  | [] => (s, no_output)
  | op :: ops =>
    let '(s1, o1) := trk_step op s in
    let '(s2, o2) := trk_run ops s1 in
    (s2, o1 ⊕ o2)
  end.

Fixpoint trk_covered (c : channel) (ops : list Op) (s : St) : Prop :=
  match ops with
  | [] => True
  | op :: ops => trk_covers c op s ∧ trk_covered c ops (trk_step op s).1
  end.

Lemma trk_run_goes c ops s :
  trk_covered c ops s → goes trk_source trk_entity trk_strict trk_raised c s (trk_run ops s).
Proof.
  revert s. induction ops as [|op ops IH]; intros s; cbn [trk_run trk_covered]; [by intros; apply goes_silent|].
  intros [Hop Hops]. pose proof (trk_law c op s Hop) as Hlaw.
  destruct (trk_step op s) as [s1 o1]. specialize (IH s1 Hops).
  destruct (trk_run ops s1) as [s2 o2]. by eapply goes_app.
Qed.
End runs.
