(* ===== verification/TrackerMirror.v ===== *)
(** * The alert engine mirrors a tracker

    Proved against the class [Tracker]: whatever machine feeds the engine, what
    the engine has live about it follows what the machine has raised. *)

From S2P Require Import Prelude.
From S2P Require Import Tables.
From S2P Require Import GoStrings.
From S2P Require Import AlertModel.
From S2P Require Import AlertStore.
From S2P Require Import AlertRouting.
From S2P Require Import AlertEngine.
From S2P Require Import AlertInvariant.
From S2P Require Import AlertCorrect.
From S2P Require Import AlertTracker.

#[local] Open Scope string_scope.
#[local] Open Scope list_scope.
#[local] Open Scope Z_scope.

(** ** The engine behind a tracker *)

Section Mirror.
Context {Esc : Escalator} `{!EscalatorLaws Esc} (notifier broadcaster : bool).
Context {St Op : Type} `{!Tracker St Op}.

Definition feed (l : list Event) : world alerting → world alerting :=
  run_ops (Sup := noopSuppressor) notifier broadcaster (OpEvent <$> l).

(** No rule is ever added by the engine. *)
Definition keeps_silences (s s' : alerting) : Prop := db_silences s' = db_silences s.

#[local] Instance keeps_silences_preorder : PreOrder keeps_silences.
Proof. split; unfold keeps_silences; [done|congruence]. Qed.

Lemma esc_only_silences s s' : esc_only s s' → keeps_silences s s'.
Proof. intros H. exact (f_equal db_silences H). Qed.

Lemma jobs_silences s s' : same_but_jobs s s' → keeps_silences s s'.
Proof. intros H. exact (f_equal db_silences H). Qed.

Lemma created_silences a : steps keeps_silences (OnAlertCreated a).
Proof. eapply confined_steps; [apply OnAlertCreated_confined|apply esc_only_silences]. Qed.
Lemma resolved_silences id t : steps keeps_silences (OnAlertResolved id t).
Proof. eapply confined_steps; [apply OnAlertResolved_confined|apply esc_only_silences]. Qed.
Lemma dispatch_silences n routeBy payload : steps keeps_silences (dispatchNotifications n routeBy payload).
Proof. eapply confined_steps; [apply dispatch_confined|apply jobs_silences]. Qed.
Lemma broadcast_silences b ty a : steps keeps_silences (broadcast b ty a).
Proof. unfold broadcast. destruct b; steps_tac. done. Qed.
Lemma check_silences evt : steps keeps_silences (checkSilenceRules (Sup := noopSuppressor) evt).
Proof.
  intros w. apply (wp_checkSilenceRules evt (λ _ w', keeps_silences (w_st w) (w_st w') ∧ w_env w' = w_env w)).
  intros w' (Hs & He & _). by rewrite Hs.
Qed.
#[local] Hint Resolve created_silences resolved_silences dispatch_silences broadcast_silences
  check_silences : steps.

Lemma processEvent_silences evt :
  steps keeps_silences (processEvent (Sup := noopSuppressor) notifier broadcaster evt).
Proof.
  unfold processEvent, processRecovery, escalateAlert, UpdateAlertOnEscalation, UpdateAlertStatus, GetAlert,
    broadcastAlert, broadcastResolved, InsertAlert.
  steps_tac; done.
Qed.

Lemma unsilenced evt (w : world alerting) :
  fault_free w → db_silences (w_st w) = [] → (checkSilenceRules (Sup := noopSuppressor) evt w).1 = false.
Proof.
  intros Hff Hs.
  apply (wp_bind GetActiveSilenceRules _ (λ b _, b = false) w). unfold GetActiveSilenceRules.
  apply wp_bind, wp_now. intros w1 H1. apply wp_db_query.
  - intros w2 _ Hno. exfalso. apply Hno. eapply fault_free_env; [apply H1|done].
  - intros w2 H2. rewrite (proj1 H1), Hs. cbn [filter list_filter existsb]. by apply wp_ret.
Qed.

Lemma is_Some_spec_event evt silenced stored (m : gmap activeAlertKey string) k :
  is_Some (spec_event evt silenced stored m !! k) ↔
  if bool_decide (event_key evt = k)
  then ev_IsRecover evt = false ∧ (is_Some (m !! k) ∨ silenced = false ∧ stored = true)
  else is_Some (m !! k).
Proof.
  unfold spec_event. destruct (decide (event_key evt = k)) as [<-|Hk].
  - rewrite bool_decide_eq_true_2 by done. destruct (ev_IsRecover evt).
    + rewrite lookup_delete_eq. split; [by intros []|by intros []].
    + destruct (m !! event_key evt) as [sev|] eqn:Hm.
      * case_match; rewrite ?lookup_insert_eq, ?Hm; naive_solver.
      * destruct silenced, stored; cbn; rewrite ?lookup_insert_eq, ?Hm; naive_solver.
  - rewrite bool_decide_eq_false_2 by done. repeat case_match; rewrite ?lookup_insert_ne, ?lookup_delete_ne by done; done.
Qed.

Lemma feed_settles source entity c b l (w : world alerting) :
  engine_inv (engine_view (w_st w)) → Forall (sent_by source entity) l →
  let k := channel_key source (entity c.1) c in
  ((is_Some (live (w_st w) !! k) → b = true) → is_Some (live (w_st (feed l w)) !! k) → settle c b l = true)
  ∧ (healthy w → synced (engine_view (w_st w)) → db_silences (w_st w) = [] →
     (b = true → is_Some (live (w_st w) !! k)) → settle c b l = true → is_Some (live (w_st (feed l w)) !! k)).
Proof.
  cbv zeta. revert b w. induction l as [|e l IH]; intros b w Hinv Hall; [done|].
  apply Forall_cons in Hall as [He Hall]. cbn [settle]. rewrite (about_key _ _ c e He).
  set (k := channel_key source (entity c.1) c) in *.
  destruct (wp_processEvent (Sup := noopSuppressor) notifier broadcaster e w Hinv) as (Hsound & sil & st & Hlive & Hok).
  set (w1 := (processEvent notifier broadcaster e w).2) in *.
  change (feed (e :: l) w) with (feed l w1).
  assert (db_silences (w_st w1) = db_silences (w_st w)) as Hsil by apply processEvent_silences.
  pose proof (is_Some_spec_event e sil st (live (w_st w)) k) as Hev. rewrite <- Hlive in Hev.
  set (b1 := if bool_decide (event_key e = k) then negb (ev_IsRecover e) else b).
  destruct (IH b1 w1 (so_inv _ _ Hsound) Hall) as [IH1 IH2]. split.
  - intros Hb. apply IH1. rewrite Hev. unfold b1. case_bool_decide; [|done]. by intros [-> _].
  - intros Hw Hsy Hnone Hb. destruct (so_sync _ _ Hsound Hw Hsy) as [Hw1 Hsy1].
    destruct (Hok Hw) as [Hs ->]. rewrite unsilenced in Hs by (done || apply Hw).
    apply IH2; [done|done|congruence|]. rewrite Hev. unfold b1. case_bool_decide; [|done].
    destruct (ev_IsRecover e); naive_solver.
Qed.

Lemma feed_mirrors strict source entity c b b' l (w : world alerting) :
  engine_inv (engine_view (w_st w)) → Forall (sent_by source entity) l → follow strict c b l = Some b' →
  let k := channel_key source (entity c.1) c in
  ((is_Some (live (w_st w) !! k) → b = true) → is_Some (live (w_st (feed l w)) !! k) → b' = true)
  ∧ (healthy w → synced (engine_view (w_st w)) → db_silences (w_st w) = [] →
     (b = true → is_Some (live (w_st w) !! k)) → b' = true → is_Some (live (w_st (feed l w)) !! k)).
Proof. intros Hinv Hall <-%follow_settle. by apply feed_settles. Qed.

(** C4: the engine mirrors a tracker.  Feed it all the alerts of a run of any of
    the trackers, in order: whatever calls fail on the way, an alert of a channel
    is live at the end only if the tracker has it raised; and without failures,
    silence rules or maintenance windows it is live exactly when the tracker has
    it raised, provided this held at the start. *)
Theorem engine_mirrors c ops s (w : world alerting) :
  engine_inv (engine_view (w_st w)) → trk_covered c ops s →
  let k := channel_key trk_source (trk_entity c.1) c in
  let w' := feed (o_alerts (trk_run ops s).2) w in
  ((is_Some (live (w_st w) !! k) → trk_raised c s = true) →
   is_Some (live (w_st w') !! k) → trk_raised c (trk_run ops s).1 = true)
  ∧ (healthy w → synced (engine_view (w_st w)) → db_silences (w_st w) = [] →
     (is_Some (live (w_st w) !! k) ↔ trk_raised c s = true) →
     (is_Some (live (w_st w') !! k) ↔ trk_raised c (trk_run ops s).1 = true)).
Proof.
  intros Hinv Hc. cbv zeta. destruct (trk_run_goes c ops s Hc) as [Hall Hfol].
  destruct (feed_mirrors _ _ _ _ _ _ _ w Hinv Hall Hfol) as [H1 H2]. split; [done|].
  intros. split; naive_solver.
Qed.
End Mirror.

(** An engine that has seen nothing. *)
Definition new_engine (t : Z) : world alerting := calm_world t (MkAlerting [] [] [] [] [] [] [] [] ∅ [] [] []).

Lemma new_engine_synced t : synced (engine_view (w_st (new_engine t))).
Proof.
  split; cbn; [constructor|..].
  - intros k a Ha. by rewrite lookup_empty in Ha.
  - intros row Hrow. by apply elem_of_nil in Hrow.
Qed.

Lemma new_engine_healthy t : healthy (new_engine t).
Proof.
  split_and!; [done| |].
  - intros m n. cbn. intros H. apply (inj (String.append "id")) in H. by apply (inj pretty), (inj N.of_nat) in H.
  - intros n _ H. cbn in H. by apply elem_of_nil in H.
Qed.

Lemma new_engine_live t k : live (w_st (new_engine t)) !! k = None.
Proof. unfold live. cbn. by rewrite lookup_fmap, lookup_empty. Qed.
