(* ===== verification/SwarmAlerts.v ===== *)
(** * Swarm: alerts from the state of the cluster

    [src/internal/swarm/alerts.go], [crashloop.go], [update.go] and [node.go]:
    four trackers, each a small state machine fed with snapshots of the cluster
    and a reading of the clock, which raise alerts and recoveries.  A tracker is
    a function from its state to its state, the events it emitted and the alerts
    it sent.  A loop over a Go map visits it in no fixed order; here it follows
    the enumeration of the [gmap]. *)

From S2P Require Import Prelude.
From S2P Require Import Tables.
From S2P Require Import GoStrings.
From S2P Require Import AlertModel.
From S2P Require Import AlertEngine.
From S2P Require Import AlertTracker.

#[local] Open Scope string_scope.
#[local] Open Scope list_scope.
#[local] Open Scope Z_scope.

(** ** Labels *)

Definition labelPBIgnore := "maintenant.ignore".

Definition IgnoredByLabels (l : gmap string string) : bool :=
  let v := default "" (l !! labelPBIgnore) in
  bool_decide (v = "true") || bool_decide (v = "1").

Definition IsCleanExit (code : Z) (oomKilled : bool) : bool :=
  if bool_decide (code = 0) || bool_decide (code = 143) then true
  else if bool_decide (code = 137) then negb oomKilled
  else false.

Record SwarmService := MkSwarmService {
  sv_ServiceID : string;
  sv_Name : string;
  sv_Mode : string;
  sv_DesiredReplicas : Z;
  sv_RunningReplicas : Z;
  sv_Labels : gmap string string;
}.

Record SwarmTask := MkSwarmTask {
  ta_TaskID : string;
  ta_ServiceID : string;
  ta_NodeID : string;
  ta_State : string;
  ta_ContainerID : string;
  ta_Error : string;
  ta_ExitCode : option Z;
  ta_Timestamp : Z;
}.

Definition SwarmServiceUpdated := "swarm.service_updated".
Definition SwarmNodeStatusChanged := "swarm.node_status_changed".
Definition SwarmNodeUpdated := "swarm.node_updated".
Definition SwarmTaskFailed := "swarm.task_failed".
Definition SwarmCrashLoopDetected := "swarm.crash_loop_detected".
Definition SwarmCrashLoopRecovered := "swarm.crash_loop_recovered".
Definition SwarmUpdateProgress := "swarm.update_progress".
Definition SwarmUpdateCompleted := "swarm.update_completed".

Section Swarm.
Context (json : list (string * value) → details).

Definition swarm_event (alertType severity : string) (isRecover : bool) (message entityType id name : string)
    (dets : details) (now_ : Z) : Event :=
  MkEvent "swarm" alertType severity isRecover message entityType id name "" dets now_.

(** ** Replica health *)

Definition defaultReplicaAlertDelay : Z := 5 * minute.

Record replicaState := MkReplicaState { rs_firstSeen : Z; rs_alerted : bool }.

Definition emitReplicaAlert (svc : SwarmService) (now_ : Z) : output :=
  out_event SwarmServiceUpdated [("service_id", VString (sv_ServiceID svc)); ("name", VString (sv_Name svc));
    ("running_replicas", VInt (sv_RunningReplicas svc)); ("desired_replicas", VInt (sv_DesiredReplicas svc)); ("replica_alert", VBool true)]
  ⊕ out_alert (swarm_event "replica_unhealthy" SeverityWarning false
      ("Swarm service " +:+ sv_Name svc +:+ " under-replicated for 5m0s: "
       +:+ fmt_d (sv_RunningReplicas svc) +:+ "/" +:+ fmt_d (sv_DesiredReplicas svc) +:+ " replicas")
      "swarm_service" (sv_ServiceID svc) (sv_Name svc)
      (json [("service_id", VString (sv_ServiceID svc)); ("running_replicas", VInt (sv_RunningReplicas svc));
             ("desired_replicas", VInt (sv_DesiredReplicas svc))]) now_).

Definition emitReplicaRecovery (id name : string) (now_ : Z) : output :=
  out_alert (swarm_event "replica_unhealthy" SeverityInfo true
    ("Swarm service " +:+ name +:+ " replicas restored") "swarm_service" id name
    (json [("service_id", VString id)]) now_).

Definition replica_recover (id name : string) (now_ : Z) (s : gmap string replicaState) : gmap string replicaState * output :=
  match s !! id with
  | None => (s, no_output)
  | Some st => (delete id s, if rs_alerted st then emitReplicaRecovery id name now_ else no_output)
  end.

Definition replicas_fine (svc : SwarmService) : bool :=
  negb (bool_decide (sv_Mode svc = "replicated")) || bool_decide (sv_DesiredReplicas svc = 0)
  || IgnoredByLabels (sv_Labels svc) || bool_decide (sv_DesiredReplicas svc ≤ sv_RunningReplicas svc).

Definition evaluate (svc : SwarmService) (now_ : Z) (s : gmap string replicaState) : gmap string replicaState * output :=
  if replicas_fine svc then replica_recover (sv_ServiceID svc) (sv_Name svc) now_ s
  else
    match s !! sv_ServiceID svc with
    | None => (<[sv_ServiceID svc := MkReplicaState now_ false]> s, no_output)
    | Some st =>
      if negb (rs_alerted st) && bool_decide (defaultReplicaAlertDelay ≤ time_sub now_ (rs_firstSeen st))
      then (<[sv_ServiceID svc := MkReplicaState (rs_firstSeen st) true]> s, emitReplicaAlert svc now_)
      else (s, no_output)
    end.

Fixpoint evaluate_all (services : list SwarmService) (now_ : Z) (s : gmap string replicaState) : gmap string replicaState * output :=
  match services with
  | [] => (s, no_output)
  | svc :: rest =>
    let '(s1, o1) := evaluate svc now_ s in
    let '(s2, o2) := evaluate_all rest now_ s1 in
    (s2, o1 ⊕ o2)
  end.

Definition replica_Check (services : list SwarmService) (now_ : Z) (s : gmap string replicaState) : gmap string replicaState * output :=
  let '(s, o) := evaluate_all services now_ s in
  (filter (λ p, p.1 ∈ (sv_ServiceID <$> services)) s, o).

Definition replica_Observe (svc : SwarmService) (now_ : Z) (s : gmap string replicaState) : gmap string replicaState * output :=
  evaluate svc now_ s.

Definition replica_Resume (active : list Alert) (now_ : Z) (s : gmap string replicaState) : gmap string replicaState :=
  foldl (λ s a,
    if bool_decide (al_Source a = "swarm") && bool_decide (al_AlertType a = "replica_unhealthy")
       && bool_decide (al_EntityType a = "swarm_service")
    then <[al_EntityID a := MkReplicaState (now_ - defaultReplicaAlertDelay) true]> s else s) s active.

(** ** Crash loops *)

Definition crashLoopThreshold : nat := 3.
Definition crashLoopWindow : Z := 5 * minute.
Definition crashLoopRecoveryTime : Z := 10 * minute.
Definition crashLoopBufferMax : Z := 30 * minute.

Record serviceFailureState := MkFailures {
  fs_name : string;
  fs_failures : list Z;
  fs_inCrashLoop : bool;
  fs_lastFailure : Z;
}.
#[export] Instance serviceFailureState_eta : Eta serviceFailureState := λ s,
  MkFailures (fs_name s) (fs_failures s) (fs_inCrashLoop s) (fs_lastFailure s).

Record CrashLoopDetector := MkDetector {
  cl_services : gmap string serviceFailureState;
  cl_failedTasks : gset string;
}.
#[export] Instance CrashLoopDetector_eta : Eta CrashLoopDetector := λ s,
  MkDetector (cl_services s) (cl_failedTasks s).

Definition after (t : Z) (l : list Z) : list Z := filter (λ u, t < u) l.

Definition crash_resolve (id name message : string) (now_ : Z) : output :=
  out_event SwarmCrashLoopRecovered [("service_id", VString id); ("service_name", VString name);
    ("timestamp", VTime now_)]
  ⊕ out_alert (swarm_event "crash_loop" SeverityInfo true message "swarm_service" id name DetailsNil now_).

Definition crash_alert (id name lastError : string) (count : nat) (now_ : Z) : output :=
  out_event SwarmCrashLoopDetected [("service_id", VString id); ("service_name", VString name);
    ("failure_count", VInt (Z.of_nat count)); ("window_minutes", VInt 5); ("last_error", VString lastError);
    ("timestamp", VTime now_)]
  ⊕ out_alert (swarm_event "crash_loop" SeverityCritical false
      ("Swarm service " +:+ name +:+ " is crash-looping (" +:+ fmt_d (Z.of_nat count) +:+ " failures in 5 min)")
      "swarm_service" id name
      (json [("service_id", VString id); ("failure_count", VInt (Z.of_nat count));
             ("last_error", VString lastError)]) now_).

Definition recordFailure (id name lastError : string) (at_ now_ : Z)
    (s : gmap string serviceFailureState) : gmap string serviceFailureState * output :=
  let st := default (MkFailures "" [] false zero_time) (s !! id) in
  let failures := after (now_ - crashLoopBufferMax) (fs_failures st ++ [at_]) in
  let last := if bool_decide (fs_lastFailure st < at_) then at_ else fs_lastFailure st in
  let count := length (after (now_ - crashLoopWindow) failures) in
  let detected := bool_decide (crashLoopThreshold ≤ count)%nat && negb (fs_inCrashLoop st) in
  (<[id := MkFailures name failures (fs_inCrashLoop st || detected) last]> s,
   if detected then crash_alert id name lastError count now_ else no_output).

(** A task that stopped while the swarm wanted it running. *)
Definition taskFailed (t : SwarmTask) : bool :=
  if negb (bool_decide (ta_State t = "failed")) then false
  else match ta_ExitCode t with None => true | Some c => negb (IsCleanExit c true) end.

Definition by_id (services : list SwarmService) : gmap string SwarmService :=
  foldl (λ m svc, <[sv_ServiceID svc := svc]> m) ∅ services.

(** The first loop of [ObserveTasks]: forget the services that became ignored. *)
Definition forget_step (now_ : Z) (acc : gmap string serviceFailureState * output)
    (p : string * SwarmService) : gmap string serviceFailureState * output :=
  let '(s, o) := acc in
  let '(id, svc) := p in
  match s !! id with
  | Some st =>
    if IgnoredByLabels (sv_Labels svc) then
      (delete id s, o ⊕ (if fs_inCrashLoop st
         then crash_resolve id (sv_Name svc) ("Swarm service " +:+ sv_Name svc +:+ " is ignored") now_
         else no_output))
    else (s, o)
  | None => (s, o)
  end.

Definition forget_ignored (services : list (string * SwarmService)) (now_ : Z)
    (s : gmap string serviceFailureState) : gmap string serviceFailureState * output :=
  foldl (forget_step now_) (s, no_output) services.

(** The second loop: the failed tasks of the snapshot, each counted once. *)
Definition observe_task (services : gmap string SwarmService) (counted : gset string) (now_ : Z)
    (acc : gmap string serviceFailureState * gset string * output) (t : SwarmTask)
    : gmap string serviceFailureState * gset string * output :=
  let '(s, failed, o) := acc in
  match services !! ta_ServiceID t with
  | None => acc
  | Some svc =>
    if negb (taskFailed t) then acc
    else
      let failed := {[ta_TaskID t]} ∪ failed in
      let at_ := if is_zero (ta_Timestamp t) then now_ else ta_Timestamp t in
      if bool_decide (ta_TaskID t ∈ counted) || IgnoredByLabels (sv_Labels svc)
         || bool_decide (crashLoopWindow ≤ time_sub now_ at_)
      then (s, failed, o)
      else
        let o := o ⊕ out_event SwarmTaskFailed [("task_id", VString (ta_TaskID t));
          ("service_id", VString (ta_ServiceID t)); ("service_name", VString (sv_Name svc));
          ("node_id", VString (ta_NodeID t)); ("container_id", VString (ta_ContainerID t));
          ("error", VString (ta_Error t)); ("exit_code", VIntPtr (ta_ExitCode t)); ("timestamp", VTime at_)] in
        let '(s, o') := recordFailure (ta_ServiceID t) (sv_Name svc) (ta_Error t) at_ now_ s in
        (s, failed, o ⊕ o')
  end.

Definition ObserveTasks (services : list SwarmService) (tasks : list SwarmTask) (now_ : Z)
    (d : CrashLoopDetector) : CrashLoopDetector * output :=
  let known := by_id services in
  let '(s, o) := forget_ignored (map_to_list known) now_ (cl_services d) in
  let '(s, failed, o) := foldl (observe_task known (cl_failedTasks d) now_) (s, ∅, o) tasks in
  (MkDetector s failed, o).

Definition recover_step (now_ : Z) (acc : gmap string serviceFailureState * output)
    (p : string * serviceFailureState) : gmap string serviceFailureState * output :=
  let '(s, o) := acc in
  let '(id, st) := p in
  if fs_inCrashLoop st && bool_decide (crashLoopRecoveryTime ≤ time_sub now_ (fs_lastFailure st))
  then (<[id := st <| fs_inCrashLoop := false |>]> s,
        o ⊕ crash_resolve id (fs_name st) ("Swarm service crash-loop resolved for " +:+ fs_name st) now_)
  else (s, o).

Definition CheckRecoveries (now_ : Z) (d : CrashLoopDetector) : CrashLoopDetector * output :=
  let '(s, o) := foldl (recover_step now_) (cl_services d, no_output) (map_to_list (cl_services d)) in
  (d <| cl_services := s |>, o).

Definition IsCrashLooping (id : string) (d : CrashLoopDetector) : bool :=
  match cl_services d !! id with Some st => fs_inCrashLoop st | None => false end.

Definition crash_Resume (active : list Alert) (now_ : Z) (d : CrashLoopDetector) : CrashLoopDetector :=
  d <| cl_services := foldl (λ s a,
    if bool_decide (al_Source a = "swarm") && bool_decide (al_AlertType a = "crash_loop")
       && bool_decide (al_EntityType a = "swarm_service")
    then <[al_EntityID a := MkFailures (al_EntityName a) [] true now_]> s else s) (cl_services d) active |>.

(** ** Rolling updates *)

Definition alertTypeUpdateRollback := "update_rollback".
Definition alertTypeUpdateStalled := "update_stalled".

Definition UpdateStateUpdating := "updating".
Definition UpdateStateCompleted := "completed".
Definition UpdateStateRollbackCompleted := "rollback_completed".
Definition UpdateStatePaused := "paused".

(** What [ServiceInspect] and [TaskList] answer of a service: its labels, its
    update status when it has one, its image and its running tasks. *)
Record InspectedService := MkInspected {
  is_Name : string;
  is_Labels : gmap string string;
  is_UpdateState : option string;
  is_Message : string;
  is_StartedAt : option Z;
  is_CompletedAt : option Z;
  is_NewImage : string;
}.

Record ListedTask := MkListedTask {
  lt_ServiceID : string;
  lt_DesiredState : string;
  lt_State : string;
  lt_Image : string;
}.

Record UpdateTracker := MkTracker {
  ut_tracked : gmap string (string * string);
  ut_alerted : gmap string (gset string);
}.
#[export] Instance UpdateTracker_eta : Eta UpdateTracker := λ s,
  MkTracker (ut_tracked s) (ut_alerted s).

Definition markAlerted (id alertType : string) (s : UpdateTracker) : UpdateTracker :=
  s <| ut_alerted := <[id := {[alertType]} ∪ default ∅ (ut_alerted s !! id)]> (ut_alerted s) |>.

Definition raiseAlert (alertType message id name : string) (dets : details) (now_ : Z) (s : UpdateTracker)
    : UpdateTracker * output :=
  (markAlerted id alertType s,
   out_alert (swarm_event alertType SeverityWarning false message "swarm_service" id name dets now_)).

Definition resolve_event (id name message : string) (now_ : Z) (alertType : string) : Event :=
  swarm_event alertType SeverityInfo true message "swarm_service" id name DetailsNil now_.

Definition resolveAlerts (id name message : string) (now_ : Z) (s : UpdateTracker)
    : UpdateTracker * output :=
  (s <| ut_alerted ::= delete id |>,
   MkOutput [] (resolve_event id name message now_ <$> elements (default ∅ (ut_alerted s !! id)))).

Definition clearTracked (id : string) (s : UpdateTracker) : UpdateTracker :=
  s <| ut_tracked ::= delete id |>.

Definition countProgress (id newImage : string) (tasks : option (list ListedTask)) : Z * Z :=
  match tasks with
  | None => (0, 0)
  | Some tasks =>
    let mine := filter (λ t, lt_ServiceID t = id ∧ lt_DesiredState t = "running") tasks in
    (Z.of_nat (length (filter (λ t, lt_State t = "running" ∧ lt_Image t = newImage) mine)),
     Z.of_nat (length mine))
  end.

(** The text of a time, or the empty string. *)
Definition formatTimePtr (t : option Z) : value :=
  match t with Some t => if is_zero t then VString "" else VTime t | None => VString "" end.

Record UpdateProgress := MkUpdateProgress {
  up_ServiceID : string;
  up_ServiceName : string;
  up_State : string;
  up_OldImage : string;
  up_NewImage : string;
  up_TasksUpdated : Z;
  up_TasksTotal : Z;
  up_Message : string;
  up_StartedAt : option Z;
  up_CompletedAt : option Z;
}.

(** [GetUpdateStatus]: the progress of an update in course, nothing without one. *)
Definition GetUpdateStatus (id : string) (svc : option InspectedService) (tasks : option (list ListedTask))
    (s : UpdateTracker) : result (option UpdateProgress) :=
  match svc with
  | None => Err (ESentinel "inspect service")
  | Some svc =>
    match is_UpdateState svc with
    | None => Ok None
    | Some state =>
      if bool_decide (state = "") then Ok None
      else
        let '(updated, total) := countProgress id (is_NewImage svc) tasks in
        let oldImage := match ut_tracked s !! id with Some prev => prev.2 | None => "" end in
        Ok (Some (MkUpdateProgress id (is_Name svc) state oldImage (is_NewImage svc) updated total
                    (is_Message svc) (is_StartedAt svc) (is_CompletedAt svc)))
    end
  end.

(** [svc] and [tasks] are what the client answered, [None] for an error. *)
Definition CheckService (id : string) (svc : option InspectedService) (tasks : option (list ListedTask))
    (now_ : Z) (s : UpdateTracker) : UpdateTracker * output :=
  match svc with
  | None => (s, no_output)
  | Some svc =>
    let name := is_Name svc in
    let ignored := IgnoredByLabels (is_Labels svc) in
    let '(s, o) :=
      if ignored then resolveAlerts id name ("Swarm service " +:+ name +:+ " is ignored") now_ s
      else (s, no_output) in
    let state := default "" (is_UpdateState svc) in
    if bool_decide (state = "") then (clearTracked id s, o)
    else
      let prev := default ("", "") (ut_tracked s !! id) in
      let prevState := prev.1 in
      let s := s <| ut_tracked ::= <[id := (state, prev.2)]> |> in
      let '(updated, total) := countProgress id (is_NewImage svc) tasks in
      let dets := json [("service_id", VString id); ("state", VString state); ("message", VString (is_Message svc))] in
      if bool_decide (state = UpdateStateUpdating) then
        (s, o ⊕ out_event SwarmUpdateProgress [("service_id", VString id); ("service_name", VString name);
          ("state", VString state); ("tasks_updated", VInt updated); ("tasks_total", VInt total);
          ("old_image", VString prev.2); ("new_image", VString (is_NewImage svc));
          ("message", VString (is_Message svc)); ("timestamp", VTime now_)])
      else if bool_decide (state = UpdateStateCompleted) && negb (bool_decide (prevState = UpdateStateCompleted)) then
        let o := o ⊕ out_event SwarmUpdateCompleted [("service_id", VString id); ("service_name", VString name);
          ("state", VString "completed"); ("message", VString (is_Message svc));
          ("started_at", formatTimePtr (is_StartedAt svc)); ("completed_at", formatTimePtr (is_CompletedAt svc))] in
        let '(s, o') := resolveAlerts id name ("Swarm service " +:+ name +:+ " rolling update completed") now_
                          (clearTracked id s) in
        (s, o ⊕ o')
      else if bool_decide (state = UpdateStateRollbackCompleted)
           && negb (bool_decide (prevState = UpdateStateRollbackCompleted)) then
        let o := o ⊕ out_event SwarmUpdateCompleted [("service_id", VString id); ("service_name", VString name);
          ("state", VString "rollback_completed"); ("message", VString (is_Message svc));
          ("started_at", formatTimePtr (is_StartedAt svc)); ("completed_at", formatTimePtr (is_CompletedAt svc))] in
        let '(s, o') :=
          if ignored then (s, no_output)
          else raiseAlert alertTypeUpdateRollback ("Swarm service " +:+ name +:+ " rolling update rolled back")
                 id name dets now_ s in
        (clearTracked id s, o ⊕ o')
      else if bool_decide (state = UpdateStatePaused) && negb (bool_decide (prevState = UpdateStatePaused))
           && negb ignored then
        let '(s, o') := raiseAlert alertTypeUpdateStalled
          ("Swarm service " +:+ name +:+ " rolling update paused: " +:+ is_Message svc) id name dets now_ s in
        (s, o ⊕ o')
      else (s, o)
  end.

Definition update_Resume (active : list Alert) (s : UpdateTracker) : UpdateTracker :=
  foldl (λ s a,
    if bool_decide (al_Source a = "swarm") && bool_decide (al_EntityType a = "swarm_service")
       && (bool_decide (al_AlertType a = alertTypeUpdateRollback)
           || bool_decide (al_AlertType a = alertTypeUpdateStalled))
    then markAlerted (al_EntityID a) (al_AlertType a) s else s) s active.

(** ** Nodes *)

Definition alertTypeQuorumDegraded := "quorum_degraded".

Record SwarmNode := MkSwarmNode {
  no_NodeID : string;
  no_Hostname : string;
  no_Role : string;
  no_Status : string;
  no_Availability : string;
  no_EngineVersion : string;
  no_Address : string;
  no_TaskCount : Z;
  no_FirstSeenAt : Z;
  no_LastSeenAt : Z;
  no_LastStatusChangeAt : Z;
}.

Definition gone (status : string) : bool :=
  bool_decide (status = "down") || bool_decide (status = "disconnected").

Definition node_alert (alertType severity : string) (isRecover : bool) (message : string)
    (current : SwarmNode) (more : list (string * value)) (now_ : Z) : output :=
  out_alert (swarm_event alertType severity isRecover message "swarm_node" (no_NodeID current)
    (no_Hostname current)
    (json ([("node_id", VString (no_NodeID current)); ("role", VString (no_Role current))] ++ more)) now_).

Definition detectTransitions (old current : SwarmNode) (now_ : Z) : output :=
  let statusChanged := negb (bool_decide (no_Status old = no_Status current)) in
  let availChanged := negb (bool_decide (no_Availability old = no_Availability current)) in
  if negb statusChanged && negb availChanged then no_output
  else
    let who := "Swarm node " +:+ no_Hostname current +:+ " (" +:+ no_Role current +:+ ")" in
    let status := [("old_status", VString (no_Status old)); ("new_status", VString (no_Status current))] in
    let avail := [("old_availability", VString (no_Availability old));
                  ("new_availability", VString (no_Availability current))] in
    out_event SwarmNodeStatusChanged ([("node_id", VString (no_NodeID current));
      ("hostname", VString (no_Hostname current)); ("role", VString (no_Role current))] ++ status ++ avail)
    ⊕ (if statusChanged && bool_decide (no_Status old = "ready") && gone (no_Status current)
       then node_alert "node_down" SeverityCritical false (who +:+ " is " +:+ no_Status current) current status now_
       else no_output)
    ⊕ (if statusChanged && gone (no_Status old) && bool_decide (no_Status current = "ready")
       then node_alert "node_down" SeverityInfo true (who +:+ " recovered") current status now_
       else no_output)
    ⊕ (if availChanged && bool_decide (no_Availability current = "drain")
          && negb (bool_decide (no_Availability old = "drain"))
       then node_alert "node_drain" SeverityWarning false (who +:+ " set to drain") current avail now_
       else no_output)
    ⊕ (if availChanged && bool_decide (no_Availability old = "drain")
          && negb (bool_decide (no_Availability current = "drain"))
       then node_alert "node_drain" SeverityInfo true (who +:+ " returned to " +:+ no_Availability current)
              current avail now_
       else no_output).

Definition setQuorumDegraded (degraded : bool) (message : string) (dets : list (string * value)) (now_ : Z)
    (alerted : bool) : bool * output :=
  (degraded,
   if bool_decide (degraded = alerted) then no_output
   else out_alert (swarm_event alertTypeQuorumDegraded
     (if degraded then SeverityCritical else SeverityInfo) (negb degraded) message "swarm_cluster" "" "swarm"
     (json dets) now_)).

Definition checkQuorum (totalManagers readyManagers : Z) (now_ : Z) (alerted : bool) : bool * output :=
  let quorumNeeded := Z.quot totalManagers 2 + 1 in
  let dets := [("total_managers", VInt totalManagers); ("ready_managers", VInt readyManagers);
               ("quorum_needed", VInt quorumNeeded)] in
  let counts := fmt_d readyManagers +:+ "/" +:+ fmt_d totalManagers +:+ " managers ready" in
  if bool_decide (readyManagers < quorumNeeded)
  then setQuorumDegraded true ("Swarm quorum degraded: " +:+ counts +:+ " (need " +:+ fmt_d quorumNeeded +:+ ")")
         dets now_ alerted
  else setQuorumDegraded false ("Swarm quorum restored: " +:+ counts) dets now_ alerted.

Definition quorumLost (err : string) (now_ : Z) (alerted : bool) : bool * output :=
  setQuorumDegraded true "Swarm quorum lost: the swarm has no leader" [("error", VString err)] now_ alerted.

Definition isLeaderless (err : string) : bool := Contains err "swarm does not have a leader".

Definition quorum_Resume (active : list Alert) (alerted : bool) : bool :=
  foldl (λ b a, b || (bool_decide (al_Source a = "swarm")
                      && bool_decide (al_AlertType a = alertTypeQuorumDegraded))) alerted active.

(** *** Reconciliation with the store *)

(** The row a node upserts, over the row it finds: the first sighting and an
    unchanged status keep their times. *)
Definition upsert_node (n : SwarmNode) (rows : gmap string SwarmNode) : gmap string SwarmNode :=
  let times := match rows !! no_NodeID n with
    | None => (db_time (no_FirstSeenAt n), db_time (no_LastStatusChangeAt n))
    | Some old => (no_FirstSeenAt old,
        if bool_decide (no_Status old = no_Status n) && bool_decide (no_Availability old = no_Availability n)
        then no_LastStatusChangeAt old else db_time (no_LastStatusChangeAt n))
    end in
  <[no_NodeID n := MkSwarmNode (no_NodeID n) (no_Hostname n) (no_Role n) (no_Status n) (no_Availability n)
      (no_EngineVersion n) (no_Address n) (no_TaskCount n) times.1 (db_time (no_LastSeenAt n)) times.2]> rows.

Record nodes_state := MkNodes {
  nd_rows : gmap string SwarmNode;
  nd_quorumAlerted : bool;
  nd_out : output;
}.
#[export] Instance nodes_state_eta : Eta nodes_state := λ s,
  MkNodes (nd_rows s) (nd_quorumAlerted s) (nd_out s).

Definition node_emit (o : output) : M nodes_state unit := modify (λ s, s <| nd_out ::= λ o0, o0 ⊕ o |>).

Definition reconcile_node (taskCounts : string → Z) (now_ : Z) (n : SwarmNode) : M nodes_state unit :=
  let! r := db_query (λ s, nd_rows s !! no_NodeID n) in
  match r with
  | Err _ => ret tt
  | Ok existing =>
    let new := MkSwarmNode (no_NodeID n) (no_Hostname n) (no_Role n) (no_Status n) (no_Availability n)
      (no_EngineVersion n) (no_Address n) (taskCounts (no_NodeID n))
      (match existing with Some old => no_FirstSeenAt old | None => now_ end) now_ now_ in
    do! (match existing with
         | Some old => let! t := now in node_emit (detectTransitions old new t)
         | None => ret tt
         end) in
    let same_identity := match existing with
      | None => false
      | Some old => bool_decide (no_Role old = no_Role n) && bool_decide (no_Hostname old = no_Hostname n)
          && bool_decide (no_EngineVersion old = no_EngineVersion n) && bool_decide (no_Address old = no_Address n)
      end in
    when! negb same_identity then
      node_emit (out_event SwarmNodeUpdated [("node_id", VString (no_NodeID n));
        ("hostname", VString (no_Hostname n)); ("role", VString (no_Role n)); ("status", VString (no_Status n));
        ("availability", VString (no_Availability n)); ("engine_version", VString (no_EngineVersion n));
        ("address", VString (no_Address n)); ("task_count", VInt (no_TaskCount new))]) in
    do! db_exec (λ s, s <| nd_rows ::= upsert_node new |>) in
    ret tt
  end.

Definition managers (nodes : list SwarmNode) : list SwarmNode := filter (λ n, no_Role n = "manager") nodes.
Definition ready (nodes : list SwarmNode) : list SwarmNode := filter (λ n, no_Status n = "ready") nodes.

(** [nodes] is what [NodeList] answered; the counts come from [TaskList]. *)
Definition Reconcile (nodes : list SwarmNode + string) (taskCounts : string → Z) : M nodes_state (result unit) :=
  match nodes with
  | inr err =>
    when! isLeaderless err then
      (let! t := now in
       modify (λ s, let '(b, o) := quorumLost err t (nd_quorumAlerted s) in
                    s <| nd_quorumAlerted := b |> <| nd_out ::= λ o0, o0 ⊕ o |>)) in
    ret (Err (ESentinel "reconcile nodes"))
  | inl nodes =>
    let! t := now in
    do! for_each nodes (reconcile_node taskCounts t) in
    when! negb (bool_decide (managers nodes = [])) then
      (let! t := now in
       modify (λ s, let '(b, o) := checkQuorum (Z.of_nat (length (managers nodes)))
                      (Z.of_nat (length (ready (managers nodes)))) t (nd_quorumAlerted s) in
                    s <| nd_quorumAlerted := b |> <| nd_out ::= λ o0, o0 ⊕ o |>)) in
    ret (Ok tt)
  end.

(** ** The manager of the local swarm

    [startNodeRefresh] and [seedSwarmAlertTracking] of [src/internal/app/lifecycle.go]. *)

Record swarmManager := MkManager {
  mg_nodes : nodes_state;
  mg_replicas : gmap string replicaState;
  mg_crashLoop : CrashLoopDetector;
  mg_updates : UpdateTracker;
}.
#[export] Instance swarmManager_eta : Eta swarmManager := λ s,
  MkManager (mg_nodes s) (mg_replicas s) (mg_crashLoop s) (mg_updates s).

(** The manager as [newSwarmManager] makes it, over the stored rows. *)
Definition new_manager (rows : gmap string SwarmNode) : swarmManager :=
  MkManager (MkNodes rows false no_output) ∅ (MkDetector ∅ ∅) (MkTracker ∅ ∅).

(** [active] is what the alert store answered. *)
Definition seedSwarmAlertTracking (active : result (list Alert)) (now_ : Z) (m : swarmManager) : swarmManager :=
  match active with
  | Err _ => m
  | Ok active =>
    m <| mg_replicas ::= replica_Resume active now_ |>
      <| mg_crashLoop ::= crash_Resume active now_ |>
      <| mg_updates ::= update_Resume active |>
      <| mg_nodes ::= λ n, n <| nd_quorumAlerted ::= quorum_Resume active |> |>
  end.
End Swarm.
