(* ===== verification/SwarmTrackers.v ===== *)
(** * Swarm: the trackers keep the alert protocol

    The five machines of [SwarmAlerts] as instances of the class [Tracker]. *)

From S2P Require Import Prelude.
From S2P Require Import Tables.
From S2P Require Import GoStrings.
From S2P Require Import AlertModel.
From S2P Require Import AlertEngine.
From S2P Require Import AlertTracker.
From S2P Require Import SwarmAlerts.

#[local] Open Scope string_scope.
#[local] Open Scope list_scope.
#[local] Open Scope Z_scope.

#[local] Abbreviation goes x := (goes "swarm" (λ _ : string, x)).
#[local] Abbreviation sent_by x := (sent_by "swarm" (λ _ : string, x)).

Section Swarm.
Context (json : list (string * value) → details).

(** ** Crash loops *)

Inductive crash_op :=
  | ObserveTasksOp (services : list SwarmService) (tasks : list SwarmTask) (now_ : Z)
  | CheckRecoveriesOp (now_ : Z).

Definition crash_step (op : crash_op) (d : CrashLoopDetector) : CrashLoopDetector * output :=
  match op with
  | ObserveTasksOp services tasks now_ => ObserveTasks json services tasks now_ d
  | CheckRecoveriesOp now_ => CheckRecoveries now_ d
  end.

Definition looping (c : channel) (s : gmap string serviceFailureState) : bool :=
  bool_decide (c.1 = "crash_loop")
  && match s !! c.2 with Some st => fs_inCrashLoop st | None => false end.

Lemma looping_at ty id s :
  looping (ty, id) s = bool_decide (ty = "crash_loop") && from_option fs_inCrashLoop false (s !! id).
Proof. unfold looping. cbn. by destruct (s !! id). Qed.

(** The flag of an entry other than the one that changed. *)
Lemma looping_same c s s' :
  (c.1 = "crash_loop" → from_option fs_inCrashLoop false (s' !! c.2) = from_option fs_inCrashLoop false (s !! c.2)) →
  looping c s' = looping c s.
Proof.
  destruct c as [ty id]. cbn. intros H. rewrite !looping_at.
  destruct (decide (ty = "crash_loop")) as [E|E]; [by rewrite H|by rewrite !bool_decide_eq_false_2].
Qed.

Lemma looping_insert_ne c id x s : c ≠ ("crash_loop", id) → looping c (<[id := x]> s) = looping c s.
Proof.
  intros Hc. apply looping_same. intros Hty. rewrite lookup_insert_ne; [done|].
  intros ->. apply Hc. by destruct c; cbn in *; subst.
Qed.

Lemma goes_recordFailure c id name lastError at_ now_ s :
  goes "swarm_service" true looping c s (recordFailure json id name lastError at_ now_ s).
Proof.
  unfold recordFailure. set (st := default _ _). cbv zeta.
  set (failures := after _ (_ ++ _)). set (count := length _). set (last := if bool_decide _ then _ else _).
  assert (from_option fs_inCrashLoop false (s !! id) = fs_inCrashLoop st) as Hst
    by (unfold st; by destruct (s !! id)).
  destruct (bool_decide _ && _) eqn:Hdet.
  - apply andb_true_iff in Hdet as [_ Hno%negb_true_iff].
    eapply (goes_signal _ _ _ _ _ _ _ _ true); [reflexivity|done|done|..]; unfold channel_of; cbn [ev_AlertType ev_EntityID swarm_event].
    + by rewrite looping_at, Hst, Hno.
    + rewrite looping_at, lookup_insert_eq. cbn. by rewrite orb_true_r.
    + intros c' Hc'. by apply looping_insert_ne.
  - apply goes_silent; [done|]. apply looping_same. intros _. destruct (decide (c.2 = id)) as [->|].
    + rewrite lookup_insert_eq, Hst. cbn. by rewrite orb_false_r.
    + by rewrite lookup_insert_ne.
Qed.

(** Forgetting or resetting an entry, with a recovery when it was in a loop. *)
Lemma goes_resolve c id name message now_ s s' :
  looping ("crash_loop", id) s = true → looping ("crash_loop", id) s' = false →
  (∀ c', c' ≠ ("crash_loop", id) → looping c' s' = looping c' s) →
  goes "swarm_service" true looping c s (s', crash_resolve id name message now_).
Proof. intros Hs Hs' Hother. by eapply (goes_signal _ _ _ _ _ _ _ _ false). Qed.

Lemma looping_delete_ne c id s : c ≠ ("crash_loop", id) → looping c (delete id s) = looping c s.
Proof.
  intros Hc. apply looping_same. intros Hty. rewrite lookup_delete_ne; [done|].
  intros ->. apply Hc. by destruct c; cbn in *; subst.
Qed.

Lemma goes_forget_ignored c services now_ s : goes "swarm_service" true looping c s (forget_ignored services now_ s).
Proof.
  apply goes_fold; [|done]. intros [s1 o1] [id svc] _ Hacc.
  cbn [forget_step]. destruct (s1 !! id) as [st|] eqn:Hst; [|done].
  destruct (IgnoredByLabels _); [|done].
  apply (goes_app _ _ _ _ _ s1); [done|].
  destruct (fs_inCrashLoop st) eqn:Hloop.
  - apply goes_resolve; [by rewrite looping_at, Hst; cbn|by rewrite looping_at, lookup_delete_eq|].
    intros. by apply looping_delete_ne.
  - apply goes_silent; [done|]. apply looping_same. intros _. destruct (decide (c.2 = id)) as [->|].
    + by rewrite lookup_delete_eq, Hst.
    + by rewrite lookup_delete_ne.
Qed.

Lemma goes_observe_task c services counted now_ t s0 acc :
  goes "swarm_service" true looping c s0 (acc.1.1, acc.2) →
  goes "swarm_service" true looping c s0 ((observe_task json services counted now_ acc t).1.1,
             (observe_task json services counted now_ acc t).2).
Proof.
  destruct acc as [[s failed] o]. cbn [fst snd]. intros Hacc. unfold observe_task.
  destruct (services !! ta_ServiceID t) as [svc|]; [|done].
  destruct (taskFailed t); cbn [negb]; [|done].
  case_match; [done|].
  destruct (recordFailure _ _ _ _ _ _ _) as [s' o'] eqn:Hrec. cbn [fst snd].
  apply (goes_app _ _ _ _ _ s); [|rewrite <- Hrec; apply goes_recordFailure].
  by apply (goes_app _ _ _ _ _ s).
Qed.

Lemma goes_observe_tasks c services counted now_ tasks s0 acc :
  goes "swarm_service" true looping c s0 (acc.1.1, acc.2) →
  goes "swarm_service" true looping c s0 ((foldl (observe_task json services counted now_) acc tasks).1.1,
             (foldl (observe_task json services counted now_) acc tasks).2).
Proof.
  revert acc. induction tasks as [|t tasks IH]; intros acc Hacc; [done|].
  cbn [foldl]. by apply IH, goes_observe_task.
Qed.

Lemma goes_recoveries c now_ l s :
  NoDup l.*1 → (∀ p, p ∈ l → s !! p.1 = Some p.2) →
  ∀ s0 o, goes "swarm_service" true looping c s0 (s, o) → goes "swarm_service" true looping c s0 (foldl (recover_step now_) (s, o) l).
Proof.
  revert s. induction l as [|[id st] l IH]; intros s Hnd Hl s0 o Hacc; [done|].
  cbn [foldl recover_step]. apply NoDup_cons in Hnd as [Hid Hnd].
  assert (s !! id = Some st) as Hst by exact (Hl (id, st) (list_elem_of_here _ _)).
  destruct (_ && _) eqn:Hg; [|by apply IH; [done|intros; apply Hl; right|done]].
  apply andb_true_iff in Hg as [Hloop _]. apply IH; [done| |].
  - intros p Hp. rewrite lookup_insert_ne; [apply Hl; by right|].
    intros ->. apply Hid. exact (list_elem_of_fmap_2 fst l p Hp).
  - apply (goes_app _ _ _ _ _ s); [done|]. apply goes_resolve.
    + by rewrite looping_at, Hst.
    + by rewrite looping_at, lookup_insert_eq.
    + intros. by apply looping_insert_ne.
Qed.

Definition crash_raised (c : channel) (d : CrashLoopDetector) : bool := looping c (cl_services d).

Lemma crash_law c op d : True → goes "swarm_service" true crash_raised c d (crash_step op d).
Proof.
  unfold crash_raised. intros _. destruct op as [services tasks now_|now_]; cbn [crash_step].
  - unfold ObserveTasks.
    destruct (forget_ignored _ _ _) as [s o] eqn:Hf.
    assert (goes "swarm_service" true looping c (cl_services d) (s, o)) as H0 by (rewrite <- Hf; apply goes_forget_ignored).
    pose proof (goes_observe_tasks c (by_id services) (cl_failedTasks d) now_ tasks _ (s, ∅, o) H0) as H1.
    destruct (foldl _ _ tasks) as [[s' failed] o']. exact H1.
  - unfold CheckRecoveries.
    assert (goes "swarm_service" true looping c (cl_services d) (foldl (recover_step now_) (cl_services d, no_output)
              (map_to_list (cl_services d)))) as H1.
    { apply goes_recoveries; [apply NoDup_fst_map_to_list| |done].
      intros [id st] Hp. by apply elem_of_map_to_list in Hp. }
    destruct (foldl _ _ _) as [s o]. exact H1.
Qed.

#[export] Instance crash_tracker : Tracker CrashLoopDetector crash_op := {|
  trk_strict := true;
  trk_step := crash_step;
  trk_raised := crash_raised;
  trk_covers c op d := True;
  trk_source := "swarm";
  trk_entity _ := "swarm_service";
  trk_law := crash_law;
|}.

(** ** Replica health *)

Inductive replica_op :=
  | ReplicaCheck (services : list SwarmService) (now_ : Z)
  | ReplicaObserve (svc : SwarmService) (now_ : Z).

Definition replica_step (op : replica_op) (s : gmap string replicaState) : gmap string replicaState * output :=
  match op with
  | ReplicaCheck services now_ => replica_Check json services now_ s
  | ReplicaObserve svc now_ => replica_Observe json svc now_ s
  end.

Definition short (c : channel) (s : gmap string replicaState) : bool :=
  bool_decide (c.1 = "replica_unhealthy") && match s !! c.2 with Some st => rs_alerted st | None => false end.

Lemma short_at ty id s :
  short (ty, id) s = bool_decide (ty = "replica_unhealthy") && from_option rs_alerted false (s !! id).
Proof. unfold short. cbn. by destruct (s !! id). Qed.

(** Only the alert of the service can change. *)
Lemma short_same c s s' :
  (c.1 = "replica_unhealthy" → from_option rs_alerted false (s' !! c.2) = from_option rs_alerted false (s !! c.2)) →
  short c s' = short c s.
Proof.
  destruct c as [ty id]. cbn. intros H. rewrite !short_at.
  destruct (decide (ty = "replica_unhealthy")) as [E|E]; [by rewrite H|by rewrite !bool_decide_eq_false_2].
Qed.

Lemma goes_evaluate c svc now_ s : goes "swarm_service" true short c s (evaluate json svc now_ s).
Proof.
  set (id := sv_ServiceID svc).
  assert (∀ c' s', c' ≠ ("replica_unhealthy", id) → (∀ i, i ≠ id → s' !! i = s !! i) → short c' s' = short c' s) as Hne.
  { intros c' s' Hc' Hs'. apply short_same. intros Hty. rewrite Hs'; [done|].
    intros E. apply Hc'. destruct c'; cbn in *; by subst. }
  unfold evaluate, replica_recover. fold id. destruct (replicas_fine svc).
  - destruct (s !! id) as [st|] eqn:Hst; [|by apply goes_silent].
    destruct (rs_alerted st) eqn:Hal.
    + eapply (goes_signal _ _ _ _ _ _ _ _ false); [reflexivity|done|done|..]; unfold channel_of; cbn [ev_AlertType ev_EntityID swarm_event].
      * rewrite short_at. fold id. by rewrite Hst.
      * rewrite short_at. fold id. by rewrite lookup_delete_eq.
      * intros c' Hc'. apply Hne; [done|]. intros. by rewrite lookup_delete_ne.
    + apply goes_silent; [done|]. apply short_same. intros _. destruct (decide (c.2 = id)) as [->|].
      * by rewrite lookup_delete_eq, Hst.
      * by rewrite lookup_delete_ne.
  - destruct (s !! id) as [st|] eqn:Hst.
    + destruct (negb (rs_alerted st) && _) eqn:Hg; [|by apply goes_silent].
      apply andb_true_iff in Hg as [Hal%negb_true_iff _].
      eapply (goes_signal _ _ _ _ _ _ _ _ true); [reflexivity|done|done|..]; unfold channel_of; cbn [ev_AlertType ev_EntityID swarm_event].
      * rewrite short_at. fold id. by rewrite Hst.
      * rewrite short_at. fold id. by rewrite lookup_insert_eq.
      * intros c' Hc'. apply Hne; [done|]. intros. by rewrite lookup_insert_ne.
    + apply goes_silent; [done|]. apply short_same. intros _. destruct (decide (c.2 = id)) as [->|].
      * by rewrite lookup_insert_eq, Hst.
      * by rewrite lookup_insert_ne.
Qed.

Lemma goes_evaluate_all c services now_ s : goes "swarm_service" true short c s (evaluate_all json services now_ s).
Proof.
  revert s. induction services as [|svc services IH]; intros s; [by apply goes_silent|].
  cbn [evaluate_all]. pose proof (goes_evaluate c svc now_ s) as H1.
  destruct (evaluate json svc now_ s) as [s1 o1]. specialize (IH s1).
  destruct (evaluate_all json services now_ s1) as [s2 o2].
  by apply (goes_app _ _ _ _ _ s1).
Qed.

(** A check forgets the services that left the cluster without a word: their
    alerts are pruned elsewhere, so the law is about the services it lists. *)
Definition replica_covers (c : channel) (op : replica_op) (s : gmap string replicaState) : Prop :=
  match op with ReplicaCheck services _ => c.2 ∈ sv_ServiceID <$> services | _ => True end.

Lemma replica_law c op s : replica_covers c op s → goes "swarm_service" true short c s (replica_step op s).
Proof.
  intros Hc. destruct op as [services now_|svc now_]; cbn [replica_step]; [|apply goes_evaluate].
  unfold replica_Check. pose proof (goes_evaluate_all c services now_ s) as H1.
  destruct (evaluate_all json services now_ s) as [s' o]. destruct H1 as [Hall H1]. split; [done|]. cbn [fst snd] in *.
  rewrite H1. f_equal. symmetry. apply short_same. intros _. rewrite map_lookup_filter.
  destruct (s' !! c.2); cbn; [|done]. by rewrite option_guard_True.
Qed.

#[export] Instance replica_tracker : Tracker (gmap string replicaState) replica_op := {|
  trk_strict := true;
  trk_step := replica_step;
  trk_raised := short;
  trk_covers := replica_covers;
  trk_source := "swarm";
  trk_entity _ := "swarm_service";
  trk_law := replica_law;
|}.

(** ** The quorum of the managers *)

Inductive quorum_op :=
  | CheckQuorumOp (totalManagers readyManagers now_ : Z)
  | QuorumLostOp (err : string) (now_ : Z).

Definition quorum_step (op : quorum_op) (alerted : bool) : bool * output :=
  match op with
  | CheckQuorumOp total ready now_ => checkQuorum json total ready now_ alerted
  | QuorumLostOp err now_ => quorumLost json err now_ alerted
  end.

Definition quorum_raised (c : channel) (alerted : bool) : bool :=
  bool_decide (c = (alertTypeQuorumDegraded, "")) && alerted.

Lemma goes_setQuorumDegraded c degraded message dets now_ alerted :
  goes "swarm_cluster" true quorum_raised c alerted (setQuorumDegraded json degraded message dets now_ alerted).
Proof.
  unfold setQuorumDegraded. split_guard; [subst; by apply goes_silent|].
  eapply (goes_signal _ _ _ _ _ _ _ _ degraded); [reflexivity|done|done|..];
    unfold channel_of, quorum_raised; cbn [ev_AlertType ev_EntityID swarm_event].
  - rewrite bool_decide_eq_true_2 by done. by destruct degraded, alerted.
  - by rewrite bool_decide_eq_true_2.
  - intros c' Hc'. by rewrite bool_decide_eq_false_2.
Qed.

Lemma quorum_law c op alerted : True → goes "swarm_cluster" true quorum_raised c alerted (quorum_step op alerted).
Proof.
  intros _. destruct op; cbn [quorum_step]; [|apply goes_setQuorumDegraded].
  unfold checkQuorum. case_match; apply goes_setQuorumDegraded.
Qed.

#[export] Instance quorum_tracker : Tracker bool quorum_op := {|
  trk_strict := true;
  trk_step := quorum_step;
  trk_raised := quorum_raised;
  trk_covers c op s := True;
  trk_source := "swarm";
  trk_entity _ := "swarm_cluster";
  trk_law := quorum_law;
|}.

(** ** The status of a node *)

(** A node that the store knows, and what the cluster says of it next. *)
Inductive node_op := NodeSeen (current : SwarmNode) (now_ : Z).

Definition node_step (op : node_op) (old : SwarmNode) : SwarmNode * output :=
  let 'NodeSeen current now_ := op in (current, detectTransitions json old current now_).

Definition node_raised (c : channel) (n : SwarmNode) : bool :=
  bool_decide (c.2 = no_NodeID n)
  && (bool_decide (c.1 = "node_down") && gone (no_Status n)
      || bool_decide (c.1 = "node_drain") && bool_decide (no_Availability n = "drain")).

(** A node that is up or known to be gone. *)
Definition known_status (n : SwarmNode) : Prop := no_Status n = "ready" ∨ gone (no_Status n) = true.

Definition node_covers (c : channel) (op : node_op) (old : SwarmNode) : Prop :=
  let 'NodeSeen current _ := op in
  no_NodeID current = no_NodeID old
  ∧ (c.1 = "node_down" → known_status old ∧ known_status current).

Lemma follow_node c b (g : bool) ty severity rec message current more now_ :
  follow true c b (o_alerts (if g then node_alert json ty severity rec message current more now_ else no_output))
  = if g && bool_decide (c = (ty, no_NodeID current))
    then if eqb b rec then Some (negb rec) else None else Some b.
Proof.
  destruct g; [|done]. cbn. unfold about, channel_of. cbn.
  rewrite (bool_decide_ext (_ = c) (c = (ty, no_NodeID current))) by naive_solver.
  split_guard; cbn; [by destruct rec, b|done].
Qed.

Definition drained (n : SwarmNode) : bool := bool_decide (no_Availability n = "drain").

(** The guards of the four alerts, in terms of what the alerts mean. *)
Lemma down_guard old current :
  known_status old → known_status current →
  negb (bool_decide (no_Status old = no_Status current)) && bool_decide (no_Status old = "ready")
    && gone (no_Status current) = negb (gone (no_Status old)) && gone (no_Status current)
  ∧ negb (bool_decide (no_Status old = no_Status current)) && gone (no_Status old)
    && bool_decide (no_Status current = "ready") = gone (no_Status old) && negb (gone (no_Status current)).
Proof.
  unfold known_status. intros [Ho|Ho] [Hc|Hc]; rewrite ?Ho, ?Hc; cbn; try done.
  - rewrite bool_decide_eq_false_2; [done|]. intros E. by rewrite <- E in Hc.
  - rewrite (bool_decide_eq_false_2 (no_Status old = "ready")) by (intros E; by rewrite E in Ho).
    done.
  - rewrite (bool_decide_eq_false_2 (no_Status old = "ready")) by (intros E; by rewrite E in Ho).
    rewrite (bool_decide_eq_false_2 (no_Status current = "ready")) by (intros E; by rewrite E in Hc).
    by rewrite !andb_false_r.
Qed.

Lemma drain_guard old current :
  negb (bool_decide (no_Availability old = no_Availability current)) && drained current && negb (drained old)
    = drained current && negb (drained old)
  ∧ negb (bool_decide (no_Availability old = no_Availability current)) && drained old && negb (drained current)
    = drained old && negb (drained current).
Proof.
  unfold drained. destruct (decide (no_Availability old = no_Availability current)) as [E|E].
  - rewrite E. rewrite bool_decide_eq_true_2 by done. cbn.
    by destruct (bool_decide (no_Availability current = _)).
  - by rewrite (bool_decide_eq_false_2 _ E).
Qed.

Lemma goes_follow c b o o' b' b'' :
  follow true c b (o_alerts o) = Some b' → follow true c b' (o_alerts o') = Some b'' →
  follow true c b (o_alerts (o ⊕ o')) = Some b''.
Proof. intros H1 H2. by rewrite o_alerts_app, follow_app, H1. Qed.

Lemma node_raised_down c n : c = ("node_down", no_NodeID n) → node_raised c n = gone (no_Status n).
Proof. intros ->. unfold node_raised. cbn. rewrite bool_decide_eq_true_2 by done. by rewrite orb_false_r. Qed.

Lemma node_raised_drain c n : c = ("node_drain", no_NodeID n) → node_raised c n = drained n.
Proof. intros ->. unfold node_raised. cbn. by rewrite bool_decide_eq_true_2. Qed.

Lemma node_raised_other c n :
  c ≠ ("node_down", no_NodeID n) → c ≠ ("node_drain", no_NodeID n) → node_raised c n = false.
Proof.
  intros H1 H2. unfold node_raised. split_guard; [|done]. destruct c as [ty id]; cbn in *; subst.
  rewrite !bool_decide_eq_false_2 by congruence. done.
Qed.

Ltac node_piece :=
  rewrite ?follow_node;
  try match goal with
  | |- context [bool_decide (?c = (?ty, ?id))] =>
    first [rewrite (bool_decide_eq_true_2 (c = (ty, id))) by done
          |rewrite (bool_decide_eq_false_2 (c = (ty, id))) by congruence]
  end;
  rewrite ?andb_false_r; reflexivity.
Ltac node_pieces :=
  repeat eapply goes_follow; node_piece.

Lemma sent_node (g : bool) ty severity rec message current more now_ :
  Forall (sent_by "swarm_node") (o_alerts (if g then node_alert json ty severity rec message current more now_ else no_output)).
Proof. destruct g; [by apply Forall_singleton|constructor]. Qed.

Lemma sent_transitions old current now_ : Forall (sent_by "swarm_node") (o_alerts (detectTransitions json old current now_)).
Proof.
  unfold detectTransitions. destruct (_ && _); [constructor|]. cbv zeta. rewrite !o_alerts_app.
  rewrite !Forall_app. split_and!; [constructor|apply sent_node..].
Qed.

Lemma node_law c op old : node_covers c op old → goes "swarm_node" true node_raised c old (node_step op old).
Proof.
  destruct op as [current now_]. intros [Hid Hk]. split; [apply sent_transitions|].
  cbn [node_step fst snd].
  unfold detectTransitions. fold (drained old) (drained current).
  destruct (negb _ && negb _) eqn:Hsame.
  { rewrite !negb_involutive in Hsame. apply andb_true_iff in Hsame as [Hs%bool_decide_eq_true Ha%bool_decide_eq_true].
    cbn. f_equal. unfold node_raised. by rewrite Hid, Hs, Ha. }
  clear Hsame. cbv zeta. destruct (drain_guard old current) as [-> ->].
  destruct (decide (c = ("node_down", no_NodeID current))) as [->|Hdown].
  - destruct (Hk eq_refl) as [Ho Hc]. destruct (down_guard old current Ho Hc) as [-> ->].
    rewrite (node_raised_down _ old), (node_raised_down _ current) by congruence.
    destruct (gone (no_Status old)), (gone (no_Status current)); node_pieces.
  - destruct (decide (c = ("node_drain", no_NodeID current))) as [->|Hdrain].
    + rewrite (node_raised_drain _ old), (node_raised_drain _ current) by congruence.
      destruct (drained old), (drained current); node_pieces.
    + rewrite !node_raised_other by congruence. node_pieces.
Qed.

#[export] Instance node_tracker : Tracker SwarmNode node_op := {|
  trk_strict := true;
  trk_step := node_step;
  trk_raised := node_raised;
  trk_covers := node_covers;
  trk_source := "swarm";
  trk_entity _ := "swarm_node";
  trk_law := node_law;
|}.

(** ** Rolling updates *)

Inductive update_op :=
  | CheckServiceOp (id : string) (svc : option InspectedService) (tasks : option (list ListedTask)) (now_ : Z).

Definition update_step (op : update_op) (s : UpdateTracker) : UpdateTracker * output :=
  let 'CheckServiceOp id svc tasks now_ := op in CheckService json id svc tasks now_ s.

Definition update_raised (c : channel) (s : UpdateTracker) : bool :=
  bool_decide (c.1 ∈ default ∅ (ut_alerted s !! c.2)).

Lemma follow_resolutions c b id name message now_ l :
  NoDup l →
  (c.2 = id → c.1 ∈ l → b = true) →
  follow false c b (resolve_event id name message now_ <$> l)
  = Some (if bool_decide (c.2 = id ∧ c.1 ∈ l) then false else b).
Proof.
  destruct c as [ty cid]. cbn [fst snd]. revert b. induction l as [|t l IH]; intros b Hnd Hb.
  { cbn. rewrite bool_decide_eq_false_2; [done|]. intros [_ H]. by apply elem_of_nil in H. }
  apply NoDup_cons in Hnd as [Ht Hnd]. cbn. unfold about, channel_of. cbn.
  destruct (decide ((t, id) = (ty, cid))) as [[= -> ->]|Hne].
  - rewrite bool_decide_eq_true_2 by done. cbn. rewrite Hb by (done || left).
    rewrite IH; [|done|done]. rewrite bool_decide_eq_false_2 by naive_solver.
    rewrite bool_decide_eq_true_2; [done|]. split; [done|left].
  - rewrite bool_decide_eq_false_2 by done. cbn. rewrite IH; [|done|intros; apply Hb; [done|by right]].
    f_equal. rewrite (bool_decide_ext (cid = id ∧ ty ∈ t :: l) (cid = id ∧ ty ∈ l)); [done|].
    rewrite elem_of_cons. naive_solver congruence.
Qed.

Lemma goes_resolveAlerts c id name message now_ s :
  goes "swarm_service" false update_raised c s (resolveAlerts id name message now_ s).
Proof.
  unfold goes, resolveAlerts. cbn [fst snd o_alerts]. destruct c as [ty cid].
  split; [by apply Forall_fmap, Forall_true|].
  rewrite follow_resolutions; [|apply NoDup_elements|].
  - f_equal. unfold update_raised. cbn. set (raised := default ∅ (ut_alerted s !! id)).
    rewrite (bool_decide_ext (cid = id ∧ ty ∈ elements raised) (cid = id ∧ ty ∈ raised))
      by (by rewrite elem_of_elements).
    subst raised.
    destruct (decide (cid = id)) as [->|Hid].
    + rewrite lookup_delete_eq. cbn. transitivity false; [|symmetry; apply bool_decide_eq_false_2; set_solver].
      case_bool_decide as H; [done|]. apply bool_decide_eq_false_2. naive_solver.
    + rewrite lookup_delete_ne by done. by rewrite bool_decide_eq_false_2 by naive_solver.
  - cbn. intros ->. rewrite elem_of_elements. unfold update_raised. cbn. intros. by apply bool_decide_eq_true_2.
Qed.

Lemma goes_raiseAlert c ty message id name dets now_ s :
  goes "swarm_service" false update_raised c s (raiseAlert ty message id name dets now_ s).
Proof.
  unfold goes, raiseAlert. cbn [fst snd o_alerts out_alert follow]. destruct c as [cty cid].
  split; [by apply Forall_singleton|].
  unfold about, channel_of, update_raised, markAlerted. cbn.
  destruct (decide ((ty, id) = (cty, cid))) as [[= -> ->]|Hne].
  - rewrite bool_decide_eq_true_2 by done. cbn. f_equal. rewrite lookup_insert_eq. cbn.
    symmetry. apply bool_decide_eq_true_2. set_solver.
  - rewrite bool_decide_eq_false_2 by done. cbn. f_equal. apply bool_decide_ext.
    destruct (decide (cid = id)) as [->|]; [|by rewrite lookup_insert_ne].
    rewrite lookup_insert_eq. cbn. set_solver.
Qed.

(** The tracked states are no part of what is raised. *)
Lemma goes_tracked c s s' s1 o :
  ut_alerted s' = ut_alerted s → goes "swarm_service" false update_raised c s' (s1, o) → goes "swarm_service" false update_raised c s (s1, o).
Proof. unfold goes, update_raised. by intros ->. Qed.

Lemma goes_tracked_r c s s1 s2 o :
  ut_alerted s2 = ut_alerted s1 → goes "swarm_service" false update_raised c s (s1, o) → goes "swarm_service" false update_raised c s (s2, o).
Proof. unfold goes, update_raised. cbn. by intros ->. Qed.

Lemma update_law c op s : True → goes "swarm_service" false update_raised c s (update_step op s).
Proof.
  intros _. destruct op as [id svc tasks now_]. cbn [update_step]. unfold CheckService.
  destruct svc as [svc|]; [|by apply goes_silent].
  set (msg := ("Swarm service " +:+ is_Name svc +:+ " is ignored")%string).
  destruct (if IgnoredByLabels _ then _ else _) as [s1 o1] eqn:Hign.
  assert (goes "swarm_service" false update_raised c s (s1, o1)) as H1.
  { rewrite <- Hign. case_match; [apply goes_resolveAlerts|by apply goes_silent]. }
  clear Hign. case_match; [by eapply goes_tracked_r|].
  destruct (countProgress _ _ _) as [updated total]. cbv zeta.
  set (s2 := s1 <| ut_tracked ::= _ |>).
  assert (goes "swarm_service" false update_raised c s (s2, o1)) as H2 by by eapply goes_tracked_r.
  clear H1. clearbody s2.
  assert (∀ s3 o3 r, goes "swarm_service" false update_raised c s2 (s3, o3) → ut_alerted r = ut_alerted s3 →
    goes "swarm_service" false update_raised c s (r, o1 ⊕ o3)) as Happ.
  { intros s3 o3 r H3 Hr. apply (goes_app _ _ _ _ _ s2); [done|]. by eapply goes_tracked_r. }
  assert (∀ o3, o_alerts o3 = [] → goes "swarm_service" false update_raised c s2 (s2, o3)) as Hsilent
    by (intros; by apply goes_silent).
  case_match; [by eapply Happ; [apply Hsilent|]|].
  case_match.
  { destruct (resolveAlerts _ _ _ _ _) as [s3 o3] eqn:Hr. rewrite out_assoc.
    eapply Happ; [|reflexivity]. apply (goes_app _ _ _ _ _ (clearTracked id s2)); [by apply goes_silent|].
    rewrite <- Hr. apply goes_resolveAlerts. }
  case_match.
  { destruct (if IgnoredByLabels _ then _ else _) as [s3 o3] eqn:Hr. rewrite out_assoc.
    eapply Happ; [|reflexivity]. apply (goes_app _ _ _ _ _ s2); [by apply goes_silent|].
    apply (goes_tracked_r _ _ s3); [done|].
    rewrite <- Hr. case_match; [by apply goes_silent|apply goes_raiseAlert]. }
  case_match; [|done].
  destruct (raiseAlert _ _ _ _ _ _ _) as [s3 o3] eqn:Hr.
  eapply Happ; [|reflexivity]. rewrite <- Hr. apply goes_raiseAlert.
Qed.

#[export] Instance update_tracker : Tracker UpdateTracker update_op := {|
  trk_strict := false;
  trk_step := update_step;
  trk_raised := update_raised;
  trk_covers c op s := True;
  trk_source := "swarm";
  trk_entity _ := "swarm_service";
  trk_law := update_law;
|}.
End Swarm.
