(* ===== verification/SwarmCorrect.v ===== *)
(** * Swarm: what the trackers promise

    The theorems about [SwarmAlerts]: the alerts of every run, the engine that
    receives them, the crash-loop window, the delay of the replica alert, the
    quorum, and the restart. *)

From S2P Require Import Prelude.
From S2P Require Import Tables.
From S2P Require Import GoStrings.
From S2P Require Import AlertModel.
From S2P Require Import AlertStore.
From S2P Require Import AlertRouting.
From S2P Require Import AlertEngine.
From S2P Require Import AlertInvariant.
From S2P Require Import AlertCorrect.
From S2P Require Import AlertTracker.
From S2P Require Import TrackerMirror.
From S2P Require Import SwarmAlerts.
From S2P Require Import SwarmTrackers.

#[local] Open Scope string_scope.
#[local] Open Scope list_scope.
#[local] Open Scope Z_scope.

Section Crash.
Context (json : list (string * value) → details).

(** ** The same snapshot twice *)

(** What a pass over failed tasks leaves: a mark for each failed task of a known
    service, and no entry for an ignored service. *)
Definition marks (services : gmap string SwarmService) (tasks : list SwarmTask) : gset string :=
  list_to_set (ta_TaskID <$> filter (λ t, taskFailed t = true ∧ is_Some (services !! ta_ServiceID t)) tasks).

Definition none_ignored (services : gmap string SwarmService) (s : gmap string serviceFailureState) : Prop :=
  ∀ id svc, services !! id = Some svc → IgnoredByLabels (sv_Labels svc) = true → s !! id = None.

Lemma observe_task_failed services counted now_ acc t :
  (observe_task json services counted now_ acc t).1.2
  = if bool_decide (taskFailed t = true ∧ is_Some (services !! ta_ServiceID t))
    then {[ta_TaskID t]} ∪ acc.1.2 else acc.1.2.
Proof.
  destruct acc as [[s failed] o]. unfold observe_task.
  destruct (services !! ta_ServiceID t) as [svc|] eqn:Hsvc.
  - destruct (taskFailed t) eqn:Hf; cbn [negb].
    + rewrite (bool_decide_eq_true_2 (_ ∧ is_Some _)) by (split; [done|by eexists]). case_match; [done|]. by destruct (recordFailure _ _ _ _ _ _ _).
    + by rewrite bool_decide_eq_false_2 by naive_solver.
  - rewrite bool_decide_eq_false_2; [done|]. naive_solver.
Qed.

Lemma observe_tasks_failed services counted now_ tasks acc :
  (foldl (observe_task json services counted now_) acc tasks).1.2 = marks services tasks ∪ acc.1.2.
Proof.
  revert acc. induction tasks as [|t tasks IH]; intros acc; cbn [foldl].
  - unfold marks. cbn. set_solver.
  - rewrite IH, observe_task_failed. unfold marks. rewrite filter_cons.
    case_bool_decide as H; case_decide; try done; cbn; set_solver.
Qed.

Lemma observe_task_none_ignored services counted now_ acc t :
  none_ignored services acc.1.1 → none_ignored services (observe_task json services counted now_ acc t).1.1.
Proof.
  destruct acc as [[s failed] o]. intros Hn. unfold observe_task.
  destruct (services !! ta_ServiceID t) as [svc|] eqn:Hsvc; [|done].
  destruct (taskFailed t); cbn [negb]; [|done].
  destruct (_ || _ || _) eqn:Hg; [done|].
  apply orb_false_iff in Hg as [[_ Hign]%orb_false_iff _].
  unfold recordFailure. cbv zeta. cbn [fst snd]. intros id svc' Hid Hi.
  rewrite lookup_insert_ne; [by eapply Hn|]. intros <-. congruence.
Qed.

Lemma observe_tasks_none_ignored services counted now_ tasks acc :
  none_ignored services acc.1.1 →
  none_ignored services (foldl (observe_task json services counted now_) acc tasks).1.1.
Proof.
  revert acc. induction tasks as [|t tasks IH]; intros acc Hn; [done|].
  cbn [foldl]. by apply IH, observe_task_none_ignored.
Qed.

(** The first loop leaves no entry of an ignored service. *)
Lemma forget_keeps_none now_ id l acc :
  acc.1 !! id = None → (foldl (forget_step now_) acc l).1 !! id = None.
Proof.
  revert acc. induction l as [|[i v] l IH]; intros [s o] Hs; [done|]. cbn [foldl forget_step].
  repeat case_match; apply IH; cbn [fst] in *; rewrite ?lookup_delete_None; auto.
Qed.

Lemma forget_fold now_ id svc l acc :
  (id, svc) ∈ l → IgnoredByLabels (sv_Labels svc) = true →
  (foldl (forget_step now_) acc l).1 !! id = None.
Proof.
  revert acc. induction l as [|[i v] l IH]; intros [s o] Hin Hi; [by apply elem_of_nil in Hin|].
  apply elem_of_cons in Hin as [[= <- <-]|Hin]; cbn [foldl].
  - apply forget_keeps_none. cbn [forget_step]. destruct (s !! id) eqn:Hs; [|done].
    rewrite Hi. apply lookup_delete_eq.
  - by apply IH.
Qed.

(** ... and does nothing when there is none. *)
Lemma forget_nothing now_ l acc :
  (∀ id svc, (id, svc) ∈ l → IgnoredByLabels (sv_Labels svc) = true → acc.1 !! id = None) →
  foldl (forget_step now_) acc l = acc.
Proof.
  induction l as [|[i v] l IH]; intros Hn; [done|]. cbn [foldl].
  assert (forget_step now_ acc (i, v) = acc) as ->.
  { destruct acc as [s o]. cbn. destruct (s !! i) eqn:Hs; [|done].
    destruct (IgnoredByLabels _) eqn:Hi; [|done].
    pose proof (Hn i v (list_elem_of_here _ _) Hi) as Hnone. cbn in Hnone. congruence. }
  apply IH. intros id svc Hin. apply Hn. by right.
Qed.

(** Counted tasks change nothing but the marks. *)
Lemma observe_counted services counted now_ tasks acc :
  marks services tasks ⊆ counted →
  (foldl (observe_task json services counted now_) acc tasks).1.1 = acc.1.1
  ∧ (foldl (observe_task json services counted now_) acc tasks).2 = acc.2.
Proof.
  revert acc. induction tasks as [|t tasks IH]; intros acc Hm; [done|]. cbn [foldl].
  assert ((observe_task json services counted now_ acc t).1.1 = acc.1.1
    ∧ (observe_task json services counted now_ acc t).2 = acc.2) as [H1 H2].
  { destruct acc as [[s failed] o]. unfold observe_task.
    destruct (services !! ta_ServiceID t) as [svc|] eqn:Hsvc; [|done].
    destruct (taskFailed t) eqn:Hf; cbn [negb]; [|done].
    rewrite (bool_decide_eq_true_2 (ta_TaskID t ∈ counted)); [done|].
    apply Hm. unfold marks. rewrite filter_cons_True by (rewrite Hsvc; split; [done|by eexists]). cbn. set_solver. }
  rewrite <- H1, <- H2. apply IH. etransitivity; [|exact Hm].
  unfold marks. rewrite filter_cons. case_decide; cbn; set_solver.
Qed.

(** A snapshot counts once.  Observing the same services and tasks again, at
    any later time, emits nothing, sends no alert and leaves the detector as it
    is: every failed task of the snapshot is already marked, and no entry of an
    ignored service is left to forget. *)
Theorem observe_idempotent services tasks now_ now' d :
  let d1 := (ObserveTasks json services tasks now_ d).1 in
  ObserveTasks json services tasks now' d1 = (d1, no_output).
Proof.
  cbv zeta. unfold ObserveTasks. set (known := by_id services).
  destruct (forget_ignored (map_to_list known) now_ (cl_services d)) as [s0 o0] eqn:Hf.
  assert (none_ignored known s0) as Hn0.
  { intros id svc Hid Hi. replace s0 with (forget_ignored (map_to_list known) now_ (cl_services d)).1 by (by rewrite Hf).
    eapply forget_fold; [by apply elem_of_map_to_list|done]. }
  pose proof (observe_tasks_failed known (cl_failedTasks d) now_ tasks (s0, ∅, o0)) as Hfail.
  pose proof (observe_tasks_none_ignored known (cl_failedTasks d) now_ tasks (s0, ∅, o0) Hn0) as Hn.
  destruct (foldl _ _ tasks) as [[s failed] o]. cbn [fst snd cl_services cl_failedTasks] in *.
  rewrite union_empty_r_L in Hfail. subst failed.
  unfold forget_ignored. rewrite forget_nothing.
  2: { intros id svc Hin. apply elem_of_map_to_list in Hin. by apply Hn. }
  destruct (observe_counted known (marks known tasks) now' tasks (s, ∅, no_output)) as [H1 H2]; [done|].
  pose proof (observe_tasks_failed known (marks known tasks) now' tasks (s, ∅, no_output)) as H3.
  cbn [fst snd] in H3. rewrite union_empty_r_L in H3.
  destruct (foldl _ _ tasks) as [[s' failed'] o']. cbn [fst snd] in *. by subst.
Qed.

(** ** Recoveries *)

Definition recovered (now_ : Z) (st : serviceFailureState) : serviceFailureState :=
  if fs_inCrashLoop st && bool_decide (crashLoopRecoveryTime ≤ time_sub now_ (fs_lastFailure st))
  then st <| fs_inCrashLoop := false |> else st.

Lemma recover_fold now_ l s o id :
  NoDup l.*1 → (∀ p, p ∈ l → s !! p.1 = Some p.2) →
  (foldl (recover_step now_) (s, o) l).1 !! id
  = if bool_decide (id ∈ l.*1) then recovered now_ <$> (s !! id) else s !! id.
Proof.
  revert s o. induction l as [|[i st] l IH]; intros s o Hnd Hl; [done|].
  apply NoDup_cons in Hnd as [Hi Hnd].
  assert (s !! i = Some st) as Hst by exact (Hl (i, st) (list_elem_of_here _ _)).
  set (s1 := <[i := recovered now_ st]> s).
  assert ((foldl (recover_step now_) (s, o) ((i, st) :: l)).1 !! id
    = (foldl (recover_step now_) (s1, o) l).1 !! id) as ->.
  { cbn [foldl recover_step]. subst s1. unfold recovered. destruct (_ && _); [|by rewrite insert_id].
    rewrite !IH; [done|done| |done|]; intros p Hp;
      (rewrite lookup_insert_ne; [apply Hl; by right|]; intros ->; apply Hi; exact (list_elem_of_fmap_2 fst l p Hp)). }
  rewrite IH; [|done|].
  - subst s1. cbn [fmap list_fmap]. destruct (decide (id = i)) as [->|Hne].
    + rewrite (bool_decide_eq_false_2 (i ∈ _)) by done.
      rewrite (bool_decide_eq_true_2 (i ∈ _ :: _)) by left. by rewrite lookup_insert_eq, Hst.
    + rewrite lookup_insert_ne by done.
      rewrite (bool_decide_ext (id ∈ i :: l.*1) (id ∈ l.*1)) by (rewrite elem_of_cons; naive_solver). done.
  - intros p Hp. subst s1. rewrite lookup_insert_ne; [apply Hl; by right|].
    intros ->. apply Hi. exact (list_elem_of_fmap_2 fst l p Hp).
Qed.

(** [CheckRecoveries] takes back exactly the crash loops that stayed quiet:
    afterwards a service is in a crash loop when it was in one and its last
    failure is less than ten minutes old, and nothing else of the detector
    changed. *)
Theorem recoveries_exact now_ d :
  (∀ id, cl_services (CheckRecoveries now_ d).1 !! id = recovered now_ <$> (cl_services d !! id))
  ∧ (∀ id, IsCrashLooping id (CheckRecoveries now_ d).1 = true ↔
      ∃ st, cl_services d !! id = Some st ∧ fs_inCrashLoop st = true
        ∧ time_sub now_ (fs_lastFailure st) < crashLoopRecoveryTime)
  ∧ cl_failedTasks (CheckRecoveries now_ d).1 = cl_failedTasks d.
Proof.
  assert (∀ id, cl_services (CheckRecoveries now_ d).1 !! id = recovered now_ <$> (cl_services d !! id)) as H.
  { intros id. unfold CheckRecoveries.
    pose proof (recover_fold now_ (map_to_list (cl_services d)) (cl_services d) no_output id) as Hf.
    destruct (foldl _ _ _) as [s o]. cbn [fst cl_services set_field] in *.
    change (cl_services (d <| cl_services := s |>)) with s. rewrite Hf.
    - case_bool_decide as Hin; [done|]. destruct (cl_services d !! id) as [st|] eqn:Hst; [|done].
      exfalso. apply Hin. apply list_elem_of_fmap. exists (id, st). split; [done|]. by apply elem_of_map_to_list.
    - apply NoDup_fst_map_to_list.
    - intros [i st] Hp. by apply elem_of_map_to_list in Hp. }
  split; [exact H|]. split.
  - intros id. unfold IsCrashLooping. rewrite H.
    destruct (cl_services d !! id) as [st|]; cbn; [|naive_solver]. unfold recovered.
    destruct (fs_inCrashLoop st) eqn:Hl; cbn [andb].
    + split_guard; cbn; [split; [done|]; intros (st' & [= <-] & _ & ?); lia|].
      split; [|done]. intros _. eexists. split_and!; [done..|lia].
    + split; [congruence|]. naive_solver.
  - unfold CheckRecoveries. by destruct (foldl _ _ _).
Qed.

(** ** The pruned buffer *)

(** The detector a reader would write first: it keeps every failure for ever. *)
Definition recordFailure_ref (id name lastError : string) (at_ now_ : Z)
    (s : gmap string serviceFailureState) : gmap string serviceFailureState * output :=
  let st := default (MkFailures "" [] false zero_time) (s !! id) in
  let failures := fs_failures st ++ [at_] in
  let last := if bool_decide (fs_lastFailure st < at_) then at_ else fs_lastFailure st in
  let count := length (after (now_ - crashLoopWindow) failures) in
  let detected := bool_decide (crashLoopThreshold ≤ count)%nat && negb (fs_inCrashLoop st) in
  (<[id := MkFailures name failures (fs_inCrashLoop st || detected) last]> s,
   if detected then crash_alert json id name lastError count now_ else no_output).

(** What happens to one service: failures, and checks for its recovery. *)
Inductive service_op :=
  | Fails (name lastError : string) (at_ now_ : Z)
  | Quiet (now_ : Z).

Definition service_time (op : service_op) : Z := match op with Fails _ _ _ t => t | Quiet t => t end.

Section record.
Context (record : string → string → string → Z → Z → gmap string serviceFailureState →
  gmap string serviceFailureState * output) (id : string).

Definition service_step (op : service_op) (s : gmap string serviceFailureState)
    : gmap string serviceFailureState * output :=
  match op with
  | Fails name lastError at_ now_ => record id name lastError at_ now_ s
  | Quiet now_ =>
    match s !! id with
    | Some st => recover_step now_ (s, no_output) (id, st)
    | None => (s, no_output)
    end
  end.

Fixpoint service_run (ops : list service_op) (s : gmap string serviceFailureState)
    : gmap string serviceFailureState * list output :=
  match ops with
  | [] => (s, [])
  | op :: ops =>
    let '(s1, o) := service_step op s in
    let '(s2, os) := service_run ops s1 in
    (s2, o :: os)
  end.
End record.

Lemma after_after t u l : t ≤ u → after u (after t l) = after u l.
Proof.
  intros. unfold after. rewrite list_filter_filter. apply list_filter_iff. intros x. lia.
Qed.

Lemma after_app t l l' : after t (l ++ l') = after t l ++ after t l'.
Proof. apply filter_app. Qed.

(** The pruned state against the full history, the buffer cut at [c]. *)
Definition trimmed (c : Z) (st r : serviceFailureState) : Prop :=
  fs_name st = fs_name r ∧ fs_failures st = after c (fs_failures r)
  ∧ fs_inCrashLoop st = fs_inCrashLoop r ∧ fs_lastFailure st = fs_lastFailure r.

Definition trims (id : string) (c : Z) (s s' : gmap string serviceFailureState) : Prop :=
  option_relation (trimmed c) (λ _, False) (λ _, False) (s !! id) (s' !! id).

Lemma trims_default id c s s' :
  trims id c s s' →
  trimmed c (default (MkFailures "" [] false zero_time) (s !! id)) (default (MkFailures "" [] false zero_time) (s' !! id)).
Proof. unfold trims. destruct (s !! id), (s' !! id); cbn; done. Qed.

Lemma trims_step id c op s s' :
  c ≤ service_time op - crashLoopBufferMax → trims id c s s' →
  (service_step (recordFailure json) id op s).2 = (service_step recordFailure_ref id op s').2
  ∧ ∃ c', c' ≤ service_time op - crashLoopBufferMax ∧
     trims id c' (service_step (recordFailure json) id op s).1 (service_step recordFailure_ref id op s').1.
Proof.
  intros Hc Hs. destruct op as [name err at_ now_|now_]; cbn [service_step service_time] in *.
  - unfold recordFailure, recordFailure_ref. cbv zeta. destruct (trims_default _ _ _ _ Hs) as (H1 & H2 & H3 & H4).
    rewrite H2, H3, H4.
    assert (∀ l, after (now_ - crashLoopBufferMax) (after c l ++ [at_]) = after (now_ - crashLoopBufferMax) (l ++ [at_])) as Hcut.
    { intros l. by rewrite !after_app, after_after. }
    rewrite Hcut, after_after by (unfold crashLoopBufferMax, crashLoopWindow, minute, second; lia).
    split; [done|]. exists (now_ - crashLoopBufferMax). split; [lia|]. unfold trims. cbn [fst].
    by rewrite !lookup_insert_eq.
  - unfold trims in Hs. destruct (s !! id) as [st|] eqn:Hst, (s' !! id) as [r|] eqn:Hr; cbn in Hs; try done.
    + destruct Hs as (H1 & H2 & H3 & H4). cbn. rewrite H1, H3, H4. destruct (_ && _); cbn.
      * split; [done|]. exists c. split; [done|]. unfold trims. by rewrite !lookup_insert_eq.
      * split; [done|]. exists c. split; [done|]. unfold trims. by rewrite Hst, Hr.
    + cbn. split; [done|]. exists c. split; [done|]. unfold trims. by rewrite Hst, Hr.
Qed.

Lemma trims_run id ops c s s' :
  Sorted Z.le (service_time <$> ops) →
  (∀ op, op ∈ ops → c ≤ service_time op - crashLoopBufferMax) → trims id c s s' →
  (service_run (recordFailure json) id ops s).2 = (service_run recordFailure_ref id ops s').2
  ∧ ∃ c', trims id c' (service_run (recordFailure json) id ops s).1 (service_run recordFailure_ref id ops s').1.
Proof.
  revert c s s'. induction ops as [|op ops IH]; intros c s s' Hsort Hc Hs; [by eauto|].
  cbn [service_run]. apply Sorted_StronglySorted in Hsort; [|intros ???; lia].
  apply StronglySorted_inv in Hsort as [Hsort Hall].
  destruct (trims_step id c op s s') as (Ho & c' & Hc' & Hs'); [apply Hc; left|done|].
  destruct (service_step (recordFailure json) id op s) as [s1 o1].
  destruct (service_step recordFailure_ref id op s') as [s1' o1']. cbn [fst snd] in *. subst o1'.
  destruct (IH c' s1 s1') as (H1 & c2 & H2); [by apply StronglySorted_Sorted| |done|].
  - intros op' Hop'. rewrite Forall_forall in Hall.
    assert (service_time op ≤ service_time op') by (apply Hall; by apply list_elem_of_fmap_2). lia.
  - destruct (service_run (recordFailure json) id ops s1), (service_run recordFailure_ref id ops s1').
    cbn [fst snd] in *. subst. eauto.
Qed.

(** The thirty-minute buffer is an exact optimisation of the five-minute
    window: while the clock does not run backwards, the detector that prunes and
    the one that keeps every failure ever seen send the same events and the same
    alerts for a service at every failure and recovery check, and agree on which
    services are in a crash loop. *)
Theorem crash_window_exact id ops :
  Sorted Z.le (service_time <$> ops) →
  (service_run (recordFailure json) id ops ∅).2 = (service_run recordFailure_ref id ops ∅).2
  ∧ IsCrashLooping id (MkDetector (service_run (recordFailure json) id ops ∅).1 ∅)
    = IsCrashLooping id (MkDetector (service_run recordFailure_ref id ops ∅).1 ∅).
Proof.
  intros Hsort.
  set (c := (default 0 (head (service_time <$> ops)) - crashLoopBufferMax)).
  destruct (trims_run id ops c ∅ ∅ Hsort) as (H1 & c' & H2).
  - intros op Hop. destruct ops as [|op0 ops]; [by apply elem_of_nil in Hop|]. subst c. cbn.
    apply Sorted_StronglySorted in Hsort; [|intros ???; lia].
    apply StronglySorted_inv in Hsort as [_ Hall]. rewrite Forall_forall in Hall.
    apply elem_of_cons in Hop as [->|Hop]; [lia|].
    assert (service_time op0 ≤ service_time op) by (apply Hall; by apply list_elem_of_fmap_2). lia.
  - done.
  - split; [done|]. unfold IsCrashLooping. cbn. unfold trims in H2.
    destruct (_ !! id), (_ !! id); cbn in H2; try done. by destruct H2 as (_ & _ & ? & _).
Qed.
End Crash.

(** ** Replica alerts *)

Section Replicas.
Context (json : list (string * value) → details).

(** What was seen of a service, oldest first: its states and when. *)
Definition history : Type := list (SwarmService * Z).

Fixpoint observed (h : history) (s : gmap string replicaState) : gmap string replicaState :=
  match h with
  | [] => s
  | (svc, t) :: h => observed h (evaluate json svc t s).1
  end.

(** The times of the current streak of under-replication. *)
Definition streak (h : history) : list Z :=
  foldl (λ l p, if replicas_fine p.1 then [] else l ++ [p.2]) [] h.

(** It has lasted the alert delay. *)
Definition overdue (l : list Z) : bool :=
  match l with
  | [] => false
  | t0 :: _ => existsb (λ t, bool_decide (defaultReplicaAlertDelay ≤ time_sub t t0)) l
  end.

Definition tracked (l : list Z) : option replicaState :=
  match l with [] => None | t0 :: _ => Some (MkReplicaState t0 (overdue l)) end.

Lemma overdue_app t0 l t :
  overdue (t0 :: l ++ [t]) = overdue (t0 :: l) || bool_decide (defaultReplicaAlertDelay ≤ time_sub t t0).
Proof.
  unfold overdue. rewrite (app_comm_cons l [t] t0), existsb_app. cbn. by rewrite orb_false_r.
Qed.

Lemma overdue_single t : overdue [t] = false.
Proof.
  unfold overdue. cbn. rewrite bool_decide_eq_false_2; [done|].
  unfold time_sub, defaultReplicaAlertDelay, minute, second, min_int64, max_int64. lia.
Qed.

Lemma evaluate_tracked svc t l s :
  s !! sv_ServiceID svc = tracked l →
  (evaluate json svc t s).1 !! sv_ServiceID svc = tracked (if replicas_fine svc then [] else l ++ [t])
  ∧ (evaluate json svc t s).2
    = if replicas_fine svc
      then (if overdue l then emitReplicaRecovery json (sv_ServiceID svc) (sv_Name svc) t else no_output)
      else if overdue (l ++ [t]) && negb (overdue l) then emitReplicaAlert json svc t else no_output.
Proof.
  intros Hs. unfold evaluate, replica_recover. rewrite Hs.
  destruct (replicas_fine svc).
  - destruct l as [|t0 l]; cbn [tracked fst snd]; [by rewrite Hs|]. split; [by rewrite lookup_delete_eq|done].
  - destruct l as [|t0 l]; cbn [tracked].
    + cbn [app fst snd tracked]. by rewrite lookup_insert_eq, overdue_single.
    + cbn [rs_alerted rs_firstSeen app tracked]. rewrite (overdue_app t0 l t).
      cbn [tracked] in Hs. destruct (overdue (t0 :: l)); cbn [negb andb orb fst snd]; [by rewrite Hs|].
      rewrite andb_true_r. split_guard; cbn [fst snd]; [by rewrite lookup_insert_eq|by rewrite Hs].
Qed.

Lemma observed_tracked id h l s :
  (∀ p, p ∈ h → sv_ServiceID p.1 = id) → s !! id = tracked l →
  observed h s !! id = tracked (foldl (λ l p, if replicas_fine p.1 then [] else l ++ [p.2]) l h).
Proof.
  revert l s. induction h as [|[svc t] h IH]; intros l s Hid Hs; [done|]. cbn [observed foldl fst snd].
  pose proof (Hid _ (list_elem_of_here _ _)) as Hsvc. cbn in Hsvc.
  apply IH; [intros; apply Hid; by right|]. rewrite <- Hsvc. apply evaluate_tracked. by rewrite Hsvc.
Qed.

(** A replica alert says that a streak of under-replication has lasted five
    minutes.  After any history of a service, from a fresh checker, the next
    observation sends the alert exactly when it makes the streak of consecutive
    under-replicated observations reach the delay for the first time, a recovery
    exactly when it ends a streak that had reached it, and nothing otherwise; so
    a streak is announced once, and a shorter one never. *)
Theorem replica_streak id h svc t :
  (∀ p, p ∈ h ++ [(svc, t)] → sv_ServiceID p.1 = id) →
  (evaluate json svc t (observed h ∅)).2
  = if replicas_fine svc
    then (if overdue (streak h) then emitReplicaRecovery json id (sv_Name svc) t else no_output)
    else if overdue (streak (h ++ [(svc, t)])) && negb (overdue (streak h))
         then emitReplicaAlert json svc t else no_output.
Proof.
  intros Hid. assert (sv_ServiceID svc = id) as Hsvc by (apply (Hid (svc, t)); set_solver).
  assert (observed h ∅ !! sv_ServiceID svc = tracked (streak h)) as Hs.
  { rewrite Hsvc. apply (observed_tracked id h []); [|done]. intros p Hp. apply Hid. set_solver. }
  destruct (evaluate_tracked svc t _ _ Hs) as [_ ->]. rewrite Hsvc.
  unfold streak. rewrite foldl_app. cbn [foldl fst snd]. by destruct (replicas_fine svc).
Qed.
End Replicas.

(** ** Nodes *)

Section Nodes.
Context (json : list (string * value) → details).

Lemma wp_reconcile_node counts t n (Q : unit → world nodes_state → Prop) w :
  (∀ w', w_env w' = w_env w → nd_quorumAlerted (w_st w') = nd_quorumAlerted (w_st w) →
     (∀ id, id ≠ no_NodeID n → nd_rows (w_st w') !! id = nd_rows (w_st w) !! id) →
     (fault_free w → nd_rows (w_st w')
        = upsert_node (MkSwarmNode (no_NodeID n) (no_Hostname n) (no_Role n) (no_Status n) (no_Availability n)
            (no_EngineVersion n) (no_Address n) (counts (no_NodeID n))
            (match nd_rows (w_st w) !! no_NodeID n with Some old => no_FirstSeenAt old | None => t end) t t)
          (nd_rows (w_st w))) → Q tt w') →
  wp (reconcile_node json counts t n) Q w.
Proof.
  intros HQ. unfold reconcile_node. apply wp_bind, wp_db_query.
  - intros w1 (Hs1 & He1 & _) Hff. apply wp_ret, HQ; [done|by rewrite Hs1|by rewrite Hs1|done].
  - intros w1 (Hs1 & He1 & _). set (new := MkSwarmNode _ _ _ _ _ _ _ _ _ _ _).
    apply wp_bind. set (rows := nd_rows (w_st w)) in *.
    assert (∀ w2, w_env w2 = w_env w → nd_rows (w_st w2) = rows →
      nd_quorumAlerted (w_st w2) = nd_quorumAlerted (w_st w) → ∀ (b : bool) (o : output),
      wp (when! b then node_emit o in
          do! db_exec (λ s, s <| nd_rows ::= upsert_node new |>) in ret tt) Q w2) as Hrest.
    { intros w2 He2 Hr2 Hq2 b o. apply wp_bind.
      assert (∀ w3, w_env w3 = w_env w → nd_rows (w_st w3) = rows →
        nd_quorumAlerted (w_st w3) = nd_quorumAlerted (w_st w) →
        wp (do! db_exec (λ s, s <| nd_rows ::= upsert_node new |>) in ret tt) Q w3) as Hdb.
      { intros w3 He3 Hr3 Hq3. apply wp_bind, wp_db_exec.
        - intros w4 (Hs4 & He4 & _) Hff. apply wp_ret, HQ; [congruence|by rewrite Hs4|by rewrite Hs4, Hr3|].
          intros Hf. exfalso. apply Hff. by eapply fault_free_env.
        - intros w4 (Hs4 & He4 & _). apply wp_ret, HQ; [congruence|by rewrite Hs4| |].
          + intros id Hid. rewrite Hs4. cbn. rewrite Hr3. unfold upsert_node. by rewrite lookup_insert_ne.
          + intros _. rewrite Hs4. cbn. by rewrite Hr3. }
      destruct b; [|by apply wp_ret, Hdb]. apply wp_modify_put. intros w3 (Hs3 & He3 & _).
      apply Hdb; [congruence|by rewrite Hs3|by rewrite Hs3]. }
    destruct (rows !! no_NodeID n) as [old|]; cbn [wp].
    + apply wp_bind, wp_now. intros w2 (Hs2 & He2 & _). apply wp_modify_put. intros w3 (Hs3 & He3 & _).
      apply Hrest; [congruence|by rewrite Hs3, Hs2, Hs1|by rewrite Hs3, Hs2, Hs1].
    + apply wp_ret, Hrest; [congruence|by rewrite Hs1|by rewrite Hs1].
Qed.

(** The row of a node after a reconciliation of what the cluster says of it. *)
Definition fresh_row (counts : string → Z) (t : Z) (n : SwarmNode) (old row : option SwarmNode) : Prop :=
  ∃ r, row = Some r ∧ no_NodeID r = no_NodeID n ∧ no_Hostname r = no_Hostname n ∧ no_Role r = no_Role n
    ∧ no_Status r = no_Status n ∧ no_Availability r = no_Availability n
    ∧ no_EngineVersion r = no_EngineVersion n ∧ no_Address r = no_Address n
    ∧ no_TaskCount r = counts (no_NodeID n) ∧ no_LastSeenAt r = db_time t
    ∧ match old with
      | Some o => no_FirstSeenAt r = no_FirstSeenAt o
          ∧ no_LastStatusChangeAt r =
            if bool_decide (no_Status o = no_Status n ∧ no_Availability o = no_Availability n)
            then no_LastStatusChangeAt o else db_time t
      | None => no_FirstSeenAt r = db_time t ∧ no_LastStatusChangeAt r = db_time t
      end.

Lemma upsert_fresh counts t n rows :
  fresh_row counts t n (rows !! no_NodeID n)
    (upsert_node (MkSwarmNode (no_NodeID n) (no_Hostname n) (no_Role n) (no_Status n) (no_Availability n)
        (no_EngineVersion n) (no_Address n) (counts (no_NodeID n))
        (match rows !! no_NodeID n with Some old => no_FirstSeenAt old | None => t end) t t) rows !! no_NodeID n).
Proof.
  unfold upsert_node. cbn [no_NodeID]. rewrite lookup_insert_eq. eexists. split; [done|].
  destruct (rows !! no_NodeID n) as [old|]; cbn; split_and!; try done.
  by rewrite bool_decide_and.
Qed.

Lemma reconcile_loop counts t nodes w :
  wp (for_each nodes (reconcile_node json counts t)) (λ _ w',
    w_env w' = w_env w ∧ nd_quorumAlerted (w_st w') = nd_quorumAlerted (w_st w)
    ∧ (∀ id, id ∉ no_NodeID <$> nodes → nd_rows (w_st w') !! id = nd_rows (w_st w) !! id)
    ∧ (fault_free w → NoDup (no_NodeID <$> nodes) → ∀ n, n ∈ nodes →
        fresh_row counts t n (nd_rows (w_st w) !! no_NodeID n) (nd_rows (w_st w') !! no_NodeID n))) w.
Proof.
  revert w. induction nodes as [|n nodes IH]; intros w; cbn [for_each].
  { apply wp_ret. split_and!; try done. intros _ _ n Hn. by apply elem_of_nil in Hn. }
  apply wp_bind, wp_reconcile_node. intros w1 He1 Hq1 Hother1 Hrow1.
  eapply wp_mono; [apply IH|]. intros [] w2 (He2 & Hq2 & Hother2 & Hrow2). split_and!.
  - congruence.
  - congruence.
  - intros id Hid. cbn in Hid. apply not_elem_of_cons in Hid as [Hne Hid]. by rewrite Hother2, Hother1.
  - intros Hff Hnd m Hm. cbn in Hnd. apply NoDup_cons in Hnd as [Hn Hnd].
    apply elem_of_cons in Hm as [->|Hm].
    + rewrite Hother2, (Hrow1 Hff) by done. apply upsert_fresh.
    + assert (no_NodeID m ≠ no_NodeID n) as Hne by (intros E; apply Hn; rewrite <- E; by apply list_elem_of_fmap_2).
      rewrite <- Hother1 by done. apply Hrow2; [by eapply fault_free_env|done|done].
Qed.

Lemma quot2_majority total ready : 0 ≤ total → ready < Z.quot total 2 + 1 ↔ 2 * ready ≤ total.
Proof. intros. rewrite Z.quot_div_nonneg by lia. pose proof (Z.div_mod total 2). pose proof (Z.mod_pos_bound total 2). lia. Qed.

Lemma checkQuorum_raised total ready t b :
  0 ≤ total → (checkQuorum json total ready t b).1 = bool_decide (2 * ready ≤ total).
Proof.
  intros H. unfold checkQuorum. rewrite (bool_decide_ext _ _ (quot2_majority total ready H)).
  by case_bool_decide.
Qed.

(** The quorum alert is up exactly when a majority of the managers is not
    ready.  After a pass over the nodes the cluster listed, whatever calls to the
    store fail, the flag says that at most half of the managers are ready, or
    stays as it was when none is listed; when the listing fails it is raised if
    the error says that the swarm has no leader, and kept otherwise. *)
Theorem reconcile_quorum answer counts w :
  wp (Reconcile json answer counts) (λ r w',
    match answer with
    | inl nodes => r = Ok tt ∧ nd_quorumAlerted (w_st w')
        = if bool_decide (managers nodes = []) then nd_quorumAlerted (w_st w)
          else bool_decide (2 * Z.of_nat (length (ready (managers nodes))) ≤ Z.of_nat (length (managers nodes)))
    | inr err => r = Err (ESentinel "reconcile nodes")
        ∧ nd_quorumAlerted (w_st w') = isLeaderless err || nd_quorumAlerted (w_st w)
    end) w.
Proof.
  unfold Reconcile. destruct answer as [nodes|err].
  - apply wp_bind, wp_now. intros w1 (Hs1 & _). apply wp_bind. eapply wp_mono; [apply reconcile_loop|].
    intros [] w2 (_ & Hq2 & _). apply wp_bind. rewrite <- Hs1, <- Hq2.
    destruct (bool_decide (managers nodes = [])); cbn [negb]; [by do 2 apply wp_ret|].
    apply wp_bind, wp_now. intros w3 (Hs3 & _). apply wp_modify_put. intros w4 (Hs4 & _).
    apply wp_ret. split; [done|]. rewrite Hs4, Hs3. clear Hs4.
    pose proof (checkQuorum_raised (Z.of_nat (length (managers nodes))) (Z.of_nat (length (ready (managers nodes))))
      (env_now (w_env w2) (w_tick w2)) (nd_quorumAlerted (w_st w2)) ltac:(lia)) as Hq.
    destruct (checkQuorum _ _ _ _ _) as [b o]. exact Hq.
  - apply wp_bind. destruct (isLeaderless err); cbn [orb]; [|by do 2 apply wp_ret].
    apply wp_bind, wp_now. intros w3 (Hs3 & _). apply wp_modify_put. intros w4 (Hs4 & _).
    apply wp_ret. by rewrite Hs4.
Qed.

(** When the store answers, a pass leaves a row for every listed node with
    what the cluster says of it and its count of running tasks, keeping the time
    of the first sighting, and the time of the last change unless its status or
    its availability changed; rows of other nodes are not touched. *)
Theorem reconcile_rows nodes counts w :
  fault_free w → NoDup (no_NodeID <$> nodes) →
  wp (Reconcile json (inl nodes) counts) (λ _ w',
    (∀ n, n ∈ nodes → fresh_row counts (env_now (w_env w) (w_tick w)) n
       (nd_rows (w_st w) !! no_NodeID n) (nd_rows (w_st w') !! no_NodeID n))
    ∧ (∀ id, id ∉ no_NodeID <$> nodes → nd_rows (w_st w') !! id = nd_rows (w_st w) !! id)) w.
Proof.
  intros Hff Hnd. unfold Reconcile. apply wp_bind, wp_now. intros w1 (Hs1 & He1 & _). apply wp_bind.
  eapply wp_mono; [apply reconcile_loop|]. intros [] w2 (_ & _ & Hother & Hrows). rewrite Hs1 in *.
  specialize (Hrows (fault_free_env w w1 He1 Hff) Hnd).
  apply wp_bind. destruct (negb _); [|by do 2 apply wp_ret].
  apply wp_bind, wp_now. intros w3 (Hs3 & _). apply wp_modify_put. intros w4 (Hs4 & _).
  apply wp_ret. rewrite Hs4, Hs3. clear Hs4. by destruct (checkQuorum _ _ _ _ _).
Qed.
End Nodes.

(** ** The protocol of a run *)

(** A crash loop is raised, taken back, raised again, in that order and never
    twice in a row: along any sequence of observations of tasks and recovery
    checks, from any state, the alerts of a service alternate, start with a raise
    exactly when it was not in a crash loop, and end open exactly when
    [IsCrashLooping] says so. *)
Theorem crash_alerts_alternate json id ops d :
  let r := trk_run (Tracker0 := crash_tracker json) ops d in
  follow true ("crash_loop", id) (IsCrashLooping id d) (o_alerts r.2) = Some (IsCrashLooping id r.1).
Proof.
  cbv zeta. assert (trk_covered (Tracker0 := crash_tracker json) ("crash_loop", id) ops d) as Hc.
  { revert d. induction ops; intros d; cbn; [done|]. split; [done|]. apply IHops. }
  destruct (trk_run_goes (Tracker0 := crash_tracker json) _ _ _ Hc) as [_ H].
  unfold IsCrashLooping. cbn in H. unfold crash_raised, looping in H. cbn in H.
  by rewrite !bool_decide_eq_true_2 in H.
Qed.

(** ** Restarts *)

Section Resume.
Implicit Types (active : list Alert) (c : channel).

(** An active alert that a machine takes over. *)
Definition resumes (entityType : string) (c : channel) (a : Alert) : bool :=
  bool_decide (alert_key a = channel_key "swarm" entityType c).

Lemma fold_resume {St} (raised : channel → St → bool) c (f : St → Alert → St) (p : Alert → bool) active s :
  (∀ s a, raised c (f s a) = raised c s || p a) →
  raised c (foldl f s active) = raised c s || existsb p active.
Proof.
  intros Hf. revert s. induction active as [|a active IH]; intros s; cbn; [by rewrite orb_false_r|].
  by rewrite IH, Hf, orb_assoc.
Qed.

Lemma resumes_split entityType c a :
  resumes entityType c a = bool_decide (al_Source a = "swarm") && bool_decide (al_AlertType a = c.1)
    && bool_decide (al_EntityType a = entityType) && bool_decide (al_EntityID a = c.2).
Proof.
  unfold resumes, alert_key, channel_key. destruct c as [ty id]. cbn.
  rewrite <- !bool_decide_and. apply bool_decide_ext. split; [intros [= -> -> -> ->]; done|].
  by intros [[[-> ->] ->] ->].
Qed.

Lemma crash_Resume_raised ty id active now_ d :
  ty = "crash_loop" →
  crash_raised (ty, id) (crash_Resume active now_ d)
  = crash_raised (ty, id) d || existsb (resumes "swarm_service" (ty, id)) active.
Proof.
  intros ->. unfold crash_raised, crash_Resume.
  change (cl_services (d <| cl_services := ?s |>)) with s. apply fold_resume.
  intros s a. rewrite resumes_split. cbn [fst snd]. rewrite !looping_at.
  destruct (_ && _ && _); cbn [andb]; [|by rewrite orb_false_r].
  destruct (decide (al_EntityID a = id)) as [->|Hne].
  - rewrite lookup_insert_eq, (bool_decide_eq_true_2 (id = id)) by done. by rewrite orb_true_r.
  - by rewrite lookup_insert_ne, (bool_decide_eq_false_2 _ Hne), orb_false_r.
Qed.

Lemma replica_Resume_raised ty id active now_ s :
  ty = "replica_unhealthy" →
  short (ty, id) (replica_Resume active now_ s)
  = short (ty, id) s || existsb (resumes "swarm_service" (ty, id)) active.
Proof.
  intros ->. unfold replica_Resume. apply fold_resume.
  intros s0 a. rewrite resumes_split. cbn [fst snd]. rewrite !short_at.
  destruct (_ && _ && _); cbn [andb]; [|by rewrite orb_false_r].
  destruct (decide (al_EntityID a = id)) as [->|Hne].
  - rewrite lookup_insert_eq, (bool_decide_eq_true_2 (id = id)) by done. by rewrite orb_true_r.
  - by rewrite lookup_insert_ne, (bool_decide_eq_false_2 _ Hne), orb_false_r.
Qed.

Lemma update_Resume_raised ty id active s :
  ty = alertTypeUpdateRollback ∨ ty = alertTypeUpdateStalled →
  update_raised (ty, id) (update_Resume active s)
  = update_raised (ty, id) s || existsb (resumes "swarm_service" (ty, id)) active.
Proof.
  intros Hty. unfold update_Resume. apply fold_resume.
  intros s0 a. rewrite resumes_split. cbn [fst snd].
  assert (update_raised (ty, id) (markAlerted (al_EntityID a) (al_AlertType a) s0)
    = update_raised (ty, id) s0 || bool_decide (al_AlertType a = ty) && bool_decide (al_EntityID a = id)) as Hmark.
  { unfold update_raised, markAlerted. cbn. destruct (decide (al_EntityID a = id)) as [->|Hne].
    - rewrite lookup_insert_eq. cbn. rewrite (bool_decide_eq_true_2 (id = id)) by done. rewrite andb_true_r.
      rewrite <- bool_decide_or. apply bool_decide_ext. set_solver.
    - by rewrite lookup_insert_ne, (bool_decide_eq_false_2 _ Hne), andb_false_r, orb_false_r. }
  destruct (bool_decide (al_Source a = "swarm")); cbn [andb]; [|by rewrite orb_false_r].
  destruct (bool_decide (al_EntityType a = "swarm_service")); cbn [andb]; rewrite ?andb_false_r, ?andb_true_r;
    cbn [andb]; rewrite ?orb_false_r; [|done].
  destruct (bool_decide (al_AlertType a = alertTypeUpdateRollback) || _) eqn:Ht; [done|].
  apply orb_false_iff in Ht as [H1%bool_decide_eq_false H2%bool_decide_eq_false].
  rewrite (bool_decide_eq_false_2 (al_AlertType a = ty)) by naive_solver congruence. cbn. by rewrite orb_false_r.
Qed.

Definition active_rows (s : alerting) : list Alert :=
  order_by (λ a, - unix (al_FiredAt a))
    (select_where (λ a, bool_decide (al_Status a = StatusActive)) (db_alerts s)).

Lemma active_live s entityType c :
  synced (engine_view s) →
  existsb (resumes entityType c) (active_rows s) = true ↔ is_Some (live s !! channel_key "swarm" entityType c).
Proof.
  intros [_ Hlive Hrows]. rewrite existsb_exists. unfold live. rewrite lookup_fmap, fmap_is_Some.
  unfold active_rows, resumes. split.
  - intros (a & Ha%list_elem_of_In & Hk%bool_decide_eq_true).
    rewrite order_by_elem, select_where_elem, bool_decide_eq_true in Ha. destruct Ha as [Ha Hact].
    destruct (Hrows a Ha Hact) as (b & Hb & _). rewrite Hk in Hb. by eexists.
  - intros [a Ha]. destruct (Hlive _ _ Ha) as (Hk & Hact & row & Hrow & Hcore).
    exists row. split; [|apply bool_decide_eq_true; rewrite <- Hk; by apply core_key].
    apply list_elem_of_In. rewrite order_by_elem, select_where_elem, bool_decide_eq_true.
    split; [by apply select_id_Some in Hrow as [? _]|]. by rewrite (core_status _ _ Hcore).
Qed.

(** A restart loses no alert of the swarm.  Over an engine in step with its
    store, a new manager seeded with the active alerts has a crash loop, a short
    service, a rolled-back or a stalled update raised exactly when the engine has
    that alert live, and the quorum alert whenever the engine has it live. *)
Theorem seed_mirrors s rows now_ id :
  synced (engine_view s) →
  let m := seedSwarmAlertTracking (Ok (active_rows s)) now_ (new_manager rows) in
  let alive ty := is_Some (live s !! channel_key "swarm" "swarm_service" (ty, id)) in
  (crash_raised ("crash_loop", id) (mg_crashLoop m) = true ↔ alive "crash_loop")
  ∧ (short ("replica_unhealthy", id) (mg_replicas m) = true ↔ alive "replica_unhealthy")
  ∧ (∀ ty, ty = alertTypeUpdateRollback ∨ ty = alertTypeUpdateStalled →
       update_raised (ty, id) (mg_updates m) = true ↔ alive ty)
  ∧ (is_Some (live s !! channel_key "swarm" "swarm_cluster" (alertTypeQuorumDegraded, "")) →
       nd_quorumAlerted (mg_nodes m) = true).
Proof.
  intros Hs. cbv zeta. split_and!.
  - rewrite <- active_live by done. cbn [seedSwarmAlertTracking].
    change (mg_crashLoop _) with (crash_Resume (active_rows s) now_ (MkDetector ∅ ∅)).
    by rewrite crash_Resume_raised.
  - rewrite <- active_live by done. change (mg_replicas _) with (replica_Resume (active_rows s) now_ ∅).
    by rewrite replica_Resume_raised.
  - intros ty Hty. rewrite <- active_live by done.
    change (mg_updates _) with (update_Resume (active_rows s) (MkTracker ∅ ∅)).
    rewrite update_Resume_raised by done. unfold update_raised. cbn.
    rewrite bool_decide_eq_false_2 by set_solver. done.
  - rewrite <- active_live by done. change (nd_quorumAlerted _) with (quorum_Resume (active_rows s) false).
    unfold quorum_Resume. generalize (active_rows s) as l. intros l.
    pose proof (fold_resume (λ (_ : channel) (b : bool), b) (alertTypeQuorumDegraded, "") _
      (λ a, bool_decide (al_Source a = "swarm") && bool_decide (al_AlertType a = alertTypeQuorumDegraded))
      l false (λ _ _, eq_refl)) as Hfold. cbv beta in Hfold. rewrite Hfold. clear Hfold.
    cbn [orb]. intros (a & Ha & Hk)%existsb_exists. apply existsb_exists. exists a. split; [done|].
    rewrite resumes_split in Hk. cbn [fst snd] in Hk. by apply andb_true_iff in Hk as [[? _]%andb_true_iff _].
Qed.
End Resume.

(** ** Concrete runs *)

Module SwarmExample.
Definition json : list (string * value) → details := λ _, DetailsNil.
Definition t0 : Z := 1700000000 * second.
Definition web (running : Z) : SwarmService := MkSwarmService "s1" "web" "replicated" 3 running ∅.
Definition failed_task (id : string) (t : Z) : SwarmTask := MkSwarmTask id "s1" "n1" "failed" "" "exit 1" (Some 1) t.

(** Three tasks that failed within the window. *)
Definition crashing : list crash_op :=
  [ObserveTasksOp [web 2] [failed_task "t1" t0; failed_task "t2" t0; failed_task "t3" (t0 + second)] (t0 + minute)].
Definition quiet_later : list crash_op := [CheckRecoveriesOp (t0 + 12 * minute)].

Definition fresh : CrashLoopDetector := MkDetector ∅ ∅.

Definition recovers (o : output) : list bool := ev_IsRecover <$> o_alerts o.

Example crash_raised_once :
  recovers (trk_run (Tracker0 := crash_tracker json) crashing fresh).2 = [false]
  ∧ recovers (trk_run (Tracker0 := crash_tracker json) (crashing ++ crashing ++ quiet_later) fresh).2 = [false; true].
Proof. split; vm_compute; reflexivity. Qed.

Lemma crash_window_exact_witness :
  let ops := [Fails "web" "e" t0 t0; Fails "web" "e" (t0 + minute) (t0 + minute);
              Fails "web" "e" (t0 + 2 * minute) (t0 + 2 * minute); Quiet (t0 + 3 * minute);
              Fails "web" "e" (t0 + 40 * minute) (t0 + 40 * minute)] in
  (recovers <$> (service_run (recordFailure json) "s1" ops ∅).2) = [[]; []; [false]; []; []]
  ∧ (service_run (recordFailure json) "s1" ops ∅).2 = (service_run (recordFailure_ref json) "s1" ops ∅).2
  ∧ IsCrashLooping "s1" (MkDetector (service_run (recordFailure json) "s1" ops ∅).1 ∅)
    = IsCrashLooping "s1" (MkDetector (service_run (recordFailure_ref json) "s1" ops ∅).1 ∅).
Proof.
  intros ops. split; [vm_compute; reflexivity|].
  apply (crash_window_exact json "s1" ops). subst ops. repeat constructor; vm_compute; congruence.
Defined.

Lemma replica_streak_witness :
  let h := [(web 3, t0); (web 1, t0 + minute); (web 2, t0 + 3 * minute)] in
  recovers (evaluate json (web 2) (t0 + 6 * minute) (observed json h ∅)).2 = [false]
  ∧ (evaluate json (web 2) (t0 + 6 * minute) (observed json h ∅)).2
    = if replicas_fine (web 2)
      then (if overdue (streak h) then emitReplicaRecovery json "s1" "web" (t0 + 6 * minute) else no_output)
      else if overdue (streak (h ++ [(web 2, t0 + 6 * minute)])) && negb (overdue (streak h))
           then emitReplicaAlert json (web 2) (t0 + 6 * minute) else no_output.
Proof.
  intros h. split; [vm_compute; reflexivity|]. apply (replica_streak json "s1" h (web 2) (t0 + 6 * minute)).
  intros p Hp. subst h. repeat (apply elem_of_cons in Hp as [->|Hp]; [reflexivity|]). by apply elem_of_nil in Hp.
Defined.

Definition node (id role status : string) : SwarmNode := MkSwarmNode id id role status "active" "27" "" 0 0 0 0.
Definition nodes : list SwarmNode := [node "m1" "manager" "ready"; node "m2" "manager" "down"; node "w1" "worker" "ready"].
Definition w0 : world nodes_state := calm_world t0 (MkNodes ∅ false no_output).

Lemma reconcile_rows_witness :
  fault_free w0 ∧
  wp (Reconcile json (inl nodes) (λ _, 4)) (λ _ w',
    (∀ n, n ∈ nodes → fresh_row (λ _, 4) t0 n None (nd_rows (w_st w') !! no_NodeID n))
    ∧ nd_quorumAlerted (w_st w') = true) w0.
Proof.
  split; [done|].
  pose proof (reconcile_rows json nodes (λ _, 4) w0 ltac:(done) ltac:(by apply (bool_decide_unpack _))) as [H _].
  split; [exact H|vm_compute; reflexivity].
Defined.

Definition engine0 : world alerting := new_engine t0.

Lemma engine0_synced : synced (engine_view (w_st engine0)).
Proof. apply new_engine_synced. Qed.

Lemma engine0_healthy : healthy engine0.
Proof. apply new_engine_healthy. Qed.

(** The crash loop of the service is live in the engine after the raise. *)
Lemma engine_mirrors_witness :
  let r := trk_run (Tracker0 := crash_tracker json) crashing fresh in
  IsCrashLooping "s1" r.1 = true
  ∧ is_Some (live (w_st (feed (Esc := noopEscalator) true true (o_alerts r.2) engine0))
      !! channel_key "swarm" "swarm_service" ("crash_loop", "s1")).
Proof.
  cbv zeta. split; [vm_compute; reflexivity|].
  destruct (engine_mirrors (Esc := noopEscalator) true true (Tracker0 := crash_tracker json) ("crash_loop", "s1")
    crashing fresh engine0 (synced_inv _ engine0_synced) (conj I I)) as [_ H].
  apply H; [apply engine0_healthy|apply engine0_synced|done| |vm_compute; reflexivity].
  split; [|by vm_compute]. intros [x Hx]. cbn in Hx. unfold live in Hx. cbn in Hx. by rewrite lookup_fmap, lookup_empty in Hx.
Defined.

(** The store of that engine, given to a new manager. *)
Definition engine1 : world alerting :=
  feed (Esc := noopEscalator) true true (o_alerts (trk_run (Tracker0 := crash_tracker json) crashing fresh).2) engine0.

Lemma engine1_synced : synced (engine_view (w_st engine1)).
Proof.
  apply (so_sync _ _ (run_ops_inv (Esc := noopEscalator) (Sup := noopSuppressor) true true
    (OpEvent <$> o_alerts (trk_run (Tracker0 := crash_tracker json) crashing fresh).2) engine0
    (synced_inv _ engine0_synced)) engine0_healthy engine0_synced).
Qed.

Lemma seed_mirrors_witness :
  let m := seedSwarmAlertTracking (Ok (active_rows (w_st engine1))) t0 (new_manager ∅) in
  crash_raised ("crash_loop", "s1") (mg_crashLoop m) = true
  ∧ is_Some (live (w_st engine1) !! channel_key "swarm" "swarm_service" ("crash_loop", "s1")).
Proof.
  intros m. destruct (seed_mirrors (w_st engine1) ∅ t0 "s1" engine1_synced) as [H _].
  split; [vm_compute; reflexivity|]. apply H. vm_compute. reflexivity.
Defined.

(** A node that goes through the status "unknown" on its way back never recovers,
    and one that goes through it on its way down is never announced. *)
Definition seen (status : string) : node_op := NodeSeen (node "n1" "worker" status) t0.

Example unknown_hides_recovery :
  let r := trk_run (Tracker0 := node_tracker json) [seen "down"; seen "unknown"; seen "ready"] (node "n1" "worker" "ready") in
  recovers r.2 = [false] ∧ no_Status r.1 = "ready".
Proof. split; vm_compute; reflexivity. Qed.

Example unknown_hides_failure :
  let r := trk_run (Tracker0 := node_tracker json) [seen "unknown"; seen "down"] (node "n1" "worker" "ready") in
  recovers r.2 = [] ∧ no_Status r.1 = "down".
Proof. split; vm_compute; reflexivity. Qed.

(** The tracker forgets a finished update, so the next check announces it again. *)
Definition inspected (state : string) : option InspectedService :=
  Some (MkInspected "web" ∅ (Some state) "" None None "web:2").
Definition checked (state : string) : update_op := CheckServiceOp "s1" (inspected state) (Some []) t0.

Example completion_announced_twice :
  let r := trk_run (Tracker0 := update_tracker json) [checked "completed"; checked "completed"] (MkTracker ∅ ∅) in
  (o_events r.2).*1 = [SwarmUpdateCompleted; SwarmUpdateCompleted].
Proof. vm_compute. reflexivity. Qed.

Example rollback_raised_twice :
  let r := trk_run (Tracker0 := update_tracker json)
    [checked "rollback_completed"; checked "rollback_completed"] (MkTracker ∅ ∅) in
  recovers r.2 = [false; false].
Proof. vm_compute. reflexivity. Qed.
End SwarmExample.
