(* ===== verification/Uid.v ===== *)
(** * Identifiers derived from natural keys

    [src/internal/uid/uid.go]: a row that an agent and the server must name alike
    gets a version 5 UUID of its natural key.  The hash is a parameter; what is
    hashed is not, and it keeps different keys apart. *)

From S2P Require Import Prelude.
From S2P Require Import GoStrings.
From S2P Require Import AlertModel.

#[local] Open Scope string_scope.
#[local] Open Scope list_scope.

(** [uuid.NewSHA1]: the version 5 UUID of a text in a namespace. *)
Class Uuid := NewSHA1 : string → string → string.

Definition nsRoot := "6d61696e-7465-6e61-6e74-000000000001".

Definition unitSep : string := String.String (Ascii.ascii_of_nat 31) "".

Section Uid.
Context `{!Uuid}.

Definition nsContainer : string := NewSHA1 nsRoot "container".
Definition nsEndpoint : string := NewSHA1 nsRoot "endpoint".
Definition nsCert : string := NewSHA1 nsRoot "cert_monitor".
Definition nsSwarmNode : string := NewSHA1 nsRoot "swarm_node".
Definition nsSwarmService : string := NewSHA1 nsRoot "swarm_service".
Definition nsSwarmTask : string := NewSHA1 nsRoot "swarm_task".
Definition nsK8sPod : string := NewSHA1 nsRoot "k8s_pod".
Definition nsK8sNode : string := NewSHA1 nsRoot "k8s_node".
Definition nsK8sWorkload : string := NewSHA1 nsRoot "k8s_workload".
Definition nsNamespace : string := NewSHA1 nsRoot "k8s_namespace".
Definition nsEventRecord : string := NewSHA1 nsRoot "agent_event_record".

(** What [Derive] hashes. *)
Definition key_text (parts : list string) : string := Join (TrimSpace <$> parts) unitSep.

Definition Derive (ns : string) (parts : list string) : string := NewSHA1 ns (key_text parts).

Definition uid_Container (agentID externalID : string) : string := Derive nsContainer [agentID; externalID].

Definition EndpointLabel (agentID containerName labelKey : string) : string :=
  Derive nsEndpoint [agentID; containerName; labelKey].

Definition CertMonitor (agentID hostname : string) (port : Z) (serverName : string) : string :=
  if bool_decide (serverName = "") then Derive nsCert [agentID; hostname; fmt_d port]
  else Derive nsCert [agentID; hostname; fmt_d port; serverName].

Definition uid_SwarmNode (agentID nodeID : string) : string := Derive nsSwarmNode [agentID; nodeID].
Definition uid_SwarmService (agentID serviceID : string) : string := Derive nsSwarmService [agentID; serviceID].
Definition uid_SwarmTask (agentID taskID : string) : string := Derive nsSwarmTask [agentID; taskID].
Definition uid_Pod (agentID namespace name : string) : string := Derive nsK8sPod [agentID; namespace; name].
Definition uid_K8sNode (agentID name : string) : string := Derive nsK8sNode [agentID; name].
Definition uid_K8sWorkload (agentID workloadID : string) : string := Derive nsK8sWorkload [agentID; workloadID].
Definition uid_Namespace (agentID name : string) : string := Derive nsNamespace [agentID; name].

Definition EventRecord (agentID eventID : string) (parts : list string) : string :=
  Derive nsEventRecord (agentID :: eventID :: parts).
End Uid.

(** ** The separator keeps keys apart *)

Definition unit_sep : Ascii.ascii := Ascii.ascii_of_nat 31.

(** A part without the separator, as every identifier and name is. *)
Definition plain (part : string) : Prop := unit_sep ∉ to_bytes part.

Lemma to_bytes_inj s t : to_bytes s = to_bytes t → s = t.
Proof. intros H. by rewrite <- (of_to_bytes s), H, of_to_bytes. Qed.

(** The first separator of a joined text ends its first part. *)
Lemma first_part (a b : bytes) (r r' : bytes) :
  unit_sep ∉ a → unit_sep ∉ b → a ++ unit_sep :: r = b ++ unit_sep :: r' → a = b ∧ r = r'.
Proof.
  revert b. induction a as [|x a IH]; intros [|y b] Ha Hb H; cbn in H.
  - by injection H as ->.
  - injection H as <- _. destruct Hb. by left.
  - injection H as -> _. destruct Ha. by left.
  - injection H as -> H. rewrite not_elem_of_cons in Ha, Hb.
    destruct (IH b) as [-> ->]; naive_solver.
Qed.

Lemma join_bytes x y ps : to_bytes (Join (x :: y :: ps) unitSep) = to_bytes x ++ unit_sep :: to_bytes (Join (y :: ps) unitSep).
Proof. change (Join (x :: y :: ps) unitSep) with (x +:+ unitSep +:+ Join (y :: ps) unitSep)%string. by rewrite !to_bytes_app. Qed.

Lemma join_injective ps qs :
  ps ≠ [] → qs ≠ [] → Forall plain ps → Forall plain qs → Join ps unitSep = Join qs unitSep → ps = qs.
Proof.
  revert qs. induction ps as [|x ps IH]; intros qs Hp Hq Hps Hqs H; [done|].
  destruct qs as [|y qs]; [done|]. apply Forall_cons in Hps as [Hx Hps], Hqs as [Hy Hqs].
  apply (f_equal to_bytes) in H.
  destruct ps as [|x' ps], qs as [|y' qs]; rewrite ?join_bytes in H; cbn [Join] in H.
  - by apply to_bytes_inj in H as ->.
  - destruct Hx. rewrite H. set_solver.
  - destruct Hy. rewrite <- H. set_solver.
  - apply first_part in H as [Hxy%to_bytes_inj H]; [|done..].
    apply to_bytes_inj in H. f_equal; [done|]. by apply IH.
Qed.

(** Identifiers of different natural keys differ.  If the hash does not
    collide, two keys of parts without the separator get the same identifier only
    when they have the same parts, surrounding white space aside, whatever their
    numbers of parts are. *)
Theorem derive_injective `{!Uuid} ns ps qs :
  (∀ t t', NewSHA1 ns t = NewSHA1 ns t' → t = t') →
  ps ≠ [] → qs ≠ [] → Forall (plain ∘ TrimSpace) ps → Forall (plain ∘ TrimSpace) qs →
  Derive ns ps = Derive ns qs → TrimSpace <$> ps = TrimSpace <$> qs.
Proof.
  intros Hinj Hp Hq Hps Hqs Hd. apply Hinj in Hd. apply join_injective; [by destruct ps|by destruct qs|..|done].
  - by apply Forall_fmap.
  - by apply Forall_fmap.
Qed.

Module UidExample.
#[local] Instance uuid : Uuid := λ ns text, (ns +:+ text)%string.

Lemma nsContainer_injective t t' : NewSHA1 nsContainer t = NewSHA1 nsContainer t' → t = t'.
Proof. intros H. by apply (inj (String.append nsContainer)). Qed.

Lemma derive_injective_witness :
  Derive nsContainer ["agent-1"; " web"] = Derive nsContainer ["agent-1"; "web"]
  ∧ TrimSpace <$> ["agent-1"; " web"] = TrimSpace <$> ["agent-1"; "web"].
Proof.
  split; [vm_compute; reflexivity|].
  apply (derive_injective nsContainer ["agent-1"; " web"] ["agent-1"; "web"]); [apply nsContainer_injective|done|done|..].
  - repeat constructor; unfold plain; cbn; set_solver.
  - repeat constructor; unfold plain; cbn; set_solver.
  - vm_compute. reflexivity.
Defined.
End UidExample.
