(* ===== verification/Endpoint.v ===== *)
(** * Endpoints: data and the matching of statuses

    [src/internal/endpoint/model.go] and [status.go]: monitored HTTP and TCP
    targets, the outcome of a probe, and the patterns of expected HTTP statuses. *)

From S2P Require Import Prelude.
From S2P Require Import Tables.
From S2P Require Import GoStrings.
From S2P Require Import AlertModel.
From Stdlib Require Import Ascii.

#[local] Open Scope string_scope.
#[local] Open Scope list_scope.
#[local] Open Scope Z_scope.

(** ** Constants *)

Definition SourceLabel := "label".
Definition SourceStandalone := "standalone".

Definition TypeHTTP := "http".
Definition TypeTCP := "tcp".

Definition endpoint_StatusUp := "up".
Definition endpoint_StatusDown := "down".
Definition endpoint_StatusDegraded := "degraded".
Definition endpoint_StatusUnknown := "unknown".

Definition endpoint_AlertNormal := "normal".
Definition endpoint_AlertAlerting := "alerting".

(** ** Data *)

(** A duration is a number of nanoseconds. *)
Record EndpointConfig := MkEndpointConfig {
  ec_Interval : Z;
  ec_Timeout : Z;
  ec_FailureThreshold : Z;
  ec_RecoveryThreshold : Z;
  ec_Method : string;
  ec_ExpectedStatus : string;
  ec_TLSVerify : bool;
  ec_Headers : gmap string string;
  ec_MaxRedirects : Z;
}.
#[export] Instance EndpointConfig_eta : Eta EndpointConfig := λ c,
  MkEndpointConfig (ec_Interval c) (ec_Timeout c) (ec_FailureThreshold c) (ec_RecoveryThreshold c)
    (ec_Method c) (ec_ExpectedStatus c) (ec_TLSVerify c) (ec_Headers c) (ec_MaxRedirects c).
#[export] Instance EndpointConfig_eq_dec : EqDecision EndpointConfig.
Proof. solve_decision. Defined.

Definition DefaultConfig : EndpointConfig :=
  MkEndpointConfig (30 * second) (10 * second) 3 2 "GET" "2xx" true ∅ 5.

Record Endpoint := MkEndpoint {
  ep_ID : string;
  ep_ContainerName : string;
  ep_LabelKey : string;
  ep_ExternalID : string;
  ep_EndpointType : string;
  ep_Target : string;
  ep_Status : string;
  ep_AlertState : string;
  ep_ConsecutiveFailures : Z;
  ep_ConsecutiveSuccesses : Z;
  ep_LastCheckAt : option Z;
  ep_LastResponseTimeMs : option Z;
  ep_LastHTTPStatus : option Z;
  ep_LastError : string;
  ep_Config : EndpointConfig;
  ep_Active : bool;
  ep_FirstSeenAt : Z;
  ep_LastSeenAt : Z;
  ep_Source : string;
  ep_Name : string;
  ep_AgentID : string;
}.
#[export] Instance Endpoint_eta : Eta Endpoint := λ e,
  MkEndpoint (ep_ID e) (ep_ContainerName e) (ep_LabelKey e) (ep_ExternalID e) (ep_EndpointType e)
    (ep_Target e) (ep_Status e) (ep_AlertState e) (ep_ConsecutiveFailures e)
    (ep_ConsecutiveSuccesses e) (ep_LastCheckAt e) (ep_LastResponseTimeMs e) (ep_LastHTTPStatus e)
    (ep_LastError e) (ep_Config e) (ep_Active e) (ep_FirstSeenAt e) (ep_LastSeenAt e) (ep_Source e)
    (ep_Name e) (ep_AgentID e).
#[export] Instance Endpoint_id : HasId Endpoint := ep_ID.

(** The result of a probe; the certificates it met go to another service. *)
Record CheckResult := MkCheckResult {
  cr_ID : string;
  cr_EndpointID : string;
  cr_Success : bool;
  cr_ResponseTimeMs : Z;
  cr_HTTPStatus : option Z;
  cr_ErrorMessage : string;
  cr_Timestamp : Z;
  cr_Degraded : bool;
  cr_DegradedReason : string;
  cr_AgentID : string;
  cr_Replayed : bool;
}.
#[export] Instance CheckResult_eta : Eta CheckResult := λ r,
  MkCheckResult (cr_ID r) (cr_EndpointID r) (cr_Success r) (cr_ResponseTimeMs r) (cr_HTTPStatus r)
    (cr_ErrorMessage r) (cr_Timestamp r) (cr_Degraded r) (cr_DegradedReason r) (cr_AgentID r)
    (cr_Replayed r).
#[export] Instance CheckResult_id : HasId CheckResult := cr_ID.

(** What the service touches: the two tables, the running probes of the check
    engine with the endpoint each was started with, the endpoints a manual check
    is running for, and what it handed to its callbacks: events, alerts and the
    ids of removed endpoints. *)
Record probing := MkProbing {
  db_endpoints : list Endpoint;
  db_checks : list CheckResult;
  runners : gmap string Endpoint;
  manualChecks : gset string;
  ep_events : list (string * list (string * value));
  ep_alerts : list Event;
  ep_removed : list string;
}.
#[export] Instance probing_eta : Eta probing := λ s,
  MkProbing (db_endpoints s) (db_checks s) (runners s) (manualChecks s) (ep_events s) (ep_alerts s)
    (ep_removed s).

Definition empty_probing : probing := MkProbing [] [] ∅ ∅ [] [] [].

(** ** Expected statuses *)

Record statusRange := MkRange { sr_min : Z; sr_max : Z }.

Definition digit_below_6 (a : ascii) : option Z :=
  let d := (Z.of_nat (nat_of_ascii a) - 48) `mod` 256 in
  if bool_decide (1 ≤ d ∧ d ≤ 5) then Some d else None.

Definition parseStatusPart (s : string) : option statusRange :=
  let s := ToLower s in
  let exact :=
    match Atoi s with
    | Some code => if bool_decide (100 ≤ code ∧ code ≤ 599) then Some (MkRange code code) else None
    | None => None
    end in
  match to_bytes s with
  | [d; a; b] =>
    if Ascii.eqb a "x" && Ascii.eqb b "x" then
      match digit_below_6 d with
      | Some digit => Some (MkRange (digit * 100) (digit * 100 + 99))
      | None => exact
      end
    else exact
  | _ => exact
  end.

Definition NewStatusMatcher (pattern : string) : list statusRange :=
  let pattern := TrimSpace pattern in
  let pattern := if bool_decide (pattern = "") then "2xx" else pattern in
  let ranges := omap (λ part, let part := TrimSpace part in
                              if bool_decide (part = "") then None else parseStatusPart part)
                  (Split pattern ",") in
  match ranges with
  | [] => [MkRange 200 299]
  | _ => ranges
  end.

Definition Matches (m : list statusRange) (statusCode : Z) : bool :=
  existsb (λ r, bool_decide (sr_min r ≤ statusCode) && bool_decide (statusCode ≤ sr_max r)) m.

(** What a pattern says, independently of the parser: [dxx] is the class of a
    digit from 1 to 5, a number from 100 to 599 is itself. *)
Definition part_accepts (part : string) (code : Z) : Prop :=
  (∃ d : Z, 1 ≤ d ≤ 5 ∧ ToLower part = (fmt_d d +:+ "xx")%string ∧ code / 100 = d)
  ∨ (Atoi (ToLower part) = Some code ∧ 100 ≤ code ≤ 599).

Lemma digit_below_6_spec a d :
  digit_below_6 a = Some d ↔ 1 ≤ d ≤ 5 ∧ a = ascii_of_nat (Z.to_nat (d + 48)).
Proof.
  unfold digit_below_6. pose proof (nat_ascii_bounded a) as Hb. split.
  - case_bool_decide as Hd; [|done]. intros [= <-].
    assert ((Z.of_nat (nat_of_ascii a) - 48) `mod` 256 = Z.of_nat (nat_of_ascii a) - 48) as E.
    { destruct (decide (48 ≤ Z.of_nat (nat_of_ascii a))); [apply Z.mod_small; lia|].
      replace (Z.of_nat (nat_of_ascii a) - 48) with (Z.of_nat (nat_of_ascii a) + 208 + (-1) * 256) in Hd by lia.
      rewrite Z.mod_add, Z.mod_small in Hd by lia. lia. }
    rewrite E in *. split; [done|]. rewrite <- (ascii_nat_embedding a) at 1. f_equal. lia.
  - intros [Hd ->]. rewrite nat_ascii_embedding by lia.
    replace (Z.of_nat (Z.to_nat (d + 48)) - 48) with d by lia.
    rewrite Z.mod_small by lia. by rewrite bool_decide_true.
Qed.

Lemma to_bytes_class d a :
  digit_below_6 a = Some d → to_bytes (fmt_d d +:+ "xx") = [a; "x"; "x"]%char ∧ Atoi_bytes [a; "x"; "x"]%char = None.
Proof.
  intros [Hd ->]%digit_below_6_spec.
  assert (d = 1 ∨ d = 2 ∨ d = 3 ∨ d = 4 ∨ d = 5) as H by lia.
  by destruct H as [ -> | [ -> | [ -> | [ -> | -> ]]]].
Qed.

Lemma class_text s d :
  1 ≤ d ≤ 5 → s = (fmt_d d +:+ "xx")%string ↔ ∃ a, to_bytes s = [a; "x"; "x"]%char ∧ digit_below_6 a = Some d.
Proof.
  intros Hd. set (a := ascii_of_nat (Z.to_nat (d + 48))).
  assert (digit_below_6 a = Some d) as Ha by by apply digit_below_6_spec.
  destruct (to_bytes_class d a Ha) as [Hb _]. split.
  - intros ->. by exists a.
  - intros (a' & Hs & Ha'). apply (inj to_bytes). rewrite Hs, Hb.
    apply digit_below_6_spec in Ha' as [_ ->]. done.
Qed.

Lemma exact_part s code :
  (∃ r, match Atoi s with
        | Some c => if bool_decide (100 ≤ c ∧ c ≤ 599) then Some (MkRange c c) else None
        | None => None
        end = Some r ∧ sr_min r ≤ code ≤ sr_max r)
  ↔ Atoi s = Some code ∧ 100 ≤ code ≤ 599.
Proof.
  destruct (Atoi s) as [c|]; [|naive_solver]. case_bool_decide; [|naive_solver lia].
  split; [intros (r & [= <-] & Hc)|intros [[= ->] ?]; eexists; split; [done|]]; cbn in *; [|lia].
  assert (c = code) as -> by lia. done.
Qed.

Lemma parseStatusPart_spec part code :
  (∃ r, parseStatusPart part = Some r ∧ sr_min r ≤ code ≤ sr_max r) ↔ part_accepts part code.
Proof.
  unfold parseStatusPart, part_accepts. set (s := ToLower part).
  rewrite <- exact_part. set (exact := match Atoi s with Some _ => _ | None => _ end).
  assert (Hcl : (∃ d, 1 ≤ d ≤ 5 ∧ s = (fmt_d d +:+ "xx")%string ∧ code / 100 = d)
    ↔ ∃ a d, to_bytes s = [a; "x"; "x"]%char ∧ digit_below_6 a = Some d ∧ code / 100 = d).
  { split.
    - intros (d & Hd & Hs & Hc). apply class_text in Hs as (a & ? & ?); [|done]. by exists a, d.
    - intros (a & d & Hs & Ha & Hc). exists d. pose proof (proj1 (digit_below_6_spec a d) Ha) as [Hd _].
      split_and!; [lia..| |done]. apply class_text; [done|]. by exists a. }
  rewrite Hcl. clear Hcl.
  destruct (to_bytes s) as [|a [|b [|c [|]]]] eqn:Hs; [naive_solver..| |naive_solver].
  destruct (Ascii.eqb_spec b "x") as [->|Hb], (Ascii.eqb_spec c "x") as [->|Hc]; cbn [andb]; [|naive_solver..].
  destruct (digit_below_6 a) as [d|] eqn:Ha; [|naive_solver].
  assert (exact = None) as -> by (unfold exact, Atoi; rewrite Hs; by rewrite (proj2 (to_bytes_class d a Ha))).
  pose proof (Z.div_mod code 100). pose proof (Z.mod_pos_bound code 100). split.
  - intros (r & [= <-] & Hc). left. exists a, d. split_and!; [done..|]. cbn in Hc.
    symmetry. apply (Z.div_unique _ _ _ (code - d * 100)); lia.
  - intros [(a' & d' & [= <-] & Hd' & Hc)|(r & ? & _)]; [|done].
    eexists; split; [done|]. cbn. simplify_eq. lia.
Qed.

Lemma parseStatusPart_range part r : parseStatusPart part = Some r → sr_min r ≤ sr_max r.
Proof.
  unfold parseStatusPart. set (exact := match Atoi _ with Some _ => _ | None => _ end).
  assert (exact = Some r → sr_min r ≤ sr_max r) as Hx.
  { unfold exact. destruct (Atoi _); [|done]. case_bool_decide; [|done]. by intros [= <-]. }
  repeat case_match; try done. intros [= <-]. cbn. lia.
Qed.

Lemma part_accepts_empty code : ¬ part_accepts "" code.
Proof.
  intros [(d & Hd & Hs & _)|[H _]]; [|done]. apply class_text in Hs as (a & Hs & _); done.
Qed.

Lemma Matches_elem m code :
  Matches m code = true ↔ ∃ r, r ∈ m ∧ sr_min r ≤ code ≤ sr_max r.
Proof.
  unfold Matches. rewrite existsb_exists. setoid_rewrite andb_true_iff. setoid_rewrite bool_decide_eq_true.
  split; intros (r & Hr & Hc); exists r; (split; [by apply list_elem_of_In|done]).
Qed.

(** An endpoint's pattern of expected statuses means what it says: the codes
    it matches are those of its parts, and a pattern without a readable part
    means the codes from 200 to 299. *)
Theorem status_matcher_exact pattern code :
  Matches (NewStatusMatcher pattern) code = true ↔
  let parts := Split (if bool_decide (TrimSpace pattern = "") then "2xx" else TrimSpace pattern) "," in
  (∃ part, part ∈ parts ∧ TrimSpace part ≠ "" ∧ part_accepts (TrimSpace part) code)
  ∨ ((∀ part c, part ∈ parts → ¬ part_accepts (TrimSpace part) c) ∧ 200 ≤ code ≤ 299).
Proof.
  cbv zeta. unfold NewStatusMatcher. set (parts := Split _ _). cbv zeta. fold parts.
  set (f := λ part : string, _ : option statusRange).
  assert (Hf : ∀ part c, (∃ r, f part = Some r ∧ sr_min r ≤ c ≤ sr_max r)
    ↔ TrimSpace part ≠ "" ∧ part_accepts (TrimSpace part) c).
  { intros part c. unfold f. case_bool_decide; [naive_solver|]. rewrite parseStatusPart_spec. tauto. }
  destruct (omap f parts) as [|r0 rs] eqn:Hr.
  - assert (∀ part, part ∈ parts → f part = None) as Hnone.
    { intros part Hp. destruct (f part) as [r|] eqn:E; [|done].
      assert (r ∈ omap f parts) as Hin by (apply list_elem_of_omap; eauto). rewrite Hr in Hin. set_solver. }
    rewrite Matches_elem. split.
    + intros (r & [= ->]%list_elem_of_singleton & Hc). right. split; [|done].
      intros part c Hp Ha. destruct (decide (TrimSpace part = "")) as [Ht|Ht].
      * rewrite Ht in Ha. by eapply part_accepts_empty.
      * destruct (proj2 (Hf part c)) as (r & Hr' & _); [done|]. by rewrite Hnone in Hr'.
    + intros [(part & Hp & Hx)|[_ Hc]].
      * apply Hf in Hx as (r & Hr' & _). by rewrite Hnone in Hr'.
      * eexists. split; [by left|done].
  - rewrite Matches_elem. rewrite <- Hr. split.
    + intros (r & (part & Hp & E)%list_elem_of_omap & Hc). left. exists part. split; [done|].
      apply Hf. eauto.
    + intros [(part & Hp & Hx)|[Hno _]].
      * apply Hf in Hx as (r & E & Hc). exists r. split; [|done]. apply list_elem_of_omap. eauto.
      * exfalso. assert (r0 ∈ omap f parts) as Hin by (rewrite Hr; left).
        apply list_elem_of_omap in Hin as (part & Hp & E).
        destruct (proj1 (Hf part (sr_min r0))) as [_ Ha].
        { exists r0. split; [done|]. unfold f in E. case_bool_decide; [done|].
          apply parseStatusPart_range in E. lia. }
        by eapply Hno.
Qed.
