(* ===== verification/EndpointLabels.v ===== *)
(** * Endpoints: container labels

    [src/internal/endpoint/labels.go]: the endpoints a container declares in its
    labels.  The loops over Go maps visit them in no fixed order: the labels are
    a list here, in the order the loop met them, so that a theorem about every
    list is a theorem about every order.  [url.Parse], [time.ParseDuration] and
    [json.Unmarshal] are parameters. *)

From S2P Require Import Prelude.
From S2P Require Import Tables.
From S2P Require Import GoStrings.
From S2P Require Import AlertModel.
From S2P Require Import SwarmAlerts.
From S2P Require Import Endpoint.
From Stdlib Require Import Ascii.

#[local] Open Scope string_scope.
#[local] Open Scope list_scope.
#[local] Open Scope Z_scope.

(** Parsers of the standard library: the scheme and host of a URL, the length
    of a duration, and a JSON object of strings. *)
Class Parsers := {
  url_Parse : string → option (string * string);
  ParseDuration : string → option Z;
  json_headers : string → option (gmap string string);
}.

Definition labelPrefix := "maintenant.endpoint.".
Definition MinInterval : Z := 5 * second.

Record ParsedEndpoint := MkParsed {
  pe_LabelKey : string;
  pe_EndpointType : string;
  pe_Target : string;
  pe_Config : EndpointConfig;
  pe_Index : Z;
}.
#[export] Instance ParsedEndpoint_eta : Eta ParsedEndpoint := λ p,
  MkParsed (pe_LabelKey p) (pe_EndpointType p) (pe_Target p) (pe_Config p) (pe_Index p).

Record LabelParseError := MkLabelError {
  le_LabelKey : string;
  le_Value : string;
  le_Message : string;
}.

Section Labels.
Context `{Lib : !Parsers}.

(** ** Targets *)

(** The reason a target cannot be probed. *)
Definition ValidateTarget (t target : string) : option string :=
  if bool_decide (t = TypeHTTP) then
    match url_Parse target with
    | Some (scheme, host) =>
      if (negb (bool_decide (scheme = "http")) && negb (bool_decide (scheme = "https")))
         || bool_decide (host = "")
      then Some "invalid HTTP URL: must have http:// or https:// scheme and host" else None
    | None => Some "invalid HTTP URL: must have http:// or https:// scheme and host"
    end
  else if bool_decide (t = TypeTCP) then
    match SplitHostPort target with
    | None => Some "invalid TCP target: must be host:port format"
    | Some (host, port) =>
      if bool_decide (host = "") then Some "invalid TCP target: empty host"
      else match Atoi port with
           | Some n => if bool_decide (n < 1) || bool_decide (65535 < n)
                       then Some "invalid TCP target: port must be a number between 1 and 65535" else None
           | None => Some "invalid TCP target: port must be a number between 1 and 65535"
           end
    end
  else Some ("unknown endpoint type " +:+ t).

Definition parseEndpointTarget (labelKey epType value : string) : ParsedEndpoint + LabelParseError :=
  let value := TrimSpace value in
  if bool_decide (value = "") then inr (MkLabelError labelKey value "empty target")
  else match ValidateTarget epType value with
       | Some msg => inr (MkLabelError labelKey value msg)
       | None => inl (MkParsed labelKey epType value DefaultConfig 0)
       end.

(** ** Headers *)

(** One pair of [key=val,key=val]; a later pair overrides an earlier one. *)
Definition header_pair (headers : gmap string string) (pair : string) : gmap string string :=
  let l := to_bytes (TrimSpace pair) in
  match index_byte "=" l with
  | Some ((S _) as i) => <[TrimSpace (of_bytes (take i l)) := TrimSpace (of_bytes (drop (S i) l))]> headers
  | _ => headers
  end.

(** [None] is the nil map. *)
Definition parseHeaders (v : string) : option (gmap string string) :=
  let v := TrimSpace v in
  if bool_decide (v = "") then None
  else
    let pairs := foldl header_pair ∅ (Split v ",") in
    let fallback := if bool_decide (pairs = ∅) then None else Some pairs in
    if HasPrefix v "{" then
      match json_headers v with Some headers => Some headers | None => fallback end
    else fallback.

(** The headers a label may not set. *)
Definition secret_header (k : string) : bool :=
  bool_decide (ToLower k ∈ ["authorization"; "cookie"; "proxy-authorization"]).

(** ** Configuration *)

Definition set_interval (cfg : EndpointConfig) (v : string) : EndpointConfig :=
  match ParseDuration v with
  | Some d =>
    if bool_decide (d ≤ 0) then cfg
    else if bool_decide (d < MinInterval) then cfg <| ec_Interval := MinInterval |>
    else cfg <| ec_Interval := d |>
  | None => cfg
  end.

Definition set_timeout (cfg : EndpointConfig) (v : string) : EndpointConfig :=
  match ParseDuration v with
  | Some d => if bool_decide (0 < d) then cfg <| ec_Timeout := d |> else cfg
  | None => cfg
  end.

Definition set_failure_threshold (cfg : EndpointConfig) (v : string) : EndpointConfig :=
  match Atoi v with
  | Some n => if bool_decide (0 < n) then cfg <| ec_FailureThreshold := n |> else cfg
  | None => cfg
  end.

Definition set_recovery_threshold (cfg : EndpointConfig) (v : string) : EndpointConfig :=
  match Atoi v with
  | Some n => if bool_decide (0 < n) then cfg <| ec_RecoveryThreshold := n |> else cfg
  | None => cfg
  end.

Definition set_method (cfg : EndpointConfig) (v : string) : EndpointConfig :=
  let v := ToUpper (TrimSpace v) in
  if bool_decide (v = "GET") || bool_decide (v = "HEAD") then cfg <| ec_Method := v |>
  else cfg <| ec_Method := "GET" |>.

Definition set_expected_status (cfg : EndpointConfig) (v : string) : EndpointConfig :=
  cfg <| ec_ExpectedStatus := v |>.

Definition set_tls_verify (cfg : EndpointConfig) (v : string) : EndpointConfig :=
  if bool_decide (ToLower v ∈ ["false"; "0"; "no"]) then cfg <| ec_TLSVerify := false |>
  else if bool_decide (ToLower v ∈ ["true"; "1"; "yes"]) then cfg <| ec_TLSVerify := true |>
  else cfg.

Definition set_headers (cfg : EndpointConfig) (v : string) : EndpointConfig :=
  let headers := filter (λ kv, secret_header kv.1 = false) (default ∅ (parseHeaders v)) in
  if bool_decide (headers = ∅) then cfg else cfg <| ec_Headers := headers |>.

Definition set_max_redirects (cfg : EndpointConfig) (v : string) : EndpointConfig :=
  match Atoi v with
  | Some n => if bool_decide (0 ≤ n) then cfg <| ec_MaxRedirects := n |> else cfg
  | None => cfg
  end.

Definition config_labels : list (string * (EndpointConfig → string → EndpointConfig)) :=
  [("interval", set_interval); ("timeout", set_timeout);
   ("failure-threshold", set_failure_threshold); ("recovery-threshold", set_recovery_threshold);
   ("http.method", set_method); ("http.expected-status", set_expected_status);
   ("http.tls-verify", set_tls_verify); ("http.headers", set_headers);
   ("http.max-redirects", set_max_redirects)].

Definition apply_label (labels : gmap string string) (cfg : EndpointConfig)
    (kf : string * (EndpointConfig → string → EndpointConfig)) : EndpointConfig :=
  match labels !! kf.1 with Some v => kf.2 cfg v | None => cfg end.

Definition applyConfigLabels (cfg : EndpointConfig) (labels : gmap string string) : EndpointConfig :=
  foldl (apply_label labels) cfg config_labels.

(** ** Labels *)

(** [(\d+)\.(.+)]: digits, a dot and one or more characters of the same line. *)
Fixpoint span_digits (l : bytes) : bytes * bytes :=
  match l with
  | a :: l' => match digit a with
               | Some _ => let '(ds, rest) := span_digits l' in (a :: ds, rest)
               | None => ([], l)
               end
  | [] => ([], [])
  end.

(** The index: [strconv.Atoi] answers the largest [int] when it overflows. *)
Definition indexed (suffix : string) : option (Z * string) :=
  match span_digits (to_bytes suffix) with
  | ((_ :: _) as ds, "."%char :: ((_ :: _) as rest)) =>
    if has_byte "010" rest then None
    else Some (Z.min max_int64 (default 0 (digits_value 0 ds)), of_bytes rest)
  | _ => None
  end.

Definition is_type (s : string) : bool := bool_decide (s = TypeHTTP) || bool_decide (s = TypeTCP).

(** The local variables of [ParseEndpointLabels]. *)
Record label_state := MkLabelState {
  ls_endpointMap : gmap Z ParsedEndpoint;
  ls_globalConfig : gmap string string;
  ls_indexedConfigs : gmap Z (gmap string string);
  ls_parseErrors : list LabelParseError;
}.
#[export] Instance label_state_eta : Eta label_state := λ s,
  MkLabelState (ls_endpointMap s) (ls_globalConfig s) (ls_indexedConfigs s) (ls_parseErrors s).

Definition parse_label (s : label_state) (kv : string * string) : label_state :=
  let '(key, value) := kv in
  if negb (HasPrefix key labelPrefix) then s
  else
    let suffix := TrimPrefix key labelPrefix in
    if is_type suffix then
      match parseEndpointTarget key suffix value with
      | inr err => s <| ls_parseErrors ::= λ l, l ++ [err] |>
      | inl ep => s <| ls_endpointMap ::= <[0 := ep <| pe_Index := 0 |>]> |>
      end
    else
      match indexed suffix with
      | Some (idx, rest) =>
        if is_type rest then
          match parseEndpointTarget key rest value with
          | inr err => s <| ls_parseErrors ::= λ l, l ++ [err] |>
          | inl ep =>
            if negb (bool_decide (idx = 0)) || bool_decide (ls_endpointMap s !! 0 = None)
            then s <| ls_endpointMap ::= <[idx := ep <| pe_Index := idx |>]> |> else s
          end
        else s <| ls_indexedConfigs ::= λ m, <[idx := <[rest := value]> (default ∅ (m !! idx))]> m |>
      | None => s <| ls_globalConfig ::= <[suffix := value]> |>
      end.

(** The configuration of the endpoint with index [idx]. *)
Definition endpoint_config (s : label_state) (idx : Z) : EndpointConfig :=
  let cfg := applyConfigLabels DefaultConfig (ls_globalConfig s) in
  let cfg := match ls_indexedConfigs s !! idx with
             | Some ic => applyConfigLabels cfg ic
             | None => cfg
             end in
  if bool_decide (ec_Interval cfg < ec_Timeout cfg) then cfg <| ec_Timeout := ec_Interval cfg |> else cfg.

(** [labels] in the order of the loop, the result in the order of the second. *)
Definition ParseEndpointLabels (labels : list (string * string))
    : list ParsedEndpoint * list LabelParseError :=
  if IgnoredByLabels (list_to_map labels) then ([], [])
  else
    let s := foldl parse_label (MkLabelState ∅ ∅ ∅ []) labels in
    ((λ ie, ie.2 <| pe_Config := endpoint_config s ie.1 |>) <$> map_to_list (ls_endpointMap s),
     ls_parseErrors s).
End Labels.

(** ** What the parser guarantees *)

(** The settings of a label-declared endpoint. *)
Record config_ok (cfg : EndpointConfig) : Prop := {
  co_interval : MinInterval ≤ ec_Interval cfg;
  co_timeout : 0 < ec_Timeout cfg;
  co_failures : 1 ≤ ec_FailureThreshold cfg;
  co_recoveries : 1 ≤ ec_RecoveryThreshold cfg;
  co_method : ec_Method cfg = "GET" ∨ ec_Method cfg = "HEAD";
  co_redirects : 0 ≤ ec_MaxRedirects cfg;
  co_headers : map_Forall (λ k _, secret_header k = false) (ec_Headers cfg);
}.

Section LabelsCorrect.
Context `{Lib : !Parsers}.

Lemma DefaultConfig_ok : config_ok DefaultConfig.
Proof. split; cbn; try done. by left. Qed.

Lemma set_method_ok cfg v : ec_Method (set_method cfg v) = "GET" ∨ ec_Method (set_method cfg v) = "HEAD".
Proof.
  unfold set_method. destruct (bool_decide_reflect (ToUpper (TrimSpace v) = "GET")),
    (bool_decide_reflect (ToUpper (TrimSpace v) = "HEAD")); cbn; auto.
Qed.

Lemma setters_ok : Forall (λ kf, ∀ cfg v, config_ok cfg → config_ok (kf.2 cfg v)) config_labels.
Proof.
  unfold config_labels. repeat (apply Forall_cons; split); [..|done]; intros cfg v []; cbn [snd].
  5: { pose proof (set_method_ok cfg v) as Hm. unfold set_method in *. case_match; by split. }
  all: unfold set_interval, set_timeout, set_failure_threshold, set_recovery_threshold,
      set_expected_status, set_tls_verify, set_headers, set_max_redirects;
    repeat (case_match || case_bool_decide); split; cbn; try done; unfold MinInterval in *; try lia.
  intros x y Hx. by apply map_lookup_filter_Some in Hx as [_ Hx].
Qed.

Lemma applyConfigLabels_ok labels cfg : config_ok cfg → config_ok (applyConfigLabels cfg labels).
Proof.
  unfold applyConfigLabels. pose proof setters_ok as Hs. revert cfg.
  induction Hs as [|[k f] l Hf _ IH]; intros cfg Hcfg; [done|]. cbn.
  apply IH. unfold apply_label. cbn. destruct (labels !! k); [by apply Hf|done].
Qed.

Lemma endpoint_config_ok s idx :
  config_ok (endpoint_config s idx)
  ∧ ec_Timeout (endpoint_config s idx) ≤ ec_Interval (endpoint_config s idx).
Proof.
  unfold endpoint_config. cbv zeta.
  set (cfg := match ls_indexedConfigs s !! idx with Some _ => _ | None => _ end).
  assert (config_ok cfg) as Hok.
  { unfold cfg. destruct (_ !! idx); repeat apply applyConfigLabels_ok; apply DefaultConfig_ok. }
  case_bool_decide; [|split; [done|lia]].
  split; [|done]. destruct Hok. unfold MinInterval, second in *. split; cbn; try done; lia.
Qed.

(** An endpoint found so far can be probed. *)
Definition target_ok (p : ParsedEndpoint) : Prop :=
  is_type (pe_EndpointType p) = true ∧ pe_Target p ≠ ""
  ∧ ValidateTarget (pe_EndpointType p) (pe_Target p) = None.

Lemma parseEndpointTarget_ok key ty value p :
  is_type ty = true → parseEndpointTarget key ty value = inl p → target_ok p.
Proof.
  intros Hty. unfold parseEndpointTarget. case_bool_decide; [done|].
  destruct (ValidateTarget ty (TrimSpace value)) eqn:E; [done|]. by intros [= <-].
Qed.

Lemma target_ok_index p i : target_ok p → target_ok (p <| pe_Index := i |>).
Proof. done. Qed.

Lemma parse_label_ok s kv :
  map_Forall (λ _, target_ok) (ls_endpointMap s) → map_Forall (λ _, target_ok) (ls_endpointMap (parse_label s kv)).
Proof.
  intros Hs. unfold parse_label. destruct kv as [key value].
  repeat case_match; try done; cbn; (apply map_Forall_insert_2; [|done]);
    apply target_ok_index; eapply parseEndpointTarget_ok; done.
Qed.

(** C12: whatever a container's labels say, in whatever order they are visited,
    every endpoint they declare has a valid target and safe settings: an
    interval of at least [MinInterval], a positive timeout within it, thresholds
    of at least one, a method that changes nothing, and no credentials in its
    headers. *)
Theorem parsed_endpoints_safe labels p :
  p ∈ (ParseEndpointLabels labels).1 →
  target_ok p ∧ config_ok (pe_Config p) ∧ ec_Timeout (pe_Config p) ≤ ec_Interval (pe_Config p).
Proof.
  unfold ParseEndpointLabels. destruct (IgnoredByLabels _); [by intros ?%elem_of_nil|]. cbn.
  intros ([i q] & -> & Hq)%list_elem_of_fmap. split; [|apply endpoint_config_ok].
  assert (∀ s, map_Forall (λ _, target_ok) (ls_endpointMap s) →
    map_Forall (λ _, target_ok) (ls_endpointMap (foldl parse_label s labels))) as Hf.
  { clear. induction labels as [|kv l IH]; intros s Hs; [done|]. cbn. by apply IH, parse_label_ok. }
  apply elem_of_map_to_list in Hq. by apply (Hf (MkLabelState ∅ ∅ ∅ []) (map_Forall_empty _) i q).
Qed.

(** ** The order of the labels *)

(** What a label is about.  Two labels about the same thing are resolved by the
    order of the loop. *)
Inductive slot := SPlain | SIndexed (idx : Z) | SConfig (idx : Z) (key : string) | SGlobal (key : string).

#[export] Instance slot_eq_dec : EqDecision slot.
Proof. solve_decision. Defined.

Definition slot_of (key : string) : option slot :=
  if negb (HasPrefix key labelPrefix) then None
  else
    let suffix := TrimPrefix key labelPrefix in
    if is_type suffix then Some SPlain
    else match indexed suffix with
         | Some (idx, rest) => Some (if is_type rest then SIndexed idx else SConfig idx rest)
         | None => Some (SGlobal suffix)
         end.

(** Equal but for the order of the errors. *)
Definition same_labels (s1 s2 : label_state) : Prop :=
  ls_endpointMap s1 = ls_endpointMap s2 ∧ ls_globalConfig s1 = ls_globalConfig s2
  ∧ ls_indexedConfigs s1 = ls_indexedConfigs s2 ∧ ls_parseErrors s1 ≡ₚ ls_parseErrors s2.

#[local] Instance same_labels_equiv : Equivalence same_labels.
Proof.
  split.
  - by intros s.
  - by intros s1 s2 (?&?&?&?).
  - intros s1 s2 s3 (H1&H2&H3&H4) (?&?&?&?). split_and!; [congruence..|by rewrite H4].
Qed.

(** What a label adds to the variables of the loop. *)
Inductive effect :=
  | ENone
  | EError (err : LabelParseError)
  | EPlain (ep : ParsedEndpoint)
  | EIndexed (idx : Z) (ep : ParsedEndpoint)
  | EConfig (idx : Z) (key value : string)
  | EGlobal (key value : string).

Definition effect_of (kv : string * string) : effect :=
  let '(key, value) := kv in
  let target ty f := match parseEndpointTarget key ty value with inr err => EError err | inl ep => f ep end in
  if negb (HasPrefix key labelPrefix) then ENone
  else
    let suffix := TrimPrefix key labelPrefix in
    if is_type suffix then target suffix (λ ep, EPlain (ep <| pe_Index := 0 |>))
    else match indexed suffix with
         | Some (idx, rest) =>
           if is_type rest then target rest (λ ep, EIndexed idx (ep <| pe_Index := idx |>)) else EConfig idx rest value
         | None => EGlobal suffix value
         end.

Definition apply_effect (s : label_state) (e : effect) : label_state :=
  match e with
  | ENone => s
  | EError err => s <| ls_parseErrors ::= λ l, l ++ [err] |>
  | EPlain ep => s <| ls_endpointMap ::= <[0 := ep]> |>
  | EIndexed idx ep =>
    if negb (bool_decide (idx = 0)) || bool_decide (ls_endpointMap s !! 0 = None)
    then s <| ls_endpointMap ::= <[idx := ep]> |> else s
  | EConfig idx k v => s <| ls_indexedConfigs ::= λ m, <[idx := <[k := v]> (default ∅ (m !! idx))]> m |>
  | EGlobal k v => s <| ls_globalConfig ::= <[k := v]> |>
  end.

Lemma parse_label_effect s kv : parse_label s kv = apply_effect s (effect_of kv).
Proof. destruct kv. unfold parse_label, effect_of. by repeat (case_match; simplify_eq/=). Qed.

Definition effect_slot (e : effect) : option slot :=
  match e with
  | ENone | EError _ => None
  | EPlain _ => Some SPlain
  | EIndexed idx _ => Some (SIndexed idx)
  | EConfig idx k _ => Some (SConfig idx k)
  | EGlobal k _ => Some (SGlobal k)
  end.

Lemma effect_slot_of kv sl : effect_slot (effect_of kv) = Some sl → slot_of kv.1 = Some sl.
Proof.
  destruct kv as [k v]. unfold effect_of, slot_of. cbn [fst]. destruct (negb (HasPrefix k labelPrefix)); [done|].
  generalize (TrimPrefix k labelPrefix). intros x. cbv zeta. destruct (is_type x).
  { destruct (parseEndpointTarget k x v); [exact id|done]. }
  destruct (indexed x) as [[idx rest]|]; [|exact id]. destruct (is_type rest); [|exact id].
  destruct (parseEndpointTarget k rest v); [exact id|done].
Qed.

#[local] Instance parse_label_proper : Proper (same_labels ==> (=) ==> same_labels) parse_label.
Proof.
  intros [m g c e1] [? ? ? e2] (H1&H2&H3&H4) kv _ <-. cbn in H1, H2, H3, H4. subst.
  rewrite !parse_label_effect. destruct (effect_of kv); cbn; try case_match; split_and!; cbn; try done.
  by rewrite H4.
Qed.

Lemma insert_nested (m : gmap Z (gmap string string)) i1 i2 k1 k2 v1 v2 :
  (i1 = i2 → k1 ≠ k2) →
  <[i2 := <[k2 := v2]> (default ∅ (<[i1 := <[k1 := v1]> (default ∅ (m !! i1))]> m !! i2))]>
    (<[i1 := <[k1 := v1]> (default ∅ (m !! i1))]> m)
  = <[i1 := <[k1 := v1]> (default ∅ (<[i2 := <[k2 := v2]> (default ∅ (m !! i2))]> m !! i1))]>
    (<[i2 := <[k2 := v2]> (default ∅ (m !! i2))]> m).
Proof.
  intros Hne. destruct (decide (i1 = i2)) as [->|Hi].
  - rewrite !lookup_insert_eq, !insert_insert_eq. cbn. by rewrite insert_insert_ne by (apply not_eq_sym; auto).
  - rewrite !lookup_insert_ne by done. by rewrite insert_insert_ne.
Qed.

(** Labels about different things commute. *)
Lemma apply_effect_comm s e1 e2 :
  (effect_slot e1 = effect_slot e2 → effect_slot e1 = None) →
  same_labels (apply_effect (apply_effect s e1) e2) (apply_effect (apply_effect s e2) e1).
Proof.
  intros Hne.
  assert (Hd : ∀ sl, effect_slot e1 = Some sl → effect_slot e2 = Some sl → False) by (intros; congruence || naive_solver congruence).
  destruct s as [m g c errs], e1, e2; cbn in Hd; clear Hne; cbn; repeat case_bool_decide; cbn; split_and!; cbn; try done;
    subst; simplify_map_eq; try done; try (by destruct (Hd _ eq_refl eq_refl)).
  all: try (rewrite insert_insert_ne; [done|]; intros ->; by destruct (Hd _ eq_refl eq_refl)).
  all: try (rewrite insert_insert_ne by done; done).
  - rewrite <- !app_assoc. f_equiv. apply Permutation_swap.
  - by rewrite insert_insert_eq.
  - by rewrite insert_insert_eq.
  - apply insert_nested. intros -> ->. by destruct (Hd _ eq_refl eq_refl).
Qed.

#[local] Instance parse_labels_proper l : Proper (same_labels ==> same_labels) (λ s, foldl parse_label s l).
Proof. induction l as [|kv l IH]; intros s1 s2 Hs; [done|]. cbn. apply IH. by rewrite Hs. Qed.

Lemma parse_labels_permutation l1 l2 s :
  l1 ≡ₚ l2 → NoDup (omap (slot_of ∘ fst) l1) →
  same_labels (foldl parse_label s l1) (foldl parse_label s l2).
Proof.
  intros Hp. revert s. induction Hp as [|kv l1 l2 Hp IH|kv1 kv2 l|l1 l2 l3 H1 IH1 _ IH2]; intros s Hnd.
  - reflexivity.
  - cbn in *. apply IH. by destruct (slot_of _); [apply NoDup_cons in Hnd as []|].
  - cbn in *. apply (parse_labels_proper l). rewrite !parse_label_effect. apply apply_effect_comm.
    intros He. destruct (effect_slot (effect_of kv2)) as [sl|] eqn:E; [|done].
    pose proof (effect_slot_of _ _ E) as E2. symmetry in He. apply effect_slot_of in He.
    rewrite E2, He in Hnd. apply NoDup_cons in Hnd as [Hn _]. set_solver.
  - etransitivity; [by apply IH1|]. apply IH2. by rewrite <- H1.
Qed.

(** What a container declares does not depend on the order in which the
    program happens to visit its labels, as long as no two of them are about the
    same thing: the endpoints are the same, the errors the same up to order. *)
Theorem labels_order_irrelevant l1 l2 :
  l1 ≡ₚ l2 → NoDup l1.*1 → NoDup (omap (slot_of ∘ fst) l1) →
  (ParseEndpointLabels l1).1 = (ParseEndpointLabels l2).1
  ∧ (ParseEndpointLabels l1).2 ≡ₚ (ParseEndpointLabels l2).2.
Proof.
  intros Hp Hk Hs. unfold ParseEndpointLabels.
  rewrite (list_to_map_proper l1 l2 Hk Hp). destruct (IgnoredByLabels _); [done|]. cbn.
  pose proof (parse_labels_permutation l1 l2 (MkLabelState ∅ ∅ ∅ []) Hp Hs) as (H1 & H2 & H3 & H4).
  split; [|done]. rewrite H1. apply list_fmap_ext. intros _ [i p] _. unfold endpoint_config. by rewrite H2, H3.
Qed.
End LabelsCorrect.

(** ** Examples *)

Module LabelsExample.

#[local] Instance parsers : Parsers := {|
  url_Parse s := match Cut s "://" with Some (scheme, rest) => Some (scheme, rest) | None => None end;
  ParseDuration s := (λ n, n * second) <$> Atoi s;
  json_headers _ := None;
|}.

Definition labels : list (string * string) :=
  [("maintenant.endpoint.http", "http://shop/"); ("maintenant.endpoint.1.tcp", "db:5432");
   ("maintenant.endpoint.interval", "60"); ("maintenant.endpoint.1.timeout", "90")].

Definition db_endpoint : ParsedEndpoint :=
  MkParsed "maintenant.endpoint.1.tcp" TypeTCP "db:5432"
    (DefaultConfig <| ec_Interval := 60 * second |> <| ec_Timeout := 60 * second |>) 1.

Lemma parsed_endpoints_safe_witness :
  db_endpoint ∈ (ParseEndpointLabels labels).1
  ∧ target_ok db_endpoint ∧ config_ok (pe_Config db_endpoint)
  ∧ ec_Timeout (pe_Config db_endpoint) ≤ ec_Interval (pe_Config db_endpoint).
Proof.
  assert (db_endpoint ∈ (ParseEndpointLabels labels).1) as Hin.
  { apply (list_elem_of_lookup_2 _ 0). vm_compute. reflexivity. }
  split; [exact Hin|]. exact (parsed_endpoints_safe labels db_endpoint Hin).
Defined.

Lemma labels_order_irrelevant_witness :
  NoDup labels.*1 ∧ NoDup (omap (slot_of ∘ fst) labels)
  ∧ (ParseEndpointLabels labels).1 = (ParseEndpointLabels (reverse labels)).1.
Proof.
  assert (NoDup labels.*1) as Hk by (apply (bool_decide_unpack _); vm_compute; exact I).
  assert (NoDup (omap (slot_of ∘ fst) labels)) as Hs by (apply (bool_decide_unpack _); vm_compute; exact I).
  split; [exact Hk|]. split; [exact Hs|].
  exact (proj1 (labels_order_irrelevant labels (reverse labels) (symmetry (reverse_Permutation labels)) Hk Hs)).
Defined.

(** Both labels are about the endpoint of index 0. *)
Definition both : list (string * string) :=
  [("maintenant.endpoint.http", "http://shop/"); ("maintenant.endpoint.tcp", "db:5432")].

Example order_decides :
  pe_Target <$> (ParseEndpointLabels both).1 = ["db:5432"]
  ∧ pe_Target <$> (ParseEndpointLabels (reverse both)).1 = ["http://shop/"].
Proof. split; vm_compute; reflexivity. Qed.
End LabelsExample.
