(* ===== verification/EndpointStore.v ===== *)
(** * Endpoints: the store

    [src/internal/store/endpoints.go]: the statements of the endpoint service.
    A row is kept as it is read back: a time column holds a time truncated to the
    second, and the configuration column holds the JSON text of the
    configuration, from which a field left out by [omitempty] comes back with its
    default value. *)

From S2P Require Import Prelude.
From S2P Require Import Tables.
From S2P Require Import GoStrings.
From S2P Require Import AlertModel.
From S2P Require Import Uid.
From S2P Require Import Endpoint.

#[local] Open Scope string_scope.
#[local] Open Scope list_scope.
#[local] Open Scope Z_scope.

(** [ConfigJSON] and back: what [scanEndpoint] reads from the column, starting
    from the default configuration. *)
Definition stored_config (c : EndpointConfig) : EndpointConfig :=
  c <| ec_Method := if bool_decide (ec_Method c = "") then ec_Method DefaultConfig else ec_Method c |>
    <| ec_ExpectedStatus := if bool_decide (ec_ExpectedStatus c = "") then ec_ExpectedStatus DefaultConfig
                            else ec_ExpectedStatus c |>
    <| ec_MaxRedirects := if bool_decide (ec_MaxRedirects c = 0) then ec_MaxRedirects DefaultConfig
                          else ec_MaxRedirects c |>.

Section Store.
Context `{!Uuid}.

(** The unique index on (agent, container, label). *)
Definition same_identity (e r : Endpoint) : bool :=
  bool_decide (ep_AgentID r = ep_AgentID e) && bool_decide (ep_ContainerName r = ep_ContainerName e)
  && bool_decide (ep_LabelKey r = ep_LabelKey e).

(** [INSERT ... ON CONFLICT(id) DO UPDATE]: a new row, or [upd] on the old one. *)
Definition upsert_endpoint (e : Endpoint) (upd : Endpoint → Endpoint) : M probing (result string) :=
  let! failed := fault in
  if failed then ret (Err EStore)
  else
    let! rows := gets db_endpoints in
    if bool_decide (ep_ID e ∈ table_ids rows) then
      do! modify (λ s, s <| db_endpoints ::= update_id (ep_ID e) upd |>) in ret (Ok (ep_ID e))
    else if existsb (same_identity e) rows then ret (Err EStore)
    else do! modify (λ s, s <| db_endpoints ::= λ l, l ++ [e] |>) in ret (Ok (ep_ID e)).

(** A row that has just been created: never checked, in the normal state. *)
Definition fresh_endpoint (id agentID containerName labelKey externalID endpointType target source name : string)
    (config : EndpointConfig) (firstSeen now_ : Z) : Endpoint :=
  MkEndpoint id containerName labelKey externalID endpointType target endpoint_StatusUnknown
    endpoint_AlertNormal 0 0 None None None "" (stored_config config) true (db_time firstSeen)
    (db_time now_) source name agentID.

Definition UpsertEndpoint (e : Endpoint) : M probing (result string) :=
  let agentID := uid_Agent (ep_AgentID e) in
  let id := EndpointLabel agentID (ep_ContainerName e) (ep_LabelKey e) in
  let! t := now in
  let firstSeen := if is_zero (ep_FirstSeenAt e) then t else ep_FirstSeenAt e in
  let source := if bool_decide (ep_Source e = "") then SourceLabel else ep_Source e in
  upsert_endpoint
    (fresh_endpoint id agentID (ep_ContainerName e) (ep_LabelKey e) (ep_ExternalID e)
      (ep_EndpointType e) (ep_Target e) source (ep_Name e) (ep_Config e) firstSeen t)
    (λ r, r <| ep_ExternalID := ep_ExternalID e |> <| ep_EndpointType := ep_EndpointType e |>
            <| ep_Target := ep_Target e |> <| ep_Config := stored_config (ep_Config e) |>
            <| ep_Active := true |> <| ep_LastSeenAt := db_time t |>).

Definition GetEndpointByID (id : string) : M probing (result (option Endpoint)) :=
  db_query (λ s, select_id id (db_endpoints s)).

Definition agent_target (agentID target : string) (e : Endpoint) : bool :=
  bool_decide (ep_AgentID e = uid_Agent agentID) && bool_decide (ep_Target e = target) && ep_Active e.

Definition GetActiveAgentEndpointByTarget (agentID target : string)
    : M probing (result (option Endpoint)) :=
  db_query (λ s, head (select_where (agent_target agentID target) (db_endpoints s))).

(** [ORDER BY container_name, label_key] and [ORDER BY label_key]. *)
Definition by_name : relation Endpoint := λ e1 e2,
  ep_ContainerName e1 ≠ ep_ContainerName e2 ∧ String.le (ep_ContainerName e1) (ep_ContainerName e2)
  ∨ ep_ContainerName e1 = ep_ContainerName e2 ∧ String.le (ep_LabelKey e1) (ep_LabelKey e2).
Definition by_label : relation Endpoint := λ e1 e2, String.le (ep_LabelKey e1) (ep_LabelKey e2).

#[local] Instance by_name_dec : RelDecision by_name.
Proof. intros ??. unfold by_name. apply _. Defined.
#[local] Instance by_label_dec : RelDecision by_label.
Proof. intros ??. unfold by_label. apply _. Defined.

(** [ListEndpoints] with only a source as its filter. *)
Definition ListEndpoints (source : string) : M probing (result (list Endpoint)) :=
  db_query (λ s, merge_sort by_name
    (select_where (λ e, ep_Active e && bool_decide (ep_Source e = source)) (db_endpoints s))).

Definition of_container (agentID externalID : string) (e : Endpoint) : bool :=
  bool_decide (ep_AgentID e = uid_Agent agentID) && bool_decide (ep_ExternalID e = externalID) && ep_Active e.

Definition ListEndpointsByExternalID (agentID externalID : string) : M probing (result (list Endpoint)) :=
  db_query (λ s, merge_sort by_label (select_where (of_container agentID externalID) (db_endpoints s))).

Definition CountStandaloneEndpoints : M probing (result Z) :=
  db_query (λ s, Z.of_nat (length
    (select_where (λ e, ep_Active e && bool_decide (ep_Source e = SourceStandalone)) (db_endpoints s)))).

Definition DeactivateEndpoint (id : string) : M probing (result unit) :=
  db_exec (λ s, s <| db_endpoints ::= update_id id (λ e, e <| ep_Active := false |>) |>).

(** The columns a check writes. *)
Definition checked_row (status alertState : string) (fails succs responseTimeMs : Z)
    (httpStatus : option Z) (lastError : string) (t : Z) (e : Endpoint) : Endpoint :=
  e <| ep_Status := status |> <| ep_AlertState := alertState |>
    <| ep_ConsecutiveFailures := fails |> <| ep_ConsecutiveSuccesses := succs |>
    <| ep_LastCheckAt := Some (db_time t) |> <| ep_LastResponseTimeMs := Some responseTimeMs |>
    <| ep_LastHTTPStatus := httpStatus |> <| ep_LastError := lastError |>.

Definition UpdateCheckResult (id status alertState : string) (fails succs responseTimeMs : Z)
    (httpStatus : option Z) (lastError : string) : M probing (result unit) :=
  let! t := now in
  db_exec (λ s, s <| db_endpoints ::= update_id id
    (checked_row status alertState fails succs responseTimeMs httpStatus lastError t) |>).

(** The columns of a result; a second result with the same id replaces the
    first, and a result of an endpoint that is gone is refused. *)
Definition check_columns (id : string) (r : CheckResult) : CheckResult :=
  MkCheckResult id (cr_EndpointID r) (cr_Success r) (cr_ResponseTimeMs r) (cr_HTTPStatus r)
    (cr_ErrorMessage r) (db_time (cr_Timestamp r)) false "" "" false.

Definition InsertCheckResult (r : CheckResult) : M probing (result string) :=
  let! id := (if bool_decide (cr_ID r = "") then new_uid else ret (cr_ID r)) in
  let! failed := fault in
  if failed then ret (Err EStore)
  else
    let! s := gets (λ s, s) in
    if negb (bool_decide (cr_EndpointID r ∈ table_ids (db_endpoints s))) then ret (Err EStore)
    else if bool_decide (id ∈ table_ids (db_checks s)) then
      do! modify (λ s, s <| db_checks ::= update_id id (λ _, check_columns id r) |>) in ret (Ok id)
    else do! modify (λ s, s <| db_checks ::= λ l, l ++ [check_columns id r] |>) in ret (Ok id).

Definition InsertStandaloneEndpoint (e : Endpoint) : M probing (result string) :=
  let agentID := uid_Agent (ep_AgentID e) in
  let! t := now in
  let! externalID := new_uid in
  let id := EndpointLabel agentID "" externalID in
  upsert_endpoint
    (fresh_endpoint id agentID "" externalID externalID (ep_EndpointType e) (ep_Target e)
      SourceStandalone (ep_Name e) (ep_Config e) t t)
    (λ r, r <| ep_EndpointType := ep_EndpointType e |> <| ep_Target := ep_Target e |>
            <| ep_Config := stored_config (ep_Config e) |> <| ep_Active := true |>
            <| ep_LastSeenAt := db_time t |> <| ep_Name := ep_Name e |>).

Definition live_standalone (id : string) (e : Endpoint) : bool :=
  bool_decide (ep_ID e = id) && bool_decide (ep_Source e = SourceStandalone) && ep_Active e.

Definition UpdateStandaloneEndpoint (id name target endpointType : string) (config : EndpointConfig)
    : M probing (result unit) :=
  let! t := now in
  let! failed := fault in
  if failed then ret (Err EStore)
  else
    let! rows := gets db_endpoints in
    if bool_decide (select_where (live_standalone id) rows = []) then ret (Err EStore)
    else
      do! modify (λ s, s <| db_endpoints ::= update_where (live_standalone id) (λ e,
        e <| ep_Name := name |> <| ep_Target := target |> <| ep_EndpointType := endpointType |>
          <| ep_Config := stored_config config |> <| ep_LastSeenAt := db_time t |>) |>) in
      ret (Ok tt).

Definition DeleteEndpoint (id : string) : M probing (result unit) :=
  do? db_exec (λ s, s <| db_checks ::= delete_where (λ r, bool_decide (cr_EndpointID r = id)) |>) in
  let! failed := fault in
  if failed then ret (Err EStore)
  else
    let! rows := gets db_endpoints in
    do! modify (λ s, s <| db_endpoints ::= delete_where (λ e, bool_decide (ep_ID e = id)) |>) in
    if bool_decide (id ∈ table_ids rows) then ret (Ok tt) else ret (Err EStore).
End Store.
