(* ===== verification/EndpointService.v ===== *)
(** * Endpoints: the service

    [src/internal/endpoint/service.go], [checker.go] and [agent_event.go], the
    detector of [src/internal/alert/endpoint_alerts.go] and the callbacks of
    [src/internal/app/wiring.go].  A probe is network I/O: its result is an
    argument.  [CheckNow] is split where the probe runs, so that other operations
    can run in between. *)

From S2P Require Import Prelude.
From S2P Require Import Tables.
From S2P Require Import GoStrings.
From S2P Require Import AlertModel.
From S2P Require Import Uid.
From S2P Require Import Endpoint.
From S2P Require Import EndpointLabels.
From S2P Require Import EndpointStore.

#[local] Open Scope string_scope.
#[local] Open Scope list_scope.
#[local] Open Scope Z_scope.

Definition EndpointDiscovered := "endpoint.discovered".
Definition EndpointStatusChanged := "endpoint.status_changed".
Definition EndpointRemoved := "endpoint.removed".
Definition endpoint_alert_event := "endpoint.alert".
Definition endpoint_recovery_event := "endpoint.recovery".
Definition EndpointConfigError := "endpoint.config_error".

Definition ErrNotStandalone := ESentinel "endpoint is not standalone".
Definition ErrEndpointLive := ESentinel "endpoint is still discovered from container labels".
Definition ErrEndpointNotFound := ESentinel "endpoint not found".
Definition ErrEndpointLimitReached := ESentinel "endpoint limit reached".
Definition ErrAgentProbed := ESentinel "endpoint is probed by a remote agent".
Definition ErrCheckInProgress := ESentinel "a check is already running for this endpoint".

(** [CanCreateEndpoint]. *)
Class EndpointLicense := CanCreateEndpoint : Z → bool.

(** ** The check engine *)

(** [AddEndpoint] replaces the goroutine of the endpoint, if it has one. *)
Definition AddEndpoint (ep : Endpoint) : M probing unit :=
  modify (λ s, s <| runners ::= <[ep_ID ep := ep]> |>).

Definition RemoveEndpoint (id : string) : M probing unit :=
  modify (λ s, s <| runners ::= delete id |>).

Definition ReconfigureEndpoint (ep : Endpoint) : M probing unit := AddEndpoint ep.

(** ** Callbacks *)

Definition emit_endpoint_event (eventType : string) (data : list (string * value)) : M probing unit :=
  modify (λ s, s <| ep_events ::= λ l, l ++ [(eventType, data)] |>).

Definition onEndpointRemoved (id : string) : M probing unit :=
  modify (λ s, s <| ep_removed ::= λ l, l ++ [id] |>).

Definition emitAlert (evt : Event) : M probing unit :=
  modify (λ s, s <| ep_alerts ::= λ l, l ++ [evt] |>).

(** ** Thresholds *)

Record EndpointAlert := MkEndpointAlert {
  ea_EndpointID : string;
  ea_ContainerName : string;
  ea_Target : string;
  ea_Type : string;
  ea_NewAlertState : string;
  ea_Failures : Z;
  ea_Successes : Z;
  ea_Threshold : Z;
  ea_LastError : string;
  ea_Timestamp : Z;
}.

Definition EvaluateCheckResult (now_ : Z) (ep : Endpoint) (result : CheckResult) : option EndpointAlert :=
  if negb (cr_Success result) then
    if bool_decide (ec_FailureThreshold (ep_Config ep) ≤ ep_ConsecutiveFailures ep)
       && bool_decide (ep_AlertState ep = endpoint_AlertNormal)
    then Some (MkEndpointAlert (ep_ID ep) (ep_ContainerName ep) (ep_Target ep) "alert"
      endpoint_AlertAlerting (ep_ConsecutiveFailures ep) 0 (ec_FailureThreshold (ep_Config ep))
      (cr_ErrorMessage result) now_)
    else None
  else
    if bool_decide (ec_RecoveryThreshold (ep_Config ep) ≤ ep_ConsecutiveSuccesses ep)
       && bool_decide (ep_AlertState ep = endpoint_AlertAlerting)
    then Some (MkEndpointAlert (ep_ID ep) (ep_ContainerName ep) (ep_Target ep) "recovery"
      endpoint_AlertNormal 0 (ep_ConsecutiveSuccesses ep) (ec_RecoveryThreshold (ep_Config ep))
      "" now_)
    else None.

Section Service.
Context `{Lib : !Parsers} `{Uid : !Uuid} `{Lic : !EndpointLicense}.
(** The text the alert engine stores for a map of details. *)
Context (json : list (string * value) → details).
(** The service has been started: new endpoints are probed. *)
Context (started : bool).

Definition trust_name (ep : Endpoint) : string :=
  if bool_decide (ep_ContainerName ep = "") then ep_Name ep else ep_ContainerName ep.

Definition endpointTrustEvent (ep : Endpoint) (result : CheckResult) : option Event :=
  let build severity isRecover message dets :=
    MkEvent "endpoint" "certificate_untrusted" severity isRecover message "endpoint" (ep_ID ep)
      (trust_name ep) (ep_AgentID ep) dets (cr_Timestamp result) in
  if cr_Degraded result then
    Some (build SeverityWarning false
      ("Endpoint " +:+ ep_Target ep +:+ " is reachable but its certificate is not trusted: "
         +:+ cr_DegradedReason result)
      (json [("target", VString (ep_Target ep)); ("reason", VString (cr_DegradedReason result))]))
  else if cr_Success result then
    Some (build SeverityInfo true
      ("Endpoint " +:+ ep_Target ep +:+ " now presents a trusted certificate") DetailsNil)
  else None.

Definition endpointThresholdAlert (ep : Endpoint) (al : EndpointAlert)
    : Event * string * list (string * value) :=
  let entityName := if bool_decide (ea_ContainerName al = "") then ep_Name ep else ea_ContainerName al in
  let build severity isRecover message dets :=
    MkEvent "endpoint" "consecutive_failure" severity isRecover message "endpoint" (ea_EndpointID al)
      entityName (ep_AgentID ep) (json dets) (ea_Timestamp al) in
  if bool_decide (ea_Type al = "alert") then
    (build SeverityCritical false
       ("Endpoint " +:+ ea_Target al +:+ " failed " +:+ fmt_d (ea_Failures al) +:+ " consecutive checks")
       [("target", VString (ea_Target al)); ("failures", VInt (ea_Failures al));
        ("threshold", VInt (ea_Threshold al)); ("last_error", VString (ea_LastError al))],
     endpoint_alert_event,
     [("endpoint_id", VString (ea_EndpointID al)); ("container_name", VString (ea_ContainerName al));
      ("target", VString (ea_Target al)); ("consecutive_failures", VInt (ea_Failures al));
      ("threshold", VInt (ea_Threshold al)); ("last_error", VString (ea_LastError al));
      ("timestamp", VTime (ea_Timestamp al))])
  else
    (build SeverityInfo true
       ("Endpoint " +:+ ea_Target al +:+ " recovered after " +:+ fmt_d (ea_Successes al)
          +:+ " consecutive successes")
       [("target", VString (ea_Target al)); ("successes", VInt (ea_Successes al));
        ("threshold", VInt (ea_Threshold al))],
     endpoint_recovery_event,
     [("endpoint_id", VString (ea_EndpointID al)); ("container_name", VString (ea_ContainerName al));
      ("target", VString (ea_Target al)); ("consecutive_successes", VInt (ea_Successes al));
      ("threshold", VInt (ea_Threshold al)); ("timestamp", VTime (ea_Timestamp al))]).

(** The callback installed by [wireEndpointEvents]. *)
Definition endpoint_alertCallback (ep : Endpoint) (result : CheckResult)
    : M probing (option (string * list (string * value))) :=
  do! match endpointTrustEvent ep result with Some evt => emitAlert evt | None => ret tt end in
  let! t := now in
  match EvaluateCheckResult t ep result with
  | None => ret None
  | Some al =>
    let '(evt, sseType, sseData) := endpointThresholdAlert ep al in
    do! emitAlert evt in
    ret (Some (sseType, sseData))
  end.

(** ** Check results *)

Definition statusForResult (result : CheckResult) : string :=
  if cr_Success result && cr_Degraded result then endpoint_StatusDegraded
  else if cr_Success result then endpoint_StatusUp
  else endpoint_StatusDown.

Definition status_changed_data (ep : Endpoint) (newStatus : string) (result : CheckResult)
    : list (string * value) :=
  [("endpoint_id", VString (ep_ID ep)); ("container_name", VString (ep_ContainerName ep));
   ("target", VString (ep_Target ep)); ("previous_status", VString (ep_Status ep));
   ("new_status", VString newStatus); ("response_time_ms", VInt (cr_ResponseTimeMs result));
   ("http_status", VIntPtr (cr_HTTPStatus result)); ("error", VString (cr_ErrorMessage result));
   ("timestamp", VTime (cr_Timestamp result)); ("agent_id", VString (cr_AgentID result))].

(** The alert half of [ProcessCheckResult]: the endpoint is read again. *)
Definition evaluate_alerts (endpointID newStatus : string) (result : CheckResult) : M probing unit :=
  let! updated := GetEndpointByID endpointID in
  match updated with
  | Ok (Some updated) =>
    let! r := endpoint_alertCallback updated result in
    match r with
    | None => ret tt
    | Some (eventType, eventData) =>
      let newAlertState :=
        if bool_decide (eventType = endpoint_alert_event) then endpoint_AlertAlerting
        else if bool_decide (eventType = endpoint_recovery_event) then endpoint_AlertNormal
        else ep_AlertState updated in
      do! UpdateCheckResult endpointID newStatus newAlertState (ep_ConsecutiveFailures updated)
            (ep_ConsecutiveSuccesses updated) (cr_ResponseTimeMs result) (cr_HTTPStatus result)
            (cr_ErrorMessage result) in
      emit_endpoint_event eventType eventData
    end
  | _ => ret tt
  end.

(** The counters after a result: failures, then successes. *)
Definition count_result (result : CheckResult) (ep : Endpoint) : Z * Z :=
  if cr_Success result then (0, wrap64 (ep_ConsecutiveSuccesses ep + 1))
  else (wrap64 (ep_ConsecutiveFailures ep + 1), 0).

Definition ProcessCheckResult (endpointID : string) (result : CheckResult) : M probing unit :=
  let! found := GetEndpointByID endpointID in
  match found with
  | Ok (Some ep) =>
    if cr_Replayed result then do! InsertCheckResult result in ret tt
    else
      let newStatus := statusForResult result in
      let '(fails, succs) := count_result result ep in
      do! UpdateCheckResult endpointID newStatus (ep_AlertState ep) fails succs
            (cr_ResponseTimeMs result) (cr_HTTPStatus result) (cr_ErrorMessage result) in
      do! InsertCheckResult result in
      when! negb (bool_decide (newStatus = ep_Status ep)) then
        emit_endpoint_event EndpointStatusChanged (status_changed_data ep newStatus result) in
      evaluate_alerts endpointID newStatus result
  | _ => ret tt
  end.

(** ** Discovery from labels *)

Definition by_key_of (existing : list Endpoint) : gmap string Endpoint :=
  foldl (λ m ep, <[ep_LabelKey ep := ep]> m) ∅ existing.

(** One definition of a local container. *)
Definition sync_parsed (containerName externalID : string) (existing : gmap string Endpoint)
    (p : ParsedEndpoint) : M probing unit :=
  let! r := UpsertEndpoint (MkEndpoint "" containerName (pe_LabelKey p) externalID (pe_EndpointType p)
    (pe_Target p) "" "" 0 0 None None None "" (pe_Config p) false zero_time zero_time "" "" "") in
  match r with
  | Err _ => ret tt
  | Ok id =>
    let! full := GetEndpointByID id in
    match full with
    | Ok (Some full) =>
      when! bool_decide (existing !! pe_LabelKey p = None) then
        emit_endpoint_event EndpointDiscovered
          [("endpoint_id", VString id); ("container_name", VString containerName);
           ("endpoint_type", VString (pe_EndpointType p)); ("target", VString (pe_Target p))] in
      if started then ReconfigureEndpoint full else ret tt
    | _ => ret tt
    end
  end.

Definition config_error_event (containerName : string) (agent : list (string * value))
    (pe : LabelParseError) : M probing unit :=
  let! t := now in
  emit_endpoint_event EndpointConfigError
    ([("endpoint_id", VNil); ("container_name", VString containerName);
      ("label_key", VString (le_LabelKey pe)); ("error", VString (le_Message pe))]
     ++ agent ++ [("timestamp", VTime t)]).

Definition SyncEndpoints (containerName externalID : string) (labels : list (string * string))
    : M probing unit :=
  let '(parsed, parseErrors) := ParseEndpointLabels labels in
  do! for_each parseErrors (config_error_event containerName []) in
  let! existing := ListEndpointsByExternalID LocalAgent externalID in
  match existing with
  | Err _ => ret tt
  | Ok existing =>
    let existingByKey := by_key_of existing in
    do! for_each parsed (sync_parsed containerName externalID existingByKey) in
    for_each (map_to_list existingByKey) (λ ke,
      let '(key, ep) := ke in
      if bool_decide (key ∈ pe_LabelKey <$> parsed) then ret tt
      else
        let! r := DeactivateEndpoint (ep_ID ep) in
        match r with
        | Err _ => ret tt
        | Ok _ =>
          do! RemoveEndpoint (ep_ID ep) in
          do! onEndpointRemoved (ep_ID ep) in
          emit_endpoint_event EndpointRemoved
            [("endpoint_id", VString (ep_ID ep)); ("container_name", VString containerName);
             ("reason", VString "label_removed")]
        end)
  end.

(** One definition of a remote agent's container: never probed from here. *)
Definition sync_agent_parsed (agentID containerName externalID : string)
    (existing : gmap string Endpoint) (p : ParsedEndpoint) : M probing unit :=
  let! r := UpsertEndpoint (MkEndpoint "" containerName (pe_LabelKey p) externalID (pe_EndpointType p)
    (pe_Target p) "" "" 0 0 None None None "" (pe_Config p) false zero_time zero_time "" "" agentID) in
  match r with
  | Err _ => ret tt
  | Ok id =>
    when! bool_decide (existing !! pe_LabelKey p = None) then
      emit_endpoint_event EndpointDiscovered
        [("endpoint_id", VString id); ("container_name", VString containerName);
         ("endpoint_type", VString (pe_EndpointType p)); ("target", VString (pe_Target p));
         ("agent_id", VString agentID)] in
    ret tt
  end.

Definition SyncAgentEndpoints (agentID containerName externalID : string)
    (labels : list (string * string)) : M probing unit :=
  let '(parsed, parseErrors) := ParseEndpointLabels labels in
  do! for_each parseErrors (config_error_event containerName [("agent_id", VString agentID)]) in
  let! existing := ListEndpointsByExternalID agentID externalID in
  match existing with
  | Err _ => ret tt
  | Ok existing =>
    let existingByKey := by_key_of existing in
    do! for_each parsed (sync_agent_parsed agentID containerName externalID existingByKey) in
    for_each (map_to_list existingByKey) (λ ke,
      let '(key, ep) := ke in
      if bool_decide (key ∈ pe_LabelKey <$> parsed) then ret tt
      else
        let! r := DeactivateEndpoint (ep_ID ep) in
        match r with
        | Err _ => ret tt
        | Ok _ =>
          do! onEndpointRemoved (ep_ID ep) in
          emit_endpoint_event EndpointRemoved
            [("endpoint_id", VString (ep_ID ep)); ("container_name", VString containerName);
             ("reason", VString "label_removed"); ("agent_id", VString agentID)]
        end)
  end.

(** ** Containers that stop, start and go *)

Definition HandleContainerStop (externalID : string) : M probing unit :=
  let! endpoints := ListEndpointsByExternalID LocalAgent externalID in
  match endpoints with
  | Err _ => ret tt
  | Ok endpoints =>
    for_each endpoints (λ ep,
      do! RemoveEndpoint (ep_ID ep) in
      do! UpdateCheckResult (ep_ID ep) endpoint_StatusUnknown (ep_AlertState ep)
            (ep_ConsecutiveFailures ep) (ep_ConsecutiveSuccesses ep) 0 None "container stopped" in
      let! t := now in
      emit_endpoint_event EndpointStatusChanged
        [("endpoint_id", VString (ep_ID ep)); ("container_name", VString (ep_ContainerName ep));
         ("target", VString (ep_Target ep)); ("previous_status", VString (ep_Status ep));
         ("new_status", VString endpoint_StatusUnknown); ("error", VString "container stopped");
         ("timestamp", VTime t)])
  end.

Definition HandleContainerStart (containerName externalID : string) (labels : list (string * string))
    : M probing unit :=
  SyncEndpoints containerName externalID labels.

Definition removed_data (ep : Endpoint) (reason : string) : list (string * value) :=
  [("endpoint_id", VString (ep_ID ep)); ("container_name", VString (ep_ContainerName ep));
   ("reason", VString reason)].

Definition HandleContainerDestroy (externalID : string) : M probing unit :=
  let! endpoints := ListEndpointsByExternalID LocalAgent externalID in
  match endpoints with
  | Err _ => ret tt
  | Ok endpoints =>
    for_each endpoints (λ ep,
      do! RemoveEndpoint (ep_ID ep) in
      do! DeactivateEndpoint (ep_ID ep) in
      do! onEndpointRemoved (ep_ID ep) in
      emit_endpoint_event EndpointRemoved (removed_data ep "container_destroyed"))
  end.

(** [seen] is the set of the external ids of a discovery pass. *)
Definition SweepOrphanedLabelEndpoints (seen : gset string) : M probing Z :=
  let! endpoints := ListEndpoints SourceLabel in
  match endpoints with
  | Err _ => ret 0
  | Ok endpoints =>
    for_acc endpoints 0 (λ swept ep,
      if bool_decide (ep_ExternalID ep ∈ seen) then ret swept
      else
        do! RemoveEndpoint (ep_ID ep) in
        let! r := DeactivateEndpoint (ep_ID ep) in
        match r with
        | Err _ => ret swept
        | Ok _ =>
          do! onEndpointRemoved (ep_ID ep) in
          do! emit_endpoint_event EndpointRemoved (removed_data ep "container_gone") in
          ret (swept + 1)
        end)
  end.

(** ** Standalone endpoints *)

(** [Start]: the standalone endpoints are probed again. *)
Definition endpoint_Start : M probing unit :=
  let! eps := ListEndpoints SourceStandalone in
  match eps with
  | Err _ => ret tt
  | Ok eps => for_each eps AddEndpoint
  end.

(** [Stop] of the check engine. *)
Definition endpoint_Stop : M probing unit := modify (λ s, s <| runners := ∅ |>).

Definition CreateStandalone (name target epType : string) (config : EndpointConfig)
    : M probing (result (option Endpoint)) :=
  let? count := CountStandaloneEndpoints in
  if negb (CanCreateEndpoint count) then ret (Err ErrEndpointLimitReached)
  else
    let? id := InsertStandaloneEndpoint (MkEndpoint "" "" "" "" epType target "" "" 0 0 None None
      None "" config false zero_time zero_time SourceStandalone name "") in
    let? full := GetEndpointByID id in
    do! (match full with
         | Some full => if started then AddEndpoint full else ret tt
         | None => ret tt
         end) in
    do! emit_endpoint_event EndpointDiscovered
      [("endpoint_id", VString id); ("endpoint_type", VString epType); ("target", VString target);
       ("source", VString "standalone"); ("name", VString name)] in
    ret (Ok full).

Definition UpdateStandalone (id name target epType : string) (config : EndpointConfig)
    : M probing (result (option Endpoint)) :=
  let? existing := GetEndpointByID id in
  match existing with
  | None => ret (Err ErrEndpointNotFound)
  | Some existing =>
    if negb (bool_decide (ep_Source existing = SourceStandalone)) then ret (Err ErrNotStandalone)
    else
      do? UpdateStandaloneEndpoint id name target epType config in
      let? full := GetEndpointByID id in
      do! (match full with
           | Some full => if started then ReconfigureEndpoint full else ret tt
           | None => ret tt
           end) in
      ret (Ok full)
  end.

Definition Delete (id : string) : M probing (result unit) :=
  let? existing := GetEndpointByID id in
  match existing with
  | None => ret (Err ErrEndpointNotFound)
  | Some existing =>
    if negb (bool_decide (ep_Source existing = SourceStandalone)) && ep_Active existing
    then ret (Err ErrEndpointLive)
    else
      do! RemoveEndpoint id in
      do! onEndpointRemoved id in
      do? DeleteEndpoint id in
      do! emit_endpoint_event EndpointRemoved
        [("endpoint_id", VString id); ("reason", VString "user_deleted")] in
      ret (Ok tt)
  end.

(** ** Checks on demand *)

(** Up to the probe: the endpoint to probe, marked as being checked. *)
Definition CheckNow_begin (id : string) : M probing (result Endpoint) :=
  let? found := GetEndpointByID id in
  match found with
  | None => ret (Err ErrEndpointNotFound)
  | Some ep =>
    if negb (bool_decide (ep_AgentID ep = "")) && negb (bool_decide (ep_AgentID ep = LocalAgent))
    then ret (Err ErrAgentProbed)
    else
      let! running := gets (λ s, bool_decide (id ∈ manualChecks s)) in
      if running then ret (Err ErrCheckInProgress)
      else
        do! modify (λ s, s <| manualChecks ::= union {[id]} |>) in
        if is_type (ep_EndpointType ep) then ret (Ok ep)
        else
          do! modify (λ s, s <| manualChecks ::= λ m, m ∖ {[id]} |>) in
          ret (Err (ESentinel ("unsupported endpoint type " +:+ ep_EndpointType ep)))
  end.

(** From the probe's result on. *)
Definition CheckNow_end (id : string) (probed : CheckResult) : M probing (result (option Endpoint)) :=
  do! ProcessCheckResult id probed in
  let! r := GetEndpointByID id in
  do! modify (λ s, s <| manualChecks ::= λ m, m ∖ {[id]} |>) in
  ret r.

(** ** Events of remote agents *)

Inductive EndpointStatus :=
  | ENDPOINT_STATUS_UNSPECIFIED
  | ENDPOINT_STATUS_UP
  | ENDPOINT_STATUS_DOWN
  | ENDPOINT_STATUS_DEGRADED.

#[export] Instance EndpointStatus_eq_dec : EqDecision EndpointStatus.
Proof. solve_decision. Defined.

(** The message of the protocol; the latency is an unsigned 64-bit number. *)
Record EndpointEvent := MkEndpointEvent {
  ee_Url : string;
  ee_Status : EndpointStatus;
  ee_StatusCode : Z;
  ee_LatencyMs : Z;
  ee_ErrorMessage : string;
}.

(** [agentevent.Meta]. *)
Record Meta := MkMeta { me_ObservedAt : Z; me_Replayed : bool; me_EventID : string }.

Definition HandleEndpointEvent (agentID : string) (ev : EndpointEvent) (meta : Meta)
    : M probing (result unit) :=
  if bool_decide (ee_Url ev = "") then ret (Ok tt)
  else
    let? found := GetActiveAgentEndpointByTarget agentID (ee_Url ev) in
    match found with
    | None => ret (Ok tt)
    | Some ep =>
      let degraded := bool_decide (ee_Status ev = ENDPOINT_STATUS_DEGRADED) in
      let id := if bool_decide (me_EventID meta = "") then ""
                else EventRecord agentID (me_EventID meta) ["check_result"] in
      do! ProcessCheckResult (ep_ID ep)
        (MkCheckResult id (ep_ID ep) (bool_decide (ee_Status ev = ENDPOINT_STATUS_UP) || degraded)
           (wrap64 (ee_LatencyMs ev)) (Some (ee_StatusCode ev)) (ee_ErrorMessage ev)
           (me_ObservedAt meta) degraded (ee_ErrorMessage ev) agentID (me_Replayed meta)) in
      ret (Ok tt)
    end.
End Service.
