(* ===== verification/EndpointCheck.v ===== *)
(** * Endpoints: what a check result does

    [step_check] is what one live result makes of a row, as a function of the
    row; without failures [ProcessCheckResult] leaves exactly that.  Over a
    history of results the alert state follows a rule that mentions neither
    counters nor states, and the alerts it sends are those of a tracker, so the
    alert engine mirrors the stored state. *)

From S2P Require Import Prelude.
From S2P Require Import Tables.
From S2P Require Import GoStrings.
From S2P Require Import AlertModel.
From S2P Require Import AlertStore.
From S2P Require Import AlertRouting.
From S2P Require Import AlertEngine.
From S2P Require Import AlertInvariant.
From S2P Require Import AlertCorrect.
From S2P Require Import AlertTracker.
From S2P Require Import TrackerMirror.
From S2P Require Import Uid.
From S2P Require Import Endpoint.
From S2P Require Import EndpointLabels.
From S2P Require Import EndpointStore.
From S2P Require Import EndpointService.

#[local] Open Scope string_scope.
#[local] Open Scope list_scope.
#[local] Open Scope Z_scope.

(** ** One row *)

(** Three readings of the clock: one per statement, one for the alert. *)
Record times := MkTimes { tm_store : Z; tm_alert : Z; tm_state : Z }.

Section Check.
Context (json : list (string * value) → details).

Definition counted_row (t : times) (r : CheckResult) (ep : Endpoint) : Endpoint :=
  let '(fails, succs) := count_result r ep in
  checked_row (statusForResult r) (ep_AlertState ep) fails succs (cr_ResponseTimeMs r)
    (cr_HTTPStatus r) (cr_ErrorMessage r) (tm_store t) ep.

Definition step_check (t : times) (r : CheckResult) (ep : Endpoint) : Endpoint :=
  let ep := counted_row t r ep in
  match EvaluateCheckResult (tm_alert t) ep r with
  | None => ep
  | Some al =>
    checked_row (statusForResult r) (ea_NewAlertState al) (ep_ConsecutiveFailures ep)
      (ep_ConsecutiveSuccesses ep) (cr_ResponseTimeMs r) (cr_HTTPStatus r) (cr_ErrorMessage r)
      (tm_state t) ep
  end.

Definition check_alerts (t : times) (r : CheckResult) (ep : Endpoint) : list Event :=
  let ep := counted_row t r ep in
  option_list (endpointTrustEvent json ep r)
  ++ match EvaluateCheckResult (tm_alert t) ep r with
     | None => []
     | Some al => [(endpointThresholdAlert json ep al).1.1]
     end.

Lemma step_check_id t r ep : ep_ID (step_check t r ep) = ep_ID ep.
Proof. unfold step_check, counted_row. destruct (count_result r ep). by repeat case_match. Qed.

(** ** A history of results *)

(** The newest results first; [true] is a success. *)
Fixpoint head_run (b : bool) (h : list bool) : Z :=
  match h with
  | [] => 0
  | x :: h => if bool_decide (x = b) then 1 + head_run b h else 0
  end.

(** An endpoint is alerting when, at some point, the last [F] results were all
    failures, and since then no [R] results in a row were successes. *)
Definition alerting_after (F R : nat) (h : list bool) : Prop :=
  ∃ recent old, h = recent ++ replicate F false ++ old
    ∧ ¬ ∃ l1 l2, recent = l1 ++ replicate R true ++ l2.

Lemma head_run_bounds b h : 0 ≤ head_run b h ≤ Z.of_nat (length h).
Proof. induction h as [|x h IH]; cbn; [done|]. case_bool_decide; lia. Qed.

Lemma head_run_same b h : head_run b (b :: h) = 1 + head_run b h.
Proof. cbn. by rewrite bool_decide_eq_true_2. Qed.

Lemma head_run_prefix b h n : Z.of_nat n ≤ head_run b h ↔ ∃ old, h = replicate n b ++ old.
Proof.
  revert n. induction h as [|x h IH]; intros n; cbn.
  - split; [intros; assert (n = 0%nat) as -> by lia; by exists []|]. intros [old Ho]. destruct n; [lia|done].
  - destruct n as [|n]; [split; [by exists (x :: h)|intros _]|].
    { case_bool_decide; [|lia]. pose proof (head_run_bounds b h). lia. }
    case_bool_decide as Hx; cbn.
    + subst x. split.
      * intros Hn. destruct (proj1 (IH n)) as [old ->]; [lia|]. by exists old.
      * intros [old [= Ho]]. assert (Z.of_nat n ≤ head_run b h); [|lia]. apply IH. by exists old.
    + split; [lia|]. intros [old [= -> _]]. done.
Qed.

Lemma alerting_failure F R h :
  (1 ≤ F)%nat → (1 ≤ R)%nat →
  alerting_after F R (false :: h) ↔ alerting_after F R h ∨ Z.of_nat F ≤ head_run false (false :: h).
Proof.
  intros HF HR. split.
  - intros ([|x recent] & old & Hh & Hno).
    + right. apply head_run_prefix. by exists old.
    + left. cbn in Hh. injection Hh as <- ->. exists recent, old. split; [done|].
      intros (l1 & l2 & ->). apply Hno. by exists (false :: l1), l2.
  - intros [(recent & old & -> & Hno)|[old Hh]%head_run_prefix].
    + exists (false :: recent), old. split; [done|]. intros ([|x l1] & l2 & Hr).
      * destruct R; [lia|done].
      * injection Hr as <- ->. apply Hno. by exists l1, l2.
    + exists [], old. split; [done|]. intros ([|] & l2 & Hr); [|done]. destruct R; [lia|done].
Qed.

Lemma alerting_success F R h :
  (1 ≤ F)%nat → (1 ≤ R)%nat →
  alerting_after F R (true :: h) ↔ alerting_after F R h ∧ head_run true (true :: h) < Z.of_nat R.
Proof.
  intros HF HR. split.
  - intros ([|x recent] & old & Hh & Hno); [destruct F; [lia|done]|].
    assert (x = true) as -> by (by injection Hh).
    assert (h = recent ++ replicate F false ++ old) as Hh' by (by injection Hh). split.
    + exists recent, old. split; [done|]. intros (l1 & l2 & ->). apply Hno. by exists (true :: l1), l2.
    + apply Z.nle_gt. intros [rest Hr]%head_run_prefix. apply Hno. exists []. cbn.
      rewrite Hh in Hr. destruct F as [|F]; [lia|].
      assert (R ≤ length (true :: recent))%nat as Hlen.
      { apply Nat.nlt_ge. intros Hlt.
        assert ((((true :: recent) ++ replicate (S F) false ++ old) !! length (true :: recent)) = Some false) as Hl.
        { by rewrite lookup_app_r, Nat.sub_diag by lia. }
        rewrite Hr, lookup_app_l in Hl by (rewrite length_replicate; lia).
        by apply lookup_replicate in Hl as [? _]. }
      exists (drop R (true :: recent)).
      rewrite <- (take_drop R (true :: recent)) at 1. f_equal.
      assert (take R ((true :: recent) ++ replicate (S F) false ++ old) = take R (replicate R true ++ rest)) as Ht
        by (by rewrite Hr).
      rewrite take_app_le in Ht by exact Hlen. rewrite take_app_le, (take_ge (replicate R true)) in Ht by (rewrite length_replicate; lia). exact Ht.
  - intros [(recent & old & -> & Hno) Hlt]. exists (true :: recent), old. split; [done|].
    intros ([|x l1] & l2 & Hr).
    + apply Z.lt_nge in Hlt. apply Hlt, head_run_prefix. exists (l2 ++ replicate F false ++ old).
      rewrite app_comm_cons, Hr. cbn [app]. by rewrite <- app_assoc.
    + injection Hr as <- ->. apply Hno. by exists l1, l2.
Qed.

Definition outcomes (h : list (times * CheckResult)) : list bool := cr_Success ∘ snd <$> h.

(** The row after a history, newest first. *)
Definition row_after (ep : Endpoint) (h : list (times * CheckResult)) : Endpoint :=
  foldr (λ tr ep, step_check tr.1 tr.2 ep) ep h.

(** A row that was never checked. *)
Definition unchecked (ep : Endpoint) : Prop :=
  ep_AlertState ep = endpoint_AlertNormal ∧ ep_ConsecutiveFailures ep = 0 ∧ ep_ConsecutiveSuccesses ep = 0.

Lemma step_check_fields t r ep :
  let ep' := step_check t r ep in
  let '(fails, succs) := count_result r ep in
  ep_ConsecutiveFailures ep' = fails ∧ ep_ConsecutiveSuccesses ep' = succs
  ∧ ep_Config ep' = ep_Config ep ∧ ep_Status ep' = statusForResult r
  ∧ ep_AlertState ep' =
      if cr_Success r then
        if bool_decide (ec_RecoveryThreshold (ep_Config ep) ≤ succs)
           && bool_decide (ep_AlertState ep = endpoint_AlertAlerting)
        then endpoint_AlertNormal else ep_AlertState ep
      else
        if bool_decide (ec_FailureThreshold (ep_Config ep) ≤ fails)
           && bool_decide (ep_AlertState ep = endpoint_AlertNormal)
        then endpoint_AlertAlerting else ep_AlertState ep.
Proof.
  unfold step_check, counted_row. destruct (count_result r ep) as [fails succs].
  unfold EvaluateCheckResult. cbn. destruct (cr_Success r); cbn; by destruct (bool_decide _ && bool_decide _).
Qed.

Lemma row_after_spec ep h F R :
  unchecked ep → Z.of_nat F = ec_FailureThreshold (ep_Config ep) → Z.of_nat R = ec_RecoveryThreshold (ep_Config ep) →
  (1 ≤ F)%nat → (1 ≤ R)%nat → Z.of_nat (length h) ≤ max_int64 →
  let ep' := row_after ep h in
  ep_Config ep' = ep_Config ep
  ∧ ep_ConsecutiveFailures ep' = head_run false (outcomes h)
  ∧ ep_ConsecutiveSuccesses ep' = head_run true (outcomes h)
  ∧ ((ep_AlertState ep' = endpoint_AlertAlerting ∧ alerting_after F R (outcomes h))
     ∨ (ep_AlertState ep' = endpoint_AlertNormal ∧ ¬ alerting_after F R (outcomes h))).
Proof.
  intros (Hn & Hf & Hs) HF HR HF1 HR1. cbv zeta. induction h as [|[t r] h IH]; intros Hlen.
  { split_and!; [done..|]. right. split; [done|]. intros (rec & old & Ho & _).
    destruct rec; [|done]. destruct F; [lia|done]. }
  destruct IH as (Hc & IHf & IHs & IHa); [cbn in Hlen; lia|]. cbn [row_after foldr outcomes fmap list_fmap].
  fold (row_after ep h). fold (outcomes h). cbn [compose snd fst].
  pose proof (step_check_fields t r (row_after ep h)) as Hstep. cbv zeta in Hstep.
  pose proof (head_run_bounds false (outcomes h)) as B1. pose proof (head_run_bounds true (outcomes h)) as B2.
  unfold outcomes in B1, B2. rewrite length_fmap in B1, B2. fold (outcomes h) in B1, B2. cbn in Hlen.
  unfold count_result in Hstep. rewrite Hc, IHf, IHs in Hstep. unfold compose. cbn [snd].
  destruct (cr_Success r); cbn in Hstep;
    rewrite wrap64_id in Hstep by (unfold min_int64, max_int64 in *; lia);
    destruct Hstep as (-> & -> & -> & _ & ->); cbn [cr_Success compose snd fst].
  - rewrite head_run_same. split_and!; [done|done|lia|]. rewrite alerting_success, head_run_same by done.
    destruct IHa as [[-> ?]|[-> ?]]; cbn; case_bool_decide; cbn; [right|left|right..]; (split; [done|]); [naive_solver lia..].
  - rewrite head_run_same. split_and!; [done|lia|done|]. rewrite alerting_failure, head_run_same by done.
    destruct IHa as [[-> ?]|[-> ?]]; cbn; case_bool_decide; cbn; [left|left|left|right]; (split; [done|]); naive_solver lia.
Qed.
End Check.

(** ** The handler *)

(** The tables of [w'] are those of [w] but for the row, and [alerts] were sent. *)
Record committed (id : string) (f : Endpoint → Endpoint) (alerts : list Event) (w w' : world probing) : Prop := {
  cm_rows : db_endpoints (w_st w') = update_id id f (db_endpoints (w_st w));
  cm_alerts : ep_alerts (w_st w') = ep_alerts (w_st w) ++ alerts;
  cm_runners : runners (w_st w') = runners (w_st w);
  cm_removed : ep_removed (w_st w') = ep_removed (w_st w);
  cm_env : w_env w' = w_env w;
}.

Lemma checked_row_id st al f s ms h err t e : ep_ID (checked_row st al f s ms h err t e) = ep_ID e.
Proof. done. Qed.

Lemma wp_UpdateCheckResult id st al f s ms h err (Q : result unit → world probing → Prop) w :
  fault_free w →
  (∀ t w', committed id (checked_row st al f s ms h err t) [] w w' → Q (Ok tt) w') →
  wp (UpdateCheckResult id st al f s ms h err) Q w.
Proof.
  intros Hff HQ. apply wp_bind, wp_now. intros w1 H1. apply wp_db_exec.
  - intros w2 _ []. eapply fault_free_env; [apply H1|done].
  - intros w2 (Hs & He & _). apply (HQ (env_now (w_env w) (w_tick w))).
    destruct H1 as (H1 & H2 & _). split; rewrite ?Hs, ?H1; cbn; rewrite ?app_nil_r; congruence || done.
Qed.

Lemma wp_InsertCheckResult r (Q : result string → world probing → Prop) w :
  fault_free w → (∀ res w', committed "" (λ e, e) [] w w' → Q res w') → wp (InsertCheckResult r) Q w.
Proof.
  intros Hff HQ.
  assert (∀ res s' (w' : world probing), w_st w' = s' → w_env w' = w_env w →
    db_endpoints s' = db_endpoints (w_st w) → ep_alerts s' = ep_alerts (w_st w) → runners s' = runners (w_st w) →
    ep_removed s' = ep_removed (w_st w) → Q res w') as Hdone.
  { intros res s' w' <- He Hr Ha Hru Hre. apply HQ. split; rewrite ?update_id_self, ?app_nil_r; done. }
  unfold InsertCheckResult. apply wp_bind.
  apply (wp_mono _ (λ _ w', same w w')).
  { case_bool_decide; [|by apply wp_ret]. by apply wp_new_uid. }
  intros id w1 H1. apply wp_bind, wp_fault. intros b w2 H2 Hb. pose proof (same_trans _ _ _ H1 H2) as (Hs & He & _).
  rewrite Hb by (eapply fault_free_env; [apply H1|done]).
  apply wp_bind, wp_gets. destruct (negb _).
  { apply wp_ret. eapply Hdone; [reflexivity|done|..]; by rewrite Hs. }
  case_bool_decide; (apply wp_bind, wp_modify, wp_ret; eapply Hdone; [reflexivity|done|..]; cbn; by rewrite Hs).
Qed.

Lemma wp_GetEndpointByID id (Q : result (option Endpoint) → world probing → Prop) w :
  fault_free w → (∀ w', same w w' → Q (Ok (select_id id (db_endpoints (w_st w)))) w') →
  wp (GetEndpointByID id) Q w.
Proof. intros Hff HQ. apply wp_db_query; [by intros ?? []|done]. Qed.

(** One step after another. *)
Lemma committed_trans id f g a b w1 w2 w3 :
  (∀ r, ep_ID (f r) = ep_ID r) → committed id f a w1 w2 → committed id g b w2 w3 → committed id (g ∘ f) (a ++ b) w1 w3.
Proof.
  intros Hf [R1 A1 U1 M1 E1] [R2 A2 U2 M2 E2]. split; [|rewrite A2, A1; by rewrite app_assoc|congruence..].
  rewrite R2, R1. by apply update_id_compose.
Qed.

Lemma committed_other id id' f a w1 w2 w3 :
  committed id f a w1 w2 → committed id' (λ e, e) [] w2 w3 → committed id f a w1 w3.
Proof.
  intros [R1 A1 U1 M1 E1] [R2 A2 U2 M2 E2]. rewrite update_id_self in R2. rewrite app_nil_r in A2.
  split; congruence.
Qed.

Lemma committed_same id w w' : same w w' → committed id (λ e, e) [] w w'.
Proof. intros (Hs & He & _). split; rewrite ?Hs, ?update_id_self, ?app_nil_r; done. Qed.

Lemma wp_emit_endpoint_event ty data (Q : unit → world probing → Prop) w :
  (∀ w', committed "" (λ e, e) [] w w' → Q tt w') → wp (emit_endpoint_event ty data) Q w.
Proof. intros HQ. apply wp_modify, HQ. split; cbn; rewrite ?update_id_self, ?app_nil_r; done. Qed.

Section Handler.
Context (json : list (string * value) → details).

Lemma threshold_state t ep r al :
  EvaluateCheckResult t ep r = Some al →
  (ea_Type al = "alert" ∧ ea_NewAlertState al = endpoint_AlertAlerting)
  ∨ (ea_Type al = "recovery" ∧ ea_NewAlertState al = endpoint_AlertNormal).
Proof.
  unfold EvaluateCheckResult. destruct (cr_Success r); cbn; (destruct (_ && _); [|done]); intros [= <-]; auto.
Qed.

Lemma counted_row_id t r ep : ep_ID (counted_row t r ep) = ep_ID ep.
Proof. unfold counted_row. by destruct (count_result r ep). Qed.

Lemma wp_evaluate_alerts id r t ep (Q : unit → world probing → Prop) w0 w :
  fault_free w0 → NoDup (table_ids (db_endpoints (w_st w0))) → select_id id (db_endpoints (w_st w0)) = Some ep →
  committed id (counted_row (MkTimes t 0 0) r) [] w0 w →
  (∀ t' w', tm_store t' = t → committed id (step_check t' r) (check_alerts json t' r ep) w0 w' → Q tt w') →
  wp (evaluate_alerts json id (statusForResult r) r) Q w.
Proof.
  intros Hff Hnd Hep Hc HQ. pose proof (fault_free_env w0 w (cm_env _ _ _ _ _ Hc) Hff) as Hw.
  assert (∀ t', tm_store t' = t → counted_row t' r = counted_row (MkTimes t 0 0) r) as Hcount.
  { by intros t' <-. }
  set (ep1 := counted_row (MkTimes t 0 0) r ep) in *.
  assert (select_id id (db_endpoints (w_st w)) = Some ep1) as Hsel.
  { rewrite (cm_rows _ _ _ _ _ Hc), select_id_update_eq, Hep; [done|].
    apply counted_row_id. }
  apply wp_bind, wp_GetEndpointByID; [done|]. intros w1 H1. rewrite Hsel.
  apply wp_bind. unfold endpoint_alertCallback. apply wp_bind.
  apply (wp_mono _ (λ _ w', committed id (counted_row (MkTimes t 0 0) r) (option_list (endpointTrustEvent json ep1 r)) w0 w')).
  { pose proof (committed_other _ _ _ _ _ _ _ Hc (committed_same "" _ _ H1)) as [R1 A1 U1 M1 E1].
    destruct (endpointTrustEvent json ep1 r); [apply wp_modify|apply wp_ret]; (split; cbn; try done).
    rewrite A1. by rewrite app_nil_r. }
  intros _ w2 H2. apply wp_bind, wp_now. intros w3 H3. set (t2 := env_now _ _).
  pose proof (committed_other _ _ _ _ _ _ _ H2 (committed_same "" _ _ H3)) as [R3 A3 U3 M3 E3].
  destruct (EvaluateCheckResult t2 ep1 r) as [al|] eqn:Hal.
  - destruct (endpointThresholdAlert json ep1 al) as [[evt ty] data] eqn:Hth.
    apply wp_bind, wp_modify, wp_ret. apply wp_bind. eapply wp_UpdateCheckResult; [by rewrite E3|].
    intros t3 w4 [R4 A4 U4 M4 E4]. cbn in R4, A4, U4, M4, E4. apply wp_emit_endpoint_event. intros w5 H5.
    apply (HQ (MkTimes t t2 t3)); [done|]. eapply committed_other; [|exact H5].
    split; [|rewrite A4, A3; unfold check_alerts; rewrite (Hcount (MkTimes t t2 t3)) by done; fold ep1|congruence..].
    + rewrite R4, R3, update_id_compose by (intros; apply counted_row_id).
      eapply update_id_ext; [done..|]. unfold step_check. rewrite (Hcount (MkTimes t t2 t3)) by done. cbn. fold ep1. rewrite Hal.
      f_equal. apply threshold_state in Hal. unfold endpointThresholdAlert in Hth.
      destruct Hal as [[Ht ->]|[Ht ->]]; rewrite Ht in Hth; by injection Hth as _ <- _.
    + cbn. rewrite Hal, Hth, app_nil_r. by rewrite <- app_assoc.
  - apply wp_ret, wp_ret. apply (HQ (MkTimes t t2 0)); [done|].
    split; [|rewrite A3; unfold check_alerts; rewrite (Hcount (MkTimes t t2 0)) by done; fold ep1; cbn; by rewrite Hal, app_nil_r|congruence..].
    rewrite R3. eapply update_id_ext; [done..|]. unfold step_check. rewrite (Hcount (MkTimes t t2 0)) by done. cbn. fold ep1. by rewrite Hal.
Qed.

(** A live result, of an endpoint that exists. *)
Lemma wp_ProcessCheckResult id r ep (Q : unit → world probing → Prop) w :
  fault_free w → NoDup (table_ids (db_endpoints (w_st w))) → select_id id (db_endpoints (w_st w)) = Some ep →
  cr_Replayed r = false →
  (∀ t w', committed id (step_check t r) (check_alerts json t r ep) w w' → Q tt w') →
  wp (ProcessCheckResult json id r) Q w.
Proof.
  intros Hff Hnd Hep Hlive HQ. unfold ProcessCheckResult. apply wp_bind, wp_GetEndpointByID; [done|].
  intros w1 H1. rewrite Hep, Hlive. destruct (count_result r ep) as [fails succs] eqn:Hcount.
  assert (fault_free w1) as Hff1 by (eapply fault_free_env; [apply H1|done]).
  apply wp_bind, wp_UpdateCheckResult; [done|]. intros t w2 H2.
  assert (fault_free w2) as Hff2 by (eapply fault_free_env; [apply H2|done]).
  apply wp_bind, wp_InsertCheckResult; [done|]. intros _ w3 H3.
  pose proof (committed_other _ _ _ _ _ _ _ H2 H3) as H23.
  assert (committed id (counted_row (MkTimes t 0 0) r) [] w w3) as Hw3.
  { destruct H1 as (Hs & He & _). destruct H23 as [R A U M E]. split; [rewrite R|rewrite A|rewrite U|rewrite M|rewrite E]; rewrite ?Hs; try done.
    eapply update_id_ext; [exact Hnd|exact Hep|]. unfold counted_row. by rewrite Hcount. }
  apply wp_bind.
  apply (wp_mono _ (λ _ w', committed id (counted_row (MkTimes t 0 0) r) [] w w')).
  { destruct (negb _); [|by apply wp_ret]. apply wp_emit_endpoint_event. intros w4 H4. by eapply committed_other. }
  intros _ w4 H4. apply (wp_evaluate_alerts id r t ep _ w); [done..|exact H4|]. intros t' w' _ Hc. by eapply HQ.
Qed.

(** A history of live results of one endpoint, oldest first. *)
Definition checks (id : string) (rs : list CheckResult) : M probing unit :=
  for_each rs (ProcessCheckResult json id).

(** The rows after a history, and the alerts sent on the way, oldest first. *)
Fixpoint history_alerts (h : list (times * CheckResult)) (ep : Endpoint) : list Event :=
  match h with
  | [] => []
  | (t, r) :: h => check_alerts json t r ep ++ history_alerts h (step_check t r ep)
  end.

Lemma wp_checks id rs ep (Q : unit → world probing → Prop) w :
  fault_free w → NoDup (table_ids (db_endpoints (w_st w))) → select_id id (db_endpoints (w_st w)) = Some ep →
  Forall (λ r, cr_Replayed r = false) rs →
  (∀ ts w', length ts = length rs →
     select_id id (db_endpoints (w_st w')) = Some (row_after ep (reverse (zip ts rs))) →
     ep_alerts (w_st w') = ep_alerts (w_st w) ++ history_alerts (zip ts rs) ep → w_env w' = w_env w → Q tt w') →
  wp (checks id rs) Q w.
Proof.
  intros Hff Hnd Hep Hlive. revert w ep Q Hff Hnd Hep.
  induction Hlive as [|r rs Hr Hrs IH]; intros w ep Q Hff Hnd Hep HQ; unfold checks; cbn.
  { apply wp_ret, (HQ []); [done|done|by rewrite app_nil_r|done]. }
  apply wp_bind. eapply wp_ProcessCheckResult; [done..|]. intros t w1 [R A U M E].
  assert (∀ x, ep_ID (step_check t r x) = ep_ID x) as Hid by apply step_check_id.
  apply (IH w1 (step_check t r ep)).
  - by eapply fault_free_env.
  - rewrite R. rewrite update_id_ids by done. done.
  - rewrite R, select_id_update_eq, Hep by done. done.
  - intros ts w' Hlen Hsel Hal Henv. apply (HQ (t :: ts)); [cbn; congruence| | |congruence].
    + change (zip (t :: ts) (r :: rs)) with ((t, r) :: zip ts rs). rewrite reverse_cons.
      unfold row_after in *. rewrite foldr_app. exact Hsel.
    + cbn. rewrite Hal, A. by rewrite app_assoc.
Qed.

(** C10: when nothing fails, the state of an endpoint after any history of live
    results is decided by the outcomes alone: it is alerting exactly when at some
    point the last [FailureThreshold] results were failures and no
    [RecoveryThreshold] successes in a row have come since; its counters are the
    lengths of the current streaks. *)
Theorem alert_hysteresis id rs ep w F R :
  fault_free w → NoDup (table_ids (db_endpoints (w_st w))) → select_id id (db_endpoints (w_st w)) = Some ep →
  Forall (λ r, cr_Replayed r = false) rs → unchecked ep →
  Z.of_nat F = ec_FailureThreshold (ep_Config ep) → Z.of_nat R = ec_RecoveryThreshold (ep_Config ep) →
  (1 ≤ F)%nat → (1 ≤ R)%nat → Z.of_nat (length rs) ≤ max_int64 →
  let w' := (checks id rs w).2 in
  let history := reverse (cr_Success <$> rs) in
  ∃ ep', select_id id (db_endpoints (w_st w')) = Some ep'
    ∧ (ep_AlertState ep' = endpoint_AlertAlerting ↔ alerting_after F R history)
    ∧ ep_ConsecutiveFailures ep' = head_run false history
    ∧ ep_ConsecutiveSuccesses ep' = head_run true history.
Proof.
  intros Hff Hnd Hep Hlive Hnew HF HR HF1 HR1 Hlen. cbv zeta.
  apply (wp_checks id rs ep (λ _ w', ∃ ep', select_id id (db_endpoints (w_st w')) = Some ep' ∧ _ ∧ _ ∧ _) w); [done..|].
  intros ts w' Hts Hsel _ _. eexists. split; [exact Hsel|].
  assert (outcomes (reverse (zip ts rs)) = reverse (cr_Success <$> rs)) as Hout.
  { unfold outcomes. rewrite fmap_reverse. f_equal. rewrite list_fmap_compose. f_equal. apply snd_zip. lia. }
  destruct (row_after_spec ep (reverse (zip ts rs)) F R) as (_ & Hf & Hs & Ha); [done..| |].
  { rewrite length_reverse, length_zip. lia. }
  rewrite Hout in Hf, Hs, Ha. split; [|done].
  destruct Ha as [[-> Ha]|[-> Ha]]; [tauto|]. split; [intros H; discriminate|tauto].
Qed.
End Handler.

(** ** The alerts of a history *)

Section Alerts.
Context (json : list (string * value) → details).

Definition failing_channel (id : string) : channel := ("consecutive_failure", id).

Definition is_alerting (ep : Endpoint) : bool := bool_decide (ep_AlertState ep = endpoint_AlertAlerting).

Definition endpoint_raised (c : channel) (ep : Endpoint) : bool :=
  bool_decide (c = failing_channel (ep_ID ep)) && is_alerting ep.

Definition endpoint_step (op : times * CheckResult) (ep : Endpoint) : Endpoint * output :=
  (step_check op.1 op.2 ep, MkOutput [] (check_alerts json op.1 op.2 ep)).

(** A crossed threshold: [b] is a raise, [negb b] a recovery. *)
Lemma evaluated t ep r al :
  EvaluateCheckResult t ep r = Some al →
  ∃ b, is_alerting ep = negb b ∧ ea_NewAlertState al = (if b then endpoint_AlertAlerting else endpoint_AlertNormal)
    ∧ ea_Type al = (if b then "alert" else "recovery") ∧ ea_EndpointID al = ep_ID ep.
Proof.
  unfold EvaluateCheckResult, is_alerting. destruct (cr_Success r); cbn.
  - destruct (bool_decide_reflect (ep_AlertState ep = endpoint_AlertAlerting)); [|by rewrite andb_false_r].
    destruct (bool_decide _); [|done]. intros [= <-]. by exists false.
  - destruct (bool_decide_reflect (ep_AlertState ep = endpoint_AlertNormal)) as [->|]; [|by rewrite andb_false_r].
    destruct (bool_decide _); [|done]. intros [= <-]. by exists true.
Qed.

Lemma endpoint_law c op ep :
  c.1 = "consecutive_failure" →
  goes "endpoint" (λ _, "endpoint") true endpoint_raised c ep (endpoint_step op ep).
Proof.
  intros Hc. destruct op as [t r]. unfold goes, endpoint_step, step_check, check_alerts. cbn [fst snd o_alerts].
  assert (endpoint_raised c ep = endpoint_raised c (counted_row t r ep)) as ->.
  { unfold endpoint_raised, counted_row, is_alerting. by destruct (count_result r ep). }
  generalize (counted_row t r ep). clear ep. intros ep.
  rewrite Forall_app, follow_app, follow_other.
  2: { intros e He. unfold endpointTrustEvent in He.
       repeat case_match; cbn in He; try (by apply elem_of_nil in He);
         apply list_elem_of_singleton in He as ->; apply bool_decide_eq_false_2; intros <-; discriminate. }
  cbn [mbind option_bind].
  assert (Forall (sent_by "endpoint" (λ _, "endpoint")) (option_list (endpointTrustEvent json ep r))) as Htrust.
  { unfold endpointTrustEvent. by repeat case_match; repeat constructor. }
  destruct (EvaluateCheckResult (tm_alert t) ep r) as [al|] eqn:Hal; [|by repeat split].
  assert (∃ b, is_alerting ep = negb b ∧ ea_NewAlertState al = (if b then endpoint_AlertAlerting else endpoint_AlertNormal)
    ∧ ea_Type al = (if b then "alert" else "recovery") ∧ ea_EndpointID al = ep_ID ep) as (b & Hb & Hn & Ht & Hid).
  { by apply (evaluated (tm_alert t) ep r). }
  assert (∃ e, (endpointThresholdAlert json ep al).1.1 = e ∧ sent_by "endpoint" (λ _, "endpoint") e
    ∧ channel_of e = failing_channel (ep_ID ep) ∧ ev_IsRecover e = negb b) as (e & -> & Hsent & Hch & Hrec).
  { unfold endpointThresholdAlert. rewrite Ht. destruct b; cbn; (eexists; split; [reflexivity|]);
      unfold channel_of; cbn; rewrite Hid; done. }
  split; [by rewrite Forall_singleton|]. cbn [follow]. unfold endpoint_raised, about, is_alerting in *.
  rewrite Hch, Hrec. cbn [ep_ID checked_row]. rewrite Hb. change (ep_ID (checked_row _ _ _ _ _ _ _ _ ep)) with (ep_ID ep).
  change (ep_AlertState (checked_row _ ?a _ _ _ _ _ _ ep)) with a. rewrite Hn.
  destruct (decide (failing_channel (ep_ID ep) = c)) as [<-|Hne].
  - rewrite !(bool_decide_eq_true_2 (failing_channel _ = _)) by done. by destruct b.
  - rewrite !bool_decide_eq_false_2 by congruence. done.
Qed.

#[export] Instance endpoint_tracker : Tracker Endpoint (times * CheckResult) := {|
  trk_strict := true;
  trk_step := endpoint_step;
  trk_raised := endpoint_raised;
  trk_covers c op ep := c.1 = "consecutive_failure";
  trk_source := "endpoint";
  trk_entity _ := "endpoint";
  trk_law := endpoint_law;
|}.

Lemma history_run h ep :
  trk_run (Tracker0 := endpoint_tracker) h ep
  = (row_after ep (reverse h), MkOutput [] (history_alerts json h ep)).
Proof.
  revert ep. induction h as [|[t r] h IH]; intros ep; [done|]. cbn [trk_run trk_step endpoint_tracker endpoint_step fst snd].
  rewrite IH. rewrite reverse_cons. unfold row_after. rewrite foldr_app. done.
Qed.

Context {Esc : Escalator} `{!EscalatorLaws Esc} (notifier broadcaster : bool).

(** C8: the alert engine and the endpoint's row agree.  When nothing fails, and
    no rule silences it, the engine that is handed the alerts of a history of
    checks has the alert of the endpoint live exactly when the stored row says
    alerting, provided this was so before the history. *)
Theorem endpoint_alert_live id rs ep (w : world probing) (we : world alerting) :
  fault_free w → NoDup (table_ids (db_endpoints (w_st w))) → select_id id (db_endpoints (w_st w)) = Some ep →
  Forall (λ r, cr_Replayed r = false) rs →
  engine_inv (engine_view (w_st we)) → healthy we → synced (engine_view (w_st we)) → db_silences (w_st we) = [] →
  let k := channel_key "endpoint" "endpoint" (failing_channel id) in
  let w' := (checks json id rs w).2 in
  let we' := feed notifier broadcaster (drop (length (ep_alerts (w_st w))) (ep_alerts (w_st w'))) we in
  (is_Some (live (w_st we) !! k) ↔ ep_AlertState ep = endpoint_AlertAlerting) →
  ∃ ep', select_id id (db_endpoints (w_st w')) = Some ep'
    ∧ (is_Some (live (w_st we') !! k) ↔ ep_AlertState ep' = endpoint_AlertAlerting).
Proof.
  intros Hff Hnd Hep Hlive Hinv Hh Hsy Hsil. cbv zeta. intros Hpre.
  apply (wp_checks json id rs ep (λ _ w', ∃ ep', select_id id (db_endpoints (w_st w')) = Some ep'
    ∧ (is_Some (live (w_st (feed _ _ (drop _ (ep_alerts (w_st w'))) we)) !! _) ↔ _)) w); [done..|].
  intros ts w' _ Hsel Hal _. eexists. split; [exact Hsel|]. rewrite Hal, drop_app_length.
  pose proof (trk_run_goes (Tracker0 := endpoint_tracker) (failing_channel id) (zip ts rs) ep) as Hgo.
  rewrite history_run in Hgo.
  assert (ep_ID ep = id) as Hid by (by apply select_id_Some in Hep as [_ E]).
  assert (∀ h, ep_ID (row_after ep h) = id) as Hid'.
  { intros h. unfold row_after. induction h as [|[t r] h IH]; [done|]. cbn. by rewrite step_check_id. }
  destruct Hgo as [Hall Hfol].
  { generalize ep. clear. induction (zip ts rs) as [|x l IH]; intros ep; [done|]. cbn. split; [done|apply IH]. }
  cbn [fst snd o_alerts trk_raised endpoint_tracker] in Hall, Hfol.
  unfold endpoint_raised in Hfol. rewrite Hid, Hid', bool_decide_eq_true_2 in Hfol by done. cbn [andb] in Hfol.
  destruct (feed_mirrors notifier broadcaster _ _ _ _ _ _ _ we Hinv Hall Hfol) as [H1 H2].
  cbn [trk_source trk_entity endpoint_tracker] in H1, H2. unfold is_alerting in *. rewrite !bool_decide_eq_true in H1, H2.
  split; [apply H1|apply H2]; tauto.
Qed.
End Alerts.
