(* ===== verification/EndpointRunners.v ===== *)
(** * Endpoints: whom the server probes

    Whatever operations run, in whatever order and whatever calls fail, every
    running probe is of an endpoint of the server's own agent whose row is
    active: an agent's endpoints are never dialled from the server, and no
    removed endpoint is still probed. *)

From S2P Require Import Prelude.
From S2P Require Import Tables.
From S2P Require Import GoStrings.
From S2P Require Import AlertModel.
From S2P Require Import Uid.
From S2P Require Import Endpoint.
From S2P Require Import EndpointLabels.
From S2P Require Import EndpointStore.
From S2P Require Import EndpointService.

#[local] Open Scope string_scope.
#[local] Open Scope list_scope.
#[local] Open Scope Z_scope.

Section Runners.
Context `{Lib : !Parsers} `{Uid : !Uuid} `{Lic : !EndpointLicense}.
Context (json : list (string * value) → details) (started : bool).
(** The enrolled agents.  A UUID of theirs is never one of the server's own. *)
Context (agents : gset string).
Context (agents_named : ∀ a, a ∈ agents → uid_Agent a = a).
Context (agent_ids_differ : ∀ a c k c' k', a ∈ agents → EndpointLabel a c k ≠ EndpointLabel LocalAgent c' k').

Definition row_ok (r : Endpoint) : Prop :=
  ep_ID r = EndpointLabel (ep_AgentID r) (ep_ContainerName r) (ep_LabelKey r)
  ∧ (ep_AgentID r = LocalAgent ∨ ep_AgentID r ∈ agents)
  ∧ (ep_Source r = SourceStandalone → ep_AgentID r = LocalAgent).

(** A row the server may probe. *)
Definition own (id : string) (r : Endpoint) : Prop :=
  ep_ID r = id ∧ ep_AgentID r = LocalAgent ∧ ep_Active r = true.

Record own_inv (s : probing) : Prop := {
  oi_ids : NoDup (table_ids (db_endpoints s));
  oi_rows : ∀ r, r ∈ db_endpoints s → row_ok r;
  oi_runners : ∀ id e, runners s !! id = Some e →
    ep_ID e = id ∧ ep_AgentID e = LocalAgent ∧ ∃ r, r ∈ db_endpoints s ∧ own id r;
}.

(** ** Elementary changes *)

(** An update that keeps who a row is about. *)
Definition keeps_row (f : Endpoint → Endpoint) : Prop := ∀ r,
  ep_ID (f r) = ep_ID r ∧ ep_AgentID (f r) = ep_AgentID r ∧ ep_ContainerName (f r) = ep_ContainerName r
  ∧ ep_LabelKey (f r) = ep_LabelKey r ∧ ep_Source (f r) = ep_Source r.

Lemma keeps_row_ok f r : keeps_row f → row_ok r → row_ok (f r).
Proof. intros Hf. destruct (Hf r) as (E1&E2&E3&E4&E5). unfold row_ok. by rewrite E1, E2, E3, E4, E5. Qed.

Lemma oi_update s s' p f :
  own_inv s → db_endpoints s' = update_where p f (db_endpoints s) → runners s' ⊆ runners s → keeps_row f →
  (∀ r, r ∈ db_endpoints s → p r = true → ep_Active r = true → ep_Active (f r) = true ∨ runners s' !! ep_ID r = None
    ∨ ep_AgentID r ≠ LocalAgent) →
  own_inv s'.
Proof.
  intros [Hi Hr Hu] Hs Hsub Hf Ha. split; rewrite Hs.
  - rewrite update_where_ids; [done|]. intros r. apply Hf.
  - intros r' (r & Hin & ->)%update_where_elem. destruct (p r); [apply keeps_row_ok|]; auto.
  - intros id e He. destruct (Hu id e) as (E1 & E2 & r & Hin & <- & Hag & Hact).
    { by eapply lookup_weaken. }
    split_and!; [done..|]. exists (if p r then f r else r).
    split; [apply update_where_elem; eauto|]. destruct (p r) eqn:Hp; [|done].
    destruct (Hf r) as (F1 & F2 & _). unfold own. rewrite F1, F2.
    destruct (Ha r Hin Hp Hact) as [?|[Hn|Hn]]; [done|congruence|done].
Qed.

(** Nothing about the endpoints changed. *)
Lemma oi_same s s' :
  own_inv s → db_endpoints s' = db_endpoints s → runners s' ⊆ runners s → own_inv s'.
Proof.
  intros Hs Hr Hu. apply (oi_update s s' (λ _, false) (λ r, r)); [done| |done|by repeat split|by intros].
  by rewrite update_where_id_fun.
Qed.

Lemma oi_runner s e :
  own_inv s → e ∈ db_endpoints s → own (ep_ID e) e → own_inv (s <| runners ::= <[ep_ID e := e]> |>).
Proof.
  intros [Hi Hr Hu] Hin He. split; cbn; [done..|]. intros id e' Hl.
  destruct (decide (ep_ID e = id)) as [<-|Hne].
  - rewrite lookup_insert_eq in Hl. injection Hl as <-. split; [done|]. split; [apply He|by exists e].
  - rewrite lookup_insert_ne in Hl by done. by apply Hu.
Qed.

Lemma oi_insert s r :
  own_inv s → row_ok r → ep_ID r ∉ table_ids (db_endpoints s) →
  own_inv (s <| db_endpoints ::= λ l, l ++ [r] |>).
Proof.
  intros [Hi Hr Hu] Hok Hn. split; cbn.
  - eapply insert_row_ids; [by apply insert_row_Some|done].
  - intros r' [Hin|Hin%list_elem_of_singleton]%elem_of_app; [by apply Hr|by subst].
  - intros id e He. destruct (Hu id e He) as (?&?&r'&Hin&Ho). split_and!; [done..|].
    exists r'. split; [|done]. apply elem_of_app. by left.
Qed.

(** A row whose identifier is one of the server's own is the server's. *)
Lemma local_row s r c k :
  own_inv s → r ∈ db_endpoints s → ep_ID r = EndpointLabel LocalAgent c k → ep_AgentID r = LocalAgent.
Proof.
  intros Hs Hin Hid. destruct (oi_rows s Hs r Hin) as (Hr & [Ha|Ha] & _); [done|].
  rewrite Hid in Hr. symmetry in Hr. by apply agent_ids_differ in Hr.
Qed.

Abbreviation ok m := (steps (keeps own_inv) m).

Lemma ok_update p f : keeps_row f → (∀ r, ep_Active (f r) = ep_Active r ∨ ep_Active (f r) = true) →
  ok (db_exec (λ s, s <| db_endpoints ::= update_where p f |>)).
Proof.
  intros Hf Ha. apply steps_db_exec; [apply _|]. intros s Hs.
  apply (oi_update s _ p f); [done|done|done|done|]. intros r _ _ Hr. left. destruct (Ha r); congruence.
Qed.

Lemma ok_same (f : probing → probing) :
  (∀ s, db_endpoints (f s) = db_endpoints s) → (∀ s, runners (f s) ⊆ runners s) → ok (modify f).
Proof. intros H1 H2. apply steps_modify. intros s Hs. by eapply oi_same. Qed.

Lemma ok_RemoveEndpoint id : ok (RemoveEndpoint id).
Proof. apply ok_same; [done|]. intros s. apply delete_subseteq. Qed.
Lemma ok_emit ty data : ok (emit_endpoint_event ty data).
Proof. by apply ok_same. Qed.
Lemma ok_removed id : ok (onEndpointRemoved id).
Proof. by apply ok_same. Qed.
Lemma ok_emitAlert evt : ok (emitAlert evt).
Proof. by apply ok_same. Qed.

Lemma ok_UpdateCheckResult id st al f s ms h err : ok (UpdateCheckResult id st al f s ms h err).
Proof.
  apply steps_bind; [apply _|apply steps_now; apply _|]. intros t. apply ok_update; [by repeat split|by left].
Qed.

Lemma ok_InsertCheckResult r : ok (InsertCheckResult r).
Proof. unfold InsertCheckResult. steps_tac; intros ?; by eapply oi_same. Qed.
Hint Resolve ok_RemoveEndpoint ok_emit ok_removed ok_emitAlert ok_UpdateCheckResult ok_InsertCheckResult : steps.

Lemma ok_alertCallback ep r : ok (endpoint_alertCallback json ep r).
Proof. unfold endpoint_alertCallback. steps_tac. Qed.
Hint Resolve ok_alertCallback : steps.

Lemma ok_ProcessCheckResult id r : ok (ProcessCheckResult json id r).
Proof. unfold ProcessCheckResult, evaluate_alerts, GetEndpointByID. steps_tac. Qed.
Hint Resolve ok_ProcessCheckResult : steps.

(** ** Retiring and probing *)

(** The row of an agent. *)
Lemma ok_deactivate_remote a c k : a ∈ agents → ok (DeactivateEndpoint (EndpointLabel a c k)).
Proof.
  intros Ha. apply steps_db_exec; [apply _|]. intros s Hs.
  eapply oi_update; [exact Hs|reflexivity|done|by repeat split|].
  intros r Hin Hr%bool_decide_eq_true _. right; right. intros Hl.
  destruct (oi_rows s Hs r Hin) as (Hid & _). change (ep_ID r = EndpointLabel a c k) in Hr. rewrite Hr, Hl in Hid. by apply agent_ids_differ in Hid.
Qed.

Lemma steps_remove_deactivate {A} id (k : result unit → M probing A) :
  (∀ r, ok (k r)) → ok (do! RemoveEndpoint id in let! r := DeactivateEndpoint id in k r).
Proof.
  intros Hk w. apply (wp_bind (RemoveEndpoint id) _ (λ _ w', keeps own_inv (w_st w) (w_st w') ∧ w_env w' = w_env w)).
  apply wp_modify_put. intros w1 (H1 & E1 & _). apply wp_bind.
  assert (Hdone : ∀ w2 : world probing, keeps own_inv (w_st w) (w_st w2) → w_env w2 = w_env w →
    ∀ r, wp (k r) (λ _ w', keeps own_inv (w_st w) (w_st w') ∧ w_env w' = w_env w) w2).
  { intros w2 Hkp E2 r. destruct (Hk r w2) as [H3 E3]. split; [by etransitivity|congruence]. }
  apply wp_db_exec.
  - intros w2 (H2 & E2 & _) _. apply Hdone; [|congruence]. rewrite H2, H1. intros Hs.
    eapply oi_same; [exact Hs|done|apply delete_subseteq].
  - intros w2 (H2 & E2 & _). apply Hdone; [|congruence]. rewrite H2, H1. intros Hs. cbn.
    eapply (oi_update (w_st w) _ _ (λ e, e <| ep_Active := false |>)); [exact Hs|reflexivity|apply delete_subseteq|by repeat split|].
    intros r _ Hr%bool_decide_eq_true _. right; left. cbn.
    change (ep_ID r = id) in Hr. rewrite Hr. apply lookup_delete_eq.
Qed.

Lemma steps_deactivate_remove {A} id (k1 : M probing A) (k2 : error → M probing A) :
  ok k1 → (∀ e, ok (k2 e)) →
  ok (let! r := DeactivateEndpoint id in
      match r with Err e => k2 e | Ok _ => do! RemoveEndpoint id in k1 end).
Proof.
  intros H1 H2 w. apply (wp_bind (DeactivateEndpoint id) _ (λ _ w', keeps own_inv (w_st w) (w_st w') ∧ w_env w' = w_env w)).
  apply wp_db_exec.
  - intros w1 (Hs1 & E1 & _) _. destruct (H2 EStore w1) as [H3 E3]. rewrite Hs1 in H3. split; [done|congruence].
  - intros w1 (Hs1 & E1 & _). apply wp_bind, wp_modify_put. intros w2 (Hs2 & E2 & _).
    destruct (H1 w2) as [H3 E3]. split; [|congruence]. etransitivity; [|exact H3]. rewrite Hs2, Hs1. intros Hs. cbn.
    eapply (oi_update (w_st w) _ _ (λ e, e <| ep_Active := false |>)); [exact Hs|reflexivity|apply delete_subseteq|by repeat split|].
    intros r _ Hr%bool_decide_eq_true _. right; left. cbn.
    change (ep_ID r = id) in Hr. rewrite Hr. apply lookup_delete_eq.
Qed.

(** *** Rules for computations whose steps need the invariant *)

Definition safe {A} (m : M probing A) : Prop :=
  ∀ w, own_inv (w_st w) → wp m (λ _ w', own_inv (w_st w')) w.

Lemma ok_safe {A} (m : M probing A) : ok m → safe m.
Proof. intros Hm w. apply Hm. Qed.

Lemma own_safe_bind {A B} (m : M probing A) (k : A → M probing B) : safe m → (∀ a, safe (k a)) → safe (bind m k).
Proof. intros Hm Hk w Hw. apply Hk. by apply Hm. Qed.

Lemma own_safe_for_each {A} (l : list A) (body : A → M probing unit) :
  (∀ a, safe (body a)) → safe (for_each l body).
Proof. intros Hb. induction l as [|a l IH]; [by intros w|]. apply own_safe_bind; [apply Hb|done]. Qed.

Lemma wp_assoc {A B C} (m : M probing A) (f : A → M probing B) (k : B → M probing C) Q w :
  wp (let! a := m in let! b := f a in k b) Q w → wp (bind (bind m f) k) Q w.
Proof. done. Qed.

(** A row that may be probed was just created or reactivated under [id]. *)
Definition live_row (id : string) (s : probing) : Prop :=
  ∃ r, r ∈ db_endpoints s ∧ ep_ID r = id ∧ ep_Active r = true.

Lemma wp_upsert_endpoint e upd (Q : result string → world probing → Prop) w :
  row_ok e → ep_Active e = true → keeps_row upd → (∀ r, ep_Active (upd r) = true) → own_inv (w_st w) →
  (∀ w', own_inv (w_st w') → Q (Err EStore) w') →
  (∀ w', own_inv (w_st w') → live_row (ep_ID e) (w_st w') → Q (Ok (ep_ID e)) w') →
  wp (upsert_endpoint e upd) Q w.
Proof.
  intros He Hact Hupd Hua Hw Herr Hk.
  unfold upsert_endpoint. apply wp_bind, wp_fault. intros b w1 (H1 & _ & _) _.
  destruct b; [apply wp_ret, Herr; by rewrite H1|].
  apply wp_bind, wp_gets. case_bool_decide as Hin.
  - apply wp_bind, wp_modify_put. intros w2 (H2 & _ & _). apply wp_ret, Hk.
    + rewrite H2, H1. eapply (oi_update (w_st w)); [exact Hw|reflexivity|done|done|]. intros. by left.
    + rewrite H1 in Hin. apply list_elem_of_fmap in Hin as (r & Hr & Hin).
      exists (upd r). rewrite H2, H1. cbn. destruct (Hupd r) as (Hid & _). split_and!; [|by rewrite Hid, Hr|done].
      apply update_where_elem. exists r. split; [done|]. by rewrite bool_decide_eq_true_2.
  - destruct (existsb _ _); [apply wp_ret, Herr; by rewrite H1|].
    apply wp_bind, wp_modify_put. intros w2 (H2 & _ & _). apply wp_ret, Hk.
    + rewrite H2, H1. apply oi_insert; [done..|]. by rewrite H1 in Hin.
    + exists e. rewrite H2. cbn. split; [|done]. apply elem_of_app. right. by left.
Qed.

Lemma wp_probe id c l (Q : result (option Endpoint) → world probing → Prop) w :
  own_inv (w_st w) → id = EndpointLabel LocalAgent c l → live_row id (w_st w) →
  (∀ w', own_inv (w_st w') → Q (Err EStore) w') →
  (∀ r w', own_inv (w_st w') → r ∈ db_endpoints (w_st w') → own (ep_ID r) r → Q (Ok (Some r)) w') →
  wp (GetEndpointByID id) Q w.
Proof.
  intros Hw Hid (r & Hin & Hr & Hact) Herr Hk. apply wp_db_query.
  - intros w1 (H1 & _ & _) _. apply Herr. by rewrite H1.
  - intros w1 (H1 & _ & _). pose proof (select_id_elem _ r (oi_ids _ Hw) Hin) as Hsel.
    change (row_id r) with (ep_ID r) in Hsel. rewrite Hr in Hsel. rewrite Hsel. apply Hk; rewrite ?H1; [done|done|].
    split; [done|]. split; [|done]. eapply local_row; [exact Hw|done|by rewrite Hr].
Qed.

Lemma wp_AddEndpoint r (Q : unit → world probing → Prop) w :
  own_inv (w_st w) → r ∈ db_endpoints (w_st w) → own (ep_ID r) r →
  (∀ w', own_inv (w_st w') → Q tt w') → wp (AddEndpoint r) Q w.
Proof. intros Hw Hin Hr HQ. apply wp_modify, HQ. by apply oi_runner. Qed.

(** *** The handlers *)

Lemma safe_sync_parsed name x existing p : safe (sync_parsed started name x existing p).
Proof.
  intros w Hw. unfold sync_parsed, UpsertEndpoint. cbn [ep_AgentID ep_ContainerName ep_LabelKey ep_FirstSeenAt ep_Source].
  change (uid_Agent "") with LocalAgent. apply wp_assoc, wp_bind, wp_now. intros w1 (H1 & _ & _).
  apply wp_bind, wp_upsert_endpoint; [split; [done|split; [by left|done]]|done|by repeat split|done|by rewrite H1|by intros|].
  intros w2 Hw2 Hlive. cbn [ep_ID fresh_endpoint] in *. apply wp_bind. eapply wp_probe; [done|reflexivity|done|by intros|].
  intros r w3 Hw3 Hin Hr. apply wp_bind. apply (wp_mono _ (λ _ w', own_inv (w_st w') ∧ r ∈ db_endpoints (w_st w'))).
  { case_bool_decide; [|by apply wp_ret]. apply wp_modify. split; [by eapply oi_same|done]. }
  intros _ w4 [Hw4 Hin4]. destruct started; [|by apply wp_ret]. by apply wp_AddEndpoint.
Qed.

Lemma safe_sync_agent_parsed a name x existing p :
  a ∈ agents → safe (sync_agent_parsed a name x existing p).
Proof.
  intros Ha w Hw. unfold sync_agent_parsed, UpsertEndpoint. cbn [ep_AgentID ep_ContainerName ep_LabelKey ep_FirstSeenAt ep_Source].
  rewrite agents_named by done. apply wp_assoc, wp_bind, wp_now. intros w1 (H1 & _ & _).
  apply wp_bind, wp_upsert_endpoint; [split; [done|split; [by right|done]]|done|by repeat split|done|by rewrite H1|by intros|].
  intros w2 Hw2 _. apply wp_bind. apply (wp_mono _ (λ _ w', own_inv (w_st w'))); [|by intros].
  case_bool_decide; [by apply ok_safe; auto with steps|by apply wp_ret].
Qed.

Lemma by_key_elem l key e : by_key_of l !! key = Some e → e ∈ l.
Proof.
  unfold by_key_of. assert (∀ m : gmap string Endpoint, foldl (λ m ep, <[ep_LabelKey ep := ep]> m) m l !! key = Some e → m !! key = Some e ∨ e ∈ l) as H.
  { induction l as [|x l IH]; intros m; cbn; [by left|]. intros [Hm|Hm]%IH; [|by right; right].
    apply lookup_insert_Some in Hm as [[_ <-]|[_ Hm]]; [by right; left|by left]. }
  intros Hl. destruct (H ∅ Hl) as [He|He]; [by rewrite lookup_empty in He|done].
Qed.

Lemma ok_config_error name dets pe : ok (config_error_event name dets pe).
Proof. unfold config_error_event. steps_tac. Qed.
Hint Resolve ok_config_error : steps.

Lemma safe_SyncEndpoints name x labels : safe (SyncEndpoints started name x labels).
Proof.
  unfold SyncEndpoints. destruct (ParseEndpointLabels labels) as [parsed errors].
  apply own_safe_bind; [apply own_safe_for_each; intros; apply ok_safe; auto with steps|]. intros _.
  apply own_safe_bind; [apply ok_safe; unfold ListEndpointsByExternalID; steps_tac|]. intros [existing|]; [|by intros w].
  apply own_safe_bind; [apply own_safe_for_each, safe_sync_parsed|]. intros _.
  apply own_safe_for_each. intros [key ep]. apply ok_safe. case_bool_decide; [steps_tac|].
  eapply steps_deactivate_remove; steps_tac.
Qed.

(** The rows an agent's handler lists are the agent's. *)
Lemma wp_agent_rows a x (Q : result (list Endpoint) → world probing → Prop) w :
  a ∈ agents → own_inv (w_st w) → (∀ w', own_inv (w_st w') → Q (Err EStore) w') →
  (∀ l w', own_inv (w_st w') → (∀ e, e ∈ l → ∃ c k, ep_ID e = EndpointLabel a c k) → Q (Ok l) w') →
  wp (ListEndpointsByExternalID a x) Q w.
Proof.
  intros Ha Hw Herr Hok. apply wp_db_query.
  - intros w1 (H1 & _ & _) _. apply Herr. by rewrite H1.
  - intros w1 (H1 & _ & _). apply Hok; [by rewrite H1|]. intros e He. rewrite merge_sort_Permutation in He.
    apply select_where_elem in He as [Hin Hp]. unfold of_container in Hp. rewrite agents_named in Hp by done.
    apply andb_true_iff in Hp as [[Hag _]%andb_true_iff _]. apply bool_decide_eq_true in Hag.
    destruct (oi_rows _ Hw e Hin) as (Hid & _). rewrite Hag in Hid. by eexists _, _.
Qed.

Lemma safe_SyncAgentEndpoints a name x labels : a ∈ agents → safe (SyncAgentEndpoints a name x labels).
Proof.
  intros Ha. unfold SyncAgentEndpoints. destruct (ParseEndpointLabels labels) as [parsed errors].
  apply own_safe_bind; [apply own_safe_for_each; intros; apply ok_safe; auto with steps|]. intros _.
  intros w Hw. apply wp_bind, wp_agent_rows; [done|done|by intros|]. intros existing w1 Hw1 Hall.
  apply own_safe_bind; [apply own_safe_for_each; intros; by apply safe_sync_agent_parsed|intros _|done].
  intros w2 Hw2. eapply (wp_for_each _ _ (λ w', own_inv (w_st w'))); [|done].
  intros [key ep] w3 Hk Hw3. apply elem_of_map_to_list, by_key_elem in Hk. destruct (Hall ep Hk) as (c & k & Hid).
  apply ok_safe; [|done]. case_bool_decide; [steps_tac|]. rewrite Hid.
  apply steps_bind; [apply _|by apply ok_deactivate_remote|]. intros [[]|]; steps_tac.
Qed.

Lemma safe_HandleContainerStop x : safe (HandleContainerStop x).
Proof. apply ok_safe. unfold HandleContainerStop, ListEndpointsByExternalID. steps_tac. Qed.

Lemma safe_HandleContainerDestroy x : safe (HandleContainerDestroy x).
Proof.
  apply ok_safe. unfold HandleContainerDestroy, ListEndpointsByExternalID.
  apply steps_bind; [apply _|steps_tac|]. intros [eps|]; [|steps_tac].
  apply steps_for_each; [apply _|]. intros ep. apply steps_remove_deactivate. intros r. steps_tac.
Qed.

Lemma safe_Sweep seen : safe (SweepOrphanedLabelEndpoints seen).
Proof.
  apply ok_safe. unfold SweepOrphanedLabelEndpoints, ListEndpoints.
  apply steps_bind; [apply _|steps_tac|]. intros [eps|]; [|steps_tac].
  apply steps_for_acc; [apply _|]. intros n ep. case_bool_decide; [steps_tac|].
  apply steps_remove_deactivate. intros [|]; steps_tac.
Qed.

Lemma standalone_own s r :
  own_inv s → r ∈ db_endpoints s → ep_Source r = SourceStandalone → ep_Active r = true → own (ep_ID r) r.
Proof. intros Hs Hin Hsrc Hact. split; [done|]. split; [|done]. by apply (oi_rows s Hs r Hin). Qed.

Lemma safe_Start : safe endpoint_Start.
Proof.
  intros w Hw. unfold endpoint_Start. apply wp_bind, wp_db_query.
  { intros w1 (H1 & _ & _) _. apply wp_ret. by rewrite H1. }
  intros w1 (H1 & _ & _). set (eps := merge_sort _ _).
  apply (wp_mono _ (λ _ w', own_inv (w_st w') ∧ db_endpoints (w_st w') = db_endpoints (w_st w))); [|by intros ? ? [? ?]].
  apply (wp_for_each _ _ (λ w', own_inv (w_st w') ∧ db_endpoints (w_st w') = db_endpoints (w_st w))); [|by rewrite H1].
  intros ep w2 Hep [Hw2 Hrows]. unfold eps in Hep. rewrite merge_sort_Permutation in Hep.
  apply select_where_elem in Hep as [Hin [Hact Hsrc]%andb_true_iff]. apply bool_decide_eq_true in Hsrc.
  apply wp_modify. split; [|done]. apply oi_runner; [done|by rewrite Hrows|].
  eapply standalone_own; [exact Hw|done..].
Qed.

Lemma safe_Stop : safe endpoint_Stop.
Proof. apply ok_safe, ok_same; [done|]. intros s. apply map_empty_subseteq. Qed.

Lemma safe_CreateStandalone name target ty cfg : safe (CreateStandalone started name target ty cfg).
Proof.
  unfold CreateStandalone. apply own_safe_bind; [apply ok_safe; unfold CountStandaloneEndpoints; steps_tac|].
  intros [count|]; [|by intros w]. destruct (negb _); [by intros w|].
  intros w Hw. unfold InsertStandaloneEndpoint. cbn [ep_AgentID]. change (uid_Agent "") with LocalAgent.
  apply wp_assoc, wp_bind, wp_now. intros w1 (H1 & _ & _).
  apply wp_assoc, wp_bind, wp_new_uid. intros w2 (H2 & _ & _) _.
  apply wp_bind, wp_upsert_endpoint; [split; [done|split; [by left|done]]|done|by repeat split|done|by rewrite H2, H1| |].
  { intros w3 Hw3. by apply wp_ret. }
  intros w3 Hw3 Hlive. cbn [ep_ID fresh_endpoint] in *. apply wp_bind. eapply wp_probe; [done|reflexivity|done| |].
  { intros w4 Hw4. by apply wp_ret. }
  intros r w4 Hw4 Hin Hr. apply wp_bind. apply (wp_mono _ (λ _ w', own_inv (w_st w'))).
  { destruct started; [by apply wp_AddEndpoint|by apply wp_ret]. }
  intros _ w5 Hw5. apply ok_safe; [steps_tac|done].
Qed.

Lemma safe_UpdateStandalone id name target ty cfg : safe (UpdateStandalone started id name target ty cfg).
Proof.
  intros w Hw. unfold UpdateStandalone. apply wp_bind, wp_db_query.
  { intros w1 (H1 & _ & _) _. apply wp_ret. by rewrite H1. }
  intros w1 (H1 & _ & _). destruct (select_id id (db_endpoints (w_st w))) as [r|] eqn:Hr.
  2: { apply wp_ret. by rewrite H1. }
  destruct (bool_decide_reflect (ep_Source r = SourceStandalone)) as [Hsrc|]; cbn [negb].
  2: { apply wp_ret. by rewrite H1. }
  apply wp_bind. unfold UpdateStandaloneEndpoint. apply wp_bind, wp_now. intros w2 (H2 & _ & _).
  apply wp_bind, wp_fault. intros b w3 (H3 & _ & _) _. destruct b; [apply wp_ret, wp_ret; by rewrite H3, H2, H1|].
  assert (w_st w3 = w_st w) as Hs by congruence. rewrite <- Hs in Hw, Hr.
  apply wp_bind, wp_gets. case_bool_decide as Hnone; [by apply wp_ret, wp_ret|].
  assert (live_standalone id r = true) as Hlive.
  { destruct (select_where _ _) as [|x l] eqn:Hx; [done|].
    assert (x ∈ select_where (live_standalone id) (db_endpoints (w_st w3))) as Hin by (rewrite Hx; left).
    apply select_where_elem in Hin as [Hin Hl]. pose proof (select_id_elem _ x (oi_ids _ Hw) Hin) as Hsel.
    pose proof Hl as [[Hid _]%andb_true_iff _]%andb_true_iff. apply bool_decide_eq_true in Hid.
    change (row_id x) with (ep_ID x) in Hsel. rewrite Hid, Hr in Hsel. by injection Hsel as ->. }
  apply wp_bind, wp_modify_put. intros w4 (H4 & _ & _). apply wp_ret.
  set (f := λ e : Endpoint, e <| ep_Name := name |> <| ep_Target := target |> <| ep_EndpointType := ty |>
    <| ep_Config := stored_config cfg |> <| ep_LastSeenAt := _ |>) in H4.
  assert (own_inv (w_st w4)) as Hw4.
  { rewrite H4. eapply (oi_update (w_st w3)); [exact Hw|reflexivity|done|by repeat split|]. intros x _ _ Hx. by left. }
  apply select_id_Some in Hr as [Hin Hid].
  assert (f r ∈ db_endpoints (w_st w4)) as Hin4.
  { rewrite H4. apply update_where_elem. exists r. by rewrite Hlive. }
  assert (own (ep_ID (f r)) (f r)) as Hown.
  { eapply standalone_own; [exact Hw4|done..|]. by apply andb_true_iff in Hlive as [_ ?]. }
  apply wp_bind, wp_db_query. { intros w5 (H5 & _ & _) _. apply wp_ret. by rewrite H5. }
  intros w5 (H5 & _ & _). pose proof (select_id_elem _ _ (oi_ids _ Hw4) Hin4) as Hsel.
  change (row_id (f r)) with (row_id r) in Hsel. rewrite Hid in Hsel. rewrite Hsel.
  apply wp_bind. destruct started; [|apply wp_ret, wp_ret; by rewrite H5].
  apply wp_AddEndpoint; rewrite ?H5; [done..|]. intros w6 Hw6. by apply wp_ret.
Qed.

Lemma safe_Delete id : safe (Delete id).
Proof.
  unfold Delete. apply own_safe_bind; [apply ok_safe; unfold GetEndpointByID; steps_tac|].
  intros [[r|]|]; [|by intros w..]. case_match; [by intros w|].
  intros w Hw. apply wp_bind, wp_modify_put. intros w1 (H1 & _ & _).
  assert (own_inv (w_st w1) ∧ runners (w_st w1) !! id = None) as [Hw1 Hn1].
  { rewrite H1. split; [|apply lookup_delete_eq]. eapply oi_same; [exact Hw|done|apply delete_subseteq]. }
  apply wp_bind, wp_modify_put. intros w2 (H2 & _ & _).
  assert (own_inv (w_st w2) ∧ runners (w_st w2) !! id = None) as [Hw2 Hn2].
  { rewrite H2. split; [|done]. by eapply oi_same. }
  unfold DeleteEndpoint. apply wp_assoc, wp_bind, wp_db_exec.
  { intros w3 (H3 & _ & _) _. apply wp_ret. by rewrite H3. }
  intros w3 (H3 & _ & _). apply wp_assoc, wp_bind, wp_fault. intros b w4 (H4 & _ & _) _.
  assert (own_inv (w_st w4) ∧ runners (w_st w4) !! id = None) as [Hw4 Hn4].
  { rewrite H4, H3. split; [|done]. by eapply oi_same. }
  destruct b; [by apply wp_ret|].
  apply wp_assoc, wp_bind, wp_gets. apply wp_assoc, wp_bind, wp_modify_put. intros w5 (H5 & _ & _).
  assert (own_inv (w_st w5)) as Hw5.
  { rewrite H5. destruct Hw4 as [Hi Hrow Hru]. split; cbn.
    - by apply delete_where_ids.
    - intros x [Hx _]%delete_where_elem. by apply Hrow.
    - intros id' e He. destruct (Hru id' e He) as (?&?&x&Hx&Ho). split_and!; [done..|]. exists x. split; [|done].
      apply delete_where_elem. split; [done|]. apply bool_decide_eq_false_2. destruct Ho as [<- _].
      intros Hd. rewrite Hd in He. congruence. }
  apply ok_safe; [case_bool_decide; steps_tac|done].
Qed.

Lemma safe_CheckNow_begin id : safe (CheckNow_begin id).
Proof. apply ok_safe. unfold CheckNow_begin, GetEndpointByID. steps_tac; intros ?; by eapply oi_same. Qed.

Lemma safe_CheckNow_end id r : safe (CheckNow_end json id r).
Proof. apply ok_safe. unfold CheckNow_end, GetEndpointByID. steps_tac; intros ?; by eapply oi_same. Qed.

Lemma safe_HandleEndpointEvent a ev meta : safe (HandleEndpointEvent json a ev meta).
Proof. apply ok_safe. unfold HandleEndpointEvent, GetActiveAgentEndpointByTarget. steps_tac. Qed.

(** ** Every sequence of operations *)

Inductive endpoint_op :=
  | OpSync (name externalID : string) (labels : list (string * string))
  | OpSyncAgent (agentID name externalID : string) (labels : list (string * string))
  | OpContainerStop (externalID : string)
  | OpContainerDestroy (externalID : string)
  | OpSweep (seen : gset string)
  | OpStart
  | OpStop
  | OpCreate (name target epType : string) (config : EndpointConfig)
  | OpUpdate (id name target epType : string) (config : EndpointConfig)
  | OpDelete (id : string)
  | OpResult (id : string) (r : CheckResult)
  | OpCheckBegin (id : string)
  | OpCheckEnd (id : string) (r : CheckResult)
  | OpAgentEvent (agentID : string) (ev : EndpointEvent) (meta : Meta).

Definition ignoring {A} (m : M probing A) : M probing unit := let! _ := m in ret tt.

Definition endpoint_handler (op : endpoint_op) : M probing unit :=
  match op with
  | OpSync name x labels => SyncEndpoints started name x labels
  | OpSyncAgent a name x labels => SyncAgentEndpoints a name x labels
  | OpContainerStop x => HandleContainerStop x
  | OpContainerDestroy x => HandleContainerDestroy x
  | OpSweep seen => ignoring (SweepOrphanedLabelEndpoints seen)
  | OpStart => endpoint_Start
  | OpStop => endpoint_Stop
  | OpCreate name target ty cfg => ignoring (CreateStandalone started name target ty cfg)
  | OpUpdate id name target ty cfg => ignoring (UpdateStandalone started id name target ty cfg)
  | OpDelete id => ignoring (Delete id)
  | OpResult id r => ProcessCheckResult json id r
  | OpCheckBegin id => ignoring (CheckNow_begin id)
  | OpCheckEnd id r => ignoring (CheckNow_end json id r)
  | OpAgentEvent a ev meta => ignoring (HandleEndpointEvent json a ev meta)
  end.

Definition endpoint_run (ops : list endpoint_op) : M probing unit := for_each ops endpoint_handler.

(** The agent ids an operation names are those of enrolled agents. *)
Definition known_agent (op : endpoint_op) : Prop :=
  match op with OpSyncAgent a _ _ _ => a ∈ agents | _ => True end.

Lemma safe_ignoring {A} (m : M probing A) : safe m → safe (ignoring m).
Proof. intros Hm. apply own_safe_bind; [exact Hm|]. by intros a w. Qed.

Lemma safe_handler op : known_agent op → safe (endpoint_handler op).
Proof.
  destruct op; cbn [known_agent endpoint_handler]; intros Hop.
  - apply safe_SyncEndpoints.
  - by apply safe_SyncAgentEndpoints.
  - apply safe_HandleContainerStop.
  - apply safe_HandleContainerDestroy.
  - apply safe_ignoring, safe_Sweep.
  - apply safe_Start.
  - apply safe_Stop.
  - apply safe_ignoring, safe_CreateStandalone.
  - apply safe_ignoring, safe_UpdateStandalone.
  - apply safe_ignoring, safe_Delete.
  - apply ok_safe, ok_ProcessCheckResult.
  - apply safe_ignoring, safe_CheckNow_begin.
  - apply safe_ignoring, safe_CheckNow_end.
  - apply safe_ignoring, safe_HandleEndpointEvent.
Qed.

(** C9: whatever operations the endpoint service runs, in whatever order, and
    whatever calls to the store fail, it only probes endpoints of its own agent
    whose rows are active. *)
Theorem probes_only_its_own ops (w : world probing) :
  own_inv (w_st w) → Forall known_agent ops →
  ∀ id e, runners (w_st (endpoint_run ops w).2) !! id = Some e →
    ep_ID e = id ∧ ep_AgentID e = LocalAgent
    ∧ ∃ r, r ∈ db_endpoints (w_st (endpoint_run ops w).2) ∧ own id r.
Proof.
  intros Hw Hops. apply oi_runners. rewrite Forall_forall in Hops.
  apply (wp_for_each ops endpoint_handler (λ w', own_inv (w_st w')) w); [|done].
  intros op w' Hop Hw'. apply safe_handler; [by apply Hops|done].
Qed.
End Runners.
