(* ===== verification/EndpointCorrect.v ===== *)
(** * Endpoints: discovery and examples

    Without failures, a synchronisation leaves exactly the endpoints the labels
    of a container declare.  Then concrete runs: the witnesses of the theorems
    about endpoints, and situations in which the code does not do what it means
    to. *)

From S2P Require Import Prelude.
From S2P Require Import Tables.
From S2P Require Import GoStrings.
From S2P Require Import AlertModel.
From S2P Require Import AlertStore.
From S2P Require Import AlertRouting.
From S2P Require Import AlertEngine.
From S2P Require Import AlertInvariant.
From S2P Require Import AlertCorrect.
From S2P Require Import AlertTracker.
From S2P Require Import TrackerMirror.
From S2P Require Import Uid.
From S2P Require Import Endpoint.
From S2P Require Import EndpointLabels.
From S2P Require Import EndpointStore.
From S2P Require Import EndpointService.
From S2P Require Import EndpointCheck.
From S2P Require Import EndpointRunners.

#[local] Open Scope string_scope.
#[local] Open Scope list_scope.
#[local] Open Scope Z_scope.

Section Sync.
Context `{Lib : !Parsers} `{Uid : !Uuid} (started : bool).
Context (name externalID : string).

Definition label_id (key : string) : string := EndpointLabel LocalAgent name key.

(** The row of a declared endpoint. *)
Definition declares (p : ParsedEndpoint) (r : Endpoint) : Prop :=
  ep_ID r = label_id (pe_LabelKey p) ∧ ep_AgentID r = LocalAgent ∧ ep_ContainerName r = name
  ∧ ep_LabelKey r = pe_LabelKey p ∧ ep_ExternalID r = externalID ∧ ep_Active r = true
  ∧ ep_EndpointType r = pe_EndpointType p ∧ ep_Target r = pe_Target p
  ∧ ep_Config r = stored_config (pe_Config p).

(** One definition, as a function of the rows. *)
Definition sync_row (t : Z) (p : ParsedEndpoint) (rows : list Endpoint) : list Endpoint :=
  if bool_decide (label_id (pe_LabelKey p) ∈ table_ids rows) then
    update_id (label_id (pe_LabelKey p)) (λ r,
      r <| ep_ExternalID := externalID |> <| ep_EndpointType := pe_EndpointType p |>
        <| ep_Target := pe_Target p |> <| ep_Config := stored_config (pe_Config p) |>
        <| ep_Active := true |> <| ep_LastSeenAt := db_time t |>) rows
  else rows ++ [fresh_endpoint (label_id (pe_LabelKey p)) LocalAgent name (pe_LabelKey p) externalID
                  (pe_EndpointType p) (pe_Target p) SourceLabel "" (pe_Config p) t t].

(** No row of this container's endpoints has an identifier of its own. *)
Definition well_named (rows : list Endpoint) (ps : list ParsedEndpoint) : Prop :=
  ∀ r p, r ∈ rows → p ∈ ps →
    ep_ID r = label_id (pe_LabelKey p) ↔
    ep_AgentID r = LocalAgent ∧ ep_ContainerName r = name ∧ ep_LabelKey r = pe_LabelKey p.

(** Two declared endpoints have different identifiers. *)
Definition distinct_ids (ps : list ParsedEndpoint) : Prop :=
  ∀ p q, p ∈ ps → q ∈ ps → label_id (pe_LabelKey p) = label_id (pe_LabelKey q) → pe_LabelKey p = pe_LabelKey q.

Lemma wp_sync_parsed_row existing p rows (Q : unit → world probing → Prop) w :
  fault_free w → db_endpoints (w_st w) = rows → well_named rows [p] →
  (∀ t w', db_endpoints (w_st w') = sync_row t p rows → w_env w' = w_env w → Q tt w') →
  wp (sync_parsed started name externalID existing p) Q w.
Proof.
  intros Hff Hrows Hnm HQ. unfold sync_parsed, UpsertEndpoint.
  cbn [ep_AgentID ep_ContainerName ep_LabelKey ep_FirstSeenAt ep_Source ep_ExternalID ep_EndpointType ep_Target ep_Config ep_Name].
  change (uid_Agent "") with LocalAgent. change (is_zero zero_time) with true. cbn match.
  change (bool_decide ("" = "")) with true. cbn match.
  apply wp_assoc, wp_bind, wp_now. intros w1 (H1 & E1 & _). set (t := env_now _ _).
  apply wp_bind. unfold upsert_endpoint. apply wp_bind, wp_fault. intros b w2 (H2 & E2 & _) Hb.
  rewrite Hb by (by eapply fault_free_env). apply wp_bind, wp_gets.
  change (ep_ID (fresh_endpoint (EndpointLabel LocalAgent name (pe_LabelKey p)) _ _ _ _ _ _ _ _ _ _ _)) with (label_id (pe_LabelKey p)).
  assert (db_endpoints (w_st w2) = rows) as Hrows2 by congruence. rewrite Hrows2.
  assert (∀ w', db_endpoints (w_st w') = sync_row t p rows → w_env w' = w_env w →
    wp (let! full := GetEndpointByID (label_id (pe_LabelKey p)) in
        match full with
        | Ok (Some full) =>
          when! bool_decide (existing !! pe_LabelKey p = None) then
            emit_endpoint_event EndpointDiscovered
              [("endpoint_id", VString (label_id (pe_LabelKey p))); ("container_name", VString name);
               ("endpoint_type", VString (pe_EndpointType p)); ("target", VString (pe_Target p))] in
          if started then ReconfigureEndpoint full else ret tt
        | _ => ret tt
        end) Q w') as Hrest.
  { intros w' Hr' He'. apply wp_bind, wp_GetEndpointByID; [by eapply fault_free_env|]. intros w'' (Hs & He & _).
    destruct (select_id _ _) as [full|]; [|apply wp_ret, (HQ t); congruence].
    apply wp_bind. apply (wp_mono _ (λ _ w3, db_endpoints (w_st w3) = sync_row t p rows ∧ w_env w3 = w_env w)).
    { case_bool_decide; [apply wp_modify|apply wp_ret]; cbn; split; congruence. }
    intros _ w3 [R3 E3]. destruct started; [apply wp_modify|apply wp_ret]; by apply (HQ t). }
  destruct (bool_decide_reflect (label_id (pe_LabelKey p) ∈ table_ids rows)) as [Hin|Hin].
  - apply wp_bind, wp_modify_put. intros w3 (H3 & E3 & _). apply wp_ret, Hrest; [|congruence].
    rewrite H3. cbn. rewrite Hrows2. unfold sync_row. by rewrite bool_decide_eq_true_2.
  - assert (existsb (same_identity (fresh_endpoint (EndpointLabel LocalAgent name (pe_LabelKey p)) LocalAgent name
      (pe_LabelKey p) externalID (pe_EndpointType p) (pe_Target p) SourceLabel "" (pe_Config p) t t)) rows = false) as ->.
    { apply not_true_iff_false. intros (r & Hr & Hsame)%existsb_exists. apply list_elem_of_In in Hr.
      unfold same_identity in Hsame. cbn in Hsame. rewrite !andb_true_iff, !bool_decide_eq_true in Hsame.
      destruct Hsame as [[Ha Hc] Hl]. apply Hin, list_elem_of_fmap. exists r. split; [|done].
      symmetry. apply (Hnm r p); [done|by left|done]. }
    apply wp_bind, wp_modify_put. intros w3 (H3 & E3 & _). apply wp_ret, Hrest; [|congruence].
    rewrite H3. cbn. rewrite Hrows2. unfold sync_row. by rewrite bool_decide_eq_false_2.
Qed.

(** Between the definitions: [done] are taken care of. *)
Record synced_rows (initial : list Endpoint) (ps done : list ParsedEndpoint) (rows : list Endpoint) : Prop := {
  sr_keys : distinct_ids ps;
  sr_ids : NoDup (table_ids rows);
  sr_named : well_named rows ps;
  sr_done : ∀ p, p ∈ done → ∃ r, r ∈ rows ∧ declares p r;
  sr_rows : ∀ r, r ∈ rows → (∃ p, p ∈ done ∧ declares p r) ∨ r ∈ initial;
}.

Lemma sync_row_step initial ps done p rows t :
  synced_rows initial ps done rows → p ∈ ps → pe_LabelKey p ∉ pe_LabelKey <$> done →
  synced_rows initial ps (done ++ [p]) (sync_row t p rows).
Proof.
  intros [Hkeys Hids Hnm Hdone Hrows] Hp Hnew. unfold sync_row.
  assert (Hapart : ∀ q r, q ∈ done → r ∈ rows → declares q r → ep_ID r ≠ label_id (pe_LabelKey p)).
  { intros q r Hq Hr (_ & _ & _ & Hl & _) Hid. apply (Hnm r p Hr Hp) in Hid as (_ & _ & Hl').
    apply Hnew. rewrite <- Hl', Hl. by apply list_elem_of_fmap_2. }
  set (upd := λ r : Endpoint, r <| ep_ExternalID := externalID |> <| ep_EndpointType := pe_EndpointType p |>
    <| ep_Target := pe_Target p |> <| ep_Config := stored_config (pe_Config p) |>
    <| ep_Active := true |> <| ep_LastSeenAt := db_time t |>).
  set (new := fresh_endpoint _ _ _ _ _ _ _ _ _ _ _ _).
  assert (Hupd : ∀ r, r ∈ rows → ep_ID r = label_id (pe_LabelKey p) → declares p (upd r)).
  { intros r Hr Hid. destruct (proj1 (Hnm r p Hr Hp) Hid) as (Ha & Hc & Hl). unfold declares. by split_and!. }
  case_bool_decide as Hin.
  - split; [done|..].
    + by rewrite update_id_ids.
    + intros r' q (r & Hr & ->)%update_where_elem Hq. case_bool_decide; exact (Hnm r q Hr Hq).
    + intros q [Hq|Hq%list_elem_of_singleton]%elem_of_app.
      * destruct (Hdone q Hq) as (r & Hr & Hd). exists r. split; [|done]. apply update_where_elem. exists r.
        split; [done|]. rewrite bool_decide_eq_false_2; [done|]. by eapply Hapart.
      * subst q. apply list_elem_of_fmap in Hin as (r & Hid & Hr). exists (upd r).
        split; [|by apply Hupd]. apply update_where_elem. exists r. by rewrite bool_decide_eq_true_2.
    + intros r' (r & Hr & ->)%update_where_elem. case_bool_decide as Hid.
      * left. exists p. split; [apply elem_of_app; right; by left|by apply Hupd].
      * destruct (Hrows r Hr) as [(q & Hq & Hd)|Hi]; [left; exists q|by right].
        split; [apply elem_of_app; by left|done].
  - assert (declares p new) as Hnewd by (unfold declares; by split_and!). split; [done|..].
    + apply (insert_row_ids new rows); [apply insert_row_Some; split; [exact Hin|reflexivity]|done].
    + intros r q [Hr|Hr%list_elem_of_singleton]%elem_of_app Hq; [by apply Hnm|]. subst r. cbn. split.
      * intros He. split_and!; [done..|]. by apply Hkeys.
      * by intros (_ & _ & ->).
    + intros q [Hq|Hq%list_elem_of_singleton]%elem_of_app.
      * destruct (Hdone q Hq) as (r & Hr & Hd). exists r. split; [apply elem_of_app; by left|done].
      * subst q. exists new. split; [apply elem_of_app; right; by left|done].
    + intros r [Hr|Hr%list_elem_of_singleton]%elem_of_app.
      * destruct (Hrows r Hr) as [(q & Hq & Hd)|Hi]; [left; exists q|by right].
        split; [apply elem_of_app; by left|done].
      * subst r. left. exists p. split; [apply elem_of_app; right; by left|done].
Qed.

Lemma wp_sync_all existing initial ps : ∀ rest done w,
  fault_free w → ps = done ++ rest → NoDup (pe_LabelKey <$> ps) →
  synced_rows initial ps done (db_endpoints (w_st w)) →
  wp (for_each rest (sync_parsed started name externalID existing))
    (λ _ w', synced_rows initial ps ps (db_endpoints (w_st w')) ∧ w_env w' = w_env w) w.
Proof.
  induction rest as [|p rest IH]; intros done w Hff Hps Hnd Hsync; cbn.
  { apply wp_ret. rewrite app_nil_r in Hps. by subst. }
  assert (p ∈ ps) as Hp by (subst; apply elem_of_app; right; left).
  apply wp_bind. eapply wp_sync_parsed_row; [done|reflexivity|..].
  { intros r q Hr ->%list_elem_of_singleton. by apply Hsync. }
  intros t w' Hr He. rewrite <- He.
  apply (IH (done ++ [p])); [by eapply fault_free_env|by rewrite <- app_assoc|done|].
  rewrite Hr. apply sync_row_step; [done|done|].
  rewrite Hps, fmap_app in Hnd. apply NoDup_app in Hnd as (_ & Hd & _). intros Hin. apply (Hd _ Hin). cbn. by left.
Qed.

(** The rows of the container that were there before. *)
Definition container_row (r : Endpoint) : Prop :=
  ep_AgentID r = LocalAgent ∧ ep_ExternalID r = externalID ∧ ep_Active r = true.

Lemma of_container_local r : of_container LocalAgent externalID r = true ↔ container_row r.
Proof.
  unfold of_container, container_row. change (uid_Agent LocalAgent) with LocalAgent.
  rewrite !andb_true_iff, !bool_decide_eq_true. tauto.
Qed.

Lemma by_key_lookup l e :
  (∀ x y, x ∈ l → y ∈ l → ep_LabelKey x = ep_LabelKey y → x = y) → e ∈ l → by_key_of l !! ep_LabelKey e = Some e.
Proof.
  unfold by_key_of. intros Hinj He.
  assert (∀ m : gmap string Endpoint, (e ∈ l ∨ m !! ep_LabelKey e = Some e) → (∀ x, x ∈ l → ep_LabelKey x = ep_LabelKey e → x = e) →
    foldl (λ m ep, <[ep_LabelKey ep := ep]> m) m l !! ep_LabelKey e = Some e) as H; [|by apply H; auto].
  clear He Hinj. induction l as [|x l IH]; intros m He Hinj; cbn; [by destruct He as [?%elem_of_nil|]|].
  apply IH; [|intros y Hy; apply Hinj; by right].
  destruct (decide (ep_LabelKey x = ep_LabelKey e)) as [Hk|Hk].
  - right. rewrite (Hinj x) by (done || left). by rewrite lookup_insert_eq.
  - rewrite lookup_insert_ne by done. destruct He as [[->|He]%elem_of_cons|He]; [done|by left|by right].
Qed.

Lemma by_key_of_elem l key e : by_key_of l !! key = Some e → e ∈ l ∧ key = ep_LabelKey e.
Proof.
  unfold by_key_of.
  assert (∀ m : gmap string Endpoint, foldl (λ m ep, <[ep_LabelKey ep := ep]> m) m l !! key = Some e →
    m !! key = Some e ∨ e ∈ l ∧ key = ep_LabelKey e) as H.
  { induction l as [|x l IH]; intros m; cbn; [by left|]. intros [Hm|[Hm ?]]%IH; [|by right; split; [right|]].
    apply lookup_insert_Some in Hm as [[<- <-]|[_ Hm]]; [right; split; [left|done]|by left]. }
  intros Hl. destruct (H ∅ Hl) as [He|He]; [by rewrite lookup_empty in He|done].
Qed.

(** The second loop, with [rest] still to visit. *)
Record retiring (initial : list Endpoint) (ps : list ParsedEndpoint) (rest : list (string * Endpoint))
    (rows : list Endpoint) : Prop := {
  rt_ids : NoDup (table_ids rows);
  rt_entries : ∀ key ep, (key, ep) ∈ rest → ep ∈ initial ∧ key = ep_LabelKey ep;
  rt_declared : ∀ p, p ∈ ps → ∃ r, r ∈ rows ∧ declares p r;
  rt_rows : ∀ r, r ∈ rows → container_row r →
    (∃ p, p ∈ ps ∧ declares p r) ∨ r ∈ initial ∧ (ep_LabelKey r, r) ∈ rest;
}.

Lemma retiring_kept initial ps key ep rest rows :
  well_named initial ps → (∀ r, r ∈ initial → container_row r → ep_ContainerName r = name) →
  retiring initial ps ((key, ep) :: rest) rows → key ∈ pe_LabelKey <$> ps → retiring initial ps rest rows.
Proof.
  intros Hnm Hname [Hids Hent Hdec Hrows] Hkey. split; [done|intros; apply Hent; by right|done|].
  intros r Hr Hc. destruct (Hrows r Hr Hc) as [Hd|[Hi [Hk|Hk]%elem_of_cons]]; [by left| |by right].
  injection Hk as Hkl _. left. apply list_elem_of_fmap in Hkey as (p & Hkp & Hp). exists p. split; [done|].
  destruct (Hdec p Hp) as (r' & Hr' & Hd).
  assert (ep_ID r = label_id (pe_LabelKey p)) as Hid.
  { apply (Hnm r p Hi Hp). split_and!; [apply Hc|by apply Hname|congruence]. }
  pose proof (select_id_elem _ _ Hids Hr) as H1. pose proof (select_id_elem _ _ Hids Hr') as H2.
  change (row_id r) with (ep_ID r) in H1. change (row_id r') with (ep_ID r') in H2.
  rewrite Hid in H1. rewrite (proj1 Hd), H1 in H2. by injection H2 as ->.
Qed.

Lemma retiring_removed initial ps key ep rest rows :
  well_named initial ps → retiring initial ps ((key, ep) :: rest) rows → key ∉ pe_LabelKey <$> ps →
  retiring initial ps rest (update_id (ep_ID ep) (λ e, e <| ep_Active := false |>) rows).
Proof.
  intros Hnm [Hids Hent Hdec Hrows] Hkey. destruct (Hent key ep) as [Hep ->]; [left|].
  split; [by rewrite update_id_ids|intros; apply Hent; by right|..].
  - intros p Hp. destruct (Hdec p Hp) as (r & Hr & Hd). exists r. split; [|done].
    apply update_where_elem. exists r. split; [done|]. rewrite bool_decide_eq_false_2; [done|].
    change (ep_ID r ≠ ep_ID ep). rewrite (proj1 Hd). intros Hid. symmetry in Hid.
    apply (Hnm ep p Hep Hp) in Hid as (_ & _ & Hl). apply Hkey. rewrite Hl. by apply list_elem_of_fmap_2.
  - intros r' (r & Hr & ->)%update_where_elem. case_bool_decide as Hid; [by intros (_ & _ & ?)|].
    intros Hc. destruct (Hrows r Hr Hc) as [Hd|[Hi [Hk|Hk]%elem_of_cons]]; [by left| |by right].
    injection Hk as _ ->. by destruct Hid.
Qed.

Lemma wp_retire initial ps rest w :
  well_named initial ps → (∀ r, r ∈ initial → container_row r → ep_ContainerName r = name) →
  retiring initial ps rest (db_endpoints (w_st w)) → fault_free w →
  wp (for_each rest (λ ke, let '(key, ep) := ke in
        if bool_decide (key ∈ pe_LabelKey <$> ps) then ret tt
        else
          let! r := DeactivateEndpoint (ep_ID ep) in
          match r with
          | Err _ => ret tt
          | Ok _ =>
            do! RemoveEndpoint (ep_ID ep) in
            do! onEndpointRemoved (ep_ID ep) in
            emit_endpoint_event EndpointRemoved
              [("endpoint_id", VString (ep_ID ep)); ("container_name", VString name);
               ("reason", VString "label_removed")]
          end)) (λ _ w', retiring initial ps [] (db_endpoints (w_st w'))) w.
Proof.
  intros Hnm Hname. revert w. induction rest as [|[key ep] rest IH]; intros w Hret Hff; cbn; [by apply wp_ret|].
  apply wp_bind. case_bool_decide as Hk.
  { apply wp_ret, IH; [by eapply retiring_kept|done]. }
  apply wp_bind, wp_db_exec; [by intros ? ? []|]. intros w4 (H4 & E4 & _).
  apply wp_bind, wp_modify_put. intros w5 (H5 & E5 & _).
  apply wp_bind, wp_modify_put. intros w6 (H6 & E6 & _).
  apply wp_modify, IH; [|eapply (fault_free_env w); [cbn; congruence|done]].
  cbn. rewrite H6. cbn. rewrite H5. cbn. rewrite H4. cbn. by eapply retiring_removed.
Qed.

End Sync.

(** ** Examples *)

Module EndpointExample.

#[local] Instance parsers : Parsers := LabelsExample.parsers.
#[local] Instance uuid : Uuid := λ ns text, (ns +:+ "/" +:+ text)%string.
#[local] Instance licence : EndpointLicense := λ count, bool_decide (count < 10).
Definition json : list (string * value) → details := λ _, DetailsNil.
Definition t0 : Z := 1700000000 * second.

Definition shop_labels : list (string * string) := [("maintenant.endpoint.http", "http://shop/")].
Definition shop_id : string := label_id "shop" "maintenant.endpoint.http".

(** The endpoint of the container [shop], never checked. *)
Definition shop : Endpoint :=
  fresh_endpoint shop_id LocalAgent "shop" "maintenant.endpoint.http" "c1" TypeHTTP "http://shop/"
    SourceLabel "" DefaultConfig t0 t0.
Definition w0 : world probing := calm_world t0 (empty_probing <| db_endpoints := [shop] |>).

Definition outcome (ok : bool) : CheckResult :=
  MkCheckResult "" shop_id ok 12 None "" t0 false "" LocalAgent false.
Definition failing : list CheckResult := [outcome false; outcome false; outcome false; outcome true].

Lemma alert_hysteresis_witness :
  ∃ ep', select_id shop_id (db_endpoints (w_st (checks json shop_id failing w0).2)) = Some ep'
    ∧ (ep_AlertState ep' = endpoint_AlertAlerting ↔ alerting_after 3 2 [true; false; false; false])
    ∧ ep_ConsecutiveFailures ep' = 0 ∧ ep_ConsecutiveSuccesses ep' = 1.
Proof.
  exact (alert_hysteresis json shop_id failing shop w0 3 2 (calm_fault_free _ _) (NoDup_singleton _) eq_refl
    ltac:(repeat constructor) ltac:(repeat split) eq_refl eq_refl ltac:(lia) ltac:(lia) ltac:(done)).
Defined.

Example still_alerting : alerting_after 3 2 [true; false; false; false].
Proof.
  exists [true], []. split; [done|]. intros ([|x l1] & l2 & H); [done|]. injection H as _ H.
  destruct l1; [done|]. discriminate.
Qed.

Lemma endpoint_alert_live_witness :
  let w' := (checks json shop_id failing w0).2 in
  let we' := feed (Esc := noopEscalator) true true (drop 0 (ep_alerts (w_st w'))) (new_engine t0) in
  ∃ ep', select_id shop_id (db_endpoints (w_st w')) = Some ep'
    ∧ (is_Some (live (w_st we') !! channel_key "endpoint" "endpoint" (failing_channel shop_id))
       ↔ ep_AlertState ep' = endpoint_AlertAlerting).
Proof.
  apply (endpoint_alert_live json (Esc := noopEscalator) true true shop_id failing shop w0 (new_engine t0)
    (calm_fault_free _ _) (NoDup_singleton _) eq_refl ltac:(repeat constructor)
    (synced_inv _ (new_engine_synced t0)) (new_engine_healthy t0) (new_engine_synced t0) eq_refl).
  rewrite new_engine_live. split; [by intros []|discriminate].
Defined.

(** An enrolled agent. *)
Definition agents : gset string := {["agent-1"]}.

Lemma agent_named a : a ∈ agents → uid_Agent a = a.
Proof. unfold agents. intros ->%elem_of_singleton. reflexivity. Qed.

Lemma agent_differs a c k c' k' : a ∈ agents → EndpointLabel a c k ≠ EndpointLabel LocalAgent c' k'.
Proof. unfold agents. intros ->%elem_of_singleton. intros H. discriminate. Qed.

Lemma empty_own : own_inv agents empty_probing.
Proof. split; [constructor|by intros ? ?%elem_of_nil|by intros ? ?]. Qed.

Definition remote_labels : list (string * string) := [("maintenant.endpoint.tcp", "db:5432")].
Definition discovery : list endpoint_op :=
  [OpStart; OpSync "shop" "c1" shop_labels; OpSyncAgent "agent-1" "db" "c9" remote_labels].

Lemma probes_only_its_own_witness :
  let w' := (endpoint_run json true discovery (calm_world t0 empty_probing)).2 in
  is_Some (runners (w_st w') !! shop_id)
  ∧ ∀ id e, runners (w_st w') !! id = Some e →
    ep_ID e = id ∧ ep_AgentID e = LocalAgent ∧ ∃ r, r ∈ db_endpoints (w_st w') ∧ own id r.
Proof.
  cbv zeta. split; [vm_compute; by eexists|].
  apply (probes_only_its_own json true agents agent_named agent_differs discovery (calm_world t0 empty_probing) empty_own).
  repeat constructor.
Defined.


(** The sweep after a local discovery pass retires the endpoints of the remote
    agents, whose containers that pass cannot see. *)
Example sweep_takes_remote_endpoints :
  let w1 := (endpoint_run json true discovery (calm_world t0 empty_probing)).2 in
  let w2 := (SweepOrphanedLabelEndpoints {["c1"]} w1).2 in
  (λ r, (ep_AgentID r, ep_Active r)) <$> db_endpoints (w_st w1) = [(LocalAgent, true); ("agent-1", true)]
  ∧ (λ r, (ep_AgentID r, ep_Active r)) <$> db_endpoints (w_st w2) = [(LocalAgent, true); ("agent-1", false)].
Proof. split; vm_compute; reflexivity. Qed.

Definition three_failures : list endpoint_op := replicate 3 (OpResult shop_id (outcome false)).

(** An endpoint that is alerting when its container is recreated: its alert is
    resolved with the container, its row comes back still alerting, and the
    failures of the new container raise nothing. *)
Example reactivated_never_alerts :
  let w1 := (endpoint_run json true three_failures w0).2 in
  let recreate := [OpContainerDestroy "c1"; OpSync "shop" "c2" shop_labels] in
  let w2 := (endpoint_run json true recreate w1).2 in
  let w3 := (endpoint_run json true three_failures w2).2 in
  length (ep_alerts (w_st w1)) = 1%nat ∧ ep_removed (w_st w2) = [shop_id]
  ∧ ep_AlertState <$> db_endpoints (w_st w2) = [endpoint_AlertAlerting]
  ∧ ep_alerts (w_st w3) = ep_alerts (w_st w1).
Proof. split_and!; vm_compute; reflexivity. Qed.

(** A label asking for no redirect at all is stored as the default of five. *)
Example zero_redirects_lost :
  let labels := [("maintenant.endpoint.http", "http://shop/"); ("maintenant.endpoint.http.max-redirects", "0")] in
  ec_MaxRedirects ∘ pe_Config <$> (ParseEndpointLabels labels).1 = [0]
  ∧ ec_MaxRedirects ∘ ep_Config <$> db_endpoints (w_st (SyncEndpoints true "shop" "c1" labels
      (calm_world t0 empty_probing)).2) = [5].
Proof. split; vm_compute; reflexivity. Qed.

(** A renamed container is probed twice: the row of its old name stays active. *)
Example renamed_probed_twice :
  let w1 := (endpoint_run json true [OpSync "shop" "c1" shop_labels; OpSync "boutique" "c1" shop_labels]
    (calm_world t0 empty_probing)).2 in
  (λ r, (ep_ContainerName r, ep_Active r)) <$> db_endpoints (w_st w1) = [("shop", true); ("boutique", true)]
  ∧ size (runners (w_st w1)) = 2%nat.
Proof. split; vm_compute; reflexivity. Qed.
End EndpointExample.
