(* ===== verification/Container.v ===== *)
(** * Containers: data and labels

    [src/internal/container/model.go], [labels.go], [image_labels.go] and
    [agent_details.go]: the containers of every host, the transitions of their
    states, and what their labels say about them.  The maps of labels are finite
    maps; a missing key reads as the empty string, as in Go. *)

From S2P Require Import Prelude.
From S2P Require Import Tables.
From S2P Require Import GoStrings.
From S2P Require Import AlertModel.
From S2P Require Import SwarmAlerts.

#[local] Open Scope string_scope.
#[local] Open Scope list_scope.
#[local] Open Scope Z_scope.

Definition StateRunning := "running".
Definition StateExited := "exited".
Definition StateCompleted := "completed".
Definition StateRestarting := "restarting".
Definition StatePaused := "paused".
Definition StateCreated := "created".
Definition StateDead := "dead".

Definition HealthHealthy := "healthy".
Definition HealthUnhealthy := "unhealthy".
Definition HealthStarting := "starting".

Definition container_SeverityCritical := "critical".
Definition container_SeverityWarning := "warning".
Definition container_SeverityInfo := "info".

(** ** Data *)

Record Container := MkContainer {
  ct_ID : string;
  ct_ExternalID : string;
  ct_AgentID : string;
  ct_Name : string;
  ct_Image : string;
  ct_State : string;
  ct_HealthStatus : option string;
  ct_HasHealthCheck : bool;
  ct_OrchestrationGroup : string;
  ct_OrchestrationUnit : string;
  ct_CustomGroup : string;
  ct_IsIgnored : bool;
  ct_AlertSeverity : string;
  ct_RestartThreshold : Z;
  ct_Archived : bool;
  ct_FirstSeenAt : Z;
  ct_LastStateChangeAt : Z;
  ct_ArchivedAt : option Z;
  ct_RuntimeType : string;
  ct_ErrorDetail : string;
  ct_ControllerKind : string;
  ct_Namespace : string;
  ct_PodCount : Z;
  ct_ReadyCount : Z;
  ct_ComposeWorkingDir : string;
  ct_ImageVersion : string;
  ct_ImageSource : string;
  ct_ImageURL : string;
  ct_ImageDescription : string;
  ct_SwarmServiceID : string;
  ct_SwarmServiceName : string;
  ct_SwarmNodeID : string;
  ct_SwarmTaskSlot : Z;
}.
#[export] Instance Container_eta : Eta Container := λ c,
  MkContainer (ct_ID c) (ct_ExternalID c) (ct_AgentID c) (ct_Name c) (ct_Image c) (ct_State c)
    (ct_HealthStatus c) (ct_HasHealthCheck c) (ct_OrchestrationGroup c) (ct_OrchestrationUnit c)
    (ct_CustomGroup c) (ct_IsIgnored c) (ct_AlertSeverity c) (ct_RestartThreshold c) (ct_Archived c)
    (ct_FirstSeenAt c) (ct_LastStateChangeAt c) (ct_ArchivedAt c) (ct_RuntimeType c) (ct_ErrorDetail c)
    (ct_ControllerKind c) (ct_Namespace c) (ct_PodCount c) (ct_ReadyCount c) (ct_ComposeWorkingDir c)
    (ct_ImageVersion c) (ct_ImageSource c) (ct_ImageURL c) (ct_ImageDescription c) (ct_SwarmServiceID c)
    (ct_SwarmServiceName c) (ct_SwarmNodeID c) (ct_SwarmTaskSlot c).
#[export] Instance Container_id : HasId Container := ct_ID.

(** [Container{}]. *)
Definition no_container : Container :=
  MkContainer "" "" "" "" "" "" None false "" "" "" false "" 0 false zero_time zero_time None "" "" "" ""
    0 0 "" "" "" "" "" "" "" "" 0.

Record StateTransition := MkTransition {
  st_ID : string;
  st_ContainerID : string;
  st_PreviousState : string;
  st_NewState : string;
  st_PreviousHealth : option string;
  st_NewHealth : option string;
  st_ExitCode : option Z;
  st_LogSnippet : string;
  st_Timestamp : Z;
}.
#[export] Instance StateTransition_eta : Eta StateTransition := λ t,
  MkTransition (st_ID t) (st_ContainerID t) (st_PreviousState t) (st_NewState t) (st_PreviousHealth t)
    (st_NewHealth t) (st_ExitCode t) (st_LogSnippet t) (st_Timestamp t).
#[export] Instance StateTransition_id : HasId StateTransition := st_ID.

(** ** Labels *)

Definition label (labels : gmap string string) (key : string) : string := default "" (labels !! key).

Definition labelStackNamespace := "com.docker.stack.namespace".
Definition labelSwarmServiceID := "com.docker.swarm.service.id".
Definition labelSwarmServiceName := "com.docker.swarm.service.name".
Definition labelSwarmNodeID := "com.docker.swarm.node.id".
Definition labelSwarmTaskID := "com.docker.swarm.task.id".
Definition labelSwarmTaskName := "com.docker.swarm.task.name".
Definition ControllerSwarmService := "swarm-service".

Definition labelComposeProject := "com.docker.compose.project".
Definition labelComposeService := "com.docker.compose.service".
Definition labelComposeWorkingDir := "com.docker.compose.project.working_dir".
Definition labelPBGroup := "maintenant.group".
Definition labelPBSeverity := "maintenant.alert.severity".
Definition labelPBThreshold := "maintenant.alert.restart_threshold".

(** The slot of a task name, [<service>.<slot>.<task id>]. *)
Definition swarmTaskSlot (labels : gmap string string) : Z :=
  let name := TrimPrefix (label labels labelSwarmTaskName) (label labels labelSwarmServiceName +:+ ".") in
  let name := TrimSuffix name ("." +:+ label labels labelSwarmTaskID) in
  match Atoi name with
  | Some slot => if bool_decide (slot < 1) then 0 else slot
  | None => 0
  end.

Definition ApplySwarmTaskLabels (labels : gmap string string) (c : Container) : Container :=
  let c := c <| ct_SwarmServiceID := label labels labelSwarmServiceID |>
             <| ct_SwarmServiceName := label labels labelSwarmServiceName |>
             <| ct_SwarmNodeID := label labels labelSwarmNodeID |>
             <| ct_SwarmTaskSlot := swarmTaskSlot labels |> in
  if bool_decide (ct_SwarmServiceID c = "") then c else c <| ct_ControllerKind := ControllerSwarmService |>.

Definition OrchestrationGroupFromLabels (labels : gmap string string) : string :=
  if bool_decide (label labels labelComposeProject = "") then label labels labelStackNamespace
  else label labels labelComposeProject.

(** The fields read from labels, as one value to compare. *)
Definition label_fields (c : Container) :=
  (ct_IsIgnored c, ct_CustomGroup c, ct_AlertSeverity c, ct_RestartThreshold c, ct_OrchestrationGroup c,
   ct_ControllerKind c, ct_SwarmServiceID c, ct_SwarmServiceName c, ct_SwarmNodeID c, ct_SwarmTaskSlot c).

(** [adoptLabelFields]: the container with the fields of [d], and whether it changed. *)
Definition adoptLabelFields (d c : Container) : Container * bool :=
  (c <| ct_IsIgnored := ct_IsIgnored d |> <| ct_CustomGroup := ct_CustomGroup d |>
     <| ct_AlertSeverity := ct_AlertSeverity d |> <| ct_RestartThreshold := ct_RestartThreshold d |>
     <| ct_OrchestrationGroup := ct_OrchestrationGroup d |> <| ct_ControllerKind := ct_ControllerKind d |>
     <| ct_SwarmServiceID := ct_SwarmServiceID d |> <| ct_SwarmServiceName := ct_SwarmServiceName d |>
     <| ct_SwarmNodeID := ct_SwarmNodeID d |> <| ct_SwarmTaskSlot := ct_SwarmTaskSlot d |>,
   negb (bool_decide (label_fields c = label_fields d))).

Definition is_severity (v : string) : bool :=
  bool_decide (v ∈ [container_SeverityCritical; container_SeverityWarning; container_SeverityInfo]).

Definition applyAgentLabels (labels : gmap string string) (c : Container) : Container :=
  let c := match labels !! labelPBIgnore with
           | Some v => if bool_decide (v = "true") || bool_decide (v = "1")
                       then c <| ct_IsIgnored := true |> else c
           | None => c
           end in
  let c := match labels !! labelPBGroup with
           | Some v => if bool_decide (v = "") then c else c <| ct_CustomGroup := v |>
           | None => c
           end in
  let c := match labels !! labelPBSeverity with
           | Some v => if is_severity v then c <| ct_AlertSeverity := v |> else c
           | None => c
           end in
  match labels !! labelPBThreshold with
  | Some v => match Atoi v with
              | Some n => if bool_decide (0 < n) then c <| ct_RestartThreshold := n |> else c
              | None => c
              end
  | None => c
  end.

Definition agentLabelFields (labels : gmap string string) : Container :=
  ApplySwarmTaskLabels labels (applyAgentLabels labels
    (no_container <| ct_OrchestrationGroup := OrchestrationGroupFromLabels labels |>
       <| ct_AlertSeverity := container_SeverityWarning |> <| ct_RestartThreshold := 3 |>)).

(** *** Image labels *)

Fixpoint firstLabel (labels : gmap string string) (webOnly : bool) (keys : list string) : string :=
  match keys with
  | [] => ""
  | k :: keys =>
    let v := TrimSpace (label labels k) in
    if bool_decide (v = "") then firstLabel labels webOnly keys
    else if webOnly && negb (HasPrefix (ToLower v) "http://") && negb (HasPrefix (ToLower v) "https://")
    then firstLabel labels webOnly keys
    else v
  end.

Definition image_fields (c : Container) :=
  (ct_ImageVersion c, ct_ImageSource c, ct_ImageURL c, ct_ImageDescription c).

Definition ApplyImageLabels (labels : gmap string string) (c : Container) : Container * bool :=
  let version := firstLabel labels false ["org.opencontainers.image.version"; "org.label-schema.version"] in
  let source := firstLabel labels true ["org.opencontainers.image.source"; "org.label-schema.vcs-url"] in
  let url := firstLabel labels true
    ["org.opencontainers.image.url"; "org.label-schema.url"; "org.opencontainers.image.documentation"] in
  let description := firstLabel labels false
    ["org.opencontainers.image.description"; "org.label-schema.description"] in
  (c <| ct_ImageVersion := version |> <| ct_ImageSource := source |> <| ct_ImageURL := url |>
     <| ct_ImageDescription := description |>,
   negb (bool_decide (image_fields c = (version, source, url, description)))).

(** *** Update labels, kept aside for agents' containers *)

Definition UpdateLabelPrefix := "maintenant.update.".

Definition UpdateLabels (labels : gmap string string) : gmap string string :=
  filter (λ kv, HasPrefix kv.1 UpdateLabelPrefix = true) labels.

Record AgentDetails := MkAgentDetails {
  ad_UpdateLabels : gmap string string;
  ad_RepoDigests : list string;
  ad_DigestsKnown : bool;
}.
#[export] Instance AgentDetails_eta : Eta AgentDetails := λ d,
  MkAgentDetails (ad_UpdateLabels d) (ad_RepoDigests d) (ad_DigestsKnown d).

(** ** Groups *)

Definition GroupName (c : Container) : string :=
  if negb (bool_decide (ct_CustomGroup c = "")) then ct_CustomGroup c
  else if negb (bool_decide (ct_OrchestrationGroup c = "")) then ct_OrchestrationGroup c
  else "Ungrouped".

Definition GroupSource (c : Container) : string :=
  if negb (bool_decide (ct_CustomGroup c = "")) then "label"
  else if negb (bool_decide (ct_ControllerKind c = "")) && bool_decide (ct_RuntimeType c = "kubernetes")
  then "namespace"
  else if negb (bool_decide (ct_OrchestrationGroup c = "")) && bool_decide (ct_RuntimeType c = "docker")
  then "compose"
  else if negb (bool_decide (ct_OrchestrationGroup c = "")) then "orchestration"
  else "default".

(** ** Exit codes *)

Definition parseExitCode (s : string) : Z := default 0 (Sscanf_d s).

Definition clean_exit_text (s : string) (oomKilled : bool) : bool :=
  negb (bool_decide (s = "")) && IsCleanExit (parseExitCode s) oomKilled.

(** ** What the service keeps *)

(** An entry of the event callback: its payload is a map, a container or the
    alert of the restart checker. *)
Record RestartAlert := MkRestartAlert {
  ra_ContainerID : string;
  ra_ContainerName : string;
  ra_RestartCount : Z;
  ra_Threshold : Z;
  ra_Severity : string;
  ra_Timestamp : Z;
  ra_AgentID : string;
}.

Inductive payload :=
  | PMap (m : list (string * value))
  | PContainer (c : Container)
  | PRestart (ra : RestartAlert).

(** What the callback hands to the alert engine. *)
Inductive signal := SigAlert (e : Event) | SigResolve (entityType entityID : string).

(** The tables, the containers whose restart alert is open, the reports of the
    agents, the start times kept for log snippets; then the events sent to the
    browsers and the signals sent to the alert engine. *)
Record fleet := MkFleet {
  db_containers : list Container;
  db_transitions : list StateTransition;
  trackedRestartAlerts : gset string;
  agentDetails : gmap (string * string) AgentDetails;
  localStarts : gmap string Z;
  ct_events : list (string * payload);
  ct_signals : list signal;
}.
#[export] Instance fleet_eta : Eta fleet := λ s,
  MkFleet (db_containers s) (db_transitions s) (trackedRestartAlerts s) (agentDetails s) (localStarts s)
    (ct_events s) (ct_signals s).

Definition empty_fleet : fleet := MkFleet [] [] ∅ ∅ ∅ [] [].
