(* ===== verification/ContainerStore.v ===== *)
(** * Containers: the store

    [src/internal/store/containers.go]: the statements of the container service,
    with the constraints of the schema that can refuse them: the values a state, a
    health status and a severity may have, one row per agent and external id, and
    the reference of a transition to its container.  A row is kept as it is read
    back, a time truncated to the second. *)

From S2P Require Import Prelude.
From S2P Require Import Tables.
From S2P Require Import GoStrings.
From S2P Require Import AlertModel.
From S2P Require Import Uid.
From S2P Require Import SwarmAlerts.
From S2P Require Import Container.

#[local] Open Scope string_scope.
#[local] Open Scope list_scope.
#[local] Open Scope Z_scope.

Definition is_state (s : string) : bool :=
  bool_decide (s ∈ [StateRunning; StateExited; StateCompleted; StateRestarting; StatePaused; StateCreated; StateDead]).

Definition is_health (h : option string) : bool :=
  match h with
  | None => true
  | Some h => bool_decide (h ∈ [HealthHealthy; HealthUnhealthy; HealthStarting])
  end.

(** The [CHECK] constraints of the table. *)
Definition container_check (c : Container) : bool :=
  is_state (ct_State c) && is_health (ct_HealthStatus c) && is_severity (ct_AlertSeverity c).

Section Store.
Context `{!Uuid}.

(** The columns of an insert, read back. *)
Definition container_row (c : Container) : Container :=
  c <| ct_FirstSeenAt ::= db_time |> <| ct_LastStateChangeAt ::= db_time |> <| ct_ArchivedAt := None |>.

Definition same_container (c r : Container) : bool :=
  bool_decide (ct_AgentID r = ct_AgentID c) && bool_decide (ct_ExternalID r = ct_ExternalID c).

(** The container with the agent and the id the insert gives it. *)
Definition named_container (c : Container) : Container :=
  c <| ct_AgentID ::= uid_Agent |> <| ct_ID := uid_Container (uid_Agent (ct_AgentID c)) (ct_ExternalID c) |>.

(** [INSERT ... ON CONFLICT(id) DO UPDATE]; the container is handed back named. *)
Definition InsertContainer (c : Container) : M fleet (result Container) :=
  let c := named_container c in
  let! failed := fault in
  if failed || negb (container_check c) then ret (Err EStore)
  else
    let! rows := gets db_containers in
    if bool_decide (ct_ID c ∈ table_ids rows) then
      do! modify (λ s, s <| db_containers ::= update_id (ct_ID c) (λ r,
        container_row c <| ct_ExternalID := ct_ExternalID r |> <| ct_FirstSeenAt := ct_FirstSeenAt r |>
          <| ct_ArchivedAt := ct_ArchivedAt r |>) |>) in
      ret (Ok c)
    else if existsb (same_container c) rows then ret (Err EStore)
    else
      do! modify (λ s, s <| db_containers ::= λ l, l ++ [container_row c] |>) in
      ret (Ok c).

(** The columns [UpdateContainer] does not write: id, external id, first seen. *)
Definition updated_row (c r : Container) : Container :=
  c <| ct_AgentID ::= uid_Agent |> <| ct_ID := ct_ID r |> <| ct_ExternalID := ct_ExternalID r |>
    <| ct_FirstSeenAt := ct_FirstSeenAt r |> <| ct_LastStateChangeAt ::= db_time |>
    <| ct_ArchivedAt := db_time <$> ct_ArchivedAt c |>.

Definition UpdateContainer (c : Container) : M fleet (result unit) :=
  let! failed := fault in
  if failed || negb (container_check c) then ret (Err EStore)
  else
    do! modify (λ s, s <| db_containers ::= update_id (ct_ID c) (updated_row c) |>) in
    ret (Ok tt).

Definition of_agent (agentID externalID : string) (c : Container) : bool :=
  bool_decide (ct_AgentID c = uid_Agent agentID) && bool_decide (ct_ExternalID c = externalID).

Definition GetContainerByExternalID (agentID externalID : string) : M fleet (result (option Container)) :=
  db_query (λ s, head (select_where (of_agent agentID externalID) (db_containers s))).

Definition GetContainerByID (id : string) : M fleet (result (option Container)) :=
  db_query (λ s, select_id id (db_containers s)).

Record ListContainersOpts := MkListContainersOpts {
  lo_IncludeArchived : bool;
  lo_IncludeIgnored : bool;
  lo_GroupFilter : string;
  lo_StateFilter : string;
  lo_AgentFilter : option string;
}.

Definition listed (opts : ListContainersOpts) (c : Container) : bool :=
  (lo_IncludeArchived opts || negb (ct_Archived c))
  && (lo_IncludeIgnored opts || negb (ct_IsIgnored c))
  && (bool_decide (lo_GroupFilter opts = "") || bool_decide (ct_CustomGroup c = lo_GroupFilter opts)
      || bool_decide (ct_OrchestrationGroup c = lo_GroupFilter opts))
  && (bool_decide (lo_StateFilter opts = "") || bool_decide (ct_State c = lo_StateFilter opts))
  && match lo_AgentFilter opts with Some a => bool_decide (ct_AgentID c = a) | None => true end.

Definition by_container_name : relation Container := λ c1 c2, String.le (ct_Name c1) (ct_Name c2).
#[local] Instance by_container_name_dec : RelDecision by_container_name.
Proof. intros ??. unfold by_container_name. apply _. Defined.

Definition ListContainers (opts : ListContainersOpts) : M fleet (result (list Container)) :=
  db_query (λ s, merge_sort by_container_name (select_where (listed opts) (db_containers s))).

Definition archived_row (t : Z) (c : Container) : Container :=
  c <| ct_Archived := true |> <| ct_ArchivedAt := Some (db_time t) |>.

Definition ArchiveContainer (id : string) (archivedAt : Z) : M fleet (result unit) :=
  db_exec (λ s, s <| db_containers ::=
    update_where (λ c, bool_decide (ct_ID c = id) && negb (ct_Archived c)) (archived_row archivedAt) |>).

(** The four tables cleaned up first belong to other components; the transitions
    go with their container. *)
Definition DeleteContainerByID (id : string) : M fleet (result unit) :=
  let? found := GetContainerByID id in
  match found with
  | None => ret (Err EStore)
  | Some _ =>
    do? db_exec (λ s, s) in
    do? db_exec (λ s, s) in
    do? db_exec (λ s, s) in
    do? db_exec (λ s, s) in
    db_exec (λ s, s <| db_containers ::= delete_where (λ c, bool_decide (ct_ID c = id)) |>
                    <| db_transitions ::= delete_where (λ t, bool_decide (st_ContainerID t = id)) |>)
  end.

(** ** Transitions *)

(** A transition of a container that is gone is refused; a second one with the
    same id replaces the first. *)
Definition InsertTransition (t : StateTransition) : M fleet (result string) :=
  let! id := (if bool_decide (st_ID t = "") then new_uid else ret (st_ID t)) in
  let row := t <| st_ID := id |> <| st_Timestamp ::= db_time |> in
  let! failed := fault in
  if failed then ret (Err EStore)
  else
    let! s := gets (λ s, s) in
    if negb (bool_decide (st_ContainerID t ∈ table_ids (db_containers s))) then ret (Err EStore)
    else if bool_decide (id ∈ table_ids (db_transitions s)) then
      do! modify (λ s, s <| db_transitions ::= update_id id (λ _, row) |>) in ret (Ok id)
    else do! modify (λ s, s <| db_transitions ::= λ l, l ++ [row] |>) in ret (Ok id).

(** [ORDER BY timestamp DESC] and [ASC]. *)
Definition latest_first : relation StateTransition := by_key (λ t, - st_Timestamp t).

Definition until (containerID : string) (t : Z) (r : StateTransition) : bool :=
  bool_decide (st_ContainerID r = containerID) && bool_decide (unix (st_Timestamp r) ≤ unix t).

(** [ListTransitionsByContainer] with only an [Until] and a [Limit]: the count is
    a query of its own, whose result the caller drops. *)
Definition ListTransitionsUntil (containerID : string) (t : Z) (limit : nat)
    : M fleet (result (list StateTransition)) :=
  do? db_query (λ s, length (select_where (until containerID t) (db_transitions s))) in
  db_query (λ s, take limit (merge_sort latest_first (select_where (until containerID t) (db_transitions s)))).

Definition is_restart (containerID : string) (since : Z) (t : StateTransition) : bool :=
  bool_decide (st_ContainerID t = containerID) && bool_decide (st_NewState t = StateRunning)
  && bool_decide (st_PreviousState t ∈ [StateRestarting; StateExited])
  && bool_decide (unix since ≤ unix (st_Timestamp t)).

Definition CountRestartsSince (containerID : string) (since : Z) : M fleet (result Z) :=
  db_query (λ s, Z.of_nat (length (select_where (is_restart containerID since) (db_transitions s)))).

Definition in_window (containerID : string) (from to : Z) (t : StateTransition) : bool :=
  bool_decide (st_ContainerID t = containerID) && bool_decide (unix from ≤ unix (st_Timestamp t))
  && bool_decide (unix (st_Timestamp t) ≤ unix to).

Definition GetTransitionsInWindow (containerID : string) (from to : Z)
    : M fleet (result (list StateTransition)) :=
  db_query (λ s, order_by st_Timestamp (select_where (in_window containerID from to) (db_transitions s))).
End Store.
