(* ===== verification/ContainerService.v ===== *)
(** * Containers: the service

    [src/internal/container/service.go] and [restart_recovery.go], the restart
    detector of [src/internal/alert/alerts.go] and the callback that
    [src/internal/app/wiring.go] installs.  The runtime is asked for its containers
    and for log snippets through functions of the number of the consultation, so
    that two questions may have two answers. *)

From S2P Require Import Prelude.
From S2P Require Import Tables.
From S2P Require Import GoStrings.
From S2P Require Import AlertModel.
From S2P Require Import Uid.
From S2P Require Import SwarmAlerts.
From S2P Require Import Container.
From S2P Require Import ContainerStore.

#[local] Open Scope string_scope.
#[local] Open Scope list_scope.
#[local] Open Scope Z_scope.

Definition ContainerDiscovered := "container.discovered".
Definition ContainerStateChanged := "container.state_changed".
Definition ContainerHealthChanged := "container.health_changed".
Definition ContainerArchived := "container.archived".
Definition ContainerRestartAlert := "container.restart_alert".
Definition ContainerRestartRecover := "container.restart_recovery".

Definition restartLoopAlertType := "restart_loop".
Definition defaultRestartWindow : Z := 10 * minute.
Definition CriticalRestartMultiplier : Z := 3.

(** [ContainerEvent]; its labels are not read. *)
Record ContainerEvent := MkContainerEvent {
  ce_Action : string;
  ce_AgentID : string;
  ce_ExternalID : string;
  ce_Name : string;
  ce_ExitCode : string;
  ce_OOMKilled : bool;
  ce_HealthStatus : string;
  ce_ErrorDetail : string;
  ce_Timestamp : Z;
  ce_Replayed : bool;
  ce_EventID : string;
}.
#[export] Instance ContainerEvent_eta : Eta ContainerEvent := λ e,
  MkContainerEvent (ce_Action e) (ce_AgentID e) (ce_ExternalID e) (ce_Name e) (ce_ExitCode e)
    (ce_OOMKilled e) (ce_HealthStatus e) (ce_ErrorDetail e) (ce_Timestamp e) (ce_Replayed e) (ce_EventID e).

(** The runtime's log interface, with the two extensions it may have. *)
Record LogFetcher := MkLogFetcher {
  FetchLogSnippet : nat → string → result string;
  FetchLogSnippetSince : option (nat → string → Z → result string);
  StartedAt : option (nat → string → result Z);
}.

(** The optional dependencies of the service. *)
Class ContainerDeps := {
  logFetcher : option LogFetcher;
  discoverer : option (nat → result (list Container));
  agentRuntime : option (nat → string → result string);
  hasRestartChecker : bool;
}.

Definition ask {S A} (answer : nat → A) : M S A := consult (λ _ n, answer n).

(** ** The event callback *)

(** [m[key]] of a [map[string]any], and [toString] of it; the keys read are
    strings. *)
Definition map_value (m : list (string * value)) (key : string) : value :=
  match filter (λ kv, kv.1 = key) m with (_, v) :: _ => v | [] => VNil end.

Definition toString (v : value) : string :=
  match v with VString s => s | _ => "<nil>" end.

Definition agentIDOf (m : list (string * value)) : string :=
  match map_value m "agent_id" with VString s => s | _ => "" end.

Section Service.
Context `{Uid : !Uuid} `{Deps : !ContainerDeps}.
(** The JSON text of the details of an alert. *)
Context (json : list (string * value) → details).

Definition restartAlertEvent (ra : RestartAlert) : Event :=
  MkEvent "container" restartLoopAlertType
    (if bool_decide (wrap64 (ra_Threshold ra * CriticalRestartMultiplier) ≤ ra_RestartCount ra)
     then SeverityCritical else SeverityWarning) false
    ("Container " +:+ ra_ContainerName ra +:+ " exceeded restart threshold (" +:+ fmt_d (ra_RestartCount ra)
       +:+ "/" +:+ fmt_d (ra_Threshold ra) +:+ ")")
    "container" (ra_ContainerID ra) (ra_ContainerName ra) (ra_AgentID ra)
    (json [("restart_count", VInt (ra_RestartCount ra)); ("threshold", VInt (ra_Threshold ra))])
    (ra_Timestamp ra).

Definition restartRecoveryEvent (m : list (string * value)) (t : Z) : Event :=
  MkEvent "container" restartLoopAlertType SeverityInfo true
    ("Container " +:+ toString (map_value m "container_name") +:+ " restart rate returned to normal")
    "container" (toString (map_value m "container_id")) (toString (map_value m "container_name"))
    (agentIDOf m) DetailsNil t.

Definition containerHealthEvent (m : list (string * value)) (t : Z) : option Event :=
  let prev := match map_value m "previous_health" with VStringPtr p => p | _ => None end in
  let newH := match map_value m "health_status" with VString s => s | _ => "" end in
  let build severity isRecover message :=
    MkEvent "container" "health_unhealthy" severity isRecover message "container"
      (toString (map_value m "id")) (toString (map_value m "container_name")) (agentIDOf m) (json m) t in
  if bool_decide (prev = Some HealthHealthy) && bool_decide (newH = HealthUnhealthy)
  then Some (build SeverityWarning false "Container became unhealthy")
  else if bool_decide (prev = Some HealthUnhealthy) && bool_decide (newH = HealthHealthy)
  then Some (build SeverityInfo true "Container recovered to healthy")
  else None.

Definition send_signal (g : signal) : M fleet unit := modify (λ s, s <| ct_signals ::= λ l, l ++ [g] |>).

(** The callback of [wireContainerEvents]. *)
Definition container_callback (eventType : string) (data : payload) : M fleet unit :=
  match data with
  | PRestart ra =>
    if bool_decide (eventType = ContainerRestartAlert) then send_signal (SigAlert (restartAlertEvent ra)) else ret tt
  | PMap m =>
    if bool_decide (eventType = ContainerRestartRecover) then
      let! t := now in send_signal (SigAlert (restartRecoveryEvent m t))
    else if bool_decide (eventType = ContainerArchived) then
      send_signal (SigResolve "container" (toString (map_value m "id")))
    else if bool_decide (eventType = ContainerHealthChanged) then
      let! t := now in
      match containerHealthEvent m t with
      | Some evt => send_signal (SigAlert evt)
      | None => ret tt
      end
    else ret tt
  | PContainer _ => ret tt
  end.

Definition emitContainer (eventType : string) (data : payload) : M fleet unit :=
  do! modify (λ s, s <| ct_events ::= λ l, l ++ [(eventType, data)] |>) in
  container_callback eventType data.

(** ** The restart detector *)

(** [Check] of [RestartDetector]: [None] below the threshold. *)
Definition RestartDetector_Check (c : Container) : M fleet (result (option RestartAlert)) :=
  let! t := now in
  let? count := CountRestartsSince (ct_ID c) (t - defaultRestartWindow) in
  if bool_decide (count < ct_RestartThreshold c) then ret (Ok None)
  else
    let! t' := now in
    ret (Ok (Some (MkRestartAlert (ct_ID c) (ct_Name c) count (ct_RestartThreshold c) (ct_AlertSeverity c)
      t' (ct_AgentID c)))).

Definition trackRestartAlert (id : string) : M fleet unit :=
  modify (λ s, s <| trackedRestartAlerts ::= union {[id]} |>).

Definition untrackRestartAlert (id : string) : M fleet unit :=
  modify (λ s, s <| trackedRestartAlerts ::= λ m, m ∖ {[id]} |>).

Definition TrackRestartAlerts (ids : list string) : M fleet unit :=
  modify (λ s, s <| trackedRestartAlerts ::= union (list_to_set ids) |>).

Definition restart_recovered (c : Container) (t : Z) : payload :=
  PMap [("container_id", VString (ct_ID c)); ("container_name", VString (ct_Name c)); ("timestamp", VTime t);
        ("agent_id", VString (ct_AgentID c))].

(** ** Reconciliation with the local runtime *)

Definition archived_data (c : Container) (t : Z) : payload :=
  PMap [("id", VString (ct_ID c)); ("archived_at", VTime t); ("agent_id", VString (ct_AgentID c))].

(** One stored container the runtime no longer has, or [dc], what it says of it. *)
Definition reconcile_stored (current : gmap string Container) (t : Z) (sc : Container) : M fleet unit :=
  match current !! ct_ExternalID sc with
  | None =>
    do! ArchiveContainer (ct_ID sc) t in
    do! untrackRestartAlert (ct_ID sc) in
    emitContainer ContainerArchived (archived_data sc t)
  | Some dc =>
    let metadataChanged := negb (bool_decide (image_fields sc = image_fields dc)) in
    let sc := sc <| ct_ImageVersion := ct_ImageVersion dc |> <| ct_ImageSource := ct_ImageSource dc |>
                 <| ct_ImageURL := ct_ImageURL dc |> <| ct_ImageDescription := ct_ImageDescription dc |> in
    let '(sc, labelsChanged) := adoptLabelFields dc sc in
    if bool_decide (ct_State sc = ct_State dc) then
      if metadataChanged || labelsChanged then do! UpdateContainer sc in ret tt else ret tt
    else
      let previousState := ct_State sc in
      do! InsertTransition (MkTransition "" (ct_ID sc) previousState (ct_State dc) None None None "" t) in
      let sc := sc <| ct_State := ct_State dc |> <| ct_LastStateChangeAt := t |> in
      do! UpdateContainer sc in
      if ct_IsIgnored sc then ret tt
      else emitContainer ContainerStateChanged
        (PMap [("id", VString (ct_ID sc)); ("state", VString (ct_State dc)); ("previous_state", VString previousState);
               ("timestamp", VTime t); ("agent_id", VString (ct_AgentID sc))])
  end.

(** One container of the runtime that is not stored, or archived. *)
Definition reconcile_new (stored : list Container) (t : Z) (dc : Container) : M fleet unit :=
  if existsb (λ sc, bool_decide (ct_ExternalID sc = ct_ExternalID dc)) stored then ret tt
  else
    let! r := InsertContainer dc in
    match r with
    | Err _ => ret tt
    | Ok dc =>
      when! negb (bool_decide (ct_State dc = StateCreated)) then
        (do! InsertTransition (MkTransition "" (ct_ID dc) StateCreated (ct_State dc) None None None "" t) in ret tt) in
      if ct_IsIgnored dc then ret tt else emitContainer ContainerDiscovered (PContainer dc)
    end.

Definition by_external_id (current : list Container) : gmap string Container :=
  foldl (λ m c, <[ct_ExternalID c := c]> m) ∅ current.

Definition local_containers : ListContainersOpts := MkListContainersOpts false true "" "" (Some LocalAgent).

Definition Reconcile (discover : nat → result (list Container)) : M fleet (result unit) :=
  let? current := ask discover in
  let? stored := ListContainers local_containers in
  let! t := now in
  do! for_each stored (reconcile_stored (by_external_id current) t) in
  do! for_each current (reconcile_new stored t) in
  ret (Ok tt).

(** ** Events of the runtime *)

Definition recordID (evt : ContainerEvent) (record : string) : string :=
  if bool_decide (ce_EventID evt = "") then ""
  else EventRecord (uid_Agent (ce_AgentID evt)) (ce_EventID evt) [record; ce_ExternalID evt].

Definition container_lookup (evt : ContainerEvent) : M fleet (result (option Container)) :=
  GetContainerByExternalID (uid_Agent (ce_AgentID evt)) (ce_ExternalID evt).

Definition replayTimelineDepth : nat := 50.

(** The health of the first transition that has one. *)
Definition first_health (l : list StateTransition) : option string :=
  head (omap st_NewHealth l).

(** The state and the health at [ts] according to the transitions. *)
Definition timelineAt (c : Container) (ts : Z) : M fleet (result (string * option string)) :=
  let? transitions := ListTransitionsUntil (ct_ID c) ts replayTimelineDepth in
  let state := match transitions with t :: _ => st_NewState t | [] => ct_State c end in
  ret (Ok (state, match first_health transitions with Some h => Some h | None => ct_HealthStatus c end)).

(** The log lines of the run that ended at [exitedAt]. *)
Definition fetchExitSnippet (f : LogFetcher) (externalID : string) (exitedAt : Z) : M fleet (result string) :=
  let! since := match StartedAt f with
                | Some started =>
                  let! r := ask (λ n, started n externalID) in
                  ret (match r with
                       | Ok t => if is_zero t || bool_decide (exitedAt < t) then zero_time else t
                       | Err _ => zero_time
                       end)
                | None => ret zero_time
                end in
  let! known := gets (λ s, localStarts s !! externalID) in
  do! modify (λ s, s <| localStarts ::= delete externalID |>) in
  let since := match known with
               | Some t => if is_zero since then t else since
               | None => since
               end in
  match FetchLogSnippetSince f with
  | Some fetch =>
    if is_zero since then ask (λ n, FetchLogSnippet f n externalID)
    else ask (λ n, fetch n externalID since)
  | None => ask (λ n, FetchLogSnippet f n externalID)
  end.

(** The restart check after a container went back to running. *)
Definition check_restarts (c : Container) (t : Z) : M fleet unit :=
  let! r := RestartDetector_Check c in
  match r with
  | Err _ => ret tt
  | Ok (Some ra) =>
    do! trackRestartAlert (ct_ID c) in
    emitContainer ContainerRestartAlert (PRestart ra)
  | Ok None =>
    do! untrackRestartAlert (ct_ID c) in
    emitContainer ContainerRestartRecover (restart_recovered c t)
  end.

(** The row of a state change: the exit code, and on a death the log snippet. *)
Definition exit_snippet (evt : ContainerEvent) (c : Container) : M fleet string :=
  match logFetcher with
  | Some f =>
    if bool_decide (ce_Action evt = "die") && bool_decide (ct_AgentID c = LocalAgent) then
      let! r := fetchExitSnippet f (ce_ExternalID evt) (ce_Timestamp evt) in
      ret (match r with Ok snippet => snippet | Err _ => "" end)
    else ret ""
  | None => ret ""
  end.

Definition exit_code (evt : ContainerEvent) : option Z :=
  if bool_decide (ce_ExitCode evt = "") then None else Some (parseExitCode (ce_ExitCode evt)).

Definition crashed (state : string) : bool := bool_decide (state = StateRestarting) || bool_decide (state = StateExited).

(** From the previous state on: the row, the transition, the restart check. *)
Definition change_state (evt : ContainerEvent) (newState : string) (c : Container) (previousState : string)
    : M fleet unit :=
  if bool_decide (previousState = newState) then ret tt
  else
    let c := if ce_Replayed evt then c
             else c <| ct_State := newState |> <| ct_LastStateChangeAt := ce_Timestamp evt |> in
    let! written := (if ce_Replayed evt then ret (Ok tt) else UpdateContainer c) in
    match written with
    | Err _ => ret tt
    | Ok _ =>
      let! snippet := exit_snippet evt c in
      do! InsertTransition (MkTransition (recordID evt "state_transition") (ct_ID c) previousState newState
            None None (exit_code evt) snippet (ce_Timestamp evt)) in
      if ce_Replayed evt then ret tt
      else
        when! bool_decide (newState = StateRunning) && crashed previousState && hasRestartChecker then
          check_restarts c (ce_Timestamp evt) in
        emitContainer ContainerStateChanged
          (PMap [("id", VString (ct_ID c)); ("state", VString newState); ("previous_state", VString previousState);
                 ("health_status", VStringPtr (ct_HealthStatus c)); ("exit_code", VIntPtr (exit_code evt));
                 ("timestamp", VTime (ce_Timestamp evt)); ("agent_id", VString (ct_AgentID c))])
    end.

Definition handleStateChange (evt : ContainerEvent) (newState : string) : M fleet unit :=
  let! found := container_lookup evt in
  match found with
  | Err _ => ret tt
  | Ok None =>
    match discoverer with
    | Some discover =>
      if bool_decide (newState = StateRunning) && bool_decide (uid_Agent (ce_AgentID evt) = LocalAgent)
      then do! Reconcile discover in ret tt
      else ret tt
    | None => ret tt
    end
  | Ok (Some c) =>
    if ct_IsIgnored c then ret tt
    else if ce_Replayed evt then
      let! r := timelineAt c (ce_Timestamp evt) in
      match r with
      | Err _ => ret tt
      | Ok (previousState, _) => change_state evt newState c previousState
      end
    else change_state evt newState c (ct_State c)
  end.

Definition handleDestroy (evt : ContainerEvent) : M fleet unit :=
  do! modify (λ s, s <| localStarts ::= delete (ce_ExternalID evt) |>) in
  let! found := container_lookup evt in
  match found with
  | Ok (Some c) =>
    let! r := ArchiveContainer (ct_ID c) (ce_Timestamp evt) in
    match r with
    | Err _ => ret tt
    | Ok _ =>
      do! untrackRestartAlert (ct_ID c) in
      emitContainer ContainerArchived (archived_data c (ce_Timestamp evt))
    end
  | _ => ret tt
  end.

(** From the previous state and health on. *)
Definition change_health (evt : ContainerEvent) (c : Container) (state : string) (previousHealth : option string)
    : M fleet unit :=
  let newHealth := ce_HealthStatus evt in
  let c := if ce_Replayed evt then c
           else c <| ct_HealthStatus := Some newHealth |> <| ct_LastStateChangeAt := ce_Timestamp evt |> in
  let! written := (if ce_Replayed evt then ret (Ok tt) else UpdateContainer c) in
  match written with
  | Err _ => ret tt
  | Ok _ =>
    do! InsertTransition (MkTransition (recordID evt "health_transition") (ct_ID c) state state
          previousHealth (Some newHealth) None "" (ce_Timestamp evt)) in
    if ce_Replayed evt then ret tt
    else emitContainer ContainerHealthChanged
      (PMap [("id", VString (ct_ID c)); ("container_name", VString (ct_Name c)); ("health_status", VString newHealth);
             ("previous_health", VStringPtr previousHealth); ("timestamp", VTime (ce_Timestamp evt));
             ("agent_id", VString (ct_AgentID c))])
  end.

Definition handleHealthChange (evt : ContainerEvent) : M fleet unit :=
  let! found := container_lookup evt in
  match found with
  | Ok (Some c) =>
    if ct_IsIgnored c then ret tt
    else if ce_Replayed evt then
      let! r := timelineAt c (ce_Timestamp evt) in
      match r with
      | Err _ => ret tt
      | Ok (state, previousHealth) =>
        if bool_decide (previousHealth = Some (ce_HealthStatus evt)) then ret tt
        else change_health evt c state previousHealth
      end
    else change_health evt c (ct_State c) (ct_HealthStatus c)
  | _ => ret tt
  end.

Definition ProcessEvent (evt : ContainerEvent) : M fleet unit :=
  let action := ce_Action evt in
  if bool_decide (action = "start") then
    when! bool_decide (uid_Agent (ce_AgentID evt) = LocalAgent) && negb (is_zero (ce_Timestamp evt)) then
      modify (λ s, s <| localStarts ::= <[ce_ExternalID evt := ce_Timestamp evt]> |>) in
    handleStateChange evt StateRunning
  else if bool_decide (action = "stop") then
    let! found := container_lookup evt in
    match found with
    | Ok (Some c) => if bool_decide (ct_State c = StateCompleted) then ret tt else handleStateChange evt StateExited
    | _ => handleStateChange evt StateExited
    end
  else if bool_decide (action = "die") then
    handleStateChange evt (if clean_exit_text (ce_ExitCode evt) (ce_OOMKilled evt) then StateCompleted else StateExited)
  else if bool_decide (action = "pause") then handleStateChange evt StatePaused
  else if bool_decide (action = "unpause") then handleStateChange evt StateRunning
  else if bool_decide (action = "destroy") then handleDestroy evt
  else if bool_decide (action = "health_status") then handleHealthChange evt
  else ret tt.

Definition DeleteContainer (id : string) : M fleet (result unit) :=
  do? DeleteContainerByID id in
  do! untrackRestartAlert id in
  do! emitContainer ContainerArchived (PMap [("id", VString id)]) in
  ret (Ok tt).

(** ** The recovery loop *)

Definition recheckRestartRecovery (id : string) : M fleet unit :=
  let! found := GetContainerByID id in
  match found with
  | Err _ => ret tt
  | Ok None => untrackRestartAlert id
  | Ok (Some c) =>
    if ct_Archived c then untrackRestartAlert id
    else if negb (bool_decide (ct_State c = StateRunning)) then ret tt
    else
      let! r := RestartDetector_Check c in
      match r with
      | Ok None =>
        do! untrackRestartAlert id in
        let! t := now in
        emitContainer ContainerRestartRecover (restart_recovered c t)
      | _ => ret tt
      end
  end.

(** One tick of the loop; it is not started without a checker. *)
Definition checkRestartRecoveries : M fleet unit :=
  let! ids := gets (λ s, elements (trackedRestartAlerts s)) in
  for_each ids recheckRestartRecovery.
End Service.
