(* ===== verification/ContainerAgent.v ===== *)
(** * Containers: events and inventories of agents

    [src/internal/container/agent_event.go] and [agent_details.go]: a remote
    agent's containers never go through the reconciliation with the local runtime;
    they are inserted, refreshed and archived here.  Warnings about unknown labels
    only go to the log and are left out. *)

From S2P Require Import Prelude.
From S2P Require Import Tables.
From S2P Require Import GoStrings.
From S2P Require Import AlertModel.
From S2P Require Import Uid.
From S2P Require Import SwarmAlerts.
From S2P Require Import EndpointService.
From S2P Require Import Container.
From S2P Require Import ContainerStore.
From S2P Require Import ContainerService.

#[local] Open Scope string_scope.
#[local] Open Scope list_scope.
#[local] Open Scope Z_scope.

(** ** Messages of the protocol *)

Inductive pb_ContainerState :=
  | CONTAINER_STATE_UNSPECIFIED
  | CONTAINER_STATE_CREATED
  | CONTAINER_STATE_RUNNING
  | CONTAINER_STATE_PAUSED
  | CONTAINER_STATE_RESTARTING
  | CONTAINER_STATE_REMOVING
  | CONTAINER_STATE_EXITED
  | CONTAINER_STATE_DEAD.

Record pb_ContainerEvent := MkContainerMessage {
  pc_ContainerId : string;
  pc_Name : string;
  pc_Image : string;
  pc_State : pb_ContainerState;
  pc_StatusMessage : string;
  pc_StartedAt : option Z;
  pc_Labels : gmap string string;
  pc_HealthStatus : string;
  pc_HasHealthCheck : bool;
  pc_Destroyed : bool;
  pc_RepoDigests : option (list string);
  pc_OomKilled : bool;
}.

Definition ErrInvalid := ESentinel "invalid agent event".
Definition maxInventoryContainers : Z := 10000.
Definition maxContainerLabels : Z := 256.

Definition checkLabelCount (ev : pb_ContainerEvent) : result unit :=
  if bool_decide (maxContainerLabels < Z.of_nat (size (pc_Labels ev))) then Err ErrInvalid else Ok tt.

(** The event's start when present. *)
Definition agentEventTime (ev : pb_ContainerEvent) (meta : Meta) : Z := default (me_ObservedAt meta) (pc_StartedAt ev).

Definition containerStateToState (state : pb_ContainerState) : string :=
  match state with
  | CONTAINER_STATE_RUNNING => StateRunning
  | CONTAINER_STATE_EXITED => StateExited
  | CONTAINER_STATE_PAUSED => StatePaused
  | CONTAINER_STATE_RESTARTING => StateRestarting
  | CONTAINER_STATE_DEAD => StateDead
  | CONTAINER_STATE_CREATED => StateCreated
  | _ => StateRunning
  end.

Definition agentContainerState (ev : pb_ContainerEvent) : string :=
  let state := containerStateToState (pc_State ev) in
  if bool_decide (state = StateExited) && clean_exit_text (pc_StatusMessage ev) (pc_OomKilled ev)
  then StateCompleted else state.

(** The empty action is none at all. *)
Definition containerStateToAction (ev : pb_ContainerEvent) : string :=
  match pc_State ev with
  | CONTAINER_STATE_RUNNING => "start"
  | CONTAINER_STATE_EXITED => if bool_decide (pc_StatusMessage ev = "") then "stop" else "die"
  | CONTAINER_STATE_PAUSED => "pause"
  | CONTAINER_STATE_RESTARTING => "restart"
  | CONTAINER_STATE_DEAD => "die"
  | CONTAINER_STATE_CREATED => "create"
  | _ => ""
  end.

Section Agent.
Context `{Uid : !Uuid} `{Deps : !ContainerDeps}.
Context (json : list (string * value) → details).

(** ** What an agent reported and the store does not keep *)

Definition recordAgentDetails (agentID : string) (ev : pb_ContainerEvent) : M fleet unit :=
  modify (λ s,
    let key := (agentID, pc_ContainerId ev) in
    let d := default (MkAgentDetails ∅ [] false) (agentDetails s !! key) in
    let d := if bool_decide (pc_Labels ev = ∅) then d else d <| ad_UpdateLabels := UpdateLabels (pc_Labels ev) |> in
    let d := match pc_RepoDigests ev with
             | Some digests => d <| ad_RepoDigests := digests |> <| ad_DigestsKnown := true |>
             | None => d
             end in
    s <| agentDetails ::= <[key := d]> |>).

Definition forgetAgentDetails (agentID externalID : string) : M fleet unit :=
  modify (λ s, s <| agentDetails ::= delete (agentID, externalID) |>).

(** ** One container of an agent *)

Definition resolveAgentRuntime (agentID : string) : M fleet string :=
  match agentRuntime with
  | None => ret "docker"
  | Some detect =>
    let! r := ask (λ n, detect n agentID) in
    ret (match r with
         | Ok rt => if bool_decide (rt = "") then "docker" else rt
         | Err _ => "docker"
         end)
  end.

(** The container a first report makes. *)
Definition agent_container (agentID runtime : string) (ev : pb_ContainerEvent) (t : Z) : Container :=
  let labels := pc_Labels ev in
  let state := agentContainerState ev in
  let c := no_container
    <| ct_ExternalID := pc_ContainerId ev |>
    <| ct_HasHealthCheck := pc_HasHealthCheck ev || negb (bool_decide (pc_HealthStatus ev = "")) |>
    <| ct_AgentID := agentID |> <| ct_Name := pc_Name ev |> <| ct_Image := pc_Image ev |> <| ct_State := state |>
    <| ct_OrchestrationGroup := OrchestrationGroupFromLabels labels |>
    <| ct_OrchestrationUnit := label labels labelComposeService |>
    <| ct_ComposeWorkingDir := label labels labelComposeWorkingDir |>
    <| ct_RuntimeType := runtime |> <| ct_PodCount := 1 |>
    <| ct_ReadyCount := if bool_decide (state = StateRunning) then 1 else 0 |>
    <| ct_AlertSeverity := container_SeverityWarning |> <| ct_RestartThreshold := 3 |>
    <| ct_FirstSeenAt := t |> <| ct_LastStateChangeAt := t |>
    <| ct_HealthStatus := if bool_decide (pc_HealthStatus ev = "") then None else Some (pc_HealthStatus ev) |> in
  (ApplyImageLabels labels (ApplySwarmTaskLabels labels (applyAgentLabels labels c))).1.

Definition insertAgentContainer (agentID : string) (ev : pb_ContainerEvent) (meta : Meta) : M fleet (result unit) :=
  let state := agentContainerState ev in
  let t := agentEventTime ev meta in
  let! runtime := resolveAgentRuntime agentID in
  let? c := InsertContainer (agent_container agentID runtime ev t) in
  do? (if me_Replayed meta then ArchiveContainer (ct_ID c) t else ret (Ok tt)) in
  when! negb (bool_decide (state = StateCreated)) then
    (do! InsertTransition (MkTransition "" (ct_ID c) StateCreated state None None None "" t) in ret tt) in
  if me_Replayed meta || ct_IsIgnored c then ret (Ok tt)
  else do! emitContainer json ContainerDiscovered (PContainer c) in ret (Ok tt).

(** What a report changes in a stored container, and whether it does. *)
Definition refreshed (ev : pb_ContainerEvent) (c : Container) : Container * bool :=
  let labels := pc_Labels ev in
  let '(c, dirty) := if negb (bool_decide (pc_Image ev = "")) && negb (bool_decide (pc_Image ev = ct_Image c))
                     then (c <| ct_Image := pc_Image ev |>, true) else (c, false) in
  let '(c, dirty) := if bool_decide (labels = ∅) then (c, dirty)
                     else let '(c, ch1) := ApplyImageLabels labels c in
                          let '(c, ch2) := adoptLabelFields (agentLabelFields labels) c in
                          (c, dirty || ch1 || ch2) in
  let '(c, dirty) := if pc_HasHealthCheck ev && negb (ct_HasHealthCheck c)
                     then (c <| ct_HasHealthCheck := true |>, true) else (c, dirty) in
  if ct_Archived c then (c <| ct_Archived := false |> <| ct_ArchivedAt := None |>, true) else (c, dirty).

Definition refreshAgentContainer (c : Container) (ev : pb_ContainerEvent) : M fleet (result unit) :=
  let '(c, dirty) := refreshed ev c in
  if dirty then UpdateContainer c else ret (Ok tt).

Definition base_event (agentID : string) (ev : pb_ContainerEvent) (meta : Meta) : ContainerEvent :=
  MkContainerEvent "" agentID (pc_ContainerId ev) (pc_Name ev) "" false "" "" (agentEventTime ev meta)
    (me_Replayed meta) (me_EventID meta).

Definition health_report (ev : pb_ContainerEvent) (meta : Meta) (c : Container) : bool :=
  negb (bool_decide (pc_HealthStatus ev = ""))
  && (me_Replayed meta || negb (bool_decide (ct_HealthStatus c = Some (pc_HealthStatus ev)))).

(** A report about a container that is stored. *)
Definition agent_report (agentID : string) (ev : pb_ContainerEvent) (meta : Meta) (c : Container)
    : M fleet (result unit) :=
  let base := base_event agentID ev meta in
  do? (if me_Replayed meta then ret (Ok tt) else refreshAgentContainer c ev) in
  when! health_report ev meta c then
    ProcessEvent json (base <| ce_Action := "health_status" |> <| ce_HealthStatus := pc_HealthStatus ev |>) in
  let action := containerStateToAction ev in
  when! negb (bool_decide (action = "")) then
    ProcessEvent json (base <| ce_Action := action |> <| ce_ExitCode := pc_StatusMessage ev |>
      <| ce_OOMKilled := pc_OomKilled ev |>) in
  ret (Ok tt).

Definition HandleContainerEvent (agentID : string) (ev : pb_ContainerEvent) (meta : Meta) : M fleet (result unit) :=
  if bool_decide (pc_ContainerId ev = "") then ret (Ok tt)
  else match checkLabelCount ev with
  | Err e => ret (Err e)
  | Ok _ =>
    let? found := GetContainerByExternalID (uid_Agent agentID) (pc_ContainerId ev) in
    if pc_Destroyed ev then
      do! forgetAgentDetails agentID (pc_ContainerId ev) in
      when! negb (bool_decide (found = None)) then
        ProcessEvent json (base_event agentID ev meta <| ce_Action := "destroy" |>) in
      ret (Ok tt)
    else
      when! negb (me_Replayed meta) then recordAgentDetails agentID ev in
      match found with
      | None => insertAgentContainer agentID ev meta
      | Some c => agent_report agentID ev meta c
      end
  end.

(** ** The inventory *)

(** A loop whose body may fail, and ends the handler when it does. *)
Fixpoint for_each_ok {A} (l : list A) (body : A → M fleet (result unit)) : M fleet (result unit) :=
  match l with
  | [] => ret (Ok tt)
  | a :: l => do? body a in for_each_ok l body
  end.

Definition agent_containers (agentID : string) : ListContainersOpts :=
  MkListContainersOpts false true "" "" (Some agentID).

(** A stored container that the snapshot omits. *)
Definition retire_container (agentID : string) (live : gset string) (t : Z) (sc : Container) : M fleet unit :=
  if bool_decide (ct_ExternalID sc ∈ live) then ret tt
  else
    let! r := ArchiveContainer (ct_ID sc) t in
    match r with
    | Err _ => ret tt
    | Ok _ =>
      do! forgetAgentDetails agentID (ct_ExternalID sc) in
      do! untrackRestartAlert (ct_ID sc) in
      emitContainer json ContainerArchived (archived_data sc t)
    end.

Definition live_ids (reported : list pb_ContainerEvent) : gset string :=
  list_to_set (filter (λ id, id ≠ "") (pc_ContainerId <$> reported)).

Definition HandleAgentInventory (agentID : string) (reported : list pb_ContainerEvent) (complete : bool) (meta : Meta)
    : M fleet (result unit) :=
  if bool_decide (reported = []) && negb complete then ret (Ok tt)
  else if bool_decide (maxInventoryContainers < Z.of_nat (length reported)) then ret (Err ErrInvalid)
  else if existsb (λ c, negb (is_ok (checkLabelCount c))) reported then ret (Err ErrInvalid)
  else
    do? for_each_ok reported (λ c,
      if bool_decide (pc_ContainerId c = "") then ret (Ok tt) else HandleContainerEvent agentID c meta) in
    let? stored := ListContainers (agent_containers agentID) in
    let! t := now in
    do! for_each stored (retire_container agentID (live_ids reported) t) in
    ret (Ok tt).
End Agent.
