(* ===== verification/ContainerSafe.v ===== *)
(** * Containers: what no operation may break

    Whatever events, inventories, discoveries and deletions come, and whatever
    calls fail, the stored containers stay well formed, every transition belongs to
    a stored container, and what one agent sends never changes a row or a report of
    another. *)

From S2P Require Import Prelude.
From S2P Require Import Tables.
From S2P Require Import GoStrings.
From S2P Require Import AlertModel.
From S2P Require Import Uid.
From S2P Require Import SwarmAlerts.
From S2P Require Import EndpointService.
From S2P Require Import Container.
From S2P Require Import ContainerStore.
From S2P Require Import ContainerService.
From S2P Require Import ContainerAgent.

#[local] Open Scope string_scope.
#[local] Open Scope list_scope.
#[local] Open Scope Z_scope.

Section Safe.
Context `{Uid : !Uuid} `{Deps : !ContainerDeps}.
Context (json : list (string * value) → details).
(** The hosts: the server's own and the enrolled agents.  Their identifiers have
    no surrounding space, and no two of them derive the same container id. *)
Context (hosts : gset string).
Context (local_host : LocalAgent ∈ hosts).
Context (hosts_named : ∀ a, a ∈ hosts → uid_Agent a = a).
Context (hosts_apart : ∀ a e a' e', a ∈ hosts → a' ∈ hosts → uid_Container a e = uid_Container a' e' → a = a').
(** The local runtime reports containers of its own, none of them archived. *)
Context (discovered_ok : ∀ discover n cs c, discoverer = Some discover → discover n = Ok cs → c ∈ cs →
  uid_Agent (ct_AgentID c) = LocalAgent ∧ ct_Archived c = false).

(** What the service may assume of a container it was handed. *)
Definition known (c : Container) : Prop :=
  ct_ID c = uid_Container (ct_AgentID c) (ct_ExternalID c) ∧ ct_AgentID c ∈ hosts
  ∧ (ct_Archived c = true → ct_ArchivedAt c ≠ None).

Definition whole (t : Z) : Prop := db_time t = t.

(** The type of a stored container. *)
Record stored_ok (c : Container) : Prop := {
  so_known : known c;
  so_check : container_check c = true;
  so_first : whole (ct_FirstSeenAt c);
  so_change : whole (ct_LastStateChangeAt c);
  so_archived : ∀ t, ct_ArchivedAt c = Some t → whole t;
}.

(** Whose containers may change: the others are frozen, their rows being [X] and
    their reports [D]. *)
Context (own : string → bool) (X : list Container) (D : string * string → option AgentDetails).

Record fleet_ok (s : fleet) : Prop := {
  fo_ids : NoDup (table_ids (db_containers s));
  fo_rows : ∀ c, c ∈ db_containers s → stored_ok c;
  fo_tids : NoDup (table_ids (db_transitions s));
  fo_refs : ∀ t, t ∈ db_transitions s → st_ContainerID t ∈ table_ids (db_containers s);
  fo_others : filter (λ c, own (ct_AgentID c) = false) (db_containers s) = X;
  fo_details : ∀ k, own k.1 = false → agentDetails s !! k = D k;
}.

Definition inv (w : world fleet) : Prop := fleet_ok (w_st w).

#[local] Instance inv_stable : Stable inv.
Proof. intros w w' (Hs & _ & _). unfold inv. by rewrite Hs. Qed.

(** A container this operation may write. *)
Definition mine (c : Container) : Prop := known c ∧ own (ct_AgentID c) = true.

(** ** Statements *)

Lemma whole_db_time t : whole (db_time t).
Proof. apply db_time_idemp. Qed.

Lemma fleet_same s s' :
  fleet_ok s → db_containers s' = db_containers s → db_transitions s' = db_transitions s →
  agentDetails s' = agentDetails s → fleet_ok s'.
Proof. intros [] E1 E2 E3. split; rewrite ?E1, ?E2, ?E3; done. Qed.

Lemma filter_update id f (rows : list Container) :
  (∀ r, r ∈ rows → ct_ID r = id → own (ct_AgentID r) = true ∧ own (ct_AgentID (f r)) = true) →
  filter (λ c, own (ct_AgentID c) = false) (update_id id f rows) = filter (λ c, own (ct_AgentID c) = false) rows.
Proof.
  unfold update_id, update_where. induction rows as [|r rows IH]; intros Hf; [done|].
  rewrite fmap_cons, !filter_cons. rewrite IH by (intros; apply Hf; [by right|done]).
  case_bool_decide as Hid; [|done]. destruct (Hf r ltac:(left) Hid) as [H1 H2].
  by rewrite !decide_False by congruence.
Qed.

Lemma fleet_update s id f :
  fleet_ok s →
  (∀ r, r ∈ db_containers s → ct_ID r = id →
    stored_ok (f r) ∧ ct_ID (f r) = id ∧ own (ct_AgentID r) = true ∧ own (ct_AgentID (f r)) = true) →
  fleet_ok (s <| db_containers ::= update_id id f |>).
Proof.
  intros [Hids Hrows Htids Hrefs Hoth Hdet] Hf.
  assert (table_ids (update_id id f (db_containers s)) = table_ids (db_containers s)) as Hsame.
  { unfold table_ids, update_id, update_where. rewrite <- list_fmap_compose. apply list_fmap_ext.
    intros i r Hr%list_elem_of_lookup_2. cbn. case_bool_decide as Hid; [|done].
    change (ct_ID (f r) = ct_ID r). destruct (Hf r Hr Hid) as (_ & -> & _). by symmetry. }
  split; cbn; rewrite ?Hsame; try done.
  - intros c (r & Hr & ->)%update_where_elem. case_bool_decide as Hid; [by apply Hf|by apply Hrows].
  - rewrite filter_update; [done|]. intros r Hr Hid. by destruct (Hf r Hr Hid) as (_ & _ & ? & ?).
Qed.

Lemma ok_insert s c :
  fleet_ok s → stored_ok c → own (ct_AgentID c) = true → ct_ID c ∉ table_ids (db_containers s) →
  fleet_ok (s <| db_containers ::= λ l, l ++ [c] |>).
Proof.
  intros [Hids Hrows Htids Hrefs Hoth Hdet] Hc Hown Hfresh. split; cbn; try done.
  - apply (insert_row_ids c (db_containers s)); [apply insert_row_Some; split; [exact Hfresh|done]|done].
  - intros r [Hr| ->%list_elem_of_singleton]%elem_of_app; [by apply Hrows|done].
  - intros t Ht. unfold table_ids. rewrite fmap_app. apply elem_of_app. left. by apply Hrefs.
  - rewrite filter_app, Hoth, filter_cons, decide_False by congruence. by rewrite app_nil_r.
Qed.

(** A row with the id of a container of mine is of the same host. *)
Lemma same_host s c r :
  fleet_ok s → mine c → r ∈ db_containers s → ct_ID r = ct_ID c → ct_AgentID r = ct_AgentID c.
Proof.
  intros Hs [(Hid & Hh & _) _] Hr Heq. destruct (so_known r (fo_rows s Hs r Hr)) as (Hid' & Hh' & _).
  apply (hosts_apart _ (ct_ExternalID r) _ (ct_ExternalID c)); [done..|congruence].
Qed.

Lemma host_normal c : known c → uid_Agent (ct_AgentID c) = ct_AgentID c.
Proof. intros (_ & Hh & _). by apply hosts_named. Qed.

Lemma upholds_UpdateContainer c : mine c → upholds inv anything (UpdateContainer c).
Proof.
  intros Hc. unfold UpdateContainer. eapply upholds_bind; [apply upholds_fault, _|]. intros b _.
  destruct b; [by apply upholds_ret|]. destruct (container_check c) eqn:Hck; [|by apply upholds_ret]. cbn [orb negb].
  eapply upholds_bind; [apply upholds_modify|intros; by apply upholds_ret].
  intros w Hw. apply (fleet_update (w_st w)); [done|]. intros r Hr Hid.
  pose proof (same_host _ _ _ Hw Hc Hr Hid) as Hag. destruct (fo_rows _ Hw r Hr) as [(Kid & Kh & Ka) Kc Kf Kl Kar].
  destruct Hc as [Hk Hown]. pose proof (host_normal c Hk) as Hn. destruct Hk as (Hcid & Hch & Hca).
  split_and!; [split| |by rewrite Hag|cbn; by rewrite Hn].
  - split_and!; cbn.
    + rewrite Hn, Kid. by rewrite Hag.
    + by rewrite Hn.
    + intros Harc%Hca. by destruct (ct_ArchivedAt c).
  - exact Hck.
  - exact Kf.
  - apply whole_db_time.
  - cbn. intros t Ht. apply fmap_Some in Ht as (t' & _ & ->). apply whole_db_time.
  - done.
Qed.

Lemma upholds_InsertContainer c :
  uid_Agent (ct_AgentID c) ∈ hosts → own (uid_Agent (ct_AgentID c)) = true → ct_Archived c = false →
  upholds inv (res_ok mine) (InsertContainer c).
Proof.
  intros Hh Hown Harc. unfold InsertContainer. set (c' := named_container c).
  assert (mine c') as Hmine by (split; [split_and!; [done|done|cbn; congruence]|done]).
  eapply upholds_bind; [apply upholds_fault, _|]. intros b _.
  destruct b; [by apply upholds_ret|]. destruct (container_check c') eqn:Hck; [|by apply upholds_ret]. cbn [orb negb].
  intros w Hw. apply wp_bind, wp_gets. case_bool_decide as Hin.
  - apply wp_bind, wp_modify, wp_ret. split; [done|]. apply (fleet_update (w_st w)); [done|]. intros r Hr Hid.
    pose proof (same_host _ _ _ Hw Hmine Hr Hid) as Hag. destruct (fo_rows _ Hw r Hr) as [(Kid & Kh & Ka) Kc Kf Kl Kar].
    split_and!; [split| |by rewrite Hag|done].
    + split_and!; cbn.
      * change (ct_ID c' = uid_Container (ct_AgentID c') (ct_ExternalID r)). by rewrite <- Hid, Kid, Hag.
      * done.
      * congruence.
    + exact Hck.
    + exact Kf.
    + apply whole_db_time.
    + exact Kar.
    + done.
  - destruct (existsb _ _); [by apply wp_ret|]. apply wp_bind, wp_modify, wp_ret. split; [done|].
    apply (ok_insert (w_st w)); [done| |done|done]. split; cbn; [|exact Hck|apply whole_db_time|apply whole_db_time|done].
    split_and!; [done|done|cbn; congruence].
Qed.

Lemma ok_archive s c t :
  fleet_ok s → mine c →
  fleet_ok (s <| db_containers ::=
    update_where (λ r, bool_decide (ct_ID r = ct_ID c) && negb (ct_Archived r)) (archived_row t) |>).
Proof.
  intros Hw Hc. eapply (fleet_same (s <| db_containers ::= update_id (ct_ID c)
    (λ r, if ct_Archived r then r else archived_row t r) |>)); [|cbn|done|done].
  - apply (fleet_update s); [done|]. intros r Hr Hid. pose proof (same_host _ _ _ Hw Hc Hr Hid) as Hag.
    destruct (fo_rows _ Hw r Hr) as [(Kid & Kh & Ka) Kc Kf Kl Kar]. rewrite Hag.
    assert (stored_ok (if ct_Archived r then r else archived_row t r)) as Hok.
    { destruct (ct_Archived r) eqn:Harc; [by apply (fo_rows _ Hw)|]. split; cbn; [|exact Kc|exact Kf|exact Kl|intros t' [= <-]; apply whole_db_time].
      by split_and!. }
    split; [exact Hok|]. split; [by destruct (ct_Archived r)|]. split; [apply Hc|].
    destruct (ct_Archived r); cbn; rewrite Hag; apply Hc.
  - apply list_fmap_ext. intros _ r _. change (row_id r) with (ct_ID r).
    case_bool_decide; cbn; [by destruct (ct_Archived r)|done].
Qed.

Lemma upholds_ArchiveContainer c t : mine c → upholds inv anything (ArchiveContainer (ct_ID c) t).
Proof. intros Hc. apply upholds_db_exec; [apply _|]. intros w Hw. by apply ok_archive. Qed.

Lemma upholds_InsertTransition t : upholds inv anything (InsertTransition t).
Proof.
  unfold InsertTransition. eapply (upholds_bind _ anything); [case_bool_decide; eauto with upholds typeclass_instances|].
  intros id _. eapply upholds_bind; [apply upholds_fault, _|]. intros [] _; [by apply upholds_ret|].
  intros w Hw. apply wp_bind, wp_gets. case_bool_decide as Hin; [|by apply wp_ret]. cbn [negb].
  set (row := t <| st_ID := id |> <| st_Timestamp ::= db_time |>). pose proof Hw as [Hids Hrows Htids Hrefs Hoth Hdet].
  case_bool_decide as Hold; apply wp_bind, wp_modify, wp_ret; (split; [done|]); split; cbn; try done.
  - unfold table_ids, update_id, update_where. rewrite <- list_fmap_compose.
    rewrite (list_fmap_ext _ row_id); [done|]. intros _ r _. cbn. case_bool_decide; [by symmetry|done].
  - intros r (r0 & Hr & ->)%update_where_elem. case_bool_decide; [done|by apply Hrefs].
  - apply (insert_row_ids row (db_transitions (w_st w))); [apply insert_row_Some; split; [exact Hold|done]|done].
  - intros r [Hr| ->%list_elem_of_singleton]%elem_of_app; [by apply Hrefs|done].
Qed.

(** ** Handlers *)

(** A change that touches no row and no report. *)
Lemma upholds_quiet f :
  (∀ s, db_containers (f s) = db_containers s ∧ db_transitions (f s) = db_transitions s
    ∧ agentDetails (f s) = agentDetails s) → upholds inv anything (modify f).
Proof.
  intros Hf. apply upholds_modify. intros w Hw. destruct (Hf (w_st w)) as (?&?&?). by eapply fleet_same.
Qed.

#[local] Hint Extern 1 (upholds _ anything (modify _)) => (apply upholds_quiet; by intros) : upholds.
#[local] Hint Resolve upholds_UpdateContainer upholds_ArchiveContainer upholds_InsertTransition : upholds.

(** Decompose a handler into statements whose results do not matter. *)
Ltac upholds_tac :=
  repeat first
    [ progress intros
    | solve [eauto with upholds typeclass_instances]
    | match goal with
      | |- upholds _ anything (match ?x with _ => _ end) => destruct x eqn:?
      | |- upholds _ (res_ok anything) (match ?x with _ => _ end) => destruct x eqn:?
      end
    | eapply (upholds_bind _ anything)
    | apply upholds_for_each
    | progress cbn beta iota ].

Lemma upholds_emit ty data : upholds inv anything (emitContainer json ty data).
Proof. unfold emitContainer, container_callback, send_signal. upholds_tac. Qed.

Lemma upholds_track id : upholds inv anything (trackRestartAlert id).
Proof. unfold trackRestartAlert. upholds_tac. Qed.

Lemma upholds_untrack id : upholds inv anything (untrackRestartAlert id).
Proof. unfold untrackRestartAlert. upholds_tac. Qed.

#[local] Hint Resolve upholds_emit upholds_track upholds_untrack : upholds.

Lemma upholds_restart_check c : upholds inv (res_ok anything) (RestartDetector_Check c).
Proof.
  unfold RestartDetector_Check, CountRestartsSince.
  eapply (upholds_bind _ anything); [eauto with upholds typeclass_instances|]. intros t _.
  eapply (upholds_let _ anything); [by apply upholds_db_query; [apply _|]|]. intros n _.
  case_bool_decide; [by apply upholds_ret|].
  eapply (upholds_bind _ anything); [eauto with upholds typeclass_instances|]. intros. by apply upholds_ret.
Qed.

Lemma upholds_check_restarts c t : upholds inv anything (check_restarts json c t).
Proof.
  unfold check_restarts. eapply upholds_bind; [apply upholds_restart_check|]. intros [[ra|]|] _; upholds_tac.
Qed.

Lemma known_row w c : inv w → c ∈ db_containers (w_st w) → known c.
Proof. intros Hw Hc. apply (fo_rows _ Hw c Hc). Qed.

Lemma head_elem {A} (p : A → bool) (l : list A) x : head (select_where p l) = Some x → x ∈ l ∧ p x = true.
Proof. intros H%head_Some_elem_of. by apply select_where_elem in H. Qed.

Definition found (a : string) (c : option Container) : Prop :=
  match c with Some c => known c ∧ ct_AgentID c = uid_Agent a | None => True end.

Lemma upholds_get a e : upholds inv (res_ok (found a)) (GetContainerByExternalID a e).
Proof.
  apply upholds_db_query; [apply _|]. intros w Hw. unfold found. case_match eqn:Hc; [|done].
  apply head_elem in Hc as [Hin Hp]. split; [by eapply known_row|].
  unfold of_agent in Hp. by apply andb_true_iff in Hp as [?%bool_decide_eq_true _].
Qed.

Lemma upholds_list opts a :
  lo_AgentFilter opts = Some a →
  upholds inv (res_ok (Forall (λ c, known c ∧ ct_AgentID c = a))) (ListContainers opts).
Proof.
  intros Ha. apply upholds_db_query; [apply _|]. intros w Hw. rewrite merge_sort_Permutation.
  apply Forall_forall. intros c [Hin Hp]%select_where_elem. split; [by eapply known_row|].
  unfold listed in Hp. rewrite Ha in Hp. rewrite !andb_true_iff, bool_decide_eq_true in Hp. tauto.
Qed.

(** *** Reconciliation *)

Lemma mine_same c c' :
  mine c → ct_ID c' = ct_ID c → ct_AgentID c' = ct_AgentID c → ct_ExternalID c' = ct_ExternalID c →
  ct_Archived c' = ct_Archived c → ct_ArchivedAt c' = ct_ArchivedAt c → mine c'.
Proof. intros [(H1&H2&H3) H4] E1 E2 E3 E4 E5. unfold mine, known. by rewrite E1, E2, E3, E4, E5. Qed.

Lemma upholds_reconcile_stored current t sc : mine sc → upholds inv anything (reconcile_stored json current t sc).
Proof.
  intros Hsc. unfold reconcile_stored. destruct (current !! ct_ExternalID sc) as [dc|]; [|upholds_tac].
  cbn [adoptLabelFields]. upholds_tac; apply upholds_UpdateContainer; by apply (mine_same sc).
Qed.

Lemma upholds_reconcile_new stored t dc :
  uid_Agent (ct_AgentID dc) = LocalAgent → ct_Archived dc = false → own LocalAgent = true →
  upholds inv anything (reconcile_new json stored t dc).
Proof.
  intros Ha Harc Hown. unfold reconcile_new. destruct (existsb _ _); [by apply upholds_ret|].
  eapply upholds_bind; [apply upholds_InsertContainer; rewrite ?Ha; done|]. intros [c|e] Hc; [|by apply upholds_ret].
  upholds_tac.
Qed.

Lemma upholds_Reconcile discover :
  discoverer = Some discover → own LocalAgent = true → upholds inv anything (Reconcile json discover).
Proof.
  intros Hd Hown. unfold Reconcile. eapply upholds_any, (upholds_let _ _ anything).
  { intros w Hw. split; [|eapply stable; [|exact Hw]; by split_and!; cbn; [..|lia]].
    instantiate (1 := Forall (λ c, uid_Agent (ct_AgentID c) = LocalAgent ∧ ct_Archived c = false)). cbn.
    destruct (discover (w_tick w)) as [cs|] eqn:E; [|done]. apply Forall_forall. intros c Hc. by eapply discovered_ok. }
  intros current Hcur. eapply upholds_let; [by apply (upholds_list _ LocalAgent)|]. intros stored Hst.
  eapply (upholds_bind _ anything); [eauto with upholds typeclass_instances|]. intros t _.
  rewrite Forall_forall in Hcur, Hst.
  eapply (upholds_bind _ anything).
  { apply upholds_for_each. intros sc Hsc. destruct (Hst _ Hsc) as [Hk Ha].
    apply upholds_reconcile_stored. split; [done|by rewrite Ha]. }
  intros _ _. eapply (upholds_bind _ anything); [|intros; by apply upholds_ret].
  apply upholds_for_each. intros dc Hdc. destruct (Hcur _ Hdc). by apply upholds_reconcile_new.
Qed.

(** *** Events *)

Lemma upholds_fetch f e t : upholds inv anything (fetchExitSnippet f e t).
Proof. unfold fetchExitSnippet, ask. upholds_tac; by apply upholds_gets. Qed.

Lemma upholds_snippet evt c : upholds inv anything (exit_snippet evt c).
Proof. unfold exit_snippet. pose proof upholds_fetch. upholds_tac. Qed.

#[local] Hint Resolve upholds_check_restarts upholds_snippet : upholds.

Lemma upholds_change_state evt new c prev : mine c → upholds inv anything (change_state json evt new c prev).
Proof.
  intros Hc. unfold change_state. case_bool_decide; [by apply upholds_ret|].
  destruct (ce_Replayed evt); upholds_tac; apply upholds_UpdateContainer; by apply (mine_same c).
Qed.

Lemma upholds_timeline c ts : upholds inv (res_ok anything) (timelineAt c ts).
Proof.
  unfold timelineAt, ListTransitionsUntil. eapply (upholds_let _ anything); [|intros; by apply upholds_ret].
  eapply (upholds_let _ anything); [by apply upholds_db_query; [apply _|]|]. intros.
  by apply upholds_db_query; [apply _|].
Qed.

Lemma upholds_lookup evt : upholds inv (res_ok (found (uid_Agent (ce_AgentID evt)))) (container_lookup evt).
Proof. apply upholds_get. Qed.

(** The host of an event is one of the operation's own. *)
Definition allowed (a : string) : Prop := a ∈ hosts ∧ own a = true.

Lemma found_mine a c : allowed (uid_Agent a) → found (uid_Agent a) (Some c) → mine c.
Proof. intros [Ha Ho] [Hk He]. split; [done|]. rewrite He. by rewrite (hosts_named _ Ha). Qed.

Lemma upholds_handleStateChange evt new :
  allowed (uid_Agent (ce_AgentID evt)) → upholds inv anything (handleStateChange json evt new).
Proof.
  intros Ha. unfold handleStateChange. eapply upholds_bind; [apply upholds_lookup|].
  intros [[c|]|] Hc; [| |by apply upholds_ret].
  - pose proof (found_mine _ _ Ha Hc) as Hm. destruct (ct_IsIgnored c); [by apply upholds_ret|].
    destruct (ce_Replayed evt); [|by apply upholds_change_state].
    eapply upholds_bind; [apply upholds_timeline|]. intros [[prev h]|] _; [by apply upholds_change_state|by apply upholds_ret].
  - pose proof upholds_Reconcile as HR. destruct discoverer as [d|]; [|by apply upholds_ret].
    destruct (bool_decide (new = StateRunning)); [|by apply upholds_ret].
    case_bool_decide as Hl; [|by apply upholds_ret].
    eapply (upholds_bind _ anything); [|intros; by apply upholds_ret].
    apply HR; [done|]. rewrite <- Hl. apply Ha.
Qed.

Lemma upholds_handleDestroy evt :
  allowed (uid_Agent (ce_AgentID evt)) → upholds inv anything (handleDestroy json evt).
Proof.
  intros Ha. unfold handleDestroy. eapply (upholds_bind _ anything); [eauto with upholds typeclass_instances|]. intros _ _.
  eapply upholds_bind; [apply upholds_lookup|].
  intros [[c|]|] Hc; [|by apply upholds_ret..]. pose proof (found_mine _ _ Ha Hc) as Hm. upholds_tac.
Qed.

Lemma upholds_change_health evt c state prev : mine c → upholds inv anything (change_health json evt c state prev).
Proof.
  intros Hc. unfold change_health.
  destruct (ce_Replayed evt); upholds_tac; apply upholds_UpdateContainer; by apply (mine_same c).
Qed.

Lemma upholds_handleHealthChange evt :
  allowed (uid_Agent (ce_AgentID evt)) → upholds inv anything (handleHealthChange json evt).
Proof.
  intros Ha. unfold handleHealthChange. eapply upholds_bind; [apply upholds_lookup|].
  intros [[c|]|] Hc; [|by apply upholds_ret..]. pose proof (found_mine _ _ Ha Hc) as Hm.
  destruct (ct_IsIgnored c); [by apply upholds_ret|].
  destruct (ce_Replayed evt); [|by apply upholds_change_health].
  eapply upholds_bind; [apply upholds_timeline|]. intros [[st h]|] _; [|by apply upholds_ret].
  case_bool_decide; [by apply upholds_ret|by apply upholds_change_health].
Qed.

Lemma upholds_ProcessEvent evt :
  allowed (uid_Agent (ce_AgentID evt)) → upholds inv anything (ProcessEvent json evt).
Proof.
  intros Ha. pose proof (λ new, upholds_handleStateChange evt new Ha) as H1.
  pose proof (upholds_handleDestroy evt Ha) as H2. pose proof (upholds_handleHealthChange evt Ha) as H3.
  unfold ProcessEvent. repeat (case_bool_decide; [upholds_tac|]); by apply upholds_ret.
Qed.

(** *** Reports and inventories of agents *)

Lemma upholds_let_any {A B} (m : M fleet (result A)) (k : A → M fleet (result B)) :
  upholds inv (res_ok anything) m → (∀ a, upholds inv (res_ok anything) (k a)) →
  upholds inv (res_ok anything) (let? a := m in k a).
Proof. intros Hm Hk. by eapply (upholds_let _ anything). Qed.

Lemma res_ok_any {A} (m : M fleet (result A)) : upholds inv anything m → upholds inv (res_ok anything) m.
Proof. intros Hm. eapply upholds_mono; [exact Hm|]. by intros []. Qed.

Lemma upholds_details f agentID :
  own agentID = true →
  (∀ s, db_containers (f s) = db_containers s ∧ db_transitions (f s) = db_transitions s
    ∧ ∀ k, k.1 ≠ agentID → agentDetails (f s) !! k = agentDetails s !! k) →
  upholds inv anything (modify f).
Proof.
  intros Ho Hf. apply upholds_modify. intros w [H1 H2 H3 H4 H5 H6]. destruct (Hf (w_st w)) as (E1 & E2 & E3).
  split; cbn; rewrite ?E1, ?E2; try done. intros k Hk. rewrite E3; [by apply H6|]. congruence.
Qed.

Lemma upholds_record agentID ev : own agentID = true → upholds inv anything (recordAgentDetails agentID ev).
Proof.
  intros Ho. apply (upholds_details _ agentID Ho). intros s. split_and!; [done..|]. intros k Hk. cbn.
  rewrite lookup_insert_ne; [done|]. by intros <-.
Qed.

Lemma upholds_forget agentID e : own agentID = true → upholds inv anything (forgetAgentDetails agentID e).
Proof.
  intros Ho. apply (upholds_details _ agentID Ho). intros s. split_and!; [done..|]. intros k Hk. cbn.
  rewrite lookup_delete_ne; [done|]. by intros <-.
Qed.

Lemma apply_agent_labels labels c :
  ct_AgentID (applyAgentLabels labels c) = ct_AgentID c ∧ ct_Archived (applyAgentLabels labels c) = ct_Archived c.
Proof. unfold applyAgentLabels. by repeat case_match. Qed.

Lemma apply_swarm_labels labels c :
  ct_AgentID (ApplySwarmTaskLabels labels c) = ct_AgentID c ∧ ct_Archived (ApplySwarmTaskLabels labels c) = ct_Archived c.
Proof. unfold ApplySwarmTaskLabels. by repeat case_match. Qed.

Lemma apply_image_labels labels c :
  ct_AgentID (ApplyImageLabels labels c).1 = ct_AgentID c ∧ ct_Archived (ApplyImageLabels labels c).1 = ct_Archived c.
Proof. by split. Qed.

Lemma agent_container_of agentID runtime ev t :
  ct_AgentID (agent_container agentID runtime ev t) = agentID ∧ ct_Archived (agent_container agentID runtime ev t) = false.
Proof.
  unfold agent_container. cbv zeta. set (c := no_container <| ct_ExternalID := _ |> <| ct_HasHealthCheck := _ |>
    <| ct_AgentID := _ |> <| ct_Name := _ |> <| ct_Image := _ |> <| ct_State := _ |>
    <| ct_OrchestrationGroup := _ |> <| ct_OrchestrationUnit := _ |> <| ct_ComposeWorkingDir := _ |>
    <| ct_RuntimeType := _ |> <| ct_PodCount := _ |> <| ct_ReadyCount := _ |> <| ct_AlertSeverity := _ |>
    <| ct_RestartThreshold := _ |> <| ct_FirstSeenAt := _ |> <| ct_LastStateChangeAt := _ |> <| ct_HealthStatus := _ |>).
  assert (ct_AgentID c = agentID ∧ ct_Archived c = false) as Hc by (split; reflexivity). clearbody c.
  destruct (apply_image_labels (pc_Labels ev) (ApplySwarmTaskLabels (pc_Labels ev) (applyAgentLabels (pc_Labels ev) c))) as [-> ->].
  destruct (apply_swarm_labels (pc_Labels ev) (applyAgentLabels (pc_Labels ev) c)) as [-> ->].
  by destruct (apply_agent_labels (pc_Labels ev) c) as [-> ->].
Qed.

Lemma upholds_insertAgentContainer agentID ev meta :
  allowed (uid_Agent agentID) → upholds inv (res_ok anything) (insertAgentContainer json agentID ev meta).
Proof.
  intros [Hh Ho]. unfold insertAgentContainer. eapply (upholds_bind _ anything).
  { unfold resolveAgentRuntime, ask. upholds_tac. }
  intros runtime _. destruct (agent_container_of agentID runtime ev (agentEventTime ev meta)) as [Ha Harc].
  eapply upholds_let; [apply upholds_InsertContainer; by rewrite ?Ha|]. intros c Hc.
  apply upholds_let_any; [destruct (me_Replayed meta); apply res_ok_any; upholds_tac|]. intros _.
  eapply (upholds_bind _ anything); [upholds_tac|]. intros _ _. apply res_ok_any. upholds_tac.
Qed.

Lemma refreshed_mine ev c : mine c → mine (refreshed ev c).1.
Proof.
  intros Hc. unfold refreshed. cbn [ApplyImageLabels adoptLabelFields].
  assert (∀ c' : Container, mine c' → mine (c' <| ct_Archived := false |> <| ct_ArchivedAt := None |>)) as Harc.
  { intros c' [(H1 & H2 & _) H4]. by split; [split_and!|]. }
  repeat case_match; simplify_eq; cbn [fst] in *;
    first [apply Harc; (exact Hc || by apply (mine_same c)) | exact Hc | by apply (mine_same c)].
Qed.

Lemma upholds_refresh c ev : mine c → upholds inv (res_ok anything) (refreshAgentContainer c ev).
Proof.
  intros Hc. unfold refreshAgentContainer. pose proof (refreshed_mine ev c Hc) as Hm.
  destruct (refreshed ev c) as [c' dirty]. apply res_ok_any. upholds_tac.
Qed.

Lemma upholds_agent_report agentID ev meta c :
  allowed (uid_Agent agentID) → mine c → upholds inv (res_ok anything) (agent_report json agentID ev meta c).
Proof.
  intros Ha Hc. unfold agent_report. apply upholds_let_any.
  { destruct (me_Replayed meta); [by apply upholds_ret|by apply upholds_refresh]. }
  intros _. eapply (upholds_bind _ anything).
  { destruct (health_report _ _ _); [by apply upholds_ProcessEvent|by apply upholds_ret]. }
  intros _ _. eapply (upholds_bind _ anything); [by destruct (negb _); [apply upholds_ProcessEvent|apply upholds_ret]|]. intros _ _. by apply upholds_ret.
Qed.

Lemma upholds_HandleContainerEvent agentID ev meta :
  allowed (uid_Agent agentID) → own agentID = true →
  upholds inv (res_ok anything) (HandleContainerEvent json agentID ev meta).
Proof.
  intros Ha Ho. unfold HandleContainerEvent. case_bool_decide; [by apply upholds_ret|].
  destruct (checkLabelCount ev); [|by apply upholds_ret].
  eapply upholds_let; [apply upholds_get|]. intros c Hc. destruct (pc_Destroyed ev).
  - eapply (upholds_bind _ anything); [by apply upholds_forget|]. intros _ _.
    eapply (upholds_bind _ anything); [by destruct (negb _); [apply upholds_ProcessEvent|apply upholds_ret]|]. intros _ _. by apply upholds_ret.
  - eapply (upholds_bind _ anything); [by destruct (negb _); [apply upholds_record|apply upholds_ret]|]. intros _ _.
    destruct c as [c|]; [|apply upholds_insertAgentContainer; exact Ha].
    apply upholds_agent_report; [done|]. by apply (found_mine agentID).
Qed.

Lemma upholds_for_each_ok {A} (l : list A) (body : A → M fleet (result unit)) :
  (∀ a, upholds inv (res_ok anything) (body a)) → upholds inv (res_ok anything) (for_each_ok l body).
Proof.
  intros Hb. induction l as [|a l IH]; [by apply upholds_ret|]. cbn [for_each_ok].
  by apply upholds_let_any; [|intros _].
Qed.

Lemma upholds_HandleAgentInventory agentID reported complete meta :
  agentID ∈ hosts → own agentID = true →
  upholds inv (res_ok anything) (HandleAgentInventory json agentID reported complete meta).
Proof.
  intros Hh Ho. assert (allowed (uid_Agent agentID)) as Ha by (unfold allowed; rewrite (hosts_named _ Hh); done).
  unfold HandleAgentInventory. destruct (bool_decide (reported = []) && negb complete); [by apply upholds_ret|].
  destruct (bool_decide (maxInventoryContainers < _)); [by apply upholds_ret|].
  destruct (existsb _ _); [by apply upholds_ret|].
  apply upholds_let_any.
  { apply upholds_for_each_ok. intros ev. case_bool_decide; [by apply upholds_ret|by apply upholds_HandleContainerEvent]. }
  intros _. eapply upholds_let; [by apply (upholds_list _ agentID)|]. intros stored Hst. rewrite Forall_forall in Hst.
  eapply (upholds_bind _ anything); [eauto with upholds typeclass_instances|]. intros t _.
  eapply (upholds_bind _ anything); [|intros; by apply upholds_ret].
  apply upholds_for_each. intros sc Hsc. destruct (Hst _ Hsc) as [Hk Hag].
  assert (mine sc) as Hm by (split; [done|by rewrite Hag]).
  pose proof (λ e, upholds_forget agentID e Ho). unfold retire_container. upholds_tac.
Qed.

(** *** The recovery loop and deletions *)

Lemma upholds_recheck id : upholds inv anything (recheckRestartRecovery json id).
Proof.
  unfold recheckRestartRecovery, GetContainerByID.
  eapply (upholds_bind _ anything); [eapply (upholds_any _ (res_ok anything)); by apply upholds_db_query; [apply _|]|].
  intros [[c|]|] _; [|upholds_tac..]. destruct (ct_Archived c); [upholds_tac|].
  destruct (negb _); [upholds_tac|]. eapply upholds_bind; [apply upholds_restart_check|]. intros [[ra|]|] _; upholds_tac.
Qed.

Lemma upholds_checkRestartRecoveries : upholds inv anything (checkRestartRecoveries json).
Proof.
  unfold checkRestartRecoveries. eapply (upholds_bind _ anything); [by apply upholds_gets|]. intros ids _.
  apply upholds_for_each. intros id _. apply upholds_recheck.
Qed.

Lemma ok_delete s id :
  fleet_ok s → (∀ a, own a = true) →
  fleet_ok (s <| db_containers ::= delete_where (λ c, bool_decide (ct_ID c = id)) |>
              <| db_transitions ::= delete_where (λ t, bool_decide (st_ContainerID t = id)) |>).
Proof.
  intros [Hids Hrows Htids Hrefs Hoth Hdet] Hall. split; cbn.
  - by apply delete_where_ids.
  - intros c [Hc _]%delete_where_elem. by apply Hrows.
  - by apply delete_where_ids.
  - intros t [Ht Hne]%delete_where_elem. apply bool_decide_eq_false in Hne.
    apply Hrefs, list_elem_of_fmap in Ht as (c & Hc & Hin). apply list_elem_of_fmap. exists c. split; [done|].
    apply delete_where_elem. split; [done|]. apply bool_decide_eq_false. change (row_id c ≠ id). congruence.
  - assert (∀ l : list Container, filter (λ c, own (ct_AgentID c) = false) l = []) as Hnil.
    { intros l. apply list_filter_none. intros c _. by rewrite Hall. }
    by rewrite <- Hoth, !Hnil.
  - intros k. by rewrite Hall.
Qed.

Lemma upholds_DeleteContainer id : (∀ a, own a = true) → upholds inv (res_ok anything) (DeleteContainer json id).
Proof.
  intros Hall. unfold DeleteContainer. apply upholds_let_any; [|intros _; apply res_ok_any; upholds_tac].
  unfold DeleteContainerByID, GetContainerByID.
  apply upholds_let_any; [by apply upholds_db_query; [apply _|]|]. intros [c|]; [|by apply upholds_ret].
  do 4 (apply upholds_let_any; [apply res_ok_any, upholds_db_exec; [apply _|by intros w Hw; apply (fleet_same (w_st w))]|intros _]).
  apply res_ok_any, upholds_db_exec; [apply _|]. intros w Hw. by apply ok_delete.
Qed.
End Safe.

(** ** Runs *)

(** What can happen to the containers: an event of the local runtime, a discovery
    pass, a report or an inventory of an agent, a deletion by a user, a tick of the
    recovery loop, and the hand-over of the open restart alerts at startup. *)
Inductive container_op :=
  | CtEvent (evt : ContainerEvent)
  | CtReconcile
  | CtReport (agentID : string) (ev : pb_ContainerEvent) (meta : Meta)
  | CtInventory (agentID : string) (reported : list pb_ContainerEvent) (complete : bool) (meta : Meta)
  | CtDelete (id : string)
  | CtRecoveries
  | CtTrack (ids : list string).

Section Runs.
Context `{Uid : !Uuid} `{Deps : !ContainerDeps} (json : list (string * value) → details).

Definition container_handler (op : container_op) : M fleet unit :=
  match op with
  | CtEvent evt => ProcessEvent json evt
  | CtReconcile => match discoverer with
                   | Some d => do! Reconcile json d in ret tt
                   | None => ret tt
                   end
  | CtReport a ev meta => do! HandleContainerEvent json a ev meta in ret tt
  | CtInventory a reported complete meta => do! HandleAgentInventory json a reported complete meta in ret tt
  | CtDelete id => do! DeleteContainer json id in ret tt
  | CtRecoveries => checkRestartRecoveries json
  | CtTrack ids => TrackRestartAlerts ids
  end.

Definition container_run (ops : list container_op) : M fleet unit := for_each ops container_handler.

Context (hosts : gset string).
Context (local_host : LocalAgent ∈ hosts).
Context (hosts_named : ∀ a, a ∈ hosts → uid_Agent a = a).
Context (hosts_apart : ∀ a e a' e', a ∈ hosts → a' ∈ hosts → uid_Container a e = uid_Container a' e' → a = a').
Context (discovered_ok : ∀ discover n cs c, discoverer = Some discover → discover n = Ok cs → c ∈ cs →
  uid_Agent (ct_AgentID c) = LocalAgent ∧ ct_Archived c = false).

(** The types of the tables. *)
Record fleet_typed (s : fleet) : Prop := {
  ft_ids : NoDup (table_ids (db_containers s));
  ft_rows : ∀ c, c ∈ db_containers s → stored_ok hosts c;
  ft_tids : NoDup (table_ids (db_transitions s));
  ft_refs : ∀ t, t ∈ db_transitions s → st_ContainerID t ∈ table_ids (db_containers s);
}.

(** The host an operation speaks for. *)
Definition op_host (op : container_op) : option string :=
  match op with
  | CtEvent evt => Some (uid_Agent (ce_AgentID evt))
  | CtReconcile => Some LocalAgent
  | CtReport a _ _ | CtInventory a _ _ _ => Some a
  | _ => None
  end.

Definition from_hosts (op : container_op) : Prop :=
  match op_host op with Some a => a ∈ hosts | None => True end.

Lemma ok_typed own X D s : fleet_ok hosts own X D s → fleet_typed s.
Proof. by intros []. Qed.

Lemma typed_ok own s :
  fleet_typed s →
  fleet_ok hosts own (filter (λ c, own (ct_AgentID c) = false) (db_containers s)) (λ k, agentDetails s !! k) s.
Proof. by intros []. Qed.

Lemma upholds_handler own X D op :
  from_hosts op → (∀ a, op_host op = Some a → own a = true) →
  (op_host op = None → ∀ a, own a = true) →
  upholds (inv hosts own X D) anything (container_handler op).
Proof.
  intros Hhost Hown Hall. pose proof (inv_stable hosts own X D) as Hst.
  destruct op as [evt| |a ev meta|a reported complete meta|id| |ids]; unfold from_hosts in Hhost; cbn in *.
  - apply (upholds_ProcessEvent json hosts local_host hosts_named hosts_apart discovered_ok). split; [done|by apply Hown].
  - pose proof (upholds_Reconcile json hosts local_host hosts_named hosts_apart discovered_ok own X D) as HR.
    destruct discoverer as [d|]; [|by apply upholds_ret].
    eapply upholds_bind; [by apply HR; [|apply Hown]|]. intros. by apply upholds_ret.
  - eapply upholds_bind; [|intros; by apply upholds_ret].
    apply (upholds_HandleContainerEvent json hosts local_host hosts_named hosts_apart discovered_ok); [|by apply Hown].
    unfold allowed. rewrite (hosts_named a Hhost). split; [done|by apply Hown].
  - eapply upholds_bind; [|intros; by apply upholds_ret].
    apply (upholds_HandleAgentInventory json hosts local_host hosts_named hosts_apart discovered_ok); [done|by apply Hown].
  - eapply upholds_bind; [|intros; by apply upholds_ret]. by apply upholds_DeleteContainer, Hall.
  - apply upholds_checkRestartRecoveries.
  - by apply upholds_quiet.
Qed.

(** C15: the type of the store is an invariant.  Whatever events, discoveries,
    reports, inventories and deletions come, in any order and whatever calls fail:
    no two containers share an id, every id is the one derived from host and
    external id, states, health and severities are among the documented ones, an
    archived container has its date, and every transition belongs to a stored
    container. *)
Theorem stored_containers_typed ops (w : world fleet) :
  Forall from_hosts ops → fleet_typed (w_st w) → fleet_typed (w_st (container_run ops w).2).
Proof.
  intros Hops Hw. apply (ok_typed (λ _, true) [] (λ _, None)).
  apply (upholds_for_each (inv hosts (λ _, true) [] (λ _, None))).
  - intros op Hop. rewrite Forall_forall in Hops. by apply upholds_handler; [apply Hops|..].
  - destruct Hw. split; [done..| |done]. apply list_filter_none. by intros.
Qed.

(** C14: agents are isolated.  Whatever one agent reports, in whatever order,
    replayed or not and whatever calls fail, the containers of every other host and
    what the other agents reported stay as they are. *)
Theorem agents_isolated a ops (w : world fleet) :
  let s := w_st w in
  let s' := w_st (container_run ops w).2 in
  a ∈ hosts → Forall (λ op, op_host op = Some a) ops → fleet_typed s →
  filter (λ c, ct_AgentID c ≠ a) (db_containers s') = filter (λ c, ct_AgentID c ≠ a) (db_containers s)
  ∧ ∀ k, k.1 ≠ a → agentDetails s' !! k = agentDetails s !! k.
Proof.
  intros s s' Ha Hops Hw. rewrite Forall_forall in Hops. set (own := λ b, bool_decide (b = a)).
  assert (∀ l : list Container, filter (λ c, ct_AgentID c ≠ a) l = filter (λ c, own (ct_AgentID c) = false) l) as Hf.
  { intros l. apply list_filter_iff. intros c. unfold own. by rewrite bool_decide_eq_false. }
  assert (fleet_ok hosts own (filter (λ c, own (ct_AgentID c) = false) (db_containers s)) (λ k, agentDetails s !! k) s') as Hok.
  { apply (upholds_for_each (inv hosts own _ _)); [|by apply typed_ok]. intros op Hop. apply Hops in Hop.
    apply upholds_handler; unfold from_hosts; rewrite Hop; [done| |done].
    intros ? [= <-]. by apply bool_decide_eq_true. }
  rewrite !Hf. split; [apply Hok|]. intros k Hk. apply (fo_details _ _ _ _ _ Hok). by apply bool_decide_eq_false.
Qed.
End Runs.
