(* ===== verification/ContainerTimeline.v ===== *)
(** * Containers: the timeline and the rows

    A container's row says which state it is in, its transitions say how it came
    there; uptime is computed from the transitions alone.  As long as nothing
    fails, the last transition of every local container leads to the state of its
    row, whatever the runtime does. *)

From S2P Require Import Prelude.
From S2P Require Import Tables.
From S2P Require Import GoStrings.
From S2P Require Import AlertModel.
From S2P Require Import Uid.
From S2P Require Import SwarmAlerts.
From S2P Require Import EndpointService.
From S2P Require Import Container.
From S2P Require Import ContainerStore.
From S2P Require Import ContainerService.
From S2P Require Import ContainerAgent.
From S2P Require Import ContainerSafe.

#[local] Open Scope string_scope.
#[local] Open Scope list_scope.
#[local] Open Scope Z_scope.

(** The transitions of a container, in the order they were recorded. *)
Definition transitions_of (id : string) (ts : list StateTransition) : list StateTransition :=
  filter (λ t, st_ContainerID t = id) ts.

Definition last_state (id : string) (ts : list StateTransition) : option string :=
  st_NewState <$> last (transitions_of id ts).

(** The row and the timeline agree; a container that was never started has no
    transition to agree with. *)
Definition agrees (ts : list StateTransition) (c : Container) : Prop :=
  ct_State c = StateCreated ∨ last_state (ct_ID c) ts = Some (ct_State c).

(** New identifiers have not been used, and are not used twice. *)
Record fresh_uids (e : env) (tick : nat) (ts : list StateTransition) : Prop := {
  fu_inj : ∀ m n, env_uid e m = env_uid e n → m = n;
  fu_new : ∀ n, (tick ≤ n)%nat → env_uid e n ∉ table_ids ts;
}.

Lemma last_state_snoc id t ts :
  last_state id (ts ++ [t]) = if bool_decide (st_ContainerID t = id) then Some (st_NewState t) else last_state id ts.
Proof.
  unfold last_state, transitions_of. rewrite filter_app, filter_cons, filter_nil. case_bool_decide.
  - rewrite decide_True by done. by rewrite last_snoc.
  - rewrite decide_False by done. by rewrite app_nil_r.
Qed.

Lemma last_state_ext id ts ts' : transitions_of id ts = transitions_of id ts' → last_state id ts = last_state id ts'.
Proof. unfold last_state. by intros ->. Qed.

#[local] Arguments last_state : simpl never.

Lemma by_external_id_elem k current dc : by_external_id current !! k = Some dc → dc ∈ current.
Proof.
  unfold by_external_id. induction current as [|c l IH] using rev_ind; [done|]. rewrite foldl_app. cbn.
  intros [[_ ->]|[_ H]]%lookup_insert_Some; set_solver.
Qed.

Section Timeline.
Context `{Uid : !Uuid} `{Deps : !ContainerDeps} (json : list (string * value) → details).
Context (hosts : gset string).
Context (local_host : LocalAgent ∈ hosts).
Context (hosts_named : ∀ a, a ∈ hosts → uid_Agent a = a).
Context (hosts_apart : ∀ a e a' e', a ∈ hosts → a' ∈ hosts → uid_Container a e = uid_Container a' e' → a = a').
Context (discovered_ok : ∀ discover n cs c, discoverer = Some discover → discover n = Ok cs → c ∈ cs →
  uid_Agent (ct_AgentID c) = LocalAgent ∧ ct_Archived c = false).
(** The runtime reports the documented states. *)
Context (discovered_typed : ∀ discover n cs c, discoverer = Some discover → discover n = Ok cs → c ∈ cs →
  container_check c = true).

Let safe_inv : world fleet → Prop := inv hosts (λ _, true) [] (λ _, None).

Record in_step (w : world fleet) : Prop := {
  is_safe : safe_inv w;
  is_calm : fault_free w;
  is_fresh : fresh_uids (w_env w) (w_tick w) (db_transitions (w_st w));
  is_agree : ∀ c, c ∈ db_containers (w_st w) → agrees (db_transitions (w_st w)) c;
}.

#[local] Instance in_step_stable : Stable in_step.
Proof.
  intros w w' (Hs & He & Ht) [H1 H2 [H3 H3'] H4]. split.
  - unfold safe_inv, inv. by rewrite Hs.
  - by eapply fault_free_env.
  - rewrite Hs, He. split; [done|]. intros n Hn. apply H3'. lia.
  - by rewrite Hs.
Qed.

(** Changes beside the two tables. *)
Lemma in_step_quiet f :
  (∀ s, db_containers (f s) = db_containers s ∧ db_transitions (f s) = db_transitions s
    ∧ agentDetails (f s) = agentDetails s) → upholds in_step anything (modify f).
Proof.
  intros Hf. apply upholds_modify. intros w [H1 H2 H3 H4]. destruct (Hf (w_st w)) as (E1 & E2 & E3).
  split; cbn; rewrite ?E1, ?E2; try done. by eapply fleet_same.
Qed.

#[local] Hint Extern 1 (upholds _ anything (modify _)) => (apply in_step_quiet; by intros) : upholds.

Ltac upholds_tac :=
  repeat first
    [ progress intros
    | solve [eauto with upholds typeclass_instances]
    | match goal with
      | |- upholds _ anything (match ?x with _ => _ end) => destruct x eqn:?
      end
    | eapply (upholds_bind _ anything)
    | apply upholds_for_each
    | progress cbn beta iota ].

Lemma step_emit ty data : upholds in_step anything (emitContainer json ty data).
Proof. unfold emitContainer, container_callback, send_signal. upholds_tac. Qed.

Lemma step_untrack id : upholds in_step anything (untrackRestartAlert id).
Proof. unfold untrackRestartAlert. upholds_tac. Qed.
Lemma step_track id : upholds in_step anything (trackRestartAlert id).
Proof. unfold trackRestartAlert. upholds_tac. Qed.

#[local] Hint Resolve step_emit step_untrack step_track : upholds.

Lemma step_query {A} (q : fleet → A) : upholds in_step anything (db_query q).
Proof. eapply (upholds_any _ (res_ok anything)). by apply upholds_db_query; [apply _|]. Qed.

Lemma step_restart_check c : upholds in_step anything (RestartDetector_Check c).
Proof.
  unfold RestartDetector_Check, CountRestartsSince.
  eapply (upholds_bind _ anything); [eauto with upholds typeclass_instances|]. intros t _.
  eapply (upholds_bind _ anything); [apply step_query|]. intros [n|] _; [|by apply upholds_ret].
  case_bool_decide; [by apply upholds_ret|].
  eapply (upholds_bind _ anything); [eauto with upholds typeclass_instances|]. intros. by apply upholds_ret.
Qed.

#[local] Hint Resolve step_restart_check : upholds.

Lemma step_check_restarts c t : upholds in_step anything (check_restarts json c t).
Proof. unfold check_restarts. upholds_tac. Qed.

Lemma step_fetch f e t : upholds in_step anything (fetchExitSnippet f e t).
Proof. unfold fetchExitSnippet, ask. upholds_tac; by apply upholds_gets. Qed.

Lemma step_recovery id : upholds in_step anything (recheckRestartRecovery json id).
Proof. unfold recheckRestartRecovery, GetContainerByID. pose proof (@step_query). upholds_tac. Qed.

(** ** The two statements that must go together *)

(** Rewriting the row of [c] to the state [new], then recording how it got there,
    in either order. *)
Definition pending (c : Container) (new : string) (w : world fleet) : Prop :=
  safe_inv w ∧ fault_free w ∧ fresh_uids (w_env w) (w_tick w) (db_transitions (w_st w))
  ∧ (∃ r, r ∈ db_containers (w_st w) ∧ ct_ID r = ct_ID c)
  ∧ (∀ r, r ∈ db_containers (w_st w) → if bool_decide (ct_ID r = ct_ID c) then ct_State r = new
       else agrees (db_transitions (w_st w)) r).

Lemma pending_same c new w w' : same w w' → pending c new w → pending c new w'.
Proof.
  intros (Hs & He & Ht) (H1 & H2 & [H3 H3'] & H4 & H5). split_and!.
  - unfold safe_inv, inv. by rewrite Hs.
  - by eapply fault_free_env.
  - rewrite Hs, He. split; [done|]. intros n Hn. apply H3'. lia.
  - by rewrite Hs.
  - by rewrite Hs.
Qed.

Lemma wp_safe {A} (m : M fleet A) (Q : A → world fleet → Prop) w :
  safe_inv w → upholds safe_inv anything m → wp m (λ a w', safe_inv w' → Q a w') w → wp m Q w.
Proof. intros Hw Hm HQ. apply HQ. by destruct (Hm w Hw). Qed.

(** The row of a container is rewritten. *)
Lemma wp_update_pending c r (Q : result unit → world fleet → Prop) w :
  in_step w → r ∈ db_containers (w_st w) → ct_ID c = ct_ID r → mine hosts (λ _, true) c → container_check c = true →
  (∀ w', pending c (ct_State c) w' → db_transitions (w_st w') = db_transitions (w_st w) → Q (Ok tt) w') →
  wp (UpdateContainer c) Q w.
Proof.
  intros [H1 H2 H3 H4] Hr Hid Hm Hck HQ.
  apply wp_safe; [done|apply (upholds_UpdateContainer hosts hosts_named hosts_apart); done|].
  unfold UpdateContainer. apply wp_bind, wp_fault. intros b w1 (S1 & E1 & T1) Hb. rewrite Hb by done.
  rewrite Hck. cbn [orb negb]. apply wp_bind, wp_modify, wp_ret. intros Hsafe. apply HQ; [|cbn; by rewrite S1].
  split_and!; [done|by eapply (fault_free_env w)|..]; cbn; rewrite ?S1, ?E1.
  - destruct H3 as [H3 H3']. split; [done|]. intros n Hn. apply H3'. lia.
  - exists (updated_row c r). split; [|done]. apply update_where_elem. exists r. split; [done|].
    change (row_id r) with (ct_ID r). rewrite Hid. by rewrite bool_decide_eq_true_2.
  - intros r' (r0 & Hr0 & ->)%update_where_elem. change (row_id r0) with (ct_ID r0).
    destruct (decide (ct_ID r0 = ct_ID c)) as [Heq|Hne].
    + rewrite (bool_decide_eq_true_2 (ct_ID r0 = ct_ID c)) by done. cbn. by rewrite bool_decide_eq_true_2.
    + rewrite !(bool_decide_eq_false_2 (ct_ID r0 = ct_ID c)) by done. rewrite S1 in *. by apply H4.
Qed.

(** A transition is recorded under a new identifier. *)
Lemma wp_transition_pending c t (Q : result string → world fleet → Prop) w :
  pending c (st_NewState t) w → st_ID t = "" → st_ContainerID t = ct_ID c →
  (∀ id w', in_step w' → Q (Ok id) w') → wp (InsertTransition t) Q w.
Proof.
  intros (H1 & H2 & [H3 H3'] & (r & Hr & Hrid) & H5) Hid Hcid HQ.
  apply wp_safe; [done|apply (upholds_InsertTransition hosts)|].
  unfold InsertTransition. rewrite Hid. rewrite bool_decide_eq_true_2 by done.
  apply wp_bind, wp_new_uid. intros w1 (S1 & E1 & T1) T1'. apply wp_bind, wp_fault.
  intros b w2 (S2 & E2 & T2) Hb. rewrite Hb by by eapply fault_free_env.
  apply wp_bind, wp_gets. rewrite S2, S1.
  rewrite bool_decide_eq_true_2; [|rewrite Hcid, <- Hrid; by apply list_elem_of_fmap_2]. cbn [negb].
  rewrite bool_decide_eq_false_2 by (by apply H3').
  apply wp_bind, wp_modify, wp_ret. intros Hsafe. apply HQ. split; [done|by eapply (fault_free_env w); [cbn; congruence|]|..].
  - cbn. rewrite E2, E1, S2, S1. split; [done|].
    unfold table_ids. rewrite fmap_app. intros n Hn [Hin|Hin%list_elem_of_singleton]%elem_of_app.
    + apply (H3' n); [lia|done].
    + apply H3 in Hin. lia.
  - cbn. rewrite S2, S1. intros x Hx. specialize (H5 x Hx). unfold agrees. rewrite last_state_snoc. cbn.
    rewrite Hcid. case_bool_decide as Hx'.
    + right. rewrite bool_decide_eq_true_2 by done. by rewrite H5.
    + by rewrite bool_decide_eq_false_2.
Qed.

(** The same with the transition first. *)
Definition ahead (c : Container) (new : string) (w : world fleet) : Prop :=
  safe_inv w ∧ fault_free w ∧ fresh_uids (w_env w) (w_tick w) (db_transitions (w_st w))
  ∧ last_state (ct_ID c) (db_transitions (w_st w)) = Some new
  ∧ (∀ r, r ∈ db_containers (w_st w) → ct_ID r ≠ ct_ID c → agrees (db_transitions (w_st w)) r).

Lemma pending_done c new w :
  pending c new w → (new = StateCreated ∨ last_state (ct_ID c) (db_transitions (w_st w)) = Some new) → in_step w.
Proof.
  intros (H1 & H2 & H3 & H4 & H5) Hlast. split; [done..|]. intros r Hr. specialize (H5 r Hr).
  case_bool_decide as Hid; [|done]. unfold agrees. by rewrite Hid, H5.
Qed.

Lemma wp_update_ahead c r (Q : result unit → world fleet → Prop) w :
  ahead c (ct_State c) w → r ∈ db_containers (w_st w) → ct_ID c = ct_ID r → mine hosts (λ _, true) c →
  container_check c = true → (∀ w', in_step w' → Q (Ok tt) w') → wp (UpdateContainer c) Q w.
Proof.
  intros (H1 & H2 & [H3 H3'] & H4 & H5) Hr Hid Hm Hck HQ.
  apply wp_safe; [done|apply (upholds_UpdateContainer hosts hosts_named hosts_apart); done|].
  unfold UpdateContainer. apply wp_bind, wp_fault. intros b w1 (S1 & E1 & T1) Hb. rewrite Hb by done.
  rewrite Hck. cbn [orb negb]. apply wp_bind, wp_modify, wp_ret. intros Hsafe. apply HQ.
  split; [done|by eapply (fault_free_env w)|..]; cbn; rewrite ?S1, ?E1.
  - split; [done|]. intros n Hn. apply H3'. lia.
  - intros r' (r0 & Hr0 & ->)%update_where_elem. change (row_id r0) with (ct_ID r0).
    case_bool_decide as Heq; [|by apply H5]. right. cbn. by rewrite Heq.
Qed.

Lemma wp_transition_ahead c t (Q : result string → world fleet → Prop) w :
  in_step w → c ∈ db_containers (w_st w) → st_ID t = "" → st_ContainerID t = ct_ID c →
  (∀ id w', ahead c (st_NewState t) w' → db_containers (w_st w') = db_containers (w_st w) → Q (Ok id) w') →
  wp (InsertTransition t) Q w.
Proof.
  intros [H1 H2 [H3 H3'] H4] Hr Hid Hcid HQ. apply wp_safe; [done|apply (upholds_InsertTransition hosts)|].
  unfold InsertTransition. rewrite Hid. rewrite bool_decide_eq_true_2 by done.
  apply wp_bind, wp_new_uid. intros w1 (S1 & E1 & T1) T1'. apply wp_bind, wp_fault.
  intros b w2 (S2 & E2 & T2) Hb. rewrite Hb by by eapply fault_free_env.
  apply wp_bind, wp_gets. rewrite S2, S1.
  rewrite bool_decide_eq_true_2; [|rewrite Hcid; by apply list_elem_of_fmap_2]. cbn [negb].
  rewrite bool_decide_eq_false_2 by (by apply H3').
  apply wp_bind, wp_modify, wp_ret. intros Hsafe. apply HQ; [|cbn; by rewrite S2, S1].
  split_and!; [done|by eapply (fault_free_env w); [cbn; congruence|]|..].
  - cbn. rewrite E2, E1, S2, S1. split; [done|].
    unfold table_ids. rewrite fmap_app. intros n Hn [Hin|Hin%list_elem_of_singleton]%elem_of_app.
    + apply (H3' n); [lia|done].
    + apply H3 in Hin. lia.
  - cbn. rewrite S2, S1, last_state_snoc. cbn. by rewrite Hcid, bool_decide_eq_true_2.
  - cbn. rewrite S2, S1. intros r Hr' Hne. unfold agrees. rewrite last_state_snoc. cbn.
    rewrite Hcid, bool_decide_eq_false_2 by done. by apply H4.
Qed.

(** A write that the schema refuses. *)
Lemma wp_update_refused c (Q : result unit → world fleet → Prop) w :
  in_step w → container_check c = false → (∀ w', in_step w' → Q (Err EStore) w') → wp (UpdateContainer c) Q w.
Proof.
  intros Hw Hck HQ. unfold UpdateContainer. apply wp_bind, wp_fault. intros b w1 Hs Hb.
  rewrite Hb, Hck by apply Hw. by apply wp_ret, HQ; eapply stable.
Qed.

Lemma row_mine w r : in_step w → r ∈ db_containers (w_st w) → mine hosts (λ _, true) r ∧ container_check r = true.
Proof. intros Hw Hr. destruct (fo_rows _ _ _ _ _ (is_safe w Hw) r Hr). done. Qed.

(** A computation that keeps [pending]. *)
Lemma wp_snippet_pending evt c0 c new (Q : string → world fleet → Prop) w :
  pending c new w → (∀ s w', pending c new w' → Q s w') → wp (exit_snippet evt c0) Q w.
Proof.
  intros Hw HQ. assert (Stable (pending c new)) as Hst by (intros w1 w2; apply pending_same).
  assert (∀ f, (∀ s, db_containers (f s) = db_containers s ∧ db_transitions (f s) = db_transitions s
    ∧ agentDetails (f s) = agentDetails s) → upholds (pending c new) anything (modify f)) as Hq.
  { intros f Hf. apply upholds_modify. intros w1 (H1 & H2 & H3 & H4 & H5). destruct (Hf (w_st w1)) as (E1 & E2 & E3).
    split_and!; cbn; rewrite ?E1, ?E2; try done. by eapply fleet_same. }
  assert (upholds (pending c new) anything (exit_snippet evt c0)) as H.
  { unfold exit_snippet, fetchExitSnippet, ask.
    upholds_tac; first [by apply upholds_gets | by apply Hq]. }
  destruct (H w Hw) as [_ Hp]. by apply HQ.
Qed.

(** ** Events *)

Lemma check_parts c :
  container_check c = true ↔
  is_state (ct_State c) = true ∧ is_health (ct_HealthStatus c) = true ∧ is_severity (ct_AlertSeverity c) = true.
Proof. unfold container_check. rewrite !andb_true_iff. tauto. Qed.

Lemma step_change_state evt new c w :
  in_step w → c ∈ db_containers (w_st w) → is_state new = true → ce_Replayed evt = false → ce_EventID evt = "" →
  wp (change_state json evt new c (ct_State c)) (λ _ w', anything tt ∧ in_step w') w.
Proof.
  intros Hw Hc Hnew Hlive Hid. unfold change_state. rewrite Hlive. case_bool_decide; [by apply wp_ret|].
  destruct (row_mine w c Hw Hc) as [Hm Hck].
  set (c' := c <| ct_State := new |> <| ct_LastStateChangeAt := ce_Timestamp evt |>). apply wp_bind.
  apply (wp_update_pending c' c); [done|done|done|by apply (mine_same _ _ c)|..].
  { by apply check_parts in Hck as (_ & Hh & Hs); apply check_parts. }
  intros w1 H1 _. apply wp_bind, (wp_snippet_pending _ _ c' new); [done|]. intros snippet w2 H2.
  apply wp_bind, (wp_transition_pending c'); [done|unfold recordID; by rewrite bool_decide_eq_true_2|done|].
  intros id w3 H3. revert H3. apply (upholds_bind _ anything).
  - case_match; [apply step_check_restarts|by apply upholds_ret].
  - intros _ _. apply step_emit.
Qed.

Lemma step_change_health evt c w :
  in_step w → c ∈ db_containers (w_st w) → ce_Replayed evt = false → ce_EventID evt = "" →
  wp (change_health json evt c (ct_State c) (ct_HealthStatus c)) (λ _ w', anything tt ∧ in_step w') w.
Proof.
  intros Hw Hc Hlive Hid. unfold change_health. rewrite Hlive. cbv zeta. destruct (row_mine w c Hw Hc) as [Hm Hck].
  set (c' := c <| ct_HealthStatus := Some (ce_HealthStatus evt) |> <| ct_LastStateChangeAt := ce_Timestamp evt |>).
  apply wp_bind. destruct (container_check c') eqn:Hck'.
  - apply (wp_update_pending c' c); [done|done|done|by apply (mine_same _ _ c)|done|]. intros w1 H1 _.
    apply wp_bind, (wp_transition_pending c'); [exact H1|unfold recordID; by rewrite bool_decide_eq_true_2|done|].
    intros id w2 H2. revert H2. apply step_emit.
  - apply wp_update_refused; [done..|]. intros w1 H1. by apply wp_ret.
Qed.

(** ** Reconciliation *)

Lemma step_archive id t : upholds in_step anything (ArchiveContainer id t).
Proof.
  apply upholds_db_exec; [apply _|]. intros w Hw. pose proof Hw as [H1 H2 H3 H4].
  assert (∀ r', r' ∈ update_where (λ c, bool_decide (ct_ID c = id) && negb (ct_Archived c)) (archived_row t)
    (db_containers (w_st w)) → ∃ r, r ∈ db_containers (w_st w) ∧ ct_ID r' = ct_ID r ∧ ct_State r' = ct_State r) as Hrow.
  { intros r' (r & Hr & ->)%update_where_elem. exists r. by case_match. }
  split; [|done|done|].
  - destruct (decide (id ∈ table_ids (db_containers (w_st w)))) as [(r & -> & Hr)%list_elem_of_fmap|Hno].
    + destruct (row_mine w r Hw Hr) as [Hm _]. by apply (ok_archive hosts hosts_apart _ _ _ (w_st w) r t).
    + assert (update_where (λ c, bool_decide (ct_ID c = id) && negb (ct_Archived c)) (archived_row t)
        (db_containers (w_st w)) = db_containers (w_st w)) as Heq.
      { rewrite <- (update_where_id_fun (λ _, true) (db_containers (w_st w))) at 2. apply list_fmap_ext.
        intros i r Hr%list_elem_of_lookup_2. rewrite bool_decide_eq_false_2; [done|]. intros <-. apply Hno.
        by apply list_elem_of_fmap_2. }
      eapply (fleet_same _ _ _ _ (w_st w)); [done|exact Heq|done|done].
  - cbn. intros r' (r & Hr & Hid & Hst)%Hrow. unfold agrees. rewrite Hid, Hst. by apply H4.
Qed.

(** Only the row [id] may change. *)
Definition others_stay (id : string) (s s' : fleet) : Prop :=
  ∀ r, r ∈ db_containers s → ct_ID r ≠ id → r ∈ db_containers s'.

#[local] Instance others_stay_preorder id : PreOrder (others_stay id).
Proof. split; unfold others_stay; [intros s r Hr Hne; exact Hr|intros s1 s2 s3 H1 H2 r Hr Hne; apply H2; [by apply H1|done]]. Qed.

Lemma others_emit id ty data : steps (others_stay id) (emitContainer json ty data).
Proof. unfold emitContainer, container_callback, send_signal. steps_tac; intros r Hr Hne; exact Hr. Qed.

Lemma others_update id f s : others_stay id s (s <| db_containers ::= update_id id f |>).
Proof.
  intros r Hr Hne. cbn. apply update_where_elem. exists r. split; [done|].
  change (row_id r) with (ct_ID r). by rewrite bool_decide_eq_false_2.
Qed.

Lemma others_UpdateContainer c : steps (others_stay (ct_ID c)) (UpdateContainer c).
Proof. unfold UpdateContainer. steps_tac. apply others_update. Qed.

Lemma others_InsertTransition id t : steps (others_stay id) (InsertTransition t).
Proof. unfold InsertTransition. steps_tac; intros r Hr Hne; exact Hr. Qed.

Lemma others_ArchiveContainer id t : steps (others_stay id) (ArchiveContainer id t).
Proof.
  unfold ArchiveContainer. steps_tac. intros r Hr Hne. cbn. apply update_where_elem. exists r. split; [done|].
  by rewrite bool_decide_eq_false_2.
Qed.

Lemma others_reconcile current t sc : steps (others_stay (ct_ID sc)) (reconcile_stored json current t sc).
Proof.
  pose proof (others_emit (ct_ID sc)). pose proof (others_InsertTransition (ct_ID sc)).
  pose proof (others_ArchiveContainer (ct_ID sc)). unfold reconcile_stored, untrackRestartAlert. cbn [adoptLabelFields].
  pose proof (λ c (H : ct_ID c = ct_ID sc), eq_rect _ (λ i, steps (others_stay i) _) (others_UpdateContainer c) _ H) as Hup.
  destruct (current !! ct_ExternalID sc) as [dc|]; [|by steps_tac; intros r Hr Hne].
  cbv zeta. case_bool_decide.
  - destruct (negb _ || negb _); [|by apply steps_ret, _].
    apply (steps_bind _); [by apply Hup|intros; by apply steps_ret, _].
  - apply (steps_bind _); [done|]. intros _. apply (steps_bind _); [by apply Hup|]. intros _.
    destruct (ct_IsIgnored _); [by apply steps_ret, _|done].
Qed.

(** A stored container [sc] that the runtime still has, as [dc]; [sc1] is [sc] with
    the image and label fields of [dc]. *)
Lemma step_reconcile_known sc sc1 dc t (b : bool) w :
  in_step w → sc ∈ db_containers (w_st w) → container_check sc1 = true → container_check dc = true →
  mine hosts (λ _, true) sc1 → ct_ID sc1 = ct_ID sc → ct_State sc1 = ct_State sc →
  wp (if bool_decide (ct_State sc1 = ct_State dc) then
      if b then do! UpdateContainer sc1 in ret tt else ret tt
    else
      do! InsertTransition (MkTransition "" (ct_ID sc1) (ct_State sc1) (ct_State dc) None None None "" t) in
      do! UpdateContainer (sc1 <| ct_State := ct_State dc |> <| ct_LastStateChangeAt := t |>) in
      if ct_IsIgnored (sc1 <| ct_State := ct_State dc |> <| ct_LastStateChangeAt := t |>) then ret tt
      else emitContainer json ContainerStateChanged
        (PMap [("id", VString (ct_ID (sc1 <| ct_State := ct_State dc |> <| ct_LastStateChangeAt := t |>)));
               ("state", VString (ct_State dc)); ("previous_state", VString (ct_State sc1)); ("timestamp", VTime t);
               ("agent_id", VString (ct_AgentID (sc1 <| ct_State := ct_State dc |> <| ct_LastStateChangeAt := t |>)))]))
    (λ _ w', anything tt ∧ in_step w') w.
Proof.
  intros Hw Hsc Hck1 Hdc Hm1 Hid1 Hst1. case_bool_decide as Heq.
  - destruct b; [|by apply wp_ret].
    apply wp_bind, (wp_update_pending sc1 sc); [done..|]. intros w1 H1 Ht. apply wp_ret. split; [done|].
    apply (pending_done sc1 (ct_State sc1)); [done|]. rewrite Ht, Hid1, Hst1. by apply (is_agree w Hw).
  - apply wp_bind, (wp_transition_ahead sc); [done|done|done|by rewrite <- Hid1|]. intros id w1 H1 Hrows.
    apply wp_bind, (wp_update_ahead _ sc).
    + unfold ahead in *. cbn. by rewrite Hid1.
    + by rewrite Hrows.
    + done.
    + by apply (mine_same _ _ sc1).
    + apply check_parts in Hck1 as (_ & Hh & Hsev), Hdc as (Hs & _ & _). by apply check_parts.
    + intros w2 H2. destruct (ct_IsIgnored _); [by apply wp_ret|]. by apply step_emit.
Qed.

Lemma step_reconcile_stored current t sc w :
  in_step w → sc ∈ db_containers (w_st w) → (∀ k dc, current !! k = Some dc → container_check dc = true) →
  wp (reconcile_stored json current t sc) (λ _ w', anything tt ∧ in_step w') w.
Proof.
  intros Hw Hsc Hcur. unfold reconcile_stored. destruct (current !! ct_ExternalID sc) as [dc|] eqn:Hdc.
  2: { revert Hw. pose proof (step_archive (ct_ID sc) t). upholds_tac. }
  destruct (row_mine w sc Hw Hsc) as [Hm Hck]. apply Hcur in Hdc. cbv beta zeta iota delta [adoptLabelFields].
  apply (step_reconcile_known sc); [done|done| |done| |done|done].
  - apply check_parts in Hck as (Hs & Hh & _), Hdc as (_ & _ & Hsev). by apply check_parts.
  - by apply (mine_same _ _ sc).
Qed.

Definition kept_step {A} (m : M fleet A) (w : world fleet) : Prop := wp m (λ _ w', anything tt ∧ in_step w') w.

(** Bodies that each touch the row of their own container. *)
Lemma step_each_row body (l : list Container) w :
  (∀ x w, in_step w → x ∈ db_containers (w_st w) → kept_step (body x) w) →
  (∀ x, steps (others_stay (ct_ID x)) (body x)) →
  NoDup (ct_ID <$> l) → in_step w → (∀ x, x ∈ l → x ∈ db_containers (w_st w)) → kept_step (for_each l body) w.
Proof.
  intros Hbody Hoth. revert w. induction l as [|x l IH]; intros w Hnd Hw Hin; [by apply wp_ret|].
  rewrite fmap_cons, NoDup_cons in Hnd. destruct Hnd as [Hx Hnd]. apply wp_bind.
  eapply wp_mono; [apply wp_and; [apply Hbody; [done|by apply Hin; left]|apply (steps_wp _ _ _ (Hoth x))]|].
  intros _ w' [[_ Hw'] [Hrows _]]. apply IH; [done|done|]. intros y Hy. apply Hrows; [by apply Hin; right|].
  intros Heq. apply Hx. rewrite <- Heq. by apply list_elem_of_fmap_2.
Qed.

(** A container of the local runtime is inserted, or found again. *)
Lemma wp_insert_pending c (Q : result Container → world fleet → Prop) w :
  in_step w → uid_Agent (ct_AgentID c) = LocalAgent → ct_Archived c = false →
  (∀ c' w', pending c' (ct_State c') w' → Q (Ok c') w') → (∀ e w', in_step w' → Q (Err e) w') →
  wp (InsertContainer c) Q w.
Proof.
  intros Hw Ha Har HQ HE. pose proof Hw as [H1 H2 [H3 H3'] H4].
  apply wp_safe; [done|apply (upholds_any _ (res_ok (mine hosts (λ _, true))));
    apply (upholds_InsertContainer hosts hosts_apart); by rewrite ?Ha|].
  unfold InsertContainer. cbv zeta. apply wp_bind, wp_fault. intros b w1 Hs1 Hb. pose proof Hs1 as (S1 & E1 & T1).
  rewrite Hb by done. destruct (container_check (named_container c)); cbn [orb negb].
  2: { apply wp_ret. intros _. apply HE. by eapply stable. }
  apply wp_bind, wp_gets. destruct (bool_decide_reflect (ct_ID (named_container c) ∈ table_ids (db_containers (w_st w1)))) as [Hin|Hin].
  - apply wp_bind, wp_modify, wp_ret. intros Hsafe. apply HQ.
    split_and!; [done|by eapply (fault_free_env w)|..]; cbn; rewrite ?S1, ?E1 in *.
    + split; [done|]. intros n Hn. apply H3'. lia.
    + apply list_elem_of_fmap in Hin as (r & Hr & Hin). eexists. split; [apply update_where_elem; by exists r|].
      change (row_id r) with (ct_ID r). rewrite bool_decide_eq_true_2 by (by symmetry). done.
    + intros r' (r & Hr & ->)%update_where_elem. change (row_id r) with (ct_ID r).
      change (uid_Container _ _) with (ct_ID (named_container c)).
      destruct (decide (ct_ID r = ct_ID (named_container c))) as [He|He].
      * rewrite (bool_decide_eq_true_2 (ct_ID r = _)) by exact He. cbn. by rewrite bool_decide_eq_true_2.
      * rewrite !(bool_decide_eq_false_2 (ct_ID r = _)) by exact He. by apply H4.
  - destruct (existsb _ _).
    { apply wp_ret. intros _. apply HE. by eapply stable. }
    apply wp_bind, wp_modify, wp_ret. intros Hsafe. apply HQ.
    split_and!; [done|by eapply (fault_free_env w)|..]; cbn; rewrite ?S1, ?E1 in *.
    + split; [done|]. intros n Hn. apply H3'. lia.
    + eexists. split; [apply elem_of_app; right; by apply list_elem_of_singleton|done].
    + intros r [Hr| ->%list_elem_of_singleton]%elem_of_app; [|by rewrite bool_decide_eq_true_2].
      change (uid_Container _ _) with (ct_ID (named_container c)).
      destruct (bool_decide_reflect (ct_ID r = ct_ID (named_container c))) as [He|He]; [|by apply H4].
      destruct Hin. rewrite <- He. by apply (list_elem_of_fmap_2 ct_ID).
Qed.

Lemma step_reconcile_new stored t dc w :
  uid_Agent (ct_AgentID dc) = LocalAgent → ct_Archived dc = false → in_step w →
  kept_step (reconcile_new json stored t dc) w.
Proof.
  intros Ha Har Hw. unfold kept_step, reconcile_new. destruct (existsb _ _); [by apply wp_ret|].
  apply wp_bind, wp_insert_pending; [done..| |by intros; apply wp_ret].
  intros c w1 H1. apply wp_bind. destruct (bool_decide_reflect (ct_State c = StateCreated)) as [Hst|Hst]; cbn [negb].
  - apply wp_ret. apply (pending_done c (ct_State c)) in H1; [|by left]. destruct (ct_IsIgnored c); [by apply wp_ret|by apply step_emit].
  - apply wp_bind, (wp_transition_pending c); [done..|]. intros id w2 H2. apply wp_ret.
    destruct (ct_IsIgnored c); [by apply wp_ret|by apply step_emit].
Qed.

Lemma wp_lookup evt (Q : result (option Container) → world fleet → Prop) w :
  in_step w → (∀ w', in_step w' → Q (Ok None) w') →
  (∀ c w', in_step w' → c ∈ db_containers (w_st w') → Q (Ok (Some c)) w') → wp (container_lookup evt) Q w.
Proof.
  intros Hw HN HS. apply wp_db_query; intros w' Hs; [intros []; apply Hw|]. pose proof (stable w w' Hs Hw) as Hw'.
  destruct (head _) as [c|] eqn:Hc; [|by apply HN]. apply head_elem in Hc as [Hin _]. apply HS; [done|].
  by rewrite (proj1 Hs).
Qed.

Lemma step_Reconcile discover w :
  discoverer = Some discover → in_step w → kept_step (do! Reconcile json discover in ret tt) w.
Proof.
  intros Hd Hw. apply wp_bind. unfold Reconcile.
  eapply (wp_mono _ (λ _, in_step)); [|intros; by apply wp_ret].
  apply wp_bind, wp_consult. intros w1 Hs1 _.
  pose proof (stable w w1 Hs1 Hw) as Hw1. destruct (discover (w_tick w)) as [current|] eqn:Hcur; [|by apply wp_ret].
  apply wp_bind, wp_db_query; [intros w2 _ []; apply Hw1|]. intros w2 Hs2.
  pose proof (stable w1 w2 Hs2 Hw1) as Hw2. pose proof (proj1 Hs2) as Hst. cbn [fst snd].
  set (stored := merge_sort _ _).
  assert (∀ c, c ∈ stored → c ∈ db_containers (w_st w2)) as Hin.
  { intros c. unfold stored. rewrite Hst, merge_sort_Permutation. by intros [? _]%select_where_elem. }
  assert (NoDup (ct_ID <$> stored)) as Hnd.
  { unfold stored. rewrite merge_sort_Permutation. rewrite <- Hst.
    exact (select_where_sublist_ids (listed local_containers) _ (fo_ids _ _ _ _ _ (is_safe w2 Hw2))). }
  clearbody stored. apply wp_bind, wp_now. intros w3 Hs3. pose proof (stable w2 w3 Hs3 Hw2) as Hw3.
  assert (∀ k dc, by_external_id current !! k = Some dc → container_check dc = true) as Hck.
  { intros k dc Hk. eapply discovered_typed; [exact Hd|exact Hcur|]. by apply (by_external_id_elem k). }
  apply wp_bind. eapply wp_mono.
  { apply step_each_row; [intros x w' Hw' Hx; by apply step_reconcile_stored|apply others_reconcile|done|exact Hw3|].
    rewrite (proj1 Hs3). exact Hin. }
  intros _ w4 [_ Hw4]. apply wp_bind. eapply (wp_mono _ (λ _, in_step)); [|intros ? w5 Hw5; by apply wp_ret].
  apply wp_for_each; [|done]. intros dc w5 Hdc Hw5. destruct (discovered_ok _ _ _ _ Hd Hcur Hdc).
  eapply wp_mono; [by apply step_reconcile_new|]. by intros _ w6 [_ ?].
Qed.

(** *** Handlers *)

(** An event of the local runtime, as it happens. *)
Definition live (evt : ContainerEvent) : Prop := ce_Replayed evt = false ∧ ce_EventID evt = "".

Lemma step_handleStateChange evt new : live evt → is_state new = true → upholds in_step anything (handleStateChange json evt new).
Proof.
  intros [Hlive Hid] Hnew w Hw. apply wp_bind, wp_lookup; [done|..].
  - intros w1 Hw1. pose proof (λ d H, step_Reconcile d w1 H Hw1) as HR.
    destruct discoverer as [d|]; [|by apply wp_ret]. destruct (bool_decide _ && _); [by apply HR|by apply wp_ret].
  - intros c w1 Hw1 Hc. destruct (ct_IsIgnored c); [by apply wp_ret|]. rewrite Hlive. by apply step_change_state.
Qed.

Lemma step_handleHealthChange evt : live evt → upholds in_step anything (handleHealthChange json evt).
Proof.
  intros [Hlive Hid] w Hw. apply wp_bind, wp_lookup; [done|by intros; apply wp_ret|].
  intros c w1 Hw1 Hc. destruct (ct_IsIgnored c); [by apply wp_ret|]. rewrite Hlive. by apply step_change_health.
Qed.

Lemma step_handleDestroy evt : upholds in_step anything (handleDestroy json evt).
Proof.
  eapply (upholds_bind _ anything); [by apply in_step_quiet; intros|]. intros _ _ w Hw.
  apply wp_bind, wp_lookup; [done|by intros; apply wp_ret|]. intros c w1 Hw1 _. revert Hw1.
  pose proof (step_archive (ct_ID c) (ce_Timestamp evt)). upholds_tac.
Qed.

Lemma step_ProcessEvent evt : live evt → upholds in_step anything (ProcessEvent json evt).
Proof.
  intros Hl. pose proof (λ n, step_handleStateChange evt n Hl) as HS. pose proof (step_handleHealthChange evt Hl) as HH.
  pose proof (step_handleDestroy evt) as HD. unfold ProcessEvent. cbv zeta.
  case_bool_decide.
  { eapply (upholds_bind _ anything); [|intros; by apply HS]. destruct (_ && _); [by apply in_step_quiet; intros|by apply upholds_ret]. }
  case_bool_decide.
  { intros w Hw. apply wp_bind, wp_lookup; [done|intros; by apply HS|]. intros c w1 Hw1 _.
    case_bool_decide; [by apply wp_ret|by apply HS]. }
  case_bool_decide; [destruct (clean_exit_text _ _); by apply HS|].
  repeat (case_bool_decide; [by first [apply HS|apply HD|apply HH]|]). by apply upholds_ret.
Qed.

Lemma step_recoveries : upholds in_step anything (checkRestartRecoveries json).
Proof.
  eapply (upholds_bind _ anything); [by apply upholds_gets|]. intros ids _. apply upholds_for_each. intros id _.
  apply step_recovery.
Qed.

Lemma transitions_delete id id' ts :
  id ≠ id' → last_state id (delete_where (λ t, bool_decide (st_ContainerID t = id')) ts) = last_state id ts.
Proof.
  intros Hne. apply last_state_ext. unfold transitions_of, delete_where. rewrite list_filter_filter.
  apply list_filter_iff. intros t. rewrite bool_decide_eq_false. intuition congruence.
Qed.

Lemma step_deleted id : upholds in_step anything (db_exec (λ s, s <| db_containers ::= delete_where (λ c, bool_decide (ct_ID c = id)) |>
              <| db_transitions ::= delete_where (λ t, bool_decide (st_ContainerID t = id)) |>)).
Proof.
  apply upholds_db_exec; [apply _|]. intros w [H1 H2 [H3 H3'] H4]. split; cbn; [by apply ok_delete|done|..].
  - split; [done|]. intros n Hn (t & Ht & Hin)%list_elem_of_fmap. apply (H3' n Hn), list_elem_of_fmap. exists t.
    split; [done|]. by apply delete_where_elem in Hin as [? _].
  - intros c [Hc Hne]%delete_where_elem. apply bool_decide_eq_false in Hne. unfold agrees.
    rewrite transitions_delete by done. by apply H4.
Qed.

Lemma step_DeleteContainer id : upholds in_step anything (DeleteContainer json id).
Proof.
  apply (upholds_bind _ anything).
  - unfold DeleteContainerByID, GetContainerByID. eapply (upholds_bind _ anything); [apply step_query|].
    intros [[c|]|] _; [|by apply upholds_ret..].
    do 4 (eapply (upholds_bind _ anything); [by apply upholds_db_exec; [apply _|intros x Hx; by destruct x]|]; intros [] _; [|by apply upholds_ret]).
    apply step_deleted.
  - intros [] _; upholds_tac.
Qed.

(** What the local runtime and the user may do. *)
Definition local_op (op : container_op) : Prop :=
  match op with
  | CtEvent evt => live evt
  | CtReport _ _ _ | CtInventory _ _ _ _ => False
  | _ => True
  end.

Lemma step_handler op : local_op op → upholds in_step anything (container_handler json op).
Proof.
  destruct op as [evt| | | |id| |ids]; intros Hop; try done.
  - by apply step_ProcessEvent.
  - intros w Hw. pose proof (λ d H, step_Reconcile d w H Hw) as HR. cbn. destruct discoverer as [d|]; [by apply HR|by apply wp_ret].
  - eapply (upholds_bind _ anything); [apply step_DeleteContainer|]. intros. by apply upholds_ret.
  - apply step_recoveries.
  - by apply in_step_quiet; intros.
Qed.

(** C13: the timeline tells the truth.  While no call fails, whatever events the
    local runtime sends, whatever it is found to run, and whichever containers are
    deleted, every container is in the state its last recorded transition leads to;
    only one that was never started may have none. *)
Theorem timeline_faithful ops (w : world fleet) :
  let s := w_st w in
  let s' := w_st (container_run json ops w).2 in
  Forall local_op ops → fleet_typed hosts s → fault_free w →
  fresh_uids (w_env w) (w_tick w) (db_transitions s) →
  (∀ c, c ∈ db_containers s → agrees (db_transitions s) c) →
  ∀ c, c ∈ db_containers s' → ct_State c = StateCreated ∨ last_state (ct_ID c) (db_transitions s') = Some (ct_State c).
Proof.
  intros s s' Hops Ht Hff Hfr Hag. rewrite Forall_forall in Hops.
  assert (in_step w) as Hw.
  { split; [|done..]. unfold safe_inv, inv. destruct Ht. split; [done..| |done]. apply list_filter_none. by intros. }
  apply (is_agree _ (proj2 (upholds_for_each in_step ops (container_handler json) (λ op H, step_handler op (Hops op H)) w Hw))).
Qed.
End Timeline.
