(* ===== verification/ContainerCorrect.v ===== *)
(** * Containers: restart loops

    A container that keeps crashing raises one alert when its restarts reach its
    threshold, and the alert is closed once they have aged out of the window.  Then
    concrete runs: the witnesses of the theorems on containers, and what the service
    does in cases the code may not expect. *)

From S2P Require Import Prelude.
From S2P Require Import Tables.
From S2P Require Import GoStrings.
From S2P Require Import AlertModel.
From S2P Require Import Uid.
From S2P Require Import SwarmAlerts.
From S2P Require Import EndpointService.
From S2P Require Import Container.
From S2P Require Import ContainerStore.
From S2P Require Import ContainerService.
From S2P Require Import ContainerAgent.
From S2P Require Import ContainerSafe.
From S2P Require Import ContainerTimeline.

#[local] Open Scope string_scope.
#[local] Open Scope list_scope.
#[local] Open Scope Z_scope.

(** How often the container went back to running since [since]. *)
Definition restarts_since (id : string) (since : Z) (ts : list StateTransition) : Z :=
  Z.of_nat (length (select_where (is_restart id since) ts)).

(** The row [InsertTransition] adds. *)
Definition recorded (id : string) (t : StateTransition) : StateTransition :=
  t <| st_ID := id |> <| st_Timestamp ::= db_time |>.

Lemma restarts_since_mono id a b ts : a ≤ b → restarts_since id b ts ≤ restarts_since id a ts.
Proof.
  intros Hab. unfold restarts_since. apply inj_le. induction ts as [|t ts IH]; [done|].
  assert (is_restart id b t = true → is_restart id a t = true) as Himp.
  { unfold is_restart. rewrite !andb_true_iff, !bool_decide_eq_true. pose proof (unix_mono _ _ Hab). intuition lia. }
  unfold select_where in *. rewrite !filter_cons.
  destruct (decide (is_restart id b t = true)), (decide (is_restart id a t = true)); cbn; try lia. tauto.
Qed.

Section Restarts.
Context `{Uid : !Uuid} `{Deps : !ContainerDeps} (json : list (string * value) → details).

(** What the alert engine is told of a container with [n] restarts in the window. *)
Definition restart_signal (c : Container) (n now start : Z) : signal :=
  SigAlert
    (if bool_decide (ct_RestartThreshold c ≤ n)
     then restartAlertEvent json (MkRestartAlert (ct_ID c) (ct_Name c) n (ct_RestartThreshold c) (ct_AlertSeverity c)
            now (ct_AgentID c))
     else restartRecoveryEvent [("container_id", VString (ct_ID c)); ("container_name", VString (ct_Name c));
            ("timestamp", VTime start); ("agent_id", VString (ct_AgentID c))] now).

Lemma wp_check_restarts c t (Q : unit → world fleet → Prop) w :
  fault_free w →
  (∀ k1 k2 w', (w_tick w ≤ k1)%nat →
    let n := restarts_since (ct_ID c) (env_now (w_env w) k1 - defaultRestartWindow) (db_transitions (w_st w)) in
    w_env w' = w_env w → (w_tick w ≤ w_tick w')%nat →
    db_containers (w_st w') = db_containers (w_st w) → db_transitions (w_st w') = db_transitions (w_st w) →
    trackedRestartAlerts (w_st w') = (if bool_decide (ct_RestartThreshold c ≤ n) then union {[ct_ID c]} else (λ m, m ∖ {[ct_ID c]}))
      (trackedRestartAlerts (w_st w)) →
    ct_signals (w_st w') = ct_signals (w_st w) ++ [restart_signal c n (env_now (w_env w) k2) t] → Q tt w') →
  wp (check_restarts json c t) Q w.
Proof.
  intros Hff HQ. unfold check_restarts. apply wp_bind. unfold RestartDetector_Check.
  apply wp_bind, wp_consult. intros w1 Hs1 Ht1. apply wp_bind, wp_db_query; [intros w2 _ []; by eapply fault_free_env; [apply Hs1|]|].
  intros w2 Hs2. set (n := Z.of_nat _). destruct Hs1 as (S1 & E1 & T1), Hs2 as (S2 & E2 & T2).
  assert (n = restarts_since (ct_ID c) (env_now (w_env w) (w_tick w) - defaultRestartWindow) (db_transitions (w_st w))) as Hn.
  { unfold n, restarts_since. by rewrite S1. }
  clearbody n. destruct (bool_decide_reflect (n < ct_RestartThreshold c)) as [Hlt|Hge].
  - apply wp_ret. apply wp_bind, wp_modify, wp_bind, wp_modify. cbn. apply wp_bind, wp_consult. intros w3 (S3 & E3 & T3) Ht3.
    apply wp_modify. eapply (HQ (w_tick w) (w_tick w2)); cbn in *; rewrite ?S3, ?E3, ?S2, ?E2, ?S1, ?E1; rewrite <- ?Hn; try done; try lia.
    + by rewrite bool_decide_eq_false_2 by lia.
    + unfold restart_signal. rewrite bool_decide_eq_false_2 by lia. done.
  - apply wp_bind, wp_consult. intros w3 (S3 & E3 & T3) Ht3. apply wp_ret.
    apply wp_bind, wp_modify, wp_bind, wp_modify. cbn.
    apply wp_modify. eapply (HQ (w_tick w) (w_tick w2)); cbn in *; rewrite ?S3, ?E3, ?S2, ?E2, ?S1, ?E1; rewrite <- ?Hn; try done; try lia.
    + by rewrite bool_decide_eq_true_2 by lia.
    + unfold restart_signal. rewrite bool_decide_eq_true_2 by lia. done.
Qed.

(** A container in its table, under its host and external id. *)
Definition stored_as (evt : ContainerEvent) (c : Container) (s : fleet) : Prop :=
  head (select_where (of_agent (uid_Agent (ce_AgentID evt)) (ce_ExternalID evt)) (db_containers s)) = Some c.

Lemma wp_UpdateContainer_ok c (Q : result unit → world fleet → Prop) w :
  fault_free w → container_check c = true →
  (∀ w', put w (w_st w <| db_containers ::= update_id (ct_ID c) (updated_row c) |>) w' → Q (Ok tt) w') →
  wp (UpdateContainer c) Q w.
Proof.
  intros Hff Hck HQ. unfold UpdateContainer. apply wp_bind, wp_fault. intros b w1 (S1 & E1 & T1) Hb. rewrite Hb by done.
  rewrite Hck. cbn [orb negb]. apply wp_bind, wp_modify, wp_ret, HQ. unfold put. cbn. by rewrite S1.
Qed.

Lemma wp_InsertTransition_new t (Q : result string → world fleet → Prop) w :
  fault_free w → fresh_uids (w_env w) (w_tick w) (db_transitions (w_st w)) → st_ID t = "" →
  st_ContainerID t ∈ table_ids (db_containers (w_st w)) →
  (∀ id w', put w (w_st w <| db_transitions ::= λ l, l ++ [recorded id t] |>) w' → Q (Ok id) w') →
  wp (InsertTransition t) Q w.
Proof.
  intros Hff [Hu1 Hu2] Hid Hin HQ. unfold InsertTransition. rewrite bool_decide_eq_true_2 by done.
  apply wp_bind, wp_new_uid. intros w1 (S1 & E1 & T1) _. apply wp_bind, wp_fault. intros b w2 (S2 & E2 & T2) Hb.
  rewrite Hb by by eapply (fault_free_env w). apply wp_bind, wp_gets. rewrite S2, S1, (bool_decide_eq_true_2 _ Hin).
  cbn [negb]. rewrite bool_decide_eq_false_2 by (by apply Hu2).
  apply wp_bind, wp_modify, wp_ret, HQ. unfold put. cbn. rewrite S2, S1, E2, E1. split_and!; [done..|lia].
Qed.

Lemma wp_emit_state m (Q : unit → world fleet → Prop) w :
  (∀ w', db_transitions (w_st w') = db_transitions (w_st w) → trackedRestartAlerts (w_st w') = trackedRestartAlerts (w_st w) →
    ct_signals (w_st w') = ct_signals (w_st w) → Q tt w') → wp (emitContainer json ContainerStateChanged (PMap m)) Q w.
Proof. intros HQ. apply wp_bind, wp_modify, wp_ret. by apply HQ. Qed.

(** What restarting the crashed container [c] does. *)
Definition restart_outcome (evt : ContainerEvent) (c : Container) (w w' : world fleet) : Prop :=
  let s := w_st w in let s' := w_st w' in
  ∃ id k1 k2, (w_tick w ≤ k1)%nat ∧
    let n := restarts_since (ct_ID c) (env_now (w_env w) k1 - defaultRestartWindow) (db_transitions s') in
    let tr := MkTransition "" (ct_ID c) (ct_State c) StateRunning None None (exit_code evt) "" (ce_Timestamp evt) in
    db_transitions s' = db_transitions s ++ [recorded id tr]
    ∧ (ct_ID c ∈ trackedRestartAlerts s' ↔ ct_RestartThreshold c ≤ n)
    ∧ ct_signals s' = ct_signals s ++ [restart_signal c n (env_now (w_env w) k2) (ce_Timestamp evt)].

Lemma wp_restart evt c w :
  fault_free w → fresh_uids (w_env w) (w_tick w) (db_transitions (w_st w)) → c ∈ db_containers (w_st w) →
  live evt → ce_Action evt = "start" → crashed (ct_State c) = true → container_check c = true → hasRestartChecker = true →
  wp (change_state json evt StateRunning c (ct_State c)) (λ _ w', restart_outcome evt c w w') w.
Proof.
  intros Hff Hfr Hin [Hlive Hid] Hact Hcr Hck Hrc. unfold change_state. rewrite Hlive.
  rewrite bool_decide_eq_false_2 by (intros He; by rewrite He in Hcr).
  set (c' := c <| ct_State := StateRunning |> <| ct_LastStateChangeAt := ce_Timestamp evt |>).
  apply wp_bind, wp_UpdateContainer_ok; [done|by apply check_parts in Hck as (_ & ? & ?); apply check_parts|].
  intros w1 (S1 & E1 & T1). assert (exit_snippet evt c' w1 = ret "" w1) as Hsnip.
  { unfold exit_snippet. rewrite Hact. by destruct logFetcher. }
  apply wp_bind, (wp_ext _ _ _ _ Hsnip), wp_ret.
  assert (recordID evt "state_transition" = "") as -> by (unfold recordID; by rewrite bool_decide_eq_true_2).
  assert (fault_free w1) as Hff1 by by eapply fault_free_env.
  assert (fresh_uids (w_env w1) (w_tick w1) (db_transitions (w_st w1))) as Hfr1.
  { rewrite S1, E1. destruct Hfr as [Hu1 Hu2]. split; [done|]. intros n Hn. apply Hu2. lia. }
  apply wp_bind, wp_InsertTransition_new; [done|done|..].
  { done. }
  { rewrite S1. cbn. unfold table_ids. apply list_elem_of_fmap. exists (if bool_decide (ct_ID c = ct_ID c) then updated_row c' c else c).
    rewrite bool_decide_eq_true_2 by done. split; [done|]. apply update_where_elem. exists c. split; [done|].
    change (row_id c) with (ct_ID c). by rewrite bool_decide_eq_true_2. }
  intros id w2 (S2 & E2 & T2). rewrite Hcr, Hrc. rewrite bool_decide_eq_true_2 by done. cbn [andb].
  apply wp_bind, wp_check_restarts; [by apply (fault_free_env w1)|].
  assert (db_transitions (w_st w2) = db_transitions (w_st w) ++ [recorded id (MkTransition "" (ct_ID c) (ct_State c)
    StateRunning None None (exit_code evt) "" (ce_Timestamp evt))]) as Htr by by rewrite S2, S1.
  assert (ct_signals (w_st w2) = ct_signals (w_st w)) as Hsig by by rewrite S2, S1.
  intros k1 k2 w3 Hk1 n E3 T3 _ H1 H2 H3. apply wp_emit_state. intros w4 T4 R4 G4. exists id, k1, k2. split; [lia|].
  rewrite T4, R4, G4, H1, H2, H3, Hsig. fold n. assert (w_env w2 = w_env w) as E by congruence.
  unfold n. rewrite E, Htr. cbv zeta. split_and!; [done| |done].
  change (ct_RestartThreshold c') with (ct_RestartThreshold c). change (ct_ID c') with (ct_ID c).
  destruct (bool_decide_reflect (ct_RestartThreshold c ≤ restarts_since (ct_ID c)
    (env_now (w_env w) k1 - defaultRestartWindow) (db_transitions (w_st w) ++ [recorded id (MkTransition "" (ct_ID c)
      (ct_State c) StateRunning None None (exit_code evt) "" (ce_Timestamp evt))]))); set_solver.
Qed.

(** C16: restart loops are detected exactly.  When a crashed container is started
    again and no call fails, the restart is recorded and the alert engine is told of
    one event: the restart alert if the restarts recorded in the last ten minutes,
    this one included, have reached the container's threshold, and else that the
    alert is over; the alert is tracked exactly in the first case. *)
Theorem restart_loop_exact evt c (w : world fleet) :
  let s := w_st w in
  let w' := (ProcessEvent json evt w).2 in
  let s' := w_st w' in
  fault_free w → fresh_uids (w_env w) (w_tick w) (db_transitions s) → stored_as evt c s →
  live evt → ce_Action evt = "start" → ct_IsIgnored c = false → crashed (ct_State c) = true →
  container_check c = true → hasRestartChecker = true →
  restart_outcome evt c w w'.
Proof.
  intros s w' s' Hff Hfr Hc Hlive Hact Hign Hcr Hck Hrc. subst s w' s'. apply head_elem in Hc as Hin. destruct Hin as [Hin _].
  change (wp (ProcessEvent json evt) (λ _ w', restart_outcome evt c w w') w). unfold ProcessEvent. rewrite Hact.
  apply wp_bind.
  assert (∀ w1, w_env w1 = w_env w → (w_tick w ≤ w_tick w1)%nat → db_containers (w_st w1) = db_containers (w_st w) →
    db_transitions (w_st w1) = db_transitions (w_st w) → ct_signals (w_st w1) = ct_signals (w_st w) →
    wp (handleStateChange json evt StateRunning) (λ _ w', restart_outcome evt c w w') w1) as H.
  { intros w1 E1 T1 C1 D1 G1. assert (fault_free w1) as Hff1 by by eapply fault_free_env.
    apply wp_bind, wp_db_query; [by intros ? _ []|]. intros w2 (S2 & E2 & T2). rewrite C1. unfold stored_as in Hc. rewrite Hc.
    rewrite Hign. rewrite (proj1 Hlive). eapply wp_mono.
    - apply wp_restart; try done.
      + by eapply fault_free_env.
      + rewrite S2, E2, E1, D1. destruct Hfr as [Hu1 Hu2]. split; [done|]. intros n Hn. apply Hu2. lia.
      + by rewrite S2, C1.
    - intros _ w3 (id & k1 & k2 & Hk & Ht & Ho). exists id, k1, k2. rewrite E2, E1, S2, D1, G1 in *.
      split; [lia|]. by split. }
  destruct (_ && _); [apply wp_modify|apply wp_ret]; by apply H.
Qed.

(** *** Recoveries *)

(** Rechecking changes no row, tracks nothing new and takes no signal back. *)
Definition recheck_only (s s' : fleet) : Prop :=
  db_containers s' = db_containers s ∧ db_transitions s' = db_transitions s
  ∧ trackedRestartAlerts s' ⊆ trackedRestartAlerts s ∧ prefix (ct_signals s) (ct_signals s').

#[local] Instance recheck_only_preorder : PreOrder recheck_only.
Proof.
  split; [by intros s|]. intros s1 s2 s3 (A1&A2&A3&A4) (B1&B2&B3&B4).
  split_and!; [congruence..|set_solver|by etransitivity].
Qed.

(** A world that rechecking may have made of [w0]. *)
Definition later (w0 w : world fleet) : Prop :=
  recheck_only (w_st w0) (w_st w) ∧ w_env w = w_env w0 ∧ (w_tick w0 ≤ w_tick w)%nat.

#[local] Instance later_stable w0 : Stable (later w0).
Proof. intros w w' (Hs & He & Ht) (H1 & H2 & H3). unfold later. rewrite Hs, He. split_and!; [done..|lia]. Qed.

Lemma later_modify w0 f : (∀ s, recheck_only s (f s)) → upholds (later w0) anything (modify f).
Proof.
  intros Hf. apply upholds_modify. intros w (H1 & H2 & H3). split_and!; [|done..]. cbn. by etransitivity; [exact H1|].
Qed.

Ltac later_tac :=
  repeat first
    [ progress intros
    | solve [eauto with upholds typeclass_instances]
    | match goal with
      | |- upholds _ anything (match ?x with _ => _ end) => destruct x eqn:?
      end
    | eapply (upholds_bind _ anything)
    | apply upholds_for_each
    | apply later_modify
    | progress cbn beta iota ].

Lemma later_emit w0 ty data : upholds (later w0) anything (emitContainer json ty data).
Proof.
  unfold emitContainer, container_callback, send_signal. later_tac; (split_and!; [done..|]); first [reflexivity|by apply prefix_app_r].
Qed.

Lemma later_untrack w0 id : upholds (later w0) anything (untrackRestartAlert id).
Proof. apply later_modify. intros s. split_and!; [done..| |done]. cbn. set_solver. Qed.

Lemma later_query {A} w0 (q : fleet → A) : upholds (later w0) anything (db_query q).
Proof. eapply (upholds_any _ (res_ok anything)). by apply upholds_db_query; [apply _|]. Qed.

Lemma later_recheck w0 id : upholds (later w0) anything (recheckRestartRecovery json id).
Proof.
  pose proof (later_emit w0). pose proof (later_untrack w0). pose proof (@later_query).
  unfold recheckRestartRecovery, GetContainerByID, RestartDetector_Check, CountRestartsSince. later_tac.
Qed.

Lemma later_rechecks w0 l : upholds (later w0) anything (for_each l (recheckRestartRecovery json)).
Proof. apply upholds_for_each. intros id _. apply later_recheck. Qed.

Lemma later_refl w : later w w.
Proof. by split_and!. Qed.

(** The alert of [c] is over, and the alert engine knows. *)
Definition recovered (c : Container) (s : fleet) : Prop :=
  (ct_ID c ∉ trackedRestartAlerts s) ∧
  ∃ t1 t2, SigAlert (restartRecoveryEvent [("container_id", VString (ct_ID c)); ("container_name", VString (ct_Name c));
    ("timestamp", VTime t1); ("agent_id", VString (ct_AgentID c))] t2) ∈ ct_signals s.

Lemma recovered_stays c s s' : recheck_only s s' → recovered c s → recovered c s'.
Proof.
  intros (_ & _ & Ht & l & Hl) [Hn (t1 & t2 & Hin)]. split; [set_solver|]. exists t1, t2. rewrite Hl. apply elem_of_app. by left.
Qed.

Lemma wp_recheck c w :
  fault_free w → (∀ k1 k2, (k1 ≤ k2)%nat → env_now (w_env w) k1 ≤ env_now (w_env w) k2) →
  select_id (ct_ID c) (db_containers (w_st w)) = Some c → ct_Archived c = false → ct_State c = StateRunning →
  restarts_since (ct_ID c) (env_now (w_env w) (w_tick w) - defaultRestartWindow) (db_transitions (w_st w)) < ct_RestartThreshold c →
  wp (recheckRestartRecovery json (ct_ID c)) (λ _ w', recovered c (w_st w')) w.
Proof.
  intros Hff Hm Hsel Har Hst Hlt. apply wp_bind, wp_db_query; [by intros ? _ []|]. intros w1 (S1 & E1 & T1).
  rewrite Hsel, Har, Hst. rewrite bool_decide_eq_true_2 by done. cbn [negb].
  apply wp_bind, wp_bind, wp_consult. intros w2 (S2 & E2 & T2) _.
  apply wp_bind, wp_db_query; [intros ? _ []; by apply (fault_free_env w); [congruence|]|]. intros w3 (S3 & E3 & T3).
  assert (Z.of_nat (length (select_where (is_restart (ct_ID c) (env_now (w_env w1) (w_tick w1) - defaultRestartWindow))
    (db_transitions (w_st w2)))) < ct_RestartThreshold c) as Hn.
  { rewrite S2, S1, E1. eapply Z.le_lt_trans, Hlt. apply restarts_since_mono. specialize (Hm (w_tick w) (w_tick w1) T1). lia. }
  rewrite bool_decide_eq_true_2 by exact Hn. apply wp_ret, wp_bind, wp_modify, wp_bind, wp_consult. intros w4 (S4 & E4 & T4) _.
  apply wp_bind, wp_modify. apply wp_bind, wp_consult. intros w5 (S5 & E5 & T5) _. apply wp_modify.
  unfold recovered. cbn in *. rewrite S5. cbn. rewrite S4. cbn. split; [set_solver|].
  do 2 eexists. apply elem_of_app. right. by apply list_elem_of_singleton.
Qed.

(** C17: a restart alert closes by itself.  When the recovery loop ticks, no call
    fails and the clock does not run backwards, a tracked container that runs and
    whose restarts in the last ten minutes are fewer than its threshold is no longer
    tracked, and the alert engine is told that the alert is over. *)
Theorem restart_alert_recovers c (w : world fleet) :
  let s := w_st w in
  let now := env_now (w_env w) (w_tick w) in
  fault_free w → (∀ k1 k2, (k1 ≤ k2)%nat → env_now (w_env w) k1 ≤ env_now (w_env w) k2) →
  ct_ID c ∈ trackedRestartAlerts s → select_id (ct_ID c) (db_containers s) = Some c →
  ct_Archived c = false → ct_State c = StateRunning →
  restarts_since (ct_ID c) (now - defaultRestartWindow) (db_transitions s) < ct_RestartThreshold c →
  recovered c (w_st (checkRestartRecoveries json w).2).
Proof.
  intros s now Hff Hm Htr Hsel Har Hst Hlt. change (wp (checkRestartRecoveries json) (λ _ w', recovered c (w_st w')) w).
  apply wp_bind, wp_gets. apply elem_of_elements, list_elem_of_split in Htr as (l1 & l2 & Hl). unfold s in Hl. rewrite Hl.
  apply (wp_ext _ _ _ _ (for_each_app _ _ _ _)), wp_bind.
  destruct (later_rechecks w l1 w (later_refl w)) as [_ ((C1 & D1 & _ & _) & E1 & T1)].
  set (w1 := (for_each l1 _ w).2) in *. change (wp (for_each (ct_ID c :: l2) (recheckRestartRecovery json)) (λ _ w', recovered c (w_st w')) w1).
  apply wp_bind. eapply wp_mono; [apply wp_recheck; try done|].
  - by apply (fault_free_env w).
  - by rewrite E1.
  - by rewrite C1.
  - rewrite E1, D1. eapply Z.le_lt_trans, Hlt. apply restarts_since_mono. specialize (Hm _ _ T1). unfold now. lia.
  - intros a w2 Hr. destruct (later_rechecks w2 l2 w2 (later_refl w2)) as [_ (Hsame & _ & _)].
    by apply (recovered_stays c (w_st w2)).
Qed.
End Restarts.

(** ** Examples *)

Module ContainerExample.

#[local] Instance uuid : Uuid := λ ns text, (ns +:+ "/" +:+ text)%string.
Definition json : list (string * value) → details := λ _, DetailsNil.
Definition t0 : Z := 1700000000 * second.

(** The runtime knows one container, a web server. *)
Definition web : Container :=
  no_container <| ct_ExternalID := "c1" |> <| ct_AgentID := LocalAgent |> <| ct_Name := "web" |>
    <| ct_State := StateRunning |> <| ct_AlertSeverity := container_SeverityWarning |> <| ct_RestartThreshold := 2 |>.
#[local] Instance deps : ContainerDeps := {|
  logFetcher := None;
  discoverer := Some (λ _, Ok [web]);
  agentRuntime := None;
  hasRestartChecker := true;
|}.
Definition hosts : gset string := {[LocalAgent; "agent-1"]}.

Lemma host_cases a : a ∈ hosts → a = LocalAgent ∨ a = "agent-1".
Proof. unfold hosts. set_solver. Qed.

Lemma local_host : LocalAgent ∈ hosts.
Proof. unfold hosts. set_solver. Qed.

Lemma hosts_named a : a ∈ hosts → uid_Agent a = a.
Proof. by intros [-> | ->]%host_cases. Qed.

Lemma hosts_apart a e a' e' : a ∈ hosts → a' ∈ hosts → uid_Container a e = uid_Container a' e' → a = a'.
Proof. intros [-> | ->]%host_cases [-> | ->]%host_cases H; done. Qed.

Lemma discovered_ok discover (n : nat) (cs : list Container) c :
  discoverer = Some discover → discover n = Ok cs → c ∈ cs →
  uid_Agent (ct_AgentID c) = LocalAgent ∧ ct_Archived c = false.
Proof. by intros [= <-] [= <-] ->%list_elem_of_singleton. Qed.

Lemma discovered_typed discover (n : nat) (cs : list Container) c :
  discoverer = Some discover → discover n = Ok cs → c ∈ cs → container_check c = true.
Proof. by intros [= <-] [= <-] ->%list_elem_of_singleton. Qed.

Definition event (action : string) (t : Z) : ContainerEvent :=
  MkContainerEvent action LocalAgent "c1" "web" "1" false HealthUnhealthy "" t false "".
Definition report (state : pb_ContainerState) : pb_ContainerEvent :=
  MkContainerMessage "r1" "db" "postgres" state "" (Some t0) ∅ "" false false None false.
Definition meta : Meta := MkMeta t0 false "".

(** Everything happens once. *)
Definition story : list container_op :=
  [ CtReconcile; CtEvent (event "die" (t0 + minute)); CtEvent (event "start" (t0 + 2 * minute));
    CtReport "agent-1" (report CONTAINER_STATE_RUNNING) meta; CtInventory "agent-1" [] true meta; CtRecoveries ].
Definition w0 : world fleet := calm_world t0 empty_fleet.

Example story_rows :
  (λ c, (ct_ExternalID c, ct_State c, ct_Archived c)) <$> db_containers (w_st (container_run json story w0).2)
  = [("c1", StateRunning, false); ("r1", StateRunning, true)].
Proof. vm_compute. reflexivity. Qed.

Lemma empty_typed : fleet_typed hosts empty_fleet.
Proof. split; [constructor|by intros ? ?%elem_of_nil|constructor|by intros ? ?%elem_of_nil]. Qed.

Lemma stored_containers_typed_witness : fleet_typed hosts (w_st (container_run json story w0).2).
Proof.
  apply (stored_containers_typed json hosts local_host hosts_named hosts_apart discovered_ok story w0).
  - repeat constructor; unfold from_hosts; cbn; unfold hosts; set_solver.
  - exact empty_typed.
Defined.

(** The web server is stored. *)
Definition row : Container := container_row (named_container web).
Definition w1 : world fleet := calm_world t0 (empty_fleet <| db_containers := [row] |>).

Lemma w1_typed : fleet_typed hosts (w_st w1).
Proof.
  split; cbn; [by apply NoDup_singleton| |constructor|by intros ? ?%elem_of_nil].
  intros c ->%list_elem_of_singleton. split; [split_and!|..]; done.
Qed.

Lemma agents_isolated_witness :
  let s := w_st w1 in
  let s' := w_st (container_run json [CtReport "agent-1" (report CONTAINER_STATE_EXITED) meta] w1).2 in
  filter (λ c, ct_AgentID c ≠ "agent-1") (db_containers s') = filter (λ c, ct_AgentID c ≠ "agent-1") (db_containers s)
  ∧ ∀ k, k.1 ≠ "agent-1" → agentDetails s' !! k = agentDetails s !! k.
Proof.
  apply (agents_isolated json hosts local_host hosts_named hosts_apart discovered_ok "agent-1"
    [CtReport "agent-1" (report CONTAINER_STATE_EXITED) meta] w1).
  - unfold hosts. set_solver.
  - by repeat constructor.
  - exact w1_typed.
Defined.

Example the_report_is_stored :
  ct_State <$> db_containers (w_st (container_run json [CtReport "agent-1" (report CONTAINER_STATE_EXITED) meta] w1).2)
  = [StateRunning; StateExited].
Proof. vm_compute. reflexivity. Qed.

(** The identifiers of the environment are not used twice. *)
Lemma calm_fresh (tick : nat) : fresh_uids (calm t0) tick [].
Proof.
  split; [|by intros ? ? ?%elem_of_nil]. intros m n H. unfold calm in H. cbn in H. by simplify_eq.
Qed.

Definition local_story : list container_op :=
  [ CtReconcile; CtEvent (event "die" (t0 + minute)); CtEvent (event "start" (t0 + 2 * minute)); CtRecoveries ].

Lemma timeline_faithful_witness :
  let s' := w_st (container_run json local_story w0).2 in
  Forall (λ c, ct_State c = StateCreated ∨ last_state (ct_ID c) (db_transitions s') = Some (ct_State c)) (db_containers s').
Proof.
  apply Forall_forall.
  apply (timeline_faithful json hosts local_host hosts_named hosts_apart discovered_ok discovered_typed local_story w0).
  - by repeat constructor.
  - exact empty_typed.
  - apply calm_fault_free.
  - apply calm_fresh.
  - by intros ? ?%elem_of_nil.
Defined.

(** A crashed container that is started again, having restarted once before. *)
Definition crashed_web : Container := row <| ct_State := StateExited |>.
Definition restart_before : StateTransition :=
  MkTransition "x" (ct_ID row) StateExited StateRunning None None None "" t0.
Definition w2 : world fleet :=
  calm_world (t0 + minute) (empty_fleet <| db_containers := [crashed_web] |> <| db_transitions := [restart_before] |>).

Lemma restart_loop_exact_witness :
  restart_outcome json (event "start" (t0 + minute)) crashed_web w2 (ProcessEvent json (event "start" (t0 + minute)) w2).2.
Proof.
  apply (restart_loop_exact json (event "start" (t0 + minute)) crashed_web w2); try done.
  split; [apply (calm_fresh 0)|]. intros n Hn. cbn. intros H%list_elem_of_singleton. by simplify_eq.
Defined.

Example restart_loop_alert :
  (λ g, match g with SigAlert e => Some (ev_AlertType e, ev_IsRecover e) | _ => None end)
    <$> ct_signals (w_st (ProcessEvent json (event "start" (t0 + minute)) w2).2)
  = [Some (restartLoopAlertType, false)].
Proof. vm_compute. reflexivity. Qed.

(** Twenty minutes later the restart has aged out. *)
Definition w3 : world fleet :=
  calm_world (t0 + 20 * minute) (empty_fleet <| db_containers := [row] |> <| db_transitions := [restart_before] |>
    <| trackedRestartAlerts := {[ct_ID row]} |>).

Lemma restart_alert_recovers_witness : recovered row (w_st (checkRestartRecoveries json w3).2).
Proof.
  apply (restart_alert_recovers json row w3); try done.
Defined.

(** An unhealthy container that is restarted goes through "starting": when it is
    healthy again nothing tells the alert engine. *)
Definition sick : world fleet :=
  calm_world t0 (empty_fleet <| db_containers := [row <| ct_HealthStatus := Some HealthUnhealthy |>] |>).
Definition health (h : string) : container_op := CtEvent (event "health_status" t0 <| ce_HealthStatus := h |>).

Example health_recovery_lost :
  let s := w_st (container_run json [health HealthStarting; health HealthHealthy] sick).2 in
  ct_HealthStatus <$> db_containers s = [Some HealthHealthy] ∧ ct_signals s = [].
Proof. split; vm_compute; reflexivity. Qed.

Example health_recovery_told :
  length (ct_signals (w_st (container_run json [health HealthHealthy] sick).2)) = 1%nat.
Proof. vm_compute. reflexivity. Qed.

(** Replayed events are told apart by the second: a stop after a crash and a start
    of one and the same second reads as no change, and is dropped. *)
Definition replayed (action id : string) (t : Z) : container_op :=
  CtEvent (event action t <| ce_Replayed := true |> <| ce_EventID := id |>).
Definition replay (gap : Z) : world fleet :=
  (container_run json [replayed "die" "e1" t0; replayed "start" "e2" (t0 + gap); replayed "die" "e3" (t0 + 2 * second)] w1).2.

Example replays_of_one_second :
  st_NewState <$> db_transitions (w_st (replay second)) = [StateExited; StateRunning; StateExited]
  ∧ st_NewState <$> db_transitions (w_st (replay 1)) = [StateExited; StateRunning].
Proof. split; vm_compute; reflexivity. Qed.
End ContainerExample.
