(* ===== verification/DownDetector.v ===== *)
(** * Containers that stay down

    [src/internal/alert/down.go]: the sweep that raises an alert for every
    container stopped for longer than a threshold, and takes it back when the
    container runs again.  The detector keeps no state: it reads the containers
    from one store and the alerts that are firing from another, so what it does
    over time depends on the alert engine it feeds.  The two maps it ranges over
    are visited in the order of a parameter, as Go's order is not defined. *)

From S2P Require Import Prelude.
From S2P Require Import Tables.
From S2P Require Import GoStrings.
From S2P Require Import AlertModel.
From S2P Require Import AlertStore.
From S2P Require Import AlertRouting.
From S2P Require Import AlertEngine.
From S2P Require Import AlertInvariant.
From S2P Require Import AlertCorrect.
From S2P Require Import AlertTracker.
From S2P Require Import TrackerMirror.
From S2P Require Import Uid.
From S2P Require Import SwarmAlerts.
From S2P Require Import Container.
From S2P Require Import ContainerStore.

#[local] Open Scope string_scope.
#[local] Open Scope list_scope.
#[local] Open Scope Z_scope.

Definition AlertTypeContainerDown := "container_down".

(** [d.Round(time.Second)] of a positive duration: halves go up, and what would
    overflow is the largest duration. *)
Definition round_second (d : Z) : Z :=
  let r := d `mod` second in
  if bool_decide (2 * r < second) then d - r
  else if bool_decide (d + (second - r) ≤ max_int64) then d + (second - r) else max_int64.

(** [String] of a duration rounded to the second. *)
Definition fmt_rounded (d : Z) : string :=
  if bool_decide (d = max_int64) then "2562047h47m16.854775807s" else fmt_seconds d.

Definition isDown (state : string) : bool :=
  bool_decide (state = StateExited) || bool_decide (state = StateDead).

Definition downSeverity (c : Container) : string :=
  if bool_decide (ct_AlertSeverity c = container_SeverityInfo) then SeverityInfo
  else if bool_decide (ct_AlertSeverity c = container_SeverityWarning) then SeverityWarning
  else SeverityCritical.

(** What one sweep reads and sends. *)
Record watch := MkWatch {
  wt_containers : fleet;
  wt_alerts : alerting;
  wt_sent : list Event;
}.
#[export] Instance watch_eta : Eta watch := λ s, MkWatch (wt_containers s) (wt_alerts s) (wt_sent s).

(** A statement of one of the two stores. *)
Definition read_from {S A} (part : watch → S) (m : M S A) : M watch A :=
  λ w, let r := m (World (w_env w) (w_tick w) (part (w_st w))) in
       (r.1, World (w_env w) (w_tick r.2) (w_st w)).

Section Detector.
(** The order in which Go visits a map. *)
Context (visit : ∀ A, gmap string A → list (string * A)).
Context (json : list (string * value) → details).
Context (after : Z).

(** The containers that have been down for long enough, by id. *)
Definition long_down (now : Z) (c : Container) : bool :=
  isDown (ct_State c) && bool_decide (after ≤ time_sub now (ct_LastStateChangeAt c)).

Definition down_map (now : Z) (containers : list Container) : gmap string Container :=
  foldl (λ m c, if long_down now c then <[ct_ID c := c]> m else m) ∅ containers.

Definition known_map (containers : list Container) : gmap string Container :=
  foldl (λ m c, <[ct_ID c := c]> m) ∅ containers.

Definition is_down_alert (a : Alert) : bool :=
  bool_decide (al_AlertType a = AlertTypeContainerDown) && bool_decide (al_EntityType a = "container").

(** The alerts that fire already, by entity. *)
Definition firing_map (active : list Alert) : gmap string Alert :=
  foldl (λ m a, if is_down_alert a then <[al_EntityID a := a]> m else m) ∅ active.

Definition down_event (now : Z) (c : Container) : Event :=
  let stoppedFor := round_second (time_sub now (ct_LastStateChangeAt c)) in
  MkEvent "container" AlertTypeContainerDown (downSeverity c) false
    ("Container " +:+ ct_Name c +:+ " has been " +:+ ct_State c +:+ " for " +:+ fmt_rounded stoppedFor)
    "container" (ct_ID c) (ct_Name c) (ct_AgentID c)
    (json [("state", VString (ct_State c)); ("stopped_for", VInt (Z.quot stoppedFor second));
           ("threshold_seconds", VInt (Z.quot after second)); ("agent_id", VString (ct_AgentID c))])
    now.

Definition up_event (now : Z) (known : gmap string Container) (id : string) (a : Alert) : Event :=
  let name := match known !! id with Some c => ct_Name c | None => al_EntityName a end in
  MkEvent "container" AlertTypeContainerDown SeverityInfo true ("Container " +:+ name +:+ " is running again")
    "container" id name (al_AgentID a) DetailsNil now.

(** What the sweep sends, in order. *)
Definition down_events (containers : list Container) (active : list Alert) (now : Z) : list Event :=
  let down := down_map now containers in
  let known := known_map containers in
  let firing := firing_map active in
  omap (λ '(id, c), match firing !! id with Some _ => None | None => Some (down_event now c) end) (visit _ down)
  ++ omap (λ '(id, a), match down !! id with Some _ => None | None => Some (up_event now known id a) end) (visit _ firing).

Definition every_container : ListContainersOpts := MkListContainersOpts false false "" "" None.

(** One sweep. *)
Definition DownDetector_Check : M watch (result unit) :=
  let? containers := read_from wt_containers (ListContainers every_container) in
  let? active := read_from wt_alerts ListActiveAlerts in
  let! t := now in
  do! modify (λ s, s <| wt_sent ::= λ l, l ++ down_events containers active t |>) in
  ret (Ok tt).

(** ** The maps *)

Lemma foldl_insert_lookup {A} (p : A → bool) (key : A → string) (l : list A) id x :
  foldl (λ m a, if p a then <[key a := a]> m else m) (∅ : gmap string A) l !! id = Some x → x ∈ l ∧ p x = true ∧ key x = id.
Proof.
  induction l as [|a l IH] using rev_ind; [done|]. rewrite foldl_app. cbn. destruct (p a) eqn:Hp.
  - intros [[<- ->]|[_ H]]%lookup_insert_Some; [split_and!; [set_solver|done..]|].
    apply IH in H as (? & ? & ?). split_and!; [set_solver|done..].
  - intros (? & ? & ?)%IH. split_and!; [set_solver|done..].
Qed.

Lemma foldl_insert_is_Some {A} (p : A → bool) (key : A → string) (l : list A) a :
  a ∈ l → p a = true → is_Some (foldl (λ m a, if p a then <[key a := a]> m else m) (∅ : gmap string A) l !! key a).
Proof.
  intros Hin Hp. induction l as [|b l IH] using rev_ind; [by apply elem_of_nil in Hin|]. rewrite foldl_app. cbn.
  apply elem_of_app in Hin as [Hin| ->%list_elem_of_singleton].
  - destruct (p b); [|by apply IH]. destruct (decide (key b = key a)) as [->|Hne].
    + by rewrite lookup_insert_eq.
    + rewrite lookup_insert_ne by done. by apply IH.
  - rewrite Hp, lookup_insert_eq. done.
Qed.

Lemma down_map_spec now containers id :
  is_Some (down_map now containers !! id) ↔ ∃ c, c ∈ containers ∧ ct_ID c = id ∧ long_down now c = true.
Proof.
  split.
  - intros [c (? & ? & ?)%foldl_insert_lookup]. by exists c.
  - intros (c & Hin & <- & Hl). by apply (foldl_insert_is_Some (long_down now) ct_ID).
Qed.

Lemma firing_map_spec active id :
  is_Some (firing_map active !! id) ↔ ∃ a, a ∈ active ∧ al_EntityID a = id ∧ is_down_alert a = true.
Proof.
  split.
  - intros [a (? & ? & ?)%foldl_insert_lookup]. by exists a.
  - intros (a & Hin & <- & Hl). by apply (foldl_insert_is_Some is_down_alert al_EntityID).
Qed.

(** *** The events about one container *)

Context (visit_all : ∀ A m, visit A m ≡ₚ map_to_list m).

Definition down_channel (id : string) : channel := (AlertTypeContainerDown, id).

Lemma visited {A} (m : gmap string A) id x : (id, x) ∈ visit A m ↔ m !! id = Some x.
Proof. rewrite visit_all. apply elem_of_map_to_list. Qed.

Lemma follow_once strict id b (A : Type) (m : gmap string A) (f : string * A → option Event) :
  (∀ i x e, m !! i = Some x → f (i, x) = Some e → channel_of e = down_channel i) →
  follow strict (down_channel id) b (omap f (visit A m)) =
    match m !! id ≫= (λ x, f (id, x)) with
    | Some e => if ev_IsRecover e then (if b then Some false else None) else if strict && b then None else Some true
    | None => Some b
    end.
Proof.
  intros Hf. assert (NoDup (visit A m).*1) as Hnd by (rewrite visit_all; apply NoDup_fst_map_to_list).
  assert (∀ i x e, (i, x) ∈ visit A m → f (i, x) = Some e → channel_of e = down_channel i) as Hch.
  { intros i x e Hin%visited. by apply Hf. }
  assert (∀ x, m !! id = Some x ↔ (id, x) ∈ visit A m) as Hm by (intros; by rewrite visited).
  revert b Hnd Hm Hch. generalize (visit A m). clear Hf. induction l as [|[id' x] l IH]; intros b Hnd Hm Hch.
  { destruct (m !! id) as [x|]; [|done]. by pose proof (proj1 (Hm x) eq_refl) as ?%elem_of_nil. }
  rewrite fmap_cons, NoDup_cons in Hnd. destruct Hnd as [Hx Hnd]. cbn [fst] in Hx.
  assert (∀ y, (id', y) ∉ l) as Hno.
  { intros y Hy. apply Hx. by apply (list_elem_of_fmap_2 fst _ (id', y)). }
  assert (∀ e, f (id', x) = Some e → channel_of e = down_channel id') as Hhere by (intros; eapply Hch; [left|done]).
  assert (∀ i y e, (i, y) ∈ l → f (i, y) = Some e → channel_of e = down_channel i) as Hrest by (intros; eapply Hch; [by right|done]).
  cbn [omap list_omap]. destruct (decide (id' = id)) as [->|Hne].
  - assert (m !! id = Some x) as -> by (apply Hm; left). cbn.
    assert (∀ b', follow strict (down_channel id) b' (omap f l) = Some b') as Hgo.
    { intros b'. apply follow_other. intros e ([i y] & Hin & He)%list_elem_of_omap. unfold about.
      rewrite (Hrest _ _ _ Hin He). apply bool_decide_eq_false. intros [= ->]. by apply (Hno y). }
    destruct (f (id, x)) as [e|] eqn:He; [|done]. cbn [follow]. unfold about. rewrite (Hhere e eq_refl).
    rewrite bool_decide_eq_true_2 by done. cbn [negb]. destruct (ev_IsRecover e); [destruct b; [apply Hgo|done]|].
    destruct (strict && b); [done|apply Hgo].
  - assert (∀ y, m !! id = Some y ↔ (id, y) ∈ l) as Hm' by (intros y; rewrite Hm, elem_of_cons; naive_solver).
    destruct (f (id', x)) as [e|] eqn:He; [|by apply IH]. cbn [follow]. unfold about. rewrite (Hhere e eq_refl).
    rewrite bool_decide_eq_false_2 by (intros [= ?]; congruence). cbn [negb]. by apply IH.
Qed.

Lemma down_events_follow containers active now id :
  follow true (down_channel id) (bool_decide (is_Some (firing_map active !! id))) (down_events containers active now)
  = Some (bool_decide (is_Some (down_map now containers !! id))).
Proof.
  unfold down_events. rewrite follow_app, follow_once.
  2: { intros i c e (_ & _ & Hi)%foldl_insert_lookup. destruct (firing_map active !! i); [done|]. intros [= <-].
       unfold channel_of, down_channel. cbn. by rewrite Hi. }
  destruct (down_map now containers !! id) as [c|] eqn:Hd, (firing_map active !! id) as [a|] eqn:Ha; cbn;
    rewrite ?(bool_decide_eq_true_2 (is_Some (Some _))), ?(bool_decide_eq_false_2 (is_Some None)) by (done || by intros []);
    cbn; rewrite follow_once; rewrite ?Ha; cbn; rewrite ?Hd; try done.
  all: intros i x e _; destruct (down_map now containers !! i); [done|]; by intros [= <-].
Qed.

Lemma down_events_sent containers active now :
  Forall (sent_by "container" (λ _, "container")) (down_events containers active now).
Proof.
  unfold down_events. apply Forall_app. split; apply Forall_forall; intros e ([i x] & _ & He)%list_elem_of_omap;
    case_match; try done; by injection He as <-.
Qed.

(** *** One sweep, and the engine it feeds *)

Lemma wp_read_from {S A} (part : watch → S) (m : M S A) (Q : A → world watch → Prop) w :
  wp m (λ a w', Q a (World (w_env w) (w_tick w') (w_st w))) (World (w_env w) (w_tick w) (part (w_st w))) →
  wp (read_from part m) Q w.
Proof. done. Qed.

(** The containers a sweep looks at. *)
Definition watched (c : Container) : Prop := ct_Archived c = false ∧ ct_IsIgnored c = false.

Lemma listed_watched c : listed every_container c = true ↔ watched c.
Proof. unfold listed, watched. cbn. destruct (ct_Archived c), (ct_IsIgnored c); cbn; intuition. Qed.

(** A sweep without failures sends the events of what the stores hold. *)
Lemma wp_Check (w : world watch) (Q : result unit → world watch → Prop) :
  fault_free w →
  (∀ containers active k w', (w_tick w ≤ k)%nat → w_env w' = w_env w → (w_tick w ≤ w_tick w')%nat →
    (∀ c, c ∈ containers ↔ c ∈ db_containers (wt_containers (w_st w)) ∧ watched c) →
    (∀ a, a ∈ active ↔ a ∈ db_alerts (wt_alerts (w_st w)) ∧ al_Status a = StatusActive) →
    w_st w' = w_st w <| wt_sent ::= λ l, l ++ down_events containers active (env_now (w_env w) k) |> → Q (Ok tt) w') →
  wp DownDetector_Check Q w.
Proof.
  intros Hff HQ. unfold DownDetector_Check. apply wp_bind, wp_read_from.
  apply wp_db_query; [by intros w1 _ []|]. intros w1 (S1 & E1 & T1). cbn in S1, E1, T1.
  apply wp_bind, wp_read_from. apply wp_db_query; [by intros w2 _ []|]. intros w2 (S2 & E2 & T2). cbn in S2, E2, T2.
  apply wp_bind, wp_consult. intros w3 (S3 & E3 & T3) _. cbn in S3, E3, T3. apply wp_bind, wp_modify, wp_ret.
  eapply (HQ _ _ (w_tick w2)); cbn; [lia|by rewrite E3|lia|..|by rewrite S3].
  - intros c. rewrite merge_sort_Permutation, select_where_elem, listed_watched. done.
  - intros a. rewrite order_by_elem, select_where_elem, bool_decide_eq_true. done.
Qed.

Section Closed.
Context {Esc : Escalator} `{!EscalatorLaws Esc} (notifier broadcaster : bool).

(** The engine's part of the state. *)
Definition engine_of (w : world watch) : world alerting := World (w_env w) (w_tick w) (wt_alerts (w_st w)).

(** Alerts of this type come from the detector alone. *)
Definition own_alerts (s : alerting) : Prop :=
  ∀ k a, activeAlerts s !! k = Some a → k_AlertType k = AlertTypeContainerDown → k_EntityType k = "container" →
  k_Source k = "container".

(** The alert of container [id] is live. *)
Definition down_live (s : alerting) (id : string) : Prop :=
  is_Some (live s !! channel_key "container" "container" (down_channel id)).

(** Container [id] is one the sweep watches, down for at least the threshold at [t]. *)
Definition stays_down (s : fleet) (t : Z) (id : string) : Prop :=
  ∃ c, c ∈ db_containers s ∧ watched c ∧ ct_ID c = id ∧ long_down t c = true.

(** C21: a sweep settles the alerts of stopped containers.  When nothing fails and no
    rule silences them, and once the engine has worked off what the sweep sent, the
    alert of a container is live exactly when the container is neither archived nor
    ignored and has been exited or dead for at least the threshold, however often
    the sweep is repeated and whatever was live before. *)
Theorem down_alerts_exact (w : world watch) :
  let w' := (DownDetector_Check w).2 in
  let we' := feed notifier broadcaster (wt_sent (w_st w')) (engine_of w') in
  healthy (engine_of w) → synced (engine_view (wt_alerts (w_st w))) → db_silences (wt_alerts (w_st w)) = [] →
  own_alerts (wt_alerts (w_st w)) → wt_sent (w_st w) = [] →
  ∃ k, (w_tick w ≤ k)%nat
    ∧ ∀ id, down_live (w_st we') id ↔ stays_down (wt_containers (w_st w)) (env_now (w_env w) k) id.
Proof.
  cbv zeta. intros Hh Hsy Hsil Hown Hsent.
  apply (wp_Check w (λ _ w', ∃ k, (w_tick w ≤ k)%nat
    ∧ ∀ id, down_live (w_st (feed notifier broadcaster (wt_sent (w_st w')) (engine_of w'))) id
        ↔ stays_down (wt_containers (w_st w)) (env_now (w_env w) k) id)); [apply Hh|].
  intros containers active k w' Hk He Ht Hcs Has Hst. exists k. split; [done|]. intros id.
  set (t := env_now (w_env w) k) in *.
  assert (wt_alerts (w_st w') = wt_alerts (w_st w)) as Hal by by rewrite Hst.
  assert (wt_sent (w_st w') = down_events containers active t) as -> by (rewrite Hst; cbn; by rewrite Hsent).
  pose proof (synced_inv _ Hsy) as Hinv. rewrite <- Hal in Hsy, Hinv, Hown.
  assert (db_silences (w_st (engine_of w')) = []) as Hsil' by (unfold engine_of; cbn; by rewrite Hal).
  assert (is_Some (live (w_st (engine_of w')) !! channel_key "container" "container" (down_channel id))
    ↔ is_Some (firing_map active !! id)) as Hfire.
  { rewrite firing_map_spec. unfold live, engine_of. cbn [w_st]. rewrite lookup_fmap, fmap_is_Some. split.
    - intros [a Ha]. destruct (sy_live _ Hsy _ _ Ha) as (Hkey & Hact & row & Hrow & Hcore).
      apply select_id_Some in Hrow as [Hin Hid]. exists row. rewrite Has, <- Hal. cbn in Hin.
      apply core_key in Hcore as Hk2. apply core_status in Hcore as Hs2. rewrite Hkey in Hk2. unfold alert_key in Hk2.
      injection Hk2 as H1 H2 H3 H4. split_and!; [done|congruence|done|].
      unfold is_down_alert. rewrite H2, H3. done.
    - intros (a & [Hin Hact]%Has & Hid & Hd). rewrite <- Hal in Hin. destruct (sy_rows _ Hsy a Hin Hact) as (b & Hb & _).
      apply andb_true_iff in Hd as [Ht1%bool_decide_eq_true Ht2%bool_decide_eq_true].
      exists b. replace (channel_key _ _ _) with (alert_key a); [done|]. unfold alert_key, channel_key, down_channel. cbn.
      f_equal; [|done..]. by apply (Hown (alert_key a) b). }
  destruct (feed_mirrors notifier broadcaster true "container" (λ _, "container") (down_channel id)
    (bool_decide (is_Some (firing_map active !! id))) (bool_decide (is_Some (down_map t containers !! id)))
    (down_events containers active t) (engine_of w')) as [H1 H2]; [done|apply down_events_sent|apply down_events_follow|].
  assert (healthy (engine_of w')) as Hh'.
  { destruct Hh as (Hf1 & Hf2 & Hf3). unfold engine_of in *. split_and!.
    - by apply (fault_free_env (World (w_env w) (w_tick w) (wt_alerts (w_st w)))).
    - cbn. by rewrite He.
    - intros n Hn. cbn in *. rewrite He, Hal. apply Hf3. lia. }
  unfold down_live. split.
  - intros Hl. apply H1 in Hl; [|by intros ?%Hfire; apply bool_decide_eq_true].
    apply bool_decide_eq_true, down_map_spec in Hl as (c & [Hin Hw]%Hcs & Hid & Hd). by exists c.
  - intros (c & Hin & Hw & Hid & Hd). apply H2; [done..| |].
    + by intros ?%bool_decide_eq_true%Hfire.
    + apply bool_decide_eq_true, down_map_spec. exists c. rewrite Hcs. done.
Qed.
End Closed.
End Detector.

(** ** Examples *)

Module DownExample.

Definition visit A (m : gmap string A) : list (string * A) := map_to_list m.
Definition json : list (string * value) → details := λ _, DetailsNil.
Definition t0 : Z := 1700000000 * second.

Definition stopped : Container :=
  no_container <| ct_ID := "c1" |> <| ct_AgentID := LocalAgent |> <| ct_Name := "web" |>
    <| ct_State := StateExited |> <| ct_LastStateChangeAt := t0 |>.
Definition no_alerts : alerting := w_st (new_engine t0).
Definition w0 : world watch :=
  calm_world (t0 + 10 * minute) (MkWatch (empty_fleet <| db_containers := [stopped] |>) no_alerts []).

Lemma engine_w0_healthy : healthy (engine_of w0).
Proof. exact (new_engine_healthy (t0 + 10 * minute)). Qed.

Lemma down_alerts_exact_witness :
  let w' := (DownDetector_Check visit json (5 * minute) w0).2 in
  let we' := feed (Esc := noopEscalator) false false (wt_sent (w_st w')) (engine_of w') in
  ∃ k, (0 ≤ k)%nat ∧ ∀ id, down_live (w_st we') id
    ↔ stays_down (5 * minute) (wt_containers (w_st w0)) (env_now (w_env w0) k) id.
Proof.
  apply (down_alerts_exact visit json (5 * minute) (λ _ _, reflexivity _) (Esc := noopEscalator) false false w0).
  - exact engine_w0_healthy.
  - exact (new_engine_synced t0).
  - done.
  - intros k a Ha. cbn in Ha. by rewrite lookup_empty in Ha.
  - done.
Defined.

(** One sweep, and the engine's work. *)
Definition sweep (w : world watch) : world watch :=
  let w' := (DownDetector_Check visit json (5 * minute) w).2 in
  let we' := feed (Esc := noopEscalator) false false (wt_sent (w_st w')) (engine_of w') in
  World (w_env we') (w_tick we') (w_st w' <| wt_alerts := w_st we' |> <| wt_sent := [] |>).

Example one_alert : length (db_alerts (wt_alerts (w_st (sweep (sweep w0))))) = 1%nat.
Proof. vm_compute. reflexivity. Qed.

(** Under a silence rule no alert is ever active, so each sweep sends the event
    again and the engine stores one more silenced alert. *)
Definition silence : SilenceRule := MkSilenceRule "s1" "container" None "" t0 86400 None.
Definition silenced : world watch :=
  calm_world (t0 + 10 * minute)
    (MkWatch (empty_fleet <| db_containers := [stopped] |>) (no_alerts <| db_silences := [silence] |>) []).

Example silenced_again_and_again :
  al_Status <$> db_alerts (wt_alerts (w_st (sweep (sweep (sweep silenced))))) = [StatusSilenced; StatusSilenced; StatusSilenced].
Proof. vm_compute. reflexivity. Qed.
End DownExample.
