(* ===== verification/Uptime.v ===== *)
(** * Uptime

    [src/internal/container/uptime.go] and the two reckonings of
    [src/internal/store/uptime_daily.go] that weigh time: the transitions of a
    container and the timeline of a heartbeat's pings.  A percentage, which the
    code computes in floating point and rounds to two decimals, is an exact number
    of hundredths of a percent here.  What each reckoning means is stated with
    [amount]: the number of instants of an interval at which something is up. *)

From S2P Require Import Prelude.
From S2P Require Import Tables.
From S2P Require Import GoStrings.
From S2P Require Import AlertModel.
From S2P Require Import Heartbeat.
From S2P Require Import Container.
From S2P Require Import ContainerStore.

#[local] Open Scope string_scope.
#[local] Open Scope list_scope.
#[local] Open Scope Z_scope.

(** ** Amounts of time *)

(** How many elements satisfy [p]? *)
Definition count {A} (p : A → bool) (l : list A) : Z := Z.of_nat (length (filter (λ x, p x = true) l)).

(** At how many instants of [[a, b)] does [p] hold? *)
Definition amount (p : Z → bool) (a b : Z) : Z := count p (seqZ a (b - a)).

(** The common part of [[f, t)] and [[a, b)]. *)
Definition overlap (f t a b : Z) : Z := Z.max 0 (Z.min t b - Z.max f a).

Definition within (f t x : Z) : bool := bool_decide (f ≤ x < t).

Lemma count_cons {A} (p : A → bool) x l : count p (x :: l) = Z.b2z (p x) + count p l.
Proof. unfold count. rewrite filter_cons. destruct (p x); [rewrite decide_True by done|rewrite decide_False by done]; cbn [length Z.b2z]; lia. Qed.

Lemma count_app {A} (p : A → bool) l1 l2 : count p (l1 ++ l2) = count p l1 + count p l2.
Proof. unfold count. rewrite filter_app, length_app. lia. Qed.

Lemma count_bounds {A} (p : A → bool) l : 0 ≤ count p l ≤ Z.of_nat (length l).
Proof. induction l as [|x l IH]; [done|]. rewrite count_cons. cbn. destruct (p x); cbn; lia. Qed.

Lemma count_ext {A} (p q : A → bool) l : (∀ x, x ∈ l → p x = q x) → count p l = count q l.
Proof.
  induction l as [|x l IH]; intros H; [done|]. rewrite !count_cons, IH, (H x) by set_solver. done.
Qed.

Lemma count_add {A} (p q r : A → bool) l :
  (∀ x, x ∈ l → Z.b2z (p x) = Z.b2z (q x) + Z.b2z (r x)) → count p l = count q l + count r l.
Proof.
  induction l as [|x l IH]; intros H; [done|]. rewrite !count_cons, IH, (H x) by set_solver. lia.
Qed.

Lemma count_all {A} (p : A → bool) l : (∀ x, x ∈ l → p x = true) → count p l = Z.of_nat (length l).
Proof.
  induction l as [|x l IH]; intros H; [done|]. rewrite count_cons, IH, (H x) by set_solver. cbn. lia.
Qed.

Lemma count_none {A} (p : A → bool) l : (∀ x, x ∈ l → p x = false) → count p l = 0.
Proof. induction l as [|x l IH]; intros H; [done|]. rewrite count_cons, IH, (H x) by set_solver. done. Qed.

Lemma in_span a b x : x ∈ seqZ a (b - a) ↔ a ≤ x < b.
Proof. rewrite elem_of_seqZ. lia. Qed.

Lemma amount_empty p a b : b ≤ a → amount p a b = 0.
Proof. intros. unfold amount. by rewrite seqZ_nil by lia. Qed.

Lemma amount_split p a m b : a ≤ m ≤ b → amount p a b = amount p a m + amount p m b.
Proof.
  intros [H1 H2]. unfold amount. replace (b - a) with ((m - a) + (b - m)) by lia.
  rewrite seqZ_app by lia. rewrite count_app. do 3 f_equal. lia.
Qed.

Lemma amount_ext p q a b : (∀ x, a ≤ x < b → p x = q x) → amount p a b = amount q a b.
Proof. intros H. apply count_ext. intros x Hx%in_span. by apply H. Qed.

Lemma amount_add p q r a b :
  (∀ x, a ≤ x < b → Z.b2z (p x) = Z.b2z (q x) + Z.b2z (r x)) → amount p a b = amount q a b + amount r a b.
Proof. intros H. apply count_add. intros x Hx%in_span. by apply H. Qed.

Lemma amount_all p a b : a ≤ b → (∀ x, a ≤ x < b → p x = true) → amount p a b = b - a.
Proof. intros Hab H. unfold amount. rewrite count_all; [rewrite length_seqZ; lia|]. intros x Hx%in_span. by apply H. Qed.

Lemma amount_none p a b : (∀ x, a ≤ x < b → p x = false) → amount p a b = 0.
Proof. intros H. apply count_none. intros x Hx%in_span. by apply H. Qed.

Lemma amount_bounds p a b : a ≤ b → 0 ≤ amount p a b ≤ b - a.
Proof. intros. unfold amount. pose proof (count_bounds p (seqZ a (b - a))) as H'. rewrite length_seqZ in H'. lia. Qed.

Lemma amount_within f t a b : amount (within f t) a b = overlap f t a b.
Proof.
  unfold overlap. destruct (decide (Z.min t b ≤ Z.max f a)) as [H|H].
  - rewrite amount_none; [lia|]. intros x Hx. apply bool_decide_eq_false. lia.
  - rewrite (amount_split _ a (Z.max f a) b), (amount_split _ (Z.max f a) (Z.min t b) b) by lia.
    rewrite (amount_none _ a), (amount_none _ (Z.min t b)).
    + rewrite amount_all; [lia..|]. intros x Hx. apply bool_decide_eq_true. lia.
    + intros x Hx. apply bool_decide_eq_false. lia.
    + intros x Hx. apply bool_decide_eq_false. lia.
Qed.

(** ** The uptime of a container *)

Definition isUp (t : StateTransition) : bool :=
  if negb (bool_decide (st_NewState t = StateRunning)) then false
  else negb (bool_decide (st_NewHealth t = Some HealthUnhealthy)).

(** The time spent up, one span per transition. *)
Fixpoint up_time (from to : Z) (transitions : list StateTransition) : Z :=
  match transitions with
  | [] => 0
  | t :: rest =>
    let end_ := match rest with next :: _ => st_Timestamp next | [] => to end in
    let spanStart := Z.max from (st_Timestamp t) in
    let end_ := Z.min to end_ in
    let span := time_sub end_ spanStart in
    (if bool_decide (span ≤ 0) then 0 else if isUp t then span else 0) + up_time from to rest
  end.

(** Hundredths of a percent. *)
Definition computeUptime (transitions : list StateTransition) (from to : Z) : Z :=
  let total := time_sub to from in
  if bool_decide (total ≤ 0) then 0
  else match transitions with
       | [] => 10000
       | _ => Z.min 10000 (up_time from to transitions * 10000 / total)
       end.

(** Was the container up at [x], according to its transitions? *)
Definition up_at (transitions : list StateTransition) (x : Z) : bool :=
  match last (filter (λ t, st_Timestamp t ≤ x) transitions) with Some t => isUp t | None => false end.

Definition in_order (l : list StateTransition) : Prop := StronglySorted (λ t u, st_Timestamp t ≤ st_Timestamp u) l.

Lemma up_at_cons t rest x :
  in_order (t :: rest) →
  up_at (t :: rest) x =
    if bool_decide (st_Timestamp t ≤ x)
    then match rest with
         | next :: _ => if bool_decide (st_Timestamp next ≤ x) then up_at rest x else isUp t
         | [] => isUp t
         end
    else false.
Proof.
  intros [Hs Ht]%StronglySorted_inv. unfold up_at. rewrite filter_cons.
  destruct (bool_decide_reflect (st_Timestamp t ≤ x)) as [Hx|Hx].
  - rewrite decide_True by done. destruct rest as [|u rest]; [done|]. rewrite filter_cons.
    destruct (bool_decide_reflect (st_Timestamp u ≤ x)) as [Hu|Hu].
    + rewrite decide_True by done. by rewrite last_cons_cons.
    + rewrite decide_False by done. rewrite list_filter_none; [done|].
      intros v Hv Hvx. apply StronglySorted_inv in Hs as [_ Hu']. rewrite Forall_forall in Hu'. specialize (Hu' v Hv). lia.
  - rewrite decide_False by done. rewrite list_filter_none; [done|].
    intros v Hv Hvx. rewrite Forall_forall in Ht. specialize (Ht v Hv). lia.
Qed.

Lemma up_time_amount from to transitions :
  in_order transitions → to - from ≤ max_int64 → up_time from to transitions = amount (up_at transitions) from to.
Proof.
  intros Hs Hmax. induction transitions as [|t rest IH].
  { rewrite amount_none; [done|]. by intros. }
  cbn [up_time]. pose proof Hs as [Hs' Ht]%StronglySorted_inv. rewrite IH by done.
  set (e := match rest with next :: _ => st_Timestamp next | [] => to end).
  rewrite (amount_add (up_at (t :: rest)) (λ x, isUp t && within (st_Timestamp t) (Z.min to e) x) (up_at rest)).
  - f_equal. assert (amount (λ x, isUp t && within (st_Timestamp t) (Z.min to e) x) from to
      = if isUp t then overlap (st_Timestamp t) (Z.min to e) from to else 0) as ->.
    { destruct (isUp t); [apply amount_within|]. by apply amount_none. }
    unfold overlap, time_sub. unfold max_int64, min_int64 in *. destruct (isUp t); case_bool_decide; lia.
  - intros x Hx. rewrite up_at_cons by done. unfold within.
    destruct (bool_decide_reflect (st_Timestamp t ≤ x)) as [Htx|Htx].
    + subst e. destruct rest as [|u rest].
      * rewrite bool_decide_eq_true_2 by lia. destruct (isUp t); done.
      * destruct (bool_decide_reflect (st_Timestamp u ≤ x)) as [Hux|Hux].
        -- rewrite bool_decide_eq_false_2 by lia. rewrite andb_false_r. done.
        -- rewrite bool_decide_eq_true_2 by lia. rewrite (up_at_cons u rest), bool_decide_eq_false_2 by done.
           destruct (isUp t); done.
    + rewrite bool_decide_eq_false_2 by lia. rewrite andb_false_r.
      destruct rest as [|u rest]; [done|]. rewrite (up_at_cons u rest) by done.
      rewrite Forall_cons in Ht. rewrite bool_decide_eq_false_2 by lia. done.
Qed.

Lemma computeUptime_amount transitions from to :
  in_order transitions → from < to → to - from ≤ max_int64 → transitions ≠ [] →
  computeUptime transitions from to = amount (up_at transitions) from to * 10000 / (to - from).
Proof.
  intros Hs Hlt Hmax Hne. unfold computeUptime. rewrite time_sub_exact by (unfold min_int64, max_int64 in *; lia).
  rewrite bool_decide_eq_false_2 by lia. destruct transitions as [|t rest]; [done|].
  rewrite up_time_amount by done. apply Z.min_r.
  pose proof (amount_bounds (up_at (t :: rest)) from to). apply Z.div_le_upper_bound; lia.
Qed.

(** The uptime of a container is the share of the window during which its last
    transition had it up, rounded down to a hundredth of a percent; and it is 100%
    of a window without transitions. *)
Theorem uptime_exact transitions from to :
  in_order transitions → from < to → to - from ≤ max_int64 →
  computeUptime transitions from to =
    match transitions with
    | [] => 10000
    | _ => amount (up_at transitions) from to * 10000 / (to - from)
    end.
Proof.
  intros Hs Hlt Hmax. destruct transitions as [|t rest].
  - unfold computeUptime. rewrite time_sub_exact by (unfold min_int64, max_int64 in *; lia).
    by rewrite bool_decide_eq_false_2 by lia.
  - by apply computeUptime_amount.
Qed.

(** ** The timeline of a heartbeat *)

(** In the order of events within one second. *)
Inductive hbKind := hbResume | hbPing | hbPause.
#[export] Instance hbKind_eq_dec : EqDecision hbKind.
Proof. solve_decision. Defined.

Record hbEvent := MkHbEvent {
  he_ts : Z;
  he_kind : hbKind;
  he_pingType : string;
  he_exitCode : option Z;
}.

Inductive hbState := hbDown | hbUp | hbPaused.
#[export] Instance hbState_eq_dec : EqDecision hbState.
Proof. solve_decision. Defined.

Record hbSpan := MkSpan { sp_from : Z; sp_to : Z; sp_state : hbState }.

Record hbTimeline := MkTimeline {
  tl_period : Z;
  tl_started : bool;
  tl_first : Z;
  tl_up : bool;
  tl_paused : bool;
  tl_cursor : Z;
  tl_deadline : Z;
  tl_spans : list hbSpan;
  tl_incidents : list Z;
}.
#[export] Instance hbTimeline_eta : Eta hbTimeline := λ t,
  MkTimeline (tl_period t) (tl_started t) (tl_first t) (tl_up t) (tl_paused t) (tl_cursor t) (tl_deadline t)
    (tl_spans t) (tl_incidents t).

Definition new_timeline (period : Z) : hbTimeline := MkTimeline period false 0 false false 0 0 [] [].

(** A span that goes on where the last one stopped, in the same state, extends it. *)
Definition add_span (spans : list hbSpan) (from to : Z) (state : hbState) : list hbSpan :=
  match last spans with
  | Some sp =>
    if bool_decide (sp_state sp = state) && bool_decide (sp_to sp = from)
    then removelast spans ++ [MkSpan (sp_from sp) to (sp_state sp)]
    else spans ++ [MkSpan from to state]
  | None => spans ++ [MkSpan from to state]
  end.

Definition tl_span (from to : Z) (state : hbState) (t : hbTimeline) : hbTimeline :=
  t <| tl_spans ::= λ l, add_span l from to state |>.

Definition tl_advance (ts : Z) (t : hbTimeline) : hbTimeline :=
  let t := if tl_up t && bool_decide (tl_deadline t < ts)
           then let t := tl_span (tl_cursor t) (tl_deadline t) hbUp t in
                t <| tl_incidents ::= λ l, l ++ [tl_deadline t] |> <| tl_cursor := tl_deadline t |> <| tl_up := false |>
           else t in
  tl_span (tl_cursor t) ts (if tl_up t then hbUp else hbDown) t <| tl_cursor := ts |>.

Definition tl_resume (ts : Z) (t : hbTimeline) : hbTimeline :=
  if negb (tl_paused t) then t
  else tl_span (tl_cursor t) ts hbPaused t
       <| tl_cursor := ts |> <| tl_paused := false |> <| tl_up := true |> <| tl_deadline := ts + tl_period t |>.

Definition tl_pause (ts : Z) (t : hbTimeline) : hbTimeline :=
  if negb (tl_started t) || tl_paused t then t
  else tl_advance ts t <| tl_paused := true |>.

Definition completed_up (pingType : string) (exitCode : option Z) : bool :=
  bool_decide (pingType = "success") || (bool_decide (pingType = "exit_code") && bool_decide (exitCode = Some 0)).

(** What a ping says of the status. *)
Definition ping_outcome (ts : Z) (pingType : string) (exitCode : option Z) (t : hbTimeline) : hbTimeline :=
  let t := if completed_up pingType exitCode then t <| tl_up := true |>
           else if bool_decide (pingType = "exit_code")
           then (if tl_up t then t <| tl_incidents ::= λ l, l ++ [ts] |> else t) <| tl_up := false |>
           else t in
  t <| tl_deadline := ts + tl_period t |>.

Definition tl_ping (ts : Z) (pingType : string) (exitCode : option Z) (t : hbTimeline) : hbTimeline :=
  ping_outcome ts pingType exitCode
    (if negb (tl_started t)
     then t <| tl_started := true |> <| tl_first := ts |> <| tl_up := true |> <| tl_cursor := ts |>
     else if tl_paused t then tl_resume ts t
     else tl_advance ts t).

Definition tl_close (end_ : Z) (t : hbTimeline) : hbTimeline :=
  if bool_decide (end_ ≤ tl_cursor t) then t
  else if tl_paused t then tl_span (tl_cursor t) end_ hbPaused t
  else tl_advance end_ t.

Definition tl_event (t : hbTimeline) (e : hbEvent) : hbTimeline :=
  match he_kind e with
  | hbResume => tl_resume (he_ts e) t
  | hbPing => tl_ping (he_ts e) (he_pingType e) (he_exitCode e) t
  | hbPause => tl_pause (he_ts e) t
  end.

(** The seconds of [[start, end)] in a state, the overlaps added up. *)
Definition weigh (state : hbState) (start end_ : Z) (spans : list hbSpan) : Z :=
  foldr (λ sp n, (if bool_decide (sp_state sp = state)
                  then Z.max 0 (Z.min (sp_to sp) end_ - Z.max (sp_from sp) start) else 0) + n) 0 spans.

Record dayUptime := MkDayUptime { du_percent : Z; du_incidents : Z }.

(** [math.Round(float64(n) / float64(d) * 10000) / 100], in hundredths. *)
Definition round_percent (n d : Z) : Z := (2 * n * 10000 + d) / (2 * d).

Definition tl_over (start end_ : Z) (t : hbTimeline) : option dayUptime :=
  let observed := end_ - start - weigh hbPaused start end_ (tl_spans t) in
  if bool_decide (observed ≤ 0) then None
  else Some (MkDayUptime (round_percent (weigh hbUp start end_ (tl_spans t)) observed)
               (count (λ ts, bool_decide (start ≤ ts < end_)) (tl_incidents t))).

(** ** What the timeline means

    The state of the heartbeat at an instant, from the events up to it. *)

Inductive hb_mode := NotYet | Up (deadline : Z) | Down | OnPause.

Definition hb_step (period : Z) (m : hb_mode) (e : hbEvent) : hb_mode :=
  let ts := he_ts e in
  match he_kind e with
  | hbResume => match m with OnPause => Up (ts + period) | _ => m end
  | hbPause => match m with NotYet => NotYet | _ => OnPause end
  | hbPing =>
    let up := match m with
              | NotYet | OnPause => true
              | Up deadline => bool_decide (ts ≤ deadline)
              | Down => false
              end in
    if completed_up (he_pingType e) (he_exitCode e) then Up (ts + period)
    else if bool_decide (he_pingType e = "exit_code") then Down
    else if up then Up (ts + period) else Down
  end.

Definition mode_at (period : Z) (events : list hbEvent) (x : Z) : hb_mode :=
  foldl (hb_step period) NotYet (filter (λ e, he_ts e ≤ x) events).

(** Is the heartbeat in [state] at [x]?  An up one is down from its deadline on. *)
Definition hb_in (state : hbState) (m : hb_mode) (x : Z) : bool :=
  match state, m with
  | hbUp, Up deadline => bool_decide (x < deadline)
  | hbDown, Up deadline => bool_decide (deadline ≤ x)
  | hbDown, Down => true
  | hbPaused, OnPause => true
  | _, _ => false
  end.

(** ** The spans weigh what the events mean *)

#[local] Arguments overlap : simpl never.
#[local] Arguments weigh : simpl never.

Definition spans_ok (spans : list hbSpan) : Prop := Forall (λ sp, sp_from sp ≤ sp_to sp) spans.

Lemma weigh_app st a b l1 l2 : weigh st a b (l1 ++ l2) = weigh st a b l1 + weigh st a b l2.
Proof. unfold weigh. rewrite foldr_app. induction l1 as [|sp l1 IH]; cbn; lia. Qed.

Lemma weigh_one st a b f t s : weigh st a b [MkSpan f t s] = if bool_decide (s = st) then overlap f t a b else 0.
Proof. unfold weigh, overlap. cbn [foldr sp_from sp_to sp_state]. case_bool_decide; lia. Qed.

Lemma add_span_ok st a b spans f t s :
  spans_ok spans → f ≤ t →
  spans_ok (add_span spans f t s)
  ∧ weigh st a b (add_span spans f t s) = weigh st a b spans + if bool_decide (s = st) then overlap f t a b else 0.
Proof.
  intros Hok Hft.
  assert (spans_ok (spans ++ [MkSpan f t s])
    ∧ weigh st a b (spans ++ [MkSpan f t s]) = weigh st a b spans + if bool_decide (s = st) then overlap f t a b else 0) as Hnew.
  { rewrite weigh_app, weigh_one. split; [by apply Forall_app; split; [|apply Forall_singleton]|done]. }
  unfold add_span. destruct spans as [|sp l _] using rev_ind; [done|]. rewrite last_snoc.
  destruct (bool_decide_reflect (sp_state sp = s)) as [Hs|]; [|done].
  destruct (bool_decide_reflect (sp_to sp = f)) as [Hf|]; [|done]. cbn [andb]. rewrite removelast_last.
  apply Forall_app in Hok as [Hl Hsp]. rewrite Forall_singleton in Hsp. split.
  - apply Forall_app. split; [done|]. apply Forall_singleton. cbn. lia.
  - destruct sp as [f' m s']. cbn in *. subst s' m. rewrite !weigh_app, !weigh_one.
    unfold overlap. case_bool_decide; lia.
Qed.

Ltac state_cases st := destruct st; repeat case_bool_decide; simplify_eq; lia.

Section Timeline.
Context (period : Z) (period_pos : 0 ≤ period).

Let mode := foldl (hb_step period) NotYet.

(** The events up to [bound] have been replayed. *)
Record replayed (events : list hbEvent) (bound : Z) (t : hbTimeline) : Prop := {
  rp_period : tl_period t = period;
  rp_spans : spans_ok (tl_spans t);
  rp_fresh : tl_started t = false → mode events = NotYet ∧ tl_spans t = [] ∧ tl_paused t = false
    ∧ ∀ x, mode_at period events x = NotYet;
  rp_cursor : tl_started t = true → tl_first t ≤ tl_cursor t ≤ bound;
  rp_mode : tl_started t = true → mode events =
    if tl_paused t then OnPause else if tl_up t then Up (tl_deadline t) else Down;
  rp_deadline : tl_started t = true → tl_paused t = false → tl_up t = true → tl_cursor t ≤ tl_deadline t;
  rp_settled : tl_started t = true → ∀ x, tl_cursor t ≤ x → mode_at period events x = mode events;
  rp_weigh : tl_started t = true → ∀ st a b, weigh st a b (tl_spans t)
    = amount (λ x, within (tl_first t) (tl_cursor t) x && hb_in st (mode_at period events x) x) a b;
}.

Lemma mode_at_snoc events e x :
  mode_at period (events ++ [e]) x =
  if bool_decide (he_ts e ≤ x) then hb_step period (mode_at period events x) e else mode_at period events x.
Proof.
  unfold mode_at. rewrite filter_app, filter_cons, filter_nil. case_bool_decide.
  - rewrite decide_True by done. by rewrite foldl_app.
  - rewrite decide_False by done. by rewrite app_nil_r.
Qed.

(** The amount of a stretch that ends with the events so far. *)
Lemma amount_stretch st m first cur ts (p q : Z → hb_mode) a b :
  first ≤ cur ≤ ts → (∀ x, x < ts → q x = p x) → (∀ x, cur ≤ x → p x = m) →
  amount (λ x, within first ts x && hb_in st (q x) x) a b =
  amount (λ x, within first cur x && hb_in st (p x) x) a b + amount (λ x, within cur ts x && hb_in st m x) a b.
Proof.
  intros Hc Hq Hp. apply amount_add. intros x _. unfold within.
  destruct (decide (x < ts)) as [Hx|Hx].
  - rewrite Hq by done. destruct (decide (cur ≤ x)) as [Hcx|Hcx].
    + rewrite (Hp x Hcx). rewrite (bool_decide_eq_true_2 (first ≤ x < ts)), (bool_decide_eq_false_2 (first ≤ x < cur)),
        (bool_decide_eq_true_2 (cur ≤ x < ts)) by lia. done.
    + rewrite (bool_decide_eq_false_2 (cur ≤ x < ts)) by lia. rewrite (bool_decide_ext (first ≤ x < ts) (first ≤ x < cur)) by lia.
      cbn. lia.
  - by rewrite !bool_decide_eq_false_2 by lia.
Qed.

Lemma amount_mode st m cur ts a b :
  amount (λ x, within cur ts x && hb_in st m x) a b =
  match st, m with
  | hbUp, Up d => overlap cur (Z.min d ts) a b
  | hbDown, Up d => overlap (Z.max cur d) ts a b
  | hbDown, Down | hbPaused, OnPause => overlap cur ts a b
  | _, _ => 0
  end.
Proof.
  destruct st, m; cbn [hb_in]; first
    [ apply amount_none; intros; apply andb_false_r
    | rewrite <- amount_within; apply amount_ext; intros x _; unfold within; rewrite ?andb_true_r;
      repeat case_bool_decide; cbn; (done || lia) ].
Qed.

(** Time passes. *)
Lemma advance_ok events bound t ts :
  replayed events bound t → tl_started t = true → tl_paused t = false → tl_cursor t ≤ ts →
  let t' := tl_advance ts t in
  tl_period t' = period ∧ spans_ok (tl_spans t') ∧ tl_started t' = true ∧ tl_first t' = tl_first t ∧ tl_cursor t' = ts
  ∧ tl_paused t' = false ∧ tl_deadline t' = tl_deadline t
  ∧ tl_up t' = (tl_up t && bool_decide (ts ≤ tl_deadline t))
  ∧ ∀ st a b, weigh st a b (tl_spans t')
      = weigh st a b (tl_spans t) + amount (λ x, within (tl_cursor t) ts x && hb_in st (mode events) x) a b.
Proof.
  intros [H1 H2 _ H4 H5 H6 H7 H8] Hst Hp Hts. specialize (H4 Hst). specialize (H5 Hst). specialize (H6 Hst Hp). rewrite Hp in H5.
  cbv zeta. unfold tl_advance. destruct (tl_up t) eqn:Hup.
  - specialize (H6 eq_refl). destruct (bool_decide_reflect (tl_deadline t < ts)) as [Hd|Hd]; cbn [andb].
    + assert (∀ st a b, spans_ok (add_span (add_span (tl_spans t) (tl_cursor t) (tl_deadline t) hbUp) (tl_deadline t) ts hbDown)
        ∧ weigh st a b (add_span (add_span (tl_spans t) (tl_cursor t) (tl_deadline t) hbUp) (tl_deadline t) ts hbDown)
          = weigh st a b (tl_spans t) + (if bool_decide (hbUp = st) then overlap (tl_cursor t) (tl_deadline t) a b else 0)
            + (if bool_decide (hbDown = st) then overlap (tl_deadline t) ts a b else 0)) as Hw.
      { intros st a b. destruct (add_span_ok st a b (tl_spans t) (tl_cursor t) (tl_deadline t) hbUp) as [Ha <-]; [done|lia|].
        apply add_span_ok; [done|lia]. }
      split_and!; try done.
      * apply (Hw hbUp 0 0).
      * cbn. by rewrite bool_decide_eq_false_2 by lia.
      * intros st a b. rewrite H5, amount_mode. etransitivity; [apply Hw|].
        rewrite (Z.min_l (tl_deadline t)), (Z.max_r (tl_cursor t)) by lia. state_cases st.
    + split_and!; try done.
      * by apply (add_span_ok hbUp 0 0).
      * cbn. by rewrite bool_decide_eq_true_2 by lia.
      * intros st a b. rewrite H5, amount_mode. etransitivity; [by apply add_span_ok|]. cbn. rewrite Hup.
        rewrite (Z.min_r (tl_deadline t)), (Z.max_r (tl_cursor t)) by lia.
        assert (overlap (tl_deadline t) ts a b = 0) as Hz by (unfold overlap; lia). state_cases st.
  - cbn [andb]. split_and!; try done.
    + by apply (add_span_ok hbUp 0 0).
    + intros st a b. rewrite H5, amount_mode. etransitivity; [by apply add_span_ok|]. cbn. rewrite Hup. state_cases st.
Qed.

Lemma replayed_bound events bound bound' t : replayed events bound t → bound ≤ bound' → replayed events bound' t.
Proof. intros [] Hb. split; try done. intros H. specialize (rp_cursor0 H). lia. Qed.

(** An event that changes nothing. *)
Lemma event_ignored events bound e t :
  replayed events bound t → bound ≤ he_ts e → hb_step period (mode events) e = mode events →
  replayed (events ++ [e]) (he_ts e) t.
Proof.
  intros [H1 H2 H3 H4 H5 H6 H7 H8] Hb He.
  assert (mode (events ++ [e]) = mode events) as Hm by (unfold mode; by rewrite foldl_app).
  assert (∀ x, mode_at period events x = mode events ∨ ¬ he_ts e ≤ x → mode_at period (events ++ [e]) x = mode_at period events x) as Hx.
  { intros x [Hx|Hx]; rewrite mode_at_snoc; [|by rewrite bool_decide_eq_false_2]. rewrite Hx, He. by case_bool_decide. }
  split; rewrite ?Hm; try done.
  - intros Hs. destruct (H3 Hs) as (Hn & Hsp & Hp & Hat). split_and!; [done..|]. intros x. rewrite Hx; [done|]. left. by rewrite Hn.
  - intros Hs. specialize (H4 Hs). lia.
  - intros Hs x Hcx. rewrite Hx; [by apply H7|]. left. by apply H7.
  - intros Hs st a b. rewrite (H8 Hs). apply amount_ext. intros x _. unfold within.
    destruct (bool_decide_reflect (tl_first t ≤ x < tl_cursor t)) as [Hin|]; [|done]. rewrite Hx; [done|].
    right. specialize (H4 Hs). lia.
Qed.

(** An event that sets the clock. *)
Lemma event_counts events bound e t t' :
  replayed events bound t → tl_started t = true → bound ≤ he_ts e →
  tl_period t' = period → spans_ok (tl_spans t') → tl_started t' = true → tl_first t' = tl_first t → tl_cursor t' = he_ts e →
  hb_step period (mode events) e = (if tl_paused t' then OnPause else if tl_up t' then Up (tl_deadline t') else Down) →
  (tl_paused t' = false → tl_up t' = true → he_ts e ≤ tl_deadline t') →
  (∀ st a b, weigh st a b (tl_spans t')
    = weigh st a b (tl_spans t) + amount (λ x, within (tl_cursor t) (he_ts e) x && hb_in st (mode events) x) a b) →
  replayed (events ++ [e]) (he_ts e) t'.
Proof.
  intros [H1 H2 H3 H4 H5 H6 H7 H8] Hs Hb G1 G2 G3 G4 G5 G6 G7 G8. specialize (H4 Hs).
  assert (mode (events ++ [e]) = hb_step period (mode events) e) as Hm by (unfold mode; by rewrite foldl_app).
  split; rewrite ?Hm, ?G4, ?G5; try done; try congruence.
  - intros _. lia.
  - intros _ x Hx. rewrite mode_at_snoc, bool_decide_eq_true_2 by done. f_equal. apply H7; [done|lia].
  - intros _ st a b. rewrite G8, (H8 Hs). symmetry. apply amount_stretch; [lia| |].
    + intros x Hx. by rewrite mode_at_snoc, bool_decide_eq_false_2 by lia.
    + intros x Hx. by apply H7.
Qed.

Lemma resume_counts events bound e t :
  replayed events bound t → tl_started t = true → tl_paused t = true → bound ≤ he_ts e →
  let t' := tl_resume (he_ts e) t in
  tl_period t' = period ∧ spans_ok (tl_spans t') ∧ tl_started t' = true ∧ tl_first t' = tl_first t ∧ tl_cursor t' = he_ts e
  ∧ tl_paused t' = false ∧ tl_up t' = true ∧ tl_deadline t' = he_ts e + period
  ∧ ∀ st a b, weigh st a b (tl_spans t')
      = weigh st a b (tl_spans t) + amount (λ x, within (tl_cursor t) (he_ts e) x && hb_in st (mode events) x) a b.
Proof.
  intros [H1 H2 _ H4 H5 _ _ _] Hs Hp Hb. specialize (H4 Hs). specialize (H5 Hs). rewrite Hp in H5. cbv zeta.
  unfold tl_resume. rewrite Hp. cbn [negb].
  assert (∀ st a b, spans_ok (add_span (tl_spans t) (tl_cursor t) (he_ts e) hbPaused)
    ∧ weigh st a b (add_span (tl_spans t) (tl_cursor t) (he_ts e) hbPaused) = weigh st a b (tl_spans t)
      + if bool_decide (hbPaused = st) then overlap (tl_cursor t) (he_ts e) a b else 0) as Hw.
  { intros. apply add_span_ok; [done|lia]. }
  split_and!; try done.
  - apply (Hw hbUp 0 0).
  - cbn. by rewrite H1.
  - intros st a b. rewrite H5, amount_mode. etransitivity; [apply Hw|]. state_cases st.
Qed.

Lemma event_replayed events bound e t :
  replayed events bound t → bound ≤ he_ts e → replayed (events ++ [e]) (he_ts e) (tl_event t e).
Proof.
  intros Hr Hb. pose proof Hr as [H1 H2 H3 H4 H5 H6 H7 H8]. unfold tl_event. destruct (he_kind e) eqn:Hk.
  - (* a resume *)
    destruct (tl_paused t) eqn:Hp.
    + destruct (tl_started t) eqn:Hs; [|by destruct (H3 eq_refl) as (_ & _ & ? & _)].
      destruct (resume_counts _ _ _ _ Hr Hs Hp Hb) as (G1 & G2 & G3 & G4 & G5 & G6 & G7 & G8 & G9).
      eapply event_counts; try done; rewrite G6, G7, ?G8; [|lia]. unfold hb_step. rewrite Hk.
      pose proof (H5 eq_refl) as Hm. rewrite ?Hp in Hm. by rewrite Hm.
    + unfold tl_resume. rewrite Hp. cbn [negb]. eapply event_ignored; [done..|]. unfold hb_step. rewrite Hk.
      destruct (tl_started t) eqn:Hs.
      * rewrite (H5 eq_refl), ?Hp. by destruct (tl_up t).
      * destruct (H3 eq_refl) as (Hm & _). by rewrite Hm.
  - (* a ping *)
    assert (∀ t1, tl_started t1 = true → tl_period t1 = period → tl_paused t1 = false → 
      let t' := ping_outcome (he_ts e) (he_pingType e) (he_exitCode e) t1 in
      tl_started t' = true ∧ tl_period t' = period ∧ tl_paused t' = false ∧ tl_spans t' = tl_spans t1
      ∧ tl_first t' = tl_first t1 ∧ tl_cursor t' = tl_cursor t1 ∧ tl_deadline t' = he_ts e + period
      ∧ tl_up t' = (if completed_up (he_pingType e) (he_exitCode e) then true
                    else if bool_decide (he_pingType e = "exit_code") then false else tl_up t1)) as Hping.
    { intros t1 E1 E2 E3. unfold ping_outcome. destruct (completed_up _ _); [by split_and!; cbn; rewrite ?E2|].
      destruct (bool_decide _); [|by split_and!; cbn; rewrite ?E2]. destruct (tl_up t1); by split_and!; cbn; rewrite ?E2. }
    unfold tl_ping. destruct (tl_started t) eqn:Hs; cbn [negb].
    + pose proof (H5 eq_refl) as Hm. pose proof (H4 eq_refl). destruct (tl_paused t) eqn:Hp.
      * destruct (resume_counts _ _ _ _ Hr Hs Hp Hb) as (G1 & G2 & G3 & G4 & G5 & G6 & G7 & G8 & G9).
        destruct (Hping _ G3 G1 G6) as (P1 & P2 & P3 & P4 & P5 & P6 & P7 & P8).
        eapply event_counts; try done; rewrite ?P3, ?P4, ?P5, ?P6, ?P7, ?P8, ?G7; try done; [|lia].
        unfold hb_step. rewrite Hk, Hm. destruct (completed_up _ _); [done|]. by destruct (bool_decide _).
      * destruct (advance_ok _ _ _ (he_ts e) Hr Hs Hp) as (G1 & G2 & G3 & G4 & G5 & G6 & G7 & G8 & G9); [lia|].
        destruct (Hping _ G3 G1 G6) as (P1 & P2 & P3 & P4 & P5 & P6 & P7 & P8).
        eapply event_counts; try done; rewrite ?P3, ?P4, ?P5, ?P6, ?P7, ?P8, ?G8; try done; [|lia].
        unfold hb_step. rewrite Hk, Hm. destruct (completed_up _ _); [done|]. destruct (bool_decide (he_pingType e = _)); [done|].
        by destruct (tl_up t).
    + destruct (H3 eq_refl) as (Hm & Hsp & Hp & Hat).
      edestruct (Hping (t <| tl_started := true |> <| tl_first := he_ts e |> <| tl_up := true |> <| tl_cursor := he_ts e |>))
        as (P1 & P2 & P3 & P4 & P5 & P6 & P7 & P8); [done..|].
      assert (mode (events ++ [e]) = hb_step period NotYet e) as Hm' by (unfold mode in *; by rewrite foldl_app; cbn; rewrite Hm).
      assert (hb_step period NotYet e = if tl_up (ping_outcome (he_ts e) (he_pingType e) (he_exitCode e)
        (t <| tl_started := true |> <| tl_first := he_ts e |> <| tl_up := true |> <| tl_cursor := he_ts e |>))
        then Up (he_ts e + period) else Down) as Hst.
      { rewrite P8. unfold hb_step. rewrite Hk. destruct (completed_up _ _); [done|]. by destruct (bool_decide _). }
      split; rewrite ?P1, ?P3, ?P4, ?P5, ?P6, ?P7; try done.
      * intros _. by rewrite Hm', Hst.
      * intros _ _ _. cbn. lia.
      * intros _ x Hx. cbn in Hx. rewrite mode_at_snoc, bool_decide_eq_true_2, Hat by done. by rewrite Hm'.
      * intros _ st a b. cbn. rewrite Hsp. rewrite amount_none; [done|]. intros x _. unfold within.
        by rewrite bool_decide_eq_false_2 by lia.
  - (* a pause *)
    unfold tl_pause. destruct (tl_started t) eqn:Hs; cbn [negb orb].
    + pose proof (H5 eq_refl) as Hm. destruct (tl_paused t) eqn:Hp.
      * eapply event_ignored; [done..|]. unfold hb_step. by rewrite Hk, Hm.
      * pose proof (H4 eq_refl).
        destruct (advance_ok _ _ _ (he_ts e) Hr Hs Hp) as (G1 & G2 & G3 & G4 & G5 & G6 & G7 & G8 & G9); [lia|].
        eapply event_counts; try done. cbn. unfold hb_step. rewrite Hk, Hm. by destruct (tl_up t).
    + eapply event_ignored; [done..|]. unfold hb_step. rewrite Hk. destruct (H3 eq_refl) as (Hm & _). by rewrite Hm.
Qed.

Definition hb_sorted (events : list hbEvent) : Prop := StronglySorted (λ e f, he_ts e ≤ he_ts f) events.

Definition replay (events : list hbEvent) : hbTimeline := foldl tl_event (new_timeline period) events.

Lemma replay_ok events bound :
  hb_sorted events → (∀ e, e ∈ events → he_ts e ≤ bound) → replayed events bound (replay events).
Proof.
  revert bound. induction events as [|e events IH] using rev_ind; intros bound Hs Hb.
  { split; try done. constructor. }
  unfold replay. rewrite foldl_app. cbn. apply (replayed_bound _ (he_ts e)); [|apply Hb; set_solver].
  apply (event_replayed _ (he_ts e)); [|done]. apply StronglySorted_app in Hs as (Hcross & Hs1 & Hs2).
  apply IH; [done|]. intros f Hf. apply Hcross; [done|by left].
Qed.

Lemma closed_weigh events end_ st start stop :
  hb_sorted events → tl_started (replay events) = true →
  tl_first (replay events) ≤ start → stop ≤ end_ →
  weigh st start stop (tl_spans (tl_close end_ (replay events)))
  = amount (λ x, hb_in st (mode_at period events x) x) start stop.
Proof.
  intros Hs Hst Hfirst Hstop.
  assert (∃ bound, ∀ e, e ∈ events → he_ts e ≤ bound) as [bound Hb].
  { clear. induction events as [|e l [b Hb]]; [exists 0; by intros ? ?%elem_of_nil|].
    exists (Z.max (he_ts e) b). intros f [->|Hf]%elem_of_cons; [lia|]. specialize (Hb f Hf). lia. }
  pose proof (replay_ok events bound Hs Hb) as Hr. set (t := replay events) in *.
  pose proof Hr as [H1 H2 H3 H4 H5 H6 H7 H8]. specialize (H4 Hst).
  assert (∀ cur, stop ≤ cur → amount (λ x, within (tl_first t) cur x && hb_in st (mode_at period events x) x) start stop
    = amount (λ x, hb_in st (mode_at period events x) x) start stop) as Hcut.
  { intros cur Hcur. apply amount_ext. intros x Hx. unfold within. by rewrite bool_decide_eq_true_2 by lia. }
  unfold tl_close. destruct (bool_decide_reflect (end_ ≤ tl_cursor t)) as [He|He].
  { rewrite (H8 Hst). apply Hcut. lia. }
  rewrite <- (Hcut end_) by lia.
  rewrite (amount_stretch st (mode events) _ (tl_cursor t) _ (mode_at period events)), <- (H8 Hst) by (done || lia || auto).
  destruct (tl_paused t) eqn:Hp.
  - etransitivity; [apply add_span_ok; [done|lia]|]. rewrite (H5 Hst), ?Hp, amount_mode. state_cases st.
  - apply (advance_ok events bound t end_); [done..|lia].
Qed.

Lemma tl_over_exact events end_ start stop :
  let t := tl_close end_ (replay events) in
  let spent st := amount (λ x, hb_in st (mode_at period events x) x) start stop in
  let observed := stop - start - spent hbPaused in
  hb_sorted events → tl_started (replay events) = true → tl_first (replay events) ≤ start < stop → stop ≤ end_ →
  tl_over start stop t =
    (if bool_decide (observed ≤ 0) then None
     else Some (MkDayUptime (round_percent (spent hbUp) observed)
       (count (λ ts, bool_decide (start ≤ ts < stop)) (tl_incidents t))))
  ∧ 0 ≤ observed ∧ (0 < observed → 0 ≤ round_percent (spent hbUp) observed ≤ 10000).
Proof.
  cbv zeta. intros Hs Hst Hfirst Hstop. unfold tl_over. rewrite !closed_weigh by (done || lia).
  set (spent := λ st, amount (λ x, hb_in st (mode_at period events x) x) start stop).
  assert (amount (λ x, hb_in hbUp (mode_at period events x) x || hb_in hbPaused (mode_at period events x) x) start stop
    = spent hbUp + spent hbPaused) as Hsum.
  { apply amount_add. intros x _. destruct (mode_at period events x); cbn; try done. by case_bool_decide. }
  pose proof (amount_bounds (λ x, hb_in hbUp (mode_at period events x) x || hb_in hbPaused (mode_at period events x) x) start stop) as Hb.
  pose proof (amount_bounds (λ x, hb_in hbUp (mode_at period events x) x) start stop) as Hu.
  fold (spent hbUp) in *. fold (spent hbPaused). split; [done|]. split; [lia|]. intros Hobs. unfold round_percent.
  split; [apply Z.div_pos; lia|]. apply Z.lt_succ_r, Z.div_lt_upper_bound; lia.
Qed.

(** The timeline starts with the first ping. *)
Definition first_ping (events : list hbEvent) : option hbEvent := head (filter (λ e, he_kind e = hbPing) events).

Lemma replay_first events :
  match first_ping events with
  | Some e => tl_started (replay events) = true ∧ tl_first (replay events) = he_ts e
  | None => tl_started (replay events) = false ∧ tl_paused (replay events) = false
  end.
Proof.
  unfold first_ping, replay. induction events as [|e events IH] using rev_ind; [done|].
  rewrite filter_app, filter_cons, filter_nil, foldl_app. cbn [foldl]. set (t := foldl tl_event _ _) in *.
  assert (∀ t' ts, tl_started (tl_advance ts t') = tl_started t' ∧ tl_first (tl_advance ts t') = tl_first t') as Hadv.
  { intros t' ts. unfold tl_advance. by destruct (tl_up t' && _). }
  assert (∀ t' ts pt ec, tl_started (ping_outcome ts pt ec t') = tl_started t' ∧ tl_first (ping_outcome ts pt ec t') = tl_first t') as Hout.
  { intros t' ts pt ec. unfold ping_outcome. destruct (completed_up _ _); [done|]. destruct (bool_decide _); [|done]. by destruct (tl_up t'). }
  destruct (filter (λ e, he_kind e = hbPing) events) as [|p l]; cbn [head app] in *.
  - destruct IH as [Hs Hp]. unfold tl_event. destruct (he_kind e) eqn:Hk.
    + rewrite decide_False by done. unfold tl_resume. by rewrite Hp.
    + rewrite decide_True by done. cbn [head]. unfold tl_ping. rewrite Hs. cbn [negb]. destruct (Hout (t <| tl_started := true |> <| tl_first := he_ts e |> <| tl_up := true |>
        <| tl_cursor := he_ts e |>) (he_ts e) (he_pingType e) (he_exitCode e)) as [-> ->]. done.
    + rewrite decide_False by done. unfold tl_pause. by rewrite Hs.
  - destruct IH as [Hs Hf]. unfold tl_event. destruct (he_kind e) eqn:Hk.
    + unfold tl_resume. by destruct (tl_paused t).
    + unfold tl_ping. rewrite Hs. cbn [negb].
      match goal with |- context [ping_outcome ?ts ?pt ?ec ?t'] => destruct (Hout t' ts pt ec) as [-> ->] end.
      destruct (tl_paused t) eqn:Hp; [unfold tl_resume; by rewrite Hp|]. destruct (Hadv t (he_ts e)) as [-> ->]. done.
    + unfold tl_pause. rewrite Hs. cbn [negb orb]. destruct (tl_paused t); [done|].
      split; (etransitivity; [apply (Hadv t (he_ts e))|done]).
Qed.
End Timeline.
