(* ===== verification/UptimeDaily.v ===== *)
(** * Daily uptime

    [src/internal/store/uptime_daily.go]: the uptime of a monitor per UTC day.  A
    completed day is read from an aggregate, which the nightly rollup computes from
    the raw rows before retention deletes them; a day not aggregated yet is computed
    from the raw rows when it is asked for.  A percentage is a number of hundredths
    of a percent (see [Uptime]); the order in which Go visits a map of days is a
    parameter. *)

From S2P Require Import Prelude.
From S2P Require Import Tables.
From S2P Require Import GoStrings.
From S2P Require Import AlertModel.
From S2P Require Import GoTime.
From S2P Require Import Heartbeat.
From S2P Require Import Endpoint.
From S2P Require Import Container.
From S2P Require Import ContainerStore.
From S2P Require Import Uptime.

#[local] Open Scope string_scope.
#[local] Open Scope list_scope.
#[local] Open Scope Z_scope.

Definition maxUptimeDays : Z := 365.
Definition secondsPerDay : Z := 86400.
Definition uptimeDay : Z := 24 * hour.
Definition incidentLookback : Z := 24 * hour.

(** ** The tables *)

Inductive uptimeTable := endpointUptimeTable | heartbeatUptimeTable | containerUptimeTable.
#[export] Instance uptimeTable_eq_dec : EqDecision uptimeTable.
Proof. solve_decision. Defined.

(** A row of an aggregate; the day is the UTC midnight in seconds. *)
Record daily_row := MkDaily {
  dr_ID : string;
  dr_Monitor : string;
  dr_Day : Z;
  dr_Uptime : dayUptime;
}.
#[export] Instance daily_row_eta : Eta daily_row := λ r,
  MkDaily (dr_ID r) (dr_Monitor r) (dr_Day r) (dr_Uptime r).
#[export] Instance daily_row_id : HasId daily_row := dr_ID.

(** A row that only its time matters of: the check of a certificate, a resource
    sample or one of its hourly and daily sums. *)
Record stamped := MkStamped { sm_ID : string; sm_At : Z }.
#[export] Instance stamped_eta : Eta stamped := λ r, MkStamped (sm_ID r) (sm_At r).
#[export] Instance stamped_id : HasId stamped := sm_ID.

Record history := MkHistory {
  hy_endpoints : list Endpoint;
  hy_checks : list CheckResult;
  hy_heartbeats : list Heartbeat;
  hy_pings : list HeartbeatPing;
  hy_pauses : list HeartbeatPause;
  hy_executions : list HeartbeatExecution;
  hy_containers : list Container;
  hy_transitions : list StateTransition;
  hy_endpoint_daily : list daily_row;
  hy_heartbeat_daily : list daily_row;
  hy_container_daily : list daily_row;
  hy_cert_checks : list stamped;
  hy_snapshots : list stamped;
  hy_hourly : list stamped;
  hy_daily : list stamped;
}.
#[export] Instance history_eta : Eta history := λ s,
  MkHistory (hy_endpoints s) (hy_checks s) (hy_heartbeats s) (hy_pings s) (hy_pauses s) (hy_executions s)
    (hy_containers s) (hy_transitions s) (hy_endpoint_daily s) (hy_heartbeat_daily s) (hy_container_daily s)
    (hy_cert_checks s) (hy_snapshots s) (hy_hourly s) (hy_daily s).

Definition empty_history : history := MkHistory [] [] [] [] [] [] [] [] [] [] [] [] [] [] [].

Definition daily_table (t : uptimeTable) (s : history) : list daily_row :=
  match t with
  | endpointUptimeTable => hy_endpoint_daily s
  | heartbeatUptimeTable => hy_heartbeat_daily s
  | containerUptimeTable => hy_container_daily s
  end.

Definition set_daily (t : uptimeTable) (f : list daily_row → list daily_row) (s : history) : history :=
  match t with
  | endpointUptimeTable => s <| hy_endpoint_daily ::= f |>
  | heartbeatUptimeTable => s <| hy_heartbeat_daily ::= f |>
  | containerUptimeTable => s <| hy_container_daily ::= f |>
  end.

Abbreviation dayUptimes := (gmap Z dayUptime).

(** [computeDays]: the uptime of a monitor for each day of [[from, to)] that has raw data. *)
Definition computeDays : Type := string → Z → Z → M history (result dayUptimes).

(** ** Days *)

Definition startOfUTCDay (t : Z) : Z := uptimeDay * (t / uptimeDay).

Definition clampUptimeDays (days : Z) : Z :=
  if bool_decide (days ≤ 0) then 90 else if bool_decide (maxUptimeDays < days) then maxUptimeDays else days.

(** The start of each round of [for day := from; day < to; day += step]. *)
Definition days_from (from to step : Z) : list Z := (λ i, from + step * i) <$> seqZ 0 ((to - from + step - 1) / step).

Definition format_date (t : Z) : string :=
  let '(y, m, d) := civil_from_days (unix t / secondsPerDay) in
  pad 4 y +:+ "-" +:+ pad 2 m +:+ "-" +:+ pad 2 d.

(** ** Endpoints: the share of successful checks *)

Record checkCount := MkCheckCount { cc_up : Z; cc_total : Z; cc_incidents : Z }.
#[export] Instance checkCount_eta : Eta checkCount := λ c, MkCheckCount (cc_up c) (cc_total c) (cc_incidents c).

Record checkDays := MkCheckDays {
  cd_from : Z;
  cd_prevUp : bool;
  cd_hasPrev : bool;
  cd_counts : gmap Z checkCount;
}.
#[export] Instance checkDays_eta : Eta checkDays := λ c,
  MkCheckDays (cd_from c) (cd_prevUp c) (cd_hasPrev c) (cd_counts c).

Definition newCheckDays (from : Z) : checkDays := MkCheckDays (unix from) false false ∅.

Definition checkDays_add (ts : Z) (up : bool) (c : checkDays) : checkDays :=
  let c := if bool_decide (cd_from c ≤ ts) then
             let day := ts - Z.rem ts secondsPerDay in
             let n := default (MkCheckCount 0 0 0) (cd_counts c !! day) in
             let n := n <| cc_total ::= Z.add 1 |> in
             let n := if up then n <| cc_up ::= Z.add 1 |>
                      else if cd_hasPrev c && cd_prevUp c then n <| cc_incidents ::= Z.add 1 |> else n in
             c <| cd_counts ::= <[day := n]> |>
           else c in
  c <| cd_prevUp := up |> <| cd_hasPrev := true |>.

Definition checkDays_result (c : checkDays) : dayUptimes :=
  (λ n, MkDayUptime (round_percent (cc_up n) (cc_total n)) (cc_incidents n)) <$> cd_counts c.

Definition check_in (id : string) (from to : Z) (r : CheckResult) : bool :=
  bool_decide (cr_EndpointID r = id) && bool_decide (unix from ≤ unix (cr_Timestamp r))
  && bool_decide (unix (cr_Timestamp r) < unix to).

Definition checks_between (id : string) (from to : Z) (s : history) : list CheckResult :=
  order_by (λ r, unix (cr_Timestamp r)) (select_where (check_in id from to) (hy_checks s)).

Definition tally (from : Z) (rows : list CheckResult) : dayUptimes :=
  checkDays_result
    (foldl (λ c r, checkDays_add (unix (cr_Timestamp r)) (cr_Success r) c) (newCheckDays from) rows).

Definition endpointDays : computeDays := λ id from to,
  let? rows := db_query (checks_between id (from - incidentLookback) to) in
  ret (Ok (tally from rows)).

(** ** Heartbeats: the time up *)

Definition kind_rank (k : hbKind) : Z := match k with hbResume => 0 | hbPing => 1 | hbPause => 2 end.

Definition event_before : relation hbEvent := λ e f,
  he_ts e < he_ts f ∨ (he_ts e = he_ts f ∧ kind_rank (he_kind e) ≤ kind_rank (he_kind f)).
#[export] Instance event_before_dec : RelDecision event_before.
Proof. intros e f. unfold event_before. apply _. Defined.

Definition is_completion (p : HeartbeatPing) : bool := bool_decide (pi_PingType p ∈ ["success"; "exit_code"]).

(** [MAX] of a column: [None] without rows. *)
Definition max_of (l : list Z) : option Z := foldr (λ z m, Some (match m with Some m => Z.max z m | None => z end)) None l.

Definition pings_between (id : string) (from to : Z) (s : history) : list hbEvent :=
  (λ p, MkHbEvent (unix (pi_Timestamp p)) hbPing (pi_PingType p) (pi_ExitCode p)) <$>
    order_by (λ p, unix (pi_Timestamp p))
      (select_where (λ p, bool_decide (pi_HeartbeatID p = id) && bool_decide (from ≤ unix (pi_Timestamp p))
         && bool_decide (unix (pi_Timestamp p) < to)) (hy_pings s)).

Definition heartbeatPingEvents (id : string) (from to : Z) : M history (result (list hbEvent)) :=
  db_query (pings_between id from to).

(** A pause that overlaps [[from, to)]; an empty one is left out. *)
Definition pause_in (id : string) (from to : Z) (p : HeartbeatPause) : bool :=
  bool_decide (pa_HeartbeatID p = id) && bool_decide (unix (pa_PausedAt p) < to)
  && match pa_ResumedAt p with
     | Some r => bool_decide (from < unix r) && bool_decide (unix (pa_PausedAt p) < unix r)
     | None => true
     end.

Definition pauses_between (id : string) (from to : Z) (s : history) : list hbEvent :=
  select_where (pause_in id from to) (hy_pauses s) ≫= λ p,
    MkHbEvent (unix (pa_PausedAt p)) hbPause "" None ::
    match pa_ResumedAt p with Some r => [MkHbEvent (unix r) hbResume "" None] | None => [] end.

Definition heartbeatPauseEvents (id : string) (from to : Z) : M history (result (list hbEvent)) :=
  db_query (pauses_between id from to).

Definition period_of (id : string) (s : history) : option Z :=
  (λ h, hb_IntervalSeconds h + hb_GraceSeconds h) <$> select_id id (hy_heartbeats s).

(** The last completion before [from]. *)
Definition last_completion (id : string) (from : Z) (s : history) : option Z :=
  max_of ((λ p, unix (pi_Timestamp p)) <$>
    select_where (λ p, bool_decide (pi_HeartbeatID p = id) && is_completion p
      && bool_decide (unix (pi_Timestamp p) < from)) (hy_pings s)).

(** The days of a closed timeline. *)
Definition timeline_days (tl : hbTimeline) (from to : Z) : dayUptimes :=
  let dataStart := Z.max (tl_first tl) (unix from) in
  foldl (λ out day,
    let start := Z.max day dataStart in
    let end_ := Z.min (day + secondsPerDay) (unix to) in
    if bool_decide (end_ ≤ start) then out
    else match tl_over start end_ tl with Some v => <[day := v]> out | None => out end)
    ∅ (days_from (unix from) (unix to) secondsPerDay).

Definition heartbeatDays : computeDays := λ id from to,
  if negb (bool_decide (from < to)) then ret (Ok ∅)
  else
    let? period := db_query (period_of id) in
    match period with
    | None => ret (Ok ∅)
    | Some period =>
      let? seed := db_query (last_completion id (unix from)) in
      let? events := heartbeatPingEvents id (default 0 seed) (unix to) in
      let? pauses := heartbeatPauseEvents id (default 0 seed) (unix to) in
      let tl := replay period (stable_sort event_before (events ++ pauses)) in
      if negb (tl_started tl) then ret (Ok ∅)
      else ret (Ok (timeline_days (tl_close (unix to) tl) from to))
    end.

(** ** Containers: the time up *)

Definition was_up (state : string) (health : option string) : bool :=
  bool_decide (state = StateRunning) && negb (bool_decide (health = Some HealthUnhealthy)).

Definition countContainerIncidents (transitions : list StateTransition) (from to : Z) : Z :=
  count (λ t, bool_decide (from ≤ st_Timestamp t < to)
    && (was_up (st_PreviousState t) (st_PreviousHealth t) && negb (was_up (st_NewState t) (st_NewHealth t)))) transitions.

Definition container_days (transitions : list StateTransition) (dataStart from to : Z) : dayUptimes :=
  foldl (λ out day,
    let dayEnd := Z.min (day + uptimeDay) to in
    let start := Z.max day dataStart in
    if bool_decide (dayEnd ≤ start) then out
    else <[unix day := MkDayUptime (computeUptime transitions start dayEnd)
             (countContainerIncidents transitions start dayEnd)]> out)
    ∅ (days_from from to uptimeDay).

(** The last transition before [from], and those of [[from, to)]. *)
Definition seed_before (id : string) (from : Z) (s : history) : option StateTransition :=
  head (merge_sort latest_first
    (select_where (λ t, bool_decide (st_ContainerID t = id) && bool_decide (unix (st_Timestamp t) < unix from))
      (hy_transitions s))).

Definition transitions_between (id : string) (from to : Z) (s : history) : list StateTransition :=
  order_by st_Timestamp
    (select_where (λ t, bool_decide (st_ContainerID t = id) && bool_decide (unix from ≤ unix (st_Timestamp t))
       && bool_decide (unix (st_Timestamp t) < unix to)) (hy_transitions s)).

Definition containerDays : computeDays := λ id from to,
  if negb (bool_decide (from < to)) then ret (Ok ∅)
  else
    let? seed := db_query (seed_before id from) in
    let? rows := db_query (transitions_between id from to) in
    match option_list seed ++ rows with
    | [] => ret (Ok ∅)
    | (first :: _) as transitions =>
      let dataStart := match seed with Some _ => from | None => st_Timestamp first end in
      ret (Ok (container_days transitions dataStart from to))
    end.

(** When an archived container stopped existing. *)
Definition archived_since (c : Container) : option Z :=
  if ct_Archived c then db_time <$> ct_ArchivedAt c else None.

Definition containerUntil (id : string) : M history (result (option Z)) :=
  db_query (λ s, select_id id (hy_containers s) ≫= archived_since).

(** ** Reading *)

Record DailyUptime := MkDailyUptime {
  da_Date : string;
  da_UptimePercent : option Z;
  da_IncidentCount : Z;
}.

Definition storedDays (t : uptimeTable) (id : string) (from to : Z) : M history (result dayUptimes) :=
  db_query (λ s, foldl (λ m r, <[dr_Day r := dr_Uptime r]> m) ∅
    (select_where (λ r, bool_decide (dr_Monitor r = id) && bool_decide (unix from ≤ dr_Day r)
       && bool_decide (dr_Day r < unix to)) (daily_table t s))).

(** The day after the last stored one, or the start of the window. *)
Definition compute_from (windowStart : Z) (stored : dayUptimes) : Z :=
  map_fold (λ d _ from, Z.max (of_unix d + uptimeDay) from) windowStart stored.

Definition day_entry (stored computed : dayUptimes) (day : Z) : DailyUptime :=
  match match stored !! unix day with Some v => Some v | None => computed !! unix day end with
  | Some v => MkDailyUptime (format_date day) (Some (du_percent v)) (du_incidents v)
  | None => MkDailyUptime (format_date day) None 0
  end.

Definition daily (t : uptimeTable) (id : string) (days now : Z) (compute : computeDays)
    : M history (result (list DailyUptime)) :=
  let days := clampUptimeDays days in
  let today := startOfUTCDay now in
  let windowStart := today - uptimeDay * (days - 1) in
  let? stored := storedDays t id windowStart today in
  let? computed := compute id (compute_from windowStart stored) now in
  ret (Ok ((λ i, day_entry stored computed (today - uptimeDay * i)) <$> seqZ 0 days)).

Definition GetEndpointDailyUptime (id : string) (days now : Z) : M history (result (list DailyUptime)) :=
  daily endpointUptimeTable id days now endpointDays.

Definition GetHeartbeatDailyUptime (id : string) (days now : Z) : M history (result (list DailyUptime)) :=
  daily heartbeatUptimeTable id days now heartbeatDays.

Definition GetContainerDailyUptime (id : string) (days now : Z) : M history (result (list DailyUptime)) :=
  let? until := containerUntil id in
  daily containerUptimeTable id days now (λ id from to,
    containerDays id from (match until with Some u => if bool_decide (u < to) then u else to | None => to end)).

(** ** The rollup *)

Record uptimeMonitor := MkMonitor { um_id : string; um_until : option Z }.

Definition monitors (t : uptimeTable) : M history (result (list uptimeMonitor)) :=
  db_query (λ s, match t with
                 | endpointUptimeTable => (λ e, MkMonitor (ep_ID e) None) <$> hy_endpoints s
                 | heartbeatUptimeTable => (λ h, MkMonitor (hb_ID h) None) <$> hy_heartbeats s
                 | containerUptimeTable => (λ c, MkMonitor (ct_ID c) (archived_since c)) <$> hy_containers s
                 end).

(** [INSERT ... ON CONFLICT (monitor, day) DO UPDATE]. *)
Definition upsert_daily (rows : list daily_row) (new : daily_row) : list daily_row :=
  let same r := bool_decide (dr_Monitor r = dr_Monitor new) && bool_decide (dr_Day r = dr_Day new) in
  if existsb same rows then update_where same (λ r, r <| dr_Uptime := dr_Uptime new |>) rows
  else rows ++ [new].

(** The first day to aggregate: the first whose raw rows retention has not touched,
    or the last aggregated one. *)
Definition rollup_from (now rawRetention : Z) (last : option Z) : Z :=
  let from := startOfUTCDay (now - rawRetention) + uptimeDay in
  match last with Some d => Z.max (of_unix d) from | None => from end.

Section Rollup.
(** The order in which Go visits the days of a monitor. *)
Context (visit : dayUptimes → list (Z * dayUptime)).

(** The rows of one monitor after the other; the first failure ends it. *)
Fixpoint aggregates (compute : computeDays) (from today : Z) (ms : list uptimeMonitor)
    : M history (result (list (string * (Z * dayUptime)))) :=
  match ms with
  | [] => ret (Ok [])
  | m :: ms =>
    let to := match um_until m with Some u => Z.min u today | None => today end in
    if bool_decide (to ≤ from) then aggregates compute from today ms
    else
      let? days := compute (um_id m) from to in
      let? rest := aggregates compute from today ms in
      ret (Ok (((λ d, (um_id m, d)) <$> visit days) ++ rest))
  end.

(** The rows of the transaction, each with a new id. *)
Fixpoint with_ids (l : list (string * (Z * dayUptime))) : M history (list daily_row) :=
  match l with
  | [] => ret []
  | (m, (day, v)) :: l =>
    let! id := new_uid in
    let! rest := with_ids l in
    ret (MkDaily id m day v :: rest)
  end.

Definition rollup (t : uptimeTable) (ms : list uptimeMonitor) (now rawRetention : Z) (compute : computeDays)
    : M history (result unit) :=
  let today := startOfUTCDay now in
  let? last := db_query (λ s, max_of (dr_Day <$> daily_table t s)) in
  let from := rollup_from now rawRetention last in
  let? rows := aggregates compute from today ms in
  if bool_decide (rows = []) then ret (Ok tt)
  else
    let! rows := with_ids rows in
    db_exec (set_daily t (λ table, foldl upsert_daily table rows)).

Definition rollup_monitors (t : uptimeTable) (compute : computeDays) (now rawRetention : Z) : M history (result unit) :=
  let? ms := monitors t in
  rollup t ms now rawRetention compute.

Definition rollupEndpoints (now rawRetention : Z) : M history (result unit) :=
  rollup_monitors endpointUptimeTable endpointDays now rawRetention.
Definition rollupHeartbeats (now rawRetention : Z) : M history (result unit) :=
  rollup_monitors heartbeatUptimeTable heartbeatDays now rawRetention.
Definition rollupContainers (now rawRetention : Z) : M history (result unit) :=
  rollup_monitors containerUptimeTable containerDays now rawRetention.
End Rollup.

(** ** The uptime of a window

    [container.UptimeCalculator]: the share of the last 24 hours, 7, 30 and 90 days
    a container was up, the first of them kept for a minute. *)

Definition uptimeCacheTTL : Z := 60 * second.

Record cacheEntry := MkCacheEntry { ce_value : Z; ce_expiresAt : Z }.

Record calculator := MkCalculator {
  uc_transitions : list StateTransition;
  uc_cache : gmap (string * string) cacheEntry;
}.
#[export] Instance calculator_eta : Eta calculator := λ u, MkCalculator (uc_transitions u) (uc_cache u).

Record UptimeResult := MkUptimeResult {
  ur_Hours24 : option Z;
  ur_Days7 : option Z;
  ur_Days30 : option Z;
  ur_Days90 : option Z;
}.
#[export] Instance UptimeResult_eta : Eta UptimeResult := λ r,
  MkUptimeResult (ur_Hours24 r) (ur_Days7 r) (ur_Days30 r) (ur_Days90 r).

Definition cached (id name : string) (at_ : Z) (u : calculator) : option Z :=
  match uc_cache u !! (id, name) with
  | Some ce => if bool_decide (at_ < ce_expiresAt ce) then Some (ce_value ce) else None
  | None => None
  end.

Definition compute_window (id : string) (window : Z) (name : string) : M calculator (result Z) :=
  let! now := now in
  let from := now - window in
  let? transitions := db_query (λ u, order_by st_Timestamp (select_where (in_window id from now) (uc_transitions u))) in
  let pct := computeUptime transitions from now in
  if bool_decide (name = "24h")
  then let! later := Prelude.now in
       do! modify (λ u, u <| uc_cache ::= <[(id, name) := MkCacheEntry pct (later + uptimeCacheTTL)]> |>) in
       ret (Ok pct)
  else ret (Ok pct).

Definition calculateWindow (id : string) (window : Z) (name : string) : M calculator (result Z) :=
  if bool_decide (name = "24h")
  then
    let! entry := gets (λ u, uc_cache u !! (id, name)) in
    match entry with
    | Some _ =>
      let! at_ := now in
      let! hit := gets (cached id name at_) in
      match hit with
      | Some pct => ret (Ok pct)
      | None => compute_window id window name
      end
    | None => compute_window id window name
    end
  else compute_window id window name.

Definition uptime_windows : list (string * Z * (option Z → UptimeResult → UptimeResult)) :=
  [("24h", 24 * hour, λ v r, r <| ur_Hours24 := v |>);
   ("7d", 7 * (24 * hour), λ v r, r <| ur_Days7 := v |>);
   ("30d", 30 * (24 * hour), λ v r, r <| ur_Days30 := v |>);
   ("90d", 90 * (24 * hour), λ v r, r <| ur_Days90 := v |>)].

(** The windows from the [i]-th on, up to the first that does not fit. *)
Fixpoint calculate_from (id : string) (maxWindow : Z) (i : nat)
    (windows : list (string * Z * (option Z → UptimeResult → UptimeResult))) (r : UptimeResult)
    : M calculator (result UptimeResult) :=
  match windows with
  | [] => ret (Ok r)
  | (name, duration, put_value) :: rest =>
    if bool_decide ((0 < i)%nat) && bool_decide (maxWindow < duration) then ret (Ok r)
    else
      let? pct := calculateWindow id duration name in
      calculate_from id maxWindow (S i) rest (put_value (Some pct) r)
  end.

Definition Calculate (id : string) (maxWindow : Z) : M calculator (result UptimeResult) :=
  calculate_from id maxWindow 0 uptime_windows (MkUptimeResult None None None None).
