(* ===== verification/UptimeRollup.v ===== *)
(** * The nightly rollup of the uptime

    What [rollup] of [UptimeDaily] leaves in the aggregates.  The three ways to
    compute the days of a monitor are shown to be functions of the raw rows
    ([answers]); every day they compute is a UTC midnight of the window with a
    percentage ([day_sound]); and a rollup stores them and nothing else. *)

From S2P Require Import Prelude.
From S2P Require Import Tables.
From S2P Require Import GoStrings.
From S2P Require Import AlertModel.
From S2P Require Import GoTime.
From S2P Require Import Heartbeat.
From S2P Require Import Endpoint.
From S2P Require Import Container.
From S2P Require Import ContainerStore.
From S2P Require Import Uptime.
From S2P Require Import UptimeDaily.

#[local] Open Scope string_scope.
#[local] Open Scope list_scope.
#[local] Open Scope Z_scope.

(** ** Reading computations *)

(** [m] leaves the database alone and answers [f] of it, unless a statement fails. *)
Definition answers {A} (m : M history (result A)) (f : history → A) : Prop := ∀ w,
  wp m (λ r w', same w w' ∧ match r with Ok a => a = f (w_st w) | Err _ => ¬ fault_free w end) w.

Lemma answers_query {A} (q : history → A) : answers (db_query q) q.
Proof. intros w. apply wp_db_query; intros w' Hw; [by split|by split]. Qed.

Lemma answers_ret {A} (a : A) : answers (ret (Ok a)) (λ _, a).
Proof. intros w. apply wp_ret. split; [apply same_refl|done]. Qed.

Lemma answers_bind {A B} (m : M history (result A)) (k : A → M history (result B)) f g :
  answers m f → (∀ a, answers (k a) (g a)) → answers (let? a := m in k a) (λ s, g (f s) s).
Proof.
  intros Hm Hk w. apply wp_bind. eapply wp_mono; [apply Hm|]. intros [a|e] w' [Hs Hr].
  - subst a. eapply wp_mono; [apply Hk|]. intros [b|e] w2 [Hs2 Hr2]; (split; [by eapply same_trans|]).
    + by rewrite Hr2, (proj1 Hs).
    + intros Hff. apply Hr2. apply (fault_free_env w w'); [apply Hs|done].
  - apply wp_ret. by split.
Qed.

Lemma answers_ext {A} (m : M history (result A)) f g : answers m f → (∀ s, f s = g s) → answers m g.
Proof.
  intros Hm Hfg w. eapply wp_mono; [apply Hm|]. intros [a|e] w' [? Hr]; (split; [done|]); [|done]. by rewrite Hr.
Qed.

(** ** The days of each monitor, as functions of the raw rows *)

Definition endpoint_raw (id : string) (from to : Z) (s : history) : dayUptimes :=
  tally from (checks_between id (from - incidentLookback) to s).

Lemma endpointDays_answers id from to : answers (endpointDays id from to) (endpoint_raw id from to).
Proof. apply (answers_bind _ _ _ (λ rows _, tally from rows)); [apply answers_query|intros rows; apply answers_ret]. Qed.

Definition container_raw (id : string) (from to : Z) (s : history) : dayUptimes :=
  if negb (bool_decide (from < to)) then ∅
  else match option_list (seed_before id from s) ++ transitions_between id from to s with
       | [] => ∅
       | (first :: _) as transitions =>
         container_days transitions (match seed_before id from s with Some _ => from | None => st_Timestamp first end) from to
       end.

Lemma containerDays_answers id from to : answers (containerDays id from to) (container_raw id from to).
Proof.
  unfold containerDays, container_raw. destruct (negb _); [apply answers_ret|].
  apply (answers_bind _ _ _ (λ seed s, match option_list seed ++ transitions_between id from to s with
       | [] => ∅
       | (first :: _) as transitions =>
         container_days transitions (match seed with Some _ => from | None => st_Timestamp first end) from to
       end)); [apply answers_query|]. intros seed.
  apply (answers_bind _ _ _ (λ rows _, match option_list seed ++ rows with
       | [] => ∅
       | (first :: _) as transitions =>
         container_days transitions (match seed with Some _ => from | None => st_Timestamp first end) from to
       end)); [apply answers_query|]. intros rows. destruct (option_list seed ++ rows); apply answers_ret.
Qed.

Definition heartbeat_raw (id : string) (from to : Z) (s : history) : dayUptimes :=
  if negb (bool_decide (from < to)) then ∅
  else match period_of id s with
       | None => ∅
       | Some period =>
         let seed := default 0 (last_completion id (unix from) s) in
         let tl := replay period (stable_sort event_before
            (pings_between id seed (unix to) s ++ pauses_between id seed (unix to) s)) in
         if negb (tl_started tl) then ∅ else timeline_days (tl_close (unix to) tl) from to
       end.

Lemma heartbeatDays_answers id from to : answers (heartbeatDays id from to) (heartbeat_raw id from to).
Proof.
  unfold heartbeatDays, heartbeat_raw. destruct (negb _); [apply answers_ret|].
  set (days := λ period events pauses,
    let tl := replay period (stable_sort event_before (events ++ pauses)) in
    if negb (tl_started tl) then ∅ else timeline_days (tl_close (unix to) tl) from to).
  apply (answers_bind _ _ _ (λ period s, match period with
       | None => ∅
       | Some period =>
         let seed := default 0 (last_completion id (unix from) s) in
         days period (pings_between id seed (unix to) s) (pauses_between id seed (unix to) s)
       end)); [apply answers_query|]. intros [period|]; [|apply answers_ret].
  apply (answers_bind _ _ _ (λ seed s, days period (pings_between id (default 0 seed) (unix to) s)
    (pauses_between id (default 0 seed) (unix to) s))); [apply answers_query|]. intros seed.
  apply (answers_bind _ _ _ (λ events s, days period events (pauses_between id (default 0 seed) (unix to) s)));
    [apply answers_query|]. intros events.
  apply (answers_bind _ _ _ (λ pauses _, days period events pauses)); [apply answers_query|]. intros pauses.
  unfold days. cbv zeta. destruct (negb _); apply answers_ret.
Qed.

Definition compute_of (t : uptimeTable) : computeDays :=
  match t with
  | endpointUptimeTable => endpointDays
  | heartbeatUptimeTable => heartbeatDays
  | containerUptimeTable => containerDays
  end.

Definition raw_of (t : uptimeTable) : string → Z → Z → history → dayUptimes :=
  match t with
  | endpointUptimeTable => endpoint_raw
  | heartbeatUptimeTable => heartbeat_raw
  | containerUptimeTable => container_raw
  end.

Lemma compute_of_answers t id from to : answers (compute_of t id from to) (raw_of t id from to).
Proof. destruct t; [apply endpointDays_answers|apply heartbeatDays_answers|apply containerDays_answers]. Qed.

(** ** What the aggregates hold of a monitor *)

Definition keyed (id : string) (day : Z) (r : daily_row) : Prop := dr_Monitor r = id ∧ dr_Day r = day.
#[export] Instance keyed_dec id day r : Decision (keyed id day r).
Proof. unfold keyed. apply _. Defined.

Definition stored_at (rows : list daily_row) (id : string) (day : Z) : option dayUptime :=
  dr_Uptime <$> last (filter (keyed id day) rows).

Definition stored (t : uptimeTable) (s : history) : string → Z → option dayUptime := stored_at (daily_table t s).

Lemma stored_at_row rows r : r ∈ rows → is_Some (stored_at rows (dr_Monitor r) (dr_Day r)).
Proof.
  intros Hr. unfold stored_at. destruct (last _) as [r'|] eqn:Hl; [by eexists|]. apply last_None in Hl.
  assert (r ∈ filter (keyed (dr_Monitor r) (dr_Day r)) rows) as Hin by (by apply list_elem_of_filter).
  rewrite Hl in Hin. by apply elem_of_nil in Hin.
Qed.

Lemma filter_update_where {A} (P : A → Prop) `{∀ x, Decision (P x)} p f (l : list A) :
  (∀ r, p r = true → P (f r) ↔ P r) → filter P (update_where p f l) = update_where p f (filter P l).
Proof.
  intros Hf. induction l as [|r l IH]; [done|]. unfold update_where in *. rewrite fmap_cons, !filter_cons, IH.
  destruct (p r) eqn:Hp.
  - destruct (decide (P r)); [rewrite decide_True by (by apply Hf)|rewrite decide_False by (by rewrite Hf)]; [|done].
    by rewrite fmap_cons, Hp.
  - destruct (decide (P r)); [|done]. by rewrite fmap_cons, Hp.
Qed.

Lemma stored_upsert rows new id day :
  stored_at (upsert_daily rows new) id day =
  if bool_decide (keyed id day new) then Some (dr_Uptime new) else stored_at rows id day.
Proof.
  unfold upsert_daily, stored_at. cbv zeta.
  set (same := λ r, bool_decide (dr_Monitor r = dr_Monitor new) && bool_decide (dr_Day r = dr_Day new)).
  assert (∀ r, same r = true ↔ keyed (dr_Monitor new) (dr_Day new) r) as Hsame.
  { intros r. unfold same, keyed. rewrite andb_true_iff, !bool_decide_eq_true. done. }
  destruct (existsb same rows) eqn:Hex.
  - rewrite filter_update_where by done. unfold update_where. rewrite fmap_last.
    destruct (last (filter (keyed id day) rows)) as [r|] eqn:Hl; cbn.
    + assert (keyed id day r) as Hr.
      { apply last_Some_elem_of, list_elem_of_filter in Hl. tauto. }
      destruct Hr as [<- <-]. destruct (same r) eqn:Hs.
      * apply Hsame in Hs. destruct Hs as [E1 E2]. rewrite bool_decide_eq_true_2; [done|]. by split.
      * rewrite bool_decide_eq_false_2; [done|]. intros [E1 E2]. by rewrite (proj2 (Hsame r)) in Hs by by split.
    + rewrite bool_decide_eq_false_2; [done|]. intros [<- <-].
      apply existsb_exists in Hex as (r & Hin%list_elem_of_In & Hs%Hsame). apply last_None in Hl.
      assert (r ∈ filter (keyed (dr_Monitor new) (dr_Day new)) rows) as Hf by (by apply list_elem_of_filter).
      rewrite Hl in Hf. by apply elem_of_nil in Hf.
  - rewrite filter_app, filter_cons, filter_nil. case_bool_decide as Hk.
    + rewrite decide_True by done. by rewrite last_snoc.
    + rewrite decide_False by done. by rewrite app_nil_r.
Qed.

Lemma stored_upserts news rows id day :
  stored_at (foldl upsert_daily rows news) id day =
  match stored_at news id day with Some v => Some v | None => stored_at rows id day end.
Proof.
  induction news as [|new news IH] using rev_ind; [done|].
  rewrite foldl_app. cbn [foldl]. rewrite stored_upsert, IH. unfold stored_at at 3.
  rewrite filter_app, filter_cons, filter_nil. case_bool_decide as Hk.
  - rewrite decide_True by done. by rewrite last_snoc.
  - rewrite decide_False by done. by rewrite app_nil_r.
Qed.

(** ** Which days are computed *)

Lemma days_from_elem from to step d : 0 < step → d ∈ days_from from to step ↔ ∃ i, 0 ≤ i ∧ d = from + step * i ∧ d < to.
Proof.
  intros Hstep. unfold days_from. rewrite list_elem_of_fmap. setoid_rewrite elem_of_seqZ. split.
  - intros (i & -> & Hi0 & Hi). exists i. split_and!; [done..|]. 
    assert (step * (i + 1) ≤ to - from + step - 1); [|lia].
    transitivity (step * ((to - from + step - 1) / step)); [apply Z.mul_le_mono_nonneg_l; lia|]. apply Z.mul_div_le. lia.
  - intros (i & Hi & -> & Hlt). exists i. split; [done|]. split; [done|].
    enough (i + 1 ≤ (to - from + step - 1) / step) by lia. apply Z.div_le_lower_bound; lia.
Qed.

(** A map built by inserting the value of each day that has one. *)
Lemma foldl_days_elem {K} (key : Z → Z) (f : Z → option K) (step : gmap Z K → Z → gmap Z K) l :
  (∀ out d, step out d = match f d with Some v => <[key d := v]> out | None => out end) →
  (∀ d d', d ∈ l → d' ∈ l → key d = key d' → d = d') →
  (∀ d, d ∈ l → foldl step ∅ l !! key d = f d) ∧ (∀ k v, foldl step ∅ l !! k = Some v → ∃ d, d ∈ l ∧ key d = k ∧ f d = Some v).
Proof.
  intros Hstep. induction l as [|x l IH] using rev_ind; intros Hinj.
  { split; [by intros ? ?%elem_of_nil|]. intros k v Hk. by destruct (lookup_empty_Some (M := gmap Z) k v). }
  destruct IH as [IH1 IH2]; [intros ????; apply Hinj; set_solver|]. rewrite foldl_app. cbn [foldl].
  set (m := foldl step ∅ l) in *. rewrite Hstep.
  assert (∀ k v, match f x with Some v0 => <[key x := v0]> m | None => m end !! k = Some v →
    ∃ d, d ∈ l ++ [x] ∧ key d = k ∧ f d = Some v) as H2.
  { intros k v. destruct (f x) as [v0|] eqn:Hx.
    - rewrite lookup_insert. case_decide as Hk.
      + intros [= ->]. exists x. set_solver.
      + intros (d & ? & ? & ?)%IH2. exists d. set_solver.
    - intros (d & ? & ? & ?)%IH2. exists d. set_solver. }
  split; [|done]. intros d [Hd|Hd%list_elem_of_singleton]%elem_of_app; [|subst d].
  - destruct (f x) as [v0|] eqn:Hx; [|by apply IH1]. rewrite lookup_insert. case_decide as Hk; [|by apply IH1].
    rewrite <- (Hinj x d) by set_solver. done.
  - destruct (f x) as [v0|] eqn:Hx; [by rewrite lookup_insert_eq|]. destruct (m !! key x) as [v|] eqn:Hm; [|done].
    destruct (IH2 _ _ Hm) as (d & Hd & Hk & Hf). rewrite (Hinj d x) in Hf by set_solver. congruence.
Qed.

(** ** Each kind of day is a day of the window, with a percentage *)

Definition midnight (t : Z) : Prop := t mod uptimeDay = 0.

Record day_sound (from to d : Z) (v : dayUptime) : Prop := {
  so_midnight : midnight (of_unix d);
  so_from : from ≤ of_unix d;
  so_to : of_unix d < to;
  so_percent : 0 ≤ du_percent v ≤ 10000;
  so_incidents : 0 ≤ du_incidents v;
}.

Lemma midnight_unix t : midnight t → of_unix (unix t) = t.
Proof.
  unfold midnight, of_unix, unix. intros [k ->]%Z.mod_divide; [|done].
  change uptimeDay with (secondsPerDay * second). by rewrite Z.mul_assoc, Z.div_mul.
Qed.

Lemma midnight_add from i : midnight from → midnight (from + uptimeDay * i).
Proof. unfold midnight. intros H. rewrite Z.mul_comm, Z.mod_add by done. done. Qed.

Lemma startOfUTCDay_midnight t : midnight (startOfUTCDay t).
Proof. unfold midnight, startOfUTCDay. rewrite Z.mul_comm. by apply Z.mod_mul. Qed.

Lemma startOfUTCDay_bounds t : startOfUTCDay t ≤ t < startOfUTCDay t + uptimeDay.
Proof.
  unfold startOfUTCDay. pose proof (Z.div_mod t uptimeDay ltac:(done)). pose proof (Z.mod_pos_bound t uptimeDay ltac:(done)). lia.
Qed.

Lemma midnight_le t u : midnight t → midnight u → t < u → t + uptimeDay ≤ u.
Proof.
  unfold midnight. intros Ht Hu Hlt. apply Z.mod_divide in Ht as [i ->], Hu as [j ->]; [|done..].
  assert (0 < uptimeDay) by done. assert (i < j) by nia. nia.
Qed.

(** *** Endpoints *)

Record counts_sound (c : checkDays) : Prop := {
  cs_day : ∀ d n, cd_counts c !! d = Some n → cd_from c ≤ d ∧ d mod secondsPerDay = 0;
  cs_count : ∀ d n, cd_counts c !! d = Some n → 0 < cc_total n ∧ 0 ≤ cc_up n ≤ cc_total n ∧ 0 ≤ cc_incidents n;
}.

Lemma day_of_timestamp from ts :
  0 ≤ from → from mod secondsPerDay = 0 → from ≤ ts →
  from ≤ ts - Z.rem ts secondsPerDay ≤ ts ∧ (ts - Z.rem ts secondsPerDay) mod secondsPerDay = 0.
Proof.
  intros H0 Hm Hts. rewrite Z.rem_mod_nonneg by (unfold secondsPerDay; lia).
  pose proof (Z.div_mod ts secondsPerDay ltac:(done)). pose proof (Z.mod_pos_bound ts secondsPerDay ltac:(done)).
  apply Z.mod_divide in Hm as [k ->]; [|done].
  assert (k ≤ ts / secondsPerDay) by (apply Z.div_le_lower_bound; [done|lia]). split; [nia|].
  replace (ts - ts mod secondsPerDay) with (ts / secondsPerDay * secondsPerDay) by lia. by apply Z.mod_mul.
Qed.

Lemma add_sound c ts up :
  0 ≤ cd_from c → cd_from c mod secondsPerDay = 0 → counts_sound c →
  counts_sound (checkDays_add ts up c) ∧ cd_from (checkDays_add ts up c) = cd_from c
  ∧ ∀ d, is_Some (cd_counts (checkDays_add ts up c) !! d) → is_Some (cd_counts c !! d) ∨ (cd_from c ≤ ts ∧ d ≤ ts).
Proof.
  intros H0 Hm [H1 H2]. unfold checkDays_add. cbv zeta.
  destruct (bool_decide_reflect (cd_from c ≤ ts)) as [Hts|]; [|by split_and!; [by split| |by left]].
  destruct (day_of_timestamp _ _ H0 Hm Hts) as [Hd Hdm]. set (day := ts - Z.rem ts secondsPerDay) in *.
  set (n0 := default (MkCheckCount 0 0 0) (cd_counts c !! day)).
  assert (0 ≤ cc_total n0 ∧ 0 ≤ cc_up n0 ≤ cc_total n0 ∧ 0 ≤ cc_incidents n0) as Hn0.
  { subst n0. destruct (cd_counts c !! day) as [n|] eqn:E; cbn; [|lia]. specialize (H2 _ _ E). lia. }
  split_and!; [|done|].
  - split; cbn; intros d n; rewrite lookup_insert; case_decide as Hd'; [subst d; intros _; lia|apply H1| |apply H2].
    intros [= <-]. destruct up; [cbn; lia|]. destruct (cd_hasPrev c && cd_prevUp c); cbn; lia.
  - cbn. intros d. rewrite lookup_insert. case_decide; [right; lia|by left].
Qed.

Lemma tally_sound from to rows d v :
  0 ≤ from → midnight from → (∀ r, r ∈ rows → unix (cr_Timestamp r) < unix to) →
  tally from rows !! d = Some v → day_sound from to d v.
Proof.
  intros H0 Hm Hrows. unfold tally, checkDays_result.
  set (c := foldl _ _ _). intros (n & <- & Hn)%lookup_fmap_Some.
  assert (unix from mod secondsPerDay = 0 ∧ 0 ≤ unix from) as [Hum Hu0].
  { split; [|by apply Z.div_pos]. apply Z.mod_divide in Hm as [k ->]; [|done]. unfold unix.
    change uptimeDay with (secondsPerDay * second). rewrite Z.mul_assoc, Z.div_mul by done. by apply Z.mod_mul. }
  enough (counts_sound c ∧ cd_from c = unix from ∧ ∀ d, is_Some (cd_counts c !! d) → d < unix to) as ([H1 H2] & Hf & Hto).
  { destruct (H1 _ _ Hn) as [Hd Hdm]. destruct (H2 _ _ Hn) as (Ht & Hup & Hi). specialize (Hto d (ex_intro _ _ Hn)).
    rewrite Hf in Hd. split; cbn.
    - unfold midnight, of_unix. apply Z.mod_divide in Hdm as [k ->]; [|done]. rewrite <- Z.mul_assoc. by apply Z.mod_mul.
    - rewrite <- (midnight_unix from Hm). unfold of_unix. apply Z.mul_le_mono_nonneg_r; [done|lia].
    - pose proof (db_time_le to). unfold db_time, of_unix in *. pose proof second_pos. nia.
    - unfold round_percent. split; [apply Z.div_pos; lia|]. apply Z.lt_succ_r, Z.div_lt_upper_bound; lia.
    - done. }
  subst c. clear Hn. clear d n. induction rows as [|r rows IH] using rev_ind; cbn [foldl].
  { split; [split; cbn; intros ??; by rewrite lookup_empty|]. split; [done|]. cbn. intros ? [? Hx]. by rewrite lookup_empty in Hx. }
  rewrite foldl_app. cbn [foldl]. destruct IH as (I1 & I2 & I3); [intros; apply Hrows; set_solver|].
  match goal with |- context [checkDays_add ?ts ?up ?c] => destruct (add_sound c ts up) as (A1 & A2 & A3); [by rewrite I2|by rewrite I2|done|] end.
  split; [done|]. split; [congruence|]. intros d' [?|[_ Hd]]%A3; [by apply I3|]. specialize (Hrows r). 
  assert (unix (cr_Timestamp r) < unix to) by (apply Hrows; set_solver). lia.
Qed.

(** *** Heartbeats *)

(** The pings and pauses of the window, in the order they are replayed. *)
Definition replayed_events (id : string) (from to : Z) (s : history) : list hbEvent :=
  let seed := default 0 (last_completion id (unix from) s) in
  stable_sort event_before (pings_between id seed (unix to) s ++ pauses_between id seed (unix to) s).

Definition hb_day (period : Z) (events : list hbEvent) (from to day : Z) : option dayUptime :=
  let start := Z.max day (Z.max (tl_first (replay period events)) from) in
  let stop := Z.min (day + secondsPerDay) to in
  if bool_decide (stop ≤ start) then None else tl_over start stop (tl_close to (replay period events)).

#[local] Instance event_before_trans : Transitive event_before.
Proof. unfold event_before. intros [t1 k1 ??] [t2 k2 ??] [t3 k3 ??]; cbn. lia. Qed.
#[local] Instance event_before_total : Total event_before.
Proof. unfold event_before. intros [t1 k1 ??] [t2 k2 ??]; cbn. lia. Qed.

Lemma replayed_events_sorted id from to s : hb_sorted (replayed_events id from to s).
Proof.
  unfold replayed_events, hb_sorted. rewrite <- (list_fmap_id (stable_sort _ _)).
  eapply StronglySorted_fmap; [|apply (stable_sort_sorted event_before)]. intros e f [?|[? _]]; cbn; lia.
Qed.

Lemma timeline_days_lookup period events from to :
  tl_first (tl_close (unix to) (replay period events)) = tl_first (replay period events) →
  let days := timeline_days (tl_close (unix to) (replay period events)) from to in
  (∀ d, d ∈ days_from (unix from) (unix to) secondsPerDay → days !! d = hb_day period events (unix from) (unix to) d)
  ∧ (∀ d v, days !! d = Some v → d ∈ days_from (unix from) (unix to) secondsPerDay
       ∧ hb_day period events (unix from) (unix to) d = Some v).
Proof.
  intros Hf. cbv zeta. unfold timeline_days. rewrite Hf.
  edestruct (foldl_days_elem (λ d, d) (hb_day period events (unix from) (unix to))) as [H1 H2]; [| |split].
  3: { apply H1. }
  3: { intros d v Hd. apply H2 in Hd as (d' & ? & <- & ?). done. }
  - intros out d. cbn beta zeta. unfold hb_day. case_bool_decide; done.
  - done.
Qed.

Lemma tl_close_first end_ t : tl_first (tl_close end_ t) = tl_first t.
Proof.
  unfold tl_close, tl_advance. destruct (bool_decide _); [done|]. destruct (tl_paused t); [done|].
  by destruct (tl_up t && _).
Qed.

Lemma heartbeat_day_sound id from to s d v :
  midnight from → (∀ p, period_of id s = Some p → 0 ≤ p) →
  heartbeat_raw id from to s !! d = Some v → day_sound from to d v.
Proof.
  intros Hm Hp. unfold heartbeat_raw. destruct (bool_decide_reflect (from < to)) as [Hft|]; cbn [negb];
    [|intros Hd; by rewrite lookup_empty in Hd].
  destruct (period_of id s) as [period|] eqn:Hper; [|intros Hd; by rewrite lookup_empty in Hd].
  cbv zeta. fold (replayed_events id from to s). set (E := replayed_events id from to s).
  destruct (tl_started (replay period E)) eqn:Hst; cbn [negb]; [|intros Hd; by rewrite lookup_empty in Hd].
  intros Hd. apply timeline_days_lookup in Hd as [Hin Hday]; [|by apply tl_close_first].
  apply days_from_elem in Hin as (i & Hi & -> & Hlt); [|done].
  unfold hb_day in Hday. case_bool_decide as Hle; [done|].
  destruct (tl_over_exact period (Hp _ eq_refl) E (unix to) (Z.max (unix from + secondsPerDay * i) (Z.max (tl_first (replay period E)) (unix from)))
    (Z.min (unix from + secondsPerDay * i + secondsPerDay) (unix to))) as (Heq & Hobs & Hpct); [apply replayed_events_sorted|done|lia|lia|].
  rewrite Heq in Hday. case_bool_decide; [done|]. injection Hday as <-.
  assert (of_unix (unix from + secondsPerDay * i) = from + uptimeDay * i) as Hday.
  { unfold of_unix. rewrite Z.mul_add_distr_r. fold (of_unix (unix from)). rewrite midnight_unix by done.
    change uptimeDay with (secondsPerDay * second). lia. }
  split; cbn [du_percent du_incidents].
  - rewrite Hday. by apply midnight_add.
  - rewrite Hday. unfold uptimeDay, hour, minute, second. lia.
  - pose proof (db_time_le to). unfold db_time, of_unix in *. pose proof second_pos. nia.
  - apply Hpct. lia.
  - apply count_bounds.
Qed.

(** *** Containers *)

Definition ct_day (transitions : list StateTransition) (dataStart to day : Z) : option dayUptime :=
  let stop := Z.min (day + uptimeDay) to in
  let start := Z.max day dataStart in
  if bool_decide (stop ≤ start) then None
  else Some (MkDayUptime (computeUptime transitions start stop) (countContainerIncidents transitions start stop)).

Lemma container_days_lookup transitions ds from to :
  midnight from →
  let days := container_days transitions ds from to in
  (∀ d, d ∈ days_from from to uptimeDay → days !! unix d = ct_day transitions ds to d)
  ∧ (∀ k v, days !! k = Some v → ∃ d, d ∈ days_from from to uptimeDay ∧ unix d = k ∧ ct_day transitions ds to d = Some v).
Proof.
  intros Hm. cbv zeta. unfold container_days. eapply (foldl_days_elem unix (ct_day transitions ds to)).
  - intros out d. cbn beta zeta. unfold ct_day. by case_bool_decide.
  - intros d d' (i & _ & -> & _)%days_from_elem (j & _ & -> & _)%days_from_elem E; [|done..].
    rewrite <- (midnight_unix (from + uptimeDay * i)), <- (midnight_unix (from + uptimeDay * j)) by by apply midnight_add.
    by rewrite E.
Qed.

Lemma computeUptime_bounds transitions from to : 0 ≤ computeUptime transitions from to ≤ 10000.
Proof.
  unfold computeUptime. case_bool_decide as H; [lia|]. destruct transitions as [|t l]; [lia|].
  assert (∀ l, 0 ≤ up_time from to l) as Hup.
  { clear. induction l as [|t l IH]; [done|]. cbn [up_time]. case_bool_decide; [lia|]. destruct (isUp t); lia. }
  split; [|lia]. apply Z.min_glb; [done|]. apply Z.div_pos; [|lia]. specialize (Hup (t :: l)). lia.
Qed.

Lemma container_day_sound id from to s d v :
  midnight from → container_raw id from to s !! d = Some v → day_sound from to d v.
Proof.
  intros Hm. unfold container_raw. destruct (negb _); [intros Hd; by rewrite lookup_empty in Hd|].
  destruct (option_list _ ++ _) as [|t l]; [intros Hd; by rewrite lookup_empty in Hd|].
  intros (day & Hin & <- & Hday)%container_days_lookup; [|done].
  apply days_from_elem in Hin as (i & Hi & -> & Hlt); [|done].
  unfold ct_day in Hday. case_bool_decide; [done|]. injection Hday as <-.
  pose proof (midnight_add from i Hm) as Hmi. split; rewrite ?midnight_unix by done; cbn; try done.
  - unfold uptimeDay, hour, minute, second. lia.
  - apply computeUptime_bounds.
  - apply count_bounds.
Qed.

(** What the raw rows of [s] may be. *)
Definition periods_ok (s : history) : Prop := Forall (λ h, 0 ≤ hb_IntervalSeconds h + hb_GraceSeconds h) (hy_heartbeats s).

Lemma raw_day_sound t id from to s d v :
  0 ≤ from → midnight from → periods_ok s → raw_of t id from to s !! d = Some v → day_sound from to d v.
Proof.
  intros H0 Hm Hp. destruct t.
  - apply tally_sound; [done..|]. unfold checks_between. intros r Hr. rewrite order_by_elem in Hr.
    apply select_where_elem in Hr as [_ Hin]. unfold check_in in Hin. rewrite !andb_true_iff, !bool_decide_eq_true in Hin. tauto.
  - apply heartbeat_day_sound; [done|]. unfold period_of. intros p (h & Hh & ->)%fmap_Some_1.
    apply select_id_Some in Hh as [Hh _]. by apply (proj1 (Forall_forall _ _) Hp).
  - by apply container_day_sound.
Qed.

(** ** What a rollup writes *)

Definition until_or (until : option Z) (to : Z) : Z := match until with Some u => Z.min u to | None => to end.

Section Rollup.
Context (visit : dayUptimes → list (Z * dayUptime)) (visits_all : ∀ m, visit m ≡ₚ map_to_list m).

Definition rolled_days (t : uptimeTable) (s : history) (from today : Z) (m : uptimeMonitor) : dayUptimes :=
  let to := until_or (um_until m) today in
  if bool_decide (to ≤ from) then ∅ else raw_of t (um_id m) from to s.

Lemma visit_nil : visit ∅ = [].
Proof. apply Permutation_nil_r. by rewrite visits_all, map_to_list_empty. Qed.

Lemma aggregates_answer t from today ms :
  answers (aggregates visit (compute_of t) from today ms)
    (λ s, ms ≫= λ m, (um_id m,.) <$> visit (rolled_days t s from today m)).
Proof.
  induction ms as [|m ms IH]; [apply answers_ret|]. cbn [aggregates]. cbv zeta.
  change (match um_until m with Some u => Z.min u today | None => today end) with (until_or (um_until m) today).
  destruct (bool_decide (until_or (um_until m) today ≤ from)) eqn:Hto.
  - eapply answers_ext; [apply IH|]. intros s. rewrite bind_cons. unfold rolled_days at 2. by rewrite Hto, visit_nil.
  - eapply answers_ext.
    + eapply (answers_bind _ _ _ (λ days s, ((um_id m,.) <$> visit days) ++
        (ms ≫= λ m, (um_id m,.) <$> visit (rolled_days t s from today m)))); [apply compute_of_answers|]. intros days.
      eapply (answers_bind _ _ _ (λ rest _, ((um_id m,.) <$> visit days) ++ rest)); [apply IH|]. intros rest. apply answers_ret.
    + intros s. cbn beta. rewrite bind_cons. f_equal. unfold rolled_days. by rewrite Hto.
Qed.

Definition aggregated (r : daily_row) : string * (Z * dayUptime) := (dr_Monitor r, (dr_Day r, dr_Uptime r)).

Lemma with_ids_spec l w : wp (with_ids l) (λ rows w', same w w' ∧ aggregated <$> rows = l) w.
Proof.
  revert w. induction l as [|[m [day v]] l IH]; intros w; [by apply wp_ret; split; [apply same_refl|]|].
  cbn [with_ids]. apply wp_bind, wp_new_uid. intros w1 Hw1 _. apply wp_bind. eapply wp_mono; [apply IH|].
  intros rows w2 [Hw2 Hr]. apply wp_ret. split; [by eapply same_trans|]. cbn. by rewrite Hr.
Qed.

Lemma stored_at_aggregated rows id day :
  stored_at rows id day = last (filter (λ p, p.1 = id ∧ p.2.1 = day) (aggregated <$> rows)) ≫= λ p, Some p.2.2.
Proof.
  unfold stored_at. induction rows as [|r rows IH] using rev_ind; [done|].
  rewrite fmap_app, !filter_app. cbn [fmap list_fmap]. rewrite !filter_cons, !filter_nil.
  destruct (decide (keyed id day r)) as [Hk|Hk].
  - rewrite decide_True by done. by rewrite !last_snoc.
  - rewrite decide_False by done. by rewrite !app_nil_r.
Qed.

Definition monitor_of (ms : list uptimeMonitor) (id : string) : option uptimeMonitor :=
  head (filter (λ m, um_id m = id) ms).

Lemma visited_day (days : dayUptimes) id day :
  last (filter (λ p : string * (Z * dayUptime), p.1 = id ∧ p.2.1 = day) ((id,.) <$> visit days)) ≫= (λ p, Some p.2.2)
  = days !! day.
Proof.
  assert (∀ d v, (d, v) ∈ visit days ↔ days !! d = Some v) as Hin.
  { intros d v. rewrite visits_all. apply elem_of_map_to_list. }
  destruct (last _) as [[i [d v]]|] eqn:Hl; cbn.
  - apply last_Some_elem_of, list_elem_of_filter in Hl as [[? ?] Hv]. cbn in *. subst d.
    apply list_elem_of_fmap in Hv as ([d' v'] & E & Hv). injection E as ???; subst. symmetry. by apply Hin.
  - apply last_None in Hl. destruct (days !! day) as [v|] eqn:Hd; [|done]. exfalso.
    assert ((id, (day, v)) ∈ filter (λ p : string * (Z * dayUptime), p.1 = id ∧ p.2.1 = day) ((id,.) <$> visit days)) as Hx.
    { apply list_elem_of_filter. split; [done|]. by apply list_elem_of_fmap_2, Hin. }
    rewrite Hl in Hx. by apply elem_of_nil in Hx.
Qed.

Lemma rolled_lookup (D : uptimeMonitor → dayUptimes) ms id day :
  NoDup (um_id <$> ms) →
  last (filter (λ p : string * (Z * dayUptime), p.1 = id ∧ p.2.1 = day) (ms ≫= λ m, (um_id m,.) <$> visit (D m)))
    ≫= (λ p, Some p.2.2) = monitor_of ms id ≫= λ m, D m !! day.
Proof.
  unfold monitor_of. induction ms as [|m ms IH]; [done|]. rewrite fmap_cons, NoDup_cons. intros [Hm Hnd].
  rewrite bind_cons, filter_app, filter_cons. destruct (decide (um_id m = id)) as [<-|Hne].
  - rewrite (list_filter_none _ (ms ≫= _)), app_nil_r; [apply visited_day|].
    intros [i [d v]] Hin [Hi _]. cbn in Hi. apply list_elem_of_bind in Hin as (m' & Hx & Hm').
    apply list_elem_of_fmap in Hx as ([d' v'] & E & _). injection E as ???; subst. apply Hm.
    rewrite <- Hi. by apply list_elem_of_fmap_2.
  - rewrite (list_filter_none _ ((um_id m,.) <$> _)); [by apply IH|].
    intros [i [d v]] Hin [Hi _]. apply list_elem_of_fmap in Hin as ([d' v'] & E & _). cbn in Hi. congruence.
Qed.

(** The same raw rows and the same other aggregates. *)
Definition raw_kept (s s' : history) : Prop :=
  s' = s <| hy_endpoint_daily := hy_endpoint_daily s' |> <| hy_heartbeat_daily := hy_heartbeat_daily s' |>
         <| hy_container_daily := hy_container_daily s' |>.

Definition monitors_of (t : uptimeTable) (s : history) : list uptimeMonitor :=
  match t with
  | endpointUptimeTable => (λ e, MkMonitor (ep_ID e) None) <$> hy_endpoints s
  | heartbeatUptimeTable => (λ h, MkMonitor (hb_ID h) None) <$> hy_heartbeats s
  | containerUptimeTable => (λ c, MkMonitor (ct_ID c) (archived_since c)) <$> hy_containers s
  end.

Definition rollup_of (t : uptimeTable) (now rawRetention : Z) : M history (result unit) :=
  match t with
  | endpointUptimeTable => rollupEndpoints visit now rawRetention
  | heartbeatUptimeTable => rollupHeartbeats visit now rawRetention
  | containerUptimeTable => rollupContainers visit now rawRetention
  end.

(** The first day a rollup writes. *)
Definition first_rolled (t : uptimeTable) (now rawRetention : Z) (s : history) : Z :=
  rollup_from now rawRetention (max_of (dr_Day <$> daily_table t s)).

Definition rolled (t : uptimeTable) (s : history) (now rawRetention : Z) (id : string) (day : Z) : option dayUptime :=
  monitor_of (monitors_of t s) id ≫= λ m,
    rolled_days t s (first_rolled t now rawRetention s) (startOfUTCDay now) m !! day.

Lemma daily_table_set t t' f s :
  daily_table t' (set_daily t f s) = if bool_decide (t' = t) then f (daily_table t' s) else daily_table t' s.
Proof. by destruct t, t'. Qed.

Lemma rollup_spec t w now rawRetention :
  NoDup (um_id <$> monitors_of t (w_st w)) →
  wp (rollup_of t now rawRetention) (λ r w', w_env w' = w_env w ∧
    match r with
    | Err _ => ¬ fault_free w ∧ w_st w' = w_st w
    | Ok _ =>
      (∃ news, w_st w' = set_daily t (λ rows, foldl upsert_daily rows news) (w_st w)
         ∧ ∀ id day, stored_at news id day = rolled t (w_st w) now rawRetention id day)
    end) w.
Proof.
  intros Hnd. assert (rollup_of t now rawRetention w = rollup_monitors visit t (compute_of t) now rawRetention w) as E
    by by destruct t. apply (wp_ext _ _ _ _ E). clear E.
  assert (∀ w1 w' : world history, w_env w1 = w_env w → same w w' → ¬ fault_free w1 →
    w_env w' = w_env w ∧ ¬ fault_free w ∧ w_st w' = w_st w) as Herr.
  { intros w1 w' He1 (Hs & He & _) Hff. split_and!; [done| |done]. intros Hf. apply Hff. by eapply fault_free_env. }
  unfold rollup_monitors, monitors, rollup. apply wp_bind, wp_db_query.
  { intros w1 Hw1 Hff. apply wp_ret. by apply (Herr w). }
  intros w1 Hw1. apply wp_bind, wp_db_query.
  { intros w2 Hw2 Hff. apply wp_ret. apply (Herr w1); [apply Hw1|by eapply same_trans|done]. }
  intros w2 Hw2. cbv zeta. apply wp_bind. eapply wp_mono; [apply aggregates_answer|].
  change (match t with
          | endpointUptimeTable => (λ e, MkMonitor (ep_ID e) None) <$> hy_endpoints (w_st w)
          | heartbeatUptimeTable => (λ h, MkMonitor (hb_ID h) None) <$> hy_heartbeats (w_st w)
          | containerUptimeTable => (λ c, MkMonitor (ct_ID c) (archived_since c)) <$> hy_containers (w_st w)
          end) with (monitors_of t (w_st w)).
  rewrite (proj1 Hw1). fold (first_rolled t now rawRetention (w_st w)).
  pose proof (same_trans _ _ _ Hw1 Hw2) as Hw12. rewrite (proj1 Hw12).
  intros [rows|e] w3 [Hw3 Hr]; pose proof (same_trans _ _ _ Hw12 Hw3) as Hw13; clear Hw3.
  2: { apply wp_ret. by apply (Herr w2); [apply Hw12|..]. }
  assert (∀ id day, last (filter (λ p : string * (Z * dayUptime), p.1 = id ∧ p.2.1 = day) rows) ≫= (λ p, Some p.2.2)
    = rolled t (w_st w) now rawRetention id day) as Hlook.
  { intros id day. subst rows. by apply rolled_lookup. }
  destruct (bool_decide_reflect (rows = [])) as [Hnil|_].
  - apply wp_ret. split; [apply Hw13|]. exists []. split.
    + rewrite (proj1 Hw13). by destruct t, (w_st w).
    + intros id day. rewrite <- Hlook, Hnil. done.
  - apply wp_bind. eapply wp_mono; [apply with_ids_spec|]. intros news w4 [Hw4 Hnews].
    pose proof (same_trans _ _ _ Hw13 Hw4) as Hw14. apply wp_db_exec.
    + intros w5 Hw5 Hff. apply (Herr w4); [apply Hw14|by eapply same_trans|done].
    + intros w5 (Hs5 & He5 & _). split; [rewrite He5; apply Hw14|]. exists news. rewrite (proj1 Hw14) in Hs5. split; [done|].
      intros id day. by rewrite stored_at_aggregated, Hnews.
Qed.

(** The days of the aggregates are midnights. *)
Definition days_ok (t : uptimeTable) (s : history) : Prop := Forall (λ r, midnight (of_unix (dr_Day r))) (daily_table t s).

Lemma max_of_elem l z : max_of l = Some z → z ∈ l.
Proof.
  revert z. induction l as [|x l IH]; intros z; [done|].
  change (max_of (x :: l)) with (Some (match max_of l with Some m => Z.max x m | None => x end)). intros [= <-].
  destruct (max_of l) as [m|]; [|by left]. specialize (IH m eq_refl).
  destruct (Z.max_spec x m) as [[_ ->]|[_ ->]]; [by right|by left].
Qed.

Lemma max_of_ge l z : z ∈ l → ∃ m, max_of l = Some m ∧ z ≤ m.
Proof.
  induction l as [|x l IH]; [by intros ?%elem_of_nil|].
  change (max_of (x :: l)) with (Some (match max_of l with Some m => Z.max x m | None => x end)). intros [->|Hz]%elem_of_cons.
  - eexists. split; [done|]. destruct (max_of l); lia.
  - destruct (IH Hz) as (m & -> & Hm). eexists. split; [done|]. lia.
Qed.

Lemma first_rolled_ok t s now rawRetention :
  days_ok t s → 
  midnight (first_rolled t now rawRetention s)
  ∧ startOfUTCDay (now - rawRetention) + uptimeDay ≤ first_rolled t now rawRetention s.
Proof.
  intros Hd. unfold first_rolled, rollup_from. cbv zeta.
  assert (midnight (startOfUTCDay (now - rawRetention) + uptimeDay)) as HA.
  { pose proof (midnight_add _ 1 (startOfUTCDay_midnight (now - rawRetention))) as H. by rewrite Z.mul_1_r in H. }
  destruct (max_of _) as [d|] eqn:Hmax; [|by split].
  apply max_of_elem, list_elem_of_fmap in Hmax as (r & -> & Hr). unfold days_ok in Hd. rewrite Forall_forall in Hd.
  specialize (Hd r Hr). split; [|lia]. destruct (Z.max_spec (of_unix (dr_Day r)) (startOfUTCDay (now - rawRetention) + uptimeDay)) as [[_ ->]|[_ ->]]; done.
Qed.

Lemma rolled_sound t s now rawRetention id day v :
  days_ok t s → periods_ok s → 0 ≤ now - rawRetention → rolled t s now rawRetention id day = Some v →
  day_sound (startOfUTCDay (now - rawRetention) + uptimeDay) (startOfUTCDay now) day v.
Proof.
  intros Hd Hp Hnow (m & _ & Hv)%bind_Some. destruct (first_rolled_ok t s now rawRetention Hd) as [Hm HA].
  unfold rolled_days in Hv. cbv zeta in Hv. case_bool_decide; [by rewrite lookup_empty in Hv|].
  assert (0 ≤ startOfUTCDay (now - rawRetention)).
  { unfold startOfUTCDay. apply Z.mul_nonneg_nonneg; [done|]. by apply Z.div_pos. }
  assert (0 ≤ uptimeDay) by done.
  apply raw_day_sound in Hv as [S1 S2 S3 S4 S5]; [|lia|done..].
  split; [done|lia| |done..]. unfold until_or in S3. destruct (um_until m); lia.
Qed.

Lemma upsert_days rows news :
  Forall (λ r, midnight (of_unix (dr_Day r))) rows → Forall (λ r, midnight (of_unix (dr_Day r))) news →
  Forall (λ r, midnight (of_unix (dr_Day r))) (foldl upsert_daily rows news).
Proof.
  intros Hr. induction news as [|new news IH] using rev_ind; [done|]. rewrite Forall_app, Forall_singleton. intros [Hn Hnew].
  rewrite foldl_app. cbn [foldl]. unfold upsert_daily. cbv zeta. destruct (existsb _ _).
  - unfold update_where. apply Forall_fmap. eapply Forall_impl; [by apply IH|]. intros r Hm. cbn. by destruct (_ && _).
  - apply Forall_app. split; [by apply IH|]. by apply Forall_singleton.
Qed.

(** C22: a rollup writes exactly the completed days.  When it succeeds, whatever the
    order in which the days are visited, the raw rows and the other aggregates are
    as before, and the aggregate of every monitor and day is the uptime computed
    from the raw rows where that has one, and what it was otherwise; the days
    written are those of midnight to midnight before today, none of them a day whose
    raw rows retention may have begun to delete, each with a percentage between 0
    and 100.  When it fails, nothing has changed. *)
Theorem rollup_exact t w now rawRetention :
  let s := w_st w in
  NoDup (um_id <$> monitors_of t s) → periods_ok s → days_ok t s → 0 ≤ now - rawRetention →
  wp (rollup_of t now rawRetention) (λ r w',
    match r with
    | Err _ => ¬ fault_free w ∧ w_st w' = s
    | Ok _ =>
      (∃ rows, w_st w' = set_daily t (λ _, rows) s) ∧ days_ok t (w_st w')
      ∧ ∀ id day,
          stored t (w_st w') id day =
            match rolled t s now rawRetention id day with Some v => Some v | None => stored t s id day end
          ∧ ∀ v, rolled t s now rawRetention id day = Some v →
              day_sound (startOfUTCDay (now - rawRetention) + uptimeDay) (startOfUTCDay now) day v
    end) w.
Proof.
  cbv zeta. intros Hnd Hp Hd Hnow. eapply wp_mono; [by apply rollup_spec|]. intros [[]|e] w' [_ H]; [|done].
  destruct H as (news & -> & Hnews). split_and!.
  - exists (foldl upsert_daily (daily_table t (w_st w)) news). by destruct t.
  - unfold days_ok. rewrite daily_table_set, bool_decide_eq_true_2 by done. apply upsert_days; [done|].
    apply Forall_forall. intros r Hr. destruct (stored_at_row news r Hr) as [v Hs]. rewrite Hnews in Hs. by eapply rolled_sound.
  - intros id day. split.
    + unfold stored. rewrite daily_table_set, bool_decide_eq_true_2 by done. by rewrite stored_upserts, Hnews.
    + intros v. by apply rolled_sound.
Qed.
End Rollup.

(** ** Examples *)

Module RollupExample.
(** An endpoint checked three times on the second of January 2026, down the last time. *)
Definition jan (d : Z) : Z := of_unix (1767225600 + (d - 1) * secondsPerDay).
Definition check (d h : Z) (up : bool) : CheckResult :=
  MkCheckResult "" "e" up 0 None "" (jan d + h * hour) false "" "" false.
Definition endpoint : Endpoint :=
  MkEndpoint "e" "" "" "" "http" "https://e/" "up" "normal" 0 0 None None None "" DefaultConfig true 0 0 "standalone" "" "".
Definition s0 : history :=
  empty_history <| hy_endpoints := [endpoint] |>
                <| hy_checks := [check 2 9 true; check 2 10 true; check 2 11 false] |>.
Definition w0 : world history := calm_world 0 s0.
Definition this_morning : Z := jan 3 + 6 * hour.

Lemma rollup_exact_witness :
  let w' := (rollup_of map_to_list endpointUptimeTable this_morning (30 * uptimeDay) w0).2 in
  stored endpointUptimeTable (w_st w') "e" (unix (jan 2)) = Some (MkDayUptime 6667 1)
  ∧ stored endpointUptimeTable (w_st w') "e" (unix (jan 3)) = None.
Proof.
  cbv zeta.
  assert (NoDup (um_id <$> monitors_of endpointUptimeTable (w_st w0))) as Hnd by (apply NoDup_singleton).
  pose proof (rollup_exact map_to_list (λ m, reflexivity _) endpointUptimeTable w0 this_morning (30 * uptimeDay)
    Hnd (Forall_nil_2 _) (Forall_nil_2 _) ltac:(done)) as H.
  unfold wp in H. assert ((rollup_of map_to_list endpointUptimeTable this_morning (30 * uptimeDay) w0).1 = Ok tt) as Hok
    by (vm_compute; reflexivity).
  rewrite Hok in H. destruct H as (_ & _ & H). split.
  - rewrite (proj1 (H "e" (unix (jan 2)))). vm_compute. reflexivity.
  - rewrite (proj1 (H "e" (unix (jan 3)))). vm_compute. reflexivity.
Defined.
End RollupExample.
