(* ===== verification/UptimeCorrect.v ===== *)
(** * The uptime served is that of the raw rows

    For the containers, the value of a day does not depend on the window it is
    computed in ([container_raw_window]), so that the nightly aggregates can stand
    for the transitions they are computed from; for the heartbeats, what the
    computation reads and replays gives each day its exact share of time up. *)

From S2P Require Import Prelude.
From S2P Require Import Tables.
From S2P Require Import GoStrings.
From S2P Require Import AlertModel.
From S2P Require Import GoTime.
From S2P Require Import Heartbeat.
From S2P Require Import Container.
From S2P Require Import ContainerStore.
From S2P Require Import Uptime.
From S2P Require Import UptimeDaily.
From S2P Require Import UptimeRollup.

#[local] Open Scope string_scope.
#[local] Open Scope list_scope.
#[local] Open Scope Z_scope.

(** ** The day of a container, whatever the window *)

Definition history_of (id : string) (s : history) : list StateTransition :=
  select_where (λ t, bool_decide (st_ContainerID t = id)) (hy_transitions s).

(** No two transitions of a container at the same time. *)
Definition one_at_a_time (id : string) (s : history) : Prop := NoDup (st_Timestamp <$> history_of id s).

Definition known_before (id : string) (stop : Z) (s : history) : list StateTransition :=
  order_by st_Timestamp (select_where (λ t, bool_decide (unix (st_Timestamp t) < unix stop)) (history_of id s)).

(** The uptime of a day that ends at [to] at the latest, from all transitions. *)
Definition day_value (id : string) (s : history) (to day : Z) : option dayUptime :=
  match known_before id (Z.min (day + uptimeDay) to) s with
  | [] => None
  | (first :: _) as transitions => ct_day transitions (st_Timestamp first) to day
  end.

Lemma unix_lt_midnight t m : midnight m → unix t < unix m ↔ t < m.
Proof. intros Hm. pose proof (unix_le_iff (unix m) t) as H. rewrite midnight_unix in H by done. lia. Qed.

Lemma one_transition id s t u :
  one_at_a_time id s → t ∈ history_of id s → u ∈ history_of id s → st_Timestamp t = st_Timestamp u → t = u.
Proof.
  unfold one_at_a_time. induction (history_of id s) as [|x l IH]; [by intros ? ?%elem_of_nil|].
  rewrite fmap_cons, NoDup_cons. intros [Hx Hnd] Ht Hu E.
  apply elem_of_cons in Ht as [->|Ht], Hu as [->|Hu]; [done| | |by apply IH].
  - exfalso. apply Hx. rewrite E. by apply list_elem_of_fmap_2.
  - exfalso. apply Hx. rewrite <- E. by apply list_elem_of_fmap_2.
Qed.

Lemma history_NoDup id s : one_at_a_time id s → NoDup (history_of id s).
Proof. apply NoDup_fmap_1. Qed.

(** The transition a container is in at [x] is the latest one. *)
Lemma up_at_latest l x t :
  in_order l → t ∈ l → st_Timestamp t ≤ x → (∀ u, u ∈ l → st_Timestamp u ≤ x → st_Timestamp u ≤ st_Timestamp t) →
  (∀ u, u ∈ l → st_Timestamp u = st_Timestamp t → u = t) → up_at l x = isUp t.
Proof.
  intros Hs Ht Htx Hmax Huniq. unfold up_at. destruct (last _) as [u|] eqn:Hl.
  - apply last_Some in Hl as [l' Hl']. assert (u ∈ filter (λ t, st_Timestamp t ≤ x) l) as Hu by (rewrite Hl'; set_solver).
    apply list_elem_of_filter in Hu as [Hux Hu]. f_equal. apply Huniq; [done|]. apply Z.le_antisymm; [by apply Hmax|].
    assert (t ∈ l' ++ [u]) as Hin by (rewrite <- Hl'; by apply list_elem_of_filter).
    apply elem_of_app in Hin as [Hin|Hin%list_elem_of_singleton]; [|by subst].
    assert (StronglySorted (λ t u, st_Timestamp t ≤ st_Timestamp u) (l' ++ [u])) as Hsf.
    { rewrite <- Hl'. unfold in_order in Hs. clear -Hs. induction Hs as [|y l Hs IH Hy]; [constructor|].
      rewrite filter_cons. case_decide; [|done]. constructor; [done|]. rewrite Forall_forall in Hy |- *.
      intros z [_ Hz]%list_elem_of_filter. by apply Hy. }
    apply StronglySorted_app in Hsf as [Hcross _]. by apply Hcross; [|left].
  - exfalso. apply last_None in Hl. assert (t ∈ filter (λ t, st_Timestamp t ≤ x) l) as Hin by by apply list_elem_of_filter.
    rewrite Hl in Hin. by apply elem_of_nil in Hin.
Qed.

Lemma up_at_some l x t0 :
  t0 ∈ l → st_Timestamp t0 ≤ x → in_order l →
  ∃ t, t ∈ l ∧ st_Timestamp t ≤ x ∧ up_at l x = isUp t ∧ ∀ u, u ∈ l → st_Timestamp u ≤ x → st_Timestamp u ≤ st_Timestamp t.
Proof.
  intros H0 H0x Hs. unfold up_at. induction l as [|u l IH] using rev_ind; [by apply elem_of_nil in H0|].
  apply StronglySorted_app in Hs as (Hcross & Hs & _). rewrite filter_app, filter_cons, filter_nil.
  destruct (decide (st_Timestamp u ≤ x)) as [Hu|Hu].
  - exists u. rewrite last_snoc. split_and!; [set_solver|done..|].
    intros v [Hv|Hv%list_elem_of_singleton]%elem_of_app _; [|by subst]. apply Hcross; [done|by left].
  - rewrite app_nil_r. apply elem_of_app in H0 as [H0|H0%list_elem_of_singleton]; [|by subst].
    destruct (IH H0 Hs) as (t & ? & ? & ? & Hmax). exists t. split_and!; [set_solver|done..|].
    intros v [Hv|Hv%list_elem_of_singleton]%elem_of_app Hvx; [by apply Hmax|by subst].
Qed.

Lemma count_same {A} (p : A → bool) l1 l2 :
  NoDup l1 → NoDup l2 → (∀ x, p x = true → x ∈ l1 ↔ x ∈ l2) → count p l1 = count p l2.
Proof.
  intros H1 H2 H. unfold count. f_equal. apply Permutation_length, NoDup_Permutation; [by apply NoDup_filter..|].
  intros x. rewrite !list_elem_of_filter. specialize (H x). tauto.
Qed.

Lemma by_time_sorted l : in_order (order_by st_Timestamp l).
Proof. apply (StronglySorted_merge_sort (by_key st_Timestamp)); apply _. Qed.

Lemma known_before_elem id stop s t :
  t ∈ known_before id stop s ↔ t ∈ history_of id s ∧ unix (st_Timestamp t) < unix stop.
Proof. unfold known_before. rewrite order_by_elem, select_where_elem, bool_decide_eq_true. done. Qed.

Lemma known_before_NoDup id stop s : one_at_a_time id s → NoDup (known_before id stop s).
Proof.
  intros H. unfold known_before, order_by. rewrite merge_sort_Permutation. apply NoDup_filter. by apply history_NoDup.
Qed.

(** The transitions [containerDays] reads: the last one before the window and those in it. *)
Definition read_of (id : string) (from to : Z) (s : history) : list StateTransition :=
  option_list (seed_before id from s) ++ transitions_between id from to s.

Lemma midnight_diff from day to : midnight from → midnight day → from ≤ day → day < to →
  ∃ i, 0 ≤ i ∧ day = from + uptimeDay * i ∧ day < to.
Proof.
  unfold midnight. intros [i ->]%Z.mod_divide [j ->]%Z.mod_divide ? ?; [|done..]. exists (j - i).
  assert (0 < uptimeDay) by done. split_and!; [nia|lia|done].
Qed.

Section Window.
Context (id : string) (s : history) (from to : Z).
Context (Hm : midnight from) (Hone : one_at_a_time id s).

Lemma seed_Some sd :
  seed_before id from s = Some sd →
  sd ∈ history_of id s ∧ st_Timestamp sd < from ∧ ∀ t, t ∈ history_of id s → st_Timestamp t < from → st_Timestamp t ≤ st_Timestamp sd.
Proof.
  unfold seed_before. set (l := select_where _ _). intros Hh.
  assert (∀ t, t ∈ l ↔ t ∈ history_of id s ∧ st_Timestamp t < from) as Hl.
  { intros t. unfold l, history_of. rewrite !select_where_elem, andb_true_iff, !bool_decide_eq_true.
    rewrite (unix_lt_midnight _ _ Hm). tauto. }
  assert (∀ t, t ∈ merge_sort latest_first l ↔ t ∈ l) as Hp by (intros t; by rewrite merge_sort_Permutation).
  pose proof (StronglySorted_merge_sort latest_first l) as Hs.
  destruct (merge_sort latest_first l) as [|x rest]; [done|]. injection Hh as ->.
  assert (sd ∈ l) as Hsd by (apply Hp; by left). apply Hl in Hsd as [Hsd Hlt]. split_and!; [done..|].
  intros t Ht Htl. assert (t ∈ sd :: rest) as Hin by (by apply Hp, Hl). apply elem_of_cons in Hin as [->|Hin]; [done|].
  apply StronglySorted_inv in Hs as [_ Hall]. rewrite Forall_forall in Hall. specialize (Hall t Hin).
  unfold latest_first, by_key in Hall. lia.
Qed.

Lemma seed_None : seed_before id from s = None → ∀ t, t ∈ history_of id s → from ≤ st_Timestamp t.
Proof.
  unfold seed_before. intros Hh t Ht. apply Z.nlt_ge. intros Hlt. apply head_None in Hh.
  assert (t ∈ merge_sort latest_first (select_where (λ t, bool_decide (st_ContainerID t = id)
    && bool_decide (unix (st_Timestamp t) < unix from)) (hy_transitions s))) as Hin.
  { rewrite merge_sort_Permutation. unfold history_of in Ht. rewrite select_where_elem, bool_decide_eq_true in Ht.
    rewrite select_where_elem, andb_true_iff, !bool_decide_eq_true, (unix_lt_midnight _ _ Hm). tauto. }
  rewrite Hh in Hin. by apply elem_of_nil in Hin.
Qed.

Lemma between_elem t :
  t ∈ transitions_between id from to s ↔
  t ∈ history_of id s ∧ from ≤ st_Timestamp t ∧ unix (st_Timestamp t) < unix to.
Proof.
  unfold transitions_between, history_of. rewrite order_by_elem, !select_where_elem, !andb_true_iff, !bool_decide_eq_true.
  pose proof (unix_lt_midnight (st_Timestamp t) _ Hm). split; intros; split_and!; tauto || lia.
Qed.

Lemma read_elem t :
  t ∈ read_of id from to s ↔ seed_before id from s = Some t
    ∨ (t ∈ history_of id s ∧ from ≤ st_Timestamp t ∧ unix (st_Timestamp t) < unix to).
Proof.
  unfold read_of. rewrite elem_of_app, between_elem. destruct (seed_before id from s) as [sd|]; cbn.
  - rewrite list_elem_of_singleton. split; [intros [->|]|intros [[= ->]|]]; auto.
  - rewrite elem_of_nil. split; [intros [[]|]|intros [|]]; auto. done.
Qed.

Lemma read_history t : t ∈ read_of id from to s → t ∈ history_of id s.
Proof. intros [Ht|[? _]]%read_elem; [|done]. by apply seed_Some in Ht as [? _]. Qed.

Lemma read_in_order : in_order (read_of id from to s).
Proof.
  unfold read_of. apply StronglySorted_app. split_and!; [|by destruct (seed_before id from s); repeat constructor|apply by_time_sorted].
  intros t u Ht Hu%between_elem. destruct (seed_before id from s) as [sd|] eqn:Hsd; cbn in Ht; [|by apply elem_of_nil in Ht].
  apply list_elem_of_singleton in Ht as ->. apply seed_Some in Hsd as (_ & Hlt & _). lia.
Qed.

Lemma read_NoDup : NoDup (read_of id from to s).
Proof.
  unfold read_of. apply NoDup_app. split_and!.
  - destruct (seed_before id from s); cbn; [apply NoDup_singleton|constructor].
  - intros t Ht Hu%between_elem. destruct (seed_before id from s) as [sd|] eqn:Hsd; cbn in Ht; [|by apply elem_of_nil in Ht].
    apply list_elem_of_singleton in Ht as ->. apply seed_Some in Hsd as (_ & Hlt & _). lia.
  - unfold transitions_between, order_by. rewrite merge_sort_Permutation. unfold select_where. 
    pose proof (history_NoDup id s Hone) as Hnd.
    assert (filter (λ r, bool_decide (st_ContainerID r = id) && bool_decide (unix from ≤ unix (st_Timestamp r))
      && bool_decide (unix (st_Timestamp r) < unix to) = true) (hy_transitions s)
      = filter (λ r, bool_decide (unix from ≤ unix (st_Timestamp r)) && bool_decide (unix (st_Timestamp r) < unix to) = true)
          (history_of id s)) as ->.
    { unfold history_of, select_where. rewrite list_filter_filter. apply list_filter_iff. intros t.
      rewrite !andb_true_iff. tauto. }
    by apply NoDup_filter.
Qed.

(** A transition before the end of a day is known whichever window is read. *)
Lemma known_read stop t :
  midnight stop ∨ stop = to → from ≤ stop → stop ≤ to → t ∈ read_of id from to s → st_Timestamp t < stop → t ∈ known_before id stop s.
Proof.
  intros Hstop Hfs Hst Ht Hlt. apply known_before_elem. split; [by apply read_history|].
  destruct Hstop as [Hmid| ->]; [by apply unix_lt_midnight|].
  apply read_elem in Ht as [Ht|(_ & _ & Ht)]; [|done]. apply seed_Some in Ht as (_ & Ht & _).
  apply unix_lt_midnight in Ht; [|done]. apply unix_mono in Hfs. lia.
Qed.

Lemma read_known stop t :
  stop ≤ to → t ∈ known_before id stop s → from ≤ st_Timestamp t → t ∈ read_of id from to s.
Proof.
  intros Hst [Ht Hlt]%known_before_elem Hf. apply read_elem. right. split_and!; [done..|]. apply unix_mono in Hst. lia.
Qed.

Lemma known_lt stop t : t ∈ known_before id stop s → st_Timestamp t < stop.
Proof. intros [_ Hlt]%known_before_elem. apply Z.nle_gt. intros Hle. apply unix_mono in Hle. lia. Qed.

Lemma up_at_window stop x t0 :
  midnight stop ∨ stop = to → from ≤ stop → stop ≤ to → from ≤ x < stop →
  t0 ∈ known_before id stop s → st_Timestamp t0 ≤ x →
  up_at (read_of id from to s) x = up_at (known_before id stop s) x.
Proof.
  intros Hstop Hfs Hst Hx H0 H0x.
  destruct (up_at_some (known_before id stop s) x t0 H0 H0x) as (t & Ht & Htx & -> & Hmax); [apply by_time_sorted|].
  assert (t ∈ history_of id s) as Hth by by apply known_before_elem in Ht as [? _].
  apply up_at_latest; [apply read_in_order| |done| |].
  - destruct (decide (from ≤ st_Timestamp t)) as [Hf|Hf]; [by eapply read_known|]. apply read_elem. left.
    destruct (seed_before id from s) as [sd|] eqn:Hsd.
    + destruct (seed_Some sd Hsd) as (Hsh & Hslt & Hsmax). f_equal. apply (one_transition id s); [done..|].
      apply Z.le_antisymm; [|apply Hsmax; [done|lia]]. apply Hmax; [|lia].
      apply known_read; [done..| |lia]. apply read_elem. by left.
    + pose proof (seed_None Hsd t Hth). lia.
  - intros u Hu Hux. apply Hmax; [|done]. apply known_read; [done..|lia].
  - intros u Hu E. apply (one_transition id s); [done|by apply read_history|done|done].
Qed.

(** The value of a day does not depend on the window it is read in. *)
Lemma ct_day_window day first rest :
  midnight day → from ≤ day < to → read_of id from to s = first :: rest →
  ct_day (read_of id from to s)
    (match seed_before id from s with Some _ => from | None => st_Timestamp first end) to day = day_value id s to day.
Proof.
  intros Hd Hday Hread. unfold day_value. set (stop := Z.min (day + uptimeDay) to).
  assert (midnight stop ∨ stop = to) as Hstop.
  { destruct (Z.min_spec (day + uptimeDay) to) as [[_ E]|[_ E]]; [left|by right]. unfold stop. rewrite E.
    pose proof (midnight_add day 1 Hd) as H1. by rewrite Z.mul_1_r in H1. }
  assert (day < stop) as Hds by (unfold stop, uptimeDay, hour, minute, second; lia).
  assert (stop ≤ to) as Hst by (unfold stop; lia).
  assert (∀ t, t ∈ read_of id from to s → st_Timestamp first ≤ st_Timestamp t) as Hfirst.
  { intros t Ht. pose proof read_in_order as Hs. rewrite Hread in Ht, Hs. apply elem_of_cons in Ht as [->|Ht]; [done|].
    apply StronglySorted_inv in Hs as [_ Hall]. rewrite Forall_forall in Hall. by apply Hall. }
  assert (first ∈ read_of id from to s) as Hfr by (rewrite Hread; by left).
  destruct (known_before id stop s) as [|c0 crest] eqn:HC.
  - unfold ct_day. fold stop. rewrite bool_decide_eq_true_2; [done|].
    destruct (seed_before id from s) as [sd|] eqn:Hsd.
    + exfalso. assert (sd ∈ known_before id stop s) as Hin.
      { apply known_read; [done|lia|done|apply read_elem; by left|]. apply seed_Some in Hsd as (_ & ? & _). lia. }
      rewrite HC in Hin. by apply elem_of_nil in Hin.
    + enough (stop ≤ st_Timestamp first) by lia. apply Z.nlt_ge. intros Hlt.
      assert (first ∈ known_before id stop s) as Hin by (apply known_read; [done|lia|done..]).
      rewrite HC in Hin. by apply elem_of_nil in Hin.
  - rewrite <- HC.
    assert (c0 ∈ known_before id stop s) as Hc0 by (rewrite HC; by left).
    assert (∀ t, t ∈ known_before id stop s → st_Timestamp c0 ≤ st_Timestamp t) as Hc0min.
    { intros t Ht. pose proof (by_time_sorted (select_where (λ t, bool_decide (unix (st_Timestamp t) < unix stop)) (history_of id s))) as Hs.
      fold (known_before id stop s) in Hs. rewrite HC in Ht, Hs. apply elem_of_cons in Ht as [->|Ht]; [done|].
      apply StronglySorted_inv in Hs as [_ Hall]. rewrite Forall_forall in Hall. by apply Hall. }
    assert (Z.max day (match seed_before id from s with Some _ => from | None => st_Timestamp first end)
      = Z.max day (st_Timestamp c0)) as Hstart.
    { destruct (seed_before id from s) as [sd|] eqn:Hsd.
      - assert (sd ∈ known_before id stop s) as Hin.
        { apply known_read; [done|lia|done|apply read_elem; by left|]. apply seed_Some in Hsd as (_ & ? & _). lia. }
        apply Hc0min in Hin. apply seed_Some in Hsd as (_ & ? & _). lia.
      - pose proof (seed_None Hsd) as Hge. f_equal. apply Z.le_antisymm.
        + apply Hfirst. eapply read_known; [done..|]. apply Hge. by apply known_before_elem in Hc0 as [? _].
        + apply Hc0min. apply known_read; [done|lia|done..|].
          apply Z.le_lt_trans with (st_Timestamp c0); [|by apply known_lt]. apply Hfirst. eapply read_known; [done..|].
          apply Hge. by apply known_before_elem in Hc0 as [? _]. }
    unfold ct_day. fold stop. rewrite Hstart. set (start := Z.max day (st_Timestamp c0)) in *. case_bool_decide as Hss; [done|].
    f_equal. f_equal.
    + rewrite !computeUptime_amount; [|first [apply by_time_sorted|apply read_in_order|lia|by rewrite ?HC, ?Hread|
        unfold start, stop, max_int64, uptimeDay, hour, minute, second; lia]..].
      do 2 f_equal. apply amount_ext. intros x Hx. apply (up_at_window stop x c0); [done|lia|done|lia|done|lia].
    + apply count_same; [by apply read_NoDup|by apply known_before_NoDup|].
      intros t [Ht%bool_decide_eq_true _]%andb_true_iff. split; intros Hin.
      * apply known_read; [done|lia|done|done|lia].
      * eapply read_known; [done..|lia].
Qed.

Lemma container_raw_window day :
  midnight day → container_raw id from to s !! unix day = if bool_decide (from ≤ day) then day_value id s to day else None.
Proof.
  intros Hd. destruct (decide (from ≤ day < to)) as [Hday|Hday].
  - rewrite bool_decide_eq_true_2 by lia. unfold container_raw. rewrite bool_decide_eq_true_2 by lia. cbn [negb].
    fold (read_of id from to s). destruct (read_of id from to s) as [|first rest] eqn:Hread.
    + rewrite lookup_empty. unfold day_value. destruct (known_before _ _ s) as [|c0 crest] eqn:HC; [done|]. exfalso.
      assert (c0 ∈ known_before id (Z.min (day + uptimeDay) to) s) as Hc0 by (rewrite HC; by left).
      destruct (seed_before id from s) as [sd|] eqn:Hsd.
      * assert (sd ∈ read_of id from to s) as Hin by (apply read_elem; by left). rewrite Hread in Hin. by apply elem_of_nil in Hin.
      * assert (c0 ∈ read_of id from to s) as Hin.
        { eapply read_known; [|done|]; [lia|]. apply (seed_None Hsd). by apply known_before_elem in Hc0 as [? _]. }
        rewrite Hread in Hin. by apply elem_of_nil in Hin.
    + rewrite <- Hread. rewrite (proj1 (container_days_lookup _ _ _ _ Hm)); [by eapply ct_day_window|].
      apply days_from_elem; [done|]. apply midnight_diff; [done..|lia|lia].
  - destruct (container_raw id from to s !! unix day) as [v|] eqn:Hv.
    + apply container_day_sound in Hv as [_ H1 H2 _ _]; [|done]. rewrite midnight_unix in H1, H2 by done. lia.
    + case_bool_decide; [|done]. unfold day_value. destruct (known_before _ _ s); [done|]. unfold ct_day.
      rewrite bool_decide_eq_true_2 by lia. done.
Qed.
End Window.

(** ** What is served *)

Definition until_of (id : string) (s : history) : option Z := select_id id (hy_containers s) ≫= archived_since.

Definition window_start (days now : Z) : Z := startOfUTCDay now - uptimeDay * (clampUptimeDays days - 1).

Definition uptime_entry (day : Z) (v : option dayUptime) : DailyUptime :=
  match v with
  | Some v => MkDailyUptime (format_date day) (Some (du_percent v)) (du_incidents v)
  | None => MkDailyUptime (format_date day) None 0
  end.

(** The days of a container as its transitions alone have them. *)
Definition served (id : string) (days now : Z) (s : history) : list DailyUptime :=
  (λ i, let day := startOfUTCDay now - uptimeDay * i in
        uptime_entry day (day_value id s (until_or (until_of id s) now) day)) <$> seqZ 0 (clampUptimeDays days).

(** A whole day. *)
Definition full_day (id : string) (s : history) (day : Z) : option dayUptime :=
  day_value id s (until_or (until_of id s) (day + uptimeDay)) day.

Definition last_day (s : history) : option Z := max_of (dr_Day <$> hy_container_daily s).

(** The aggregates of a container agree with its transitions, from [start] to the
    last day aggregated. *)
Definition faithful (id : string) (start : Z) (s : history) : Prop := ∀ day,
  midnight day → start ≤ day →
  match stored containerUptimeTable s id (unix day) with
  | Some v => full_day id s day = Some v
  | None => (∃ l, last_day s = Some l ∧ day < of_unix l) → full_day id s day = None
  end.

Lemma day_value_to id s to to' day :
  Z.min (day + uptimeDay) to = Z.min (day + uptimeDay) to' → day_value id s to day = day_value id s to' day.
Proof. intros E. unfold day_value, ct_day. by rewrite E. Qed.

Lemma full_day_of id s to day :
  day + uptimeDay ≤ to → day_value id s (until_or (until_of id s) to) day = full_day id s day.
Proof. intros H. apply day_value_to. unfold until_or. destruct (until_of id s); lia. Qed.

Lemma clampUptimeDays_pos days : 0 < clampUptimeDays days.
Proof. unfold clampUptimeDays, maxUptimeDays. repeat case_bool_decide; lia. Qed.

(** *** The aggregates read *)

Definition days_stored (id : string) (from to : Z) (s : history) : dayUptimes :=
  foldl (λ m r, <[dr_Day r := dr_Uptime r]> m) ∅
    (select_where (λ r, bool_decide (dr_Monitor r = id) && bool_decide (unix from ≤ dr_Day r)
       && bool_decide (dr_Day r < unix to)) (hy_container_daily s)).

Lemma inserted_lookup rows (m : dayUptimes) d :
  foldl (λ m r, <[dr_Day r := dr_Uptime r]> m) m rows !! d =
  match last (filter (λ r, dr_Day r = d) rows) with Some r => Some (dr_Uptime r) | None => m !! d end.
Proof.
  induction rows as [|r rows IH] using rev_ind; [done|].
  rewrite foldl_app, filter_app, filter_cons, filter_nil. cbn [foldl].
  destruct (decide (dr_Day r = d)) as [<-|Hd].
  - by rewrite lookup_insert_eq, last_snoc.
  - by rewrite lookup_insert_ne, IH, app_nil_r by done.
Qed.

Lemma days_stored_lookup id from to s d :
  days_stored id from to s !! d =
  if bool_decide (unix from ≤ d < unix to) then stored containerUptimeTable s id d else None.
Proof.
  unfold days_stored. rewrite inserted_lookup, lookup_empty. unfold select_where. rewrite list_filter_filter.
  case_bool_decide as Hd.
  - unfold stored, stored_at. cbn [daily_table].
    rewrite (list_filter_iff _ (keyed id d)); [by destruct (last _)|].
    intros r. unfold keyed. rewrite !andb_true_iff, !bool_decide_eq_true. split; [tauto|]. intros [<- <-]. tauto.
  - rewrite list_filter_none; [done|]. intros r _. rewrite !andb_true_iff, !bool_decide_eq_true. intros (<- & [_ ?] & ?). tauto.
Qed.

Lemma stored_day_of t s id d v : stored t s id d = Some v → d ∈ dr_Day <$> daily_table t s.
Proof.
  unfold stored, stored_at. intros (r & Hr & ->)%fmap_Some_1.
  apply last_Some_elem_of, list_elem_of_filter in Hr as [[_ <-] Hr]. by apply list_elem_of_fmap_2.
Qed.

Lemma compute_from_spec start (m : dayUptimes) :
  start ≤ compute_from start m ∧ (∀ d, is_Some (m !! d) → of_unix d + uptimeDay ≤ compute_from start m)
  ∧ (compute_from start m = start ∨ ∃ d, is_Some (m !! d) ∧ compute_from start m = of_unix d + uptimeDay).
Proof.
  unfold compute_from. apply (map_fold_weak_ind (λ r m, start ≤ r ∧ (∀ d, is_Some (m !! d) → of_unix d + uptimeDay ≤ r)
    ∧ (r = start ∨ ∃ d, is_Some (m !! d) ∧ r = of_unix d + uptimeDay))).
  - split_and!; [done| |by left]. intros d [v Hv]. by rewrite lookup_empty in Hv.
  - intros d v m' r Hd (H1 & H2 & H3). split_and!; [lia| |].
    + intros d' Hd'. rewrite lookup_insert in Hd'. case_decide; [subst; lia|]. specialize (H2 d' Hd'). lia.
    + destruct (Z.max_spec (of_unix d + uptimeDay) r) as [[? ->]|[? ->]].
      * destruct H3 as [?|(d' & Hd' & ?)]; [by left|]. right. exists d'. split; [|done].
        rewrite lookup_insert. by case_decide.
      * right. exists d. by rewrite lookup_insert_eq.
Qed.

(** *** The list served *)

Definition computed_list (id : string) (days now : Z) (s : history) : list DailyUptime :=
  let stored := days_stored id (window_start days now) (startOfUTCDay now) s in
  let computed := container_raw id (compute_from (window_start days now) stored) (until_or (until_of id s) now) s in
  (λ i, day_entry stored computed (startOfUTCDay now - uptimeDay * i)) <$> seqZ 0 (clampUptimeDays days).

Lemma GetContainerDailyUptime_answers id days now :
  answers (GetContainerDailyUptime id days now) (computed_list id days now).
Proof.
  unfold GetContainerDailyUptime, containerUntil, computed_list. fold (until_of id).
  refine (answers_bind _ _ (until_of id) (λ ended s,
    let stored := days_stored id (window_start days now) (startOfUTCDay now) s in
    let computed := container_raw id (compute_from (window_start days now) stored) (until_or ended now) s in
    (λ i, day_entry stored computed (startOfUTCDay now - uptimeDay * i)) <$> seqZ 0 (clampUptimeDays days)) _ _);
    [apply answers_query|]. intros ended.
  refine (answers_bind _ _ (days_stored id (window_start days now) (startOfUTCDay now)) (λ stored s,
    let computed := container_raw id (compute_from (window_start days now) stored) (until_or ended now) s in
    (λ i, day_entry stored computed (startOfUTCDay now - uptimeDay * i)) <$> seqZ 0 (clampUptimeDays days)) _ _);
    [apply (answers_query (days_stored id (window_start days now) (startOfUTCDay now)))|]. intros stored.
  assert (∀ from, containerDays id from (match ended with Some u => if bool_decide (u < now) then u else now | None => now end)
    = containerDays id from (until_or ended now)) as Hto.
  { intros from. f_equal. destruct ended as [u|]; [|done]. cbn. case_bool_decide; lia. }
  cbv beta. fold (window_start days now). rewrite Hto.
  eapply (answers_bind _ _ _ (λ computed _,
    (λ i, day_entry stored computed (startOfUTCDay now - uptimeDay * i)) <$> seqZ 0 (clampUptimeDays days)));
    [apply containerDays_answers|]. intros computed. apply answers_ret.
Qed.

Lemma window_start_midnight days now : midnight (window_start days now).
Proof.
  unfold window_start. pose proof (midnight_add _ (- (clampUptimeDays days - 1)) (startOfUTCDay_midnight now)) as H.
  by rewrite Z.mul_opp_r in H.
Qed.

Section Served.
Context (id : string) (days now : Z).
Let start := window_start days now.
Let today := startOfUTCDay now.

(** The days stored before today, with those computed after them, are those of the
    transitions. *)
Lemma computed_list_served s :
  one_at_a_time id s → days_ok containerUptimeTable s → faithful id start s → computed_list id days now s = served id days now s.
Proof.
  intros Hone Hdays Hf. unfold computed_list, served. cbv zeta. apply list_fmap_ext. intros n i Hi.
  apply lookup_seqZ in Hi as [-> Hn]. fold start today.
  set (m := days_stored id start today s). set (from := compute_from start m).
  set (day := today - uptimeDay * (0 + Z.of_nat n)).
  assert (midnight start) as Hms by apply window_start_midnight.
  assert (midnight today) as Hmt by apply startOfUTCDay_midnight.
  assert (midnight day) as Hmd.
  { unfold day. pose proof (midnight_add today (- (0 + Z.of_nat n)) Hmt) as H. by rewrite Z.mul_opp_r in H. }
  assert (0 < uptimeDay) as Hpos by done.
  assert (start ≤ day ≤ today) as Hday by (unfold start, window_start, day; fold today; nia).
  pose proof (startOfUTCDay_bounds now) as Hnow. fold today in Hnow.
  assert (∀ d, is_Some (m !! d) → ∃ v, stored containerUptimeTable s id d = Some v ∧ midnight (of_unix d) ∧ d < unix today
    ∧ ∃ l, last_day s = Some l ∧ d ≤ l) as Hstored.
  { intros d [v Hv]. unfold m in Hv. rewrite days_stored_lookup in Hv. case_bool_decide as Hin; [|done].
    exists v. pose proof (stored_day_of _ _ _ _ _ Hv) as Hd. split_and!; [done| |lia|].
    - apply list_elem_of_fmap in Hd as (r & -> & Hr). unfold days_ok in Hdays. rewrite Forall_forall in Hdays. by apply Hdays.
    - destruct (max_of_ge _ _ Hd) as (l & Hl & ?). by exists l. }
  destruct (compute_from_spec start m) as (C1 & C2 & C3). fold from in C1, C2, C3.
  assert (midnight from) as Hmf.
  { destruct C3 as [->|(d & Hd & ->)]; [done|]. apply Hstored in Hd as (v & _ & Hd & _).
    pose proof (midnight_add _ 1 Hd) as H. by rewrite Z.mul_1_r in H. }
  unfold day_entry. rewrite (container_raw_window id s from _ Hmf Hone day Hmd).
  specialize (Hf day Hmd (proj1 Hday)). unfold m at 1. rewrite days_stored_lookup.
  assert (unix start ≤ unix day) by (apply unix_mono; lia).
  pose proof (unix_lt_midnight day today Hmt) as Hlt.
  destruct (decide (day < today)) as [Hdt|Hdt].
  - rewrite bool_decide_eq_true_2 by (split; [done|by apply Hlt]).
    pose proof (midnight_le day today Hmd Hmt Hdt) as Hnext.
    rewrite full_day_of by lia. destruct (stored containerUptimeTable s id (unix day)) as [v|] eqn:Hv; [by rewrite Hf|].
    case_bool_decide as Hfd; [done|]. rewrite Hf; [done|].
    destruct C3 as [C3|(d & Hd & C3)]; [lia|]. apply Hstored in Hd as (v & Hdv & Hdm & _ & l & Hl & Hdl).
    exists l. split; [done|]. assert (of_unix d ≠ day) as Hne by (intros <-; rewrite unix_of_unix in Hv; congruence).
    assert (of_unix d ≤ of_unix l) by (unfold of_unix, second; lia).
    destruct (decide (of_unix d < day)) as [Hlow|]; [|lia]. pose proof (midnight_le (of_unix d) day Hdm Hmd Hlow). lia.
  - rewrite bool_decide_eq_false_2; [|intros [_ Hx]; by apply Hlt in Hx].
    assert (from ≤ today) as Hft.
    { destruct C3 as [->|(d & Hd & ->)]; [lia|]. apply Hstored in Hd as (v & _ & Hdm & Hdt' & _).
      apply midnight_le; [done..|]. rewrite <- (midnight_unix today Hmt). unfold of_unix, second. lia. }
    rewrite bool_decide_eq_true_2 by lia. done.
Qed.
End Served.

(** *** A rollup keeps the aggregates faithful *)

Section Kept.
Context (visit : dayUptimes → list (Z * dayUptime)) (visits_all : ∀ m, visit m ≡ₚ map_to_list m).

Lemma rolled_container s now rawRetention id c day :
  midnight day → one_at_a_time id s → days_ok containerUptimeTable s → select_id id (hy_containers s) = Some c →
  let from := first_rolled containerUptimeTable now rawRetention s in
  rolled containerUptimeTable s now rawRetention id (unix day) =
  if bool_decide (from ≤ day) then day_value id s (until_or (until_of id s) (startOfUTCDay now)) day else None.
Proof.
  intros Hd Hone Hdays Hc. cbv zeta. pose proof (first_rolled_ok containerUptimeTable s now rawRetention Hdays) as [Hm _].
  rewrite <- (container_raw_window id s _ _ Hm Hone day Hd). unfold rolled, monitor_of, until_of. cbn [monitors_of].
  unfold select_id, select_where in Hc |- *.
  assert (filter (λ m, um_id m = id) ((λ c, MkMonitor (ct_ID c) (archived_since c)) <$> hy_containers s)
    = (λ c, MkMonitor (ct_ID c) (archived_since c)) <$> filter (λ r, bool_decide (row_id r = id) = true) (hy_containers s)) as ->.
  { clear. induction (hy_containers s) as [|c l IH]; [done|]. rewrite fmap_cons, !filter_cons, IH.
    change (row_id c) with (ct_ID c). cbn [um_id]. destruct (decide (ct_ID c = id)).
    - by rewrite decide_True by by apply bool_decide_eq_true.
    - by rewrite decide_False by by rewrite bool_decide_eq_true. }
  destruct (filter _ (hy_containers s)) as [|c' l] eqn:Hl; [done|]. injection Hc as ->. cbn.
  assert (ct_ID c = id) as Hid.
  { assert (c ∈ filter (λ r, bool_decide (row_id r = id) = true) (hy_containers s)) as Hin by (rewrite Hl; by left).
    apply list_elem_of_filter in Hin as [Hin _]. by apply bool_decide_eq_true in Hin. }
  unfold rolled_days. cbn. rewrite Hid. case_bool_decide as Hle; [|done]. unfold container_raw.
  by rewrite bool_decide_eq_false_2 by lia.
Qed.

Lemma upserts_days rows news d :
  d ∈ dr_Day <$> foldl upsert_daily rows news → d ∈ dr_Day <$> rows ∨ d ∈ dr_Day <$> news.
Proof.
  induction news as [|new news IH] using rev_ind; [by left|]. rewrite foldl_app. cbn [foldl]. unfold upsert_daily at 1. cbv zeta.
  rewrite fmap_app. destruct (existsb _ _).
  - assert (dr_Day <$> update_where (λ r, bool_decide (dr_Monitor r = dr_Monitor new) && bool_decide (dr_Day r = dr_Day new))
      (λ r, r <| dr_Uptime := dr_Uptime new |>) (foldl upsert_daily rows news) = dr_Day <$> foldl upsert_daily rows news) as ->.
    { unfold update_where. rewrite <- list_fmap_compose. apply list_fmap_ext. intros _ r _. cbn. by destruct (_ && _). }
    rewrite elem_of_app. tauto.
  - rewrite fmap_app, !elem_of_app. tauto.
Qed.

Lemma rollup_faithful w id start now rawRetention :
  let s := w_st w in
  NoDup (ct_ID <$> hy_containers s) → id ∈ ct_ID <$> hy_containers s → one_at_a_time id s → days_ok containerUptimeTable s →
  periods_ok s → 0 ≤ now - rawRetention → startOfUTCDay (now - rawRetention) + uptimeDay ≤ start → faithful id start s →
  wp (rollupContainers visit now rawRetention) (λ _ w',
    (∃ rows, w_st w' = s <| hy_container_daily := rows |>) ∧ days_ok containerUptimeTable (w_st w') ∧ faithful id start (w_st w')
    ∧ (fault_free w → fault_free w')) w.
Proof.
  cbv zeta. intros Hnd Hid Hone Hdays Hper Hnow Hstart Hf. set (s := w_st w) in *.
  destruct (select_id id (hy_containers s)) as [c|] eqn:Hc; [|by apply select_id_None in Hc].
  eapply wp_mono; [apply (rollup_spec visit visits_all containerUptimeTable)|].
  { cbn [monitors_of]. rewrite <- list_fmap_compose. done. }
  intros [[]|e] w' [Henv H].
  2: { destruct H as [_ ->]. fold s. split_and!; [|done..|by intros; eapply fault_free_env].
       exists (hy_container_daily s). generalize s. by intros []. }
  destruct H as (news & -> & Hnews). cbn [set_daily]. fold s. fold s in Hnews.
  assert (Forall (λ r, ∃ v, day_sound (startOfUTCDay (now - rawRetention) + uptimeDay) (startOfUTCDay now) (dr_Day r) v) news) as Hsound.
  { apply Forall_forall. intros r Hr. destruct (stored_at_row news r Hr) as [v Hs].
    exists v. rewrite Hnews in Hs. by eapply rolled_sound. }
  split_and!.
  - by eexists.
  - unfold days_ok. apply upsert_days; [done|]. eapply Forall_impl; [exact Hsound|]. by intros r [v []].
  - intros day Hd Hsd. specialize (Hf day Hd Hsd).
    change (full_day id (s <| hy_container_daily := _ |>) day) with (full_day id s day).
    unfold stored. cbn [daily_table hy_container_daily]. unfold stored in Hf. cbn [daily_table] in Hf.
    change (hy_container_daily (s <| hy_container_daily ::= λ rows, foldl upsert_daily rows news |>))
      with (foldl upsert_daily (hy_container_daily s) news).
    rewrite stored_upserts, Hnews, (rolled_container s now rawRetention id c day Hd Hone Hdays Hc).
    set (from := first_rolled _ _ _ _).
    assert (day < startOfUTCDay now → day_value id s (until_or (until_of id s) (startOfUTCDay now)) day = full_day id s day) as Hfull.
    { intros Hlt. apply full_day_of. apply midnight_le; [done|apply startOfUTCDay_midnight|done]. }
    destruct (bool_decide_reflect (from ≤ day)) as [Hfd|Hfd].
    + destruct (day_value id s _ day) as [v|] eqn:Hv.
      { destruct (decide (day < startOfUTCDay now)) as [Hlt|Hlt]; [by rewrite <- Hfull|]. exfalso.
        unfold day_value in Hv. destruct (known_before _ _ s); [done|]. unfold ct_day in Hv.
        rewrite bool_decide_eq_true_2 in Hv; [done|]. unfold until_or. destruct (until_of id s); lia. }
      destruct (stored_at (hy_container_daily s) id (unix day)) as [v|] eqn:Hs; [done|]. intros (l & Hl & Hlt).
      destruct (decide (day < startOfUTCDay now)) as [Hdt|Hdt]; [by rewrite <- Hfull|]. apply Hf.
      apply max_of_elem in Hl. apply upserts_days in Hl as [Hl|Hl].
      * apply max_of_ge in Hl as (l' & Hl' & ?). exists l'. split; [done|]. unfold of_unix, second in *. lia.
      * apply list_elem_of_fmap in Hl as (r & -> & Hr). rewrite Forall_forall in Hsound. destruct (Hsound r Hr) as [v []]. lia.
    + destruct (stored_at (hy_container_daily s) id (unix day)) as [v|] eqn:Hs; [done|]. intros _. apply Hf.
      unfold from, first_rolled, rollup_from in Hfd. cbn [daily_table] in Hfd. cbv zeta in Hfd. unfold last_day.
      destruct (max_of (dr_Day <$> hy_container_daily s)) as [l|]; [|lia]. exists l. split; [done|]. lia.
  - intros. by eapply fault_free_env.
Qed.
End Kept.


(** ** The uptime of a heartbeat *)


(** ** Examples *)

Module UptimeExample.
Definition change (id : string) (from to : string) (at_ : Z) : StateTransition :=
  MkTransition "" id from to None None None "" at_.

(** 2026-01-01 00:00:00 UTC, and so on. *)
Definition jan (d : Z) : Z := of_unix (1767225600 + (d - 1) * secondsPerDay).

Lemma uptime_exact_witness :
  let l := [change "c" "created" "running" (jan 1); change "c" "running" "exited" (jan 2 + 6 * hour)] in
  computeUptime l (jan 1 + 12 * hour) (jan 2 + 12 * hour) = 7500.
Proof.
  cbv zeta. rewrite uptime_exact; [|by repeat constructor|done..].
  rewrite <- up_time_amount; [|by repeat constructor|done]. reflexivity.
Defined.

(** A container that runs for weeks and restarts once a day is down, for the uptime
    of the last 24 hours, until its first restart. *)
Example running_for_weeks_counts_as_down :
  let u := MkCalculator [change "c" "created" "running" (jan 1);
                         change "c" "running" "exited" (jan 20 + 20 * hour);
                         change "c" "exited" "running" (jan 20 + 20 * hour + second)] ∅ in
  ur_Hours24 <$> (match (Calculate "c" (24 * hour) (calm_world (jan 21) u)).1 with Ok r => Some r | Err _ => None end)
  = Some (Some 1666).
Proof. vm_compute. reflexivity. Qed.

(** And one that has been stopped for weeks is up. *)
Example stopped_for_weeks_counts_as_up :
  let u := MkCalculator [change "c" "created" "running" (jan 1); change "c" "running" "exited" (jan 2)] ∅ in
  ur_Hours24 <$> (match (Calculate "c" (24 * hour) (calm_world (jan 21) u)).1 with Ok r => Some r | Err _ => None end)
  = Some (Some 10000).
Proof. vm_compute. reflexivity. Qed.

Definition heartbeat : Heartbeat :=
  MkHeartbeat "h" "" "" "up" "normal" 15 5 None None None None None 0 0 0 0 "".
Definition ping (s : Z) (kind : string) : HeartbeatPing := MkPing "" "h" kind None "" "" None (jan 1 + s * second).

Definition s0 : history :=
  empty_history <| hy_heartbeats := [heartbeat] |> <| hy_pings := [ping 10 "success"; ping 70 "success"] |>
    <| hy_containers := [no_container <| ct_ID := "c" |>] |>
    <| hy_transitions := [change "c" "created" "running" (jan 1 + 6 * hour); change "c" "running" "exited" (jan 2 + 12 * hour)] |>.
Definition w0 : world history := calm_world 0 s0.
Definition this_morning : Z := jan 3 + 6 * hour.


End UptimeExample.
