(* ===== verification/Retention.v ===== *)
(** * Retention

    [src/internal/store/retention.go] and [src/internal/store/batchdelete.go]: the
    hourly pass that deletes what is older than its window, in batches and within a
    budget of time per table, and only once the uptime of the days it is about to
    delete has been aggregated.  Which rows a batch takes, and whether the context
    has been cancelled, are parameters.  Reclaiming the freed pages of the database
    file is left out: it does not touch a row. *)

From S2P Require Import Prelude.
From S2P Require Import Tables.
From S2P Require Import GoStrings.
From S2P Require Import AlertModel.
From S2P Require Import GoTime.
From S2P Require Import Heartbeat.
From S2P Require Import Endpoint.
From S2P Require Import Container.
From S2P Require Import Uptime.
From S2P Require Import UptimeDaily.

#[local] Open Scope string_scope.
#[local] Open Scope list_scope.
#[local] Open Scope Z_scope.

(** ** The configuration *)

Definition day : Z := 24 * hour.

Definition retentionInterval : Z := 1 * hour.
Definition retentionCatchUpInterval : Z := 1 * minute.
Definition retentionBudgetPerTable : Z := 2 * minute.
Definition defaultRetention : Z := 90 * day.
Definition defaultBatchSize : Z := 1000.
Definition archivedRetention : Z := 30 * day.
Definition checkResultRetention : Z := 30 * day.
Definition inactiveEndpointRetention : Z := 30 * day.
Definition heartbeatPingRetention : Z := 30 * day.
Definition heartbeatExecRetention : Z := 30 * day.
Definition certCheckResultRetention : Z := 30 * day.
Definition resourceHourlyRetention : Z := 90 * day.
Definition resourceDailyRetention : Z := 365 * day.
Definition uptimeDailyRetention : Z := 365 * day.
(** [resource.DefaultSnapshotRetention]. *)
Definition DefaultSnapshotRetention : Z := 48 * hour.

Record RetentionConfig := MkRetentionConfig {
  rc_Interval : Z;
  rc_CatchUpInterval : Z;
  rc_BudgetPerTable : Z;
  rc_BatchSize : Z;
  rc_Snapshots : Z;
  rc_Hourly : Z;
  rc_Daily : Z;
  rc_Transitions : Z;
  rc_Archived : Z;
  rc_CheckResults : Z;
  rc_InactiveEndpoints : Z;
  rc_HeartbeatPings : Z;
  rc_HeartbeatExecs : Z;
  rc_CertCheckResults : Z;
  rc_UptimeDaily : Z;
}.

Definition orDefault (v def : Z) : Z := if bool_decide (v ≤ 0) then def else v.

Definition clampDuration (v def floor : Z) : Z :=
  if bool_decide (v ≤ 0) then def else if bool_decide (v < floor) then floor else v.

Definition clampBatch (n : Z) : Z :=
  if bool_decide (n = 0) then defaultBatchSize
  else if bool_decide (n < 100) then 100
  else if bool_decide (100000 < n) then 100000 else n.

Definition clampBudget (v : Z) : Z :=
  let v := clampDuration v retentionBudgetPerTable (10 * second) in
  if bool_decide (30 * minute < v) then 30 * minute else v.

Definition withDefaults (c : RetentionConfig) : RetentionConfig :=
  MkRetentionConfig
    (clampDuration (rc_Interval c) retentionInterval minute)
    (clampDuration (rc_CatchUpInterval c) retentionCatchUpInterval (10 * second))
    (clampBudget (rc_BudgetPerTable c))
    (clampBatch (rc_BatchSize c))
    (clampDuration (rc_Snapshots c) DefaultSnapshotRetention (24 * hour))
    (orDefault (rc_Hourly c) resourceHourlyRetention)
    (orDefault (rc_Daily c) resourceDailyRetention)
    (orDefault (rc_Transitions c) defaultRetention)
    (orDefault (rc_Archived c) archivedRetention)
    (orDefault (rc_CheckResults c) checkResultRetention)
    (orDefault (rc_InactiveEndpoints c) inactiveEndpointRetention)
    (orDefault (rc_HeartbeatPings c) heartbeatPingRetention)
    (orDefault (rc_HeartbeatExecs c) heartbeatExecRetention)
    (orDefault (rc_CertCheckResults c) certCheckResultRetention)
    (orDefault (rc_UptimeDaily c) uptimeDailyRetention).

Definition nextDelay (truncated : bool) (c : RetentionConfig) : Z :=
  if truncated then rc_CatchUpInterval c else rc_Interval c.

(** ** Deleting in batches *)

Record batchOpts := MkBatchOpts { bo_batchSize : Z; bo_budget : Z }.

Definition config_batchOpts (c : RetentionConfig) : batchOpts := MkBatchOpts (rc_BatchSize c) (rc_BudgetPerTable c).

Definition normalized (o : batchOpts) : batchOpts :=
  MkBatchOpts (if bool_decide (bo_batchSize o ≤ 0) then defaultBatchSize else bo_batchSize o) (bo_budget o).

(** What a purge reports: the rows deleted, whether some are left, its error. *)
Abbreviation outcome := (Z * bool * option error)%type.

Section Batches.
(** [ctx.Err() != nil], by the time of asking. *)
Context (cancelled : nat → bool).
Context {S : Type}.

Definition ctx_done : M S bool := consult (λ _ n, cancelled n).

(** The loop; [None] when the fuel runs out. *)
Fixpoint batches (fuel : nat) (size : Z) (deadline : option Z) (step : Z → M S (Z * option error)) (total : Z)
    : M S (option outcome) :=
  match fuel with
  | O => ret None
  | Datatypes.S fuel =>
    let! stop := ctx_done in
    if stop then ret (Some (total, true, None))
    else
      let! r := step size in
      let total := total + r.1 in
      match r.2 with
      | Some e => ret (Some (total, true, Some e))
      | None =>
        if bool_decide (r.1 = 0) || bool_decide (r.1 < size) then ret (Some (total, false, None))
        else
          match deadline with
          | None => batches fuel size deadline step total
          | Some d =>
            let! t := now in
            if bool_decide (d < t) then ret (Some (total, true, None)) else batches fuel size deadline step total
          end
      end
  end.

Definition runBatchedDelete (fuel : nat) (o : batchOpts) (step : Z → M S (Z * option error)) : M S (option outcome) :=
  let o := normalized o in
  let! deadline := (if bool_decide (0 < bo_budget o) then let! t := now in ret (Some (t + bo_budget o)) else ret None) in
  batches fuel (bo_batchSize o) deadline step 0.

(** A table of the database, and the rows of it that a statement selects; the
    condition may look at the other rows. *)
Context {R : Type} `{!HasId R} (get : S → list R) (put_ : list R → S → S) (where_ : list R → R → bool).
(** The order in which the engine meets the rows. *)
Context (scan : list R → list R).

(** [DELETE ... WHERE rowid IN (SELECT rowid ... WHERE ... LIMIT ?)]. *)
Definition delete_batch (batchSize : Z) : M S (Z * option error) :=
  let! failed := fault in
  if failed then ret (0, Some EStore)
  else
    let! s := gets (λ s, s) in
    let rows := take (Z.to_nat batchSize) (scan (select_where (where_ (get s)) (get s))) in
    do! modify (put_ (delete_where (λ r, bool_decide (row_id r ∈ table_ids rows)) (get s))) in
    ret (Z.of_nat (length rows), None).

(** One round more than there are rows is always enough. *)
Definition deleteRowsWhere (o : batchOpts) : M S outcome :=
  let! rows := gets get in
  let! r := runBatchedDelete (Datatypes.S (length rows)) o delete_batch in
  ret (default (0, true, None) r).
End Batches.

(** ** The purges *)

Record retentionPass := MkPass { rp_deleted : Z; rp_truncated : bool }.

Definition pass_add (deleted : Z) (truncated : bool) (p : retentionPass) : retentionPass :=
  MkPass (rp_deleted p + deleted) (rp_truncated p || truncated).

Definition record_ (o : outcome) (p : retentionPass) : retentionPass :=
  let '(deleted, truncated, _) := o in pass_add deleted truncated p.

Section Pass.
Context (cancelled : nat → bool) (scan : ∀ R, list R → list R).
(** The order in which the days of a monitor are visited (see [UptimeDaily]). *)
Context (visit : dayUptimes → list (Z * dayUptime)).

Definition purge {R} `{!HasId R} (get : history → list R) (put_ : list R → history → history)
    (where_ : list R → R → bool) : batchOpts → M history outcome :=
  deleteRowsWhere cancelled get put_ where_ (scan R).

(** [deleteRowsBefore]. *)
Definition purge_before {R} `{!HasId R} (get : history → list R) (put_ : list R → history → history) (time : R → Z)
    (before : Z) : batchOpts → M history outcome :=
  purge get put_ (λ _ r, bool_decide (time r < unix before)).

(** Old, and not the latest of its container. *)
Definition superseded (before : Z) (rows : list StateTransition) (t : StateTransition) : bool :=
  bool_decide (unix (st_Timestamp t) < unix before)
  && existsb (λ later, bool_decide (st_ContainerID later = st_ContainerID t)
                       && bool_decide (unix (st_Timestamp t) < unix (st_Timestamp later))) rows.

Definition deleteTransitionsBefore (before : Z) : batchOpts → M history outcome :=
  purge hy_transitions (λ l s, s <| hy_transitions := l |>) (superseded before).

Definition deletePingsBefore : Z → batchOpts → M history outcome :=
  purge_before hy_pings (λ l s, s <| hy_pings := l |>) (λ p, unix (pi_Timestamp p)).

Definition completed_before (before : Z) (e : HeartbeatExecution) : bool :=
  match ex_CompletedAt e with Some t => bool_decide (unix t < unix before) | None => false end.

Definition deleteExecutionsBefore (before : Z) : batchOpts → M history outcome :=
  purge hy_executions (λ l s, s <| hy_executions := l |>) (λ _, completed_before before).

Definition resumed_before (before : Z) (p : HeartbeatPause) : bool :=
  match pa_ResumedAt p with Some t => bool_decide (unix t < unix before) | None => false end.

Definition deletePausesBefore (before : Z) : batchOpts → M history outcome :=
  purge hy_pauses (λ l s, s <| hy_pauses := l |>) (λ _, resumed_before before).

Definition deleteCheckResultsBefore : Z → batchOpts → M history outcome :=
  purge_before hy_checks (λ l s, s <| hy_checks := l |>) (λ r, unix (cr_Timestamp r)).

Definition deleteSnapshotsBefore : Z → batchOpts → M history outcome :=
  purge_before hy_snapshots (λ l s, s <| hy_snapshots := l |>) (λ r, unix (sm_At r)).
Definition deleteHourlyBefore : Z → batchOpts → M history outcome :=
  purge_before hy_hourly (λ l s, s <| hy_hourly := l |>) (λ r, unix (sm_At r)).
Definition deleteDailyBefore : Z → batchOpts → M history outcome :=
  purge_before hy_daily (λ l s, s <| hy_daily := l |>) (λ r, unix (sm_At r)).

(** The chain of each check is deleted first, in a table of its own. *)
Definition deleteCertCheckResultsBefore (before : Z) (o : batchOpts) : M history outcome :=
  let! rows := gets hy_cert_checks in
  let! r := runBatchedDelete cancelled (S (length rows)) o (λ size,
    let! failed := fault in
    if failed then ret (0, Some EStore)
    else delete_batch hy_cert_checks (λ l s, s <| hy_cert_checks := l |>)
           (λ _ r, bool_decide (unix (sm_At r) < unix before)) (scan stamped) size) in
  ret (default (0, true, None) r).

(** [UptimeDailyStore.deleteBefore]. *)
Definition deleteBefore (t : uptimeTable) : Z → batchOpts → M history outcome :=
  purge_before (daily_table t) (λ l, set_daily t (λ _, l)) dr_Day.

(** The statements on the tables of other components, which may fail, and then the
    containers, with what refers to them. *)
Definition archived_before (before : Z) (c : Container) : bool :=
  ct_Archived c && match ct_ArchivedAt c with Some t => bool_decide (unix t < unix before) | None => false end.

Definition DeleteArchivedContainersBefore (before : Z) : M history (result Z) :=
  do? db_exec (λ s, s) in
  do? db_exec (λ s, s) in
  do? db_exec (λ s, s) in
  do? db_exec (λ s, s) in
  let! gone := gets (λ s, table_ids (select_where (archived_before before) (hy_containers s))) in
  do? db_exec (λ s,
    s <| hy_containers ::= delete_where (archived_before before) |>
      <| hy_transitions ::= delete_where (λ t, bool_decide (st_ContainerID t ∈ gone)) |>
      <| hy_container_daily ::= delete_where (λ r, bool_decide (dr_Monitor r ∈ gone)) |>) in
  ret (Ok (Z.of_nat (length gone))).

Definition inactive_before (before : Z) (e : Endpoint) : bool :=
  negb (ep_Active e) && bool_decide (unix (ep_LastSeenAt e) < unix before).

Definition DeleteInactiveEndpointsBefore (before : Z) : M history (result Z) :=
  do? db_exec (λ s, s <| hy_checks ::= delete_where (λ r, bool_decide
        (cr_EndpointID r ∈ table_ids (select_where (inactive_before before) (hy_endpoints s)))) |>) in
  let! gone := gets (λ s, table_ids (select_where (inactive_before before) (hy_endpoints s))) in
  do? db_exec (λ s,
    s <| hy_endpoints ::= delete_where (inactive_before before) |>
      <| hy_checks ::= delete_where (λ r, bool_decide (cr_EndpointID r ∈ gone)) |>
      <| hy_endpoint_daily ::= delete_where (λ r, bool_decide (dr_Monitor r ∈ gone)) |>) in
  ret (Ok (Z.of_nat (length gone))).

Definition of_count (r : result Z) : outcome :=
  match r with Ok n => (n, false, None) | Err e => (0, false, Some e) end.

(** ** The pass *)

(** Which of the optional stores there are. *)
Record RetentionOpts := MkRetentionOpts {
  ro_Endpoint : bool;
  ro_Heartbeat : bool;
  ro_Certificate : bool;
  ro_Resource : bool;
  ro_Uptime : bool;
}.

Definition rolledUp (has_uptime : bool) (rollup : M history (result unit)) : M history bool :=
  if negb has_uptime then ret true
  else let! r := rollup in ret (is_ok r).

Definition runCleanup (at_ : Z) (has_uptime : bool) (cfg : RetentionConfig) (p : retentionPass) : M history retentionPass :=
  let! ok := rolledUp has_uptime (rollupContainers visit at_ (rc_Transitions cfg)) in
  let! p := (if ok
             then let! o := deleteTransitionsBefore (at_ - rc_Transitions cfg) (config_batchOpts cfg) in ret (record_ o p)
             else ret p) in
  let! r := DeleteArchivedContainersBefore (at_ - rc_Archived cfg) in
  ret (record_ (of_count r) p).

Definition runHeartbeatCleanup (at_ : Z) (has_uptime : bool) (cfg : RetentionConfig) (p : retentionPass) : M history retentionPass :=
  let! ok := rolledUp has_uptime (rollupHeartbeats visit at_ (rc_HeartbeatPings cfg)) in
  let! p := (if ok
             then
               let pingCutoff := at_ - rc_HeartbeatPings cfg in
               let! o := deletePingsBefore pingCutoff (config_batchOpts cfg) in
               let p := record_ o p in
               let! o := deletePausesBefore pingCutoff (config_batchOpts cfg) in
               ret (record_ o p)
             else ret p) in
  let! o := deleteExecutionsBefore (at_ - rc_HeartbeatExecs cfg) (config_batchOpts cfg) in
  ret (record_ o p).

Definition runEndpointCleanup (at_ : Z) (has_uptime : bool) (cfg : RetentionConfig) (p : retentionPass) : M history retentionPass :=
  let! ok := rolledUp has_uptime (rollupEndpoints visit at_ (rc_CheckResults cfg)) in
  let! p := (if ok
             then let! o := deleteCheckResultsBefore (at_ - rc_CheckResults cfg) (config_batchOpts cfg) in ret (record_ o p)
             else ret p) in
  let! r := DeleteInactiveEndpointsBefore (at_ - rc_InactiveEndpoints cfg) in
  ret (record_ (of_count r) p).

Definition runUptimeDailyCleanup (at_ : Z) (cfg : RetentionConfig) (p : retentionPass) : M history retentionPass :=
  let cutoff := at_ - rc_UptimeDaily cfg in
  for_acc [endpointUptimeTable; heartbeatUptimeTable; containerUptimeTable] p (λ p t,
    let! o := deleteBefore t cutoff (config_batchOpts cfg) in ret (record_ o p)).

Definition runCertificateCleanup (at_ : Z) (cfg : RetentionConfig) (p : retentionPass) : M history retentionPass :=
  let! o := deleteCertCheckResultsBefore (at_ - rc_CertCheckResults cfg) (config_batchOpts cfg) in ret (record_ o p).

Definition runResourceCleanup (at_ : Z) (cfg : RetentionConfig) (p : retentionPass) : M history retentionPass :=
  let! o := deleteSnapshotsBefore (at_ - rc_Snapshots cfg) (config_batchOpts cfg) in
  let p := record_ o p in
  let! o := deleteHourlyBefore (at_ - rc_Hourly cfg) (config_batchOpts cfg) in
  let p := record_ o p in
  let! o := deleteDailyBefore (at_ - rc_Daily cfg) (config_batchOpts cfg) in
  ret (record_ o p).

(** [runRetentionPass]: is there a backlog left? *)
Definition runRetentionPass (opts : RetentionOpts) (cfg : RetentionConfig) : M history bool :=
  let! at_ := now in
  let! p := runCleanup at_ (ro_Uptime opts) cfg (MkPass 0 false) in
  let! p := (if ro_Endpoint opts then runEndpointCleanup at_ (ro_Uptime opts) cfg p else ret p) in
  let! p := (if ro_Heartbeat opts then runHeartbeatCleanup at_ (ro_Uptime opts) cfg p else ret p) in
  let! p := (if ro_Uptime opts then runUptimeDailyCleanup at_ cfg p else ret p) in
  let! p := (if ro_Certificate opts then runCertificateCleanup at_ cfg p else ret p) in
  let! p := (if ro_Resource opts then runResourceCleanup at_ cfg p else ret p) in
  ret (rp_truncated p).

(** A pass and the wait until the next one: one round of the loop of
    [StartRetentionCleanupWithOpts], unless it has been cancelled. *)
Definition retention_round (opts : RetentionOpts) (cfg : RetentionConfig) : M history (option Z) :=
  let! stop := ctx_done cancelled in
  if stop then ret None
  else let! truncated := runRetentionPass opts cfg in ret (Some (nextDelay truncated cfg)).
End Pass.
