(* ===== verification/RetentionCorrect.v ===== *)
(** * What retention deletes

    A batched purge ends and deletes only what matches; a pass over the tables
    deletes no transition whose day has not been aggregated; and concrete runs. *)

From S2P Require Import Prelude.
From S2P Require Import Tables.
From S2P Require Import GoStrings.
From S2P Require Import AlertModel.
From S2P Require Import GoTime.
From S2P Require Import Heartbeat.
From S2P Require Import Endpoint.
From S2P Require Import Container.
From S2P Require Import Uptime.
From S2P Require Import UptimeDaily.
From S2P Require Import UptimeRollup.
From S2P Require Import Retention.

#[local] Open Scope string_scope.
#[local] Open Scope list_scope.
#[local] Open Scope Z_scope.

(** ** Deleting rows *)

Section Deleted.
Context {R : Type} `{!HasId R}.
Implicit Types (t : list R) (gone : list string).

Definition deleted gone t : list R := delete_where (λ r, bool_decide (row_id r ∈ gone)) t.

Lemma deleted_elem gone t r : r ∈ deleted gone t ↔ r ∈ t ∧ row_id r ∉ gone.
Proof. unfold deleted. rewrite delete_where_elem, bool_decide_eq_false. done. Qed.

Lemma deleted_nil t : deleted [] t = t.
Proof. unfold deleted, delete_where. apply list_filter_all. intros r _. apply bool_decide_eq_false. apply not_elem_of_nil. Qed.

Lemma deleted_app gone1 gone2 t : deleted gone2 (deleted gone1 t) = deleted (gone1 ++ gone2) t.
Proof.
  unfold deleted, delete_where. rewrite list_filter_filter. apply list_filter_iff. intros r.
  rewrite !bool_decide_eq_false, elem_of_app. tauto.
Qed.

Lemma deleted_ids gone t : NoDup (table_ids t) → NoDup (table_ids (deleted gone t)).
Proof. apply delete_where_ids. Qed.

(** The rows left when all that match are gone. *)
Lemma deleted_all gone t p :
  (∀ r, r ∈ t → row_id r ∈ gone ↔ p r = true) → deleted gone t = delete_where p t.
Proof.
  intros H. unfold deleted, delete_where. induction t as [|r t IH]; [done|]. rewrite !filter_cons, IH by set_solver.
  specialize (H r (list_elem_of_here _ _)). destruct (p r) eqn:Hp.
  - rewrite bool_decide_eq_true_2 by by apply H. done.
  - rewrite bool_decide_eq_false_2; [done|]. rewrite H. congruence.
Qed.

Lemma delete_deleted gone t p q :
  (∀ r, r ∈ t → (row_id r ∈ gone → q r = true) ∧ (row_id r ∉ gone → p r = q r)) →
  delete_where p (deleted gone t) = delete_where q t.
Proof.
  intros H. unfold deleted, delete_where. induction t as [|r t IH]; [done|].
  specialize (IH (λ r' Hr', H r' (list_elem_of_further _ _ _ Hr'))). destruct (H r (list_elem_of_here _ _)) as [H1 H2].
  rewrite !(filter_cons _ r t). destruct (decide (row_id r ∈ gone)) as [Hin|Hin].
  - rewrite decide_False by (by rewrite bool_decide_eq_true_2). rewrite IH. rewrite decide_False; [done|]. by rewrite H1.
  - rewrite decide_True by (by apply bool_decide_eq_false). rewrite filter_cons, IH, H2 by done. done.
Qed.

Lemma unique_row t r1 r2 : NoDup (table_ids t) → r1 ∈ t → r2 ∈ t → row_id r1 = row_id r2 → r1 = r2.
Proof.
  intros Hnd H1 H2 E. pose proof (select_id_elem t r1 Hnd H1) as E1. pose proof (select_id_elem t r2 Hnd H2) as E2.
  rewrite E in E1. congruence.
Qed.
End Deleted.

(** ** A purge *)

(** A condition on the rows that the deletion of matching rows does not change. *)
Definition settled {R} `{!HasId R} (where_ : list R → R → bool) : Prop := ∀ t gone,
  (∀ r, r ∈ t → row_id r ∈ gone → where_ t r = true) →
  ∀ r, r ∈ t → row_id r ∉ gone → where_ (deleted gone t) r = where_ t r.

Section Purge.
Context (cancelled : nat → bool) {S R : Type} `{!HasId R}.
Context (get : S → list R) (put_ : list R → S → S) (where_ : list R → R → bool) (scan : list R → list R).
Context (get_put : ∀ l s, get (put_ l s) = l) (put_put : ∀ l l' s, put_ l (put_ l' s) = put_ l s)
        (put_get : ∀ s, put_ (get s) s = s).
Context (settled_where : settled where_) (scan_all : ∀ l, scan l ≡ₚ l).

(** What a purge may have done: [gone] are the rows it deleted. *)
Record purged (w : world S) (total : Z) (o : outcome) (gone : list string) (w' : world S) : Prop := {
  pg_env : w_env w' = w_env w;
  pg_count : o.1.1 = total + Z.of_nat (length gone);
  pg_distinct : NoDup gone;
  pg_match : ∀ id, id ∈ gone → ∃ r, r ∈ get (w_st w) ∧ row_id r = id ∧ where_ (get (w_st w)) r = true;
  pg_state : w_st w' = put_ (deleted gone (get (w_st w))) (w_st w);
  pg_all : o.1.2 = false → o.2 = None ∧ deleted gone (get (w_st w)) = delete_where (where_ (get (w_st w))) (get (w_st w));
  pg_fault : o.2 ≠ None → ¬ fault_free w;
}.

Let t_of (w : world S) := get (w_st w).
Definition matching (w : world S) : list R := select_where (where_ (get (w_st w))) (get (w_st w)).

Lemma purged_nothing w total o w' :
  same w w' → o.1.1 = total → o.1.2 = true → (o.2 ≠ None → ¬ fault_free w) → purged w total o [] w'.
Proof.
  intros (Hs & He & _) H1 H2 H3. split; [done|by cbn; lia|constructor|by intros ? ?%elem_of_nil| |by rewrite H2|done].
  by rewrite deleted_nil, Hs, put_get.
Qed.

(** One batch. *)
Lemma delete_batch_spec size w :
  NoDup (table_ids (get (w_st w))) → 0 < size →
  wp (delete_batch get put_ where_ scan size) (λ r w',
    match r.2 with
    | Some _ => r.1 = 0 ∧ same w w' ∧ ¬ fault_free w
    | None => ∃ gone, r.1 = Z.of_nat (length gone) ∧ w_env w' = w_env w
        ∧ NoDup gone ∧ (∀ id, id ∈ gone → ∃ r, r ∈ get (w_st w) ∧ row_id r = id ∧ where_ (get (w_st w)) r = true)
        ∧ w_st w' = put_ (deleted gone (get (w_st w))) (w_st w)
        ∧ (r.1 < size → deleted gone (get (w_st w)) = delete_where (where_ (get (w_st w))) (get (w_st w)))
    end) w.
Proof.
  intros Hnd Hsize. unfold delete_batch. apply wp_bind, wp_fault. intros b w1 Hw1 Hff. destruct b.
  { apply wp_ret. split_and!; [done|done|]. by intros ?%Hff. }
  apply wp_bind, wp_gets, wp_bind, wp_modify_put. intros w2 (Hs2 & He2 & _). apply wp_ret. cbn [fst snd].
  destruct Hw1 as (Hs1 & He1 & _). rewrite Hs1 in Hs2 |- *.
  set (t := get (w_st w)) in *. set (l := scan (select_where (where_ t) t)) in *.
  set (rows := take (Z.to_nat size) l) in *.
  assert (l ≡ₚ select_where (where_ t) t) as Hl by apply scan_all.
  assert (NoDup (table_ids l)) as Hndl.
  { unfold table_ids. rewrite Hl. by apply select_where_sublist_ids. }
  assert (∀ id, id ∈ table_ids rows → ∃ r, r ∈ t ∧ row_id r = id ∧ where_ t r = true) as Hmatch.
  { intros id (r & -> & Hr)%list_elem_of_fmap. exists r.
    assert (r ∈ l) as Hrl by by (eapply elem_of_sublist; [apply Hr|apply sublist_take]).
    rewrite Hl in Hrl. apply select_where_elem in Hrl as [? ?]. done. }
  exists (table_ids rows). split_and!.
  - unfold table_ids. by rewrite length_fmap.
  - by rewrite He2.
  - unfold rows, table_ids. rewrite fmap_take. by apply (sublist_NoDup _ (table_ids l)); [|apply sublist_take].
  - done.
  - done.
  - intros Hlt. apply deleted_all. intros r Hr. split.
    + intros Hid. apply Hmatch in Hid as (r' & Hr' & E & Hw). by rewrite (unique_row t r r') by done.
    + intros Hw. apply list_elem_of_fmap_2. unfold rows in Hlt |- *. rewrite length_take in Hlt.
      rewrite take_ge by lia. rewrite Hl. by apply select_where_elem.
Qed.

(** After a batch that removed [gone], the rest of the purge. *)
Lemma purged_more w total o gone w1 gone2 w2 :
  NoDup (table_ids (get (w_st w))) → w_env w1 = w_env w → NoDup gone →
  (∀ id, id ∈ gone → ∃ r, r ∈ get (w_st w) ∧ row_id r = id ∧ where_ (get (w_st w)) r = true) →
  w_st w1 = put_ (deleted gone (get (w_st w))) (w_st w) →
  purged w1 (total + Z.of_nat (length gone)) o gone2 w2 → purged w total o (gone ++ gone2) w2.
Proof.
  intros Hids He Hnd Hmatch Hst [P1 P2 P3 P4 P5 P6 P7]. set (t := get (w_st w)) in *.
  assert (get (w_st w1) = deleted gone t) as Ht1 by by rewrite Hst, get_put.
  rewrite Ht1 in P4, P5, P6.
  assert (∀ r, r ∈ t → row_id r ∈ gone → where_ t r = true) as Hgone.
  { intros r Hr Hid. apply Hmatch in Hid as (r' & Hr' & E & Hw). by rewrite (unique_row t r r') by done. }
  split.
  - congruence.
  - rewrite P2, length_app. lia.
  - apply NoDup_app. split_and!; [done| |done]. intros id Hid Hid2. apply P4 in Hid2 as (r & Hr & <- & _).
    by apply deleted_elem in Hr as [_ ?].
  - intros id [Hid|Hid]%elem_of_app; [by apply Hmatch|]. apply P4 in Hid as (r & [Hr Hn]%deleted_elem & <- & Hw).
    exists r. split_and!; [done..|]. by rewrite <- (settled_where t gone) by done.
  - rewrite P5, Hst, put_put, deleted_app. done.
  - intros Ho. destruct (P6 Ho) as [? Hall]. split; [done|]. fold t. rewrite <- deleted_app, Hall.
    apply delete_deleted. intros r Hr. split; [by apply Hgone|by apply settled_where].
  - intros Ho Hff. apply (P7 Ho). by eapply fault_free_env.
Qed.

(** Each row of a batch is one that matched. *)
Lemma rows_left t gone :
  NoDup (table_ids t) → NoDup gone → (∀ id, id ∈ gone → ∃ r, r ∈ t ∧ row_id r = id ∧ where_ t r = true) →
  (length (select_where (where_ (deleted gone t)) (deleted gone t)) + length gone ≤ length (select_where (where_ t) t))%nat.
Proof.
  intros Hnd Hg Hmatch.
  assert (∀ l : list R, length l = length (table_ids l)) as Hlen by (intros; unfold table_ids; by rewrite length_fmap).
  rewrite !Hlen, Nat.add_comm, <- length_app. apply submseteq_length, NoDup_submseteq.
  - apply NoDup_app. split_and!; [done| |by apply select_where_sublist_ids, deleted_ids].
    intros id Hid (r & -> & [Hr _]%select_where_elem)%list_elem_of_fmap. by apply deleted_elem in Hr as [_ ?].
  - intros id [Hid|Hid]%elem_of_app.
    + apply Hmatch in Hid as (r & Hr & <- & Hw). apply list_elem_of_fmap_2. by apply select_where_elem.
    + apply list_elem_of_fmap in Hid as (r & -> & [[Hr Hn]%deleted_elem Hw]%select_where_elem).
      apply list_elem_of_fmap_2, select_where_elem. split; [done|]. rewrite <- Hw. symmetry. apply settled_where; [|done..].
      intros r' Hr' Hid. apply Hmatch in Hid as (r2 & Hr2 & E & Hw2). by rewrite (unique_row t r' r2) by done.
Qed.

Lemma batches_spec fuel size deadline total w :
  NoDup (table_ids (get (w_st w))) → 0 < size → (length (matching w) < fuel)%nat →
  wp (batches cancelled fuel size deadline (delete_batch get put_ where_ scan) total) (λ r w',
    ∃ o gone, r = Some o ∧ purged w total o gone w'
    ∧ ((∀ n, cancelled n = false) → deadline = None → fault_free w → o.1.2 = false)) w.
Proof.
  revert deadline total w. induction fuel as [|fuel IH]; intros deadline total w Hnd Hsize Hfuel; [lia|]. cbn [batches].
  apply wp_bind, wp_consult. intros w0 Hw0 _. destruct (cancelled (w_tick w)) eqn:Hc.
  { apply wp_ret. exists (total, true, None), []. split_and!; [done|by apply purged_nothing|]. intros Hall. by rewrite Hall in Hc. }
  assert (w_env w0 = w_env w) as He0 by apply Hw0. assert (w_st w0 = w_st w) as Hs0 by apply Hw0.
  apply wp_bind. eapply wp_mono; [apply delete_batch_spec; [by rewrite Hs0|done]|].
  rewrite Hs0. intros [n [e|]] w1; cbn [fst snd].
  { intros (-> & Hw1 & Hff). apply wp_ret. exists (total + 0, true, Some e), []. 
    assert (fault_free w → False) as Hff' by (intros ?; apply Hff; by eapply fault_free_env).
    split_and!; [done| |by intros _ _ ?%Hff']. apply purged_nothing; [by eapply same_trans|cbn; lia|done|done]. }
  intros (gone & Hn & He1 & Hndg & Hmatch & Hs1 & Hdone). subst n.
  assert (w_env w1 = w_env w) as He by congruence.
  destruct (bool_decide_reflect (Z.of_nat (length gone) = 0)) as [H0|H0].
  { cbn [orb]. apply wp_ret. exists (total + Z.of_nat (length gone), false, None), gone. split_and!; [done| |done].
    split; cbn; try done. intros _. split; [done|]. apply Hdone. lia. }
  destruct (bool_decide_reflect (Z.of_nat (length gone) < size)) as [H1|H1].
  { cbn [orb]. apply wp_ret. exists (total + Z.of_nat (length gone), false, None), gone. split_and!; [done| |done].
    split; cbn; try done. intros _. split; [done|]. by apply Hdone. }
  cbn [orb].
  assert (∀ w1' dl, w_env w1' = w_env w1 → w_st w1' = w_st w1 → (dl = None ↔ deadline = None) →
    wp (batches cancelled fuel size dl (delete_batch get put_ where_ scan) (total + Z.of_nat (length gone)))
    (λ r w', ∃ o gone, r = Some o ∧ purged w total o gone w'
      ∧ ((∀ n, cancelled n = false) → deadline = None → fault_free w → o.1.2 = false)) w1') as Hrec.
  { intros w1' dl He' Hs' Hdl. assert (get (w_st w1') = deleted gone (get (w_st w))) as Ht1 by by rewrite Hs', Hs1, get_put.
    eapply wp_mono; [apply (IH dl); [rewrite Ht1; by apply deleted_ids|done|]|].
    - unfold matching in *. rewrite Ht1.
      assert (length (select_where (where_ (deleted gone (get (w_st w)))) (deleted gone (get (w_st w)))) + length gone
        ≤ length (select_where (where_ (get (w_st w))) (get (w_st w))))%nat; [|lia]. by apply rows_left.
    - intros r w2 (o & gone2 & -> & Hp & Htr). exists o, (gone ++ gone2). split_and!; [done| |].
      + apply (purged_more w total o gone w1'); [done|by rewrite He'|done|done|by rewrite Hs'|done].
      + intros Hall Hd Hff. apply Htr; [done|by apply Hdl|]. by eapply fault_free_env; [|done]; congruence. }
  destruct deadline as [d|]; [|by apply Hrec].
  apply wp_bind, wp_now. intros w2 (Hs2 & He2 & _). case_bool_decide; [|by apply Hrec].
  apply wp_ret. exists (total + Z.of_nat (length gone), true, None), gone. split_and!; [done| |done].
  split; cbn; try done; congruence.
Qed.

Lemma deleteRowsWhere_spec o w :
  NoDup (table_ids (get (w_st w))) →
  wp (deleteRowsWhere cancelled get put_ where_ scan o) (λ r w', ∃ gone,
    purged w 0 r gone w'
    ∧ ((∀ n, cancelled n = false) → bo_budget o ≤ 0 → fault_free w → r.1.2 = false)) w.
Proof.
  intros Hnd. unfold deleteRowsWhere, runBatchedDelete. apply wp_bind, wp_gets, wp_bind. cbv zeta.
  assert (0 < bo_batchSize (normalized o)) as Hsize.
  { unfold normalized. cbn. case_bool_decide; unfold defaultBatchSize; lia. }
  assert (length (matching w) < Datatypes.S (length (get (w_st w))))%nat as Hfuel.
  { unfold matching, select_where. apply Nat.lt_succ_r, length_filter. }
  apply wp_bind. destruct (bool_decide_reflect (0 < bo_budget (normalized o))) as [Hb|Hb].
  - apply wp_bind, wp_now. intros w1 (Hs1 & He1 & _). apply wp_ret.
    assert (matching w1 = matching w) as Hm1 by (unfold matching; by rewrite Hs1).
    eapply wp_mono; [apply batches_spec; [by rewrite Hs1|done|by rewrite Hm1]|].
    intros r w2 (o' & gone & -> & [P1 P2 P3 P4 P5 P6 P7] & _). apply wp_ret. exists gone. cbn [default].
    rewrite Hs1 in P4, P5, P6. split; [split; try done|].
    + congruence.
    + intros Ho Hff. apply (P7 Ho). by eapply fault_free_env.
    + intros _ Hle. unfold normalized in Hb. cbn in Hb. lia.
  - apply wp_ret. eapply wp_mono; [by apply batches_spec|].
    intros r w2 (o' & gone & -> & Hp & Htr). apply wp_ret. exists gone. split; [done|]. auto.
Qed.

(** C23: a purge ends, and deletes what it says.  Whatever the rows each batch takes
    and however far it gets, the rows it deleted were all older than the cutoff (or
    whatever the condition is), the others are as before and in the same order, and
    the number reported is that of the rows deleted.  When no backlog is reported,
    no row that matches is left; and without a cancellation, a budget or a failure
    none is reported. *)
Theorem batched_purge_exact o w :
  NoDup (table_ids (get (w_st w))) →
  wp (deleteRowsWhere cancelled get put_ where_ scan o) (λ '(count, truncated, err) w', ∃ gone,
    NoDup gone ∧ count = Z.of_nat (length gone)
    ∧ (∀ id, id ∈ gone → ∃ r, r ∈ get (w_st w) ∧ row_id r = id ∧ where_ (get (w_st w)) r = true)
    ∧ w_st w' = put_ (deleted gone (get (w_st w))) (w_st w)
    ∧ (truncated = false → err = None ∧ deleted gone (get (w_st w)) = delete_where (where_ (get (w_st w))) (get (w_st w)))
    ∧ (err ≠ None → ¬ fault_free w)
    ∧ ((∀ n, cancelled n = false) → bo_budget o ≤ 0 → fault_free w → truncated = false)) w.
Proof.
  intros Hnd. eapply wp_mono; [by apply deleteRowsWhere_spec|].
  intros [[count truncated] err] w' (gone & [P1 P2 P3 P4 P5 P6 P7] & Htr). by exists gone.
Qed.
End Purge.

(** ** The transitions of the containers *)

Lemma max_elem {A} (f : A → Z) (l : list A) x : x ∈ l → ∃ m, m ∈ l ∧ ∀ u, u ∈ l → f u ≤ f m.
Proof.
  revert x. induction l as [|y l IH]; intros x Hx; [by apply elem_of_nil in Hx|]. destruct l as [|z l].
  - exists y. split; [by left|]. by intros u ->%list_elem_of_singleton.
  - destruct (IH z (list_elem_of_here _ _)) as (m & Hm & Hmax). destruct (decide (f m ≤ f y)) as [Hle|Hle].
    + exists y. split; [by left|]. intros u [->|Hu]%elem_of_cons; [done|]. specialize (Hmax u Hu). lia.
    + exists m. split; [by right|]. intros u [->|Hu]%elem_of_cons; [lia|by apply Hmax].
Qed.

(** A row that a later one supersedes: the latest of its container does, and stays. *)
Definition later_row (t later : StateTransition) : Prop :=
  st_ContainerID later = st_ContainerID t ∧ unix (st_Timestamp t) < unix (st_Timestamp later).

Lemma superseded_iff before rows t :
  superseded before rows t = true ↔ unix (st_Timestamp t) < unix before ∧ ∃ l, l ∈ rows ∧ later_row t l.
Proof.
  unfold superseded, later_row. rewrite andb_true_iff, bool_decide_eq_true, existsb_exists. f_equiv. f_equiv. intros l.
  by rewrite list_elem_of_In, andb_true_iff, !bool_decide_eq_true.
Qed.

Lemma later_survives before gone rows t l :
  (∀ r, r ∈ rows → row_id r ∈ gone → superseded before rows r = true) →
  l ∈ rows → later_row t l → ∃ m, m ∈ deleted gone rows ∧ later_row t m.
Proof.
  intros Hgone Hl [Hc Hlt].
  destruct (max_elem (λ u, unix (st_Timestamp u)) (filter (λ u, st_ContainerID u = st_ContainerID t) rows) l)
    as (m & [Hmc Hm]%list_elem_of_filter & Hmax); [by apply list_elem_of_filter|].
  exists m. assert (unix (st_Timestamp l) ≤ unix (st_Timestamp m)) by (apply Hmax; by apply list_elem_of_filter).
  split; [|split; [done|lia]]. apply deleted_elem. split; [done|]. intros Hid.
  apply (Hgone m Hm), superseded_iff in Hid as (_ & u & Hu & Huc & Hult).
  assert (unix (st_Timestamp u) ≤ unix (st_Timestamp m)); [|lia]. apply Hmax, list_elem_of_filter. split; [congruence|done].
Qed.

Lemma superseded_settled before : settled (superseded before).
Proof.
  intros rows gone Hgone r Hr Hn. apply eq_true_iff_eq. rewrite !superseded_iff. f_equiv. split.
  - intros (l & [Hl _]%deleted_elem & ?). by exists l.
  - intros (l & Hl & Hlr). by eapply later_survives.
Qed.

Section Cleanup.
Context (cancelled : nat → bool) (scan : ∀ R, list R → list R) (scan_all : ∀ R l, scan R l ≡ₚ l).
Context (visit : dayUptimes → list (Z * dayUptime)) (visits_all : ∀ m, visit m ≡ₚ map_to_list m).

Definition gone_containers (before : Z) (s : history) : list string :=
  table_ids (select_where (archived_before before) (hy_containers s)).

Definition without_archived (before : Z) (s : history) : history :=
  s <| hy_containers ::= delete_where (archived_before before) |>
    <| hy_transitions ::= delete_where (λ t, bool_decide (st_ContainerID t ∈ gone_containers before s)) |>
    <| hy_container_daily ::= delete_where (λ r, bool_decide (dr_Monitor r ∈ gone_containers before s)) |>.

Lemma db_exec_noop (w : world history) :
  wp (db_exec (λ s : history, s)) (λ r w', w_st w' = w_st w) w.
Proof. apply wp_db_exec; [by intros w' [? _]|by intros w' (? & _)]. Qed.

Lemma DeleteArchived_spec before w :
  wp (DeleteArchivedContainersBefore before) (λ _ w', w_st w' = w_st w ∨ w_st w' = without_archived before (w_st w)) w.
Proof.
  unfold DeleteArchivedContainersBefore.
  apply wp_bind. eapply wp_mono; [apply db_exec_noop|]. intros [[]|e] w1 H1; [|apply wp_ret; by left].
  apply wp_bind. eapply wp_mono; [apply db_exec_noop|]. intros [[]|e] w2 H2; [|apply wp_ret; left; congruence].
  apply wp_bind. eapply wp_mono; [apply db_exec_noop|]. intros [[]|e] w3 H3; [|apply wp_ret; left; congruence].
  apply wp_bind. eapply wp_mono; [apply db_exec_noop|]. intros [[]|e] w4 H4; [|apply wp_ret; left; congruence].
  assert (w_st w4 = w_st w) as Hs by congruence.
  apply wp_bind, wp_gets, wp_bind. rewrite Hs. fold (gone_containers before (w_st w)). apply wp_db_exec.
  - intros w5 (Hs5 & _) _. apply wp_ret. left. congruence.
  - intros w5 (Hs5 & _). apply wp_ret. right. by rewrite Hs5, Hs.
Qed.

Lemma stored_delete rows (gone : list string) id day :
  id ∉ gone → stored_at (delete_where (λ r, bool_decide (dr_Monitor r ∈ gone)) rows) id day = stored_at rows id day.
Proof.
  intros Hid. unfold stored_at, delete_where. rewrite list_filter_filter. do 2 f_equal. apply list_filter_iff.
  intros r. unfold keyed. rewrite bool_decide_eq_false. split; [tauto|]. intros [<- <-]. done.
Qed.

(** C19: no transition is lost before it has been accounted for.  A cleanup of the
    containers, whatever fails in it, deletes a transition of a container it keeps
    only if the transition is older than the window and a later one of the same
    container stays; and then the uptime of every completed day that the raw rows
    had not lost yet has just been aggregated, and is still there. *)
Theorem transitions_accounted_for w at_ cfg p :
  let s := w_st w in
  let gone := gone_containers (at_ - rc_Archived cfg) s in
  NoDup (table_ids (hy_transitions s)) → NoDup (ct_ID <$> hy_containers s) →
  wp (runCleanup cancelled scan visit at_ true cfg p) (λ _ w',
    ∀ t, t ∈ hy_transitions s → t ∉ hy_transitions (w_st w') → st_ContainerID t ∉ gone →
      unix (st_Timestamp t) < unix (at_ - rc_Transitions cfg)
      ∧ (∃ later, later ∈ hy_transitions (w_st w') ∧ later_row t later)
      ∧ ∀ id day v, rolled containerUptimeTable s at_ (rc_Transitions cfg) id day = Some v → id ∉ gone →
          stored containerUptimeTable (w_st w') id day = Some v) w.
Proof.
  cbv zeta. intros Hnd Hndc. set (s := w_st w) in *. unfold runCleanup, rolledUp. cbn [negb].
  apply wp_bind, wp_bind. eapply wp_mono.
  { apply (rollup_spec visit visits_all containerUptimeTable). cbn [monitors_of]. by rewrite <- list_fmap_compose. }
  intros r w1 [_ Hr]. apply wp_ret. destruct r as [[]|e]; cbn [is_ok].
  2: { (* the rollup failed *)
    destruct Hr as [_ Hs1]. apply wp_bind, wp_ret, wp_bind. eapply wp_mono; [apply DeleteArchived_spec|].
    intros r w2 Hs2. apply wp_ret. rewrite Hs1 in Hs2. fold s in Hs2. intros t Ht Hnt Hc. destruct Hs2 as [Hs2|Hs2]; rewrite Hs2 in Hnt; [done|].
    exfalso. apply Hnt. cbn. apply delete_where_elem. split; [done|]. by apply bool_decide_eq_false. }
  destruct Hr as (news & Hs1 & Hnews). fold s in Hs1, Hnews. apply wp_bind, wp_bind. unfold deleteTransitionsBefore, purge.
  assert (hy_transitions (w_st w1) = hy_transitions s) as Ht1 by by rewrite Hs1.
  eapply wp_mono.
  { apply deleteRowsWhere_spec; [done|done|by intros []|apply superseded_settled|apply scan_all|by rewrite Ht1]. }
  intros o w2 (gone & [_ _ _ Hmatch Hs2 _ _] & _). rewrite Ht1 in Hmatch, Hs2. apply wp_ret, wp_bind.
  eapply wp_mono; [apply DeleteArchived_spec|]. intros r w3 Hs3. apply wp_ret. intros t Ht Hnt Hc.
  assert (gone_containers (at_ - rc_Archived cfg) (w_st w2) = gone_containers (at_ - rc_Archived cfg) s) as Hgc by by rewrite Hs2, Hs1.
  assert (∀ r, r ∈ hy_transitions s → row_id r ∈ gone → superseded (at_ - rc_Transitions cfg) (hy_transitions s) r = true) as Hgone.
  { intros r' Hr' Hid. apply Hmatch in Hid as (r2 & Hr2 & E & Hw). by rewrite (unique_row (hy_transitions s) r' r2) by done. }
  assert (∀ u, st_ContainerID u ∉ gone_containers (at_ - rc_Archived cfg) s →
    u ∈ hy_transitions (w_st w3) ↔ u ∈ deleted gone (hy_transitions s)) as Hafter.
  { intros u Hu. destruct Hs3 as [->| ->]; [by rewrite Hs2|]. unfold without_archived. cbn. rewrite delete_where_elem, Hgc, Hs2, bool_decide_eq_false.
    cbn. tauto. }
  assert (row_id t ∈ gone) as Htg.
  { destruct (decide (row_id t ∈ gone)) as [|Hn]; [done|]. exfalso. apply Hnt, Hafter; [done|]. by apply deleted_elem. }
  pose proof (Hgone t Ht Htg) as (Hold & l & Hl & Hlr)%superseded_iff. split_and!; [done| |].
  - destruct (later_survives _ gone _ t l Hgone Hl Hlr) as (m & Hm & Hmr). exists m. split; [|done].
    apply Hafter; [|done]. by rewrite (proj1 Hmr).
  - intros id day v Hv Hid. unfold stored. cbn [daily_table].
    transitivity (stored_at (hy_container_daily (w_st w2)) id day).
    + destruct Hs3 as [->| ->]; [done|]. unfold without_archived. cbn. rewrite Hgc. by apply stored_delete.
    + assert (hy_container_daily (w_st w2) = foldl upsert_daily (hy_container_daily s) news) as -> by by rewrite Hs2, Hs1.
      by rewrite stored_upserts, Hnews, Hv.
Qed.
End Cleanup.

(** ** Examples *)

Module RetentionExample.
Definition jan (d : Z) : Z := of_unix (1767225600 + (d - 1) * secondsPerDay).
Definition change (i id from to : string) (at_ : Z) : StateTransition := MkTransition i id from to None None None "" at_.

(** A container that has run since the first of January, stopped once on the second,
    and stopped again a hundred days later for five minutes. *)
Definition s0 : history :=
  empty_history <| hy_containers := [no_container <| ct_ID := "c" |>] |>
    <| hy_transitions := [change "1" "c" "created" "running" (jan 1); change "2" "c" "running" "exited" (jan 2);
                          change "3" "c" "exited" "running" (jan 3);
                          change "4" "c" "running" "exited" (jan 100 + 10 * hour);
                          change "5" "c" "exited" "running" (jan 100 + 10 * hour + 5 * minute)] |>.
Definition defaults : RetentionConfig := withDefaults (MkRetentionConfig 0 0 0 0 0 0 0 0 0 0 0 0 0 0 0).
Definition tenfifteen : Z := jan 100 + 10 * hour + 15 * minute.
Definition w0 : world history := calm_world tenfifteen s0.
Definition never : nat → bool := λ _, false.
Definition in_order_scan : ∀ R, list R → list R := λ _ l, l.

Definition after_cleanup : world history :=
  (runCleanup never in_order_scan map_to_list tenfifteen true defaults (MkPass 0 false) w0).2.

Lemma batched_purge_exact_witness :
  let o := deleteTransitionsBefore never in_order_scan (tenfifteen - 90 * day) (MkBatchOpts 2 0) w0 in
  o.1 = (3, false, None) ∧ table_ids (hy_transitions (w_st o.2)) = ["4"; "5"].
Proof.
  cbv zeta.
  assert (NoDup (table_ids (hy_transitions (w_st w0)))) as Hnd by by apply (bool_decide_unpack (NoDup _)).
  pose proof (batched_purge_exact never hy_transitions (λ l s, s <| hy_transitions := l |>) (superseded (tenfifteen - 90 * day))
    (in_order_scan StateTransition) (λ _ _, eq_refl) (λ _ _ _, eq_refl) ltac:(by intros []) (superseded_settled _)
    (λ _, reflexivity _) (MkBatchOpts 2 0) w0 Hnd) as H.
  assert ((deleteTransitionsBefore never in_order_scan (tenfifteen - 90 * day) (MkBatchOpts 2 0) w0).1 = (3, false, None)) as Hr
    by (vm_compute; reflexivity).
  split; [done|]. destruct (wp_result _ _ _ _ H Hr) as (gone & _ & _ & _ & Hs & Hall & _).
  destruct (Hall eq_refl) as [_ Hgone]. unfold deleteTransitionsBefore, purge. rewrite Hs, Hgone. vm_compute. reflexivity.
Defined.

Lemma transitions_accounted_for_witness :
  stored containerUptimeTable (w_st after_cleanup) "c" (unix (jan 99)) = Some (MkDayUptime 10000 0)
  ∧ change "1" "c" "created" "running" (jan 1) ∉ hy_transitions (w_st after_cleanup).
Proof.
  assert (change "1" "c" "created" "running" (jan 1) ∉ hy_transitions (w_st after_cleanup)) as Hgone.
  { intros Hin. assert ("1" ∈ table_ids (hy_transitions (w_st after_cleanup))) as Hid by by (apply (list_elem_of_fmap_2 row_id) in Hin).
    revert Hid. apply (bool_decide_unpack (_ ∉ _)). vm_compute. exact I. }
  split; [|done].
  pose proof (transitions_accounted_for never in_order_scan (λ _ _, reflexivity _) map_to_list (λ _, reflexivity _)
    w0 tenfifteen defaults (MkPass 0 false)) as H. cbv zeta in H.
  assert (NoDup (table_ids (hy_transitions (w_st w0)))) as Hnd by by apply (bool_decide_unpack (NoDup _)).
  specialize (H Hnd (NoDup_singleton _)).
  pose proof (wp_result _ _ _ _ H eq_refl (change "1" "c" "created" "running" (jan 1))) as Ht.
  destruct Ht as (_ & _ & Ht); [by left|done|by intros ?%elem_of_nil|].
  apply Ht; [vm_compute; reflexivity|by intros ?%elem_of_nil].
Defined.

(** What the last transition before the window says of its first hours goes with it:
    the container was up but for five minutes today, and so it is served before the
    cleanup; afterwards the day starts with the stop. *)
Example quiet_for_longer_than_the_window :
  match (GetContainerDailyUptime "c" 1 tenfifteen w0).1, (GetContainerDailyUptime "c" 1 tenfifteen after_cleanup).1 with
  | Ok l, Ok l' => (da_UptimePercent <$> l, da_UptimePercent <$> l') = ([Some 9918], [Some 6666])
  | _, _ => False
  end.
Proof. vm_compute. reflexivity. Qed.
End RetentionExample.
