(* ===== verification/GoFloat.v ===== *)
(** * Days computed in floating point

    The remaining days of a certificate are [int(d.Hours() / 24)], computed in
    binary floating point.  A [float64] is kept as the exact number it stands for,
    a significand over a power of two; each operation rounds to 53 bits, ties to
    even.  Exponents are not bounded: no value here comes near their limits. *)

From S2P Require Import Prelude.

#[local] Open Scope Z_scope.

(** [f_num / 2 ^ f_exp]. *)
Record float := MkFloat { f_num : Z; f_exp : Z }.

(** The integer next to [n / d], the even one of two. *)
Definition round_even (n d : Z) : Z :=
  let q := n / d in
  let r := n `mod` d in
  if bool_decide (2 * r < d) then q
  else if bool_decide (d < 2 * r) then q + 1
  else if Z.even q then q else q + 1.

(** [n * 2 ^ e], over one when [e] is negative, is the fraction
    [up n e / up d (- e)]. *)
Definition up (n e : Z) : Z := n * 2 ^ Z.max 0 e.

(** The exponent that gives [n / d] a significand of 53 binary digits. *)
Definition scale (n d : Z) : Z :=
  let e := 53 - (Z.log2 n - Z.log2 d) in
  if bool_decide (up d (- e) * 2 ^ 53 ≤ up n e) then e - 1 else e.

(** The float next to [n / d], where [0 < d]. *)
Definition float_of_ratio (n d : Z) : float :=
  if bool_decide (n = 0) then MkFloat 0 0
  else
    let e := scale (Z.abs n) d in
    MkFloat (Z.sgn n * round_even (up (Z.abs n) e) (up d (- e))) e.

(** [float64(k) + x] and [x / k], for an integer [k] with an exact [float64]. *)
Definition float_add_int (k : Z) (x : float) : float :=
  float_of_ratio (up k (f_exp x) + up (f_num x) (- f_exp x)) (up 1 (f_exp x)).

Definition float_div_int (x : float) (k : Z) : float :=
  float_of_ratio (up (f_num x) (- f_exp x)) (up 1 (f_exp x) * k).

(** [int(x)]. *)
Definition float_to_int (x : float) : Z := Z.quot (up (f_num x) (- f_exp x)) (up 1 (f_exp x)).

(** [d.Hours()]. *)
Definition Hours (d : Z) : float := float_add_int (Z.quot d hour) (float_of_ratio (Z.rem d hour) hour).

(** [int(d.Hours() / 24)]. *)
Definition days_of (d : Z) : Z := float_to_int (float_div_int (Hours d) 24).

(** [math.Round] is not used: half a day before the end of day 29 is day 29. *)
Example days_29 : days_of (30 * 24 * hour - 12 * hour) = 29.
Proof. vm_compute. reflexivity. Qed.

(** The last nanosecond of a day that is far enough counts as the next day. *)
Example days_rounded : days_of (2000 * 24 * hour - 1) = 2000.
Proof. vm_compute. reflexivity. Qed.

Example days_negative : days_of (- (24 * hour)) = -1.
Proof. vm_compute. reflexivity. Qed.

(** ** Rounding *)

Lemma round_even_lower k n d : 0 < d → k * d ≤ n → k ≤ round_even n d.
Proof.
  intros Hd Hk. assert (k ≤ n / d) by (apply Z.div_le_lower_bound; lia).
  unfold round_even. repeat case_bool_decide; repeat case_match; lia.
Qed.

Lemma round_even_upper k n d : 0 < d → n ≤ k * d → round_even n d ≤ k.
Proof.
  intros Hd Hk. pose proof (Z.div_mod n d ltac:(lia)) as Hn. pose proof (Z.mod_pos_bound n d Hd) as Hr.
  unfold round_even. set (q := n / d) in *. set (r := n `mod` d) in *. clearbody q r.
  assert (q < k ∨ q = k ∧ r = 0) as Hq by nia. repeat case_bool_decide; repeat case_match; lia.
Qed.

Lemma up_pos n e : 0 < n → 0 < up n e.
Proof. intros. unfold up. pose proof (Z.pow_pos_nonneg 2 (Z.max 0 e)). nia. Qed.

Lemma up_nonpos n e : e ≤ 0 → up n e = n.
Proof. intros. unfold up. rewrite Z.max_l by done. apply Z.mul_1_r. Qed.

Lemma up_nonneg n e : 0 ≤ e → up n e = n * 2 ^ e.
Proof. intros. unfold up. by rewrite Z.max_r. Qed.

(** A ratio below [2 ^ b] has at least [52 - b] binary digits after the point. *)
Lemma scale_bound n d b : 0 < n → 0 < d → 0 ≤ b → n ≤ d * 2 ^ b → 51 - b ≤ scale n d.
Proof.
  intros Hn Hd Hb Hle. assert (Z.log2 n - Z.log2 d ≤ b + 1); [|unfold scale; case_bool_decide; lia].
  pose proof (Z.log2_le_mono _ _ Hle) as Hl. rewrite Z.log2_mul_pow2 in Hl; lia.
Qed.

(** Rounding keeps a ratio between two integers, and keeps it away from an
    integer it is well below. *)
Lemma float_between n d k k' : 0 ≤ n → 0 < d → n ≤ d * 2 ^ 40 → k * d ≤ n → n ≤ k' * d →
  let x := float_of_ratio n d in
  0 ≤ f_exp x ∧ k * 2 ^ f_exp x ≤ f_num x ≤ k' * 2 ^ f_exp x.
Proof.
  intros Hn Hd Hb Hk Hk'. cbv zeta. unfold float_of_ratio. case_bool_decide as H0.
  { subst n. cbn. nia. }
  assert (0 < n) by lia. rewrite Z.abs_eq, Z.sgn_pos, Z.mul_1_l by lia. cbn [f_exp f_num].
  pose proof (scale_bound n d 40 ltac:(done) Hd ltac:(done) Hb) as He. set (e := scale n d) in *. clearbody e.
  rewrite up_nonneg, (up_nonpos d) by lia. pose proof (Z.pow_pos_nonneg 2 e). split; [lia|].
  split; [apply round_even_lower|apply round_even_upper]; nia.
Qed.

Lemma float_below n d k : 0 ≤ n → 0 < d → 0 < k → n ≤ d * 2 ^ 40 → 24 * n ≤ (24 * k - 1) * d →
  f_num (float_of_ratio n d) < k * 2 ^ f_exp (float_of_ratio n d).
Proof.
  intros Hn Hd H1 Hb Hk. unfold float_of_ratio. case_bool_decide as H0; [subst n; cbn; lia|].
  assert (0 < n) by lia. rewrite Z.abs_eq, Z.sgn_pos, Z.mul_1_l by lia. cbn [f_exp f_num].
  pose proof (scale_bound n d 40 ltac:(done) Hd ltac:(done) Hb) as He. set (e := scale n d) in *. clearbody e.
  rewrite up_nonneg, (up_nonpos d) by lia.
  assert (2 ^ 5 ≤ 2 ^ e) as Hp by (apply Z.pow_le_mono_r; lia). change (2 ^ 5) with 32 in Hp.
  enough (round_even (n * 2 ^ e) d ≤ k * 2 ^ e - 1) by lia. apply round_even_upper; nia.
Qed.

(** ** Hours and days *)

Definition day : Z := 24 * hour.

Lemma Hours_between d : 0 ≤ d ≤ max_int64 →
  let x := Hours d in
  0 ≤ f_exp x ∧ d / hour * 2 ^ f_exp x ≤ f_num x ≤ (d / hour + 1) * 2 ^ f_exp x.
Proof.
  intros Hd. cbv zeta. unfold Hours. rewrite Z.quot_div_nonneg, Z.rem_mod_nonneg by (done || lia).
  pose proof (Z.mod_pos_bound d hour ltac:(done)) as Hr.
  assert (0 ≤ d / hour) as Hq0 by (apply Z.div_pos; [lia|done]).
  assert (d / hour ≤ 3000000) as Hq.
  { apply Z.div_le_upper_bound; [done|]. unfold max_int64, hour, minute, second in *. lia. }
  destruct (float_between (d `mod` hour) hour 0 1) as (He & Hx); [lia|done|unfold hour, minute, second in *; lia|lia..|].
  set (x := float_of_ratio _ _) in *. set (h := d / hour) in *. clearbody x h. unfold float_add_int.
  rewrite (up_nonneg h), (up_nonneg 1), (up_nonpos (f_num x)) by lia. rewrite Z.mul_1_l. pose proof (Z.pow_pos_nonneg 2 (f_exp x)).
  apply float_between; [nia|lia|..]; [|nia..].
  assert ((h * 2 ^ f_exp x + f_num x) ≤ (h + 1) * 2 ^ f_exp x) by nia. change (2 ^ 40) with 1099511627776. nia.
Qed.

(** The days of a duration are its whole days, or one more when less than an
    hour is missing to it. *)
Lemma days_of_spec d : 0 ≤ d ≤ max_int64 →
  d / day ≤ days_of d ≤ d / day + 1 ∧ (d `mod` day < 23 * hour → days_of d = d / day).
Proof.
  intros Hd. destruct (Hours_between d Hd) as (He & Hx). unfold days_of.
  assert (0 ≤ d / hour ≤ 3000000) as Hq.
  { split; [apply Z.div_pos; [lia|done]|]. apply Z.div_le_upper_bound; [done|]. unfold max_int64, hour, minute, second in *. lia. }
  assert (d / day = d / hour / 24) as Hday by (unfold day; rewrite Z.div_div, (Z.mul_comm hour); done).
  assert (d `mod` day < 23 * hour → (d / hour) `mod` 24 < 23) as Hlate.
  { intros Hm. pose proof (Z.div_mod d day ltac:(done)) as E1. pose proof (Z.div_mod d hour ltac:(done)) as E2.
    pose proof (Z.div_mod (d / hour) 24 ltac:(done)) as E3. pose proof (Z.mod_pos_bound d hour ltac:(done)).
    rewrite Hday in E1. unfold day, hour, minute, second in *. lia. }
  rewrite Hday in *. set (x := Hours d) in *. set (h := d / hour) in *. clearbody x h.
  unfold float_div_int, float_to_int. rewrite (up_nonpos (f_num x)), (up_nonneg 1), Z.mul_1_l by lia.
  pose proof (Z.pow_pos_nonneg 2 (f_exp x)) as Hp. set (p := 2 ^ f_exp x) in *. clearbody p.
  pose proof (Z.div_mod h 24 ltac:(done)) as Eh. pose proof (Z.mod_pos_bound h 24 ltac:(done)) as Bh.
  set (k := h / 24) in *. assert (0 ≤ k) by (apply Z.div_pos; lia). clearbody k.
  assert (f_num x ≤ p * 24 * 2 ^ 40) as Hbig by (change (2 ^ 40) with 1099511627776; nia).
  destruct (float_between (f_num x) (p * 24) k (k + 1)) as (Hy & Hlo & Hhi); [nia|lia|done| | |].
  { assert (24 * k ≤ h) by lia. nia. }
  { assert (h + 1 ≤ 24 * (k + 1)) by lia. nia. }
  assert (h `mod` 24 < 23 → f_num (float_of_ratio (f_num x) (p * 24)) < (k + 1) * 2 ^ f_exp (float_of_ratio (f_num x) (p * 24))) as Hlt.
  { intros. apply float_below; [nia|lia|lia|done|]. assert (h + 1 ≤ 24 * (k + 1) - 1) by lia. nia. }
  set (y := float_of_ratio _ _) in *. clearbody y. rewrite (up_nonneg 1), (up_nonpos (f_num y)), Z.mul_1_l by lia.
  pose proof (Z.pow_pos_nonneg 2 (f_exp y)) as Hq2. set (q := 2 ^ f_exp y) in *. clearbody q.
  rewrite Z.quot_div_nonneg by nia. split; [split; [apply Z.div_le_lower_bound; nia|apply Z.div_le_upper_bound; nia]|].
  intros Hm. specialize (Hlt (Hlate Hm)). symmetry. apply (Z.div_unique _ _ _ (f_num y - k * q)); nia.
Qed.
