(* ===== verification/Certificate.v ===== *)
(** * Certificates: data, labels and checks

    [src/internal/certificate/model.go], [labels.go] and [checker.go].  What the
    code reads of an X.509 certificate is a record; verifying a chain, matching a
    hostname, dialling and parsing an OCSP response are operations of libraries,
    and parameters here. *)

From S2P Require Import Prelude.
From S2P Require Import GoFloat.
From S2P Require Import Tables.
From S2P Require Import GoStrings.
From S2P Require Import GoTime.
From S2P Require Import AlertModel.
From S2P Require Import Uid.
From S2P Require Import SwarmAlerts.
From S2P Require Import Container.
From Stdlib Require Import Ascii.

#[local] Open Scope string_scope.
#[local] Open Scope list_scope.
#[local] Open Scope Z_scope.

Definition StatusValid := "valid".
Definition StatusExpiring := "expiring".
Definition StatusExpired := "expired".
Definition cert_StatusError := "error".
Definition cert_StatusUnknown := "unknown".

Definition cert_SourceAuto := "auto".
Definition cert_SourceStandalone := "standalone".
Definition cert_SourceLabel := "label".

Definition AlertTypeExpiring := "expiring".
Definition AlertTypeExpired := "expired".
Definition AlertTypeChainInvalid := "chain_invalid".
Definition AlertTypeHostnameMismatch := "hostname_mismatch".
Definition AlertTypeOCSPRevoked := "ocsp_revoked".

(** ** Data *)

Record CertMonitor := MkCertMonitor {
  cm_ID : string;
  cm_Hostname : string;
  cm_Port : Z;
  cm_ServerName : string;
  cm_Source : string;
  cm_EndpointID : option string;
  cm_Status : string;
  cm_CheckIntervalSeconds : Z;
  cm_WarningThresholds : list Z;
  cm_LastAlertedThreshold : option Z;
  cm_LastCheckAt : option Z;
  cm_NextCheckAt : option Z;
  cm_LastError : string;
  cm_ExternalID : string;
  cm_CreatedAt : Z;
  cm_AgentID : string;
}.
#[export] Instance CertMonitor_eta : Eta CertMonitor := λ m,
  MkCertMonitor (cm_ID m) (cm_Hostname m) (cm_Port m) (cm_ServerName m) (cm_Source m) (cm_EndpointID m)
    (cm_Status m) (cm_CheckIntervalSeconds m) (cm_WarningThresholds m) (cm_LastAlertedThreshold m)
    (cm_LastCheckAt m) (cm_NextCheckAt m) (cm_LastError m) (cm_ExternalID m) (cm_CreatedAt m) (cm_AgentID m).
#[export] Instance CertMonitor_id : HasId CertMonitor := cm_ID.

Record CertCheckResult := MkCertCheckResult {
  cc_ID : string;
  cc_MonitorID : string;
  cc_SubjectCN : string;
  cc_IssuerCN : string;
  cc_IssuerOrg : string;
  cc_SANs : list string;
  cc_SerialNumber : string;
  cc_SignatureAlgorithm : string;
  cc_NotBefore : option Z;
  cc_NotAfter : option Z;
  cc_ChainValid : option bool;
  cc_ChainError : string;
  cc_HostnameMatch : option bool;
  cc_ErrorMessage : string;
  cc_CheckedAt : Z;
  cc_OCSPStapled : bool;
  cc_OCSPStatus : string;
  cc_OCSPProducedAt : option Z;
  cc_OCSPNextUpdate : option Z;
  cc_OCSPError : string;
}.
#[export] Instance CertCheckResult_eta : Eta CertCheckResult := λ r,
  MkCertCheckResult (cc_ID r) (cc_MonitorID r) (cc_SubjectCN r) (cc_IssuerCN r) (cc_IssuerOrg r) (cc_SANs r)
    (cc_SerialNumber r) (cc_SignatureAlgorithm r) (cc_NotBefore r) (cc_NotAfter r) (cc_ChainValid r)
    (cc_ChainError r) (cc_HostnameMatch r) (cc_ErrorMessage r) (cc_CheckedAt r) (cc_OCSPStapled r)
    (cc_OCSPStatus r) (cc_OCSPProducedAt r) (cc_OCSPNextUpdate r) (cc_OCSPError r).
#[export] Instance CertCheckResult_id : HasId CertCheckResult := cc_ID.

Record ChainCert := MkChainCert {
  cx_SubjectCN : string;
  cx_IssuerCN : string;
  cx_NotBefore : Z;
  cx_NotAfter : Z;
}.

Record CertChainEntry := MkChainEntry {
  cn_ID : string;
  cn_CheckResultID : string;
  cn_Position : Z;
  cn_Cert : ChainCert;
}.
#[export] Instance CertChainEntry_id : HasId CertChainEntry := cn_ID.

(** What a handshake or a push says of a certificate. *)
Record CheckCertificateResult := MkCheckCertificate {
  raw_SubjectCN : string;
  raw_IssuerCN : string;
  raw_IssuerOrg : string;
  raw_SANs : list string;
  raw_SerialNumber : string;
  raw_SignatureAlgorithm : string;
  raw_NotBefore : Z;
  raw_NotAfter : Z;
  raw_ChainValid : bool;
  raw_ChainError : string;
  raw_HostnameMatch : bool;
  raw_Chain : list ChainCert;
  raw_Error : string;
  raw_OCSPStapled : bool;
  raw_OCSPStatus : string;
  raw_OCSPProducedAt : option Z;
  raw_OCSPNextUpdate : option Z;
  raw_OCSPError : string;
}.
#[export] Instance CheckCertificateResult_eta : Eta CheckCertificateResult := λ r,
  MkCheckCertificate (raw_SubjectCN r) (raw_IssuerCN r) (raw_IssuerOrg r) (raw_SANs r) (raw_SerialNumber r)
    (raw_SignatureAlgorithm r) (raw_NotBefore r) (raw_NotAfter r) (raw_ChainValid r) (raw_ChainError r)
    (raw_HostnameMatch r) (raw_Chain r) (raw_Error r) (raw_OCSPStapled r) (raw_OCSPStatus r)
    (raw_OCSPProducedAt r) (raw_OCSPNextUpdate r) (raw_OCSPError r).

Record CreateCertificateInput := MkCreateCertificate {
  ci_Hostname : string;
  ci_Port : Z;
  ci_ServerName : string;
  ci_CheckIntervalSeconds : Z;
  ci_WarningThresholds : list Z;
}.

Record UpdateCertificateInput := MkUpdateCertificate {
  cu_CheckIntervalSeconds : option Z;
  cu_WarningThresholds : list Z;
}.

Definition DefaultWarningThresholds : list Z := [30; 14; 7; 3; 1].

(** ** Severity *)

Definition autoRenewableIssuers : list string := ["let's encrypt"; "zerossl"; "buypass"; "google trust services"].

Definition IsAutoRenewable (issuerOrg : string) : bool :=
  existsb (λ issuer, Contains (ToLower issuerOrg) issuer) autoRenewableIssuers.

Definition ExpiringSeverity (daysRemaining : Z) (issuerOrg : string) : string :=
  if IsAutoRenewable issuerOrg then
    if bool_decide (daysRemaining ≤ 3) then "critical"
    else if bool_decide (daysRemaining ≤ 7) then "warning" else "info"
  else
    if bool_decide (daysRemaining ≤ 7) then "critical"
    else if bool_decide (daysRemaining ≤ 14) then "warning" else "info".

(** [DaysRemaining], at the time the clock shows. *)
Definition DaysRemaining (r : CertCheckResult) (t : Z) : Z :=
  match cc_NotAfter r with
  | None => -1
  | Some notAfter => days_of (time_sub notAfter t)
  end.

(** ** Labels *)

Definition labelPBIgnore := "maintenant.ignore".

Definition IgnoredByLabels (labels : gmap string string) : bool :=
  let v := label labels labelPBIgnore in bool_decide (v = "true") || bool_decide (v = "1").

Definition tlsLabel := "maintenant.tls.certificates".

Record ParsedCertLabel := MkCertLabel { pl_Hostname : string; pl_Port : Z }.
#[export] Instance ParsedCertLabel_eq_dec : EqDecision ParsedCertLabel.
Proof. solve_decision. Defined.

(** [strings.ContainsAny] of a set of ASCII characters. *)
Definition ContainsAny (s : string) (chars : list ascii) : bool :=
  existsb (λ a, bool_decide (a ∈ chars)) (to_bytes s).

Definition validateHostname (h : string) : bool :=
  negb (bool_decide (h = "")) && negb (ContainsAny h (ascii_of_nat <$> [32; 9; 10; 13; 47]%nat)).

(** [net.JoinHostPort]. *)
Definition JoinHostPort (host port : string) : string :=
  if has_byte ":" (to_bytes host) then "[" +:+ host +:+ "]:" +:+ port else host +:+ ":" +:+ port.

(** [None] is any of the errors. *)
Definition parseCertEntry (entry : string) : option (string * Z) :=
  let entry := TrimPrefix (TrimPrefix entry "https://") "http://" in
  let entry := match index_byte "/" (to_bytes entry) with
               | Some i => of_bytes (take i (to_bytes entry))
               | None => entry
               end in
  match SplitHostPort entry with
  | None => if validateHostname entry then Some (entry, 443) else None
  | Some (host, portStr) =>
    if negb (validateHostname host) then None
    else match Atoi portStr with
         | Some port => if bool_decide (port < 1) || bool_decide (65535 < port) then None else Some (host, port)
         | None => None
         end
  end.

(** One entry of the label, with the keys seen and the targets found so far. *)
Definition add_entry (acc : gset string * list ParsedCertLabel) (entry : string) : gset string * list ParsedCertLabel :=
  let '(seen, results) := acc in
  let entry := TrimSpace entry in
  if bool_decide (entry = "") then acc
  else match parseCertEntry entry with
       | None => acc
       | Some (hostname, port) =>
         let key := JoinHostPort hostname (fmt_d port) in
         if bool_decide (key ∈ seen) then acc
         else ({[key]} ∪ seen, results ++ [MkCertLabel hostname port])
       end.

Definition ParseCertificateLabels (labels : gmap string string) : list ParsedCertLabel :=
  if IgnoredByLabels labels then []
  else match labels !! tlsLabel with
       | None => []
       | Some raw =>
         let raw := TrimSpace raw in
         if bool_decide (raw = "") then [] else (foldl add_entry (∅, []) (Split raw ",")).2
       end.

(** ** State *)

(** A handshake the program started, and whether the guard against private
    addresses was in place. *)
Record dial := MkDial {
  dl_Addr : string;
  dl_ServerName : string;
  dl_Guarded : bool;
}.

(** The tables, the monitors a manual check is running for, the handshakes
    started; then the events sent to the browsers and the signals sent to the
    alert engine. *)
Record certs := MkCerts {
  db_certs : list CertMonitor;
  db_cert_checks : list CertCheckResult;
  db_chain : list CertChainEntry;
  cert_checking : gset string;
  cert_dials : list dial;
  cert_events : list (string * list (string * value));
  cert_signals : list signal;
}.
#[export] Instance certs_eta : Eta certs := λ s,
  MkCerts (db_certs s) (db_cert_checks s) (db_chain s) (cert_checking s) (cert_dials s) (cert_events s)
    (cert_signals s).

Definition empty_certs : certs := MkCerts [] [] [] ∅ [] [] [].

(** ** Checks *)

Record X509 := MkX509 {
  x5_SubjectCommonName : string;
  x5_IssuerCommonName : string;
  x5_IssuerOrganization : list string;
  x5_DNSNames : list string;
  x5_SerialNumber : string;
  x5_SignatureAlgorithm : string;
  x5_NotBefore : Z;
  x5_NotAfter : Z;
}.

Record OcspResponse := MkOcsp {
  oc_Status : Z;
  oc_ProducedAt : Z;
  oc_NextUpdate : Z;
}.
Definition ocsp_Good : Z := 0.
Definition ocsp_Revoked : Z := 1.
Definition ocsp_Unknown : Z := 2.

(** The libraries, and the network behind them; a question asked twice may have
    two answers.  A sum is the text of an error, or an answer. *)
Class Tls := {
  leaf_Verify : nat → X509 → list X509 → option string;
  leaf_VerifyHostname : X509 → string → bool;
  DialInspect : nat → dial → string + (list X509 * string);
  ParseResponseForCert : string → X509 → X509 → string + OcspResponse;
  ProbeGuardDisabled : bool;
}.

Definition classifyTLSError (errStr : string) : string :=
  if Contains errStr "i/o timeout" || Contains errStr "deadline exceeded" then "TLS handshake timeout"
  else if Contains errStr "connection refused" then "connection refused"
  else if Contains errStr "no such host" then "hostname not found"
  else if Contains errStr "network is unreachable" then "network unreachable"
  else if Contains errStr "tls:" then "TLS error: " +:+ errStr
  else "connection failed: " +:+ errStr.

Definition classifyChainError (errStr : string) : string :=
  if Contains errStr "certificate has expired" then "expired chain certificate"
  else if Contains errStr "unknown authority" then "untrusted root or missing intermediate"
  else if Contains errStr "incompatible" then "incompatible certificate"
  else "chain validation failed: " +:+ errStr.

(** A result that holds an error only. *)
Definition failed_check (text : string) : CheckCertificateResult :=
  MkCheckCertificate "" "" "" [] "" "" zero_time zero_time false "" false [] text false "" None None "".

Definition chain_cert (c : X509) : ChainCert :=
  MkChainCert (x5_SubjectCommonName c) (x5_IssuerCommonName c) (x5_NotBefore c) (x5_NotAfter c).

Definition extractCertDetails (leaf : X509) (allCerts : list X509) : CheckCertificateResult :=
  failed_check ""
    <| raw_SubjectCN := x5_SubjectCommonName leaf |> <| raw_IssuerCN := x5_IssuerCommonName leaf |>
    <| raw_IssuerOrg := default "" (head (x5_IssuerOrganization leaf)) |> <| raw_SANs := x5_DNSNames leaf |>
    <| raw_SerialNumber := x5_SerialNumber leaf |> <| raw_SignatureAlgorithm := x5_SignatureAlgorithm leaf |>
    <| raw_NotBefore := x5_NotBefore leaf |> <| raw_NotAfter := x5_NotAfter leaf |>
    <| raw_Chain := chain_cert <$> allCerts |>.

Section Checker.
Context `{Lib : !Tls}.

Definition ask_tls {A} (answer : nat → A) : M certs A := consult (λ _ n, answer n).

Definition validateChain (leaf : X509) (intermediates : list X509) : M certs (bool * string) :=
  let! err := ask_tls (λ n, leaf_Verify n leaf intermediates) in
  ret (match err with None => (true, "") | Some text => (false, classifyChainError text) end).

(** Status, times and error of a response. *)
Definition parseOCSPResponse (raw : string) (leaf issuer : X509)
    : M certs (string * option Z * option Z * string) :=
  match ParseResponseForCert raw leaf issuer with
  | inl text => ret ("error", None, None, text)
  | inr resp =>
    let known status := (status, Some (oc_ProducedAt resp), Some (oc_NextUpdate resp), "") in
    let! stale := (if is_zero (oc_NextUpdate resp) then ret false
                   else let! t := now in ret (bool_decide (oc_NextUpdate resp < t))) in
    ret (if stale then known "unknown"
         else if bool_decide (oc_Status resp = ocsp_Good) then known "good"
         else if bool_decide (oc_Status resp = ocsp_Revoked) then known "revoked"
         else if bool_decide (oc_Status resp = ocsp_Unknown) then known "unknown"
         else ("error", None, None, "unexpected OCSP status: " +:+ fmt_d (oc_Status resp)))
  end.

Definition applyOCSPStaple (result : CheckCertificateResult) (ocspResponse : string) (certs_ : list X509)
    : M certs CheckCertificateResult :=
  if bool_decide (ocspResponse = "") then ret result
  else
    let result := result <| raw_OCSPStapled := true |> in
    match certs_ with
    | leaf :: issuer :: _ =>
      let! r := parseOCSPResponse ocspResponse leaf issuer in
      let '(status, producedAt, nextUpdate, errMsg) := r in
      ret (result <| raw_OCSPStatus := status |> <| raw_OCSPProducedAt := producedAt |>
                  <| raw_OCSPNextUpdate := nextUpdate |> <| raw_OCSPError := errMsg |>)
    | _ => ret (result <| raw_OCSPStatus := "error" |>
                       <| raw_OCSPError := "issuer certificate not available in chain" |>)
    end.

(** What the certificates of a handshake say, judged for [name]. *)
Definition CheckCertificateFromPeerCerts (certs_ : list X509) (name ocspResponse : string)
    : M certs CheckCertificateResult :=
  match certs_ with
  | [] => ret (failed_check "no TLS certificate presented")
  | leaf :: rest =>
    let result := extractCertDetails leaf certs_ in
    let! chain := validateChain leaf rest in
    let result := result <| raw_ChainValid := chain.1 |> <| raw_ChainError := chain.2 |>
                         <| raw_HostnameMatch := leaf_VerifyHostname leaf name |> in
    applyOCSPStaple result ocspResponse certs_
  end.

Definition checkCertificate (hostname : string) (port : Z) (serverName : string) (guarded : bool)
    : M certs CheckCertificateResult :=
  let validationName := if bool_decide (serverName = "") then hostname else serverName in
  let d := MkDial (hostname +:+ ":" +:+ fmt_d port) validationName guarded in
  do! modify (λ s, s <| cert_dials ::= λ l, l ++ [d] |>) in
  let! r := ask_tls (λ n, DialInspect n d) in
  match r with
  | inl text => ret (failed_check (classifyTLSError text))
  | inr (peer, ocspResponse) => CheckCertificateFromPeerCerts peer validationName ocspResponse
  end.

Definition CheckCertificateFrom (source hostname : string) (port : Z) (serverName : string)
    : M certs CheckCertificateResult :=
  checkCertificate hostname port serverName (bool_decide (source = cert_SourceLabel) && negb ProbeGuardDisabled).

Definition CheckCertificate (hostname : string) (port : Z) (serverName : string)
    : M certs CheckCertificateResult :=
  CheckCertificateFrom cert_SourceStandalone hostname port serverName.
End Checker.
