(* ===== verification/CertStore.v ===== *)
(** * Certificates: the store

    [src/internal/store/certificates.go].  A row is kept as it is read back: a
    time column holds a time truncated to the second, an optional text that is
    empty is NULL and comes back empty, a list of numbers or names goes through
    its JSON text unchanged. *)

From S2P Require Import Prelude.
From S2P Require Import GoFloat.
From S2P Require Import Tables.
From S2P Require Import GoStrings.
From S2P Require Import AlertModel.
From S2P Require Import Uid.
From S2P Require Import SwarmAlerts.
From S2P Require Import Container.
From S2P Require Import Certificate.

#[local] Open Scope string_scope.
#[local] Open Scope list_scope.
#[local] Open Scope Z_scope.

Definition ErrDuplicateMonitor := ESentinel "hostname:port already monitored".

Section Store.
Context `{Uuid_ : !Uuid}.

(** The unique index on (agent, host, port, server name). *)
Definition same_target (m r : CertMonitor) : bool :=
  bool_decide (cm_AgentID r = cm_AgentID m) && bool_decide (cm_Hostname r = cm_Hostname m)
  && bool_decide (cm_Port r = cm_Port m) && bool_decide (cm_ServerName r = cm_ServerName m).

(** The columns of a new row: never checked, never alerted. *)
Definition inserted_monitor (m : CertMonitor) (t : Z) : CertMonitor :=
  m <| cm_LastAlertedThreshold := None |> <| cm_LastCheckAt := None |>
    <| cm_NextCheckAt := db_time <$> cm_NextCheckAt m |> <| cm_LastError := "" |> <| cm_CreatedAt := db_time t |>.

(** The columns the conflict clause overwrites. *)
Definition upserted_monitor (m r : CertMonitor) : CertMonitor :=
  r <| cm_Source := cm_Source m |> <| cm_EndpointID := cm_EndpointID m |>
    <| cm_CheckIntervalSeconds := cm_CheckIntervalSeconds m |> <| cm_WarningThresholds := cm_WarningThresholds m |>
    <| cm_ExternalID := cm_ExternalID m |>.

(** The caller's monitor, with the identity the store gave it. *)
Definition identified (m : CertMonitor) : CertMonitor :=
  let agentID := uid_Agent (cm_AgentID m) in
  m <| cm_AgentID := agentID |>
    <| cm_ID := Uid.CertMonitor agentID (cm_Hostname m) (cm_Port m) (cm_ServerName m) |>.

(** [CreateMonitor]: the caller's monitor, completed. *)
Definition CreateMonitor (m : CertMonitor) : M certs (result CertMonitor) :=
  let! t := now in
  let! created := (if is_zero (cm_CreatedAt m) then now else ret (cm_CreatedAt m)) in
  let m := identified (m <| cm_CreatedAt := created |>) in
  let! failed := fault in
  if failed then ret (Err EStore)
  else
    let! rows := gets db_certs in
    if bool_decide (cm_ID m ∈ table_ids rows) then
      do! modify (λ s, s <| db_certs ::= update_id (cm_ID m) (upserted_monitor m) |>) in ret (Ok m)
    else if existsb (same_target m) rows then ret (Err ErrDuplicateMonitor)
    else do! modify (λ s, s <| db_certs ::= λ l, l ++ [inserted_monitor m t] |>) in ret (Ok m).

Definition GetMonitorByID (id : string) : M certs (result (option CertMonitor)) :=
  db_query (λ s, select_id id (db_certs s)).

Definition host_port (hostname : string) (port : Z) (serverName : string) (m : CertMonitor) : bool :=
  bool_decide (cm_Hostname m = hostname) && bool_decide (cm_Port m = port)
  && bool_decide (cm_ServerName m = serverName).

Definition GetMonitorByHostPort (hostname : string) (port : Z) (serverName : string)
    : M certs (result (option CertMonitor)) :=
  db_query (λ s, head (select_where (host_port hostname port serverName) (db_certs s))).

Definition GetMonitorByHostPortAgent (agentID : option string) (hostname : string) (port : Z) (serverName : string)
    : M certs (result (option CertMonitor)) :=
  let aid := match agentID with Some a => uid_Agent a | None => LocalAgent end in
  db_query (λ s, head (select_where (λ m, host_port hostname port serverName m
                                          && bool_decide (cm_AgentID m = aid)) (db_certs s))).

Definition GetMonitorByEndpointID (endpointID : string) : M certs (result (option CertMonitor)) :=
  db_query (λ s, head (select_where (λ m, bool_decide (cm_EndpointID m = Some endpointID)) (db_certs s))).

(** [ORDER BY hostname, port], and by next check with NULL first. *)
Definition by_host : relation CertMonitor := λ m1 m2,
  cm_Hostname m1 ≠ cm_Hostname m2 ∧ String.le (cm_Hostname m1) (cm_Hostname m2)
  ∨ cm_Hostname m1 = cm_Hostname m2 ∧ cm_Port m1 ≤ cm_Port m2.
Definition by_next_check : relation CertMonitor := λ m1 m2,
  match cm_NextCheckAt m1, cm_NextCheckAt m2 with
  | None, _ => True
  | Some _, None => False
  | Some t1, Some t2 => t1 ≤ t2
  end.
#[local] Instance by_host_dec : RelDecision by_host.
Proof. intros ??. unfold by_host. apply _. Defined.
#[local] Instance by_next_check_dec : RelDecision by_next_check.
Proof. intros m1 m2. unfold by_next_check. repeat case_match; apply _. Defined.

(** [status] and [source] empty, or no agent, filter nothing. *)
Definition ListMonitors (status source : string) (agentFilter : option string) : M certs (result (list CertMonitor)) :=
  db_query (λ s, merge_sort by_host (select_where (λ m,
    (bool_decide (status = "") || bool_decide (cm_Status m = status))
    && (bool_decide (source = "") || bool_decide (cm_Source m = source))
    && match agentFilter with
       | None => true
       | Some a => bool_decide (cm_AgentID m = if bool_decide (a = "local") then LocalAgent else a)
       end) (db_certs s))).

Definition CountStandaloneMonitors : M certs (result Z) :=
  db_query (λ s, Z.of_nat (length
    (select_where (λ m, bool_decide (cm_Source m = cert_SourceStandalone)) (db_certs s)))).

(** The columns an update writes. *)
Definition updated_monitor (m r : CertMonitor) : CertMonitor :=
  r <| cm_Status := cm_Status m |> <| cm_CheckIntervalSeconds := cm_CheckIntervalSeconds m |>
    <| cm_WarningThresholds := cm_WarningThresholds m |> <| cm_LastAlertedThreshold := cm_LastAlertedThreshold m |>
    <| cm_LastCheckAt := db_time <$> cm_LastCheckAt m |> <| cm_NextCheckAt := db_time <$> cm_NextCheckAt m |>
    <| cm_LastError := cm_LastError m |>.

Definition UpdateMonitor_store (m : CertMonitor) : M certs (result unit) :=
  db_exec (λ s, s <| db_certs ::= update_id (cm_ID m) (updated_monitor m) |>).

(** With the check results and the chains that hang on the monitor. *)
Definition removed_monitor (id : string) (s : certs) : certs :=
  let gone := table_ids (select_where (λ r, bool_decide (cc_MonitorID r = id)) (db_cert_checks s)) in
  s <| db_certs ::= delete_where (λ m, bool_decide (cm_ID m = id)) |>
    <| db_cert_checks ::= delete_where (λ r, bool_decide (cc_MonitorID r = id)) |>
    <| db_chain ::= delete_where (λ e, bool_decide (cn_CheckResultID e ∈ gone)) |>.

Definition DeleteMonitor_store (id : string) : M certs (result unit) := db_exec (removed_monitor id).

(** ** Check results *)

Definition stored_check (r : CertCheckResult) : CertCheckResult :=
  r <| cc_NotBefore := db_time <$> cc_NotBefore r |> <| cc_NotAfter := db_time <$> cc_NotAfter r |>
    <| cc_CheckedAt := db_time (cc_CheckedAt r) |> <| cc_OCSPProducedAt := db_time <$> cc_OCSPProducedAt r |>
    <| cc_OCSPNextUpdate := db_time <$> cc_OCSPNextUpdate r |>.

(** The result with its new identifier, and whether it was stored; a monitor
    that is gone takes none. *)
Definition cert_InsertCheckResult (r : CertCheckResult) : M certs (CertCheckResult * result unit) :=
  let! id := new_uid in
  let r := r <| cc_ID := id |> in
  let! failed := fault in
  if failed then ret (r, Err EStore)
  else
    let! s := gets (λ s, s) in
    if negb (bool_decide (cc_MonitorID r ∈ table_ids (db_certs s))) then ret (r, Err EStore)
    else if bool_decide (id ∈ table_ids (db_cert_checks s)) then ret (r, Err EStore)
    else do! modify (λ s, s <| db_cert_checks ::= λ l, l ++ [stored_check r] |>) in ret (r, Ok tt).

(** The newest first; of two in the same second, the one inserted first. *)
Definition newest_first : relation CertCheckResult := by_key (λ r, - cc_CheckedAt r).

Definition checks_of (monitorID : string) (s : certs) : list CertCheckResult :=
  stable_sort newest_first (select_where (λ r, bool_decide (cc_MonitorID r = monitorID)) (db_cert_checks s)).

Definition GetLatestCheckResult (monitorID : string) : M certs (result (option CertCheckResult)) :=
  db_query (λ s, head (checks_of monitorID s)).

Definition maxPageSize : Z := 500.

(** A page of the history, and the number of results. *)
Definition ListCheckResults (monitorID : string) (limit offset : Z) : M certs (result (list CertCheckResult * Z)) :=
  let limit := Z.min (if bool_decide (limit ≤ 0) then 50 else limit) maxPageSize in
  let? total := db_query (λ s, Z.of_nat (length (checks_of monitorID s))) in
  let? page := db_query (λ s, take (Z.to_nat limit) (drop (Z.to_nat offset) (checks_of monitorID s))) in
  ret (Ok (page, total)).

(** ** Chains *)

Definition stored_chain (e : CertChainEntry) : CertChainEntry :=
  let c := cn_Cert e in
  MkChainEntry (cn_ID e) (cn_CheckResultID e) (cn_Position e)
    (MkChainCert (cx_SubjectCN c) (cx_IssuerCN c) (db_time (cx_NotBefore c)) (db_time (cx_NotAfter c))).

Fixpoint InsertChainEntries (entries : list CertChainEntry) : M certs (result unit) :=
  match entries with
  | [] => ret (Ok tt)
  | e :: entries =>
    let! id := new_uid in
    let! failed := fault in
    if failed then ret (Err EStore)
    else
      let! s := gets (λ s, s) in
      if negb (bool_decide (cn_CheckResultID e ∈ table_ids (db_cert_checks s))) || bool_decide (id ∈ table_ids (db_chain s))
      then ret (Err EStore)
      else
        do! modify (λ s, s <| db_chain ::= λ l,
          l ++ [stored_chain (MkChainEntry id (cn_CheckResultID e) (cn_Position e) (cn_Cert e))] |>) in
        InsertChainEntries entries
  end.

Definition GetChainEntries (checkResultID : string) : M certs (result (list CertChainEntry)) :=
  db_query (λ s, stable_sort (by_key cn_Position)
    (select_where (λ e, bool_decide (cn_CheckResultID e = checkResultID)) (db_chain s))).

(** ** Scheduling and labels *)

(** A monitor the server dials itself and whose time has come. *)
Definition is_due (t : Z) (m : CertMonitor) : bool :=
  (bool_decide (cm_Source m = cert_SourceStandalone) || bool_decide (cm_Source m = cert_SourceLabel))
  && bool_decide (cm_AgentID m = LocalAgent)
  && match cm_NextCheckAt m with None => true | Some next => bool_decide (unix next ≤ unix t) end.

Definition ListDueScheduledMonitors (t : Z) : M certs (result (list CertMonitor)) :=
  db_query (λ s, merge_sort by_next_check (select_where (is_due t) (db_certs s))).

Definition of_label (agentID externalID : string) (m : CertMonitor) : bool :=
  bool_decide (cm_AgentID m = uid_Agent agentID) && bool_decide (cm_ExternalID m = externalID)
  && bool_decide (cm_Source m = cert_SourceLabel).

Definition ListMonitorsByExternalID (agentID externalID : string) : M certs (result (list CertMonitor)) :=
  db_query (λ s, select_where (of_label agentID externalID) (db_certs s)).

Definition cert_CountConfigured : M certs (result Z) := db_query (λ s, Z.of_nat (length (db_certs s))).
End Store.
