(* ===== verification/CertService.v ===== *)
(** * Certificates: the service

    [src/internal/certificate/service.go], [agent_event.go] and the callback that
    [src/internal/app/wiring.go] installs.  A scan is a handshake, or what an
    agent or an endpoint probe pushed; [processCheckResult] runs under the mutex
    of the service, so scans are processed one after another, in the order in
    which their handshakes ended. *)

From S2P Require Import Prelude.
From S2P Require Import GoFloat.
From S2P Require Import Tables.
From S2P Require Import GoStrings.
From S2P Require Import GoTime.
From S2P Require Import AlertModel.
From S2P Require Import Uid.
From S2P Require Import SwarmAlerts.
From S2P Require Import Container.
From S2P Require Import ContainerService.
From S2P Require Import EndpointLabels.
From S2P Require Import Certificate.
From S2P Require Import CertStore.
From Stdlib Require Import Ascii.

#[local] Open Scope string_scope.
#[local] Open Scope list_scope.
#[local] Open Scope Z_scope.

Definition ErrMonitorNotFound := ESentinel "certificate monitor not found".
Definition ErrAutoDetectedMonitor := ESentinel "hostname:port already monitored via endpoint auto-detection".
Definition ErrInvalidInput := ESentinel "invalid input".
Definition ErrCannotDeleteAuto := ESentinel "cannot delete auto-detected certificate monitors".
Definition ErrCertLimitReached := ESentinel "certificate monitor limit reached".
Definition ErrAgentScanned := ESentinel "certificate is scanned by a remote agent".
Definition ErrCertCheckInProgress := ESentinel "a check is already running for this monitor".

Definition CertificateCreated := "certificate.created".
Definition CertificateCheckCompleted := "certificate.check_completed".
Definition CertificateStatusChanged := "certificate.status_changed".
Definition CertificateAlert := "certificate.alert".
Definition CertificateRecovery := "certificate.recovery".
Definition CertificateDeleted := "certificate.deleted".

(** What the running edition allows, read at every call. *)
Class CertLicense := {
  CanCreateCertificate : nat → Z → bool;
  allows_ocsp : nat → bool;
}.

(** The certificate a remote agent pushed. *)
Record CertificateInfo := MkCertificateInfo {
  pc_Host : string;
  pc_Port : Z;
  pc_SubjectCn : string;
  pc_IssuerCn : string;
  pc_NotBefore : option Z;
  pc_NotAfter : option Z;
  pc_SanDns : list string;
}.

(** [%v] of the values an alert message shows. *)
Definition fmt_v (v : value) : string :=
  match v with VString s => s | VInt z => fmt_d z | _ => "<nil>" end.

(** [u.Hostname()] and [u.Port()] of a URL with this host. *)
Definition valid_port (l : bytes) : bool :=
  match l with
  | [] => true
  | c :: l => Ascii.eqb c ":" && forallb (λ a, bool_decide (is_Some (digit a))) l
  end.

Definition url_host_port (host : string) : string * string :=
  let l := to_bytes host in
  let '(h, p) := match last_index_byte ":" l with
                 | Some i => if valid_port (drop i l) then (take i l, drop (S i) l) else (l, [])
                 | None => (l, [])
                 end in
  let h := if bool_decide (head h = Some "["%char) && bool_decide (last h = Some "]"%char)
           then slice h 1 (length h - 1) else h in
  (of_bytes h, of_bytes p).

Section Service.
Context `{Uuid_ : !Uuid} `{Tls_ : !Tls} `{Licence : !CertLicense} `{Lib : !Parsers}.
(** The JSON text of the details of an alert, and a time in the local zone. *)
Context (json : list (string * value) → details) (rfc3339 : Z → string).
(** The order in which the handshakes of a scheduled run end. *)
Context (finish : list CertMonitor → list CertMonitor).

(** ** Events and alerts *)

Definition certificateRecoveryEvent (m : list (string * value)) (t : Z) : Event :=
  let alertType := toString (map_value m "previous_alert_type") in
  let host := toString (map_value m "hostname") in
  let msg :=
    if bool_decide (alertType = AlertTypeChainInvalid) then "Certificate chain for " +:+ host +:+ " verifies again"
    else if bool_decide (alertType = AlertTypeHostnameMismatch) then "Certificate for " +:+ host +:+ " matches its hostname again"
    else if bool_decide (alertType = AlertTypeOCSPRevoked) then "Certificate for " +:+ host +:+ " is no longer reported revoked"
    else "Certificate renewed for " +:+ host in
  MkEvent "certificate" alertType SeverityInfo true msg "certificate" (toString (map_value m "monitor_id")) host
    (agentIDOf m) (json m) t.

Definition certificateAlertEvent (m : list (string * value)) (t : Z) : Event :=
  let certAlertType := match map_value m "alert_type" with VString s => s | _ => "" end in
  let severity := match map_value m "severity" with
                  | VString s => if bool_decide (s = "") then SeverityCritical else s
                  | _ => SeverityCritical
                  end in
  MkEvent "certificate" certAlertType severity false
    ("Certificate alert (" +:+ certAlertType +:+ ") for " +:+ fmt_v (map_value m "hostname") +:+ ":"
      +:+ fmt_v (map_value m "port"))
    "certificate" (toString (map_value m "monitor_id")) (toString (map_value m "hostname")) (agentIDOf m) (json m) t.

Definition send_cert_signal (g : signal) : M certs unit := modify (λ s, s <| cert_signals ::= λ l, l ++ [g] |>).

(** The callback of [wireCertificateEvents]. *)
Definition certificate_callback (eventType : string) (m : list (string * value)) : M certs unit :=
  if bool_decide (eventType = CertificateDeleted) then
    send_cert_signal (SigResolve "certificate" (toString (map_value m "monitor_id")))
  else if bool_decide (eventType = CertificateAlert) then
    let! t := now in send_cert_signal (SigAlert (certificateAlertEvent m t))
  else if bool_decide (eventType = CertificateRecovery) then
    let! t := now in send_cert_signal (SigAlert (certificateRecoveryEvent m t))
  else ret tt.

Definition emit_cert (eventType : string) (data : list (string * value)) : M certs unit :=
  do! modify (λ s, s <| cert_events ::= λ l, l ++ [(eventType, data)] |>) in
  certificate_callback eventType data.

(** ** One scan *)

Definition sameSecond (a b : option Z) : bool :=
  match a, b with
  | Some a, Some b => bool_decide (unix a = unix b)
  | None, None => true
  | _, _ => false
  end.

Definition sameBool (a b : option bool) : bool := bool_decide (a = b).

Definition sameOutcome (a b : CertCheckResult) : bool :=
  bool_decide (cc_ErrorMessage a = cc_ErrorMessage b) && bool_decide (cc_SubjectCN a = cc_SubjectCN b)
  && bool_decide (cc_IssuerCN a = cc_IssuerCN b) && bool_decide (cc_IssuerOrg a = cc_IssuerOrg b)
  && bool_decide (cc_SANs a = cc_SANs b) && bool_decide (cc_SerialNumber a = cc_SerialNumber b)
  && bool_decide (cc_SignatureAlgorithm a = cc_SignatureAlgorithm b)
  && sameSecond (cc_NotBefore a) (cc_NotBefore b) && sameSecond (cc_NotAfter a) (cc_NotAfter b)
  && sameBool (cc_ChainValid a) (cc_ChainValid b) && bool_decide (cc_ChainError a = cc_ChainError b)
  && sameBool (cc_HostnameMatch a) (cc_HostnameMatch b)
  && bool_decide (cc_OCSPStapled a = cc_OCSPStapled b) && bool_decide (cc_OCSPStatus a = cc_OCSPStatus b)
  && bool_decide (cc_OCSPError a = cc_OCSPError b).

(** The thresholds, largest first. *)
Definition descending (thresholds : list Z) : list Z := reverse (merge_sort Z.le thresholds).

Definition computeStatus (raw : CheckCertificateResult) (thresholds : list Z) : M certs string :=
  let! t := now in
  if bool_decide (raw_NotAfter raw < t) then ret StatusExpired
  else
    let! t' := now in
    let daysRemaining := days_of (time_sub (raw_NotAfter raw) t') in
    ret (if existsb (λ threshold, bool_decide (daysRemaining ≤ threshold)) (descending thresholds)
         then StatusExpiring else StatusValid).

Definition empty_result (monitorID : string) (t : Z) : CertCheckResult :=
  MkCertCheckResult "" monitorID "" "" "" [] "" "" None None None "" None "" t false "" None None "".

(** The result of a scan that read a certificate. *)
Definition scanned_result (monitorID : string) (raw : CheckCertificateResult) (ocsp : bool) (t : Z) : CertCheckResult :=
  let r := MkCertCheckResult "" monitorID (raw_SubjectCN raw) (raw_IssuerCN raw) (raw_IssuerOrg raw) (raw_SANs raw)
             (raw_SerialNumber raw) (raw_SignatureAlgorithm raw) (Some (raw_NotBefore raw)) (Some (raw_NotAfter raw))
             (Some (raw_ChainValid raw)) (raw_ChainError raw) (Some (raw_HostnameMatch raw)) "" t false "" None None "" in
  if ocsp then
    r <| cc_OCSPStapled := raw_OCSPStapled raw |> <| cc_OCSPStatus := raw_OCSPStatus raw |>
      <| cc_OCSPProducedAt := raw_OCSPProducedAt raw |> <| cc_OCSPNextUpdate := raw_OCSPNextUpdate raw |>
      <| cc_OCSPError := raw_OCSPError raw |>
  else r.

Definition chain_entries (checkID : string) (chain : list ChainCert) : list CertChainEntry :=
  imap (λ i c, MkChainEntry "" checkID (Z.of_nat i) c) chain.

Definition recordCheckResult (result : CertCheckResult) (raw : CheckCertificateResult) : M certs CertCheckResult :=
  let! r := cert_InsertCheckResult result in
  let '(result, stored) := r in
  match stored with
  | Err _ => ret result
  | Ok _ =>
    if bool_decide (raw_Chain raw = []) then ret result
    else do! InsertChainEntries (chain_entries (cc_ID result) (raw_Chain raw)) in ret result
  end.

Definition clearableAlerts : list string :=
  [AlertTypeChainInvalid; AlertTypeHostnameMismatch; AlertTypeOCSPRevoked; AlertTypeExpired].

(** The entry of [certProblems] under a clearable type. *)
Definition certProblem (r : CertCheckResult) (t : Z) (alertType : string) : bool :=
  if bool_decide (alertType = AlertTypeChainInvalid) then bool_decide (cc_ChainValid r = Some false)
  else if bool_decide (alertType = AlertTypeHostnameMismatch) then bool_decide (cc_HostnameMatch r = Some false)
  else if bool_decide (alertType = AlertTypeOCSPRevoked) then bool_decide (cc_OCSPStatus r = "revoked")
  else if bool_decide (alertType = AlertTypeExpired) then
    match cc_NotAfter r with Some notAfter => bool_decide (notAfter < t) | None => false end
  else false.

Definition withMonitor (m : CertMonitor) (data : list (string * value)) : list (string * value) :=
  data ++ ("agent_id", VString (uid_Agent (cm_AgentID m)))
       :: if bool_decide (cm_ServerName m = "") then [] else [("server_name", VString (cm_ServerName m))].

Definition monitor_data (m : CertMonitor) : list (string * value) :=
  [("monitor_id", VString (cm_ID m)); ("hostname", VString (cm_Hostname m)); ("port", VInt (cm_Port m))].

Definition cert_recovery (m : CertMonitor) (result : CertCheckResult) (alertType : string) : M certs unit :=
  let! t := now in
  let data := withMonitor m (monitor_data m ++
    [("previous_alert_type", VString alertType); ("days_remaining", VInt (DaysRemaining result t));
     ("timestamp", VString (rfc3339 (cc_CheckedAt result)))]) in
  emit_cert CertificateRecovery
    (data ++ match cc_NotAfter result with
             | Some notAfter => [("new_not_after", VString (rfc3339 notAfter))]
             | None => []
             end).

(** An alert of this type with these details. *)
Definition cert_alert (m : CertMonitor) (result : CertCheckResult) (alertType severity : string)
    (more : list (string * value)) : M certs unit :=
  emit_cert CertificateAlert (withMonitor m (monitor_data m ++
    [("alert_type", VString alertType); ("severity", VString severity)] ++ more ++
    [("timestamp", VString (rfc3339 (cc_CheckedAt result)))])).

(** The smallest threshold the certificate has crossed. *)
Definition crossedThreshold (daysRemaining : Z) (thresholds : list Z) : option Z :=
  foldl (λ crossed threshold, if bool_decide (daysRemaining ≤ threshold) then Some threshold else crossed)
    None (descending thresholds).

(** The alerts of the three conditions that do not depend on the time. *)
Definition condition_alerts (m : CertMonitor) (result : CertCheckResult) : M certs unit :=
  when! bool_decide (cc_ChainValid result = Some false) then
    cert_alert m result AlertTypeChainInvalid "critical" [("chain_error", VString (cc_ChainError result))] in
  when! bool_decide (cc_HostnameMatch result = Some false) then
    cert_alert m result AlertTypeHostnameMismatch "critical" [] in
  if bool_decide (cc_OCSPStatus result = "revoked") then
    cert_alert m result AlertTypeOCSPRevoked "critical"
      (match cc_OCSPProducedAt result with
       | Some t => [("ocsp_produced_at", VString (rfc3339 t))]
       | None => []
       end)
  else ret tt.

(** From the expiry date on: the monitor, with the threshold it last alerted at. *)
Definition expiry_alerts (m : CertMonitor) (result : CertCheckResult) (notAfter : Z) : M certs CertMonitor :=
  let! t := now in
  let daysRemaining := DaysRemaining result t in
  let! t' := now in
  if bool_decide (notAfter < t') then
    do! cert_alert m result AlertTypeExpired "critical"
      [("not_after", VString (rfc3339 notAfter)); ("days_remaining", VInt daysRemaining)] in
    ret m
  else
    match crossedThreshold daysRemaining (cm_WarningThresholds m), cm_LastAlertedThreshold m with
    | None, None => ret m
    | None, Some _ =>
      do! cert_recovery m result AlertTypeExpiring in ret (m <| cm_LastAlertedThreshold := None |>)
    | Some crossed, last =>
      if match last with None => true | Some l => bool_decide (crossed < l) end then
        do! cert_alert m result AlertTypeExpiring (ExpiringSeverity daysRemaining (cc_IssuerOrg result))
          [("threshold_days", VInt crossed); ("days_remaining", VInt daysRemaining);
           ("not_after", VString (rfc3339 notAfter)); ("issuer_org", VString (cc_IssuerOrg result));
           ("auto_renewable", VBool (IsAutoRenewable (cc_IssuerOrg result)))] in
        ret (m <| cm_LastAlertedThreshold := Some crossed |>)
      else ret m
    end.

(** The recoveries against the previous result. *)
Definition clear_alerts (m : CertMonitor) (result previous : CertCheckResult) : M certs unit :=
  for_each clearableAlerts (λ alertType,
    if negb (certProblem result (cc_CheckedAt result) alertType)
       && (certProblem previous (cc_CheckedAt result) alertType || negb (bool_decide (cc_ErrorMessage previous = "")))
    then cert_recovery m result alertType else ret tt).

Definition evaluateAlerts (m : CertMonitor) (result : CertCheckResult) (previous : option CertCheckResult)
    : M certs CertMonitor :=
  if negb (bool_decide (cc_ErrorMessage result = "")) then ret m
  else
    do! match previous with Some previous => clear_alerts m result previous | None => ret tt end in
    do! condition_alerts m result in
    match cc_NotAfter result with
    | None => ret m
    | Some notAfter => expiry_alerts m result notAfter
    end.

Definition opt_value {A} (key : string) (v : A → value) (o : option A) : list (string * value) :=
  match o with Some a => [(key, v a)] | None => [] end.

Definition text_value (key s : string) : list (string * value) :=
  if bool_decide (s = "") then [] else [(key, VString s)].

Definition emitCheckCompleted (m : CertMonitor) (result : CertCheckResult) : M certs unit :=
  let! days := (match cc_NotAfter result with
                | Some notAfter =>
                  let! t := now in
                  ret [("not_after", VString (rfc3339 notAfter)); ("days_remaining", VInt (DaysRemaining result t))]
                | None => ret []
                end) in
  emit_cert CertificateCheckCompleted
    ([("monitor_id", VString (cm_ID m)); ("hostname", VString (cm_Hostname m)); ("status", VString (cm_Status m));
      ("checked_at", VString (rfc3339 (cc_CheckedAt result)))]
     ++ text_value "server_name" (cm_ServerName m) ++ text_value "subject_cn" (cc_SubjectCN result)
     ++ text_value "issuer_cn" (cc_IssuerCN result) ++ days
     ++ opt_value "chain_valid" VBool (cc_ChainValid result)
     ++ opt_value "hostname_match" VBool (cc_HostnameMatch result)).

Definition scheduled_source (m : CertMonitor) : bool :=
  bool_decide (cm_Source m = cert_SourceStandalone) || bool_decide (cm_Source m = cert_SourceLabel).

(** The result of the scan, and the monitor with the status it gives. *)
Definition read_scan (m : CertMonitor) (raw : CheckCertificateResult) (t : Z) : M certs (CertMonitor * CertCheckResult) :=
  if negb (bool_decide (raw_Error raw = "")) then
    ret (m <| cm_Status := cert_StatusError |> <| cm_LastError := raw_Error raw |>,
         empty_result (cm_ID m) t <| cc_ErrorMessage := raw_Error raw |>)
  else
    let! ocsp := consult (λ _ n, allows_ocsp n) in
    let! status := computeStatus raw (cm_WarningThresholds m) in
    ret (m <| cm_Status := status |> <| cm_LastError := "" |>, scanned_result (cm_ID m) raw ocsp t).

(** Whether the result is kept: a pushed scan that says what the last one said
    is kept once per interval. *)
Definition worth_keeping (m : CertMonitor) (previous : option CertCheckResult) (result : CertCheckResult) (pushed : bool) (t : Z) : bool :=
  negb pushed
  || match previous with
     | None => true
     | Some previous =>
       bool_decide (seconds (cm_CheckIntervalSeconds m) ≤ time_sub t (cc_CheckedAt previous))
       || negb (sameOutcome previous result)
     end.

(** The monitor as the scan leaves it, and the result. *)
Definition processCheckResult (m : CertMonitor) (raw : CheckCertificateResult) (pushed : bool)
    : M certs (CertMonitor * CertCheckResult) :=
  let previousStatus := cm_Status m in
  let! latest := GetLatestCheckResult (cm_ID m) in
  let previous := match latest with Ok p => p | Err _ => None end in
  let! t := now in
  let! scan := read_scan m raw t in
  let '(m, result) := scan in
  let m := m <| cm_LastCheckAt := Some t |> in
  let m := if scheduled_source m
           then m <| cm_NextCheckAt := Some (t + seconds (cm_CheckIntervalSeconds m)) |> else m in
  let! result := (if worth_keeping m previous result pushed t then recordCheckResult result raw else ret result) in
  let! m := evaluateAlerts m result previous in
  do! UpdateMonitor_store m in
  do! emitCheckCompleted m result in
  when! negb (bool_decide (previousStatus = cm_Status m)) then
    (let! t' := now in
     emit_cert CertificateStatusChanged
       [("monitor_id", VString (cm_ID m)); ("hostname", VString (cm_Hostname m));
        ("previous_status", VString previousStatus); ("new_status", VString (cm_Status m));
        ("days_remaining", VInt (DaysRemaining result t')); ("timestamp", VString (rfc3339 t))]) in
  ret (m, result).

(** ** Monitors *)

Definition extractHostPort (targetURL : string) : result (string * Z) :=
  match url_Parse targetURL with
  | None => Err (ESentinel "parse URL")
  | Some (scheme, host) =>
    if negb (bool_decide (scheme = "https")) then Err (ESentinel "not an HTTPS URL")
    else
      let '(hostname, port) := url_host_port host in
      if bool_decide (hostname = "") then Err (ESentinel "no hostname in URL")
      else if bool_decide (port = "") then Ok (hostname, 443)
      else match Atoi port with
           | Some p => Ok (hostname, p)
           | None => Err (ESentinel "invalid port")
           end
  end.

Definition new_monitor (hostname : string) (port : Z) (source externalID agentID : string) : CertMonitor :=
  MkCertMonitor "" hostname port "" source None cert_StatusUnknown 43200 DefaultWarningThresholds None None None ""
    externalID zero_time agentID.

Definition created_data (m : CertMonitor) (source : string) : list (string * value) :=
  monitor_data m ++ [("source", VString source)].

Definition EnsureAutoDetected (endpointID targetURL : string) : M certs (result CertMonitor) :=
  match extractHostPort targetURL with
  | Err e => ret (Err e)
  | Ok (hostname, port) =>
    let? existing := GetMonitorByEndpointID endpointID in
    match existing with
    | Some m => ret (Ok m)
    | None =>
      let? existing := GetMonitorByHostPort hostname port "" in
      match existing with
      | Some m => ret (Ok m)
      | None =>
        let! r := CreateMonitor (new_monitor hostname port cert_SourceAuto "" "" <| cm_EndpointID := Some endpointID |>) in
        match r with
        | Ok m => do! emit_cert CertificateCreated (created_data m "auto") in ret (Ok m)
        | Err e =>
          if bool_decide (e = ErrDuplicateMonitor) then
            let? existing := GetMonitorByHostPort hostname port "" in
            ret (match existing with Some m => Ok m | None => Err e end)
          else ret (Err e)
        end
      end
    end
  end.

Definition ProcessAutoDetectedCerts (endpointID targetURL : string) (certs_ : list X509) (ocspResponse : string)
    : M certs unit :=
  if bool_decide (certs_ = []) then ret tt
  else
    match extractHostPort targetURL with
    | Err _ => ret tt
    | Ok (hostname, _) =>
      let! r := EnsureAutoDetected endpointID targetURL in
      match r with
      | Err _ => ret tt
      | Ok m =>
        let! result := CheckCertificateFromPeerCerts certs_ hostname ocspResponse in
        do! processCheckResult m result true in ret tt
      end
    end.

(** The settings of a new monitor, or the error of an invalid one. *)
Definition validate_standalone (i : CreateCertificateInput) : result CertMonitor :=
  let port := if bool_decide (ci_Port i ≤ 0) then 443 else ci_Port i in
  let interval := if bool_decide (ci_CheckIntervalSeconds i ≤ 0) then 43200 else ci_CheckIntervalSeconds i in
  let thresholds := match ci_WarningThresholds i with [] => DefaultWarningThresholds | l => l end in
  let serverName := TrimSpace (ci_ServerName i) in
  if bool_decide (ci_Hostname i = "") then Err ErrInvalidInput
  else if bool_decide (65535 < port) then Err ErrInvalidInput
  else if bool_decide (interval < 3600) then Err ErrInvalidInput
  else if bool_decide (604800 < interval) then Err ErrInvalidInput
  else if ContainsAny serverName [":"; "/"; " "]%char then Err ErrInvalidInput
  else Ok (MkCertMonitor "" (ci_Hostname i) port serverName cert_SourceStandalone None cert_StatusUnknown interval
             thresholds None None None "" "" zero_time "").

Definition cert_CreateStandalone (i : CreateCertificateInput) : M certs (result (CertMonitor * CertCheckResult)) :=
  match validate_standalone i with
  | Err e => ret (Err e)
  | Ok m =>
    let? count := CountStandaloneMonitors in
    let? existing := GetMonitorByHostPort (cm_Hostname m) (cm_Port m) (cm_ServerName m) in
    match existing with
    | Some e => ret (Err (if bool_decide (cm_Source e = cert_SourceAuto) then ErrAutoDetectedMonitor else ErrDuplicateMonitor))
    | None =>
      let! allowed := consult (λ _ n, CanCreateCertificate n count) in
      if negb allowed then ret (Err ErrCertLimitReached)
      else
        let? m := CreateMonitor m in
        do! emit_cert CertificateCreated
          (monitor_data m ++ [("server_name", VString (cm_ServerName m)); ("source", VString "standalone")]) in
        let! raw := CheckCertificate (cm_Hostname m) (cm_Port m) (cm_ServerName m) in
        let! r := processCheckResult m raw false in
        ret (Ok r)
    end
  end.

Definition cert_UpdateMonitor (id : string) (i : UpdateCertificateInput) : M certs (result CertMonitor) :=
  let? found := GetMonitorByID id in
  match found with
  | None => ret (Err ErrMonitorNotFound)
  | Some m =>
    let interval := default (cm_CheckIntervalSeconds m) (cu_CheckIntervalSeconds i) in
    if match cu_CheckIntervalSeconds i with
       | Some v => bool_decide (v < 3600) || bool_decide (604800 < v)
       | None => false
       end
    then ret (Err ErrInvalidInput)
    else
      let m := m <| cm_CheckIntervalSeconds := interval |> in
      let m := match cu_WarningThresholds i with [] => m | l => m <| cm_WarningThresholds := l |> end in
      do? UpdateMonitor_store m in
      ret (Ok m)
  end.

Definition deleted_data (m : CertMonitor) : list (string * value) :=
  [("monitor_id", VString (cm_ID m)); ("hostname", VString (cm_Hostname m))].

Definition cert_DeleteMonitor (id : string) : M certs (result unit) :=
  let? found := GetMonitorByID id in
  match found with
  | None => ret (Err ErrMonitorNotFound)
  | Some m =>
    if bool_decide (cm_Source m = cert_SourceAuto) then ret (Err ErrCannotDeleteAuto)
    else
      do? DeleteMonitor_store id in
      do! emit_cert CertificateDeleted (deleted_data (m <| cm_ID := id |>)) in
      ret (Ok tt)
  end.

(** Delete a row that was read, and say so. *)
Definition delete_monitor (m : CertMonitor) : M certs unit :=
  let! r := DeleteMonitor_store (cm_ID m) in
  match r with
  | Err _ => ret tt
  | Ok _ => emit_cert CertificateDeleted (deleted_data m)
  end.

Definition DeleteByEndpointID (endpointID : string) : M certs unit :=
  let! found := GetMonitorByEndpointID endpointID in
  match found with
  | Ok (Some m) => delete_monitor m
  | _ => ret tt
  end.

(** ** Monitors of labels *)

Definition target_key (hostname : string) (port : Z) : string := hostname +:+ ":" +:+ fmt_d port.

Definition kept (keep : option (gset string)) (m : CertMonitor) : bool :=
  match keep with
  | Some keys => bool_decide (target_key (cm_Hostname m) (cm_Port m) ∈ keys)
  | None => false
  end.

Definition deleteAgentLabelMonitors (agentID externalID : string) (keep : option (gset string)) : M certs unit :=
  let! found := ListMonitorsByExternalID agentID externalID in
  match found with
  | Err _ => ret tt
  | Ok monitors => for_each monitors (λ m, if kept keep m then ret tt else delete_monitor m)
  end.

Definition deleteLabelMonitors (externalID : string) (keep : option (gset string)) : M certs unit :=
  deleteAgentLabelMonitors LocalAgent externalID keep.

(** One declared target: created unless [lookup] finds a monitor for it. *)
Definition provision (lookup : M certs (result (option CertMonitor))) (m : CertMonitor) (more : list (string * value))
    : M certs unit :=
  let! existing := lookup in
  match existing with
  | Ok None =>
    let! r := CreateMonitor m in
    match r with
    | Err _ => ret tt
    | Ok m => emit_cert CertificateCreated (created_data m cert_SourceLabel ++ more)
    end
  | _ => ret tt
  end.

Definition desired_keys (parsed : list ParsedCertLabel) : gset string :=
  list_to_set ((λ p, target_key (pl_Hostname p) (pl_Port p)) <$> parsed).

Definition SyncFromLabels (containerExternalID : string) (labels : gmap string string) : M certs unit :=
  let parsed := ParseCertificateLabels labels in
  if bool_decide (parsed = []) then deleteLabelMonitors containerExternalID None
  else
    do! for_each parsed (λ p,
      provision (GetMonitorByHostPort (pl_Hostname p) (pl_Port p) "")
        (new_monitor (pl_Hostname p) (pl_Port p) cert_SourceLabel containerExternalID "") []) in
    deleteLabelMonitors containerExternalID (Some (desired_keys parsed)).

Definition cert_HandleContainerDestroy (externalID : string) : M certs unit := deleteLabelMonitors externalID None.

Definition SyncAgentCerts (agentID containerExternalID : string) (labels : gmap string string) : M certs unit :=
  let parsed := ParseCertificateLabels labels in
  if bool_decide (parsed = []) then deleteAgentLabelMonitors agentID containerExternalID None
  else
    do! for_each parsed (λ p,
      provision (GetMonitorByHostPortAgent (Some agentID) (pl_Hostname p) (pl_Port p) "")
        (new_monitor (pl_Hostname p) (pl_Port p) cert_SourceLabel containerExternalID agentID)
        [("agent_id", VString agentID)]) in
    deleteAgentLabelMonitors agentID containerExternalID (Some (desired_keys parsed)).

(** ** Scans *)

Definition GetMonitor (id : string) : M certs (result CertMonitor) :=
  let? found := GetMonitorByID id in
  ret (match found with Some m => Ok m | None => Err ErrMonitorNotFound end).

Definition scan_monitor (m : CertMonitor) : M certs unit :=
  let! raw := CheckCertificateFrom (cm_Source m) (cm_Hostname m) (cm_Port m) (cm_ServerName m) in
  do! processCheckResult m raw false in ret tt.

Definition runScheduledChecks : M certs unit :=
  let! t := now in
  let! due := ListDueScheduledMonitors t in
  match due with
  | Err _ => ret tt
  | Ok monitors => for_each (finish monitors) scan_monitor
  end.

Definition cert_CheckNow (monitorID : string) : M certs (result CertMonitor) :=
  let? m := GetMonitor monitorID in
  if negb (bool_decide (cm_AgentID m = LocalAgent)) then ret (Err ErrAgentScanned)
  else
    let! running := gets cert_checking in
    if bool_decide (monitorID ∈ running) then ret (Err ErrCertCheckInProgress)
    else
      do! modify (λ s, s <| cert_checking ::= union {[monitorID]} |>) in
      do! scan_monitor m in
      let! r := GetMonitor monitorID in
      do! modify (λ s, s <| cert_checking ::= λ c, c ∖ {[monitorID]} |>) in
      ret r.

(** ** Scans of remote agents *)

Definition agentCertToRaw (ev : CertificateInfo) : CheckCertificateResult :=
  failed_check "" <| raw_SubjectCN := pc_SubjectCn ev |> <| raw_IssuerCN := pc_IssuerCn ev |>
    <| raw_SANs := pc_SanDns ev |> <| raw_ChainValid := true |> <| raw_HostnameMatch := true |>
    <| raw_NotBefore := default zero_time (pc_NotBefore ev) |> <| raw_NotAfter := default zero_time (pc_NotAfter ev) |>.

Definition HandleCertificateEvent (agentID : string) (ev : CertificateInfo) : M certs (result unit) :=
  if bool_decide (pc_Host ev = "") || bool_decide (pc_Port ev = 0) then ret (Ok tt)
  else
    let? found := GetMonitorByHostPortAgent (Some agentID) (pc_Host ev) (pc_Port ev) "" in
    let? m := (match found with
               | Some m => ret (Ok m)
               | None =>
                 let? m := CreateMonitor (new_monitor (pc_Host ev) (pc_Port ev) cert_SourceLabel "" agentID) in
                 do! emit_cert CertificateCreated
                   (created_data m cert_SourceLabel ++ [("agent_id", VString agentID)]) in
                 ret (Ok m)
               end) in
    do! processCheckResult m (agentCertToRaw ev) true in
    ret (Ok tt).
End Service.
