(* ===== verification/CertScan.v ===== *)
(** * Certificates: what a scan does to the alerts

    The events of one scan, read by the alert they are about, and the row and the
    stored result the scan leaves.  Over a history of scans, with time passing
    between them, the alert of each condition is open exactly when the last scan
    that read a certificate met the condition, and the alert of a near expiry
    exactly when the row remembers a threshold. *)

From S2P Require Import Prelude.
From S2P Require Import GoFloat.
From S2P Require Import Tables.
From S2P Require Import GoStrings.
From S2P Require Import GoTime.
From S2P Require Import AlertModel.
From S2P Require Import AlertStore.
From S2P Require Import AlertRouting.
From S2P Require Import AlertEngine.
From S2P Require Import AlertInvariant.
From S2P Require Import AlertCorrect.
From S2P Require Import AlertTracker.
From S2P Require Import TrackerMirror.
From S2P Require Import Uid.
From S2P Require Import SwarmAlerts.
From S2P Require Import Container.
From S2P Require Import ContainerService.
From S2P Require Import EndpointLabels.
From S2P Require Import Certificate.
From S2P Require Import CertStore.
From S2P Require Import CertService.

#[local] Open Scope string_scope.
#[local] Open Scope list_scope.
#[local] Open Scope Z_scope.

(** The alerts among the signals. *)
Definition signal_alerts (l : list signal) : list Event :=
  omap (λ g, match g with SigAlert e => Some e | SigResolve _ _ => None end) l.

Definition cert_channel (id alertType : string) : channel := (alertType, id).

(** Later, with the same tables: [alerts] were sent. *)
Record sent (w : world certs) (alerts : list Event) (w' : world certs) : Prop := {
  sn_rows : db_certs (w_st w') = db_certs (w_st w);
  sn_checks : db_cert_checks (w_st w') = db_cert_checks (w_st w);
  sn_signals : cert_signals (w_st w') = cert_signals (w_st w) ++ (SigAlert <$> alerts);
  sn_env : w_env w' = w_env w;
  sn_tick : (w_tick w ≤ w_tick w')%nat;
}.

Lemma sent_same w w' : same w w' → sent w [] w'.
Proof. intros (Hs & He & Ht). split; rewrite ?Hs, ?app_nil_r; done. Qed.

Lemma sent_trans w1 w2 w3 a b : sent w1 a w2 → sent w2 b w3 → sent w1 (a ++ b) w3.
Proof.
  intros [R1 C1 S1 E1 T1] [R2 C2 S2 E2 T2]. split; [congruence|congruence| |congruence|lia].
  by rewrite S2, S1, fmap_app, app_assoc.
Qed.

(** The events a monitor's scan may send. *)
Definition about_monitor (id : string) (e : Event) : Prop :=
  sent_by "certificate" (λ _, "certificate") e ∧ ev_EntityID e = id.

Section Scan.
Context `{Tls_ : !Tls} `{Licence : !CertLicense}.
Context (json : list (string * value) → details) (rfc3339 : Z → string).

(** A piece of a scan that turns the alert [alertType] of the monitor on or off,
    or leaves it, and no other. *)
Definition turns (id : string) (w : world certs) (alertType : string) (b : option bool) (w' : world certs) : Prop :=
  ∃ alerts, sent w alerts w' ∧ Forall (about_monitor id) alerts
    ∧ ∀ ty b0, settle (cert_channel id ty) b0 alerts
        = if bool_decide (ty = alertType) then default b0 b else b0.

Lemma turns_same id w ty w' : same w w' → turns id w ty None w'.
Proof. intros H. exists []. split; [by apply sent_same|]. split; [done|]. intros. by case_bool_decide. Qed.

Lemma turns_one id w ty b w' e :
  sent w [e] w' → about_monitor id e → ev_AlertType e = ty → ev_IsRecover e = negb b → turns id w ty (Some b) w'.
Proof.
  intros Hs [He Hid] Hty Hb. exists [e]. split; [done|]. split; [by apply Forall_singleton|]. intros ty' b0. cbn.
  unfold about, channel_of, cert_channel. rewrite Hty, Hid, Hb, negb_involutive.
  destruct (bool_decide_reflect (ty' = ty)) as [->|Hne].
  - by rewrite bool_decide_eq_true_2.
  - rewrite bool_decide_eq_false_2; [done|]. by intros [= <-].
Qed.

(** Events that carry no alert. *)
Definition quiet_event (ty : string) : bool :=
  negb (bool_decide (ty ∈ [CertificateDeleted; CertificateAlert; CertificateRecovery])).

Lemma wp_emit_quiet ty data (Q : unit → world certs → Prop) w :
  quiet_event ty = true → (∀ w', sent w [] w' → Q tt w') → wp (emit_cert json ty data) Q w.
Proof.
  intros Hq HQ. apply wp_bind, wp_modify_put. intros w1 (S1 & E1 & T1). unfold certificate_callback.
  apply negb_true_iff, bool_decide_eq_false in Hq.
  rewrite !bool_decide_eq_false_2 by set_solver. apply wp_ret, HQ. split; rewrite ?S1; cbn; rewrite ?app_nil_r; done.
Qed.

Lemma wp_emit_alert data (Q : unit → world certs → Prop) w :
  (∀ t w', sent w [certificateAlertEvent json data t] w' → Q tt w') → wp (emit_cert json CertificateAlert data) Q w.
Proof.
  intros HQ. apply wp_bind, wp_modify_put. intros w1 (S1 & E1 & T1). unfold certificate_callback.
  rewrite bool_decide_eq_false_2, bool_decide_eq_true_2 by done. apply wp_bind, wp_now. intros w2 (S2 & E2 & T2).
  apply wp_modify. eapply HQ. split; cbn; rewrite ?S2, ?S1; cbn; (done || congruence || lia).
Qed.

Lemma wp_emit_recovery data (Q : unit → world certs → Prop) w :
  (∀ t w', sent w [certificateRecoveryEvent json data t] w' → Q tt w') → wp (emit_cert json CertificateRecovery data) Q w.
Proof.
  intros HQ. apply wp_bind, wp_modify_put. intros w1 (S1 & E1 & T1). unfold certificate_callback.
  rewrite !bool_decide_eq_false_2, bool_decide_eq_true_2 by done. apply wp_bind, wp_now. intros w2 (S2 & E2 & T2).
  apply wp_modify. eapply HQ. split; cbn; rewrite ?S2, ?S1; cbn; (done || congruence || lia).
Qed.

Lemma wp_cert_alert m r ty severity more (Q : unit → world certs → Prop) w :
  (∀ w', turns (cm_ID m) w ty (Some true) w' → Q tt w') → wp (cert_alert json rfc3339 m r ty severity more) Q w.
Proof. intros HQ. apply wp_emit_alert. intros t w' Hs. apply HQ. by eapply turns_one. Qed.

Lemma wp_cert_recovery m r ty (Q : unit → world certs → Prop) w :
  (∀ w', turns (cm_ID m) w ty (Some false) w' → Q tt w') → wp (cert_recovery json rfc3339 m r ty) Q w.
Proof.
  intros HQ. apply wp_bind, wp_now. intros w1 H1. apply wp_emit_recovery. intros t w' Hs. apply HQ.
  pose proof (sent_trans _ _ _ _ _ (sent_same _ _ H1) Hs) as H. by eapply turns_one.
Qed.

(** ** The effect on every alert of the monitor *)

(** [moves id w f w']: the alert of type [ty] goes from [b] to [f ty b]. *)
Definition moves (id : string) (w : world certs) (f : string → bool → bool) (w' : world certs) : Prop :=
  ∃ alerts, sent w alerts w' ∧ Forall (about_monitor id) alerts
    ∧ ∀ ty b, settle (cert_channel id ty) b alerts = f ty b.

Lemma moves_turns id w ty b w' f :
  turns id w ty b w' → (∀ ty' b0, f ty' b0 = if bool_decide (ty' = ty) then default b0 b else b0) → moves id w f w'.
Proof. intros (l & Hs & Hl & Hty) Hf. exists l. split_and!; [done..|]. intros. by rewrite Hty, Hf. Qed.

Lemma moves_same id w w' : same w w' → moves id w (λ _ b, b) w'.
Proof. intros H. exists []. split; [by apply sent_same|done]. Qed.

Lemma moves_quiet id w w' : sent w [] w' → moves id w (λ _ b, b) w'.
Proof. intros H. by exists []. Qed.

Lemma moves_trans id w1 w2 w3 f g : moves id w1 f w2 → moves id w2 g w3 → moves id w1 (λ ty b, g ty (f ty b)) w3.
Proof.
  intros (l1 & S1 & F1 & H1) (l2 & S2 & F2 & H2). exists (l1 ++ l2). split_and!.
  - by eapply sent_trans.
  - by apply Forall_app.
  - intros ty b. by rewrite settle_app, H1, H2.
Qed.

Lemma moves_ext id w f g w' : (∀ ty b, f ty b = g ty b) → moves id w f w' → moves id w g w'.
Proof. intros Hfg (l & Hs & Hl & H). exists l. split_and!; [done..|]. intros. by rewrite H. Qed.

Lemma moves_rows id w f w' : moves id w f w' → db_certs (w_st w') = db_certs (w_st w).
Proof. by intros (l & [] & _). Qed.
Lemma moves_checks id w f w' : moves id w f w' → db_cert_checks (w_st w') = db_cert_checks (w_st w).
Proof. by intros (l & [] & _). Qed.
Lemma moves_env id w f w' : moves id w f w' → w_env w' = w_env w.
Proof. by intros (l & [] & _). Qed.
Lemma moves_tick id w f w' : moves id w f w' → (w_tick w ≤ w_tick w')%nat.
Proof. by intros (l & [] & _). Qed.

(** Set the alert [ty] to [b] if [p], and leave it otherwise. *)
Definition set_if (p : bool) (ty : string) (b : bool) (ty' : string) (b0 : bool) : bool :=
  if p && bool_decide (ty' = ty) then b else b0.

Lemma wp_alert_if (p : bool) m r ty severity more (Q : unit → world certs → Prop) w :
  (∀ w', moves (cm_ID m) w (set_if p ty true) w' → Q tt w') →
  wp (if p then cert_alert json rfc3339 m r ty severity more else ret tt) Q w.
Proof.
  intros HQ. destruct p.
  - apply wp_cert_alert. intros w' H. apply HQ. eapply moves_turns; [exact H|]. done.
  - apply wp_ret, HQ. apply moves_same, same_refl.
Qed.

Lemma wp_recovery_if (p : bool) m r ty (Q : unit → world certs → Prop) w :
  (∀ w', moves (cm_ID m) w (set_if p ty false) w' → Q tt w') →
  wp (if p then cert_recovery json rfc3339 m r ty else ret tt) Q w.
Proof.
  intros HQ. destruct p.
  - apply wp_cert_recovery. intros w' H. apply HQ. eapply moves_turns; [exact H|]. done.
  - apply wp_ret, HQ. apply moves_same, same_refl.
Qed.

(** Whether the alert [ty] is cleared against the previous result. *)
Definition cleared (result previous : CertCheckResult) (ty : string) : bool :=
  negb (certProblem result (cc_CheckedAt result) ty)
  && (certProblem previous (cc_CheckedAt result) ty || negb (bool_decide (cc_ErrorMessage previous = ""))).

Definition clear_move (result previous : CertCheckResult) (ty : string) (b : bool) : bool :=
  if bool_decide (ty ∈ clearableAlerts) && cleared result previous ty then false else b.

Lemma wp_clear_alerts m result previous (Q : unit → world certs → Prop) w :
  (∀ w', moves (cm_ID m) w (clear_move result previous) w' → Q tt w') →
  wp (clear_alerts json rfc3339 m result previous) Q w.
Proof.
  intros HQ. unfold clear_alerts, clearableAlerts. cbn [for_each]. fold (cleared result previous AlertTypeChainInvalid).
  fold (cleared result previous AlertTypeHostnameMismatch). fold (cleared result previous AlertTypeOCSPRevoked).
  fold (cleared result previous AlertTypeExpired).
  apply wp_bind, wp_recovery_if. intros w1 H1. apply wp_bind, wp_recovery_if. intros w2 H2.
  apply wp_bind, wp_recovery_if. intros w3 H3. apply wp_bind, wp_recovery_if. intros w4 H4. apply wp_ret, HQ.
  eapply moves_ext; [|exact (moves_trans _ _ _ _ _ _ (moves_trans _ _ _ _ _ _ (moves_trans _ _ _ _ _ _ H1 H2) H3) H4)].
  intros ty b. unfold set_if, clear_move, clearableAlerts. generalize (cleared result previous). intros c.
  destruct (decide (ty = AlertTypeChainInvalid)) as [->|H01]; [vm_compute; by repeat case_match|].
  destruct (decide (ty = AlertTypeHostnameMismatch)) as [->|H02]; [vm_compute; by repeat case_match|].
  destruct (decide (ty = AlertTypeOCSPRevoked)) as [->|H03]; [vm_compute; by repeat case_match|].
  destruct (decide (ty = AlertTypeExpired)) as [->|H04]; [vm_compute; by repeat case_match|].
  rewrite !(bool_decide_eq_false_2 (ty = _)), !andb_false_r by done. rewrite bool_decide_eq_false_2; [done|].
  rewrite !elem_of_cons, elem_of_nil. tauto.
Qed.

(** ** Conditions and expiry *)

Definition timeless : list string := [AlertTypeChainInvalid; AlertTypeHostnameMismatch; AlertTypeOCSPRevoked].

Definition condition_move (result : CertCheckResult) (ty : string) (b : bool) : bool :=
  if bool_decide (ty ∈ timeless) && certProblem result 0 ty then true else b.

Lemma wp_condition_alerts m result (Q : unit → world certs → Prop) w :
  (∀ w', moves (cm_ID m) w (condition_move result) w' → Q tt w') →
  wp (condition_alerts json rfc3339 m result) Q w.
Proof.
  intros HQ. unfold condition_alerts. apply wp_bind, wp_alert_if. intros w1 H1. apply wp_bind, wp_alert_if. intros w2 H2.
  apply wp_alert_if. intros w3 H3. apply HQ.
  eapply moves_ext; [|exact (moves_trans _ _ _ _ _ _ (moves_trans _ _ _ _ _ _ H1 H2) H3)].
  intros ty b. unfold set_if, condition_move, certProblem, timeless.
  generalize (bool_decide (cc_ChainValid result = Some false)), (bool_decide (cc_HostnameMatch result = Some false)),
    (bool_decide (cc_OCSPStatus result = "revoked")). intros p q r.
  destruct (decide (ty = AlertTypeChainInvalid)) as [->|H01]; [vm_compute; by repeat case_match|].
  destruct (decide (ty = AlertTypeHostnameMismatch)) as [->|H02]; [vm_compute; by repeat case_match|].
  destruct (decide (ty = AlertTypeOCSPRevoked)) as [->|H03]; [vm_compute; by repeat case_match|].
  rewrite !(bool_decide_eq_false_2 (ty = AlertTypeChainInvalid)), !(bool_decide_eq_false_2 (ty = AlertTypeHostnameMismatch)),
    !(bool_decide_eq_false_2 (ty = AlertTypeOCSPRevoked)), !andb_false_r by done.
  rewrite (bool_decide_eq_false_2 (ty ∈ _)); [done|]. rewrite !elem_of_cons, elem_of_nil. tauto.
Qed.

(** The threshold remembered after a scan of an unexpired certificate. *)
Definition next_threshold (crossed last : option Z) : option Z :=
  match crossed, last with
  | None, _ => None
  | Some c, None => Some c
  | Some c, Some l => if bool_decide (c < l) then Some c else Some l
  end.

(** What the expiry date does: [t'] decides whether it has passed, [days] is what
    is left. *)
Definition expiry_move (expired : bool) (crossed last : option Z) (ty : string) (b : bool) : bool :=
  if expired then set_if true AlertTypeExpired true ty b
  else match crossed, last with
       | None, None => b
       | None, Some _ => set_if true AlertTypeExpiring false ty b
       | Some c, None => set_if true AlertTypeExpiring true ty b
       | Some c, Some l => set_if (bool_decide (c < l)) AlertTypeExpiring true ty b
       end.

Definition expiry_threshold (expired : bool) (crossed last : option Z) : option Z :=
  if expired then last else next_threshold crossed last.

Lemma wp_expiry_alerts m result notAfter (Q : CertMonitor → world certs → Prop) w :
  (∀ n n' w', (w_tick w ≤ n ≤ n')%nat → (n' < w_tick w')%nat →
    let expired := bool_decide (notAfter < env_now (w_env w) n') in
    let crossed := crossedThreshold (DaysRemaining result (env_now (w_env w) n)) (cm_WarningThresholds m) in
    let last := cm_LastAlertedThreshold m in
    moves (cm_ID m) w (expiry_move expired crossed last) w' →
    Q (m <| cm_LastAlertedThreshold := expiry_threshold expired crossed last |>) w') →
  wp (expiry_alerts json rfc3339 m result notAfter) Q w.
Proof.
  intros HQ. unfold expiry_alerts. apply wp_bind, wp_consult. intros w1 H1 T1.
  apply wp_bind, wp_consult. intros w2 H2 T2. specialize (HQ (w_tick w) (w_tick w1)).
  assert (env_now (w_env w1) (w_tick w1) = env_now (w_env w) (w_tick w1)) as -> by (f_equal; apply H1).
  set (t := env_now (w_env w) (w_tick w)) in *. set (t' := env_now (w_env w) (w_tick w1)) in *.
  pose proof (same_trans _ _ _ H1 H2) as H12. assert (∀ m' : CertMonitor, m' <| cm_LastAlertedThreshold := cm_LastAlertedThreshold m' |> = m') as Hself by by intros [].
  assert (∀ w' f, moves (cm_ID m) w2 f w' → (w_tick w1 < w_tick w')%nat ∧ moves (cm_ID m) w f w') as Hgo.
  { intros w' f Hm. pose proof (moves_tick _ _ _ _ Hm). split; [lia|].
    exact (moves_trans _ _ _ _ _ _ (moves_same _ _ _ H12) Hm). }
  set (crossed := crossedThreshold (DaysRemaining result t) (cm_WarningThresholds m)) in *.
  assert ((w_tick w ≤ w_tick w ≤ w_tick w1)%nat) as Ht by lia.
  case_bool_decide as Hexp.
  { apply wp_bind, wp_cert_alert. intros w3 H3. apply wp_ret. eapply moves_turns, Hgo in H3 as [H3 Hm]; [|done].
    specialize (HQ w3 Ht H3 Hm). unfold expiry_threshold in HQ. by rewrite Hself in HQ. }
  unfold expiry_move, expiry_threshold, next_threshold in HQ.
  destruct crossed as [c|], (cm_LastAlertedThreshold m) as [l|] eqn:Hl.
  - case_bool_decide as Hc.
    + apply wp_bind, wp_cert_alert. intros w3 H3. apply wp_ret. eapply moves_turns, Hgo in H3 as [H3 Hm]; [|done].
      apply HQ; [done..|]. eapply moves_ext; [|exact Hm]. done.
    + apply wp_ret. destruct (Hgo w2 _ (moves_same _ _ _ (same_refl _))) as [H3 Hm]. specialize (HQ w2 Ht H3 Hm).
      by rewrite <- Hl, Hself in HQ.
  - apply wp_bind, wp_cert_alert. intros w3 H3. apply wp_ret. eapply moves_turns, Hgo in H3 as [H3 Hm]; [|done].
    by apply HQ.
  - apply wp_bind, wp_cert_recovery. intros w3 H3. apply wp_ret. eapply moves_turns, Hgo in H3 as [H3 Hm]; [|done].
    by apply HQ.
  - apply wp_ret. destruct (Hgo w2 _ (moves_same _ _ _ (same_refl _))) as [H3 Hm]. specialize (HQ w2 Ht H3 Hm).
    rewrite <- Hl, Hself in HQ. done.
Qed.

(** All of it, for a scan that read a certificate. *)
Definition scan_move (result : CertCheckResult) (previous : option CertCheckResult) (expired : bool)
    (crossed last : option Z) (ty : string) (b : bool) : bool :=
  expiry_move expired crossed last ty
    (condition_move result ty (match previous with Some p => clear_move result p ty b | None => b end)).

Lemma wp_evaluateAlerts m result previous notAfter (Q : CertMonitor → world certs → Prop) w :
  cc_ErrorMessage result = "" → cc_NotAfter result = Some notAfter →
  (∀ n n' w', (w_tick w ≤ n ≤ n')%nat → (n' < w_tick w')%nat →
    let expired := bool_decide (notAfter < env_now (w_env w) n') in
    let crossed := crossedThreshold (DaysRemaining result (env_now (w_env w) n)) (cm_WarningThresholds m) in
    let last := cm_LastAlertedThreshold m in
    moves (cm_ID m) w (scan_move result previous expired crossed last) w' →
    Q (m <| cm_LastAlertedThreshold := expiry_threshold expired crossed last |>) w') →
  wp (evaluateAlerts json rfc3339 m result previous) Q w.
Proof.
  intros Herr Hna HQ. unfold evaluateAlerts. rewrite Herr, Hna. cbn [negb]. rewrite bool_decide_eq_true_2 by done. cbn [negb].
  apply wp_bind.
  apply (wp_mono _ (λ _ w', moves (cm_ID m) w (λ ty b, match previous with Some p => clear_move result p ty b | None => b end) w')).
  { destruct previous as [p|]; [by apply wp_clear_alerts|]. apply wp_ret, moves_same, same_refl. }
  intros _ w1 H1. apply wp_bind, wp_condition_alerts. intros w2 H2. apply wp_expiry_alerts.
  intros n n' w3 Hn Hn'. cbv zeta. intros H3. pose proof (moves_trans _ _ _ _ _ _ H1 H2) as H12.
  rewrite (moves_env _ _ _ _ H12) in *. pose proof (moves_tick _ _ _ _ H12).
  apply (HQ n n' w3); [lia|lia|]. exact (moves_trans _ _ _ _ _ _ H12 H3).
Qed.

(** ** One scan *)

(** The row, the stored results and the alerts after a scan of [m]. *)
Record processed (id : string) (upd : CertMonitor → CertMonitor) (stored : list CertCheckResult)
    (f : string → bool → bool) (w w' : world certs) : Prop := {
  pr_rows : db_certs (w_st w') = update_id id upd (db_certs (w_st w));
  pr_checks : db_cert_checks (w_st w') = db_cert_checks (w_st w) ++ stored;
  pr_alerts : ∃ alerts, cert_signals (w_st w') = cert_signals (w_st w) ++ (SigAlert <$> alerts)
    ∧ Forall (about_monitor id) alerts ∧ ∀ ty b, settle (cert_channel id ty) b alerts = f ty b;
  pr_env : w_env w' = w_env w;
  pr_tick : (w_tick w ≤ w_tick w')%nat;
}.

Lemma processed_moves id w f w' : moves id w f w' → processed id (λ m, m) [] f w w'.
Proof.
  intros (l & [R C S E T] & Hl & Hty). split; rewrite ?R, ?C, ?app_nil_r; [by rewrite update_id_self|done|by exists l|done..].
Qed.

Lemma processed_trans id u1 u2 s1 s2 f g w1 w2 w3 :
  (∀ r, cm_ID (u1 r) = cm_ID r) →
  processed id u1 s1 f w1 w2 → processed id u2 s2 g w2 w3 → processed id (u2 ∘ u1) (s1 ++ s2) (λ ty b, g ty (f ty b)) w1 w3.
Proof.
  intros Hid [R1 C1 (l1 & S1 & F1 & A1) E1 T1] [R2 C2 (l2 & S2 & F2 & A2) E2 T2]. split; [|by rewrite C2, C1, app_assoc| |congruence|lia].
  - rewrite R2, R1. by apply update_id_compose.
  - exists (l1 ++ l2). split_and!; [by rewrite S2, S1, fmap_app, app_assoc|by apply Forall_app|].
    intros. by rewrite settle_app, A1, A2.
Qed.

Lemma processed_ext id u u' s f f' w w' :
  (∀ r, u r = u' r) → (∀ ty b, f ty b = f' ty b) → processed id u s f w w' → processed id u' s f' w w'.
Proof.
  intros Hu Hf [R C (l & S & F & A) E T]. split; [|done| |done..].
  - rewrite R. unfold update_id, update_where. apply list_fmap_ext. intros. by rewrite Hu.
  - exists l. split_and!; [done..|]. intros. by rewrite A, Hf.
Qed.

Lemma wp_InsertChainEntries entries (Q : result unit → world certs → Prop) w :
  (∀ r w', sent w [] w' → Q r w') → wp (InsertChainEntries entries) Q w.
Proof.
  revert w. induction entries as [|e entries IH]; intros w HQ; cbn; [apply wp_ret, HQ, sent_same, same_refl|].
  apply wp_bind, wp_new_uid. intros w1 H1 _. apply wp_bind, wp_fault. intros b w2 H2 _.
  pose proof (sent_same _ _ (same_trans _ _ _ H1 H2)) as H12. destruct b; [by apply wp_ret, HQ|].
  apply wp_bind, wp_gets. destruct (_ || _); [by apply wp_ret, HQ|].
  apply wp_bind, wp_modify, IH. intros r w' H3. apply HQ. destruct H12 as [R C S E T], H3 as [R3 C3 S3 E3 T3]. cbn in *.
  split; [congruence|congruence| |congruence|lia]. by rewrite S3, S, !app_nil_r.
Qed.

(** Identifiers of results to come. *)
Definition fresh_checks (w : world certs) : Prop :=
  (∀ n n', env_uid (w_env w) n = env_uid (w_env w) n' → n = n')
  ∧ ∀ n, (w_tick w ≤ n)%nat → env_uid (w_env w) n ∉ table_ids (db_cert_checks (w_st w)).

Lemma fresh_same w w' : same w w' → fresh_checks w → fresh_checks w'.
Proof. intros (S & E & T) [F1 F2]. split; rewrite E, ?S; [done|]. intros n Hn. apply F2. lia. Qed.

Lemma fresh_insert w w' r n :
  fresh_checks w → w_env w' = w_env w → db_cert_checks (w_st w') = db_cert_checks (w_st w) ++ [r] →
  cc_ID r = env_uid (w_env w) n → (w_tick w ≤ n < w_tick w')%nat → (w_tick w ≤ w_tick w')%nat → fresh_checks w'.
Proof.
  intros [F1 F2] E C Hid Hn Ht. split; rewrite E; [done|]. intros n' Hn'. rewrite C. unfold table_ids. rewrite fmap_app, elem_of_app.
  cbn. intros [Hin|Heq%list_elem_of_singleton]; [eapply F2, Hin; lia|].
  change (row_id r) with (cc_ID r) in Heq. rewrite Hid in Heq. apply F1 in Heq. lia.
Qed.

Lemma wp_recordCheckResult r raw (Q : CertCheckResult → world certs → Prop) w :
  fault_free w → fresh_checks w → cc_MonitorID r ∈ table_ids (db_certs (w_st w)) →
  (∀ n w', (w_tick w ≤ n < w_tick w')%nat →
    let r' := r <| cc_ID := env_uid (w_env w) n |> in
    processed (cc_MonitorID r) (λ m, m) [stored_check r'] (λ _ b, b) w w' → Q r' w') →
  wp (recordCheckResult r raw) Q w.
Proof.
  intros Hff [_ Hfresh] Hin HQ. unfold recordCheckResult, cert_InsertCheckResult. apply wp_bind, wp_bind, wp_new_uid.
  intros w1 (S1 & E1 & _) T1. apply wp_bind, wp_fault. intros b w2 (S2 & E2 & T2) Hb. rewrite Hb by (by apply (fault_free_env w)).
  apply wp_bind, wp_gets. cbn [cc_MonitorID cc_ID]. rewrite S2, S1.
  change (cc_MonitorID (r <| cc_ID := _ |>)) with (cc_MonitorID r). rewrite bool_decide_eq_true_2 by done. cbn [negb].
  rewrite bool_decide_eq_false_2 by (apply Hfresh; lia).
  specialize (HQ (w_tick w)). set (r' := r <| cc_ID := _ |>) in *. apply wp_bind, wp_modify, wp_ret.
  assert (∀ w', sent (World (w_env w2) (w_tick w2) (w_st w2 <| db_cert_checks ::= λ l, l ++ [stored_check r'] |>)) [] w' → Q r' w') as Hdone.
  { intros w' [R C S E T]. cbn in *. apply HQ; [lia|]. split; rewrite ?R, ?C, ?S2, ?S1; cbn.
    - by rewrite update_id_self.
    - done.
    - exists []. split_and!; [|done..]. by rewrite S, S2, S1.
    - congruence.
    - lia. }
  case_bool_decide; [apply wp_ret, Hdone, sent_same, same_refl|].
  apply wp_bind, wp_InsertChainEntries. intros _ w' Hs. by apply wp_ret, Hdone.
Qed.

Lemma wp_emitCheckCompleted m r (Q : unit → world certs → Prop) w :
  (∀ w', sent w [] w' → Q tt w') → wp (emitCheckCompleted json rfc3339 m r) Q w.
Proof.
  intros HQ. unfold emitCheckCompleted. apply wp_bind. apply (wp_mono _ (λ _ w', same w w')).
  { destruct (cc_NotAfter r); [|apply wp_ret, same_refl]. apply wp_bind, wp_now. intros w1 H1. by apply wp_ret. }
  intros days w1 H1. apply wp_emit_quiet; [done|]. intros w2 H2. apply HQ. exact (sent_trans _ _ _ [] [] (sent_same _ _ H1) H2).
Qed.

Lemma wp_computeStatus raw thresholds (Q : string → world certs → Prop) w :
  (∀ status w', same w w' → Q status w') → wp (computeStatus raw thresholds) Q w.
Proof.
  intros HQ. unfold computeStatus. apply wp_bind, wp_now. intros w1 H1. case_bool_decide; [by apply wp_ret, HQ|].
  apply wp_bind, wp_now. intros w2 H2. apply wp_ret, HQ. by eapply same_trans.
Qed.

(** The monitor a scan leaves. *)
Definition after_scan (m : CertMonitor) (status err : string) (t : Z) (last : option Z) : CertMonitor :=
  let m := m <| cm_Status := status |> <| cm_LastError := err |> <| cm_LastCheckAt := Some t |> in
  let m := if scheduled_source m
           then m <| cm_NextCheckAt := Some (t + seconds (cm_CheckIntervalSeconds m)) |> else m in
  m <| cm_LastAlertedThreshold := last |>.

(** The result speaks of what the scan read. *)
Record reports (raw : CheckCertificateResult) (r : CertCheckResult) : Prop := {
  rp_error : cc_ErrorMessage r = raw_Error raw;
  rp_after : raw_Error raw = "" → cc_NotAfter r = Some (raw_NotAfter raw);
  rp_chain : raw_Error raw = "" → cc_ChainValid r = Some (raw_ChainValid raw);
  rp_host : raw_Error raw = "" → cc_HostnameMatch r = Some (raw_HostnameMatch raw);
  rp_ocsp : raw_Error raw = "" → ∃ n, cc_OCSPStatus r = if allows_ocsp n then raw_OCSPStatus raw else "";
}.

(** The clock readings of a scan: its time, the days left, the expiry. *)
Record readings := MkReadings { rd_checked : nat; rd_days : nat; rd_expiry : nat }.

Definition in_order (k : readings) (w w' : world certs) : Prop :=
  (w_tick w ≤ rd_checked k ≤ rd_days k)%nat ∧ (rd_days k ≤ rd_expiry k < w_tick w')%nat.

Section Readings.
Context (m : CertMonitor) (raw : CheckCertificateResult) (w : world certs) (k : readings).

Definition seen_expired : bool := bool_decide (raw_NotAfter raw < env_now (w_env w) (rd_expiry k)).
Definition seen_days : Z := days_of (time_sub (raw_NotAfter raw) (env_now (w_env w) (rd_days k))).
Definition seen_crossed : option Z := crossedThreshold seen_days (cm_WarningThresholds m).
Definition failed_scan : bool := negb (bool_decide (raw_Error raw = "")).

Definition threshold_after : option Z :=
  if failed_scan then cm_LastAlertedThreshold m
  else expiry_threshold seen_expired seen_crossed (cm_LastAlertedThreshold m).

Definition alerts_after (r : CertCheckResult) (ty : string) (b : bool) : bool :=
  if failed_scan then b
  else scan_move r (head (checks_of (cm_ID m) (w_st w))) seen_expired seen_crossed (cm_LastAlertedThreshold m) ty b.
End Readings.

(** A scan of [m] in [w], with result [r]. *)
Record scanned (m : CertMonitor) (raw : CheckCertificateResult) (w : world certs) (k : readings)
    (r : CertCheckResult) (w' : world certs) : Prop := {
  sc_order : in_order k w w';
  sc_time : cc_CheckedAt r = env_now (w_env w) (rd_checked k);
  sc_monitor : cc_MonitorID r = cm_ID m;
  sc_reports : reports raw r;
  sc_fresh : fresh_checks w';
  sc_effect : ∃ status stored,
    processed (cm_ID m) (updated_monitor (after_scan m status (raw_Error raw) (cc_CheckedAt r) (threshold_after m raw w k)))
      stored (alerts_after m raw w k r) w w'
    ∧ (stored = [stored_check r]
       ∨ stored = [] ∧ ∃ p, head (checks_of (cm_ID m) (w_st w)) = Some p ∧ sameOutcome p r = true);
}.

Lemma with_id_reports raw r id : reports raw r → reports raw (r <| cc_ID := id |>).
Proof. by intros []. Qed.

Lemma read_scan_reports m raw t (Q : CertMonitor * CertCheckResult → world certs → Prop) w :
  (∀ status r w', same w w' → reports raw r → cc_CheckedAt r = t → cc_MonitorID r = cm_ID m → cc_ID r = "" →
    Q (m <| cm_Status := status |> <| cm_LastError := raw_Error raw |>, r) w') →
  wp (read_scan m raw t) Q w.
Proof.
  intros HQ. unfold read_scan. destruct (bool_decide_reflect (raw_Error raw = "")) as [He|He]; cbn [negb].
  - apply wp_bind, wp_consult. intros w1 H1 _. apply wp_bind, wp_computeStatus. intros status w2 H2. apply wp_ret.
    set (ocsp := allows_ocsp _). pose proof (HQ status (scanned_result (cm_ID m) raw ocsp t) w2) as Hdone.
    rewrite He in Hdone. apply Hdone; [by eapply same_trans| |by destruct ocsp..].
    split; rewrite ?He; try (by destruct ocsp). intros _. exists (w_tick w). fold ocsp. by destruct ocsp.
  - apply wp_ret, HQ; [apply same_refl| |done..]. by split.
Qed.

Lemma wp_processCheckResult m raw pushed (Q : CertMonitor * CertCheckResult → world certs → Prop) w :
  fault_free w → fresh_checks w → cm_ID m ∈ table_ids (db_certs (w_st w)) →
  (∀ k r m' w', scanned m raw w k r w' → Q (m', r) w') →
  wp (processCheckResult json rfc3339 m raw pushed) Q w.
Proof.
  intros Hff Hfresh Hin HQ. unfold processCheckResult.
  apply wp_bind, wp_db_query; [by intros ?? []|]. intros w1 H1.
  set (previous := head (checks_of (cm_ID m) (w_st w))).
  apply wp_bind, wp_consult. intros w2 H2 T2. pose proof (same_trans _ _ _ H1 H2) as H12.
  assert (env_now (w_env w1) (w_tick w1) = env_now (w_env w) (w_tick w1)) as -> by (f_equal; apply H1).
  set (t := env_now (w_env w) (w_tick w1)) in *.
  apply wp_bind, read_scan_reports. intros status r w3 H3 Hr Ht Hm Hid. pose proof (same_trans _ _ _ H12 H3) as H13.
  set (m1 := if scheduled_source (_ <| cm_LastCheckAt := _ |>) then _ else _).
  assert (Hm1 : ∀ last, m1 <| cm_LastAlertedThreshold := last |> = after_scan m status (raw_Error raw) t last).
  { intros last. reflexivity. }
  assert (cm_ID m1 = cm_ID m ∧ cm_WarningThresholds m1 = cm_WarningThresholds m
    ∧ cm_LastAlertedThreshold m1 = cm_LastAlertedThreshold m) as (HmID & HmT & HmL).
  { unfold m1. by destruct (scheduled_source _). }
  clearbody m1.
  apply wp_bind. apply (wp_mono _ (λ r' w4, ∃ stored, reports raw r' ∧ cc_CheckedAt r' = t ∧ cc_MonitorID r' = cm_ID m
    ∧ processed (cm_ID m) (λ m, m) stored (λ _ b, b) w3 w4 ∧ fresh_checks w4
    ∧ (stored = [stored_check r'] ∨ stored = [] ∧ ∃ p, previous = Some p ∧ sameOutcome p r' = true))).
  { assert (fresh_checks w3) as Hfresh3 by by apply (fresh_same w). destruct (worth_keeping m1 previous r pushed t) eqn:Hkeep.
    - destruct H13 as (S13 & E13 & T13). apply wp_recordCheckResult; [by apply (fault_free_env w)|done|..].
      + by rewrite Hm, S13.
      + cbv zeta. intros n w4 Hn Hp4. exists [stored_check (r <| cc_ID := env_uid (w_env w3) n |>)].
        rewrite Hm in Hp4. split_and!; [by apply with_id_reports|done|done|done| |by left].
        eapply (fresh_insert w3); [done|apply Hp4|apply (pr_checks _ _ _ _ _ _ Hp4)|reflexivity|lia|lia].
    - apply wp_ret. exists []. split_and!; [done..|apply processed_moves, moves_same, same_refl|done|]. right. split; [done|].
      unfold worth_keeping in Hkeep. apply orb_false_iff in Hkeep as [_ Hkeep]. destruct previous as [p|]; [|done].
      exists p. split; [done|]. apply orb_false_iff in Hkeep as [_ Hkeep]. by apply negb_false_iff in Hkeep. }
  intros r' w4 (stored & Hr' & Ht' & Hmon & Hp & Hfresh4 & Hst). pose proof (pr_tick _ _ _ _ _ _ Hp) as T4.
  pose proof (processed_moves _ _ _ _ (moves_same (cm_ID m) _ _ H13)) as Hp0.
  pose proof (processed_trans _ _ _ _ _ _ _ _ _ _ (λ _, eq_refl) Hp0 Hp) as Hp4.
  assert (w_env w4 = w_env w) as E4 by apply Hp4.
  assert ((w_tick w ≤ w_tick w1 ∧ w_tick w1 < w_tick w3)%nat) as T13.
  { split; [apply H1|]. destruct H3 as (_ & _ & ?). lia. }
  apply wp_bind. apply (wp_mono _ (λ m2 w5, ∃ k, in_order k w w5 ∧ rd_checked k = w_tick w1
    ∧ m2 = m1 <| cm_LastAlertedThreshold := threshold_after m raw w k |>
    ∧ moves (cm_ID m) w4 (alerts_after m raw w k r') w5)).
  { unfold threshold_after, alerts_after, failed_scan. destruct (bool_decide_reflect (raw_Error raw = "")) as [He|He]; cbn [negb].
    - eapply (wp_evaluateAlerts m1 r' previous (raw_NotAfter raw)); [by rewrite (rp_error _ _ Hr')|by apply (rp_after _ _ Hr')|].
      intros n n' w5 Hn Hn'. cbv zeta. rewrite HmID, HmT, HmL, E4. intros Hmv.
      exists (MkReadings (w_tick w1) n n'). split_and!; [split; cbn; lia|done|..].
      + unfold seen_expired, seen_crossed, seen_days, DaysRemaining. by rewrite (rp_after _ _ Hr').
      + unfold seen_expired, seen_crossed, seen_days. unfold DaysRemaining in Hmv. by rewrite (rp_after _ _ Hr') in Hmv.
    - unfold evaluateAlerts. rewrite (rp_error _ _ Hr'), bool_decide_eq_false_2 by done. cbn [negb]. apply wp_ret.
      exists (MkReadings (w_tick w1) (w_tick w1) (w_tick w1)). split_and!; [split; cbn; lia|done| |apply moves_same, same_refl].
      rewrite <- HmL. by destruct m1. }
  intros m2 w5 (k & Hk & Hk1 & -> & Hmv). set (m2 := m1 <| cm_LastAlertedThreshold := _ |>).
  apply wp_bind, wp_db_exec.
  { intros ? _ []. apply (fault_free_env w); [|done]. rewrite (moves_env _ _ _ _ Hmv). done. }
  intros w6 H6. apply wp_bind, wp_emitCheckCompleted. intros w7 H7. apply wp_bind.
  apply (wp_mono _ (λ _ w8, sent w7 [] w8)).
  { destruct (negb _); [|apply wp_ret, sent_same, same_refl]. apply wp_bind, wp_now. intros w8 H8.
    apply wp_emit_quiet; [done|]. intros w9 H9. exact (sent_trans _ _ _ [] [] (sent_same _ _ H8) H9). }
  intros _ w8 H8. apply wp_ret, (HQ k). pose proof (sent_trans _ _ _ [] [] H7 H8) as H78.
  assert (processed (cm_ID m) (updated_monitor m2) [] (λ _ b, b) w5 w6) as Hp6.
  { destruct H6 as (S6 & E6 & T6). split; rewrite ?S6; cbn; rewrite ?app_nil_r; [|done| |done..].
    - unfold m2. by rewrite HmID.
    - exists []. by rewrite app_nil_r. }
  pose proof (processed_moves _ _ _ _ (moves_quiet (cm_ID m) _ _ H78)) as Hp8.
  pose proof (processed_moves _ _ _ _ Hmv) as Hp5.
  pose proof (processed_trans _ _ _ _ _ _ _ _ _ _ (λ _, eq_refl) Hp4 Hp5) as Hp45.
  pose proof (processed_trans _ _ _ _ _ _ _ _ _ _ (λ _, eq_refl) Hp45 Hp6) as Hp46.
  assert (∀ r0, cm_ID ((updated_monitor m2 ∘ (λ r1, r1)) r0) = cm_ID r0) as Hsame by done.
  pose proof (processed_trans _ _ _ _ _ _ _ _ _ _ Hsame Hp46 Hp8) as Hp48.
  split; [|by rewrite Ht', Hk1|done|done| |].
  - pose proof (pr_tick _ _ _ _ _ _ Hp6). pose proof (pr_tick _ _ _ _ _ _ Hp8). destruct Hk. split; lia.
  - destruct Hfresh4 as [F1 F2]. pose proof (pr_tick _ _ _ _ _ _ Hp5). pose proof (pr_tick _ _ _ _ _ _ Hp6).
    pose proof (pr_tick _ _ _ _ _ _ Hp8). split; rewrite (pr_env _ _ _ _ _ _ Hp48), <- E4; [done|]. intros n Hn.
    rewrite (pr_checks _ _ _ _ _ _ Hp8), (pr_checks _ _ _ _ _ _ Hp6), (pr_checks _ _ _ _ _ _ Hp5), !app_nil_r. apply F2. lia.
  - exists status, stored. split; [|done]. rewrite !app_nil_r in Hp48. eapply processed_ext; [| |exact Hp48]; [|done].
    intros r0. cbn. unfold m2. by rewrite Hm1, Ht'.
Qed.

(** ** What a scan makes of one alert *)

(** A membership among fixed names is decided by computation. *)
Ltac decide_in :=
  match goal with
  | |- _ ∉ _ => refine (proj1 (bool_decide_eq_false _) _); vm_compute; reflexivity
  | |- _ ∈ _ => refine (proj1 (bool_decide_eq_true _) _); vm_compute; reflexivity
  | H : _ ∈ _ |- _ => apply (bool_decide_eq_true_2 _) in H; vm_compute in H; discriminate
  end.

Lemma scan_move_clearable r previous expired crossed last ty notAfter t b :
  ty ∈ clearableAlerts → cc_NotAfter r = Some notAfter → expired = bool_decide (notAfter < t) → cc_CheckedAt r ≤ t →
  (b = true → ∃ p, previous = Some p ∧ (cc_ErrorMessage p ≠ "" ∨ certProblem p (cc_CheckedAt r) ty = true)) →
  scan_move r previous expired crossed last ty b = certProblem r t ty.
Proof.
  intros Hty Hna Hexp Ht Hb.
  assert (∀ t1 t2, ty ≠ AlertTypeExpired → certProblem r t1 ty = certProblem r t2 ty) as Htimeless.
  { intros t1 t2 Hne. unfold certProblem. by rewrite (bool_decide_eq_false_2 (ty = AlertTypeExpired)). }
  assert (ty = AlertTypeExpired ∨ ty ∈ timeless) as Hcases.
  { unfold clearableAlerts in Hty. unfold timeless. set_solver. }
  assert (ty ≠ AlertTypeExpiring) as Hexpiring by (intros ->; clear -Hty; decide_in).
  (* the recoveries *)
  assert (certProblem r t ty = false → match previous with Some p => clear_move r p ty b | None => b end = false) as Hclear.
  { intros Hno. destruct b; [|destruct previous; [unfold clear_move; by case_match|done]].
    destruct Hb as (p & -> & Hp); [done|]. unfold clear_move, cleared. rewrite bool_decide_eq_true_2 by done. cbn [andb].
    assert (certProblem r (cc_CheckedAt r) ty = false) as ->.
    { destruct Hcases as [->|Hin]; [|by rewrite (Htimeless _ t) by (intros ->; clear -Hin; decide_in)].
      unfold certProblem in *. cbn in *. rewrite Hna in *. apply bool_decide_eq_false in Hno. apply bool_decide_eq_false_2. lia. }
    cbn [negb andb]. destruct Hp as [He|Hp]; [|by rewrite Hp]. rewrite (bool_decide_eq_false_2 (cc_ErrorMessage p = "")) by done.
    by rewrite orb_true_r. }
  unfold scan_move. destruct Hcases as [->|Hin].
  - assert (certProblem r t AlertTypeExpired = expired) as Hprob by (unfold certProblem; cbn; by rewrite Hna).
    rewrite Hprob in *. unfold condition_move. rewrite (bool_decide_eq_false_2 (_ ∈ timeless)) by decide_in. cbn [andb].
    unfold expiry_move. destruct expired; [done|]. rewrite Hclear by done.
    unfold set_if. rewrite bool_decide_eq_false_2 by done. destruct crossed, last; by rewrite ?andb_false_r.
  - assert (ty ≠ AlertTypeExpired) as Hne by (intros ->; clear -Hin; decide_in).
    assert (∀ b, expiry_move expired crossed last ty b = b) as ->.
    { intros b0. unfold expiry_move, set_if. rewrite !bool_decide_eq_false_2 by done. destruct expired, crossed, last; by rewrite ?andb_false_r. }
    unfold condition_move. rewrite bool_decide_eq_true_2 by done. cbn [andb]. rewrite (Htimeless 0 t) by done.
    destruct (certProblem r t ty); [done|by apply Hclear].
Qed.

Lemma scan_move_expiring r previous expired crossed last b :
  b = bool_decide (is_Some last) →
  scan_move r previous expired crossed last AlertTypeExpiring b
  = bool_decide (is_Some (expiry_threshold expired crossed last)).
Proof.
  intros ->. assert (∀ b0, condition_move r AlertTypeExpiring
    (match previous with Some p => clear_move r p AlertTypeExpiring b0 | None => b0 end) = b0) as Hid.
  { intros b0. unfold condition_move, clear_move. rewrite (bool_decide_eq_false_2 (_ ∈ timeless)), (bool_decide_eq_false_2 (_ ∈ clearableAlerts)) by decide_in. by destruct previous. }
  unfold scan_move. rewrite Hid. unfold expiry_move, expiry_threshold, next_threshold, set_if.
  destruct expired; [by rewrite bool_decide_eq_false_2, andb_false_r|].
  destruct crossed as [c|], last as [l|]; [by destruct (bool_decide (c < l))|done..].
Qed.

(** ** Results, newest first *)

Lemma newest_snoc l x : (∀ y, y ∈ l → cc_CheckedAt y < cc_CheckedAt x) → head (stable_sort newest_first (l ++ [x])) = Some x.
Proof.
  intros Hl. pose proof (stable_sort_sorted newest_first (l ++ [x])) as Hs.
  pose proof (stable_sort_Permutation newest_first (l ++ [x])) as Hp. destruct (stable_sort _ _) as [|y k].
  { apply Permutation_nil in Hp. by destruct l. }
  cbn. f_equal. assert (y ∈ l ++ [x]) as [Hy|Hy%list_elem_of_singleton]%elem_of_app by (rewrite <- Hp; left); [|done].
  assert (x ∈ y :: k) as [->|Hx]%elem_of_cons by (rewrite Hp; set_solver); [done|].
  apply StronglySorted_inv in Hs as [_ Hs]. rewrite Forall_forall in Hs. specialize (Hs x Hx). specialize (Hl y Hy).
  unfold newest_first, by_key in Hs. lia.
Qed.

(** ** A history of scans *)

(** Read the monitor and process a scan of it, as every source of scans does. *)
Definition check_again (id : string) (raw : CheckCertificateResult) (pushed : bool) : M certs (option CertCheckResult) :=
  let! found := GetMonitorByID id in
  match found with
  | Ok (Some m) => let! r := processCheckResult json rfc3339 m raw pushed in ret (Some r.2)
  | _ => ret None
  end.

(** From now on the clock shows a later second than the stored results of [id]. *)
Definition later (id : string) (w : world certs) : Prop :=
  ∀ r n, r ∈ db_cert_checks (w_st w) → cc_MonitorID r = id → (w_tick w ≤ n)%nat →
    unix (cc_CheckedAt r) < unix (env_now (w_env w) n).

(** The worlds a history of scans of [id] leads to from [w0], newest scan first:
    time passes, and a scan comes in a second of its own. *)
Inductive visits (id : string) (w0 : world certs) : list (CheckCertificateResult * CertCheckResult) → world certs → Prop :=
  | visits_none : visits id w0 [] w0
  | visits_wait h w w' : visits id w0 h w → same w w' → visits id w0 h w'
  | visits_scan h w raw pushed r : visits id w0 h w → later id w → (check_again id raw pushed w).1 = Some r →
      visits id w0 ((raw, r) :: h) (check_again id raw pushed w).2.

(** The last scan that read a certificate. *)
Fixpoint last_read (h : list (CheckCertificateResult * CertCheckResult)) : option CertCheckResult :=
  match h with
  | [] => None
  | (raw, r) :: h => if bool_decide (raw_Error raw = "") then Some r else last_read h
  end.

Definition clock_monotone (w : world certs) : Prop :=
  ∀ n n', (n ≤ n')%nat → env_now (w_env w) n ≤ env_now (w_env w) n'.

(** The stored result and the one it stands for. *)
Definition stands_for (p r : CertCheckResult) : Prop :=
  cc_ErrorMessage p = cc_ErrorMessage r
  ∧ (cc_ErrorMessage r = "" → cc_ChainValid p = cc_ChainValid r ∧ cc_HostnameMatch p = cc_HostnameMatch r
     ∧ cc_OCSPStatus p = cc_OCSPStatus r ∧ cc_NotAfter p = db_time <$> cc_NotAfter r).

Lemma stands_for_stored r : stands_for (stored_check r) r.
Proof. by split. Qed.

Lemma sameSecond_db a b : sameSecond (db_time <$> a) b = true → db_time <$> a = db_time <$> b.
Proof.
  destruct a as [a|], b as [b|]; cbn; try done. intros Hs%bool_decide_eq_true. f_equal.
  rewrite unix_db_time in Hs. unfold db_time. by rewrite Hs.
Qed.

Lemma stands_for_same p r0 r :
  stands_for p r0 → sameOutcome p r = true → (cc_ErrorMessage r0 = "" → is_Some (cc_NotAfter r0)) → stands_for p r.
Proof.
  intros [He0 Hf0] Hs Hna. unfold sameOutcome, sameBool in Hs. rewrite !andb_true_iff, !bool_decide_eq_true in Hs.
  destruct Hs as ((((((((((((((He & _) & _) & _) & _) & _) & _) & _) & Ha) & Hc) & _) & Hh) & _) & Ho) & _).
  split; [done|]. intros Hr. rewrite <- He, He0 in Hr. destruct (Hf0 Hr) as (_ & _ & _ & Hp).
  split_and!; [done..|]. rewrite Hp in *. by apply sameSecond_db.
Qed.

(** A condition the stored result shows was met by the scan it stands for. *)
Lemma stands_for_problem p r t t' ty :
  stands_for p r → cc_ErrorMessage r = "" → ty ∈ clearableAlerts → t ≤ t' →
  certProblem r t ty = true → certProblem p t' ty = true.
Proof.
  intros [_ Hf] He Hty Ht Hr. destruct (Hf He) as (Hc & Hh & Ho & Ha). unfold certProblem in *.
  rewrite Hc, Hh, Ho, Ha. repeat case_bool_decide; try done.
  destruct (cc_NotAfter r) as [a|]; [|done]. cbn. apply bool_decide_eq_true in Hr. apply bool_decide_eq_true_2.
  pose proof (db_time_le a). lia.
Qed.

(** What holds after a history. *)
Record history_inv (id : string) (w0 : world certs) (h : list (CheckCertificateResult * CertCheckResult))
    (w : world certs) : Prop := {
  hi_env : w_env w = w_env w0;
  hi_fresh : fresh_checks w;
  hi_ids : NoDup (table_ids (db_certs (w_st w)));
  hi_alerts : ∃ alerts m, cert_signals (w_st w) = cert_signals (w_st w0) ++ (SigAlert <$> alerts)
    ∧ Forall (about_monitor id) alerts
    ∧ select_id id (db_certs (w_st w)) = Some m
    ∧ settle (cert_channel id AlertTypeExpiring) false alerts = bool_decide (is_Some (cm_LastAlertedThreshold m))
    ∧ ∀ ty, ty ∈ clearableAlerts →
        match last_read h with
        | None => settle (cert_channel id ty) false alerts = false
        | Some r => ∃ t, cc_CheckedAt r ≤ t ∧ (∀ n, (w_tick w ≤ n)%nat → t ≤ env_now (w_env w) n)
            ∧ settle (cert_channel id ty) false alerts = certProblem r t ty
        end;
  hi_latest : match h with
    | [] => checks_of id (w_st w) = []
    | (raw, r) :: _ => reports raw r ∧ ∃ p, head (checks_of id (w_st w)) = Some p ∧ stands_for p r
    end;
}.

(** A monitor that was just created: nothing stored, nothing alerted. *)
Definition unscanned (id : string) (w : world certs) : Prop :=
  checks_of id (w_st w) = [] ∧ ∃ m, select_id id (db_certs (w_st w)) = Some m ∧ cm_LastAlertedThreshold m = None.

Lemma unscanned_inv id w :
  fresh_checks w → NoDup (table_ids (db_certs (w_st w))) → unscanned id w → history_inv id w [] w.
Proof.
  intros Hf Hn (Hc & m & Hm & Hl). split; [done..| |done]. exists [], m. rewrite app_nil_r, Hl.
  split_and!; [done|constructor|done|done|done].
Qed.

Lemma history_wait id w0 h w w' : history_inv id w0 h w → same w w' → history_inv id w0 h w'.
Proof.
  intros [E F N (alerts & m & S & A & M & X & C) L] Hs. pose proof (fresh_same _ _ Hs F) as F'. destruct Hs as (Hs & He & Ht).
  split; rewrite ?Hs; [congruence|done|done| |done]. exists alerts, m. split_and!; [done..|]. intros ty Hty.
  specialize (C ty Hty). destruct (last_read h) as [r|]; [|done]. destruct C as (t & ? & Hn & ?). exists t.
  split_and!; [done| |done]. intros n Hle. rewrite He. apply Hn. lia.
Qed.

Lemma checks_of_snoc id s s' r :
  db_cert_checks s' = db_cert_checks s ++ [stored_check r] → cc_MonitorID r = id →
  (∀ x, x ∈ db_cert_checks s → cc_MonitorID x = id → unix (cc_CheckedAt x) < unix (cc_CheckedAt r)) →
  head (checks_of id s') = Some (stored_check r).
Proof.
  intros Hc Hid Hlt. unfold checks_of. rewrite Hc, select_where_snoc. change (cc_MonitorID (stored_check r)) with (cc_MonitorID r).
  rewrite bool_decide_eq_true_2 by done. apply newest_snoc. intros y [Hy Hm%bool_decide_eq_true]%select_where_elem.
  specialize (Hlt y Hy Hm). change (cc_CheckedAt (stored_check r)) with (db_time (cc_CheckedAt r)).
  unfold db_time, of_unix, unix, second in *. pose proof (Z.div_mod (cc_CheckedAt y) 1000000000).
  pose proof (Z.mod_pos_bound (cc_CheckedAt y) 1000000000). lia.
Qed.

(** The alerts of one type after a scan. *)
Lemma alerts_after_clearable m raw w k r h ty b w' :
  scanned m raw w k r w' → clock_monotone w → failed_scan raw = false → ty ∈ clearableAlerts →
  match h with
  | [] => checks_of (cm_ID m) (w_st w) = []
  | (raw0, r0) :: _ => reports raw0 r0 ∧ ∃ p, head (checks_of (cm_ID m) (w_st w)) = Some p ∧ stands_for p r0
  end →
  match last_read h with
  | None => b = false
  | Some r0 => ∃ t, cc_CheckedAt r0 ≤ t ∧ (∀ n, (w_tick w ≤ n)%nat → t ≤ env_now (w_env w) n) ∧ b = certProblem r0 t ty
  end →
  alerts_after m raw w k r ty b = certProblem r (env_now (w_env w) (rd_expiry k)) ty.
Proof.
  intros [[Ho1 Ho2] Ht _ Hr _ _] Hclock Hread Hty Hlatest Hb. unfold alerts_after. rewrite Hread.
  assert (raw_Error raw = "") as Hok by (apply negb_false_iff, bool_decide_eq_true in Hread; done).
  apply (scan_move_clearable r _ _ _ _ ty (raw_NotAfter raw)); [done|by apply (rp_after _ _ Hr)|done| |].
  { rewrite Ht. apply Hclock. lia. }
  intros ->. destruct h as [|[raw0 r0] h]; [done|]. destruct Hlatest as (Hr0 & p & Hp & Hst). exists p. split; [done|].
  cbn in Hb. destruct (bool_decide_reflect (raw_Error raw0 = "")) as [He|He].
  - right. destruct Hb as (t & _ & Hn & Hprob). eapply (stands_for_problem p r0 t); [done| |done| |done].
    + by rewrite (rp_error _ _ Hr0).
    + rewrite Ht. apply Hn. lia.
  - left. by rewrite (proj1 Hst), (rp_error _ _ Hr0).
Qed.

Lemma wp_check_again id raw pushed w0 h w :
  fault_free w0 → clock_monotone w0 → history_inv id w0 h w → later id w →
  wp (check_again id raw pushed) (λ o w', ∀ r, o = Some r → history_inv id w0 ((raw, r) :: h) w') w.
Proof.
  intros Hff Hclock Hinv Hlater. assert (fault_free w) as Hffw by (eapply fault_free_env; [apply Hinv|done]).
  unfold check_again. apply wp_bind, wp_db_query; [by intros ?? []|]. intros w1 H1.
  pose proof (history_wait _ _ _ _ _ Hinv H1) as Hinv1.
  assert (later id w1) as Hlater1.
  { destruct H1 as (S & E & T). intros r n. rewrite S, E. intros. apply Hlater; [done..|lia]. }
  assert (w_st w1 = w_st w) as Hst by apply H1.
  destruct Hinv1 as [E F N (alerts & m & Sg & A & M & X & C) L]. rewrite <- Hst, M.
  assert (cm_ID m = id ∧ m ∈ db_certs (w_st w1)) as [Hid Hin] by (apply select_id_Some in M as [? ?]; done).
  assert (cm_ID m ∈ table_ids (db_certs (w_st w1))) as Hids by (by apply list_elem_of_fmap_2).
  apply wp_bind, wp_processCheckResult; [by eapply fault_free_env; [exact E|]|done|done|].
  intros k r m' w' Hsc. apply wp_ret. intros r' [= <-]. cbn [snd].
  assert (clock_monotone w1) as Hclock1 by (intros n n' Hn; rewrite E; by apply Hclock).
  pose proof (sc_effect _ _ _ _ _ _ Hsc) as (status & stored & [R Ck (new & Sn & An & Tn) E' T'] & Hst').
  pose proof (sc_order _ _ _ _ _ _ Hsc) as [Ho1 Ho2]. rewrite Hid in *.
  split; [congruence|apply Hsc| | |].
  - rewrite R, update_id_ids by done. done.
  - exists (alerts ++ new), (updated_monitor (after_scan m status (raw_Error raw) (cc_CheckedAt r) (threshold_after m raw w1 k)) m).
    split_and!.
    + by rewrite Sn, Sg, fmap_app, app_assoc.
    + by apply Forall_app.
    + rewrite R, select_id_update_eq, M by done. done.
    + rewrite settle_app, Tn, X. cbn. unfold alerts_after, threshold_after.
      destruct (failed_scan raw); [done|]. by apply scan_move_expiring.
    + intros ty Hty. specialize (C ty Hty). cbn [last_read]. rewrite settle_app, Tn.
      destruct (failed_scan raw) eqn:Hread.
      * assert (raw_Error raw ≠ "") as He by (by apply negb_true_iff, bool_decide_eq_false in Hread).
        rewrite bool_decide_eq_false_2 by done. unfold alerts_after. rewrite Hread. destruct (last_read h) as [r0|]; [|done].
        destruct C as (t & ? & Hn & ?). exists t. split_and!; [done| |done]. intros n Hle. rewrite E'. apply Hn. lia.
      * assert (raw_Error raw = "") as He by (by apply negb_false_iff, bool_decide_eq_true in Hread).
        rewrite bool_decide_eq_true_2 by done. exists (env_now (w_env w1) (rd_expiry k)). split_and!.
        -- rewrite (sc_time _ _ _ _ _ _ Hsc). apply Hclock1. lia.
        -- intros n Hn. rewrite E'. apply Hclock1. lia.
        -- eapply (alerts_after_clearable m raw w1 k r h); try done. by rewrite Hid.
  - split; [apply Hsc|]. destruct Hst' as [->|[-> (p & Hp & Hsame)]].
    + eexists. split; [|apply stands_for_stored]. eapply checks_of_snoc; [exact Ck|by rewrite (sc_monitor _ _ _ _ _ _ Hsc)|].
      intros x Hx Hmx. rewrite (sc_time _ _ _ _ _ _ Hsc). apply Hlater1; [done..|lia].
    + exists p. assert (checks_of id (w_st w') = checks_of id (w_st w1)) as -> by (unfold checks_of; by rewrite Ck, app_nil_r).
      split; [done|]. destruct h as [|[raw0 r0] h]; [by rewrite L in Hp|]. destruct L as (Hr0 & p0 & Hp0 & Hs0).
      rewrite Hp in Hp0. injection Hp0 as <-. eapply stands_for_same; [exact Hs0|done|].
      intros He. rewrite (rp_after _ _ Hr0); [done|]. by rewrite <- (rp_error _ _ Hr0).
Qed.

Lemma visits_inv id w0 h w :
  fault_free w0 → clock_monotone w0 → fresh_checks w0 → NoDup (table_ids (db_certs (w_st w0))) → unscanned id w0 →
  visits id w0 h w → history_inv id w0 h w.
Proof.
  intros Hff Hclock Hfresh Hn Hun. induction 1 as [|h w w' _ IH Hs|h w raw pushed r _ IH Hl Hr].
  - by apply unscanned_inv.
  - by eapply history_wait.
  - by apply (wp_check_again id raw pushed w0 h w).
Qed.

Context {Esc : Escalator} `{!EscalatorLaws Esc} (notifier broadcaster : bool).

(** The alerts sent since [w0]. *)
Definition alerts_since (w0 w : world certs) : list Event :=
  signal_alerts (drop (length (cert_signals (w_st w0))) (cert_signals (w_st w))).

Lemma signal_alerts_fmap l : signal_alerts (SigAlert <$> l) = l.
Proof. unfold signal_alerts. induction l as [|e l IH]; [done|]. cbn. by rewrite IH. Qed.

End Scan.
