(* ===== verification/CertCorrect.v ===== *)
(** * Certificates: labels, discovery and handshakes

    What the label of a container declares; that a synchronisation leaves exactly
    the declared monitors; which hosts the server dials itself; and concrete runs,
    the witnesses of the theorems and situations in which the code does not do
    what it means to. *)

From S2P Require Import Prelude.
From S2P Require Import GoFloat.
From S2P Require Import Tables.
From S2P Require Import GoStrings.
From S2P Require Import GoTime.
From S2P Require Import AlertModel.
From S2P Require Import AlertStore.
From S2P Require Import AlertRouting.
From S2P Require Import AlertEngine.
From S2P Require Import AlertInvariant.
From S2P Require Import AlertCorrect.
From S2P Require Import AlertTracker.
From S2P Require Import TrackerMirror.
From S2P Require Import Uid.
From S2P Require Import SwarmAlerts.
From S2P Require Import Container.
From S2P Require Import ContainerService.
From S2P Require Import EndpointLabels.
From S2P Require Import Certificate.
From S2P Require Import CertStore.
From S2P Require Import CertService.
From S2P Require Import CertScan.
From Stdlib Require Import Ascii.

#[local] Open Scope string_scope.
#[local] Open Scope list_scope.
#[local] Open Scope Z_scope.

(** ** Texts of targets *)

Definition colon : ascii := ":"%char.

Lemma pretty_char_not_colon x : pretty_N_char x ≠ colon.
Proof. unfold pretty_N_char. by repeat case_match. Qed.

Lemma pretty_go_no_colon x s : colon ∉ to_bytes s → colon ∉ to_bytes (pretty_N_go x s).
Proof.
  revert s. induction (N.lt_wf_0 x) as [x _ IH]; intros s Hs.
  assert (x = 0 ∨ 0 < x)%N as [->|Hx] by lia; [done|]. rewrite pretty_N_go_step by done. apply IH; [by apply N.div_lt|].
  cbn. rewrite not_elem_of_cons. split; [|done]. intros H. by apply (pretty_char_not_colon (x `mod` 10)).
Qed.

Lemma fmt_d_no_colon z : 0 ≤ z → colon ∉ to_bytes (fmt_d z).
Proof.
  destruct z as [|p|p]; intros H; cbn [fmt_d]; [vm_compute; set_solver| |lia].
  unfold pretty, pretty_N. rewrite decide_False by done. apply pretty_go_no_colon. vm_compute. set_solver.
Qed.

Lemma fmt_d_injective a b : 0 ≤ a → 0 ≤ b → fmt_d a = fmt_d b → a = b.
Proof.
  assert (∀ z, 0 ≤ z → fmt_d z = pretty (Z.to_N z)) as Hz by by intros [].
  intros Ha Hb. rewrite !Hz by done. intros H%(inj pretty). lia.
Qed.

(** The part before, or after, the only place of a separator. *)
Lemma split_at_first (x : ascii) (a b r r' : bytes) :
  x ∉ a → x ∉ b → a ++ x :: r = b ++ x :: r' → a = b ∧ r = r'.
Proof.
  revert b. induction a as [|y a IH]; intros [|z b] Ha Hb H; cbn in H.
  - by injection H as ->.
  - injection H as <- _. destruct Hb. by left.
  - injection H as -> _. destruct Ha. by left.
  - injection H as -> H. rewrite not_elem_of_cons in Ha, Hb. destruct (IH b) as [-> ->]; naive_solver.
Qed.

Lemma split_at_last (x : ascii) (a b r r' : bytes) :
  x ∉ r → x ∉ r' → a ++ x :: r = b ++ x :: r' → a = b ∧ r = r'.
Proof.
  intros Hr Hr' H. apply (f_equal reverse) in H. rewrite !reverse_app, !reverse_cons, <- !app_assoc in H.
  apply split_at_first in H as [H1 H2]; [|by rewrite elem_of_reverse..].
  by apply (inj reverse) in H1, H2.
Qed.

Lemma target_key_injective h h' p p' : 0 ≤ p → 0 ≤ p' → target_key h p = target_key h' p' → h = h' ∧ p = p'.
Proof.
  intros Hp Hp' H. apply (f_equal to_bytes) in H. unfold target_key in H. rewrite !to_bytes_app in H.
  apply (split_at_last colon) in H as [Hh%to_bytes_inj Hd%to_bytes_inj]; [|by apply fmt_d_no_colon..].
  split; [done|by apply fmt_d_injective].
Qed.

Lemma has_byte_elem b l : has_byte b l = true ↔ b ∈ l.
Proof.
  unfold has_byte. induction l as [|a l IH]; cbn.
  - split; [done|by intros ?%elem_of_nil].
  - rewrite elem_of_cons. destruct (Ascii.eqb_spec a b) as [->|Hne]; [naive_solver|].
    destruct (index_byte b l); cbn in *; split; naive_solver.
Qed.

Lemma JoinHostPort_injective h h' p p' :
  0 ≤ p → 0 ≤ p' → JoinHostPort h (fmt_d p) = JoinHostPort h' (fmt_d p') → h = h' ∧ p = p'.
Proof.
  intros Hp Hp' H. apply (f_equal to_bytes) in H. unfold JoinHostPort in H.
  pose proof (has_byte_elem colon (to_bytes h)) as H1. pose proof (has_byte_elem colon (to_bytes h')) as H2.
  change (has_byte ":" ?l) with (has_byte colon l) in H.
  assert (∀ s d, to_bytes ("[" +:+ s +:+ "]:" +:+ d) = ("["%char :: to_bytes s ++ ["]"%char]) ++ colon :: to_bytes d) as Hb.
  { intros s d. rewrite !to_bytes_app. cbn. by rewrite <- app_assoc. }
  destruct (has_byte colon (to_bytes h)), (has_byte colon (to_bytes h'));
    rewrite ?Hb, ?to_bytes_app in H; apply (split_at_last colon) in H as [Hh Hd%to_bytes_inj];
    try (by apply fmt_d_no_colon); apply fmt_d_injective in Hd; try done; (split; [|done]).
  - injection Hh as Hh. apply app_inj_tail in Hh as [Hh _]. by apply to_bytes_inj.
  - assert (colon ∈ to_bytes h') as Hin by (rewrite <- Hh; set_solver). naive_solver.
  - assert (colon ∈ to_bytes h) as Hin by (rewrite Hh; set_solver). naive_solver.
  - by apply to_bytes_inj.
Qed.

(** ** What a label declares *)

(** The target an entry of the label names. *)
Definition entry_target (entry : string) : option ParsedCertLabel :=
  let entry := TrimSpace entry in
  if bool_decide (entry = "") then None
  else (λ hp, MkCertLabel hp.1 hp.2) <$> parseCertEntry entry.

Definition valid_target (p : ParsedCertLabel) : Prop := validateHostname (pl_Hostname p) = true ∧ 1 ≤ pl_Port p ≤ 65535.

Lemma entry_target_valid entry p : entry_target entry = Some p → valid_target p.
Proof.
  unfold entry_target, parseCertEntry. case_bool_decide; [done|]. cbv zeta.
  destruct (SplitHostPort _) as [[host port]|].
  - destruct (validateHostname host) eqn:Hv; [|done]. cbn. destruct (Atoi port) as [n|]; [|done].
    repeat case_bool_decide; try done. cbn. intros [= <-]. split; [done|]. cbn. lia.
  - destruct (validateHostname _) eqn:Hv; [|done]. intros [= <-]. by split.
Qed.

Definition key_of (p : ParsedCertLabel) : string := JoinHostPort (pl_Hostname p) (fmt_d (pl_Port p)).

Lemma key_of_injective p q : valid_target p → valid_target q → key_of p = key_of q → p = q.
Proof.
  intros [_ Hp] [_ Hq] H. apply JoinHostPort_injective in H as [H1 H2]; [|lia..]. destruct p, q. cbn in *. congruence.
Qed.

Lemma add_entries entries seen results :
  Forall valid_target results → NoDup results → (∀ k, k ∈ seen ↔ k ∈ key_of <$> results) →
  let '(_, results') := foldl add_entry (seen, results) entries in
  NoDup results' ∧ Forall valid_target results'
  ∧ ∀ p, p ∈ results' ↔ p ∈ results ∨ ∃ entry, entry ∈ entries ∧ entry_target entry = Some p.
Proof.
  revert seen results. induction entries as [|entry entries IH]; intros seen results Hv Hn Hs; cbn [foldl].
  { split_and!; [done..|]. intros p. split; [by left|]. intros [?|(e & ?%elem_of_nil & _)]; done. }
  assert (∀ seen' results', (seen', results') = add_entry (seen, results) entry →
    Forall valid_target results' ∧ NoDup results' ∧ (∀ k, k ∈ seen' ↔ k ∈ key_of <$> results')
    ∧ ∀ p, p ∈ results' ↔ p ∈ results ∨ entry_target entry = Some p) as Hstep.
  { intros seen' results'. unfold add_entry. destruct (entry_target entry) as [q|] eqn:Hq.
    - pose proof (entry_target_valid _ _ Hq) as Hvq. unfold entry_target in Hq. case_bool_decide; [done|].
      destruct (parseCertEntry _) as [[h po]|]; [|done]. injection Hq as <-. cbn [fst snd] in *.
      set (q := MkCertLabel h po) in *. change (JoinHostPort h (fmt_d po)) with (key_of q).
      destruct (bool_decide_reflect (key_of q ∈ seen)) as [Hin|Hin]; intros [= -> ->].
      + assert (q ∈ results) as Hin' by (apply Hs, list_elem_of_fmap in Hin as (q' & Hk & Hin');
          rewrite Forall_forall in Hv; apply key_of_injective in Hk as ->; [done..|by apply Hv]).
        split_and!; [done..|]. naive_solver.
      + assert (q ∉ results) as Hnew by (intros Hq; apply Hin, Hs; by apply list_elem_of_fmap_2).
        split_and!.
        * apply Forall_app. split; [done|by apply Forall_singleton].
        * apply NoDup_app. split_and!; [done| |apply NoDup_singleton]. by intros x Hx ->%list_elem_of_singleton.
        * intros k. rewrite fmap_app, elem_of_app, elem_of_union, elem_of_singleton, Hs. cbn.
          rewrite list_elem_of_singleton. tauto.
        * intros p. rewrite elem_of_app, list_elem_of_singleton. naive_solver.
    - unfold entry_target in Hq. case_bool_decide; [intros [= -> ->]; split_and!; naive_solver|].
      destruct (parseCertEntry _) as [[h po]|]; [done|]. intros [= -> ->]. split_and!; naive_solver. }
  destruct (add_entry (seen, results) entry) as [seen1 results1]. destruct (Hstep _ _ eq_refl) as (Hv1 & Hn1 & Hs1 & He1).
  specialize (IH seen1 results1 Hv1 Hn1 Hs1). destruct (foldl _ _ _) as [seen2 results2]. destruct IH as (? & ? & IH).
  split_and!; [done..|]. intros p. rewrite IH, He1. setoid_rewrite elem_of_cons. naive_solver.
Qed.

(** C31: what the label declares.  For a container that is not ignored, the
    targets are those of the comma-separated entries, each once and no other,
    whatever schemes, paths and white space the entries carry; each has a
    hostname without white space or slash and a port from 1 to 65535. *)
Theorem certificate_labels_exact labels raw :
  IgnoredByLabels labels = false → labels !! tlsLabel = Some raw →
  let targets := ParseCertificateLabels labels in
  NoDup targets ∧ Forall valid_target targets
  ∧ ∀ p, p ∈ targets ↔ ∃ entry, entry ∈ Split (TrimSpace raw) "," ∧ entry_target entry = Some p.
Proof.
  intros Hign Hraw. cbv zeta. unfold ParseCertificateLabels. rewrite Hign, Hraw.
  destruct (bool_decide_reflect (TrimSpace raw = "")) as [He|He].
  - rewrite He. split_and!; [constructor..|]. intros p. split; [by intros ?%elem_of_nil|].
    intros (entry & Hin & Ht). vm_compute in Hin. apply list_elem_of_singleton in Hin as ->. done.
  - pose proof (add_entries (Split (TrimSpace raw) ",") ∅ []) as H. destruct (foldl _ _ _) as [seen results].
    destruct H as (H1 & H2 & H3); [constructor|constructor|set_solver|]. split_and!; [done..|].
    intros p. rewrite H3. split; [|by right]. by intros [?%elem_of_nil|?].
Qed.

(** ** Synchronisation *)

Section Sync.
Context `{Uuid_ : !Uuid}.
Context (json : list (string * value) → details).

(** Later, with the same monitors. *)
Definition same_rows (w w' : world certs) : Prop := db_certs (w_st w') = db_certs (w_st w) ∧ w_env w' = w_env w.

Lemma wp_emit_any ty data (Q : unit → world certs → Prop) w :
  (∀ w', same_rows w w' → Q tt w') → wp (emit_cert json ty data) Q w.
Proof.
  intros HQ. apply wp_bind, wp_modify_put. intros w1 (S1 & E1 & _).
  assert (same_rows w w1) as [R1 _] by (split; [by rewrite S1|done]).
  assert (∀ w2, same w1 w2 → ∀ w', db_certs (w_st w') = db_certs (w_st w2) → w_env w' = w_env w2 → Q tt w') as Hgo.
  { intros w2 (S2 & E2 & _) w' R' E'. apply HQ. split; [by rewrite R', S2|congruence]. }
  unfold certificate_callback. case_bool_decide; [apply wp_modify; by apply (Hgo w1 (same_refl _))|].
  case_bool_decide; [apply wp_bind, wp_now; intros w2 H2; apply wp_modify; by apply (Hgo w2)|].
  case_bool_decide; [apply wp_bind, wp_now; intros w2 H2; apply wp_modify; by apply (Hgo w2)|].
  apply wp_ret. by apply (Hgo w1 (same_refl _)).
Qed.

(** Delete the monitors of [l] that are not kept. *)
Lemma wp_delete_monitors keep l w :
  fault_free w →
  wp (for_each l (λ m, if kept keep m then ret tt else delete_monitor json m))
    (λ _ w', w_env w' = w_env w
       ∧ ∀ r, r ∈ db_certs (w_st w') ↔ r ∈ db_certs (w_st w) ∧ ∀ m, m ∈ l → kept keep m = false → cm_ID r ≠ cm_ID m) w.
Proof.
  revert w. induction l as [|m l IH]; intros w Hff; cbn.
  { apply wp_ret. split; [done|]. intros r. split; [|tauto]. intros Hr. split; [done|]. by intros m ?%elem_of_nil. }
  apply wp_bind. apply (wp_mono _ (λ _ w1, w_env w1 = w_env w
    ∧ ∀ r, r ∈ db_certs (w_st w1) ↔ r ∈ db_certs (w_st w) ∧ (kept keep m = false → cm_ID r ≠ cm_ID m))).
  { destruct (kept keep m); [by apply wp_ret; split; [|naive_solver]|]. apply wp_bind, wp_db_exec; [by intros ?? []|].
    intros w1 (S1 & E1 & _). apply wp_emit_any. intros w2 [R2 E2]. split; [congruence|]. intros r.
    rewrite R2, S1. unfold removed_monitor. cbn. rewrite delete_where_elem, bool_decide_eq_false. naive_solver. }
  intros _ w1 [E1 H1]. eapply wp_mono; [apply IH; by eapply fault_free_env|]. cbn. intros _ w2 [E2 H2]. split; [congruence|].
  intros r. rewrite H2, H1. setoid_rewrite elem_of_cons. naive_solver.
Qed.

Context (scope : option string) (externalID : string).

(** The agent a monitor is attributed to. *)
Definition scope_agent : string := match scope with Some a => uid_Agent a | None => LocalAgent end.

Definition sync_labels (labels : gmap string string) : M certs unit :=
  match scope with
  | Some a => SyncAgentCerts json a externalID labels
  | None => SyncFromLabels json externalID labels
  end.

(** The monitors that stand for a declared target: for a remote agent its own,
    for the local server those of any agent. *)
Definition stands (p : ParsedCertLabel) (m : CertMonitor) : bool :=
  match scope with
  | Some a => host_port (pl_Hostname p) (pl_Port p) "" m && bool_decide (cm_AgentID m = uid_Agent a)
  | None => host_port (pl_Hostname p) (pl_Port p) "" m
  end.

Definition target_id (p : ParsedCertLabel) : string := Uid.CertMonitor scope_agent (pl_Hostname p) (pl_Port p) "".

(** The row of a target declared for the first time. *)
Definition new_row (p : ParsedCertLabel) (t : Z) : CertMonitor :=
  inserted_monitor (identified (new_monitor (pl_Hostname p) (pl_Port p) cert_SourceLabel externalID
    (match scope with Some a => a | None => "" end))) t.

(** No monitor has the identifier of a target of another host or agent. *)
Definition well_identified (rows : list CertMonitor) (targets : list ParsedCertLabel) : Prop :=
  ∀ r p, r ∈ rows → p ∈ targets → cm_ID r = target_id p →
    cm_AgentID r = scope_agent ∧ cm_Hostname r = pl_Hostname p ∧ cm_Port r = pl_Port p ∧ cm_ServerName r = "".

Definition distinct_targets (targets : list ParsedCertLabel) : Prop :=
  ∀ p q, p ∈ targets → q ∈ targets → target_id p = target_id q → p = q.

Lemma new_row_fields p t :
  cm_ID (new_row p t) = target_id p ∧ cm_AgentID (new_row p t) = scope_agent ∧ cm_Hostname (new_row p t) = pl_Hostname p
  ∧ cm_Port (new_row p t) = pl_Port p ∧ cm_ServerName (new_row p t) = "" ∧ cm_Source (new_row p t) = cert_SourceLabel
  ∧ cm_ExternalID (new_row p t) = externalID.
Proof. unfold new_row, target_id, scope_agent. by destruct scope. Qed.

Lemma new_row_stands p t : stands p (new_row p t) = true.
Proof.
  destruct (new_row_fields p t) as (_ & Ha & Hh & Hp & Hs & _). unfold stands, host_port. rewrite Ha, Hh, Hp, Hs.
  unfold scope_agent. destruct scope; by rewrite !bool_decide_eq_true_2.
Qed.

Lemma stands_fields rows p r :
  well_identified rows [p] → r ∈ rows → cm_ID r = target_id p → stands p r = true.
Proof.
  intros Hid Hr Heq. destruct (Hid r p Hr) as (Ha & Hh & Hp & Hs); [by left|done|]. unfold stands, host_port.
  rewrite Ha, Hh, Hp, Hs. unfold scope_agent. destruct scope; by rewrite !bool_decide_eq_true_2.
Qed.

Lemma wp_provision p more (Q : unit → world certs → Prop) w :
  fault_free w → well_identified (db_certs (w_st w)) [p] →
  (∀ w', w_env w' = w_env w →
    (if existsb (stands p) (db_certs (w_st w)) then db_certs (w_st w') = db_certs (w_st w)
     else ∃ t, db_certs (w_st w') = db_certs (w_st w) ++ [new_row p t]) → Q tt w') →
  wp (provision json (db_query (λ s, head (select_where (stands p) (db_certs s))))
    (new_monitor (pl_Hostname p) (pl_Port p) cert_SourceLabel externalID (match scope with Some a => a | None => "" end)) more) Q w.
Proof.
  intros Hff Hid HQ. unfold provision. apply wp_bind, wp_db_query; [by intros ?? []|]. intros w1 (S1 & E1 & _).
  set (rows := db_certs (w_st w)) in *.
  destruct (existsb (stands p) rows) eqn:Hex.
  { apply existsb_exists in Hex as (r & Hr%list_elem_of_In & Hst).
    assert (r ∈ select_where (stands p) rows) as Hin by (by apply select_where_elem).
    destruct (select_where _ _) as [|x l]; [by apply elem_of_nil in Hin|]. cbn. apply wp_ret, HQ; [done|by rewrite S1]. }
  assert (∀ r, r ∈ rows → stands p r = false) as Hno.
  { intros r Hr. apply not_true_iff_false. intros Hst. rewrite <- not_true_iff_false in Hex. apply Hex, existsb_exists.
    exists r. by rewrite <- list_elem_of_In. }
  assert (select_where (stands p) rows = []) as ->.
  { destruct (select_where (stands p) rows) as [|x l] eqn:Hsel; [done|]. exfalso.
    assert (x ∈ select_where (stands p) rows) as [Hx Hst]%select_where_elem by (rewrite Hsel; left). by rewrite Hno in Hst. }
  cbn [head]. apply wp_bind. unfold CreateMonitor. apply wp_bind, wp_now. intros w2 (S2 & E2 & _). set (t := env_now _ _).
  apply wp_bind. change (is_zero _) with true. cbn match. apply wp_now. intros w3 (S3 & E3 & _). set (t' := env_now _ _).
  apply wp_bind, wp_fault. intros b w4 (S4 & E4 & _) Hb. rewrite Hb by (eapply (fault_free_env w); [congruence|done]).
  apply wp_bind, wp_gets. set (m := identified _).
  assert (db_certs (w_st w4) = rows) as R4 by (by rewrite S4, S3, S2, S1). rewrite R4.
  assert (cm_ID m = target_id p) as Hm by (unfold m, target_id, scope_agent; by destruct scope).
  rewrite bool_decide_eq_false_2.
  2: { rewrite Hm. intros (r & Hr1 & Hr2)%list_elem_of_fmap. symmetry in Hr1. pose proof (stands_fields rows p r Hid Hr2 Hr1) as Hst.
       by rewrite Hno in Hst. }
  assert (existsb (same_target m) rows = false) as ->.
  { apply not_true_iff_false. intros (r & Hr%list_elem_of_In & Hs)%existsb_exists.
    assert (stands p r = true) as Hst; [|by rewrite Hno in Hst]. unfold same_target in Hs.
    rewrite !andb_true_iff, !bool_decide_eq_true in Hs. destruct Hs as [[[Ha Hh] Hp] Hsn].
    unfold stands, host_port. rewrite Ha, Hh, Hp, Hsn. unfold m. destruct scope; by rewrite !bool_decide_eq_true_2. }
  apply wp_bind, wp_modify, wp_ret. apply wp_emit_any. intros w5 [R5 E5]. cbn in R5, E5. apply HQ; [congruence|].
  exists t. by rewrite R5, R4.
Qed.

(** Between the targets: those of [done] have a monitor. *)
Record provisioned (rows : list CertMonitor) (ps done : list ParsedCertLabel) (rows' : list CertMonitor) : Prop := {
  pv_rows : ∃ created : list (ParsedCertLabel * Z), rows' = rows ++ ((λ c, new_row c.1 c.2) <$> created)
    ∧ ∀ c, c ∈ created → c.1 ∈ done ∧ ∀ r, r ∈ rows → stands c.1 r = false;
  pv_done : ∀ p, p ∈ done → ∃ r, r ∈ rows' ∧ stands p r = true;
  pv_ids : NoDup (table_ids rows');
}.

Lemma provisioned_identified rows ps done rows' p :
  well_identified rows ps → distinct_targets ps → (∀ q, q ∈ done → q ∈ ps) → p ∈ ps →
  provisioned rows ps done rows' → well_identified rows' [p].
Proof.
  intros Hid Hdist Hsub Hp [(created & -> & Hc) _ _] r q Hr ->%list_elem_of_singleton Heq.
  apply elem_of_app in Hr as [Hr|(c & -> & Hin)%list_elem_of_fmap]; [by apply Hid|].
  destruct (new_row_fields c.1 c.2) as (Hci & Ha & Hh & Hpo & Hs & _). rewrite Hci in Heq.
  apply Hdist in Heq as <-; [done|by apply Hsub, Hc|done].
Qed.

Lemma provisioned_step rows ps done rows1 rows2 p :
  provisioned rows ps done rows1 → p ∈ ps → well_identified rows1 [p] →
  (if existsb (stands p) rows1 then rows2 = rows1 else ∃ t, rows2 = rows1 ++ [new_row p t]) →
  provisioned rows ps (done ++ [p]) rows2.
Proof.
  intros [(created & Hrows & Hc) Hdone Hids] Hp Hid Hstep. destruct (existsb (stands p) rows1) eqn:Hex.
  - subst rows2. apply existsb_exists in Hex as (r & Hr%list_elem_of_In & Hst). split; [|..|done].
    + exists created. split; [done|]. intros c Hin. destruct (Hc c Hin). split; [apply elem_of_app; by left|done].
    + intros q [Hq|Hq%list_elem_of_singleton]%elem_of_app; [by apply Hdone|]. subst q. by exists r.
  - destruct Hstep as [t ->].
    assert (∀ r, r ∈ rows1 → stands p r = false) as Hno.
    { intros r Hr. apply not_true_iff_false. intros Hst. rewrite <- not_true_iff_false in Hex. apply Hex, existsb_exists.
      exists r. by rewrite <- list_elem_of_In. }
    split.
    + exists (created ++ [(p, t)]). split; [rewrite Hrows, fmap_app, app_assoc; done|].
      intros c [Hin|Hin%list_elem_of_singleton]%elem_of_app.
      * destruct (Hc c Hin). split; [apply elem_of_app; by left|done].
      * subst c. split; [apply elem_of_app; right; by left|]. intros r Hr. apply Hno. rewrite Hrows. apply elem_of_app. by left.
    + intros q [Hq|Hq%list_elem_of_singleton]%elem_of_app.
      * destruct (Hdone q Hq) as (r & Hr & Hst). exists r. split; [apply elem_of_app; by left|done].
      * subst q. exists (new_row p t). split; [apply elem_of_app; right; by left|apply new_row_stands].
    + apply (insert_row_ids (new_row p t) rows1); [|done]. apply insert_row_Some. split; [|done].
      intros (r & Hri & Hr)%list_elem_of_fmap. assert (cm_ID r = target_id p) as Heq.
      { rewrite <- (proj1 (new_row_fields p t)). by symmetry. }
      pose proof (stands_fields rows1 p r Hid Hr Heq) as Hst. by rewrite Hno in Hst.
Qed.

Lemma wp_provision_all more ps rows : ∀ rest done w,
  fault_free w → ps = done ++ rest → well_identified rows ps → distinct_targets ps →
  provisioned rows ps done (db_certs (w_st w)) →
  wp (for_each rest (λ p, provision json (db_query (λ s, head (select_where (stands p) (db_certs s))))
      (new_monitor (pl_Hostname p) (pl_Port p) cert_SourceLabel externalID (match scope with Some a => a | None => "" end)) more))
    (λ _ w', w_env w' = w_env w ∧ provisioned rows ps ps (db_certs (w_st w'))) w.
Proof.
  induction rest as [|p rest IH]; intros done w Hff Hps Hid Hdist Hpv; cbn.
  { apply wp_ret. rewrite app_nil_r in Hps. by subst. }
  assert (p ∈ ps) as Hp by (subst; set_solver).
  assert (well_identified (db_certs (w_st w)) [p]) as Hid1.
  { eapply provisioned_identified; [exact Hid|done| |done|exact Hpv]. intros q Hq. subst. set_solver. }
  apply wp_bind, wp_provision; [done..|]. intros w1 E1 Hstep.
  eapply wp_mono; [apply (IH (done ++ [p]) w1)|].
  - by eapply fault_free_env.
  - by rewrite <- app_assoc.
  - done.
  - done.
  - by eapply provisioned_step.
  - cbn. intros _ w2 [E2 H2]. split; [congruence|done].
Qed.

(** A target of the label. *)
Definition declared (targets : list ParsedCertLabel) (r : CertMonitor) : Prop :=
  ∃ p, p ∈ targets ∧ cm_Hostname r = pl_Hostname p ∧ cm_Port r = pl_Port p.

Lemma kept_declared targets r :
  Forall valid_target targets → 0 ≤ cm_Port r → kept (Some (desired_keys targets)) r = true ↔ declared targets r.
Proof.
  intros Hv Hr. unfold kept, desired_keys, declared. rewrite bool_decide_eq_true, elem_of_list_to_set, list_elem_of_fmap.
  split; intros (p & Hk & Hp).
  - rewrite Forall_forall in Hv. destruct (Hv p Hp) as [_ ?]. apply target_key_injective in Hk as [H1 H2]; [|lia..]. by exists p.
  - exists p. destruct Hp as [-> ->]. done.
Qed.

Definition label_row (r : CertMonitor) : Prop := of_label scope_agent externalID r = true.

Lemma scope_agent_idem : uid_Agent scope_agent = scope_agent.
Proof. unfold scope_agent. destruct scope as [a|]; [|done]. unfold uid_Agent. by repeat case_bool_decide. Qed.

Lemma label_row_fields r : label_row r ↔ cm_AgentID r = scope_agent ∧ cm_ExternalID r = externalID ∧ cm_Source r = cert_SourceLabel.
Proof. unfold label_row, of_label. rewrite scope_agent_idem, !andb_true_iff, !bool_decide_eq_true. tauto. Qed.

Lemma delete_named a : deleteAgentLabelMonitors json a externalID = deleteAgentLabelMonitors json (uid_Agent a) externalID.
Proof.
  unfold deleteAgentLabelMonitors, ListMonitorsByExternalID, of_label.
  assert (uid_Agent (uid_Agent a) = uid_Agent a) as -> by (unfold uid_Agent; by repeat case_bool_decide). done.
Qed.

Lemma same_id (rows : list CertMonitor) r m : NoDup (table_ids rows) → r ∈ rows → m ∈ rows → cm_ID r = cm_ID m → r = m.
Proof.
  intros Hn Hr Hm Heq. pose proof (select_id_elem rows r Hn Hr) as H1. pose proof (select_id_elem rows m Hn Hm) as H2.
  change (select_id (cm_ID r) rows = Some r) in H1. change (select_id (cm_ID m) rows = Some m) in H2. rewrite Heq in H1. congruence.
Qed.

(** C30: a synchronisation of the labels of a container, local or of a remote
    agent, is exact.  Without failures every declared target has a monitor, the
    label monitors of the container are those of declared targets, no other
    monitor is touched, and the rows that were not there before are new monitors
    of targets that had none. *)
Theorem certificate_sync_exact labels (w : world certs) :
  let targets := ParseCertificateLabels labels in
  let rows := db_certs (w_st w) in
  let rows' := db_certs (w_st (sync_labels labels w).2) in
  fault_free w → NoDup (table_ids rows) → Forall valid_target targets → (∀ r, r ∈ rows → 0 ≤ cm_Port r) →
  well_identified rows targets → distinct_targets targets →
  (∀ p, p ∈ targets → ∃ r, r ∈ rows' ∧ stands p r = true)
  ∧ (∀ r, r ∈ rows' → label_row r → declared targets r)
  ∧ (∀ r, r ∈ rows → ¬ label_row r ∨ declared targets r → r ∈ rows')
  ∧ (∀ r, r ∈ rows' → r ∈ rows ∨ ∃ p t, p ∈ targets ∧ (∀ r0, r0 ∈ rows → stands p r0 = false) ∧ r = new_row p t).
Proof.
  cbv zeta. intros Hff Hnd Hv Hports Hid Hdist. set (targets := ParseCertificateLabels labels) in *.
  set (rows := db_certs (w_st w)) in *.
  set (Post := λ rows' : list CertMonitor, (∀ p, p ∈ targets → ∃ r, r ∈ rows' ∧ stands p r = true)
    ∧ (∀ r, r ∈ rows' → label_row r → declared targets r)
    ∧ (∀ r, r ∈ rows → ¬ label_row r ∨ declared targets r → r ∈ rows')
    ∧ (∀ r, r ∈ rows' → r ∈ rows ∨ ∃ p t, p ∈ targets ∧ (∀ r0, r0 ∈ rows → stands p r0 = false) ∧ r = new_row p t)).
  assert (∀ keep w1, w_env w1 = w_env w → provisioned rows targets targets (db_certs (w_st w1)) →
    (∀ r, 0 ≤ cm_Port r → kept keep r = true ↔ declared targets r) →
    wp (deleteAgentLabelMonitors json scope_agent externalID keep) (λ _ w', Post (db_certs (w_st w'))) w1) as Hdelete.
  { intros keep w1 E1 [(created & Hrows & Hc) Hdone Hids] Hkeep. apply wp_bind, wp_db_query.
    { intros ? _ []. by eapply fault_free_env. }
    intros w2 (S2 & E2 & _). eapply wp_mono; [apply wp_delete_monitors; eapply (fault_free_env w); [congruence|done]|].
    cbn. intros _ w3 [_ H3].
    assert (∀ r, r ∈ db_certs (w_st w1) → 0 ≤ cm_Port r) as Hports1.
    { intros r Hr. rewrite Hrows in Hr. apply elem_of_app in Hr as [Hr|(c & -> & Hin)%list_elem_of_fmap]; [by apply Hports|].
      destruct (new_row_fields c.1 c.2) as (_ & _ & _ & -> & _). apply Hc in Hin as [Hin _].
      rewrite Forall_forall in Hv. destruct (Hv _ Hin). lia. }
    assert (∀ r, r ∈ db_certs (w_st w3) ↔ r ∈ db_certs (w_st w1) ∧ (label_row r → declared targets r)) as Hfinal.
    { intros r. rewrite H3, S2. split; intros [Hr Hd]; (split; [done|]).
      - intros Hl. apply Hkeep; [by apply Hports1|]. apply not_false_iff_true. intros Hk.
        apply (Hd r); [|done..]. by apply select_where_elem.
      - intros m [Hm Hl]%select_where_elem Hk Heq.
        assert (r = m) as -> by (eapply (same_id (db_certs (w_st w1))); done).
        assert (kept keep m = true) as Hk' by (apply Hkeep; [by apply Hports1|by apply Hd]). congruence. }
    assert (∀ p r, p ∈ targets → stands p r = true → declared targets r) as Hstd.
    { intros p r Hp Hst. exists p. split; [done|]. unfold stands, host_port in Hst.
      destruct scope; rewrite !andb_true_iff, !bool_decide_eq_true in Hst; tauto. }
    split_and!.
    - intros p Hp. destruct (Hdone p Hp) as (r & Hr & Hst). exists r. rewrite Hfinal. split; [|done]. split; [done|]. intros _. by eapply Hstd.
    - intros r [_ Hr]%Hfinal. done.
    - intros r Hr Hor. apply Hfinal. rewrite Hrows, elem_of_app. split; [by left|tauto].
    - intros r [Hr _]%Hfinal. rewrite Hrows in Hr. apply elem_of_app in Hr as [Hr|(c & -> & Hin)%list_elem_of_fmap]; [by left|right].
      destruct (Hc c Hin). by exists c.1, c.2. }
  assert (provisioned rows targets [] rows) as Hstart.
  { split; [|by intros ? ?%elem_of_nil|done]. exists []. rewrite app_nil_r. split; [done|]. by intros ? ?%elem_of_nil. }
  change (wp (sync_labels labels) (λ _ w', Post (db_certs (w_st w'))) w).
  assert (targets = [] → wp (deleteAgentLabelMonitors json scope_agent externalID None) (λ _ w', Post (db_certs (w_st w'))) w) as Hnone.
  { intros Hempty. apply Hdelete; [done|pose proof Hstart as Hs; by rewrite Hempty in Hs |- *|]. intros r _. split; [done|]. intros (p & Hp & _).
    rewrite Hempty in Hp. by apply elem_of_nil in Hp. }
  assert (∀ more, wp (do! for_each targets (λ p, provision json (db_query (λ s, head (select_where (stands p) (db_certs s))))
      (new_monitor (pl_Hostname p) (pl_Port p) cert_SourceLabel externalID (match scope with Some a => a | None => "" end)) more) in
    deleteAgentLabelMonitors json scope_agent externalID (Some (desired_keys targets))) (λ _ w', Post (db_certs (w_st w'))) w) as Hsome.
  { intros more. apply wp_bind. eapply wp_mono; [by apply (wp_provision_all more targets rows targets [])|].
    cbn. intros _ w1 [E1 H1]. apply Hdelete; [done..|]. intros r Hr. by apply kept_declared. }
  unfold sync_labels, SyncAgentCerts, SyncFromLabels, deleteLabelMonitors. fold targets.
  unfold scope_agent in Hnone, Hsome. unfold stands in Hsome. clearbody Post. clear -Hnone Hsome. destruct scope as [a|].
  - rewrite (delete_named a). destruct (bool_decide_reflect (targets = [])) as [He|He]; [by apply Hnone|].
    exact (Hsome [("agent_id", VString a)]).
  - destruct (bool_decide_reflect (targets = [])) as [He|He]; [by apply Hnone|exact (Hsome [])].
Qed.
End Sync.

(** ** Which hosts the server dials *)

Section Dials.
Context `{Uuid_ : !Uuid} `{Tls_ : !Tls} `{Licence : !CertLicense} `{Lib : !Parsers}.
Context (json : list (string * value) → details) (rfc3339 : Z → string).
Context (finish : list CertMonitor → list CertMonitor) (finish_all : ∀ l, finish l ≡ₚ l).

Definition no_dials (s s' : certs) : Prop := cert_dials s' = cert_dials s.

#[local] Instance no_dials_preorder : PreOrder no_dials.
Proof. split; unfold no_dials; [done|congruence]. Qed.

Lemma emit_cert_dials ty data : steps no_dials (emit_cert json ty data).
Proof. unfold emit_cert, certificate_callback, send_cert_signal. steps_tac; done. Qed.
Lemma consult_dials {A} (read : env → nat → A) : steps no_dials (consult read).
Proof. apply (steps_consult no_dials). Qed.
Lemma staple_dials r raw l : steps no_dials (applyOCSPStaple r raw l).
Proof. unfold applyOCSPStaple, parseOCSPResponse. steps_tac. Qed.
#[local] Hint Resolve emit_cert_dials consult_dials staple_dials : steps.

Lemma peer_dials l name raw : steps no_dials (CheckCertificateFromPeerCerts l name raw).
Proof. unfold CheckCertificateFromPeerCerts, validateChain, ask_tls. steps_tac. Qed.
Lemma insert_chain_dials l : steps no_dials (InsertChainEntries l).
Proof. induction l as [|e l IH]; cbn; steps_tac; done. Qed.
#[local] Hint Resolve peer_dials insert_chain_dials : steps.

Lemma process_dials m raw pushed : steps no_dials (processCheckResult json rfc3339 m raw pushed).
Proof.
  unfold processCheckResult, read_scan, computeStatus, recordCheckResult, cert_InsertCheckResult, evaluateAlerts,
    clear_alerts, condition_alerts, expiry_alerts, cert_alert, cert_recovery, UpdateMonitor_store, emitCheckCompleted,
    GetLatestCheckResult.
  steps_tac; done.
Qed.
#[local] Hint Resolve process_dials : steps.

(** The handshake of a monitor's scan: with its server name if it has one, and
    guarded against private addresses when the target comes from a label. *)
Definition dial_of (m : CertMonitor) : dial :=
  MkDial (cm_Hostname m +:+ ":" +:+ fmt_d (cm_Port m))
    (if bool_decide (cm_ServerName m = "") then cm_Hostname m else cm_ServerName m)
    (bool_decide (cm_Source m = cert_SourceLabel) && negb ProbeGuardDisabled).

(** What a run dials, in order. *)
Definition dials_exactly {A} (m : M certs A) (ds : world certs → list dial → Prop) : Prop :=
  ∀ w, ∃ l, ds w l ∧ cert_dials (w_st (m w).2) = cert_dials (w_st w) ++ l ∧ w_env (m w).2 = w_env w.

Lemma scan_dials m : dials_exactly (scan_monitor json rfc3339 m) (λ _ l, l = [dial_of m]).
Proof.
  intros w. exists [dial_of m]. split; [done|].
  set (w1 := World (w_env w) (w_tick w) (w_st w <| cert_dials ::= λ l, l ++ [dial_of m] |>)).
  assert (steps no_dials (let! r := ask_tls (λ n, DialInspect n (dial_of m)) in
    let! raw := match r with
      | inl text => ret (failed_check (classifyTLSError text))
      | inr (peer, ocspResponse) => CheckCertificateFromPeerCerts peer (dl_ServerName (dial_of m)) ocspResponse
      end in
    do! processCheckResult json rfc3339 m raw false in ret tt)) as Hrest.
  { unfold ask_tls. steps_tac. }
  destruct (Hrest w1) as [H1 H2]. exact (conj H1 H2).
Qed.

Lemma scans_dials l : dials_exactly (for_each l (scan_monitor json rfc3339)) (λ _ ds, ds = dial_of <$> l).
Proof.
  induction l as [|m l IH]; intros w; cbn [for_each].
  { exists []. by rewrite app_nil_r. }
  destruct (scan_dials m w) as (d1 & -> & H1 & E1). destruct (IH (scan_monitor json rfc3339 m w).2) as (d2 & -> & H2 & E2).
  exists (dial_of <$> m :: l). split; [done|]. unfold bind. split; [|congruence]. rewrite H2, H1, <- app_assoc. done.
Qed.

End Dials.

(** ** Examples *)

Module CertExample.

#[local] Instance uuid : Uuid := λ ns text, (ns +:+ "/" +:+ text)%string.
#[local] Instance tls : Tls := {
  leaf_Verify _ _ _ := None;
  leaf_VerifyHostname _ _ := true;
  DialInspect _ _ := inl "connection refused";
  ParseResponseForCert _ _ _ := inl "no response";
  ProbeGuardDisabled := false;
}.
#[local] Instance licence : CertLicense := {
  CanCreateCertificate _ count := bool_decide (count < 5);
  allows_ocsp _ := true;
}.
Definition json : list (string * value) → details := λ _, DetailsNil.
Definition finish : list CertMonitor → list CertMonitor := λ l, l.
Definition t0 : Z := 1700000000 * second.
Definition at_ : Z → string := format_rfc3339.

(** The monitor of [shop:443], declared by the container [c1]. *)
Definition shop_id : string := Uid.CertMonitor LocalAgent "shop" 443 "".
Definition shop : CertMonitor :=
  inserted_monitor (identified (new_monitor "shop" 443 cert_SourceLabel "c1" "")) t0.
Definition with_shop : certs := empty_certs <| db_certs := [shop] |>.

(** A scan that read a certificate with this much time left at [t0]. *)
Definition left_ (d : Z) (chain : bool) : CheckCertificateResult :=
  failed_check "" <| raw_SubjectCN := "shop" |> <| raw_NotBefore := t0 - 60 * day |> <| raw_NotAfter := t0 + d |>
    <| raw_ChainValid := chain |> <| raw_HostnameMatch := true |>.

Definition scan (raw : CheckCertificateResult) (w : world certs) : world certs :=
  (check_again json at_ shop_id raw false w).2.
Definition result_of (raw : CheckCertificateResult) (w : world certs) : CertCheckResult :=
  default (empty_result "" 0) (check_again json at_ shop_id raw false w).1.

(** A clock that ticks once a second. *)
Definition ticking : env := Env (λ _, false) (λ n, t0 + Z.of_nat n * second) (env_uid (calm t0)).
Definition w0 : world certs := World ticking 0 with_shop.

Lemma uid_injective n n' : env_uid ticking n = env_uid ticking n' → n = n'.
Proof. intros H. apply (inj (String.append "id")) in H. by apply (inj pretty), (inj N.of_nat) in H. Qed.

Definition broken : CheckCertificateResult := left_ (10 * day) false.


(** What the browser and the engine were told of the broken chain. *)
Example broken_alerts :
  (λ e, (ev_AlertType e, ev_Severity e, ev_IsRecover e)) <$> alerts_since w0 (scan broken w0)
  = [(AlertTypeChainInvalid, "critical", false); (AlertTypeExpiring, "warning", false)].
Proof. vm_compute. reflexivity. Qed.

Definition labels (hosts : string) : gmap string string := {[tlsLabel := hosts]}.

Lemma certificate_labels_exact_witness :
  let targets := ParseCertificateLabels (labels "https://shop/login, db:8443,shop, bad host,db:99999") in
  targets = [MkCertLabel "shop" 443; MkCertLabel "db" 8443]
  ∧ NoDup targets ∧ Forall valid_target targets
  ∧ ∀ p, p ∈ targets ↔ ∃ entry, entry ∈ Split (TrimSpace "https://shop/login, db:8443,shop, bad host,db:99999") ","
      ∧ entry_target entry = Some p.
Proof.
  cbv zeta. split; [vm_compute; reflexivity|].
  exact (certificate_labels_exact (labels "https://shop/login, db:8443,shop, bad host,db:99999") _ eq_refl eq_refl).
Defined.

(** The container [c1] declares [db] instead of [shop]. *)
Lemma certificate_sync_exact_witness :
  let targets := ParseCertificateLabels (labels "db") in
  let rows' := db_certs (w_st (sync_labels json None "c1" (labels "db") (calm_world t0 with_shop)).2) in
  (∀ p, p ∈ targets → ∃ r, r ∈ rows' ∧ stands None p r = true)
  ∧ (∀ r, r ∈ rows' → label_row None "c1" r → declared targets r)
  ∧ (∀ r, r ∈ [shop] → ¬ label_row None "c1" r ∨ declared targets r → r ∈ rows')
  ∧ (∀ r, r ∈ rows' → r ∈ [shop] ∨ ∃ p t, p ∈ targets ∧ (∀ r0, r0 ∈ [shop] → stands None p r0 = false) ∧ r = new_row None "c1" p t).
Proof.
  assert (ParseCertificateLabels (labels "db") = [MkCertLabel "db" 443]) as Ht by (vm_compute; reflexivity).
  apply (certificate_sync_exact json None "c1" (labels "db") (calm_world t0 with_shop)).
  - exact (calm_fault_free _ _).
  - apply NoDup_singleton.
  - rewrite Ht. by repeat constructor.
  - by intros r ->%list_elem_of_singleton.
  - rewrite Ht. intros r p ->%list_elem_of_singleton ->%list_elem_of_singleton H. vm_compute in H. discriminate.
  - rewrite Ht. by intros p q ->%list_elem_of_singleton ->%list_elem_of_singleton _.
Defined.


Example shop_is_dialled :
  cert_dials (w_st (runScheduledChecks json at_ finish w0).2) = [MkDial "shop:443" "shop" true].
Proof. vm_compute. reflexivity. Qed.

(** ** What the code does not do *)

(** A certificate renewed while it is still within the largest threshold is never
    heard of again: the alert of the old one stays live and the new one reaches
    every smaller threshold in silence. *)
Example renewed_within_the_window :
  let w1 := scan (left_ (1 * day) true) w0 in
  let w2 := scan (left_ (20 * day) true) w1 in
  let w3 := scan (left_ (5 * day) true) w2 in
  (λ e, (ev_AlertType e, ev_IsRecover e)) <$> alerts_since w0 w3 = [(AlertTypeExpiring, false)]
  ∧ cm_LastAlertedThreshold <$> db_certs (w_st w3) = [Some 1].
Proof. split; vm_compute; reflexivity. Qed.

(** A monitor of a remote agent stands for the local target of the same name: the
    label of a local container creates none, and nothing scans the local host. *)
Example remote_monitor_hides_local :
  let w1 := (SyncAgentCerts json "agent-1" "c9" (labels "db") (calm_world t0 empty_certs)).2 in
  let w2 := (SyncFromLabels json "c1" (labels "db") w1).2 in
  let w3 := (runScheduledChecks json at_ finish w2).2 in
  (λ m, (cm_Hostname m, cm_AgentID m)) <$> db_certs (w_st w3) = [("db", "agent-1")] ∧ cert_dials (w_st w3) = [].
Proof. split; vm_compute; reflexivity. Qed.

(** Two containers declare one host; when the first is destroyed the monitor
    goes, although the second still declares it. *)
Example shared_target_lost :
  let w1 := (SyncFromLabels json "c2" (labels "shop") (calm_world t0 with_shop)).2 in
  let w2 := (cert_HandleContainerDestroy json "c1" w1).2 in
  db_certs (w_st w2) = [].
Proof. vm_compute. reflexivity. Qed.

(** A scan writes back the row it read before its handshake: what the operator
    changed meanwhile is undone. *)
Example update_during_scan_lost :
  let w1 := (cert_UpdateMonitor shop_id (MkUpdateCertificate (Some 3600) []) w0).2 in
  let w2 := (processCheckResult json at_ shop (left_ (90 * day) true) false w1).2 in
  cm_CheckIntervalSeconds <$> db_certs (w_st w1) = [3600] ∧ cm_CheckIntervalSeconds <$> db_certs (w_st w2) = [43200].
Proof. split; vm_compute; reflexivity. Qed.

(** Two scans in one second: the third is compared with the first, not with the
    second, and the alert of the second is never taken back. *)
Example scans_in_one_second :
  let w1 := scan broken (scan (left_ (90 * day) true) (calm_world t0 with_shop)) in
  let w2 := scan (left_ (90 * day) true) (World (calm (t0 + 60 * second)) (w_tick w1) (w_st w1)) in
  (λ e, (ev_AlertType e, ev_IsRecover e)) <$> alerts_since (calm_world t0 with_shop) w2
  = [(AlertTypeChainInvalid, false); (AlertTypeExpiring, false); (AlertTypeExpiring, true)].
Proof. vm_compute. reflexivity. Qed.
End CertExample.
