(* ===== verification/Status.v ===== *)
(** * Status page: data and stores

    [src/internal/status/model.go] and the statements of
    [src/internal/store/status_components.go], [incidents.go] and
    [maintenance.go].  A component is stored without its monitors, which are rows
    of a table of their own; so are the components an incident or a window names.
    The schema deletes those rows with what they refer to.  A time column holds a
    time truncated to the second.  No call names the alert of an update. *)

From S2P Require Import Prelude.
From S2P Require Import Tables.
From S2P Require Import GoStrings.
From S2P Require Import GoTime.
From S2P Require Import AlertModel.
From S2P Require Import SwarmAlerts.
From S2P Require Import Container.

#[local] Open Scope string_scope.
#[local] Open Scope list_scope.
#[local] Open Scope Z_scope.

Definition StatusOperational := "operational".
Definition st_StatusDegraded := "degraded".
Definition StatusPartialOutage := "partial_outage".
Definition StatusMajorOutage := "major_outage".
Definition StatusUnderMaint := "under_maintenance".

Definition SeverityMinor := "minor".
Definition SeverityMajor := "major".
Definition st_SeverityCritical := "critical".

Definition IncidentInvestigating := "investigating".
Definition IncidentIdentified := "identified".
Definition IncidentMonitoring := "monitoring".
Definition IncidentResolved := "resolved".

Definition componentStatuses : list string :=
  [StatusOperational; st_StatusDegraded; StatusPartialOutage; StatusMajorOutage; StatusUnderMaint].
Definition severities : list string := [SeverityMinor; SeverityMajor; st_SeverityCritical].
Definition incidentStatuses : list string :=
  [IncidentInvestigating; IncidentIdentified; IncidentMonitoring; IncidentResolved].

Definition CompositionExplicit := "explicit".
Definition CompositionMatchAll := "match-all".

(** ** Data *)

Record MonitorRef := MkMonitorRef {
  mr_Type : string;
  mr_ID : string;
  mr_Name : string;
  mr_Label : string;
  mr_Status : string;
}.
#[export] Instance MonitorRef_eq_dec : EqDecision MonitorRef.
Proof. solve_decision. Defined.

(** What a public surface tells about a monitor. *)
Record PublicMonitor := MkPublicMonitor {
  pm_Type : string;
  pm_Status : string;
  pm_Label : string;
}.

Definition PublicMonitors (refs : list MonitorRef) : list PublicMonitor :=
  (λ r, MkPublicMonitor (mr_Type r) (mr_Status r) (mr_Label r)) <$> refs.

Record Component := MkComponent {
  cp_ID : string;
  cp_CompositionMode : string;
  cp_Monitors : list MonitorRef;
  cp_MatchAllType : string;
  cp_DisplayName : string;
  cp_DisplayOrder : Z;
  cp_Visible : bool;
  cp_StatusOverride : option string;
  cp_OverrideBeforeMaintenance : option string;
  cp_AutoIncident : bool;
  cp_NeedsAttention : bool;
  cp_CreatedAt : Z;
  cp_UpdatedAt : Z;
}.
#[export] Instance Component_eta : Eta Component := λ c,
  MkComponent (cp_ID c) (cp_CompositionMode c) (cp_Monitors c) (cp_MatchAllType c) (cp_DisplayName c) (cp_DisplayOrder c)
    (cp_Visible c) (cp_StatusOverride c) (cp_OverrideBeforeMaintenance c) (cp_AutoIncident c) (cp_NeedsAttention c)
    (cp_CreatedAt c) (cp_UpdatedAt c).
#[export] Instance Component_id : HasId Component := cp_ID.

(** A component named by an incident or a window. *)
Record IncidentCompRef := MkCompRef {
  cr_ID : string;
  cr_Name : string;
  cr_Visible : bool;
}.

Record IncidentUpdate := MkUpdate {
  iu_ID : string;
  iu_IncidentID : string;
  iu_Status : string;
  iu_Message : string;
  iu_IsAuto : bool;
  iu_CreatedAt : Z;
}.
#[export] Instance IncidentUpdate_id : HasId IncidentUpdate := iu_ID.

Record Incident := MkIncident {
  in_ID : string;
  in_Title : string;
  in_Severity : string;
  in_Status : string;
  in_IsMaintenance : bool;
  in_MaintenanceWindowID : option string;
  in_Components : list IncidentCompRef;
  in_Updates : list IncidentUpdate;
  in_CreatedAt : Z;
  in_ResolvedAt : option Z;
  in_UpdatedAt : Z;
}.
#[export] Instance Incident_eta : Eta Incident := λ i,
  MkIncident (in_ID i) (in_Title i) (in_Severity i) (in_Status i) (in_IsMaintenance i) (in_MaintenanceWindowID i)
    (in_Components i) (in_Updates i) (in_CreatedAt i) (in_ResolvedAt i) (in_UpdatedAt i).
#[export] Instance Incident_id : HasId Incident := in_ID.

Record MaintenanceWindow := MkWindow {
  mw_ID : string;
  mw_Title : string;
  mw_Description : string;
  mw_StartsAt : Z;
  mw_EndsAt : Z;
  mw_Active : bool;
  mw_IncidentID : option string;
  mw_Components : list IncidentCompRef;
  mw_CreatedAt : Z;
  mw_UpdatedAt : Z;
}.
#[export] Instance MaintenanceWindow_eta : Eta MaintenanceWindow := λ w,
  MkWindow (mw_ID w) (mw_Title w) (mw_Description w) (mw_StartsAt w) (mw_EndsAt w) (mw_Active w) (mw_IncidentID w)
    (mw_Components w) (mw_CreatedAt w) (mw_UpdatedAt w).
#[export] Instance MaintenanceWindow_id : HasId MaintenanceWindow := mw_ID.

(** ** State *)

(** What an event of the page carries: its fields, and the monitors of the
    component it is about, whole or in their public form. *)
Record payload := MkPayload {
  py_Type : string;
  py_Data : list (string * value);
  py_Monitors : option (list MonitorRef + list PublicMonitor);
}.

(** A row of [status_component_monitors]. *)
Record monitor_row := MkMonitorRow {
  mn_Component : string;
  mn_Type : string;
  mn_ID : string;
  mn_Label : string;
}.
#[export] Instance monitor_row_eq_dec : EqDecision monitor_row.
Proof. solve_decision. Defined.

(** The tables; what the other services answer about the monitors, the status of
    one and all those of a type; then the events of the public page, those of the dashboard and the emails to the
    subscribers. *)
Record page := MkPage {
  db_components : list Component;
  db_monitors : list monitor_row;
  db_incidents : list Incident;
  db_incident_components : list (string * string);
  db_updates : list IncidentUpdate;
  db_windows : list MaintenanceWindow;
  db_window_components : list (string * string);
  pg_status : gmap (string * string) string;
  pg_population : gmap string (list MonitorRef);
  public_events : list payload;
  admin_events : list payload;
  pg_mails : list (string * string);
}.
#[export] Instance page_eta : Eta page := λ s,
  MkPage (db_components s) (db_monitors s) (db_incidents s) (db_incident_components s) (db_updates s) (db_windows s)
    (db_window_components s) (pg_status s) (pg_population s) (public_events s) (admin_events s) (pg_mails s).

Definition empty_page : page := MkPage [] [] [] [] [] [] [] ∅ ∅ [] [] [].

(** [ORDER BY monitor_type, monitor_id]. *)
Definition by_monitor : relation monitor_row := λ a b,
  mn_Type a ≠ mn_Type b ∧ String.le (mn_Type a) (mn_Type b) ∨ mn_Type a = mn_Type b ∧ String.le (mn_ID a) (mn_ID b).

#[local] Instance by_monitor_dec : RelDecision by_monitor.
Proof. intros ??. unfold by_monitor. apply _. Defined.

(** A row with its monitors. *)
Definition with_monitors (s : page) (c : Component) : Component :=
  let refs := (λ m, MkMonitorRef (mn_Type m) (mn_ID m) "" (mn_Label m) "") <$>
    merge_sort by_monitor (filter (λ m, mn_Component m = cp_ID c) (db_monitors s)) in
  let refs := if bool_decide (cp_CompositionMode c = CompositionMatchAll) then [] else refs in
  c <| cp_Monitors := refs |>
    <| cp_NeedsAttention := bool_decide (cp_CompositionMode c = CompositionExplicit) && bool_decide (refs = []) |>.

(** The rows a select of components returns, and the second query for their
    monitors when there are any. *)
Definition components (q : page → list Component) : M page (result (list Component)) :=
  let? comps := db_query q in
  if bool_decide (length comps = 0%nat) then ret (Ok [])
  else db_query (λ s, with_monitors s <$> comps).

(** [ORDER BY display_order, display_name]. *)
Definition by_display : relation Component := λ a b,
  cp_DisplayOrder a < cp_DisplayOrder b
  ∨ cp_DisplayOrder a = cp_DisplayOrder b ∧ String.le (cp_DisplayName a) (cp_DisplayName b).

(** [ORDER BY display_order, id]. *)
Definition by_order_id : relation Component := λ a b,
  cp_DisplayOrder a < cp_DisplayOrder b ∨ cp_DisplayOrder a = cp_DisplayOrder b ∧ String.le (cp_ID a) (cp_ID b).

#[local] Instance by_display_dec : RelDecision by_display.
Proof. intros ??. unfold by_display. apply _. Defined.
#[local] Instance by_order_id_dec : RelDecision by_order_id.
Proof. intros ??. unfold by_order_id. apply _. Defined.

Definition ListComponents : M page (result (list Component)) :=
  components (λ s, merge_sort by_display (db_components s)).

Definition ListVisibleComponents : M page (result (list Component)) :=
  components (λ s, merge_sort by_display (select_where cp_Visible (db_components s))).

Definition GetComponent (id : string) : M page (result (option Component)) :=
  let? comps := components (λ s, option_list (select_id id (db_components s))) in
  ret (Ok (head comps)).

Definition has_monitor (s : page) (monitorType monitorID : string) (c : Component) : bool :=
  existsb (λ m, bool_decide (mn_Component m = cp_ID c) && bool_decide (mn_Type m = monitorType)
                && bool_decide (mn_ID m = monitorID)) (db_monitors s).

(** An empty type is a NULL column, which equals nothing. *)
Definition matches_all (monitorType : string) (c : Component) : bool :=
  bool_decide (cp_CompositionMode c = CompositionMatchAll) && bool_decide (cp_MatchAllType c = monitorType)
  && negb (bool_decide (monitorType = "")).

(** A component that aggregates the monitor. *)
Definition lists_monitor (s : page) (monitorType monitorID : string) (c : Component) : bool :=
  has_monitor s monitorType monitorID c || matches_all monitorType c.

Definition ListComponentsByMonitor (monitorType monitorID : string) : M page (result (list Component)) :=
  components (λ s, merge_sort by_order_id (select_where (lists_monitor s monitorType monitorID) (db_components s))).

Definition RemoveDanglingMonitorRefs (monitorType monitorID : string) : M page (result unit) :=
  db_exec (λ s, s <| db_monitors ::= filter (λ m, ¬ (mn_Type m = monitorType ∧ mn_ID m = monitorID)) |>).

(** A row that refers to others: refused when one of them is missing, or when
    it is there already. *)
Definition db_link {A} `{EqDecision A} (get : page → list A) (set_ : (list A → list A) → page → page)
    (allowed : page → bool) (same : A → A → bool) (row : A) : M page (result unit) :=
  let! failed := fault in
  if failed then ret (Err EStore)
  else
    let! s := gets (λ s, s) in
    if negb (allowed s) || existsb (same row) (get s) then ret (Err EStore)
    else do! modify (set_ (λ l, l ++ [row])) in ret (Ok tt).

Lemma wp_db_link {A} `{EqDecision A} get set_ allowed same_ (row : A) (Q : result unit → world page → Prop) w :
  (∀ w', same w w' → (fault_free w → negb (allowed (w_st w)) || existsb (same_ row) (get (w_st w)) = true) → Q (Err EStore) w') →
  (∀ w', allowed (w_st w) = true → existsb (same_ row) (get (w_st w)) = false →
    put w (set_ (λ l, l ++ [row]) (w_st w)) w' → Q (Ok tt) w') →
  wp (db_link get set_ allowed same_ row) Q w.
Proof.
  intros He Ho. apply wp_bind, wp_fault. intros b w' Hs Hff. destruct b.
  { apply wp_ret, He; [done|]. by intros ?%Hff. }
  apply wp_bind, wp_gets. rewrite (proj1 Hs). destruct (negb _ || _) eqn:E; [by apply wp_ret, He|].
  apply orb_false_iff in E as [E1%negb_false_iff E2]. apply wp_bind, wp_modify, wp_ret, Ho; [done..|].
  destruct Hs as (Hs & Henv & Ht). unfold put. cbn. by rewrite Hs, Henv.
Qed.

Definition component_exists (id : string) (s : page) : bool := bool_decide (id ∈ table_ids (db_components s)).

Definition same_monitor (a b : monitor_row) : bool :=
  bool_decide (mn_Component a = mn_Component b) && bool_decide (mn_Type a = mn_Type b) && bool_decide (mn_ID a = mn_ID b).

Definition insert_monitor (m : monitor_row) : M page (result unit) :=
  db_link db_monitors (λ f s, s <| db_monitors ::= f |>) (component_exists (mn_Component m)) same_monitor m.

(** A [for] loop that returns the first error. *)
Fixpoint for_ok {S A} (l : list A) (body : A → M S (result unit)) : M S (result unit) :=
  match l with
  | [] => ret (Ok tt)
  | a :: l => do? body a in for_ok l body
  end.

Lemma steps_for_ok {A} (R : page → page → Prop) `{!PreOrder R} (l : list A) (body : A → M page (result unit)) :
  (∀ a, steps R (body a)) → steps R (for_ok l body).
Proof. intros H. induction l as [|a l IH]; cbn; steps_tac. Qed.

(** The component as its row. *)
Definition component_row (c : Component) : Component :=
  c <| cp_Monitors := [] |> <| cp_NeedsAttention := false |>.

(** [CreateComponent]: the caller's component, completed. *)
Definition CreateComponent (c : Component) : M page (result Component) :=
  let! t := now in
  let mode := if bool_decide (cp_CompositionMode c = "") then CompositionExplicit else cp_CompositionMode c in
  let! id := new_uid in
  let c := c <| cp_ID := id |> <| cp_CompositionMode := mode |> <| cp_CreatedAt := db_time t |> <| cp_UpdatedAt := db_time t |> in
  do? db_insert db_components (λ l s, s <| db_components := l |>) (component_row c) in
  if bool_decide (mode = CompositionExplicit) then
    do? for_ok (cp_Monitors c) (λ r, insert_monitor (MkMonitorRow id (mr_Type r) (mr_ID r) (mr_Label r))) in ret (Ok c)
  else ret (Ok c).

(** The columns an update writes. *)
Definition updated_component (c : Component) (t : Z) (r : Component) : Component :=
  r <| cp_DisplayName := cp_DisplayName c |> <| cp_DisplayOrder := cp_DisplayOrder c |> <| cp_Visible := cp_Visible c |>
    <| cp_StatusOverride := cp_StatusOverride c |> <| cp_OverrideBeforeMaintenance := cp_OverrideBeforeMaintenance c |>
    <| cp_AutoIncident := cp_AutoIncident c |> <| cp_MatchAllType := cp_MatchAllType c |> <| cp_UpdatedAt := db_time t |>.

(** The monitors wanted, each once, the last label winning, in the order [visit]
    gives the map. *)
Definition ref_key (r : MonitorRef) : string * string := (mr_Type r, mr_ID r).

Section Store.
Context (visit : list (string * string) → list (string * string)).

Definition desired_refs (desired : list MonitorRef) : gmap (string * string) string :=
  foldl (λ acc r, <[ref_key r := mr_Label r]> acc) ∅ desired.

Definition delete_ref (componentID : string) (k : string * string) : M page (result unit) :=
  db_exec (λ s, s <| db_monitors ::=
    filter (λ m, ¬ (mn_Component m = componentID ∧ (mn_Type m, mn_ID m) = k)) |>).

Definition relabel_ref (componentID : string) (k : string * string) (label : string) : M page (result unit) :=
  db_exec (λ s, s <| db_monitors ::= fmap (λ m,
    if bool_decide (mn_Component m = componentID ∧ (mn_Type m, mn_ID m) = k)
    then MkMonitorRow (mn_Component m) (mn_Type m) (mn_ID m) label else m) |>).

Definition deltaApplyMonitorRefs (componentID : string) (desired : list MonitorRef) : M page (result unit) :=
  let? current := db_query (λ s, list_to_map (M := gmap (string * string) string)
    ((λ m, ((mn_Type m, mn_ID m), mn_Label m)) <$> filter (λ m, mn_Component m = componentID) (db_monitors s))) in
  let wanted := desired_refs desired in
  do? for_ok (visit (map_to_list current).*1) (λ k,
    match wanted !! k with Some _ => ret (Ok tt) | None => delete_ref componentID k end) in
  for_ok (visit (map_to_list wanted).*1) (λ k,
    match wanted !! k, current !! k with
    | Some label, None => insert_monitor (MkMonitorRow componentID k.1 k.2 label)
    | Some label, Some currentLabel =>
      if bool_decide (currentLabel = label) then ret (Ok tt) else relabel_ref componentID k label
    | None, _ => ret (Ok tt)
    end).

(** [UpdateComponent]: the caller's component, completed. *)
Definition UpdateComponent (c : Component) : M page (result Component) :=
  let! t := now in
  do? db_exec (λ s, s <| db_components ::= update_id (cp_ID c) (updated_component c t) |>) in
  do? (if bool_decide (cp_CompositionMode c = CompositionExplicit) then deltaApplyMonitorRefs (cp_ID c) (cp_Monitors c)
       else ret (Ok tt)) in
  ret (Ok (c <| cp_UpdatedAt := db_time t |>)).
End Store.

(** A deletion takes with it the rows that refer to the component. *)
Definition removed_component (id : string) (s : page) : page :=
  s <| db_components ::= delete_where (λ c, bool_decide (cp_ID c = id)) |>
    <| db_monitors ::= filter (λ m, mn_Component m ≠ id) |>
    <| db_incident_components ::= filter (λ l, l.2 ≠ id) |>
    <| db_window_components ::= filter (λ l, l.2 ≠ id) |>.

Definition DeleteComponent (id : string) : M page (result unit) := db_exec (removed_component id).

Definition st_CountConfigured : M page (result Z) := db_query (λ s, Z.of_nat (length (db_components s))).

(** ** Incidents *)

(** The components the rows of a link table name, as they are now. *)
Definition named_components (s : page) (ids : list string) : list IncidentCompRef :=
  (λ c, MkCompRef (cp_ID c) (cp_DisplayName c) (cp_Visible c))
  <$> filter (λ c, cp_ID c ∈ ids) (db_components s).

Definition linked (links : list (string * string)) (id : string) : list string :=
  (filter (λ l, l.1 = id) links).*2.

Definition loadIncidentRelations (i : Incident) : M page (result Incident) :=
  let? comps := db_query (λ s, named_components s (linked (db_incident_components s) (in_ID i))) in
  let? updates := db_query (λ s, stable_sort (by_key (λ u, - iu_CreatedAt u))
    (select_where (λ u, bool_decide (iu_IncidentID u = in_ID i)) (db_updates s))) in
  ret (Ok (i <| in_Components := comps |> <| in_Updates := updates |>)).

Definition GetIncident (id : string) : M page (result (option Incident)) :=
  let? row := db_query (λ s, select_id id (db_incidents s)) in
  match row with
  | None => ret (Ok None)
  | Some i => let? i := loadIncidentRelations i in ret (Ok (Some i))
  end.

(** The relations of every row read; the first failure is the answer. *)
Fixpoint scanIncidents (rows : list Incident) : M page (result (list Incident)) :=
  match rows with
  | [] => ret (Ok [])
  | i :: rows => let? i := loadIncidentRelations i in let? rest := scanIncidents rows in ret (Ok (i :: rest))
  end.

Definition is_open (i : Incident) : bool := negb (bool_decide (in_Status i = IncidentResolved)).

Definition ListActiveIncidents : M page (result (list Incident)) :=
  let? rows := db_query (λ s, stable_sort (by_key (λ i, - in_CreatedAt i)) (select_where is_open (db_incidents s))) in
  scanIncidents rows.

(** The open incidents that name the component, the newest first. *)
Definition open_incidents (componentID : string) (s : page) : list Incident :=
  stable_sort (by_key (λ i, - in_CreatedAt i))
    (select_where (λ i, is_open i && bool_decide ((in_ID i, componentID) ∈ db_incident_components s)) (db_incidents s)).

Definition GetActiveIncidentByComponent (componentID : string) : M page (result (option Incident)) :=
  let? id := db_query (λ s, in_ID <$> head (open_incidents componentID s)) in
  match id with
  | None => ret (Ok None)
  | Some id => GetIncident id
  end.

Definition incident_exists (id : string) (s : page) : bool := bool_decide (id ∈ table_ids (db_incidents s)).

Definition link_incident (incidentID componentID : string) : M page (result unit) :=
  db_link db_incident_components (λ f s, s <| db_incident_components ::= f |>)
    (λ s, incident_exists incidentID s && component_exists componentID s)
    (λ a b, bool_decide (a = b)) (incidentID, componentID).

(** An update is stored under a fresh identifier, for an incident that exists. *)
Definition insert_update (u : IncidentUpdate) : M page (result unit) :=
  let! s := gets (λ s, s) in
  if incident_exists (iu_IncidentID u) s then db_insert db_updates (λ l s, s <| db_updates := l |>) u
  else do! fault in ret (Err EStore).

(** [CreateIncident]: the caller's incident, completed. *)
Definition CreateIncident (i : Incident) (componentIDs : list string) (initialMessage : string)
    : M page (result Incident) :=
  let! t := now in
  let! id := new_uid in
  let i := i <| in_ID := id |> in
  do? db_insert db_incidents (λ l s, s <| db_incidents := l |>)
    (i <| in_Components := [] |> <| in_Updates := [] |> <| in_CreatedAt := db_time t |> <| in_ResolvedAt := None |>
       <| in_UpdatedAt := db_time t |>) in
  let i := i <| in_CreatedAt := db_time t |> <| in_UpdatedAt := db_time t |> in
  do? for_ok componentIDs (link_incident id) in
  if bool_decide (initialMessage = "") then ret (Ok i)
  else
    let! uid_ := new_uid in
    do? insert_update (MkUpdate uid_ id (in_Status i) initialMessage false (db_time t)) in
    ret (Ok i).

Definition unlink (id : string) (links : list (string * string)) : list (string * string) :=
  filter (λ l, l.1 ≠ id) links.

(** The links a request asks for, all of them anew; none when it leaves them out. *)
Definition relink (links : option (list string)) (clear : M page (result unit)) (link : string → M page (result unit))
    : M page (result unit) :=
  match links with
  | None => ret (Ok tt)
  | Some ids => do? clear in for_ok ids link
  end.

(** [UpdateIncident]: the caller's incident, completed. *)
Definition UpdateIncident (i : Incident) (componentIDs : option (list string)) : M page (result Incident) :=
  let! t := now in
  do? db_exec (λ s, s <| db_incidents ::= update_id (in_ID i)
    (λ r, r <| in_Title := in_Title i |> <| in_Severity := in_Severity i |> <| in_UpdatedAt := db_time t |>) |>) in
  do? relink componentIDs (db_exec (λ s, s <| db_incident_components ::= unlink (in_ID i) |>)) (link_incident (in_ID i)) in
  ret (Ok (i <| in_UpdatedAt := db_time t |>)).

Definition removed_incident (id : string) (s : page) : page :=
  s <| db_incidents ::= delete_where (λ i, bool_decide (in_ID i = id)) |>
    <| db_incident_components ::= unlink id |>
    <| db_updates ::= delete_where (λ u, bool_decide (iu_IncidentID u = id)) |>.

Definition DeleteIncident (id : string) : M page (result unit) := db_exec (removed_incident id).

(** What an update does to its incident's row. *)
Definition posted (u : IncidentUpdate) (t : Z) (r : Incident) : Incident :=
  r <| in_Status := iu_Status u |>
    <| in_ResolvedAt ::= λ old, if bool_decide (iu_Status u = IncidentResolved) then Some (db_time t) else old |>
    <| in_UpdatedAt := db_time t |>.

(** [CreateUpdate]: the caller's update, completed. *)
Definition CreateUpdate (incidentID status message : string) (isAuto : bool) : M page (result IncidentUpdate) :=
  let! t := now in
  let! id := new_uid in
  let u := MkUpdate id incidentID status message isAuto (db_time t) in
  do? insert_update u in
  do? db_exec (λ s, s <| db_incidents ::= update_id incidentID (posted u t) |>) in
  ret (Ok u).

(** ** Maintenance windows *)

(** A window as a select returns it, after a query for its components. *)
Definition loadMaintenanceComponents (w : MaintenanceWindow) : M page (result MaintenanceWindow) :=
  let? comps := db_query (λ s, named_components s (linked (db_window_components s) (mw_ID w))) in
  ret (Ok (w <| mw_Components := comps |>)).

Fixpoint scanMaintenanceWindows (rows : list MaintenanceWindow) : M page (result (list MaintenanceWindow)) :=
  match rows with
  | [] => ret (Ok [])
  | w :: rows =>
    let? w := loadMaintenanceComponents w in
    let? rest := scanMaintenanceWindows rows in ret (Ok (w :: rest))
  end.

Definition GetMaintenance (id : string) : M page (result (option MaintenanceWindow)) :=
  let? row := db_query (λ s, select_id id (db_windows s)) in
  match row with
  | None => ret (Ok None)
  | Some w => let? w := loadMaintenanceComponents w in ret (Ok (Some w))
  end.

Definition window_exists (id : string) (s : page) : bool := bool_decide (id ∈ table_ids (db_windows s)).

Definition link_window (windowID componentID : string) : M page (result unit) :=
  db_link db_window_components (λ f s, s <| db_window_components ::= f |>)
    (λ s, window_exists windowID s && component_exists componentID s)
    (λ a b, bool_decide (a = b)) (windowID, componentID).

(** [CreateMaintenance]: the caller's window, completed. *)
Definition CreateMaintenance (w : MaintenanceWindow) (componentIDs : list string) : M page (result MaintenanceWindow) :=
  let! t := now in
  let! id := new_uid in
  do? db_insert db_windows (λ l s, s <| db_windows := l |>)
    (w <| mw_ID := id |> <| mw_StartsAt := db_time (mw_StartsAt w) |> <| mw_EndsAt := db_time (mw_EndsAt w) |>
       <| mw_Active := false |> <| mw_IncidentID := None |> <| mw_Components := [] |>
       <| mw_CreatedAt := db_time t |> <| mw_UpdatedAt := db_time t |>) in
  do? for_ok componentIDs (link_window id) in
  ret (Ok (w <| mw_ID := id |> <| mw_CreatedAt := db_time t |> <| mw_UpdatedAt := db_time t |>)).

(** [UpdateMaintenance]: the caller's window, completed. *)
Definition UpdateMaintenance (w : MaintenanceWindow) (componentIDs : option (list string))
    : M page (result MaintenanceWindow) :=
  let! t := now in
  do? db_exec (λ s, s <| db_windows ::= update_id (mw_ID w)
    (λ r, r <| mw_Title := mw_Title w |> <| mw_Description := mw_Description w |>
            <| mw_StartsAt := db_time (mw_StartsAt w) |> <| mw_EndsAt := db_time (mw_EndsAt w) |>
            <| mw_UpdatedAt := db_time t |>) |>) in
  do? relink componentIDs (db_exec (λ s, s <| db_window_components ::= unlink (mw_ID w) |>)) (link_window (mw_ID w)) in
  ret (Ok (w <| mw_UpdatedAt := db_time t |>)).

Definition removed_window (id : string) (s : page) : page :=
  s <| db_windows ::= delete_where (λ w, bool_decide (mw_ID w = id)) |>
    <| db_window_components ::= unlink id |>.

Definition DeleteMaintenance (id : string) : M page (result unit) := db_exec (removed_window id).

(** Its time has come and is not over: [starts_at <= now < ends_at]. *)
Definition running_at (t : Z) (w : MaintenanceWindow) : bool :=
  bool_decide (unix (mw_StartsAt w) ≤ unix t) && bool_decide (unix t < unix (mw_EndsAt w)).

Definition to_activate (t : Z) (w : MaintenanceWindow) : bool := negb (mw_Active w) && running_at t w.

Definition to_deactivate (t : Z) (w : MaintenanceWindow) : bool :=
  mw_Active w && bool_decide (unix (mw_EndsAt w) ≤ unix t).

Definition GetPendingActivation (t : Z) : M page (result (list MaintenanceWindow)) :=
  let? rows := db_query (λ s, select_where (to_activate t) (db_windows s)) in scanMaintenanceWindows rows.

Definition GetPendingDeactivation (t : Z) : M page (result (list MaintenanceWindow)) :=
  let? rows := db_query (λ s, select_where (to_deactivate t) (db_windows s)) in scanMaintenanceWindows rows.

Definition SetActive (id : string) (active : bool) (incidentID : option string) : M page (result unit) :=
  let! t := now in
  db_exec (λ s, s <| db_windows ::= update_id id
    (λ r, r <| mw_Active := active |> <| mw_IncidentID := incidentID |> <| mw_UpdatedAt := db_time t |>) |>).

(** An active window other than [windowID] lists the component. *)
Definition covered_but (componentID windowID : string) (s : page) : bool :=
  existsb (λ w, mw_Active w && negb (bool_decide (mw_ID w = windowID))
                && bool_decide ((mw_ID w, componentID) ∈ db_window_components s)) (db_windows s).

Definition CoveredByAnotherActiveWindow (componentID windowID : string) : M page (result bool) :=
  db_query (covered_but componentID windowID).

(** A window that is running at [t], whatever its flag, and covers the monitor. *)
Definition suppresses (s : page) (monitorType monitorID : string) (t : Z) (w : MaintenanceWindow) : bool :=
  running_at t w
  && existsb (λ c, bool_decide ((mw_ID w, cp_ID c) ∈ db_window_components s)
       && (matches_all monitorType c
           || bool_decide (cp_CompositionMode c = CompositionExplicit) && has_monitor s monitorType monitorID c))
     (db_components s).

Definition IsEntitySuppressed (monitorType monitorID : string) (t : Z) : M page (result bool) :=
  db_query (λ s, existsb (suppresses s monitorType monitorID t) (db_windows s)).

(** The suppressor of the alert engine: an error suppresses nothing. *)
Definition st_IsSuppressed (entityType entityID : string) : M page bool :=
  if bool_decide (entityType = "") || bool_decide (entityID = "") then ret false
  else
    let! t := now in
    let! r := IsEntitySuppressed entityType entityID t in
    match r with Ok matched => ret matched | Err _ => ret false end.
