(* ===== verification/StatusService.v ===== *)
(** * Status page: derivation, announcements, incidents, maintenance

    [src/internal/status/service.go], [announce.go] and [component_ids.go], the
    incident handler and the maintenance scheduler of
    [src/internal/commercial/statuspage], and the functions of
    [src/internal/app/status.go] that give each kind of monitor its status.  The
    optional dependencies of the service are set, as [app.go] sets them.  The flag
    [DeriveComponentStatus] sets on an explicit component without monitors is one
    the store already set. *)

From S2P Require Import Prelude.
From S2P Require Import Tables.
From S2P Require Import GoStrings.
From S2P Require Import AlertModel.
From S2P Require Import Heartbeat.
From S2P Require Import SwarmAlerts.
From S2P Require Import Container.
From S2P Require Import Endpoint.
From S2P Require Import Certificate.
From S2P Require Import Status.

#[local] Open Scope string_scope.
#[local] Open Scope list_scope.
#[local] Open Scope Z_scope.

Definition GlobalAllOperational := "All Systems Operational".
Definition GlobalDegraded := "Degraded Performance".
Definition GlobalPartialOutage := "Partial System Outage".
Definition GlobalMajorOutage := "Major System Outage".
Definition GlobalMaintenance := "Scheduled Maintenance".

Definition StatusComponentCreated := "status.component_created".
Definition StatusComponentUpdated := "status.component_updated".
Definition StatusComponentDeleted := "status.component_deleted".
Definition StatusComponentChanged := "status.component_changed".
Definition StatusIncidentCreated := "status.incident_created".
Definition StatusIncidentUpdated := "status.incident_updated".
Definition StatusIncidentResolved := "status.incident_resolved".
Definition StatusMaintenanceStart := "status.maintenance_started".
Definition StatusMaintenanceEnd := "status.maintenance_ended".
Definition StatusGlobalChanged := "status.global_changed".

(** What the running edition and its configuration allow, read at every call. *)
Class PageLicense := {
  subscriptions_enabled : nat → bool;
  component_limit : nat → Z;
}.

(** ** The status of a monitor *)

Definition ContainerStatus (c : Container) : string :=
  if bool_decide (ct_State c = StateRunning) then
    match ct_HealthStatus c with
    | Some h => if bool_decide (h = HealthUnhealthy) then st_StatusDegraded else StatusOperational
    | None => StatusOperational
    end
  else if bool_decide (ct_State c = StateCompleted) then StatusOperational
  else StatusMajorOutage.

Definition EndpointStatus (ep : Endpoint) : string :=
  if bool_decide (ep_Status ep = endpoint_StatusUp) then StatusOperational
  else if bool_decide (ep_Status ep = endpoint_StatusDown) then StatusMajorOutage
  else if bool_decide (ep_Status ep = endpoint_StatusDegraded) then st_StatusDegraded
  else StatusOperational.

Definition HeartbeatStatus (hb : Heartbeat) : string :=
  if bool_decide (hb_Status hb = StatusUp) then StatusOperational
  else if bool_decide (hb_Status hb = StatusDown) then StatusMajorOutage
  else st_StatusDegraded.

Definition CertificateStatus (cert : CertMonitor) : string :=
  if bool_decide (cm_Status cert = StatusValid) then StatusOperational
  else if bool_decide (cm_Status cert = StatusExpiring) then st_StatusDegraded
  else StatusMajorOutage.

Definition provided {A} (r : result (option A)) (f : A → string) : string :=
  match r with Ok (Some a) => f a | _ => StatusOperational end.

(** The provider, over what the services answer: an error or nothing found is
    operational. *)
Definition wired_status (container : string → result (option Container)) (endpoint : string → result (option Endpoint))
    (heartbeat : string → result (option Heartbeat)) (certificate : string → result (option CertMonitor))
    (monitorType monitorID : string) : string :=
  if bool_decide (monitorType = "container") then provided (container monitorID) ContainerStatus
  else if bool_decide (monitorType = "endpoint") then provided (endpoint monitorID) EndpointStatus
  else if bool_decide (monitorType = "heartbeat") then provided (heartbeat monitorID) HeartbeatStatus
  else if bool_decide (monitorType = "certificate") then provided (certificate monitorID) CertificateStatus
  else StatusOperational.

(** ** Derivation *)

(** The counts of the loop: major outages, whether a partial outage was seen,
    whether anything but operational was. *)
Definition count_state (acc : Z * bool * bool) (st : string) : Z * bool * bool :=
  let '(major, hasPartial, hasNonOperational) := acc in
  if bool_decide (st = StatusMajorOutage) then (major + 1, hasPartial, true)
  else if bool_decide (st = StatusPartialOutage) then (major, true, true)
  else if bool_decide (st = st_StatusDegraded) || bool_decide (st = StatusUnderMaint) then (major, hasPartial, true)
  else acc.

Definition ComputeAggregateStatus (states : list string) : string :=
  if bool_decide (length states = 0%nat) then StatusOperational
  else
    let '(major, hasPartial, hasNonOperational) := foldl count_state (0, false, false) states in
    if bool_decide (major = Z.of_nat (length states)) then StatusMajorOutage
    else if bool_decide (0 < major) then StatusPartialOutage
    else if (hasPartial : bool) then StatusPartialOutage
    else if (hasNonOperational : bool) then st_StatusDegraded
    else StatusOperational.

Definition monitor_status (s : page) (monitorType monitorID : string) : string :=
  default StatusOperational (pg_status s !! (monitorType, monitorID)).

Definition monitor_population (s : page) (monitorType : string) : list MonitorRef :=
  default [] (pg_population s !! monitorType).

Definition DeriveComponentStatus (s : page) (c : Component) : string :=
  match cp_StatusOverride c with
  | Some override => override
  | None =>
    let states refs := (λ r, monitor_status s (mr_Type r) (mr_ID r)) <$> refs in
    if bool_decide (cp_CompositionMode c = CompositionMatchAll) then
      ComputeAggregateStatus (states (monitor_population s (cp_MatchAllType c)))
    else if bool_decide (length (cp_Monitors c) = 0%nat) then StatusOperational
    else ComputeAggregateStatus (states (cp_Monitors c))
  end.

Definition statusSeverity (st : string) : Z :=
  if bool_decide (st = StatusMajorOutage) then 4
  else if bool_decide (st = StatusUnderMaint) then 3
  else if bool_decide (st = StatusPartialOutage) then 2
  else if bool_decide (st = st_StatusDegraded) then 1
  else 0.

Definition worse (worst effective : string) : string :=
  if bool_decide (statusSeverity worst < statusSeverity effective) then effective else worst.

Definition ComputeGlobalStatus : M page (string * string) :=
  let! r := ListVisibleComponents in
  match r with
  | Err _ => ret (StatusOperational, GlobalAllOperational)
  | Ok comps =>
    let! s := gets (λ s, s) in
    let worst := foldl (λ worst c, worse worst (DeriveComponentStatus s c)) StatusOperational comps in
    ret (if bool_decide (worst = StatusMajorOutage) then (worst, GlobalMajorOutage)
         else if bool_decide (worst = StatusPartialOutage) then (worst, GlobalPartialOutage)
         else if bool_decide (worst = st_StatusDegraded) then (worst, GlobalDegraded)
         else if bool_decide (worst = StatusUnderMaint) then (worst, GlobalMaintenance)
         else (StatusOperational, GlobalAllOperational))
  end.

Definition componentMonitors (s : page) (c : Component) : list MonitorRef :=
  let refs := if bool_decide (cp_CompositionMode c = CompositionExplicit) then cp_Monitors c
              else if bool_decide (cp_CompositionMode c = CompositionMatchAll)
                   then monitor_population s (cp_MatchAllType c) else [] in
  (λ r, MkMonitorRef (mr_Type r) (mr_ID r) (mr_Name r) (mr_Label r) (monitor_status s (mr_Type r) (mr_ID r))) <$> refs.

(** ** Announcements *)

Definition send_public (p : payload) : M page unit := modify (λ s, s <| public_events ::= λ l, l ++ [p] |>).
Definition send_admin (p : payload) : M page unit := modify (λ s, s <| admin_events ::= λ l, l ++ [p] |>).

Definition st_Broadcast (p : payload) : M page unit := do! send_public p in send_admin p.

Definition broadcastGlobalStatus : M page unit :=
  let! g := ComputeGlobalStatus in
  st_Broadcast (MkPayload StatusGlobalChanged [("status", VString g.1); ("message", VString g.2)] None).

Definition BroadcastComponentChange (comp : Component) : M page unit :=
  let! s := gets (λ s, s) in
  let refs := componentMonitors s comp in
  let data := [("component_id", VString (cp_ID comp)); ("name", VString (cp_DisplayName comp));
               ("status", VString (DeriveComponentStatus s comp))] in
  when! cp_Visible comp then
    send_public (MkPayload StatusComponentChanged data (Some (inr (PublicMonitors refs)))) in
  do! send_admin (MkPayload StatusComponentChanged data (Some (inl refs))) in
  if cp_Visible comp then broadcastGlobalStatus else ret tt.

Definition NotifyMonitorChanged (monitorType monitorID : string) : M page unit :=
  let! comps := ListComponentsByMonitor monitorType monitorID in
  match comps with
  | Err _ => ret tt
  | Ok comps => for_each comps BroadcastComponentChange
  end.

Definition AnnounceComponentChange (eventType componentID : string) (public : bool) : M page unit :=
  let p := MkPayload eventType [("component_id", VString componentID)] None in
  if public then do! st_Broadcast p in broadcastGlobalStatus else send_admin p.

Definition PublicComponentNames (refs : list IncidentCompRef) : list string :=
  cr_Name <$> filter (λ c, cr_Visible c = true) refs.

Definition BroadcastNamingComponents (eventType : string) (data : list (string * value)) (refs : list IncidentCompRef)
    : M page unit :=
  do! send_public (MkPayload eventType (data ++ [("components", VStrings (PublicComponentNames refs))]) None) in
  send_admin (MkPayload eventType (data ++ [("components", VStrings (cr_Name <$> refs))]) None).

Definition nl : string := String (Ascii.ascii_of_nat 10) "".
#[global] Arguments nl : simpl never.

Section Service.
Context `{Licence : !PageLicense}.
(** The order of the maps [deltaApplyMonitorRefs] goes through. *)
Context (visit : list (string * string) → list (string * string)).

Definition NotifySubscribers (subject message : string) : M page unit :=
  let! enabled := consult (λ _, subscriptions_enabled) in
  if enabled then modify (λ s, s <| pg_mails ::= λ l, l ++ [(subject, message)] |>) else ret tt.

Definition AnnounceIncident (inc : Incident) (message : string) : M page unit :=
  do! BroadcastNamingComponents StatusIncidentCreated
    [("id", VString (in_ID inc)); ("title", VString (in_Title inc)); ("severity", VString (in_Severity inc));
     ("status", VString (in_Status inc))] (in_Components inc) in
  let names := PublicComponentNames (in_Components inc) in
  NotifySubscribers ("[" +:+ in_Severity inc +:+ "] " +:+ in_Title inc)
    (in_Title inc +:+ nl +:+ nl +:+ "Severity: " +:+ in_Severity inc +:+ nl +:+ "Status: " +:+ in_Status inc +:+ nl
     +:+ (if bool_decide (names = []) then "" else "Affected components: " +:+ Join names ", " +:+ nl)
     +:+ (if bool_decide (message = "") then "" else nl +:+ message +:+ nl)).

Definition AnnounceIncidentUpdate (inc : Incident) (upd : IncidentUpdate) : M page unit :=
  if bool_decide (iu_Status upd = IncidentResolved) && negb (bool_decide (in_Status inc = IncidentResolved)) then
    do! st_Broadcast (MkPayload StatusIncidentResolved [("id", VString (in_ID inc)); ("title", VString (in_Title inc))] None) in
    NotifySubscribers ("Resolved: " +:+ in_Title inc)
      (in_Title inc +:+ " has been resolved." +:+ nl +:+ nl +:+ iu_Message upd +:+ nl)
  else
    do! st_Broadcast (MkPayload StatusIncidentUpdated
      [("id", VString (in_ID inc)); ("status", VString (iu_Status upd)); ("message", VString (iu_Message upd))] None) in
    NotifySubscribers ("Update: " +:+ in_Title inc)
      (in_Title inc +:+ nl +:+ nl +:+ "Status: " +:+ iu_Status upd +:+ nl +:+ nl +:+ iu_Message upd +:+ nl).

(** ** Incidents from alerts *)

Definition incident_severity (severity : string) : string :=
  if bool_decide (severity = "critical") then st_SeverityCritical
  else if bool_decide (severity = "warning") then SeverityMajor
  else SeverityMinor.

(** The incident an alert opens for a component. *)
Definition auto_incident (comp : Component) (evt : Event) : Incident :=
  MkIncident "" (cp_DisplayName comp +:+ " - " +:+ ev_Message evt) (incident_severity (ev_Severity evt))
    IncidentInvestigating false None [] [] 0 None 0.

Definition auto_resolved : string := "Auto-resolved: all monitors operational".

(** The recovery of the last failing monitor closes the incident. *)
Definition resolve_auto (existing : option Incident) : M page unit :=
  match existing with
  | None => ret tt
  | Some existing =>
    let! r := CreateUpdate (in_ID existing) IncidentResolved auto_resolved true in
    match r with
    | Err _ => ret tt
    | Ok upd => AnnounceIncidentUpdate existing upd
    end
  end.

(** An alert opens an incident, or is a new message of the open one. *)
Definition open_auto (evt : Event) (comp : Component) (existing : option Incident) : M page unit :=
  match existing with
  | Some existing =>
    do! CreateUpdate (in_ID existing) (in_Status existing) (ev_Message evt) true in
    st_Broadcast (MkPayload StatusIncidentUpdated
      [("id", VString (in_ID existing)); ("status", VString (in_Status existing));
       ("message", VString (ev_Message evt))] None)
  | None =>
    let! r := CreateIncident (auto_incident comp evt) [cp_ID comp] (ev_Message evt) in
    match r with
    | Err _ => ret tt
    | Ok inc =>
      AnnounceIncident
        (inc <| in_Components := [MkCompRef (cp_ID comp) (cp_DisplayName comp) (cp_Visible comp)] |>) (ev_Message evt)
    end
  end.

Definition handleAlertForComponent (evt : Event) (comp : Component) : M page unit :=
  let! s := gets (λ s, s) in
  let aggregateStatus := DeriveComponentStatus s comp in
  let! existing := GetActiveIncidentByComponent (cp_ID comp) in
  match existing with
  | Err _ => ret tt
  | Ok existing =>
    match cp_StatusOverride comp with
    | Some _ => ret tt
    | None =>
      let isNonOperational := negb (bool_decide (aggregateStatus = StatusOperational)) in
      if ev_IsRecover evt && negb isNonOperational then resolve_auto existing
      else if negb isNonOperational || negb (cp_Visible comp) then ret tt
      else open_auto evt comp existing
    end
  end.

Definition st_HandleAlertEvent (evt : Event) : M page unit :=
  let! comps := ListComponentsByMonitor (ev_EntityType evt) (ev_EntityID evt) in
  match comps with
  | Err _ => ret tt
  | Ok comps => for_each comps (λ comp, if cp_AutoIncident comp then handleAlertForComponent evt comp else ret tt)
  end.

(** ** The maintenance scheduler *)

Definition maintenance_incident (w : MaintenanceWindow) : Incident :=
  MkIncident "" ("Scheduled Maintenance: " +:+ mw_Title w) SeverityMinor IncidentInvestigating true (Some (mw_ID w))
    [] [] 0 None 0.

(** A component enters maintenance. *)
Definition cover_component (windowID componentID : string) : M page unit :=
  let! comp := GetComponent componentID in
  match comp with
  | Ok (Some comp) =>
    let! held := CoveredByAnotherActiveWindow componentID windowID in
    match held with
    | Err _ => ret tt
    | Ok held =>
      let comp := if held : bool then comp
                  else comp <| cp_OverrideBeforeMaintenance := cp_StatusOverride comp |> in
      do! UpdateComponent visit (comp <| cp_StatusOverride := Some StatusUnderMaint |>) in ret tt
    end
  | _ => ret tt
  end.

Definition activateWindow (w : MaintenanceWindow) : M page unit :=
  let! r := CreateIncident (maintenance_incident w) (cr_ID <$> mw_Components w) (mw_Description w) in
  match r with
  | Err _ => ret tt
  | Ok inc =>
    let! r := SetActive (mw_ID w) true (Some (in_ID inc)) in
    match r with
    | Err _ => ret tt
    | Ok _ =>
      do! for_each (mw_Components w) (λ c, cover_component (mw_ID w) (cr_ID c)) in
      do! BroadcastNamingComponents StatusMaintenanceStart
        [("id", VString (mw_ID w)); ("title", VString (mw_Title w))] (mw_Components w) in
      NotifySubscribers ("Maintenance Started: " +:+ mw_Title w)
        ("Scheduled maintenance has started: " +:+ mw_Title w +:+ nl +:+ "Affected components: "
         +:+ Join (PublicComponentNames (mw_Components w)) ", " +:+ nl +:+ mw_Description w)
    end
  end.

Definition releaseComponent (windowID componentID : string) : M page unit :=
  let! held := CoveredByAnotherActiveWindow componentID windowID in
  match held with
  | Err _ | Ok true => ret tt
  | Ok false =>
    let! comp := GetComponent componentID in
    match comp with
    | Ok (Some comp) =>
      let forced := opt_eqb (cp_StatusOverride comp) (Some StatusUnderMaint) in
      if negb forced && negb (bool_decide (is_Some (cp_OverrideBeforeMaintenance comp))) then ret tt
      else
        let comp := if forced then comp <| cp_StatusOverride := cp_OverrideBeforeMaintenance comp |> else comp in
        do! UpdateComponent visit (comp <| cp_OverrideBeforeMaintenance := None |>) in ret tt
    | _ => ret tt
    end
  end.

Definition closeWindow (w : MaintenanceWindow) : M page unit :=
  do! match mw_IncidentID w with
      | Some id => do! CreateUpdate id IncidentResolved "Scheduled maintenance completed" true in ret tt
      | None => ret tt
      end in
  do! for_each (mw_Components w) (λ c, releaseComponent (mw_ID w) (cr_ID c)) in
  do! BroadcastNamingComponents StatusMaintenanceEnd
    [("id", VString (mw_ID w)); ("title", VString (mw_Title w))] (mw_Components w) in
  NotifySubscribers ("Maintenance Completed: " +:+ mw_Title w) ("Scheduled maintenance has been completed: " +:+ mw_Title w).

Definition deactivateWindow (w : MaintenanceWindow) : M page unit :=
  let! r := SetActive (mw_ID w) false None in
  match r with
  | Err _ => ret tt
  | Ok _ => closeWindow w
  end.

Definition windows_of (r : result (list MaintenanceWindow)) : list MaintenanceWindow :=
  match r with Ok l => l | Err _ => [] end.

Definition applyTransitions : M page unit :=
  let! t := now in
  let! pending := GetPendingActivation t in
  do! for_each (windows_of pending) activateWindow in
  let! expired := GetPendingDeactivation t in
  for_each (windows_of expired) deactivateWindow.

Definition DeleteWindow (id : string) : M page (result unit) :=
  let? w := GetMaintenance id in
  do? DeleteMaintenance id in
  match w with
  | Some w => when! mw_Active w then closeWindow w in ret (Ok tt)
  | None => ret (Ok tt)
  end.
End Service.
