(* ===== verification/StatusAdmin.v ===== *)
(** * Status page: the administration handlers

    The handlers of [src/internal/api/v1/status_admin.go] that change something,
    with the validation they and [src/internal/status/model.go] do.  A request is
    its decoded body, [None] when the body is not valid JSON; an answer is what the
    handler writes, a refusal its status and code.  The texts of the refusals and
    the listings are left out. *)

From Stdlib Require Import Ascii.
From S2P Require Import Prelude.
From S2P Require Import Tables.
From S2P Require Import GoStrings.
From S2P Require Import GoPath.
From S2P Require Import AlertModel.
From S2P Require Import Container.
From S2P Require Import Status.
From S2P Require Import StatusService.

#[local] Open Scope string_scope.
#[local] Open Scope list_scope.
#[local] Open Scope Z_scope.

Inductive answer (A : Type) :=
  | Answer (status : Z) (a : A)
  | Refuse (status : Z) (code : string).
Arguments Answer {A} status a.
Arguments Refuse {A} status code.

Definition answered {A} (a : answer A) : bool := match a with Answer _ _ => true | Refuse _ _ => false end.

Definition bad_body {A} : answer A := Refuse 400 "invalid_body".
Definition invalid {A} : answer A := Refuse 400 "validation".
Definition internal {A} : answer A := Refuse 500 "internal".

(** ** Texts *)

Definition maxMonitorLabelRunes : Z := 80.

Definition ValidateMonitorLabel (s : string) : option string :=
  let s := TrimSpace s in
  if bool_decide (maxMonitorLabelRunes < Z.of_nat (length (text_runes s))) then None
  else if has_control s then None
  else Some s.

Definition checkOneOf (s : string) (allowed : list string) : bool := bool_decide (s ∈ allowed).
Definition CheckComponentStatus (s : string) : bool := checkOneOf s componentStatuses.
Definition CheckSeverity (s : string) : bool := checkOneOf s severities.
Definition CheckIncidentStatus (s : string) : bool := checkOneOf s incidentStatuses.

Definition validTypes : list string := ["container"; "endpoint"; "heartbeat"; "certificate"].

(** The monitors of a request, their labels trimmed; [None] when one is refused. *)
Fixpoint valid_monitors (refs : list MonitorRef) : option (list MonitorRef) :=
  match refs with
  | [] => Some []
  | r :: refs =>
    if negb (bool_decide (mr_Type r ∈ validTypes)) then None
    else match ValidateMonitorLabel (mr_Label r), valid_monitors refs with
         | Some label, Some refs => Some (MkMonitorRef (mr_Type r) (mr_ID r) (mr_Name r) label (mr_Status r) :: refs)
         | _, _ => None
         end
  end.

(** [CheckComponentIDs]: whether the list is refused, or could not be checked. *)
Inductive ids_check := IdsValid | IdsInvalid | IdsUnknown.

Fixpoint CheckComponentIDs (seen : gset string) (ids : list string) : M page ids_check :=
  match ids with
  | [] => ret IdsValid
  | id :: ids =>
    if bool_decide (id = "") || bool_decide (id ∈ seen) then ret IdsInvalid
    else
      let! c := GetComponent id in
      match c with
      | Err _ => ret IdsUnknown
      | Ok None => ret IdsInvalid
      | Ok (Some _) => CheckComponentIDs ({[id]} ∪ seen) ids
      end
  end.

(** [componentIDsExist]: what the handler does next. *)
Definition with_ids {A} (ids : list string) (k : M page (answer A)) : M page (answer A) :=
  let! check := CheckComponentIDs ∅ ids in
  match check with
  | IdsValid => k
  | IdsInvalid => ret invalid
  | IdsUnknown => ret internal
  end.

(** A store call whose error is an internal error of the handler. *)
Definition or_internal {A B} (m : M page (result A)) (k : A → M page (answer B)) : M page (answer B) :=
  let! r := m in
  match r with
  | Ok a => k a
  | Err _ => ret internal
  end.

(** A handler that reads what it changes first: an error of the store reads as
    nothing found. *)
Definition or_missing {A B} (m : M page (result (option A))) (k : A → M page (answer B)) : M page (answer B) :=
  let! r := m in
  match r with
  | Ok (Some a) => k a
  | _ => ret (Refuse 404 "not_found")
  end.

Section Admin.
Context `{Licence : !PageLicense}.
Context (visit : list (string * string) → list (string * string)).
(** [time.Parse(time.RFC3339, _)]. *)
Context (parse_rfc3339 : string → option Z).

(** ** Components *)

Record CreateComponentRequest := MkCreateComponent {
  rc_CompositionMode : string;
  rc_Monitors : list MonitorRef;
  rc_MatchAllType : string;
  rc_DisplayName : string;
  rc_DisplayOrder : Z;
  rc_Visible : option bool;
  rc_AutoIncident : bool;
}.

Definition requested_mode (r : CreateComponentRequest) : string :=
  if bool_decide (rc_CompositionMode r = "") then CompositionExplicit else rc_CompositionMode r.

(** The monitors of a new component, [None] when the request is refused. *)
Definition requested_monitors (r : CreateComponentRequest) : option (list MonitorRef) :=
  let mode := requested_mode r in
  if negb (bool_decide (mode = CompositionExplicit)) && negb (bool_decide (mode = CompositionMatchAll)) then None
  else if bool_decide (rc_DisplayName r = "") then None
  else if bool_decide (mode = CompositionExplicit) then
    if negb (bool_decide (rc_MatchAllType r = "")) then None
    else if bool_decide (length (rc_Monitors r) = 0%nat) then None
    else valid_monitors (rc_Monitors r)
  else if negb (bool_decide (rc_MatchAllType r ∈ validTypes)) then None
  else if bool_decide (0 < Z.of_nat (length (rc_Monitors r))) then None
  else Some (rc_Monitors r).

(** The cap on components: [None] when there is room. *)
Definition component_quota {A} : M page (option (answer A)) :=
  let! limit := consult (λ _, component_limit) in
  if bool_decide (0 ≤ limit) then
    let! existing := ListComponents in
    match existing with
    | Err _ => ret (Some internal)
    | Ok existing =>
      ret (if bool_decide (limit ≤ Z.of_nat (length existing)) then Some (Refuse 403 "QUOTA_EXCEEDED") else None)
    end
  else ret None.

Definition HandleCreateComponent (req : option CreateComponentRequest) : M page (answer Component) :=
  match req with
  | None => ret bad_body
  | Some r =>
    match requested_monitors r with
    | None => ret invalid
    | Some monitors =>
      let! quota := component_quota in
      match quota with
      | Some refused => ret refused
      | None =>
        or_internal (CreateComponent (MkComponent "" (requested_mode r) monitors (rc_MatchAllType r) (rc_DisplayName r)
          (rc_DisplayOrder r) (default true (rc_Visible r)) None None (rc_AutoIncident r) false 0 0)) (λ c,
          do! AnnounceComponentChange StatusComponentCreated (cp_ID c) (cp_Visible c) in
          ret (Answer 201 c))
      end
    end
  end.

Record UpdateComponentRequest := MkUpdateComponent {
  ru_CompositionMode : option string;
  ru_Monitors : option (list MonitorRef);
  ru_MatchAllType : option string;
  ru_DisplayName : option string;
  ru_DisplayOrder : option Z;
  ru_Visible : option bool;
  ru_StatusOverride : option string;
  ru_AutoIncident : option bool;
}.

(** The monitors after an edit, [None] when it is refused. *)
Definition edited_monitors (existing : Component) (req : option (list MonitorRef)) : option (list MonitorRef) :=
  match req with
  | None => Some (cp_Monitors existing)
  | Some refs =>
    if bool_decide (cp_CompositionMode existing = CompositionMatchAll) && bool_decide (0 < Z.of_nat (length refs)) then None
    else if bool_decide (cp_CompositionMode existing = CompositionExplicit) then
      if bool_decide (length refs = 0%nat) then None else valid_monitors refs
    else Some (cp_Monitors existing)
  end.

(** The override after an edit: empty clears it, an unknown one is refused. *)
Definition edited_override (old req : option string) : option (option string) :=
  match req with
  | None => Some old
  | Some v => if bool_decide (v = "") then Some None
              else if CheckComponentStatus v then Some (Some v) else None
  end.

Definition differs (req : option string) (current : string) : bool :=
  match req with Some v => negb (bool_decide (v = current)) | None => false end.

(** The component as the request makes it, [None] when it is refused. *)
Definition edited_component (existing : Component) (r : UpdateComponentRequest) : option Component :=
  if differs (ru_CompositionMode r) (cp_CompositionMode existing) || differs (ru_MatchAllType r) (cp_MatchAllType existing)
  then None
  else match edited_monitors existing (ru_Monitors r), edited_override (cp_StatusOverride existing) (ru_StatusOverride r) with
  | Some monitors, Some override =>
    Some (existing <| cp_Monitors := monitors |>
      <| cp_DisplayName := default (cp_DisplayName existing) (ru_DisplayName r) |>
      <| cp_DisplayOrder := default (cp_DisplayOrder existing) (ru_DisplayOrder r) |>
      <| cp_Visible := default (cp_Visible existing) (ru_Visible r) |>
      <| cp_StatusOverride := override |>
      <| cp_AutoIncident := default (cp_AutoIncident existing) (ru_AutoIncident r) |>)
  | _, _ => None
  end.

Definition HandleUpdateComponent (id : string) (req : option UpdateComponentRequest) : M page (answer Component) :=
  if bool_decide (id = "") then ret (Refuse 400 "invalid_id")
  else or_missing (GetComponent id) (λ existing,
    match req with
    | None => ret bad_body
    | Some r =>
      match edited_component existing r with
      | None => ret invalid
      | Some edited =>
        or_internal (UpdateComponent visit edited) (λ edited,
          do! AnnounceComponentChange StatusComponentUpdated (cp_ID edited) (cp_Visible existing || cp_Visible edited) in
          ret (Answer 200 edited))
      end
    end).

Definition HandleDeleteComponent (id : string) : M page (answer unit) :=
  if bool_decide (id = "") then ret (Refuse 400 "invalid_id")
  else or_internal (GetComponent id) (λ existing,
    or_internal (DeleteComponent id) (λ _,
      do! AnnounceComponentChange StatusComponentDeleted id (match existing with Some c => cp_Visible c | None => false end) in
      ret (Answer 204 tt))).

(** ** Incidents *)

(** What is answered: the row as it is read back, or the caller's when it is not. *)
Definition read_back {A} (m : M page (result (option A))) (mine : A) : M page A :=
  let! r := m in
  ret (match r with Ok (Some a) => a | _ => mine end).

Record CreateIncidentRequest := MkCreateIncident {
  ri_Title : string;
  ri_Severity : string;
  ri_Status : string;
  ri_ComponentIDs : list string;
  ri_Message : string;
}.

Definition HandleCreateIncident (req : option CreateIncidentRequest) : M page (answer Incident) :=
  match req with
  | None => ret bad_body
  | Some r =>
    let status := if bool_decide (ri_Status r = "") then IncidentInvestigating else ri_Status r in
    if bool_decide (ri_Title r = "") || bool_decide (ri_Severity r = "") then ret invalid
    else if negb (CheckSeverity (ri_Severity r)) || negb (CheckIncidentStatus status) then ret invalid
    else with_ids (ri_ComponentIDs r) (
      or_internal (CreateIncident (MkIncident "" (ri_Title r) (ri_Severity r) status false None [] [] 0 None 0)
        (ri_ComponentIDs r) (ri_Message r)) (λ inc,
        let! inc := read_back (GetIncident (in_ID inc)) inc in
        do! AnnounceIncident inc (ri_Message r) in
        ret (Answer 201 inc)))
  end.

Definition HandlePostUpdate (id : string) (req : option (string * string)) : M page (answer IncidentUpdate) :=
  if bool_decide (id = "") then ret (Refuse 400 "invalid_id")
  else or_missing (GetIncident id) (λ inc,
    match req with
    | None => ret bad_body
    | Some (status, message) =>
      if bool_decide (status = "") || bool_decide (message = "") then ret invalid
      else if negb (CheckIncidentStatus status) then ret invalid
      else or_internal (CreateUpdate id status message false) (λ upd,
        do! AnnounceIncidentUpdate inc upd in
        ret (Answer 201 upd))
    end).

Record UpdateIncidentRequest := MkUpdateIncident {
  rt_Title : option string;
  rt_Severity : option string;
  rt_ComponentIDs : option (list string);
}.

Definition HandleUpdateIncident (id : string) (req : option UpdateIncidentRequest) : M page (answer Incident) :=
  if bool_decide (id = "") then ret (Refuse 400 "invalid_id")
  else or_missing (GetIncident id) (λ inc,
    match req with
    | None => ret bad_body
    | Some r =>
      if match rt_Severity r with Some v => negb (CheckSeverity v) | None => false end then ret invalid
      else
        let inc := inc <| in_Title := default (in_Title inc) (rt_Title r) |>
                       <| in_Severity := default (in_Severity inc) (rt_Severity r) |> in
        with_ids (default [] (rt_ComponentIDs r)) (
          or_internal (UpdateIncident inc (rt_ComponentIDs r)) (λ inc,
            let! inc := read_back (GetIncident id) inc in
            ret (Answer 200 inc)))
    end).

Definition HandleDeleteIncident (id : string) : M page (answer unit) :=
  if bool_decide (id = "") then ret (Refuse 400 "invalid_id")
  else or_internal (DeleteIncident id) (λ _, ret (Answer 204 tt)).

(** ** Maintenance windows *)

Record CreateMaintenanceRequest := MkCreateMaintenance {
  rm_Title : string;
  rm_Description : string;
  rm_StartsAt : string;
  rm_EndsAt : string;
  rm_ComponentIDs : list string;
}.

Definition HandleCreateMaintenance (req : option CreateMaintenanceRequest) : M page (answer MaintenanceWindow) :=
  match req with
  | None => ret bad_body
  | Some r =>
    if bool_decide (rm_Title r = "") then ret invalid
    else match parse_rfc3339 (rm_StartsAt r), parse_rfc3339 (rm_EndsAt r) with
    | Some startsAt, Some endsAt =>
      if negb (bool_decide (startsAt < endsAt)) then ret invalid
      else with_ids (rm_ComponentIDs r) (
        let w := MkWindow "" (rm_Title r) (rm_Description r) startsAt endsAt false None [] 0 0 in
        or_internal (CreateMaintenance w (rm_ComponentIDs r)) (λ w,
          let! w := read_back (GetMaintenance (mw_ID w)) w in
          ret (Answer 201 w)))
    | _, _ => ret invalid
    end
  end.

Record UpdateMaintenanceRequest := MkUpdateMaintenance {
  rw_Title : option string;
  rw_Description : option string;
  rw_StartsAt : option string;
  rw_EndsAt : option string;
  rw_ComponentIDs : option (list string);
}.

(** A time of a request: the stored one when it is left out. *)
Definition edited_time (old : Z) (req : option string) : option Z :=
  match req with None => Some old | Some text => parse_rfc3339 text end.

Definition HandleUpdateMaintenance (id : string) (req : option UpdateMaintenanceRequest)
    : M page (answer MaintenanceWindow) :=
  if bool_decide (id = "") then ret (Refuse 400 "invalid_id")
  else or_missing (GetMaintenance id) (λ existing,
    if mw_Active existing then ret (Refuse 409 "conflict")
    else match req with
    | None => ret bad_body
    | Some r =>
      match edited_time (mw_StartsAt existing) (rw_StartsAt r), edited_time (mw_EndsAt existing) (rw_EndsAt r) with
      | Some startsAt, Some endsAt =>
        if negb (bool_decide (startsAt < endsAt)) then ret invalid
        else
          let w := existing <| mw_Title := default (mw_Title existing) (rw_Title r) |>
                            <| mw_Description := default (mw_Description existing) (rw_Description r) |>
                            <| mw_StartsAt := startsAt |> <| mw_EndsAt := endsAt |> in
          with_ids (default [] (rw_ComponentIDs r)) (
            or_internal (UpdateMaintenance w (rw_ComponentIDs r)) (λ w,
              let! w := read_back (GetMaintenance id) w in
              ret (Answer 200 w)))
      | _, _ => ret invalid
      end
    end).

(** With the scheduler of the edition, or without one. *)
Definition HandleDeleteMaintenance (runs_windows : bool) (id : string) : M page (answer unit) :=
  if bool_decide (id = "") then ret (Refuse 400 "invalid_id")
  else or_internal (if runs_windows then DeleteWindow visit id else DeleteMaintenance id) (λ _, ret (Answer 204 tt)).
End Admin.
