(* ===== verification/StatusMaintenance.v ===== *)
(** * Status page: maintenance gives components their status back

    The operations of the page as a history, and the state of a component's
    override along it: under maintenance while a running window covers it, the one
    the operators chose otherwise. *)

From S2P Require Import Prelude.
From S2P Require Import Tables.
From S2P Require Import AlertModel.
From S2P Require Import Container.
From S2P Require Import Status.
From S2P Require Import StatusService.
From S2P Require Import StatusAdmin.

#[local] Open Scope string_scope.
#[local] Open Scope list_scope.
#[local] Open Scope Z_scope.

(** ** Histories *)

Inductive page_op :=
  | OpTick
  | OpMonitors (status : gmap (string * string) string) (population : gmap string (list MonitorRef))
  | OpNotify (monitorType monitorID : string)
  | OpAlert (evt : Event)
  | OpMonitorGone (monitorType monitorID : string)
  | OpCreateComponent (req : option CreateComponentRequest)
  | OpUpdateComponent (id : string) (req : option UpdateComponentRequest)
  | OpDeleteComponent (id : string)
  | OpCreateIncident (req : option CreateIncidentRequest)
  | OpPostUpdate (id : string) (req : option (string * string))
  | OpUpdateIncident (id : string) (req : option UpdateIncidentRequest)
  | OpDeleteIncident (id : string)
  | OpCreateWindow (req : option CreateMaintenanceRequest)
  | OpUpdateWindow (id : string) (req : option UpdateMaintenanceRequest)
  | OpDeleteWindow (id : string).

Section History.
Context `{Licence : !PageLicense}.
Context (visit : list (string * string) → list (string * string)) (parse_rfc3339 : string → option Z).

Definition answering {A} (m : M page (answer A)) : M page bool := let! a := m in ret (answered a).
Definition quietly {A} (m : M page A) : M page bool := do! m in ret true.

(** One operation, and whether a handler accepted it. *)
Definition perform (o : page_op) : M page bool :=
  match o with
  | OpTick => quietly (applyTransitions visit)
  | OpMonitors status population =>
    quietly (modify (λ s : page, s <| pg_status := status |> <| pg_population := population |>))
  | OpNotify monitorType monitorID => quietly (NotifyMonitorChanged monitorType monitorID)
  | OpAlert evt => quietly (st_HandleAlertEvent evt)
  | OpMonitorGone monitorType monitorID => quietly (RemoveDanglingMonitorRefs monitorType monitorID)
  | OpCreateComponent req => answering (HandleCreateComponent req)
  | OpUpdateComponent id req => answering (HandleUpdateComponent visit id req)
  | OpDeleteComponent id => answering (HandleDeleteComponent id)
  | OpCreateIncident req => answering (HandleCreateIncident req)
  | OpPostUpdate id req => answering (HandlePostUpdate id req)
  | OpUpdateIncident id req => answering (HandleUpdateIncident id req)
  | OpDeleteIncident id => answering (HandleDeleteIncident id)
  | OpCreateWindow req => answering (HandleCreateMaintenance parse_rfc3339 req)
  | OpUpdateWindow id req => answering (HandleUpdateMaintenance parse_rfc3339 id req)
  | OpDeleteWindow id => answering (HandleDeleteMaintenance visit true id)
  end.

Fixpoint history (ops : list page_op) (w : world page) : world page :=
  match ops with
  | [] => w
  | o :: ops => history ops (perform o w).2
  end.

(** ** What the operators chose *)

(** A running window covers the component. *)
Definition covered (s : page) (id : string) : bool :=
  existsb (λ m, mw_Active m && bool_decide ((mw_ID m, id) ∈ db_window_components s)) (db_windows s).

(** The override an edit asks for. *)
Definition override_edit (o : page_op) : option (string * string) :=
  match o with
  | OpUpdateComponent id (Some r) => (λ v, (id, v)) <$> ru_StatusOverride r
  | _ => None
  end.

Definition text_override (v : string) : option string := if bool_decide (v = "") then None else Some v.

(** The overrides chosen, after an operation that was accepted or not. *)
Definition choose (own : string → option string) (o : page_op) (accepted : bool) : string → option string :=
  if negb accepted then own
  else match override_edit o, o with
  | Some (id, v), _ => λ id', if bool_decide (id' = id) then text_override v else own id'
  | None, OpDeleteComponent id => λ id', if bool_decide (id' = id) then None else own id'
  | None, _ => own
  end.

(** The override every component has by the choices of its operators alone. *)
Fixpoint chosen (own : string → option string) (ops : list page_op) (w : world page) : string → option string :=
  match ops with
  | [] => own
  | o :: ops => let r := perform o w in chosen (choose own o r.1) ops r.2
  end.

(** Nobody edits the override of a component a running window covers. *)
Definition careful_step (s : page) (o : page_op) : bool :=
  match override_edit o with Some (id, _) => negb (covered s id) | None => true end.

Fixpoint careful (ops : list page_op) (w : world page) : bool :=
  match ops with
  | [] => true
  | o :: ops => careful_step (w_st w) o && careful ops (perform o w).2
  end.

End History.

(** ** The invariant *)

Section Maintenance.
Context `{Licence : !PageLicense}.
Context (visit : list (string * string) → list (string * string)).

Record page_ok (s : page) : Prop := {
  po_components : NoDup (table_ids (db_components s));
  po_windows : NoDup (table_ids (db_windows s));
  po_links : ∀ m c, (m, c) ∈ db_window_components s → c ∈ table_ids (db_components s);
}.

(** The components [cov] holds are under maintenance and remember their own
    override; the others have it. *)
Definition agrees (cov : string → bool) (own : string → option string) (s : page) : Prop :=
  ∀ c, c ∈ db_components s →
    if cov (cp_ID c)
    then cp_StatusOverride c = Some StatusUnderMaint ∧ cp_OverrideBeforeMaintenance c = own (cp_ID c)
    else cp_StatusOverride c = own (cp_ID c) ∧ cp_OverrideBeforeMaintenance c = None.

Record restored (own : string → option string) (s : page) : Prop := {
  rs_ok : page_ok s;
  rs_agrees : agrees (covered s) own s;
  rs_absent : ∀ id, id ∉ table_ids (db_components s) → own id = None;
}.

(** What concerns maintenance is the same. *)
Definition same_cover (s s' : page) : Prop :=
  db_components s' = db_components s ∧ db_windows s' = db_windows s
  ∧ db_window_components s' = db_window_components s.

#[export] Instance same_cover_preorder : PreOrder same_cover.
Proof. split; unfold same_cover; [done|]. intros ??? (?&?&?) (?&?&?). split_and!; congruence. Qed.

Lemma restored_same own s s' : same_cover s s' → restored own s → restored own s'.
Proof.
  intros (Hc & Hw & Hl) [[H1 H2 H3] H4 H5]. split; [split| |]; rewrite ?Hc, ?Hw, ?Hl; try done.
  - intros c Hin. rewrite Hc in Hin. unfold covered. rewrite Hw, Hl. by apply H4.
Qed.

(** ** Operations that leave it alone *)

Lemma consult_cover {A} (read : env → nat → A) : steps same_cover (consult read).
Proof. apply (steps_consult same_cover). Qed.
Lemma link_cover {A} `{EqDecision A} get set_ allowed same_ (row : A) :
  (∀ f s, same_cover s (set_ f s)) → steps same_cover (db_link get set_ allowed same_ row).
Proof. intros H. unfold db_link. steps_tac. Qed.
#[local] Hint Resolve consult_cover : steps.


Lemma notify_cover subject message : steps same_cover (NotifySubscribers subject message).
Proof. unfold NotifySubscribers. steps_tac. done. Qed.
Lemma global_cover : steps same_cover broadcastGlobalStatus.
Proof. unfold broadcastGlobalStatus, ComputeGlobalStatus, ListVisibleComponents, components, st_Broadcast, send_public, send_admin. steps_tac; done. Qed.
#[local] Hint Resolve notify_cover global_cover : steps.
Lemma naming_cover ty data refs : steps same_cover (BroadcastNamingComponents ty data refs).
Proof. unfold BroadcastNamingComponents, send_public, send_admin. steps_tac; done. Qed.
Lemma announce_component_cover ty id public : steps same_cover (AnnounceComponentChange ty id public).
Proof. unfold AnnounceComponentChange, st_Broadcast, send_public, send_admin. steps_tac; done. Qed.
Lemma announce_update_cover inc upd : steps same_cover (AnnounceIncidentUpdate inc upd).
Proof. unfold AnnounceIncidentUpdate, st_Broadcast, send_public, send_admin. steps_tac; done. Qed.
Lemma relations_cover i : steps same_cover (loadIncidentRelations i).
Proof. unfold loadIncidentRelations. steps_tac. Qed.
#[local] Hint Resolve naming_cover announce_component_cover announce_update_cover relations_cover : steps.
Lemma announce_cover inc message : steps same_cover (AnnounceIncident inc message).
Proof. unfold AnnounceIncident. steps_tac. Qed.
Lemma incident_cover id : steps same_cover (GetIncident id).
Proof. unfold GetIncident. steps_tac. Qed.
Lemma create_update_cover id st message auto : steps same_cover (CreateUpdate id st message auto).
Proof. unfold CreateUpdate, insert_update. steps_tac; done. Qed.
Lemma create_incident_cover i ids message : steps same_cover (CreateIncident i ids message).
Proof. unfold CreateIncident, insert_update. steps_tac; try done. apply steps_for_ok; [apply _|]. intros. by apply link_cover. Qed.
Lemma component_cover id : steps same_cover (GetComponent id).
Proof. unfold GetComponent, components. steps_tac. Qed.
#[local] Hint Resolve announce_cover incident_cover create_update_cover create_incident_cover component_cover : steps.
Lemma check_ids_cover seen ids : steps same_cover (CheckComponentIDs seen ids).
Proof. revert seen. induction ids as [|id ids IH]; intros seen; cbn; steps_tac. Qed.
Lemma alert_component_cover evt c : steps same_cover (handleAlertForComponent evt c).
Proof.
  unfold handleAlertForComponent, GetActiveIncidentByComponent, resolve_auto, open_auto, st_Broadcast, send_public, send_admin.
  steps_tac; done.
Qed.
#[local] Hint Resolve check_ids_cover alert_component_cover : steps.
(** ** Reading and rewriting a component *)

(** The same windows, over the same components. *)
Definition same_windows (s s' : page) : Prop :=
  table_ids (db_components s') = table_ids (db_components s) ∧ db_windows s' = db_windows s
  ∧ db_window_components s' = db_window_components s.

#[export] Instance same_windows_preorder : PreOrder same_windows.
Proof. split; unfold same_windows; [done|]. intros ??? (?&?&?) (?&?&?). split_and!; congruence. Qed.

Lemma same_cover_windows s s' : same_cover s s' → same_windows s s'.
Proof. intros (H1 & H2 & H3). unfold same_windows. by rewrite H1, H2, H3. Qed.

Lemma page_ok_windows s s' : same_windows s s' → page_ok s → page_ok s'.
Proof. intros (H1 & H2 & H3) [P1 P2 P3]. split; rewrite ?H1, ?H2, ?H3; done. Qed.

Lemma covered_but_windows s s' c m : same_windows s s' → covered_but c m s' = covered_but c m s.
Proof. intros (_ & H2 & H3). unfold covered_but. by rewrite H2, H3. Qed.

Lemma covered_windows s s' c : same_windows s s' → covered s' c = covered s c.
Proof. intros (_ & H2 & H3). unfold covered. by rewrite H2, H3. Qed.

Lemma wp_components q (Q : result (list Component) → world page → Prop) w :
  fault_free w → (∀ w', same w w' → Q (Ok (with_monitors (w_st w) <$> q (w_st w))) w') → wp (components q) Q w.
Proof.
  intros Hff HQ. apply wp_bind, wp_db_query; [by intros|]. intros w1 H1. case_bool_decide as Hl.
  - apply wp_ret. apply nil_length_inv in Hl. rewrite <- (fmap_nil (with_monitors (w_st w))), <- Hl. by apply HQ.
  - apply wp_db_query; [intros w2 _ []; by eapply fault_free_env; [apply H1|]|]. intros w2 H2.
    rewrite (proj1 H1). apply HQ. by eapply same_trans.
Qed.

Lemma wp_get_component id (Q : result (option Component) → world page → Prop) w :
  fault_free w →
  (∀ w', same w w' → Q (Ok (with_monitors (w_st w) <$> select_id id (db_components (w_st w)))) w') →
  wp (GetComponent id) Q w.
Proof.
  intros Hff HQ. apply wp_bind, wp_components; [done|]. intros w1 H1. apply wp_ret.
  destruct (select_id id (db_components (w_st w))) as [c|] eqn:E; by apply HQ.
Qed.

(** One component's row has the columns of [c]. *)
Definition rewritten (c : Component) (s s' : page) : Prop :=
  ∃ t, db_components s' = update_id (cp_ID c) (updated_component c t) (db_components s)
    ∧ db_windows s' = db_windows s ∧ db_window_components s' = db_window_components s.

Lemma rewritten_windows c s s' : rewritten c s s' → same_windows s s'.
Proof. intros (t & H1 & H2 & H3). split_and!; [|done..]. rewrite H1. by apply update_id_ids. Qed.

Lemma delta_cover id refs : steps same_cover (deltaApplyMonitorRefs visit id refs).
Proof.
  unfold deltaApplyMonitorRefs. steps_tac; apply steps_for_ok; try apply _; intros k; unfold delete_ref, relabel_ref, insert_monitor;
    steps_tac; try done; by apply link_cover.
Qed.

Lemma wp_update_component c (Q : result Component → world page → Prop) w :
  fault_free w →
  (∀ r w', rewritten c (w_st w) (w_st w') → w_env w' = w_env w → Q r w') → wp (UpdateComponent visit c) Q w.
Proof.
  intros Hff HQ. apply wp_bind, wp_now. intros w1 (S1 & E1 & T1). apply wp_bind.
  apply wp_db_exec; [intros w' _ []; by eapply fault_free_env|]. intros w2 (S2 & E2 & T2). rewrite S1 in S2.
  assert (rewritten c (w_st w) (w_st w2)) as Hr by (eexists; rewrite S2; done).
  set (m := if bool_decide (cp_CompositionMode c = CompositionExplicit) then _ else _).
  assert (steps same_cover m) as Hm by (unfold m; case_bool_decide; [apply delta_cover|apply (steps_ret same_cover)]).
  apply wp_bind. eapply wp_mono; [apply (steps_wp _ _ _ Hm)|]. cbn. intros r w3 [(C3 & W3 & L3) E3].
  assert (rewritten c (w_st w) (w_st w3)) as Hr3.
  { destruct Hr as (t & H1 & H2 & H3). exists t. split_and!; congruence. }
  destruct r as [[]|e]; apply wp_ret, HQ; (done || congruence).
Qed.

(** ** Covering and releasing *)

Section Overrides.
Context (own : string → option string).

Definition fits (cov : bool) (c : Component) : Prop :=
  if cov then cp_StatusOverride c = Some StatusUnderMaint ∧ cp_OverrideBeforeMaintenance c = own (cp_ID c)
  else cp_StatusOverride c = own (cp_ID c) ∧ cp_OverrideBeforeMaintenance c = None.

Lemma agrees_rewritten cov cov' s s' c :
  rewritten c s s' → agrees cov own s → fits (cov' (cp_ID c)) c →
  (∀ id, id ≠ cp_ID c → cov' id = cov id) → agrees cov' own s'.
Proof.
  intros (t & Hc & _) Ha Hfit Hcov r Hr. rewrite Hc in Hr. apply update_where_elem in Hr as (r0 & Hr0 & ->).
  case_bool_decide as Hid.
  - unfold row_id, Component_id in Hid. change (fits (cov' (cp_ID r0)) (updated_component c t r0)). rewrite Hid.
    unfold fits in *. cbn. rewrite Hid. done.
  - rewrite Hcov by done. by apply Ha.
Qed.

Lemma agrees_ext cov cov' s : (∀ id, id ∈ table_ids (db_components s) → cov' id = cov id) → agrees cov own s → agrees cov' own s.
Proof. intros H Ha c Hc. rewrite H; [by apply Ha|]. by apply list_elem_of_fmap_2. Qed.

(** What a step of a loop over components leaves. *)
Definition then_agrees (cov : string → bool) (w w' : world page) : Prop :=
  same_windows (w_st w) (w_st w') ∧ agrees cov own (w_st w') ∧ w_env w' = w_env w.

Lemma then_agrees_same cov w w' : same w w' → agrees cov own (w_st w) → then_agrees cov w w'.
Proof. intros (S1 & E1 & _) Ha. unfold then_agrees. rewrite S1. by split_and!. Qed.

Lemma select_component_id id (s : page) c : select_id id (db_components s) = Some c → c ∈ db_components s ∧ cp_ID c = id.
Proof. apply select_id_Some. Qed.

Lemma wp_cover_component cov m id w :
  fault_free w → agrees cov own (w_st w) → cov id = covered_but id m (w_st w) →
  wp (cover_component visit m id) (λ _, then_agrees (λ id', cov id' || bool_decide (id' = id)) w) w.
Proof.
  intros Hff Ha Hcov. apply wp_bind, wp_get_component; [done|]. intros w1 H1. cbn.
  destruct (select_id id (db_components (w_st w))) as [c|] eqn:Hc; cbn.
  2: { apply wp_ret. apply then_agrees_same; [done|].
    eapply agrees_ext; [|done]. intros id' Hid. rewrite bool_decide_eq_false_2, orb_false_r; [done|]. intros ->.
    by apply select_id_None in Hc. }
  apply select_component_id in Hc as [Hin Hid]. apply wp_bind, wp_db_query; [intros ? _ []; by eapply fault_free_env; [apply H1|]|].
  intros w2 H2. pose proof (same_trans _ _ _ H1 H2) as H12. rewrite (proj1 H1).
  apply wp_bind, wp_update_component; [eapply fault_free_env; [apply H12|done]|]. intros r w3 Hr E3. apply wp_ret.
  rewrite (proj1 H12) in Hr. split_and!; [by eapply rewritten_windows| |rewrite E3; apply H12].
  eapply agrees_rewritten; [done..| |].
  - specialize (Ha c Hin). rewrite Hid, Hcov in Ha. destruct (covered_but id m (w_st w)) eqn:Ecov; cbn; rewrite Hid;
      (rewrite bool_decide_eq_true_2, orb_true_r by done); cbn; rewrite ?Hid; tauto.
  - intros id' Hne. rewrite bool_decide_eq_false_2, orb_false_r; [done|].
    destruct (covered_but id m (w_st w)); cbn in Hne; by rewrite Hid in Hne.
Qed.

(** A loop whose rounds move the components of a list, one by one, from [cov] to
    what [move] makes of it. *)
Lemma wp_move_components (move : string → bool → bool) (fixed : string → bool → world page → Prop) (body : IncidentCompRef → M page unit)
    refs cov w :
  (∀ c b w w', fixed c b w → same_windows (w_st w) (w_st w') → fixed c b w') →
  (∀ c cov w, c ∈ refs → fault_free w → agrees cov own (w_st w) → fixed (cr_ID c) (cov (cr_ID c)) w →
    wp (body c) (λ _, then_agrees (λ id, if bool_decide (id = cr_ID c) then move id (cov id) else cov id) w) w) →
  fault_free w → agrees cov own (w_st w) → NoDup (cr_ID <$> refs) → (∀ c, c ∈ refs → fixed (cr_ID c) (cov (cr_ID c)) w) →
  wp (for_each refs body)
    (λ _, then_agrees (λ id, if bool_decide (id ∈ cr_ID <$> refs) then move id (cov id) else cov id) w) w.
Proof.
  intros Hfixed Hbody. revert cov w. induction refs as [|c refs IH]; intros cov w Hff Ha Hnd Hr.
  { apply wp_ret. apply then_agrees_same; [done|]. by eapply agrees_ext. }
  apply wp_bind. eapply wp_mono; [apply Hbody; [by left|done..|apply Hr; by left]|]. cbn. intros _ w1 (S1 & A1 & E1).
  apply NoDup_cons in Hnd as [Hc Hnd]. eapply wp_mono; [apply IH|].
  - intros c' cov' w' Hin. apply Hbody. by right.
  - by eapply fault_free_env.
  - exact A1.
  - done.
  - intros c' Hin. eapply Hfixed; [|done]. rewrite bool_decide_eq_false_2; [apply Hr; by right|]. intros Heq. apply Hc.
    rewrite <- Heq. by apply list_elem_of_fmap_2.
  - cbn. intros _ w2 (S2 & A2 & E2). split_and!; [by etransitivity| |congruence]. eapply agrees_ext; [|exact A2].
    intros id _. cbn. destruct (bool_decide_reflect (id = cr_ID c)) as [->|Hne].
    + rewrite (bool_decide_eq_false_2 (cr_ID c ∈ cr_ID <$> refs)) by done. by rewrite bool_decide_eq_true_2 by (by left).
    + destruct (bool_decide_reflect (id ∈ cr_ID <$> refs)) as [Hin|Hin].
      * by rewrite bool_decide_eq_true_2 by (by right).
      * rewrite bool_decide_eq_false_2; [done|]. by intros [?|?]%elem_of_cons.
Qed.

Lemma wp_release_component cov m id w :
  fault_free w → agrees cov own (w_st w) → cov id = true →
  wp (releaseComponent visit m id)
    (λ _, then_agrees (λ id', if bool_decide (id' = id) then covered_but id m (w_st w) else cov id') w) w.
Proof.
  intros Hff Ha Hcov. apply wp_bind, wp_db_query; [by intros ? _ []|]. intros w1 H1.
  destruct (covered_but id m (w_st w)) eqn:Eheld.
  { apply wp_ret. apply then_agrees_same; [done|]. eapply agrees_ext; [|exact Ha].
    intros id' _. case_bool_decide as Hid; [by rewrite Hid|done]. }
  apply wp_bind, wp_get_component; [by eapply fault_free_env; [apply H1|]|]. intros w2 H2. rewrite (proj1 H1).
  destruct (select_id id (db_components (w_st w))) as [c|] eqn:Hc; cbn.
  2: { apply wp_ret. apply then_agrees_same; [by eapply same_trans|]. eapply agrees_ext; [|done]. intros id' Hid. rewrite bool_decide_eq_false_2; [done|].
    intros ->. by apply select_id_None in Hc. }
  apply select_component_id in Hc as [Hin Hid]. pose proof (Ha c Hin) as Hfit. rewrite Hid, Hcov in Hfit.
  destruct Hfit as [Hover Hbefore]. rewrite Hover. unfold opt_eqb. rewrite bool_decide_eq_true_2 by done. cbn [negb andb].
  destruct (same_trans _ _ _ H1 H2) as (S2 & E2 & _).
  apply wp_bind, wp_update_component; [by eapply fault_free_env|]. intros r w3 Hr E3. apply wp_ret. rewrite S2 in Hr.
  split_and!; [by eapply rewritten_windows| |congruence]. eapply agrees_rewritten; [done..| |].
  - cbn. rewrite bool_decide_eq_true_2 by done. by rewrite Hbefore, Hid.
  - intros id' Hne. cbn in Hne. rewrite bool_decide_eq_false_2; [done|congruence].
Qed.

(** ** Windows *)

(** The window lists the components its links name, each once. *)
Definition listed (m : MaintenanceWindow) (s : page) : Prop :=
  NoDup (cr_ID <$> mw_Components m) ∧ ∀ c, c ∈ cr_ID <$> mw_Components m ↔ (mw_ID m, c) ∈ db_window_components s.

Definition loaded (s : page) (m : MaintenanceWindow) : MaintenanceWindow :=
  m <| mw_Components := named_components s (linked (db_window_components s) (mw_ID m)) |>.

Lemma linked_elem links id c : c ∈ linked links id ↔ (id, c) ∈ links.
Proof.
  unfold linked. rewrite list_elem_of_fmap. split.
  - intros ([a b] & -> & [Ha Hin]%list_elem_of_filter). cbn in *. by subst a.
  - intros H. exists (id, c). split; [done|]. by apply list_elem_of_filter.
Qed.

Lemma named_ids s ids : cr_ID <$> named_components s ids = table_ids (filter (λ c, cp_ID c ∈ ids) (db_components s)).
Proof. unfold named_components, table_ids. by rewrite <- list_fmap_compose. Qed.

Lemma listed_loaded s m : page_ok s → listed (loaded s m) s.
Proof.
  intros [Hnd _ Hlinks]. unfold listed, loaded. cbn. rewrite named_ids. split.
  - set (ids := linked _ _). assert (filter (λ c, cp_ID c ∈ ids) (db_components s)
      = select_where (λ c, bool_decide (cp_ID c ∈ ids)) (db_components s)) as ->
      by (apply list_filter_iff; intros; by rewrite bool_decide_eq_true). by apply select_where_sublist_ids.
  - intros c. unfold table_ids. rewrite list_elem_of_fmap. split.
    + intros (r & -> & [Hr _]%list_elem_of_filter). by apply linked_elem.
    + intros Hl. pose proof (Hlinks _ _ Hl) as (r & -> & Hr)%list_elem_of_fmap. exists r. split; [done|].
      apply list_elem_of_filter. split; [by apply linked_elem|done].
Qed.

Lemma listed_windows m s s' : db_window_components s' = db_window_components s → listed m s → listed m s'.
Proof. unfold listed. by intros ->. Qed.

Lemma wp_scan_windows rows (Q : result (list MaintenanceWindow) → world page → Prop) w :
  fault_free w → (∀ w', same w w' → Q (Ok (loaded (w_st w) <$> rows)) w') → wp (scanMaintenanceWindows rows) Q w.
Proof.
  revert Q w. induction rows as [|m rows IH]; intros Q w Hff HQ; [by apply wp_ret, HQ|].
  apply wp_bind, wp_bind, wp_db_query; [by intros ? _ []|]. intros w1 H1. apply wp_ret, wp_bind, IH.
  { by eapply fault_free_env; [apply H1|]. }
  intros w2 H2. apply wp_ret. rewrite (proj1 H1). apply HQ. by eapply same_trans.
Qed.

(** The row of a window says that it is running. *)
Definition is_active (id : string) (s : page) : bool :=
  existsb (λ m, mw_Active m && bool_decide (mw_ID m = id)) (db_windows s).

Lemma covered_split c m s :
  covered s c = covered_but c m s || is_active m s && bool_decide ((m, c) ∈ db_window_components s).
Proof.
  unfold covered, covered_but, is_active. induction (db_windows s) as [|r l IH]; [done|]. cbn. rewrite IH.
  destruct (mw_Active r); cbn; [|done]. destruct (bool_decide_reflect (mw_ID r = m)) as [->|Hne]; cbn; [|by rewrite orb_assoc].
  destruct (bool_decide ((m, c) ∈ _)); cbn; [by rewrite orb_true_r|by rewrite andb_false_r].
Qed.

Lemma covered_but_update c m f s ws :
  (∀ r, mw_ID (f r) = mw_ID r) → db_windows s = ws →
  existsb (λ w, mw_Active w && negb (bool_decide (mw_ID w = m)) && bool_decide ((mw_ID w, c) ∈ db_window_components s))
    (update_id m f ws) = covered_but c m s.
Proof.
  intros Hf <-. unfold covered_but, update_id, update_where. induction (db_windows s) as [|r l IH]; [done|]. cbn. rewrite IH.
  f_equal. case_bool_decide as Hid; [|done]. unfold row_id, MaintenanceWindow_id in Hid.
  rewrite Hf, Hid, (bool_decide_eq_true_2 (m = m)) by done. by rewrite !andb_false_r.
Qed.

Lemma is_active_update id m f ws :
  (∀ r, mw_ID (f r) = mw_ID r) → id ≠ m →
  existsb (λ w, mw_Active w && bool_decide (mw_ID w = id)) (update_id m f ws)
  = existsb (λ w, mw_Active w && bool_decide (mw_ID w = id)) ws.
Proof.
  intros Hf Hne. unfold update_id, update_where. induction ws as [|r l IH]; [done|]. cbn. rewrite IH. f_equal.
  case_bool_decide as Hid; [|done]. unfold row_id, MaintenanceWindow_id in Hid. rewrite Hf, Hid.
  rewrite (bool_decide_eq_false_2 (m = id)) by congruence. by rewrite !andb_false_r.
Qed.

Definition switched (id : string) (active : bool) (incidentID : option string) (t : Z) (s : page) : page :=
  s <| db_windows ::= update_id id
    (λ r, r <| mw_Active := active |> <| mw_IncidentID := incidentID |> <| mw_UpdatedAt := db_time t |>) |>.

Lemma wp_set_active id active incidentID (Q : result unit → world page → Prop) w :
  fault_free w → (∀ t w', put w (switched id active incidentID t (w_st w)) w' → Q (Ok tt) w') →
  wp (SetActive id active incidentID) Q w.
Proof.
  intros Hff HQ. apply wp_bind, wp_now. intros w1 (S1 & E1 & T1). apply wp_db_exec; [intros ? _ []; by eapply fault_free_env|].
  intros w2 (S2 & E2 & T2). rewrite S1 in S2. eapply HQ. split_and!; [exact S2|congruence|lia].
Qed.

Lemma covered_but_switched c id b i t s : covered_but c id (switched id b i t s) = covered_but c id s.
Proof. by apply (covered_but_update c id _ s). Qed.

Lemma is_active_switched_ne id' id b i t s : id' ≠ id → is_active id' (switched id b i t s) = is_active id' s.
Proof. intros Hne. by apply is_active_update. Qed.

Lemma is_active_switched id b i t s :
  is_active id (switched id b i t s) = b && bool_decide (id ∈ table_ids (db_windows s)).
Proof.
  unfold is_active, switched, update_id, update_where, table_ids. cbn.
  induction (db_windows s) as [|r l IH]; [by rewrite andb_false_r|]. cbn. rewrite IH.
  destruct (bool_decide_reflect (row_id r = id)) as [Hid|Hne]; cbn; unfold row_id, MaintenanceWindow_id in *.
  - rewrite (bool_decide_eq_true_2 (mw_ID r = id)) by done. rewrite (bool_decide_eq_true_2 (id ∈ _ :: _)) by (rewrite Hid; by left).
    by destruct b.
  - rewrite (bool_decide_eq_false_2 (mw_ID r = id)) by done. rewrite andb_false_r. cbn. f_equal.
    apply bool_decide_ext. split; [by right|]. intros [->|?]%elem_of_cons; done.
Qed.

Lemma page_ok_switched id b i t s : page_ok s → page_ok (switched id b i t s).
Proof. intros [H1 H2 H3]. split; cbn; [done| |done]. by rewrite update_id_ids. Qed.

Lemma refs_links m s id : listed m s → bool_decide (id ∈ cr_ID <$> mw_Components m) = bool_decide ((mw_ID m, id) ∈ db_window_components s).
Proof. intros [_ H]. apply bool_decide_ext, H. Qed.

(** The window no longer runs; its components are still to be released. *)
Lemma unwound_agrees m s s1 :
  listed m s → db_components s1 = db_components s → (∀ c, covered_but c (mw_ID m) s1 = covered_but c (mw_ID m) s) →
  is_active (mw_ID m) s1 = false → agrees (covered s) own s →
  (∀ id, covered s1 id = covered_but id (mw_ID m) s1)
  ∧ (is_active (mw_ID m) s = true → agrees (λ id, if bool_decide (id ∈ cr_ID <$> mw_Components m) then true else covered s1 id) own s1)
  ∧ (is_active (mw_ID m) s = false → agrees (covered s1) own s1).
Proof.
  intros Hl Hc Hbut Hoff Ha.
  assert (∀ id, covered s1 id = covered_but id (mw_ID m) s1) as Hcov.
  { intros id. rewrite (covered_split id (mw_ID m) s1), Hoff. by rewrite orb_false_r. }
  split_and!; [done|intros Hon..]; intros c Hin; rewrite Hc in Hin; specialize (Ha c Hin);
    rewrite (covered_split _ (mw_ID m)), Hon, <- Hbut, <- Hcov in Ha; cbn [andb] in Ha.
  - rewrite (refs_links m s) by done. destruct (bool_decide ((mw_ID m, cp_ID c) ∈ _)); [by rewrite orb_true_r in Ha|].
    by rewrite orb_false_r in Ha.
  - by rewrite orb_false_r in Ha.
Qed.

Lemma wp_then_cover {A} (m : M page A) cov w w0 :
  steps same_cover m → then_agrees cov w0 w → wp m (λ _, then_agrees cov w0) w.
Proof.
  intros Hm (S1 & A1 & E1). eapply wp_mono; [apply (steps_wp _ _ _ Hm)|]. cbn. intros _ w2 [H2 E2].
  split_and!; [etransitivity; [exact S1|by apply same_cover_windows]| |congruence].
  intros c Hc. destruct H2 as (Hc2 & _). rewrite Hc2 in Hc. by apply A1.
Qed.

Lemma wp_close_window m w :
  fault_free w → NoDup (cr_ID <$> mw_Components m) →
  (∀ id, covered (w_st w) id = covered_but id (mw_ID m) (w_st w)) →
  agrees (λ id, if bool_decide (id ∈ cr_ID <$> mw_Components m) then true else covered (w_st w) id) own (w_st w) →
  wp (closeWindow visit m) (λ _, then_agrees (covered (w_st w)) w) w.
Proof.
  intros Hff Hnd Hcov Ha. unfold closeWindow. apply wp_bind.
  eapply wp_mono; [apply (wp_then_cover _ (λ id, if bool_decide (id ∈ cr_ID <$> mw_Components m) then true else covered (w_st w) id) w w);
    [steps_tac|by apply then_agrees_same]|]. cbn. intros _ w1 (S1 & A1 & E1).
  apply wp_bind. eapply wp_mono; [apply (wp_move_components (λ id _, covered_but id (mw_ID m) (w_st w))
    (λ c b w', b = true ∧ covered_but c (mw_ID m) (w_st w') = covered_but c (mw_ID m) (w_st w))) with (5 := Hnd)|].
  - intros c b w2 w3 [-> H] Hs. split; [done|]. by rewrite (covered_but_windows _ _ _ _ Hs).
  - intros c cov w2 _ Hff2 Ha2 [Hc Hb]. eapply wp_mono; [by apply (wp_release_component cov (mw_ID m))|].
    intros _ w3 (S3 & A3 & E3). split_and!; [done| |done]. eapply agrees_ext; [|exact A3]. intros id _. cbn.
    case_bool_decide as Hid; [by rewrite Hid, Hb|done].
  - by eapply fault_free_env.
  - exact A1.
  - intros c Hc. cbn beta. rewrite bool_decide_eq_true_2 by by apply list_elem_of_fmap_2. split; [done|].
    by apply covered_but_windows.
  - cbn. intros _ w2 (S2 & A2 & E2). apply wp_bind.
    assert (then_agrees (covered (w_st w)) w w2) as H2.
    { split_and!; [by etransitivity| |congruence]. eapply agrees_ext; [|exact A2]. intros id _. cbn.
      case_bool_decide; [by rewrite Hcov|done]. }
    eapply wp_mono; [apply (wp_then_cover _ _ _ _ (naming_cover _ _ _) H2)|]. cbn beta. intros _ w3 H3.
    by apply wp_then_cover; [apply notify_cover|].
Qed.

(** A state in which no window is half-way. *)
Record kept_by (w w' : world page) : Prop := {
  kb_ok : page_ok (w_st w');
  kb_agrees : agrees (covered (w_st w')) own (w_st w');
  kb_ids : table_ids (db_components (w_st w')) = table_ids (db_components (w_st w));
  kb_windows : table_ids (db_windows (w_st w')) = table_ids (db_windows (w_st w));
  kb_links : db_window_components (w_st w') = db_window_components (w_st w);
  kb_env : w_env w' = w_env w;
}.

Lemma kept_by_then w w1 w' : then_agrees (covered (w_st w1)) w1 w' → page_ok (w_st w1) →
  table_ids (db_components (w_st w1)) = table_ids (db_components (w_st w)) →
  table_ids (db_windows (w_st w1)) = table_ids (db_windows (w_st w)) →
  db_window_components (w_st w1) = db_window_components (w_st w) → w_env w1 = w_env w → kept_by w w'.
Proof.
  intros (S1 & A1 & E1) Hok Hc Hm Hl He. split.
  - by eapply page_ok_windows.
  - eapply agrees_ext; [|exact A1]. intros id _. by apply covered_windows.
  - destruct S1 as (H & _). congruence.
  - destruct S1 as (_ & H & _). by rewrite H.
  - destruct S1 as (_ & _ & H). congruence.
  - congruence.
Qed.

(** The other windows run or not as before. *)
Definition others_run (id : string) (w w' : world page) : Prop := ∀ id', id' ≠ id → is_active id' (w_st w') = is_active id' (w_st w).

Lemma is_active_same id s s' : db_windows s' = db_windows s → is_active id s' = is_active id s.
Proof. unfold is_active. by intros ->. Qed.

Lemma wp_kept_cover {A} (m : M page A) id w w0 :
  steps same_cover m → kept_by w0 w ∧ others_run id w0 w → wp m (λ _ w', kept_by w0 w' ∧ others_run id w0 w') w.
Proof.
  intros Hm [[K1 K2 K3 K4 K5 K6] Ho]. eapply wp_mono; [apply (steps_wp _ _ _ Hm)|]. cbn. intros _ w' [Hs He].
  pose proof (same_cover_windows _ _ Hs) as Hw. destruct Hs as (Hc & Hm' & Hl). split.
  - split; [by eapply page_ok_windows| |congruence..]. intros c Hin. rewrite Hc in Hin.
    rewrite (covered_windows _ _ _ Hw). by apply K2.
  - intros id' Hne. rewrite <- Ho by done. by apply is_active_same.
Qed.

Lemma wp_close_kept m w w0 :
  fault_free w → NoDup (cr_ID <$> mw_Components m) → page_ok (w_st w) →
  (∀ id, covered (w_st w) id = covered_but id (mw_ID m) (w_st w)) →
  agrees (λ id, if bool_decide (id ∈ cr_ID <$> mw_Components m) then true else covered (w_st w) id) own (w_st w) →
  table_ids (db_components (w_st w)) = table_ids (db_components (w_st w0)) →
  table_ids (db_windows (w_st w)) = table_ids (db_windows (w_st w0)) →
  db_window_components (w_st w) = db_window_components (w_st w0) → w_env w = w_env w0 → others_run (mw_ID m) w0 w →
  wp (closeWindow visit m) (λ _ w', kept_by w0 w' ∧ others_run (mw_ID m) w0 w') w.
Proof.
  intros Hff Hnd Hok Hcov Ha Hc Hm Hl He Ho. eapply wp_mono; [by apply wp_close_window|]. cbn. intros _ w' H. split.
  - by eapply kept_by_then.
  - intros id' Hid. rewrite <- Ho by done. apply is_active_same, H.
Qed.

Lemma wp_deactivate m w :
  fault_free w → page_ok (w_st w) → agrees (covered (w_st w)) own (w_st w) → listed m (w_st w) →
  is_active (mw_ID m) (w_st w) = true →
  wp (deactivateWindow visit m) (λ _ w', kept_by w w' ∧ others_run (mw_ID m) w w') w.
Proof.
  intros Hff Hok Ha Hl Hon. apply wp_bind, wp_set_active; [done|]. intros t w1 (S1 & E1 & T1).
  destruct (unwound_agrees m (w_st w) (w_st w1)) as (Hcov & Hpend & _);
    [done|by rewrite S1|intros c; rewrite S1; apply covered_but_switched|by rewrite S1, is_active_switched|done|].
  apply wp_close_kept; try (rewrite S1; done).
  - by eapply fault_free_env.
  - apply Hl.
  - rewrite S1. by apply page_ok_switched.
  - done.
  - by apply Hpend.
  - rewrite S1. by apply update_id_ids.
  - done.
  - intros id' Hne. rewrite S1. by apply is_active_switched_ne.
Qed.

Lemma wp_activate m w :
  fault_free w → page_ok (w_st w) → agrees (covered (w_st w)) own (w_st w) → listed m (w_st w) →
  is_active (mw_ID m) (w_st w) = false → mw_ID m ∈ table_ids (db_windows (w_st w)) →
  wp (activateWindow visit m) (λ _ w', kept_by w w' ∧ others_run (mw_ID m) w w') w.
Proof.
  intros Hff Hok Ha Hl Hoff Hin.
  assert (∀ w', then_agrees (covered (w_st w)) w w' → kept_by w w' ∧ others_run (mw_ID m) w w') as Hsame.
  { intros w' H. split; [by eapply kept_by_then|]. intros id' _. apply is_active_same, H. }
  apply wp_bind. eapply wp_mono; [apply (wp_then_cover _ (covered (w_st w)) w w); [apply create_incident_cover|by apply then_agrees_same]|].
  intros [inc|e] w1 H1; [|by apply wp_ret, Hsame]. destruct H1 as (W1 & A1 & E1).
  apply wp_bind, wp_set_active; [by eapply fault_free_env|]. intros t w2 (S2 & E2 & T2).
  assert (∀ id, covered (w_st w) id = covered_but id (mw_ID m) (w_st w2)) as Hcov.
  { intros id. rewrite S2, covered_but_switched, (covered_but_windows _ _ _ _ W1), (covered_split id (mw_ID m)), Hoff.
    by rewrite orb_false_r. }
  apply wp_bind. eapply wp_mono; [apply (wp_move_components (λ _ _, true)
    (λ c b w', b = covered_but c (mw_ID m) (w_st w'))) with (5 := proj1 Hl) (cov := covered (w_st w))|].
  - intros c b w3 w4 -> Hs. by rewrite (covered_but_windows _ _ _ _ Hs).
  - intros c cov w3 _ Hff3 A3 Hb. eapply wp_mono; [by apply (wp_cover_component cov (mw_ID m))|].
    intros _ w4 (S4 & A4 & E4). split_and!; [done| |done]. eapply agrees_ext; [|exact A4]. intros id _. cbn.
    case_bool_decide; [by rewrite orb_true_r|by rewrite orb_false_r].
  - eapply fault_free_env; [|done]. congruence.
  - rewrite S2. exact A1.
  - intros c _. apply Hcov.
  - cbn. intros _ w3 (S3 & A3 & E3).
    assert (kept_by w w3 ∧ others_run (mw_ID m) w w3) as H3.
    { assert (∀ id, covered (w_st w3) id = if bool_decide (id ∈ cr_ID <$> mw_Components m) then true else covered (w_st w) id) as Hc3.
      { intros id. rewrite (covered_windows _ _ _ S3), (covered_split id (mw_ID m)), <- Hcov, (refs_links m (w_st w)) by done.
        rewrite S2, is_active_switched. destruct W1 as (_ & -> & HL). cbn. rewrite HL, (bool_decide_eq_true_2 _ Hin). cbn.
        destruct (bool_decide _); [by rewrite orb_true_r|by rewrite orb_false_r]. }
      destruct W1 as (WC & WW & WL), S3 as (SC & SW & SL). rewrite S2 in SC, SW, SL. cbn in SC, SW, SL. rewrite WW in SW. split.
      - split; [|by eapply agrees_ext; [|exact A3]|congruence| |congruence|congruence].
        + destruct Hok as [P1 P2 P3]. split; [by rewrite SC, WC| |rewrite SL, WL, SC, WC; done].
          rewrite SW. by rewrite update_id_ids.
        + rewrite SW. by apply update_id_ids.
      - intros id' Hne. unfold is_active. rewrite SW. by apply is_active_update. }
    apply wp_bind. eapply wp_mono; [apply (wp_kept_cover _ _ _ _ (naming_cover _ _ _) H3)|].
    cbn beta. intros _ w4 H4. by apply wp_kept_cover; [apply notify_cover|].
Qed.

Lemma kept_by_refl w w' : same w w' → page_ok (w_st w) → agrees (covered (w_st w)) own (w_st w) → kept_by w w'.
Proof. intros (S1 & E1 & _) Hok Ha. split; rewrite ?S1; done. Qed.

Lemma kept_by_trans w1 w2 w3 : kept_by w1 w2 → kept_by w2 w3 → kept_by w1 w3.
Proof. intros [_ _ C1 M1 L1 E1] [O2 A2 C2 M2 L2 E2]. split; (done || congruence). Qed.

(** A loop over windows that run, or over windows that do not. *)
Lemma wp_windows (running : bool) (body : MaintenanceWindow → M page unit) l w :
  (∀ m w, fault_free w → page_ok (w_st w) → agrees (covered (w_st w)) own (w_st w) → listed m (w_st w) →
    is_active (mw_ID m) (w_st w) = running → mw_ID m ∈ table_ids (db_windows (w_st w)) →
    wp (body m) (λ _ w', kept_by w w' ∧ others_run (mw_ID m) w w') w) →
  fault_free w → page_ok (w_st w) → agrees (covered (w_st w)) own (w_st w) → NoDup (mw_ID <$> l) →
  (∀ m, m ∈ l → listed m (w_st w) ∧ is_active (mw_ID m) (w_st w) = running ∧ mw_ID m ∈ table_ids (db_windows (w_st w))) →
  wp (for_each l body) (λ _, kept_by w) w.
Proof.
  intros Hbody. revert w. induction l as [|m l IH]; intros w Hff Hok Ha Hnd Hl.
  { apply wp_ret. by apply kept_by_refl. }
  apply NoDup_cons in Hnd as [Hm Hnd]. apply wp_bind.
  destruct (Hl m) as (H1 & H2 & H3); [by left|]. eapply wp_mono; [by apply Hbody|]. cbn. intros _ w1 [K1 Ho].
  eapply wp_mono; [apply IH|].
  - eapply fault_free_env; [apply K1|done].
  - apply K1.
  - apply K1.
  - done.
  - intros m' Hin. destruct (Hl m') as (G1 & G2 & G3); [by right|]. split_and!.
    + by eapply listed_windows; [apply K1|].
    + rewrite Ho; [done|]. intros Heq. apply Hm. rewrite <- Heq. by apply list_elem_of_fmap_2.
    + by rewrite (kb_windows _ _ K1).
  - cbn. intros _ w2 K2. by eapply kept_by_trans.
Qed.

Lemma is_active_row s m : NoDup (table_ids (db_windows s)) → m ∈ db_windows s → is_active (mw_ID m) s = mw_Active m.
Proof.
  intros Hnd Hm. unfold is_active. destruct (mw_Active m) eqn:EA.
  - apply existsb_exists. exists m. split; [by apply list_elem_of_In|]. by rewrite EA, bool_decide_eq_true_2.
  - apply not_true_iff_false. intros (r & Hr & Hb)%existsb_exists. apply list_elem_of_In in Hr.
    apply andb_true_iff in Hb as [Hact Hid%bool_decide_eq_true].
    pose proof (select_id_elem _ _ Hnd Hm) as E1. pose proof (select_id_elem _ _ Hnd Hr) as E2.
    unfold row_id, MaintenanceWindow_id in *. rewrite Hid, E1 in E2. injection E2 as ->. congruence.
Qed.

(** The windows a select returns, once loaded. *)
Lemma loaded_rows p s m :
  page_ok s → m ∈ loaded s <$> select_where p (db_windows s) →
  listed m s ∧ mw_ID m ∈ table_ids (db_windows s) ∧ ∃ r, r ∈ db_windows s ∧ p r = true ∧ m = loaded s r.
Proof.
  intros Hok (r & -> & [Hr Hp]%select_where_elem)%list_elem_of_fmap. split_and!; [by apply listed_loaded| |by exists r].
  change (mw_ID r ∈ mw_ID <$> db_windows s). by apply list_elem_of_fmap_2.
Qed.

Lemma loaded_ids p s : NoDup (table_ids (db_windows s)) → NoDup (mw_ID <$> (loaded s <$> select_where p (db_windows s))).
Proof.
  intros Hnd. rewrite <- list_fmap_compose.
  change (mw_ID ∘ loaded s) with (λ m : MaintenanceWindow, mw_ID m). by apply (select_where_sublist_ids p).
Qed.

Lemma wp_select_windows p (Q : result (list MaintenanceWindow) → world page → Prop) w :
  fault_free w → (∀ w', same w w' → Q (Ok (loaded (w_st w) <$> select_where p (db_windows (w_st w)))) w') →
  wp (let? rows := db_query (λ s, select_where p (db_windows s)) in scanMaintenanceWindows rows) Q w.
Proof.
  intros Hff HQ. apply wp_bind, wp_db_query; [by intros ? _ []|]. intros w1 H1.
  apply wp_scan_windows; [by eapply fault_free_env; [apply H1|]|]. intros w2 H2. rewrite (proj1 H1). apply HQ.
  by eapply same_trans.
Qed.

Lemma wp_select_loop p running body w :
  (∀ m w, fault_free w → page_ok (w_st w) → agrees (covered (w_st w)) own (w_st w) → listed m (w_st w) →
    is_active (mw_ID m) (w_st w) = running → mw_ID m ∈ table_ids (db_windows (w_st w)) →
    wp (body m) (λ _ w', kept_by w w' ∧ others_run (mw_ID m) w w') w) →
  (∀ m, p m = true → mw_Active m = running) →
  fault_free w → page_ok (w_st w) → agrees (covered (w_st w)) own (w_st w) →
  wp (let! found := (let? rows := db_query (λ s, select_where p (db_windows s)) in scanMaintenanceWindows rows) in
      for_each (windows_of found) body) (λ _, kept_by w) w.
Proof.
  intros Hbody Hp Hff Hok Ha. apply wp_bind, wp_select_windows; [done|]. intros w1 H1. cbn.
  pose proof (kept_by_refl _ _ H1 Hok Ha) as K1. destruct (H1) as (S1 & E1 & _).
  eapply wp_mono; [apply (wp_windows running); try done|].
  - by eapply fault_free_env.
  - apply K1.
  - apply K1.
  - apply loaded_ids, Hok.
  - intros m Hm. rewrite S1. apply loaded_rows in Hm as (Hl & Hin & r & Hr & Hpr & ->); [|done].
    split_and!; [done| |done]. change (mw_ID (loaded (w_st w) r)) with (mw_ID r).
    rewrite is_active_row; [by apply Hp|apply Hok|done].
  - cbn. intros _ w2 K2. by eapply kept_by_trans.
Qed.

Lemma wp_apply_transitions w :
  fault_free w → page_ok (w_st w) → agrees (covered (w_st w)) own (w_st w) → wp (applyTransitions visit) (λ _, kept_by w) w.
Proof.
  intros Hff Hok Ha. apply wp_bind, wp_now. intros w1 H1. pose proof (kept_by_refl _ _ H1 Hok Ha) as K1.
  set (t := env_now _ _). clearbody t.
  change (wp (do! (let! pending := GetPendingActivation t in for_each (windows_of pending) (activateWindow visit)) in
    let! expired := GetPendingDeactivation t in for_each (windows_of expired) (deactivateWindow visit)) (λ _, kept_by w) w1).
  apply wp_bind. eapply wp_mono; [apply (wp_select_loop (to_activate t) false)|].
  - intros m w2 ??????. by apply wp_activate.
  - unfold to_activate. intros m Hm. by destruct (mw_Active m).
  - by eapply fault_free_env; [apply K1|].
  - apply K1.
  - apply K1.
  - cbn. intros _ w2 K2. pose proof (kept_by_trans _ _ _ K1 K2) as K. eapply wp_mono; [apply (wp_select_loop (to_deactivate t) true)|].
    + intros m w3 ??????. by apply wp_deactivate.
    + unfold to_deactivate. intros m Hm. by destruct (mw_Active m).
    + by eapply fault_free_env; [apply K|].
    + apply K.
    + apply K.
    + cbn. intros _ w3 K3. by eapply kept_by_trans.
Qed.

(** ** Every operation *)

Lemma restored_kept w w' : restored own (w_st w) → kept_by w w' → restored own (w_st w').
Proof. intros [H1 H2 H3] [K1 K2 K3 _ _ _]. split; [done..|]. by rewrite K3. Qed.

Lemma covered_but_removed c id s : covered_but c id (removed_window id s) = covered_but c id s.
Proof.
  unfold covered_but, removed_window, delete_where, unlink. cbn. induction (db_windows s) as [|r l IH]; [done|].
  rewrite filter_cons. destruct (bool_decide_reflect (mw_ID r = id)) as [Hid|Hne]; cbn.
  - rewrite decide_False by done. rewrite IH. rewrite (bool_decide_eq_true_2 (mw_ID r = id)) by done. by rewrite andb_false_r.
  - rewrite decide_True by done. cbn. rewrite IH. f_equal. f_equal. apply bool_decide_ext. rewrite list_elem_of_filter. cbn. tauto.
Qed.

Lemma is_active_removed id s : is_active id (removed_window id s) = false.
Proof.
  apply not_true_iff_false. intros (r & Hr & Hb)%existsb_exists. apply list_elem_of_In, delete_where_elem in Hr as [_ Hr].
  apply andb_true_iff in Hb as [_ Hb]. congruence.
Qed.

Lemma page_ok_removed id s : page_ok s → page_ok (removed_window id s).
Proof.
  intros [H1 H2 H3]. split; cbn; [done|by apply delete_where_ids|]. intros m c [_ Hl]%list_elem_of_filter. exact (H3 _ _ Hl).
Qed.

Lemma wp_delete_window id w :
  fault_free w → restored own (w_st w) →
  wp (DeleteWindow visit id) (λ _ w', restored own (w_st w') ∧ w_env w' = w_env w) w.
Proof.
  intros Hff [Hok Ha Habs]. pose proof Hok as [_ Hnd _]. apply wp_bind, wp_bind, wp_db_query; [by intros ? _ []|]. intros w1 H1.
  set (Q := λ (o : option MaintenanceWindow) (w2 : world page), match o with
    | Some m => listed m (w_st w) ∧ mw_ID m = id ∧ is_active id (w_st w) = mw_Active m
    | None => is_active id (w_st w) = false end).
  assert (∀ o w2, same w w2 → Q o w2 → wp (do? DeleteMaintenance id in match o with
      | Some m => when! mw_Active m then closeWindow visit m in ret (Ok tt) | None => ret (Ok tt) end)
    (λ _ w', restored own (w_st w') ∧ w_env w' = w_env w) w2) as Hdel.
  { intros o w2 (S2 & E2 & _) HQ. apply wp_bind, wp_db_exec; [intros ? _ []; by eapply fault_free_env|].
    intros w3 (S3 & E3 & _). rewrite S2 in S3.
    assert (is_active id (w_st w) = false → restored own (w_st w3)) as Hoff.
    { intros Hoff. rewrite S3. split; [by apply page_ok_removed| |done]. eapply agrees_ext; [|exact Ha]. intros c _.
      by rewrite !(covered_split c id), covered_but_removed, is_active_removed, Hoff. }
    destruct o as [m|]; [|apply wp_ret; split; [by apply Hoff|congruence]]. destruct HQ as (Hl & Hid & Hact).
    destruct (mw_Active m).
    2: { apply wp_bind, wp_ret, wp_ret. split; [by apply Hoff|congruence]. }
    subst id. destruct (unwound_agrees m (w_st w) (w_st w3)) as (Hcov & Hpend & _);
      [done|by rewrite S3|intros c; rewrite S3; apply covered_but_removed|by rewrite S3, is_active_removed|done|].
    apply wp_bind. eapply wp_mono; [apply wp_close_window|].
    - eapply fault_free_env; [|done]. congruence.
    - apply Hl.
    - done.
    - by apply Hpend.
    - cbn. intros _ w4 (S4 & A4 & E4). apply wp_ret. split; [|congruence]. split.
      + eapply page_ok_windows; [done|]. rewrite S3. by apply page_ok_removed.
      + eapply agrees_ext; [|exact A4]. intros c _. by apply covered_windows.
      + destruct S4 as (-> & _). by rewrite S3. }
  destruct (select_id id (db_windows (w_st w))) as [r|] eqn:Er.
  - apply select_id_Some in Er as [Hr Hid]. apply wp_bind, wp_bind, wp_db_query; [intros ? _ []; by eapply fault_free_env; [apply H1|]|].
    intros w2 H2. apply wp_ret, wp_ret, (Hdel (Some (loaded (w_st w1) r))); [by eapply same_trans|]. rewrite (proj1 H1).
    change (listed (loaded (w_st w) r) (w_st w) ∧ mw_ID r = id ∧ is_active id (w_st w) = mw_Active r).
    split_and!; [by apply listed_loaded|done|]. rewrite <- Hid. by apply is_active_row.
  - apply wp_ret, (Hdel None); [done|]. apply not_true_iff_false. intros (r & Hr & Hb)%existsb_exists.
    apply list_elem_of_In in Hr. apply andb_true_iff in Hb as [_ Hb%bool_decide_eq_true].
    apply select_id_None in Er. apply Er. rewrite <- Hb. by apply (list_elem_of_fmap_2 mw_ID).
Qed.

Lemma wp_restored_cover {A} (m : M page A) (w w0 : world page) :
  steps same_cover m → restored own (w_st w) ∧ w_env w = w_env w0 →
  wp m (λ _ w', restored own (w_st w') ∧ w_env w' = w_env w0) w.
Proof.
  intros Hm [H E]. eapply wp_mono; [apply (steps_wp _ _ _ Hm)|]. cbn. intros _ w' [Hs He]. split; [by eapply restored_same|congruence].
Qed.

(** *** Edits of windows that do not run *)

Definition idle (id : string) (s : page) : Prop := restored own s ∧ is_active id s = false.

Lemma idle_intro id s s' :
  restored own s → is_active id s = false → is_active id s' = false → page_ok s' →
  db_components s' = db_components s → (∀ c, covered_but c id s' = covered_but c id s) → idle id s'.
Proof.
  intros [Hok Ha Habs] Hoff Hoff' Hok' Hc Hbut. split; [|done]. split; [done| |by rewrite Hc]. intros c Hin. rewrite Hc in Hin.
  rewrite (covered_split _ id), Hoff', Hbut. specialize (Ha c Hin). by rewrite (covered_split _ id), Hoff in Ha.
Qed.

(** The links of [id] are changed, those of the others are not. *)
Lemma covered_but_links c id s s' :
  db_windows s' = db_windows s →
  (∀ m, m ≠ id → (m, c) ∈ db_window_components s' ↔ (m, c) ∈ db_window_components s) → covered_but c id s' = covered_but c id s.
Proof.
  intros Hw Hl. unfold covered_but. rewrite Hw. clear Hw. induction (db_windows s) as [|r l IH]; [done|]. cbn. rewrite IH. f_equal.
  destruct (bool_decide_reflect (mw_ID r = id)) as [|Hne]; cbn; [by rewrite andb_false_r|]. f_equal.
  apply bool_decide_ext. by apply Hl.
Qed.

Lemma link_idle id c : steps (keeps (idle id)) (link_window id c).
Proof.
  clear visit.
  intros w. apply (wp_db_link _ _ _ _ _ (λ _ w', keeps (idle id) (w_st w) (w_st w') ∧ w_env w' = w_env w)).
  { intros w' (-> & -> & _) _. split; [done|done]. }
  intros w' Hin _ (-> & -> & _). split; [|done]. intros [H Hoff]. apply andb_true_iff in Hin as [_ Hin%bool_decide_eq_true].
  eapply idle_intro; try done.
  - destruct (rs_ok _ _ H) as [H1 H2 H3]. split; [done..|]. cbn. intros m c' [Hl|[= -> ->]%list_elem_of_singleton]%elem_of_app; [exact (H3 _ _ Hl)|done].
  - intros c'. apply covered_but_links; [done|]. intros m Hm. cbn. rewrite elem_of_app, list_elem_of_singleton. naive_solver.
Qed.

Lemma unlink_idle id : steps (keeps (idle id)) (db_exec (λ s, s <| db_window_components ::= unlink id |>)).
Proof.
  clear visit.
  apply steps_db_exec; [apply _|]. intros s [H Hoff]. eapply idle_intro; try done.
  - destruct (rs_ok _ _ H) as [H1 H2 H3]. split; [done..|]. cbn. intros m c [_ Hl]%list_elem_of_filter. exact (H3 _ _ Hl).
  - intros c. apply covered_but_links; [done|]. intros m Hm. cbn. unfold unlink. rewrite list_elem_of_filter. naive_solver.
Qed.

Lemma cover_idle {A} (m : M page A) id : steps same_cover m → steps (keeps (idle id)) m.
Proof.
  intros Hm w. destruct (Hm w) as [Hs He]. split; [|done]. intros [H Hoff]. split; [by eapply restored_same|].
  rewrite <- Hoff. apply is_active_same, Hs.
Qed.

Lemma update_window_idle m links : steps (keeps (idle (mw_ID m))) (UpdateMaintenance m links).
Proof.
  unfold UpdateMaintenance, relink. apply steps_bind; [apply _|apply (steps_now (keeps _))|]. intros t.
  apply steps_bind; [apply _| |].
  - apply steps_db_exec; [apply _|]. intros s [H Hoff]. eapply idle_intro; try done.
    + rewrite <- Hoff. unfold is_active. cbn. unfold update_id, update_where. induction (db_windows s) as [|r l IH]; [done|].
      cbn. rewrite IH. f_equal. by case_bool_decide.
    + destruct (rs_ok _ _ H) as [H1 H2 H3]. split; [done| |done]. cbn. by rewrite update_id_ids.
    + intros c. by apply (covered_but_update c _ _ s).
  - intros []; [|apply (steps_ret (keeps _))]. apply steps_bind; [apply _| |intros []; apply (steps_ret (keeps _))].
    destruct links; [|apply (steps_ret (keeps _))]. apply steps_bind; [apply _|apply unlink_idle|].
    intros []; [|apply (steps_ret (keeps _))]. apply steps_for_ok; [apply _|]. intros. apply link_idle.
Qed.
End Overrides.
End Maintenance.
