(* ===== verification/StatusHistory.v ===== *)
(** * Status page: every operation and every history

    The operations of the page, one by one, keep the invariant of
    [StatusMaintenance.v]; so does a history of them. *)

From S2P Require Import Prelude.
From S2P Require Import Tables.
From S2P Require Import AlertModel.
From S2P Require Import Container.
From S2P Require Import Status.
From S2P Require Import StatusService.
From S2P Require Import StatusAdmin.
From S2P Require Import StatusMaintenance.

#[local] Open Scope string_scope.
#[local] Open Scope list_scope.
#[local] Open Scope Z_scope.

Section History.
Context `{Licence : !PageLicense}.
Context (visit : list (string * string) → list (string * string)) (parse_rfc3339 : string → option Z).
Context (visit_all : ∀ l, visit l ≡ₚ l).

(** ** The monitors of a component *)

(** A loop whose steps succeed. *)
Lemma wp_for_ok {A} (I : list A → world page → Prop) (body : A → M page (result unit)) l w :
  (∀ a l w, I (a :: l) w → wp (body a) (λ r w', r = Ok tt ∧ I l w') w) →
  I l w → wp (for_ok l body) (λ r w', r = Ok tt ∧ I [] w') w.
Proof.
  intros Hb. revert w. induction l as [|a l IH]; intros w HI; [done|]. cbn [for_ok].
  apply wp_bind. eapply wp_mono; [by apply Hb|]. cbn beta. intros r w' [-> H]. by apply IH.
Qed.

Definition row_key (m : monitor_row) : string * string := (mn_Type m, mn_ID m).

(** The monitors the table has for a component. *)
Definition held (id : string) (s : page) : list (string * string) :=
  row_key <$> filter (λ m, mn_Component m = id) (db_monitors s).

Lemma held_elem id s k : k ∈ held id s ↔ ∃ m, m ∈ db_monitors s ∧ mn_Component m = id ∧ k = row_key m.
Proof. unfold held. rewrite list_elem_of_fmap. setoid_rewrite list_elem_of_filter. naive_solver. Qed.

(** What a step leaves to do: the monitors still to be added are not there. *)
Record unheld (id : string) (keys : list (string * string)) (absent : string * string → Prop) (w w' : world page) : Prop := {
  uh_cover : same_cover (w_st w) (w_st w');
  uh_env : w_env w' = w_env w;
  uh_keys : NoDup keys;
  uh_free : ∀ k, k ∈ keys → absent k → k ∉ held id (w_st w');
}.

Lemma wp_exec_unheld id keys absent w w' f :
  fault_free w → unheld id keys absent w w' →
  (∀ s, same_cover s (f s)) → (∀ s k, k ∈ held id (f s) → k ∈ held id s) →
  wp (db_exec f) (λ r w'', r = Ok tt ∧ unheld id keys absent w w'') w'.
Proof.
  intros Hff [H1 H2 H3 H4] Hf Hk. apply wp_db_exec; [intros ? _ []; by eapply fault_free_env|]. intros w2 (S2 & E2 & _).
  split; [done|]. split; [|congruence|done|].
  - rewrite S2. by etransitivity.
  - intros k Hin Ha Hh. rewrite S2 in Hh. by eapply H4; [| |apply Hk].
Qed.

Lemma wp_delta id refs w :
  fault_free w → id ∈ table_ids (db_components (w_st w)) →
  wp (deltaApplyMonitorRefs visit id refs)
    (λ r w', r = Ok tt ∧ same_cover (w_st w) (w_st w') ∧ w_env w' = w_env w) w.
Proof.
  intros Hff Hid. apply wp_bind, wp_db_query; [by intros ? _ []|]. intros w1 (S1 & E1 & _).
  set (current := list_to_map _). set (wanted := desired_refs refs). cbv zeta.
  set (absent := λ k, current !! k = None). set (keys := visit (map_to_list wanted).*1).
  assert (unheld id keys absent w w1) as U1.
  { split; [by rewrite S1|done| |].
    - unfold keys. rewrite visit_all. apply NoDup_fst_map_to_list.
    - intros k _ Ha. rewrite S1. apply not_elem_of_list_to_map in Ha. rewrite <- list_fmap_compose in Ha. exact Ha. }
  clearbody current. apply wp_bind. eapply wp_mono; [apply (wp_for_ok (λ _, unheld id keys absent w)); [|exact U1]|].
  { intros k l w2 U. destruct (wanted !! k); [by apply wp_ret|]. apply wp_exec_unheld; [done..| |].
    - done.
    - intros s k'. rewrite !held_elem. intros (m & [_ Hm]%list_elem_of_filter & Hk). eauto. }
  cbn beta. intros r w2 [-> U2].
  eapply wp_mono; [apply (wp_for_ok (λ keys, unheld id keys absent w)); [|exact U2]|by intros r w3 [-> [? ? _ _]]].
  intros k l w3 [C3 E3 N3 F3]. apply NoDup_cons in N3 as [Nk Nl].
  assert (unheld id l absent w w3) as U3 by (split; [done..|]; intros k' Hk'; apply F3; by right).
  destruct (wanted !! k) as [label|]; [|by apply wp_ret]. destruct (current !! k) as [old|] eqn:Ec.
  { case_bool_decide; [by apply wp_ret|]. apply wp_exec_unheld; [done..| |].
    - done.
    - intros s k'. rewrite !held_elem. intros (m & (m0 & -> & Hm)%list_elem_of_fmap & Hc & ->).
      exists m0. by case_bool_decide. }
  apply wp_db_link.
  - intros w4 _ H. assert (fault_free w3) as Hff3 by (by eapply fault_free_env). specialize (H Hff3).
    apply orb_true_iff in H as [Hex|(m & Hin & Hm)%existsb_exists].
    + apply negb_true_iff, bool_decide_eq_false in Hex. destruct Hex. cbn. by rewrite (proj1 C3).
    + apply list_elem_of_In in Hin. exfalso. unfold same_monitor in Hm. cbn in Hm.
      apply andb_true_iff in Hm as [[Hc Ht]%andb_true_iff Hi]. apply bool_decide_eq_true in Hc, Ht, Hi.
      apply (F3 k); [by left|done|]. apply held_elem. exists m. split_and!; [done..|]. unfold row_key. destruct k; cbn in *. congruence.
  - intros w4 _ _ (S4 & E4 & _). split; [done|]. destruct U3 as [D1 D2 D3 D4]. split; [rewrite S4; by etransitivity|congruence|done|].
    intros k' Hk' Ha Hh. rewrite S4 in Hh. apply held_elem in Hh as (m & Hm & Hc & ->). cbn in Hm.
    apply elem_of_app in Hm as [Hm| ->%list_elem_of_singleton].
    + by apply (D4 (row_key m)); [..|apply held_elem; eauto].
    + apply Nk. by destruct k.
Qed.

(** An update of a component that exists succeeds. *)
Lemma wp_update_existing c (Q : result Component → world page → Prop) w :
  fault_free w → cp_ID c ∈ table_ids (db_components (w_st w)) →
  (∀ t w', rewritten c (w_st w) (w_st w') → w_env w' = w_env w → Q (Ok (c <| cp_UpdatedAt := t |>)) w') →
  wp (UpdateComponent visit c) Q w.
Proof.
  intros Hff Hid HQ. apply wp_bind, wp_now. intros w1 (S1 & E1 & T1). apply wp_bind.
  apply wp_db_exec; [intros w' _ []; by eapply fault_free_env|]. intros w2 (S2 & E2 & T2). rewrite S1 in S2.
  assert (rewritten c (w_st w) (w_st w2)) as Hr by (eexists; rewrite S2; done).
  case_bool_decide.
  2: { apply wp_bind, wp_ret, wp_ret, HQ; [done|congruence]. }
  apply wp_bind. eapply wp_mono; [apply wp_delta|].
  - eapply fault_free_env; [|done]. congruence.
  - by rewrite (proj1 (rewritten_windows _ _ _ Hr)).
  - cbn beta. intros r w3 (-> & (C3 & W3 & L3) & E3). apply wp_ret, HQ; [|congruence].
    destruct Hr as (t & H1 & H2 & H3). exists t. split_and!; congruence.
Qed.

(** ** The operations *)

#[local] Hint Resolve notify_cover global_cover naming_cover announce_component_cover announce_update_cover relations_cover
  announce_cover incident_cover create_update_cover create_incident_cover component_cover check_ids_cover
  alert_component_cover consult_cover : steps.

Section Operations.
Context (own : string → option string).

Definition still (w0 w : world page) : Prop := restored own (w_st w) ∧ w_env w = w_env w0.

Lemma wp_page_still {A} (m : M page A) (w w0 : world page) :
  steps same_cover m → still w0 w → wp m (λ _, still w0) w.
Proof. apply wp_restored_cover. Qed.

Lemma wp_idle {A} (m : M page A) id (w w0 : world page) :
  steps (keeps (idle own id)) m → idle own id (w_st w) ∧ w_env w = w_env w0 →
  wp m (λ _ w', idle own id (w_st w') ∧ w_env w' = w_env w0) w.
Proof. intros Hm [HI HE]. eapply wp_mono; [apply (steps_wp _ _ _ Hm)|]. cbn. intros _ w' [H E]. split; [by apply H|congruence]. Qed.

Lemma wp_with_ids {A} ids (k : M page (answer A)) (I : world page → Prop) w :
  (∀ w', same_cover (w_st w) (w_st w') → w_env w' = w_env w → I w') →
  (∀ w', same_cover (w_st w) (w_st w') → w_env w' = w_env w → wp k (λ _, I) w') →
  wp (with_ids ids k) (λ _, I) w.
Proof.
  intros H1 H2. apply wp_bind. eapply wp_mono; [apply (steps_wp _ _ _ (check_ids_cover ∅ ids))|]. cbn beta.
  intros [] w' [Hs He]; [by apply H2|by apply wp_ret, H1..].
Qed.

Lemma still_cover w w' : restored own (w_st w) → same_cover (w_st w) (w_st w') → w_env w' = w_env w → still w w'.
Proof. intros H Hs He. split; [by eapply restored_same|done]. Qed.

Lemma wp_get_window id (Q : result (option MaintenanceWindow) → world page → Prop) w :
  fault_free w → (∀ w', same w w' → Q (Ok (loaded (w_st w) <$> select_id id (db_windows (w_st w)))) w') →
  wp (GetMaintenance id) Q w.
Proof.
  intros Hff HQ. apply wp_bind, wp_db_query; [by intros ? _ []|]. intros w1 H1.
  destruct (select_id id (db_windows (w_st w))) as [r|]; [|by apply wp_ret, HQ].
  apply wp_bind, wp_bind, wp_db_query; [intros ? _ []; by eapply fault_free_env; [apply H1|]|]. intros w2 H2.
  apply wp_ret, wp_ret. rewrite (proj1 H1). apply HQ. by eapply same_trans.
Qed.

Lemma restored_insert s s' c :
  restored own s → cp_ID c ∉ table_ids (db_components s) → cp_StatusOverride c = None → cp_OverrideBeforeMaintenance c = None →
  db_components s' = db_components s ++ [c] → db_windows s' = db_windows s → db_window_components s' = db_window_components s →
  restored own s'.
Proof.
  intros [[H1 H2 H3] Ha Habs] Hid Ho Hb Hc Hw Hl. assert (∀ id, covered s' id = covered s id) as Hcov.
  { intros id. unfold covered. by rewrite Hw, Hl. }
  split.
  - split; [|by rewrite Hw|].
    + rewrite Hc. unfold table_ids in *. rewrite fmap_app. apply NoDup_app. split; [done|]. split; [set_solver|apply NoDup_singleton].
    + intros m c' Hin. rewrite Hl in Hin. rewrite Hc. unfold table_ids. rewrite fmap_app. apply elem_of_app. left. exact (H3 _ _ Hin).
  - intros c' Hin. rewrite Hcov. rewrite Hc in Hin. apply elem_of_app in Hin as [Hin| ->%list_elem_of_singleton]; [by apply Ha|].
    rewrite Habs by done. destruct (covered s (cp_ID c)) eqn:E; [|done]. apply existsb_exists in E as (m & _ & Hm).
    apply andb_true_iff in Hm as [_ Hm%bool_decide_eq_true]. by apply H3 in Hm.
  - intros id Hn. apply Habs. intros Hin. apply Hn. rewrite Hc. unfold table_ids. rewrite fmap_app. apply elem_of_app. by left.
Qed.

Lemma wp_new_component c w w0 :
  cp_StatusOverride c = None → cp_OverrideBeforeMaintenance c = None → still w0 w →
  wp (CreateComponent c) (λ _, still w0) w.
Proof.
  intros Ho Hb [H He]. unfold CreateComponent. apply wp_bind, wp_now. intros w1 (S1 & E1 & _). cbv zeta.
  set (mode := if bool_decide (cp_CompositionMode c = "") then CompositionExplicit else cp_CompositionMode c).
  apply wp_bind, wp_new_uid. intros w2 (S2 & E2 & _) _. rewrite S1 in S2.
  apply wp_bind, wp_db_insert.
  { intros w3 (S3 & E3 & _) _. apply wp_ret. split; congruence. }
  intros w3 Hid (S3 & E3 & _). rewrite S2 in Hid, S3. assert (still w0 w3) as H3.
  { split; [|congruence]. apply (restored_insert (w_st w) (w_st w3) _ H Hid); [done..| | |]; by rewrite S3. }
  destruct (bool_decide (mode = _)); [|by apply wp_ret].
  apply wp_bind. eapply wp_mono; [apply wp_page_still; [|done]|].
  { apply steps_for_ok; [apply _|]. intros. by apply link_cover. }
  cbn beta. intros [[]|e] w4 H4; by apply wp_ret.
Qed.

Lemma wp_create_component req w : restored own (w_st w) → wp (HandleCreateComponent req) (λ _, still w) w.
Proof.
  intros H. destruct req as [r|]; [|by apply wp_ret]. cbn [HandleCreateComponent].
  destruct (requested_monitors r) as [monitors|]; [|by apply wp_ret].
  apply wp_bind. assert (steps same_cover (component_quota (A := Component))) as Hq.
  { unfold component_quota, ListComponents, components. steps_tac. }
  eapply wp_mono; [apply (wp_page_still _ _ w Hq); by split|]. cbn beta. intros [refused|] w1 H1; [by apply wp_ret|].
  apply wp_bind. eapply wp_mono; [by apply wp_new_component|]. cbn beta. intros [c|e] w2 H2; [|by apply wp_ret].
  apply wp_bind. eapply wp_mono; [by apply wp_page_still; [apply announce_component_cover|]|]. cbn beta. intros _ w3 H3. by apply wp_ret.
Qed.

Lemma wp_create_window req w : restored own (w_st w) → wp (HandleCreateMaintenance parse_rfc3339 req) (λ _, still w) w.
Proof.
  intros H. destruct req as [r|]; [|by apply wp_ret]. unfold HandleCreateMaintenance. case_bool_decide; [by apply wp_ret|].
  destruct (parse_rfc3339 _) as [startsAt|]; [|by apply wp_ret]. destruct (parse_rfc3339 _) as [endsAt|]; [|by apply wp_ret].
  destruct (negb _); [by apply wp_ret|]. apply wp_with_ids; [by intros; apply still_cover|]. intros w1 C1 E1.
  assert (still w w1) as H1 by (by apply still_cover). apply wp_bind. eapply wp_mono with (P := λ _, still w).
  2: { cbn beta. intros [m|e] w2 H2; [|by apply wp_ret]. apply wp_bind. assert (steps same_cover (read_back (GetMaintenance (mw_ID m)) m)) as Hg.
       { unfold read_back, GetMaintenance, loadMaintenanceComponents. steps_tac. }
       eapply wp_mono; [by apply (wp_page_still _ _ w Hg)|]. cbn beta. intros m' w3 H3. by apply wp_ret. }
  apply wp_bind, wp_now. intros w2 (S2 & E2 & _). apply wp_bind, wp_new_uid. intros w3 (S3 & E3 & _) _. set (id := env_uid _ _).
  assert (still w w3) as H3 by (destruct H1; split; congruence).
  apply wp_bind, wp_db_insert.
  { intros w4 (S4 & E4 & _) _. apply wp_ret. destruct H3. split; congruence. }
  intros w4 Hid (S4 & E4 & _). change (id ∉ table_ids (db_windows (w_st w3))) in Hid. assert (idle own id (w_st w4) ∧ w_env w4 = w_env w) as H4.
  { destruct H3 as [Hr He]. split; [|congruence].
    assert (is_active id (w_st w3) = false) as Hoff.
    { apply not_true_iff_false. intros (m & Hm & Hb)%existsb_exists. apply list_elem_of_In in Hm. apply andb_true_iff in Hb as [_ Hb%bool_decide_eq_true].
      apply Hid. rewrite <- Hb. by apply (list_elem_of_fmap_2 mw_ID). }
    assert (∀ f : MaintenanceWindow → bool, (∀ m, mw_Active m = false → f m = false) →
      existsb f (db_windows (w_st w4)) = existsb f (db_windows (w_st w3))) as Hex.
    { intros f Hf. rewrite S4. cbn. rewrite existsb_app. cbn. rewrite Hf by done. by rewrite !orb_false_r. }
    eapply idle_intro; [exact Hr|done| | | |].
    - unfold is_active. rewrite Hex; [exact Hoff|]. by intros m ->.
    - destruct (rs_ok _ _ Hr) as [P1 P2 P3]. rewrite S4. split; cbn; [done| |done]. unfold table_ids in *. rewrite fmap_app.
      apply NoDup_app. split; [done|]. split; [set_solver|apply NoDup_singleton].
    - by rewrite S4.
    - intros c. unfold covered_but. rewrite Hex by (by intros m ->). by rewrite S4. }
  apply wp_bind. eapply wp_mono; [apply (wp_idle _ id _ w); [|exact H4]|].
  { apply steps_for_ok; [apply _|]. intros c. apply link_idle. }
  cbn beta. intros [[]|e] w5 [[H5 _] E5]; by apply wp_ret.
Qed.

Lemma wp_update_window id req w :
  fault_free w → restored own (w_st w) → wp (HandleUpdateMaintenance parse_rfc3339 id req) (λ _, still w) w.
Proof.
  intros Hff H. unfold HandleUpdateMaintenance. case_bool_decide; [by apply wp_ret|].
  apply wp_bind, wp_get_window; [done|]. intros w1 (S1 & E1 & _). assert (still w w1) as H1 by (split; congruence).
  destruct (select_id id (db_windows (w_st w))) as [row|] eqn:Erow; cbn; [|by apply wp_ret].
  apply select_id_Some in Erow as [Hrow Hid]. destruct (mw_Active row) eqn:Hact; [by apply wp_ret|].
  destruct req as [r|]; [|by apply wp_ret].
  destruct (edited_time _ _) as [startsAt|]; [|by apply wp_ret]. destruct (edited_time _ _) as [endsAt|]; [|by apply wp_ret].
  destruct (negb _); [by apply wp_ret|]. apply wp_with_ids; [intros w2 C2 E2; split; [eapply restored_same; [done|apply H1]|congruence]|].
  intros w2 C2 E2. match goal with |- wp (or_internal (UpdateMaintenance ?x _) _) _ _ => set (m := x) end. assert (mw_ID m = id) as Hm by exact Hid.
  assert (idle own id (w_st w2) ∧ w_env w2 = w_env w) as H2.
  { split; [|congruence]. split; [eapply restored_same; [done|apply H1]|].
    rewrite (is_active_same _ _ _ (proj1 (proj2 C2))), S1, <- Hid.
    change (is_active (mw_ID row) (w_st w) = false). rewrite is_active_row; [done|apply H|done]. }
  apply wp_bind. eapply wp_mono; [apply (wp_idle _ id _ w); [|exact H2]|].
  { rewrite <- Hm. apply update_window_idle. }
  cbn beta. intros [m'|e] w3 [[H3 _] E3]; [|by apply wp_ret].
  apply wp_bind. assert (steps same_cover (read_back (GetMaintenance id) m')) as Hg.
  { unfold read_back, GetMaintenance, loadMaintenanceComponents. steps_tac. }
  eapply wp_mono; [by apply (wp_page_still _ _ w Hg)|]. cbn beta. intros m2 w4 H4. by apply wp_ret.
Qed.

(** *** Components *)

Definition chose (o : page_op) (w0 : world page) (accepted : bool) (w : world page) : Prop :=
  restored (choose own o accepted) (w_st w) ∧ w_env w = w_env w0.

(** An edit keeps what an operator did not choose. *)
Lemma edited_component_row existing r edited :
  edited_component existing r = Some edited →
  cp_ID edited = cp_ID existing ∧ cp_OverrideBeforeMaintenance edited = cp_OverrideBeforeMaintenance existing
  ∧ cp_StatusOverride edited = match ru_StatusOverride r with Some v => text_override v | None => cp_StatusOverride existing end.
Proof.
  unfold edited_component. destruct (_ || _); [done|]. destruct (edited_monitors _ _); [|done].
  unfold edited_override, text_override. destruct (ru_StatusOverride r) as [v|]; [|by intros [= <-]].
  case_bool_decide; [by intros [= <-]|]. destruct (CheckComponentStatus v); [|done]. by intros [= <-].
Qed.

(** A component's row has its own override, as it was or as it was edited. *)
Lemma restored_edit c v s s' :
  restored own s → rewritten c s s' → cp_ID c ∈ table_ids (db_components s) →
  (∀ id, id ≠ cp_ID c → v id = own id) → fits v (covered s (cp_ID c)) c → restored v s'.
Proof.
  intros [Hok Ha Habs] Hr Hid Hv Hfit. pose proof (rewritten_windows _ _ _ Hr) as Hw.
  destruct Hr as (t & Hc & _). split.
  - by eapply page_ok_windows.
  - intros r' Hin. rewrite (covered_windows s) by done. rewrite Hc in Hin. apply update_where_elem in Hin as (r & Hin & ->).
    case_bool_decide as He.
    + change (fits v (covered s (cp_ID r)) (updated_component c t r)).
      change (cp_ID r = cp_ID c) in He. rewrite He. unfold fits in *. cbn. rewrite He. done.
    + change (cp_ID r ≠ cp_ID c) in He. rewrite Hv by done. by apply Ha.
  - intros id Hn. rewrite (proj1 Hw) in Hn. rewrite Hv; [by apply Habs|congruence].
Qed.

Lemma wp_edit_component id req w :
  fault_free w → restored own (w_st w) → careful_step (w_st w) (OpUpdateComponent id req) = true →
  wp (HandleUpdateComponent visit id req) (λ a, chose (OpUpdateComponent id req) w (answered a)) w.
Proof.
  intros Hff H Hcare. unfold HandleUpdateComponent. case_bool_decide; [by apply wp_ret|].
  apply wp_bind, wp_get_component; [done|]. intros w1 (S1 & E1 & _).
  assert (∀ b, b = false → chose (OpUpdateComponent id req) w b w1) as H1 by (intros _ ->; split; cbn; congruence).
  destruct (select_id id (db_components (w_st w))) as [row|] eqn:Erow; cbn; [|by apply wp_ret, H1].
  apply select_id_Some in Erow as [Hrow Hid]. change (cp_ID row = id) in Hid.
  destruct req as [r|]; [|by apply wp_ret, H1]. destruct (edited_component _ _) as [edited|] eqn:Eed; [|by apply wp_ret, H1].
  apply edited_component_row in Eed as (Ei & Eb & Eo). cbn in Ei, Eb, Eo. rewrite Hid in Ei.
  assert (id ∈ table_ids (db_components (w_st w))) as Hin.
  { rewrite <- Hid. by apply (list_elem_of_fmap_2 cp_ID). }
  apply wp_bind, wp_update_existing; [by eapply fault_free_env|by rewrite S1, Ei|]. intros t w2 Hr E2.
  apply wp_bind. eapply wp_mono; [apply (steps_wp _ _ _ (announce_component_cover _ _ _))|]. cbn beta.
  intros _ w3 [C3 E3]. apply wp_ret. split; [|cbn; congruence]. eapply restored_same; [exact C3|]. rewrite S1 in Hr. cbn [answered].
  apply (restored_edit edited _ (w_st w)); [done..|by rewrite Ei| |].
  - intros id' Hne. unfold choose. cbn. rewrite Ei in Hne. destruct (ru_StatusOverride r); cbn; [|done].
    by rewrite bool_decide_eq_false_2.
  - rewrite Ei. pose proof (rs_agrees _ _ H row Hrow) as Hag. rewrite Hid in Hag. unfold fits, choose. rewrite Eb, Eo, Ei. cbn.
    destruct (ru_StatusOverride r) as [v|] eqn:Ev; cbn; [|done].
    unfold careful_step, override_edit in Hcare. rewrite Ev in Hcare. apply negb_true_iff in Hcare. rewrite Hcare in *.
    split; [|apply Hag]. by rewrite bool_decide_eq_true_2.
Qed.

Lemma covered_removed id s c : c ≠ id → covered (removed_component id s) c = covered s c.
Proof.
  intros Hne. unfold covered. cbn. induction (db_windows s) as [|m l IH]; [done|]. cbn. rewrite IH. f_equal. f_equal.
  apply bool_decide_ext. rewrite list_elem_of_filter. cbn. tauto.
Qed.

Lemma restored_removed id s :
  restored own s → restored (λ id', if bool_decide (id' = id) then None else own id') (removed_component id s).
Proof.
  intros [[H1 H2 H3] Ha Habs]. assert (∀ id', id' ∈ table_ids (db_components (removed_component id s)) ↔
    id' ∈ table_ids (db_components s) ∧ id' ≠ id) as Hids.
  { intros id'. cbn. unfold table_ids. rewrite !list_elem_of_fmap. setoid_rewrite delete_where_elem. split.
    - intros (c & -> & Hc & Hne%bool_decide_eq_false). eauto.
    - intros [(c & -> & Hc) Hne]. exists c. split_and!; [done..|]. by apply bool_decide_eq_false. }
  split.
  - split; [by apply delete_where_ids|done|]. intros m c. cbn. intros [Hne Hl]%list_elem_of_filter. apply Hids. split; [exact (H3 _ _ Hl)|done].
  - intros c Hc. cbn in Hc. apply delete_where_elem in Hc as [Hc Hne%bool_decide_eq_false].
    rewrite covered_removed, bool_decide_eq_false_2 by done. by apply Ha.
  - intros id' Hn. case_bool_decide; [done|]. apply Habs. intros Hin. apply Hn, Hids. done.
Qed.

Lemma wp_delete_component id w :
  fault_free w → restored own (w_st w) →
  wp (HandleDeleteComponent id) (λ a, chose (OpDeleteComponent id) w (answered a)) w.
Proof.
  intros Hff H. unfold HandleDeleteComponent. case_bool_decide; [by apply wp_ret|].
  apply wp_bind, wp_get_component; [done|]. intros w1 (S1 & E1 & _). apply wp_bind, wp_db_exec.
  { intros ? _ []; by eapply fault_free_env. }
  intros w2 (S2 & E2 & _). rewrite S1 in S2. apply wp_bind.
  eapply wp_mono; [apply (steps_wp _ _ _ (announce_component_cover _ _ _))|]. cbn beta.
  intros _ w3 [C3 E3]. apply wp_ret. split; [|cbn; congruence]. eapply restored_same; [exact C3|]. rewrite S2.
  by apply restored_removed.
Qed.

(** *** Incidents, alerts and monitors *)

Lemma notify_monitor_cover monitorType monitorID : steps same_cover (NotifyMonitorChanged monitorType monitorID).
Proof.
  unfold NotifyMonitorChanged, ListComponentsByMonitor, components, BroadcastComponentChange, send_public, send_admin.
  steps_tac; done.
Qed.
Lemma alert_event_cover evt : steps same_cover (st_HandleAlertEvent evt).
Proof. unfold st_HandleAlertEvent, ListComponentsByMonitor, components. steps_tac. Qed.
Lemma dangling_cover monitorType monitorID : steps same_cover (RemoveDanglingMonitorRefs monitorType monitorID).
Proof. unfold RemoveDanglingMonitorRefs. steps_tac. done. Qed.
Lemma with_ids_cover {A} ids (k : M page (answer A)) : steps same_cover k → steps same_cover (with_ids ids k).
Proof. intros H. unfold with_ids. steps_tac. Qed.
Lemma read_incident_cover id inc : steps same_cover (read_back (GetIncident id) inc).
Proof. unfold read_back. steps_tac. Qed.
#[local] Hint Resolve read_incident_cover : steps.
Lemma create_incident_op_cover req : steps same_cover (HandleCreateIncident req).
Proof.
  unfold HandleCreateIncident. destruct req as [r|]; [|steps_tac]. cbv zeta. repeat (case_match; [steps_tac|]).
  apply with_ids_cover. unfold or_internal. steps_tac.
Qed.
Lemma post_update_cover id req : steps same_cover (HandlePostUpdate id req).
Proof. unfold HandlePostUpdate, or_missing, or_internal. steps_tac. Qed.
Lemma update_incident_cover i ids : steps same_cover (UpdateIncident i ids).
Proof.
  unfold UpdateIncident, relink. steps_tac; try done. apply steps_for_ok; [apply _|]. intros. by apply link_cover.
Qed.
#[local] Hint Resolve update_incident_cover : steps.
Lemma update_incident_op_cover id req : steps same_cover (HandleUpdateIncident id req).
Proof.
  unfold HandleUpdateIncident, or_missing. steps_tac; try (apply with_ids_cover; unfold or_internal; steps_tac).
Qed.
Lemma delete_incident_cover id : steps same_cover (HandleDeleteIncident id).
Proof. unfold HandleDeleteIncident, or_internal, DeleteIncident. steps_tac. done. Qed.

(** ** All of them *)

Lemma wp_answering {A} (m : M page (answer A)) (Q : bool → world page → Prop) w :
  wp m (λ a, Q (answered a)) w → wp (answering m) Q w.
Proof. intros H. apply wp_bind. eapply wp_mono; [exact H|]. intros a w' HQ. by apply wp_ret. Qed.

Lemma wp_quietly {A} (m : M page A) (Q : world page → Prop) w : wp m (λ _, Q) w → wp (quietly m) (λ _, Q) w.
Proof. intros H. apply wp_bind. eapply wp_mono; [exact H|]. intros a w' HQ. by apply wp_ret. Qed.

Lemma wp_still_answer {A} (m : M page (answer A)) o w :
  (∀ b, choose own o b = own) → wp m (λ _, still w) w → wp (answering m) (chose o w) w.
Proof.
  intros Ho H. apply wp_answering. eapply wp_mono; [exact H|]. cbn. intros a w' [H1 H2]. split; [by rewrite Ho|done].
Qed.

Lemma wp_still_quietly {A} (m : M page A) o w :
  (∀ b, choose own o b = own) → wp m (λ _, still w) w → wp (quietly m) (chose o w) w.
Proof.
  intros Ho H. apply wp_bind. eapply wp_mono; [exact H|]. cbn. intros a w' [H1 H2]. apply wp_ret. split; [by rewrite Ho|done].
Qed.

Lemma wp_perform o w :
  fault_free w → restored own (w_st w) → careful_step (w_st w) o = true →
  wp (perform visit parse_rfc3339 o) (chose o w) w.
Proof.
  intros Hff H Hcare. assert (still w w) as Hw by done.
  destruct o; cbn [perform]; try (first [apply wp_still_answer|apply wp_still_quietly]; [by intros []|]).
  - destruct H as [H1 H2 H3]. eapply wp_mono; [by apply (wp_apply_transitions visit own)|]. cbn. intros _ w' K.
    split; [by eapply restored_kept|apply K].
  - apply wp_page_still; [by apply steps_modify|done].
  - apply wp_page_still; [apply notify_monitor_cover|done].
  - apply wp_page_still; [apply alert_event_cover|done].
  - apply wp_page_still; [apply dangling_cover|done].
  - by apply wp_create_component.
  - by apply wp_answering, wp_edit_component.
  - by apply wp_answering, wp_delete_component.
  - apply wp_page_still; [apply create_incident_op_cover|done].
  - apply wp_page_still; [apply post_update_cover|done].
  - apply wp_page_still; [apply update_incident_op_cover|done].
  - apply wp_page_still; [apply delete_incident_cover|done].
  - by apply wp_create_window.
  - by apply wp_update_window.
  - unfold HandleDeleteMaintenance. case_bool_decide; [by apply wp_ret|]. apply wp_bind.
    eapply wp_mono; [by apply (wp_delete_window visit own)|]. cbn. intros [[]|e] w' H'; by apply wp_ret.
Qed.
End Operations.

Lemma history_restored ops own w :
  fault_free w → restored own (w_st w) → careful visit parse_rfc3339 ops w = true →
  restored (chosen visit parse_rfc3339 own ops w) (w_st (history visit parse_rfc3339 ops w)).
Proof.
  revert own w. induction ops as [|o ops IH]; intros own w Hff H; [done|]. cbn. intros [Hc Hcs]%andb_true_iff.
  destruct (wp_perform own o w Hff H Hc) as [H' E']. apply IH; [by eapply fault_free_env|done|done].
Qed.

Lemma restored_empty s :
  db_components s = [] → db_windows s = [] → db_window_components s = [] → restored (λ _, None) s.
Proof.
  intros Hc Hw Hl. split; [split|..]; rewrite ?Hc, ?Hw, ?Hl; try done; try constructor.
  - by intros ?? ?%elem_of_nil.
  - intros c. by rewrite Hc, elem_of_nil.
Qed.
End History.
