(* ===== verification/StatusIncidents.v ===== *)
(** * Status page: incidents follow the alerts

    What an alert of a monitor does to the incidents of the components that
    aggregate it. *)

From S2P Require Import Prelude.
From S2P Require Import Tables.
From S2P Require Import AlertModel.
From S2P Require Import Container.
From S2P Require Import Status.
From S2P Require Import StatusService.
From S2P Require Import StatusMaintenance.

#[local] Open Scope string_scope.
#[local] Open Scope list_scope.
#[local] Open Scope Z_scope.

(** The open incidents that name a component, in the order of the table. *)
Definition names_component (componentID : string) (s : page) (i : Incident) : bool :=
  is_open i && bool_decide ((in_ID i, componentID) ∈ db_incident_components s).

Definition naming (componentID : string) (s : page) : list string :=
  in_ID <$> select_where (names_component componentID s) (db_incidents s).

Lemma naming_elem c s id :
  id ∈ naming c s ↔ ∃ i, i ∈ db_incidents s ∧ in_ID i = id ∧ is_open i = true ∧ (id, c) ∈ db_incident_components s.
Proof.
  unfold naming, names_component. rewrite list_elem_of_fmap. setoid_rewrite select_where_elem.
  setoid_rewrite andb_true_iff. setoid_rewrite bool_decide_eq_true. naive_solver.
Qed.

Lemma open_incidents_elem c s i : i ∈ open_incidents c s ↔ i ∈ db_incidents s ∧ names_component c s i = true.
Proof. unfold open_incidents. rewrite stable_sort_Permutation. apply select_where_elem. Qed.

Lemma open_incidents_nil c s : head (open_incidents c s) = None → naming c s = [].
Proof.
  intros H. assert (open_incidents c s = []) as Hn by (by destruct (open_incidents c s)).
  unfold open_incidents in Hn. pose proof (stable_sort_Permutation (by_key (λ i, - in_CreatedAt i))
    (select_where (λ i, is_open i && bool_decide ((in_ID i, c) ∈ db_incident_components s)) (db_incidents s))) as Hp.
  rewrite Hn in Hp. apply Permutation_nil_l in Hp. unfold naming, names_component. by rewrite <- Hp.
Qed.

(** Everything the status of a component is derived from. *)
Definition settled (s s' : page) : Prop :=
  db_components s' = db_components s ∧ db_monitors s' = db_monitors s
  ∧ pg_status s' = pg_status s ∧ pg_population s' = pg_population s.

#[export] Instance settled_preorder : PreOrder settled.
Proof. split; unfold settled; [done|]. intros ??? (?&?&?&?) (?&?&?&?). split_and!; congruence. Qed.

Lemma settled_status s s' c : settled s s' → DeriveComponentStatus s' c = DeriveComponentStatus s c.
Proof. intros (_ & _ & H3 & H4). unfold DeriveComponentStatus, monitor_status, monitor_population. by rewrite H3, H4. Qed.

(** The incidents and what they name. *)
Definition same_incidents (s s' : page) : Prop :=
  settled s s' ∧ db_incidents s' = db_incidents s ∧ db_incident_components s' = db_incident_components s.

#[export] Instance same_incidents_preorder : PreOrder same_incidents.
Proof. split; unfold same_incidents; [done|]. intros ??? (?&?&?) (?&?&?). split_and!; [by etransitivity|congruence..]. Qed.

Lemma same_incidents_naming c s s' : same_incidents s s' → naming c s' = naming c s.
Proof. intros (_ & H1 & H2). unfold naming, names_component. by rewrite H1, H2. Qed.

Section Incidents.
Context `{Licence : !PageLicense}.

(** ** Announcements *)

(** What announces: no table changes. *)
Record aside (w w' : world page) : Prop := {
  as_incidents : same_incidents (w_st w) (w_st w');
  as_updates : db_updates (w_st w') = db_updates (w_st w);
  as_env : w_env w' = w_env w;
  as_tick : (w_tick w ≤ w_tick w')%nat;
}.

#[export] Instance aside_preorder : PreOrder aside.
Proof. split; [by intros w|]. intros ??? [] []. split; [by etransitivity|congruence..|lia]. Qed.

Lemma aside_same w w' : same w w' → aside w w'.
Proof. intros (H1 & H2 & H3). split; rewrite ?H1; done. Qed.

Definition announces {A} (m : M page A) : Prop := ∀ w, wp m (λ _, aside w) w.

Lemma announces_bind {A B} (m : M page A) (k : A → M page B) : announces m → (∀ a, announces (k a)) → announces (bind m k).
Proof.
  intros Hm Hk w. apply wp_bind. eapply wp_mono; [apply Hm|]. cbn. intros a w1 H1. eapply wp_mono; [apply Hk|]. cbn.
  intros _ w2 H2. by etransitivity.
Qed.
Lemma announces_modify f : (∀ s, same_incidents s (f s) ∧ db_updates (f s) = db_updates s) → announces (modify f).
Proof. intros Hf w. apply wp_modify. destruct (Hf (w_st w)). by split. Qed.
Lemma announces_broadcast p : announces (st_Broadcast p).
Proof. by apply announces_bind; [|intros _]; apply announces_modify. Qed.
Lemma announces_notify subject message : announces (NotifySubscribers subject message).
Proof.
  apply announces_bind.
  - intros w. apply wp_consult. intros w' H _. by apply aside_same.
  - intros []; [by apply announces_modify|]. by intros w; apply wp_ret.
Qed.
Lemma announces_incident inc message : announces (AnnounceIncident inc message).
Proof.
  apply announces_bind; [|intros _; apply announces_notify]. by apply announces_bind; [|intros _]; apply announces_modify.
Qed.
Lemma announces_incident_update inc upd : announces (AnnounceIncidentUpdate inc upd).
Proof.
  unfold AnnounceIncidentUpdate. destruct (_ && _); (apply announces_bind; [apply announces_broadcast|intros _; apply announces_notify]).
Qed.

(** ** The statements *)

(** Identifiers never drawn twice nor in use. *)
Record unused (w : world page) : Prop := {
  un_inj : ∀ n m, env_uid (w_env w) n = env_uid (w_env w) m → n = m;
  un_incidents : ∀ n, (w_tick w ≤ n)%nat → env_uid (w_env w) n ∉ table_ids (db_incidents (w_st w));
  un_updates : ∀ n, (w_tick w ≤ n)%nat → env_uid (w_env w) n ∉ table_ids (db_updates (w_st w));
}.

(** The state an event finds, and leaves to the next component. *)
Record ready (w : world page) : Prop := {
  rd_fault : fault_free w;
  rd_ids : NoDup (table_ids (db_incidents (w_st w)));
  rd_links : ∀ i c, (i, c) ∈ db_incident_components (w_st w) → i ∈ table_ids (db_incidents (w_st w));
  rd_unused : unused w;
}.

Lemma ready_aside w w' : aside w w' → ready w → ready w'.
Proof.
  intros [(_ & H1 & Hl) H2 H3 H4] [R1 R2 R3 [U1 U2 U3]]. split; [by eapply fault_free_env|by rewrite H1|by rewrite H1, Hl|].
  split; rewrite ?H1, ?H2, ?H3; [done|intros; apply U2; lia|intros; apply U3; lia].
Qed.

Lemma wp_get_incident id (Q : result (option Incident) → world page → Prop) w :
  fault_free w →
  (∀ o w', aside w w' → (o = None → select_id id (db_incidents (w_st w)) = None) →
    (∀ i, o = Some i → ∃ r, r ∈ db_incidents (w_st w) ∧ in_ID r = id ∧ in_ID i = id ∧ in_Status i = in_Status r) → Q (Ok o) w') →
  wp (GetIncident id) Q w.
Proof.
  intros Hff HQ. apply wp_bind, wp_db_query; [by intros ? _ []|]. intros w1 H1.
  destruct (select_id id (db_incidents (w_st w))) as [r|] eqn:Er; [|by apply wp_ret, HQ; [apply aside_same| |done]].
  apply select_id_Some in Er as [Hr Hid]. apply wp_bind, wp_bind, wp_db_query; [intros ? _ []; by eapply fault_free_env; [apply H1|]|].
  intros w2 H2. apply wp_bind, wp_db_query; [intros ? _ []; eapply (fault_free_env w); [|done]; destruct H1 as (_ & H1 & _), H2 as (_ & H2 & _); congruence|].
  intros w3 H3. apply wp_ret, wp_ret, HQ; [|done|].
  - etransitivity; [by apply aside_same|]. etransitivity; by apply aside_same.
  - intros i [= <-]. by exists r.
Qed.

(** The newest open incident of the component. *)
Lemma wp_get_active c (Q : result (option Incident) → world page → Prop) w :
  ready w →
  (∀ o w', aside w w' → in_ID <$> o = in_ID <$> head (open_incidents c (w_st w)) →
    (∀ i, o = Some i → in_ID i ∈ naming c (w_st w) ∧ in_Status i ≠ IncidentResolved) → Q (Ok o) w') →
  wp (GetActiveIncidentByComponent c) Q w.
Proof.
  intros [Hff Hnd _ _] HQ. apply wp_bind, wp_db_query; [by intros ? _ []|]. intros w1 H1.
  destruct (head (open_incidents c (w_st w))) as [i0|] eqn:Eh; cbn; [|by apply wp_ret, HQ; [apply aside_same| |done]].
  assert (i0 ∈ open_incidents c (w_st w)) as Hi by (by apply head_Some_elem_of).
  apply open_incidents_elem in Hi as [Hin Hopen].
  apply wp_get_incident; [by eapply fault_free_env; [apply H1|]|]. intros o w2 A2 Hn Hs. rewrite (proj1 H1) in Hn, Hs.
  destruct o as [i|].
  - destruct (Hs i eq_refl) as (r & Hr & Hrid & Hiid & Hst).
    assert (r = i0) as ->.
    { pose proof (select_id_elem _ _ Hnd Hin) as E1. pose proof (select_id_elem _ _ Hnd Hr) as E2.
      unfold row_id, Incident_id in *. rewrite Hrid, E1 in E2. by injection E2. }
    apply HQ; [etransitivity; [by apply aside_same|done]|cbn; congruence|]. intros ? [= <-].
    unfold names_component, is_open in Hopen. apply andb_true_iff in Hopen as [Ho%negb_true_iff%bool_decide_eq_false Hl%bool_decide_eq_true].
    split; [|congruence]. apply naming_elem. exists i0. split_and!; [done..| |congruence].
    unfold is_open. by apply negb_true_iff, bool_decide_eq_false.
  - exfalso. specialize (Hn eq_refl). apply select_id_None in Hn. apply Hn. by apply (list_elem_of_fmap_2 in_ID).
Qed.

(** An update is posted to an incident. *)
Record posted_to (id st : string) (w w' : world page) : Prop := {
  pt_ready : ready w';
  pt_settled : settled (w_st w) (w_st w');
  pt_links : db_incident_components (w_st w') = db_incident_components (w_st w);
  pt_rows : ∃ u t, iu_Status u = st ∧ db_incidents (w_st w') = update_id id (posted u t) (db_incidents (w_st w));
  pt_env : w_env w' = w_env w;
}.

Lemma wp_create_update id st message auto (Q : result IncidentUpdate → world page → Prop) w :
  ready w → id ∈ table_ids (db_incidents (w_st w)) →
  (∀ u w', posted_to id st w w' → Q (Ok u) w') → wp (CreateUpdate id st message auto) Q w.
Proof.
  intros [Hff Hnd Hlk Hun] Hid HQ. apply wp_bind, wp_now. intros w1 (S1 & E1 & T1). apply wp_bind, wp_new_uid. intros w2 (S2 & E2 & T2) T2'.
  rewrite S1 in S2. rewrite E1 in E2. apply wp_bind. unfold insert_update. apply wp_bind, wp_gets. rewrite S2. unfold incident_exists.
  change (iu_IncidentID _) with id. rewrite (bool_decide_eq_true_2 (id ∈ _)) by done. destruct Hun as [U1 U2 U3].
  apply wp_db_insert.
  { intros w3 _ Hin. exfalso. rewrite S2 in Hin. eapply U3; [|rewrite <- E1; apply Hin; by eapply fault_free_env]. lia. }
  intros w3 Hfresh (S3 & E3 & T3). rewrite S2 in S3. apply wp_bind, wp_db_exec.
  { intros ? _ []. eapply (fault_free_env w); [|done]. congruence. }
  intros w4 (S4 & E4 & T4). apply wp_ret, HQ. rewrite S3 in S4. cbn in S4. split; rewrite ?S4; cbn.
  - split; [eapply (fault_free_env w); [congruence|done]|rewrite S4; cbn; by rewrite update_id_ids|rewrite S4; cbn; by rewrite update_id_ids|]. split.
    + intros n m. rewrite E4, E3, E2. apply U1.
    + intros n Hn. rewrite S4, E4, E3, E2. cbn. rewrite update_id_ids by done. apply U2. lia.
    + intros n Hn. rewrite S4, E4, E3, E2. cbn. unfold table_ids in *. rewrite fmap_app, elem_of_app. intros [Hin|Hin%list_elem_of_singleton].
      * eapply U3; [|exact Hin]. lia.
      * unfold row_id, IncidentUpdate_id in Hin. cbn in Hin. rewrite E1 in Hin. apply U1 in Hin. lia.
  - done.
  - done.
  - eexists _, _. split; [|done]. done.
  - congruence.
Qed.

(** Rows rewritten in place, and those a condition keeps. *)
Lemma kept_ids (p p' : Incident → bool) (q : string → bool) f l :
  (∀ r, r ∈ l → in_ID (f r) = in_ID r ∧ p' (f r) = p r && q (in_ID r)) →
  in_ID <$> select_where p' (f <$> l) = filter (λ x, q x = true) (in_ID <$> select_where p l).
Proof.
  unfold select_where. induction l as [|r l IH]; intros H; [done|]. destruct (H r) as [Hid Hp]; [by left|].
  rewrite fmap_cons, !filter_cons, Hp. assert (∀ x, x ∈ l → in_ID (f x) = in_ID x ∧ p' (f x) = p x && q (in_ID x)) as H' by (intros; apply H; by right).
  specialize (IH H'). destruct (p r); cbn [andb].
  - rewrite (decide_True (P := true = true)) by done. rewrite fmap_cons, filter_cons.
    destruct (decide (q (in_ID r) = true)); [|exact IH]. rewrite fmap_cons, Hid. by f_equal.
  - by rewrite !decide_False.
Qed.

Lemma filter_all (l : list string) : filter (λ x, true = true) l = l.
Proof. apply list_filter_all. done. Qed.

Lemma naming_posted c id st w w' :
  posted_to id st w w' → st ≠ IncidentResolved → (∀ r, r ∈ db_incidents (w_st w) → in_ID r = id → is_open r = true) →
  naming c (w_st w') = naming c (w_st w).
Proof.
  intros [_ _ Hl (u & t & Hu & Hrows) _] Hst Hopen. unfold naming. rewrite Hrows. unfold update_id, update_where.
  rewrite (kept_ids (names_component c (w_st w)) _ (λ _, true)); [apply filter_all|]. intros r Hr. split; [by case_match|].
  unfold names_component. rewrite Hl, andb_true_r. case_bool_decide as Hid; [|done]. rewrite (Hopen r) by done. unfold is_open. cbn.
  rewrite Hu. by rewrite bool_decide_eq_false_2.
Qed.

Lemma naming_resolved c id w w' :
  posted_to id IncidentResolved w w' →
  naming c (w_st w') = filter (λ x, negb (bool_decide (x = id)) = true) (naming c (w_st w)).
Proof.
  intros [_ _ Hl (u & t & Hu & Hrows) _]. unfold naming. rewrite Hrows. unfold update_id, update_where.
  apply kept_ids. intros r Hr. split; [by case_match|].
  unfold names_component. rewrite Hl. change (row_id r) with (in_ID r). case_bool_decide as Hid; cbn [negb]; [|by rewrite andb_true_r].
  rewrite andb_false_r. unfold is_open. cbn. by rewrite Hu.
Qed.

(** A new incident of one component. *)
Record opened (c : string) (w w' : world page) : Prop := {
  op_ready : ready w';
  op_settled : settled (w_st w) (w_st w');
  op_new : ∃ id, (id ∉ table_ids (db_incidents (w_st w))) ∧ (naming c (w_st w') = naming c (w_st w) ++ [id]);
  op_others : ∀ c', c' ≠ c → naming c' (w_st w') = naming c' (w_st w);
  op_env : w_env w' = w_env w;
}.

Lemma naming_new c c' i s s' :
  is_open i = true → in_ID i ∉ table_ids (db_incidents s) → (∀ x, (in_ID i, x) ∉ db_incident_components s) →
  db_incidents s' = db_incidents s ++ [i] → db_incident_components s' = db_incident_components s ++ [(in_ID i, c)] →
  naming c' s' = naming c' s ++ (if bool_decide (c' = c) then [in_ID i] else []).
Proof.
  intros Hopen Hnew Hno Hi Hl. unfold naming. rewrite Hi, select_where_snoc, fmap_app. f_equal.
  - rewrite <- (list_fmap_id (db_incidents s)) at 1. rewrite (kept_ids (names_component c' s) _ (λ _, true)); [apply filter_all|].
    intros r Hr. split; [done|]. cbn. unfold names_component. rewrite Hl, andb_true_r. f_equal. apply bool_decide_ext.
    rewrite elem_of_app, list_elem_of_singleton. split; [|tauto]. intros [?|[= He _]]; [done|]. exfalso. apply Hnew.
    rewrite <- He. by apply (list_elem_of_fmap_2 in_ID).
  - unfold names_component. rewrite Hopen, Hl. cbn. case_bool_decide as H1; case_bool_decide as H2; try done.
    + apply elem_of_app in H1 as [H1|[= H1]%list_elem_of_singleton]; [by apply Hno in H1|done].
    + destruct H1. subst c'. apply elem_of_app. right. by apply list_elem_of_singleton.
Qed.

Lemma wp_create_incident i c message (Q : result Incident → world page → Prop) w :
  ready w → c ∈ table_ids (db_components (w_st w)) → in_Status i ≠ IncidentResolved →
  (∀ i' w', opened c w w' → Q (Ok i') w') → wp (CreateIncident i [c] message) Q w.
Proof.
  intros [Hff Hnd Hlk [U1 U2 U3]] Hc Hst HQ. unfold CreateIncident. apply wp_bind, wp_now. intros w1 (S1 & E1 & T1).
  apply wp_bind, wp_new_uid. intros w2 (S2 & E2 & T2) T2'. set (id := env_uid _ _) in *. rewrite S1 in S2. rewrite E1 in E2.
  assert (id ∉ table_ids (db_incidents (w_st w))) as Hid by (unfold id; rewrite E1; apply U2; lia).
  cbv zeta. match goal with |- context [db_insert db_incidents _ ?x] => set (row := x) end.
  apply wp_bind, wp_db_insert.
  { intros w3 _ Hin. destruct Hid. rewrite <- S2. apply Hin. by eapply fault_free_env. }
  intros w3 _ (S3 & E3 & T3). rewrite S2 in S3. assert (fault_free w3) as Hff3 by (eapply (fault_free_env w); [congruence|done]).
  apply wp_bind. cbn [for_ok]. apply wp_bind, wp_db_link.
  { intros w4 _ Hfail. exfalso. specialize (Hfail Hff3). rewrite S3 in Hfail. cbn in Hfail. apply orb_true_iff in Hfail as [Hf|Hf].
    - apply negb_true_iff, andb_false_iff in Hf as [Hf|Hf]; apply bool_decide_eq_false in Hf; [|done]. apply Hf. cbn.
      unfold table_ids. rewrite fmap_app, elem_of_app. right. by left.
    - apply existsb_exists in Hf as (l & Hl%list_elem_of_In & Heq%bool_decide_eq_true). subst l. by apply Hlk in Hl. }
  intros w4 _ _ (S4 & E4 & T4). apply wp_ret.
  assert (∀ x, (id, x) ∉ db_incident_components (w_st w)) as Hno by (intros x Hx; by apply Hlk in Hx).
  assert (opened c w w4 ∧ id ∈ table_ids (db_incidents (w_st w4)) ∧ (w_tick w4 > w_tick w)%nat ∧ (w_tick w4 > w_tick w1)%nat) as (Ho & Hid4 & Htick & Htick1).
  { rewrite S3 in S4. cbn in S4.
    assert (∀ c', naming c' (w_st w4) = naming c' (w_st w) ++ (if bool_decide (c' = c) then [id] else [])) as Hn.
    { intros c'. apply (naming_new c c' row); [by apply negb_true_iff, bool_decide_eq_false|done|done|by rewrite S4..]. }
    split_and!; [|rewrite S4; cbn; unfold table_ids; rewrite fmap_app, elem_of_app; right; by left|lia|lia]. split.
    - split; [eapply (fault_free_env w); [congruence|done]|..]; rewrite ?S4; cbn.
      + unfold table_ids. rewrite fmap_app. apply NoDup_app. split; [done|]. split; [|apply NoDup_singleton].
        intros x Hx [= ->]%list_elem_of_singleton. done.
      + intros i0 c0 [Hin|[= -> ->]%list_elem_of_singleton]%elem_of_app; unfold table_ids; rewrite fmap_app, elem_of_app; [left; by eapply Hlk|right; by left].
      + split; rewrite ?S4, ?E4, ?E3, ?E2; cbn; [done| |intros n Hn'; apply U3; lia].
        intros n Hn'. unfold table_ids. rewrite fmap_app, elem_of_app. intros [Hin|Hin%list_elem_of_singleton]; [eapply U2; [|exact Hin]; lia|].
        change (env_uid (w_env w) n = id) in Hin. unfold id in Hin. rewrite E1 in Hin. apply U1 in Hin. lia.
    - by rewrite S4.
    - exists id. split; [done|]. by rewrite Hn, bool_decide_eq_true_2.
    - intros c' Hne. by rewrite Hn, bool_decide_eq_false_2, app_nil_r.
    - congruence. }
  destruct Ho as [[R1 R2 R3 [V1 V2 V3]] O2 O3 O4 O5]. clear S3 S4. case_bool_decide.
  { by apply wp_ret, HQ. }
  apply wp_bind, wp_new_uid. intros w5 (S5 & E5 & T5) T5'. apply wp_bind. unfold insert_update. apply wp_bind, wp_gets.
  unfold incident_exists. change (iu_IncidentID _) with id. rewrite S5, (bool_decide_eq_true_2 (id ∈ _)) by done.
  apply wp_db_insert.
  { intros w6 _ Hin. exfalso. rewrite S5 in Hin. eapply V3; [|apply Hin; by eapply fault_free_env]. lia. }
  intros w6 _ (S6 & E6 & T6). rewrite S5 in S6. apply wp_ret, HQ. split; rewrite ?S6; cbn; [|done..|congruence].
  split; [eapply (fault_free_env w); [congruence|done]|by rewrite S6..|]. split; rewrite ?S6, ?E6, ?E5; cbn; [done|intros; apply V2; lia|].
  intros n Hn. unfold table_ids. rewrite fmap_app, elem_of_app. intros [Hin|Hin%list_elem_of_singleton].
  - eapply V3; [|exact Hin]. lia.
  - change (env_uid (w_env w4) n = env_uid (w_env w4) (w_tick w4)) in Hin. apply V1 in Hin. lia.
Qed.

(** ** One component *)

Definition operational (s : page) (comp : Component) : bool :=
  bool_decide (DeriveComponentStatus s comp = StatusOperational).

(** What an alert does to the open incidents: the newest one of a component
    closes when it is operational again, one opens when a visible component that
    had none is not, and nothing else changes. *)
Definition follows (evt : Event) (comp : Component) (s s' : page) : Prop :=
  let same := ∀ c, naming c s' = naming c s in
  if bool_decide (is_Some (cp_StatusOverride comp)) then same
  else if ev_IsRecover evt && operational s comp then
    match head (open_incidents (cp_ID comp) s) with
    | Some i => ∀ c, naming c s' = filter (λ x, negb (bool_decide (x = in_ID i)) = true) (naming c s)
    | None => same
    end
  else if negb (operational s comp) && cp_Visible comp && bool_decide (naming (cp_ID comp) s = []) then
    (∃ id, (id ∉ table_ids (db_incidents s)) ∧ naming (cp_ID comp) s' = [id])
    ∧ ∀ c, c ≠ cp_ID comp → naming c s' = naming c s
  else same.

Record handled (w w' : world page) : Prop := {
  hd_ready : ready w';
  hd_settled : settled (w_st w) (w_st w');
  hd_env : w_env w' = w_env w;
}.

Lemma handled_aside w w1 w2 : handled w w1 → aside w1 w2 → handled w w2.
Proof.
  intros [H1 H2 H3] H. split; [by eapply ready_aside|etransitivity; [done|apply H]|]. rewrite <- H3. apply H.
Qed.

Lemma aside_naming c w w' : aside w w' → naming c (w_st w') = naming c (w_st w).
Proof. intros []. by apply same_incidents_naming. Qed.

(** An announcement after a step. *)
Lemma wp_then_announce {A} (m : M page A) (w w1 : world page) (P : page → Prop) :
  announces m → handled w w1 → P (w_st w1) → (∀ s s', same_incidents s s' → P s → P s') →
  wp m (λ _ w', handled w w' ∧ P (w_st w')) w1.
Proof.
  intros Hm H HP Hext. eapply wp_mono; [apply Hm|]. cbn. intros _ w2 H2. split; [by eapply handled_aside|].
  eapply Hext; [apply H2|done].
Qed.

Lemma wp_handle_alert evt comp w :
  ready w → cp_ID comp ∈ table_ids (db_components (w_st w)) →
  wp (handleAlertForComponent evt comp) (λ _ w', handled w w' ∧ follows evt comp (w_st w) (w_st w')) w.
Proof.
  intros Hr Hc. unfold handleAlertForComponent. apply wp_bind, wp_gets. set (s := w_st w) in *.
  change (bool_decide (DeriveComponentStatus s comp = StatusOperational)) with (operational s comp).
  apply wp_bind, wp_get_active; [done|]. intros o w1 A1 Ho Hopen. fold s in Ho, Hopen.
  assert (ready w1) as Hr1 by (by eapply ready_aside). assert (handled w w1) as H1 by (split; [done|apply A1..]).
  assert (∀ c, naming c (w_st w1) = naming c s) as N1 by (intros; by apply aside_naming).
  assert (same_incidents s (w_st w1)) as I1 by apply A1. unfold follows.
  destruct (cp_StatusOverride comp) as [v|]; [by apply wp_ret|]. rewrite (bool_decide_eq_false_2 (is_Some None)) by (by intros []).
  destruct (ev_IsRecover evt && negb (negb (operational s comp))) eqn:Erec; rewrite negb_involutive in Erec; rewrite Erec.
  - destruct o as [i|], (head (open_incidents (cp_ID comp) s)) as [i0|]; [|done..|by apply wp_ret]. injection Ho as Ho. cbn [resolve_auto].
    destruct (Hopen i eq_refl) as [Hin _]. rewrite Ho in Hin |- *.
    apply wp_bind, wp_create_update; [done| |].
    { rewrite (proj1 (proj2 I1)). apply naming_elem in Hin as (r & Hr' & <- & _). by apply (list_elem_of_fmap_2 in_ID). }
    intros u w2 P2. apply (wp_then_announce _ w w2 (λ s', ∀ c, naming c s' = _)).
    + apply announces_incident_update.
    + destruct P2, H1. split; [done|by etransitivity|congruence].
    + intros c. rewrite (naming_resolved _ _ _ _ P2). by rewrite N1.
    + intros s1 s2 Hs Hn c. rewrite <- Hn. by apply same_incidents_naming.
  - destruct (operational s comp); cbn [negb orb andb]; [by apply wp_ret|]. destruct (cp_Visible comp); cbn; [|by apply wp_ret].
    destruct o as [i|], (head (open_incidents (cp_ID comp) s)) as [i0|] eqn:Eh; try done; cbn [open_auto].
    + destruct (Hopen i eq_refl) as [Hin Hst]. rewrite (bool_decide_eq_false_2 (naming _ _ = [])).
      2: { intros Hn. rewrite Hn in Hin. by apply elem_of_nil in Hin. }
      apply naming_elem in Hin as (r & Hrin & Hrid & Hro & _). apply wp_bind, wp_create_update; [done| |].
      { rewrite (proj1 (proj2 I1)), <- Hrid. by apply (list_elem_of_fmap_2 in_ID). }
      intros u w2 P2. apply (wp_then_announce _ w w2 (λ s', ∀ c, naming c s' = naming c s)).
      * apply announces_broadcast.
      * destruct P2, H1. split; [done|by etransitivity|congruence].
      * intros c. rewrite (naming_posted _ _ _ _ _ P2); [by apply N1|done|]. intros r' Hr' Hid.
        rewrite (proj1 (proj2 I1)) in Hr'. pose proof (rd_ids _ Hr) as Hnd.
        pose proof (select_id_elem _ _ Hnd Hrin) as X1. pose proof (select_id_elem _ _ Hnd Hr') as X2.
        unfold row_id, Incident_id in *. rewrite Hid, <- Hrid, X1 in X2. by injection X2 as <-.
      * intros s1 s2 Hs Hn c. rewrite <- Hn. by apply same_incidents_naming.
    + pose proof (open_incidents_nil _ _ Eh) as Hnil. rewrite (bool_decide_eq_true_2 (naming _ _ = [])) by done.
      apply wp_bind, wp_create_incident; [done|by rewrite (proj1 (proj1 I1))|done|]. intros i' w2 P2.
      apply (wp_then_announce _ w w2 (λ s', (∃ id, (id ∉ table_ids (db_incidents s)) ∧ naming (cp_ID comp) s' = [id])
        ∧ ∀ c, c ≠ cp_ID comp → naming c s' = naming c s)).
      * apply announces_incident.
      * destruct P2, H1. split; [done|by etransitivity|congruence].
      * destruct P2 as [_ _ (id & Hid & Hn) Hoth _]. rewrite (proj1 (proj2 I1)) in Hid. split.
        -- exists id. split; [done|]. by rewrite Hn, N1, Hnil.
        -- intros c Hne. by rewrite Hoth, N1.
      * intros s1 s2 Hs [(id & Hid & Hn) Hoth]. split.
        -- exists id. split; [done|]. rewrite <- Hn. by apply same_incidents_naming.
        -- intros c Hne. rewrite <- Hoth by done. by apply same_incidents_naming.
Qed.

(** ** An event *)

(** No open incident names two components. *)
Definition alone (s : page) : Prop := ∀ i c c', i ∈ naming c s → i ∈ naming c' s → c = c'.

Lemma alone_naming s s' : (∀ c, naming c s' = naming c s) → alone s → alone s'.
Proof. intros H Ha i c c'. rewrite !H. apply Ha. Qed.

Lemma follows_alone evt comp s s' :
  follows evt comp s s' → alone s → alone s' ∧ ∀ c, c ≠ cp_ID comp → naming c s' = naming c s.
Proof.
  intros Hf Ha. unfold follows in Hf. case_match; [split; [by eapply alone_naming|done]|]. case_match.
  - destruct (head (open_incidents (cp_ID comp) s)) as [i|] eqn:Eh; [|split; [by eapply alone_naming|done]].
    apply head_Some_elem_of, open_incidents_elem in Eh as [Hi Hn]. split.
    + intros x c c'. rewrite !Hf, !list_elem_of_filter. intros [_ H1] [_ H2]. by eapply Ha.
    + intros c Hne. rewrite Hf. apply list_filter_all. intros x Hx. apply negb_true_iff, bool_decide_eq_false. intros ->.
      apply Hne. eapply Ha; [exact Hx|]. apply naming_elem. exists i. unfold names_component in Hn.
      apply andb_true_iff in Hn as [Ho Hl%bool_decide_eq_true]. done.
  - case_match; [|split; [by eapply alone_naming|done]]. destruct Hf as [(id & Hid & Hn) Hoth]. split; [|done].
    assert (∀ c, id ∉ naming c s) as Hfresh.
    { intros c (r & Hr & Hrid & _)%naming_elem. apply Hid. rewrite <- Hrid. by apply (list_elem_of_fmap_2 in_ID). }
    intros x c c'. destruct (decide (c = cp_ID comp)) as [->|Hc], (decide (c' = cp_ID comp)) as [->|Hc']; [done|..].
    + rewrite Hn, Hoth by done. intros ->%list_elem_of_singleton Hx. by apply Hfresh in Hx.
    + rewrite Hn, Hoth by done. intros Hx ->%list_elem_of_singleton. by apply Hfresh in Hx.
    + rewrite !Hoth by done. apply Ha.
Qed.

(** The open incidents of a component the alert concerns, before and after it. *)
Definition tracked (evt : Event) (s : page) (comp : Component) (before after : list string) : Prop :=
  (operational s comp = false → cp_Visible comp = true → after ≠ [])
  ∧ (operational s comp = true → ev_IsRecover evt = true → (length before ≤ 1)%nat → after = [])
  ∧ (operational s comp = true → ev_IsRecover evt = false → after = before).

Lemma follows_tracked evt comp s s' :
  follows evt comp s s' → cp_StatusOverride comp = None → tracked evt s comp (naming (cp_ID comp) s) (naming (cp_ID comp) s').
Proof.
  unfold follows. intros Hf Ho. rewrite Ho in Hf. rewrite (bool_decide_eq_false_2 (is_Some None)) in Hf by (by intros []).
  unfold tracked. destruct (operational s comp) eqn:Eop; cbn [negb andb] in Hf; rewrite ?andb_true_r, ?andb_false_r in Hf.
  - split_and!; [done|..]; intros _ Hrec; rewrite Hrec in Hf; [|by apply Hf]. intros Hlen.
    destruct (head (open_incidents (cp_ID comp) s)) as [i|] eqn:Eh; rewrite Hf; [|by apply open_incidents_nil].
    apply head_Some_elem_of, open_incidents_elem in Eh as [Hi Hn].
    assert (in_ID i ∈ naming (cp_ID comp) s) as Hin.
    { unfold naming. apply list_elem_of_fmap. exists i. split; [done|]. by apply select_where_elem. }
    destruct (naming (cp_ID comp) s) as [|x [|y l]]; [done| |cbn in Hlen; lia].
    apply list_elem_of_singleton in Hin as <-. rewrite filter_cons, decide_False; [done|]. by rewrite bool_decide_eq_true_2.
  - split_and!; [|done..]. intros _ Hv. rewrite Hv in Hf. case_bool_decide as Hn.
    + destruct Hf as [(id & _ & ->) _]. done.
    + by rewrite Hf.
Qed.

Lemma tracked_settled evt s s' comp n n' : settled s s' → tracked evt s' comp n n' → tracked evt s comp n n'.
Proof. intros H. unfold tracked, operational. by rewrite (settled_status _ _ _ H). Qed.

(** The loop over the components. *)
Lemma wp_alert_loop evt comps w :
  ready w → alone (w_st w) → NoDup (cp_ID <$> comps) →
  (∀ c, c ∈ comps → cp_ID c ∈ table_ids (db_components (w_st w))) →
  wp (for_each comps (λ comp, if cp_AutoIncident comp then handleAlertForComponent evt comp else ret tt))
    (λ _ w', handled w w' ∧ (∀ c, c ∉ cp_ID <$> comps → naming c (w_st w') = naming c (w_st w))
      ∧ ∀ c, c ∈ comps → cp_AutoIncident c = true → cp_StatusOverride c = None →
        tracked evt (w_st w) c (naming (cp_ID c) (w_st w)) (naming (cp_ID c) (w_st w'))) w.
Proof.
  revert w. induction comps as [|comp comps IH]; intros w Hr Ha Hnd Hin.
  { apply wp_ret. split; [by split|]. split; [done|]. by intros c ?%elem_of_nil. }
  apply NoDup_cons in Hnd as [Hnew Hnd]. apply wp_bind.
  apply wp_mono with (P := λ _ w1, handled w w1 ∧ alone (w_st w1)
    ∧ (∀ c, c ≠ cp_ID comp → naming c (w_st w1) = naming c (w_st w))
    ∧ (cp_AutoIncident comp = true → cp_StatusOverride comp = None →
       tracked evt (w_st w) comp (naming (cp_ID comp) (w_st w)) (naming (cp_ID comp) (w_st w1)))).
  { destruct (cp_AutoIncident comp); [|by apply wp_ret]. eapply wp_mono; [apply wp_handle_alert; [done|apply Hin; by left]|].
    cbn. intros _ w1 [H1 Hf]. destruct (follows_alone _ _ _ _ Hf Ha) as [Ha1 Ho1]. split_and!; [done..|].
    intros _ Hov. by apply follows_tracked. }
  cbn beta. intros _ w1 (H1 & Ha1 & Ho1 & Ht1). eapply wp_mono; [apply IH|].
  - apply H1.
  - done.
  - done.
  - intros c Hc. rewrite (proj1 (hd_settled _ _ H1)). apply Hin. by right.
  - cbn beta. intros _ w2 ([R2 S2 E2] & Ho2 & Ht2). split_and!.
    + destruct H1. split; [done|by etransitivity|congruence].
    + intros c Hc. rewrite fmap_cons, not_elem_of_cons in Hc. destruct Hc as [Hc1 Hc2]. by rewrite Ho2, Ho1.
    + intros c [->|Hc]%elem_of_cons Hauto Hov; [rewrite Ho2 by done; by apply Ht1|].
      rewrite <- (Ho1 (cp_ID c)); [eapply tracked_settled; [apply H1|by apply Ht2]|].
      intros He. apply Hnew. rewrite <- He. by apply list_elem_of_fmap_2.
Qed.

Lemma wp_alert_event evt w :
  ready w → alone (w_st w) → NoDup (table_ids (db_components (w_st w))) →
  wp (st_HandleAlertEvent evt) (λ _ w', ∀ c, c ∈ db_components (w_st w) →
    lists_monitor (w_st w) (ev_EntityType evt) (ev_EntityID evt) c = true → cp_AutoIncident c = true → cp_StatusOverride c = None →
    tracked evt (w_st w) (with_monitors (w_st w) c) (naming (cp_ID c) (w_st w)) (naming (cp_ID c) (w_st w'))) w.
Proof.
  intros Hr Ha Hnd. apply wp_bind, wp_components; [apply Hr|]. intros w1 H1.
  set (rows := merge_sort by_order_id (select_where (lists_monitor (w_st w) (ev_EntityType evt) (ev_EntityID evt)) (db_components (w_st w)))).
  assert (Hperm : rows ≡ₚ select_where (lists_monitor (w_st w) (ev_EntityType evt) (ev_EntityID evt)) (db_components (w_st w)))
    by apply merge_sort_Permutation.
  assert (Hids : cp_ID <$> (with_monitors (w_st w) <$> rows) = cp_ID <$> rows) by (rewrite <- list_fmap_compose; done).
  pose proof (aside_same _ _ H1) as A1. destruct H1 as (S1 & _ & _).
  eapply wp_mono; [apply wp_alert_loop|].
  - by eapply ready_aside.
  - by rewrite S1.
  - rewrite Hids, Hperm. by apply (select_where_sublist_ids (R := Component)).
  - intros c (r & -> & Hin)%list_elem_of_fmap. rewrite Hperm in Hin. apply select_where_elem in Hin as [Hin _]. rewrite S1.
    change (cp_ID (with_monitors (w_st w) r)) with (cp_ID r). by apply (list_elem_of_fmap_2 cp_ID).
  - cbn beta. intros _ w2 (_ & _ & Ht) c Hc Hl Hauto Hov. rewrite S1 in Ht.
    apply (Ht (with_monitors (w_st w) c)); [|done..]. apply list_elem_of_fmap_2. rewrite Hperm. by apply select_where_elem.
Qed.
End Incidents.
