(* ===== verification/StatusPublic.v ===== *)
(** * Status page: what the public page is told

    Every event of the public page, under any failures: it identifies and names
    visible components only, and tells of their monitors no more than the public
    form does. *)

From S2P Require Import Prelude.
From S2P Require Import Tables.
From S2P Require Import AlertModel.
From S2P Require Import SwarmAlerts.
From S2P Require Import Container.
From S2P Require Import Status.
From S2P Require Import StatusService.
From S2P Require Import StatusAdmin.
From S2P Require Import StatusMaintenance.

#[local] Open Scope string_scope.
#[local] Open Scope list_scope.
#[local] Open Scope Z_scope.

Definition tag (c : Component) : string * string * bool := (cp_ID c, cp_DisplayName c, cp_Visible c).

(** The components there are: identifier, name, whether visible. *)
Definition shown (s : page) : list (string * string * bool) := tag <$> db_components s.

(** An event that tells of components of [V], the visible ones. *)
Record discreet (V : list (string * string * bool)) (p : payload) : Prop := {
  di_monitors : ∀ refs, py_Monitors p ≠ Some (inl refs);
  di_id : ∀ id, ("component_id", VString id) ∈ py_Data p → ∃ n, (id, n, true) ∈ V;
  di_name : ∀ n, ("name", VString n) ∈ py_Data p → ∃ id, (id, n, true) ∈ V;
  di_names : ∀ l n, ("components", VStrings l) ∈ py_Data p → n ∈ l → ∃ id, (id, n, true) ∈ V;
}.

(** An event without those fields. *)
Lemma discreet_other V ty data monitors :
  (∀ k v, (k, v) ∈ data → k ≠ "component_id" ∧ k ≠ "name" ∧ k ≠ "components") →
  (∀ refs, monitors ≠ Some (inl refs)) → discreet V (MkPayload ty data monitors).
Proof. intros Hd Hm. split; cbn; [done|..]; [intros id H|intros n H|intros l n H]; by destruct (Hd _ _ H) as (? & ? & ?). Qed.

Lemma discreet_mono V V' p : V ⊆ V' → discreet V p → discreet V' p.
Proof. intros HV [H1 H2 H3 H4]. split; [done|..]; [intros id H|intros n H|intros l n H Hn]; [edestruct H2|edestruct H3|edestruct H4]; eauto. Qed.

(** The public events grow by events of [V]. *)
Definition tells_of (V : list (string * string * bool)) (s s' : page) : Prop :=
  ∃ new, public_events s' = public_events s ++ new ∧ Forall (discreet V) new.

#[export] Instance tells_of_preorder V : PreOrder (tells_of V).
Proof.
  split.
  - intros s. exists []. by rewrite app_nil_r.
  - intros s1 s2 s3 (n1 & H1 & F1) (n2 & H2 & F2). exists (n1 ++ n2). rewrite H2, H1, app_assoc. split; [done|by apply Forall_app].
Qed.

Lemma tells_of_mono V V' s s' : V ⊆ V' → tells_of V s s' → tells_of V' s s'.
Proof. intros HV (new & H1 & H2). exists new. split; [done|]. eapply Forall_impl; [exact H2|]. intros p. by apply discreet_mono. Qed.

Section Discretion.
Context `{Licence : !PageLicense}.
Context (visit : list (string * string) → list (string * string)).

Section Among.
Context (V : list (string * string * bool)).

(** A program that tells of components of [V] only and answers a [good] value. *)
Definition tells {A} (m : M page A) (good : A → Prop) : Prop :=
  ∀ w, shown (w_st w) ⊆ V → wp m (λ a w', good a ∧ shown (w_st w') ⊆ V ∧ tells_of V (w_st w) (w_st w')) w.

Lemma tells_ret {A} (a : A) (good : A → Prop) : good a → tells (ret a) good.
Proof. intros H w HV. by apply wp_ret. Qed.

Lemma tells_bind {A B} (m : M page A) (k : A → M page B) good good' :
  tells m good → (∀ a, good a → tells (k a) good') → tells (bind m k) good'.
Proof.
  intros Hm Hk w HV. apply wp_bind. eapply wp_mono; [by apply Hm|]. cbn. intros a w1 (Ha & V1 & T1).
  eapply wp_mono; [by apply Hk|]. cbn. intros b w2 (Hb & V2 & T2). split_and!; [done..|by etransitivity].
Qed.

Lemma tells_mono {A} (m : M page A) (good good' : A → Prop) : (∀ a, good a → good' a) → tells m good → tells m good'.
Proof. intros H Hm w HV. eapply wp_mono; [by apply Hm|]. cbn. naive_solver. Qed.

Lemma tells_consult {A} (read : env → nat → A) : tells (consult read) (λ _, True).
Proof. intros w HV. apply wp_consult. intros w' (-> & _) _. done. Qed.

Lemma tells_gets {A} (f : page → A) (good : A → Prop) : (∀ s, shown s ⊆ V → good (f s)) → tells (gets f) good.
Proof. intros H w HV. apply wp_gets. split_and!; [by apply H|done|done]. Qed.

(** A change that leaves the components' names and the public events alone. *)
Definition quiet (s s' : page) : Prop := shown s' = shown s ∧ public_events s' = public_events s.

#[export] Instance quiet_preorder : PreOrder quiet.
Proof. split; unfold quiet; [done|]. intros ??? (?&?) (?&?). split; congruence. Qed.

Lemma quiet_tells s s' : quiet s s' → tells_of V s s'.
Proof. intros [_ H]. exists []. by rewrite H, app_nil_r. Qed.

Lemma tells_quiet {A} (m : M page A) : steps quiet m → tells m (λ _, True).
Proof.
  intros Hm w HV. eapply wp_mono; [apply (steps_wp _ _ _ Hm)|]. cbn. intros _ w' [H _]. split; [done|].
  split; [by rewrite (proj1 H)|by apply quiet_tells].
Qed.

Lemma tells_exec f : (∀ s, shown s ⊆ V → shown (f s) ⊆ V ∧ public_events (f s) = public_events s) → tells (db_exec f) (λ _, True).
Proof.
  intros Hf w HV. apply wp_db_exec; [by intros w' (-> & _) _|]. intros w' (-> & _). destruct (Hf _ HV) as [H1 H2].
  split_and!; [done..|]. exists []. by rewrite H2, app_nil_r.
Qed.

(** What a query answers when it answers. *)
Definition found {A} (good : A → Prop) (r : result A) : Prop := match r with Ok a => good a | Err _ => True end.

Lemma tells_query {A} (q : page → A) (good : A → Prop) : (∀ s, shown s ⊆ V → good (q s)) → tells (db_query q) (found good).
Proof.
  intros Hq w HV. apply wp_db_query; [by intros w' (-> & _) _|]. intros w' (-> & _). split_and!; [by apply Hq|done|done].
Qed.

Lemma tells_for_each {A} (l : list A) (body : A → M page unit) :
  (∀ a, a ∈ l → tells (body a) (λ _, True)) → tells (for_each l body) (λ _, True).
Proof.
  induction l as [|a l IH]; intros H; [by apply tells_ret|]. cbn. eapply tells_bind; [apply H; by left|]. intros _ _.
  apply IH. intros b Hb. apply H. by right.
Qed.

Lemma tells_public p : discreet V p → tells (send_public p) (λ _, True).
Proof. intros Hp w HV. apply wp_modify. split_and!; [done..|]. exists [p]. by split; [|constructor]. Qed.

Definition known (c : Component) : Prop := tag c ∈ V.
Definition known_ref (r : IncidentCompRef) : Prop := (cr_ID r, cr_Name r, cr_Visible r) ∈ V.

Lemma known_rows s c : shown s ⊆ V → c ∈ db_components s → known (with_monitors s c).
Proof. intros HV Hc. apply HV. change (tag c ∈ tag <$> db_components s). by apply list_elem_of_fmap_2. Qed.

Lemma known_named s ids : shown s ⊆ V → Forall known_ref (named_components s ids).
Proof.
  intros HV. apply Forall_forall. intros r (c & -> & [_ Hc]%list_elem_of_filter)%list_elem_of_fmap. apply HV.
  change (tag c ∈ tag <$> db_components s). by apply list_elem_of_fmap_2.
Qed.

Lemma tells_components q :
  (∀ s c, c ∈ q s → c ∈ db_components s) → tells (components q) (found (Forall known)).
Proof.
  intros Hq w HV. apply wp_bind, wp_db_query; [intros w1 (S1 & _) _; apply wp_ret; by rewrite S1|]. intros w1 (S1 & _).
  case_bool_decide; [apply wp_ret; rewrite S1; split; [by constructor|done]|]. apply wp_db_query; intros w2 (S2 & _); [by intros _; rewrite S2, S1|].
  rewrite S2, S1. split_and!; [|done..]. cbn. apply Forall_forall. intros c (r & -> & Hr)%list_elem_of_fmap.
  apply known_rows; [done|]. by apply Hq.
Qed.

Lemma tells_get_component id :
  tells (GetComponent id) (found (λ o, ∀ c, o = Some c → known c ∧ cp_ID c = id)).
Proof.
  intros w HV. apply wp_bind. eapply wp_mono with (P := λ r w', (found (λ l, ∀ c, c ∈ l → known c ∧ cp_ID c = id) r)
    ∧ shown (w_st w') ⊆ V ∧ tells_of V (w_st w) (w_st w')).
  - apply wp_bind, wp_db_query; [intros w1 (S1 & _) _; apply wp_ret; by rewrite S1|]. intros w1 (S1 & _).
    case_bool_decide; [apply wp_ret; rewrite S1; split; [by intros c ?%elem_of_nil|done]|].
    apply wp_db_query; intros w2 (S2 & _); [by intros _; rewrite S2, S1|]. rewrite S2, S1. split_and!; [|done..]. cbn.
    intros c (r & -> & Hr)%list_elem_of_fmap. destruct (select_id id (db_components (w_st w))) as [r'|] eqn:E; [|by apply elem_of_nil in Hr].
    apply list_elem_of_singleton in Hr as ->. apply select_id_Some in E as [Hin Hid]. split; [by apply known_rows|done].
  - cbn. intros [l|e] w' (Hl & HV' & Ht); apply wp_ret; [|done]. split_and!; [|done..]. cbn. intros c Hc%head_Some_elem_of. by apply Hl.
Qed.

Lemma tells_link {A} `{EqDecision A} get set_ allowed same_ (row : A) :
  (∀ f s, quiet s (set_ f s)) → tells (db_link get set_ allowed same_ row) (λ _, True).
Proof. intros H. apply tells_quiet. unfold db_link. steps_tac. Qed.

Lemma tells_for_ok {A} (l : list A) (body : A → M page (result unit)) :
  (∀ a, tells (body a) (λ _, True)) → tells (for_ok l body) (λ _, True).
Proof.
  intros H. induction l as [|a l IH]; [by apply tells_ret|]. cbn. eapply tells_bind; [apply H|]. intros [[]|e] _; [done|by apply tells_ret].
Qed.

(** *** Statements and announcements *)

Lemma tells_notify subject message : tells (NotifySubscribers subject message) (λ _, True).
Proof.
  apply tells_quiet. unfold NotifySubscribers. apply steps_bind; [apply _|apply (steps_consult quiet)|]. steps_tac. done.
Qed.

Lemma tells_admin p : tells (send_admin p) (λ _, True).
Proof. apply tells_quiet. unfold send_admin. by apply steps_modify. Qed.

Lemma tells_broadcast p : discreet V p → tells (st_Broadcast p) (λ _, True).
Proof. intros H. eapply tells_bind; [by apply tells_public|]. intros. apply tells_admin. Qed.

Lemma discreet_pairs ty (data : list (string * string)) :
  Forall (λ kv, kv.1 ≠ "component_id" ∧ kv.1 ≠ "name" ∧ kv.1 ≠ "components") data →
  discreet V (MkPayload ty ((λ kv, (kv.1, VString kv.2)) <$> data) None).
Proof.
  intros H. apply discreet_other; [|done]. intros k v ([k' v'] & [= -> ->] & Hin)%list_elem_of_fmap.
  rewrite Forall_forall in H. by apply (H _ Hin).
Qed.

Lemma tells_global : tells broadcastGlobalStatus (λ _, True).
Proof.
  eapply tells_bind; [apply tells_quiet|intros g _; apply tells_broadcast].
  - unfold ComputeGlobalStatus, ListVisibleComponents, components. steps_tac.
  - apply (discreet_pairs _ [("status", g.1); ("message", g.2)]). by repeat constructor.
Qed.

Lemma tells_naming ty data refs :
  Forall (λ kv, kv.1 ≠ "component_id" ∧ kv.1 ≠ "name" ∧ kv.1 ≠ "components") data → Forall known_ref refs →
  tells (BroadcastNamingComponents ty ((λ kv, (kv.1, VString kv.2)) <$> data) refs) (λ _, True).
Proof.
  intros Hd Hr. rewrite Forall_forall in Hd. rewrite Forall_forall in Hr. eapply tells_bind; [|intros; apply tells_admin]. apply tells_public. split; cbn; [done|..].
  - intros id [(kv & [= Hk _] & Hin)%list_elem_of_fmap|[=]%list_elem_of_singleton]%elem_of_app. by destruct (Hd _ Hin) as [[]].
  - intros n [(kv & [= Hk _] & Hin)%list_elem_of_fmap|[=]%list_elem_of_singleton]%elem_of_app. by destruct (Hd _ Hin) as (_ & [] & _).
  - intros l n [(kv & [= Hk] & Hin)%list_elem_of_fmap|[= ->]%list_elem_of_singleton]%elem_of_app.
    unfold PublicComponentNames. intros (r & -> & [Hv Hin]%list_elem_of_filter)%list_elem_of_fmap. exists (cr_ID r).
    rewrite <- Hv. by apply Hr.
Qed.

Lemma tells_incident inc message : Forall known_ref (in_Components inc) → tells (AnnounceIncident inc message) (λ _, True).
Proof.
  intros H. eapply tells_bind; [|intros; apply tells_notify].
  apply (tells_naming _ [("id", in_ID inc); ("title", in_Title inc); ("severity", in_Severity inc); ("status", in_Status inc)]); [|done].
  by repeat constructor.
Qed.

Lemma tells_incident_update inc upd : tells (AnnounceIncidentUpdate inc upd) (λ _, True).
Proof.
  unfold AnnounceIncidentUpdate. destruct (_ && _); (eapply tells_bind; [apply tells_broadcast|intros; apply tells_notify]).
  - apply (discreet_pairs _ [("id", in_ID inc); ("title", in_Title inc)]). by repeat constructor.
  - apply (discreet_pairs _ [("id", in_ID inc); ("status", iu_Status upd); ("message", iu_Message upd)]). by repeat constructor.
Qed.

Lemma tells_component_change c : known c → tells (BroadcastComponentChange c) (λ _, True).
Proof.
  intros Hc. apply (tells_bind _ _ (λ _, True)); [by apply tells_gets|]. intros s _. cbv zeta.
  apply (tells_bind _ _ (λ _, True)).
  - destruct (cp_Visible c) eqn:Hv; [|by apply tells_ret]. apply tells_public.
    assert (∃ id, (id, cp_DisplayName c, true) ∈ V ∧ id = cp_ID c) as (_ & Hin & ->) by (exists (cp_ID c); rewrite <- Hv; done).
    split; cbn; [done|..].
    + intros id Hid. rewrite !elem_of_cons, elem_of_nil in Hid. destruct Hid as [[= ->]|[[=]|[[=]|[]]]]. by eexists.
    + intros n Hn. rewrite !elem_of_cons, elem_of_nil in Hn. destruct Hn as [[=]|[[= ->]|[[=]|[]]]]. by eexists.
    + intros l n Hn. rewrite !elem_of_cons, elem_of_nil in Hn. destruct Hn as [[=]|[[=]|[[=]|[]]]].
  - intros _ _. eapply tells_bind; [apply tells_admin|]. intros _ _. destruct (cp_Visible c); [apply tells_global|by apply tells_ret].
Qed.

(** *** The store *)

Lemma quiet_query {A} (q : page → A) : steps quiet (db_query q).
Proof. apply (steps_db_query quiet). Qed.
Lemma insert_update_quiet u : steps quiet (insert_update u).
Proof. unfold insert_update. steps_tac; done. Qed.
Lemma create_update_quiet id st message auto : steps quiet (CreateUpdate id st message auto).
Proof. unfold CreateUpdate, insert_update. steps_tac; done. Qed.
Lemma link_incidents_quiet id ids : steps quiet (for_ok ids (link_incident id)).
Proof. apply steps_for_ok; [apply _|]. intros a. unfold link_incident, db_link. steps_tac. done. Qed.
Lemma link_windows_quiet id ids : steps quiet (for_ok ids (link_window id)).
Proof. apply steps_for_ok; [apply _|]. intros a. unfold link_window, db_link. steps_tac. done. Qed.

Lemma tells_create_incident i ids message :
  tells (CreateIncident i ids message) (found (λ i', in_Components i' = in_Components i)).
Proof.
  unfold CreateIncident. eapply tells_bind; [apply tells_consult|]. intros t _. eapply tells_bind; [apply tells_consult|]. intros id _. cbv zeta.
  eapply tells_bind; [apply tells_quiet; apply steps_db_insert; [apply _|done]|]. intros [[]|e] _; [|by apply tells_ret].
  eapply tells_bind; [apply tells_quiet, link_incidents_quiet|]. intros [[]|e] _; [|by apply tells_ret].
  case_bool_decide; [by apply tells_ret|]. eapply tells_bind; [apply tells_consult|]. intros uid _.
  eapply tells_bind; [apply tells_quiet, insert_update_quiet|]. intros [[]|e] _; by apply tells_ret.
Qed.

Definition known_incident (i : Incident) : Prop := Forall known_ref (in_Components i).

Lemma tells_get_incident id : tells (GetIncident id) (found (λ o, ∀ i, o = Some i → known_incident i)).
Proof.
  eapply tells_bind; [by apply (tells_query _ (λ _, True))|]. intros [[i|]|e] _; [|by apply tells_ret..].
  eapply tells_bind with (good := found known_incident); [|intros [i'|e] H; apply tells_ret; [by intros ? [= <-]|done]].
  eapply tells_bind; [by apply (tells_query _ (Forall known_ref)); intros; apply known_named|]. intros [comps|e] Hc; [|by apply tells_ret].
  eapply tells_bind; [by apply (tells_query _ (λ _, True))|]. intros [us|e] _; by apply tells_ret.
Qed.

Lemma tells_read_incident id inc : known_incident inc → tells (read_back (GetIncident id) inc) known_incident.
Proof.
  intros H. eapply tells_bind; [apply tells_get_incident|]. intros [[i|]|e] Hi; apply tells_ret; [by apply Hi|done..].
Qed.

Definition known_window (m : MaintenanceWindow) : Prop := Forall known_ref (mw_Components m).

Lemma tells_load_window m : tells (loadMaintenanceComponents m) (found known_window).
Proof.
  eapply tells_bind; [by apply (tells_query _ (Forall known_ref)); intros; apply known_named|]. intros [comps|e] Hc; by apply tells_ret.
Qed.

Lemma tells_scan_windows rows : tells (scanMaintenanceWindows rows) (found (Forall known_window)).
Proof.
  induction rows as [|m rows IH]; [by apply tells_ret; constructor|]. cbn. eapply tells_bind; [apply tells_load_window|].
  intros [m'|e] Hm; [|by apply tells_ret]. eapply tells_bind; [apply IH|]. intros [l|e] Hl; apply tells_ret; [by constructor|done].
Qed.

Lemma tells_select_windows (q : page → list MaintenanceWindow) :
  tells (let? rows := db_query q in scanMaintenanceWindows rows) (found (Forall known_window)).
Proof. eapply tells_bind; [by apply (tells_query _ (λ _, True))|]. intros [l|e] _; [apply tells_scan_windows|by apply tells_ret]. Qed.

Lemma tells_get_window id : tells (GetMaintenance id) (found (λ o, ∀ m, o = Some m → known_window m)).
Proof.
  eapply tells_bind; [by apply (tells_query _ (λ _, True))|]. intros [[m|]|e] _; [|by apply tells_ret..].
  eapply tells_bind; [apply tells_load_window|]. intros [m'|e] Hm; apply tells_ret; [by intros ? [= <-]|done].
Qed.

Lemma delta_quiet id refs : steps quiet (deltaApplyMonitorRefs visit id refs).
Proof.
  unfold deltaApplyMonitorRefs. steps_tac; apply steps_for_ok; try apply _; intros k; unfold delete_ref, relabel_ref, insert_monitor, db_link;
    steps_tac; done.
Qed.

Lemma tells_update_component c : known c → tells (UpdateComponent visit c) (λ _, True).
Proof.
  intros Hc. eapply tells_bind; [apply tells_consult|]. intros t _. eapply tells_bind; [apply tells_exec|].
  - intros s HV. split; [|done]. intros x (r' & -> & Hr)%list_elem_of_fmap. cbn in Hr. apply update_where_elem in Hr as (r & Hr & ->).
    case_bool_decide as Hid.
    + unfold row_id, Component_id in Hid. unfold tag, updated_component. cbn. rewrite Hid. exact Hc.
    + apply HV. by apply list_elem_of_fmap_2.
  - intros [[]|e] _; [|by apply tells_ret]. eapply tells_bind with (good := λ _, True).
    + case_bool_decide; [apply tells_quiet, delta_quiet|by apply tells_ret].
    + intros [[]|e] _; by apply tells_ret.
Qed.

(** *** Maintenance *)

Lemma tells_cover m id : tells (cover_component visit m id) (λ _, True).
Proof.
  eapply tells_bind; [apply tells_get_component|]. intros [[c|]|e] Hc; [|by apply tells_ret..]. destruct (Hc c eq_refl) as [Hk _].
  eapply tells_bind; [by apply (tells_query _ (λ _, True))|]. intros [held|e] _; [|by apply tells_ret].
  eapply tells_bind; [apply tells_update_component; by destruct held|]. intros _ _. by apply tells_ret.
Qed.

Lemma tells_release m id : tells (releaseComponent visit m id) (λ _, True).
Proof.
  eapply tells_bind; [by apply (tells_query _ (λ _, True))|]. intros [[]|e] _; [by apply tells_ret| |by apply tells_ret].
  eapply tells_bind; [apply tells_get_component|]. intros [[c|]|e] Hc; [|by apply tells_ret..]. destruct (Hc c eq_refl) as [Hk _].
  cbv zeta. destruct (_ && _); [by apply tells_ret|]. eapply tells_bind; [apply tells_update_component|intros; by apply tells_ret].
  by destruct (opt_eqb _ _).
Qed.

Lemma tells_window_event ty m : known_window m →
  tells (BroadcastNamingComponents ty [("id", VString (mw_ID m)); ("title", VString (mw_Title m))] (mw_Components m)) (λ _, True).
Proof. intros H. apply (tells_naming ty [("id", mw_ID m); ("title", mw_Title m)]); [|done]. by repeat constructor. Qed.

Lemma set_active_quiet id active incidentID : steps quiet (SetActive id active incidentID).
Proof. unfold SetActive. steps_tac. done. Qed.

Lemma tells_close m : known_window m → tells (closeWindow visit m) (λ _, True).
Proof.
  intros H. eapply tells_bind with (good := λ _, True).
  { destruct (mw_IncidentID m); [|by apply tells_ret]. eapply tells_bind; [apply tells_quiet, create_update_quiet|]. intros; by apply tells_ret. }
  intros _ _. eapply tells_bind; [apply tells_for_each; intros; apply tells_release|]. intros _ _.
  eapply tells_bind; [by apply tells_window_event|]. intros. apply tells_notify.
Qed.

Lemma tells_deactivate m : known_window m → tells (deactivateWindow visit m) (λ _, True).
Proof.
  intros H. eapply tells_bind; [apply tells_quiet, set_active_quiet|]. intros [[]|e] _; [by apply tells_close|by apply tells_ret].
Qed.

Lemma tells_activate m : known_window m → tells (activateWindow visit m) (λ _, True).
Proof.
  intros H. eapply tells_bind; [apply tells_create_incident|]. intros [i|e] _; [|by apply tells_ret].
  eapply tells_bind; [apply tells_quiet, set_active_quiet|]. intros [[]|e] _; [|by apply tells_ret].
  eapply tells_bind; [apply tells_for_each; intros; apply tells_cover|]. intros _ _.
  eapply tells_bind; [by apply tells_window_event|]. intros. apply tells_notify.
Qed.

Lemma tells_windows (r : result (list MaintenanceWindow)) (body : MaintenanceWindow → M page unit) :
  found (Forall known_window) r → (∀ m, known_window m → tells (body m) (λ _, True)) → tells (for_each (windows_of r) body) (λ _, True).
Proof.
  intros Hr Hb. apply tells_for_each. intros m Hm. apply Hb. destruct r as [l|e]; [|by apply elem_of_nil in Hm].
  cbn in *. rewrite Forall_forall in Hr. by apply Hr.
Qed.

Lemma tells_transitions : tells (applyTransitions visit) (λ _, True).
Proof.
  eapply tells_bind; [apply tells_consult|]. intros t _. eapply tells_bind; [apply tells_select_windows|]. intros pending Hp.
  eapply tells_bind; [apply tells_windows; [done|apply tells_activate]|]. intros _ _.
  eapply tells_bind; [apply tells_select_windows|]. intros expired He. apply tells_windows; [done|apply tells_deactivate].
Qed.

Lemma tells_delete_window id : tells (DeleteWindow visit id) (λ _, True).
Proof.
  eapply tells_bind; [apply tells_get_window|]. intros [o|e] Ho; [|by apply tells_ret].
  eapply tells_bind; [by apply tells_exec|]. intros [[]|e] _; [|by apply tells_ret]. destruct o as [m|]; [|by apply tells_ret].
  eapply tells_bind with (good := λ _, True); [|intros; by apply tells_ret].
  destruct (mw_Active m); [by apply tells_close, Ho|by apply tells_ret].
Qed.

(** *** Monitors and alerts *)

Lemma by_monitor_rows s monitorType monitorID c :
  c ∈ merge_sort by_order_id (select_where (lists_monitor s monitorType monitorID) (db_components s)) → c ∈ db_components s.
Proof. rewrite merge_sort_Permutation. by intros [Hc _]%select_where_elem. Qed.

Lemma tells_notify_monitor monitorType monitorID : tells (NotifyMonitorChanged monitorType monitorID) (λ _, True).
Proof.
  eapply tells_bind; [apply tells_components; intros; by eapply by_monitor_rows|]. intros [comps|e] Hc; [|by apply tells_ret].
  apply tells_for_each. intros c Hin. apply tells_component_change. cbn in Hc. rewrite Forall_forall in Hc. by apply Hc.
Qed.

Lemma tells_active_incident id : tells (GetActiveIncidentByComponent id) (λ _, True).
Proof.
  eapply tells_bind; [by apply (tells_query _ (λ _, True))|]. intros [[i|]|e] _; [|by apply tells_ret..].
  eapply tells_mono; [|apply tells_get_incident]. done.
Qed.

Lemma tells_alert_component evt c : known c → tells (handleAlertForComponent evt c) (λ _, True).
Proof.
  intros Hc. eapply tells_bind with (good := λ _, True); [by apply tells_gets|]. intros s _. cbv zeta.
  eapply tells_bind; [apply tells_active_incident|]. intros [o|e] _; [|by apply tells_ret].
  destruct (cp_StatusOverride c); [by apply tells_ret|]. destruct (_ && _).
  - destruct o as [i|]; [|by apply tells_ret]. eapply tells_bind; [apply tells_quiet, create_update_quiet|].
    intros [u|e] _; [apply tells_incident_update|by apply tells_ret].
  - destruct (_ || _); [by apply tells_ret|]. destruct o as [i|].
    + eapply tells_bind; [apply tells_quiet, create_update_quiet|]. intros _ _. apply tells_broadcast.
      apply (discreet_pairs _ [("id", in_ID i); ("status", in_Status i); ("message", ev_Message evt)]). by repeat constructor.
    + eapply tells_bind; [apply tells_create_incident|]. intros [i|e] _; [|by apply tells_ret]. apply tells_incident.
      cbn. by repeat constructor.
Qed.

Lemma tells_alert evt : tells (st_HandleAlertEvent evt) (λ _, True).
Proof.
  eapply tells_bind; [apply tells_components; intros; by eapply by_monitor_rows|]. intros [comps|e] Hc; [|by apply tells_ret].
  apply tells_for_each. intros c Hin. cbn in Hc. rewrite Forall_forall in Hc.
  destruct (cp_AutoIncident c); [by apply tells_alert_component, Hc|by apply tells_ret].
Qed.

(** *** Handlers *)

Lemma tells_check_ids seen ids : tells (CheckComponentIDs seen ids) (λ _, True).
Proof.
  revert seen. induction ids as [|id ids IH]; intros seen; cbn; [by apply tells_ret|]. destruct (_ || _); [by apply tells_ret|].
  eapply tells_bind; [apply tells_get_component|]. intros [[c|]|e] _; [apply IH|by apply tells_ret..].
Qed.

Lemma tells_with_ids {A} ids (k : M page (answer A)) : tells k (λ _, True) → tells (with_ids ids k) (λ _, True).
Proof. intros H. eapply tells_bind; [apply tells_check_ids|]. intros [] _; [done|by apply tells_ret..]. Qed.

Lemma tells_or_internal {A B} (m : M page (result A)) (k : A → M page (answer B)) good :
  tells m (found good) → (∀ a, good a → tells (k a) (λ _, True)) → tells (or_internal m k) (λ _, True).
Proof. intros Hm Hk. eapply tells_bind; [exact Hm|]. intros [a|e] Ha; [by apply Hk|by apply tells_ret]. Qed.

Lemma tells_or_missing {A B} (m : M page (result (option A))) (k : A → M page (answer B)) good :
  tells m (found good) → (∀ a, good (Some a) → tells (k a) (λ _, True)) → tells (or_missing m k) (λ _, True).
Proof. intros Hm Hk. eapply tells_bind; [exact Hm|]. intros [[a|]|e] Ha; [by apply Hk|by apply tells_ret..]. Qed.

Lemma tells_found {A} (m : M page (result A)) : tells m (λ _, True) → tells m (found (λ _, True)).
Proof. apply tells_mono. by intros [a|e]. Qed.

Lemma tells_create_incident_op req : tells (HandleCreateIncident req) (λ _, True).
Proof.
  destruct req as [r|]; [|by apply tells_ret]. unfold HandleCreateIncident. cbv zeta. destruct (_ || _); [by apply tells_ret|].
  destruct (_ || _); [by apply tells_ret|]. apply tells_with_ids. eapply tells_or_internal; [apply tells_create_incident|].
  intros i Hi. eapply tells_bind; [apply tells_read_incident; unfold known_incident; rewrite Hi; constructor|].
  intros i' Hi'. eapply tells_bind; [by apply tells_incident|]. intros _ _. by apply tells_ret.
Qed.

Lemma tells_post_update id req : tells (HandlePostUpdate id req) (λ _, True).
Proof.
  unfold HandlePostUpdate. case_bool_decide; [by apply tells_ret|]. eapply tells_or_missing; [apply tells_get_incident|].
  intros i _. destruct req as [[st message]|]; [|by apply tells_ret]. destruct (_ || _); [by apply tells_ret|].
  destruct (negb _); [by apply tells_ret|]. eapply tells_or_internal; [apply tells_found, tells_quiet, create_update_quiet|].
  intros u _. eapply tells_bind; [apply tells_incident_update|]. intros _ _. by apply tells_ret.
Qed.

Lemma tells_update_incident_op id req : tells (HandleUpdateIncident id req) (λ _, True).
Proof.
  unfold HandleUpdateIncident. case_bool_decide; [by apply tells_ret|]. eapply tells_or_missing; [apply tells_get_incident|].
  intros i _. destruct req as [r|]; [|by apply tells_ret]. destruct (match rt_Severity r with Some _ => _ | None => _ end); [by apply tells_ret|].
  cbv zeta. apply tells_with_ids. eapply tells_or_internal; [apply tells_found, tells_quiet|].
  - unfold UpdateIncident, relink. steps_tac; try done. apply link_incidents_quiet.
  - intros i' _. eapply tells_bind with (good := λ _, True); [|intros; by apply tells_ret].
    eapply tells_bind; [apply tells_get_incident|]. intros [[?|]|?] _; by apply tells_ret.
Qed.

Lemma tells_delete_incident id : tells (HandleDeleteIncident id) (λ _, True).
Proof.
  unfold HandleDeleteIncident. case_bool_decide; [by apply tells_ret|].
  eapply tells_or_internal; [by apply tells_found, tells_exec|]. intros; by apply tells_ret.
Qed.

Lemma tells_read_window id m : tells (read_back (GetMaintenance id) m) (λ _, True).
Proof. eapply tells_bind; [apply tells_get_window|]. intros [[?|]|?] _; by apply tells_ret. Qed.

Lemma tells_create_window parse req : tells (HandleCreateMaintenance parse req) (λ _, True).
Proof.
  destruct req as [r|]; [|by apply tells_ret]. unfold HandleCreateMaintenance. case_bool_decide; [by apply tells_ret|].
  destruct (parse _); [|by apply tells_ret]. destruct (parse _); [|by apply tells_ret]. destruct (negb _); [by apply tells_ret|].
  apply tells_with_ids. cbv zeta. eapply tells_or_internal; [apply tells_found, tells_quiet|].
  - unfold CreateMaintenance. steps_tac; try done. apply link_windows_quiet.
  - intros m _. eapply tells_bind; [apply tells_read_window|]. intros; by apply tells_ret.
Qed.

Lemma tells_update_window parse id req : tells (HandleUpdateMaintenance parse id req) (λ _, True).
Proof.
  unfold HandleUpdateMaintenance. case_bool_decide; [by apply tells_ret|]. eapply tells_or_missing; [apply tells_get_window|].
  intros m _. destruct (mw_Active m); [by apply tells_ret|]. destruct req as [r|]; [|by apply tells_ret].
  destruct (edited_time _ _ _); [|by apply tells_ret]. destruct (edited_time _ _ _); [|by apply tells_ret].
  destruct (negb _); [by apply tells_ret|]. apply tells_with_ids. eapply tells_or_internal; [apply tells_found, tells_quiet|].
  - unfold UpdateMaintenance, relink. steps_tac; try done. apply link_windows_quiet.
  - intros m' _. eapply tells_bind; [apply tells_read_window|]. intros; by apply tells_ret.
Qed.

Lemma tells_delete_maintenance b id : tells (HandleDeleteMaintenance visit b id) (λ _, True).
Proof.
  unfold HandleDeleteMaintenance. case_bool_decide; [by apply tells_ret|]. eapply tells_or_internal; [apply tells_found|intros; by apply tells_ret].
  destruct b; [apply tells_delete_window|]. by apply tells_exec.
Qed.
End Among.

(** ** Operations *)

(** What an operation may tell: the components there were and those there are. *)
Definition discloses (w w' : world page) : Prop :=
  tells_of (shown (w_st w) ++ shown (w_st w')) (w_st w) (w_st w').

Lemma tells_discloses {A} (m : M page A) w : tells (shown (w_st w)) m (λ _, True) → wp m (λ _ w', discloses w w') w.
Proof.
  intros Hm. eapply wp_mono; [by apply Hm|]. cbn. intros _ w' (_ & _ & H). eapply tells_of_mono; [|exact H]. set_solver.
Qed.

Lemma quiet_discloses s w w' : quiet (w_st w) s → tells_of (shown (w_st w) ++ shown (w_st w')) s (w_st w') → discloses w w'.
Proof. intros [_ Hp] (new & H1 & H2). exists new. split; [by rewrite H1, Hp|done]. Qed.

(** The announcement of a change: nothing else happens. *)
Lemma wp_announce_change ty id public w :
  wp (AnnounceComponentChange ty id public) (λ _ w', shown (w_st w') = shown (w_st w)
    ∧ ∀ V, (public = true → ∃ n, (id, n, true) ∈ V) → tells_of V (w_st w) (w_st w')) w.
Proof.
  unfold AnnounceComponentChange. set (p := MkPayload _ _ _).
  assert (∀ V, (∃ n, (id, n, true) ∈ V) → discreet V p) as Hp.
  { intros V Hid. split; cbn; [done|..].
    - intros id' [= ->]%list_elem_of_singleton. done.
    - by intros n [=]%list_elem_of_singleton.
    - by intros l n [=]%list_elem_of_singleton. }
  destruct public.
  - unfold st_Broadcast, broadcastGlobalStatus, send_public, send_admin. apply wp_bind, wp_bind, wp_modify, wp_modify, wp_bind.
    eapply wp_mono; [apply (steps_wp quiet)|].
    { unfold ComputeGlobalStatus, ListVisibleComponents, components. steps_tac. }
    cbn beta. intros g w1 [[S1 P1] _]. cbn in S1, P1. unfold st_Broadcast, send_public, send_admin. apply wp_bind, wp_modify, wp_modify.
    split; [exact S1|]. intros V Hid. eexists [p; _]. cbn. rewrite P1, <- app_assoc. split; [done|]. constructor; [by apply Hp, Hid|].
    constructor; [|done]. apply (discreet_pairs _ _ [("status", g.1); ("message", g.2)]). by repeat constructor.
  - split; [done|]. intros V _. by apply quiet_tells.
Qed.

(** An announcement of what a state the operation reached shows. *)
Lemma wp_announce_then {A} (a : answer A) ty id public w w1 :
  public_events (w_st w1) = public_events (w_st w) →
  (public = true → ∃ n, (id, n, true) ∈ shown (w_st w) ++ shown (w_st w1)) →
  wp (do! AnnounceComponentChange ty id public in ret a) (λ _ w', discloses w w') w1.
Proof.
  intros Hq Hid. apply wp_bind. eapply wp_mono; [apply wp_announce_change|]. cbn beta. intros _ w2 [S2 T2]. apply wp_ret.
  unfold discloses. rewrite S2. destruct (T2 _ Hid) as (new & H1 & H2). exists new. split; [|done]. by rewrite H1, Hq.
Qed.

Lemma discloses_none w w' : public_events (w_st w') = public_events (w_st w) → discloses w w'.
Proof. intros H. exists []. by rewrite H, app_nil_r. Qed.

Lemma shown_elem s c : c ∈ db_components s → tag c ∈ shown s.
Proof. apply list_elem_of_fmap_2. Qed.

Lemma wp_create_discloses req w : wp (HandleCreateComponent req) (λ _ w', discloses w w') w.
Proof.
  destruct req as [r|]; [|by apply wp_ret, discloses_none]. cbn [HandleCreateComponent].
  destruct (requested_monitors r) as [monitors|]; [|by apply wp_ret, discloses_none]. apply wp_bind.
  eapply wp_mono; [apply (steps_wp quiet)|].
  { unfold component_quota. apply steps_bind; [apply _|apply (steps_consult quiet)|]. unfold ListComponents, components. steps_tac. }
  cbn beta. intros [refused|] w1 [[_ P1] _]; [by apply wp_ret, discloses_none|]. apply wp_bind. set (c := MkComponent _ _ _ _ _ _ _ _ _ _ _ _ _). clearbody c.
  eapply wp_mono with (P := λ r w', public_events (w_st w') = public_events (w_st w) ∧ ∀ c, r = Ok c → tag c ∈ shown (w_st w')).
  2: { cbn beta. intros [c'|e] w2 [P2 Hc]; [|by apply wp_ret, discloses_none]. apply wp_announce_then; [done|]. intros Hv.
       exists (cp_DisplayName c'). apply elem_of_app. right. rewrite <- Hv. by apply Hc. }
  unfold CreateComponent. apply wp_bind, wp_now. intros w2 (S2 & _). cbv zeta. apply wp_bind, wp_new_uid. intros w3 (S3 & _) _.
  apply wp_bind, wp_db_insert; [intros w4 (S4 & _) _; apply wp_ret; split; [congruence|done]|].
  intros w4 _ (S4 & _).
  match goal with |- context [Ok ?x] => set (c' := x) end.
  assert (tag c' ∈ shown (w_st w4) ∧ public_events (w_st w4) = public_events (w_st w)) as [Ht P4].
  { rewrite S4. cbn. split; [|congruence]. unfold shown. cbn. rewrite fmap_app, elem_of_app. right. by left. }
  clearbody c'. clear S4. case_bool_decide.
  2: { apply wp_ret. split; [done|]. by intros ? [= <-]. }
  apply wp_bind. eapply wp_mono; [apply (steps_wp quiet)|].
  { apply steps_for_ok; [apply _|]. intros m. unfold insert_monitor, db_link. steps_tac. done. }
  cbn beta. intros [[]|e] w5 [[S5 P5] _]; apply wp_ret; (split; [congruence|]); [intros ? [= <-]; by rewrite S5|done].
Qed.

Lemma wp_find_component id w :
  wp (GetComponent id) (λ r w', quiet (w_st w) (w_st w') ∧ ∀ c, r = Ok (Some c) → cp_ID c = id ∧ tag c ∈ shown (w_st w)) w.
Proof.
  apply wp_and.
  - eapply wp_mono; [apply (steps_wp quiet)|by intros r w' [H _]]. unfold GetComponent, components. steps_tac.
  - eapply wp_mono; [by apply (tells_get_component (shown (w_st w)))|]. cbn. intros [o|e] w' (H & _) c; [|done].
    intros [= ->]. by destruct (H c eq_refl).
Qed.

Lemma wp_update_shown c (w : world page) :
  (∃ n b, (cp_ID c, n, b) ∈ shown (w_st w)) →
  wp (UpdateComponent visit c) (λ r w', public_events (w_st w') = public_events (w_st w)
    ∧ ∀ c', r = Ok c' → cp_ID c' = cp_ID c ∧ tag c' ∈ shown (w_st w')) w.
Proof.
  intros (n & b & Hin). unfold UpdateComponent. apply wp_bind, wp_now. intros w1 (S1 & _). apply wp_bind, wp_db_exec.
  { intros w2 (S2 & _) _. apply wp_ret. by rewrite S2, S1. }
  intros w2 (S2 & _). rewrite S1 in S2. apply wp_bind.
  set (m := if bool_decide (cp_CompositionMode c = CompositionExplicit) then _ else _).
  assert (steps quiet m) as Hm by (unfold m; case_bool_decide; [apply delta_quiet|apply (steps_ret quiet)]).
  eapply wp_mono; [apply (steps_wp _ _ _ Hm)|]. cbn beta. intros r w3 [[S3 P3] _].
  assert (public_events (w_st w3) = public_events (w_st w)) as P by (by rewrite P3, S2).
  destruct r as [[]|e]; apply wp_ret; (split; [exact P|]); [|done]. intros c' [= <-]. split; [done|].
  rewrite S3. apply list_elem_of_fmap in Hin as (row & Htag & Hrow). rewrite S2.
  apply list_elem_of_fmap. injection Htag as Hid _ _. exists (updated_component c (env_now (w_env w) (w_tick w)) row).
  split; [unfold tag; cbn; by rewrite Hid|]. cbn. apply update_where_elem. exists row. split; [done|].
  by rewrite bool_decide_eq_true_2.
Qed.

Lemma edited_id existing r edited : edited_component existing r = Some edited → cp_ID edited = cp_ID existing.
Proof.
  unfold edited_component. destruct (_ || _); [done|]. destruct (edited_monitors _ _); [|done].
  destruct (edited_override _ _); [|done]. by intros [= <-].
Qed.

Lemma wp_update_discloses id req w : wp (HandleUpdateComponent visit id req) (λ _ w', discloses w w') w.
Proof.
  unfold HandleUpdateComponent. case_bool_decide; [by apply wp_ret, discloses_none|]. apply wp_bind.
  eapply wp_mono; [apply wp_find_component|]. cbn beta. intros r w1 [[S1 P1] Hc].
  destruct r as [[existing|]|e]; [|by apply wp_ret, discloses_none..]. destruct (Hc existing eq_refl) as [Hid Hin]. subst id.
  destruct req as [r|]; [|by apply wp_ret, discloses_none].
  destruct (edited_component existing r) as [edited|] eqn:Eed; [|by apply wp_ret, discloses_none]. apply edited_id in Eed.
  apply wp_bind. eapply wp_mono; [apply wp_update_shown|].
  { rewrite S1, Eed. by eexists _, _. }
  cbn beta. intros r' w2 [P2 Hc2]. destruct r' as [c'|e]; [|apply wp_ret, discloses_none; congruence].
  destruct (Hc2 c' eq_refl) as [Hid2 Hin2]. apply wp_announce_then; [congruence|]. intros Hv. setoid_rewrite elem_of_app.
  destruct (cp_Visible existing) eqn:Hve.
  - exists (cp_DisplayName existing). left. rewrite Hid2, Eed, <- Hve. exact Hin.
  - exists (cp_DisplayName c'). right. cbn in Hv. rewrite <- Hv. exact Hin2.
Qed.

Lemma wp_delete_discloses id w : wp (HandleDeleteComponent id) (λ _ w', discloses w w') w.
Proof.
  unfold HandleDeleteComponent. case_bool_decide; [by apply wp_ret, discloses_none|]. apply wp_bind.
  eapply wp_mono; [apply wp_find_component|]. cbn beta. intros r w1 [[S1 P1] Hc]. destruct r as [o|e]; [|by apply wp_ret, discloses_none].
  apply wp_bind, wp_db_exec; [intros w2 (S2 & _) _; apply wp_ret, discloses_none; congruence|]. intros w2 (S2 & _).
  apply wp_announce_then; [by rewrite S2|]. destruct o as [existing|]; [|done]. intros Hv. destruct (Hc existing eq_refl) as [Hid Hin].
  exists (cp_DisplayName existing). apply elem_of_app. left. rewrite <- Hv, <- Hid. exact Hin.
Qed.

Lemma wp_perform_discloses parse o w : wp (perform visit parse o) (λ _ w', discloses w w') w.
Proof.
  destruct o; cbn [perform].
  - apply tells_discloses. eapply tells_bind; [apply tells_transitions|]. intros. by apply tells_ret.
  - by apply discloses_none.
  - apply tells_discloses. eapply tells_bind; [apply tells_notify_monitor|]. intros. by apply tells_ret.
  - apply tells_discloses. eapply tells_bind; [apply tells_alert|]. intros. by apply tells_ret.
  - apply tells_discloses. eapply tells_bind; [by apply tells_exec|]. intros. by apply tells_ret.
  - apply wp_create_discloses.
  - apply wp_update_discloses.
  - apply wp_delete_discloses.
  - apply tells_discloses. eapply tells_bind; [apply tells_create_incident_op|]. intros. by apply tells_ret.
  - apply tells_discloses. eapply tells_bind; [apply tells_post_update|]. intros. by apply tells_ret.
  - apply tells_discloses. eapply tells_bind; [apply tells_update_incident_op|]. intros. by apply tells_ret.
  - apply tells_discloses. eapply tells_bind; [apply tells_delete_incident|]. intros. by apply tells_ret.
  - apply tells_discloses. eapply tells_bind; [apply tells_create_window|]. intros. by apply tells_ret.
  - apply tells_discloses. eapply tells_bind; [apply tells_update_window|]. intros. by apply tells_ret.
  - apply tells_discloses. eapply tells_bind; [apply tells_delete_maintenance|]. intros. by apply tells_ret.
Qed.
End Discretion.
