(* ===== verification/StatusCorrect.v ===== *)
(** * Status page: what it promises

    The theorems on the status page, their witnesses on concrete runs, and the
    runs that show what the page does not promise. *)

From S2P Require Import Prelude.
From S2P Require Import Tables.
From S2P Require Import GoStrings.
From S2P Require Import AlertModel.
From S2P Require Import Container.
From S2P Require Import Status.
From S2P Require Import StatusService.
From S2P Require Import StatusAdmin.
From S2P Require Import StatusMaintenance.
From S2P Require Import StatusHistory.
From S2P Require Import StatusIncidents.
From S2P Require Import StatusPublic.

#[local] Open Scope string_scope.
#[local] Open Scope list_scope.
#[local] Open Scope Z_scope.

(** C38: maintenance gives every component its status back.  After any history of
    the page - windows created, edited, deleted, opened and closed by the clock,
    overlapping or not, components created, edited and deleted, alerts and
    incidents - in which no store call fails and no operator edits the override of
    a component under maintenance, a component is shown under maintenance exactly
    while a running window covers it, and otherwise has the override its operators
    last chose. *)
Theorem maintenance_restores_overrides `{Licence : !PageLicense} visit parse_rfc3339 ops (w : world page) c :
  let s := w_st (history visit parse_rfc3339 ops w) in
  (∀ l, visit l ≡ₚ l) → w_st w = empty_page → fault_free w → careful visit parse_rfc3339 ops w = true →
  c ∈ db_components s →
  cp_StatusOverride c =
    if covered s (cp_ID c) then Some StatusUnderMaint
    else chosen visit parse_rfc3339 (λ _, None) ops w (cp_ID c).
Proof.
  cbv zeta. intros Hv He Hff Hcare Hc.
  assert (restored (λ _, None) (w_st w)) as H0 by (rewrite He; by apply restored_empty).
  pose proof (history_restored visit parse_rfc3339 Hv ops _ w Hff H0 Hcare) as [_ Ha _].
  specialize (Ha c Hc). destruct (covered _ _); apply Ha.
Qed.


(** C39: the public page is told of visible components only.  Whatever fails, the
    events an operation sends to it identify and name components that are visible,
    before the operation or after it, and tell of their monitors the public form
    alone. *)
Theorem public_page_discreet `{Licence : !PageLicense} visit parse_rfc3339 o (w : world page) :
  let w' := (perform visit parse_rfc3339 o w).2 in
  ∃ new, public_events (w_st w') = public_events (w_st w) ++ new
    ∧ Forall (discreet (shown (w_st w) ++ shown (w_st w'))) new.
Proof. apply (wp_perform_discloses visit parse_rfc3339 o w). Qed.

(** ** Concrete runs *)

Module StatusRuns.
Definition open_licence : PageLicense := {| subscriptions_enabled := λ _, true; component_limit := λ _, -1 |}.
#[local] Existing Instance open_licence.

(** A second passes with every consultation. *)
Definition ticking : env := Env (λ _, false) (λ n, Z.of_nat n * second) (env_uid (calm 0)).
Definition start : world page := World ticking 0%nat empty_page.

Definition parse_time (s : string) : option Z :=
  if bool_decide (s = "T0") then Some 0 else if bool_decide (s = "T61") then Some (61 * second)
  else if bool_decide (s = "T65") then Some (65 * second) else None.

Definition web : CreateComponentRequest :=
  MkCreateComponent "" [MkMonitorRef "endpoint" "e1" "" "" ""] "" "Web" 0 None true.
Definition to_degraded : UpdateComponentRequest := MkUpdateComponent None None None None None None (Some "degraded") None.
Definition window (until_ : string) : CreateMaintenanceRequest := MkCreateMaintenance "Move" "" "T0" until_ ["id2"].

(** Two windows overlap, the second outlives the first. *)
Definition overlap : list page_op :=
  [OpCreateComponent (Some web); OpUpdateComponent "id2" (Some to_degraded);
   OpCreateWindow (Some (window "T61")); OpCreateWindow (Some (window "T65")); OpTick; OpTick; OpTick].

Definition overrides (ops : list page_op) : list (option string) * bool :=
  let s := w_st (history id parse_time ops start) in (cp_StatusOverride <$> db_components s, covered s "id2").

Example overlap_run :
  (λ n, overrides (take n overlap)) <$> [4; 5; 6; 7]%nat =
  [([Some "degraded"], false); ([Some StatusUnderMaint], true); ([Some StatusUnderMaint], true); ([Some "degraded"], false)].
Proof. vm_compute. reflexivity. Qed.

Definition overlap_end : page := w_st (history id parse_time overlap start).
Definition web_row : Component :=
  match db_components overlap_end with c :: _ => c | [] => MkComponent "" "" [] "" "" 0 false None None false false 0 0 end.

Lemma maintenance_restores_overrides_witness :
  cp_StatusOverride web_row =
    if covered overlap_end (cp_ID web_row) then Some StatusUnderMaint
    else chosen id parse_time (λ _, None) overlap start (cp_ID web_row).
Proof.
  apply (maintenance_restores_overrides id parse_time overlap start web_row).
  - done.
  - done.
  - intros n. done.
  - vm_compute. reflexivity.
  - apply (list_elem_of_lookup_2 _ 0%nat). vm_compute. reflexivity.
Defined.

(** An endpoint two components aggregate. *)
Definition site (id name : string) : Component :=
  MkComponent id CompositionExplicit [] "" name 0 true None None true false 0 0.
Definition aggregates (id monitor : string) : monitor_row := MkMonitorRow id "endpoint" monitor "".

Definition alarm (recover : bool) : Event :=
  MkEvent "endpoint" "endpoint_down" "critical" recover "down" "endpoint" "e1" "e1" "" DetailsNil 0.

Definition outage : page :=
  empty_page <| db_components := [site "a" "API"; site "b" "Web"] |>
    <| db_monitors := [aggregates "a" "e1"; aggregates "b" "e1"; aggregates "a" "e2"] |>
    <| pg_status := {[("endpoint", "e1") := StatusMajorOutage]} |>.

Lemma ticking_uid_injective n m : env_uid ticking n = env_uid ticking m → n = m.
Proof.
  cbn. intros [= H]. change (pretty (N.of_nat n) = pretty (N.of_nat m)) in H.
  apply (inj (pretty (A := N))) in H. by apply Nat2N.inj.
Qed.

Lemma outage_ready : ready (World ticking 0%nat outage).
Proof.
  split; [done|constructor|by intros i c ?%elem_of_nil|]. split; [apply ticking_uid_injective|..]; by intros n _ ?%elem_of_nil.
Qed.


Example outage_run :
  (λ c, length (naming c (w_st (st_HandleAlertEvent (alarm false) (World ticking 0%nat outage)).2))) <$> ["a"; "b"] = [1%nat; 1%nat].
Proof. vm_compute. reflexivity. Qed.

(** ** What is not promised *)

Definition incident (id : string) : Incident :=
  MkIncident id "Outage" SeverityMajor IncidentInvestigating false None [] [] 0 None 0.

(** An incident that names two components is closed by the recovery of one of
    them, after the other, which is still down, was found to have it: no open
    incident is left for the one that is down. *)
Definition shared_outage : page :=
  outage <| pg_status := {[("endpoint", "e2") := StatusMajorOutage]} |>
    <| db_incidents := [incident "i"] |> <| db_incident_components := [("i", "a"); ("i", "b")] |>.

Example shared_incident_lost :
  let s := w_st (st_HandleAlertEvent (alarm true) (World ticking 0%nat shared_outage)).2 in
  (DeriveComponentStatus s (with_monitors s (site "a" "API")), naming "a" shared_outage, naming "a" s)
  = (StatusPartialOutage, ["i"], []).
Proof. vm_compute. reflexivity. Qed.

(** A recovery that comes during maintenance leaves the incident of the outage
    open, and nothing closes it once the window is over. *)
Definition covered_outage : page :=
  empty_page <| db_components := [site "a" "API" <| cp_StatusOverride := Some StatusUnderMaint |>] |>
    <| db_monitors := [aggregates "a" "e1"] |> <| db_incidents := [incident "i"] |> <| db_incident_components := [("i", "a")] |>
    <| db_windows := [MkWindow "w" "Move" "" 0 second true None [] 0 0] |> <| db_window_components := [("w", "a")] |>.

Example recovery_missed :
  let w := (quietly (st_HandleAlertEvent (alarm true)) (World ticking 0%nat covered_outage)).2 in
  let s := w_st (history id parse_time [OpTick; OpTick] w) in
  (cp_StatusOverride <$> db_components s, naming "a" s) = ([None], ["i"]).
Proof. vm_compute. reflexivity. Qed.

(** An override chosen while a window runs is lost when a second window that
    covers the component opens. *)
Definition edited_between : list page_op :=
  [OpCreateComponent (Some web); OpCreateWindow (Some (window "T61")); OpTick; OpUpdateComponent "id2" (Some to_degraded);
   OpCreateWindow (Some (window "T65")); OpTick; OpTick; OpTick; OpTick; OpTick].

Example edit_lost :
  (λ n, overrides (take n edited_between)) <$> [3; 4; 6; 10]%nat =
  [([Some StatusUnderMaint], true); ([Some "degraded"], true); ([Some StatusUnderMaint], true); ([None], false)].
Proof. vm_compute. reflexivity. Qed.

(** A store that fails when a window opens gives the page one more incident at
    every tick; one that fails when it closes leaves the component under
    maintenance for good. *)
Definition failing (bad : nat → bool) : env := Env bad (env_now ticking) (env_uid ticking).

Definition one_window (active : bool) (override : option string) : page :=
  empty_page <| db_components := [site "a" "API" <| cp_StatusOverride := override |>] |>
    <| db_windows := [MkWindow "w" "Move" "" 0 (if active then 0 else 1000 * second) active None [] 0 0] |>
    <| db_window_components := [("w", "a")] |>.

Definition after_ticks (bad : nat → bool) (n : nat) (s : page) : page :=
  w_st (history id parse_time (repeat OpTick n) (World (failing bad) 0%nat s)).

Example release_lost :
  let s := after_ticks (λ n, bool_decide (n = 6%nat)) 3 (one_window true (Some StatusUnderMaint)) in
  (mw_Active <$> db_windows s, cp_StatusOverride <$> db_components s) = ([false], [Some StatusUnderMaint]).
Proof. vm_compute. reflexivity. Qed.

Example activation_repeated :
  let s := after_ticks (λ n, bool_decide (n = 8%nat)) 2 (one_window false None) in
  (mw_Active <$> db_windows s, length (db_incidents s)) = ([true], 2%nat).
Proof. vm_compute. reflexivity. Qed.
End StatusRuns.
