(* ===== verification/UpdateTags.v ===== *)
(** * Image updates: tags and versions

    [src/internal/update/semver.go], [tagfilter.go] and [tagparse.go]: which tag of
    a repository is the update of the one a container runs.  Versions are those of
    Masterminds/semver, a library: [Semver] is what the code uses of it, and
    [SemverLaws] the order its documentation promises.  [sort.Slice] promises no
    order among equals: it is any function that sorts.  Regular expressions are
    predicates. *)

From S2P Require Import Prelude.
From S2P Require Import GoStrings.
From Stdlib Require Import Ascii.
From stdpp Require Import sorting.

#[local] Open Scope string_scope.
#[local] Open Scope list_scope.
#[local] Open Scope Z_scope.

Class Semver := {
  version : Type;
  NewVersion : string → option version;
  Major : version → Z;
  Minor : version → Z;
  Patch : version → Z;
  Prerelease : version → string;
  Compare : version → version → comparison;
}.

Definition LessThan `{Semver} (a b : version) : bool := match Compare a b with Lt => true | _ => false end.
Definition GreaterThan `{Semver} (a b : version) : bool := match Compare a b with Gt => true | _ => false end.

(** A total order, by the numbers first; a release is above its prereleases. *)
Class SemverLaws `{Semver} := {
  Major_nonneg v : 0 ≤ Major v;
  Compare_refl v : Compare v v = Eq;
  Compare_flip a b : Compare b a = CompOpp (Compare a b);
  Compare_trans a b c : Compare a b ≠ Gt → Compare b c ≠ Gt → Compare a c ≠ Gt;
  Compare_numbers a b :
    Compare a b = Lt → Major a < Major b ∨ Major a = Major b ∧ (Minor a < Minor b ∨ Minor a = Minor b ∧ Patch a ≤ Patch b);
  Compare_release a b :
    Prerelease a = "" → Prerelease b = "" → Major a = Major b → Minor a = Minor b → Patch a = Patch b → Compare a b = Eq;
}.

Definition UpdateTypeMajor := "major".
Definition UpdateTypeMinor := "minor".
Definition UpdateTypePatch := "patch".
Definition UpdateTypeDigestOnly := "digest_only".
Definition UpdateTypeUnknown := "unknown".

Definition TrackMajor := "major".
Definition TrackMinor := "minor".
Definition TrackPatch := "patch".
Definition TrackDigest := "digest".

(** ** Tags *)

Definition knownVariantSuffixes : list string :=
  ["-slim-bookworm"; "-slim-bullseye"; "-slim-buster"; "-alpine3.21"; "-alpine3.20"; "-alpine3.19"; "-alpine3.18"; "-alpine";
   "-bookworm"; "-bullseye"; "-buster"; "-noble"; "-jammy"; "-focal"].

(** [tag[:len(tag)-n]] and [tag[len(tag)-n:]]. *)
Definition cut_end (tag : string) (n : nat) : string * string :=
  let l := to_bytes tag in (of_bytes (take (length l - n) l), of_bytes (drop (length l - n) l)).

Fixpoint split_suffix (tag : string) (suffixes : list string) : string * string :=
  match suffixes with
  | [] => (tag, "")
  | suffix :: suffixes =>
    if HasSuffix (ToLower tag) suffix then cut_end tag (length (to_bytes suffix)) else split_suffix tag suffixes
  end.

Definition splitVariant (tag : string) : string * string := split_suffix tag knownVariantSuffixes.

Definition EqualFold (a b : string) : bool := bool_decide (ToLower a = ToLower b).

(** The bytes before the first one of [set]. *)
Fixpoint before_any (set : list ascii) (l : bytes) : bytes :=
  match l with
  | [] => []
  | b :: l => if bool_decide (b ∈ set) then [] else b :: before_any set l
  end.

Definition count_byte (b : ascii) (l : bytes) : Z := Z.of_nat (length (filter (λ x, x = b) l)).

Definition semverPrecision (versionPart : string) : Z :=
  count_byte "." (before_any ["-"%char; "+"%char] (to_bytes (TrimPrefix versionPart "v"))) + 1.

Definition hasVPrefix (versionPart : string) : bool := HasPrefix versionPart "v".

(** The digits of a number; a 64-bit one has at most 20. *)
Fixpoint digits_below (fuel : nat) (n : Z) : Z :=
  match fuel with
  | O => 1
  | S fuel => if bool_decide (10 ≤ n) then 1 + digits_below fuel (n / 10) else 1
  end.
Definition digitCount (n : Z) : Z := digits_below 20 n.

(** ** Filters *)

Record TagFilter := MkTagFilter {
  tf_include : option (string → bool);
  tf_exclude : option (string → bool);
  tf_variant : string;
}.

Definition same_variant (variant tag : string) : bool := EqualFold (splitVariant tag).2 variant.

Definition Filter (f : TagFilter) (tags : list string) : list string :=
  let result :=
    match tf_include f with
    | Some include => filter (λ tag, include tag = true) tags
    | None => if bool_decide (tf_variant f = "") then tags
              else filter (λ tag, same_variant (tf_variant f) tag = true) tags
    end in
  match tf_exclude f with
  | None => result
  | Some exclude => filter (λ tag, exclude tag = false) result
  end.

(** ** The operating system of a tag *)

Definition tagOSVariants : list (string * string) :=
  [("-alpine3.21", "Alpine:3.21"); ("-alpine3.20", "Alpine:3.20"); ("-alpine3.19", "Alpine:3.19"); ("-alpine3.18", "Alpine:3.18");
   ("-alpine", "Alpine:3.20"); ("-slim-bookworm", "Debian:12"); ("-bookworm", "Debian:12"); ("-slim-bullseye", "Debian:11");
   ("-bullseye", "Debian:11"); ("-slim-buster", "Debian:10"); ("-buster", "Debian:10"); ("-noble", "Ubuntu:24.04");
   ("-jammy", "Ubuntu:22.04"); ("-focal", "Ubuntu:20.04")].

(** The first two parts of the version after "alpine": there are two. *)
Definition alpine_version (lower : string) : string :=
  match Split (of_bytes (drop 6 (to_bytes lower))) "." with
  | major :: minor :: _ => "Alpine:" +:+ major +:+ "." +:+ minor
  | _ => "Alpine:3.20"
  end.

Definition ParseTagOSVariant (tag : string) : option string :=
  if bool_decide (tag = "") then None
  else
    let lower := ToLower tag in
    if HasPrefix lower "alpine3." then Some (alpine_version lower)
    else if bool_decide (lower = "alpine") then Some "Alpine:3.20"
    else if bool_decide (lower = "bookworm") || bool_decide (lower = "bookworm-slim") then Some "Debian:12"
    else if bool_decide (lower = "bullseye") || bool_decide (lower = "bullseye-slim") then Some "Debian:11"
    else if bool_decide (lower = "noble") then Some "Ubuntu:24.04"
    else if bool_decide (lower = "jammy") then Some "Ubuntu:22.04"
    else if bool_decide (lower = "focal") then Some "Ubuntu:20.04"
    else snd <$> head (filter (λ v, HasSuffix lower v.1 = true) tagOSVariants).

(** ** The best update *)

Section Versions.
Context `{Masterminds : Semver}.

Definition ParseTag (tag : string) : option version := NewVersion tag.

Definition ClassifyUpdate (current latest : version) : string :=
  if bool_decide (Major current < Major latest) then UpdateTypeMajor
  else if bool_decide (Minor current < Minor latest) then UpdateTypeMinor
  else if bool_decide (Patch current < Patch latest) then UpdateTypePatch
  else UpdateTypeUnknown.

Record tagVersion := MkTagVersion {
  tv_original : string;
  tv_version : version;
}.

(** A tag of the list, as a candidate. *)
Definition tag_candidate (variant : string) (requireDots : bool) (precision : Z) (tag : string) : option tagVersion :=
  let '(versionPart, tv) := splitVariant tag in
  if negb (EqualFold tv variant) then None
  else if requireDots && negb (Contains (TrimPrefix versionPart "v") ".") then None
  else if bool_decide (0 < precision) && negb (bool_decide (semverPrecision versionPart = precision)) then None
  else match NewVersion versionPart with
  | None => None
  | Some v => if negb (bool_decide (Prerelease v = "")) then None else Some (MkTagVersion tag v)
  end.

Definition isFixedVersionTag (tag : string) : bool :=
  let versionPart := (splitVariant tag).1 in
  match NewVersion versionPart with
  | None => false
  | Some _ => bool_decide (3 ≤ semverPrecision versionPart)
  end.

Definition digestOnly (currentTag : string) (allTags : list string) : string * string :=
  if bool_decide (currentTag ∈ allTags) then (currentTag, UpdateTypeDigestOnly) else ("", UpdateTypeUnknown).

Definition withinTrack (current candidate : version) (level : string) : bool :=
  if bool_decide (level = TrackMinor) then bool_decide (Major candidate = Major current)
  else if bool_decide (level = TrackPatch) then
    bool_decide (Major candidate = Major current) && bool_decide (Minor candidate = Minor current)
  else true.

(** A candidate that is newer and stays in the track. *)
Definition newer (currentVer : version) (level : string) (c : tagVersion) : bool :=
  GreaterThan (tv_version c) currentVer && withinTrack currentVer (tv_version c) level.

(** A candidate written like the current tag that is no build number. *)
Definition same_shape (currentVer : version) (versionPart : string) (c : tagVersion) : bool :=
  Bool.eqb (hasVPrefix (splitVariant (tv_original c)).1) (hasVPrefix versionPart)
  && negb (bool_decide (digitCount (Major currentVer) + 1 < digitCount (Major (tv_version c)))).

(** The loop keeps the last one that passes. *)
Definition last_such (p : tagVersion → bool) (l : list tagVersion) : option tagVersion :=
  foldl (λ best c, if p c then Some c else best) None l.

(** [sort.Slice] with the order of the versions. *)
Context (sort_Slice : list tagVersion → list tagVersion).

Definition sortTagVersions (tags : list string) (variant : string) (requireDots : bool) (precision : Z) : list tagVersion :=
  sort_Slice (omap (tag_candidate variant requireDots precision) tags).

Definition bestFloatingUpdate (currentVer : version) (versionPart variant : string) (allTags : list string) (level : string)
    : option tagVersion :=
  last_such (λ c, same_shape currentVer versionPart c && newer currentVer level c)
    (sortTagVersions allTags variant false (semverPrecision versionPart)).

Definition findBestUpdate (currentTag : string) (allTags : list string) (level : string) : string * string :=
  let '(versionPart, variant) := splitVariant currentTag in
  match NewVersion versionPart with
  | None => digestOnly currentTag allTags
  | Some currentVer =>
    if bool_decide (semverPrecision versionPart < 3) then
      match bestFloatingUpdate currentVer versionPart variant allTags level with
      | None => digestOnly currentTag allTags
      | Some best => (tv_original best, ClassifyUpdate currentVer (tv_version best))
      end
    else
      match last_such (newer currentVer level) (sortTagVersions allTags variant true 0) with
      | None => ("", UpdateTypeUnknown)
      | Some best => (tv_original best, ClassifyUpdate currentVer (tv_version best))
      end
  end.

(** ** What the best update is *)

(** The version of a tag that may be proposed for the current one. *)
Definition eligible (currentTag level tag : string) : option version :=
  let '(versionPart, variant) := splitVariant currentTag in
  match NewVersion versionPart with
  | None => None
  | Some cur =>
    let floating := bool_decide (semverPrecision versionPart < 3) in
    match tag_candidate variant (negb floating) (if floating then semverPrecision versionPart else 0) tag with
    | Some c => if (negb floating || same_shape cur versionPart c) && newer cur level c then Some (tv_version c) else None
    | None => None
    end
  end.

(** What an eligible tag is, next to the current version. *)
Record proposed (currentTag level tag : string) (cur v : version) : Prop := {
  pr_variant : EqualFold (splitVariant tag).2 (splitVariant currentTag).2 = true;
  pr_version : NewVersion (splitVariant tag).1 = Some v;
  pr_release : Prerelease v = "";
  pr_newer : Compare cur v = Lt;
  pr_minor : level = TrackMinor → Major v = Major cur;
  pr_patch : level = TrackPatch → Major v = Major cur ∧ Minor v = Minor cur;
}.

(** The bump from a version to a newer one. *)
Definition bump (cur v : version) : string :=
  if bool_decide (Major cur = Major v) then
    if bool_decide (Minor cur = Minor v) then
      if bool_decide (Patch cur = Patch v) then UpdateTypeUnknown else UpdateTypePatch
    else UpdateTypeMinor
  else UpdateTypeMajor.

Context `{Laws : !SemverLaws}.

Lemma classify_bump cur v : Compare cur v = Lt → ClassifyUpdate cur v = bump cur v.
Proof.
  intros H%Compare_numbers. unfold ClassifyUpdate, bump. repeat case_bool_decide; try done; lia.
Qed.

Lemma GreaterThan_Lt a b : GreaterThan a b = true ↔ Compare b a = Lt.
Proof. unfold GreaterThan. rewrite (Compare_flip a b). by destruct (Compare a b). Qed.

Lemma LessThan_not_Gt a b : LessThan b a = false ↔ Compare a b ≠ Gt.
Proof. unfold LessThan. rewrite (Compare_flip a b). by destruct (Compare a b). Qed.

Lemma tag_candidate_Some variant dots precision tag c :
  tag_candidate variant dots precision tag = Some c →
  tv_original c = tag ∧ EqualFold (splitVariant tag).2 variant = true ∧ NewVersion (splitVariant tag).1 = Some (tv_version c)
  ∧ Prerelease (tv_version c) = "".
Proof.
  unfold tag_candidate. destruct (splitVariant tag) as [versionPart tv] eqn:E. cbn.
  destruct (EqualFold tv variant) eqn:Ef; [|done]. cbn. destruct (dots && _); [done|]. destruct (bool_decide _ && _); [done|].
  destruct (NewVersion versionPart) as [v|] eqn:Ev; [|done]. destruct (bool_decide_reflect (Prerelease v = "")); [|done].
  by intros [= <-].
Qed.

Lemma eligible_proposed currentTag level tag v :
  eligible currentTag level tag = Some v →
  ∃ cur, NewVersion (splitVariant currentTag).1 = Some cur ∧ proposed currentTag level tag cur v.
Proof.
  unfold eligible. destruct (splitVariant currentTag) as [versionPart variant] eqn:E.
  destruct (NewVersion versionPart) as [cur|] eqn:Ecur; [|done]. cbv zeta.
  destruct (tag_candidate _ _ _ _) as [c|] eqn:Ec; [|done]. destruct (_ && newer cur level c) eqn:En; [|done]. intros [= <-].
  apply tag_candidate_Some in Ec as (_ & Hv & Hp & Hr). apply andb_true_iff in En as [_ [Hgt Hw]%andb_true_iff].
  exists cur. split; [done|]. split; try done.
  - by rewrite E.
  - by apply GreaterThan_Lt.
  - intros ->. unfold withinTrack in Hw. rewrite bool_decide_eq_true_2 in Hw by done. by apply bool_decide_eq_true in Hw.
  - intros ->. unfold withinTrack in Hw. rewrite bool_decide_eq_false_2, bool_decide_eq_true_2 in Hw by done.
    by apply andb_true_iff in Hw as [H1%bool_decide_eq_true H2%bool_decide_eq_true].
Qed.

(** The last passing element of a sorted list is one of the greatest. *)
Lemma last_such_spec (p : tagVersion → bool) l :
  StronglySorted (λ a b, LessThan (tv_version b) (tv_version a) = false) l →
  match last_such p l with
  | Some c => c ∈ l ∧ p c = true ∧ ∀ c', c' ∈ l → p c' = true → LessThan (tv_version c) (tv_version c') = false
  | None => ∀ c', c' ∈ l → p c' = false
  end.
Proof.
  unfold last_such. induction l as [|c l IH] using rev_ind; intros Hs; [by intros c' ?%elem_of_nil|].
  rewrite foldl_snoc. apply StronglySorted_app in Hs as (Hcross & Hl & _). specialize (IH Hl).
  assert (∀ c', c' ∈ l → LessThan (tv_version c) (tv_version c') = false) as Hlast.
  { intros c' Hc'. apply (Hcross c' c Hc'). by apply list_elem_of_singleton. }
  destruct (p c) eqn:Hp.
  - split_and!; [apply elem_of_app; right; by left|done|]. intros c' [Hc'| ->%list_elem_of_singleton]%elem_of_app _; [by apply Hlast|].
    apply LessThan_not_Gt. by rewrite Compare_refl.
  - destruct (foldl _ None l) as [b|].
    + destruct IH as (Hb & Hpb & Hmax). split_and!; [apply elem_of_app; by left|done|].
      intros c' [Hc'| ->%list_elem_of_singleton]%elem_of_app Hpc'; [by apply Hmax|congruence].
    + intros c' [Hc'| ->%list_elem_of_singleton]%elem_of_app; [by apply IH|done].
Qed.

Definition sorts : Prop :=
  ∀ l, sort_Slice l ≡ₚ l ∧ StronglySorted (λ a b, LessThan (tv_version b) (tv_version a) = false) (sort_Slice l).

(** The last passing candidate among the tags of a repository. *)
Lemma best_candidate (p : tagVersion → bool) tags variant dots precision :
  sorts →
  match last_such p (sortTagVersions tags variant dots precision) with
  | Some c => tv_original c ∈ tags ∧ tag_candidate variant dots precision (tv_original c) = Some c ∧ p c = true
      ∧ ∀ tag c', tag ∈ tags → tag_candidate variant dots precision tag = Some c' → p c' = true →
        Compare (tv_version c') (tv_version c) ≠ Gt
  | None => ∀ tag c', tag ∈ tags → tag_candidate variant dots precision tag = Some c' → p c' = false
  end.
Proof.
  intros Hsort. destruct (Hsort (omap (tag_candidate variant dots precision) tags)) as [Hperm Hs].
  pose proof (last_such_spec p _ Hs) as H. unfold sortTagVersions. destruct (last_such p _) as [c|].
  - destruct H as (Hc & Hp & Hmax). rewrite Hperm in Hc. apply list_elem_of_omap in Hc as (tag & Htag & Hc).
    destruct (tag_candidate_Some _ _ _ _ _ Hc) as [Ho _]. rewrite Ho. split_and!; [done..|].
    intros tag' c' Htag' Hc' Hp'. apply LessThan_not_Gt, Hmax; [|done]. rewrite Hperm. apply list_elem_of_omap. eauto.
  - intros tag c' Htag Hc'. apply H. rewrite Hperm. apply list_elem_of_omap. eauto.
Qed.

(** What the search answers for a candidate [v] of the current version. *)
Definition answers (currentTag level : string) (tags : list string) (v : version) (r : string * string) : Prop :=
  ∃ cur v', NewVersion (splitVariant currentTag).1 = Some cur ∧ eligible currentTag level r.1 = Some v'
    ∧ r.1 ∈ tags ∧ proposed currentTag level r.1 cur v' ∧ r.2 = bump cur v' ∧ Compare v v' ≠ Gt.

Lemma best_of_candidates currentTag level tags cur floating :
  sorts → NewVersion (splitVariant currentTag).1 = Some cur →
  floating = bool_decide (semverPrecision (splitVariant currentTag).1 < 3) →
  let p := λ c, (negb floating || same_shape cur (splitVariant currentTag).1 c) && newer cur level c in
  let best := last_such p (sortTagVersions tags (splitVariant currentTag).2 (negb floating)
    (if floating then semverPrecision (splitVariant currentTag).1 else 0)) in
  match best with
  | Some c => ∀ tag v, tag ∈ tags → eligible currentTag level tag = Some v →
      answers currentTag level tags v (tv_original c, ClassifyUpdate cur (tv_version c))
  | None => ∀ tag, tag ∈ tags → eligible currentTag level tag = None
  end
  ∧ (best = None ∨ ∃ tag v, tag ∈ tags ∧ eligible currentTag level tag = Some v).
Proof.
  intros Hsort Hcur Hfl p best.
  assert (∀ tag, eligible currentTag level tag = match tag_candidate (splitVariant currentTag).2 (negb floating)
      (if floating then semverPrecision (splitVariant currentTag).1 else 0) tag with
    | Some c => if p c then Some (tv_version c) else None | None => None end) as Hel.
  { intros tag. unfold eligible. destruct (splitVariant currentTag) as [versionPart variant]. cbn in *. rewrite Hcur. by rewrite <- Hfl. }
  pose proof (best_candidate p tags (splitVariant currentTag).2 (negb floating)
    (if floating then semverPrecision (splitVariant currentTag).1 else 0) Hsort) as H. fold best in H. destruct best as [c|].
  - destruct H as (Hin & Hc & Hp & Hmax).
    assert (eligible currentTag level (tv_original c) = Some (tv_version c)) as Hbest by (by rewrite Hel, Hc, Hp).
    split; [|right; eauto]. intros tag v Htag Hv. exists cur, (tv_version c). cbn.
    destruct (eligible_proposed _ _ _ _ Hbest) as (cur' & Hcur' & Hpr). rewrite Hcur in Hcur'. injection Hcur' as <-.
    split_and!; [done..| |]; [apply classify_bump, Hpr|].
    rewrite Hel in Hv. destruct (tag_candidate _ _ _ tag) as [c'|] eqn:Ec'; [|done]. destruct (p c') eqn:Hp'; [|done].
    injection Hv as <-. by eapply Hmax.
  - split; [|by left]. intros tag Htag. rewrite Hel. destruct (tag_candidate _ _ _ tag) as [c'|] eqn:Ec'; [|done].
    by rewrite (H _ _ Htag Ec').
Qed.

(** C28: the update proposed for a tag is the best there is.  When some tag of the
    repository may be proposed - same variant, a release, newer, within the level
    the labels track, and for a floating tag of the same shape - the answer is such
    a tag, none of the others has a greater version, and the update is of the type
    of the first number that changes.  When none may, a fixed release has no update,
    and a tag the registry moves is left to the comparison of digests, as long as it
    is still published. *)
Theorem best_update_exact currentTag tags level :
  sorts →
  let r := findBestUpdate currentTag tags level in
  (∀ tag v, tag ∈ tags → eligible currentTag level tag = Some v → answers currentTag level tags v r)
  ∧ ((∀ tag, tag ∈ tags → eligible currentTag level tag = None) →
      r = if isFixedVersionTag currentTag then ("", UpdateTypeUnknown) else digestOnly currentTag tags).
Proof.
  intros Hsort. cbv zeta. unfold findBestUpdate, isFixedVersionTag. destruct (NewVersion (splitVariant currentTag).1) as [cur|] eqn:Hcur.
  2: { destruct (splitVariant currentTag) as [versionPart variant] eqn:E. cbn in Hcur. cbn. rewrite Hcur. split; [|done].
       intros tag v _. unfold eligible. by rewrite E, Hcur. }
  pose proof (best_of_candidates currentTag level tags cur _ Hsort Hcur eq_refl) as H. cbv zeta in H.
  destruct (splitVariant currentTag) as [versionPart variant] eqn:E. cbn [fst snd] in *. rewrite Hcur.
  unfold bestFloatingUpdate. destruct (bool_decide_reflect (semverPrecision versionPart < 3)); cbn [negb orb] in H.
  - rewrite (bool_decide_eq_false_2 (3 ≤ _)) by lia. destruct (last_such _ _) as [c|].
    + destruct H as [H1 [?|(tag & v & Htag & Hv)]]; [done|]. split; [done|]. intros Hno. by rewrite Hno in Hv.
    + destruct H as [H1 _]. split; [|done]. intros tag v Htag Hv. by rewrite H1 in Hv.
  - rewrite (bool_decide_eq_true_2 (3 ≤ _)) by lia. change (newer cur level) with (λ c, newer cur level c).
    destruct (last_such _ _) as [c|].
    + destruct H as [H1 [?|(tag & v & Htag & Hv)]]; [done|]. split; [done|]. intros Hno. by rewrite Hno in Hv.
    + destruct H as [H1 _]. split; [|done]. intros tag v Htag Hv. by rewrite H1 in Hv.
Qed.
End Versions.

(** ** Concrete versions *)

Module TagsExample.
Record dotted := MkDotted { do_major : Z; do_minor : Z; do_patch : Z; do_pre : string }.

(** Up to three numbers, then a prerelease after a dash. *)
Definition numbers (s : string) : option (list Z) := mapM Atoi (Split s ".").

Definition parse_dotted (s : string) : option dotted :=
  let s := TrimPrefix s "v" in
  let '(core, pre) := match Cut s "-" with Some (core, pre) => (core, pre) | None => (s, "") end in
  match numbers core with
  | Some [a] => if bool_decide (0 ≤ a) then Some (MkDotted a 0 0 pre) else None
  | Some [a; b] => if bool_decide (0 ≤ a) then Some (MkDotted a b 0 pre) else None
  | Some [a; b; c] => if bool_decide (0 ≤ a) then Some (MkDotted a b c pre) else None
  | _ => None
  end.

Definition rank (d : dotted) : Z := if bool_decide (do_pre d = "") then 1 else 0.

Definition below (a b : dotted) : bool :=
  bool_decide (do_major a < do_major b ∨ do_major a = do_major b ∧ (do_minor a < do_minor b ∨ do_minor a = do_minor b
    ∧ (do_patch a < do_patch b ∨ do_patch a = do_patch b ∧ rank a < rank b))).

#[local] Instance dotted_versions : Semver := {|
  version := { d : dotted | bool_decide (0 ≤ do_major d) = true };
  NewVersion s := match parse_dotted s with
    | Some d => match Bool.bool_dec (bool_decide (0 ≤ do_major d)) true with left H => Some (exist _ d H) | right _ => None end
    | None => None end;
  Major d := do_major (proj1_sig d); Minor d := do_minor (proj1_sig d); Patch d := do_patch (proj1_sig d);
  Prerelease d := do_pre (proj1_sig d);
  Compare a b := if below (proj1_sig a) (proj1_sig b) then Lt else if below (proj1_sig b) (proj1_sig a) then Gt else Eq;
|}.

#[local] Instance dotted_laws : SemverLaws.
Proof.
  split; cbn; unfold below.
  - intros [d Hd]. cbn. revert Hd. by case_bool_decide.
  - intros [a Ha]. cbn. rewrite bool_decide_eq_false_2; [done|lia].
  - intros [a Ha] [b Hb]. cbn. repeat case_bool_decide; (done || lia).
  - intros [a Ha] [b Hb] [c Hc]. cbn. repeat case_bool_decide; (done || lia).
  - intros [a Ha] [b Hb]. cbn. repeat case_bool_decide; try done. lia.
  - intros [a Ha] [b Hb]. cbn. intros Hpa Hpb H1 H2 H3. unfold rank. rewrite Hpa, Hpb. rewrite !bool_decide_eq_false_2; [done|lia..].
Qed.

Definition not_above : relation tagVersion := λ a b, LessThan (tv_version b) (tv_version a) = false.
#[local] Instance not_above_dec : RelDecision not_above.
Proof. intros ??. unfold not_above. apply _. Defined.
#[local] Instance not_above_total : Total not_above.
Proof. intros a b. unfold not_above. rewrite !LessThan_not_Gt, (Compare_flip (tv_version a)). destruct (Compare _ _); auto. Qed.
#[local] Instance not_above_trans : Transitive not_above.
Proof. intros a b c. unfold not_above. rewrite !LessThan_not_Gt. apply Compare_trans. Qed.

Lemma merge_sorts : sorts (merge_sort not_above).
Proof. intros l. split; [apply merge_sort_Permutation|]. apply (StronglySorted_merge_sort not_above). Qed.

Definition tags : list string := ["1.24.0-alpine"; "1.25.3-alpine"; "1.25.10-alpine"; "2.0.0-alpine"; "1.26.0"; "latest"; "608111629"].

Lemma best_update_exact_witness :
  let r := findBestUpdate (merge_sort not_above) "1.24.0-alpine" tags TrackMinor in
  r = ("1.25.10-alpine", UpdateTypeMinor)
  ∧ (∀ tag v, tag ∈ tags → eligible "1.24.0-alpine" TrackMinor tag = Some v → answers "1.24.0-alpine" TrackMinor tags v r).
Proof.
  split; [vm_compute; reflexivity|].
  apply (best_update_exact (merge_sort not_above) "1.24.0-alpine" tags TrackMinor merge_sorts).
Defined.

Definition found (current level : string) (tags : list string) : string * string :=
  findBestUpdate (merge_sort not_above) current tags level.

Example floating_stays : found "1.25" TrackMajor ["1.25"; "1.25.3"; "1.26.0"] = ("1.25", UpdateTypeDigestOnly).
Proof. vm_compute. reflexivity. Qed.

Example floating_moves : found "v3" TrackMajor ["v3"; "v4"; "5"; "608111629"] = ("v4", UpdateTypeMajor).
Proof. vm_compute. reflexivity. Qed.

(** The release of the candidate that runs is an update of unknown type: it has
    no risk score. *)
Example release_of_candidate : found "1.2.0-rc1" TrackMajor ["1.2.0-rc1"; "1.2.0"] = ("1.2.0", UpdateTypeUnknown).
Proof. vm_compute. reflexivity. Qed.
End TagsExample.
