(* ===== verification/UpdateModel.v ===== *)
(** * Image updates: data

    [src/internal/update/model.go], [labels.go], [registry.go]'s [RemoteDigests]
    and the image references of [scanner.go]: what a scan reads of a container,
    what its labels ask for, what it finds.  A compiled regular expression is the
    predicate it decides. *)

From Stdlib Require Import Ascii.
From S2P Require Import Prelude.
From S2P Require Import Tables.
From S2P Require Import GoStrings.
From S2P Require Import GoPath.
From S2P Require Import GoFloat.
From S2P Require Import Container.
From S2P Require Import UpdateTags.

#[local] Open Scope string_scope.
#[local] Open Scope list_scope.
#[local] Open Scope Z_scope.

Definition RiskLevelCritical := "critical".
Definition RiskLevelHigh := "high".
Definition RiskLevelModerate := "moderate".
Definition RiskLevelLow := "low".

Definition update_StatusAvailable := "available".
Definition update_StatusPinned := "pinned".

Definition ScanStatusRunning := "running".
Definition ScanStatusCompleted := "completed".
Definition ScanStatusFailed := "failed".

Definition ExclusionTypeImage := "image".
Definition ExclusionTypeTag := "tag".

Definition AlertOnAll := "all".
Definition AlertOnCritical := "critical".
Definition AlertOnNone := "none".

Record ContainerInfo := MkContainerInfo {
  ci_UID : string;
  ci_AgentID : string;
  ci_ExternalID : string;
  ci_Name : string;
  ci_Image : string;
  ci_Labels : gmap string string;
  ci_OrchestrationGroup : string;
  ci_OrchestrationUnit : string;
  ci_RuntimeType : string;
  ci_ControllerKind : string;
  ci_ComposeWorkingDir : string;
  ci_RepoDigests : list string;
  ci_LocallyBuilt : bool;
  ci_PodContainer : string;
  ci_SwarmService : string;
}.
#[export] Instance ContainerInfo_eta : Eta ContainerInfo := λ c,
  MkContainerInfo (ci_UID c) (ci_AgentID c) (ci_ExternalID c) (ci_Name c) (ci_Image c) (ci_Labels c) (ci_OrchestrationGroup c)
    (ci_OrchestrationUnit c) (ci_RuntimeType c) (ci_ControllerKind c) (ci_ComposeWorkingDir c) (ci_RepoDigests c)
    (ci_LocallyBuilt c) (ci_PodContainer c) (ci_SwarmService c).

Definition no_info : ContainerInfo := MkContainerInfo "" "" "" "" "" ∅ "" "" "" "" "" [] false "" "".

Record ScanRecord := MkScanRecord {
  sr_ID : string;
  sr_StartedAt : Z;
  sr_CompletedAt : option Z;
  sr_ContainersScanned : Z;
  sr_UpdatesFound : Z;
  sr_Errors : Z;
  sr_Status : string;
}.
#[export] Instance ScanRecord_eta : Eta ScanRecord := λ r,
  MkScanRecord (sr_ID r) (sr_StartedAt r) (sr_CompletedAt r) (sr_ContainersScanned r) (sr_UpdatesFound r) (sr_Errors r) (sr_Status r).
#[export] Instance ScanRecord_id : HasId ScanRecord := sr_ID.

(** [scan_id] is NULL once its scan is gone: a scan id is then missing. *)
Record ImageUpdate := MkImageUpdate {
  iu_ID : string;
  iu_ScanID : string;
  iu_ContainerID : string;
  iu_AgentID : string;
  iu_ContainerName : string;
  iu_Image : string;
  iu_CurrentTag : string;
  iu_CurrentDigest : string;
  iu_Registry : string;
  iu_LatestTag : string;
  iu_LatestDigest : string;
  iu_UpdateType : string;
  iu_PublishedAt : option Z;
  iu_ChangelogURL : string;
  iu_ChangelogSummary : string;
  iu_HasBreakingChanges : bool;
  iu_RiskScore : Z;
  iu_PreviousDigest : string;
  iu_SourceURL : string;
  iu_Status : string;
  iu_DetectedAt : Z;
}.
#[export] Instance ImageUpdate_eta : Eta ImageUpdate := λ u,
  MkImageUpdate (iu_ID u) (iu_ScanID u) (iu_ContainerID u) (iu_AgentID u) (iu_ContainerName u) (iu_Image u) (iu_CurrentTag u)
    (iu_CurrentDigest u) (iu_Registry u) (iu_LatestTag u) (iu_LatestDigest u) (iu_UpdateType u) (iu_PublishedAt u)
    (iu_ChangelogURL u) (iu_ChangelogSummary u) (iu_HasBreakingChanges u) (iu_RiskScore u) (iu_PreviousDigest u)
    (iu_SourceURL u) (iu_Status u) (iu_DetectedAt u).
#[export] Instance ImageUpdate_id : HasId ImageUpdate := iu_ID.

Record VersionPin := MkVersionPin {
  vp_ID : string;
  vp_ContainerID : string;
  vp_Image : string;
  vp_PinnedTag : string;
  vp_PinnedDigest : string;
  vp_Reason : string;
  vp_PinnedAt : Z;
}.
#[export] Instance VersionPin_eta : Eta VersionPin := λ p,
  MkVersionPin (vp_ID p) (vp_ContainerID p) (vp_Image p) (vp_PinnedTag p) (vp_PinnedDigest p) (vp_Reason p) (vp_PinnedAt p).
#[export] Instance VersionPin_id : HasId VersionPin := vp_ID.

Record UpdateExclusion := MkExclusion {
  ex_ID : string;
  ex_Pattern : string;
  ex_PatternType : string;
  ex_CreatedAt : Z;
}.
#[export] Instance UpdateExclusion_eta : Eta UpdateExclusion := λ e,
  MkExclusion (ex_ID e) (ex_Pattern e) (ex_PatternType e) (ex_CreatedAt e).
#[export] Instance UpdateExclusion_id : HasId UpdateExclusion := ex_ID.

Record UpdateResult := MkUpdateResult {
  ur_ContainerID : string;
  ur_ContainerUID : string;
  ur_ContainerName : string;
  ur_Image : string;
  ur_CurrentTag : string;
  ur_CurrentDigest : string;
  ur_Registry : string;
  ur_LatestTag : string;
  ur_LatestDigest : string;
  ur_UpdateType : string;
  ur_HasUpdate : bool;
  ur_ChangelogURL : string;
  ur_ChangelogSummary : string;
  ur_HasBreakingChanges : bool;
  ur_SourceURL : string;
  ur_PreviousDigest : string;
  ur_AlertOn : string;
}.

Record ScanError := MkScanError {
  se_ContainerID : string;
  se_ContainerName : string;
  se_Image : string;
  se_Error : error;
}.

Record StaleImageUpdate := MkStale {
  su_ContainerID : string;
  su_ContainerName : string;
  su_AgentID : string;
  su_ContainerUID : string;
}.
#[export] Instance StaleImageUpdate_eq_dec : EqDecision StaleImageUpdate.
Proof. solve_decision. Defined.

Record DigestBaseline := MkBaseline {
  dg_ContainerID : string;
  dg_Image : string;
  dg_Tag : string;
  dg_RemoteDigest : string;
  dg_CheckedAt : Z;
}.
#[export] Instance DigestBaseline_id : HasId DigestBaseline := dg_ContainerID.

Record CVECacheEntry := MkCVECacheEntry {
  ce_ID : string;
  ce_Ecosystem : string;
  ce_PackageName : string;
  ce_PackageVersion : string;
  ce_CVEID : string;
  ce_CVSSScore : float;
  ce_CVSSVector : string;
  ce_Severity : string;
  ce_Summary : string;
  ce_FixedIn : string;
  ce_ReferencesJSON : string;
  ce_FetchedAt : Z;
  ce_ExpiresAt : Z;
}.
#[export] Instance CVECacheEntry_eta : Eta CVECacheEntry := λ e,
  MkCVECacheEntry (ce_ID e) (ce_Ecosystem e) (ce_PackageName e) (ce_PackageVersion e) (ce_CVEID e) (ce_CVSSScore e)
    (ce_CVSSVector e) (ce_Severity e) (ce_Summary e) (ce_FixedIn e) (ce_ReferencesJSON e) (ce_FetchedAt e) (ce_ExpiresAt e).
#[export] Instance CVECacheEntry_id : HasId CVECacheEntry := ce_ID.

Record ContainerCVE := MkContainerCVE {
  cv_ID : string;
  cv_ContainerID : string;
  cv_CVEID : string;
  cv_Severity : string;
  cv_CVSSScore : float;
  cv_Summary : string;
  cv_FixedIn : string;
  cv_FirstDetectedAt : Z;
  cv_ResolvedAt : option Z;
}.
#[export] Instance ContainerCVE_eta : Eta ContainerCVE := λ c,
  MkContainerCVE (cv_ID c) (cv_ContainerID c) (cv_CVEID c) (cv_Severity c) (cv_CVSSScore c) (cv_Summary c) (cv_FixedIn c)
    (cv_FirstDetectedAt c) (cv_ResolvedAt c).
#[export] Instance ContainerCVE_id : HasId ContainerCVE := cv_ID.

Record CVEEvaluation := MkEvaluation {
  el_ContainerID : string;
  el_Status : string;
  el_EvaluatedAt : Z;
  el_Ecosystem : string;
  el_PackageName : string;
  el_PackageVersion : string;
  el_Error : string;
}.
#[export] Instance CVEEvaluation_eta : Eta CVEEvaluation := λ e,
  MkEvaluation (el_ContainerID e) (el_Status e) (el_EvaluatedAt e) (el_Ecosystem e) (el_PackageName e) (el_PackageVersion e)
    (el_Error e).
#[export] Instance CVEEvaluation_id : HasId CVEEvaluation := el_ContainerID.

Record RiskScoreRecord := MkRiskScoreRecord {
  rs_ID : string;
  rs_ContainerID : string;
  rs_Score : Z;
  rs_FactorsJSON : string;
  rs_RecordedAt : Z;
}.
#[export] Instance RiskScoreRecord_id : HasId RiskScoreRecord := rs_ID.

(** ** Risk *)

Definition BaseRiskScore (ut : string) : Z :=
  if bool_decide (ut = UpdateTypeMajor) then 85
  else if bool_decide (ut = UpdateTypeMinor) then 50
  else if bool_decide (ut = UpdateTypePatch) then 15
  else if bool_decide (ut = UpdateTypeDigestOnly) then 5
  else 0.

Definition RiskLevelFromScore (score : Z) : string :=
  if bool_decide (81 ≤ score) then RiskLevelCritical
  else if bool_decide (61 ≤ score) then RiskLevelHigh
  else if bool_decide (31 ≤ score) then RiskLevelModerate
  else RiskLevelLow.

(** ** Labels *)

(** [regexp.Compile]: a library that decides matches. *)
Class Regexp := { Compile : string → option (string → bool) }.

Record UpdateConfig := MkUpdateConfig {
  uc_Enabled : bool;
  uc_Track : string;
  uc_Pin : string;
  uc_IgnoreMajor : bool;
  uc_Registry : string;
  uc_AlertOn : string;
  uc_DigestOnly : bool;
  uc_TagInclude : option (string → bool);
  uc_TagExclude : option (string → bool);
}.

Definition parseLabelBool (value : string) : option bool :=
  let v := ToLower value in
  if bool_decide (v ∈ ["true"; "1"; "yes"]) then Some true
  else if bool_decide (v ∈ ["false"; "0"; "no"]) then Some false
  else None.

(** The value of one update label, trimmed.  Each label sets a field of its own,
    so the order the labels are read in does not matter. *)
Definition update_label (labels : gmap string string) (suffix : string) : option string :=
  TrimSpace <$> labels !! (UpdateLabelPrefix +:+ suffix).

Definition one_of (allowed : list string) (value : string) : option string :=
  let v := ToLower value in if bool_decide (v ∈ allowed) then Some v else None.

Definition ParseUpdateLabels `{Regexp} (labels : gmap string string) : UpdateConfig :=
  let bool_label suffix base := default base (update_label labels suffix ≫= parseLabelBool) in
  let regexp_label suffix :=
    update_label labels suffix ≫= λ value, if bool_decide (value = "") then None else Compile value in
  {| uc_Enabled := bool_label "enabled" true;
     uc_Track := default "" (update_label labels "track" ≫= one_of [TrackMajor; TrackMinor; TrackPatch; TrackDigest]);
     uc_Pin := default "" (update_label labels "pin");
     uc_IgnoreMajor := bool_label "ignore_major" false;
     uc_Registry := default "" (update_label labels "registry");
     uc_AlertOn := default AlertOnAll (update_label labels "alert_on" ≫= one_of [AlertOnAll; AlertOnCritical; AlertOnNone]);
     uc_DigestOnly := bool_label "digest_only" false;
     uc_TagInclude := regexp_label "tag-include";
     uc_TagExclude := regexp_label "tag-exclude" |}.

Definition TrackLevel (cfg : UpdateConfig) : string :=
  if uc_DigestOnly cfg then TrackDigest
  else
    let level := if bool_decide (uc_Track cfg = "") then TrackMajor else uc_Track cfg in
    if uc_IgnoreMajor cfg && bool_decide (level = TrackMajor) then TrackMinor else level.

(** ** Image references *)

(** [strings.Index] and [strings.LastIndex] at a position above 0. *)
Definition before_index (s sep : string) : string :=
  match bytes_index (to_bytes sep) (to_bytes s) with
  | Some (S i) => of_bytes (take (S i) (to_bytes s))
  | _ => s
  end.

Definition imageWithoutDigest (image : string) : string := before_index image "@".

(** The repository and the tag after the last colon, unless it is that of a port. *)
Definition split_tag (image : string) : string * string :=
  match last_index_byte ":"%char (to_bytes image) with
  | Some (S i) =>
    let possibleTag := of_bytes (drop (S (S i)) (to_bytes image)) in
    if Contains possibleTag "/" then (image, "latest") else (of_bytes (take (S i) (to_bytes image)), possibleTag)
  | _ => (image, "latest")
  end.

Definition dotted_host (host : string) : bool := Contains host "." || Contains host ":".

Definition ParseImageRef (image : string) : string * string * string :=
  let '(repo, tag) := split_tag (TrimPrefix (before_index image "@sha256:") "docker.io/") in
  let registry :=
    match Cut repo "/" with
    | Some (host, _) => if dotted_host host then host else "registry-1.docker.io"
    | None => "registry-1.docker.io"
    end in
  (repo, tag, registry).

Definition image_repo (image : string) : string := (ParseImageRef image).1.1.
Definition image_tag (image : string) : string := (ParseImageRef image).1.2.

Definition repositoryPath (repo : string) : string :=
  match Cut repo "/" with
  | Some (host, path) => if dotted_host host then path else repo
  | None => repo
  end.

Definition familiarRepo (repo : string) : string :=
  let repo := TrimPrefix (TrimPrefix repo "docker.io/") "index.docker.io/" in
  if HasPrefix repo "library/" && negb (Contains (TrimPrefix repo "library/") "/") then TrimPrefix repo "library/" else repo.

Definition repoDigestsFor (repoDigests : list string) (repo : string) : list string :=
  omap (λ rd, match Cut rd "@" with
              | Some (name, digest) => if bool_decide (familiarRepo name = familiarRepo repo) then Some digest else None
              | None => None
              end) repoDigests.

Definition runningDigest (c : ContainerInfo) (repo : string) : string :=
  match repoDigestsFor (ci_RepoDigests c) repo with
  | d :: _ => d
  | [] => match Cut (ci_Image c) "@" with Some (_, d) => d | None => "" end
  end.

Definition runningImage (c : ContainerInfo) : UpdateResult :=
  let '(repo, tag, registry) := ParseImageRef (ci_Image c) in
  {| ur_ContainerID := ci_ExternalID c; ur_ContainerUID := ci_UID c; ur_ContainerName := ci_Name c; ur_Image := ci_Image c;
     ur_CurrentTag := tag; ur_CurrentDigest := runningDigest c repo; ur_Registry := registry; ur_LatestTag := "";
     ur_LatestDigest := ""; ur_UpdateType := ""; ur_HasUpdate := false; ur_ChangelogURL := ""; ur_ChangelogSummary := "";
     ur_HasBreakingChanges := false; ur_SourceURL := ""; ur_PreviousDigest := ""; ur_AlertOn := "" |}.

Definition excluded_by (image tag : string) (e : UpdateExclusion) : bool :=
  let repo := image_repo image in
  if bool_decide (ex_PatternType e = ExclusionTypeImage) then existsb (Match (ex_Pattern e)) [repo; familiarRepo repo; image]
  else bool_decide (ex_PatternType e = ExclusionTypeTag) && Match (ex_Pattern e) tag.

Definition isExcluded (image tag : string) (exclusions : list UpdateExclusion) : bool := existsb (excluded_by image tag) exclusions.

(** What a reference points at in its registry. *)
Record RemoteDigests := MkRemoteDigests {
  rd_Digest : string;
  rd_Platforms : list string;
}.

Definition remote_Contains (d : RemoteDigests) (digest : string) : bool :=
  negb (bool_decide (digest = "")) && (bool_decide (digest = rd_Digest d) || bool_decide (digest ∈ rd_Platforms d)).

Example image_refs :
  ParseImageRef <$> ["nginx:1.25"; "ghcr.io/org/repo:v1.0"; "localhost:5000/app"; "docker.io/library/redis:7@sha256:ab"]
  = [("nginx", "1.25", "registry-1.docker.io"); ("ghcr.io/org/repo", "v1.0", "ghcr.io"); ("localhost:5000/app", "latest", "localhost:5000");
     ("library/redis", "7", "registry-1.docker.io")].
Proof. vm_compute. reflexivity. Qed.
