(* ===== verification/UpdateCommands.v ===== *)
(** * Image updates: the commands proposed to the user

    [src/internal/update/service.go]: the shell commands that update a container,
    put it back on its previous image or bring it to the fix of a vulnerability.
    They carry names and image references that come from labels and agents, so
    what matters is what a shell does with the text.  [shell] is a reference
    reading of the part of a POSIX shell such a text may use, an [option] that
    refuses everything a shell would expand, redirect or run in another way; each
    proposed command has the steps it stands for, and a shell reads exactly those
    steps, whatever the names, references and directories are. *)

From Stdlib Require Import Ascii.
From S2P Require Import Prelude.
From S2P Require Import GoStrings.
From S2P Require Import GoPath.
From S2P Require Import UpdateTags.
From S2P Require Import UpdateModel.

#[local] Open Scope string_scope.
#[local] Open Scope list_scope.
#[local] Open Scope Z_scope.

(** ** Quoting *)

Definition in_range (lo hi : ascii) (a : ascii) : bool := between (byte_of lo) (byte_of hi) (byte_of a).

Definition plain_byte (a : ascii) : bool :=
  in_range "a" "z" a || in_range "A" "Z" a || in_range "0" "9" a || bool_decide (a ∈ ["_"; "."; "/"; ":"; "@"; "-"]%char).

(** [strings.ReplaceAll(s, "'", `'\''`)]. *)
Definition escape_quotes (l : bytes) : bytes :=
  l ≫= λ a, if bool_decide (a = "'"%char) then ["'"; "\"; "'"; "'"]%char else [a].

Definition shellQuote (s : string) : string :=
  if negb (bool_decide (s = "")) && forallb plain_byte (to_bytes s) then s
  else of_bytes (["'"%char] ++ escape_quotes (to_bytes s) ++ ["'"%char]).

(** ** Commands *)

Definition unsafeFields (c : ContainerInfo) : bool :=
  existsb has_control
    [ci_Name c; ci_OrchestrationUnit c; ci_OrchestrationGroup c; ci_SwarmService c; ci_PodContainer c; ci_ControllerKind c].

Definition podContainer (c : ContainerInfo) : string :=
  if bool_decide (ci_PodContainer c = "") then ci_Name c else ci_PodContainer c.

Definition isCompose (c : ContainerInfo) : bool :=
  negb (bool_decide (ci_RuntimeType c = "kubernetes")) && negb (bool_decide (ci_OrchestrationGroup c = ""))
  && negb (bool_decide (ci_OrchestrationUnit c = "")).

Definition valid_dir (d : string) : bool :=
  negb (bool_decide (d = "")) && IsAbs d && bool_decide (Clean d = d) && negb (has_control d).

Definition composeDir (c : ContainerInfo) : string :=
  if valid_dir (ci_ComposeWorkingDir c) then shellQuote (ci_ComposeWorkingDir c) else "<compose-project-dir>".

Definition workload_kind (c : ContainerInfo) : string :=
  let kind := ToLower (ci_ControllerKind c) in if bool_decide (kind = "") then "pod" else kind.

Definition kubectlSetImage (c : ContainerInfo) (ref : string) : string :=
  "kubectl set image " +:+ shellQuote (workload_kind c) +:+ "/" +:+ shellQuote (ci_OrchestrationUnit c) +:+ " "
  +:+ shellQuote (podContainer c) +:+ "=" +:+ shellQuote ref +:+ " -n " +:+ shellQuote (ci_OrchestrationGroup c).

Definition swarmServiceUpdate (c : ContainerInfo) (ref : string) : string :=
  "docker service update --image " +:+ shellQuote ref +:+ " " +:+ shellQuote (ci_SwarmService c).

Definition newline : string := of_bytes [ascii_of_nat 10].

(** [docker pull], stop, remove and run. *)
Definition recreate (name ref : string) : string :=
  "docker pull " +:+ shellQuote ref +:+ newline +:+
  "docker stop " +:+ shellQuote name +:+ " && docker rm " +:+ shellQuote name +:+ newline +:+
  "docker run -d --name " +:+ shellQuote name +:+ " " +:+ shellQuote ref.

Definition GenerateUpdateCommand (c : ContainerInfo) (latestTag latestDigest : string) : string :=
  if unsafeFields c then ""
  else
    let '(repo, currentTag, _) := ParseImageRef (ci_Image c) in
    if bool_decide (ci_RuntimeType c = "kubernetes") || negb (bool_decide (ci_SwarmService c = "")) then
      let ref := repo +:+ ":" +:+ latestTag in
      let ref := if bool_decide (latestTag = currentTag) && negb (bool_decide (latestDigest = "")) then ref +:+ "@" +:+ latestDigest
                 else ref in
      if negb (bool_decide (ci_SwarmService c = "")) then swarmServiceUpdate c ref else kubectlSetImage c ref
    else if isCompose c then
      let svc := shellQuote (ci_OrchestrationUnit c) in
      if negb (bool_decide (latestTag = currentTag)) then
        "cd " +:+ composeDir c +:+ newline +:+
        "# Set the image of service " +:+ svc +:+ " to " +:+ shellQuote (repo +:+ ":" +:+ latestTag) +:+ " in the compose file, then:"
        +:+ newline +:+ "docker compose pull " +:+ svc +:+ newline +:+ "docker compose up -d " +:+ svc
      else
        "cd " +:+ composeDir c +:+ newline +:+ "docker compose pull " +:+ svc +:+ newline +:+
        "docker compose up -d --force-recreate " +:+ svc
    else recreate (ci_Name c) (repo +:+ ":" +:+ latestTag).

Section Commands.
Context `{Masterminds : Semver}.

Definition previousImageRef (image currentTag previousDigest : string) : string :=
  if negb (bool_decide (previousDigest = "")) then image_repo image +:+ "@" +:+ previousDigest
  else if isFixedVersionTag currentTag then image_repo image +:+ ":" +:+ currentTag
  else "".

Definition GenerateRollbackCommand (c : ContainerInfo) (u : ImageUpdate) : string :=
  if unsafeFields c then ""
  else
    let ref := previousImageRef (iu_Image u) (iu_CurrentTag u) (iu_PreviousDigest u) in
    if bool_decide (ref = "") then ""
    else if bool_decide (ci_RuntimeType c = "kubernetes") then kubectlSetImage c ref
    else if negb (bool_decide (ci_SwarmService c = "")) then swarmServiceUpdate c ref
    else if isCompose c then
      let svc := shellQuote (ci_OrchestrationUnit c) in
      let qref := shellQuote ref in
      if bool_decide (iu_LatestTag u = iu_CurrentTag u) then
        "cd " +:+ composeDir c +:+ newline +:+ "docker pull " +:+ qref +:+ newline +:+
        "docker tag " +:+ qref +:+ " " +:+ shellQuote (imageWithoutDigest (iu_Image u)) +:+ newline +:+
        "docker compose up -d --pull never --force-recreate " +:+ svc
      else
        "cd " +:+ composeDir c +:+ newline +:+
        "# Set the image of service " +:+ svc +:+ " back to " +:+ qref +:+ " in the compose file, then:"
        +:+ newline +:+ "docker compose up -d " +:+ svc
    else recreate (ci_Name c) ref.

Definition GenerateFixCommand (c : ContainerInfo) (currentTag fixedInVersion : string) : string :=
  if bool_decide (fixedInVersion = "") then ""
  else match ParseTag fixedInVersion, ParseTag currentTag with
  | Some fixVer, Some currentVer =>
    if negb (GreaterThan fixVer currentVer) then "" else GenerateUpdateCommand c fixedInVersion ""
  | _, _ => ""
  end.

Definition IsFixedByUpdate (latestTag fixedInVersion : string) : bool :=
  if bool_decide (fixedInVersion = "") || bool_decide (latestTag = "") then false
  else match ParseTag latestTag, ParseTag fixedInVersion with
  | Some latestVer, Some fixVer => negb (LessThan latestVer fixVer)
  | _, _ => false
  end.
End Commands.

(** ** What a shell makes of the commands *)

(** ** The shell *)

(** Between words, in a word, in single quotes, after a backslash, in a comment,
    after one ampersand. *)
Inductive sh_mode := Blank | InWord | Quoted | Escaped | Comment | Ampersand.

(** The lines read, each a list of commands joined by [&&]; the commands of the
    current line, the words of the current command, the current word. *)
Record sh_state := Sh {
  sh_lines : list (list (list bytes));
  sh_line : list (list bytes);
  sh_words : list bytes;
  sh_word : bytes;
  sh_in : sh_mode;
}.

Definition end_word (st : sh_state) : sh_state :=
  Sh (sh_lines st) (sh_line st) (sh_words st ++ [sh_word st]) [] Blank.

Definition end_command (st : sh_state) : option sh_state :=
  match sh_words st with
  | [] => None
  | words => Some (Sh (sh_lines st) (sh_line st ++ [words]) [] [] Blank)
  end.

Definition end_line (st : sh_state) : option sh_state :=
  match sh_words st, sh_line st with
  | [], [] => Some (Sh (sh_lines st) [] [] [] Blank)
  | [], _ => None
  | words, line => Some (Sh (sh_lines st ++ [line ++ [words]]) [] [] [] Blank)
  end.

Definition add_byte (a : ascii) (st : sh_state) : sh_state :=
  Sh (sh_lines st) (sh_line st) (sh_words st) (sh_word st ++ [a]) InWord.

Definition set_mode (m : sh_mode) (st : sh_state) : sh_state :=
  Sh (sh_lines st) (sh_line st) (sh_words st) (sh_word st) m.

Definition line_feed : ascii := ascii_of_nat 10.

(** An equals sign in the first word would be an assignment. *)
Definition sh_literal (st : sh_state) (a : ascii) : bool :=
  plain_byte a || Ascii.eqb a "=" && match sh_words st with [] => false | _ => true end.

Definition sh_unquoted (st : sh_state) (a : ascii) : option sh_state :=
  if Ascii.eqb a "'" then Some (set_mode Quoted st)
  else if Ascii.eqb a "\" then Some (set_mode Escaped st)
  else if sh_literal st a then Some (add_byte a st)
  else None.

Definition sh_step (st : sh_state) (a : ascii) : option sh_state :=
  match sh_in st with
  | Blank =>
    if Ascii.eqb a " " then Some st
    else if Ascii.eqb a line_feed then end_line st
    else if Ascii.eqb a "#" then Some (set_mode Comment st)
    else if Ascii.eqb a "&" then Some (set_mode Ampersand st)
    else sh_unquoted st a
  | InWord =>
    if Ascii.eqb a " " then Some (end_word st)
    else if Ascii.eqb a line_feed then end_line (end_word st)
    else if Ascii.eqb a "&" then Some (set_mode Ampersand (end_word st))
    else sh_unquoted st a
  | Quoted =>
    if Ascii.eqb a "'" then Some (set_mode InWord st)
    else Some (Sh (sh_lines st) (sh_line st) (sh_words st) (sh_word st ++ [a]) Quoted)
  | Escaped => if Ascii.eqb a line_feed then None else Some (add_byte a st)
  | Comment => if Ascii.eqb a line_feed then end_line st else Some st
  | Ampersand => if Ascii.eqb a "&" then end_command st else None
  end.

Fixpoint sh_bytes (st : sh_state) (l : bytes) : option sh_state :=
  match l with
  | [] => Some st
  | a :: l => match sh_step st a with Some st => sh_bytes st l | None => None end
  end.

Definition sh_run (st : sh_state) (text : string) : option sh_state := sh_bytes st (to_bytes text).

Definition texts (lines : list (list (list bytes))) : list (list (list string)) := map (map (map of_bytes)) lines.

(** The end of the text ends the line. *)
Definition sh_finish (st : sh_state) : option (list (list (list string))) :=
  match sh_in st with
  | Blank | Comment => texts ∘ sh_lines <$> end_line st
  | InWord => texts ∘ sh_lines <$> end_line (end_word st)
  | _ => None
  end.

(** What the text makes the shell run: the lines in order, the commands of a line
    each only if the one before it succeeded, the words of each command.  [None]
    when the text is anything but plain commands. *)
Definition shell (text : string) : option (list (list (list string))) :=
  sh_run (Sh [] [] [] [] Blank) text ≫= sh_finish.

(** ** The steps meant *)

Definition set_image_steps (c : ContainerInfo) (ref : string) : list (list (list string)) :=
  [[["kubectl"; "set"; "image"; workload_kind c +:+ "/" +:+ ci_OrchestrationUnit c; podContainer c +:+ "=" +:+ ref; "-n";
     ci_OrchestrationGroup c]]].

Definition service_update_steps (c : ContainerInfo) (ref : string) : list (list (list string)) :=
  [[["docker"; "service"; "update"; "--image"; ref; ci_SwarmService c]]].

Definition recreate_steps (name ref : string) : list (list (list string)) :=
  [[["docker"; "pull"; ref]]; [["docker"; "stop"; name]; ["docker"; "rm"; name]]; [["docker"; "run"; "-d"; "--name"; name; ref]]].

(** The steps in a compose project; its directory has to be known. *)
Definition compose_steps (c : ContainerInfo) (steps : list (list string)) : option (list (list (list string))) :=
  if valid_dir (ci_ComposeWorkingDir c) then Some ((λ step, [step]) <$> ["cd"; ci_ComposeWorkingDir c] :: steps) else None.

Definition update_plan (c : ContainerInfo) (latestTag latestDigest : string) : option (list (list (list string))) :=
  let ref := image_repo (ci_Image c) +:+ ":" +:+ latestTag in
  let pinned := if bool_decide (latestTag = image_tag (ci_Image c)) && negb (bool_decide (latestDigest = ""))
                then ref +:+ "@" +:+ latestDigest else ref in
  if negb (bool_decide (ci_SwarmService c = "")) then Some (service_update_steps c pinned)
  else if bool_decide (ci_RuntimeType c = "kubernetes") then Some (set_image_steps c pinned)
  else if isCompose c then
    let svc := ci_OrchestrationUnit c in
    compose_steps c
      (if bool_decide (latestTag = image_tag (ci_Image c))
       then [["docker"; "compose"; "pull"; svc]; ["docker"; "compose"; "up"; "-d"; "--force-recreate"; svc]]
       else [["docker"; "compose"; "pull"; svc]; ["docker"; "compose"; "up"; "-d"; svc]])
  else Some (recreate_steps (ci_Name c) ref).

Section Rollback.
Context `{Masterminds : Semver}.

Definition rollback_plan (c : ContainerInfo) (u : ImageUpdate) : option (list (list (list string))) :=
  let ref := previousImageRef (iu_Image u) (iu_CurrentTag u) (iu_PreviousDigest u) in
  if bool_decide (ref = "") then Some []
  else if bool_decide (ci_RuntimeType c = "kubernetes") then Some (set_image_steps c ref)
  else if negb (bool_decide (ci_SwarmService c = "")) then Some (service_update_steps c ref)
  else if isCompose c then
    let svc := ci_OrchestrationUnit c in
    compose_steps c
      (if bool_decide (iu_LatestTag u = iu_CurrentTag u)
       then [["docker"; "pull"; ref]; ["docker"; "tag"; ref; imageWithoutDigest (iu_Image u)];
             ["docker"; "compose"; "up"; "-d"; "--pull"; "never"; "--force-recreate"; svc]]
       else [["docker"; "compose"; "up"; "-d"; svc]])
  else Some (recreate_steps (ci_Name c) ref).
End Rollback.

(** ** Reading quoted words *)

Definition single_line (s : string) : Prop := line_feed ∉ to_bytes s.

Lemma sh_bytes_app st l k : sh_bytes st (l ++ k) = sh_bytes st l ≫= λ st, sh_bytes st k.
Proof. revert st. induction l as [|a l IH]; intros st; cbn; [done|]. by destruct (sh_step st a). Qed.

Lemma sh_run_app st s t st1 r :
  sh_run st s = Some st1 → (sh_run st1 t ≫= sh_finish) = r → (sh_run st (s +:+ t) ≫= sh_finish) = r.
Proof. unfold sh_run. intros H <-. by rewrite to_bytes_app, sh_bytes_app, H. Qed.

Lemma plain_not_special a :
  plain_byte a = true →
  Ascii.eqb a " " = false ∧ Ascii.eqb a line_feed = false ∧ Ascii.eqb a "#" = false ∧ Ascii.eqb a "&" = false
  ∧ Ascii.eqb a "'" = false ∧ Ascii.eqb a "\" = false.
Proof.
  intros H. split_and!;
    match goal with |- Ascii.eqb a ?b = false => destruct (Ascii.eqb_spec a b) as [->|]; [vm_compute in H; discriminate H|done] end.
Qed.

Lemma sh_step_plain st a :
  plain_byte a = true → sh_in st = Blank ∨ sh_in st = InWord → sh_step st a = Some (add_byte a st).
Proof.
  intros Ha Hm. unfold sh_step, sh_unquoted, sh_literal. destruct (plain_not_special a Ha) as (E1 & E2 & E3 & E4 & E5 & E6).
  rewrite E1, E2, E3, E4, E5, E6, Ha. by destruct Hm as [-> | ->].
Qed.

Lemma sh_plain_word d l ws w s :
  forallb plain_byte s = true →
  sh_bytes (Sh d l ws w InWord) s = Some (Sh d l ws (w ++ s) InWord).
Proof.
  revert w. induction s as [|a s IH]; intros w; cbn [forallb sh_bytes]; [by rewrite app_nil_r|].
  intros [Ha Hs]%andb_true_iff. rewrite sh_step_plain by (done || by right). unfold add_byte; cbn. rewrite IH by done.
  by rewrite <- app_assoc.
Qed.

Lemma sh_escaped d l ws w s :
  sh_bytes (Sh d l ws w Quoted) (escape_quotes s ++ ["'"%char]) = Some (Sh d l ws (w ++ s) InWord).
Proof.
  revert w. induction s as [|a s IH]; intros w; [by rewrite app_nil_r|].
  change (escape_quotes (a :: s)) with
    ((if bool_decide (a = "'"%char) then ["'"; "\"; "'"; "'"]%char else [a]) ++ escape_quotes s).
  destruct (bool_decide_reflect (a = "'"%char)) as [->|Hne].
  - assert (∀ k, sh_bytes (Sh d l ws w Quoted) ((["'"; "\"; "'"; "'"]%char ++ escape_quotes s) ++ k)
               = sh_bytes (Sh d l ws (w ++ ["'"%char]) Quoted) (escape_quotes s ++ k)) as -> by done.
    rewrite IH. by rewrite <- app_assoc.
  - assert (Ascii.eqb a "'" = false) as Ha by (by apply Ascii.eqb_neq).
    assert (sh_step (Sh d l ws w Quoted) a = Some (Sh d l ws (w ++ [a]) Quoted)) as Hstep by (unfold sh_step; by rewrite Ha).
    rewrite <- app_assoc. cbn [app sh_bytes]. rewrite Hstep, IH. by rewrite <- app_assoc.
Qed.

(** A quoted word adds its bytes to the word being read. *)
Lemma sh_quoted d l ws w m s :
  (m = Blank ∧ w = []) ∨ m = InWord →
  sh_run (Sh d l ws w m) (shellQuote s) = Some (Sh d l ws (w ++ to_bytes s) InWord).
Proof.
  intros Hm. unfold sh_run, shellQuote. destruct (negb (bool_decide (s = "")) && forallb plain_byte (to_bytes s)) eqn:E.
  - apply andb_true_iff in E as [Hs Hp]. destruct Hm as [[-> ->] | ->]; [|by apply sh_plain_word].
    destruct (to_bytes s) as [|a k] eqn:Es; [by destruct s|]. cbn in Hp. apply andb_true_iff in Hp as [Ha Hk].
    cbn [sh_bytes]. rewrite sh_step_plain by (done || by left). unfold add_byte; cbn. by rewrite sh_plain_word.
  - rewrite to_of_bytes. rewrite <- (sh_escaped d l ws w). by destruct Hm as [[-> ->] | ->].
Qed.

Lemma sh_quoted_blank d l ws s :
  sh_run (Sh d l ws [] Blank) (shellQuote s) = Some (Sh d l ws (to_bytes s) InWord).
Proof. apply sh_quoted. by left. Qed.

Lemma sh_quoted_word d l ws w s :
  sh_run (Sh d l ws w InWord) (shellQuote s) = Some (Sh d l ws (w ++ to_bytes s) InWord).
Proof. apply sh_quoted. by right. Qed.

(** ** Text without control characters stays on its line *)

Lemma runes_newline fuel (l : list Z) : (length l ≤ fuel)%nat → 10 ∈ l → [10] ∈ runes fuel l.
Proof.
  assert (∀ b, continuation b = true → b ≠ 10) as Hc.
  { intros b. unfold continuation, between. rewrite andb_true_iff, !bool_decide_eq_true. lia. }
  assert (∀ lo hi b, between lo hi b = true → 128 ≤ lo → b ≠ 10) as Hb.
  { intros lo hi b. unfold between. rewrite andb_true_iff, !bool_decide_eq_true. lia. }
  revert l. induction fuel as [|fuel IH]; intros l Hl Hin; [destruct l; [by apply elem_of_nil in Hin|cbn in Hl; lia]|].
  destruct l as [|b0 l]; [by apply elem_of_nil in Hin|]. cbn [runes]. destruct (decide (b0 = 10)) as [->|Hne]; [by left|].
  apply elem_of_cons in Hin as [?|Hin]; [done|].
  assert (10 ∈ drop (rune_length (b0 :: l)) (b0 :: l)) as Hdrop.
  { revert Hin. cbn [rune_length]. destruct (bool_decide (b0 < 128)); [by intros|]. destruct l as [|b1 l']; [by intros|].
    destruct (between 194 223 b0 && continuation b1) eqn:E1.
    { apply andb_true_iff in E1 as [_ E1%Hc]. cbn. set_solver. }
    destruct l' as [|b2 l'']; [by intros|]. destruct (_ && _ && continuation b2) eqn:E2.
    { apply andb_true_iff in E2 as [[_ E2]%andb_true_iff E3%Hc]. apply Hb in E2; [|case_bool_decide; lia]. cbn. set_solver. }
    destruct l'' as [|b3 l3]; [by intros|]. destruct (_ && _ && _ && continuation b3) eqn:E3.
    { apply andb_true_iff in E3 as [[[_ E3]%andb_true_iff E4%Hc]%andb_true_iff E5%Hc].
      apply Hb in E3; [|case_bool_decide; lia]. cbn. set_solver. }
    done. }
  right. apply IH; [|done]. rewrite length_drop.
  assert (1 ≤ rune_length (b0 :: l))%nat by (cbn; repeat case_match; lia). change (length (b0 :: l)) with (S (length l)) in *. lia.
Qed.

Lemma no_control_single_line s : has_control s = false → single_line s.
Proof.
  unfold has_control, single_line. intros H Hin. apply not_true_iff_false in H. apply H, existsb_exists.
  exists [10]. split; [|done]. apply list_elem_of_In, runes_newline; [done|]. apply list_elem_of_fmap. by exists line_feed.
Qed.

Lemma single_line_app s t : single_line s → single_line t → single_line (s +:+ t).
Proof. unfold single_line. rewrite to_bytes_app, elem_of_app. tauto. Qed.

Lemma single_line_sub s t : to_bytes s ⊆ to_bytes t → single_line t → single_line s.
Proof. unfold single_line. set_solver. Qed.

Lemma single_line_quote s : single_line s → single_line (shellQuote s).
Proof.
  unfold single_line, shellQuote. intros Hs. destruct (_ && _); [done|]. rewrite to_of_bytes, !elem_of_app.
  intros [H|[H|H]]; [by apply list_elem_of_singleton in H| |by apply list_elem_of_singleton in H].
  unfold escape_quotes in H. apply list_elem_of_bind in H as (a & Ha & Hin). destruct (bool_decide (a = "'"%char)).
  - rewrite !elem_of_cons, elem_of_nil in Ha. by repeat destruct Ha as [Ha|Ha].
  - apply list_elem_of_singleton in Ha as <-. done.
Qed.

Lemma sh_comment d s : single_line s → sh_run (Sh d [] [] [] Comment) s = Some (Sh d [] [] [] Comment).
Proof.
  unfold single_line, sh_run. induction (to_bytes s) as [|a l IH]; [done|]. intros [Ha Hl]%not_elem_of_cons. cbn [sh_bytes].
  unfold sh_step. cbn. destruct (Ascii.eqb_spec a line_feed); [congruence|]. by apply IH.
Qed.

(** ** Reading the commands *)

Lemma shell_plan text plan :
  (sh_run (Sh [] [] [] [] Blank) text ≫= sh_finish) = Some (texts (map (map (map to_bytes)) plan)) → shell text = Some plan.
Proof.
  unfold shell. intros ->. f_equal. unfold texts. rewrite map_map. etrans; [|apply map_id]. apply map_ext. intros line.
  rewrite map_map. etrans; [|apply map_id]. apply map_ext. intros command.
  rewrite map_map. etrans; [|apply map_id]. apply map_ext, of_to_bytes.
Qed.

Lemma sh_run_last st s st1 r : sh_run st s = Some st1 → sh_finish st1 = r → (sh_run st s ≫= sh_finish) = r.
Proof. by intros -> <-. Qed.

Lemma append_assoc_str (a b c : string) : (a +:+ b) +:+ c = a +:+ b +:+ c.
Proof. induction a as [|x a IH]; [done|]. exact (f_equal (String.String x) IH). Qed.

(** Read the text piece by piece: quoted words and fixed text. *)
Ltac sh_piece := first [apply sh_quoted_blank | apply sh_quoted_word | apply sh_comment; assumption | vm_compute; reflexivity].
Ltac sh_text :=
  apply shell_plan; cbn [map app fmap list_fmap]; rewrite ?to_bytes_app, ?app_assoc, ?append_assoc_str;
  repeat (eapply sh_run_app; [sh_piece|]);
  eapply sh_run_last; [sh_piece|]; reflexivity.

Lemma shell_set_image c ref : shell (kubectlSetImage c ref) = Some (set_image_steps c ref).
Proof. unfold kubectlSetImage, set_image_steps. generalize (workload_kind c) (podContainer c). intros kind pod. sh_text. Qed.

Lemma shell_service_update c ref : shell (swarmServiceUpdate c ref) = Some (service_update_steps c ref).
Proof. unfold swarmServiceUpdate, service_update_steps. sh_text. Qed.

Lemma shell_recreate name ref : shell (recreate name ref) = Some (recreate_steps name ref).
Proof. unfold recreate, recreate_steps, newline. sh_text. Qed.

Definition valid_dir_steps (d : string) (steps : list (list string)) : list (list (list string)) := (λ step, [step]) <$> ["cd"; d] :: steps.

Lemma shell_compose_same d svc :
  shell ("cd " +:+ shellQuote d +:+ newline +:+ "docker compose pull " +:+ shellQuote svc +:+ newline +:+
         "docker compose up -d --force-recreate " +:+ shellQuote svc)
  = Some (valid_dir_steps d [["docker"; "compose"; "pull"; svc]; ["docker"; "compose"; "up"; "-d"; "--force-recreate"; svc]]).
Proof. unfold valid_dir_steps, newline. sh_text. Qed.

Lemma shell_compose_new d svc comment :
  single_line comment →
  shell ("cd " +:+ shellQuote d +:+ newline +:+ "#" +:+ comment +:+ newline +:+ "docker compose pull " +:+ shellQuote svc +:+ newline +:+
         "docker compose up -d " +:+ shellQuote svc)
  = Some (valid_dir_steps d [["docker"; "compose"; "pull"; svc]; ["docker"; "compose"; "up"; "-d"; svc]]).
Proof. intros Hc. unfold valid_dir_steps, newline. sh_text. Qed.

Lemma shell_compose_retag d svc ref image :
  shell ("cd " +:+ shellQuote d +:+ newline +:+ "docker pull " +:+ shellQuote ref +:+ newline +:+
         "docker tag " +:+ shellQuote ref +:+ " " +:+ shellQuote image +:+ newline +:+
         "docker compose up -d --pull never --force-recreate " +:+ shellQuote svc)
  = Some (valid_dir_steps d [["docker"; "pull"; ref]; ["docker"; "tag"; ref; image];
      ["docker"; "compose"; "up"; "-d"; "--pull"; "never"; "--force-recreate"; svc]]).
Proof. unfold valid_dir_steps, newline. sh_text. Qed.

Lemma shell_compose_back d svc comment :
  single_line comment →
  shell ("cd " +:+ shellQuote d +:+ newline +:+ "#" +:+ comment +:+ newline +:+ "docker compose up -d " +:+ shellQuote svc)
  = Some (valid_dir_steps d [["docker"; "compose"; "up"; "-d"; svc]]).
Proof. intros Hc. unfold valid_dir_steps, newline. sh_text. Qed.

(** The placeholder of an unknown directory is no command. *)
Lemma shell_no_dir rest : shell ("cd " +:+ "<compose-project-dir>" +:+ rest) = None.
Proof. unfold shell, sh_run. by rewrite !to_bytes_app, !sh_bytes_app. Qed.

Lemma before_index_sub s sep : to_bytes (before_index s sep) ⊆ to_bytes s.
Proof.
  unfold before_index. destruct (bytes_index _ _) as [[|i]|]; [done| |done]. rewrite to_of_bytes. apply subseteq_take.
Qed.

Lemma image_repo_sub image : to_bytes (image_repo image) ⊆ to_bytes image.
Proof.
  unfold image_repo, ParseImageRef. destruct (split_tag _) as [repo tag] eqn:E. cbn.
  assert (to_bytes repo ⊆ to_bytes (TrimPrefix (before_index image "@sha256:") "docker.io/")) as H1.
  { unfold split_tag in E. destruct (last_index_byte _ _) as [[|i]|]; [by simplify_eq| |by simplify_eq].
    destruct (Contains _ _); simplify_eq; [done|]. rewrite to_of_bytes. apply subseteq_take. }
  etrans; [exact H1|]. etrans; [|apply before_index_sub]. unfold TrimPrefix. destruct (HasPrefix _ _); [|done].
  rewrite to_of_bytes. apply subseteq_drop.
Qed.

Lemma unsafeFields_unit c : unsafeFields c = false → single_line (ci_OrchestrationUnit c).
Proof.
  intros H. apply no_control_single_line, not_true_iff_false. intros Hu. apply not_true_iff_false in H. apply H, existsb_exists.
  exists (ci_OrchestrationUnit c). split; [|done]. cbn. auto.
Qed.

Ltac single_line_tac :=
  repeat first
    [ apply single_line_app | apply single_line_quote | assumption
    | unfold single_line; apply (bool_decide_unpack (line_feed ∉ _)); vm_compute; exact I ].

Section Exact.
Context `{Masterminds : Semver}.

Lemma shell_update c latestTag latestDigest :
  unsafeFields c = false → single_line (ci_Image c) → single_line latestTag →
  shell (GenerateUpdateCommand c latestTag latestDigest) = update_plan c latestTag latestDigest.
Proof.
  intros Hsafe Himg Htag. pose proof (single_line_sub _ _ (image_repo_sub (ci_Image c)) Himg) as Hrepo.
  unfold GenerateUpdateCommand, update_plan. rewrite Hsafe. unfold image_repo, image_tag in *.
  destruct (ParseImageRef (ci_Image c)) as [[repo tag] registry]. cbn [fst snd] in *.
  destruct (bool_decide (ci_SwarmService c = "")) eqn:Esw; cbn [negb]; rewrite ?orb_true_r, ?orb_false_r;
    [|apply shell_service_update].
  destruct (bool_decide (ci_RuntimeType c = "kubernetes")) eqn:Ek; [apply shell_set_image|].
  destruct (isCompose c); [|apply shell_recreate]. unfold composeDir, compose_steps.
  destruct (valid_dir (ci_ComposeWorkingDir c)); destruct (bool_decide (latestTag = tag)); cbn [negb]; try apply shell_no_dir.
  - apply shell_compose_same.
  - etrans; [|apply (shell_compose_new _ _ (" Set the image of service " +:+ shellQuote (ci_OrchestrationUnit c) +:+ " to "
      +:+ shellQuote (repo +:+ ":" +:+ latestTag) +:+ " in the compose file, then:"))]; [by rewrite !append_assoc_str|].
    single_line_tac; by apply unsafeFields_unit.
Qed.

Lemma previous_ref_single_line image currentTag previousDigest :
  single_line image → single_line currentTag → single_line previousDigest →
  single_line (previousImageRef image currentTag previousDigest).
Proof.
  intros Hi Ht Hd. pose proof (single_line_sub _ _ (image_repo_sub image) Hi) as Hrepo. unfold previousImageRef.
  repeat case_match; single_line_tac; done.
Qed.

Lemma shell_rollback c u :
  unsafeFields c = false → single_line (iu_Image u) → single_line (iu_CurrentTag u) → single_line (iu_PreviousDigest u) →
  shell (GenerateRollbackCommand c u) = rollback_plan c u.
Proof.
  intros Hsafe Hi Ht Hd. pose proof (previous_ref_single_line _ _ _ Hi Ht Hd) as Href.
  unfold GenerateRollbackCommand, rollback_plan. rewrite Hsafe. destruct (bool_decide (previousImageRef _ _ _ = "")); [done|].
  destruct (bool_decide (ci_RuntimeType c = "kubernetes")); [apply shell_set_image|].
  destruct (negb (bool_decide (ci_SwarmService c = ""))); [apply shell_service_update|].
  destruct (isCompose c); [|apply shell_recreate]. unfold composeDir, compose_steps.
  destruct (valid_dir (ci_ComposeWorkingDir c)); destruct (bool_decide (iu_LatestTag u = iu_CurrentTag u)); try apply shell_no_dir.
  - apply shell_compose_retag.
  - etrans; [|apply (shell_compose_back _ _ (" Set the image of service " +:+ shellQuote (ci_OrchestrationUnit c) +:+ " back to "
      +:+ shellQuote (previousImageRef (iu_Image u) (iu_CurrentTag u) (iu_PreviousDigest u)) +:+ " in the compose file, then:"))];
      [by rewrite !append_assoc_str|].
    single_line_tac; by apply unsafeFields_unit.
Qed.


(** A fix is never a downgrade. *)
Lemma fix_is_newer c currentTag fixedInVersion :
  GenerateFixCommand c currentTag fixedInVersion ≠ "" →
  ∃ fixVer currentVer, ParseTag fixedInVersion = Some fixVer ∧ ParseTag currentTag = Some currentVer
    ∧ GreaterThan fixVer currentVer = true ∧ GenerateFixCommand c currentTag fixedInVersion = GenerateUpdateCommand c fixedInVersion "".
Proof.
  unfold GenerateFixCommand. destruct (bool_decide (fixedInVersion = "")); [done|].
  destruct (ParseTag fixedInVersion) as [v|]; [|done]. destruct (ParseTag currentTag) as [w|]; [|done].
  destruct (GreaterThan v w) eqn:E; [|done]. intros _. by exists v, w.
Qed.
End Exact.

Module ShellExample.
(** No version is ever parsed: the rollbacks name digests. *)
#[local] Instance no_versions : Semver := {|
  version := unit; NewVersion _ := None; Major _ := 0; Minor _ := 0; Patch _ := 0; Prerelease _ := ""; Compare _ _ := Eq;
|}.

Definition web : ContainerInfo :=
  no_info <| ci_Name := "app-web-1" |> <| ci_Image := "ghcr.io/org/web:1.4" |> <| ci_RuntimeType := "docker" |>
    <| ci_OrchestrationGroup := "app" |> <| ci_OrchestrationUnit := "it's; rm -rf $HOME" |> <| ci_ComposeWorkingDir := "/srv/my app" |>.

Definition pending : ImageUpdate :=
  MkImageUpdate "u1" "s1" "c1" "" "app-web-1" "ghcr.io/org/web:1.4" "1.4" "sha256:aa" "ghcr.io" "1.5" "sha256:bb" "minor" None "" ""
    false 50 "sha256:aa" "" "available" 0.


(** Why the references have to stay on one line: in a comment, quotes do not hold
    a line feed.  A registry refuses such a reference. *)
Example line_feed_in_image :
  shell (GenerateUpdateCommand (web <| ci_OrchestrationUnit := "web" |> <| ci_Image := "x" +:+ newline +:+ "reboot #:1" |>) "2" "") = Some
    [[["cd"; "/srv/my app"]]; [["reboot"]]; [["docker"; "compose"; "pull"; "web"]]; [["docker"; "compose"; "up"; "-d"; "web"]]].
Proof. vm_compute. reflexivity. Qed.
End ShellExample.
