(* ===== verification/UpdateStore.v ===== *)
(** * Image updates: the store

    [src/internal/store/updates.go]: the scans, the pending updates, the pins, the
    exclusions and the baselines, with the statements that read and write them.
    Updates name their container by its runtime id, with no reference behind it;
    a pending update is live as long as a container of that id is not archived. *)

From S2P Require Import Prelude.
From S2P Require Import Tables.
From S2P Require Import AlertModel.
From S2P Require Import SwarmAlerts.
From S2P Require Import Container.
From S2P Require Import UpdateTags.
From S2P Require Import UpdateModel.

#[local] Open Scope string_scope.
#[local] Open Scope list_scope.
#[local] Open Scope Z_scope.

(** The tables, the containers of every host, what the service keeps; then the
    events sent to the browsers and the alerts sent to the engine. *)
Record updates := MkUpdates {
  db_scans : list ScanRecord;
  db_updates : list ImageUpdate;
  db_pins : list VersionPin;
  db_exclusions : list UpdateExclusion;
  db_baselines : list DigestBaseline;
  db_cve_cache : list CVECacheEntry;
  db_container_cves : list ContainerCVE;
  db_evaluations : list CVEEvaluation;
  db_risk_history : list RiskScoreRecord;
  up_fleet : fleet;
  up_scanning : bool;
  up_lastScanTime : Z;
  up_nextScanTime : Z;
  up_events : list (string * list (string * value));
  up_alerts : list Event;
}.
#[export] Instance updates_eta : Eta updates := λ s,
  MkUpdates (db_scans s) (db_updates s) (db_pins s) (db_exclusions s) (db_baselines s) (db_cve_cache s) (db_container_cves s)
    (db_evaluations s) (db_risk_history s) (up_fleet s) (up_scanning s) (up_lastScanTime s) (up_nextScanTime s) (up_events s)
    (up_alerts s).

Definition no_updates (f : fleet) : updates := MkUpdates [] [] [] [] [] [] [] [] [] f false zero_time zero_time [] [].

(** ** Scan records *)

Definition InsertScanRecord (r : ScanRecord) : M updates (result string) :=
  let! id := new_uid in
  do? db_insert db_scans (λ l s, s <| db_scans := l |>)
        (r <| sr_ID := id |> <| sr_StartedAt ::= db_time |> <| sr_CompletedAt := None |>) in
  ret (Ok id).

Definition finished_scan (r stored : ScanRecord) : ScanRecord :=
  stored <| sr_CompletedAt := db_time <$> sr_CompletedAt r |> <| sr_ContainersScanned := sr_ContainersScanned r |>
    <| sr_UpdatesFound := sr_UpdatesFound r |> <| sr_Errors := sr_Errors r |> <| sr_Status := sr_Status r |>.

Definition UpdateScanRecord (r : ScanRecord) : M updates (result unit) :=
  db_exec (λ s, s <| db_scans ::= update_id (sr_ID r) (finished_scan r) |>).

Definition GetScanRecord (id : string) : M updates (result (option ScanRecord)) := db_query (λ s, select_id id (db_scans s)).

Definition GetLatestScanRecord : M updates (result (option ScanRecord)) :=
  db_query (λ s, head (order_by (λ r, - sr_StartedAt r) (db_scans s))).

(** ** Image updates *)

(** [liveContainerFilter]. *)
Definition live_container (s : updates) (containerID : string) : bool :=
  existsb (λ c, bool_decide (ct_ExternalID c = containerID) && negb (ct_Archived c)) (db_containers (up_fleet s)).

Definition live_update (s : updates) (u : ImageUpdate) : bool := live_container s (iu_ContainerID u).

Definition update_key (u : ImageUpdate) : string * string * string * string :=
  (iu_AgentID u, iu_ContainerName u, iu_Image u, iu_LatestTag u).

Definition stored_update (u : ImageUpdate) : ImageUpdate :=
  u <| iu_AgentID ::= uid_Agent |> <| iu_PublishedAt ::= fmap db_time |> <| iu_DetectedAt ::= db_time |>.

(** The columns that keep their value on a conflict: id, registry, status, key. *)
Definition refreshed_update (u r : ImageUpdate) : ImageUpdate :=
  u <| iu_ID := iu_ID r |> <| iu_Registry := iu_Registry r |> <| iu_Status := iu_Status r |>.

Definition has_key (k : string * string * string * string) (r : ImageUpdate) : bool := bool_decide (update_key r = k).

(** The scan has to exist; on a conflict the id handed back is not that of the row. *)
Definition InsertImageUpdate (u : ImageUpdate) : M updates (result string) :=
  let! id := new_uid in
  let u := stored_update (u <| iu_ID := id |>) in
  let! failed := fault in
  let! s := gets (λ s, s) in
  if failed || negb (bool_decide (iu_ScanID u ∈ table_ids (db_scans s))) then ret (Err EStore)
  else if existsb (has_key (update_key u)) (db_updates s) then
    do! modify (λ s, s <| db_updates ::= update_where (has_key (update_key u)) (refreshed_update u) |>) in ret (Ok id)
  else if bool_decide (id ∈ table_ids (db_updates s)) then ret (Err EStore)
  else do! modify (λ s, s <| db_updates ::= λ l, l ++ [u] |>) in ret (Ok id).

(** The columns an update writes; agent, container and detection stay. *)
Definition edited_update (u r : ImageUpdate) : ImageUpdate :=
  u <| iu_ID := iu_ID r |> <| iu_ContainerID := iu_ContainerID r |> <| iu_AgentID := iu_AgentID r |>
    <| iu_DetectedAt := iu_DetectedAt r |> <| iu_PublishedAt ::= fmap db_time |>.

(** Refused when the scan is gone or when the key becomes that of another row. *)
Definition UpdateImageUpdate (u : ImageUpdate) : M updates (result unit) :=
  let! failed := fault in
  let! s := gets (λ s, s) in
  let collides := existsb (λ r, bool_decide (iu_ID r = iu_ID u)
    && existsb (λ r', negb (bool_decide (iu_ID r' = iu_ID u)) && has_key (update_key (edited_update u r)) r') (db_updates s))
    (db_updates s) in
  if failed || negb (bool_decide (iu_ScanID u ∈ table_ids (db_scans s))) || collides then ret (Err EStore)
  else do! modify (λ s, s <| db_updates ::= update_id (iu_ID u) (edited_update u) |>) in ret (Ok tt).

Definition GetImageUpdate (id : string) : M updates (result (option ImageUpdate)) := db_query (λ s, select_id id (db_updates s)).

Definition newest_updates (l : list ImageUpdate) : list ImageUpdate := order_by (λ u, - iu_DetectedAt u) l.

Definition GetImageUpdateByContainer (containerID : string) : M updates (result (option ImageUpdate)) :=
  db_query (λ s, head (newest_updates (select_where (λ u, bool_decide (iu_ContainerID u = containerID)) (db_updates s)))).

Record ListImageUpdatesOpts := MkListUpdates {
  lu_Status : string;
  lu_UpdateType : string;
  lu_MinRisk : Z;
}.

Definition ListImageUpdates (opts : ListImageUpdatesOpts) : M updates (result (list ImageUpdate)) :=
  db_query (λ s, newest_updates (select_where (λ u,
    live_update s u && (bool_decide (lu_Status opts = "") || bool_decide (iu_Status u = lu_Status opts))
    && (bool_decide (lu_UpdateType opts = "") || bool_decide (iu_UpdateType u = lu_UpdateType opts))
    && (bool_decide (lu_MinRisk opts ≤ 0) || bool_decide (lu_MinRisk opts ≤ iu_RiskScore u))) (db_updates s))).

Record UpdateSummary := MkUpdateSummary {
  us_Critical : Z;
  us_Recommended : Z;
  us_Available : Z;
  us_UpToDate : Z;
  us_Pinned : Z;
}.
#[export] Instance UpdateSummary_eta : Eta UpdateSummary := λ s,
  MkUpdateSummary (us_Critical s) (us_Recommended s) (us_Available s) (us_UpToDate s) (us_Pinned s).

Definition count_update (summary : UpdateSummary) (u : ImageUpdate) : UpdateSummary :=
  if bool_decide (iu_Status u = "pinned") then summary <| us_Pinned ::= Z.succ |>
  else if bool_decide (iu_Status u = "available") || bool_decide (iu_Status u = "dismissed") then
    if bool_decide (81 ≤ iu_RiskScore u) then summary <| us_Critical ::= Z.succ |>
    else if bool_decide (31 ≤ iu_RiskScore u) then summary <| us_Recommended ::= Z.succ |>
    else summary <| us_Available ::= Z.succ |>
  else summary.

Definition GetUpdateSummary : M updates (result UpdateSummary) :=
  let? tracked := db_query (λ s, select_where (live_update s) (db_updates s)) in
  let? totalContainers := db_query (λ s, Z.of_nat (length
    (select_where (λ c, bool_decide (ct_State c = "running") && negb (ct_Archived c)) (db_containers (up_fleet s))))) in
  ret (Ok (foldl count_update (MkUpdateSummary 0 0 0 0 0) tracked
             <| us_UpToDate := Z.max 0 (totalContainers - Z.of_nat (length tracked)) |>)).

Definition DeleteImageUpdatesByContainer (containerID : string) : M updates (result unit) :=
  db_exec (λ s, s <| db_updates ::= delete_where (λ u, bool_decide (iu_ContainerID u = containerID)) |>).

(** The rows that match, counted and deleted. *)
Definition delete_updates (p : updates → ImageUpdate → bool) : M updates (result Z) :=
  let! failed := fault in
  if failed then ret (Err EStore)
  else
    let! n := gets (λ s, Z.of_nat (length (select_where (p s) (db_updates s)))) in
    do! modify (λ s, s <| db_updates ::= delete_where (p s) |>) in
    ret (Ok n).

Definition staleFilter (scanID : string) (agentIDs names : list string) (u : ImageUpdate) : bool :=
  negb (bool_decide (iu_ScanID u = scanID)) && bool_decide (iu_AgentID u ∈ agentIDs) && bool_decide (iu_ContainerName u ∈ names).

Definition DeleteStaleImageUpdates (scanID : string) (agentIDs names : list string) : M updates (result Z) :=
  if bool_decide (agentIDs = []) || bool_decide (names = []) then ret (Ok 0)
  else delete_updates (λ _, staleFilter scanID agentIDs names).

Definition stale_entry (u : ImageUpdate) : StaleImageUpdate := MkStale (iu_ContainerID u) (iu_ContainerName u) (iu_AgentID u) "".

Definition ListStaleImageUpdates (scanID : string) (agentIDs names : list string) : M updates (result (list StaleImageUpdate)) :=
  if bool_decide (agentIDs = []) || bool_decide (names = []) then ret (Ok [])
  else db_query (λ s, remove_dups (stale_entry <$> select_where (staleFilter scanID agentIDs names) (db_updates s))).

Definition orphan_entry (s : updates) (u : ImageUpdate) : StaleImageUpdate :=
  MkStale (iu_ContainerID u) (iu_ContainerName u) (iu_AgentID u)
    (from_option ct_ID ""
      (head (select_where (λ c, bool_decide (ct_ExternalID c = iu_ContainerID u)) (db_containers (up_fleet s))))).

Definition ListOrphanImageUpdates : M updates (result (list StaleImageUpdate)) :=
  db_query (λ s, remove_dups (orphan_entry s <$> select_where (λ u, negb (live_update s u)) (db_updates s))).

Definition DeleteOrphanImageUpdates : M updates (result Z) := delete_updates (λ s u, negb (live_update s u)).

(** ** Version pins *)

Definition InsertVersionPin (p : VersionPin) : M updates (result string) :=
  let! id := new_uid in
  let p := p <| vp_ID := id |> <| vp_PinnedAt ::= db_time |> in
  let! failed := fault in
  let! pins := gets db_pins in
  if failed then ret (Err EStore)
  else if existsb (λ r, bool_decide (vp_ContainerID r = vp_ContainerID p)) pins then
    do! modify (λ s, s <| db_pins ::=
          update_where (λ r, bool_decide (vp_ContainerID r = vp_ContainerID p)) (λ r, p <| vp_ID := vp_ID r |>) |>) in
    ret (Ok id)
  else if bool_decide (id ∈ table_ids pins) then ret (Err EStore)
  else do! modify (λ s, s <| db_pins ::= λ l, l ++ [p] |>) in ret (Ok id).

Definition GetVersionPin (containerID : string) : M updates (result (option VersionPin)) :=
  db_query (λ s, head (select_where (λ p, bool_decide (vp_ContainerID p = containerID)) (db_pins s))).

Definition DeleteVersionPin (containerID : string) : M updates (result unit) :=
  db_exec (λ s, s <| db_pins ::= delete_where (λ p, bool_decide (vp_ContainerID p = containerID)) |>).

(** ** Exclusions *)

Definition same_exclusion (e r : UpdateExclusion) : bool :=
  bool_decide (ex_Pattern r = ex_Pattern e) && bool_decide (ex_PatternType r = ex_PatternType e).

(** In one transaction; the exclusion is handed back as it is stored. *)
Definition CreateExclusion (e : UpdateExclusion) : M updates (result (UpdateExclusion * bool)) :=
  let! failed := fault in
  if failed then ret (Err EStore)
  else
    let! found := gets (λ s, head (select_where (same_exclusion e) (db_exclusions s))) in
    match found with
    | Some r => ret (Ok (e <| ex_ID := ex_ID r |> <| ex_CreatedAt := ex_CreatedAt r |>, false))
    | None =>
      let! id := new_uid in
      let e := e <| ex_ID := id |> <| ex_CreatedAt ::= db_time |> in
      do? db_insert db_exclusions (λ l s, s <| db_exclusions := l |>) e in
      ret (Ok (e, true))
    end.

Definition ListExclusions : M updates (result (list UpdateExclusion)) :=
  db_query (λ s, order_by (λ e, - ex_CreatedAt e) (db_exclusions s)).

Definition DeleteExclusion (id : string) : M updates (result unit) :=
  db_exec (λ s, s <| db_exclusions ::= delete_where (λ e, bool_decide (ex_ID e = id)) |>).

(** ** Digest baselines *)

Definition stored_baseline (b : DigestBaseline) : DigestBaseline :=
  MkBaseline (dg_ContainerID b) (dg_Image b) (dg_Tag b) (dg_RemoteDigest b) (db_time (dg_CheckedAt b)).

Definition UpsertDigestBaseline (b : DigestBaseline) : M updates (result unit) :=
  db_exec (λ s, s <| db_baselines ::= λ l,
    if bool_decide (dg_ContainerID b ∈ table_ids l) then update_id (dg_ContainerID b) (λ _, stored_baseline b) l
    else l ++ [stored_baseline b] |>).

Definition GetDigestBaseline (containerID : string) : M updates (result (option DigestBaseline)) :=
  db_query (λ s, select_id containerID (db_baselines s)).

(** ** Retention *)

Definition counted {R} (p : R → bool) (l : list R) : Z := Z.of_nat (length (select_where p l)).

Definition unused_scan (ts : Z) (s : updates) (r : ScanRecord) : bool :=
  bool_decide (sr_StartedAt r < of_unix ts) && negb (existsb (λ u, bool_decide (iu_ScanID u = sr_ID r)) (db_updates s)).

Definition expired_entry (t : Z) (e : CVECacheEntry) : bool := bool_decide (ce_ExpiresAt e < of_unix (unix t)).

Definition baseline_gone (s : updates) (b : DigestBaseline) : bool := negb (live_container s (dg_ContainerID b)).

Definition CleanupExpired (olderThan : Z) : M updates (result Z) :=
  let ts := unix olderThan in
  let! scans := gets (λ s, counted (unused_scan ts s) (db_scans s)) in
  do? db_exec (λ s, s <| db_scans ::= delete_where (unused_scan ts s) |>) in
  let! t := now in
  let! entries := gets (λ s, counted (expired_entry t) (db_cve_cache s)) in
  do? db_exec (λ s, s <| db_cve_cache ::= delete_where (expired_entry t) |>) in
  let! baselines := gets (λ s, counted (baseline_gone s) (db_baselines s)) in
  do? db_exec (λ s, s <| db_baselines ::= delete_where (baseline_gone s) |>) in
  ret (Ok (scans + entries + baselines)).
