(* ===== verification/UpdateScan.v ===== *)
(** * Image updates: scans

    [src/internal/update/scanner.go], [container_adapter.go], [service.go], its
    callback in [app/wiring.go] and the pins of [api/v1/updates.go].  Which
    containers a scan looks at and what it asks the registries; then a scan stores
    what it found, drops what it no longer finds on the hosts it covered and what
    has no container any more, and tells the browsers and the alert engine.  A scan
    runs alone: the flag it sets refuses another one.  The registry, the regular
    expressions and the versions are libraries; the details of the local runtime
    and the cancellation of the context are asked each time. *)

From S2P Require Import Prelude.
From S2P Require Import Tables.
From S2P Require Import GoStrings.
From S2P Require Import AlertModel.
From S2P Require Import SwarmAlerts.
From S2P Require Import Uid.
From S2P Require Import Container.
From S2P Require Import ContainerStore.
From S2P Require Import ContainerService.
From S2P Require Import UpdateTags.
From S2P Require Import UpdateModel.
From S2P Require Import UpdateCommands.
From S2P Require Import UpdateStore.

#[local] Open Scope string_scope.
#[local] Open Scope list_scope.
#[local] Open Scope Z_scope.

Definition UpdateScanStarted := "update.scan_started".
Definition UpdateDetected := "update.detected".
Definition UpdateResolved := "update.resolved".
Definition UpdateScanCompleted := "update.scan_completed".

(** ** What the registries and the runtimes answer *)

Record RuntimeDetails := MkRuntimeDetails {
  rt_Labels : gmap string string;
  rt_RepoDigests : list string;
  rt_DigestsKnown : bool;
  rt_PodContainer : string;
}.

Class UpdateDeps := {
  ListTags : nat → string → result (list string);
  ResolveDigests : nat → string → result RemoteDigests;
  FetchDetails : option (nat → result (gmap string RuntimeDetails));
  cancelled : nat → bool;
  agentStore_Get : option (nat → string → result (option (string * string)));
  withChangelog : nat → bool;
}.

(** The [Enricher] of the service. *)
Class Enricher := { Enrich : list UpdateResult → M updates (result unit) }.

Definition noopUpdateEnricher : Enricher := {| Enrich _ := ret (Ok tt) |}.

(** ** The containers to scan *)

Section Adapter.
Context `{Deps : !UpdateDeps}.

(** Run an operation of the containers on their part of the state. *)
Definition on_fleet {A} (m : M fleet A) : M updates A := λ w,
  let r := m (World (w_env w) (w_tick w) (up_fleet (w_st w))) in
  (r.1, World (w_env r.2) (w_tick r.2) (w_st w <| up_fleet := w_st r.2 |>)).

Definition localDetails : M updates (option (gmap string RuntimeDetails)) :=
  match FetchDetails with
  | None => ret None
  | Some fetch =>
    let! r := ask fetch in
    ret (match r with Ok details => Some details | Err _ => None end)
  end.

Definition no_details : RuntimeDetails := MkRuntimeDetails ∅ [] false "".

(** [AgentDetails] of the containers' service, where the agent has reported. *)
Definition detailsFor (f : fleet) (c : Container) (local : option (gmap string RuntimeDetails)) : option RuntimeDetails :=
  if negb (bool_decide (uid_Agent (ct_AgentID c) = LocalAgent)) then
    (λ d, MkRuntimeDetails (ad_UpdateLabels d) (ad_RepoDigests d) (ad_DigestsKnown d) "")
      <$> agentDetails f !! (ct_AgentID c, ct_ExternalID c)
  else match FetchDetails with
  | None => Some no_details
  | Some _ => local ≫= lookup (ct_ExternalID c)
  end.

Definition newContainerInfo (c : Container) (d : RuntimeDetails) : ContainerInfo :=
  {| ci_UID := ct_ID c; ci_AgentID := uid_Agent (ct_AgentID c); ci_ExternalID := ct_ExternalID c; ci_Name := ct_Name c;
     ci_Image := ct_Image c; ci_Labels := rt_Labels d; ci_OrchestrationGroup := ct_OrchestrationGroup c;
     ci_OrchestrationUnit := ct_OrchestrationUnit c; ci_RuntimeType := ct_RuntimeType c; ci_ControllerKind := ct_ControllerKind c;
     ci_ComposeWorkingDir := ct_ComposeWorkingDir c; ci_RepoDigests := rt_RepoDigests d;
     ci_LocallyBuilt := rt_DigestsKnown d && bool_decide (rt_RepoDigests d = []); ci_PodContainer := rt_PodContainer d;
     ci_SwarmService := ct_SwarmServiceName c |}.

Definition running_containers : ListContainersOpts := MkListContainersOpts false false "" StateRunning None.

Definition container_info (f : fleet) (local : option (gmap string RuntimeDetails)) (c : Container) : option ContainerInfo :=
  if ct_IsIgnored c || ct_Archived c then None else newContainerInfo c <$> detailsFor f c local.

Definition ListContainerInfos : M updates (result (list ContainerInfo)) :=
  let? containers := on_fleet (ListContainers running_containers) in
  let! local := localDetails in
  let! f := gets up_fleet in
  ret (Ok (omap (container_info f local) containers)).
End Adapter.

(** ** One container *)

Definition error_text (e : error) : string := match e with EStore => "" | ESentinel text => text end.

Definition isUnreachableImage (e : error) : bool :=
  let msg := error_text e in
  Contains msg "UNAUTHORIZED" || Contains msg "NAME_UNKNOWN" || Contains msg "MANIFEST_UNKNOWN" || Contains msg "denied".

Record scanTarget := MkScanTarget {
  ta_container : ContainerInfo;
  ta_fullRef : string;
  ta_currentTag : string;
  ta_registry : string;
  ta_runningDigest : string;
  ta_repoDigests : list string;
  ta_alertOn : string;
}.
#[export] Instance scanTarget_eta : Eta scanTarget := λ t,
  MkScanTarget (ta_container t) (ta_fullRef t) (ta_currentTag t) (ta_registry t) (ta_runningDigest t) (ta_repoDigests t) (ta_alertOn t).

Definition found_update (t : scanTarget) (current latestTag latestDigest updateType : string) : UpdateResult :=
  let c := ta_container t in
  {| ur_ContainerID := ci_ExternalID c; ur_ContainerUID := ci_UID c; ur_ContainerName := ci_Name c; ur_Image := ci_Image c;
     ur_CurrentTag := ta_currentTag t; ur_CurrentDigest := current; ur_Registry := ta_registry t; ur_LatestTag := latestTag;
     ur_LatestDigest := latestDigest; ur_UpdateType := updateType; ur_HasUpdate := true; ur_ChangelogURL := "";
     ur_ChangelogSummary := ""; ur_HasBreakingChanges := false; ur_SourceURL := ""; ur_PreviousDigest := current;
     ur_AlertOn := ta_alertOn t |}.

(** What the container runs, and the baseline that remembers it. *)
Definition record_baseline (t : scanTarget) (recorded : string) : M updates unit :=
  let! checkedAt := now in
  do! UpsertDigestBaseline
        (MkBaseline (ci_ExternalID (ta_container t)) (ci_Image (ta_container t)) (ta_currentTag t) recorded checkedAt) in
  ret tt.

Definition recorded_digest (remote : RemoteDigests) (current : string) : string :=
  if bool_decide (current = "") || remote_Contains remote current then rd_Digest remote else current.

Definition currentDigest (t : scanTarget) (remote : RemoteDigests) : M updates (result string) :=
  let known current := do! record_baseline t (recorded_digest remote current) in ret (Ok current) in
  if negb (bool_decide (ta_runningDigest t = "")) then known (ta_runningDigest t)
  else
    let? baseline := GetDigestBaseline (ci_ExternalID (ta_container t)) in
    match baseline with
    | Some b =>
      if bool_decide (dg_Tag b = ta_currentTag t) then
        let current := dg_RemoteDigest b in
        if bool_decide (current = rd_Digest remote) || negb (remote_Contains remote current) then ret (Ok current) else known current
      else known ""
    | None => known ""
    end.

Section Scanner.
Context `{Deps : !UpdateDeps} `{Regexps : !Regexp} `{Masterminds : Semver}.
Context (sort_Slice : list tagVersion → list tagVersion).

Definition checkDigest (t : scanTarget) : M updates (result (option UpdateResult)) :=
  let! r := ask (λ n, ResolveDigests n (ta_fullRef t +:+ ":" +:+ ta_currentTag t)) in
  match r with
  | Err e => ret (if isUnreachableImage e then Ok None else Err e)
  | Ok remote =>
    if bool_decide (rd_Digest remote = "") then ret (Ok None)
    else
      let t := match filter (λ d, remote_Contains remote d = true) (ta_repoDigests t) with
               | d :: _ => t <| ta_runningDigest := d |> | [] => t end in
      let? current := currentDigest t remote in
      if bool_decide (current = "") || remote_Contains remote current then ret (Ok None)
      else ret (Ok (Some (found_update t current (ta_currentTag t) (rd_Digest remote) UpdateTypeDigestOnly)))
  end.

Definition scan_target (c : ContainerInfo) (cfg : UpdateConfig) : scanTarget :=
  let '(imageRef, currentTag, registry) := ParseImageRef (ci_Image c) in
  let fullRef := if negb (bool_decide (registry = "")) && negb (Contains imageRef "/") then "library/" +:+ imageRef else imageRef in
  let '(registry, fullRef) :=
    if bool_decide (uc_Registry cfg = "") then (registry, fullRef)
    else (uc_Registry cfg, uc_Registry cfg +:+ "/" +:+ repositoryPath fullRef) in
  {| ta_container := c; ta_fullRef := fullRef; ta_currentTag := currentTag; ta_registry := registry;
     ta_runningDigest := runningDigest c imageRef; ta_repoDigests := repoDigestsFor (ci_RepoDigests c) imageRef;
     ta_alertOn := uc_AlertOn cfg |}.

(** The candidates among the tags; the current tag stays one. *)
Definition filtered_tags (cfg : UpdateConfig) (currentTag : string) (tags : list string) : list string :=
  let '(versionPart, variant) := splitVariant currentTag in
  match ParseTag versionPart with
  | None => tags
  | Some _ =>
    let filtered := Filter (MkTagFilter (uc_TagInclude cfg) (uc_TagExclude cfg) variant) tags in
    if bool_decide (currentTag ∈ tags) && negb (bool_decide (currentTag ∈ filtered)) then filtered ++ [currentTag] else filtered
  end.

Definition check_tags (t : scanTarget) (cfg : UpdateConfig) : M updates (result (option UpdateResult)) :=
  let! r := ask (λ n, ListTags n (ta_fullRef t)) in
  match r with
  | Err e => ret (if isUnreachableImage e then Ok None else Err e)
  | Ok tags =>
    let '(bestTag, updateType) := findBestUpdate sort_Slice (ta_currentTag t) (filtered_tags cfg (ta_currentTag t) tags) (TrackLevel cfg) in
    if bool_decide (bestTag = "") then ret (Ok None)
    else if bool_decide (bestTag = ta_currentTag t) && bool_decide (updateType = UpdateTypeDigestOnly) then checkDigest t
    else
      let! latest := ask (λ n, ResolveDigests n (ta_fullRef t +:+ ":" +:+ bestTag)) in
      let digest := match latest with Ok d => rd_Digest d | Err _ => "" end in
      ret (Ok (Some (found_update t (ta_runningDigest t) bestTag digest updateType)))
  end.

Definition ErrUnparsable := ESentinel "cannot parse image reference".

Definition scanContainer (c : ContainerInfo) (exclusions : list UpdateExclusion) : M updates (result (option UpdateResult)) :=
  if bool_decide (image_repo (ci_Image c) = "") then ret (Err ErrUnparsable)
  else if ci_LocallyBuilt c then ret (Ok None)
  else
    let cfg := ParseUpdateLabels (ci_Labels c) in
    if negb (uc_Enabled cfg) then ret (Ok None)
    else if negb (bool_decide (uc_Pin cfg = "")) then ret (Ok None)
    else
      let! pin := GetVersionPin (ci_ExternalID c) in
      match pin with
      | Ok (Some _) => ret (Ok None)
      | _ =>
        if isExcluded (ci_Image c) (image_tag (ci_Image c)) exclusions then ret (Ok None)
        else
          let t := scan_target c cfg in
          if bool_decide (TrackLevel cfg = TrackDigest) then checkDigest t else check_tags t cfg
      end.

(** ** All of them *)

Record scan_outcome := MkOutcome { so_results : list UpdateResult; so_errors : list ScanError }.

Definition add_outcome (c : ContainerInfo) (r : result (option UpdateResult)) (o : scan_outcome) : scan_outcome :=
  match r with
  | Err e => MkOutcome (so_results o) (so_errors o ++ [MkScanError (ci_ExternalID c) (ci_Name c) (ci_Image c) e])
  | Ok (Some u) => MkOutcome (so_results o ++ [u]) (so_errors o)
  | Ok None => o
  end.

(** The context is looked at before each container, and while waiting between two. *)
Fixpoint scan_containers (first : bool) (exclusions : list UpdateExclusion) (cs : list ContainerInfo) (o : scan_outcome)
    : M updates scan_outcome :=
  match cs with
  | [] => ret o
  | c :: cs =>
    let! done := ask cancelled in
    if done then ret o
    else
      let! stopped := if first then ret false else ask cancelled in
      if stopped then ret o
      else
        let! r := scanContainer c exclusions in
        scan_containers false exclusions cs (add_outcome c r o)
  end.

Definition Scan (containers : list ContainerInfo) : M updates scan_outcome :=
  let! r := ListExclusions in
  let exclusions := match r with Ok l => l | Err _ => [] end in
  scan_containers true exclusions containers (MkOutcome [] []).
End Scanner.

(** ** The service: alerts *)

Section Alerts.
(** The JSON text of the details of an alert. *)
Context (json : list (string * value) → details).

(** ** Alerts *)

Definition string_of (v : value) : string := match v with VString s => s | _ => "" end.

Definition onHost (containerName : string) (m : list (string * value)) : string :=
  let host := string_of (map_value m "agent_name") in
  if bool_decide (host = "") then containerName else containerName +:+ " on " +:+ host.

Definition update_severity (m : list (string * value)) : string :=
  match map_value m "risk_score" with
  | VInt rs => if bool_decide (81 ≤ rs) then SeverityCritical else if bool_decide (61 ≤ rs) then SeverityWarning else SeverityInfo
  | _ => SeverityInfo
  end.

Definition update_entity (m : list (string * value)) : string :=
  let uid := string_of (map_value m "container_uid") in
  if bool_decide (uid = "") then string_of (map_value m "container_id") else uid.

Definition update_details (m : list (string * value)) (withChangelog : bool) : list (string * value) :=
  (λ k, (k, map_value m k)) <$> ["image"; "current_tag"; "latest_tag"; "update_type"]
  ++ if withChangelog
     then filter (λ k, k ∈ m.*1) ["update_command"; "rollback_command"; "changelog_url"; "has_breaking_changes"] else [].

Definition updateDetectedAlert (m : list (string * value)) (withChangelog : bool) (t : Z) : Event :=
  MkEvent "update" "update_available" (update_severity m) false
    ("Update available for " +:+ onHost (string_of (map_value m "container_name")) m +:+ ": " +:+ string_of (map_value m "latest_tag"))
    "container" (update_entity m) (string_of (map_value m "container_name")) (agentIDOf m)
    (json (update_details m withChangelog)) t.

Definition updateAlertWanted (m : list (string * value)) (severity : string) : bool :=
  let alertOn := string_of (map_value m "alert_on") in
  if bool_decide (alertOn = AlertOnNone) then false
  else if bool_decide (alertOn = AlertOnCritical) then bool_decide (severity = SeverityCritical)
  else true.

Definition updateResolvedAlert (m : list (string * value)) (t : Z) : Event :=
  MkEvent "update" "update_available" SeverityInfo true
    ("Update no longer required for " +:+ onHost (string_of (map_value m "container_name")) m)
    "container" (update_entity m) (string_of (map_value m "container_name")) (agentIDOf m) DetailsNil t.

Section Callback.
Context `{Deps : !UpdateDeps}.

(** The label of an agent, else its host name, else its id. *)
Definition agentName (agentID : string) : M updates string :=
  match agentStore_Get with
  | None => ret agentID
  | Some get =>
    let! r := ask (λ n, get n agentID) in
    ret (match r with
         | Ok (Some (label, hostname)) =>
           if negb (bool_decide (label = "")) then label else if negb (bool_decide (hostname = "")) then hostname else agentID
         | _ => agentID
         end)
  end.

Definition sendAlert (evt : Z → Event) : M updates unit :=
  let! t := now in modify (λ s, s <| up_alerts ::= λ l, l ++ [evt t] |>).

(** The callback of [wireUpdateCallback]. *)
Definition update_callback (eventType : string) (data : list (string * value)) : M updates unit :=
  let id := agentIDOf data in
  let! m := if negb (bool_decide (id = "")) && negb (bool_decide (id = LocalAgent))
            then let! name := agentName id in ret (("agent_name", VString name) :: data) else ret data in
  do! modify (λ s, s <| up_events ::= λ l, l ++ [(eventType, m)] |>) in
  if bool_decide (eventType = UpdateResolved) then
    if bool_decide (string_of (map_value m "container_name") = "") then ret tt else sendAlert (updateResolvedAlert m)
  else if bool_decide (eventType = UpdateDetected) then
    let! changelog := ask withChangelog in
    if updateAlertWanted m (update_severity m) then sendAlert (updateDetectedAlert m changelog) else ret tt
  else ret tt.

(** ** A scan *)

Definition completeScan (record : ScanRecord) (status : string) (scanned found errors : Z) : M updates unit :=
  let! t := now in
  do! UpdateScanRecord (record <| sr_CompletedAt := Some t |> <| sr_Status := status |> <| sr_ContainersScanned := scanned |>
        <| sr_UpdatesFound := found |> <| sr_Errors := errors |>) in
  update_callback UpdateScanCompleted [("scan_id", VString (sr_ID record)); ("updates_found", VInt found); ("errors", VInt errors)].

(** [containerByID]: the last container of an id. *)
Definition container_by_id (containers : list ContainerInfo) (id : string) : option ContainerInfo :=
  foldl (λ found c, if bool_decide (ci_ExternalID c = id) then Some c else found) None containers.
Definition info_of (containers : list ContainerInfo) (id : string) : ContainerInfo := default no_info (container_by_id containers id).

Definition covered_hosts (containers : list ContainerInfo) : list string :=
  foldl (λ hosts c, let host := uid_Agent (ci_AgentID c) in if bool_decide (host ∈ hosts) then hosts else hosts ++ [host]) [] containers.

Definition scanned_names (containers : list ContainerInfo) (errors : list ScanError) : list string :=
  ci_Name <$> filter (λ c, ci_Name c ∉ se_ContainerName <$> errors) containers.

Definition enrichmentTargets (containers : list ContainerInfo) (results : list UpdateResult) : list UpdateResult :=
  results ++ (runningImage <$> filter (λ c, ci_ExternalID c ∉ ur_ContainerID <$> results) containers).

Definition pending_update (scanID : string) (containers : list ContainerInfo) (r : UpdateResult) (t : Z) : ImageUpdate :=
  {| iu_ID := ""; iu_ScanID := scanID; iu_ContainerID := ur_ContainerID r;
     iu_AgentID := ci_AgentID (info_of containers (ur_ContainerID r)); iu_ContainerName := ur_ContainerName r;
     iu_Image := ur_Image r; iu_CurrentTag := ur_CurrentTag r; iu_CurrentDigest := ur_CurrentDigest r;
     iu_Registry := ur_Registry r; iu_LatestTag := ur_LatestTag r; iu_LatestDigest := ur_LatestDigest r;
     iu_UpdateType := ur_UpdateType r; iu_PublishedAt := None; iu_ChangelogURL := ""; iu_ChangelogSummary := "";
     iu_HasBreakingChanges := false; iu_RiskScore := BaseRiskScore (ur_UpdateType r); iu_PreviousDigest := ur_PreviousDigest r;
     iu_SourceURL := ""; iu_Status := update_StatusAvailable; iu_DetectedAt := t |}.

Context `{Masterminds : Semver}.

Definition detected_data (containers : list ContainerInfo) (r : UpdateResult) (u : ImageUpdate) : list (string * value) :=
  let c := info_of containers (ur_ContainerID r) in
  [("container_id", VString (ur_ContainerID r)); ("container_uid", VString (ci_UID c));
   ("container_name", VString (ur_ContainerName r)); ("agent_id", VString (ci_AgentID c)); ("image", VString (ur_Image r));
   ("current_tag", VString (ur_CurrentTag r)); ("latest_tag", VString (ur_LatestTag r));
   ("update_type", VString (ur_UpdateType r)); ("risk_score", VInt (iu_RiskScore u)); ("alert_on", VString (ur_AlertOn r))]
  ++ match container_by_id containers (ur_ContainerID r) with
     | Some ci =>
       [("update_command", VString (GenerateUpdateCommand ci (ur_LatestTag r) (ur_LatestDigest r)))]
       ++ let cmd := GenerateRollbackCommand ci u in if bool_decide (cmd = "") then [] else [("rollback_command", VString cmd)]
     | None => []
     end.

(** One result: the number of updates stored so far goes on. *)
Definition persist_result (scanID : string) (containers : list ContainerInfo) (found : Z) (r : UpdateResult) : M updates Z :=
  if negb (ur_HasUpdate r) then ret found
  else
    let! t := now in
    let u := pending_update scanID containers r t in
    let! stored := InsertImageUpdate u in
    match stored with
    | Err _ => ret found
    | Ok _ => do! update_callback UpdateDetected (detected_data containers r u) in ret (found + 1)
    end.

Context `{Uid : !Uuid}.

Definition resolved_data (containers : list ContainerInfo) (su : StaleImageUpdate) : list (string * value) :=
  let c := info_of containers (su_ContainerID su) in
  let agentID := if bool_decide (su_AgentID su = "") then ci_AgentID c else su_AgentID su in
  let containerUID := if bool_decide (su_ContainerUID su = "") then ci_UID c else su_ContainerUID su in
  let containerUID := if bool_decide (containerUID = "") then uid_Container (uid_Agent agentID) (su_ContainerID su) else containerUID in
  [("container_id", VString (su_ContainerID su)); ("container_uid", VString containerUID);
   ("container_name", VString (su_ContainerName su)); ("agent_id", VString agentID)].

(** The pending updates the scan did not find again, listed then deleted. *)
Definition drop_stale (scanID : string) (hosts names : list string) : M updates (list StaleImageUpdate) :=
  let! stale := ListStaleImageUpdates scanID hosts names in
  match stale with
  | Err _ => ret []
  | Ok l => do! DeleteStaleImageUpdates scanID hosts names in ret l
  end.

Definition drop_orphans (containers : list ContainerInfo) : M updates (list StaleImageUpdate) :=
  if bool_decide (containers = []) then ret []
  else
    let! orphans := ListOrphanImageUpdates in
    match orphans with
    | Err _ => ret []
    | Ok l => do! DeleteOrphanImageUpdates in ret l
    end.

Context `{Regexps : !Regexp} `{Enrichment : !Enricher}.
Context (sort_Slice : list tagVersion → list tagVersion).

(** The scan of the containers of [containers], under its record. *)
Definition scan_all (record : ScanRecord) (containers : list ContainerInfo) : M updates unit :=
  let scanID := sr_ID record in
  let! o := Scan sort_Slice containers in
  let hosts := covered_hosts containers in
  let names := scanned_names containers (so_errors o) in
  let! found := for_acc (so_results o) 0 (persist_result scanID containers) in
  let targets := enrichmentTargets containers (so_results o) in
  do! (if bool_decide (targets = []) then ret (Ok tt) else Enrich targets) in
  let! stale := drop_stale scanID hosts names in
  let! orphans := drop_orphans containers in
  do! for_each (stale ++ orphans) (λ su, update_callback UpdateResolved (resolved_data containers su)) in
  completeScan record ScanStatusCompleted (Z.of_nat (length containers)) found (Z.of_nat (length (so_errors o))).

(** The record of a scan and its containers; a listing that fails ends the scan. *)
Definition scan_opens : M updates (option (ScanRecord * list ContainerInfo)) :=
  let! t := now in
  let record := MkScanRecord "" t None 0 0 0 ScanStatusRunning in
  let! inserted := InsertScanRecord record in
  match inserted with
  | Err _ => ret None
  | Ok scanID =>
    let record := record <| sr_ID := scanID |> in
    do! update_callback UpdateScanStarted [("scan_id", VString scanID); ("started_at", VTime t)] in
    let! containers := ListContainerInfos in
    match containers with
    | Err _ => do! completeScan record ScanStatusFailed 0 0 1 in ret None
    | Ok containers => ret (Some (record, containers))
    end
  end.

Definition scan_body : M updates unit :=
  let! opened := scan_opens in
  match opened with
  | Some (record, containers) => scan_all record containers
  | None => ret tt
  end.

(** [interval] is that of MAINTENANT_UPDATE_INTERVAL. *)
Definition runScan (interval : Z) : M updates unit :=
  let! done := ask cancelled in
  if done then ret tt
  else
    let! scanning := gets up_scanning in
    if scanning then ret tt
    else
      do! modify (λ s, s <| up_scanning := true |>) in
      do! scan_body in
      let! t := now in
      modify (λ s, s <| up_scanning := false |> <| up_lastScanTime := t |> <| up_nextScanTime := t + interval |>).

Definition TriggerScan (interval : Z) : M updates (result unit) :=
  let! scanning := gets up_scanning in
  if scanning then ret (Err (ESentinel "scan already in progress")) else do! runScan interval in ret (Ok tt).
End Callback.
End Alerts.

(** ** Pins *)

(** What [HandlePinVersion] does: the tag the update was found for is pinned. *)
Definition PinVersion (containerID reason : string) : M updates (result unit) :=
  let! u := GetImageUpdateByContainer containerID in
  match u with
  | Ok (Some u) =>
    let! t := now in
    do? InsertVersionPin (MkVersionPin "" containerID (iu_Image u) (iu_CurrentTag u) (iu_CurrentDigest u) reason t) in
    do! UpdateImageUpdate (u <| iu_Status := update_StatusPinned |>) in
    ret (Ok tt)
  | _ => ret (Err (ESentinel "No update data for container"))
  end.

Definition UnpinVersion (containerID : string) : M updates (result unit) :=
  do? DeleteVersionPin containerID in
  let! u := GetImageUpdateByContainer containerID in
  match u with
  | Ok (Some u) => do! UpdateImageUpdate (u <| iu_Status := update_StatusAvailable |>) in ret (Ok tt)
  | _ => ret (Ok tt)
  end.
