(* ===== verification/UpdateCorrect.v ===== *)
(** * Image updates: what a scan leaves behind

    The tables and the alerts after each part of a scan, without failures: the
    results stored by key, the stale rows and the orphans dropped, one alert for
    each.  Then whole scans: a scan replaces the pending updates of the containers
    it covered, and the alert of an update is live only while its update is
    pending. *)

From S2P Require Import Prelude.
From S2P Require Import Tables.
From S2P Require Import GoStrings.
From S2P Require Import AlertModel.
From S2P Require Import AlertStore.
From S2P Require Import AlertRouting.
From S2P Require Import AlertEngine.
From S2P Require Import AlertInvariant.
From S2P Require Import AlertCorrect.
From S2P Require Import AlertTracker.
From S2P Require Import TrackerMirror.
From S2P Require Import SwarmAlerts.
From S2P Require Import Uid.
From S2P Require Import Container.
From S2P Require Import ContainerStore.
From S2P Require Import ContainerService.
From S2P Require Import UpdateTags.
From S2P Require Import UpdateModel.
From S2P Require Import UpdateCommands.
From S2P Require Import UpdateStore.
From S2P Require Import UpdateScan.

#[local] Open Scope string_scope.
#[local] Open Scope list_scope.
#[local] Open Scope Z_scope.

(** ** Storing by key *)

Definition upsert (T : list ImageUpdate) (u : ImageUpdate) : list ImageUpdate :=
  if existsb (has_key (update_key u)) T then update_where (has_key (update_key u)) (refreshed_update u) T else T ++ [u].

(** [u'] is [u], or the row of its key refreshed with it. *)
Definition written_as (u u' : ImageUpdate) : Prop := u' = u ∨ ∃ r, has_key (update_key u) r = true ∧ u' = refreshed_update u r.

Lemma refreshed_key u r : update_key (refreshed_update u r) = update_key u.
Proof. done. Qed.

Lemma written_key u u' : written_as u u' → update_key u' = update_key u.
Proof. by intros [-> |(r & _ & ->)]. Qed.

Lemma has_key_true k r : has_key k r = true ↔ update_key r = k.
Proof. apply bool_decide_eq_true. Qed.

Lemma upsert_elem T u u' :
  u' ∈ upsert T u → (u' ∈ T ∧ update_key u' ≠ update_key u) ∨ written_as u u'.
Proof.
  unfold upsert. destruct (existsb _ _) eqn:E.
  - intros (r & Hr & ->)%update_where_elem. destruct (has_key (update_key u) r) eqn:Hk.
    + right. right. by exists r.
    + left. split; [done|]. intros Heq. apply not_true_iff_false in Hk. by apply Hk, has_key_true.
  - intros [Hin| ->%list_elem_of_singleton]%elem_of_app; [|by right; left]. left. split; [done|]. intros Heq.
    apply not_true_iff_false in E. apply E, existsb_exists. exists u'. by rewrite list_elem_of_In, has_key_true in *.
Qed.

Lemma upsert_other T u u' : u' ∈ T → update_key u' ≠ update_key u → u' ∈ upsert T u.
Proof.
  intros Hin Hk. unfold upsert. destruct (existsb _ _).
  - apply update_where_elem. exists u'. split; [done|]. unfold has_key. by rewrite bool_decide_eq_false_2.
  - apply elem_of_app. by left.
Qed.

Lemma upsert_present T u : ∃ u', u' ∈ upsert T u ∧ written_as u u'.
Proof.
  unfold upsert. destruct (existsb _ _) eqn:E.
  - apply existsb_exists in E as (r & Hr & Hk). exists (refreshed_update u r). split; [|by right; exists r].
    apply update_where_elem. exists r. split; [by apply list_elem_of_In|by rewrite Hk].
  - exists u. split; [apply elem_of_app; right; by left|by left].
Qed.

Lemma upsert_ids T u id : id ∈ table_ids (upsert T u) → id = iu_ID u ∨ id ∈ table_ids T.
Proof.
  unfold upsert. destruct (existsb _ _).
  - rewrite update_where_ids by done. by right.
  - unfold table_ids. rewrite fmap_app, elem_of_app. cbn. rewrite list_elem_of_singleton. tauto.
Qed.

Definition upserts (T : list ImageUpdate) (us : list ImageUpdate) : list ImageUpdate := foldl upsert T us.

Lemma upserts_elem T us u' :
  u' ∈ upserts T us → (u' ∈ T ∧ update_key u' ∉ update_key <$> us) ∨ ∃ u, u ∈ us ∧ written_as u u'.
Proof.
  unfold upserts. induction us as [|u us IH] using rev_ind; [left; by split; [|apply not_elem_of_nil]|].
  rewrite foldl_snoc. intros [[Hin Hk]|Hw]%upsert_elem.
  - apply IH in Hin as [[Hin Hne]|(u0 & H0 & Hw)].
    + left. split; [done|]. rewrite fmap_app, elem_of_app. cbn. rewrite list_elem_of_singleton. tauto.
    + right. exists u0. split; [apply elem_of_app; by left|done].
  - right. exists u. split; [apply elem_of_app; right; by left|done].
Qed.

Lemma upserts_other T us u' : u' ∈ T → update_key u' ∉ update_key <$> us → u' ∈ upserts T us.
Proof.
  unfold upserts. revert T. induction us as [|u us IH]; intros T Hin Hk; [done|]. cbn.
  apply not_elem_of_cons in Hk as [Hk1 Hk2]. apply IH; [by apply upsert_other|done].
Qed.

(** Each stored update has a row of its key, written by an update of that key. *)
Lemma upserts_present T us u :
  u ∈ us → ∃ u0 u', u0 ∈ us ∧ update_key u0 = update_key u ∧ u' ∈ upserts T us ∧ written_as u0 u'.
Proof.
  unfold upserts. induction us as [|v us IH] using rev_ind; [by intros ?%elem_of_nil|]. rewrite foldl_snoc.
  intros [Hin| ->%list_elem_of_singleton]%elem_of_app.
  - destruct (IH Hin) as (u0 & u' & H0 & Hk & Hu' & Hw). destruct (decide (update_key u' = update_key v)) as [Heq|Hne].
    + destruct (upsert_present (foldl upsert T us) v) as (v' & Hv' & Hwv). exists v, v'. split_and!; [set_solver| |done|done].
      by rewrite <- Heq, (written_key _ _ Hw).
    + exists u0, u'. split_and!; [set_solver|done| |done]. by apply upsert_other.
  - destruct (upsert_present (foldl upsert T us) v) as (v' & Hv' & Hwv). exists v, v'. split_and!; [set_solver|done..].
Qed.

(** ** Marks *)

(** What the alert engine needs of an alert of a scan: its entity, and whether it
    closes. *)
Definition mark : Type := string * bool.
Definition mark_of (e : Event) : mark := (ev_EntityID e, ev_IsRecover e).

Definition about_update (e : Event) : Prop := sent_by "update" (λ _, "container") e ∧ ev_AlertType e = "update_available".

Fixpoint settled (entity : string) (b : bool) (l : list mark) : bool :=
  match l with
  | [] => b
  | (e, recover) :: l => settled entity (if bool_decide (e = entity) then negb recover else b) l
  end.

Definition update_channel (entity : string) : channel := ("update_available", entity).

Lemma settle_marks entity b l :
  Forall about_update l → settle (update_channel entity) b l = settled entity b (mark_of <$> l).
Proof.
  revert b. induction l as [|e l IH]; intros b Hl; [done|]. apply Forall_cons in Hl as [[_ He] Hl]. cbn. rewrite IH by done.
  f_equal. unfold about, channel_of, update_channel. rewrite He. by repeat case_bool_decide; try congruence.
Qed.

(** Openings, then closings. *)
Lemma settled_opened entity b es : settled entity b ((λ e, (e, false)) <$> es) = b || bool_decide (entity ∈ es).
Proof.
  revert b. induction es as [|e es IH]; intros b; cbn; [by rewrite bool_decide_eq_false_2, orb_false_r by apply not_elem_of_nil|].
  rewrite IH. destruct (decide (e = entity)) as [->|Hne].
  - rewrite bool_decide_eq_true_2, (bool_decide_eq_true_2 (entity ∈ entity :: es)) by (done || by left). by rewrite orb_true_r.
  - rewrite bool_decide_eq_false_2 by done. f_equal. apply bool_decide_ext. rewrite elem_of_cons. naive_solver.
Qed.

Lemma settled_closed entity b es : settled entity b ((λ e, (e, true)) <$> es) = b && negb (bool_decide (entity ∈ es)).
Proof.
  revert b. induction es as [|e es IH]; intros b; cbn; [by rewrite bool_decide_eq_false_2, andb_true_r by apply not_elem_of_nil|].
  rewrite IH. destruct (decide (e = entity)) as [->|Hne].
  - rewrite bool_decide_eq_true_2, (bool_decide_eq_true_2 (entity ∈ entity :: es)) by (done || by left). by rewrite andb_false_r.
  - rewrite bool_decide_eq_false_2 by done. f_equal. f_equal. apply bool_decide_ext. rewrite elem_of_cons. naive_solver.
Qed.

Lemma settled_app entity b l1 l2 : settled entity b (l1 ++ l2) = settled entity (settled entity b l1) l2.
Proof. revert b. induction l1 as [|[e r] l1 IH]; intros b; [done|]. apply IH. Qed.

(** ** The world after a part of a scan *)

(** Later, with the pending updates [T] and the alerts [marks] sent. *)
Record went (w : world updates) (T : list ImageUpdate) (marks : list mark) (w' : world updates) : Prop := {
  wn_rows : db_updates (w_st w') = T;
  wn_scans : table_ids (db_scans (w_st w')) = table_ids (db_scans (w_st w));
  wn_fleet : up_fleet (w_st w') = up_fleet (w_st w);
  wn_alerts : ∃ l, up_alerts (w_st w') = up_alerts (w_st w) ++ l ∧ Forall about_update l ∧ mark_of <$> l = marks;
  wn_env : w_env w' = w_env w;
  wn_tick : (w_tick w ≤ w_tick w')%nat;
}.

Lemma went_refl w : went w (db_updates (w_st w)) [] w.
Proof. split; try done. exists []. by rewrite app_nil_r. Qed.

Lemma went_trans w1 T m w2 T' m' w3 : went w1 T m w2 → went w2 T' m' w3 → went w1 T' (m ++ m') w3.
Proof.
  intros [R1 S1 F1 (l1 & A1 & B1 & M1) E1 K1] [R2 S2 F2 (l2 & A2 & B2 & M2) E2 K2]. split; [done|congruence..| |congruence|lia].
  exists (l1 ++ l2). rewrite A2, A1, app_assoc, fmap_app, M1, M2. by rewrite Forall_app.
Qed.

Lemma went_same w w' : same w w' → went w (db_updates (w_st w)) [] w'.
Proof. intros (S & E & K). split; rewrite ?S; try done. exists []. by rewrite app_nil_r. Qed.

(** A statement that writes nothing but [T]. *)
Lemma went_put w s w' :
  put w s w' → table_ids (db_scans s) = table_ids (db_scans (w_st w)) → up_fleet s = up_fleet (w_st w) →
  up_alerts s = up_alerts (w_st w) → went w (db_updates s) [] w'.
Proof. intros (S & E & K) H1 H2 H3. split; rewrite ?S; try done. exists []. by rewrite app_nil_r, H3. Qed.

Lemma map_value_skip k v m k' : k ≠ k' → map_value ((k, v) :: m) k' = map_value m k'.
Proof. intros H. unfold map_value. by rewrite filter_cons_False. Qed.

Section Emit.
Context (json : list (string * value) → details) `{Deps : !UpdateDeps}.

(** The alerts of an event. *)
Definition event_marks (eventType : string) (m : list (string * value)) : list mark :=
  if bool_decide (eventType = UpdateResolved) then
    if bool_decide (string_of (map_value m "container_name") = "") then [] else [(update_entity m, true)]
  else if bool_decide (eventType = UpdateDetected) then
    if updateAlertWanted m (update_severity m) then [(update_entity m, false)] else []
  else [].

Lemma event_marks_named ty name m : event_marks ty (("agent_name", name) :: m) = event_marks ty m.
Proof. unfold event_marks, updateAlertWanted, update_entity, update_severity. by rewrite !map_value_skip by done. Qed.

Lemma wp_sendAlert evt (Q : unit → world updates → Prop) w :
  (∀ t, about_update (evt t)) →
  (∀ t w', went w (db_updates (w_st w)) [mark_of (evt t)] w' → Q tt w') → wp (sendAlert evt) Q w.
Proof.
  intros Ha HQ. apply wp_bind, wp_now. intros w1 (S1 & E1 & K1). apply wp_modify_put. intros w2 (S2 & E2 & K2).
  eapply HQ. split; rewrite ?S2; cbn; rewrite ?S1; try done; [|congruence|lia].
  eexists [evt _]. split_and!; [done|by apply Forall_singleton|done].
Qed.

Lemma wp_emit_named ty m (Q : unit → world updates → Prop) w :
  (∀ w', went w (db_updates (w_st w)) (event_marks ty m) w' → Q tt w') →
  wp (do! modify (λ s, s <| up_events ::= λ l, l ++ [(ty, m)] |>) in
      if bool_decide (ty = UpdateResolved) then
        if bool_decide (string_of (map_value m "container_name") = "") then ret tt else sendAlert (updateResolvedAlert m)
      else if bool_decide (ty = UpdateDetected) then
        let! changelog := ask withChangelog in
        if updateAlertWanted m (update_severity m) then sendAlert (updateDetectedAlert json m changelog) else ret tt
      else ret tt) Q w.
Proof.
  intros HQ. apply wp_bind, wp_modify_put. intros w1 H1.
  assert (went w (db_updates (w_st w)) [] w1) as W1 by (by apply (went_put _ _ _ H1)).
  assert (db_updates (w_st w1) = db_updates (w_st w)) as R1 by apply W1.
  assert (∀ marks w', went w1 (db_updates (w_st w1)) marks w' → went w (db_updates (w_st w)) marks w') as Hgo.
  { intros marks w' H. rewrite R1 in H. exact (went_trans _ _ _ _ _ _ _ W1 H). }
  unfold event_marks in HQ. destruct (bool_decide (ty = UpdateResolved)).
  - destruct (bool_decide _); [by apply wp_ret, HQ|]. apply wp_sendAlert; [done|]. intros t w' H. by apply HQ, Hgo.
  - destruct (bool_decide (ty = UpdateDetected)); [|by apply wp_ret, HQ].
    apply wp_bind, wp_consult. intros w2 H2 _. assert (went w (db_updates (w_st w)) [] w2) as W2 by (by apply Hgo, went_same).
    destruct (updateAlertWanted m _); [|by apply wp_ret, HQ]. apply wp_sendAlert; [done|]. intros t w' H. apply HQ.
    rewrite (wn_rows _ _ _ _ W2) in H. exact (went_trans _ _ _ _ _ _ _ W2 H).
Qed.

Lemma wp_update_event ty data (Q : unit → world updates → Prop) w :
  (∀ w', went w (db_updates (w_st w)) (event_marks ty data) w' → Q tt w') → wp (update_callback json ty data) Q w.
Proof.
  intros HQ. unfold update_callback. destruct (_ && _).
  2: { apply wp_bind, wp_ret. by apply wp_emit_named. }
  apply wp_bind, wp_bind. unfold agentName. destruct agentStore_Get as [get|].
  - apply wp_bind, wp_consult. intros w1 H1 _. apply wp_ret, wp_ret, wp_emit_named. intros w' H. apply HQ.
    rewrite event_marks_named in H. pose proof (went_same _ _ H1) as W1. rewrite (wn_rows _ _ _ _ W1) in H.
    exact (went_trans _ _ _ _ _ _ _ W1 H).
  - apply wp_ret, wp_ret, wp_emit_named. intros w' H. apply HQ. by rewrite event_marks_named in H.
Qed.

Lemma wp_emit_each {A} ty (data : A → list (string * value)) l (Q : unit → world updates → Prop) w :
  (∀ w', went w (db_updates (w_st w)) (l ≫= event_marks ty ∘ data) w' → Q tt w') →
  wp (for_each l (λ a, update_callback json ty (data a))) Q w.
Proof.
  revert w. induction l as [|a l IH]; intros w HQ; [apply wp_ret, HQ, went_refl|]. cbn [for_each].
  apply wp_bind, wp_update_event. intros w1 H1. apply IH. intros w' H. apply HQ. rewrite (wn_rows _ _ _ _ H1) in H.
  exact (went_trans _ _ _ _ _ _ _ H1 H).
Qed.
End Emit.

(** ** Storing the results *)

(** No identifier to come is that of a pending update. *)
Definition fresh_updates (w : world updates) : Prop :=
  (∀ n m, env_uid (w_env w) n = env_uid (w_env w) m → n = m)
  ∧ (∀ n, (w_tick w ≤ n)%nat → env_uid (w_env w) n ∉ table_ids (db_updates (w_st w)))
  ∧ NoDup (table_ids (db_updates (w_st w))).

Lemma upsert_nodup T u : NoDup (table_ids T) → iu_ID u ∉ table_ids T → NoDup (table_ids (upsert T u)).
Proof.
  intros Hn Hu. unfold upsert. destruct (existsb _ _); [by rewrite update_where_ids|].
  unfold table_ids. rewrite fmap_app. apply NoDup_app. split_and!; [done| |apply NoDup_singleton].
  intros id Hid ->%list_elem_of_singleton. done.
Qed.

Lemma fresh_went w m w' : went w (db_updates (w_st w)) m w' → fresh_updates w → fresh_updates w'.
Proof.
  intros [R _ _ _ E K] (Hi & Hn & Hd). split; rewrite E; [done|]. rewrite R. split; [|done]. intros n Hle. apply Hn. lia.
Qed.

Lemma wp_InsertImageUpdate u (Q : result string → world updates → Prop) w :
  fault_free w → fresh_updates w → iu_ScanID u ∈ table_ids (db_scans (w_st w)) →
  (∀ id w', went w (upsert (db_updates (w_st w)) (stored_update (u <| iu_ID := id |>))) [] w' → fresh_updates w' → Q (Ok id) w') →
  wp (InsertImageUpdate u) Q w.
Proof.
  intros Hff (Hi & Hn & Hd) Hscan HQ. apply wp_bind, wp_new_uid. intros w1 H1 T1. set (id := env_uid _ _).
  assert (id ∉ table_ids (db_updates (w_st w))) as Hid by (apply Hn; lia).
  apply wp_bind, wp_fault. intros b w2 H2 Hb.
  rewrite Hb by (eapply fault_free_env; [apply H1|done]). pose proof (same_trans _ _ _ H1 H2) as (S & E & K).
  apply wp_bind, wp_gets. rewrite S. cbn -[stored_update].
  rewrite bool_decide_eq_true_2 by done. cbn -[stored_update].
  assert (∀ w3, put w2 (w_st w2 <| db_updates := upsert (db_updates (w_st w)) (stored_update (u <| iu_ID := id |>)) |>) w3 →
    Q (Ok id) w3) as Hdone.
  { intros w3 (S3 & E3 & K3).
    assert (went w (upsert (db_updates (w_st w)) (stored_update (u <| iu_ID := id |>))) [] w3) as Hw.
    { split; rewrite ?S3; cbn; rewrite ?S; try done; [|congruence|lia]. exists []. by rewrite app_nil_r. }
    apply HQ; [done|]. split; rewrite E3, E; [done|]. rewrite S3. split; [|by apply upsert_nodup].
    intros n Hle. cbn. intros [Heq|Hin]%upsert_ids.
    - apply Hi in Heq. destruct H2 as (_ & _ & K2). lia.
    - revert Hin. apply Hn. destruct H1 as (_ & _ & K1), H2 as (_ & _ & K2). lia. }
  unfold upsert in Hdone. destruct (existsb _ (db_updates (w_st w))).
  - apply wp_bind, wp_modify_put. intros w3 H3. apply wp_ret, Hdone. by rewrite S in H3 |- *.
  - rewrite bool_decide_eq_false_2 by done. apply wp_bind, wp_modify_put. intros w3 H3. apply wp_ret, Hdone. by rewrite S in H3 |- *.
Qed.

Section Persist.
Context (json : list (string * value) → details) `{Deps : !UpdateDeps} `{Masterminds : Semver}.

Definition has_update (r : UpdateResult) : Prop := ur_HasUpdate r = true.
#[export] Instance has_update_dec r : Decision (has_update r).
Proof. unfold has_update. apply _. Defined.

(** The row a result is stored as. *)
Definition stored_as (scanID : string) (cs : list ContainerInfo) (r : UpdateResult) (u : ImageUpdate) : Prop :=
  ∃ t id, u = stored_update (pending_update scanID cs r t <| iu_ID := id |>).

Definition result_data (cs : list ContainerInfo) (r : UpdateResult) : list (string * value) :=
  [("container_id", VString (ur_ContainerID r)); ("container_uid", VString (ci_UID (info_of cs (ur_ContainerID r))));
   ("risk_score", VInt (BaseRiskScore (ur_UpdateType r))); ("alert_on", VString (ur_AlertOn r))].

Definition result_marks (cs : list ContainerInfo) (r : UpdateResult) : list mark :=
  if bool_decide (has_update r) then event_marks UpdateDetected (result_data cs r) else [].

Lemma detected_marks scanID cs r t :
  event_marks UpdateDetected (detected_data cs r (pending_update scanID cs r t)) = event_marks UpdateDetected (result_data cs r).
Proof.
  unfold event_marks, updateAlertWanted, update_entity, update_severity, detected_data, result_data. cbn [app].
  rewrite !map_value_skip by done. reflexivity.
Qed.

Lemma wp_persist_result scanID cs found r (Q : Z → world updates → Prop) w :
  fault_free w → fresh_updates w → scanID ∈ table_ids (db_scans (w_st w)) →
  (∀ found' w' us, Forall2 (stored_as scanID cs) (filter has_update [r]) us →
     went w (upserts (db_updates (w_st w)) us) (result_marks cs r) w' → fresh_updates w' → Q found' w') →
  wp (persist_result json scanID cs found r) Q w.
Proof.
  intros Hff Hfresh Hscan HQ. unfold persist_result. unfold result_marks in HQ. destruct (decide (has_update r)) as [Hr|Hr].
  2: { rewrite (not_true_is_false _ Hr). rewrite filter_cons_False, bool_decide_eq_false_2 in HQ by done.
       apply wp_ret, (HQ found w []); [constructor|apply (went_refl w)|done]. }
  rewrite filter_cons_True, bool_decide_eq_true_2 in HQ by done. unfold has_update in Hr. rewrite Hr. cbn [negb].
  apply wp_bind, wp_now. intros w1 H1. pose proof (went_same _ _ H1) as W1.
  apply wp_bind. apply wp_InsertImageUpdate.
  - eapply fault_free_env; [apply H1|done].
  - by eapply fresh_went.
  - by rewrite (wn_scans _ _ _ _ W1).
  - intros id w2 W2 F2. apply wp_bind, wp_update_event. intros w3 W3. rewrite detected_marks in W3. apply wp_ret.
    set (u := stored_update _) in *. apply (HQ _ w3 [u]).
    + repeat constructor. by eexists _, _.
    + rewrite (wn_rows _ _ _ _ W2), (wn_rows _ _ _ _ W1) in W3.
      rewrite (wn_rows _ _ _ _ W1) in W2. exact (went_trans _ _ _ _ _ _ _ W1 (went_trans _ _ _ _ _ _ _ W2 W3)).
    + rewrite (wn_rows _ _ _ _ W2) in W3. eapply fresh_went; [|exact F2]. by rewrite (wn_rows _ _ _ _ W2).
Qed.

Lemma wp_persist scanID cs rs (Q : Z → world updates → Prop) w :
  fault_free w → fresh_updates w → scanID ∈ table_ids (db_scans (w_st w)) →
  (∀ found w' us, Forall2 (stored_as scanID cs) (filter has_update rs) us →
     went w (upserts (db_updates (w_st w)) us) (rs ≫= result_marks cs) w' → fresh_updates w' → Q found w') →
  wp (for_acc rs 0 (persist_result json scanID cs)) Q w.
Proof.
  intros Hff Hfresh Hscan HQ.
  eapply wp_mono; [apply (wp_for_acc rs 0 (persist_result json scanID cs) (λ done _ w', ∃ us,
    Forall2 (stored_as scanID cs) (filter has_update done) us
    ∧ went w (upserts (db_updates (w_st w)) us) (done ≫= result_marks cs) w' ∧ fresh_updates w'))|].
  - intros l r rest acc w1 _ (us & Hus & W & F). apply wp_persist_result.
    + eapply fault_free_env; [apply W|done].
    + done.
    + by rewrite (wn_scans _ _ _ _ W).
    + intros found w2 us' Hus' W' F'. exists (us ++ us'). split_and!; [|  |done].
      * rewrite filter_app. by apply Forall2_app.
      * rewrite (wn_rows _ _ _ _ W) in W'. unfold upserts in *. rewrite foldl_app, bind_app. cbn. rewrite app_nil_r.
        exact (went_trans _ _ _ _ _ _ _ W W').
  - exists []. split_and!; [constructor|apply went_refl|done].
  - intros found w' (us & Hus & W & F). by eapply HQ.
Qed.

(** ** Dropping *)

Lemma wp_delete_updates p (Q : result Z → world updates → Prop) w :
  fault_free w → (∀ n w', went w (delete_where (p (w_st w)) (db_updates (w_st w))) [] w' → Q (Ok n) w') →
  wp (delete_updates p) Q w.
Proof.
  intros Hff HQ. apply wp_bind, wp_fault. intros b w1 H1 Hb. rewrite Hb by done. apply wp_bind, wp_gets, wp_bind, wp_modify_put.
  intros w2 H2. apply wp_ret, HQ. destruct H1 as (S1 & E1 & K1), H2 as (S2 & E2 & K2). rewrite S1 in S2.
  split; rewrite ?S2; cbn; try done; [|congruence|lia]. exists []. by rewrite app_nil_r.
Qed.

Definition stale_rows (scanID : string) (hosts names : list string) (T : list ImageUpdate) : list ImageUpdate :=
  select_where (staleFilter scanID hosts names) T.

Lemma stale_filter_nil scanID hosts names u : hosts = [] ∨ names = [] → staleFilter scanID hosts names u = false.
Proof.
  unfold staleFilter. intros [-> | ->]; rewrite ?(bool_decide_eq_false_2 (_ ∈ [])) by apply not_elem_of_nil;
    by rewrite ?andb_false_r.
Qed.

Lemma select_where_none {R} `{!HasId R} (p : R → bool) T : (∀ u, p u = false) → select_where p T = [] ∧ delete_where p T = T.
Proof.
  intros Hp. unfold select_where, delete_where. split.
  - induction T as [|u T IH]; [done|]. rewrite filter_cons_False; [done|]. by rewrite Hp.
  - induction T as [|u T IH]; [done|]. rewrite filter_cons_True; [by rewrite IH|]. by rewrite Hp.
Qed.

Lemma wp_drop_stale scanID hosts names (Q : list StaleImageUpdate → world updates → Prop) w :
  fault_free w →
  (∀ l w', (∀ su, su ∈ l ↔ su ∈ stale_entry <$> stale_rows scanID hosts names (db_updates (w_st w))) →
     went w (delete_where (staleFilter scanID hosts names) (db_updates (w_st w))) [] w' → Q l w') →
  wp (drop_stale scanID hosts names) Q w.
Proof.
  intros Hff HQ. unfold drop_stale, ListStaleImageUpdates, DeleteStaleImageUpdates. unfold stale_rows in HQ.
  destruct (bool_decide (hosts = []) || bool_decide (names = [])) eqn:E.
  - apply orb_true_iff in E. rewrite !bool_decide_eq_true in E.
    destruct (select_where_none (staleFilter scanID hosts names) (db_updates (w_st w)) (λ u, stale_filter_nil _ _ _ u E)) as [H1 H2].
    apply wp_bind, wp_ret, wp_bind, wp_ret, wp_ret, HQ; [by rewrite H1|]. rewrite H2. apply went_refl.
  - apply wp_bind, wp_db_query; [by intros|]. intros w1 H1. pose proof (went_same _ _ H1) as W1. apply wp_bind, wp_delete_updates.
    { eapply fault_free_env; [apply H1|done]. }
    intros n w2 W2. apply wp_ret, HQ.
    + intros su. apply elem_of_remove_dups.
    + rewrite (wn_rows _ _ _ _ W1) in W2. exact (went_trans _ _ _ _ _ _ _ W1 W2).
Qed.

Lemma wp_drop_orphans cs (Q : list StaleImageUpdate → world updates → Prop) w :
  fault_free w → cs ≠ [] →
  (∀ l w', (∀ su, su ∈ l ↔ su ∈ orphan_entry (w_st w) <$> select_where (λ u, negb (live_update (w_st w) u)) (db_updates (w_st w))) →
     went w (delete_where (λ u, negb (live_update (w_st w) u)) (db_updates (w_st w))) [] w' → Q l w') →
  wp (drop_orphans cs) Q w.
Proof.
  intros Hff Hcs HQ. unfold drop_orphans, ListOrphanImageUpdates, DeleteOrphanImageUpdates.
  rewrite bool_decide_eq_false_2 by done. apply wp_bind, wp_db_query; [by intros|]. intros w1 H1.
  pose proof (went_same _ _ H1) as W1. apply wp_bind, wp_delete_updates; [eapply fault_free_env; [apply H1|done]|].
  intros n w2 W2. apply wp_ret, HQ; [intros su; apply elem_of_remove_dups|].
  destruct H1 as (S1 & _). rewrite S1 in W2. exact (went_trans _ _ _ _ _ _ _ W1 W2).
Qed.
End Persist.

(** ** Whole scans *)

(** ** What the scan of the registries does *)

(** Nothing but baselines is written. *)
Definition looks (s s' : updates) : Prop :=
  db_updates s' = db_updates s ∧ db_scans s' = db_scans s ∧ up_fleet s' = up_fleet s ∧ up_alerts s' = up_alerts s.

#[export] Instance looks_preorder : PreOrder looks.
Proof. split; [done|]. intros ??? (?&?&?&?) (?&?&?&?). split_and!; congruence. Qed.

Section Looks.
Context `{Deps : !UpdateDeps} `{Regexps : !Regexp} `{Masterminds : Semver}.
Context (sort_Slice : list tagVersion → list tagVersion).

#[local] Hint Resolve steps_consult : steps.

Lemma checkDigest_looks t : steps looks (checkDigest t).
Proof. unfold checkDigest, currentDigest, record_baseline, UpsertDigestBaseline, ask. steps_tac; done. Qed.
#[local] Hint Resolve checkDigest_looks : steps.

Lemma scanContainer_looks c ex : steps looks (scanContainer sort_Slice c ex).
Proof. unfold scanContainer, check_tags, ask. steps_tac; done. Qed.
#[local] Hint Resolve scanContainer_looks : steps.

Lemma scan_containers_looks first ex cs o : steps looks (scan_containers sort_Slice first ex cs o).
Proof.
  revert first o. induction cs as [|c cs IH]; intros first o; cbn [scan_containers]; [apply steps_ret; apply _|].
  unfold ask. steps_tac; apply IH.
Qed.

Lemma Scan_looks cs : steps looks (Scan sort_Slice cs).
Proof. unfold Scan. steps_tac; apply scan_containers_looks. Qed.

(** ** Where the results come from *)

Definition anywhere : world updates → Prop := λ _, True.
#[local] Instance anywhere_stable : Stable anywhere.
Proof. by intros w w' _ _. Qed.

(** The container a result is about. *)
Record result_of (c : ContainerInfo) (r : UpdateResult) : Prop := {
  ro_id : ur_ContainerID r = ci_ExternalID c;
  ro_name : ur_ContainerName r = ci_Name c;
  ro_image : ur_Image r = ci_Image c;
  ro_update : ur_HasUpdate r = true;
}.

Definition for_container (c : ContainerInfo) (r : option UpdateResult) : Prop :=
  match r with Some u => result_of c u | None => True end.

Lemma ask_anywhere {A} (answer : nat → A) : upholds anywhere anything (ask answer).
Proof. by intros w _. Qed.

Lemma checkDigest_of t : upholds anywhere (res_ok (for_container (ta_container t))) (checkDigest t).
Proof.
  eapply upholds_bind; [apply ask_anywhere|]. intros [remote|e] _; [|apply upholds_ret; by destruct (isUnreachableImage e)].
  destruct (bool_decide (rd_Digest remote = "")); [by apply upholds_ret|].
  set (t' := match filter _ _ with [] => _ | _ => _ end). assert (ta_container t' = ta_container t) as Ht.
  { unfold t'. by destruct (filter _ _). }
  clearbody t'.
  eapply (upholds_let _ anything); [intros w _; split; [by destruct (currentDigest t' remote w).1|done]|].
  intros current _. destruct (_ || _); apply upholds_ret; [done|]. by split; cbn; rewrite ?Ht.
Qed.

Lemma scan_target_container c cfg : ta_container (scan_target c cfg) = c.
Proof. unfold scan_target. destruct (ParseImageRef _) as [[]]. by destruct (bool_decide _). Qed.

Lemma check_tags_of t cfg : upholds anywhere (res_ok (for_container (ta_container t))) (check_tags sort_Slice t cfg).
Proof.
  eapply upholds_bind; [apply ask_anywhere|]. intros [tags|e] _; [|apply upholds_ret; by destruct (isUnreachableImage e)].
  destruct (findBestUpdate _ _ _ _) as [bestTag updateType]. destruct (bool_decide (bestTag = "")); [by apply upholds_ret|].
  destruct (_ && _); [apply checkDigest_of|]. eapply upholds_bind; [apply ask_anywhere|]. intros latest _. by apply upholds_ret.
Qed.

Lemma scanContainer_of c ex : upholds anywhere (res_ok (for_container c)) (scanContainer sort_Slice c ex).
Proof.
  unfold scanContainer. destruct (bool_decide _); [by apply upholds_ret|]. destruct (ci_LocallyBuilt c); [by apply upholds_ret|].
  destruct (negb _); [by apply upholds_ret|]. destruct (negb _); [by apply upholds_ret|].
  eapply (upholds_bind _ anything); [by intros w _|]. intros pin _.
  assert (upholds anywhere (res_ok (for_container c))
    (if isExcluded (ci_Image c) (image_tag (ci_Image c)) ex then ret (Ok None)
     else if bool_decide (TrackLevel (ParseUpdateLabels (ci_Labels c)) = TrackDigest)
          then checkDigest (scan_target c (ParseUpdateLabels (ci_Labels c)))
          else check_tags sort_Slice (scan_target c (ParseUpdateLabels (ci_Labels c))) (ParseUpdateLabels (ci_Labels c)))) as H.
  { destruct (isExcluded _ _ _); [by apply upholds_ret|].
    set (t := scan_target _ _). assert (ta_container t = c) as Ht by apply scan_target_container.
    destruct (bool_decide _); rewrite <- Ht; [apply checkDigest_of|apply check_tags_of]. }
  destruct pin as [[p|]|e]; [by apply upholds_ret|exact H..].
Qed.

(** A result for some of the containers, in their order, each at most once. *)
Definition results_of (cs : list ContainerInfo) (rs : list UpdateResult) : Prop := ∃ l, sublist l cs ∧ Forall2 result_of l rs.

Lemma scan_containers_of first ex cs o :
  upholds anywhere (λ o', ∃ rs, so_results o' = so_results o ++ rs ∧ results_of cs rs) (scan_containers sort_Slice first ex cs o).
Proof.
  revert first o. induction cs as [|c cs IH]; intros first o; cbn [scan_containers].
  { apply upholds_ret. exists []. rewrite app_nil_r. split; [done|]. by exists []. }
  assert (∃ rs, so_results o = so_results o ++ rs ∧ results_of (c :: cs) rs) as Hstop.
  { exists []. rewrite app_nil_r. split; [done|]. exists []. split; [apply sublist_nil_l|constructor]. }
  eapply upholds_bind; [apply ask_anywhere|]. intros [] _; [by apply upholds_ret|].
  eapply (upholds_bind _ anything); [by intros w _; destruct first|]. intros [] _; [by apply upholds_ret|].
  eapply upholds_bind; [apply scanContainer_of|]. intros r Hr. eapply upholds_mono; [apply IH|].
  intros o' (rs & Ho & l & Hl & Hrs). destruct r as [[u|]|e]; cbn in Ho, Hr.
  - exists (u :: rs). rewrite Ho, <- app_assoc. split; [done|]. exists (c :: l). split; [by apply sublist_skip|by constructor].
  - exists rs. split; [done|]. exists l. split; [by apply sublist_cons|done].
  - exists rs. split; [done|]. exists l. split; [by apply sublist_cons|done].
Qed.

Lemma Scan_of cs : upholds anywhere (λ o, results_of cs (so_results o)) (Scan sort_Slice cs).
Proof.
  eapply (upholds_bind _ anything); [by intros w _|]. intros r _. eapply upholds_mono; [apply scan_containers_of|].
  by intros o (rs & -> & H).
Qed.

Lemma results_of_elem cs rs r : results_of cs rs → r ∈ rs → ∃ c, c ∈ cs ∧ result_of c r.
Proof.
  intros (l & Hl & Hrs) Hr. apply list_elem_of_lookup in Hr as [i Hi].
  destruct (Forall2_lookup_r _ _ _ _ _ Hrs Hi) as (c & Hc & Hcr). exists c. split; [|done].
  eapply elem_of_submseteq; [by eapply list_elem_of_lookup_2|by apply sublist_submseteq].
Qed.
End Looks.

(** ** The enrichment *)

(** A pending update without what an enrichment writes. *)
Definition plain_update (u : ImageUpdate) : ImageUpdate :=
  u <| iu_ChangelogURL := "" |> <| iu_ChangelogSummary := "" |> <| iu_HasBreakingChanges := false |> <| iu_SourceURL := "" |>
    <| iu_RiskScore := 0 |>.

(** The findings stay, whatever else is written. *)
Definition enriched (s s' : updates) : Prop :=
  plain_update <$> db_updates s' = plain_update <$> db_updates s ∧ db_scans s' = db_scans s ∧ up_fleet s' = up_fleet s
  ∧ up_alerts s' = up_alerts s.

Class EnricherLaws `{!Enricher} := {
  Enrich_enriched targets w :
    NoDup (table_ids (db_updates (w_st w))) →
    enriched (w_st w) (w_st (Enrich targets w).2) ∧ w_env (Enrich targets w).2 = w_env w;
}.

#[export] Instance noop_laws : @EnricherLaws noopUpdateEnricher.
Proof. by split. Qed.

(** ** A whole scan *)

(** The closings of the updates that are gone. *)
Section Whole.
Context (json : list (string * value) → details) `{Deps : !UpdateDeps} `{Masterminds : Semver} `{Uid_ : !Uuid}
  `{Regexps : !Regexp} `{Enrichment : !Enricher} `{Laws_ : !EnricherLaws}.
Context (sort_Slice : list tagVersion → list tagVersion).

Definition closing_marks (cs : list ContainerInfo) (l : list StaleImageUpdate) : list mark :=
  l ≫= event_marks UpdateResolved ∘ resolved_data cs.

(** The rows a scan leaves and the alerts it sends: the results stored by key,
    enriched, then the stale rows and the orphans dropped and closed. *)
Record scanned (scanID : string) (cs : list ContainerInfo) (o : scan_outcome) (s s' : updates)
    (us rows : list ImageUpdate) (dropped : list StaleImageUpdate) (alerts : list Event) : Prop := {
  sd_results : Forall2 (stored_as scanID cs) (filter has_update (so_results o)) us;
  sd_enriched : plain_update <$> rows = plain_update <$> upserts (db_updates s) us;
  sd_fleet : up_fleet s' = up_fleet s;
  sd_left u : u ∈ db_updates s' ↔
    u ∈ rows ∧ staleFilter scanID (covered_hosts cs) (scanned_names cs (so_errors o)) u = false ∧ live_update s u = true;
  sd_dropped su : su ∈ dropped ↔ ∃ u, u ∈ rows ∧
    (staleFilter scanID (covered_hosts cs) (scanned_names cs (so_errors o)) u = true ∧ su = stale_entry u
     ∨ staleFilter scanID (covered_hosts cs) (scanned_names cs (so_errors o)) u = false ∧ live_update s u = false ∧ su = orphan_entry s u);
  sd_alerts : up_alerts s' = up_alerts s ++ alerts;
  sd_about : Forall about_update alerts;
  sd_marks : mark_of <$> alerts = (so_results o ≫= result_marks cs) ++ closing_marks cs dropped;
}.

Lemma live_fleet s s' u : up_fleet s' = up_fleet s → live_update s' u = live_update s u.
Proof. unfold live_update, live_container. by intros ->. Qed.

Lemma orphan_fleet s s' u : up_fleet s' = up_fleet s → orphan_entry s' u = orphan_entry s u.
Proof. unfold orphan_entry. by intros ->. Qed.

Lemma wp_completeScan record status a b c (Q : unit → world updates → Prop) w :
  (∀ w', went w (db_updates (w_st w)) [] w' → Q tt w') → wp (completeScan json record status a b c) Q w.
Proof.
  intros HQ. apply wp_bind, wp_now. intros w1 H1. pose proof (went_same _ _ H1) as W1.
  assert (∀ w2, went w1 (db_updates (w_st w1)) [] w2 → wp (update_callback json UpdateScanCompleted
    [("scan_id", VString (sr_ID record)); ("updates_found", VInt b); ("errors", VInt c)]) Q w2) as Hemit.
  { intros w2 W2. apply wp_update_event. intros w3 W3. apply HQ. rewrite (wn_rows _ _ _ _ W2) in W3.
    rewrite (wn_rows _ _ _ _ W1) in W2, W3. exact (went_trans _ _ _ _ _ _ _ W1 (went_trans _ _ _ _ _ _ _ W2 W3)). }
  apply wp_bind, wp_db_exec.
  - intros w2 H2 _. by apply Hemit, went_same.
  - intros w2 H2. apply Hemit. apply (went_put _ _ _ H2); [|done..]. cbn. by rewrite update_id_ids.
Qed.

Lemma wp_enrich targets (Q : result unit → world updates → Prop) w :
  NoDup (table_ids (db_updates (w_st w))) →
  (∀ r w', enriched (w_st w) (w_st w') → w_env w' = w_env w → Q r w') →
  wp (if bool_decide (targets = []) then ret (Ok tt) else Enrich targets) Q w.
Proof.
  intros Hn HQ. destruct (bool_decide _); [by apply wp_ret, HQ|]. destruct (Enrich_enriched targets w Hn). by apply HQ.
Qed.

Lemma scan_all_scanned record cs w :
  fault_free w → cs ≠ [] → sr_ID record ∈ table_ids (db_scans (w_st w)) → NoDup (table_ids (db_updates (w_st w))) →
  (∀ n m, env_uid (w_env w) n = env_uid (w_env w) m → n = m) →
  (∀ n, env_uid (w_env w) n ∉ table_ids (db_updates (w_st w))) →
  let o := (Scan sort_Slice cs w).1 in
  let w' := (scan_all json sort_Slice record cs w).2 in
  ∃ us rows dropped alerts, scanned (sr_ID record) cs o (w_st w) (w_st w') us rows dropped alerts.
Proof.
  intros Hff Hcs Hscan Hn Hinj Hnew o w'.
  enough (wp (scan_all json sort_Slice record cs) (λ _ w', ∃ us rows dropped alerts,
    scanned (sr_ID record) cs o (w_st w) (w_st w') us rows dropped alerts) w) as Hrun by exact Hrun.
  clear w'. apply wp_bind. destruct (Scan_looks sort_Slice cs w) as [(L1 & L2 & L3 & L4) E1].
  unfold wp at 1. fold o. set (w1 := (Scan sort_Slice cs w).2) in *.
  assert (fault_free w1) as Hff1 by (by eapply fault_free_env).
  apply wp_bind, wp_persist; [done|by split_and!; rewrite ?E1, ?L1|by rewrite L2|]. intros found w2 us Hus W2 (_ & _ & Hn2).
  rewrite L1 in W2. apply wp_bind, wp_enrich; [done|]. intros _ w3 (P3 & S3 & F3 & A3) E3.
  assert (fault_free w3) as Hff3 by (eapply fault_free_env; [|exact Hff1]; rewrite E3; apply W2).
  set (filt := staleFilter (sr_ID record) (covered_hosts cs) (scanned_names cs (so_errors o))).
  apply wp_bind, wp_drop_stale; [done|]. fold filt. intros stale w4 Hstale W4.
  apply wp_bind, wp_drop_orphans; [by eapply fault_free_env, Hff3; apply W4|done|]. intros orphans w5 Horphans W5.
  apply wp_bind, wp_emit_each. intros w6 W6. apply wp_completeScan. intros w7 W7.
  assert (up_fleet (w_st w4) = up_fleet (w_st w)) as F4.
  { by rewrite (wn_fleet _ _ _ _ W4), F3, (wn_fleet _ _ _ _ W2), L3. }
  destruct (wn_alerts _ _ _ _ W2) as (l2 & A2 & B2 & M2), (wn_alerts _ _ _ _ W4) as (l4 & A4 & B4 & M4),
    (wn_alerts _ _ _ _ W5) as (l5 & A5 & B5 & M5), (wn_alerts _ _ _ _ W6) as (l6 & A6 & B6 & M6),
    (wn_alerts _ _ _ _ W7) as (l7 & A7 & B7 & M7).
  apply fmap_nil_inv in M4, M5, M7. subst l4 l5 l7. rewrite app_nil_r in A4, A5, A7.
  exists us, (db_updates (w_st w3)), (stale ++ orphans), (l2 ++ l6). split.
  - done.
  - by rewrite P3, (wn_rows _ _ _ _ W2).
  - by rewrite (wn_fleet _ _ _ _ W7), (wn_fleet _ _ _ _ W6), (wn_fleet _ _ _ _ W5).
  - intros u. rewrite (wn_rows _ _ _ _ W7), (wn_rows _ _ _ _ W6), (wn_rows _ _ _ _ W5), delete_where_elem,
      (wn_rows _ _ _ _ W4), delete_where_elem, (live_fleet _ _ u F4). fold filt. destruct (live_update (w_st w) u); naive_solver.
  - intros su. rewrite elem_of_app, Hstale, Horphans, !list_elem_of_fmap. unfold stale_rows.
    setoid_rewrite select_where_elem. setoid_rewrite (wn_rows _ _ _ _ W4). setoid_rewrite delete_where_elem.
    setoid_rewrite (λ u, orphan_fleet _ _ u F4). setoid_rewrite (λ u, live_fleet _ _ u F4). fold filt.
    setoid_rewrite negb_true_iff. naive_solver.
  - by rewrite A7, A6, A5, A4, A3, A2, L4, app_assoc.
  - by apply Forall_app.
  - by rewrite fmap_app, M2, M6.
Qed.
End Whole.

(** ** The containers a scan covers *)

Lemma container_by_id_snoc cs c id :
  container_by_id (cs ++ [c]) id = if bool_decide (ci_ExternalID c = id) then Some c else container_by_id cs id.
Proof. unfold container_by_id. by rewrite foldl_snoc. Qed.

Lemma container_by_id_Some cs id c : container_by_id cs id = Some c → c ∈ cs ∧ ci_ExternalID c = id.
Proof.
  induction cs as [|c' cs IH] using rev_ind; [done|]. rewrite container_by_id_snoc, elem_of_app. case_bool_decide; [|naive_solver].
  intros [= <-]. split; [right; by left|done].
Qed.

Lemma container_by_id_elem cs c :
  NoDup (ci_ExternalID <$> cs) → c ∈ cs → container_by_id cs (ci_ExternalID c) = Some c.
Proof.
  induction cs as [|c' cs IH] using rev_ind; [by intros _ ?%elem_of_nil|]. rewrite fmap_app. intros (Hn & Hd & _)%NoDup_app Hin.
  rewrite container_by_id_snoc. apply elem_of_app in Hin as [Hin| ->%list_elem_of_singleton].
  - rewrite bool_decide_eq_false_2; [by apply IH|]. intros Heq. apply (Hd (ci_ExternalID c)).
    + by apply list_elem_of_fmap_2.
    + rewrite <- Heq. by left.
  - by rewrite bool_decide_eq_true_2.
Qed.

Lemma info_of_elem cs c : NoDup (ci_ExternalID <$> cs) → c ∈ cs → info_of cs (ci_ExternalID c) = c.
Proof. intros Hn Hc. unfold info_of. by rewrite container_by_id_elem. Qed.

Lemma covered_hosts_elem cs h : h ∈ covered_hosts cs ↔ ∃ c, c ∈ cs ∧ uid_Agent (ci_AgentID c) = h.
Proof.
  unfold covered_hosts. induction cs as [|c cs IH] using rev_ind.
  - cbn. split; [by intros ?%elem_of_nil|by intros (c & ?%elem_of_nil & _)].
  - rewrite foldl_snoc. set (hosts := foldl _ _ _) in *. cbv zeta.
    assert (h ∈ (if bool_decide (uid_Agent (ci_AgentID c) ∈ hosts) then hosts else hosts ++ [uid_Agent (ci_AgentID c)])
      ↔ h ∈ hosts ∨ h = uid_Agent (ci_AgentID c)) as ->.
    { case_bool_decide; [naive_solver|]. by rewrite elem_of_app, list_elem_of_singleton. }
    rewrite IH. setoid_rewrite elem_of_app. setoid_rewrite list_elem_of_singleton. naive_solver.
Qed.

Lemma scanned_names_elem cs errors n :
  n ∈ scanned_names cs errors ↔ (∃ c, c ∈ cs ∧ ci_Name c = n) ∧ n ∉ se_ContainerName <$> errors.
Proof.
  unfold scanned_names. rewrite list_elem_of_fmap. setoid_rewrite list_elem_of_filter. naive_solver.
Qed.

(** ** Results and rows *)

(** The row of a result found for a container. *)
Record reports (scanID : string) (c : ContainerInfo) (r : UpdateResult) (u : ImageUpdate) : Prop := {
  re_scan : iu_ScanID u = scanID;
  re_container : iu_ContainerID u = ci_ExternalID c;
  re_host : iu_AgentID u = uid_Agent (ci_AgentID c);
  re_name : iu_ContainerName u = ci_Name c;
  re_image : iu_Image u = ci_Image c;
  re_current : iu_CurrentTag u = ur_CurrentTag r ∧ iu_CurrentDigest u = ur_CurrentDigest r;
  re_latest : iu_LatestTag u = ur_LatestTag r ∧ iu_LatestDigest u = ur_LatestDigest r;
  re_type : iu_UpdateType u = ur_UpdateType r;
  re_previous : iu_PreviousDigest u = ur_PreviousDigest r;
}.

Definition report_key (c : ContainerInfo) (r : UpdateResult) : string * string * string * string :=
  (uid_Agent (ci_AgentID c), ci_Name c, ci_Image c, ur_LatestTag r).

Lemma reports_key scanID c r u : reports scanID c r u → update_key u = report_key c r.
Proof. intros [_ _ H1 H2 H3 _ [H4 _] _ _]. unfold update_key, report_key. by rewrite H1, H2, H3, H4. Qed.

Lemma reports_plain scanID c r u u' : plain_update u' = plain_update u → reports scanID c r u → reports scanID c r u'.
Proof.
  intros Hp [].
  assert (∀ {X} (f : ImageUpdate → X), f (plain_update u') = f (plain_update u)) as Hf by (intros; by rewrite Hp).
  split; try split;
    match goal with |- ?f _ = _ => etrans; [exact (Hf _ f)|]; cbn; naive_solver end.
Qed.

Lemma written_reports scanID cs c r u u' :
  NoDup (ci_ExternalID <$> cs) → c ∈ cs → result_of c r → stored_as scanID cs r u → written_as u u' → reports scanID c r u'.
Proof.
  intros Hn Hc [Hid Hname Himg _] (t & id & ->) Hw. 
  assert (info_of cs (ur_ContainerID r) = c) as Hinfo by (rewrite Hid; by apply info_of_elem).
  destruct Hw as [-> |(r0 & _ & ->)]; split; cbn; rewrite ?Hinfo; done.
Qed.

Lemma plain_key u u' : plain_update u' = plain_update u → update_key u' = update_key u.
Proof. intros H. apply (f_equal update_key) in H. exact H. Qed.

Lemma plain_fields u u' :
  plain_update u' = plain_update u → iu_ContainerID u' = iu_ContainerID u ∧ iu_ScanID u' = iu_ScanID u
  ∧ iu_AgentID u' = iu_AgentID u ∧ iu_ContainerName u' = iu_ContainerName u.
Proof.
  intros Hp. split_and!; [exact (f_equal iu_ContainerID Hp)|exact (f_equal iu_ScanID Hp)|exact (f_equal iu_AgentID Hp)
    |exact (f_equal iu_ContainerName Hp)].
Qed.

Lemma plain_elem (rows T : list ImageUpdate) u : plain_update <$> rows = plain_update <$> T → u ∈ T → ∃ u', u' ∈ rows ∧ plain_update u' = plain_update u.
Proof.
  intros Hp Hu. apply (list_elem_of_fmap_2 plain_update) in Hu. rewrite <- Hp in Hu.
  apply list_elem_of_fmap in Hu as (u' & Heq & Hin). eauto.
Qed.

(** Containers of different hosts or names have results of their own. *)
Definition host_name (c : ContainerInfo) : string * string := (uid_Agent (ci_AgentID c), ci_Name c).

Lemma results_unique cs rs c r r' :
  results_of cs rs → NoDup (ci_ExternalID <$> cs) → r ∈ rs → r' ∈ rs → result_of c r → result_of c r' → r = r'.
Proof.
  intros (l & Hl & Hrs) Hn Hr Hr' [H1 _ _ _] [H2 _ _ _].
  assert (NoDup (ur_ContainerID <$> rs)) as Hnr.
  { assert (ur_ContainerID <$> rs = ci_ExternalID <$> l) as ->.
    { clear -Hrs. induction Hrs as [|c r l rs [Hid _ _ _] _ IH]; [done|]. cbn. by rewrite IH, Hid. }
    eapply sublist_NoDup; [exact Hn|]. by f_equiv. }
  apply list_elem_of_lookup in Hr as [i Hi], Hr' as [j Hj].
  assert (i = j) as ->; [|congruence].
  apply (NoDup_lookup _ _ _ (ci_ExternalID c) Hnr); rewrite list_lookup_fmap; [rewrite Hi|rewrite Hj]; cbn; congruence.
Qed.

Section Theorems.
Context (json : list (string * value) → details) `{Deps : !UpdateDeps} `{Masterminds : Semver} `{Uid_ : !Uuid}
  `{Regexps : !Regexp} `{Enrichment : !Enricher} `{Laws_ : !EnricherLaws}.
Context (sort_Slice : list tagVersion → list tagVersion).

(** A scan that is about to start, in a world where nothing fails. *)
Record scan_ready (record : ScanRecord) (cs : list ContainerInfo) (w : world updates) : Prop := {
  rd_calm : fault_free w;
  rd_some : cs ≠ [];
  rd_record : sr_ID record ∈ table_ids (db_scans (w_st w));
  rd_ids : NoDup (table_ids (db_updates (w_st w)));
  rd_uids : ∀ n m, env_uid (w_env w) n = env_uid (w_env w) m → n = m;
  rd_new : ∀ n, env_uid (w_env w) n ∉ table_ids (db_updates (w_st w));
  rd_first : ∀ u, u ∈ db_updates (w_st w) → iu_ScanID u ≠ sr_ID record;
  rd_containers : NoDup (ci_ExternalID <$> cs);
  rd_names : ∀ c c', c ∈ cs → c' ∈ cs → host_name c = host_name c' → c = c';
  rd_live : ∀ c, c ∈ cs → live_container (w_st w) (ci_ExternalID c) = true;
}.

(** The update of a container the scan found. *)
Definition found_for (cs : list ContainerInfo) (o : scan_outcome) (c : ContainerInfo) (r : UpdateResult) : Prop :=
  c ∈ cs ∧ r ∈ so_results o ∧ result_of c r.

Definition covered (cs : list ContainerInfo) (o : scan_outcome) (u : ImageUpdate) : Prop :=
  iu_AgentID u ∈ covered_hosts cs ∧ iu_ContainerName u ∈ scanned_names cs (so_errors o).

Lemma stale_filter_true scanID cs o u :
  staleFilter scanID (covered_hosts cs) (scanned_names cs (so_errors o)) u = true ↔ iu_ScanID u ≠ scanID ∧ covered cs o u.
Proof. unfold staleFilter, covered. rewrite !andb_true_iff, negb_true_iff, bool_decide_eq_false, !bool_decide_eq_true. tauto. Qed.

Lemma found_stored scanID cs o us c r :
  Forall2 (stored_as scanID cs) (filter has_update (so_results o)) us → found_for cs o c r →
  ∃ u, u ∈ us ∧ stored_as scanID cs r u.
Proof.
  intros Hus (_ & Hr & Hcr). assert (r ∈ filter has_update (so_results o)) as Hf.
  { apply list_elem_of_filter. split; [apply Hcr|done]. }
  apply list_elem_of_lookup in Hf as [i Hi]. destruct (Forall2_lookup_l _ _ _ _ _ Hus Hi) as (u & Hu & Hs).
  exists u. split; [by eapply list_elem_of_lookup_2|done].
Qed.

Lemma stored_found scanID cs o us u :
  Forall2 (stored_as scanID cs) (filter has_update (so_results o)) us → results_of cs (so_results o) → u ∈ us →
  ∃ c r, found_for cs o c r ∧ stored_as scanID cs r u.
Proof.
  intros Hus Hrs Hu. apply list_elem_of_lookup in Hu as [i Hi]. destruct (Forall2_lookup_r _ _ _ _ _ Hus Hi) as (r & Hr & Hs).
  apply list_elem_of_lookup_2, list_elem_of_filter in Hr as [_ Hr]. destruct (results_of_elem _ _ _ Hrs Hr) as (c & Hc & Hcr).
  by exists c, r.
Qed.

(** ** The rows after a scan *)

Section Rows.
Context (record : ScanRecord) (cs : list ContainerInfo) (w : world updates).
Let o := (Scan sort_Slice cs w).1.
Let w' := (scan_all json sort_Slice record cs w).2.

Lemma scan_results : results_of cs (so_results o).
Proof. by apply (Scan_of sort_Slice cs w). Qed.

(** Each row before the last cleaning. *)
Lemma rows_before us rows dropped alerts u :
  scan_ready record cs w → scanned (sr_ID record) cs o (w_st w) (w_st w') us rows dropped alerts → u ∈ rows →
  (∃ c r, found_for cs o c r ∧ reports (sr_ID record) c r u)
  ∨ ∃ u0, u0 ∈ db_updates (w_st w) ∧ plain_update u = plain_update u0 ∧ (update_key u ∉ update_key <$> us) ∧ iu_ScanID u ≠ sr_ID record.
Proof.
  intros Hr Hs Hu. destruct (plain_elem _ _ u (eq_sym (sd_enriched _ _ _ _ _ _ _ _ _ Hs)) Hu) as (u1 & Hu1 & Hp).
  apply upserts_elem in Hu1 as [[H1 Hk]|(u2 & H2 & Hw)].
  - right. exists u1. split_and!; [done..| |].
    + by rewrite <- (plain_key _ _ Hp).
    + destruct (plain_fields _ _ Hp) as (_ & <- & _). by apply (rd_first _ _ _ Hr).
  - left. destruct (stored_found _ _ _ _ _ (sd_results _ _ _ _ _ _ _ _ _ Hs) scan_results H2) as (c & r & Hf & Hst).
    exists c, r. split; [done|]. eapply reports_plain; [by symmetry|].
    destruct Hf as (Hc & _ & Hcr). eapply written_reports; [apply (rd_containers _ _ _ Hr)|done..].
Qed.

(** The row of a result before the last cleaning. *)
Lemma found_row us rows dropped alerts c r :
  scan_ready record cs w → scanned (sr_ID record) cs o (w_st w) (w_st w') us rows dropped alerts → found_for cs o c r →
  ∃ u, u ∈ rows ∧ reports (sr_ID record) c r u.
Proof.
  intros Hr Hs Hf. destruct (found_stored _ _ _ _ _ _ (sd_results _ _ _ _ _ _ _ _ _ Hs) Hf) as (u & Hu & Hst).
  destruct (upserts_present (db_updates (w_st w)) us u Hu) as (u0 & u' & H0 & Hk & Hu' & Hw).
  destruct (stored_found _ _ _ _ _ (sd_results _ _ _ _ _ _ _ _ _ Hs) scan_results H0) as (c0 & r0 & Hf0 & Hst0).
  pose proof Hf as (Hc & Hrin & Hcr). pose proof Hf0 as (Hc0 & Hrin0 & Hcr0).
  assert (reports (sr_ID record) c0 r0 u') as Hrep.
  { eapply written_reports; [apply (rd_containers _ _ _ Hr)|done..]. }
  assert (reports (sr_ID record) c r u) as Hrep1.
  { eapply written_reports; [apply (rd_containers _ _ _ Hr)|done..|by left]. }
  assert (c0 = c) as ->.
  { apply (rd_names _ _ _ Hr); [done..|]. pose proof (written_key _ _ Hw) as Hk'.
    rewrite (reports_key _ _ _ _ Hrep), Hk, (reports_key _ _ _ _ Hrep1) in Hk'. unfold report_key in Hk'. unfold host_name. congruence. }
  assert (r0 = r) as ->.
  { eapply results_unique; [apply scan_results|apply (rd_containers _ _ _ Hr)|done..]. }
  destruct (plain_elem _ _ u' (sd_enriched _ _ _ _ _ _ _ _ _ Hs) Hu') as (u2 & Hu2 & Hp).
  exists u2. split; [done|]. by eapply reports_plain.
Qed.

Lemma reports_fresh c r u : reports (sr_ID record) c r u →
  staleFilter (sr_ID record) (covered_hosts cs) (scanned_names cs (so_errors o)) u = false.
Proof. intros [Hscan _ _ _ _ _ _ _ _]. apply not_true_is_false. rewrite stale_filter_true. tauto. Qed.
End Rows.


(** The pending updates after a scan of [cs] with the outcome [o]. *)
Record replaced (scanID : string) (cs : list ContainerInfo) (o : scan_outcome) (s : updates) (T : list ImageUpdate) : Prop := {
  rp_only u : u ∈ T → live_update s u = true
    ∧ ((∃ c r, found_for cs o c r ∧ reports scanID c r u)
       ∨ (∃ u0, u0 ∈ db_updates s ∧ plain_update u = plain_update u0) ∧ ¬ covered cs o u);
  rp_found c r : found_for cs o c r → ∃ u, u ∈ T ∧ reports scanID c r u;
  rp_kept u0 : u0 ∈ db_updates s → live_update s u0 = true → ¬ covered cs o u0 →
    ∃ u, u ∈ T ∧ (plain_update u = plain_update u0 ∨ ∃ c r, found_for cs o c r ∧ reports scanID c r u ∧ update_key u = update_key u0);
}.

Lemma scan_all_replaces record cs w :
  scan_ready record cs w →
  replaced (sr_ID record) cs (Scan sort_Slice cs w).1 (w_st w) (db_updates (w_st (scan_all json sort_Slice record cs w).2)).
Proof.
  intros Hr. destruct (scan_all_scanned json sort_Slice record cs w) as (us & rows & dropped & alerts & Hs); [apply Hr..|].
  split.
  - intros u (Hrow & Hfresh & Hlive)%(sd_left _ _ _ _ _ _ _ _ _ Hs). split; [done|].
    destruct (rows_before _ _ _ _ _ _ _ _ Hr Hs Hrow) as [H|(u0 & H0 & Hp & _ & Hscan)]; [by left|]. right. split; [by exists u0|].
    intros Hcov. apply not_true_iff_false in Hfresh. apply Hfresh, stale_filter_true. done.
  - intros c r Hf. destruct (found_row _ _ _ _ _ _ _ _ _ Hr Hs Hf) as (u & Hu & Hrep). exists u. split; [|done].
    apply (sd_left _ _ _ _ _ _ _ _ _ Hs). split_and!; [done|by eapply reports_fresh|].
    unfold live_update. rewrite (re_container _ _ _ _ Hrep). apply (rd_live _ _ _ Hr), Hf.
  - intros u0 H0 Hlive Hcov. destruct (decide (update_key u0 ∈ update_key <$> us)) as [Hk|Hk].
    + apply list_elem_of_fmap in Hk as (u & Hk & Hu).
      destruct (stored_found _ _ _ _ _ (sd_results _ _ _ _ _ _ _ _ _ Hs) (scan_results cs w) Hu) as (c & r & Hf & Hst).
      assert (reports (sr_ID record) c r u) as Hrep0.
      { destruct Hf as (Hc & _ & Hcr). eapply written_reports; [apply (rd_containers _ _ _ Hr)|done..|by left]. }
      destruct (found_row _ _ _ _ _ _ _ _ _ Hr Hs Hf) as (u' & Hu' & Hrep). exists u'. split.
      * apply (sd_left _ _ _ _ _ _ _ _ _ Hs). split_and!; [done|by eapply reports_fresh|].
        unfold live_update. rewrite (re_container _ _ _ _ Hrep). apply (rd_live _ _ _ Hr), Hf.
      * right. exists c, r. split_and!; [done..|]. by rewrite Hk, (reports_key _ _ _ _ Hrep), (reports_key _ _ _ _ Hrep0).
    + destruct (plain_elem _ _ u0 (sd_enriched _ _ _ _ _ _ _ _ _ Hs) (upserts_other _ _ _ H0 Hk)) as (u & Hu & Hp).
      exists u. split; [|by left]. destruct (plain_fields _ _ Hp) as (Hc & Hscan & Ha & Hn).
      apply (sd_left _ _ _ _ _ _ _ _ _ Hs). split_and!; [done| |].
      * apply not_true_is_false. rewrite stale_filter_true. unfold covered. rewrite Ha, Hn. intros [_ H]. by apply Hcov.
      * unfold live_update. by rewrite Hc.
Qed.
(** ** The alerts of a scan *)

(** A container that is there, and its description in the scan. *)
Definition there (s : updates) (c : Container) : Prop := c ∈ db_containers (up_fleet s) ∧ ct_Archived c = false.

Record consistent (cs : list ContainerInfo) (s : updates) : Prop := {
  cn_uid c : c ∈ db_containers (up_fleet s) →
    ct_ID c = uid_Container (uid_Agent (ct_AgentID c)) (ct_ExternalID c) ∧ ct_ID c ≠ "";
  cn_ids : NoDup (table_ids (db_containers (up_fleet s)));
  cn_external : NoDup (ct_ExternalID <$> db_containers (up_fleet s));
  cn_rows u c : u ∈ db_updates s → c ∈ db_containers (up_fleet s) → iu_ContainerID u = ct_ExternalID c →
    iu_AgentID u = uid_Agent (ct_AgentID c) ∧ iu_ContainerName u = ct_Name c;
  cn_names c c' : there s c → there s c' →
    (uid_Agent (ct_AgentID c), ct_Name c) = (uid_Agent (ct_AgentID c'), ct_Name c') → c = c';
  cn_named u : u ∈ db_updates s → iu_ContainerName u ≠ "";
  cn_apart u : u ∈ db_updates s → iu_AgentID u = uid_Agent (iu_AgentID u)
    ∧ uid_Container (iu_AgentID u) (iu_ContainerID u) ≠ ""
    ∧ ∀ c, c ∈ db_containers (up_fleet s) → uid_Container (iu_AgentID u) (iu_ContainerID u) = ct_ID c → iu_ContainerID u = ct_ExternalID c;
  cn_infos i : i ∈ cs → ∃ c d, there s c ∧ i = newContainerInfo c d;
}.

Lemma uid_Agent_idem a : uid_Agent (uid_Agent a) = uid_Agent a.
Proof. unfold uid_Agent. by repeat case_bool_decide. Qed.

Lemma uid_Agent_named a : uid_Agent a ≠ "".
Proof. unfold uid_Agent. case_bool_decide as H; [done|]. by intros ->. Qed.

Lemma same_container s c c' : NoDup (table_ids (db_containers (up_fleet s))) →
  c ∈ db_containers (up_fleet s) → c' ∈ db_containers (up_fleet s) → ct_ID c = ct_ID c' → c = c'.
Proof. intros Hn Hc Hc' Heq. pose proof (select_id_elem _ _ Hn Hc) as H1. pose proof (select_id_elem _ _ Hn Hc') as H2.
  change (row_id c) with (ct_ID c) in H1. change (row_id c') with (ct_ID c') in H2. rewrite Heq in H1. congruence. Qed.

Lemma same_external s c c' : NoDup (ct_ExternalID <$> db_containers (up_fleet s)) →
  c ∈ db_containers (up_fleet s) → c' ∈ db_containers (up_fleet s) → ct_ExternalID c = ct_ExternalID c' → c = c'.
Proof.
  intros Hn [i Hi]%list_elem_of_lookup [j Hj]%list_elem_of_lookup Heq.
  assert (i = j) as ->; [|congruence].
  apply (NoDup_lookup _ _ _ (ct_ExternalID c) Hn); rewrite list_lookup_fmap; [rewrite Hi|rewrite Hj]; cbn; congruence.
Qed.

(** The container that the alert of a result is about. *)
Lemma info_container s i c d :
  there s c → i = newContainerInfo c d →
  ci_UID i = ct_ID c ∧ ci_ExternalID i = ct_ExternalID c ∧ ci_Name i = ct_Name c ∧ uid_Agent (ci_AgentID i) = uid_Agent (ct_AgentID c).
Proof. intros _ ->. cbn. by rewrite uid_Agent_idem. Qed.

Definition opened_entities (cs : list ContainerInfo) (rs : list UpdateResult) : list string :=
  (λ r, update_entity (result_data cs r))
    <$> filter (λ r, has_update r ∧ updateAlertWanted (result_data cs r) (update_severity (result_data cs r)) = true) rs.

Lemma result_marks_opened cs rs : (rs ≫= result_marks cs) = (λ e, (e, false)) <$> opened_entities cs rs.
Proof.
  unfold opened_entities. induction rs as [|r rs IH]; [done|]. rewrite bind_cons, IH, filter_cons. unfold result_marks at 1, event_marks.
  destruct (decide (has_update r ∧ _)) as [[H1 H2]|Hn]; cbn -[update_entity updateAlertWanted].
  - by rewrite bool_decide_eq_true_2, H2.
  - case_bool_decide; [|done]. destruct (updateAlertWanted _ _) eqn:E; [by destruct Hn|done].
Qed.

Definition closed_entities (cs : list ContainerInfo) (l : list StaleImageUpdate) : list string :=
  (λ su, update_entity (resolved_data cs su)) <$> filter (λ su, su_ContainerName su ≠ "") l.

Lemma closing_marks_closed cs l : closing_marks cs l = (λ e, (e, true)) <$> closed_entities cs l.
Proof.
  unfold closing_marks, closed_entities. induction l as [|su l IH]; [done|]. rewrite bind_cons, IH, filter_cons.
  assert (string_of (map_value (resolved_data cs su) "container_name") = su_ContainerName su) as Hname.
  { unfold resolved_data. by rewrite !map_value_skip by done. }
  unfold compose, event_marks. rewrite Hname, (bool_decide_eq_true_2 (UpdateResolved = UpdateResolved)) by done.
  destruct (decide (su_ContainerName su ≠ "")) as [H1|H1]; [by rewrite bool_decide_eq_false_2 by done|].
  rewrite bool_decide_eq_true_2; [done|]. by apply dec_stable.
Qed.

(** Opened and not closed, or open before and not closed. *)
Lemma settled_scan entity b cs rs l :
  settled entity b ((rs ≫= result_marks cs) ++ closing_marks cs l)
  = (b || bool_decide (entity ∈ opened_entities cs rs)) && negb (bool_decide (entity ∈ closed_entities cs l)).
Proof. by rewrite settled_app, result_marks_opened, closing_marks_closed, settled_opened, settled_closed. Qed.

(** The entity a dropped row closes. *)
Lemma closed_entity cs s u su :
  consistent cs s → (∃ u0, u0 ∈ db_updates s ∧ iu_ContainerID u = iu_ContainerID u0 ∧ iu_AgentID u = iu_AgentID u0) →
  su = stale_entry u ∨ su = orphan_entry s u →
  update_entity (resolved_data cs su) = uid_Container (iu_AgentID u) (iu_ContainerID u)
  ∨ ∃ c, c ∈ db_containers (up_fleet s) ∧ ct_ExternalID c = iu_ContainerID u ∧ update_entity (resolved_data cs su) = ct_ID c.
Proof.
  intros Hc (u0 & H0 & Hcid & Hag) Hsu. destruct (cn_apart _ _ Hc _ H0) as (Hag0 & Hne & _). rewrite <- Hcid, <- Hag in *.
  assert (su_ContainerID su = iu_ContainerID u ∧ su_AgentID su = iu_AgentID u) as [Eid Eag] by (by destruct Hsu as [-> | ->]).
  assert (∀ i, container_by_id cs (iu_ContainerID u) = Some i → ∃ c, c ∈ db_containers (up_fleet s)
    ∧ ct_ExternalID c = iu_ContainerID u ∧ ci_UID i = ct_ID c ∧ ct_ID c ≠ "") as Hinfo.
  { intros i [Hi Hext]%container_by_id_Some. destruct (cn_infos _ _ Hc _ Hi) as (c & d & Ht & ->). exists c. split; [apply Ht|].
    split; [exact Hext|]. split; [done|]. apply (cn_uid _ _ Hc), Ht. }
  assert (su_ContainerUID su = "" ∨ ∃ c, c ∈ db_containers (up_fleet s) ∧ ct_ExternalID c = iu_ContainerID u
    ∧ su_ContainerUID su = ct_ID c ∧ ct_ID c ≠ "") as Huid.
  { destruct Hsu as [-> | ->]; [by left|]. cbn. destruct (select_where _ _) as [|c l] eqn:E; [by left|]. right. exists c.
    assert (c ∈ c :: l) as Hin by left. rewrite <- E in Hin. apply select_where_elem in Hin as [Hin Hext%bool_decide_eq_true].
    split_and!; [done..|]. by apply (cn_uid _ _ Hc). }
  unfold update_entity, resolved_data. rewrite !map_value_skip by done. cbn. rewrite Eid, Eag. unfold info_of.
  rewrite (bool_decide_eq_false_2 (iu_AgentID u = "")) by (rewrite Hag0; apply uid_Agent_named). rewrite <- Hag0.
  destruct Huid as [-> |(c & H1 & H2 & -> & H4)].
  - rewrite (bool_decide_eq_true_2 ("" = "")) by done. destruct (container_by_id cs (iu_ContainerID u)) as [i|]; cbn.
    + destruct (Hinfo i eq_refl) as (c & H1 & H2 & -> & H4). right. exists c. split_and!; [done..|].
      by rewrite !(bool_decide_eq_false_2 (ct_ID c = "")).
    + left. rewrite (bool_decide_eq_true_2 ("" = "")) by done. by rewrite bool_decide_eq_false_2.
  - right. exists c. split_and!; [done..|]. by rewrite !(bool_decide_eq_false_2 (ct_ID c = "")).
Qed.

(** A row of a container closes the alert of that container, and no other row does. *)
Lemma closes_own cs s u su c :
  consistent cs s → (∃ u0, u0 ∈ db_updates s ∧ iu_ContainerID u = iu_ContainerID u0 ∧ iu_AgentID u = iu_AgentID u0) →
  su = stale_entry u ∨ su = orphan_entry s u → c ∈ db_containers (up_fleet s) →
  update_entity (resolved_data cs su) = ct_ID c ↔ iu_ContainerID u = ct_ExternalID c.
Proof.
  intros Hc Hu Hsu Hin. pose proof Hu as (u0 & H0 & Hcid & Hag). destruct (cn_apart _ _ Hc _ H0) as (_ & _ & Hapart).
  rewrite <- Hcid, <- Hag in Hapart.
  destruct (closed_entity _ _ _ _ Hc Hu Hsu) as [-> |(c' & H1 & H2 & ->)].
  - split; [by apply Hapart|]. intros Hext. destruct (cn_rows _ _ Hc _ _ H0 Hin) as [Ha _]; [congruence|].
    destruct (cn_uid _ _ Hc _ Hin) as [-> _]. by rewrite Hag, Ha, Hext.
  - split.
    + intros Heq. by rewrite <- (same_container _ _ _ (cn_ids _ _ Hc) H1 Hin Heq).
    + intros Hext. f_equal. apply (same_external _ _ _ (cn_external _ _ Hc)); congruence.
Qed.

(** The labels of the container want an alert for the update. *)
Definition wanted (r : UpdateResult) : Prop :=
  updateAlertWanted [("alert_on", VString (ur_AlertOn r))] (update_severity [("risk_score", VInt (BaseRiskScore (ur_UpdateType r)))]) = true.

Lemma opened_elem cs rs r : r ∈ rs → has_update r → wanted r → update_entity (result_data cs r) ∈ opened_entities cs rs.
Proof. intros Hr Hu Hw. apply list_elem_of_fmap. exists r. split; [done|]. by apply list_elem_of_filter. Qed.

Lemma result_entity cs c r :
  NoDup (ci_ExternalID <$> cs) → c ∈ cs → result_of c r → ci_UID c ≠ "" → update_entity (result_data cs r) = ci_UID c.
Proof.
  intros Hn Hc [Hid _ _ _] Hu. unfold update_entity, result_data. rewrite !map_value_skip by done. cbn.
  rewrite Hid, info_of_elem by done. by rewrite bool_decide_eq_false_2.
Qed.

Section Scan_alerts.
Context (record : ScanRecord) (cs : list ContainerInfo) (w : world updates).
Let o := (Scan sort_Slice cs w).1.
Let s := w_st w.
Let s' := w_st (scan_all json sort_Slice record cs w).2.
Context (Hr : scan_ready record cs w) (Hc : consistent cs s).

(** A found update, its container and its row. *)
Lemma found_container i r :
  found_for cs o i r → ∃ c, there s c ∧ ci_UID i = ct_ID c ∧ ci_ExternalID i = ct_ExternalID c ∧ ci_Name i = ct_Name c
    ∧ uid_Agent (ci_AgentID i) = uid_Agent (ct_AgentID c) ∧ update_entity (result_data cs r) = ct_ID c.
Proof.
  intros (Hi & _ & Hir). destruct (cn_infos _ _ Hc _ Hi) as (c & d & Ht & Heq). exists c.
  destruct (info_container _ _ _ _ Ht Heq) as (H1 & H2 & H3 & H4). split_and!; [done..|].
  rewrite <- H1. apply result_entity; [apply (rd_containers _ _ _ Hr)|done..|]. rewrite H1. apply (cn_uid _ _ Hc), Ht.
Qed.

(** A pending update of a container that is there comes from one it had, unless
    the scan found it. *)
Lemma row_left us rows dropped alerts c u0 :
  scanned (sr_ID record) cs o s s' us rows dropped alerts → there s c → u0 ∈ db_updates s → iu_ContainerID u0 = ct_ExternalID c →
  (∃ u, u ∈ db_updates s' ∧ iu_ContainerID u = ct_ExternalID c) ∨ ct_ID c ∈ closed_entities cs dropped.
Proof.
  intros Hs Ht H0 Hext. destruct (decide (update_key u0 ∈ update_key <$> us)) as [Hk|Hk].
  - left. apply list_elem_of_fmap in Hk as (u & Hk & Hu).
    destruct (stored_found _ _ _ _ _ (sd_results _ _ _ _ _ _ _ _ _ Hs) (scan_results cs w) Hu) as (i & r & Hf & Hst).
    assert (reports (sr_ID record) i r u) as Hrep.
    { destruct Hf as (Hi & _ & Hir). eapply written_reports; [apply (rd_containers _ _ _ Hr)|done..|by left]. }
    destruct (found_container i r Hf) as (c' & Ht' & _ & E2 & E3 & E4 & _).
    destruct (cn_rows _ _ Hc u0 c H0 (proj1 Ht) Hext) as [Ha Hn].
    assert (c' = c) as ->.
    { apply (cn_names _ _ Hc); [done..|]. rewrite (reports_key _ _ _ _ Hrep) in Hk. unfold update_key, report_key in Hk. congruence. }
    destruct (rp_found _ _ _ _ _ (scan_all_replaces record cs w Hr) i r Hf) as (u' & Hu' & Hrep'). exists u'. split; [done|].
    by rewrite (re_container _ _ _ _ Hrep').
  - destruct (plain_elem _ _ u0 (sd_enriched _ _ _ _ _ _ _ _ _ Hs) (upserts_other _ _ _ H0 Hk)) as (u & Hu & Hp).
    destruct (plain_fields _ _ Hp) as (Ec & _ & Ea & En). destruct (staleFilter (sr_ID record) (covered_hosts cs) (scanned_names cs (so_errors o)) u) eqn:Est.
    + right. apply list_elem_of_fmap. exists (stale_entry u). split.
      * symmetry. apply (closes_own cs s u); [done|by exists u0|by left|apply Ht|congruence].
      * apply list_elem_of_filter. split; [cbn; rewrite En; by apply (cn_named _ _ Hc)|]. apply (sd_dropped _ _ _ _ _ _ _ _ _ Hs).
        exists u. split; [done|by left].
    + left. exists u. split; [|congruence]. apply (sd_left _ _ _ _ _ _ _ _ _ Hs). split_and!; [done..|].
      unfold live_update, live_container. apply existsb_exists. exists c. split; [apply list_elem_of_In, Ht|].
      rewrite (proj2 Ht), bool_decide_eq_true_2; [done|congruence].
Qed.

(** What closes the alert of a container that is there. *)
Lemma closed_row us rows dropped alerts c :
  scanned (sr_ID record) cs o s s' us rows dropped alerts → there s c → ct_ID c ∈ closed_entities cs dropped →
  ∃ u0, u0 ∈ db_updates s ∧ iu_ContainerID u0 = ct_ExternalID c ∧ (update_key u0 ∉ update_key <$> us) ∧ covered cs o u0.
Proof.
  intros Hs Ht (su & Heq & [_ Hsu]%list_elem_of_filter)%list_elem_of_fmap. apply (sd_dropped _ _ _ _ _ _ _ _ _ Hs) in Hsu as (u & Hu & Hsu).
  assert (su = stale_entry u ∨ su = orphan_entry s u) as Hent by naive_solver.
  destruct (rows_before record cs w us rows dropped alerts u Hr Hs Hu) as [(i & r & Hf & Hrep)|(u0 & H0 & Hp & Hk & Hscan)].
  - exfalso. destruct Hsu as [[Hst _]|(_ & Hdead & _)]; [pose proof (reports_fresh record cs w i r u Hrep) as Hfr; fold o in Hfr; congruence|].
    unfold live_update in Hdead. rewrite (re_container _ _ _ _ Hrep), (rd_live _ _ _ Hr) in Hdead; [done|apply Hf].
  - destruct (plain_fields _ _ Hp) as (Ec & _ & Ea & En). exists u0. split; [done|].
    assert (iu_ContainerID u = ct_ExternalID c) as Hext.
    { apply (closes_own cs s u su); [done|by exists u0|done|apply Ht|done]. }
    split_and!; [congruence|by rewrite <- (plain_key _ _ Hp)|].
    destruct Hsu as [[Hst%stale_filter_true _]|(_ & Hdead & _)].
    + unfold covered in *. rewrite <- Ea, <- En. apply Hst.
    + exfalso. apply not_true_iff_false in Hdead. apply Hdead. unfold live_update, live_container. apply existsb_exists.
      exists c. split; [apply list_elem_of_In, Ht|]. by rewrite (proj2 Ht), bool_decide_eq_true_2.
Qed.

(** The alerts of a scan: an alert that is open at the end has its update pending,
    and what was found for a container with no other update pending is open. *)
Lemma scan_alerts :
  ∃ alerts, up_alerts s' = up_alerts s ++ alerts ∧ Forall about_update alerts
  ∧ ∀ c b, there s c → (b = true → ∃ u, u ∈ db_updates s ∧ iu_ContainerID u = ct_ExternalID c) →
    let b' := settle (update_channel (ct_ID c)) b alerts in
    (b' = true → ∃ u, u ∈ db_updates s' ∧ iu_ContainerID u = ct_ExternalID c)
    ∧ ∀ i r, found_for cs o i r → ci_ExternalID i = ct_ExternalID c → wanted r →
        (∀ u, u ∈ db_updates s → iu_ContainerID u = ct_ExternalID c → covered cs o u → update_key u = report_key i r) → b' = true.
Proof.
  destruct (scan_all_scanned json sort_Slice record cs w) as (us & rows & dropped & alerts & Hs); [apply Hr..|].
  exists alerts. split_and!; [apply Hs|apply Hs|]. intros c b Ht Hb. cbv zeta.
  assert (settle (update_channel (ct_ID c)) b alerts = true
    ↔ (b = true ∨ ct_ID c ∈ opened_entities cs (so_results o)) ∧ ct_ID c ∉ closed_entities cs dropped) as Hiff.
  { rewrite settle_marks, (sd_marks _ _ _ _ _ _ _ _ _ Hs), settled_scan by apply Hs.
    by rewrite andb_true_iff, orb_true_iff, negb_true_iff, bool_decide_eq_true, bool_decide_eq_false. }
  split.
  - intros [[->|Hopen] Hclosed]%Hiff.
    + destruct (Hb eq_refl) as (u0 & H0 & Hext). by destruct (row_left us rows dropped alerts c u0 Hs Ht H0 Hext).
    + apply list_elem_of_fmap in Hopen as (r & Hent & [[Hu _] Hin]%list_elem_of_filter).
      destruct (results_of_elem _ _ _ (scan_results cs w) Hin) as (i & Hi & Hir).
      destruct (found_container i r) as (c' & Ht' & _ & E2 & _ & _ & E5); [done|].
      assert (c' = c) as -> by (eapply same_container; [apply Hc|apply Ht'|apply Ht|congruence]).
      destruct (rp_found _ _ _ _ _ (scan_all_replaces record cs w Hr) i r) as (u & Hu' & Hrep); [done|]. exists u. split; [done|].
      by rewrite (re_container _ _ _ _ Hrep).
  - intros i r Hf Hext Hw Honly. destruct (found_container i r Hf) as (c' & Ht' & _ & E2 & _ & _ & E5).
    assert (c' = c) as -> by (apply (same_external s); [apply Hc|apply Ht'|apply Ht|congruence]). apply Hiff. split.
    + right. rewrite <- E5. pose proof Hf as (_ & Hin & Hir). apply opened_elem; [done|apply Hir|done].
    + intros Hclosed. destruct (closed_row us rows dropped alerts c Hs Ht Hclosed) as (u0 & H0 & Hcid & Hk & Hcov).
      apply Hk. rewrite (Honly u0 H0 Hcid Hcov).
      destruct (found_stored _ _ _ _ _ _ (sd_results _ _ _ _ _ _ _ _ _ Hs) Hf) as (u & Hu & Hst). apply list_elem_of_fmap.
      exists u. split; [|done]. symmetry. apply (reports_key (sr_ID record)). pose proof Hf as (Hi & _ & Hir).
      eapply written_reports; [apply (rd_containers _ _ _ Hr)|done..|by left].
Qed.
End Scan_alerts.

(** ** The scans of the service *)

Record server_ready (w : world updates) : Prop := {
  sv_calm : fault_free w;
  sv_running : ∀ n, cancelled n = false;
  sv_idle : up_scanning (w_st w) = false;
  sv_uids : ∀ n m, env_uid (w_env w) n = env_uid (w_env w) m → n = m;
  sv_new : ∀ n, (env_uid (w_env w) n ∉ table_ids (db_updates (w_st w))) ∧ (env_uid (w_env w) n ∉ table_ids (db_scans (w_st w)));
  sv_ids : NoDup (table_ids (db_updates (w_st w)));
  sv_scans : ∀ u, u ∈ db_updates (w_st w) → iu_ScanID u ∈ table_ids (db_scans (w_st w));
  sv_external : NoDup (ct_ExternalID <$> db_containers (up_fleet (w_st w)));
  sv_names : ∀ c c', there (w_st w) c → there (w_st w) c' →
    (uid_Agent (ct_AgentID c), ct_Name c) = (uid_Agent (ct_AgentID c'), ct_Name c') → c = c';
}.

(** The world in which the registries are scanned: a record of the scan more. *)
Definition scan_start (w w1 : world updates) : Prop :=
  db_updates (w_st w1) = db_updates (w_st w) ∧ up_fleet (w_st w1) = up_fleet (w_st w) ∧ db_pins (w_st w1) = db_pins (w_st w)
  ∧ db_exclusions (w_st w1) = db_exclusions (w_st w) ∧ db_baselines (w_st w1) = db_baselines (w_st w)
  ∧ up_alerts (w_st w1) = up_alerts (w_st w) ∧ w_env w1 = w_env w.

(** The running containers, by name. *)
Definition running_listed (s : updates) : list Container :=
  merge_sort by_container_name (select_where (listed running_containers) (db_containers (up_fleet s))).

(** Those that are not ignored, described with what their host said of them. *)
Definition scan_set (s : updates) (cs : list ContainerInfo) : Prop :=
  ∃ local, cs = omap (container_info (up_fleet s) local) (running_listed s).

Lemma running_listed_elem s c :
  c ∈ running_listed s ↔ c ∈ db_containers (up_fleet s) ∧ listed running_containers c = true.
Proof. unfold running_listed. rewrite merge_sort_Permutation, select_where_elem. tauto. Qed.

Lemma running_listed_there s c : c ∈ running_listed s → there s c ∧ ct_State c = StateRunning ∧ ct_IsIgnored c = false.
Proof.
  intros [Hin Hl]%running_listed_elem. unfold listed, running_containers in Hl. cbn -[bool_decide] in Hl.
  unfold there. destruct (ct_Archived c); [done|]. destruct (ct_IsIgnored c); [done|]. cbn -[bool_decide] in Hl.
  destruct (bool_decide_reflect (ct_State c = StateRunning)); done.
Qed.

Lemma scan_set_described s cs :
  NoDup (ct_ExternalID <$> db_containers (up_fleet s)) → scan_set s cs →
  ∃ l, NoDup l ∧ (∀ c, c ∈ l → there s c) ∧ Forall2 (λ c i, ∃ d, i = newContainerInfo c d) l cs.
Proof.
  intros Hn [local ->]. exists (filter (λ c, is_Some (container_info (up_fleet s) local c)) (running_listed s)). split_and!.
  - apply NoDup_filter. unfold running_listed. rewrite merge_sort_Permutation. unfold select_where. apply NoDup_filter.
    by eapply NoDup_fmap_1.
  - by intros c [_ [? _]%running_listed_there]%list_elem_of_filter.
  - induction (running_listed s) as [|c l IH]; [constructor|]. cbn [omap list_omap].
    destruct (container_info _ local c) as [i|] eqn:E.
    + rewrite filter_cons_True by eauto. constructor; [|exact IH]. unfold container_info in E.
      destruct (_ || _); [done|]. destruct (detailsFor _ _ _) as [d|]; [|done]. apply (inj Some) in E. exists d. by rewrite <- E.
    + rewrite filter_cons_False; [exact IH|]. rewrite E. by intros [? ?].
Qed.

Lemma wp_list_infos (Q : result (list ContainerInfo) → world updates → Prop) w :
  fault_free w → (∀ cs w', same w w' → scan_set (w_st w) cs → Q (Ok cs) w') → wp ListContainerInfos Q w.
Proof.
  intros Hff HQ. set (wf := World (w_env w) (w_tick w) (up_fleet (w_st w))).
  assert (wp (on_fleet (ListContainers running_containers)) (λ r w', same w w' ∧ r = Ok (running_listed (w_st w))) w) as Hlist.
  { apply (wp_db_query _ (λ a wf', same w (World (w_env wf') (w_tick wf') (w_st w <| up_fleet := w_st wf' |>)) ∧ a = Ok (running_listed (w_st w))) wf).
    - intros wf' _ Hno. by destruct Hno.
    - intros wf' (S & E & K). split; [|done]. split_and!; cbn; [|done|done]. rewrite S. by destruct (w_st w). }
  assert (∀ w2 local, same w w2 →
    wp (let! f := gets up_fleet in ret (Ok (omap (container_info f local) (running_listed (w_st w))))) Q w2) as Hend.
  { intros w2 local H2. apply wp_bind, wp_gets, wp_ret, HQ; [done|]. destruct H2 as (S2 & _). rewrite S2. by exists local. }
  apply wp_bind. eapply wp_mono; [exact Hlist|]. intros r w' [Hs ->]. cbn beta iota.
  apply wp_bind. unfold localDetails. destruct FetchDetails as [fetch|].
  - apply wp_bind, wp_consult. intros w2 H2 _. apply wp_ret, Hend. by eapply same_trans.
  - by apply wp_ret, Hend.
Qed.

Lemma scan_set_elem s cs i : scan_set s cs → i ∈ cs → ∃ c d, there s c ∧ i = newContainerInfo c d.
Proof.
  intros [local ->] (c & [? _]%running_listed_there & Hi)%list_elem_of_omap. unfold container_info in Hi.
  destruct (_ || _); [done|]. destruct (detailsFor _ _ _) as [d|]; [|done]. apply (inj Some) in Hi. by exists c, d.
Qed.

Lemma scan_set_external s cs :
  scan_set s cs → NoDup (ct_ExternalID <$> db_containers (up_fleet s)) → NoDup (ci_ExternalID <$> cs).
Proof.
  intros Hset Hn. destruct (scan_set_described _ _ Hn Hset) as (l & Hl & Hin & Hcs).
  assert (ci_ExternalID <$> cs = ct_ExternalID <$> l) as ->.
  { clear -Hcs. induction Hcs as [|c i l cs [d ->] _ IH]; [done|]. cbn. by rewrite IH. }
  apply NoDup_fmap_2_strong; [|done]. intros c c' Hc Hc' Heq. apply (same_external s); [done|by apply Hin|by apply Hin|done].
Qed.

Lemma scan_set_names s cs :
  scan_set s cs → (∀ c c', there s c → there s c' →
    (uid_Agent (ct_AgentID c), ct_Name c) = (uid_Agent (ct_AgentID c'), ct_Name c') → c = c') →
  NoDup (ct_ExternalID <$> db_containers (up_fleet s)) →
  ∀ i i', i ∈ cs → i' ∈ cs → host_name i = host_name i' → i = i'.
Proof.
  intros Hset Hnames Hn i i' Hi Hi' Heq.
  destruct (scan_set_elem _ _ _ Hset Hi) as (c & d & Ht & E), (scan_set_elem _ _ _ Hset Hi') as (c' & d' & Ht' & E').
  assert (c = c') as <-.
  { apply Hnames; [done..|]. rewrite E, E' in Heq. unfold host_name in Heq. cbn in Heq. by rewrite !uid_Agent_idem in Heq. }
  pose proof (scan_set_external _ _ Hset Hn) as Hnd. apply list_elem_of_lookup in Hi as [j Hj], Hi' as [k Hk].
  assert (j = k) as ->; [|congruence].
  apply (NoDup_lookup _ _ _ (ct_ExternalID c) Hnd); rewrite list_lookup_fmap; [rewrite Hj, E|rewrite Hk, E']; done.
Qed.

(** The rules a scan reads. *)
Definition same_rules (s s' : updates) : Prop :=
  db_pins s' = db_pins s ∧ db_exclusions s' = db_exclusions s ∧ db_baselines s' = db_baselines s.
#[local] Instance same_rules_preorder : PreOrder same_rules.
Proof. split; [done|]. intros ??? (?&?&?) (?&?&?). split_and!; congruence. Qed.

Lemma update_callback_rules ty data : steps same_rules (update_callback json ty data).
Proof. unfold update_callback, agentName, sendAlert, ask. steps_tac; (apply steps_consult; apply _) || done. Qed.

(** A scan that is under way: nobody asked to stop, and the flag is set. *)
Definition flagged (w : world updates) : world updates :=
  ((do! ask cancelled in modify (λ s, s <| up_scanning := true |>)) w).2.

(** The scan that opens in [w] has a record of its own and the running containers. *)
Record opens (w : world updates) (record : ScanRecord) (cs : list ContainerInfo) (w1 : world updates) : Prop := {
  op_result : scan_opens json (flagged w) = (Some (record, cs), w1);
  op_set : scan_set (w_st w) cs;
  op_start : scan_start w w1;
  op_ready : cs ≠ [] → scan_ready record cs w1;
}.

Lemma scan_opens_ready w : server_ready w → ∃ record cs w1, opens w record cs w1.
Proof.
  intros Hr. enough (wp (scan_opens json) (λ r w1, ∃ record cs, r = Some (record, cs)
    ∧ scan_set (w_st w) cs ∧ scan_start w w1 ∧ (cs ≠ [] → scan_ready record cs w1)) (flagged w)) as Hrun.
  { unfold wp in Hrun. destruct (scan_opens json (flagged w)) as [r w1] eqn:E. cbn in Hrun.
    destruct Hrun as (record & cs & -> & ? & ? & ?). by exists record, cs, w1. }
  unfold scan_opens. set (w2 := flagged w).
  assert (w_st w2 = w_st w <| up_scanning := true |> ∧ w_env w2 = w_env w) as [S2 E2] by done. clearbody w2.
  apply wp_bind, wp_now. intros w3 (S3 & E3 & _). apply wp_bind. unfold InsertScanRecord.
  apply wp_bind, wp_new_uid. intros w4 (S4 & E4 & _) _. set (id := env_uid _ _). apply wp_bind, wp_db_insert.
  { intros w5 _ Hbad. exfalso. destruct (sv_new _ Hr (w_tick w3)) as [_ Hnew]. apply Hnew.
    assert (fault_free w4) as Hff by (eapply (fault_free_env w); [congruence|apply Hr]). specialize (Hbad Hff).
    rewrite S4, S3, S2 in Hbad. cbn in Hbad. unfold id in Hbad. by rewrite E3, E2 in Hbad. }
  intros w5 Hid H5. apply wp_ret.
  assert (scan_start w w5 ∧ table_ids (db_scans (w_st w5)) = table_ids (db_scans (w_st w)) ++ [id]) as [Hstart Hscans].
  { destruct H5 as (S5 & E5 & _). unfold scan_start. rewrite S5; cbn. rewrite S4, S3, S2. cbn. split; [split_and!; congruence|].
    unfold table_ids. by rewrite fmap_app. }
  cbn beta iota. apply wp_bind. set (started := [("scan_id", VString id); _]).
  eapply wp_mono; [exact (wp_and _ _ _ _
    (wp_update_event json UpdateScanStarted started (λ _ w', went w5 (db_updates (w_st w5)) [] w') w5 (λ _ H, H))
    (steps_wp _ _ w5 (update_callback_rules UpdateScanStarted started)))|].
  cbn beta. intros _ w6 [W6 [R6 _]]. assert (scan_start w w6) as Hstart6.
  { destruct (wn_alerts _ _ _ _ W6) as (l & A & _ & M). apply fmap_nil_inv in M as ->. rewrite app_nil_r in A.
    destruct Hstart as (?&?&?&?&?&?&?), R6 as (?&?&?). split_and!; rewrite ?(wn_rows _ _ _ _ W6), ?(wn_fleet _ _ _ _ W6), ?(wn_env _ _ _ _ W6); congruence. }
  pose proof Hstart6 as (U6 & F6 & _ & _ & _ & _ & E6).
  apply wp_bind, wp_list_infos; [eapply (fault_free_env w); [done|apply Hr]|].
  intros cs w7 H7 Hset. cbn beta iota. set (record := MkScanRecord "" _ None 0 0 0 ScanStatusRunning <| sr_ID := id |>).
  assert (scan_start w w7) as Hstart7.
  { destruct H7 as (S7 & E7 & _). unfold scan_start. by rewrite S7, E7. }
  assert (scan_set (w_st w) cs) as Hset'.
  { unfold scan_set, running_listed in *. by rewrite <- F6. }
  assert (id ∈ table_ids (db_scans (w_st w7)) ∧ id = env_uid (w_env w) (w_tick w3)) as [Hid7 Hideq].
  { destruct H7 as (S7 & _). rewrite S7, (wn_scans _ _ _ _ W6), Hscans. split; [set_solver|]. unfold id. by rewrite E3, E2. }
  apply wp_ret. exists record, cs. split_and!; [done..|].
  intros Hcs. destruct Hstart7 as (U7 & F7 & _ & _ & _ & _ & E7). split; try rewrite E7; try rewrite U7; try apply Hr; try done.
  - eapply (fault_free_env w); [done|apply Hr].
  - intros u Hu Heq. cbn in Heq. apply (sv_scans _ Hr) in Hu. rewrite Heq, Hideq in Hu. by apply (sv_new _ Hr) in Hu.
  - by eapply scan_set_external; [|apply Hr].
  - by eapply scan_set_names; [|apply (sv_names _ Hr)|apply Hr].
  - intros i Hi. destruct (scan_set_elem _ _ _ Hset' Hi) as (c & d & [Hin Harch] & ->). unfold live_container. rewrite F7.
    apply existsb_exists. exists c. split; [by apply list_elem_of_In|]. by rewrite Harch, bool_decide_eq_true_2.
Qed.

(** A scan of the service is the scan of its containers, between its opening and
    its flags. *)
Lemma runScan_scans interval w record cs w1 :
  server_ready w → opens w record cs w1 →
  let s' := w_st (runScan json sort_Slice interval w).2 in
  let s1 := w_st (scan_all json sort_Slice record cs w1).2 in
  up_scanning s' = false ∧ db_updates s' = db_updates s1 ∧ up_fleet s' = up_fleet s1 ∧ up_alerts s' = up_alerts s1.
Proof.
  intros Hr Hop s' s1.
  enough (wp (runScan json sort_Slice interval) (λ _ w', up_scanning (w_st w') = false ∧ db_updates (w_st w') = db_updates s1
    ∧ up_fleet (w_st w') = up_fleet s1 ∧ up_alerts (w_st w') = up_alerts s1) w) as Hrun by exact Hrun.
  apply wp_bind. unfold wp at 1. replace ((ask cancelled w).1) with false by (symmetry; apply (sv_running _ Hr)).
  apply wp_bind, wp_gets. change (w_st (ask cancelled w).2) with (w_st w). rewrite (sv_idle _ Hr).
  apply wp_bind. unfold wp at 1. change ((modify _ _).2) with (flagged w).
  apply wp_bind, wp_bind. unfold wp at 1. rewrite (op_result _ _ _ _ Hop). cbn beta iota. unfold wp at 1. cbn [fst snd].
  apply wp_bind, wp_now. intros w9 (S9 & _). apply wp_modify_put. intros w10 (S10 & _).
  rewrite S10; cbn. by rewrite S9.
Qed.

(** Without a container to scan the pending updates stay as they are. *)
Lemma scan_all_nothing record w :
  db_updates (w_st (scan_all json sort_Slice record [] w).2) = db_updates (w_st w).
Proof.
  enough (wp (scan_all json sort_Slice record []) (λ _ w', db_updates (w_st w') = db_updates (w_st w)) w) as Hrun by exact Hrun.
  apply wp_bind. destruct (Scan_looks sort_Slice [] w) as [(L1 & _) _]. destruct (Scan_of sort_Slice [] w I) as [Hof _].
  unfold wp at 1. destruct (Scan sort_Slice [] w) as [o w1]. cbn [fst snd] in *. destruct o as [rs errors].
  assert (rs = []) as ->.
  { destruct Hof as (l & ->%sublist_nil_r & Hl). by inversion Hl. }
  apply wp_bind, wp_ret, wp_bind, wp_ret, wp_bind. unfold wp at 1. cbn [fst snd].
  apply wp_bind, wp_ret, wp_bind, wp_ret. apply wp_completeScan. intros w' W. by rewrite (wn_rows _ _ _ _ W).
Qed.

Lemma replaced_start scanID cs o w w1 T :
  scan_start w w1 → replaced scanID cs o (w_st w1) T → replaced scanID cs o (w_st w) T.
Proof.
  intros (U & F & _) [H1 H2 H3]. rewrite U in H1, H3.
  assert (∀ u, live_update (w_st w1) u = live_update (w_st w) u) as Hl by (intros; by apply live_fleet).
  split; [|done|]; setoid_rewrite <- Hl; done.
Qed.


(** The tables agree with each other, before any scan. *)
Definition tables_consistent (s : updates) : Prop := consistent [] s.

Lemma consistent_start cs w w1 :
  tables_consistent (w_st w) → scan_set (w_st w) cs → scan_start w w1 → consistent cs (w_st w1).
Proof.
  intros [H1 H2 H3 H4 H5 H6 H7 _] Hset (U & F & _). unfold there in H5.
  split; unfold there; rewrite ?U, ?F; try done. intros i Hi. by apply (scan_set_elem _ _ _ Hset).
Qed.

End Theorems.

(** ** Examples *)

Module UpdateExample.
#[local] Existing Instance TagsExample.dotted_versions.
#[local] Existing Instance TagsExample.not_above_dec.
#[local] Instance uuid : Uuid := λ ns text, (ns +:+ "/" +:+ text)%string.
#[local] Instance no_regexps : Regexp := {| Compile _ := None |}.
#[local] Instance enricher : Enricher := noopUpdateEnricher.

(** One registry answers, the one of the databases does not. *)
#[local] Instance registry : UpdateDeps := {|
  ListTags _ repo := if HasPrefix repo "ghcr.io/" then Ok ["1.0"; "1.0.5"; "1.1"; "2.0-beta"] else Err EStore;
  ResolveDigests _ _ := Ok (MkRemoteDigests "sha256:bb" []);
  FetchDetails := None; cancelled _ := false; agentStore_Get := None; withChangelog _ := false;
|}.

Definition json : list (string * value) → details := λ _, DetailsNil.
Definition t0 : Z := 1700000000 * second.
Definition sort_tags : list tagVersion → list tagVersion := merge_sort TagsExample.not_above.

Definition container (agent id name image : string) : Container :=
  MkContainer (uid_Container (uid_Agent agent) id) id agent name image StateRunning None false "" "" "" false "" 0 false t0 t0 None
    "docker" "" "" "" 0 0 "" "" "" "" "" "" "" "" 0.

Definition web : Container := container LocalAgent "c1" "web" "ghcr.io/org/web:1.0".
Definition db : Container := container LocalAgent "c2" "db" "quay.io/org/db:2.0".

Definition row (id container name image latest : string) : ImageUpdate :=
  MkImageUpdate id "s0" container LocalAgent name image "1.0" "" "other.io" latest "sha256:aa" UpdateTypePatch None "" ""
    false 15 "" "" update_StatusAvailable (t0 - hour).
Definition old_web : ImageUpdate := row "u1" "c1" "web" "ghcr.io/org/web:1.0" "1.0.5".
Definition same_web : ImageUpdate := row "u1" "c1" "web" "ghcr.io/org/web:1.0" "1.1".
Definition old_db : ImageUpdate := row "u2" "c2" "db" "quay.io/org/db:2.0" "2.1".

Definition start (containers : list Container) (rows : list ImageUpdate) : world updates :=
  calm_world t0 (no_updates (empty_fleet <| db_containers := containers |>)
    <| db_scans := [MkScanRecord "s0" (t0 - hour) None 0 0 0 ScanStatusCompleted] |> <| db_updates := rows |>).

Definition after (w : world updates) : updates := w_st (runScan json sort_tags hour w).2.
Definition pending (w : world updates) : list (string * string) := (λ u, (iu_ContainerName u, iu_LatestTag u)) <$> db_updates (after w).
Definition told (w : world updates) : list (string * bool) := (λ e, (ev_EntityName e, ev_IsRecover e)) <$> up_alerts (after w).

(** The update of [web] is superseded; [db] could not be looked up. *)
Definition w0 : world updates := start [web; db] [old_web; old_db].
(** [web] has no pending update yet. *)
Definition w1 : world updates := start [web; db] [old_db].

Lemma start_ready rows :
  (rows = [old_web; old_db] ∨ rows = [old_db]) → server_ready (start [web; db] rows).
Proof.
  intros Hrows. assert (∀ u, u ∈ rows → u = old_web ∨ u = old_db) as Hin by (destruct Hrows; subst; set_solver).
  split.
  - done.
  - done.
  - done.
  - intros n m H. cbn in H. apply (inj (String.append "id")) in H. by apply (inj pretty), (inj N.of_nat) in H.
  - intros n. split; cbn; [|by intros [=]%list_elem_of_singleton].
    intros (u & H & [-> | ->]%Hin)%list_elem_of_fmap; discriminate.
  - destruct Hrows; subst; apply (bool_decide_unpack _); by vm_compute.
  - by intros u [-> | ->]%Hin; apply list_elem_of_singleton.
  - apply (bool_decide_unpack _). by vm_compute.
  - intros c c' [Hc _] [Hc' _]. cbn in Hc, Hc'. intros H.
    by apply elem_of_cons in Hc as [-> | ->%list_elem_of_singleton]; apply elem_of_cons in Hc' as [-> | ->%list_elem_of_singleton].
Qed.


Lemma w1_consistent : tables_consistent (w_st w1).
Proof.
  assert (∀ c, c ∈ db_containers (up_fleet (w_st w1)) → c = web ∨ c = db) as Hc.
  { intros c. cbn. rewrite elem_of_cons, list_elem_of_singleton. done. }
  assert (∀ u, u ∈ db_updates (w_st w1) → u = old_db) as Hu by (intros u; apply list_elem_of_singleton).
  split.
  - by intros c [-> | ->]%Hc.
  - apply (bool_decide_unpack _). by vm_compute.
  - apply (bool_decide_unpack _). by vm_compute.
  - by intros u c ->%Hu [-> | ->]%Hc.
  - by intros c c' [[-> | ->]%Hc _] [[-> | ->]%Hc _].
  - by intros u ->%Hu.
  - intros u ->%Hu. split_and!; [done|by vm_compute|]. intros c [-> | ->]%Hc; [|done]. intros H. vm_compute in H. discriminate H.
  - by intros i H%elem_of_nil.
Qed.


(** A newer tag: the alert of the update is opened, then closed by the row it
    supersedes, and the update is pending without an alert. *)
Example superseded_closed : pending w0 = [("db", "2.1"); ("web", "1.1")] ∧ told w0 = [("web", false); ("web", true)].
Proof. split; vm_compute; reflexivity. Qed.

(** Two clusters with a workload of the same name: the update of both is stored
    under the second. *)
Definition two_clusters : world updates :=
  let workload agent := container agent "shop/Deployment/web" "web" "ghcr.io/org/web:1.0" in
  let details agent := ((agent, "shop/Deployment/web"), MkAgentDetails ∅ [] false) in
  calm_world t0 (w_st (start [workload "agent-1"; workload "agent-2"] [])
    <| up_fleet ::= λ f, f <| agentDetails := list_to_map (details <$> ["agent-1"; "agent-2"]) |> |>).

Example same_workload_twice :
  iu_AgentID <$> db_updates (after two_clusters) = ["agent-2"]
  ∧ (ev_EntityID <$> up_alerts (after two_clusters)) = let id := uid_Container "agent-2" "shop/Deployment/web" in [id; id].
Proof. split; vm_compute; reflexivity. Qed.

(** An update found again keeps the registry it was first found in. *)
Example registry_kept : iu_Registry <$> db_updates (after (start [web] [same_web])) = ["other.io"].
Proof. vm_compute. reflexivity. Qed.
End UpdateExample.
