(* ===== verification/K8sAlerts.v ===== *)
(** * Kubernetes: alerts from snapshots of the cluster

    [src/internal/kubernetes/alerts.go]: the checker that is handed a snapshot of
    the workloads, pods and nodes and raises each alert once.  A loop over a Go
    map visits it in no fixed order; here it follows the enumeration of the
    [gmap].  The encoding of the details is a parameter, as in the engine. *)

From S2P Require Import Prelude.
From S2P Require Import Tables.
From S2P Require Import GoStrings.
From S2P Require Import AlertModel.
From S2P Require Import AlertEngine.
From S2P Require Import AlertTracker.

#[local] Open Scope string_scope.
#[local] Open Scope list_scope.
#[local] Open Scope Z_scope.

(** ** The snapshot *)

Record K8sWorkload := MkWorkload {
  wl_ID : string;
  wl_Name : string;
  wl_Namespace : string;
  wl_Kind : string;
  wl_ReadyReplicas : Z;
  wl_DesiredReplicas : Z;
  wl_Ignored : bool;
}.

Record K8sPod := MkPod {
  pd_Name : string;
  pd_Namespace : string;
  pd_StatusReason : string;
  pd_RestartCount : Z;
  pd_NodeName : string;
  pd_WorkloadRef : string;
  pd_Ignored : bool;
}.

Record K8sCondition := MkCondition { cd_Type : string; cd_Status : string }.

Record K8sNode := MkK8sNode {
  kn_Name : string;
  kn_Roles : list string;
  kn_Conditions : list K8sCondition;
  kn_Status : string;
}.

Record TopologySnapshot := MkSnapshot {
  sn_Workloads : list K8sWorkload;
  sn_Pods : list K8sPod;
  sn_Nodes : list K8sNode;
}.

(** ** The checker *)

Definition alertSource := "kubernetes".
Definition alertTypeReplicaHealth := "replica_health".
Definition alertTypeCrashLoop := "crash_loop".
Definition alertTypeNodeCondition := "node_condition".
Definition entityWorkload := "workload".
Definition entityPod := "pod".
Definition entityNode := "node".

Definition defaultReplicaGracePeriod : Z := 5 * minute.
Definition defaultCrashLoopRestarts : Z := 3.
Definition defaultCrashLoopWindow : Z := 10 * minute.

Definition KubernetesWorkloadChanged := "kubernetes.workload_changed".
Definition KubernetesPodChanged := "kubernetes.pod_changed".
Definition KubernetesNodeChanged := "kubernetes.node_changed".

Record replicaAlertState := MkReplicaAlert { ra_firstSeen : Z; ra_severity : string }.

Record podAlertState := MkPodAlert {
  pa_lastCount : Z;
  pa_counted : bool;
  pa_restarts : list Z;
  pa_alerted : bool;
}.
#[export] Instance podAlertState_eta : Eta podAlertState := λ s,
  MkPodAlert (pa_lastCount s) (pa_counted s) (pa_restarts s) (pa_alerted s).

Record K8sAlertChecker := MkChecker {
  kc_replicas : gmap string replicaAlertState;
  kc_pods : gmap string podAlertState;
  kc_nodes : gmap string string;
}.
#[export] Instance K8sAlertChecker_eta : Eta K8sAlertChecker := λ c,
  MkChecker (kc_replicas c) (kc_pods c) (kc_nodes c).

Definition NewK8sAlertChecker : K8sAlertChecker := MkChecker ∅ ∅ ∅.

Definition resume_step (now_ : Z) (c : K8sAlertChecker) (a : Alert) : K8sAlertChecker :=
  if negb (bool_decide (al_Source a = alertSource)) then c
  else if bool_decide (al_AlertType a = alertTypeReplicaHealth) && bool_decide (al_EntityType a = entityWorkload)
  then c <| kc_replicas ::= <[al_EntityID a := MkReplicaAlert (now_ - defaultReplicaGracePeriod) (al_Severity a)]> |>
  else if bool_decide (al_AlertType a = alertTypeCrashLoop) && bool_decide (al_EntityType a = entityPod)
  then c <| kc_pods ::= <[al_EntityID a := MkPodAlert 0 false [] true]> |>
  else if bool_decide (al_AlertType a = alertTypeNodeCondition) && bool_decide (al_EntityType a = entityNode)
  then c <| kc_nodes ::= <[al_EntityID a := al_Severity a]> |>
  else c.

Definition k8s_Resume (active : list Alert) (now_ : Z) (c : K8sAlertChecker) : K8sAlertChecker :=
  foldl (resume_step now_) c active.

Section Check.
Context (json : list (string * value) → details).

(** *** What is sent *)

(** [emit] fills in the source and the time. *)
Definition k8s_event (alertType entityType entity severity : string) (isRecover : bool) (message : string)
    (dets : details) (now_ : Z) : Event :=
  MkEvent alertSource alertType severity isRecover message entityType entity entity "" dets now_.

Definition emitWorkload (id namespace name severity : string) (isRecover : bool) (message : string)
    (dets : details) (now_ : Z) : output :=
  out_alert (k8s_event alertTypeReplicaHealth entityWorkload id severity isRecover message dets now_)
  ⊕ out_event KubernetesWorkloadChanged [("id", VString id); ("namespace", VString namespace); ("name", VString name)].

Definition pod_key (namespace name : string) : string := namespace +:+ "/" +:+ name.

Definition emitPod (namespace name severity : string) (isRecover : bool) (message : string)
    (dets : details) (now_ : Z) : output :=
  out_alert (k8s_event alertTypeCrashLoop entityPod (pod_key namespace name) severity isRecover message dets now_)
  ⊕ out_event KubernetesPodChanged [("namespace", VString namespace); ("name", VString name)].

Definition emitNode (name severity : string) (isRecover : bool) (message : string)
    (dets : details) (now_ : Z) : output :=
  out_alert (k8s_event alertTypeNodeCondition entityNode name severity isRecover message dets now_)
  ⊕ out_event KubernetesNodeChanged [("name", VString name)].

Definition parseExternalID (id : string) : option (string * string * string) :=
  match Cut id "/" with
  | None => None
  | Some (ns, rest) =>
    match Cut rest "/" with
    | None => Some (ns, "", rest)
    | Some (kind, name) => Some (ns, kind, name)
    end
  end.

(** *** Workloads *)

Definition workloadDetails (wl : K8sWorkload) : list (string * value) :=
  [("namespace", VString (wl_Namespace wl)); ("kind", VString (wl_Kind wl));
   ("ready_replicas", VInt (wl_ReadyReplicas wl)); ("desired_replicas", VInt (wl_DesiredReplicas wl))].

Definition workload_fine (wl : K8sWorkload) : bool :=
  wl_Ignored wl || bool_decide (wl_Kind wl = "Job") || bool_decide (wl_DesiredReplicas wl = 0)
  || bool_decide (wl_DesiredReplicas wl ≤ wl_ReadyReplicas wl).

Definition replicas_of (wl : K8sWorkload) : string :=
  fmt_d (wl_ReadyReplicas wl) +:+ "/" +:+ fmt_d (wl_DesiredReplicas wl).

Definition workload_severity (wl : K8sWorkload) : string :=
  if bool_decide (wl_ReadyReplicas wl = 0) then SeverityCritical else SeverityWarning.

Definition check_workload (now_ : Z) (s : gmap string replicaAlertState) (wl : K8sWorkload)
    : gmap string replicaAlertState * output :=
  let emit := emitWorkload (wl_ID wl) (wl_Namespace wl) (wl_Name wl) in
  if workload_fine wl then
    match s !! wl_ID wl with
    | None => (s, no_output)
    | Some st =>
      (delete (wl_ID wl) s,
       if bool_decide (ra_severity st = "") then no_output
       else emit SeverityInfo true
         (if wl_Ignored wl then "Workload " +:+ wl_Name wl +:+ " is ignored"
          else "Workload " +:+ wl_Name wl +:+ " recovered: " +:+ replicas_of wl +:+ " replicas ready")
         (json (workloadDetails wl)) now_)
    end
  else
    match s !! wl_ID wl with
    | None => (<[wl_ID wl := MkReplicaAlert now_ ""]> s, no_output)
    | Some st =>
      let since := time_sub now_ (ra_firstSeen st) in
      let severity := workload_severity wl in
      if bool_decide (since < defaultReplicaGracePeriod) then (s, no_output)
      else if bool_decide (ra_severity st = severity) || bool_decide (ra_severity st = SeverityCritical)
      then (s, no_output)
      else (<[wl_ID wl := MkReplicaAlert (ra_firstSeen st) severity]> s,
            emit severity false
              ("Workload " +:+ wl_Name wl +:+ " under-replicated for " +:+ fmt_seconds since +:+ ": "
               +:+ replicas_of wl +:+ " ready")
              (json (workloadDetails wl ++ [("duration", VString (fmt_seconds since))])) now_)
    end.

(** The loops over what is left in the maps: entities that are gone. *)
Definition prune_workload (present : gset string) (now_ : Z) (s : gmap string replicaAlertState)
    (p : string * replicaAlertState) : gmap string replicaAlertState * output :=
  let '(id, st) := p in
  if bool_decide (id ∈ present) then (s, no_output)
  else (delete id s,
        if bool_decide (ra_severity st = "") then no_output
        else
          let '(namespace, _, name) := default ("", "", "") (parseExternalID id) in
          emitWorkload id namespace name SeverityInfo true ("Workload " +:+ id +:+ " no longer exists") DetailsNil now_).

(** A loop whose rounds work on a map and send alerts. *)
Definition out_fold {S A} (f : S → A → S * output) (l : list A) (s : S) : S * output :=
  foldl (λ acc a, let '(s', o) := f acc.1 a in (s', acc.2 ⊕ o)) (s, no_output) l.

Definition checkWorkloads (workloads : list K8sWorkload) (now_ : Z) (s : gmap string replicaAlertState)
    : gmap string replicaAlertState * output :=
  let '(s, o) := out_fold (check_workload now_) workloads s in
  let '(s, o') := out_fold (prune_workload (list_to_set (wl_ID <$> workloads)) now_) (map_to_list s) s in
  (s, o ⊕ o').

(** *** Pods *)

Definition pod_of (pod : K8sPod) : string := pod_key (pd_Namespace pod) (pd_Name pod).

(** The restarts a snapshot adds, and those still in the window. *)
Definition new_restarts (st : podAlertState) (count : Z) : nat :=
  if pa_counted st && bool_decide (pa_lastCount st < count)
  then Z.to_nat (Z.min (count - pa_lastCount st) defaultCrashLoopRestarts) else 0%nat.

Definition recent (now_ : Z) (l : list Z) : list Z := filter (λ t, now_ - defaultCrashLoopWindow < t) l.

Definition observe_restarts (now_ count : Z) (st : podAlertState) : podAlertState :=
  MkPodAlert count true (recent now_ (pa_restarts st ++ replicate (new_restarts st count) now_)) (pa_alerted st).

Definition crash_looping (pod : K8sPod) (st : podAlertState) : bool :=
  bool_decide (pd_StatusReason pod = "CrashLoopBackOff")
  || bool_decide (defaultCrashLoopRestarts ≤ Z.of_nat (length (pa_restarts st))).

Definition check_pod (ignoredWorkloads : gset string) (now_ : Z) (s : gmap string podAlertState) (pod : K8sPod)
    : gmap string podAlertState * output :=
  let key := pod_of pod in
  let st := observe_restarts now_ (pd_RestartCount pod) (default (MkPodAlert 0 false [] false) (s !! key)) in
  let ignored := pd_Ignored pod || bool_decide (pd_WorkloadRef pod ∈ ignoredWorkloads) in
  let dets := json [("namespace", VString (pd_Namespace pod)); ("restart_count", VInt (pd_RestartCount pod));
    ("status_reason", VString (pd_StatusReason pod)); ("node_name", VString (pd_NodeName pod))] in
  if ignored || negb (crash_looping pod st) then
    (<[key := st <| pa_alerted := false |>]> s,
     if pa_alerted st
     then emitPod (pd_Namespace pod) (pd_Name pod) SeverityInfo true
       (if ignored then "Pod " +:+ key +:+ " is ignored" else "Pod " +:+ key +:+ " is no longer crash-looping") dets now_
     else no_output)
  else
    (<[key := st <| pa_alerted := true |>]> s,
     if pa_alerted st then no_output
     else emitPod (pd_Namespace pod) (pd_Name pod) SeverityCritical false
       (if bool_decide (pd_StatusReason pod = "CrashLoopBackOff")
        then "Pod " +:+ key +:+ " is in CrashLoopBackOff (" +:+ fmt_d (pd_RestartCount pod) +:+ " restarts)"
        else "Pod " +:+ key +:+ " in crash loop: " +:+ fmt_d (Z.of_nat (length (pa_restarts st))) +:+ " restarts in "
             +:+ fmt_seconds defaultCrashLoopWindow) dets now_).

Definition prune_pod (present : gset string) (now_ : Z) (s : gmap string podAlertState)
    (p : string * podAlertState) : gmap string podAlertState * output :=
  let '(key, st) := p in
  if bool_decide (key ∈ present) then (s, no_output)
  else (delete key s,
        if pa_alerted st
        then
          let '(namespace, name) := default (key, "") (Cut key "/") in
          emitPod namespace name SeverityInfo true ("Pod " +:+ key +:+ " no longer exists") DetailsNil now_
        else no_output).

Definition checkPods (pods : list K8sPod) (workloads : list K8sWorkload) (now_ : Z) (s : gmap string podAlertState)
    : gmap string podAlertState * output :=
  let ignoredWorkloads := list_to_set (wl_ID <$> filter (λ wl, wl_Ignored wl = true) workloads) in
  let '(s, o) := out_fold (check_pod ignoredWorkloads now_) pods s in
  let '(s, o') := out_fold (prune_pod (list_to_set (pod_of <$> pods)) now_) (map_to_list s) s in
  (s, o ⊕ o').

(** *** Nodes *)

Definition pressure (cond : K8sCondition) : bool :=
  (bool_decide (cd_Type cond = "MemoryPressure") || bool_decide (cd_Type cond = "DiskPressure")
   || bool_decide (cd_Type cond = "PIDPressure")) && bool_decide (cd_Status cond = "True").

Definition nodeProblems (node : K8sNode) : list string * string :=
  let down := negb (bool_decide (kn_Status node = "ready")) in
  foldl (λ acc cond,
    if pressure cond
    then (acc.1 ++ [cd_Type cond], if bool_decide (acc.2 = "") then SeverityWarning else acc.2)
    else acc)
    (if down then (["NotReady"], SeverityCritical) else ([], "")) (kn_Conditions node).

Definition check_node (now_ : Z) (s : gmap string string) (node : K8sNode) : gmap string string * output :=
  let name := kn_Name node in
  let '(conditions, severity) := nodeProblems node in
  match conditions with
  | [] =>
    match s !! name with
    | None => (s, no_output)
    | Some _ => (delete name s, emitNode name SeverityInfo true ("Node " +:+ name +:+ " recovered")
        (json [("roles", VStrings (kn_Roles node))]) now_)
    end
  | _ =>
    let old := default "" (s !! name) in
    if bool_decide (old = severity) || bool_decide (old = SeverityCritical) then (<[name := old]> s, no_output)
    else (<[name := severity]> s, emitNode name severity false ("Node " +:+ name +:+ ": " +:+ Join conditions ", ")
        (json [("conditions", VStrings conditions); ("roles", VStrings (kn_Roles node))]) now_)
  end.

Definition prune_node (present : gset string) (now_ : Z) (s : gmap string string) (p : string * string)
    : gmap string string * output :=
  if bool_decide (p.1 ∈ present) then (s, no_output)
  else (delete p.1 s, emitNode p.1 SeverityInfo true ("Node " +:+ p.1 +:+ " is no longer in the cluster") DetailsNil now_).

Definition checkNodes (nodes : list K8sNode) (now_ : Z) (s : gmap string string) : gmap string string * output :=
  let '(s, o) := out_fold (check_node now_) nodes s in
  let '(s, o') := out_fold (prune_node (list_to_set (kn_Name <$> nodes)) now_) (map_to_list s) s in
  (s, o ⊕ o').

(** *** A snapshot *)

(** An empty list of nodes means that they could not be listed. *)
Definition Check (snap : TopologySnapshot) (now_ : Z) (c : K8sAlertChecker) : K8sAlertChecker * output :=
  let '(replicas, o1) := checkWorkloads (sn_Workloads snap) now_ (kc_replicas c) in
  let '(pods, o2) := checkPods (sn_Pods snap) (sn_Workloads snap) now_ (kc_pods c) in
  let '(nodes, o3) :=
    if bool_decide (sn_Nodes snap = []) then (kc_nodes c, no_output)
    else checkNodes (sn_Nodes snap) now_ (kc_nodes c) in
  (MkChecker replicas pods nodes, o1 ⊕ o2 ⊕ o3).
End Check.
