(* ===== verification/K8sCorrect.v ===== *)
(** * Kubernetes: what the checker promises

    The alerts of every run climb and end in step with the checker, so the
    checker is a [Tracker] and the alert engine mirrors it; the window of
    restarts is exact; and the checker remembers only what the last snapshot
    showed. *)

From S2P Require Import Prelude.
From S2P Require Import Tables.
From S2P Require Import GoStrings.
From S2P Require Import AlertModel.
From S2P Require Import AlertEngine.
From S2P Require Import AlertTracker.
From S2P Require Import K8sAlerts.

#[local] Open Scope string_scope.
#[local] Open Scope list_scope.
#[local] Open Scope Z_scope.

(** ** Alerts that climb

    The protocol of [AlertTracker] with severities: read in order, the events
    about [c] raise a closed alert or lift an open one to a higher severity, and
    a recovery closes an open one.  The severity of a closed alert is empty. *)

Fixpoint climbs (c : channel) (cur : string) (l : list Event) : option string :=
  match l with
  | [] => Some cur
  | e :: l =>
    if negb (about c e) then climbs c cur l
    else if ev_IsRecover e then (if bool_decide (cur = "") then None else climbs c "" l)
    else if bool_decide (severityRank cur < severityRank (ev_Severity e)) then climbs c (ev_Severity e) l
    else None
  end.

Lemma climbs_app c cur l1 l2 : climbs c cur (l1 ++ l2) = (climbs c cur l1 ≫= λ cur', climbs c cur' l2).
Proof. revert cur. induction l1 as [|e l1 IH]; intros cur; [done|]. cbn. repeat case_match; naive_solver. Qed.

Definition opened (severity : string) : bool := negb (bool_decide (severity = "")).

Lemma climbs_follow c cur l cur' :
  climbs c cur l = Some cur' → follow false c (opened cur) l = Some (opened cur').
Proof.
  revert cur. induction l as [|e l IH]; intros cur; cbn; [by intros [= ->]|].
  destruct (about c e); cbn [negb]; [|apply IH]. destruct (ev_IsRecover e).
  - unfold opened at 1. destruct (bool_decide_reflect (cur = "")); [done|]. apply (IH "").
  - destruct (bool_decide_reflect (severityRank cur < severityRank (ev_Severity e))) as [Hr|]; [|done].
    cbn. intros H. apply IH in H. rewrite <- H. f_equal. unfold opened.
    destruct (bool_decide_reflect (ev_Severity e = "")) as [E|]; [|done]. rewrite E in Hr.
    exfalso. unfold severityRank in Hr. repeat split_guard; cbn in *; naive_solver lia.
Qed.

(** The kind of entity of each alert. *)
Definition k8s_entity (alertType : string) : string :=
  if bool_decide (alertType = alertTypeReplicaHealth) then entityWorkload
  else if bool_decide (alertType = alertTypeCrashLoop) then entityPod else entityNode.

(** A piece of a step, from [s] to the state and output [r]; [sev] is the severity
    of the alert [c] in a state, [ty] the type of all alerts sent. *)
Definition moves {S} (ty : string) (c : channel) (sev : S → string) (s : S) (r : S * output) : Prop :=
  Forall (λ e, sent_by alertSource k8s_entity e ∧ ev_AlertType e = ty) (o_alerts r.2) ∧ climbs c (sev s) (o_alerts r.2) = Some (sev r.1).

Section moves.
Context {S : Type} (ty : string) (c : channel) (sev : S → string).

Lemma moves_app s0 s o s' o' :
  moves ty c sev s0 (s, o) → moves ty c sev s (s', o') → moves ty c sev s0 (s', o ⊕ o').
Proof. intros [Ha1 H1] [Ha2 H2]. split; cbn in *; [by apply Forall_app|]. by rewrite climbs_app, H1. Qed.

Lemma moves_none s s' : sev s' = sev s → moves ty c sev s (s', no_output).
Proof. intros E. split; cbn; [done|by rewrite E]. Qed.

(** One event: about another alert, a recovery, or a rise. *)
Lemma moves_event s s' o e :
  o_alerts o = [e] → sent_by alertSource k8s_entity e → ev_AlertType e = ty →
  (channel_of e ≠ c → sev s' = sev s) →
  (channel_of e = c → if ev_IsRecover e then sev s ≠ "" ∧ sev s' = ""
    else severityRank (sev s) < severityRank (ev_Severity e) ∧ sev s' = ev_Severity e) →
  moves ty c sev s (s', o).
Proof.
  intros Ho He Hty Hne Heq. unfold moves. cbn [fst snd]. rewrite Ho. split; [by apply Forall_singleton|].
  cbn [climbs]. unfold about. destruct (decide (channel_of e = c)) as [E|E].
  - rewrite bool_decide_eq_true_2 by done. cbn [negb]. specialize (Heq E). destruct (ev_IsRecover e).
    + destruct Heq as [H1 ->]. by rewrite bool_decide_eq_false_2.
    + destruct Heq as [H1 ->]. by rewrite bool_decide_eq_true_2.
  - rewrite bool_decide_eq_false_2 by done. cbn. by rewrite Hne.
Qed.

Lemma out_fold_app {A} (f : S → A → S * output) l s o :
  foldl (λ acc a, let '(s', o) := f acc.1 a in (s', acc.2 ⊕ o)) (s, o) l =
  ((out_fold f l s).1, o ⊕ (out_fold f l s).2).
Proof.
  unfold out_fold. revert s o. induction l as [|a l IH]; intros s o; cbn.
  - unfold out_app. cbn. destruct o; cbn. by rewrite !app_nil_r.
  - destruct (f s a) as [s' o']. rewrite IH, (IH s' (no_output ⊕ o')). cbn. by rewrite <- out_assoc.
Qed.

Lemma out_fold_cons {A} (f : S → A → S * output) a l s :
  out_fold f (a :: l) s = ((out_fold f l (f s a).1).1, (f s a).2 ⊕ (out_fold f l (f s a).1).2).
Proof.
  unfold out_fold at 1. cbn. destruct (f s a) as [s' o']. by rewrite out_fold_app.
Qed.

Lemma moves_out_fold {A} (I : S → Prop) (f : S → A → S * output) l s :
  (∀ s a, I s → moves ty c sev s (f s a) ∧ I (f s a).1) → I s →
  moves ty c sev s (out_fold f l s) ∧ I (out_fold f l s).1.
Proof.
  intros Hf. revert s. induction l as [|a l IH]; intros s HI; [split; [by apply moves_none|done]|].
  destruct (Hf s a HI) as [H1 H2]. destruct (IH _ H2) as [H3 H4]. rewrite out_fold_cons. split; [|done].
  destruct (f s a) as [s' o']. cbn in *. destruct (out_fold f l s') as [s'' o'']. by eapply moves_app.
Qed.
End moves.

(** The loops that prune a map: each round keeps or deletes the entry it visits. *)
Section prune.
Context {A : Type} (ty : string) (c : channel) (sev : gmap string A → string) (I : gmap string A → Prop).
Context (f : gmap string A → string * A → gmap string A * output).
Context (f_keeps : ∀ s p, (f s p).1 = s ∨ (f s p).1 = delete p.1 s).
Context (I_delete : ∀ s k, I s → I (delete k s)).
Context (f_moves : ∀ s p, I s → s !! p.1 = Some p.2 → moves ty c sev s (f s p)).

Lemma moves_prune_list l s :
  NoDup l.*1 → (∀ p, p ∈ l → s !! p.1 = Some p.2) → I s →
  moves ty c sev s (out_fold f l s) ∧ I (out_fold f l s).1.
Proof.
  revert s. induction l as [|p l IH]; intros s Hnd Hl HI; [split; [by apply moves_none|done]|].
  apply NoDup_cons in Hnd as [Hp Hnd]. pose proof (f_moves s p HI (Hl p (list_elem_of_here _ _))) as H1.
  destruct (IH (f s p).1 Hnd) as [H2 H3].
  - intros q Hq. assert (q.1 ≠ p.1) by (intros E; apply Hp; rewrite <- E; exact (list_elem_of_fmap_2 fst l q Hq)).
    destruct (f_keeps s p) as [->| ->]; rewrite ?lookup_delete_ne by done; apply Hl; by right.
  - destruct (f_keeps s p) as [->| ->]; [done|by apply I_delete].
  - rewrite out_fold_cons. split; [|done]. destruct (f s p) as [s' o']. cbn in *.
    destruct (out_fold f l s') as [s'' o'']. by eapply moves_app.
Qed.

Lemma moves_prune s : I s → moves ty c sev s (out_fold f (map_to_list s) s) ∧ I (out_fold f (map_to_list s) s).1.
Proof.
  intros HI. apply moves_prune_list; [apply NoDup_fst_map_to_list| |done].
  intros [k a] Hp. by apply elem_of_map_to_list in Hp.
Qed.
End prune.

(** ** The three machines *)

Section Check.
Context (json : list (string * value) → details).

Lemma k8s_sent ty en id sev rec msg dets now_ :
  en = k8s_entity ty → sent_by alertSource k8s_entity (k8s_event ty en id sev rec msg dets now_).
Proof. by intros ->. Qed.

(** *** Workloads *)

Definition workload_sev (c : channel) (s : gmap string replicaAlertState) : string :=
  if bool_decide (c.1 = alertTypeReplicaHealth) then from_option ra_severity "" (s !! c.2) else "".

Lemma workload_sev_ne c id s s' :
  c ≠ (alertTypeReplicaHealth, id) → (∀ k, k ≠ id → s' !! k = s !! k) → workload_sev c s' = workload_sev c s.
Proof.
  intros Hc Hk. unfold workload_sev. destruct (bool_decide_reflect (c.1 = alertTypeReplicaHealth)) as [E|]; [|done].
  rewrite Hk; [done|]. intros <-. apply Hc. destruct c; cbn in *. by subst.
Qed.

Lemma workload_sev_same c s s' :
  (∀ k, from_option ra_severity "" (s' !! k) = from_option ra_severity "" (s !! k)) →
  workload_sev c s' = workload_sev c s.
Proof. intros H. unfold workload_sev. by rewrite H. Qed.

Lemma workload_severity_rank wl old :
  old ≠ workload_severity wl → old ≠ SeverityCritical → severityRank old < severityRank (workload_severity wl).
Proof.
  intros H1 H2. unfold workload_severity in *. unfold severityRank.
  destruct (bool_decide_reflect (wl_ReadyReplicas wl = 0)); repeat split_guard; naive_solver lia.
Qed.

Lemma moves_workload c now_ s wl : moves alertTypeReplicaHealth c (workload_sev c) s (check_workload json now_ s wl).
Proof.
  unfold check_workload. cbv zeta. destruct (workload_fine wl).
  - destruct (s !! wl_ID wl) as [st|] eqn:E; [|by apply moves_none].
    destruct (bool_decide_reflect (ra_severity st = "")) as [Es|Es].
    + apply moves_none, workload_sev_same. intros k. destruct (decide (k = wl_ID wl)) as [->|].
      * rewrite lookup_delete_eq, E. cbn. done.
      * by rewrite lookup_delete_ne.
    + eapply moves_event; [done|by apply k8s_sent|done|..]; cbn [channel_of ev_AlertType ev_EntityID k8s_event ev_IsRecover].
      * intros Hc. apply (workload_sev_ne _ (wl_ID wl)); [by intros ->|]. intros. by rewrite lookup_delete_ne.
      * intros <-. unfold workload_sev. cbn. by rewrite E, lookup_delete_eq.
  - destruct (s !! wl_ID wl) as [st|] eqn:E.
    + destruct (bool_decide _); [by apply moves_none|].
      destruct (bool_decide_reflect (ra_severity st = workload_severity wl)) as [|H1]; [by apply moves_none|].
      destruct (bool_decide_reflect (ra_severity st = SeverityCritical)) as [|H2]; [by apply moves_none|]. cbn [orb].
      eapply moves_event; [done|by apply k8s_sent|done|..]; cbn [channel_of ev_AlertType ev_EntityID k8s_event ev_IsRecover ev_Severity].
      * intros Hc. apply (workload_sev_ne _ (wl_ID wl)); [by intros ->|]. intros. by rewrite lookup_insert_ne.
      * intros <-. unfold workload_sev. cbn. rewrite E, lookup_insert_eq. cbn. split; [|done].
        by apply workload_severity_rank.
    + apply moves_none, workload_sev_same. intros k. destruct (decide (k = wl_ID wl)) as [->|].
      * rewrite lookup_insert_eq, E. done.
      * by rewrite lookup_insert_ne.
Qed.

Lemma prune_workload_keeps present now_ s p :
  (prune_workload present now_ s p).1 = s ∨ (prune_workload present now_ s p).1 = delete p.1 s.
Proof. destruct p as [id st]. cbn. case_match; [by left|by right]. Qed.

Lemma moves_prune_workload c present now_ s p :
  True → s !! p.1 = Some p.2 → moves alertTypeReplicaHealth c (workload_sev c) s (prune_workload present now_ s p).
Proof.
  destruct p as [id st]. cbn. intros _ E. case_match; [by apply moves_none|].
  destruct (bool_decide_reflect (ra_severity st = "")) as [Es|Es].
  - apply moves_none, workload_sev_same. intros k. destruct (decide (k = id)) as [->|].
    + rewrite lookup_delete_eq, E. done.
    + by rewrite lookup_delete_ne.
  - destruct (default _ _) as [[namespace kind] name].
    eapply moves_event; [done|by apply k8s_sent|done|..]; cbn [channel_of ev_AlertType ev_EntityID k8s_event ev_IsRecover].
    + intros Hc. apply (workload_sev_ne _ id); [by intros ->|]. intros. by rewrite lookup_delete_ne.
    + intros <-. unfold workload_sev. cbn. by rewrite E, lookup_delete_eq.
Qed.

(** A check of one kind: the loop over the snapshot, then the loop that prunes. *)
Lemma moves_check {S} ty c (sev : S → string) (s : S) (r1 : S * output) (f2 : S → S * output) :
  moves ty c sev s r1 → moves ty c sev r1.1 (f2 r1.1) →
  moves ty c sev s (let '(s1, o1) := r1 in let '(s2, o2) := f2 s1 in (s2, o1 ⊕ o2)).
Proof.
  destruct r1 as [s1 o1]. cbn. intros H1 H2. destruct (f2 s1) as [s2 o2]. by eapply moves_app.
Qed.

Lemma moves_checkWorkloads c workloads now_ s :
  moves alertTypeReplicaHealth c (workload_sev c) s (checkWorkloads json workloads now_ s).
Proof.
  apply (moves_check _ c (workload_sev c) s (out_fold (check_workload json now_) workloads s)
    (λ s, out_fold (prune_workload (list_to_set (wl_ID <$> workloads)) now_) (map_to_list s) s)).
  - apply (moves_out_fold _ c _ (λ _, True)); [|done]. intros. split; [apply moves_workload|done].
  - apply (moves_prune _ c _ (λ _, True)); [apply prune_workload_keeps|done|apply moves_prune_workload|done].
Qed.

(** *** Pods *)

(** The keys of the pods are made of a namespace and a name. *)
Definition pods_ok (s : gmap string podAlertState) : Prop :=
  ∀ key, is_Some (s !! key) → ∃ namespace name, Cut key "/" = Some (namespace, name).

Lemma Cut_pod_key namespace name : is_Some (Cut (pod_key namespace name) "/").
Proof.
  unfold Cut, pod_key. induction namespace as [|a ns IH]; [done|].
  change (to_bytes (String.String a ns +:+ "/" +:+ name)) with (a :: to_bytes (ns +:+ "/" +:+ name)).
  cbn [bytes_index]. destruct (bytes_prefix _ _); [by eexists|].
  destruct (bytes_index _ (to_bytes (ns +:+ "/" +:+ name))); cbn; [by eexists|by destruct IH].
Qed.

Definition pod_sev (c : channel) (s : gmap string podAlertState) : string :=
  if bool_decide (c.1 = alertTypeCrashLoop)
  then (if from_option pa_alerted false (s !! c.2) then SeverityCritical else "") else "".

Lemma pod_sev_ne c key s s' :
  c ≠ (alertTypeCrashLoop, key) → (∀ k, k ≠ key → s' !! k = s !! k) → pod_sev c s' = pod_sev c s.
Proof.
  intros Hc Hk. unfold pod_sev. destruct (bool_decide_reflect (c.1 = alertTypeCrashLoop)) as [E|]; [|done].
  rewrite Hk; [done|]. intros <-. apply Hc. destruct c; cbn in *. by subst.
Qed.

Lemma pod_sev_same c s s' :
  (∀ k, from_option pa_alerted false (s' !! k) = from_option pa_alerted false (s !! k)) →
  pod_sev c s' = pod_sev c s.
Proof. intros H. unfold pod_sev. by rewrite H. Qed.

Lemma pod_sev_at key s :
  pod_sev (alertTypeCrashLoop, key) s = if from_option pa_alerted false (s !! key) then SeverityCritical else "".
Proof. done. Qed.

Lemma moves_pod c ignoredWorkloads now_ s pod :
  pods_ok s →
  moves alertTypeCrashLoop c (pod_sev c) s (check_pod json ignoredWorkloads now_ s pod) ∧
  pods_ok (check_pod json ignoredWorkloads now_ s pod).1.
Proof.
  intros Hok. unfold check_pod. cbv zeta.
  set (st := observe_restarts _ _ _). set (ignored := pd_Ignored pod || _).
  assert (Ea : pa_alerted st = from_option pa_alerted false (s !! pod_of pod))
    by (unfold st; cbn; by destruct (s !! pod_of pod)).
  assert (Hins : ∀ x, pods_ok (<[pod_of pod := x]> s)).
  { intros x key [y Hy]. apply lookup_insert_Some in Hy as [[<- _]|[_ Hy]]; [|by apply Hok].
    destruct (Cut_pod_key (pd_Namespace pod) (pd_Name pod)) as [[a b] E]. by exists a, b. }
  assert (Hsame : ∀ x, pa_alerted x = pa_alerted st → pod_sev c (<[pod_of pod := x]> s) = pod_sev c s).
  { intros x Hx. apply pod_sev_same. intros k. destruct (decide (k = pod_of pod)) as [->|].
    - rewrite lookup_insert_eq. cbn. by rewrite Hx.
    - by rewrite lookup_insert_ne. }
  destruct (ignored || negb (crash_looping pod st)); (split; [|by apply Hins]).
  - destruct (pa_alerted st) eqn:Est; [|by apply moves_none, Hsame].
    eapply moves_event; [done|by apply k8s_sent|done|..]; cbn [channel_of ev_AlertType ev_EntityID k8s_event ev_IsRecover].
    + intros Hc. apply (pod_sev_ne _ (pod_of pod)); [by intros ->|]. intros. by rewrite lookup_insert_ne.
    + intros <-. change (channel_of _) with (alertTypeCrashLoop, pod_of pod). cbn [ev_Severity k8s_event]. rewrite !pod_sev_at, <- Ea, lookup_insert_eq. done.
  - destruct (pa_alerted st) eqn:Est; [by apply moves_none, Hsame|].
    eapply moves_event; [done|by apply k8s_sent|done|..]; cbn [channel_of ev_AlertType ev_EntityID k8s_event ev_IsRecover ev_Severity].
    + intros Hc. apply (pod_sev_ne _ (pod_of pod)); [by intros ->|]. intros. by rewrite lookup_insert_ne.
    + intros <-. change (channel_of _) with (alertTypeCrashLoop, pod_of pod). cbn [ev_Severity k8s_event]. rewrite !pod_sev_at, <- Ea, lookup_insert_eq. done.
Qed.

Lemma prune_pod_keeps present now_ s p :
  (prune_pod present now_ s p).1 = s ∨ (prune_pod present now_ s p).1 = delete p.1 s.
Proof. destruct p as [id st]. cbn. case_match; [by left|by right]. Qed.

Lemma moves_prune_pod c present now_ s p :
  pods_ok s → s !! p.1 = Some p.2 → moves alertTypeCrashLoop c (pod_sev c) s (prune_pod present now_ s p).
Proof.
  destruct p as [key st]. cbn. intros Hok E. case_match; [by apply moves_none|].
  destruct (pa_alerted st) eqn:Es.
  - destruct (Hok key (mk_is_Some _ _ E)) as (namespace & name & Hcut). rewrite Hcut. cbn [default].
    apply Cut_join in Hcut. change (pod_key namespace name = key) in Hcut.
    eapply moves_event; [done|by apply k8s_sent|done|..]; cbn [channel_of ev_AlertType ev_EntityID k8s_event ev_IsRecover].
    + intros Hc. apply (pod_sev_ne _ key); [intros ->; apply Hc; by rewrite <- Hcut|]. intros. by rewrite lookup_delete_ne.
    + intros <-. change (channel_of _) with (alertTypeCrashLoop, pod_key namespace name). rewrite Hcut, !pod_sev_at, E, lookup_delete_eq. cbn. by rewrite Es.
  - apply moves_none, pod_sev_same. intros k. destruct (decide (k = key)) as [->|].
    + rewrite lookup_delete_eq, E. cbn. by rewrite Es.
    + by rewrite lookup_delete_ne.
Qed.

Lemma pods_ok_delete s k : pods_ok s → pods_ok (delete k s).
Proof. intros H key [x Hx]. apply lookup_delete_Some in Hx as [_ Hx]. by apply H. Qed.

Lemma moves_checkPods c pods workloads now_ s :
  pods_ok s →
  moves alertTypeCrashLoop c (pod_sev c) s (checkPods json pods workloads now_ s) ∧ pods_ok (checkPods json pods workloads now_ s).1.
Proof.
  intros Hok. unfold checkPods. cbv zeta. set (ign := list_to_set _).
  destruct (moves_out_fold alertTypeCrashLoop c (pod_sev c) pods_ok (check_pod json ign now_) pods s) as [H1 H2];
    [intros; by apply moves_pod|done|].
  destruct (out_fold (check_pod json ign now_) pods s) as [s1 o1]. cbn in H2.
  destruct (moves_prune alertTypeCrashLoop c (pod_sev c) pods_ok (prune_pod (list_to_set (pod_of <$> pods)) now_)
    (prune_pod_keeps _ _) pods_ok_delete (moves_prune_pod c _ _) s1 H2) as [H3 H4].
  destruct (out_fold _ (map_to_list s1) s1) as [s2 o2]. split; [by eapply moves_app|done].
Qed.

(** *** Nodes *)

Definition node_sev (c : channel) (s : gmap string string) : string :=
  if bool_decide (c.1 = alertTypeNodeCondition) then default "" (s !! c.2) else "".

Definition nodes_ok (s : gmap string string) : Prop := ∀ name, s !! name ≠ Some "".

Lemma node_sev_ne c name s s' :
  c ≠ (alertTypeNodeCondition, name) → (∀ k, k ≠ name → s' !! k = s !! k) → node_sev c s' = node_sev c s.
Proof.
  intros Hc Hk. unfold node_sev. destruct (bool_decide_reflect (c.1 = alertTypeNodeCondition)) as [E|]; [|done].
  rewrite Hk; [done|]. intros <-. apply Hc. destruct c; cbn in *. by subst.
Qed.

Lemma node_sev_at name s : node_sev (alertTypeNodeCondition, name) s = default "" (s !! name).
Proof. done. Qed.

(** A node with a problem has a severity, and it is one of two. *)
Lemma nodeProblems_severity node :
  ((nodeProblems node).1 = [] ∧ (nodeProblems node).2 = "") ∨
  ((nodeProblems node).1 ≠ [] ∧ ((nodeProblems node).2 = SeverityWarning ∨ (nodeProblems node).2 = SeverityCritical)).
Proof.
  unfold nodeProblems. match goal with |- context [foldl ?f ?a _] => set (g := f); set (acc0 := a) end.
  assert (H0 : (acc0.1 = [] ∧ acc0.2 = "") ∨ (acc0.1 ≠ [] ∧ (acc0.2 = SeverityWarning ∨ acc0.2 = SeverityCritical)))
    by (unfold acc0; destruct (negb _); cbn; [right; split; [done|by right]|by left]).
  revert H0. generalize acc0. clear acc0. induction (kn_Conditions node) as [|cond l IH]; intros acc H; [done|].
  cbn [foldl]. apply IH. unfold g. destruct (pressure cond); [|done]. right. cbn. split; [by destruct acc.1|].
  destruct H as [[_ ->]|[_ H]]; [by left|]. destruct H as [-> | ->]; [by left|by right].
Qed.

Lemma node_severity_rank old new :
  new = SeverityWarning ∨ new = SeverityCritical → old ≠ new → old ≠ SeverityCritical →
  severityRank old < severityRank new.
Proof. intros [-> | ->] H1 H2; unfold severityRank; repeat split_guard; naive_solver lia. Qed.

Lemma moves_node c now_ s node :
  nodes_ok s → moves alertTypeNodeCondition c (node_sev c) s (check_node json now_ s node) ∧ nodes_ok (check_node json now_ s node).1.
Proof.
  intros Hok. unfold check_node. pose proof (nodeProblems_severity node) as Hsev.
  destruct (nodeProblems node) as [conditions severity]. cbn in Hsev.
  destruct conditions as [|cd conditions].
  - destruct (s !! kn_Name node) as [old|] eqn:E; [|split; [by apply moves_none|done]]. split.
    + eapply moves_event; [done|by apply k8s_sent|done|..]; cbn [channel_of ev_AlertType ev_EntityID k8s_event ev_IsRecover].
      * intros Hc. apply (node_sev_ne _ (kn_Name node)); [by intros ->|]. intros. by rewrite lookup_delete_ne.
      * intros <-. change (channel_of _) with (alertTypeNodeCondition, kn_Name node). rewrite !node_sev_at, E, lookup_delete_eq. split; [|done]. cbn. intros ->. by apply (Hok (kn_Name node)).
    + cbn. intros name [_ Hx]%lookup_delete_Some. by apply (Hok name).
  - destruct Hsev as [[? _]|[_ Hsev]]; [done|]. set (old := default "" (s !! kn_Name node)).
    assert (Hne : severity ≠ "") by (by destruct Hsev as [-> | ->]).
    assert (Hins : ∀ x, x ≠ "" → nodes_ok (<[kn_Name node := x]> s)).
    { intros x Hx name [[_ ->]|[_ H]]%lookup_insert_Some; [done|by apply (Hok name)]. }
    destruct (bool_decide_reflect (old = severity)) as [H1|H1];
      [|destruct (bool_decide_reflect (old = SeverityCritical)) as [H2|H2]]; cbn [orb].
    1,2: assert (Hold : old ≠ "") by (rewrite ?H1, ?H2; done); split; [|by apply Hins]; apply moves_none;
      destruct (decide (c = (alertTypeNodeCondition, kn_Name node))) as [->|Hc];
      [by rewrite !node_sev_at, lookup_insert_eq|apply (node_sev_ne _ (kn_Name node)); [done|intros; by rewrite lookup_insert_ne]].
    split; [|by apply Hins].
    eapply moves_event; [done|by apply k8s_sent|done|..]; cbn [channel_of ev_AlertType ev_EntityID k8s_event ev_IsRecover ev_Severity].
    + intros Hc. apply (node_sev_ne _ (kn_Name node)); [by intros ->|]. intros. by rewrite lookup_insert_ne.
    + intros <-. change (channel_of _) with (alertTypeNodeCondition, kn_Name node). rewrite !node_sev_at, lookup_insert_eq. split; [|done]. by apply node_severity_rank.
Qed.

Lemma prune_node_keeps present now_ s p :
  (prune_node present now_ s p).1 = s ∨ (prune_node present now_ s p).1 = delete p.1 s.
Proof. unfold prune_node. case_match; [by left|by right]. Qed.

Lemma moves_prune_node c present now_ s p :
  nodes_ok s → s !! p.1 = Some p.2 → moves alertTypeNodeCondition c (node_sev c) s (prune_node present now_ s p).
Proof.
  destruct p as [name old]. unfold prune_node. cbn. intros Hok E. case_match; [by apply moves_none|].
  eapply moves_event; [done|by apply k8s_sent|done|..]; cbn [channel_of ev_AlertType ev_EntityID k8s_event ev_IsRecover].
  - intros Hc. apply (node_sev_ne _ name); [by intros ->|]. intros. by rewrite lookup_delete_ne.
  - intros <-. change (channel_of _) with (alertTypeNodeCondition, name). rewrite !node_sev_at, E, lookup_delete_eq. split; [|done]. cbn. intros ->. by apply (Hok name).
Qed.

Lemma nodes_ok_delete s k : nodes_ok s → nodes_ok (delete k s).
Proof. intros H name [_ Hx]%lookup_delete_Some. by apply (H name). Qed.

Lemma moves_checkNodes c nodes now_ s :
  nodes_ok s → moves alertTypeNodeCondition c (node_sev c) s (checkNodes json nodes now_ s) ∧ nodes_ok (checkNodes json nodes now_ s).1.
Proof.
  intros Hok. unfold checkNodes.
  destruct (moves_out_fold alertTypeNodeCondition c (node_sev c) nodes_ok (check_node json now_) nodes s) as [H1 H2];
    [intros; by apply moves_node|done|].
  destruct (out_fold (check_node json now_) nodes s) as [s1 o1]. cbn in H2.
  destruct (moves_prune alertTypeNodeCondition c (node_sev c) nodes_ok (prune_node (list_to_set (kn_Name <$> nodes)) now_)
    (prune_node_keeps _ _) nodes_ok_delete (moves_prune_node c _ _) s1 H2) as [H3 H4].
  destruct (out_fold _ (map_to_list s1) s1) as [s2 o2]. split; [by eapply moves_app|done].
Qed.

(** ** The checker *)

Definition k8s_sev (c : channel) (k : K8sAlertChecker) : string :=
  if bool_decide (c.1 = alertTypeReplicaHealth) then workload_sev c (kc_replicas k)
  else if bool_decide (c.1 = alertTypeCrashLoop) then pod_sev c (kc_pods k)
  else node_sev c (kc_nodes k).

Definition checker_ok (k : K8sAlertChecker) : Prop := pods_ok (kc_pods k) ∧ nodes_ok (kc_nodes k).

(** Alerts of another type do not concern [c]. *)
Lemma moves_other {S} ty c (sev : S → string) s r cur :
  moves ty c sev s r → c.1 ≠ ty → climbs c cur (o_alerts r.2) = Some cur.
Proof.
  intros [Hall _] Hty. induction Hall as [|e l [_ He] _ IH]; [done|]. cbn.
  unfold about. rewrite bool_decide_eq_false_2; [done|]. intros <-. by apply Hty.
Qed.

Lemma moves_sent {S} ty c (sev : S → string) s r :
  moves ty c sev s r → Forall (sent_by alertSource k8s_entity) (o_alerts r.2).
Proof. intros [Hall _]. eapply Forall_impl; [exact Hall|]. by intros e []. Qed.

Lemma check_climbs c snap now_ k :
  checker_ok k →
  let r := Check json snap now_ k in
  Forall (sent_by alertSource k8s_entity) (o_alerts r.2) ∧
  climbs c (k8s_sev c k) (o_alerts r.2) = Some (k8s_sev c r.1) ∧ checker_ok r.1.
Proof.
  intros [Hp Hn]. unfold Check. pose proof (moves_checkWorkloads c (sn_Workloads snap) now_ (kc_replicas k)) as H1.
  destruct (moves_checkPods c (sn_Pods snap) (sn_Workloads snap) now_ (kc_pods k) Hp) as [H2 Hp'].
  assert (moves alertTypeNodeCondition c (node_sev c) (kc_nodes k)
      (if bool_decide (sn_Nodes snap = []) then (kc_nodes k, no_output) else checkNodes json (sn_Nodes snap) now_ (kc_nodes k)) ∧
    nodes_ok (if bool_decide (sn_Nodes snap = []) then (kc_nodes k, no_output)
      else checkNodes json (sn_Nodes snap) now_ (kc_nodes k)).1) as [H3 Hn']
    by (case_match; [split; [by apply moves_none|done]|by apply moves_checkNodes]).
  destruct (checkWorkloads _ _ _ _) as [s1 o1], (checkPods _ _ _ _ _) as [s2 o2], (if bool_decide _ then _ else _) as [s3 o3].
  cbn [fst snd kc_replicas kc_pods kc_nodes] in *. rewrite !o_alerts_app. split; [|split; [|done]].
  { rewrite !Forall_app. apply moves_sent in H1, H2, H3. done. }
  rewrite <- app_assoc, !climbs_app. unfold k8s_sev. cbn [kc_replicas kc_pods kc_nodes].
  destruct (bool_decide_reflect (c.1 = alertTypeReplicaHealth)) as [E1|E1].
  - destruct H1 as [_ H1]. cbn [fst snd] in H1. rewrite H1. cbn [mbind option_bind snd]. rewrite climbs_app.
    assert (E2 : c.1 ≠ alertTypeCrashLoop) by (by rewrite E1).
    pose proof (λ cur, moves_other _ _ _ _ _ cur H2 E2) as H2'. cbn [snd] in H2'. rewrite H2'. cbn [mbind option_bind snd].
    assert (E3 : c.1 ≠ alertTypeNodeCondition) by (by rewrite E1). exact (moves_other _ _ _ _ _ _ H3 E3).
  - pose proof (λ cur, moves_other _ _ _ _ _ cur H1 E1) as H1'. cbn [snd] in H1'. rewrite H1'. cbn [mbind option_bind snd]. rewrite climbs_app.
    destruct (bool_decide_reflect (c.1 = alertTypeCrashLoop)) as [E2|E2].
    + destruct H2 as [_ H2]. cbn [fst snd] in H2. rewrite H2. cbn [mbind option_bind snd].
      assert (E3 : c.1 ≠ alertTypeNodeCondition) by (by rewrite E2). exact (moves_other _ _ _ _ _ _ H3 E3).
    + pose proof (λ cur, moves_other _ _ _ _ _ cur H2 E2) as H2'. cbn [snd] in H2'. rewrite H2'. cbn [mbind option_bind snd]. apply H3.
Qed.

Record k8s_op := CheckOp { co_snapshot : TopologySnapshot; co_now : Z }.

Definition k8s_step (op : k8s_op) (k : K8sAlertChecker) : K8sAlertChecker * output :=
  Check json (co_snapshot op) (co_now op) k.

Definition k8s_raised (c : channel) (k : K8sAlertChecker) : bool := opened (k8s_sev c k).

Lemma k8s_law c op k : checker_ok k → goes alertSource k8s_entity false k8s_raised c k (k8s_step op k).
Proof.
  intros Hk. destruct (check_climbs c (co_snapshot op) (co_now op) k Hk) as (H1 & H2 & _).
  split; [exact H1|]. by apply climbs_follow.
Qed.

#[export] Instance k8s_tracker : Tracker K8sAlertChecker k8s_op := {|
  trk_strict := false;
  trk_step := k8s_step;
  trk_raised := k8s_raised;
  trk_covers c op k := checker_ok k;
  trk_source := alertSource;
  trk_entity := k8s_entity;
  trk_law := k8s_law;
|}.

Lemma k8s_covered c ops k : checker_ok k → trk_covered (Tracker0 := k8s_tracker) c ops k.
Proof.
  revert k. induction ops as [|op ops IH]; intros k Hk; [done|]. cbn. split; [done|].
  apply IH, (check_climbs c (co_snapshot op) (co_now op) k Hk).
Qed.

Lemma new_checker_ok : checker_ok NewK8sAlertChecker.
Proof.
  split; [intros key [x Hx]|intros name Hx]; cbn in Hx; by apply lookup_empty_Some in Hx.
Qed.

(** C37: the alerts of the checker.  Along any run of snapshots from a new checker,
    the alerts about one workload, pod or node raise it, lift it to a higher
    severity or resolve it when it is open, never raise the same severity twice,
    and leave it at the end at the severity the checker remembers. *)
Theorem k8s_alerts_climb c ops :
  let r := trk_run (Tracker0 := k8s_tracker) ops NewK8sAlertChecker in
  climbs c "" (o_alerts r.2) = Some (k8s_sev c r.1).
Proof.
  cbv zeta. assert (H : ∀ k, checker_ok k →
    climbs c (k8s_sev c k) (o_alerts (trk_run (Tracker0 := k8s_tracker) ops k).2)
    = Some (k8s_sev c (trk_run (Tracker0 := k8s_tracker) ops k).1)).
  { induction ops as [|op ops IH]; intros k Hk; [done|]. cbn [trk_run].
    destruct (check_climbs c (co_snapshot op) (co_now op) k Hk) as (_ & H1 & H2).
    change (trk_step op k) with (Check json (co_snapshot op) (co_now op) k).
    destruct (Check json _ _ k) as [k1 o1]. specialize (IH k1 H2).
    destruct (trk_run ops k1) as [k2 o2]. cbn in *. by rewrite climbs_app, H1. }
  assert (E : k8s_sev c NewK8sAlertChecker = "").
  { unfold k8s_sev, workload_sev, pod_sev, node_sev. cbn. rewrite !lookup_empty. by repeat case_match. }
  rewrite <- E. apply H, new_checker_ok.
Qed.
End Check.

(** ** The window of restarts *)

Definition observed (obs : list (Z * Z)) : podAlertState :=
  foldl (λ st o, observe_restarts o.1 o.2 st) (MkPodAlert 0 false [] false) obs.

(** The restarts the counts report, one time per restart; [cap] bounds what one
    observation adds. *)
Definition report (cap : nat → nat) (acc : option Z * list Z) (o : Z * Z) : option Z * list Z :=
  (Some o.2, acc.2 ++ replicate (cap (match acc.1 with Some m => Z.to_nat (o.2 - m) | None => 0%nat end)) o.1).

Definition reported (cap : nat → nat) (obs : list (Z * Z)) : option Z * list Z := foldl (report cap) (None, []) obs.

Lemma observed_snoc obs o : observed (obs ++ [o]) = observe_restarts o.1 o.2 (observed obs).
Proof. unfold observed. by rewrite foldl_app. Qed.

Lemma reported_snoc cap obs o : reported cap (obs ++ [o]) = report cap (reported cap obs) o.
Proof. unfold reported. by rewrite foldl_app. Qed.

Lemma reported_last cap cap' obs : (reported cap obs).1 = (reported cap' obs).1.
Proof. induction obs as [|o obs _] using rev_ind; [done|]. by rewrite !reported_snoc. Qed.

Lemma recent_app t l1 l2 : recent t (l1 ++ l2) = recent t l1 ++ recent t l2.
Proof. apply filter_app. Qed.

Lemma recent_recent t t' l : t ≤ t' → recent t' (recent t l) = recent t' l.
Proof. intros Ht. unfold recent. rewrite list_filter_filter. apply list_filter_iff. intros x. lia. Qed.

Definition capped (n : nat) : nat := Nat.min n 3.

(** The checker keeps the capped restarts of the window, and nothing older. *)
Lemma observed_reported obs :
  StronglySorted Z.le obs.*1 →
  (if pa_counted (observed obs) then Some (pa_lastCount (observed obs)) else None) = (reported capped obs).1 ∧
  ∀ t, Forall (λ o, o.1 ≤ t) obs → recent t (pa_restarts (observed obs)) = recent t (reported capped obs).2.
Proof.
  induction obs as [|[t n] obs IH] using rev_ind; [done|]. rewrite fmap_app. intros Hs.
  destruct (IH (StronglySorted_app_1_l _ _ _ Hs)) as [Hl Hr]. rewrite observed_snoc, reported_snoc.
  split; [done|]. intros t' Ht'. apply Forall_app in Ht' as [Ht' [Htt _]%Forall_cons]. cbn in Htt.
  cbn [report snd observe_restarts pa_restarts fst]. rewrite recent_recent by done.
  rewrite !recent_app, Hr by done. f_equal. f_equal. f_equal. unfold new_restarts. rewrite <- Hl. unfold capped.
  destruct (pa_counted (observed obs)); cbn; [|done]. unfold defaultCrashLoopRestarts.
  split_guard; lia.
Qed.

Lemma recent_replicate t n x : length (recent t (replicate n x)) = if bool_decide (t - defaultCrashLoopWindow < x) then n else 0%nat.
Proof.
  unfold recent. split_guard.
  - rewrite list_filter_all; [apply length_replicate|]. by intros y ->%elem_of_replicate_inv.
  - rewrite list_filter_none; [done|]. by intros y ->%elem_of_replicate_inv.
Qed.

Lemma reported_capped t obs :
  Nat.min 3 (length (recent t (reported capped obs).2)) = Nat.min 3 (length (recent t (reported id obs).2)).
Proof.
  induction obs as [|o obs IH] using rev_ind; [done|]. rewrite !reported_snoc. cbn [report snd].
  rewrite !recent_app, !length_app, !recent_replicate, (reported_last capped id).
  revert IH. generalize (length (recent t (reported capped obs).2)) (length (recent t (reported id obs).2)).
  intros a b IH. unfold capped, id. split_guard; lia.
Qed.

(** The window of restarts is exact.  The checker adds at most three restarts
    per observation and forgets those older than ten minutes; at each observation
    it finds a crash loop in them exactly when the restart counts it was shown
    add up to three restarts or more in the last ten minutes. *)
Theorem restart_window_exact obs t n :
  StronglySorted Z.le (obs ++ [(t, n)]).*1 →
  defaultCrashLoopRestarts ≤ Z.of_nat (length (pa_restarts (observed (obs ++ [(t, n)])))) ↔
  defaultCrashLoopRestarts ≤ Z.of_nat (length (recent t (reported id (obs ++ [(t, n)])).2)).
Proof.
  intros Hs. destruct (observed_reported _ Hs) as [_ Hr].
  assert (Hall : Forall (λ o, o.1 ≤ t) (obs ++ [(t, n)])).
  { rewrite fmap_app in Hs. apply Forall_app. split; [|by repeat constructor]. apply Forall_forall. intros o Ho.
    eapply StronglySorted_app_1_elem_of; [exact Hs|by apply list_elem_of_fmap_2|apply list_elem_of_here]. }
  specialize (Hr t Hall). pose proof (reported_capped t (obs ++ [(t, n)])) as Hc.
  assert (Hsame : recent t (pa_restarts (observed (obs ++ [(t, n)]))) = pa_restarts (observed (obs ++ [(t, n)])))
    by (rewrite observed_snoc; cbn [observe_restarts pa_restarts fst]; by rewrite recent_recent).
  rewrite Hsame in Hr. rewrite Hr. unfold defaultCrashLoopRestarts. lia.
Qed.

(** ** What the checker remembers *)

Section forget.
Context {A : Type} (present : gset string) (f : gmap string A → string * A → gmap string A * output).
Context (f_step : ∀ s p, (f s p).1 = if bool_decide (p.1 ∈ present) then s else delete p.1 s).

Lemma pruned_list l s k :
  (out_fold f l s).1 !! k = if bool_decide (k ∈ l.*1 ∧ k ∉ present) then None else s !! k.
Proof.
  revert s. induction l as [|p l IH]; intros s; [by rewrite bool_decide_eq_false_2 by set_solver|].
  rewrite out_fold_cons. cbn [fst]. rewrite IH, f_step. cbn [fmap list_fmap].
  destruct (bool_decide_reflect (p.1 ∈ present)) as [Hp|Hp].
  - apply (f_equal (λ b : bool, if b then None else s !! k)). apply bool_decide_ext. set_solver.
  - destruct (decide (k = p.1)) as [->|Hk].
    + rewrite lookup_delete_eq. rewrite (bool_decide_eq_true_2 (p.1 ∈ p.1 :: l.*1 ∧ _)) by (split; [left|done]).
      by case_match.
    + rewrite lookup_delete_ne by done. apply (f_equal (λ b : bool, if b then None else s !! k)).
      apply bool_decide_ext. set_solver.
Qed.

Lemma pruned_dom s : dom (out_fold f (map_to_list s) s).1 = dom s ∩ present.
Proof.
  apply set_eq. intros k. rewrite elem_of_intersection, !elem_of_dom, pruned_list.
  destruct (bool_decide_reflect (k ∈ (map_to_list s).*1 ∧ k ∉ present)) as [[_ Hk]|Hk].
  - split; [by intros []|by intros [_ ?]].
  - split; [|by intros []]. intros [x Hx]. split; [by eexists|]. apply dec_stable. intros Hn. apply Hk. split; [|done].
    apply list_elem_of_fmap. exists (k, x). by rewrite elem_of_map_to_list.
Qed.
End forget.

Section Check.
Context (json : list (string * value) → details).

Lemma pods_dom ign now_ pods s :
  dom (out_fold (check_pod json ign now_) pods s).1 = dom s ∪ list_to_set (pod_of <$> pods).
Proof.
  revert s. induction pods as [|pod pods IH]; intros s; [set_solver|]. rewrite out_fold_cons. cbn [fst].
  rewrite IH. unfold check_pod. cbv zeta. destruct (_ || negb _); cbn [fst]; rewrite dom_insert_L; set_solver.
Qed.

Lemma prune_node_step present now_ s p :
  (prune_node present now_ s p).1 = if bool_decide (p.1 ∈ present) then s else delete p.1 s.
Proof. unfold prune_node. by destruct (bool_decide (p.1 ∈ present)). Qed.

(** The checker remembers what it was shown.  After a check its pods are
    exactly those of the snapshot, its workloads and nodes are among those of the
    snapshot (the nodes only when they could be listed): what it keeps is bounded
    by the last snapshot, whatever it was shown before. *)
Theorem checker_forgets snap now_ k :
  let k' := (Check json snap now_ k).1 in
  dom (kc_pods k') = list_to_set (pod_of <$> sn_Pods snap) ∧
  dom (kc_replicas k') ⊆ list_to_set (wl_ID <$> sn_Workloads snap) ∧
  (sn_Nodes snap ≠ [] → dom (kc_nodes k') ⊆ list_to_set (kn_Name <$> sn_Nodes snap)).
Proof.
  assert (Hw : dom (checkWorkloads json (sn_Workloads snap) now_ (kc_replicas k)).1 ⊆ list_to_set (wl_ID <$> sn_Workloads snap)).
  { unfold checkWorkloads. destruct (out_fold _ (sn_Workloads snap) _) as [s1 o1].
    pose proof (pruned_dom (list_to_set (wl_ID <$> sn_Workloads snap)) (prune_workload (list_to_set (wl_ID <$> sn_Workloads snap)) now_)
      ltac:(intros s [id st]; cbn; by case_match) s1) as H.
    destruct (out_fold _ (map_to_list s1) s1) as [s2 o2]. cbn in *. set_solver. }
  assert (Hp : dom (checkPods json (sn_Pods snap) (sn_Workloads snap) now_ (kc_pods k)).1 = list_to_set (pod_of <$> sn_Pods snap)).
  { unfold checkPods. cbv zeta. set (ign := list_to_set (wl_ID <$> _)).
    pose proof (pods_dom ign now_ (sn_Pods snap) (kc_pods k)) as H0.
    destruct (out_fold _ (sn_Pods snap) _) as [s1 o1].
    pose proof (pruned_dom (list_to_set (pod_of <$> sn_Pods snap)) (prune_pod (list_to_set (pod_of <$> sn_Pods snap)) now_)
      ltac:(intros s [id st]; cbn; by case_match) s1) as H.
    destruct (out_fold _ (map_to_list s1) s1) as [s2 o2]. cbn in *. set_solver. }
  assert (Hn : dom (checkNodes json (sn_Nodes snap) now_ (kc_nodes k)).1 ⊆ list_to_set (kn_Name <$> sn_Nodes snap)).
  { unfold checkNodes. destruct (out_fold _ (sn_Nodes snap) _) as [s1 o1].
    pose proof (pruned_dom (list_to_set (kn_Name <$> sn_Nodes snap)) (prune_node (list_to_set (kn_Name <$> sn_Nodes snap)) now_)
      (prune_node_step _ _) s1) as H.
    destruct (out_fold _ (map_to_list s1) s1) as [s2 o2]. cbn in *. set_solver. }
  unfold Check. destruct (checkWorkloads _ _ _ _) as [s1 o1], (checkPods _ _ _ _ _) as [s2 o2]. cbn [fst] in *.
  split_and!.
  - by case_match.
  - by case_match.
  - intros Hne. rewrite bool_decide_eq_false_2 by done. by destruct (checkNodes _ _ _ _).
Qed.
End Check.

Module K8sExample.

Lemma restart_window_exact_witness :
  let obs := [(0, 1); (minute, 2)] in
  (defaultCrashLoopRestarts ≤ Z.of_nat (length (pa_restarts (observed (obs ++ [(3 * minute, 9)])))) ↔
   defaultCrashLoopRestarts ≤ Z.of_nat (length (recent (3 * minute) (reported id (obs ++ [(3 * minute, 9)])).2)))
  ∧ length (pa_restarts (observed (obs ++ [(3 * minute, 9)]))) = 4%nat
  ∧ length (reported id (obs ++ [(3 * minute, 9)])).2 = 8%nat.
Proof.
  split; [|vm_compute; done]. apply restart_window_exact. cbn. unfold minute, second.
  repeat (apply SSorted_cons || apply Forall_cons_2 || apply Forall_nil_2 || apply SSorted_nil); lia.
Defined.

(** A deployment without ready replicas is raised after five minutes, first as a
    warning when one replica was left, then as critical, and resolves. *)
Definition web (ready : Z) : K8sWorkload := MkWorkload "shop/Deployment/web" "web" "shop" "Deployment" ready 3 false.
Definition shown (ready now_ : Z) : k8s_op := CheckOp (MkSnapshot [web ready] [] []) now_.
Definition text_of (l : list (string * value)) : details := DetailsNil.

Example workload_story :
  let r := trk_run (Tracker0 := k8s_tracker text_of)
    [shown 1 0; shown 1 (5 * minute); shown 1 (6 * minute); shown 0 (7 * minute); shown 1 (8 * minute); shown 3 (9 * minute)]
    NewK8sAlertChecker in
  ((λ e, (ev_Severity e, ev_IsRecover e, ev_Message e)) <$> o_alerts r.2) =
  [(SeverityWarning, false, "Workload web under-replicated for 5m0s: 1/3 ready");
   (SeverityCritical, false, "Workload web under-replicated for 7m0s: 0/3 ready");
   (SeverityInfo, true, "Workload web recovered: 3/3 replicas ready")].
Proof. vm_compute. done. Qed.
End K8sExample.
