(* ===== verification/AgentSpool.v ===== *)
(** * The agent's spool

    [src/internal/agent/spool.go] and [spool_store.go]: the bounded queue an
    agent keeps between its collectors and the server.  A critical section of
    the code is one function here, so that the interleavings of the flush, the
    drain, the acknowledgements and the rate limits can be stated: [flush] is
    [flush_take], [flush_end] and [enforceDiskBudget], and the drain loop is the
    small-step machine [drain_step].  Protobuf is a pair of parameters, the
    outcome of a call to SQLite or to the stream is an argument. *)

From S2P Require Import Prelude.
From S2P Require Import Tables.

#[local] Open Scope string_scope.
#[local] Open Scope list_scope.
#[local] Open Scope Z_scope.

(** ** Events *)

(** The families of events; only the resource sample's container id matters. *)
Inductive Body :=
  | BContainer | BEndpoint | BHeartbeat | BResource (containerID : string) | BCertificate
  | BSwarm | BKubernetes | BInventory | BHostOs | BRuntime | BNone.

Record AgentEvent := MkAgentEvent {
  ae_EventID : string;
  ae_ObservedAt : option Z;
  ae_Seq : Z;
  ae_Replayed : bool;
  ae_Body : Body;
  ae_Data : string;
}.
#[export] Instance AgentEvent_eta : Eta AgentEvent := λ e,
  MkAgentEvent (ae_EventID e) (ae_ObservedAt e) (ae_Seq e) (ae_Replayed e) (ae_Body e) (ae_Data e).

Definition snapshotInventory := "inventory".
Definition snapshotSwarm := "swarm".
Definition snapshotKubernetes := "kubernetes".
Definition snapshotCertScan := "certificate".
Definition snapshotHostSample := "host".
Definition snapshotHostOS := "host_os".
Definition snapshotRuntime := "runtime".

Definition snapshotOf (evt : AgentEvent) : option string :=
  match ae_Body evt with
  | BInventory => Some snapshotInventory
  | BSwarm => Some snapshotSwarm
  | BKubernetes => Some snapshotKubernetes
  | BCertificate => Some snapshotCertScan
  | BHostOs => Some snapshotHostOS
  | BRuntime => Some snapshotRuntime
  | BResource id => if bool_decide (id = "") then Some snapshotHostSample else None
  | _ => None
  end.

(** ** The store *)

Record pendingEvent := MkPending { pe_EventID : string; pe_ObservedAt : Z; pe_Payload : string }.

Definition payload_len (p : string) : Z := Z.of_nat (String.length p).
Definition pe_size (e : pendingEvent) : Z := payload_len (pe_Payload e).

(** A row of [spool_events]. *)
Record spool_row := MkRow {
  sr_seq : Z;
  sr_event_id : string;
  sr_observed_at : Z;
  sr_payload : string;
  sr_size_bytes : Z;
}.

(** [ss_last] is the sequence AUTOINCREMENT counts on: deleted sequences are not
    given again. *)
Record spoolStore := MkStore {
  ss_rows : list spool_row;
  ss_last : Z;
  ss_dropped_since_connect : Z;
}.
#[export] Instance spoolStore_eta : Eta spoolStore := λ s,
  MkStore (ss_rows s) (ss_last s) (ss_dropped_since_connect s).

Definition row_of (seq : Z) (e : pendingEvent) : spool_row :=
  MkRow seq (pe_EventID e) (pe_ObservedAt e) (pe_Payload e) (pe_size e).

Fixpoint new_rows (last : Z) (events : list pendingEvent) : list spool_row :=
  match events with
  | [] => []
  | e :: events => row_of (last + 1) e :: new_rows (last + 1) events
  end.

(** One transaction. *)
Definition Append (events : list pendingEvent) (s : spoolStore) : spoolStore :=
  s <| ss_rows ::= λ rows, rows ++ new_rows (ss_last s) events |>
    <| ss_last ::= λ last, last + Z.of_nat (length events) |>.

Definition ReadFrom (after : Z) (limit : nat) (s : spoolStore) : list spool_row :=
  take limit (order_by sr_seq (filter (λ r, after < sr_seq r) (ss_rows s))).

Definition DeleteUpTo (seq : Z) (s : spoolStore) : spoolStore :=
  s <| ss_rows ::= filter (λ r, ¬ sr_seq r ≤ seq) |>.

Definition DeleteOlderThan (cutoff : Z) (s : spoolStore) : spoolStore :=
  s <| ss_rows ::= filter (λ r, ¬ sr_observed_at r < cutoff) |>.

Definition spoolDropScanLimit : nat := Z.to_nat 50000.

(** The largest sequence among the scanned rows whose predecessors add up to
    less than [target]. *)
Fixpoint last_below (running target : Z) (rows : list spool_row) : option Z :=
  match rows with
  | [] => None
  | r :: rows =>
    if bool_decide (running < target)
    then match last_below (running + sr_size_bytes r) target rows with
         | Some seq => Some (Z.max seq (sr_seq r))
         | None => Some (sr_seq r)
         end
    else last_below (running + sr_size_bytes r) target rows
  end.

Definition DeleteOldestBytes (target : Z) (s : spoolStore) : spoolStore * Z :=
  match last_below 0 target (take spoolDropScanLimit (order_by sr_seq (ss_rows s))) with
  | None => (s, 0)
  | Some seq =>
    (DeleteUpTo seq s, Z.of_nat (length (filter (λ r, sr_seq r ≤ seq) (ss_rows s))))
  end.

Definition store_Depth (s : spoolStore) : Z := Z.of_nat (length (ss_rows s)).

Definition addDropped (n : Z) (s : spoolStore) : spoolStore :=
  if bool_decide (n ≤ 0) then s else s <| ss_dropped_since_connect ::= λ v, v + n |>.

Definition resetDroppedSinceConnect (s : spoolStore) : spoolStore :=
  s <| ss_dropped_since_connect := 0 |>.

(** ** The spool *)

Record SpoolConfig := MkSpoolConfig {
  MaxMemoryBytes : Z;
  MaxDiskBytes : Z;
  MaxAge : Z;
}.

Definition Enabled (c : SpoolConfig) : bool :=
  bool_decide (0 < MaxMemoryBytes c) || bool_decide (0 < MaxDiskBytes c).

(** What a stream carries up: an event, or the state of the spool. *)
Record SpoolStatus := MkSpoolStatus { sst_Queued : Z; sst_Draining : bool; sst_DroppedSinceConnect : Z }.
Inductive upward := UEvent (evt : AgentEvent) | UStatus (st : SpoolStatus).

Record Spool := MkSpool {
  sp_cfg : SpoolConfig;
  sp_store : option spoolStore;
  sp_buf : list pendingEvent;
  sp_bufBytes : Z;
  sp_sink : bool;
  sp_snapshots : gmap string AgentEvent;
  sp_sendSeq : Z;
  sp_ackSeq : Z;
  sp_generation : Z;
  sp_attachedAt : Z;
  sp_dropped : Z;
  sp_pausedUntil : Z;
  sp_reported : bool;
  sp_wasDraining : bool;
}.
#[export] Instance Spool_eta : Eta Spool := λ s,
  MkSpool (sp_cfg s) (sp_store s) (sp_buf s) (sp_bufBytes s) (sp_sink s) (sp_snapshots s) (sp_sendSeq s)
    (sp_ackSeq s) (sp_generation s) (sp_attachedAt s) (sp_dropped s) (sp_pausedUntil s) (sp_reported s)
    (sp_wasDraining s).

Definition spoolFlushEvents : nat := 500.
Definition spoolDrainBatch : nat := 200.

(** [store] is what [openSpoolStore] gave: [None] leaves the spool in memory. *)
Definition NewSpool (cfg : SpoolConfig) (store : option spoolStore) : Spool :=
  MkSpool cfg (if Enabled cfg then store else None) [] 0 false ∅ 0 0 0 zero_time 0 zero_time false false.

Definition Rewind (s : Spool) : Spool :=
  s <| sp_sendSeq := sp_ackSeq s |> <| sp_generation ::= λ g, g + 1 |>.

Definition Attach (now_ : Z) (s : Spool) : Spool :=
  Rewind (s <| sp_sink := true |> <| sp_attachedAt := now_ |> <| sp_pausedUntil := zero_time |>
            <| sp_reported := false |>).

Definition Detach (s : Spool) : Spool := s <| sp_sink := false |>.

Definition ErrNoStream := ESentinel "no agent stream available".

(** *** Queueing *)

Definition bytes_of (l : list pendingEvent) : Z := foldr (λ e n, pe_size e + n) 0 l.

(** [trimMemoryLocked]: the oldest events go while the budget is exceeded. *)
Fixpoint trim_memory (max bufBytes : Z) (buf : list pendingEvent) : list pendingEvent * Z * Z :=
  match buf with
  | [] => ([], bufBytes, 0)
  | e :: rest =>
    if bool_decide (max < bufBytes) then
      let '(buf, bytes, n) := trim_memory max (bufBytes - pe_size e) rest in (buf, bytes, n + 1)
    else (e :: rest, bufBytes, 0)
  end.

Definition trimMemoryLocked (s : Spool) : Spool :=
  let '(buf, bytes, dropped) := trim_memory (MaxMemoryBytes (sp_cfg s)) (sp_bufBytes s) (sp_buf s) in
  s <| sp_buf := buf |> <| sp_bufBytes := bytes |> <| sp_dropped ::= λ d, d + dropped |>.

(** The first critical section of [flush]: the batch it took, if any. *)
Definition flush_take (s : Spool) : Spool * option (list pendingEvent) :=
  if bool_decide (sp_buf s = []) then (s, None)
  else match sp_store s with
       | None => (trimMemoryLocked s, None)
       | Some _ => (s <| sp_buf := [] |> <| sp_bufBytes := 0 |>, Some (sp_buf s))
       end.

(** [Append] and what follows it: a batch that was not written comes back in
    front of what was queued meanwhile. *)
Definition flush_end (ok : bool) (batch : list pendingEvent) (s : Spool) : Spool :=
  if ok then s <| sp_store ::= fmap (Append batch) |>
  else s <| sp_buf ::= λ buf, batch ++ buf |> <| sp_bufBytes ::= λ n, n + bytes_of batch |>.

(** What the calls of a budget check answered: the size of the file, and whether
    the deletion was written, the pages it freed were reclaimed and the counter
    was written. *)
Record budget_env := MkBudgetEnv { be_size : option Z; be_delete : bool; be_reclaim : bool; be_meta : bool }.

Definition enforceDiskBudget (env : budget_env) (s : Spool) : Spool * result unit :=
  if bool_decide (MaxDiskBytes (sp_cfg s) ≤ 0) then (s, Ok tt)
  else match sp_store s with
  | None => (s, Ok tt)
  | Some store =>
    match be_size env with
    | None => (s, Err EStore)
    | Some size =>
      if bool_decide (size ≤ MaxDiskBytes (sp_cfg s)) then (s, Ok tt)
      else if negb (be_delete env) then (s, Err EStore)
      else
        let '(store, dropped) := DeleteOldestBytes
          (size - MaxDiskBytes (sp_cfg s) + Z.quot (MaxDiskBytes (sp_cfg s)) 10) store in
        if bool_decide (dropped = 0) then (s <| sp_store := Some store |>, Ok tt)
        else if negb (be_reclaim env) then (s <| sp_store := Some store |>, Err EStore)
        else if be_meta env
        then (s <| sp_store := Some (addDropped dropped store) |>, Ok tt)
        else (s <| sp_store := Some store |>, Err EStore)
    end
  end.

Definition flush (append_ok : bool) (env : budget_env) (s : Spool) : Spool * result unit :=
  match flush_take s with
  | (s, None) => (s, Ok tt)
  | (s, Some batch) =>
    let s := flush_end append_ok batch s in
    if append_ok then enforceDiskBudget env s else (s, Err EStore)
  end.

(** [reclaimed]: an error of the vacuum comes after the deletion. *)
Definition purgeExpired (now_ : Z) (ok reclaimed : bool) (s : Spool) : Spool * result unit :=
  if bool_decide (MaxAge (sp_cfg s) ≤ 0) then (s, Ok tt)
  else match sp_store s with
  | None => (s, Ok tt)
  | Some store =>
    if ok then (s <| sp_store := Some (DeleteOlderThan (unix (now_ - MaxAge (sp_cfg s))) store) |>,
                if reclaimed then Ok tt else Err EStore)
    else (s, Err EStore)
  end.

Section Wire.
Context (marshal : AgentEvent → option string) (unmarshal : string → option AgentEvent).

(** The queueing of an event, and whether the memory budget is reached. *)
Definition enqueue (now_ : Z) (evt : AgentEvent) (s : Spool) : Spool * result bool :=
  match marshal evt with
  | None => (s, Err (ESentinel "marshal spooled event"))
  | Some payload =>
    let observed := match ae_ObservedAt evt with Some t => unix t | None => unix now_ end in
    let s := s <| sp_buf ::= λ buf, buf ++ [MkPending (ae_EventID evt) observed payload] |>
               <| sp_bufBytes ::= λ n, n + payload_len payload |> in
    (s, Ok (bool_decide (MaxMemoryBytes (sp_cfg s) ≤ sp_bufBytes s)))
  end.

(** A snapshot goes to the stream at once; an error of the stream is logged. *)
Definition sendSnapshot (sent : bool) (kind : string) (evt : AgentEvent) (s : Spool) : Spool * list upward :=
  (s <| sp_snapshots ::= <[kind := evt]> |>, if sp_sink s && sent then [UEvent evt] else []).

(** [Send] up to the end of its critical section: [Ok true] when the memory
    budget is reached, so that a flush follows.  [sent] says whether the stream
    takes a message. *)
Definition Send_queue (now_ : Z) (sent : bool) (evt : AgentEvent) (s : Spool)
    : Spool * list upward * result bool :=
  if negb (Enabled (sp_cfg s)) then
    if negb (sp_sink s) then (s, [], Err ErrNoStream)
    else if sent then (s, [UEvent evt], Ok false) else (s, [], Err (ESentinel "send"))
  else match snapshotOf evt with
  | Some kind => let '(s, out) := sendSnapshot sent kind evt s in (s, out, Ok false)
  | None => let '(s, r) := enqueue now_ evt s in (s, [], r)
  end.

Definition Send (now_ : Z) (sent append_ok : bool) (env : budget_env) (evt : AgentEvent) (s : Spool)
    : Spool * list upward * result unit :=
  match Send_queue now_ sent evt s with
  | (s, out, Err e) => (s, out, Err e)
  | (s, out, Ok overMemory) =>
    if overMemory then let '(s, r) := flush append_ok env s in (s, out, r) else (s, out, Ok tt)
  end.

(** [sent] says how many of the messages the stream takes before an error. *)
Definition resendSnapshots (sent : nat) (s : Spool) : list upward :=
  if sp_sink s then take sent (UEvent <$> (map_to_list (sp_snapshots s)).*2) else [].

(** *** Counters *)

Definition Depth (s : Spool) : Z :=
  Z.of_nat (length (sp_buf s)) + match sp_store s with None => 0 | Some store => store_Depth store end.

Definition Dropped (s : Spool) : Z :=
  sp_dropped s + match sp_store s with None => 0 | Some store => ss_dropped_since_connect store end.

Definition ResetDropped (ok : bool) (s : Spool) : Spool :=
  let s := s <| sp_dropped := 0 |> in
  if ok then s <| sp_store ::= fmap resetDroppedSinceConnect |> else s.

(** [reads] says whether the counters could be read, [sent] whether the stream
    takes the message. *)
Definition reportStatus (force reads sent : bool) (s : Spool) : Spool * list upward :=
  if negb reads then (s, [])
  else
    let depth := Depth s in
    let draining := bool_decide (0 < depth) in
    let changed := negb (eqb draining (sp_wasDraining s)) || negb (sp_reported s) in
    (s <| sp_wasDraining := draining |> <| sp_reported := true |>,
     if negb (sp_sink s) || negb force && negb changed && negb draining then []
     else if sent then [UStatus (MkSpoolStatus depth draining (Dropped s))] else []).

(** *** Acknowledgements and limits *)

(** [ok] says whether the deletion was written. *)
Definition Acked (ok : bool) (seq : Z) (s : Spool) : Spool :=
  if bool_decide (max_int64 < seq) then s
  else if bool_decide (seq ≤ sp_ackSeq s) then s
  else
    let s := s <| sp_ackSeq := seq |> in
    if ok then s <| sp_store ::= fmap (DeleteUpTo seq) |> else s.

Definition RateLimited (now_ retryAfter : Z) (s : Spool) : Spool :=
  let retryAfter := if bool_decide (retryAfter ≤ 0) then second else retryAfter in
  Rewind s <| sp_pausedUntil := now_ + retryAfter |>.

Definition Discard (s : Spool) : Spool :=
  s <| sp_store := None |> <| sp_buf := [] |> <| sp_bufBytes := 0 |>.

Definition Close (append_ok : bool) (env : budget_env) (s : Spool) : Spool * result unit :=
  let '(s, r) := flush append_ok env s in (s <| sp_store := None |>, r).

(** *** The drain *)

Definition sameGeneration (gen : Z) (s : Spool) : bool := bool_decide (sp_generation s = gen).

Definition advance (gen seq : Z) (s : Spool) : Spool * bool :=
  if bool_decide (sp_generation s = gen) then (s <| sp_sendSeq := seq |>, true) else (s, false).

(** Where the goroutine that drains is: between two reads, in a batch, about to
    send a row, about to record that it sent one. *)
Inductive drain_pc :=
  | PIdle
  | PBatch (gen attachedAt : Z) (rows : list spool_row)
  | PSend (gen attachedAt : Z) (evt : AgentEvent) (row : spool_row) (rows : list spool_row)
  | PSent (gen attachedAt : Z) (row : spool_row) (rows : list spool_row).

(** How a step leaves the loop. *)
Inductive drain_result := Continue | Done | Failed.

Definition replay (attachedAt : Z) (row : spool_row) (evt : AgentEvent) : AgentEvent :=
  evt <| ae_Replayed := match ae_ObservedAt evt with Some t => bool_decide (t < attachedAt) | None => false end |>
      <| ae_Seq := sr_seq row |>.

(** One step of the loop of [drainOnce]: [ok] says whether the call it makes, to
    the store or to the stream, succeeds. *)
Definition drain_step (now_ : Z) (ok : bool) (pc : drain_pc) (s : Spool)
    : Spool * drain_pc * list upward * drain_result :=
  match pc with
  | PIdle =>
    match sp_store s with
    | Some store =>
      if negb (sp_sink s) || bool_decide (now_ < sp_pausedUntil s) then (s, PIdle, [], Done)
      else if negb ok then (s, PIdle, [], Failed)
      else match ReadFrom (sp_sendSeq s) spoolDrainBatch store with
           | [] => (s, PIdle, [], Done)
           | batch => (s, PBatch (sp_generation s) (sp_attachedAt s) batch, [], Continue)
           end
    | None => (s, PIdle, [], Done)
    end
  | PBatch gen attachedAt [] => (s, PIdle, [], Continue)
  | PBatch gen attachedAt (row :: rows) =>
    match unmarshal (sr_payload row) with
    | None =>
      let '(s, moved) := advance gen (sr_seq row) s in
      (s, if moved then PBatch gen attachedAt rows else PIdle, [], Continue)
    | Some evt =>
      (s, if sameGeneration gen s then PSend gen attachedAt evt row rows else PIdle, [], Continue)
    end
  | PSend gen attachedAt evt row rows =>
    if ok then (s, PSent gen attachedAt row rows, [UEvent (replay attachedAt row evt)], Continue)
    else (s, PIdle, [], Failed)
  | PSent gen attachedAt row rows =>
    let '(s, moved) := advance gen (sr_seq row) s in
    (s, if moved then PBatch gen attachedAt rows else PIdle, [], Continue)
  end.

(** The loop, when nothing else runs and every call succeeds. *)
Fixpoint drain_loop (fuel : nat) (now_ : Z) (pc : drain_pc) (s : Spool) : Spool * list upward * bool :=
  match fuel with
  | O => (s, [], false)
  | S fuel =>
    match drain_step now_ true pc s with
    | (s, pc, out, Continue) =>
      let '(s, out', finished) := drain_loop fuel now_ pc s in (s, out ++ out', finished)
    | (s, _, out, _) => (s, out, true)
    end
  end.

Definition drainOnce (fuel : nat) (now_ : Z) (env : budget_env) (s : Spool) : Spool * list upward * bool :=
  let '(s, r) := flush true env s in
  if is_ok r then drain_loop fuel now_ PIdle s else (s, [], true).
End Wire.
