(* ===== verification/AckTracker.v ===== *)
(** * Acknowledging an agent's events

    [src/internal/commercial/multihost/ack.go] and the event loop of a stream in
    [enrollment.go]: what a stream acknowledges, how it handles one message of
    the agent, and what the agent's receive loop ([src/internal/agent/client.go])
    does with the answers.  The rate limiter's answer and the outcome of a write
    to the stream are arguments. *)

From S2P Require Import Prelude.
From S2P Require Import Tables.
From S2P Require Import AgentSpool.

#[local] Open Scope string_scope.
#[local] Open Scope list_scope.
#[local] Open Scope Z_scope.

(** ** The tracker *)

Definition ackEvery := 100.
Definition ackInterval := 5 * second.

(** Unsigned 64-bit counters. *)
Definition wrap_u64 (z : Z) : Z := z `mod` 18446744073709551616.

Record ackTracker := MkAck {
  ak_accepted : Z;
  ak_highest : Z;
  ak_refused : Z;
  ak_acked : Z;
  ak_lastAck : Z;
}.
#[export] Instance ackTracker_eta : Eta ackTracker := λ a,
  MkAck (ak_accepted a) (ak_highest a) (ak_refused a) (ak_acked a) (ak_lastAck a).

Definition newAckTracker (now_ : Z) : ackTracker := MkAck 0 0 0 0 now_.

Definition accept (seq : Z) (a : ackTracker) : ackTracker :=
  let a := a <| ak_accepted ::= λ n, wrap_u64 (n + 1) |> in
  if bool_decide (seq = 0) then a
  else if bool_decide (0 < ak_refused a) then
    if bool_decide (ak_refused a < seq) then a
    else a <| ak_refused := 0 |> <| ak_highest := seq |>
  else a <| ak_highest ::= λ h, Z.max h seq |>.

Definition refuse (seq : Z) (a : ackTracker) : ackTracker :=
  if bool_decide (seq = 0) then a
  else if bool_decide (ak_refused a = 0) || bool_decide (seq < ak_refused a)
  then a <| ak_refused := seq |>
  else a.

Definition pending (a : ackTracker) : option Z :=
  if bool_decide (ak_highest a ≤ ak_acked a) then None else Some (ak_highest a).

Definition afterEvent (now_ : Z) (a : ackTracker) : option Z :=
  if negb (bool_decide (ak_accepted a `mod` ackEvery = 0))
     && bool_decide (time_sub now_ (ak_lastAck a) < ackInterval)
  then None
  else pending a.

Definition sent (seq now_ : Z) (a : ackTracker) : ackTracker :=
  a <| ak_acked := seq |> <| ak_lastAck := now_ |>.

(** ** A stream of the server *)

(** What a stream carries down. *)
Inductive ServerMessage :=
  | SMAck (LastEventSeq : Z)
  | SMError (Code : string) (RetryAfterMs : Z).

Definition streamErrorRateLimited := "rate_limited".

Record pushSession := MkSession { ps_acks : ackTracker; ps_lastSeenUpd : Z }.
#[export] Instance pushSession_eta : Eta pushSession := λ s, MkSession (ps_acks s) (ps_lastSeenUpd s).

Definition newSession (connectedAt now_ : Z) : pushSession := MkSession (newAckTracker now_) connectedAt.

(** Twenty seconds between two writes of the agent's last sign of life. *)
Definition touchLiveness (now_ : Z) (s : pushSession) : pushSession :=
  if bool_decide (time_sub now_ (ps_lastSeenUpd s) ≤ 20 * second) then s
  else s <| ps_lastSeenUpd := now_ |>.

(** [None]: the write failed, and the stream ends. *)
Definition sendAck (now_ : Z) (send_ok : bool) (seq : Z) (s : pushSession)
    : option (pushSession * list ServerMessage) :=
  if send_ok then Some (s <| ps_acks ::= sent seq now_ |>, [SMAck seq]) else None.

(** [limit] is what the limiter answers: [None] to let the event through, or the
    delay after which to come back. *)
Definition rateLimited (limit : option Z) (evt : AgentEvent) (s : pushSession)
    : option (pushSession * list ServerMessage) :=
  match limit with
  | None => None
  | Some retryAfter =>
    let retryMs := Z.quot retryAfter 1000000 `mod` 4294967296 in
    Some (s <| ps_acks ::= refuse (ae_Seq evt) |>, [SMError streamErrorRateLimited retryMs])
  end.

(** The events handed to the dispatcher are the last component. *)
Definition handleEvent (now_ : Z) (limit : option Z) (send_ok : bool) (evt : AgentEvent) (s : pushSession)
    : option (pushSession * list ServerMessage) * list AgentEvent :=
  match rateLimited limit evt s with
  | Some (s, out) => (Some (s, out), [])
  | None =>
    let s := s <| ps_acks ::= accept (ae_Seq evt) |> in
    match afterEvent now_ (ps_acks s) with
    | Some seq => (sendAck now_ send_ok seq s, [evt])
    | None => (Some (s, []), [evt])
    end
  end.

Definition handleMessage (now_ : Z) (limit : option Z) (send_ok : bool) (msg : upward) (s : pushSession)
    : option (pushSession * list ServerMessage) * list AgentEvent :=
  let s := touchLiveness now_ s in
  match msg with
  | UStatus _ => (Some (s, []), [])
  | UEvent evt => handleEvent now_ limit send_ok evt s
  end.

(** The acknowledgement a tick of the session's timer owes. *)
Definition handleTick (now_ : Z) (send_ok : bool) (s : pushSession)
    : option (pushSession * list ServerMessage) :=
  match pending (ps_acks s) with
  | Some seq => sendAck now_ send_ok seq s
  | None => Some (s, [])
  end.

(** ** The agent's side of the stream *)

(** One message in [recvLoop]; [ok] says whether the purge of acknowledged rows
    is written. *)
Definition receive (now_ : Z) (ok : bool) (msg : ServerMessage) (s : Spool) : Spool :=
  match msg with
  | SMAck seq => Acked ok seq s
  | SMError code retryMs =>
    if bool_decide (code = streamErrorRateLimited) then RateLimited now_ (retryMs * 1000000) s else s
  end.
