(* ===== verification/SpoolProtocol.v ===== *)
(** * The spool and the server together

    An agent and its server as one machine: the agent's spool, the goroutine
    that drains it, the batches its flushes are writing, the two directions of
    the stream, and the session of the server.  Every critical section of
    [spool.go] and every message handled by [recvLoop] or by the server's event
    loop is one action, so a list of actions is one interleaving of the
    goroutines; failing calls, the limiter and the clocks are arguments of the
    actions.  A broken stream loses what both directions still held. *)

From S2P Require Import Prelude.
From S2P Require Import Tables.
From S2P Require Import AgentSpool.
From S2P Require Import AckTracker.

#[local] Open Scope string_scope.
#[local] Open Scope list_scope.
#[local] Open Scope Z_scope.

Record system := MkSystem {
  y_spool : Spool;
  y_pc : drain_pc;
  y_flushing : list (list pendingEvent);
  y_up : list upward;
  y_down : list ServerMessage;
  y_session : option pushSession;
  y_dispatched : list AgentEvent;
}.
#[export] Instance system_eta : Eta system := λ y,
  MkSystem (y_spool y) (y_pc y) (y_flushing y) (y_up y) (y_down y) (y_session y) (y_dispatched y).

Inductive action :=
  | ACollect (now_ : Z) (sent : bool) (evt : AgentEvent)
  | AFlushTake
  | AFlushEnd (batch : nat) (ok : bool)
  | ABudget (env : budget_env)
  | APurge (now_ : Z) (ok reclaimed : bool)
  | AReport (force reads sent : bool)
  | AConnect (now_ : Z) (reset : bool) (snapshots : nat)
  | ADrain (now_ : Z) (ok : bool)
  | AServer (now_ : Z) (limit : option Z) (send_ok : bool)
  | ATick (now_ : Z) (send_ok : bool)
  | AReceive (now_ : Z) (ok : bool)
  | ADisconnect
  | ADiscard
  | ARestart.

(** The stream is gone: what it carried is lost, the drain of the agent and the
    session of the server end. *)
Definition disconnect (y : system) : system :=
  y <| y_spool ::= Detach |> <| y_pc := PIdle |> <| y_up := [] |> <| y_down := [] |> <| y_session := None |>.

(** What the server's handlers leave: a failed write ends the stream. *)
Definition answer (r : option (pushSession * list ServerMessage)) (y : system) : system :=
  match r with
  | Some (session, out) => y <| y_session := Some session |> <| y_down ::= λ down, down ++ out |>
  | None => disconnect y
  end.

Section Wire.
Context (marshal : AgentEvent → option string) (unmarshal : string → option AgentEvent).

Definition step (a : action) (y : system) : system :=
  match a with
  | ACollect now_ sent evt =>
    let '(s, out, _) := Send_queue marshal now_ sent evt (y_spool y) in
    y <| y_spool := s |> <| y_up ::= λ up, up ++ out |>
  | AFlushTake =>
    let '(s, batch) := flush_take (y_spool y) in
    y <| y_spool := s |> <| y_flushing ::= λ l, l ++ option_list batch |>
  | AFlushEnd n ok =>
    match y_flushing y !! n with
    | Some batch =>
      y <| y_spool ::= flush_end ok batch |> <| y_flushing ::= delete n |>
    | None => y
    end
  | ABudget env => y <| y_spool ::= λ s, (enforceDiskBudget env s).1 |>
  | APurge now_ ok reclaimed => y <| y_spool ::= λ s, (purgeExpired now_ ok reclaimed s).1 |>
  | AReport force reads sent =>
    let '(s, out) := reportStatus force reads sent (y_spool y) in
    y <| y_spool := s |> <| y_up ::= λ up, up ++ out |>
  | AConnect now_ reset snapshots =>
    match y_session y with
    | Some _ => y
    | None =>
      let s := Attach now_ (ResetDropped reset (y_spool y)) in
      y <| y_spool := s |> <| y_session := Some (newSession now_ now_) |>
        <| y_up := resendSnapshots snapshots s |>
    end
  | ADrain now_ ok =>
    let '(s, pc, out, res) := drain_step unmarshal now_ ok (y_pc y) (y_spool y) in
    let y := y <| y_spool := s |> <| y_pc := pc |> <| y_up ::= λ up, up ++ out |> in
    match res with Failed => disconnect y | _ => y end
  | AServer now_ limit send_ok =>
    match y_session y, y_up y with
    | Some session, msg :: up =>
      let '(r, events) := handleMessage now_ limit send_ok msg session in
      answer r (y <| y_up := up |> <| y_dispatched ::= λ l, l ++ events |>)
    | _, _ => y
    end
  | ATick now_ send_ok =>
    match y_session y with
    | Some session => answer (handleTick now_ send_ok session) y
    | None => y
    end
  | AReceive now_ ok =>
    match y_down y with
    | msg :: down => y <| y_spool ::= receive now_ ok msg |> <| y_down := down |>
    | [] => y
    end
  | ADisconnect => disconnect y
  | ADiscard => disconnect y <| y_spool ::= Discard |>
  | ARestart =>
    disconnect y <| y_spool := NewSpool (sp_cfg (y_spool y)) (sp_store (y_spool y)) |> <| y_flushing := [] |>
  end.

Fixpoint run (l : list action) (y : system) : system :=
  match l with [] => y | a :: l => run l (step a y) end.

(** A collector never numbers its events: only the drain does. *)
Definition unnumbered (a : action) : Prop :=
  match a with ACollect _ _ evt => ae_Seq evt = 0 | _ => True end.
End Wire.

Definition init (cfg : SpoolConfig) (store : option spoolStore) : system :=
  MkSystem (NewSpool cfg store) PIdle [] [] [] None [].

(** The lifecycle of [runEnrolled] and [Push] this abstracts: [AConnect] is a
    dial that authenticated, then [ResetDropped], [Attach] and
    [resendSnapshots]; [ADisconnect] is the end of the stream, seen by both
    sides; [ARestart] a crash, which keeps the file of the store only. *)

Definition rows (y : system) : list spool_row :=
  match sp_store (y_spool y) with Some store => ss_rows store | None => [] end.
