(* ===== verification/SpoolInvariant.v ===== *)
(** * The invariant of the spool's protocol

    Over the machine of [SpoolProtocol]: what is acknowledged, on its way down or
    only known to the server's session has been handed to the dispatcher, and no
    row is skipped between two events of the stream.  Here, the invariant and
    the steps of the agent that leave its cursors alone or move them back. *)

From S2P Require Import Prelude.
From S2P Require Import Tables.
From S2P Require Import AgentSpool.
From S2P Require Import AckTracker.
From S2P Require Import SpoolProtocol.

#[local] Open Scope string_scope.
#[local] Open Scope list_scope.
#[local] Open Scope Z_scope.

(** Goals that every branch of an operation leaves a field alone. *)
Ltac kept_tac := repeat case_match; simplify_eq/=; done.

(** ** Sequences without gaps

    [linked P p l]: between [p] and the first element of [l], and between two
    neighbours of [l], every number satisfies [P]. *)

Section Linked.
Context (P : Z → Prop).

Fixpoint linked (p : Z) (l : list Z) : Prop :=
  match l with
  | [] => True
  | q :: l => (∀ x, p < x < q → P x) ∧ linked q l
  end.

Lemma linked_last p l z n :
  (∀ x, x < n → x < z ∨ P x) → linked p (l ++ [z]) → linked p (l ++ [n]).
Proof.
  intros Hn. revert p. induction l as [|q l IH]; intros p; cbn; [|by intros [? ?%IH]].
  intros [Hz _]. split; [|done]. intros x Hx. destruct (Hn x); [lia|apply Hz; lia|done].
Qed.

Lemma linked_snoc p l n : linked p (l ++ [n]) → linked p ((l ++ [n]) ++ [n + 1]).
Proof.
  revert p. induction l as [|q l IH]; intros p; cbn; [|by intros [? ?%IH]].
  intros [? _]. split_and!; [done| |done]. intros x ?. lia.
Qed.

(** The gap before the head is closed while nothing is refused; a refusal opens
    it until what was refused comes back. *)
Definition path (refused : Z) (l : list Z) : Prop := ∃ p, (refused = 0 → p ≤ 0) ∧ linked p l.

Lemma path_last refused l z n :
  (∀ x, x < n → x < z ∨ P x) → path refused (l ++ [z]) → path refused (l ++ [n]).
Proof. intros Hn (p & Hp & Hl). exists p. split; [done|]. by eapply linked_last. Qed.

Lemma path_snoc refused l n : path refused (l ++ [n]) → path refused ((l ++ [n]) ++ [n + 1]).
Proof. intros (p & Hp & Hl). exists p. split; [done|]. by apply linked_snoc. Qed.

Lemma path_head n l : path 0 (n :: l) → (∀ x, x ≤ 0 → P x) → ∀ x, x < n → P x.
Proof.
  intros (p & Hp & Hg & _) H0 x Hx. specialize (Hp eq_refl).
  destruct (decide (x ≤ 0)); [by apply H0|apply Hg; lia].
Qed.

Lemma path_tail refused refused' n l :
  path refused (n :: l) → (refused' = 0 → ∀ x, x ≤ n → P x) → path refused' l.
Proof.
  intros (p & Hp & _ & Hl) Hn. destruct (decide (refused' = 0)) as [->|]; [|by exists n].
  specialize (Hn eq_refl). destruct l as [|m l]; [by exists 0|]. destruct Hl as [Hg Hl].
  exists 0. split; [done|]. split; [|done]. intros x Hx.
  destruct (decide (x ≤ n)); [by apply Hn|apply Hg; lia].
Qed.
End Linked.

Lemma linked_mono (P P' : Z → Prop) p l b :
  Forall (λ q, q ≤ b) l → (∀ x, x < b → P x → P' x) → linked P p l → linked P' p l.
Proof.
  intros Hb HP. revert p. induction Hb as [|q l Hq Hb IH]; intros p; cbn; [done|].
  intros [Hg Hl]. split; [|by apply IH]. intros x Hx. apply HP; [lia|by apply Hg].
Qed.

Lemma path_mono (P P' : Z → Prop) refused l b :
  Forall (λ q, q ≤ b) l → (∀ x, x < b → P x → P' x) → path P refused l → path P' refused l.
Proof. intros Hb HP (p & Hp & Hl). exists p. split; [done|]. by eapply linked_mono. Qed.

Lemma path_weaken (P P' : Z → Prop) refused l :
  (∀ x, P x → P' x) → path P refused l → path P' refused l.
Proof.
  intros HP (p & Hp & Hl). exists p. split; [done|]. clear Hp. revert p Hl.
  induction l as [|q l IH]; intros p; cbn; [done|]. intros [? ?%IH]. auto.
Qed.

Lemma sorted_sublist {A} (R : relation A) l1 l2 :
  l1 `sublist_of` l2 → StronglySorted R l2 → StronglySorted R l1.
Proof.
  induction 1 as [|x l1 l2 Hs IH|x l1 l2 Hs IH]; intros Hl; [done|..];
    apply StronglySorted_inv in Hl as [Hl Hx]; [|by apply IH].
  constructor; [by apply IH|]. rewrite Forall_forall in Hx |- *. intros z Hz.
  apply Hx. eapply elem_of_submseteq; [exact Hz|by apply sublist_submseteq].
Qed.

Section Wire.
Context {unmarshal : string → option AgentEvent}.

(** ** The invariant *)

Definition genuine (r : spool_row) (evt : AgentEvent) : Prop :=
  ∃ attachedAt evt0, unmarshal (sr_payload r) = Some evt0 ∧ evt = replay attachedAt r evt0.

(** A row the agent may forget: nobody can read it, or the dispatcher had it. *)
Definition settled (r : spool_row) (D : list AgentEvent) : Prop :=
  unmarshal (sr_payload r) = None ∨ ∃ evt, evt ∈ D ∧ genuine r evt.

Definition settled_at (rs : list spool_row) (D : list AgentEvent) (x : Z) : Prop :=
  ∀ r, r ∈ rs → sr_seq r = x → settled r D.

Definition bounded (s : Spool) (x : Z) : Prop := ∀ store, sp_store s = Some store → x ≤ ss_last store.

Definition upto (y : system) (x : Z) : Prop :=
  bounded (y_spool y) x ∧ ∀ z, z ≤ x → settled_at (rows y) (y_dispatched y) z.

Definition numbered (msg : upward) : option Z :=
  match msg with
  | UEvent evt => if bool_decide (ae_Seq evt = 0) then None else Some (ae_Seq evt)
  | UStatus _ => None
  end.

Definition nums (up : list upward) : list Z := omap numbered up.

Record wf_store (store : spoolStore) : Prop := {
  wf_sorted : StronglySorted Z.lt (sr_seq <$> ss_rows store);
  wf_range : ∀ r, r ∈ ss_rows store → 0 < sr_seq r ≤ ss_last store;
  wf_last : 0 ≤ ss_last store;
}.

(** What a batch read from the store still says of it: past [c], it holds every
    stored row up to its own last one. *)
Record covers (rs : list spool_row) (c : Z) (batch : list spool_row) : Prop := {
  cov_sorted : StronglySorted Z.lt (sr_seq <$> batch);
  cov_above : ∀ b, b ∈ batch → c < sr_seq b;
  cov_all : ∀ r b, r ∈ rs → b ∈ batch → c < sr_seq r ≤ sr_seq b → r ∈ batch;
}.

(** A row of a batch is still the row of its sequence. *)
Definition fits (s : Spool) (rs : list spool_row) (b : spool_row) : Prop :=
  0 < sr_seq b ∧ bounded s (sr_seq b) ∧ ∀ r, r ∈ rs → sr_seq r = sr_seq b → r = b.

Definition batch_of (pc : drain_pc) : list spool_row :=
  match pc with
  | PIdle => []
  | PBatch _ _ batch => batch
  | PSend _ _ _ row batch | PSent _ _ row batch => row :: batch
  end.

Definition generation_of (pc : drain_pc) : Z :=
  match pc with PIdle => 0 | PBatch gen _ _ | PSend gen _ _ _ _ | PSent gen _ _ _ => gen end.

(** The last row sent: the send cursor, or the row about to be recorded. *)
Definition cursor (s : Spool) (pc : drain_pc) : Z :=
  match pc with
  | PSent gen _ row _ => if bool_decide (sp_generation s = gen) then sr_seq row else sp_sendSeq s
  | _ => sp_sendSeq s
  end.

Definition pc_covers (s : Spool) (rs : list spool_row) (pc : drain_pc) : Prop :=
  match pc with
  | PIdle => True
  | PBatch gen _ batch => sp_generation s = gen → covers rs (sp_sendSeq s) batch
  | PSend gen _ evt row batch =>
    unmarshal (sr_payload row) = Some evt ∧ (sp_generation s = gen → covers rs (sp_sendSeq s) (row :: batch))
  | PSent gen _ row batch => sp_generation s = gen → covers rs (sr_seq row) batch
  end.

Record Inv (y : system) : Prop := {
  i_store : ∀ store, sp_store (y_spool y) = Some store → wf_store store;
  i_snapshots : ∀ k evt, sp_snapshots (y_spool y) !! k = Some evt → ae_Seq evt = 0;
  i_sendSeq : bounded (y_spool y) (sp_sendSeq (y_spool y));
  i_ackSeq : upto y (sp_ackSeq (y_spool y));
  i_down : ∀ n, SMAck n ∈ y_down y → upto y n;
  i_nums : ∀ n, n ∈ nums (y_up y) → 0 < n ∧ bounded (y_spool y) n;
  i_genuine : ∀ evt r, UEvent evt ∈ y_up y → r ∈ rows y → sr_seq r = ae_Seq evt → genuine r evt;
  i_batch : ∀ b, b ∈ batch_of (y_pc y) → fits (y_spool y) (rows y) b;
  i_generation : 0 ≤ generation_of (y_pc y) ≤ sp_generation (y_spool y);
  i_covers : pc_covers (y_spool y) (rows y) (y_pc y);
  i_none : y_session y = None → y_pc y = PIdle ∧ sp_sink (y_spool y) = false ∧ y_up y = [];
  i_highest : ∀ sess, y_session y = Some sess → upto y (ak_highest (ps_acks sess));
  i_refused : ∀ sess, y_session y = Some sess → 0 ≤ ak_refused (ps_acks sess) ∧
    (0 < ak_refused (ps_acks sess) → upto y (ak_refused (ps_acks sess) - 1));
  i_path : ∀ sess, y_session y = Some sess →
    path (settled_at (rows y) (y_dispatched y)) (ak_refused (ps_acks sess))
      (nums (y_up y) ++ [cursor (y_spool y) (y_pc y) + 1]);
  i_send : ∀ sess gen at_ evt row batch, y_session y = Some sess → y_pc y = PSend gen at_ evt row batch →
    path (settled_at (rows y) (y_dispatched y)) (ak_refused (ps_acks sess))
      (nums (y_up y) ++ [sr_seq row]);
  i_stale : ∀ gen at_ evt row batch, y_pc y = PSend gen at_ evt row batch →
    sp_generation (y_spool y) ≠ gen → upto y (sp_sendSeq (y_spool y));
}.

(** ** Changes of the store *)

Definition evolves (o o' : option spoolStore) : Prop :=
  ∀ store', o' = Some store' → ∃ store, o = Some store ∧ ss_last store ≤ ss_last store' ∧
    (wf_store store → wf_store store') ∧
    ∀ r, r ∈ ss_rows store' → r ∈ ss_rows store ∨ ss_last store < sr_seq r.

(** The store and what waits in memory may have changed, not the cursors. *)
Record evolved (s s' : Spool) : Prop := {
  ev_store : evolves (sp_store s) (sp_store s');
  ev_sink : sp_sink s' = sp_sink s;
  ev_sendSeq : sp_sendSeq s' = sp_sendSeq s;
  ev_generation : sp_generation s' = sp_generation s;
}.

Lemma evolves_refl o : evolves o o.
Proof. intros st ->. exists st. split_and!; [done|lia|tauto|by left]. Qed.

Lemma evolved_refl s : evolved s s.
Proof. split; [apply evolves_refl|done..]. Qed.

Lemma evolved_trans s1 s2 s3 : evolved s1 s2 → evolved s2 s3 → evolved s1 s3.
Proof.
  intros [H1 ???] [H2 ???]. split; [|congruence..].
  intros st3 (st2 & (st1 & E1 & L1 & W1 & R1)%H1 & L2 & W2 & R2)%H2.
  exists st1. split_and!; [done|lia|tauto|]. intros r [[?|?]%R1|?]%R2; [by left|by right|right; lia].
Qed.

Lemma bounded_evolves s s' x : evolves (sp_store s) (sp_store s') → bounded s x → bounded s' x.
Proof. intros He Hb st' (st & E & L & _)%He. specialize (Hb _ E). lia. Qed.

(** The rows of the new store below a bounded number were in the old one. *)
Lemma rows_evolves y y' x r :
  evolves (sp_store (y_spool y)) (sp_store (y_spool y')) → bounded (y_spool y) x →
  r ∈ rows y' → sr_seq r ≤ x → r ∈ rows y.
Proof.
  unfold rows. intros He Hb. destruct (sp_store (y_spool y')) as [st'|] eqn:E'; [|by intros ?%not_elem_of_nil].
  destruct (He _ eq_refl) as (st & E & L & _ & R). rewrite E. intros [?|?]%R; [done|].
  specialize (Hb _ E). lia.
Qed.

Lemma settled_mono r (D D' : list AgentEvent) : D ⊆ D' → settled r D → settled r D'.
Proof. intros HD [?|(e & He & ?)]; [by left|right; exists e]. split; [by apply HD|done]. Qed.

Lemma settled_at_evolves y y' b x :
  evolves (sp_store (y_spool y)) (sp_store (y_spool y')) → y_dispatched y ⊆ y_dispatched y' →
  bounded (y_spool y) b → x ≤ b →
  settled_at (rows y) (y_dispatched y) x → settled_at (rows y') (y_dispatched y') x.
Proof.
  intros He HD Hb Hx Hs r Hr <-. eapply settled_mono; [exact HD|]. eapply Hs; [|done].
  by eapply rows_evolves.
Qed.

Lemma upto_evolves y y' x :
  evolves (sp_store (y_spool y)) (sp_store (y_spool y')) → y_dispatched y ⊆ y_dispatched y' →
  upto y x → upto y' x.
Proof.
  intros He HD [Hb Hs]. split; [by eapply bounded_evolves|].
  intros z Hz. eapply settled_at_evolves; eauto.
Qed.

Lemma fits_evolves y y' b :
  evolves (sp_store (y_spool y)) (sp_store (y_spool y')) →
  fits (y_spool y) (rows y) b → fits (y_spool y') (rows y') b.
Proof.
  intros He (Hp & Hb & Hu). split_and!; [done|by eapply bounded_evolves|].
  intros r Hr E. apply Hu; [|done]. eapply rows_evolves; [done..|lia].
Qed.

Lemma covers_evolves y y' c batch :
  evolves (sp_store (y_spool y)) (sp_store (y_spool y')) →
  (∀ b, b ∈ batch → bounded (y_spool y) (sr_seq b)) →
  covers (rows y) c batch → covers (rows y') c batch.
Proof.
  intros He Hb [H1 H2 H3]. split; [done..|]. intros r b Hr Hbb Hc.
  eapply H3; [|done..]. eapply rows_evolves; [done|by apply Hb|done|lia].
Qed.

Lemma path_evolves y y' refused l :
  evolves (sp_store (y_spool y)) (sp_store (y_spool y')) → y_dispatched y ⊆ y_dispatched y' →
  (∀ store, sp_store (y_spool y) = Some store → Forall (λ n, n ≤ ss_last store + 1) l) →
  path (settled_at (rows y) (y_dispatched y)) refused l →
  path (settled_at (rows y') (y_dispatched y')) refused l.
Proof.
  intros He HD Hl Hp. destruct (sp_store (y_spool y')) as [st'|] eqn:E'.
  - rewrite <- E' in He. destruct (He _ E') as (st & E & _). eapply path_mono; [by apply Hl| |exact Hp].
    intros x Hx. eapply (settled_at_evolves y y' (ss_last st)); [done..| |lia].
    intros st0 E0. rewrite E in E0. by injection E0 as <-.
  - destruct Hp as (p & Hp & _). exists p. split; [done|]. clear Hp.
    unfold rows. rewrite E'. revert p. induction l as [|q l IH]; intros p; [done|].
    split; [|apply IH]. { intros x Hx r Hr. by apply not_elem_of_nil in Hr. }
    intros st E. specialize (Hl _ E). by inversion Hl.
Qed.

(** ** Steps that leave the cursors *)

Lemma cursor_bounded y : Inv y → bounded (y_spool y) (cursor (y_spool y) (y_pc y)).
Proof.
  intros HI. unfold cursor. destruct (y_pc y) as [| | |gen at_ row batch] eqn:E; try apply (i_sendSeq _ HI).
  split_guard; [|apply (i_sendSeq _ HI)].
  apply (i_batch _ HI). rewrite E. apply list_elem_of_here.
Qed.

Lemma nums_bounded y z :
  Inv y → bounded (y_spool y) (z - 1) →
  ∀ store, sp_store (y_spool y) = Some store → Forall (λ n, n ≤ ss_last store + 1) (nums (y_up y) ++ [z]).
Proof.
  intros HI Hz store E. apply Forall_app. split.
  - apply Forall_forall. intros n [_ Hn]%(i_nums _ HI). specialize (Hn _ E). lia.
  - specialize (Hz _ E). repeat constructor. lia.
Qed.

Lemma nums_app l l' : nums (l ++ l') = nums l ++ nums l'.
Proof. apply omap_app. Qed.

Lemma nums_unnumbered out evt : nums out = [] → UEvent evt ∈ out → ae_Seq evt = 0.
Proof.
  intros Ho He. destruct (decide (ae_Seq evt = 0)) as [|Hn]; [done|]. exfalso.
  apply (not_elem_of_nil (ae_Seq evt)). rewrite <- Ho. apply list_elem_of_omap.
  exists (UEvent evt). split; [done|]. cbn. by rewrite bool_decide_false.
Qed.

Lemma rows_store y r : r ∈ rows y → ∃ store, sp_store (y_spool y) = Some store ∧ r ∈ ss_rows store.
Proof. unfold rows. destruct (sp_store (y_spool y)); [eauto|by intros ?%not_elem_of_nil]. Qed.

Lemma rows_pos y r : Inv y → r ∈ rows y → 0 < sr_seq r.
Proof.
  intros HI (store & E & Hr)%rows_store.
  destruct (wf_range _ (i_store _ HI _ E) _ Hr). lia.
Qed.

Lemma pc_covers_evolved y y' :
  Inv y → evolved (y_spool y) (y_spool y') → y_pc y' = y_pc y →
  pc_covers (y_spool y') (rows y') (y_pc y').
Proof.
  intros HI [He _ Hs Hg] ->. pose proof (i_covers _ HI) as Hc.
  assert (Hb : ∀ b, b ∈ batch_of (y_pc y) → bounded (y_spool y) (sr_seq b)) by (intros ? (_&?&_)%(i_batch _ HI); done).
  destruct (y_pc y); cbn in *; rewrite ?Hs, ?Hg.
  - done.
  - intros E. eapply covers_evolves; [done..|by apply Hc].
  - split; [tauto|]. intros E. eapply covers_evolves; [done..|]. by apply Hc.
  - intros E. eapply covers_evolves; [done| |by apply Hc]. intros b Hbb. apply Hb. by right.
Qed.

Lemma cursor_evolved s s' pc : evolved s s' → cursor s' pc = cursor s pc.
Proof. intros [_ _ H G]. destruct pc; cbn; by rewrite ?H, ?G. Qed.

Lemma Inv_quiet y y' out :
  Inv y → evolved (y_spool y) (y_spool y') → y_pc y' = y_pc y → y_session y' = y_session y →
  (∀ n, SMAck n ∈ y_down y' → upto y n) → upto y (sp_ackSeq (y_spool y')) →
  y_dispatched y ⊆ y_dispatched y' →
  y_up y' = y_up y ++ out → nums out = [] → (y_session y = None → out = []) →
  (∀ k evt, sp_snapshots (y_spool y') !! k = Some evt → ae_Seq evt = 0) → Inv y'.
Proof.
  intros HI Hev Epc Ess Edn Eak HD Eup Hout Hnone Hsn.
  assert (Hn : nums (y_up y') = nums (y_up y)) by (by rewrite Eup, nums_app, Hout, app_nil_r).
  pose proof (pc_covers_evolved _ _ HI Hev Epc) as Hcov.
  pose proof (cursor_evolved _ _ (y_pc y) Hev) as Hcur.
  destruct (Hev) as [He Esk Esd Eg].
  split; rewrite ?Epc, ?Ess, ?Hn, ?Esk, ?Esd, ?Hcur; [idtac|assumption|idtac..].
  - intros st' (st & E & _ & Hw & _)%He. apply Hw, (i_store _ HI _ E).
  - eapply bounded_evolves; [done|apply (i_sendSeq _ HI)].
  - eapply upto_evolves; [done..|exact Eak].
  - intros n H. eapply upto_evolves; [done..|by apply Edn].
  - intros n [? ?]%(i_nums _ HI). split; [done|by eapply bounded_evolves].
  - intros evt r Hu Hr E. rewrite Eup in Hu. apply elem_of_app in Hu as [Hu|Hu].
    + assert (Hs : ae_Seq evt ≠ 0). { intros E0. destruct (rows_store _ _ Hr) as (st' & Es & Hr').
        destruct (He _ Es) as (st & E1 & _ & Hw & _).
        destruct (wf_range _ (Hw (i_store _ HI _ E1)) _ Hr'). lia. }
      apply (i_genuine _ HI); [done| |done].
      eapply rows_evolves; [done| |done|rewrite E; reflexivity].
      apply (i_nums _ HI). apply list_elem_of_omap. exists (UEvent evt). split; [done|].
      cbn. by rewrite bool_decide_false.
    + apply (nums_unnumbered _ _ Hout) in Hu. destruct (rows_store _ _ Hr) as (st' & Es & Hr').
      destruct (He _ Es) as (st & E1 & _ & Hw & _).
      destruct (wf_range _ (Hw (i_store _ HI _ E1)) _ Hr'). lia.
  - intros b Hb. eapply fits_evolves; [done|by apply (i_batch _ HI)].
  - rewrite Eg. apply (i_generation _ HI).
  - by rewrite <- Epc.
  - intros En. destruct (i_none _ HI En) as (?&?&E). by rewrite Eup, E, Hnone.
  - intros sess E. eapply upto_evolves; [done..|by apply (i_highest _ HI)].
  - intros sess E. destruct (i_refused _ HI _ E) as [? Hr]. split; [done|].
    intros Hp. eapply upto_evolves; [done..|by apply Hr].
  - intros sess E. eapply path_evolves; [done..| |by apply (i_path _ HI)].
    apply nums_bounded; [done|]. rewrite Z.add_simpl_r. by apply cursor_bounded.
  - intros sess gen at_ evt row batch E Ep.
    eapply path_evolves; [done..| |by eapply (i_send _ HI)].
    apply nums_bounded; [done|]. intros st Est.
    destruct (i_batch _ HI row) as (_ & Hb & _); [rewrite Ep; apply list_elem_of_here|].
    specialize (Hb _ Est). lia.
  - rewrite Eg. intros gen at_ evt row batch Ep Hne. eapply upto_evolves; [done..|by eapply (i_stale _ HI)].
Qed.

(** *** What the operations of the spool do to it *)

Lemma evolves_filter (P : spool_row → Prop) `{∀ r, Decision (P r)} store dropped :
  evolves (Some store) (Some (MkStore (filter P (ss_rows store)) (ss_last store) dropped)).
Proof.
  intros ? [= <-]. exists store. split_and!; cbn; [done|lia| |].
  - intros [H1 H2 H3]. split; cbn; [|by intros r [? ?]%list_elem_of_filter; auto|done].
    eapply sorted_sublist; [|exact H1]. apply fmap_sublist, sublist_filter.
  - intros r [_ ?]%list_elem_of_filter. by left.
Qed.

Lemma new_rows_seq last events r :
  r ∈ new_rows last events → last < sr_seq r ≤ last + Z.of_nat (length events).
Proof.
  revert last. induction events as [|e events IH]; intros last; cbn [new_rows length].
  - by intros ?%not_elem_of_nil.
  - intros [->|H%IH]%elem_of_cons; cbn [row_of sr_seq]; lia.
Qed.

Lemma new_rows_sorted last events : StronglySorted Z.lt (sr_seq <$> new_rows last events).
Proof.
  revert last. induction events as [|e events IH]; intros last; [constructor|].
  cbn. constructor; [apply IH|]. apply Forall_forall. intros x (r & -> & Hr)%list_elem_of_fmap.
  apply new_rows_seq in Hr. lia.
Qed.

Lemma Append_wf events store : wf_store store → wf_store (Append events store).
Proof.
  intros [H1 H2 H3]. split; cbn; [|intros r [[??]%H2|?%new_rows_seq]%elem_of_app; lia|lia].
  rewrite fmap_app. apply StronglySorted_app. split_and!; [|done|apply new_rows_sorted].
  intros x y (r & -> & [_ Hr]%H2)%list_elem_of_fmap (r' & -> & Hr'%new_rows_seq)%list_elem_of_fmap. lia.
Qed.

Lemma evolves_append events o : evolves o (Append events <$> o).
Proof.
  intros ? (store & -> & ->)%fmap_Some. exists store. split_and!; [done|cbn; lia|apply Append_wf|].
  intros r [?|?%new_rows_seq]%elem_of_app; [by left|right; lia].
Qed.

Lemma evolves_dropped store store' dropped :
  evolves (Some store) (Some store') →
  evolves (Some store) (Some (store' <| ss_dropped_since_connect := dropped |>)).
Proof.
  intros H ? [= <-]. destruct (H _ eq_refl) as (st & E & ? & Hw & ?).
  exists st. split_and!; [done..| |done]. intros [???]%Hw. by split.
Qed.

Lemma DeleteOldestBytes_evolves target store : evolves (Some store) (Some (DeleteOldestBytes target store).1).
Proof.
  unfold DeleteOldestBytes. case_match; cbn; [apply evolves_filter|apply evolves_refl].
Qed.

Lemma evolved_store s o : evolves (sp_store s) o → evolved s (s <| sp_store := o |>).
Proof. by split. Qed.

(** The operations that leave what was acknowledged and the snapshots alone. *)
Definition kept (s s' : Spool) : Prop := sp_ackSeq s' = sp_ackSeq s ∧ sp_snapshots s' = sp_snapshots s.

Lemma same_sendSeq s : s <| sp_sendSeq := sp_sendSeq s |> = s.
Proof. by destruct s. Qed.

Lemma flush_end_evolved ok batch s : evolved s (flush_end ok batch s).
Proof. destruct ok; split; try done; cbn; [apply evolves_append|apply evolves_refl]. Qed.

Lemma trimMemoryLocked_evolved s : evolved s (trimMemoryLocked s).
Proof.
  unfold trimMemoryLocked. destruct (trim_memory _ _ _) as [[buf bytes] n].
  split; try done. apply evolves_refl.
Qed.

Lemma flush_take_evolved s : evolved s (flush_take s).1.
Proof.
  unfold flush_take. split_guard; [apply evolved_refl|]. destruct (sp_store s) eqn:E; cbn.
  - split; try done. apply evolves_refl.
  - apply trimMemoryLocked_evolved.
Qed.

Lemma enforceDiskBudget_evolved env s : evolved s (enforceDiskBudget env s).1.
Proof.
  unfold enforceDiskBudget. split_guard; [apply evolved_refl|].
  destruct (sp_store s) as [store|] eqn:E; [|apply evolved_refl].
  destruct (be_size env) as [size|]; [|apply evolved_refl]. split_guard; [apply evolved_refl|].
  destruct (be_delete env); [|apply evolved_refl]. cbn [negb].
  pose proof (DeleteOldestBytes_evolves (size - MaxDiskBytes (sp_cfg s) + MaxDiskBytes (sp_cfg s) ÷ 10) store) as Hd.
  destruct (DeleteOldestBytes _ store) as [store' dropped]. cbn in Hd. rewrite <- E in Hd.
  split_guard; [by apply evolved_store|].
  destruct (be_reclaim env); [|by apply evolved_store]. destruct (be_meta env); apply evolved_store; [|done].
  unfold addDropped. split_guard; [done|]. rewrite E in *. by apply evolves_dropped.
Qed.

Lemma purgeExpired_evolved now_ ok reclaimed s : evolved s (purgeExpired now_ ok reclaimed s).1.
Proof.
  unfold purgeExpired. split_guard; [apply evolved_refl|].
  destruct (sp_store s) as [store|] eqn:E; [|apply evolved_refl].
  destruct ok; [|apply evolved_refl]. apply evolved_store. rewrite E. apply evolves_filter.
Qed.

Lemma ResetDropped_evolved ok s : evolved s (ResetDropped ok s).
Proof.
  unfold ResetDropped. destruct ok; split; try done; [|apply evolves_refl]. cbn.
  destruct (sp_store s) as [store|]; [|done]. apply evolves_dropped, evolves_refl.
Qed.

Lemma reportStatus_evolved force reads snt s :
  evolved s (reportStatus force reads snt s).1 ∧ nums (reportStatus force reads snt s).2 = [].
Proof.
  unfold reportStatus. destruct reads; [|by split; [apply evolved_refl|]]. cbn zeta.
  split; [split; try done; apply evolves_refl|]. by repeat case_match.
Qed.

Lemma reportStatus_detached force reads snt s :
  sp_sink s = false → (reportStatus force reads snt s).2 = [].
Proof. intros E. unfold reportStatus. destruct reads; [|done]. cbn. by rewrite E. Qed.

Lemma flush_end_kept ok batch s : kept s (flush_end ok batch s).
Proof. by destruct ok. Qed.

Lemma flush_take_kept s : kept s (flush_take s).1.
Proof. unfold flush_take, trimMemoryLocked. kept_tac. Qed.

Lemma enforceDiskBudget_kept env s : kept s (enforceDiskBudget env s).1.
Proof. unfold enforceDiskBudget. kept_tac. Qed.

Lemma purgeExpired_kept now_ ok reclaimed s : kept s (purgeExpired now_ ok reclaimed s).1.
Proof. unfold purgeExpired. kept_tac. Qed.

Lemma reportStatus_kept force reads snt s : kept s (reportStatus force reads snt s).1.
Proof. unfold reportStatus. kept_tac. Qed.

(** A step that only works on the spool. *)
Lemma Inv_spool y s' flushing :
  Inv y → evolved (y_spool y) s' → kept (y_spool y) s' →
  Inv (y <| y_spool := s' |> <| y_flushing := flushing |>).
Proof.
  intros HI He [Ha Hs]. eapply (Inv_quiet y _ []); try done; cbn.
  - apply (i_down _ HI).
  - rewrite Ha. apply (i_ackSeq _ HI).
  - by rewrite app_nil_r.
  - rewrite Hs. apply (i_snapshots _ HI).
Qed.

(** *** Acknowledgements and limits *)

Lemma Acked_evolved ok seq s : evolved s (Acked ok seq s).
Proof.
  unfold Acked. repeat split_guard; try apply evolved_refl. destruct ok; split; try done; cbn.
  - destruct (sp_store s); [apply evolves_filter|done].
  - apply evolves_refl.
Qed.

Lemma Acked_inv y ok seq down :
  Inv y → upto y seq → (∀ n, SMAck n ∈ down → SMAck n ∈ y_down y) →
  Inv (y <| y_spool ::= Acked ok seq |> <| y_down := down |>).
Proof.
  intros HI Hs Hd. eapply (Inv_quiet y _ []); try done; cbn.
  - apply Acked_evolved.
  - intros n Hn. by apply (i_down _ HI), Hd.
  - unfold Acked. repeat split_guard; try apply (i_ackSeq _ HI). by destruct ok.
  - by rewrite app_nil_r.
  - intros k evt. unfold Acked. repeat split_guard; try destruct ok; apply (i_snapshots _ HI).
Qed.

Lemma Rewind_inv y now_ down :
  Inv y → (∀ n, SMAck n ∈ down → SMAck n ∈ y_down y) →
  Inv (y <| y_spool ::= λ s, Rewind s <| sp_pausedUntil := now_ |> |> <| y_down := down |>).
Proof.
  intros HI Hd. destruct (i_ackSeq _ HI) as [Hb Hack]. pose proof (i_generation _ HI) as Hg.
  assert (Hcur : cursor (Rewind (y_spool y) <| sp_pausedUntil := now_ |>) (y_pc y) = sp_ackSeq (y_spool y)).
  { destruct (y_pc y); cbn in *; try done. by rewrite bool_decide_false by lia. }
  split; cbn -[cursor nums]; try apply HI.
  - intros n Hn. by apply (i_down _ HI), Hd.
  - lia.
  - pose proof (i_covers _ HI) as Hc. destruct (y_pc y); cbn in *; [done|lia|split; [tauto|lia]|lia].
  - intros sess E. match goal with |- context [cursor ?s ?pc] =>
      replace (cursor s pc) with (sp_ackSeq (y_spool y)) by (symmetry; exact Hcur) end.
    eapply path_last; [|by apply (i_path _ HI)].
    intros x Hx. right. apply Hack. lia.
  - intros. apply (i_ackSeq _ HI).
Qed.
End Wire.

(** *** Reading

    What [ReadFrom] gives of a well-formed store. *)

Lemma sorted_seq_inj (rs : list spool_row) r1 r2 :
  StronglySorted Z.lt (sr_seq <$> rs) → r1 ∈ rs → r2 ∈ rs → sr_seq r1 = sr_seq r2 → r1 = r2.
Proof.
  induction rs as [|r rs IH]; [by intros _ ?%not_elem_of_nil|]. cbn.
  intros [Hs Hr]%StronglySorted_inv H1 H2 E. rewrite Forall_forall in Hr.
  apply elem_of_cons in H1, H2. destruct H1 as [->|H1], H2 as [->|H2]; [done|..|by apply IH].
  - specialize (Hr _ (list_elem_of_fmap_2 sr_seq _ _ H2)). lia.
  - specialize (Hr _ (list_elem_of_fmap_2 sr_seq _ _ H1)). lia.
Qed.

Lemma sorted_by_key (rs : list spool_row) :
  StronglySorted Z.lt (sr_seq <$> rs) → StronglySorted (by_key sr_seq) rs.
Proof.
  induction rs as [|r rs IH]; [constructor|]. cbn. intros [Hs Hr]%StronglySorted_inv.
  constructor; [by apply IH|]. rewrite Forall_fmap in Hr. eapply Forall_impl; [exact Hr|].
  intros x. unfold by_key. cbn. lia.
Qed.

Lemma order_by_sorted (rs : list spool_row) :
  StronglySorted Z.lt (sr_seq <$> rs) → order_by sr_seq rs = rs.
Proof.
  intros Hs. unfold order_by.
  assert (Hp : merge_sort (by_key sr_seq) rs ≡ₚ rs) by apply merge_sort_Permutation.
  apply (StronglySorted_unique_strong (by_key sr_seq)); [| |by apply sorted_by_key|done].
  - intros x1 x2 H1 H2 L1 L2. rewrite Hp in H1. eapply sorted_seq_inj; [exact Hs|done..|].
    unfold by_key in *. lia.
  - apply StronglySorted_merge_sort; unfold by_key; intros ??; [intros ???|]; lia.
Qed.

Lemma ReadFrom_wf after limit store :
  wf_store store → ReadFrom after limit store = take limit (filter (λ r, after < sr_seq r) (ss_rows store)).
Proof.
  intros Hw. unfold ReadFrom. rewrite order_by_sorted; [done|].
  eapply sorted_sublist; [|apply (wf_sorted _ Hw)]. apply fmap_sublist, sublist_filter.
Qed.

Lemma ReadFrom_elem after limit store r :
  wf_store store → r ∈ ReadFrom after limit store → after < sr_seq r ∧ r ∈ ss_rows store.
Proof.
  intros Hw. rewrite ReadFrom_wf by done. intros (i & Hi & _)%elem_of_take.
  by apply list_elem_of_lookup_2, list_elem_of_filter in Hi.
Qed.

Lemma ReadFrom_covers after limit store :
  wf_store store → covers (ss_rows store) after (ReadFrom after limit store).
Proof.
  intros Hw. split; [|by intros b [? _]%ReadFrom_elem|].
  - rewrite ReadFrom_wf by done. eapply sorted_sublist; [|apply (wf_sorted _ Hw)].
    apply fmap_sublist. etransitivity; [apply sublist_take|apply sublist_filter].
  - intros r b Hr Hb Hle. rewrite ReadFrom_wf in * by done.
    set (l := filter _ _) in *. assert (Hl : r ∈ l) by (apply list_elem_of_filter; split; [lia|done]).
    assert (Hsort : StronglySorted Z.lt (sr_seq <$> l))
      by (eapply sorted_sublist; [apply fmap_sublist, sublist_filter|apply (wf_sorted _ Hw)]).
    rewrite <- (take_drop limit l) in Hl, Hsort. apply elem_of_app in Hl as [Hl|Hl]; [done|].
    rewrite fmap_app in Hsort. assert (sr_seq b < sr_seq r); [|lia].
    eapply StronglySorted_app_1_elem_of; [exact Hsort|by apply list_elem_of_fmap_2..].
Qed.

Lemma nums_snapshots s n :
  (∀ k evt, sp_snapshots s !! k = Some evt → ae_Seq evt = 0) → nums (resendSnapshots n s) = [].
Proof.
  intros Hs. unfold resendSnapshots. destruct (sp_sink s); [|done].
  assert (H : ∀ msg, msg ∈ take n (UEvent <$> (map_to_list (sp_snapshots s)).*2) → numbered msg = None).
  { intros msg (i & Hi & _)%elem_of_take. apply list_elem_of_lookup_2 in Hi.
    apply list_elem_of_fmap in Hi as (evt & -> & ([k ?] & -> & Hin)%list_elem_of_fmap). apply elem_of_map_to_list, Hs in Hin. cbn in *. by rewrite bool_decide_true. }
  induction (take _ _) as [|msg l IH]; [done|]. cbn. rewrite (H msg) by apply list_elem_of_here.
  apply IH. intros. apply H. by right.
Qed.

(** *** Collecting

    A collector's event goes to memory, or up unnumbered. *)

Section Collect.
Context (marshal : AgentEvent → option string).

Lemma Send_queue_evolved now_ snt evt s :
  ae_Seq evt = 0 →
  evolved s (Send_queue marshal now_ snt evt s).1.1 ∧ nums (Send_queue marshal now_ snt evt s).1.2 = [].
Proof.
  intros H0. unfold Send_queue, sendSnapshot, enqueue.
  destruct (Enabled (sp_cfg s)); cbn [negb]; [|destruct (sp_sink s); cbn [negb]].
  - destruct (snapshotOf evt); [|destruct (marshal evt)]; cbn;
      (split; [split; try done; apply evolves_refl|]); try done.
    destruct (sp_sink s && snt); [cbn; by rewrite bool_decide_true|done].
  - destruct snt; (split; [apply evolved_refl|]); cbn; [by rewrite bool_decide_true|done].
  - split; [apply evolved_refl|done].
Qed.

Lemma Send_queue_snapshots now_ snt evt s k evt' :
  ae_Seq evt = 0 → (∀ k evt, sp_snapshots s !! k = Some evt → ae_Seq evt = 0) →
  sp_snapshots (Send_queue marshal now_ snt evt s).1.1 !! k = Some evt' → ae_Seq evt' = 0.
Proof.
  intros H0 Hs. unfold Send_queue, sendSnapshot, enqueue.
  repeat case_match; simplify_eq/=; try by apply Hs.
  all: intros [[_ <-]|[_ ?]]%lookup_insert_Some; [done|by eapply Hs].
Qed.

(** Nothing goes up while no stream is attached. *)
Lemma Send_queue_detached now_ snt evt s :
  sp_sink s = false → (Send_queue marshal now_ snt evt s).1.2 = [].
Proof.
  intros E. unfold Send_queue, sendSnapshot, enqueue. rewrite E. by repeat case_match; simplify_eq/=.
Qed.

Lemma Send_queue_ackSeq now_ snt evt s :
  sp_ackSeq (Send_queue marshal now_ snt evt s).1.1 = sp_ackSeq s.
Proof. unfold Send_queue, sendSnapshot, enqueue. kept_tac. Qed.
End Collect.
