(* ===== verification/SpoolDelivery.v ===== *)
(** * At-least-once delivery

    The server, the new streams and the drain keep the invariant of
    [SpoolInvariant]; so every interleaving does, and no event is lost between
    the agent's store and the server's dispatcher. *)

From S2P Require Import Prelude.
From S2P Require Import Tables.
From S2P Require Import AgentSpool.
From S2P Require Import AckTracker.
From S2P Require Import SpoolProtocol.
From S2P Require Import SpoolInvariant.

#[local] Open Scope string_scope.
#[local] Open Scope list_scope.
#[local] Open Scope Z_scope.

Section Wire.
Context {marshal : AgentEvent → option string} {unmarshal : string → option AgentEvent}.

#[local] Abbreviation genuine := (@genuine unmarshal).
#[local] Abbreviation settled := (@settled unmarshal).
#[local] Abbreviation settled_at := (@settled_at unmarshal).
#[local] Abbreviation upto := (@upto unmarshal).
#[local] Abbreviation pc_covers := (@pc_covers unmarshal).
#[local] Abbreviation Inv := (@Inv unmarshal).

(** *** The server *)

Lemma settled_at_mono rs (D D' : list AgentEvent) x :
  D ⊆ D' → settled_at rs D x → settled_at rs D' x.
Proof. intros HD H r Hr E. eapply settled_mono; [exact HD|]. by apply H. Qed.

Lemma upto_dispatched y y' x :
  y_spool y' = y_spool y → y_dispatched y ⊆ y_dispatched y' → upto y x → upto y' x.
Proof. intros E HD. apply upto_evolves; [|done]. rewrite E. apply evolves_refl. Qed.

Lemma settled_at_0 y D x : Inv y → x ≤ 0 → settled_at (rows y) D x.
Proof. intros HI Hx r Hr E. pose proof (rows_pos _ _ HI Hr). lia. Qed.

(** What a step of the server has to show: the new tracker never runs ahead of
    what is dispatched, and the gaps between what is still to come are closed. *)
Lemma Inv_server y y' sess sess' :
  Inv y → y_session y = Some sess → y_session y' = Some sess' →
  y_spool y' = y_spool y → y_pc y' = y_pc y → y_dispatched y ⊆ y_dispatched y' →
  (∀ msg, msg ∈ y_up y' → msg ∈ y_up y) →
  (∀ n, SMAck n ∈ y_down y' → SMAck n ∈ y_down y ∨ upto y' n) →
  upto y' (ak_highest (ps_acks sess')) →
  0 ≤ ak_refused (ps_acks sess') →
  (0 < ak_refused (ps_acks sess') → upto y' (ak_refused (ps_acks sess') - 1)) →
  (∀ z, path (settled_at (rows y) (y_dispatched y)) (ak_refused (ps_acks sess)) (nums (y_up y) ++ [z]) →
    path (settled_at (rows y) (y_dispatched y')) (ak_refused (ps_acks sess')) (nums (y_up y') ++ [z])) →
  Inv y'.
Proof.
  intros HI Es Es' Esp Epc HD Hup Hdn Hh Hr0 Hr Hp.
  assert (Erows : rows y' = rows y) by (unfold rows; by rewrite Esp).
  split; rewrite ?Esp, ?Epc, ?Erows; try apply HI.
  - eapply upto_dispatched; [done..|apply (i_ackSeq _ HI)].
  - intros n [H|H]%Hdn; [|done]. eapply upto_dispatched; [done..|by apply (i_down _ HI)].
  - intros n (m & Hm%Hup & E)%list_elem_of_omap. apply (i_nums _ HI). apply list_elem_of_omap. eauto.
  - intros evt r ?%Hup. by apply (i_genuine _ HI).
  - by rewrite Es'.
  - rewrite Es'. intros ? [= <-]. done.
  - rewrite Es'. intros ? [= <-]. done.
  - rewrite Es'. intros ? [= <-]. by apply Hp, (i_path _ HI).
  - rewrite Es'. intros ? gen at_ evt row batch [= <-] E. apply Hp. by eapply (i_send _ HI).
  - intros gen at_ evt row batch E Hne. eapply upto_dispatched; [done..|by eapply (i_stale _ HI)].
Qed.

Lemma upto_next y y' n :
  Inv y → y_spool y' = y_spool y → y_dispatched y ⊆ y_dispatched y' →
  bounded (y_spool y) n → (∀ x, x < n → settled_at (rows y) (y_dispatched y) x) →
  settled_at (rows y) (y_dispatched y') n → upto y' n.
Proof.
  intros HI Esp HD Hb Hlt Hn. split; [by rewrite Esp|]. intros z Hz.
  assert (rows y' = rows y) as -> by (unfold rows; by rewrite Esp).
  destruct (decide (z = n)) as [->|]; [done|]. eapply settled_at_mono; [done|]. apply Hlt. lia.
Qed.

Lemma accept_cases seq a :
  seq ≠ 0 → 0 ≤ ak_refused a →
  0 < ak_refused a < seq ∧ ak_refused (accept seq a) = ak_refused a ∧ ak_highest (accept seq a) = ak_highest a ∨
  0 < ak_refused a ∧ seq ≤ ak_refused a ∧ ak_refused (accept seq a) = 0 ∧ ak_highest (accept seq a) = seq ∨
  ak_refused a = 0 ∧ ak_refused (accept seq a) = 0 ∧ ak_highest (accept seq a) = Z.max (ak_highest a) seq.
Proof.
  intros Hn Hr. unfold accept. rewrite bool_decide_false by done. cbn.
  repeat split_guard; cbn; [left|right; left|right; right]; split_and!; lia.
Qed.

Lemma refuse_cases seq a :
  seq ≠ 0 → 0 ≤ ak_refused a →
  ak_highest (refuse seq a) = ak_highest a ∧
  ((ak_refused a = 0 ∨ seq < ak_refused a) ∧ ak_refused (refuse seq a) = seq ∨
   0 < ak_refused a ≤ seq ∧ ak_refused (refuse seq a) = ak_refused a).
Proof.
  intros Hn Hr. unfold refuse. rewrite bool_decide_false by done.
  repeat split_guard; cbn; split; lia.
Qed.

(** What the head of the stream is worth when it is numbered. *)
Lemma head_facts y evt up n :
  Inv y → y_up y = UEvent evt :: up → n = ae_Seq evt → n ≠ 0 →
  nums (y_up y) = n :: nums up ∧ 0 < n ∧ bounded (y_spool y) n ∧
  ∀ D, evt ∈ D → settled_at (rows y) D n.
Proof.
  intros HI Eup -> Hn.
  assert (E : nums (y_up y) = ae_Seq evt :: nums up) by (rewrite Eup; cbn; by rewrite bool_decide_false).
  destruct (i_nums _ HI (ae_Seq evt)) as [Hp Hb]; [rewrite E; apply list_elem_of_here|].
  split_and!; [done..|]. intros D HD r Hr Er. right. exists evt. split; [done|].
  apply (i_genuine _ HI); [rewrite Eup; apply list_elem_of_here|done..].
Qed.

(** Where the gaps are closed up to the head, it is safe up to the head. *)
Lemma path_head_upto y y' n l :
  Inv y → y_spool y' = y_spool y → y_dispatched y ⊆ y_dispatched y' → bounded (y_spool y) n →
  path (settled_at (rows y) (y_dispatched y)) 0 (n :: l) → upto y' (n - 1).
Proof.
  intros HI Esp HD Hb Hp. eapply upto_dispatched; [done..|]. split.
  - intros st Est. specialize (Hb _ Est). lia.
  - intros z Hz. eapply path_head; [exact Hp| |lia]. intros x. by apply settled_at_0.
Qed.

Lemma upto_succ y n : upto y (n - 1) → bounded (y_spool y) n → settled_at (rows y) (y_dispatched y) n → upto y n.
Proof.
  intros [_ Hs] Hb Hn. split; [done|]. intros z Hz. destruct (decide (z = n)) as [->|]; [done|].
  apply Hs. lia.
Qed.

Lemma upto_le y x z : upto y x → z ≤ x → upto y z.
Proof. intros [Hb Hs] Hz. split; [intros st E; specialize (Hb _ E); lia|]. intros; apply Hs; lia. Qed.

(** The session takes one event from the stream, and accepts or refuses it. *)
Lemma handled_inv y y' sess sess' evt up :
  Inv y → y_session y = Some sess → y_up y = UEvent evt :: up →
  y' = y <| y_up := up |> <| y_dispatched := y_dispatched y' |> <| y_session := Some sess' |>
         <| y_down := y_down y' |> →
  (∀ n, SMAck n ∈ y_down y' → SMAck n ∈ y_down y) →
  y_dispatched y ⊆ y_dispatched y' →
  evt ∈ y_dispatched y' ∧ ps_acks sess' = accept (ae_Seq evt) (ps_acks sess) ∨
  ps_acks sess' = refuse (ae_Seq evt) (ps_acks sess) → Inv y'.
Proof.
  intros HI Es Eup Ey Hdn HD Hcase.
  destruct (i_refused _ HI _ Es) as [Hr0 Hr].
  pose proof (upto_dispatched y y' _ ltac:(by rewrite Ey) HD (i_highest _ HI _ Es)) as Hh.
  assert (Hr' : 0 < ak_refused (ps_acks sess) → upto y' (ak_refused (ps_acks sess) - 1))
    by (intros ?%Hr; apply (upto_dispatched y y'); [by rewrite Ey|done..]).
  assert (Esp : y_spool y' = y_spool y) by (by rewrite Ey).
  assert (Erows : rows y' = rows y) by (unfold rows; by rewrite Esp).
  assert (HI' : ak_highest (ps_acks sess') = ak_highest (ps_acks sess) ∨ upto y' (ak_highest (ps_acks sess')) →
    0 ≤ ak_refused (ps_acks sess') →
    (0 < ak_refused (ps_acks sess') → upto y' (ak_refused (ps_acks sess') - 1)) →
    (∀ z, path (settled_at (rows y) (y_dispatched y)) (ak_refused (ps_acks sess)) (nums (y_up y) ++ [z]) →
      path (settled_at (rows y) (y_dispatched y')) (ak_refused (ps_acks sess')) (nums up ++ [z])) → Inv y').
  { intros Hhi Hre0 Hre Hp. apply (Inv_server y y' sess sess'); try done; try (by rewrite Ey).
    - rewrite Ey. cbn. rewrite Eup. by right.
    - intros n Hn. left. by apply Hdn.
    - by destruct Hhi as [->|]. }
  assert (HDx : ∀ x, settled_at (rows y) (y_dispatched y) x → settled_at (rows y) (y_dispatched y') x)
    by (intros x; by apply settled_at_mono).
  destruct (decide (ae_Seq evt = 0)) as [Hn|Hn].
  { assert (ak_highest (ps_acks sess') = ak_highest (ps_acks sess) ∧ ak_refused (ps_acks sess') = ak_refused (ps_acks sess)) as [E1 E2]
      by (unfold accept, refuse in Hcase; rewrite Hn in Hcase; destruct Hcase as [[_ ->]| ->]; done).
    rewrite E1, E2 in *. apply HI'; [by left|done..|]. intros z. rewrite Eup. cbn. rewrite Hn. cbn.
    by apply path_weaken. }
  destruct (head_facts y evt up _ HI Eup eq_refl Hn) as (En & Hpos & Hb & Hset).
  rewrite En in HI'. set (n := ae_Seq evt) in *.
  assert (Hhead : ∀ z, ak_refused (ps_acks sess) = 0 →
    path (settled_at (rows y) (y_dispatched y)) (ak_refused (ps_acks sess)) ((n :: nums up) ++ [z]) → upto y' (n - 1)).
  { intros z E. rewrite E. by apply path_head_upto. }
  assert (Hmid : ∀ z, path (settled_at (rows y) (y_dispatched y)) (ak_refused (ps_acks sess)) ((n :: nums up) ++ [z]) →
    ak_refused (ps_acks sess') ≠ 0 ∨ upto y' n →
    path (settled_at (rows y) (y_dispatched y')) (ak_refused (ps_acks sess')) (nums up ++ [z])).
  { intros z Hp Hor. eapply (path_tail _ _ _ n); [eapply path_weaken; [exact HDx|exact Hp]|].
    intros E0. destruct Hor as [|[_ Hz]]; [done|]. rewrite <- Erows. exact Hz. }
  pose proof (i_path _ HI _ Es) as Hpath. rewrite En in Hpath.
  destruct Hcase as [[Hin E]|E].
  - specialize (Hset _ Hin). assert (Hsucc : upto y' (n - 1) → upto y' n)
      by (intros ?; apply upto_succ; [done|by rewrite Esp|by rewrite Erows]).
    destruct (accept_cases n (ps_acks sess) Hn Hr0) as [(?&E1&E2)|[(?&?&E1&E2)|(?&E1&E2)]];
      rewrite <- E in E1, E2.
    + rewrite <- E1 in Hr'. apply HI'; [by left|lia|done|]. intros z Hp. apply Hmid; [done|left; lia].
    + assert (Hu : upto y' n) by (apply Hsucc; eapply upto_le; [by apply Hr'|lia]).
      apply HI'; [right; by rewrite E2|lia|lia|]. intros z Hp. apply Hmid; [done|by right].
    + assert (Hu : upto y' n) by (by eapply Hsucc, Hhead).
      apply HI'; [right; rewrite E2|lia|lia|].
      * destruct (Z.max_spec (ak_highest (ps_acks sess)) n) as [[_ ->]|[_ ->]]; done.
      * intros z Hp. apply Hmid; [done|by right].
  - destruct (refuse_cases n (ps_acks sess) Hn Hr0) as [E2 [[Hor E1]|[? E1]]]; rewrite <- E in E1, E2.
    + apply HI'; [by left|lia| |].
      * rewrite E1. intros _. destruct Hor as [H0|Hlt]; [by eapply Hhead|].
        eapply upto_le; [apply Hr'; lia|lia].
      * intros z Hp. apply Hmid; [done|left; lia].
    + rewrite <- E1 in Hr'. apply HI'; [by left|lia|done|]. intros z Hp. apply Hmid; [done|left; lia].
Qed.

Lemma disconnect_inv y : Inv y → Inv (disconnect y).
Proof.
  intros HI. split; cbn; try done; try apply HI; try (by intros ? ?%not_elem_of_nil).
  - intros evt r Hu. by apply not_elem_of_nil in Hu.
  - pose proof (i_generation _ HI). lia.
Qed.

(** An acknowledgement may be sent: it names the highest sequence accepted. *)
Lemma sendAck_inv y sess now_ ok seq :
  Inv y → y_session y = Some sess → ak_highest (ps_acks sess) = seq →
  Inv (answer (sendAck now_ ok seq sess) y).
Proof.
  intros HI Es <-. unfold sendAck. destruct ok; cbn [answer]; [|by apply disconnect_inv].
  assert (Hh := i_highest _ HI _ Es). destruct (i_refused _ HI _ Es) as [Hr0 Hr].
  eapply (Inv_server y _ sess); try done; cbn.
  intros n [?|[= ->]%list_elem_of_singleton]%elem_of_app; [by left|by right].
Qed.

Lemma pending_highest a seq : pending a = Some seq → ak_highest a = seq.
Proof. unfold pending. by split_guard; intros [= <-]. Qed.

Lemma handleTick_inv y sess now_ ok :
  Inv y → y_session y = Some sess → Inv (answer (handleTick now_ ok sess) y).
Proof.
  intros HI Es. unfold handleTick. destruct (pending _) as [seq|] eqn:E.
  - by apply sendAck_inv, pending_highest.
  - cbn. destruct y; cbn in *. subst. by rewrite app_nil_r.
Qed.

Lemma touchLiveness_acks now_ sess : ps_acks (touchLiveness now_ sess) = ps_acks sess.
Proof. unfold touchLiveness. by split_guard. Qed.

Lemma answer_session r sess y : answer r (y <| y_session := sess |>) = answer r y.
Proof. by destruct r as [[]|]. Qed.

Lemma handleEvent_inv y sess sess0 evt up now_ limit ok :
  Inv y → y_session y = Some sess → ps_acks sess0 = ps_acks sess → y_up y = UEvent evt :: up →
  Inv (answer (handleEvent now_ limit ok evt sess0).1
    (y <| y_up := up |> <| y_dispatched ::= λ l, l ++ (handleEvent now_ limit ok evt sess0).2 |>)).
Proof.
  intros HI Es Ea Eup. unfold handleEvent, rateLimited. destruct limit as [retryAfter|]; cbn.
  - eapply (handled_inv y); try done; cbn.
    + intros n [?|H%list_elem_of_singleton]%elem_of_app; done.
    + set_solver.
    + right. by rewrite Ea.
  - set (sess1 := sess0 <| ps_acks ::= accept (ae_Seq evt) |>).
    set (y1 := y <| y_up := up |> <| y_dispatched ::= λ l, l ++ [evt] |> <| y_session := Some sess1 |>).
    assert (HI1 : Inv y1).
    { apply (handled_inv y y1 sess sess1 evt up); try done; [set_solver|].
      left. split; [set_solver|by cbn; rewrite Ea]. }
    case_match eqn:Ep; cbn.
    + rewrite <- (answer_session _ (Some sess1)). apply sendAck_inv; [exact HI1|done|].
      unfold afterEvent in Ep. case_match; [done|by apply pending_highest].
    + destruct y; cbn in *. by rewrite app_nil_r.
Qed.

Lemma handleMessage_inv y sess msg up now_ limit ok :
  Inv y → y_session y = Some sess → y_up y = msg :: up →
  Inv (answer (handleMessage now_ limit ok msg sess).1
    (y <| y_up := up |> <| y_dispatched ::= λ l, l ++ (handleMessage now_ limit ok msg sess).2 |>)).
Proof.
  intros HI Es Eup. unfold handleMessage. destruct msg as [evt|st]; cbn zeta.
  - eapply handleEvent_inv; [done..| |done]. apply touchLiveness_acks.
  - cbn. rewrite !app_nil_r. destruct (i_refused _ HI _ Es) as [Hr0 Hr].
    eapply (Inv_server y _ sess (touchLiveness now_ sess)); try done; cbn; rewrite ?touchLiveness_acks.
    + by rewrite Eup; right.
    + by left.
    + apply (i_highest _ HI _ Es).
    + done.
    + exact Hr.
    + by rewrite Eup.
Qed.

(** *** A new stream *)

Lemma upto_spool y y' x :
  sp_store (y_spool y') = sp_store (y_spool y) → y_dispatched y' = y_dispatched y → upto y x → upto y' x.
Proof. intros E E'. apply upto_evolves; [rewrite E; apply evolves_refl|by rewrite E']. Qed.

Lemma connect_inv y now_ snapshots :
  Inv y → y_session y = None →
  Inv (y <| y_spool ::= Attach now_ |> <| y_session := Some (newSession now_ now_) |>
    <| y_up := resendSnapshots snapshots (Attach now_ (y_spool y)) |>).
Proof.
  intros HI Es. destruct (i_none _ HI Es) as (Epc & Esk & Eup).
  pose proof (nums_snapshots (Attach now_ (y_spool y)) snapshots (i_snapshots _ HI)) as Hn.
  pose proof (i_generation _ HI) as Hg.
  assert (H0 : upto y 0).
  { split; [|intros; by apply settled_at_0]. intros st E. apply (wf_last _ (i_store _ HI _ E)). }
  split; cbn -[nums resendSnapshots Attach]; rewrite ?Epc, ?Hn; cbn -[nums resendSnapshots Attach]; try apply HI; try done.
  - by intros n ?%not_elem_of_nil.
  - intros evt r Hu Hr E. apply (nums_unnumbered _ _ Hn) in Hu.
    pose proof (rows_pos y r HI Hr). lia.
  - by intros b ?%not_elem_of_nil.
  - cbn. lia.
  - intros ? [= <-]. exact H0.
  - by intros ? [= <-].
  - intros ? [= <-]. exists 0. split; [done|]. split; [|done]. intros x Hx.
    apply (i_ackSeq _ HI). cbn in Hx. lia.
Qed.

Lemma Discard_inv y : Inv y → Inv (disconnect y <| y_spool ::= Discard |>).
Proof.
  intros HI%disconnect_inv.
  assert (Hev : evolved (y_spool (disconnect y)) (Discard (y_spool (disconnect y)))) by (split; done).
  exact (Inv_spool (disconnect y) _ (y_flushing y) HI Hev (conj eq_refl eq_refl)).
Qed.

Lemma restart_inv y cfg flushing :
  Inv y → Inv (disconnect y <| y_spool := NewSpool cfg (sp_store (y_spool y)) |> <| y_flushing := flushing |>).
Proof.
  intros HI%disconnect_inv. set (y' := _ <| y_flushing := flushing |>).
  assert (Est : sp_store (y_spool y') = sp_store (y_spool y) ∨ sp_store (y_spool y') = None)
    by (cbn; destruct (Enabled cfg); [by left|by right]).
  assert (Hwf : ∀ st, sp_store (y_spool y') = Some st → wf_store st)
    by (intros st E; apply (i_store _ HI); destruct Est as [Est|Est]; [exact (eq_trans (eq_sym Est) E)|by rewrite Est in E]).
  assert (H0 : upto y' 0).
  { split; [intros st E; apply (wf_last _ (Hwf _ E))|]. intros z Hz r (st & E & Hr)%rows_store Er.
    destruct (wf_range _ (Hwf _ E) _ Hr). lia. }
  split; try done; try apply H0; cbn; try (by intros ? ?%not_elem_of_nil); try lia.
  intros evt r Hu. by apply not_elem_of_nil in Hu.
Qed.

Lemma receive_inv y msg down now_ ok :
  Inv y → y_down y = msg :: down →
  Inv (y <| y_spool ::= receive now_ ok msg |> <| y_down := down |>).
Proof.
  intros HI E. assert (Hd : ∀ n, SMAck n ∈ down → SMAck n ∈ y_down y) by (rewrite E; by right).
  destruct msg as [seq|code retryMs]; [|cbn; split_guard].
  - apply Acked_inv; [done| |done]. apply (i_down _ HI). rewrite E. apply list_elem_of_here.
  - by apply Rewind_inv.
  - eapply (Inv_quiet y _ []); try done; [apply evolved_refl|..]; cbn.
    + intros m Hm. by apply (i_down _ HI), Hd.
    + apply (i_ackSeq _ HI).
    + by rewrite app_nil_r.
    + apply (i_snapshots _ HI).
Qed.

(** *** The drain *)

Lemma covers_next rs c row batch :
  covers rs c (row :: batch) → covers rs (sr_seq row) batch.
Proof.
  intros [H1 H2 H3]. cbn in H1. apply StronglySorted_inv in H1 as [Hs Hr].
  rewrite Forall_fmap, Forall_forall in Hr. split; [done|exact Hr|].
  intros r b Hin Hb Hle. assert (Hin' : r ∈ row :: batch).
  { apply (H3 r b); [done|by right|]. specialize (H2 row (list_elem_of_here _ _)). lia. }
  apply elem_of_cons in Hin' as [->|]; [lia|done].
Qed.

(** Between the cursor and the head of what covers the store, no row is left. *)
Lemma covers_gap rs D c row batch x :
  covers rs c (row :: batch) → x < sr_seq row → x < c + 1 ∨ settled_at rs D x.
Proof.
  intros [Hs _ Ha] Hx. destruct (decide (x ≤ c)); [left; lia|right].
  intros r Hr E. exfalso. assert (Hin : r ∈ row :: batch).
  { apply (Ha r row); [done|apply list_elem_of_here|lia]. }
  apply elem_of_cons in Hin as [->|Hin]; [lia|]. cbn in Hs.
  apply StronglySorted_inv in Hs as [_ Hrow]. rewrite Forall_fmap, Forall_forall in Hrow.
  specialize (Hrow _ Hin). cbn in Hrow. lia.
Qed.

Lemma Inv_pc y c pc :
  Inv y → bounded (y_spool y) c →
  (∀ b, b ∈ batch_of pc → fits (y_spool y) (rows y) b) →
  0 ≤ generation_of pc ≤ sp_generation (y_spool y) →
  pc_covers (y_spool y <| sp_sendSeq := c |>) (rows y) pc →
  (y_session y = None → pc = PIdle) →
  (∀ sess, y_session y = Some sess →
    path (settled_at (rows y) (y_dispatched y)) (ak_refused (ps_acks sess))
      (nums (y_up y) ++ [cursor (y_spool y <| sp_sendSeq := c |>) pc + 1])) →
  (∀ sess gen at_ evt row batch, y_session y = Some sess → pc = PSend gen at_ evt row batch →
    sp_generation (y_spool y) = gen ∧
    path (settled_at (rows y) (y_dispatched y)) (ak_refused (ps_acks sess)) (nums (y_up y) ++ [sr_seq row])) →
  Inv (y <| y_spool ::= λ s, s <| sp_sendSeq := c |> |> <| y_pc := pc |>).
Proof.
  intros HI Hb Hf Hg Hc Hn Hp Hs. split; try exact Hb; try apply HI; try done.
  - cbn. intros E. destruct (i_none _ HI E) as (?&?&?). split_and!; [by apply Hn|done..].
  - cbn. intros sess gen at_ evt row batch E Ep. by destruct (Hs _ _ _ _ _ _ E Ep).
  - cbn. intros gen at_ evt row batch Ep Hne. destruct (y_session y) as [sess|] eqn:E.
    + by destruct (Hs _ _ _ _ _ _ eq_refl Ep).
    + rewrite Hn in Ep; done.
Qed.

(** The path up to a row that closes the gap after the cursor. *)
Lemma path_row y sess c row batch :
  Inv y → y_session y = Some sess → covers (rows y) c (row :: batch) → cursor (y_spool y) (y_pc y) = c →
  path (settled_at (rows y) (y_dispatched y)) (ak_refused (ps_acks sess)) (nums (y_up y) ++ [sr_seq row]).
Proof.
  intros HI Es Hc Ec. eapply path_last; [|by apply (i_path _ HI)]. rewrite Ec.
  intros x Hx. by eapply covers_gap.
Qed.

Definition drained (y : system) (r : Spool * drain_pc * list upward * drain_result) : system :=
  let '(s, pc, out, _) := r in y <| y_spool := s |> <| y_pc := pc |> <| y_up ::= λ up, up ++ out |>.

Lemma drained_same y pc : y_pc y = pc → Inv y → Inv (drained y (y_spool y, pc, [], Continue)).
Proof. intros <-. destruct y; cbn. by rewrite app_nil_r. Qed.

Lemma drained_pc y c pc res :
  drained y (y_spool y <| sp_sendSeq := c |>, pc, [], res) =
  y <| y_spool ::= λ s, s <| sp_sendSeq := c |> |> <| y_pc := pc |>.
Proof. destruct y; cbn. by rewrite app_nil_r. Qed.

(** Giving up a batch. *)
Lemma idle_inv y :
  Inv y → cursor (y_spool y) (y_pc y) = sp_sendSeq (y_spool y) →
  Inv (drained y (y_spool y, PIdle, [], Continue)).
Proof.
  intros HI Ec. rewrite <- (same_sendSeq (y_spool y)) at 1. rewrite drained_pc.
  pose proof (i_generation _ HI). apply Inv_pc; try done; cbn; rewrite ?Ec.
  - apply (i_sendSeq _ HI).
  - by intros b ?%not_elem_of_nil.
  - lia.
  - rewrite <- Ec. apply (i_path _ HI).
Qed.

(** Moving the cursor to the row just done. *)
Lemma advance_inv y gen at_ row batch :
  Inv y → batch_of (y_pc y) = row :: batch → generation_of (y_pc y) = gen →
  (sp_generation (y_spool y) = gen → covers (rows y) (sr_seq row) batch) →
  (sp_generation (y_spool y) ≠ gen → cursor (y_spool y) (y_pc y) = sp_sendSeq (y_spool y)) →
  (∀ sess, y_session y = Some sess → sp_generation (y_spool y) = gen →
    path (settled_at (rows y) (y_dispatched y)) (ak_refused (ps_acks sess)) (nums (y_up y) ++ [sr_seq row + 1])) →
  Inv (let '(s, moved) := advance gen (sr_seq row) (y_spool y) in
       drained y (s, if moved then PBatch gen at_ batch else PIdle, [], Continue)).
Proof.
  intros HI Eb Eg Hc Hcur Hp. unfold advance. pose proof (i_generation _ HI) as Hg.
  destruct (bool_decide_reflect (sp_generation (y_spool y) = gen)); [|by apply idle_inv, Hcur].
  rewrite drained_pc. apply Inv_pc; try done; cbn.
  - apply (i_batch _ HI). rewrite Eb. apply list_elem_of_here.
  - intros b Hb. apply (i_batch _ HI). rewrite Eb. by right.
  - by rewrite <- Eg.
  - intros E. destruct (i_none _ HI E) as (Epc & _). by rewrite Epc in Eb.
  - intros sess E. by apply Hp.
Qed.

(** Reading a batch. *)
Lemma read_inv y store :
  Inv y → sp_store (y_spool y) = Some store → sp_sink (y_spool y) = true → y_pc y = PIdle →
  Inv (drained y (y_spool y, PBatch (sp_generation (y_spool y)) (sp_attachedAt (y_spool y))
    (ReadFrom (sp_sendSeq (y_spool y)) spoolDrainBatch store), [], Continue)).
Proof.
  intros HI Est Esk Epc. rewrite <- (same_sendSeq (y_spool y)) at 1. rewrite drained_pc.
  pose proof (i_store _ HI _ Est) as Hw. pose proof (i_generation _ HI) as Hg. rewrite Epc in Hg. cbn in Hg.
  assert (Hr : rows y = ss_rows store) by (unfold rows; by rewrite Est).
  apply Inv_pc; try done; cbn -[ReadFrom].
  - apply (i_sendSeq _ HI).
  - intros b [_ Hb]%ReadFrom_elem; [|done]. destruct (wf_range _ Hw _ Hb) as [? Hle]. split_and!; [lia|..].
    + intros st E. rewrite Est in E. by injection E as <-.
    + rewrite Hr. intros r Hin E. by eapply sorted_seq_inj; [apply (wf_sorted _ Hw)|..].
  - lia.
  - intros _. rewrite Hr. by apply ReadFrom_covers.
  - intros E. destruct (i_none _ HI E) as (_ & E' & _). congruence.
  - pose proof (i_path _ HI) as Hp. rewrite Epc in Hp. exact Hp.
Qed.

(** Taking the head of a batch. *)
Lemma head_inv y gen at_ row batch :
  Inv y → y_pc y = PBatch gen at_ (row :: batch) →
  Inv (let '(s, pc, out, _) := drain_step unmarshal 0 true (y_pc y) (y_spool y) in
       drained y (s, pc, out, Continue)).
Proof.
  intros HI Epc. pose proof (i_covers _ HI) as Hc. rewrite Epc in Hc |- *. cbn in Hc. cbn -[advance].
  assert (Ecur : cursor (y_spool y) (y_pc y) = sp_sendSeq (y_spool y)) by (by rewrite Epc).
  destruct (unmarshal (sr_payload row)) as [evt|] eqn:Eu.
  - unfold sameGeneration. destruct (bool_decide_reflect (sp_generation (y_spool y) = gen)) as [Eg|]; [|by apply idle_inv].
    change (Inv (drained y (y_spool y, PSend gen at_ evt row batch, [], Continue))).
    rewrite <- (same_sendSeq (y_spool y)) at 1. rewrite drained_pc.
    pose proof (i_generation _ HI). apply Inv_pc; try done; cbn.
    + apply (i_sendSeq _ HI).
    + intros b Hb. apply (i_batch _ HI). by rewrite Epc.
    + lia.
    + intros E. destruct (i_none _ HI E) as (E' & _). by rewrite Epc in E'.
    + rewrite <- Ecur. apply (i_path _ HI).
    + intros sess ????? E [= <- <- <- <- <-]. split; [done|]. by eapply path_row; [..|apply Hc|].
  - pose proof (advance_inv y gen at_ row batch HI) as Ha. rewrite Epc in Ha.
    destruct (advance gen (sr_seq row) (y_spool y)) as [s moved]. apply Ha; try done.
    + intros Eg. by eapply covers_next, Hc.
    + intros sess Es Eg. eapply path_last; [|by apply (i_path _ HI)]. rewrite Ecur. intros x Hx.
      destruct (decide (x = sr_seq row)) as [->|]; [|eapply covers_gap; [by apply Hc|lia]].
      right. intros r Hr E. left. destruct (i_batch _ HI row) as (_ & _ & Hu); [rewrite Epc; apply list_elem_of_here|].
      by rewrite (Hu r).
Qed.

(** Sending it. *)
Lemma send_inv y gen at_ evt row batch :
  Inv y → y_pc y = PSend gen at_ evt row batch →
  Inv (drained y (y_spool y, PSent gen at_ row batch, [UEvent (replay at_ row evt)], Continue)).
Proof.
  intros HI Epc. pose proof (i_covers _ HI) as Hc. rewrite Epc in Hc. destruct Hc as [Eu Hc].
  pose proof (i_batch _ HI) as Hf. rewrite Epc in Hf. destruct (Hf row) as (Hpos & Hb & Hu); [apply list_elem_of_here|].
  pose proof (i_generation _ HI) as Hg. rewrite Epc in Hg.
  assert (Hn : nums (y_up y ++ [UEvent (replay at_ row evt)]) = nums (y_up y) ++ [sr_seq row]).
  { rewrite nums_app. cbn. by rewrite bool_decide_false by lia. }
  assert (Hs : y_session y ≠ None). { intros E. destruct (i_none _ HI E) as (E' & _). by rewrite Epc in E'. }
  split; cbn -[nums cursor]; rewrite ?Hn; try apply HI; try done.
  - intros n [Hin|Hin]%elem_of_app; [by apply (i_nums _ HI)|].
    by apply list_elem_of_singleton in Hin as ->.
  - intros e r [Hin|[= ->]%list_elem_of_singleton]%elem_of_app Hr E; [by apply (i_genuine _ HI)|].
    rewrite (Hu r Hr E). by exists at_, evt.
  - intros Eg. by apply covers_next with (sp_sendSeq (y_spool y)), Hc.
  - intros sess Es. eapply path_last; [|apply path_snoc; by eapply (i_send _ HI)].
    cbn. destruct (bool_decide_reflect (sp_generation (y_spool y) = gen)) as [Eg|Eg]; intros x Hx; [by left|right].
    apply (i_stale _ HI _ _ _ _ _ Epc Eg). lia.
Qed.

Lemma drain_inv y now_ ok :
  Inv y → Inv (step marshal unmarshal (ADrain now_ ok) y).
Proof.
  intros HI. cbn [step]. destruct (y_pc y) as [|gen at_ [|row batch]|gen at_ evt row batch|gen at_ row batch] eqn:Epc.
  - cbn -[ReadFrom]. destruct (sp_store (y_spool y)) as [store|] eqn:Est.
    2: exact (drained_same _ _ Epc HI).
    destruct (sp_sink (y_spool y)) eqn:Esk; cbn -[ReadFrom];
      [|exact (drained_same _ _ Epc HI)].
    split_guard; [exact (drained_same _ _ Epc HI)|].
    destruct ok; cbn -[ReadFrom]; [|exact (disconnect_inv _ (drained_same _ _ Epc HI))].
    pose proof (read_inv y store HI Est Esk Epc) as Hr.
    destruct (ReadFrom _ _ store); [exact (drained_same _ _ Epc HI)|exact Hr].
  - apply (idle_inv y HI). by rewrite Epc.
  - pose proof (head_inv y gen at_ row batch HI Epc) as Hh. rewrite Epc in Hh.
    cbn -[advance] in Hh |- *. by destruct (unmarshal (sr_payload row)); [|destruct (advance _ _ _)].
  - destruct ok; cbn; [by eapply (send_inv y)|].
    exact (disconnect_inv _ (drained_same _ _ Epc HI)).
  - cbn -[advance]. pose proof (i_covers _ HI) as Hc. rewrite Epc in Hc.
    pose proof (advance_inv y gen at_ row batch HI) as Ha. rewrite Epc in Ha.
    destruct (advance gen (sr_seq row) (y_spool y)) as [s moved]. apply Ha; try done.
    + intros Hne. cbn. by rewrite bool_decide_false.
    + intros sess Es Eg. pose proof (i_path _ HI _ Es) as Hp. rewrite Epc in Hp. cbn in Hp.
      by rewrite bool_decide_true in Hp.
Qed.

(** ** Every interleaving *)

Lemma step_inv a y : unnumbered a → Inv y → Inv (step marshal unmarshal a y).
Proof.
  intros Ha HI. destruct a; cbn [step].
  - destruct (Send_queue_evolved marshal now_ sent evt (y_spool y) Ha) as [Hev Hn].
    pose proof (λ k evt', Send_queue_snapshots marshal now_ sent evt (y_spool y) k evt' Ha (i_snapshots _ HI)) as Hs.
    pose proof (Send_queue_ackSeq marshal now_ sent evt (y_spool y)) as Hk.
    pose proof (Send_queue_detached marshal now_ sent evt (y_spool y)) as Hd.
    destruct (Send_queue _ _ _ _ _) as [[s out] r]. cbn in *.
    eapply (Inv_quiet y _ out); try done; cbn.
    + apply (i_down _ HI).
    + rewrite Hk. apply (i_ackSeq _ HI).
    + intros E. apply Hd. by destruct (i_none _ HI E) as (_&?&_).
  - pose proof (flush_take_evolved (y_spool y)) as Hev. pose proof (flush_take_kept (y_spool y)) as Hk.
    destruct (flush_take _) as [s taken]. by apply (Inv_spool y s).
  - destruct (y_flushing y !! batch) as [taken|]; [|done].
    apply (Inv_spool y (flush_end ok taken (y_spool y))); [done|apply flush_end_evolved|apply flush_end_kept].
  - apply (Inv_spool y _ (y_flushing y)); [done|apply enforceDiskBudget_evolved|apply enforceDiskBudget_kept].
  - apply (Inv_spool y _ (y_flushing y)); [done|apply purgeExpired_evolved|apply purgeExpired_kept].
  - destruct (reportStatus_evolved force reads sent (y_spool y)) as [Hev Hn].
    pose proof (reportStatus_kept force reads sent (y_spool y)) as [Hk Hs].
    pose proof (reportStatus_detached force reads sent (y_spool y)) as Hd.
    destruct (reportStatus _ _ _ _) as [s out]. cbn in *.
    eapply (Inv_quiet y _ out); try done; cbn.
    + apply (i_down _ HI).
    + rewrite Hk. apply (i_ackSeq _ HI).
    + intros E. apply Hd. by destruct (i_none _ HI E) as (_&?&_).
    + rewrite Hs. apply (i_snapshots _ HI).
  - destruct (y_session y) eqn:Es; [done|].
    apply (Inv_spool y (ResetDropped reset (y_spool y)) (y_flushing y)) in HI;
      [|apply ResetDropped_evolved|by destruct reset].
    exact (connect_inv _ now_ snapshots HI Es).
  - by apply drain_inv.
  - destruct (y_session y) as [sess|] eqn:Es; [|done]. destruct (y_up y) as [|msg up] eqn:Eup; [done|].
    pose proof (handleMessage_inv y sess msg up now_ limit send_ok HI Es Eup) as H.
    by destruct (handleMessage _ _ _ _ _) as [r events].
  - destruct (y_session y) as [sess|] eqn:Es; [|done]. by apply handleTick_inv.
  - destruct (y_down y) as [|msg down] eqn:Ed; [done|]. by apply receive_inv.
  - by apply disconnect_inv.
  - by apply Discard_inv.
  - by apply restart_inv.
Qed.

Lemma run_inv l y : Forall unnumbered l → Inv y → Inv (run marshal unmarshal l y).
Proof.
  revert y. induction l as [|a l IH]; intros y; [done|]. intros [Ha Hl]%Forall_cons HI.
  cbn [run]. apply IH; [done|]. by apply step_inv.
Qed.

Lemma init_inv cfg store : (∀ st, store = Some st → wf_store st) → Inv (init cfg store).
Proof.
  intros Hw. set (y := init cfg store).
  assert (Hwf : ∀ st, sp_store (y_spool y) = Some st → wf_store st).
  { cbn. intros st E. apply Hw. by destruct (Enabled cfg). }
  assert (H0 : upto y 0).
  { split; [intros st E; apply (wf_last _ (Hwf _ E))|]. intros z Hz r (st & E & Hr)%rows_store Er.
    destruct (wf_range _ (Hwf _ E) _ Hr). lia. }
  split; try done; try apply H0; cbn; try (by intros ? ?%not_elem_of_nil); try lia.
  intros evt r Hu. by apply not_elem_of_nil in Hu.
Qed.

(** ** Nothing is lost between the store and the dispatcher *)

(** The actions that drop rows on purpose: the disk budget, the retention window
    and the revocation of the agent. *)
Definition lossless (a : action) : Prop :=
  match a with ABudget _ | APurge _ _ _ | ADiscard => False | _ => True end.

Lemma dispatched_answer r y : y_dispatched (answer r y) = y_dispatched y.
Proof. by destruct r as [[]|]. Qed.

Lemma dispatched_grows a y : y_dispatched y ⊆ y_dispatched (step marshal unmarshal a y).
Proof.
  destruct a; cbn [step]; repeat case_match; rewrite ?dispatched_answer; try done; cbn; set_solver.
Qed.

(** What only the deletions, the appends and the end of the process change. *)
Lemma drain_step_store now_ ok pc s :
  sp_store (drain_step unmarshal now_ ok pc s).1.1.1 = sp_store s ∧
  sp_cfg (drain_step unmarshal now_ ok pc s).1.1.1 = sp_cfg s.
Proof. unfold drain_step, advance. kept_tac. Qed.

Lemma Send_queue_store now_ snt evt s :
  sp_store (Send_queue marshal now_ snt evt s).1.1 = sp_store s ∧
  sp_cfg (Send_queue marshal now_ snt evt s).1.1 = sp_cfg s.
Proof. unfold Send_queue, sendSnapshot, enqueue. kept_tac. Qed.

Lemma flush_take_store s : sp_store (flush_take s).1 = sp_store s ∧ sp_cfg (flush_take s).1 = sp_cfg s.
Proof. unfold flush_take, trimMemoryLocked. kept_tac. Qed.

Lemma reportStatus_store force reads snt s :
  sp_store (reportStatus force reads snt s).1 = sp_store s ∧ sp_cfg (reportStatus force reads snt s).1 = sp_cfg s.
Proof. unfold reportStatus. kept_tac. Qed.

Lemma answer_store r y :
  sp_store (y_spool (answer r y)) = sp_store (y_spool y) ∧ sp_cfg (y_spool (answer r y)) = sp_cfg (y_spool y).
Proof. by destruct r as [[]|]. Qed.

Lemma step_cfg a y : sp_cfg (y_spool (step marshal unmarshal a y)) = sp_cfg (y_spool y).
Proof.
  destruct a; cbn [step].
  - destruct (Send_queue_store now_ sent evt (y_spool y)) as [_ E]. by destruct (Send_queue _ _ _ _ _) as [[]].
  - destruct (flush_take_store (y_spool y)) as [_ E]. by destruct (flush_take _).
  - case_match; [|done]. by destruct ok.
  - cbn. unfold enforceDiskBudget. kept_tac.
  - cbn. unfold purgeExpired. kept_tac.
  - destruct (reportStatus_store force reads sent (y_spool y)) as [_ E]. by destruct (reportStatus _ _ _ _).
  - case_match; [done|]. by destruct reset.
  - destruct (drain_step_store now_ ok (y_pc y) (y_spool y)) as [_ E].
    destruct (drain_step _ _ _ _ _) as [[[]] []]; exact E.
  - repeat case_match; try done. by rewrite (proj2 (answer_store _ _)).
  - case_match; [|done]. by rewrite (proj2 (answer_store _ _)).
  - case_match; [done|]. cbn. unfold receive, Acked, RateLimited. kept_tac.
  - done.
  - done.
  - done.
Qed.

Lemma rows_eq y y' : sp_store (y_spool y') = sp_store (y_spool y) → rows y' = rows y.
Proof. unfold rows. by intros ->. Qed.

Lemma rows_append y s' events r :
  sp_store s' = Append events <$> sp_store (y_spool y) → r ∈ rows y → r ∈ rows (y <| y_spool := s' |>).
Proof.
  unfold rows. cbn. intros ->. destruct (sp_store (y_spool y)); [|done]. cbn. intros ?. apply elem_of_app. by left.
Qed.

Lemma Acked_keeps y ok seq r :
  upto y seq → r ∈ rows y → r ∈ rows (y <| y_spool ::= Acked ok seq |>) ∨ settled r (y_dispatched y).
Proof.
  intros [_ Hs] Hr. unfold rows at 1, Acked. cbn. repeat split_guard; try by left.
  destruct (decide (sr_seq r ≤ seq)) as [Hle|Hle]; [by right; eapply Hs|left].
  destruct ok; [|done]. cbn. unfold rows in Hr. destruct (sp_store (y_spool y)); [|done].
  by apply list_elem_of_filter.
Qed.

Lemma step_rows a y r :
  lossless a → Inv y → Enabled (sp_cfg (y_spool y)) = true → r ∈ rows y →
  r ∈ rows (step marshal unmarshal a y) ∨ settled r (y_dispatched (step marshal unmarshal a y)).
Proof.
  intros Ha HI Hen Hr. destruct a; try done; cbn [step].
  - left. rewrite (rows_eq y); [done|].
    destruct (Send_queue_store now_ sent evt (y_spool y)) as [E _]. by destruct (Send_queue _ _ _ _ _) as [[]].
  - left. rewrite (rows_eq y); [done|]. destruct (flush_take_store (y_spool y)) as [E _]. by destruct (flush_take _).
  - left. case_match; [|done]. destruct ok; [|done]. by eapply (rows_append y).
  - left. rewrite (rows_eq y); [done|].
    destruct (reportStatus_store force reads sent (y_spool y)) as [E _]. by destruct (reportStatus _ _ _ _).
  - left. case_match; [done|]. destruct reset; [|done]. unfold rows in *. cbn in *.
    by destruct (sp_store (y_spool y)).
  - left. rewrite (rows_eq y); [done|]. destruct (drain_step_store now_ ok (y_pc y) (y_spool y)) as [E _].
    destruct (drain_step _ _ _ _ _) as [[[]] []]; exact E.
  - left. repeat case_match; try done. rewrite (rows_eq y); [done|]. by rewrite (proj1 (answer_store _ _)).
  - left. case_match; [|done]. rewrite (rows_eq y); [done|]. by rewrite (proj1 (answer_store _ _)).
  - destruct (y_down y) as [|[seq|code retryMs] down] eqn:Ed; [by left|..].
    + apply (Acked_keeps y ok seq r); [|done]. apply (i_down _ HI). rewrite Ed. apply list_elem_of_here.
    + left. cbn. unfold rows. cbn. by split_guard.
  - by left.
  - left. unfold rows. cbn. by rewrite Hen.
Qed.

Lemma run_cfg l y : sp_cfg (y_spool (run marshal unmarshal l y)) = sp_cfg (y_spool y).
Proof. revert y. induction l as [|a l IH]; intros y; [done|]. cbn [run]. by rewrite IH, step_cfg. Qed.

Lemma run_rows l y r :
  Forall unnumbered l → Forall lossless l → Inv y → Enabled (sp_cfg (y_spool y)) = true →
  r ∈ rows y ∨ settled r (y_dispatched y) →
  r ∈ rows (run marshal unmarshal l y) ∨ settled r (y_dispatched (run marshal unmarshal l y)).
Proof.
  revert y. induction l as [|a l IH]; intros y; [done|]. intros [Ha Hl]%Forall_cons [Ha' Hl']%Forall_cons HI Hen Hr.
  cbn [run]. apply IH; [done..|by apply step_inv|by rewrite step_cfg|].
  destruct Hr as [Hr|Hr]; [by apply step_rows|right]. eapply settled_mono; [|exact Hr]. apply dispatched_grows.
Qed.

(** C5: at-least-once delivery.  From any reachable state of agent and server,
    through any further interleaving of collecting, flushing, draining, rate
    limiting, acknowledging, stream failures and restarts, with any failures of
    the store and of the stream, a row of the agent's spool stays stored until
    the server's dispatcher has been handed the event it holds, under the
    sequence of the row; only the disk budget, the retention window and a
    revocation remove others. *)
Theorem spool_at_least_once cfg store before after r :
  Enabled cfg = true → (∀ st, store = Some st → wf_store st) →
  Forall unnumbered before → Forall unnumbered after → Forall lossless after →
  let y := run marshal unmarshal before (init cfg store) in
  let y' := run marshal unmarshal after y in
  r ∈ rows y → is_Some (unmarshal (sr_payload r)) →
  r ∈ rows y' ∨ ∃ evt, evt ∈ y_dispatched y' ∧ ae_Seq evt = sr_seq r ∧ genuine r evt.
Proof.
  intros Hen Hst Hb Haf Hl y y' Hr [evt0 Hu].
  assert (HI : Inv y) by (by apply run_inv, init_inv).
  assert (Hc : Enabled (sp_cfg (y_spool y)) = true) by (subst y; by rewrite run_cfg).
  destruct (run_rows after y r Haf Hl HI Hc (or_introl Hr)) as [H|[H|(evt & He & at_ & evt1 & Hu1 & ->)]].
  - by left.
  - congruence.
  - right. exists (replay at_ r evt1). split_and!; [done|done|by exists at_, evt1].
Qed.
End Wire.
