(* ===== verification/SpoolDrain.v ===== *)
(** * Draining the spool

    What a drain sends, and the round of a fresh stream: everything the store
    holds reaches the dispatcher and is acknowledged. *)

From S2P Require Import Prelude.
From S2P Require Import Tables.
From S2P Require Import AgentSpool.
From S2P Require Import AckTracker.
From S2P Require Import SpoolProtocol.
From S2P Require Import SpoolInvariant.
From S2P Require Import SpoolDelivery.

#[local] Open Scope string_scope.
#[local] Open Scope list_scope.
#[local] Open Scope Z_scope.

(** ** The drain *)

Section Drain.
Context {unmarshal : string → option AgentEvent}.

#[local] Abbreviation drain_step := (drain_step unmarshal).
#[local] Abbreviation drain_loop := (drain_loop unmarshal).

(** What is to be sent for stored rows, and the cursor after them. *)
Definition sends (at_ : Z) (rs : list spool_row) : list upward :=
  omap (λ r, (λ evt, UEvent (replay at_ r evt)) <$> unmarshal (sr_payload r)) rs.

Definition last_seq (c : Z) (rs : list spool_row) : Z := foldl (λ _ r, sr_seq r) c rs.

Definition to_send (s : Spool) : list spool_row :=
  match sp_store s with
  | Some store => filter (λ r, sp_sendSeq s < sr_seq r) (ss_rows store)
  | None => []
  end.

Definition finishes (now_ : Z) (pc : drain_pc) (s s' : Spool) (out : list upward) (n : nat) : Prop :=
  ∀ fuel, (n ≤ fuel)%nat → drain_loop fuel now_ pc s = (s', out, true).

Lemma finishes_le now_ pc s s' out n m :
  finishes now_ pc s s' out n → (n ≤ m)%nat → finishes now_ pc s s' out m.
Proof. intros H Hm fuel Hf. apply H. lia. Qed.

Lemma finishes_step now_ pc s pc1 s1 o1 s' out n :
  drain_step now_ true pc s = (s1, pc1, o1, Continue) →
  finishes now_ pc1 s1 s' out n → finishes now_ pc s s' (o1 ++ out) (S n).
Proof.
  intros Hs H [|fuel] Hf; [lia|]. cbn [AgentSpool.drain_loop]. rewrite Hs, H by lia. done.
Qed.

Lemma drain_batch now_ at_ batch s s' out n :
  finishes now_ PIdle (s <| sp_sendSeq := last_seq (sp_sendSeq s) batch |>) s' out n →
  finishes now_ (PBatch (sp_generation s) at_ batch) s s' (sends at_ batch ++ out) (1 + 3 * length batch + n).
Proof.
  revert s. induction batch as [|row batch IH]; intros s H.
  - eapply (finishes_step _ _ _ _ _ []); [done|].
    change (finishes now_ PIdle (s <| sp_sendSeq := sp_sendSeq s |>) s' out n) in H. by rewrite same_sendSeq in H.
  - assert (Ha : advance (sp_generation s) (sr_seq row) s = (s <| sp_sendSeq := sr_seq row |>, true))
      by (unfold advance; by rewrite bool_decide_true).
    specialize (IH (s <| sp_sendSeq := sr_seq row |>) H).
    destruct (unmarshal (sr_payload row)) as [evt|] eqn:Eu.
    + apply finishes_le with (S (S (S (1 + 3 * length batch + n)))); [|cbn; lia].
      assert (Es : sends at_ (row :: batch) ++ out = [] ++ [UEvent (replay at_ row evt)] ++ [] ++ sends at_ batch ++ out)
        by (unfold sends; cbn; by rewrite Eu).
      rewrite Es. eapply finishes_step; [|eapply finishes_step; [|eapply finishes_step; [|exact IH]]].
      * cbn -[advance]. rewrite Eu. unfold sameGeneration. by rewrite bool_decide_true.
      * done.
      * cbn -[advance]. by rewrite Ha.
    + apply finishes_le with (S (1 + 3 * length batch + n)); [|cbn; lia].
      assert (Es : sends at_ (row :: batch) ++ out = [] ++ sends at_ batch ++ out)
        by (unfold sends; cbn; by rewrite Eu).
      rewrite Es. eapply finishes_step; [|exact IH]. cbn -[advance]. by rewrite Eu, Ha.
Qed.

Lemma last_seq_app c l1 l2 : last_seq c (l1 ++ l2) = last_seq (last_seq c l1) l2.
Proof. apply foldl_app. Qed.

(** In a sorted list, the cursor after a prefix separates it from the rest. *)
Lemma last_seq_ge c l : StronglySorted Z.lt (sr_seq <$> l) → (∀ r, r ∈ l → c < sr_seq r) →
  c ≤ last_seq c l ∧ ∀ r, r ∈ l → sr_seq r ≤ last_seq c l.
Proof.
  revert c. induction l as [|r l IH]; intros c Hs Hc; [split; [cbn; lia|by intros r ?%not_elem_of_nil]|].
  cbn in Hs. apply StronglySorted_inv in Hs as [Hs Hr]. rewrite Forall_fmap, Forall_forall in Hr.
  destruct (IH (sr_seq r) Hs Hr) as [H1 H2]. specialize (Hc r (list_elem_of_here _ _)). cbn.
  split; [unfold last_seq in H1; lia|]. intros r' [->|?]%elem_of_cons; [done|by apply H2].
Qed.

Lemma last_seq_in c l : l ≠ [] → ∃ r, r ∈ l ∧ last_seq c l = sr_seq r.
Proof.
  revert c. induction l as [|r [|r' l] IH]; intros c Hl; [done|exists r; split; [apply list_elem_of_here|done]|].
  destruct (IH (sr_seq r) ltac:(done)) as (x & Hx & E). exists x. split; [by right|exact E].
Qed.

Lemma filter_after (rs l1 l2 : list spool_row) c :
  StronglySorted Z.lt (sr_seq <$> rs) → filter (λ r, c < sr_seq r) rs = l1 ++ l2 →
  filter (λ r, last_seq c l1 < sr_seq r) rs = l2.
Proof.
  intros Hs E.
  assert (Hs' : StronglySorted Z.lt (sr_seq <$> (l1 ++ l2)))
    by (rewrite <- E; eapply sorted_sublist; [apply fmap_sublist, sublist_filter|exact Hs]).
  assert (Hc : ∀ r, r ∈ l1 ++ l2 → c < sr_seq r) by (intros r; rewrite <- E; by intros [? _]%list_elem_of_filter).
  rewrite fmap_app in Hs'. assert (Hs1 := StronglySorted_app_1_l _ _ _ Hs').
  destruct (last_seq_ge c l1) as [Hge Hle]; [done|intros r ?; apply Hc, elem_of_app; by left|].
  transitivity (filter (λ r, last_seq c l1 < sr_seq r) (filter (λ r, c < sr_seq r) rs)).
  { rewrite list_filter_filter. apply list_filter_iff. intros r. lia. }
  rewrite E, filter_app. rewrite list_filter_none by (intros r Hr%Hle; lia).
  apply list_filter_all. intros r Hr. destruct l1 as [|r1 l1].
  - apply Hc. exact Hr.
  - destruct (last_seq_in c (r1 :: l1)) as (x & Hx & ->); [done|].
    eapply StronglySorted_app_1_elem_of; [exact Hs'|by apply list_elem_of_fmap_2..].
Qed.

Definition ready (now_ : Z) (s : Spool) : Prop :=
  sp_sink s = true ∧ ¬ now_ < sp_pausedUntil s.

Lemma drain_read now_ s store :
  sp_store s = Some store → ready now_ s →
  drain_step now_ true PIdle s =
  match ReadFrom (sp_sendSeq s) spoolDrainBatch store with
  | [] => (s, PIdle, [], Done)
  | batch => (s, PBatch (sp_generation s) (sp_attachedAt s) batch, [], Continue)
  end.
Proof. intros Est [Hk Hp]. cbn -[ReadFrom]. by rewrite Est, Hk, bool_decide_false. Qed.

Lemma drain_finishes now_ s store :
  sp_store s = Some store → wf_store store → ready now_ s →
  finishes now_ PIdle s (s <| sp_sendSeq := last_seq (sp_sendSeq s) (to_send s) |>)
    (sends (sp_attachedAt s) (to_send s)) (5 * length (to_send s) + 1).
Proof.
  intros Est Hw Hready. remember (length (to_send s)) as k eqn:Ek.
  revert s Est Hready Ek. induction (lt_wf k) as [k _ IH]. intros s Est Hready ->.
  pose proof (drain_read now_ s store Est Hready) as Hread.
  assert (Er : ReadFrom (sp_sendSeq s) spoolDrainBatch store = take spoolDrainBatch (to_send s))
    by (unfold to_send; rewrite Est; by apply ReadFrom_wf).
  rewrite Er in Hread.
  destruct (to_send s) as [|r l] eqn:El.
  - intros [|fuel] Hf; [cbn in Hf; lia|]. cbn [AgentSpool.drain_loop]. rewrite Hread.
    exact (f_equal (λ s, (s, [], true)) (eq_sym (same_sendSeq s))).
  - set (batch := take spoolDrainBatch (r :: l)) in *. set (s1 := s <| sp_sendSeq := last_seq (sp_sendSeq s) batch |>).
    assert (E1 : to_send s1 = drop spoolDrainBatch (r :: l)).
    { assert (El' : filter (λ r, sp_sendSeq s < sr_seq r) (ss_rows store) = batch ++ drop spoolDrainBatch (r :: l)).
      { unfold batch. rewrite take_drop, <- El. unfold to_send. by rewrite Est. }
      unfold to_send. cbn [s1 sp_store set_field]. unfold s1. cbn -[batch]. rewrite Est.
      by eapply filter_after; [apply (wf_sorted _ Hw)|]. }
    assert (Hlen : (length batch + length (to_send s1) = length (r :: l))%nat)
      by (rewrite E1; unfold batch; rewrite <- length_app; by rewrite take_drop).
    assert (Hb : (1 ≤ length batch)%nat) by (unfold batch, spoolDrainBatch; cbn; lia).
    specialize (IH (length (to_send s1)) ltac:(lia) s1 Est Hready eq_refl).
    apply (drain_batch now_ (sp_attachedAt s)) in IH.
    rewrite <- (take_drop spoolDrainBatch (r :: l)), <- E1. fold batch.
    assert (Eo : sends (sp_attachedAt s) (batch ++ to_send s1) = sends (sp_attachedAt s) batch ++ sends (sp_attachedAt s1) (to_send s1))
      by apply omap_app.
    rewrite Eo, last_seq_app. eapply finishes_le; [eapply (finishes_step _ _ _ _ _ []); [|exact IH]|rewrite length_app; lia].
    rewrite Hread. by destruct batch; [cbn in Hb; lia|].
Qed.

(** A drain sends everything, in order and once.  With an attached stream
    that takes what it is given, a store that answers and enough rounds (five
    per event), [drainOnce] first writes what waits in memory, then sends every
    readable row after the send cursor, oldest first, marked with its sequence,
    and leaves the cursor on the last one; it always comes to an end. *)
Theorem drain_sends_all fuel now_ env size s store :
  sp_store s = Some store → wf_store store → sp_sendSeq s ≤ ss_last store → ready now_ s →
  be_size env = Some size → size ≤ MaxDiskBytes (sp_cfg s) →
  let queued := to_send s ++ new_rows (ss_last store) (sp_buf s) in
  (5 * length queued + 1 ≤ fuel)%nat →
  ∃ s', drainOnce unmarshal fuel now_ env s = (s', sends (sp_attachedAt s) queued, true) ∧
    sp_buf s' = [] ∧ sp_sendSeq s' = last_seq (sp_sendSeq s) queued.
Proof.
  intros Est Hw Hc Hready Hsize Hle queued Hf.
  set (s1 := flush_end true (sp_buf s) (s <| sp_buf := [] |> <| sp_bufBytes := 0 |>)).
  assert (Hfl : ∃ s0, flush true env s = (s0, Ok tt) ∧ sp_buf s0 = [] ∧ sp_store s0 = Some (Append (sp_buf s) store)
    ∧ sp_sendSeq s0 = sp_sendSeq s ∧ sp_attachedAt s0 = sp_attachedAt s ∧ ready now_ s0).
  { unfold flush, flush_take. destruct (bool_decide_reflect (sp_buf s = [])) as [Eb|Eb].
    - exists s. split_and!; try done. rewrite Est, Eb. unfold Append. cbn. destruct store; cbn.
      by rewrite app_nil_r, Z.add_0_r.
    - rewrite Est. exists s1. split_and!; try done; try (unfold s1; cbn; by rewrite Est).
      unfold enforceDiskBudget. cbn. rewrite Est. cbn. split_guard; [done|]. rewrite Hsize.
      by rewrite bool_decide_true. }
  destruct Hfl as (s0 & Hfl & Eb & Est0 & Esd & Eat & Hready0).
  assert (Eq : to_send s0 = queued).
  { unfold to_send, queued, to_send. rewrite Est0, Est, Esd. cbn. rewrite filter_app. f_equal.
    apply list_filter_all. intros r ?%new_rows_seq. lia. }
  unfold drainOnce. rewrite Hfl. cbn [is_ok].
  pose proof (drain_finishes now_ s0 _ Est0 (Append_wf _ _ Hw) Hready0) as Hd.
  rewrite Eq in Hd. rewrite (Hd fuel Hf).
  eexists. rewrite Eat. split_and!; [done|done|]. cbn. by rewrite Esd.
Qed.

Lemma drain_Done now_ pc s s' pc' out :
  drain_step now_ true pc s = (s', pc', out, Done) → pc = PIdle ∧ (s', pc', out) = (s, PIdle, []).
Proof.
  destruct pc as [|gen at_ [|row rs]|gen at_ evt row rs|gen at_ row rs]; cbn; unfold advance; intros H;
    repeat case_match; by simplify_eq/=.
Qed.
End Drain.

(** ** A quiet round *)

Section Round.
Context {marshal : AgentEvent → option string} {unmarshal : string → option AgentEvent}.

#[local] Abbreviation step := (step marshal unmarshal).
#[local] Abbreviation run := (run marshal unmarshal).

Lemma run_app l1 l2 y : run (l1 ++ l2) y = run l2 (run l1 y).
Proof. revert y. induction l1 as [|a l1 IH]; intros y; [done|]. cbn. apply IH. Qed.

Lemma run_fixed n a y : step a y = y → run (replicate n a) y = y.
Proof. intros E. induction n as [|n IH]; [done|]. cbn [replicate SpoolProtocol.run]. by rewrite E. Qed.

Lemma drain_not_failed now_ pc s : (drain_step unmarshal now_ true pc s).2 ≠ Failed.
Proof. unfold drain_step, advance. repeat case_match; by simplify_eq/=. Qed.
(** The drain of the machine is the loop of [drainOnce]. *)
Lemma run_drain fuel now_ y s' out :
  drain_loop unmarshal fuel now_ (y_pc y) (y_spool y) = (s', out, true) →
  run (replicate fuel (ADrain now_ true)) y =
  y <| y_spool := s' |> <| y_pc := PIdle |> <| y_up ::= λ up, up ++ out |>.
Proof.
  revert y out. induction fuel as [|fuel IH]; intros y out H; [done|].
  cbn [drain_loop replicate SpoolProtocol.run] in *. pose proof (drain_not_failed now_ (y_pc y) (y_spool y)) as Hnf.
  destruct (drain_step unmarshal now_ true (y_pc y) (y_spool y)) as [[[s1 pc1] o1] res] eqn:Es.
  destruct res; [| |done].
  - destruct (drain_loop unmarshal fuel now_ pc1 s1) as [[s2 o2] b] eqn:El. injection H as <- <- ->.
    rewrite (IH (step (ADrain now_ true) y) o2).
    + cbn [SpoolProtocol.step]. rewrite Es. destruct y; cbn. by rewrite <- app_assoc.
    + cbn [SpoolProtocol.step]. by rewrite Es.
  - injection H as <- <-. destruct (drain_Done _ _ _ _ _ _ Es) as [Ep [= -> -> ->]].
    assert (E : step (ADrain now_ true) y = y).
    { cbn [SpoolProtocol.step]. rewrite Es. destruct y; cbn in *. by rewrite app_nil_r, Ep. }
    rewrite E, run_fixed by done. destruct y; cbn in *. by rewrite app_nil_r, Ep.
Qed.


Lemma foldl_max_ge l n : n ≤ foldl Z.max n l.
Proof. revert n. induction l as [|x l IH]; intros n; cbn; [lia|]. specialize (IH (Z.max n x)). lia. Qed.

(** One event let through. *)
Lemma serve_one now_ evt up y sess :
  y_session y = Some sess → ak_refused (ps_acks sess) = 0 → 0 ≤ ae_Seq evt → 0 ≤ ak_highest (ps_acks sess) →
  y_up y = UEvent evt :: up →
  ∃ sess' acks,
    step (AServer now_ None true) y =
      y <| y_up := up |> <| y_dispatched ::= λ l, l ++ [evt] |> <| y_session := Some sess' |>
        <| y_down ::= λ l, l ++ (SMAck <$> acks) |> ∧
    ak_refused (ps_acks sess') = 0 ∧
    ak_highest (ps_acks sess') = Z.max (ak_highest (ps_acks sess)) (ae_Seq evt) ∧
    (∀ n, n ∈ acks → n = ak_highest (ps_acks sess')) ∧
    (ak_acked (ps_acks sess') = ak_acked (ps_acks sess) ∨ ak_acked (ps_acks sess') ∈ acks).
Proof.
  intros Es Er He Hh Eup. set (a := accept (ae_Seq evt) (ps_acks sess)).
  assert (Ha : ak_refused a = 0 ∧ ak_highest a = Z.max (ak_highest (ps_acks sess)) (ae_Seq evt) ∧
    ak_acked a = ak_acked (ps_acks sess)).
  { unfold a, accept. cbn. rewrite Er. repeat split_guard; cbn; lia. }
  destruct Ha as (Ha1 & Ha2 & Ha3). cbn [SpoolProtocol.step]. rewrite Es, Eup. cbn [handleMessage].
  unfold handleEvent. cbn [rateLimited].
  set (sess1 := touchLiveness now_ sess <| ps_acks ::= accept (ae_Seq evt) |>).
  assert (E1 : ps_acks sess1 = a).
  { unfold sess1, a. cbn. unfold touchLiveness. by split_guard. }
  destruct (afterEvent now_ (ps_acks sess1)) as [seq|] eqn:Ea.
  - assert (seq = ak_highest a) as ->.
    { rewrite E1 in Ea. unfold afterEvent in Ea. case_match; [done|]. unfold pending in Ea.
      split_guard; [done|]. by injection Ea. }
    set (sess2 := sess1 <| ps_acks ::= sent (ak_highest a) now_ |>).
    assert (E2 : ps_acks sess2 = sent (ak_highest a) now_ a) by exact (f_equal (sent (ak_highest a) now_) E1).
    exists sess2, [ak_highest a]. rewrite E2. split_and!; [destruct y; reflexivity|done|done| |].
    + by intros n ->%list_elem_of_singleton.
    + right. apply list_elem_of_here.
  - exists sess1, []. split_and!; [destruct y; reflexivity|by rewrite E1|by rewrite E1|by intros n ?%not_elem_of_nil|].
    left. by rewrite E1.
Qed.

(** A server that lets everything through. *)
Lemma serve_all now_ evts y sess :
  y_session y = Some sess → ak_refused (ps_acks sess) = 0 → y_up y = UEvent <$> evts →
  0 ≤ ak_highest (ps_acks sess) → (∀ evt, evt ∈ evts → 0 ≤ ae_Seq evt) →
  ∃ sess' acks,
    run (replicate (length evts) (AServer now_ None true)) y =
      y <| y_up := [] |> <| y_dispatched ::= λ l, l ++ evts |> <| y_session := Some sess' |>
        <| y_down ::= λ l, l ++ (SMAck <$> acks) |> ∧
    ak_highest (ps_acks sess') = foldl Z.max (ak_highest (ps_acks sess)) (ae_Seq <$> evts) ∧
    (∀ n, n ∈ acks → n ≤ ak_highest (ps_acks sess')) ∧
    (ak_acked (ps_acks sess') = ak_acked (ps_acks sess) ∨ ak_acked (ps_acks sess') ∈ acks).
Proof.
  revert y sess. induction evts as [|evt evts IH]; intros y sess Es Er Eup Hh Hev.
  - exists sess, []. split_and!; [|done|by intros n ?%not_elem_of_nil|by left].
    destruct y; cbn in *. by rewrite !app_nil_r, Es, Eup.
  - destruct (serve_one now_ evt (UEvent <$> evts) y sess) as (sess1 & acks1 & E1 & Er1 & Eh1 & Ha1 & Hk1);
      [done..|by apply Hev, list_elem_of_here|done|done|].
    cbn [length replicate SpoolProtocol.run]. rewrite E1.
    destruct (IH (y <| y_up := UEvent <$> evts |> <| y_dispatched ::= λ l, l ++ [evt] |>
      <| y_session := Some sess1 |> <| y_down ::= λ l, l ++ (SMAck <$> acks1) |>) sess1)
      as (sess2 & acks2 & E2 & Eh2 & Ha2 & Hk2); [done..|rewrite Eh1; lia|by intros e ?; apply Hev; right|].
    exists sess2, (acks1 ++ acks2). rewrite E2, fmap_app.
    pose proof (foldl_max_ge (ae_Seq <$> evts) (ak_highest (ps_acks sess1))) as Hge.
    split_and!.
    + destruct y; cbn. by rewrite <- !app_assoc.
    + rewrite Eh2, Eh1. done.
    + intros n [->%Ha1|?%Ha2]%elem_of_app; [rewrite Eh2; lia|done].
    + rewrite elem_of_app. destruct Hk2 as [E|?]; [rewrite E; tauto|tauto].
Qed.

(** An agent that takes every acknowledgement: what lies below one is gone. *)
Lemma receive_all now_ acks y store :
  sp_store (y_spool y) = Some store → y_down y = SMAck <$> acks → (∀ n, n ∈ acks → n ≤ max_int64) →
  ∃ y', run (replicate (length acks) (AReceive now_ true)) y = y' ∧ y_dispatched y' = y_dispatched y ∧
    (∀ r, r ∈ rows y' → r ∈ rows y) ∧
    ∀ n, n ∈ acks → sp_ackSeq (y_spool y) < n → ∀ r, r ∈ rows y' → n < sr_seq r.
Proof.
  revert y store. induction acks as [|n acks IH]; intros y store Est Ed Hn.
  { exists y. split_and!; try done. by intros n ?%not_elem_of_nil. }
  cbn [length replicate SpoolProtocol.run]. set (y1 := step (AReceive now_ true) y).
  assert (E1 : y1 = y <| y_spool ::= Acked true n |> <| y_down := SMAck <$> acks |>)
    by (unfold y1; cbn [SpoolProtocol.step]; by rewrite Ed).
  assert (Hmax : n ≤ max_int64) by (apply Hn, list_elem_of_here).
  assert (H1 : ∃ store1, sp_store (y_spool y1) = Some store1 ∧ (∀ r, r ∈ ss_rows store1 → r ∈ ss_rows store) ∧
    (sp_ackSeq (y_spool y) < n → sp_ackSeq (y_spool y1) = n ∧ ∀ r, r ∈ ss_rows store1 → n < sr_seq r) ∧
    (n ≤ sp_ackSeq (y_spool y) → sp_ackSeq (y_spool y1) = sp_ackSeq (y_spool y))).
  { rewrite E1. cbn. unfold Acked. rewrite bool_decide_false by lia. split_guard.
    - exists store. split_and!; [done|done|lia|done].
    - cbn. rewrite Est. exists (DeleteUpTo n store). split_and!; [done| | |lia].
      + by intros r [_ ?]%list_elem_of_filter.
      + intros _. split; [done|]. intros r [? _]%list_elem_of_filter. lia. }
  destruct H1 as (store1 & Est1 & Hsub & Hlt & Hge).
  destruct (IH y1 store1) as (y' & Ey & ED & Hr & Ha); [done|by rewrite E1|by intros m ?; apply Hn; right|].
  assert (Hr1 : ∀ r, r ∈ rows y' → r ∈ ss_rows store1) by (intros r ?%Hr; unfold rows in *; by rewrite Est1 in *).
  exists y'. split_and!; [done|rewrite ED, E1; done| |].
  - intros r ?%Hr1%Hsub. unfold rows. by rewrite Est.
  - intros m Hm Hack r Hin. apply elem_of_cons in Hm as [->|Hm]; [by apply Hlt; [|apply Hr1]|].
    destruct (decide (sp_ackSeq (y_spool y) < n)) as [Hlt'|Hlt'].
    + destruct (Hlt Hlt') as [Ek Hrows]. destruct (decide (n < m)) as [|Hnm].
      * apply (Ha m Hm); [lia|done].
      * specialize (Hrows r (Hr1 r Hin)). lia.
    + apply (Ha m Hm); [|done]. rewrite Hge by lia. done.
Qed.

(** The events among what goes up. *)
Definition events_of (up : list upward) : list AgentEvent :=
  omap (λ msg, match msg with UEvent evt => Some evt | UStatus _ => None end) up.

Lemma events_of_sends at_ rs : (UEvent <$> events_of (sends (unmarshal := unmarshal) at_ rs)) = sends (unmarshal := unmarshal) at_ rs.
Proof.
  unfold events_of, sends. induction rs as [|r rs IH]; [done|]. cbn.
  destruct (unmarshal (sr_payload r)); cbn; [|done]. by f_equal.
Qed.

Lemma events_of_snapshots n s : (UEvent <$> events_of (resendSnapshots n s)) = resendSnapshots n s.
Proof.
  unfold resendSnapshots. destruct (sp_sink s); [|done]. unfold events_of.
  generalize (map_to_list (sp_snapshots s)).*2 as l. induction n as [|n IH]; intros [|e l]; cbn; [done..|].
  by rewrite IH.
Qed.

Lemma foldl_max_in l n x : x ∈ l → x ≤ foldl Z.max n l.
Proof.
  revert n. induction l as [|y l IH]; intros n; [by intros ?%not_elem_of_nil|]. cbn.
  intros [->|?]%elem_of_cons; [|by apply IH]. pose proof (foldl_max_ge l (Z.max n y)). lia.
Qed.

Lemma foldl_max_le l n b : n ≤ b → (∀ x, x ∈ l → x ≤ b) → foldl Z.max n l ≤ b.
Proof.
  revert n. induction l as [|y l IH]; intros n Hn Hl; [done|]. cbn.
  apply IH; [|intros; apply Hl; by right]. specialize (Hl y (list_elem_of_here _ _)). lia.
Qed.

(** The tick after the last event acknowledges the highest sequence. *)
Lemma tick_all now_ y sess acks acked0 :
  y_session y = Some sess → y_down y = SMAck <$> acks →
  (∀ n, n ∈ acks → n ≤ ak_highest (ps_acks sess)) →
  ak_acked (ps_acks sess) = acked0 ∨ ak_acked (ps_acks sess) ∈ acks →
  ∃ acks', y_down (step (ATick now_ true) y) = SMAck <$> acks' ∧
    (acked0 < ak_highest (ps_acks sess) → ak_highest (ps_acks sess) ∈ acks') ∧
    (∀ n, n ∈ acks' → n ≤ ak_highest (ps_acks sess)) ∧
    y_spool (step (ATick now_ true) y) = y_spool y ∧ y_dispatched (step (ATick now_ true) y) = y_dispatched y.
Proof.
  intros Es Ed Ha Hk. cbn [SpoolProtocol.step]. rewrite Es. unfold handleTick, pending.
  destruct (bool_decide_reflect (ak_highest (ps_acks sess) ≤ ak_acked (ps_acks sess))) as [Hle|Hle].
  - exists acks. split_and!; try done; [cbn; by rewrite app_nil_r|]. intros Hlt. destruct Hk as [E|Hin]; [lia|].
    specialize (Ha _ Hin). replace (ak_highest (ps_acks sess)) with (ak_acked (ps_acks sess)) by lia. done.
  - exists (acks ++ [ak_highest (ps_acks sess)]). split_and!; try done; cbn.
    + by rewrite Ed, fmap_app.
    + intros _. apply elem_of_app. right. apply list_elem_of_here.
    + intros n [?| ->%list_elem_of_singleton]%elem_of_app; [by apply Ha|done].
Qed.

#[local] Abbreviation Inv := (@Inv unmarshal).

(** The round of a fresh stream: connect, drain, serve, acknowledge, receive. *)
Definition round (now_ : Z) (snapshots drains serves receives : nat) : list action :=
  [ADisconnect; AConnect now_ true snapshots] ++ replicate drains (ADrain now_ true) ++
  replicate serves (AServer now_ None true) ++ [ATick now_ true] ++ replicate receives (AReceive now_ true).

Lemma round_plain now_ n d s r : Forall unnumbered (round now_ n d s r) ∧ Forall lossless (round now_ n d s r).
Proof.
  unfold round. rewrite !Forall_app. split; split_and!;
    try (apply Forall_replicate; done); by repeat constructor.
Qed.

Definition attached (now_ : Z) (y : system) : Spool := Attach now_ (ResetDropped true (Detach (y_spool y))).

Lemma attached_to_send now_ y store :
  sp_store (y_spool y) = Some store → (∀ r, r ∈ rows y → sp_ackSeq (y_spool y) < sr_seq r) →
  to_send (attached now_ y) = ss_rows store.
Proof.
  intros Est Ha. unfold to_send, attached. cbn. rewrite Est. cbn. apply list_filter_all.
  intros r Hr. apply Ha. unfold rows. by rewrite Est.
Qed.

(** What goes up on the fresh stream. *)
Definition stated (now_ : Z) (snapshots : nat) (y : system) : list AgentEvent :=
  events_of (resendSnapshots snapshots (attached now_ y)).
Definition replayed (now_ : Z) (y : system) : list AgentEvent :=
  events_of (sends (unmarshal := unmarshal) now_ (rows y)).

Lemma events_of_elem up evt : evt ∈ events_of up ↔ UEvent evt ∈ up.
Proof.
  unfold events_of. rewrite list_elem_of_omap. split.
  - by intros ([e|?] & Hin & [= ->]).
  - intros H. by exists (UEvent evt).
Qed.

Lemma replayed_elem now_ y evt :
  evt ∈ replayed now_ y ↔ ∃ r evt0, r ∈ rows y ∧ unmarshal (sr_payload r) = Some evt0 ∧ evt = replay now_ r evt0.
Proof.
  unfold replayed. rewrite events_of_elem. unfold sends. rewrite list_elem_of_omap. split.
  - intros (r & Hr & E). destruct (unmarshal (sr_payload r)) as [evt0|] eqn:Eu; [|done].
    injection E as <-. by exists r, evt0.
  - intros (r & evt0 & Hr & Eu & ->). exists r. by rewrite Eu.
Qed.

Lemma stated_unnumbered now_ n y evt : Inv y → evt ∈ stated now_ n y → ae_Seq evt = 0.
Proof.
  intros HI. unfold stated. rewrite events_of_elem. apply nums_unnumbered, nums_snapshots.
  apply (i_snapshots _ HI).
Qed.

(** What the round starts from. *)
Record settled_rows (y : system) (store : spoolStore) : Prop := {
  sr_inv : Inv y;
  sr_store : sp_store (y_spool y) = Some store;
  sr_rows : ∀ r, r ∈ ss_rows store → sp_ackSeq (y_spool y) < sr_seq r ∧ is_Some (unmarshal (sr_payload r));
}.

Lemma round_seqs y store now_ n evt :
  settled_rows y store → evt ∈ stated now_ n y ++ replayed now_ y → 0 ≤ ae_Seq evt ≤ ss_last store.
Proof.
  intros [HI Est _] Hev. pose proof (i_store _ HI _ Est) as Hw. pose proof (wf_last _ Hw).
  apply elem_of_app in Hev as [Hev|Hev].
  - rewrite (stated_unnumbered _ _ _ _ HI Hev). lia.
  - apply replayed_elem in Hev as (r & evt0 & Hr & _ & ->). unfold rows in Hr. rewrite Est in Hr.
    destruct (wf_range _ Hw _ Hr). cbn. lia.
Qed.

Lemma round_drain y store now_ n :
  settled_rows y store → zero_time ≤ now_ →
  ∃ drains, let y2 := run (replicate drains (ADrain now_ true)) (run [ADisconnect; AConnect now_ true n] y) in
    y_session y2 = Some (newSession now_ now_) ∧ y_up y2 = UEvent <$> (stated now_ n y ++ replayed now_ y) ∧
    y_down y2 = [] ∧ y_dispatched y2 = y_dispatched y ∧ rows y2 = rows y ∧
    sp_store (y_spool y2) = Some (resetDroppedSinceConnect store) ∧ sp_ackSeq (y_spool y2) = sp_ackSeq (y_spool y).
Proof.
  intros [HI Est Hrows] Hnow. pose proof (i_store _ HI _ Est) as Hw. set (s1 := attached now_ y).
  assert (Erows : rows y = ss_rows store) by (unfold rows; by rewrite Est).
  assert (Est1 : sp_store s1 = Some (resetDroppedSinceConnect store)) by (unfold s1, attached; cbn; by rewrite Est).
  assert (Ets : to_send s1 = rows y).
  { rewrite Erows. apply attached_to_send; [done|]. rewrite Erows. intros r Hr. by apply Hrows. }
  assert (Hd := drain_finishes (unmarshal := unmarshal) now_ s1 _ Est1).
  specialize (Hd ltac:(destruct Hw; by split) ltac:(split; [done|cbn; lia])). rewrite Ets in Hd.
  exists (5 * length (rows y) + 1)%nat. erewrite run_drain by (apply Hd; lia). cbn zeta.
  split_and!; try done; [|unfold rows; cbn; by rewrite Est].
  unfold stated, replayed. by rewrite fmap_app, events_of_snapshots, events_of_sends.
Qed.

(** Once everything is served and ticked, one acknowledgement covers it all. *)
Lemma round_serve y2 now_ evts last :
  y_session y2 = Some (newSession now_ now_) → y_up y2 = UEvent <$> evts → y_down y2 = [] →
  0 ≤ last → (∀ evt, evt ∈ evts → 0 ≤ ae_Seq evt ≤ last) →
  ∃ acks, let y4 := step (ATick now_ true) (run (replicate (length evts) (AServer now_ None true)) y2) in
    y_spool y4 = y_spool y2 ∧ y_dispatched y4 = y_dispatched y2 ++ evts ∧ y_down y4 = SMAck <$> acks ∧
    (∀ n, n ∈ acks → n ≤ last) ∧
    ∀ evt, evt ∈ evts → 0 < ae_Seq evt → ∃ n, n ∈ acks ∧ ae_Seq evt ≤ n.
Proof.
  intros Es Eup Ed Hl Hev.
  destruct (serve_all now_ evts y2 _ Es eq_refl Eup) as (sess & acks & E & Eh & Ha & Hk);
    [done|intros; by apply Hev|]. cbn in Eh, Hk. rewrite E.
  set (y3 := y2 <| y_up := [] |> <| y_dispatched ::= _ |> <| y_session := _ |> <| y_down ::= _ |>).
  assert (Ed3 : y_down y3 = SMAck <$> acks) by (cbn; by rewrite Ed).
  assert (Hle : ak_highest (ps_acks sess) ≤ last).
  { rewrite Eh. apply foldl_max_le; [done|]. intros x (evt & -> & Hin)%list_elem_of_fmap. by apply Hev. }
  assert (Hge : ∀ evt, evt ∈ evts → ae_Seq evt ≤ ak_highest (ps_acks sess))
    by (intros evt Hin; rewrite Eh; by apply foldl_max_in, list_elem_of_fmap_2).
  destruct (tick_all now_ y3 sess acks 0) as (acks' & Ed4 & Hin & Ha' & Esp & Edp); [done..|].
  exists acks'. split_and!; [done|done|done|intros n ?%Ha'; lia|]. intros evt Hevt Hpos.
  specialize (Hge evt Hevt). exists (ak_highest (ps_acks sess)). split; [apply Hin; lia|done].
Qed.

End Round.
