(* ===== verification/SpoolCorrect.v ===== *)
(** * The budgets of the spool, and its protocol on examples

    The spool drops the oldest events first, as many as its budgets ask for, and
    counts them; then concrete runs of the protocol: the witnesses of the
    theorems of [SpoolDelivery] and [SpoolDrain], and the situations in which
    the code does not do what it means to. *)

From S2P Require Import Prelude.
From S2P Require Import Tables.
From S2P Require Import AgentSpool.
From S2P Require Import AckTracker.
From S2P Require Import SpoolProtocol.
From S2P Require Import SpoolInvariant.
From S2P Require Import SpoolDelivery.
From S2P Require Import SpoolDrain.

#[local] Open Scope string_scope.
#[local] Open Scope list_scope.
#[local] Open Scope Z_scope.

(** ** The disk budget *)

Definition sizes (rs : list spool_row) : Z := foldr (λ r n, sr_size_bytes r + n) 0 rs.

Lemma sizes_app l1 l2 : sizes (l1 ++ l2) = sizes l1 + sizes l2.
Proof. unfold sizes. induction l1 as [|r l1 IH]; [done|]. cbn. lia. Qed.

Lemma sizes_nonneg rs : Forall (λ r, 0 ≤ sr_size_bytes r) rs → 0 ≤ sizes rs.
Proof. unfold sizes. induction 1; cbn; lia. Qed.

(** [gone] is the shortest prefix of [rs] that frees [target] bytes. *)
Definition frees (target : Z) (gone rest : list spool_row) : Prop :=
  (target ≤ sizes gone ∨ rest = []) ∧ ∀ front r, gone = front ++ [r] → sizes front < target.

Lemma last_below_none running target rs :
  target ≤ running → Forall (λ r, 0 ≤ sr_size_bytes r) rs → last_below running target rs = None.
Proof.
  intros Ht Hs. revert running Ht. induction Hs as [|r rs Hr Hs IH]; intros running Ht; [done|]. cbn.
  rewrite bool_decide_false by lia. apply IH. lia.
Qed.

Lemma last_below_prefix running target rs :
  StronglySorted Z.lt (sr_seq <$> rs) → Forall (λ r, 0 ≤ sr_size_bytes r) rs → running < target → rs ≠ [] →
  ∃ gone row rest, rs = (gone ++ [row]) ++ rest ∧ last_below running target rs = Some (sr_seq row) ∧
    running + sizes gone < target ∧ (target ≤ running + sizes (gone ++ [row]) ∨ rest = []).
Proof.
  revert running. induction rs as [|r rs IH]; intros running Hs Hp Ht Hne; [done|].
  apply Forall_cons in Hp as [Hr Hp]. cbn in Hs. apply StronglySorted_inv in Hs as [Hs Hlt].
  cbn [last_below]. rewrite bool_decide_true by done.
  destruct (decide (target ≤ running + sr_size_bytes r)) as [Hge|Hge].
  - exists [], r, rs. rewrite last_below_none by done. split_and!; try done; unfold sizes; cbn; [lia|left; lia].
  - destruct rs as [|r' rs].
    + exists [], r, []. split_and!; try done; unfold sizes; cbn; [lia|by right].
    + destruct (IH (running + sr_size_bytes r)) as (gone & row & rest & E & El & H1 & H2); [done|done|lia|done|].
      rewrite El. exists (r :: gone), row, rest. rewrite E.
      assert (Hmax : sr_seq r < sr_seq row).
      { rewrite Forall_fmap, Forall_forall in Hlt. apply Hlt. rewrite E. apply elem_of_app. left.
        apply elem_of_app. right. apply list_elem_of_here. }
      split_and!; [done|f_equal; lia|unfold sizes in *; cbn; lia|].
      destruct H2 as [H2|H2]; [left; unfold sizes in *; cbn; lia|by right].
Qed.

Lemma DeleteUpTo_prefix store gone row rest :
  StronglySorted Z.lt (sr_seq <$> ss_rows store) → ss_rows store = (gone ++ [row]) ++ rest →
  filter (λ r, ¬ sr_seq r ≤ sr_seq row) (ss_rows store) = rest ∧
  filter (λ r, sr_seq r ≤ sr_seq row) (ss_rows store) = gone ++ [row].
Proof.
  intros Hs E. rewrite E in *. rewrite !filter_app, fmap_app in *.
  assert (Hle : ∀ r, r ∈ gone ++ [row] → sr_seq r ≤ sr_seq row).
  { intros r [Hr|Hr]%elem_of_app; [|by apply list_elem_of_singleton in Hr as ->].
    apply StronglySorted_app_1_l in Hs. rewrite fmap_app in Hs.
    assert (sr_seq r < sr_seq row); [|lia].
    eapply StronglySorted_app_1_elem_of; [exact Hs|by apply list_elem_of_fmap_2|apply list_elem_of_here]. }
  assert (Hgt : ∀ r, r ∈ rest → sr_seq row < sr_seq r).
  { intros r Hr. eapply StronglySorted_app_1_elem_of; [exact Hs|apply list_elem_of_fmap_2|by apply list_elem_of_fmap_2].
    apply elem_of_app. right. apply list_elem_of_here. }
  rewrite <- !filter_app. split.
  - rewrite filter_app, list_filter_none by (intros r Hr%Hle; lia).
    apply list_filter_all. intros r Hr%Hgt. lia.
  - rewrite filter_app, list_filter_all by exact Hle.
    rewrite list_filter_none by (intros r Hr%Hgt; lia). by rewrite app_nil_r.
Qed.

(** The disk budget.  When the file of the spool is over its budget,
    [enforceDiskBudget] deletes the shortest run of oldest rows that frees the
    overshoot and a tenth of the budget (or every row, up to the fifty thousand
    it looks at), leaves the others as they were, and counts what it dropped. *)
Theorem disk_budget_frees env s store size :
  sp_store s = Some store → wf_store store → Forall (λ r, 0 ≤ sr_size_bytes r) (ss_rows store) →
  (length (ss_rows store) ≤ spoolDropScanLimit)%nat →
  be_size env = Some size → 0 < MaxDiskBytes (sp_cfg s) < size → be_delete env = true →
  be_reclaim env = true → be_meta env = true →
  ∃ s' store' gone, enforceDiskBudget env s = (s', Ok tt) ∧ sp_store s' = Some store' ∧
    ss_rows store = gone ++ ss_rows store' ∧
    frees (size - MaxDiskBytes (sp_cfg s) + Z.quot (MaxDiskBytes (sp_cfg s)) 10) gone (ss_rows store') ∧
    Dropped s' = Dropped s + Z.of_nat (length gone).
Proof.
  intros Est Hw Hp Hlen Hsize Hlt Hdel Hrec Hmeta. pose proof (wf_sorted _ Hw) as Hs.
  set (target := size - MaxDiskBytes (sp_cfg s) + Z.quot (MaxDiskBytes (sp_cfg s)) 10).
  assert (Ht : 0 < target) by (unfold target; pose proof (Z.quot_pos (MaxDiskBytes (sp_cfg s)) 10); lia).
  unfold enforceDiskBudget. rewrite bool_decide_false, Est, Hsize, bool_decide_false, Hdel, Hrec, Hmeta by lia. cbn [negb].
  fold target. unfold DeleteOldestBytes.
  rewrite order_by_sorted, take_ge by done.
  destruct (decide (ss_rows store = [])) as [E|Hne].
  - rewrite E. cbn. exists (s <| sp_store := Some store |>), store, []. split_and!; [done..| |].
    + rewrite E. split; [by right|]. intros front r H. by destruct front.
    + unfold Dropped. cbn. rewrite Est. lia.
  - destruct (last_below_prefix 0 target (ss_rows store)) as (gone & row & rest & E & El & H1 & H2); [done..|].
    rewrite El. destruct (DeleteUpTo_prefix store gone row rest Hs E) as [Erest Egone].
    rewrite Egone, bool_decide_false by (rewrite length_app; cbn; lia).
    eexists _, _, (gone ++ [row]). split_and!; [done|done| | |].
    + unfold addDropped. split_guard; cbn; by rewrite Erest.
    + unfold addDropped. split_guard; cbn; rewrite Erest; (split; [exact H2|]);
        intros front r [-> _]%app_inj_tail; lia.
    + unfold Dropped. cbn. rewrite Est. unfold addDropped. rewrite bool_decide_false by (rewrite length_app; cbn; lia).
      cbn. lia.
Qed.

(** ** The memory budget *)

Lemma pe_size_nonneg e : 0 ≤ pe_size e.
Proof. unfold pe_size, payload_len. lia. Qed.

Lemma bytes_of_app l1 l2 : bytes_of (l1 ++ l2) = bytes_of l1 + bytes_of l2.
Proof. unfold bytes_of. induction l1 as [|e l1 IH]; [done|]. cbn. lia. Qed.

Definition memory_ok (s : Spool) : Prop :=
  sp_bufBytes s = bytes_of (sp_buf s) ∧ bytes_of (sp_buf s) ≤ MaxMemoryBytes (sp_cfg s).

Lemma trim_memory_spec max buf :
  0 ≤ max → ∃ gone rest, buf = gone ++ rest ∧
    trim_memory max (bytes_of buf) buf = (rest, bytes_of rest, Z.of_nat (length gone)) ∧ bytes_of rest ≤ max ∧
    ∀ front e, gone = front ++ [e] → max < bytes_of (e :: rest).
Proof.
  intros Hm. induction buf as [|e buf (gone & rest & E & Et & Hr & Hl)].
  { exists [], []. split_and!; try done. intros front e H. by destruct front. }
  cbn [trim_memory]. destruct (bool_decide_reflect (max < bytes_of (e :: buf))) as [Hb|Hb].
  - replace (bytes_of (e :: buf) - pe_size e) with (bytes_of buf) by (unfold bytes_of; cbn; lia).
    rewrite Et. exists (e :: gone), rest. split_and!; [by rewrite E|f_equal; cbn; lia|done|].
    intros front e' H. destruct front as [|x front]; injection H as <- H; [|by eapply Hl].
    by rewrite E, H in Hb.
  - exists [], (e :: buf). split_and!; [done..|lia|]. intros front e' H. by destruct front.
Qed.

(** The memory budget.  A spool without a store never holds more than its
    memory budget after a [Send], its byte count is exact, and the events it
    gives up are the oldest ones, each counted as dropped. *)
Theorem memory_only_bounded marshal now_ snt append_ok env evt s :
  sp_store s = None → 0 < MaxMemoryBytes (sp_cfg s) → memory_ok s →
  let s' := (Send marshal now_ snt append_ok env evt s).1.1 in
  memory_ok s' ∧ ∃ new gone, (length new ≤ 1)%nat ∧ sp_buf s ++ new = gone ++ sp_buf s' ∧
    sp_dropped s' = sp_dropped s + Z.of_nat (length gone).
Proof.
  intros Est Hpos [Hb Hm]. assert (Hen : Enabled (sp_cfg s) = true).
  { unfold Enabled. by rewrite bool_decide_true. }
  assert (Hsame : ∀ s', sp_buf s' = sp_buf s → sp_bufBytes s' = sp_bufBytes s → sp_cfg s' = sp_cfg s →
    sp_dropped s' = sp_dropped s → memory_ok s' ∧ ∃ new gone, (length new ≤ 1)%nat ∧
      sp_buf s ++ new = gone ++ sp_buf s' ∧ sp_dropped s' = sp_dropped s + Z.of_nat (length gone)).
  { intros s' E1 E2 E3 E4. unfold memory_ok. rewrite E1, E2, E3, E4. split; [done|].
    exists [], []. split_and!; cbn; [lia|by rewrite app_nil_r|lia]. }
  unfold Send, Send_queue. rewrite Hen. cbn [negb]. destruct (snapshotOf evt); [by apply Hsame|].
  unfold enqueue. destruct (marshal evt) as [payload|]; [|by apply Hsame]. cbn zeta.
  set (e := MkPending (ae_EventID evt) _ payload).
  set (s1 := s <| sp_buf ::= λ buf, buf ++ [e] |> <| sp_bufBytes ::= λ n, n + payload_len payload |>).
  assert (Hb1 : sp_bufBytes s1 = bytes_of (sp_buf s1)).
  { cbn. rewrite bytes_of_app, Hb. unfold bytes_of at 3, pe_size. cbn. lia. }
  destruct (bool_decide_reflect (MaxMemoryBytes (sp_cfg s1) ≤ sp_bufBytes s1)) as [Hge|Hlt].
  - unfold flush, flush_take. rewrite bool_decide_false by (cbn; by destruct (sp_buf s)).
    change (sp_store s1) with (sp_store s). rewrite Est. unfold trimMemoryLocked. rewrite Hb1.
    destruct (trim_memory_spec (MaxMemoryBytes (sp_cfg s1)) (sp_buf s1)) as (gone & rest & E & Et & Hr & _); [cbn; lia|].
    rewrite Et. cbn. split; [split; [done|exact Hr]|]. exists [e], gone. split_and!; [cbn; lia|exact E|done].
  - cbn. split; [split; [exact Hb1|]|].
    + cbn in Hlt, Hb1. cbn. rewrite <- Hb1. lia.
    + exists [e], []. split_and!; cbn; [lia|done|lia].
Qed.

(** ** A codec for the examples

    The payload is the event's identifier; the empty one cannot be read. *)
Module SpoolExample.
Definition codec (evt : AgentEvent) : option string := Some (ae_EventID evt).
Definition decode (p : string) : option AgentEvent :=
  if bool_decide (p = "") then None else Some (MkAgentEvent p (Some 0) 0 false BNone "").

Definition cfg := MkSpoolConfig 4 1000 0.
Definition event (id : string) : AgentEvent := MkAgentEvent id (Some 0) 0 false BContainer "".
Definition host : AgentEvent := MkAgentEvent "h" (Some 0) 0 false BHostOs "".

Definition t0 : Z := 1000 * second.

(** Four events are collected, written and stored before a stream comes. *)
Definition collected : list action :=
  [ACollect t0 true (event "a"); ACollect t0 true (event "b"); ACollect t0 true host; AFlushTake; AFlushEnd 0 true;
   ACollect t0 true (event "c"); AFlushTake; AFlushEnd 0 true].

Definition empty_store := MkStore [] 0 0.
Definition start := init cfg (Some empty_store).

Lemma empty_store_wf st : Some empty_store = Some st → wf_store st.
Proof. intros [= <-]. split; [constructor|by intros r ?%not_elem_of_nil|done]. Qed.

(** The stream comes, one event is refused and everything is sent again. *)
Definition refused_once : list action :=
  [AConnect t0 true 7] ++ replicate 11 (ADrain t0 true) ++
  [AServer t0 None true; AServer t0 None true; AServer t0 (Some second) true; AServer t0 None true;
   ATick t0 true; AReceive t0 true; AReceive t0 true] ++
  replicate 9 (ADrain (t0 + 2 * second) true) ++ replicate 3 (AServer t0 None true) ++ [ATick t0 true; AReceive t0 true].
Definition s0 := run codec decode collected start.
Definition s1 := run codec decode refused_once s0.

Definition row_b : spool_row := MkRow 2 "b" 0 "b" 1.

Definition store0 := MkStore [MkRow 1 "a" 0 "a" 1; row_b; MkRow 3 "c" 0 "c" 1] 3 0.

Lemma rows_collected : rows (run codec decode collected (init cfg (Some empty_store))) = ss_rows store0.
Proof. vm_compute. reflexivity. Qed.

Lemma rows_refused_once :
  rows (run codec decode refused_once (run codec decode collected (init cfg (Some empty_store)))) = [].
Proof. vm_compute. reflexivity. Qed.

Lemma collected_plain : Forall unnumbered collected ∧ Forall unnumbered refused_once ∧ Forall lossless refused_once.
Proof. split_and!; repeat constructor. Qed.

(** "b" was refused once; its row has left the store, and the dispatcher had it. *)
Lemma spool_at_least_once_witness :
  let y := run codec decode collected (init cfg (Some empty_store)) in
  let y' := run codec decode refused_once y in
  row_b ∈ rows y ∧ ¬ (row_b ∈ rows y') ∧
  (row_b ∈ rows y' ∨ ∃ evt, evt ∈ y_dispatched y' ∧ ae_Seq evt = sr_seq row_b ∧ @genuine decode row_b evt).
Proof.
  destruct collected_plain as (H1 & H2 & H3). cbv zeta.
  assert (Hr : row_b ∈ rows (run codec decode collected (init cfg (Some empty_store))))
    by (rewrite rows_collected; right; left).
  split; [exact Hr|split; [rewrite rows_refused_once; apply not_elem_of_nil|]].
  exact (spool_at_least_once (marshal := codec) cfg (Some empty_store) collected refused_once row_b
    eq_refl empty_store_wf H1 H2 H3 Hr (ex_intro _ _ eq_refl)).
Defined.


Definition attached0 : Spool :=
  Attach (t0 + second) (NewSpool cfg (Some store0) <| sp_buf := [MkPending "d" 5 "d"] |> <| sp_bufBytes := 1 |>).
Definition over_budget : Spool := NewSpool (MkSpoolConfig 4 10 0) (Some store0).

Lemma drain_sends_all_witness :
  ∃ s', drainOnce decode 21 (t0 + second) (MkBudgetEnv (Some 0) true true true) attached0 =
      (s', @sends decode (t0 + second)
        (ss_rows store0 ++ [MkRow 4 "d" 5 "d" 1]), true) ∧
    sp_buf s' = [] ∧ sp_sendSeq s' = 4.
Proof.
  apply (drain_sends_all (unmarshal := decode) 21 (t0 + second) (MkBudgetEnv (Some 0) true true true) 0 attached0 store0).
  - vm_compute. reflexivity.
  - split; [repeat constructor; vm_compute; reflexivity|apply Forall_forall; repeat constructor; vm_compute; discriminate|done].
  - vm_compute. discriminate.
  - split; [reflexivity|vm_compute; discriminate].
  - reflexivity.
  - vm_compute. discriminate.
  - vm_compute. lia.
Defined.

Lemma disk_budget_frees_witness :
  let s := over_budget in
  ∃ s' store' gone, enforceDiskBudget (MkBudgetEnv (Some 11) true true true) s = (s', Ok tt) ∧
    sp_store s' = Some store' ∧ ss_rows store0 = gone ++ ss_rows store' ∧
    frees (11 - 10 + Z.quot 10 10) gone (ss_rows store') ∧ Dropped s' = Dropped s + Z.of_nat (length gone).
Proof.
  apply (disk_budget_frees (MkBudgetEnv (Some 11) true true true) over_budget store0 11);
    try reflexivity.
  - split; [repeat constructor; vm_compute; reflexivity|apply Forall_forall; repeat constructor; vm_compute; discriminate|done].
  - repeat constructor; vm_compute; discriminate.
  - change (3 ≤ Z.to_nat 50000)%nat. lia.
  - vm_compute. split; reflexivity.
Defined.

Definition in_memory : Spool := NewSpool cfg None <| sp_buf := [MkPending "x" 0 "xx"] |> <| sp_bufBytes := 2 |>.

Lemma memory_only_bounded_witness :
  let s' := (Send codec t0 true true (MkBudgetEnv None true true true) (event "yyy") in_memory).1.1 in
  memory_ok s' ∧ ∃ new gone, (length new ≤ 1)%nat ∧ sp_buf in_memory ++ new = gone ++ sp_buf s' ∧
    sp_dropped s' = sp_dropped in_memory + Z.of_nat (length gone).
Proof.
  apply memory_only_bounded; [reflexivity|vm_compute; reflexivity|].
  split; [reflexivity|vm_compute; discriminate].
Defined.

(** *** A spool without a store

    [NewSpool] says it degrades to memory only; such a spool collects, trims its
    buffer and never sends a queued event. *)
Lemma memory_only_never_sends fuel now_ env s :
  sp_store s = None → (drainOnce decode (S fuel) now_ env s).1.2 = [].
Proof.
  intros E. unfold drainOnce, flush, flush_take. split_guard; cbn; rewrite E; [done|].
  cbn. unfold trimMemoryLocked. destruct (trim_memory _ _ _) as [[buf bytes] gone]. cbn. by rewrite E.
Qed.

(** *** Writes that fail

    A batch that could not be written comes back to memory, where nothing trims
    it: with a store that refuses writes the memory budget does not hold. *)
Definition failing : Spool := NewSpool cfg (Some empty_store).
Definition collect_failing (s : Spool) : Spool :=
  (Send codec t0 true false (MkBudgetEnv None true true true) (event "xxxx") s).1.1.

Example failing_writes_exceed_memory :
  sp_bufBytes (Nat.iter 10 collect_failing failing) = 40 ∧ MaxMemoryBytes (sp_cfg failing) = 4.
Proof. by vm_compute. Qed.

(** *** An acknowledgement that never moves again

    Once something is refused, what comes above it moves nothing. *)
Lemma refused_freezes a seqs :
  0 < ak_refused a → Forall (λ n, ak_refused a < n) seqs →
  let a' := foldl (λ a n, accept n a) a seqs in
  ak_highest a' = ak_highest a ∧ ak_refused a' = ak_refused a.
Proof.
  intros Hr Hs. revert a Hr Hs. induction seqs as [|n seqs IH]; intros a Hr Hs; [done|].
  apply Forall_cons in Hs as [Hn Hs]. cbn.
  assert (E : ak_refused (accept n a) = ak_refused a ∧ ak_highest (accept n a) = ak_highest a).
  { unfold accept. rewrite bool_decide_false by lia. cbn. rewrite bool_decide_true, bool_decide_true by done. done. }
  destruct E as [E1 E2]. destruct (IH (accept n a)) as [H1 H2]; [by rewrite E1|by rewrite E1|].
  by rewrite H1, H2.
Qed.

(** The server refuses "c", then "a" when it comes again, then acknowledges up to
    "b", which it had accepted the first time: the agent goes on after "b", and
    the refusal of "a" is never lifted. *)
Definition freezing : list action :=
  [AConnect t0 true 0] ++ replicate 11 (ADrain t0 true) ++
  [AServer t0 None true; AServer t0 None true; AServer t0 (Some second) true; AReceive t0 true] ++
  replicate 3 (ADrain (t0 + 2 * second) true) ++ [AServer t0 (Some second) true; ATick t0 true;
   AReceive (t0 + 2 * second) true; AReceive t0 true] ++ replicate 9 (ADrain (t0 + 4 * second) true) ++
  [AServer t0 None true; ATick t0 true].
Definition frozen := run codec decode freezing s0.

Example acknowledgement_frozen :
  (sr_seq <$> rows frozen) = [3] ∧ (ae_Seq <$> y_dispatched frozen) = [1; 2; 3] ∧
  y_down frozen = [] ∧ (ak_refused ∘ ps_acks <$> y_session frozen) = Some 1.
Proof. vm_compute. done. Qed.
End SpoolExample.
